(* ===== verification/_CoqProject ===== *)
-Q . S2P
Prelude.v
GoStrings.v
Values.v
Dialect.v
Semantic.v
ReadOnly.v
LogicalQuery.v
PhysicalRef.v
ExprParse.v
ExprGrammar.v
Suggest.v
Pii.v
RowFilter.v
CompileMonad.v
Effects.v
ExprCompile.v
Calendar.v
Joins.v
Composite.v
Cycles.v
Measures.v
TextEffects.v
MeasuresTotal.v
Publish.v
CompositePublish.v
FilterSQL.v
SelectSQL.v
Validator.v
Validated.v
Compiler.v
ValidatedCompile.v
HttpClient.v
StatementEffects.v
Placeholders.v
Compiled.v
PublishedCompile.v
Versions.v
GrainRepair.v
Pagination.v
Fingerprint.v
Enrich.v
Execute.v
QueryService.v
ServiceSafety.v
ServiceDemo.v
AgentPolicy.v
AgentContracts.v
AgentState.v
AgentTools.v
AgentRuntime.v
AgentSafety.v
AgentDemo.v
Interleave.v
Tables.v
AuthStore.v
AuthLogic.v
AuthText.v
Sessions.v
Users.v
AuthTokens.v
Mfa.v
Rbac.v
AuthService.v
AuthAccounts.v
Workspaces.v
Passkeys.v
AuthConcurrent.v
AuthLogin.v
AuthAccess.v
AuthDemo.v
AIJobs.v
AIJobService.v
AIJobHandlers.v
AIJobQueue.v
AIJobSafety.v
AIJobOutcome.v
Gate.v
GateSafety.v
AuthAdmin.v
AdminSafety.v
