(* ===== verification/Prelude.v ===== *)
(** * A verification library for biqly

    biqly answers analytical questions over a semantic model.  A question becomes
    a [LogicalQuery] (written by hand, by an analyst's tool or by a language
    model), which the Go packages under [src/internal/query],
    [src/internal/dialect], [src/internal/security], [src/pkg/semantic] and
    [src/pkg/logicalquery] turn into one SQL statement with bind arguments, under
    a policy of row filters and column masking; the service of
    [src/internal/core] runs it.  Models are edited, checked and published
    ([src/internal/semantic]); an agent ([src/internal/agent]) plans such queries
    in steps; what takes long runs as a job in the background
    ([src/internal/metadata/ai_jobs.go], [src/internal/http/handlers],
    [src/internal/queue]); users sign in and are given permissions by the service of
    [src/internal/auth], which the gates in front of the other services ask
    ([src/internal/http/middleware]).  This library models these seven parts.

    ** The files, in dependency order

    Shared:
    - [Prelude]: Go errors and results, list, option and sorting lemmas, the
      tactics and hints every file uses; computations that leave a trace of events of
      a world outside ([Traced]).  [GoStrings]: bytes, runes and
      the functions of Go's [strings], [strconv] and [net/url] the code calls.
      [Values]: the dynamic values ([any]) of filters.

    The query compiler:
    - [Dialect] ([internal/dialect]): the SQL of the five databases, the interface
      [Dialect] they implement and the laws the compiler relies on ([Laws]),
      and SQL texts with holes for placeholders.
    - [Semantic] ([pkg/semantic]): models, metrics, expression trees, their
      validation and dependencies.
    - [ReadOnly] ([internal/security/readonly.go], [function_blocklist.go]): the
      gate that lets only a single read-only statement through.
    - [LogicalQuery] ([pkg/logicalquery], [internal/query/logical.go],
      [structured_query.go]): queries and their structured form.
    - [PhysicalRef] ([physical_ref.go], [planner.go], [join_compat.go]): which
      column a reference names, and the plan of a query.
    - [ExprParse], [ExprGrammar] ([expression_parse.go]): the parser of metric
      expressions and the grammar it decides.
    - [Suggest] ([validation_helpers.go]): alternatives for a misspelt name.
    - [Pii] ([internal/security/pii], [pii_masking.go]): the policy on columns.
    - [RowFilter] ([row_injection.go], [permissions.go],
      [composite_permissions.go]): row filters and permissions.
    - [CompileMonad]: the compiler object.  Its methods share one argument list
      and one masking record through pointers and leave errors in a field, so a
      method is a function of the state [St] ([M]); [on_copy] is a call on a copy
      of the compiler, whose error is dropped.  [Effects]: what a computation may
      do to that state ([eff]), and how the texts it emits depend on the spelling
      of placeholders ([runs]).
    - [ExprCompile] ([expr_compiler.go]), [Calendar]
      ([calendar_grain_filter.go]), [Joins], [Measures], [FilterSQL],
      [SelectSQL], [Compiler] ([compiler.go], [compiler_filter.go],
      [compiler_case.go], [compiler_nested.go]): the compiler, one Definition per
      method, the methods that recurse through each other given as arguments.
    - [Validator] ([validator.go]): the checks before compilation.  [Validated]:
      the typing judgement it decides.  [ValidatedCompile]: both together.
    - [TextEffects], [MeasuresTotal], [StatementEffects], [Placeholders],
      [Compiled]: what is proved of the compiler as a whole.

    Models and their publication:
    - [Composite] ([composite.go]): several models merged into one.  [Cycles]
      ([metric_graph.go]): the search for circular references.  [Publish],
      [CompositePublish] ([publish.go], [composite_validation.go]): the gates a
      draft passes.  [PublishedCompile]: what passed compiles.  [Versions]
      ([internal/semantic/repository.go]): the draft and the snapshots of a model
      as a state machine.

    Running queries:
    - [HttpClient] ([pkg/common/httpclient]): retries and the circuit breaker.
    - [GrainRepair], [Pagination], [Fingerprint], [Enrich]: repairs of names before
      a query, its total count, its fingerprint, the presentation of its result.
    - [Execute] ([executor.go]), [QueryService] ([internal/core]): a request from
      loading to audit.  [ServiceSafety]: what its traces satisfy.
      [ServiceDemo]: runs in a small world.

    The agent:
    - [AgentPolicy] ([policy.go]), [AgentContracts] ([contracts.go], [shadow.go]),
      [AgentState], [AgentTools], [AgentRuntime] ([runtime.go], [cmd/agent]): the
      policy on tool calls, the envelopes of its queue, the durable state of a run,
      the tools and the loop; [AgentContracts] also has the adapters between it and
      the services.  [AgentSafety]: what
      may be saved and called when, as a relation the loop follows, and the
      guarantees.  [AgentDemo]: runs.

    Programs on shared state:
    - [Interleave]: programs as sequences of atomic steps; running one alone
      ([exec], with its weakest precondition [wp]), many together ([interleaves]),
      and ways to reason on both: what every step does ([steps_in]), results under
      an invariant ([under]), what only one program can do ([once]), and what a
      program guarantees to others while they keep to what it relies on ([rg]).
    - [Tables]: tables of a database and the statements on them.

    Authentication:
    - [AuthStore]: the database as a record of tables, Redis, the letters sent and
      the memory of the process; one statement, transaction or command is one step,
      and each may fail, before or after it took effect.  [Env] gives the clock,
      random numbers, hashes and faults.
    - [AuthText] ([emailaddr], [validator.go], [password*.go]), [Sessions]
      ([session.go]), [Users] ([repository.go], [account_state.go]), [AuthTokens]
      ([magiclink.go], [pat.go] and the tokens of the repository), [Mfa]
      ([internal/auth/mfa]), [Rbac] ([internal/auth/rbac]): the repositories and
      their services, one Definition per operation.
    - [AuthService], [AuthAccounts] ([service*.go], [jwt.go], [oauth_exchange.go],
      [invitation.go]): the ways to sign in and the life of an account.
      [Workspaces] ([internal/auth/workspace], [datasource_access.go]).  [Passkeys]
      ([webauthn.go] and the handlers of the second factor).
    - [AuthLogic]: the rules for the statements of these programs.
      [AuthConcurrent]: the operations as requests, what each does to sessions and
      magic links, step by step, and what follows of them together.  [AuthLogin],
      [AuthAccess]: the theorems on single requests.  [AuthDemo]: a small installation.

    AI jobs:
    - [AIJobs] ([internal/metadata/ai_jobs.go]): the table of jobs with its
      constraints, and every statement on it as one step.  [JobEnv] gives the clock,
      the keys and the faults.
    - [AIJobService] ([ai_job_service.go], [ai_job_exec.go],
      [ai_describe_relations.go], [describe_scope.go]): what starts a job, cancels
      it and works on it.  [AIWork] gives the answers of what a job works with.
    - [AIJobHandlers] ([ai_jobs.go], [pagination.go]): the requests, with the caller
      the middleware found.  [AIJobQueue] ([internal/queue], [dynamicSemaphore]):
      the messages, the routes and the semaphore.
    - [AIJobSafety]: what holds in every interleaving of requests and workers.
      [AIJobOutcome]: the progress of a job, single requests, and examples.

    Gates and administration:
    - [Gate] ([middleware/jwt.go], [permission.go], [apikey.go],
      [internal_auth_middleware.go]): who calls, the client of the authentication service
      with its caches, the gates of permissions and datasources, and chains of them
      ([gates]).  [GateEnv] gives the clock, the answers to calls, the library of signed
      tokens and the order in which Go ranges over a map.
    - [GateSafety]: what the gates let through and what the caches hold, in every
      interleaving ([sound], [passes]).
    - [AuthAdmin] ([handler_rbac.go], and the lists of [workspace.go], [audit.go],
      [rbac_repository.go]): the routes of administration and those the other services
      call, each its gates and its handler ([serve]).
    - [AdminSafety]: programs that change things only after a condition held
      ([guarded]); what each route asks ([authority]); both services together
      ([entitled]).
    ** What is shown

    - The compiler ([Compiled], [Joins]): in the dialects that number placeholders,
      those of a compiled query are those of its arguments; every SELECT
      carries the row filters, compilation ends, the joins of a query on its base table
      connect the tables it needs, each once, whatever the order in which Go ranges over
      a map.
    - The gates ([ReadOnly], [Pii], [RowFilter], [ExprCompile], [Publish],
      [CompositePublish]): what they accept is characterised exactly, and their
      failures fail closed.  What validation accepts is typed ([Validated]) and its
      SQL is bounded ([ValidatedCompile]); what was published compiles
      ([Versions], [PublishedCompile]).
    - The languages ([ExprGrammar], [Semantic], [Dialect]): the parser decides a
      grammar, validation decides well-formedness, quoted strings are read back as
      they were.
    - The service ([ServiceSafety]): only statements that were validated, compiled
      under the caller's policy and passed the gate reach a database; what is opened
      is closed, what is run is recorded with its statement and the decisions of the
      policy, internal errors stay inside.  The circuit breaker refines a machine of three
      phases, in which a call that began in an earlier phase still counts ([HttpClient]).
    - The agent ([AgentPolicy], [AgentSafety]): the policy is characterised, state is
      saved before a tool is called, runs end, and what they ask of the services stays
      within the job, or within the rights of the caller.
    - Authentication, in every interleaving of requests ([AuthConcurrent]): a magic
      link signs in at most once, the token of a session is not exchanged by a request
      that begins after its revocation,
      the keys of sessions stay distinct.  Alone ([AuthLogin], [AuthAccess]): what a rotation and its replay do, who a login admits, what the
      checks of permissions and of access to data sources decide.
    - AI jobs, in every interleaving ([AIJobSafety]): no job is lost, none leaves the
      ranges of its columns, whoever is not an administrator touches and is shown
      only its own.  The progress a worker reports does not go back while nobody
      else writes to the job; a request adds one job or says why not; the status of
      the queue is what the table says ([AIJobOutcome]); the semaphore bounds the
      jobs that run ([AIJobQueue]).
    - Administration, in every interleaving ([AdminSafety]): whoever changes a table or is
      not refused held before all that the route asks - permissions also where a check was
      answered from the cache, membership, ownership, a role that is theirs to give.
    - The gates, in every interleaving, for ids without a colon: the caches of the client
      are bounded and hold only what the service answered to that question
      ([GateSafety]); whoever passes is
      entitled by the database behind the service ([AdminSafety]).
    Where the code does not do what it means to, an [Example] next to the theorem
    or in a [Demo] file evaluates the model on an input that shows it.

    ** Conventions

    Strings are lists of bytes, as in Go.  A function that may fail returns [res].
    A loop or recursion that Coq cannot see to end takes [fuel] and answers
    [EFuel] when it is used up; for each of them a theorem says that the fuel the
    caller gives is enough: the length of the input for the lexer and the parser,
    twice the number of joins and one more for the search, the nesting of SELECTs
    for [compileStatement] and [query_depth] in the query service, one more than
    the names of a graph for the searches for cycles, the number of names taken for
    a fresh one, one more turn than [MaxSteps] for a run of the agent, the number of
    edges of the inheritance for the roles of a user - or, for metrics that refer to
    each other, exactly when any amount is.  Go ranges over a map in an unspecified
    order: [MapOrder] is that order, and the theorems hold for each.  [GoRuntime]
    is what is used of Go's standard library and not defined here (floating-point
    formatting, the parsing of dates, Unicode case folding), a parameter of the
    definitions; so are the classes [Unicode], [Totp], [Outside], [WebAuthnLib],
    [AgentJSON], [JobWorld], [JobEnv], [AIWork] and [GateEnv] of the files that need more.

    ** Not modelled

    The databases that are queried and the rows they return, the decoding of HTTP
    requests, cookies and the limits on requests, the constraint that an id is a UUID, the connection to the message
    server, mail, the language-model clients and the prompts: they are I/O around these parts or call out to services
    whose source is not here.  Of authentication: the export of personal data, the
    configuration and the client of the directory, the access to AI models, the
    encryption of what is stored.  Of the agent: the stores behind it.  Everywhere:
    spans, metrics, log lines and timings. *)

From stdpp Require Export base list gmap strings pretty sorting.
From stdpp Require Import options.
From Stdlib Require Export Ascii String ZArith Lia.
From Stdlib Require Import Permutation.
#[local] Open Scope list_scope.
#[global] Arguments String.append : simpl never.
(** [length] is the length of a list; a string's is [String.length]. *)
Abbreviation length := Datatypes.length.

(** * Results of fallible code *)

(** [ValidationError] is [pkg/query.ValidationError]: what the validator and the
    compiler report to the caller about one offending location. *)
Record ValidationError : Type := mkValidationError {
  ve_field : string;
  ve_code : string;
  ve_message : string;
  ve_value : string;
  ve_allowed : list string;
}.

(** A Go [error]: a plain message ([errors.New], [fmt.Errorf] without [%w]), a
    [ValidationErrors] value, or a wrapped error ([fmt.Errorf] with [%w]).
    [EFuel] is not a Go error: it is what a definition with fuel answers when the
    fuel is used up, and the development proves that it never answers it. *)
Inductive goerr : Type :=
| EMsg (msg : string)
| EValidation (errs : list ValidationError)
| EWrap (ctx : string) (e : goerr)
| EFuel.

Inductive res (A : Type) : Type :=
| Ok (a : A)
| Err (e : goerr).
Arguments Ok {A} _.
Arguments Err {A} _.

#[global] Instance ValidationError_eq_dec : EqDecision ValidationError.
Proof. solve_decision. Defined.
#[global] Instance goerr_eq_dec : EqDecision goerr.
Proof. solve_decision. Defined.
#[global] Instance res_eq_dec {A} `{EqDecision A} : EqDecision (res A).
Proof. solve_decision. Defined.

Definition res_bind {A B} (m : res A) (f : A -> res B) : res B :=
  match m with
  | Ok a => f a
  | Err e => Err e
  end.

Definition res_map_err {A} (f : goerr -> goerr) (m : res A) : res A :=
  match m with
  | Ok a => Ok a
  | Err e => Err (f e)
  end.

Declare Scope biq_scope.
Delimit Scope biq_scope with biq.
Notation "'let?' x ':=' m 'in' k" := (res_bind m (fun x => k))
  (at level 10, x pattern, m at level 100, k at level 200) : biq_scope.
#[global] Open Scope biq_scope.

(** An error that no used-up fuel caused. *)
Fixpoint no_fuel (e : goerr) : Prop :=
  match e with
  | EFuel => False
  | EWrap _ e => no_fuel e
  | _ => True
  end.

Definition is_ok {A} (r : res A) : bool :=
  match r with Ok _ => true | Err _ => false end.

Lemma res_bind_ok {A B} (m : res A) (f : A -> res B) b :
  res_bind m f = Ok b -> exists a, m = Ok a /\ f a = Ok b.
Proof. destruct m; simpl; [eauto | discriminate]. Qed.

Lemma res_bind_assoc {A B C} (m : res A) (f : A -> res B) (g : B -> res C) :
  res_bind (res_bind m f) g = res_bind m (fun a => res_bind (f a) g).
Proof. by destruct m. Qed.

(** A computation that does not run out of fuel, and whose result satisfies [Q]. *)
Definition returns {A} (Q : A -> Prop) (m : res A) : Prop :=
  match m with Ok a => Q a | Err e => no_fuel e end.

Lemma returns_bind {A B} (P : A -> Prop) (Q : B -> Prop) (m : res A) (f : A -> res B) :
  returns P m -> (forall a, P a -> returns Q (f a)) -> returns Q (res_bind m f).
Proof. destruct m; simpl; auto. Qed.

Lemma returns_impl {A} (P Q : A -> Prop) (m : res A) :
  returns P m -> (forall a, P a -> Q a) -> returns Q m.
Proof. destruct m; simpl; auto. Qed.

(** Left-to-right traversal that stops at the first error: the Go idiom
    [for _, x := range xs { y, err := f(x); if err != nil { return err } ... }]. *)
Fixpoint res_mapM {A B} (f : A -> res B) (l : list A) : res (list B) :=
  match l with
  | [] => Ok []
  | x :: l' => let? y := f x in let? ys := res_mapM f l' in Ok (y :: ys)
  end.

Lemma res_mapM_ok {A B} (f : A -> res B) l ys :
  res_mapM f l = Ok ys <-> Forall2 (fun x y => f x = Ok y) l ys.
Proof.
  revert ys; induction l as [|x l IH]; intros ys; simpl.
  - split; [intros [= <-]; constructor | by inversion 1].
  - split.
    + intros (y & Hy & H)%res_bind_ok.
      apply res_bind_ok in H as (ys' & Hys & [= <-]).
      constructor; [done | by apply IH].
    + inversion 1 as [|? y ? ys' Hy Hr]; subst. rewrite Hy; simpl.
      apply IH in Hr as ->. done.
Qed.

(** * Integers *)

(** The arithmetic of [int], [int64] and [time.Duration], which wraps around. *)
Definition wrap64 (z : Z) : Z := ((z + 2 ^ 63) mod 2 ^ 64 - 2 ^ 63)%Z.
Lemma wrap64_small z : (- 2 ^ 63 <= z < 2 ^ 63)%Z -> wrap64 z = z.
Proof. intros Hz. unfold wrap64. rewrite Z.mod_small; lia. Qed.

(** * Tactics *)

(** Takes apart a chain of successful binds in the hypotheses. *)
Ltac res_inv :=
  repeat match goal with
  | H : res_bind _ _ = Ok _ |- _ =>
      let a := fresh "a" in let Ha := fresh "Ha" in
      apply res_bind_ok in H as (a & Ha & H)
  | H : Ok _ = Ok _ |- _ => injection H as H; subst
  | H : Err _ = Ok _ |- _ => discriminate H
  | H : Ok _ = Err _ |- _ => discriminate H
  end.

(** Case analysis on every match and test of the goal and hypotheses. *)
Ltac split_cases :=
  repeat (case_match; simplify_eq/=; try done).

Create HintDb biq.

(** * Lists *)

Lemma Forall2_self {A} (P : A -> A -> Prop) l :
  Forall (fun x => P x x) l -> Forall2 P l l.
Proof. induction 1; constructor; auto. Qed.

Lemma existsb_In {A} (f : A -> bool) l :
  existsb f l = true <-> exists x, x ∈ l /\ f x = true.
Proof.
  rewrite existsb_exists. split; intros (x & Hx & Hf); exists x;
    by (split; [apply list_elem_of_In in Hx || apply list_elem_of_In|]).
Qed.

(** Membership test on a list of strings: Go's [slices.Contains]. *)
Definition str_in (x : string) (l : list string) : bool :=
  existsb (String.eqb x) l.

Lemma str_in_spec x l : str_in x l = true <-> x ∈ l.
Proof.
  unfold str_in. rewrite existsb_In. split.
  - intros (y & Hy & ->%String.eqb_eq). done.
  - intros H. exists x. by rewrite String.eqb_refl.
Qed.

Lemma str_in_false x l : str_in x l = false <-> x ∉ l.
Proof. rewrite <- str_in_spec. destruct (str_in x l); naive_solver. Qed.

(** * Computations that leave a trace of events

    The world outside is not modelled: what it answers may depend on everything that happened
    before, so an answer is a function of the events so far.  A computation takes the events
    so far to its result and the events after it; [emits] states what it adds. *)

Definition Traced (E A : Type) : Type := list E -> A * list E.
Definition io_ret {E A} (a : A) : Traced E A := fun tr => (a, tr).
Definition io_bind {E A B} (m : Traced E A) (f : A -> Traced E B) : Traced E B := fun tr => let (a, tr) := m tr in f a tr.
Definition emit {E} (e : E) : Traced E unit := fun tr => (tt, tr ++ [e]).
(** An answer of the world outside. *)
Definition ask {E A} (f : list E -> A) : Traced E A := fun tr => (f tr, tr).

Notation "'let!' x ':=' m 'in' k" := (io_bind m (fun x => k))
  (at level 10, x pattern, m at level 100, k at level 200) : biq_scope.

(** * The events a computation adds *)

Definition emits {E A} (m : Traced E A) (Q : A -> list E -> Prop) : Prop :=
  forall tr, exists evs, (m tr).2 = tr ++ evs /\ Q (m tr).1 evs.

Section Emits.
Context {E : Type}.

Lemma emits_ret {A} (a : A) (Q : A -> list E -> Prop) : Q a [] -> emits (io_ret a) Q.
Proof using. intros HQ tr. exists []. by rewrite List.app_nil_r. Qed.
Lemma emits_emit (e : E) (Q : unit -> list E -> Prop) : Q tt [e] -> emits (emit e) Q.
Proof using. intros HQ tr. by exists [e]. Qed.
Lemma emits_ask {A} (f : list E -> A) (Q : A -> list E -> Prop) : (forall tr, Q (f tr) []) -> emits (ask f) Q.
Proof using. intros HQ tr. exists []. split; [by rewrite List.app_nil_r|apply HQ]. Qed.
Lemma emits_bind {A B} (m : Traced E A) (f : A -> Traced E B) (P : A -> list E -> Prop) (Q : B -> list E -> Prop) :
  emits m P -> (forall a e1, P a e1 -> emits (f a) (fun b e2 => Q b (e1 ++ e2))) -> emits (io_bind m f) Q.
Proof using.
  intros Hm Hf tr. unfold io_bind. destruct (Hm tr) as (e1 & H1 & HP). destruct (m tr) as [a tr1]. cbn in *. subst tr1.
  destruct (Hf a e1 HP (tr ++ e1)) as (e2 & H2 & HQ). exists (e1 ++ e2). by rewrite List.app_assoc.
Qed.
Lemma emits_impl {A} (m : Traced E A) (P Q : A -> list E -> Prop) :
  emits m P -> (forall a evs, P a evs -> Q a evs) -> emits m Q.
Proof using. intros Hm HPQ tr. destruct (Hm tr) as (evs & He & HP). exists evs. auto. Qed.
End Emits.
