(* ===== verification/GoStrings.v ===== *)
(** Go strings and the functions of Go's [strings], [strconv], [unicode/utf8] and [net/url]
    packages the modelled code calls.  A Go string is a sequence of bytes, here a [string]
    (a list of 8-bit [ascii]).  The case and white-space functions act on the
    ASCII letters and the ASCII white space and leave bytes of 128 and above
    unchanged: on ASCII text they are Go's functions; the code points outside
    ASCII that Go also folds or trims are not modelled.  The second part has the runes of
    a string and the escapes of a URL. *)

From S2P Require Import Prelude.
From stdpp Require Import options.

#[local] Open Scope nat_scope.

(** * Bytes *)

Definition code (c : ascii) : nat := nat_of_ascii c.

Definition between (lo hi : nat) (c : ascii) : bool := (lo <=? code c) && (code c <=? hi).
Definition is_lower (c : ascii) : bool := between 97 122 c.
Definition is_upper (c : ascii) : bool := between 65 90 c.
Definition is_digit (c : ascii) : bool := between 48 57 c.
Definition is_alpha (c : ascii) : bool := is_lower c || is_upper c.
(** The ASCII members of [unicode.IsSpace]: tab, LF, VT, FF, CR and blank. *)
Definition is_space (c : ascii) : bool := between 9 13 c || (code c =? 32).

Definition lower (c : ascii) : ascii := if is_upper c then ascii_of_nat (code c + 32) else c.
Definition upper (c : ascii) : ascii := if is_lower c then ascii_of_nat (code c - 32) else c.

(** * Whole-string functions *)

Fixpoint str_map (f : ascii -> ascii) (s : string) : string :=
  match s with
  | EmptyString => EmptyString
  | String c s' => String (f c) (str_map f s')
  end.

(** [strings.ToLower], [strings.ToUpper]. *)
Definition ToLower : string -> string := str_map lower.
Definition ToUpper : string -> string := str_map upper.

Fixpoint str_forallb (p : ascii -> bool) (s : string) : bool :=
  match s with
  | EmptyString => true
  | String c s' => p c && str_forallb p s'
  end.

Fixpoint trim_left (p : ascii -> bool) (s : string) : string :=
  match s with
  | EmptyString => EmptyString
  | String c s' => if p c then trim_left p s' else s
  end.

(** Drops the trailing bytes that satisfy [p]. *)
Fixpoint trim_right (p : ascii -> bool) (s : string) : string :=
  match s with
  | EmptyString => EmptyString
  | String c s' =>
      match trim_right p s' with
      | EmptyString => if p c then EmptyString else String c EmptyString
      | t => String c t
      end
  end.

(** [strings.TrimSpace]. *)
Definition TrimSpace (s : string) : string := trim_right is_space (trim_left is_space s).

(** [strings.HasPrefix s p], and what follows the prefix. *)
Fixpoint cut_prefix (p s : string) : option string :=
  match p, s with
  | EmptyString, _ => Some s
  | String a p', String b s' => if Ascii.eqb a b then cut_prefix p' s' else None
  | String _ _, EmptyString => None
  end.
Definition HasPrefix (s p : string) : bool :=
  match cut_prefix p s with Some _ => true | None => false end.
Definition TrimPrefix (s p : string) : string := default s (cut_prefix p s).

(** [strings.TrimSuffix], [strings.HasSuffix]: [cut_suffix sf s] is what
    precedes the suffix. *)
Fixpoint cut_suffix (sf s : string) : option string :=
  if String.eqb s sf then Some EmptyString else
  match s with
  | EmptyString => None
  | String c s' => String c <$> cut_suffix sf s'
  end.
Definition HasSuffix (s sf : string) : bool :=
  match cut_suffix sf s with Some _ => true | None => false end.
Definition TrimSuffix (s sf : string) : string := default s (cut_suffix sf s).

(** [strings.Contains s sub]. *)
Fixpoint Contains (s sub : string) : bool :=
  HasPrefix s sub ||
  match s with
  | EmptyString => false
  | String _ s' => Contains s' sub
  end.

(** [strings.ContainsAny] / [strings.IndexByte(...) >= 0] for one byte. *)
Fixpoint has_byte (c : ascii) (s : string) : bool :=
  match s with
  | EmptyString => false
  | String d s' => Ascii.eqb d c || has_byte c s'
  end.

(** [strings.Split s sep] for a separator of one byte: never empty. *)
Fixpoint Split (c : ascii) (s : string) : list string :=
  match s with
  | EmptyString => [EmptyString]
  | String d s' =>
      if Ascii.eqb d c then EmptyString :: Split c s'
      else match Split c s' with
           | [] => [String d EmptyString]
           | p :: ps => String d p :: ps
           end
  end.

(** [strings.Join parts sep]. *)
Fixpoint Join (parts : list string) (sep : string) : string :=
  match parts with
  | [] => ""
  | [p] => p
  | p :: ps => p +:+ sep +:+ Join ps sep
  end.

(** [strings.Join chunks ""]. *)
Fixpoint Concat (parts : list string) : string :=
  match parts with
  | [] => ""
  | p :: ps => p +:+ Concat ps
  end.

(** [strings.ReplaceAll s old new] for an [old] of one byte. *)
Fixpoint ReplaceByte (c : ascii) (new s : string) : string :=
  match s with
  | EmptyString => EmptyString
  | String d s' => if Ascii.eqb d c then new +:+ ReplaceByte c new s' else String d (ReplaceByte c new s')
  end.

(** A quoted body: every quote inside is doubled. *)
Definition double (q : ascii) (v : string) : string := ReplaceByte q (String q (String q "")) v.

(** [strings.EqualFold] on ASCII. *)
Definition EqualFold (s t : string) : bool := String.eqb (ToLower s) (ToLower t).

(** [strconv.Itoa]. *)
Definition Itoa (z : Z) : string := pretty z.

(** [strconv.Atoi]: a sign, if any, and digits, of a number that is an [int]. *)
Fixpoint digits_value (acc : Z) (s : string) : Z :=
  match s with
  | EmptyString => acc
  | String c s' => digits_value (acc * 10 + Z.of_nat (code c - 48))%Z s'
  end.
Definition Atoi (s : string) : option Z :=
  let '(negative, body) := match s with
    | String "-" s' => (true, s')
    | String "+" s' => (false, s')
    | _ => (false, s)
    end in
  if String.eqb body "" || negb (str_forallb is_digit body) then None else
  let n := digits_value 0 body in
  let n := (if negative then - n else n)%Z in
  if ((- 2 ^ 63 <=? n) && (n <? 2 ^ 63))%Z then Some n else None.

(** [fmt.Sprintf] for formats made of text, [%s] verbs and [%%]. *)
Fixpoint Sprintf (f : string) (args : list string) : string :=
  match f with
  | EmptyString => EmptyString
  | String c f' =>
      if Ascii.eqb c "%" then
        match f' with
        | String d f'' =>
            if Ascii.eqb d "%" then String "%" (Sprintf f'' args)
            else if Ascii.eqb d "s" then
              match args with
              | a :: args' => a +:+ Sprintf f'' args'
              | [] => "%!s(MISSING)" +:+ Sprintf f'' []
              end
            else String c (Sprintf f' args)
        | EmptyString => String c EmptyString
        end
      else String c (Sprintf f' args)
  end.

(** [strconv.Quote], the [%q] verb: bytes of 128 and above are kept (they are
    printable UTF-8 text), control bytes are escaped. *)
Definition hex_digit (n : nat) : ascii :=
  if n <? 10 then ascii_of_nat (48 + n) else ascii_of_nat (87 + n).
Definition quote_byte (c : ascii) : string :=
  match code c with
  | 34 => String "\" (String c "")
  | 92 => "\\"
  | 7 => "\a" | 8 => "\b" | 9 => "\t" | 10 => "\n" | 11 => "\v" | 12 => "\f" | 13 => "\r"
  | n => if (n <? 32) || (n =? 127)
         then "\x" +:+ String (hex_digit (n / 16)) (String (hex_digit (n mod 16)) "")
         else String c ""
  end.
Fixpoint quote_body (s : string) : string :=
  match s with
  | EmptyString => EmptyString
  | String c s' => quote_byte c +:+ quote_body s'
  end.
Definition Quote (s : string) : string :=
  let q := String (ascii_of_nat 34) "" in q +:+ quote_body s +:+ q.

(** [string(ch)] for a byte: the UTF-8 text of that code point. *)
Definition rune_string (c : ascii) : string :=
  if code c <? 128 then String c ""
  else String (ascii_of_nat (192 + code c / 64)) (String (ascii_of_nat (128 + code c mod 64)) "").
(** [strconv.QuoteRune] of a byte, the [%q] verb on it. *)
Definition QuoteRune (c : ascii) : string :=
  "'" +:+ (if Ascii.eqb c "'" then "\'"
           else if code c =? 34 then String c ""
           else if code c <? 128 then quote_byte c
           else if (code c <? 161) || (code c =? 173)
           then "\u00" +:+ String (hex_digit (code c / 16)) (String (hex_digit (code c mod 16)) "")
           else rune_string c) +:+ "'".

(** Reads a string prefix of bytes satisfying [p] and what follows it. *)
Fixpoint span (p : ascii -> bool) (s : string) : string * string :=
  match s with
  | EmptyString => (EmptyString, EmptyString)
  | String c s' => if p c then let '(a, b) := span p s' in (String c a, b) else (EmptyString, s)
  end.

Definition head_is (p : ascii -> bool) (s : string) : bool :=
  match s with EmptyString => false | String c _ => p c end.

Definition str_empty (s : string) : bool := String.eqb s "".

(** [strings.Fields]: the maximal runs of bytes that are not white space;
    [cur] is the run being read. *)
Fixpoint fields_from (cur s : string) : list string :=
  match s with
  | EmptyString => if str_empty cur then [] else [cur]
  | String c s' =>
      if is_space c then
        if str_empty cur then fields_from "" s' else cur :: fields_from "" s'
      else fields_from (cur +:+ String c "") s'
  end.
Definition Fields (s : string) : list string := fields_from "" s.

(** [strings.Cut s sep] for a separator of one byte: the text before and after
    its first occurrence. *)
Fixpoint Cut (c : ascii) (s : string) : option (string * string) :=
  match s with
  | EmptyString => None
  | String d s' =>
      if Ascii.eqb d c then Some ("", s')
      else match Cut c s' with
           | Some (a, b) => Some (String d a, b)
           | None => None
           end
  end.

(** * Lemmas *)

Lemma app_cons c s t : String c s +:+ t = String c (s +:+ t).
Proof. done. Qed.
Lemma app_nil_l s : "" +:+ s = s.
Proof. done. Qed.
Lemma app_nil_r s : s +:+ "" = s.
Proof. induction s as [|c s IH]; [done|]. by rewrite app_cons, IH. Qed.
Lemma app_assoc s t u : (s +:+ t) +:+ u = s +:+ t +:+ u.
Proof. induction s as [|c s IH]; [done|]. by rewrite !app_cons, IH. Qed.
#[export] Instance str_app_assoc : Assoc (=) String.append.
Proof. intros s t u. symmetry. apply app_assoc. Qed.
Lemma length_app s t : String.length (s +:+ t) = String.length s + String.length t.
Proof. induction s as [|c s IH]; [done|]. rewrite app_cons; simpl. by rewrite IH. Qed.

(** Rewrites string appends to the right-nested form. *)
Ltac str_norm := rewrite ?app_assoc, ?app_cons, ?app_nil_l, ?app_nil_r.
Tactic Notation "str_norm" "in" hyp(H) :=
  rewrite ?app_assoc, ?app_cons, ?app_nil_l, ?app_nil_r in H.

Lemma all_ascii (P : ascii -> Prop) :
  (forall n, n < 256 -> P (ascii_of_nat n)) -> forall c, P c.
Proof.
  intros H c. rewrite <- (ascii_nat_embedding c). apply H, nat_ascii_bounded.
Qed.

(** Decides a boolean statement about every byte by evaluation. *)
Lemma ascii_forallb (p : ascii -> bool) :
  forallb (fun n => p (ascii_of_nat n)) (seq 0 256) = true -> forall c, p c = true.
Proof.
  intros H. apply all_ascii. intros n Hn.
  rewrite forallb_forall in H. apply H. apply in_seq. lia.
Qed.

Lemma lower_idem c : lower (lower c) = lower c.
Proof. apply Ascii.eqb_eq. revert c. by apply ascii_forallb. Qed.
Lemma upper_idem c : upper (upper c) = upper c.
Proof. apply Ascii.eqb_eq. revert c. by apply ascii_forallb. Qed.
Lemma lower_upper c : lower (upper c) = lower c.
Proof. apply Ascii.eqb_eq. revert c. by apply ascii_forallb. Qed.
Lemma upper_lower c : upper (lower c) = upper c.
Proof. apply Ascii.eqb_eq. revert c. by apply ascii_forallb. Qed.

Lemma str_map_map f g s : str_map f (str_map g s) = str_map (fun c => f (g c)) s.
Proof. induction s as [|c s IH]; simpl; [done|]. by rewrite IH. Qed.
Lemma str_map_ext f g s : (forall c, f c = g c) -> str_map f s = str_map g s.
Proof. intros H. induction s as [|c s IH]; simpl; [done|]. by rewrite H, IH. Qed.
Lemma str_map_app f s t : str_map f (s +:+ t) = str_map f s +:+ str_map f t.
Proof. induction s as [|c s IH]; [done|]. rewrite app_cons. simpl. by rewrite IH. Qed.

Lemma ToLower_idem s : ToLower (ToLower s) = ToLower s.
Proof. unfold ToLower. rewrite str_map_map. apply str_map_ext, lower_idem. Qed.
Lemma ToUpper_idem s : ToUpper (ToUpper s) = ToUpper s.
Proof. unfold ToUpper. rewrite str_map_map. apply str_map_ext, upper_idem. Qed.
Lemma ToLower_ToUpper s : ToLower (ToUpper s) = ToLower s.
Proof. unfold ToLower, ToUpper. rewrite str_map_map. apply str_map_ext, lower_upper. Qed.
Lemma ToUpper_ToLower s : ToUpper (ToLower s) = ToUpper s.
Proof. unfold ToLower, ToUpper. rewrite str_map_map. apply str_map_ext, upper_lower. Qed.

Lemma str_forallb_app p s t : str_forallb p (s +:+ t) = str_forallb p s && str_forallb p t.
Proof.
  induction s as [|c s IH]; [done|]. rewrite app_cons. simpl.
  by rewrite IH, andb_assoc.
Qed.
Lemma str_forallb_impl (p q : ascii -> bool) s :
  (forall c, p c = true -> q c = true) -> str_forallb p s = true -> str_forallb q s = true.
Proof.
  intros H. induction s as [|c s IH]; simpl; [done|].
  intros [Hp Hs]%andb_true_iff. by rewrite (H _ Hp), IH.
Qed.

Lemma has_byte_app c s t : has_byte c (s +:+ t) = has_byte c s || has_byte c t.
Proof.
  induction s as [|d s IH]; [done|]. rewrite app_cons. simpl.
  by rewrite IH, orb_assoc.
Qed.

Lemma app_nonempty_r s t : t <> "" -> s +:+ t <> "".
Proof. destruct s; [by rewrite app_nil_l|by rewrite app_cons]. Qed.
Lemma app_nonempty_l s t : s <> "" -> s +:+ t <> "".
Proof. destruct s; [done|by rewrite app_cons]. Qed.
Lemma Split_nonempty c s : Split c s <> [].
Proof. destruct s; simpl; [done|]. destruct (Ascii.eqb _ _); [done|]. by case_match. Qed.

Lemma Join_cons p ps sep : ps <> [] -> Join (p :: ps) sep = p +:+ sep +:+ Join ps sep.
Proof. by destruct ps. Qed.

(** Joining the parts of a split gives the string back. *)
Lemma Join_Split c s : Join (Split c s) (String c "") = s.
Proof.
  induction s as [|d s IH]; simpl; [done|].
  destruct (Ascii.eqb_spec d c) as [->|Hd].
  - rewrite Join_cons by apply Split_nonempty. by rewrite IH.
  - pose proof (Split_nonempty c s) as Hne.
    destruct (Split c s) as [|p ps] eqn:E; [done|]. rewrite <- IH.
    by destruct ps.
Qed.

Lemma Split_no_sep c s : Forall (fun p => has_byte c p = false) (Split c s).
Proof.
  induction s as [|d s IH]; simpl; [by constructor|].
  destruct (Ascii.eqb d c) eqn:Hd; [by constructor|].
  destruct (Split c s) as [|p ps]; [by constructor; simpl; rewrite ?Hd|].
  inversion IH; subst. constructor; simpl; [by rewrite Hd | done].
Qed.

Lemma Split_app_sep c p s :
  has_byte c p = false -> Split c (p +:+ String c s) = p :: Split c s.
Proof.
  induction p as [|d p IH]; simpl.
  - intros _. change ("" +:+ String c s) with (String c s). simpl. by rewrite Ascii.eqb_refl.
  - intros [Hd Hp]%orb_false_iff. by rewrite Hd, IH.
Qed.
Lemma Split_single c p : has_byte c p = false -> Split c p = [p].
Proof.
  induction p as [|d p IH]; simpl; [done|].
  intros [Hd Hp]%orb_false_iff. by rewrite Hd, IH.
Qed.

(** Splitting a join of parts without the separator gives the parts back. *)
Lemma Split_Join c ps :
  ps <> [] -> Forall (fun p => has_byte c p = false) ps ->
  Split c (Join ps (String c "")) = ps.
Proof.
  induction ps as [|p ps IH]; [done|]. intros _ [Hp Hps]%Forall_cons_1.
  destruct ps as [|q qs]; [by apply Split_single|].
  rewrite Join_cons by done. rewrite app_cons, app_nil_l.
  rewrite Split_app_sep by done. by rewrite IH.
Qed.

Lemma EqualFold_refl s : EqualFold s s = true.
Proof. apply String.eqb_refl. Qed.
Lemma EqualFold_sym s t : EqualFold s t = EqualFold t s.
Proof. apply String.eqb_sym. Qed.
Lemma EqualFold_spec s t : EqualFold s t = true <-> ToLower s = ToLower t.
Proof. apply String.eqb_eq. Qed.

Lemma cut_prefix_app p s t : cut_prefix p s = Some t -> s = p +:+ t.
Proof.
  revert s; induction p as [|a p IH]; intros s; simpl; [by intros [= ->]|].
  destruct s as [|b s]; [done|]. destruct (Ascii.eqb_spec a b) as [->|]; [|done].
  intros H%IH. by rewrite app_cons, H.
Qed.
Lemma cut_prefix_app_2 p t : cut_prefix p (p +:+ t) = Some t.
Proof.
  induction p as [|a p IH]; [done|]. rewrite app_cons. simpl.
  by rewrite Ascii.eqb_refl.
Qed.
Lemma HasPrefix_spec s p : HasPrefix s p = true <-> exists t, s = p +:+ t.
Proof.
  unfold HasPrefix. split.
  - destruct (cut_prefix p s) as [t|] eqn:E; [|done]. eauto using cut_prefix_app.
  - intros [t ->]. by rewrite cut_prefix_app_2.
Qed.

Lemma str_empty_spec s : str_empty s = true <-> s = "".
Proof. apply String.eqb_eq. Qed.
Lemma str_empty_false s : str_empty s = false <-> s <> "".
Proof. apply String.eqb_neq. Qed.
Lemma cut_suffix_spec sf s p : cut_suffix sf s = Some p <-> s = p +:+ sf.
Proof.
  revert p. induction s as [|c s IH]; intros p; cbn [cut_suffix];
    match goal with |- context [String.eqb ?x sf] => destruct (String.eqb_spec x sf) as [<-|Hne] end.
  - split; [by intros [= <-]|]. by destruct p.
  - split; [done|]. intros Hs. destruct p; [by subst|done].
  - split; [by intros [= <-]|]. intros Hs. destruct p as [|c' p]; [done|]. exfalso.
    apply (f_equal String.length) in Hs. rewrite length_app in Hs. cbn [String.length] in Hs. lia.
  - rewrite fmap_Some. split.
    + intros (q & ->%IH & ->). done.
    + intros Hs. destruct p as [|c' p]; [by destruct Hne|]. injection Hs as -> ->. exists p. split; [by apply IH|done].
Qed.
Lemma HasSuffix_spec s sf : HasSuffix s sf = true <-> exists p, s = p +:+ sf.
Proof.
  unfold HasSuffix. setoid_rewrite <- cut_suffix_spec. destruct (cut_suffix sf s) as [p|]; [|naive_solver].
  split; [by exists p|done].
Qed.
Lemma TrimSuffix_app p sf : TrimSuffix (p +:+ sf) sf = p.
Proof. unfold TrimSuffix. by rewrite (proj2 (cut_suffix_spec sf _ p) eq_refl). Qed.

Lemma split_suffix a t b v : a +:+ t = b +:+ v ->
  (exists v', v = v' +:+ t /\ a = b +:+ v') \/ (exists b', b = a +:+ b' /\ t = b' +:+ v).
Proof.
  revert b. induction a as [|c a IH]; intros b Hab.
  - right. exists b. by rewrite app_nil_l in *.
  - destruct b as [|d b]; [left; exists (String c a); by rewrite app_nil_l in *|].
    rewrite !app_cons in Hab. injection Hab as -> [(v' & -> & ->)|(b' & -> & ->)]%IH; [left|right]; by eexists.
Qed.

Lemma span_spec p s :
  let '(a, b) := span p s in
  s = a +:+ b /\ str_forallb p a = true /\ head_is p b = false.
Proof.
  induction s as [|c s IH]; simpl; [done|].
  destruct (p c) eqn:Hc; [|by split_and!].
  destruct (span p s) as [a b]. destruct IH as (-> & Ha & Hb).
  rewrite app_cons. split_and!; [done| simpl; by rewrite Hc | done].
Qed.
Lemma span_app p a b :
  str_forallb p a = true -> head_is p b = false -> span p (a +:+ b) = (a, b).
Proof.
  intros Ha Hb. induction a as [|c a IH].
  - rewrite app_nil_l. destruct b as [|c b]; simpl in *; [done|]. by rewrite Hb.
  - simpl in Ha. apply andb_true_iff in Ha as [Hc Ha]. rewrite app_cons. simpl.
    by rewrite Hc, IH.
Qed.

(** ** Trimming *)

Lemma lower_space c : is_space (lower c) = is_space c.
Proof. apply eqb_true_iff. revert c. by apply ascii_forallb. Qed.
Lemma upper_space c : is_space (upper c) = is_space c.
Proof. apply eqb_true_iff. revert c. by apply ascii_forallb. Qed.

Section Trim.
Context (p : ascii -> bool) (f : ascii -> ascii) (Hf : forall c, p (f c) = p c).

Lemma trim_left_map s : trim_left p (str_map f s) = str_map f (trim_left p s).
Proof using Hf. induction s as [|c s IH]; simpl; [done|]. rewrite Hf. by destruct (p c). Qed.
Lemma trim_right_map s : trim_right p (str_map f s) = str_map f (trim_right p s).
Proof using Hf.
  induction s as [|c s IH]; simpl; [done|]. rewrite IH, Hf. destruct (trim_right p s); simpl; [|done].
  by destruct (p c).
Qed.
End Trim.

Lemma TrimSpace_ToLower s : TrimSpace (ToLower s) = ToLower (TrimSpace s).
Proof.
  unfold TrimSpace, ToLower. by rewrite trim_left_map, trim_right_map by apply lower_space.
Qed.
Lemma trim_right_idem p s : trim_right p (trim_right p s) = trim_right p s.
Proof.
  induction s as [|c s IH]; simpl; [done|]. destruct (trim_right p s) as [|c' s'] eqn:E; simpl in *.
  - destruct (p c) eqn:Hc; simpl; [done|by rewrite Hc].
  - by rewrite IH.
Qed.
Lemma trim_left_right p s : trim_left p s = s -> trim_left p (trim_right p s) = trim_right p s.
Proof.
  destruct s as [|c s]; simpl; [done|]. destruct (p c) eqn:Hc.
  - intros H. exfalso. assert (forall t, String.length (trim_left p t) <= String.length t) as Hl.
    { induction t as [|d t IH]; simpl; [done|]. destruct (p d); simpl; lia. }
    specialize (Hl s). rewrite H in Hl. simpl in Hl. lia.
  - intros _. destruct (trim_right p s); simpl; by rewrite Hc.
Qed.
Lemma trim_left_idem p s : trim_left p (trim_left p s) = trim_left p s.
Proof. induction s as [|c s IH]; simpl; [done|]. destruct (p c) eqn:Hc; simpl; [done|by rewrite Hc]. Qed.
Lemma TrimSpace_idem s : TrimSpace (TrimSpace s) = TrimSpace s.
Proof.
  unfold TrimSpace. rewrite trim_left_right by apply trim_left_idem. apply trim_right_idem.
Qed.

(** * Error texts *)

(** [err.Error()] *)
Fixpoint Error (e : goerr) : string :=
  match e with
  | EMsg msg => msg
  | EValidation [] => ""
  | EValidation errs =>
      "validation failed:" +:+ Concat (map (fun v => " " +:+ ve_field v +:+ ": " +:+ ve_message v +:+ ";") errs)
  | EWrap ctx e => ctx +:+ ": " +:+ Error e
  | EFuel => ""
  end.

#[local] Open Scope nat_scope.

(** * Runes *)

(** [utf8.RuneStart]: not a continuation byte. *)
Definition RuneStart (c : ascii) : bool := negb (between 128 191 c).

(** The bytes that may follow a first byte, and how many there are after them. *)
Definition second_byte (c : ascii) : option (nat * nat * nat) :=
  if between 194 223 c then Some (128, 191, 0)
  else if code c =? 224 then Some (160, 191, 1)
  else if code c =? 237 then Some (128, 159, 1)
  else if between 225 239 c then Some (128, 191, 1)
  else if code c =? 240 then Some (144, 191, 2)
  else if between 241 243 c then Some (128, 191, 2)
  else if code c =? 244 then Some (128, 143, 2)
  else None.
Fixpoint continues (n : nat) (s : string) : bool :=
  match n, s with
  | 0, _ => true
  | S n, String c s => between 128 191 c && continues n s
  | S _, EmptyString => false
  end.
(** How many bytes follow the first of the rune at the head of a text; [None] for a byte
    that is not part of one. *)
Definition rune_rest (s : string) : option nat :=
  match s with
  | EmptyString => None
  | String c s =>
      if code c <? 128 then Some 0 else
      match second_byte c, s with
      | Some (lo, hi, n), String d s => if between lo hi d && continues n s then Some (S n) else None
      | _, _ => None
      end
  end.
Definition RuneError : string := String (ascii_of_nat 239) (String (ascii_of_nat 191) (String (ascii_of_nat 189) "")).

(** [\[\]rune(s)], each rune as it is written again: a wrong byte becomes U+FFFD.
    [pending] bytes belong to the rune before. *)
Fixpoint runes_from (pending : nat) (s : string) : list string :=
  match s with
  | EmptyString => []
  | String c rest =>
      match pending with
      | S k => runes_from k rest
      | 0 =>
          match rune_rest s with
          | Some n => String.substring 0 (S n) s :: runes_from n rest
          | None => RuneError :: runes_from 0 rest
          end
      end
  end.
Definition runes (s : string) : list string := runes_from 0 s.

Example runes_ok : runes "aé€" = ["a"; "é"; "€"].
Proof. vm_compute. reflexivity. Qed.

(** * URLs *)

Definition unreserved (c : ascii) : bool := is_alpha c || is_digit c || has_byte c "-_.~".
Definition hex_upper (n : nat) : ascii := if n <? 10 then ascii_of_nat (48 + n) else ascii_of_nat (55 + n).
Definition percent (c : ascii) : string :=
  String "%" (String (hex_upper (code c / 16)) (String (hex_upper (code c mod 16)) "")).
Fixpoint escape (keep : ascii -> bool) (space : string) (s : string) : string :=
  match s with
  | EmptyString => ""
  | String c s =>
      (if keep c then String c "" else if Ascii.eqb c " " then space else percent c) +:+ escape keep space s
  end.
Definition QueryEscape : string -> string := escape unreserved "+".
Definition PathEscape : string -> string := escape (fun c => unreserved c || has_byte c "$&+=:@") "%20".
(** [Values.Encode], for values given in the order of their keys. *)
Definition encode_values (l : list (string * string)) : string :=
  Join (map (fun kv => QueryEscape (kv.1) +:+ "=" +:+ QueryEscape (kv.2)) l) "&".

Lemma escape_no (keep : ascii -> bool) space c s : keep c = false -> has_byte c space = false ->
  (forall d, has_byte c (percent d) = false) -> has_byte c (escape keep space s) = false.
Proof.
  intros Hk Hs Hp. induction s as [|d s IH]; [done|]. cbn [escape]. rewrite has_byte_app, IH, orb_false_r.
  destruct (keep d) eqn:E; [|destruct (Ascii.eqb d " "); [done|apply Hp]]. cbn [has_byte]. rewrite orb_false_r.
  destruct (Ascii.eqb_spec d c); [congruence|done].
Qed.

(** A segment stays one segment of its path, and starts neither a query nor a fragment. *)
Lemma PathEscape_segment s c : has_byte c "/?#" = true -> has_byte c (PathEscape s) = false.
Proof.
  intros Hc. assert (c = "/"%char \/ c = "?"%char \/ c = "#"%char) as Hcs.
  { cbn [has_byte] in Hc. rewrite orb_false_r, !orb_true_iff, !Ascii.eqb_eq in Hc. naive_solver. }
  assert (forall d, has_byte c (percent d) = false) as Hp.
  { destruct Hcs as [->|[->| ->]]; intros d; apply negb_true_iff; revert d; apply ascii_forallb; vm_compute; reflexivity. }
  apply escape_no; [| |done]; by destruct Hcs as [->|[->| ->]].
Qed.
