(* ===== verification/Values.v ===== *)
(** Go values of type [any], as they reach the query pipeline (decoded JSON,
    parsed literals, times), and the parts of Go's standard library that turn
    them into text or parse them and are not spelled out here: number formatting
    and parsing of floats, [fmt.Sprint] on composite values, and [time.Parse].
    They are the operations of [GoRuntime]; a concrete instance, [demo_runtime],
    is given for evaluation on examples. *)

From S2P Require Import Prelude GoStrings.
From stdpp Require Import options.
#[local] Open Scope Z_scope.

(** A [float64] or [float32] is its value, [mantissa * 2 ^ exponent]; a
    [time.Time] is its instant, in nanoseconds. *)
Inductive gval : Type :=
| VNil
| VBool (b : bool)
| VInt (n : Z)
| VInt32 (n : Z)
| VInt64 (n : Z)
| VIntOther (n : Z)
| VFloat64 (m e : Z)
| VFloat32 (m e : Z)
| VNumber (s : string)
| VStr (s : string)
| VList (l : list gval)
| VStrs (l : list string)
| VTime (nanos : Z)
| VOther (repr : string).

Class GoRuntime : Type := {
  (** [strconv.FormatFloat(v, 'f', -1, 64)] *)
  FormatFloat : Z -> Z -> string;
  (** [strconv.ParseFloat(s, 64)]; [inl] is the text of its error *)
  ParseFloat : string -> string + Z * Z;
  (** [fmt.Sprint] *)
  Sprint : gval -> string;
  (** [json.Number.Float64] *)
  NumberFloat64 : string -> option (Z * Z);
  (** [time.Parse layout s], the instant in nanoseconds *)
  TimeParse : string -> string -> option Z;
  (** [int(v)] of a whole [float64] that [int] cannot hold: left open by Go *)
  IntOfHuge : Z -> Z;
}.

(** The whole number a float denotes, when it denotes one. *)
Definition float_whole (m e : Z) : option Z :=
  if 0 <=? e then Some (m * 2 ^ e)
  else if m mod (2 ^ (- e)) =? 0 then Some (m / 2 ^ (- e)) else None.

(** [float64(n)]: the nearest multiple of a power of two with a 53-bit
    mantissa, ties to the even one. *)
Definition float64_of_int (n : Z) : Z :=
  let a := Z.abs n in
  let k := Z.max 0 (Z.log2 a - 52) in
  let q := a / 2 ^ k in
  let r := a mod 2 ^ k in
  let q := if (2 ^ k <? 2 * r) || ((2 ^ k =? 2 * r) && Z.odd q) then q + 1 else q in
  Z.sgn n * (q * 2 ^ k).

(** [int(v)] of a whole [float64]. *)
Definition int_of_float `{GoRuntime} (n : Z) : Z :=
  if (- 2 ^ 63 <=? n) && (n <? 2 ^ 63) then n else IntOfHuge n.

Definition parse_digits (s : string) : option Z :=
  (fix go s acc := match s with
    | EmptyString => Some acc
    | String c s' => if is_digit c then go s' (acc * 10 + Z.of_nat (code c - 48)) else None
    end) s 0.

(** [strconv.ParseInt(s, 10, 64)] on a string of decimal digits. *)
Definition ParseInt (s : string) : option Z :=
  if str_empty s then None else
  match parse_digits s with
  | Some n => if n <? 2 ^ 63 then Some n else None
  | None => None
  end.

(** A small runtime for running the model on examples: it formats and parses
    whole numbers only, and reads dates of the form YYYY-MM-DD by shape. *)
Definition demo_date_shape (s : string) : bool :=
  match Split "-" s with
  | [y; m; d] =>
      (String.length y =? 4)%nat && (String.length m =? 2)%nat && (String.length d =? 2)%nat
      && str_forallb is_digit y && str_forallb is_digit m && str_forallb is_digit d
  | _ => false
  end.

Definition demo_runtime : GoRuntime := {|
  FormatFloat m e := match float_whole m e with Some n => Itoa n | None => "0.5" end;
  ParseFloat s := match parse_digits s with
    | Some n => inr (n, 0)
    | None => if String.eqb s "0.5" then inr (1, -1) else inl "invalid syntax"
    end;
  Sprint v := match v with
    | VStr s => s | VInt n | VInt32 n | VInt64 n | VIntOther n => Itoa n
    | VBool b => if b then "true" else "false"
    | VNil => "<nil>" | VNumber s => s
    | VFloat64 m e | VFloat32 m e => match float_whole m e with Some n => Itoa n | None => "0.5" end
    | _ => "?"
    end;
  NumberFloat64 s := match parse_digits s with Some n => Some (n, 0) | None => None end;
  TimeParse layout s :=
    if String.eqb layout "2006-01-02" && demo_date_shape s
    then Some (Z.of_nat (String.length s)) else None;
  IntOfHuge n := - 2 ^ 63;
|}.
