(* ===== verification/Dialect.v ===== *)
(** The SQL dialects of [internal/dialect].

    [Dialect] is the Go interface of the same name (its core and its sample
    half), a record of operations; [BaseDialect] is the embedded struct with the
    shared method bodies; [concrete] is a value of one of the eight concrete
    types and [dialect_of] its method set.  [DialectLaws] states what the query
    compiler relies on and is proved for all eight types.  The section on
    scanning gives the lexical rules of quoted identifiers and string literals
    against which the quoting functions are proved.

    The last part has templates: SQL text with holes for bind placeholders.  A builder of SQL
    text whose result is the rendering of one template under every spelling of the
    placeholders looks at them in no way but to print them; the indices of the
    template then say which bound values the text mentions, and in which order. *)

From stdpp Require Import numbers.
From S2P Require Import Prelude GoStrings.
From stdpp Require Import options.

#[local] Open Scope Z_scope.

(** * The interface *)

Record Dialect : Type := mkDialect {
  Name : string;
  QuoteIdent : string -> string;
  QuoteStringLiteral : string -> string;
  QuoteIdentSegment : string -> string;
  Placeholder : Z -> string;
  LimitOffset : Z -> Z -> string;
  DateTrunc : string -> string -> string;
  DateTruncPlaceholder : string -> string -> string;
  CalendarPart : string -> string -> string;
  ILike : string -> string -> string;
  CastType : string -> string;
  Aggregate : string -> string -> string;
  WindowFunc : string -> list string -> option string;
  ExplainSQL : string -> string;
  DefaultOrderBy : string;
  SelectWithLimit : list string -> string -> Z -> string;
}.

(** * base.go *)

Definition dot : ascii := ".".

Definition QuoteIdentQualified (quoteSegment : string -> string) (identifier : string) : string :=
  Join (map quoteSegment (Split dot identifier)) ".".

Definition StandardLimitOffset (limit offset : Z) : string :=
  Join ((if 0 <? limit then ["LIMIT " +:+ Itoa limit] else []) ++
        (if 0 <? offset then ["OFFSET " +:+ Itoa offset] else [])) " ".

Definition CastTypeUpper (sqlType : string) : string := ToUpper sqlType.

Record aggregateSpelling : Type := mkSpelling {
  countStar : string;
  count : string;
  countDistinct : string;
  sum : string;
  avg : string;
  min : string;
  max : string;
  defaultUnknown : string;
}.

Definition aggregateSQL (quoteIdent : string -> string) (fn column : string)
    (spell : aggregateSpelling) : string :=
  let fnLower := ToLower (TrimSpace fn) in
  if str_in fnLower ["custom"; "none"; ""] then column
  else if String.eqb fnLower "count" && String.eqb column "*" then countStar spell
  else
    let quotedCol := quoteIdent column in
    if String.eqb fnLower "count" then Sprintf (count spell) [quotedCol]
    else if String.eqb fnLower "count_distinct" then Sprintf (countDistinct spell) [quotedCol]
    else if String.eqb fnLower "sum" then Sprintf (sum spell) [quotedCol]
    else if String.eqb fnLower "avg" then Sprintf (avg spell) [quotedCol]
    else if String.eqb fnLower "min" then Sprintf (min spell) [quotedCol]
    else if String.eqb fnLower "max" then Sprintf (max spell) [quotedCol]
    else Sprintf (defaultUnknown spell) [quotedCol].

Definition AggregateStandardSQL (quoteIdent : string -> string) (fn column : string) : string :=
  aggregateSQL quoteIdent fn column {|
    countStar := "COUNT(*)"; count := "COUNT(%s)"; countDistinct := "COUNT(DISTINCT %s)";
    sum := "SUM(%s)"; avg := "AVG(%s)"; min := "MIN(%s)"; max := "MAX(%s)";
    defaultUnknown := "COUNT(%s)" |}.

Definition AggregateClickHouseSQL (quoteIdent : string -> string) (fn column : string) : string :=
  aggregateSQL quoteIdent fn column {|
    countStar := "count()"; count := "count(%s)"; countDistinct := "uniq(%s)";
    sum := "sum(%s)"; avg := "avg(%s)"; min := "min(%s)"; max := "max(%s)";
    defaultUnknown := "count(%s)" |}.

(** * embed.go *)

Record BaseDialect : Type := mkBase {
  QuoteLeft : string;
  QuoteRight : string;
  ExplainDisabled : bool;
  ClickHouseAggs : bool;
}.

(** Double-quote and single-quote characters, by their codes. *)
Definition dquote : ascii := ascii_of_nat 34.
Definition squote : ascii := "'".
Definition backslash : ascii := "\".

(** Every quote string of the package is empty or one byte long. *)
Definition quote_char (s : string) (dflt : ascii) : ascii :=
  match s with String c _ => c | EmptyString => dflt end.

Definition base_QuoteIdentSegment (b : BaseDialect) (identifier : string) : string :=
  let left := quote_char (QuoteLeft b) dquote in
  let right := quote_char (QuoteRight b) dquote in
  String left (ReplaceByte right (String right (String right "")) identifier +:+ String right "").

Definition base_QuoteIdent (b : BaseDialect) (identifier : string) : string :=
  QuoteIdentQualified (base_QuoteIdentSegment b) identifier.

Definition base_QuoteStringLiteral (value : string) : string :=
  "'" +:+ ReplaceByte squote "''" value +:+ "'".

Definition quoteBackslashEscapedLiteral (value : string) : string :=
  let value := ReplaceByte backslash "\\" value in
  let value := ReplaceByte squote "''" value in
  "'" +:+ value +:+ "'".

Definition base_CastType (sqlType : string) : string := CastTypeUpper sqlType.

Definition base_DateTruncPlaceholder (part placeholder : string) : string :=
  Sprintf "DATE_TRUNC('%s', CAST(%s AS TIMESTAMP))" [part; placeholder].

Definition base_LimitOffset (limit offset : Z) : string := StandardLimitOffset limit offset.

Definition base_ExplainSQL (b : BaseDialect) (sql : string) : string :=
  if ExplainDisabled b then "" else "EXPLAIN " +:+ sql.

Definition base_Aggregate (b : BaseDialect) (fn column : string) : string :=
  if ClickHouseAggs b then AggregateClickHouseSQL (base_QuoteIdent b) fn column
  else AggregateStandardSQL (base_QuoteIdent b) fn column.

Definition base_WindowFunc (fn : string) (args : list string) : option string :=
  if str_in fn ["row_number"; "rank"; "dense_rank"; "percent_rank"; "cume_dist"] then
    Some (ToUpper fn +:+ "()")
  else if String.eqb fn "ntile" then
    match args with [a] => Some ("NTILE(" +:+ a +:+ ")") | _ => None end
  else if str_in fn ["lag"; "lead"] then
    match args with
    | [] => None
    | _ => Some (ToUpper fn +:+ "(" +:+ Join args ", " +:+ ")")
    end
  else if str_in fn ["first_value"; "last_value"] then
    match args with [a] => Some (ToUpper fn +:+ "(" +:+ a +:+ ")") | _ => None end
  else None.

Definition CalendarPartLookup (quoteIdent : string -> string) (dateTrunc : string -> string -> string)
    (part column yearFmt quarterFmt monthFmt dayFmt hourFmt : string) : string :=
  let q := quoteIdent column in
  let p := ToLower (TrimSpace part) in
  if String.eqb p "year" then Sprintf yearFmt [q]
  else if String.eqb p "quarter" then Sprintf quarterFmt [q]
  else if String.eqb p "month" then Sprintf monthFmt [q]
  else if String.eqb p "day" then Sprintf dayFmt [q]
  else if String.eqb p "hour" then Sprintf hourFmt [q]
  else dateTrunc part column.

Definition base_DefaultOrderBy : string := "".

Definition base_SelectWithLimit (columns : list string) (table : string) (limit : Z) : string :=
  let limitStr := if 0 <? limit then " LIMIT " +:+ Itoa limit else "" in
  "SELECT " +:+ Join columns ", " +:+ " FROM " +:+ table +:+ limitStr.

(** * The concrete dialects *)

Inductive DialectKind : Type :=
| PostgresDialect | MySQLDialect | SQLServerDialect | ClickHouseDialect
| OracleDialect | SQLiteDialect | DatabricksDialect | SnowflakeDialect.

#[global] Instance DialectKind_eq_dec : EqDecision DialectKind.
Proof. solve_decision. Defined.

(** A value of a concrete dialect type: its type and its embedded struct. *)
Record concrete : Type := mkConcrete { kind : DialectKind; base : BaseDialect }.

Definition plain_base (q : string) : BaseDialect := mkBase q q false false.

(** The package's global instances. *)
Definition Postgres : concrete := mkConcrete PostgresDialect (plain_base (String dquote "")).
Definition MySQL : concrete := mkConcrete MySQLDialect (plain_base "`").
Definition SQLServer : concrete := mkConcrete SQLServerDialect (mkBase "[" "]" true false).
Definition ClickHouse : concrete := mkConcrete ClickHouseDialect (mkBase "`" "`" false true).
Definition Oracle : concrete :=
  mkConcrete OracleDialect (mkBase (String dquote "") (String dquote "") true false).
Definition SQLite : concrete := mkConcrete SQLiteDialect (plain_base (String dquote "")).
Definition Databricks : concrete := mkConcrete DatabricksDialect (plain_base "`").
Definition Snowflake : concrete := mkConcrete SnowflakeDialect (plain_base (String dquote "")).

Definition global_of (k : DialectKind) : concrete :=
  match k with
  | PostgresDialect => Postgres | MySQLDialect => MySQL | SQLServerDialect => SQLServer
  | ClickHouseDialect => ClickHouse | OracleDialect => Oracle | SQLiteDialect => SQLite
  | DatabricksDialect => Databricks | SnowflakeDialect => Snowflake
  end.

(** [dialect.Normalize]. *)
Definition Normalize (d : concrete) : concrete :=
  if String.eqb (QuoteLeft (base d)) "" then global_of (kind d) else d.

(** ** postgres.go *)
Module PostgresImpl.
Definition Placeholder (index : Z) : string := "$" +:+ Itoa index.
Definition DateTrunc (b : BaseDialect) (part column : string) : string :=
    Sprintf "DATE_TRUNC('%s', %s)" [part; base_QuoteIdent b column].
Definition DateTruncPlaceholder (part placeholder : string) : string :=
    Sprintf "DATE_TRUNC('%s', %s::timestamptz)" [part; placeholder].
Definition CalendarPart (b : BaseDialect) (part column : string) : string :=
    CalendarPartLookup (base_QuoteIdent b) (DateTrunc b) part column
      "CAST(EXTRACT(YEAR FROM %s) AS INTEGER)"
      "CAST(EXTRACT(QUARTER FROM %s) AS INTEGER)"
      "CAST(EXTRACT(MONTH FROM %s) AS INTEGER)"
      "CAST(EXTRACT(DAY FROM %s) AS INTEGER)"
      "CAST(EXTRACT(HOUR FROM %s) AS INTEGER)".
Definition ILike (column placeholder : string) : string :=
    Sprintf "%s ILIKE %s" [column; placeholder].
End PostgresImpl.

(** ** mysql.go *)
Module MySQLImpl.
Definition Placeholder (_ : Z) : string := "?".
Definition DateTrunc (b : BaseDialect) (part column : string) : string :=
    let q := base_QuoteIdent b column in
    let p := ToLower (TrimSpace part) in
    if String.eqb p "day" then Sprintf "DATE(%s)" [q]
    else if String.eqb p "week" then
      Sprintf "DATE_SUB(DATE(%s), INTERVAL WEEKDAY(%s) DAY)" [q; q]
    else if String.eqb p "month" then Sprintf "DATE_FORMAT(%s, '%%Y-%%m-01')" [q]
    else if String.eqb p "quarter" then
      Sprintf "MAKEDATE(YEAR(%s), 1) + INTERVAL (QUARTER(%s) - 1) QUARTER" [q; q]
    else if String.eqb p "year" then Sprintf "MAKEDATE(YEAR(%s), 1)" [q]
    else Sprintf "DATE_FORMAT(%s, '%%Y-%%m-%%d %%H:%%i:%%s')" [q].
Definition CalendarPart (b : BaseDialect) (part column : string) : string :=
    CalendarPartLookup (base_QuoteIdent b) (DateTrunc b) part column
      "YEAR(%s)" "QUARTER(%s)" "MONTH(%s)" "DAYOFMONTH(%s)" "HOUR(%s)".
Definition ILike (column placeholder : string) : string :=
    Sprintf "LOWER(%s) LIKE LOWER(%s)" [column; placeholder].
End MySQLImpl.

(** ** sqlserver.go *)
Module SQLServerImpl.
Definition Placeholder (index : Z) : string := "@p" +:+ Itoa index.
Definition LimitOffset (limit offset : Z) : string :=
    let parts := ["OFFSET " +:+ Itoa offset +:+ " ROWS"] ++
      (if 0 <? limit then ["FETCH NEXT " +:+ Itoa limit +:+ " ROWS ONLY"] else []) in
    if (limit <=? 0) && (offset <=? 0) then "" else Join parts " ".
Definition DateTrunc (b : BaseDialect) (part column : string) : string :=
    Sprintf "DATEADD(%s, DATEDIFF(%s, 0, %s), 0)" [part; part; base_QuoteIdent b column].
Definition CalendarPart (b : BaseDialect) (part column : string) : string :=
    CalendarPartLookup (base_QuoteIdent b) (DateTrunc b) part column
      "YEAR(%s)" "DATEPART(quarter, %s)" "MONTH(%s)" "DAY(%s)" "DATEPART(hour, %s)".
Definition ILike (column placeholder : string) : string :=
    Sprintf "%s LIKE %s" [column; placeholder].
Definition ExplainSQL (_ : string) : string := "".
Definition DefaultOrderBy : string := "(SELECT NULL)".
Definition SelectWithLimit (columns : list string) (table : string) (limit : Z) : string :=
    let topStr := if 0 <? limit then "TOP (" +:+ Itoa limit +:+ ") " else "" in
    "SELECT " +:+ topStr +:+ Join columns ", " +:+ " FROM " +:+ table.
End SQLServerImpl.

(** ** clickhouse.go *)
Module ClickHouseImpl.
Definition Placeholder (_ : Z) : string := "?".
Definition LimitOffset (limit offset : Z) : string := StandardLimitOffset limit offset.
Definition titleCase (s : string) : string :=
    match s with
    | EmptyString => EmptyString
    | String c s' => String (upper c) s'
    end.
Definition DateTrunc (b : BaseDialect) (part column : string) : string :=
    let quoted := base_QuoteIdent b column in
    let tc := titleCase (ToLower part) in
    Sprintf "toStartOf%s(%s)" [tc; quoted].
Definition CalendarPart (b : BaseDialect) (part column : string) : string :=
    CalendarPartLookup (base_QuoteIdent b) (DateTrunc b) part column
      "toYear(%s)" "toQuarter(%s)" "toMonth(%s)" "toDayOfMonth(%s)" "toHour(%s)".
Definition ILike (column placeholder : string) : string :=
    Sprintf "lower(%s) LIKE lower(%s)" [column; placeholder].
Definition WindowFunc (fn : string) (args : list string) : option string :=
    if String.eqb fn "lag" then
      match args with [] => None | _ => Some ("lagInFrame(" +:+ Join args ", " +:+ ")") end
    else if String.eqb fn "lead" then
      match args with [] => None | _ => Some ("leadInFrame(" +:+ Join args ", " +:+ ")") end
    else if str_in fn ["row_number"; "rank"; "dense_rank"] then Some (fn +:+ "()")
    else if String.eqb fn "ntile" then
      match args with [a] => Some ("ntile(" +:+ a +:+ ")") | _ => None end
    else if str_in fn ["first_value"; "last_value"] then
      match args with [a] => Some (fn +:+ "(" +:+ a +:+ ")") | _ => None end
    else None.
End ClickHouseImpl.

(** ** oracle.go *)
Module OracleImpl.
Definition Placeholder (index : Z) : string := ":" +:+ Itoa index.
Definition LimitOffset (limit offset : Z) : string :=
    if (0 <? limit) && (0 <? offset) then
      "OFFSET " +:+ Itoa offset +:+ " ROWS FETCH NEXT " +:+ Itoa limit +:+ " ROWS ONLY"
    else if 0 <? limit then "FETCH FIRST " +:+ Itoa limit +:+ " ROWS ONLY"
    else if 0 <? offset then "OFFSET " +:+ Itoa offset +:+ " ROWS"
    else "".
Definition oracleTruncFormat (part : string) : string :=
    let p := ToLower (TrimSpace part) in
    if String.eqb p "day" then "DD"
    else if String.eqb p "week" then "IW"
    else if String.eqb p "month" then "MM"
    else if String.eqb p "quarter" then "Q"
    else if String.eqb p "year" then "YYYY"
    else "DD".
Definition DateTrunc (b : BaseDialect) (part column : string) : string :=
    Sprintf "TRUNC(%s, '%s')" [base_QuoteIdent b column; oracleTruncFormat part].
Definition DateTruncPlaceholder (part placeholder : string) : string :=
    Sprintf "TRUNC(CAST(%s AS TIMESTAMP), '%s')" [placeholder; oracleTruncFormat part].
Definition CalendarPart (b : BaseDialect) (part column : string) : string :=
    CalendarPartLookup (base_QuoteIdent b) (DateTrunc b) part column
      "EXTRACT(YEAR FROM %s)"
      "TO_NUMBER(TO_CHAR(%s, 'Q'))"
      "EXTRACT(MONTH FROM %s)"
      "EXTRACT(DAY FROM %s)"
      "TO_NUMBER(TO_CHAR(%s, 'HH24'))".
Definition ILike (column placeholder : string) : string :=
    Sprintf "UPPER(%s) LIKE UPPER(%s)" [column; placeholder].
Definition SelectWithLimit (columns : list string) (table : string) (limit : Z) : string :=
    let sql := "SELECT " +:+ Join columns ", " +:+ " FROM " +:+ table in
    if 0 <? limit then sql +:+ " FETCH FIRST " +:+ Itoa limit +:+ " ROWS ONLY" else sql.
End OracleImpl.

(** ** sqlite.go *)
Module SQLiteImpl.
Definition Placeholder (_ : Z) : string := "?".
Definition sqliteDateTrunc (part expr : string) : string :=
    let p := ToLower (TrimSpace part) in
    if String.eqb p "day" then Sprintf "date(%s)" [expr]
    else if String.eqb p "week" then Sprintf "date(%s, 'weekday 0', '-6 days')" [expr]
    else if String.eqb p "month" then Sprintf "date(%s, 'start of month')" [expr]
    else if String.eqb p "quarter" then
      Sprintf "date(%s, 'start of month', '-' || ((CAST(strftime('%%m', %s) AS INTEGER) - 1) %% 3) || ' months')"
        [expr; expr]
    else if String.eqb p "year" then Sprintf "date(%s, 'start of year')" [expr]
    else Sprintf "datetime(%s)" [expr].
Definition DateTrunc (b : BaseDialect) (part column : string) : string :=
    sqliteDateTrunc part (base_QuoteIdent b column).
Definition DateTruncPlaceholder (part placeholder : string) : string :=
    sqliteDateTrunc part placeholder.
Definition CalendarPart (b : BaseDialect) (part column : string) : string :=
    CalendarPartLookup (base_QuoteIdent b) (DateTrunc b) part column
      "CAST(strftime('%%Y', %s) AS INTEGER)"
      "(CAST(strftime('%%m', %s) AS INTEGER) + 2) / 3"
      "CAST(strftime('%%m', %s) AS INTEGER)"
      "CAST(strftime('%%d', %s) AS INTEGER)"
      "CAST(strftime('%%H', %s) AS INTEGER)".
Definition ILike (column placeholder : string) : string :=
    Sprintf "%s LIKE %s" [column; placeholder].
Definition ExplainSQL (sql : string) : string := "EXPLAIN QUERY PLAN " +:+ sql.
End SQLiteImpl.

(** ** databricks.go *)
Module DatabricksImpl.
Definition Placeholder (_ : Z) : string := "?".
Definition DateTrunc (b : BaseDialect) (part column : string) : string :=
    Sprintf "date_trunc('%s', %s)" [ToUpper part; base_QuoteIdent b column].
Definition DateTruncPlaceholder (part placeholder : string) : string :=
    Sprintf "date_trunc('%s', CAST(%s AS TIMESTAMP))" [ToUpper part; placeholder].
Definition CalendarPart (b : BaseDialect) (part column : string) : string :=
    CalendarPartLookup (base_QuoteIdent b) (DateTrunc b) part column
      "year(%s)" "quarter(%s)" "month(%s)" "day(%s)" "hour(%s)".
Definition ILike (column placeholder : string) : string :=
    Sprintf "%s ILIKE %s" [column; placeholder].
End DatabricksImpl.

(** ** snowflake.go *)
Module SnowflakeImpl.
Definition Placeholder (_ : Z) : string := "?".
Definition DateTrunc (b : BaseDialect) (part column : string) : string :=
    Sprintf "DATE_TRUNC('%s', %s)" [part; base_QuoteIdent b column].
Definition CalendarPart (b : BaseDialect) (part column : string) : string :=
    CalendarPartLookup (base_QuoteIdent b) (DateTrunc b) part column
      "CAST(EXTRACT(YEAR FROM %s) AS INTEGER)"
      "CAST(EXTRACT(QUARTER FROM %s) AS INTEGER)"
      "CAST(EXTRACT(MONTH FROM %s) AS INTEGER)"
      "CAST(EXTRACT(DAY FROM %s) AS INTEGER)"
      "CAST(EXTRACT(HOUR FROM %s) AS INTEGER)".
Definition ILike (column placeholder : string) : string :=
    Sprintf "%s ILIKE %s" [column; placeholder].
End SnowflakeImpl.

(** The method set of a concrete dialect: the methods its type declares, and
    the promoted methods of the embedded [BaseDialect] for the rest. *)
Definition dialect_of (d : concrete) : Dialect :=
  let b := base d in
  let mk name lit ph lim dt dtp cal il win expl ord sel := mkDialect
    name (base_QuoteIdent b) lit (base_QuoteIdentSegment b) ph lim dt dtp cal il
    base_CastType (base_Aggregate b) win expl ord sel in
  match kind d with
  | PostgresDialect =>
      mk "postgres" base_QuoteStringLiteral PostgresImpl.Placeholder base_LimitOffset
        (PostgresImpl.DateTrunc b) PostgresImpl.DateTruncPlaceholder
        (PostgresImpl.CalendarPart b) PostgresImpl.ILike base_WindowFunc
        (base_ExplainSQL b) base_DefaultOrderBy base_SelectWithLimit
  | MySQLDialect =>
      mk "mysql" quoteBackslashEscapedLiteral MySQLImpl.Placeholder base_LimitOffset
        (MySQLImpl.DateTrunc b) base_DateTruncPlaceholder
        (MySQLImpl.CalendarPart b) MySQLImpl.ILike base_WindowFunc
        (base_ExplainSQL b) base_DefaultOrderBy base_SelectWithLimit
  | SQLServerDialect =>
      mk "sqlserver" base_QuoteStringLiteral SQLServerImpl.Placeholder SQLServerImpl.LimitOffset
        (SQLServerImpl.DateTrunc b) base_DateTruncPlaceholder
        (SQLServerImpl.CalendarPart b) SQLServerImpl.ILike base_WindowFunc
        SQLServerImpl.ExplainSQL SQLServerImpl.DefaultOrderBy SQLServerImpl.SelectWithLimit
  | ClickHouseDialect =>
      mk "clickhouse" quoteBackslashEscapedLiteral ClickHouseImpl.Placeholder
        ClickHouseImpl.LimitOffset
        (ClickHouseImpl.DateTrunc b) base_DateTruncPlaceholder
        (ClickHouseImpl.CalendarPart b) ClickHouseImpl.ILike ClickHouseImpl.WindowFunc
        (base_ExplainSQL b) base_DefaultOrderBy base_SelectWithLimit
  | OracleDialect =>
      mk "oracle" base_QuoteStringLiteral OracleImpl.Placeholder OracleImpl.LimitOffset
        (OracleImpl.DateTrunc b) OracleImpl.DateTruncPlaceholder
        (OracleImpl.CalendarPart b) OracleImpl.ILike base_WindowFunc
        (base_ExplainSQL b) base_DefaultOrderBy OracleImpl.SelectWithLimit
  | SQLiteDialect =>
      mk "sqlite" base_QuoteStringLiteral SQLiteImpl.Placeholder base_LimitOffset
        (SQLiteImpl.DateTrunc b) SQLiteImpl.DateTruncPlaceholder
        (SQLiteImpl.CalendarPart b) SQLiteImpl.ILike base_WindowFunc
        SQLiteImpl.ExplainSQL base_DefaultOrderBy base_SelectWithLimit
  | DatabricksDialect =>
      mk "databricks" quoteBackslashEscapedLiteral DatabricksImpl.Placeholder base_LimitOffset
        (DatabricksImpl.DateTrunc b) DatabricksImpl.DateTruncPlaceholder
        (DatabricksImpl.CalendarPart b) DatabricksImpl.ILike base_WindowFunc
        (base_ExplainSQL b) base_DefaultOrderBy base_SelectWithLimit
  | SnowflakeDialect =>
      mk "snowflake" quoteBackslashEscapedLiteral SnowflakeImpl.Placeholder base_LimitOffset
        (SnowflakeImpl.DateTrunc b) base_DateTruncPlaceholder
        (SnowflakeImpl.CalendarPart b) SnowflakeImpl.ILike base_WindowFunc
        (base_ExplainSQL b) base_DefaultOrderBy base_SelectWithLimit
  end.

(** * What the compiler relies on *)

(** A template: SQL text with holes for bind placeholders, by index. *)
Inductive frag : Type :=
| Txt (s : string)
| Ph (i : Z).

Definition render1 (ph : Z -> string) (f : frag) : string :=
  match f with Txt s => s | Ph i => ph i end.
Definition render (ph : Z -> string) (fs : list frag) : string := Concat (map (render1 ph) fs).
Fixpoint phs (fs : list frag) : list Z :=
  match fs with
  | [] => []
  | Txt _ :: fs' => phs fs'
  | Ph i :: fs' => i :: phs fs'
  end.

(** The same dialect with another spelling of placeholders. *)
Definition with_placeholder (d : Dialect) (ph : Z -> string) : Dialect :=
  mkDialect (Name d) (QuoteIdent d) (QuoteStringLiteral d) (QuoteIdentSegment d) ph
    (LimitOffset d) (DateTrunc d) (DateTruncPlaceholder d) (CalendarPart d) (ILike d)
    (CastType d) (Aggregate d) (WindowFunc d) (ExplainSQL d) (DefaultOrderBy d)
    (SelectWithLimit d).

(** [f] prints its argument at least once and looks at it in no other way. *)
Definition splices (f : string -> string) : Prop :=
  exists pre (posts : list string), posts <> [] /\
    forall p, f p = pre +:+ Concat (map (fun t => p +:+ t) posts).

Class DialectLaws (d : Dialect) : Prop := {
  DateTruncPlaceholder_splices part : splices (DateTruncPlaceholder d part);
  ILike_splices column : exists pre post, pre <> "" /\ forall p, ILike d column p = pre +:+ p +:+ post;
}.

(** * Lexical rules *)

(** The text up to the closing quote [q], a doubled [q] standing for one, and
    what follows the closing quote.  With [esc] a backslash quotes the next byte. *)
Fixpoint scan_quoted (esc : bool) (q : ascii) (s : string) : option (string * string) :=
  match s with
  | EmptyString => None
  | String c s' =>
      if esc && Ascii.eqb c backslash then
        match s' with
        | String d s'' => prod_map (String d) id <$> scan_quoted esc q s''
        | EmptyString => None
        end
      else if Ascii.eqb c q then
        match s' with
        | String d s'' =>
            if Ascii.eqb d q then prod_map (String q) id <$> scan_quoted esc q s''
            else Some (EmptyString, s')
        | EmptyString => Some (EmptyString, s')
        end
      else prod_map (String c) id <$> scan_quoted esc q s'
  end.

(** A token that opens with [l] and closes with [r]. *)
Definition scan_token (esc : bool) (l r : ascii) (s : string) : option (string * string) :=
  match s with
  | String c s' => if Ascii.eqb c l then scan_quoted esc r s' else None
  | EmptyString => None
  end.

(** Quoted segments separated by dots, as many as [fuel] allows. *)
Fixpoint scan_path (fuel : nat) (l r : ascii) (s : string) : option (list string * string) :=
  match fuel with
  | O => None
  | S n =>
      match scan_token false l r s with
      | None => None
      | Some (seg, rest) =>
          match rest with
          | String c rest' =>
              if Ascii.eqb c dot then prod_map (cons seg) id <$> scan_path n l r rest'
              else Some ([seg], rest)
          | EmptyString => Some ([seg], rest)
          end
      end
  end.

(** Databases that read a backslash in a string literal as an escape (the
    comment above [quoteBackslashEscapedLiteral]). *)
Definition backslash_escapes (k : DialectKind) : bool :=
  match k with
  | MySQLDialect | ClickHouseDialect | SnowflakeDialect | DatabricksDialect => true
  | PostgresDialect | SQLServerDialect | OracleDialect | SQLiteDialect => false
  end.

Definition starts_with (c : ascii) (s : string) : bool :=
  match s with String d _ => Ascii.eqb d c | EmptyString => false end.

(** The quote bytes of a dialect. *)
Definition left_quote (k : DialectKind) : ascii :=
  quote_char (QuoteLeft (base (global_of k))) dquote.
Definition right_quote (k : DialectKind) : ascii :=
  quote_char (QuoteRight (base (global_of k))) dquote.

(** * Proofs *)

Lemma scan_quoted_close esc q rest :
  (esc = true -> q <> backslash) -> starts_with q rest = false ->
  scan_quoted esc q (String q rest) = Some (EmptyString, rest).
Proof.
  intros Hq Hr. simpl. rewrite Ascii.eqb_refl.
  assert (esc && Ascii.eqb q backslash = false) as ->.
  { destruct esc; [|done]. simpl. apply Ascii.eqb_neq. auto. }
  destruct rest as [|d rest]; [done|]. simpl in Hr. by rewrite Hr.
Qed.

(** Doubling the quote is undone by the scanner (no backslash escapes). *)
Lemma scan_doubled q v rest :
  starts_with q rest = false ->
  scan_quoted false q (ReplaceByte q (String q (String q "")) v +:+ String q rest)
  = Some (v, rest).
Proof.
  intros Hr. induction v as [|c v IH].
  - by apply scan_quoted_close.
  - simpl ReplaceByte. destruct (Ascii.eqb_spec c q) as [->|Hc].
    + rewrite !app_assoc, !app_cons, app_nil_l. simpl. by rewrite Ascii.eqb_refl, IH.
    + rewrite app_cons. simpl. apply Ascii.eqb_neq in Hc. by rewrite Hc, IH.
Qed.

Lemma scan_backslash v rest :
  starts_with squote rest = false ->
  scan_quoted true squote
    (ReplaceByte squote "''" (ReplaceByte backslash "\\" v) +:+ String squote rest)
  = Some (v, rest).
Proof.
  intros Hr. induction v as [|c v IH].
  - by apply scan_quoted_close.
  - simpl (ReplaceByte backslash _ _). destruct (Ascii.eqb_spec c backslash) as [->|Hc].
    + rewrite !app_cons, app_nil_l. simpl ReplaceByte. rewrite !app_cons. simpl. by rewrite IH.
    + simpl. destruct (Ascii.eqb_spec c squote) as [->|Hc'].
      * rewrite !app_assoc, !app_cons, app_nil_l. simpl. by rewrite IH.
      * rewrite app_cons. simpl.
        apply Ascii.eqb_neq in Hc, Hc'. by rewrite Hc, Hc', IH.
Qed.

Lemma scan_segment (b : BaseDialect) id rest :
  starts_with (quote_char (QuoteRight b) dquote) rest = false ->
  scan_token false (quote_char (QuoteLeft b) dquote) (quote_char (QuoteRight b) dquote)
    (base_QuoteIdentSegment b id +:+ rest) = Some (id, rest).
Proof.
  intros Hr. unfold base_QuoteIdentSegment. rewrite app_cons. simpl.
  rewrite Ascii.eqb_refl, app_assoc, app_cons, app_nil_l. by apply scan_doubled.
Qed.

Lemma scan_path_join (b : BaseDialect) segs rest :
  segs <> [] -> Ascii.eqb dot (quote_char (QuoteRight b) dquote) = false ->
  starts_with (quote_char (QuoteRight b) dquote) rest = false -> starts_with dot rest = false ->
  scan_path (length segs) (quote_char (QuoteLeft b) dquote) (quote_char (QuoteRight b) dquote)
    (Join (map (base_QuoteIdentSegment b) segs) "." +:+ rest) = Some (segs, rest).
Proof.
  intros Hne Hdot Hr Hd. induction segs as [|g segs IH]; [done|].
  destruct segs as [|g' segs].
  - cbn [map Join length scan_path]. rewrite scan_segment by done.
    destruct rest as [|c rest]; [done|].
    simpl in Hd. by rewrite Hd.
  - change (map (base_QuoteIdentSegment b) (g :: g' :: segs))
      with (base_QuoteIdentSegment b g :: map (base_QuoteIdentSegment b) (g' :: segs)).
    rewrite Join_cons by done. rewrite !app_assoc, !app_cons, app_nil_l.
    change (length (g :: g' :: segs)) with (S (length (g' :: segs))).
    generalize dependent (length (g' :: segs)); intros n IH.
    cbn [scan_path]. rewrite scan_segment by done.
    rewrite Ascii.eqb_refl. by rewrite (IH ltac:(done)).
Qed.

Lemma right_quote_not_dot k : Ascii.eqb dot (right_quote k) = false.
Proof. by destruct k. Qed.

Lemma splices_one pre post (f : string -> string) :
  (forall p, f p = pre +:+ p +:+ post) -> splices f.
Proof.
  intros H. exists pre, [post]. split; [done|]. intros p.
  cbn [map Concat]. by rewrite app_nil_r, H.
Qed.

Lemma splices_two pre mid post (f : string -> string) :
  (forall p, f p = pre +:+ p +:+ mid +:+ p +:+ post) -> splices f.
Proof.
  intros H. exists pre, [mid; post]. split; [done|]. intros p.
  cbn [map Concat]. by rewrite app_nil_r, app_assoc, H.
Qed.

Lemma sqlite_splices part : splices (SQLiteImpl.sqliteDateTrunc part).
Proof.
  unfold SQLiteImpl.sqliteDateTrunc.
  destruct (String.eqb _ "day"); [by apply (splices_one "date(" ")")|].
  destruct (String.eqb _ "week"); [by apply (splices_one "date(" ", 'weekday 0', '-6 days')")|].
  destruct (String.eqb _ "month"); [by apply (splices_one "date(" ", 'start of month')")|].
  destruct (String.eqb _ "quarter");
    [by apply (splices_two "date(" ", 'start of month', '-' || ((CAST(strftime('%m', "
                 ") AS INTEGER) - 1) % 3) || ' months')")|].
  destruct (String.eqb _ "year"); [by apply (splices_one "date(" ", 'start of year')")|].
  by apply (splices_one "datetime(" ")").
Qed.

#[export] Instance dialect_laws (d : concrete) : DialectLaws (dialect_of d).
Proof.
  destruct d as [k b]; split.
  - intros part.
    assert (splices (base_DateTruncPlaceholder part)) as Hbase.
    { apply (splices_one ("DATE_TRUNC('" +:+ part +:+ "', CAST(") " AS TIMESTAMP))").
      intros p. rewrite !app_assoc. reflexivity. }
    destruct k; [|exact Hbase|exact Hbase|exact Hbase| | | |exact Hbase].
    + apply (splices_one ("DATE_TRUNC('" +:+ part +:+ "', ") "::timestamptz)").
      intros p. rewrite !app_assoc. reflexivity.
    + eapply (splices_one "TRUNC(CAST(" (" AS TIMESTAMP), '" +:+ OracleImpl.oracleTruncFormat part +:+ "')")).
      intros p. reflexivity.
    + apply sqlite_splices.
    + apply (splices_one ("date_trunc('" +:+ ToUpper part +:+ "', CAST(") " AS TIMESTAMP))").
      intros p. rewrite !app_assoc. reflexivity.
  - intros column. destruct k; cbn.
    1, 7, 8: exists (column +:+ " ILIKE "), ""; (split; [first [discriminate|by apply app_nonempty_r]|intros p; rewrite app_nil_r, app_assoc; reflexivity]).
    1: exists ("LOWER(" +:+ column +:+ ") LIKE LOWER("), ")"; (split; [first [discriminate|by apply app_nonempty_r]|intros p; rewrite !app_assoc; reflexivity]).
    1: exists (column +:+ " LIKE "), ""; (split; [first [discriminate|by apply app_nonempty_r]|intros p; rewrite app_nil_r, app_assoc; reflexivity]).
    1: exists ("lower(" +:+ column +:+ ") LIKE lower("), ")"; (split; [first [discriminate|by apply app_nonempty_r]|intros p; rewrite !app_assoc; reflexivity]).
    1: exists ("UPPER(" +:+ column +:+ ") LIKE UPPER("), ")"; (split; [first [discriminate|by apply app_nonempty_r]|intros p; rewrite !app_assoc; reflexivity]).
    exists (column +:+ " LIKE "), ""; (split; [first [discriminate|by apply app_nonempty_r]|intros p; rewrite app_nil_r, app_assoc; reflexivity]).
Qed.

(** * Properties *)

(** C40: a string literal rendered by any dialect is read back, by that
    dialect's own lexical rule (backslash escapes where the database has them),
    as exactly the value, and the literal ends where the renderer ended it: no
    value, not even one ending in a backslash or a quote, breaks out. *)
Theorem QuoteStringLiteral_scans_back (k : DialectKind) (v rest : string) :
  starts_with squote rest = false ->
  scan_token (backslash_escapes k) squote squote
    (QuoteStringLiteral (dialect_of (global_of k)) v +:+ rest) = Some (v, rest).
Proof.
  intros Hr.
  assert (forall body, scan_token (backslash_escapes k) squote squote
      (("'" +:+ body +:+ "'") +:+ rest)
    = scan_quoted (backslash_escapes k) squote (body +:+ String squote rest)) as Hopen.
  { intros body. rewrite app_assoc, app_cons, app_nil_l, app_assoc, app_cons, app_nil_l. done. }
  destruct k; cbn -[scan_token]; (etransitivity; [apply Hopen|]);
    first [by apply scan_doubled | by apply scan_backslash].
Qed.

Lemma QuoteStringLiteral_scans_back_witness :
  scan_token (backslash_escapes MySQLDialect) squote squote
    (QuoteStringLiteral (dialect_of (global_of MySQLDialect)) "it's\" +:+ " OR 1=1")
  = Some ("it's\", " OR 1=1").
Proof. apply (QuoteStringLiteral_scans_back MySQLDialect "it's\" " OR 1=1"). reflexivity. Defined.

(** quoting a qualified identifier gives, for every dialect, a dotted path
    of quoted tokens that reads back as exactly the dot-separated segments of
    the identifier: an identifier cannot close its own quotes. *)
Theorem QuoteIdent_scans_back (k : DialectKind) (identifier rest : string) :
  starts_with (right_quote k) rest = false -> starts_with dot rest = false ->
  scan_path (length (Split dot identifier)) (left_quote k) (right_quote k)
    (QuoteIdent (dialect_of (global_of k)) identifier +:+ rest)
  = Some (Split dot identifier, rest).
Proof.
  intros Hr Hd.
  assert (QuoteIdent (dialect_of (global_of k)) identifier
    = Join (map (base_QuoteIdentSegment (base (global_of k))) (Split dot identifier)) ".") as ->.
  { by destruct k. }
  apply scan_path_join; [apply Split_nonempty | apply right_quote_not_dot | done | done].
Qed.

Lemma QuoteIdent_scans_back_witness :
  scan_path (length (Split dot "dbo.a]b")) (left_quote SQLServerDialect) (right_quote SQLServerDialect)
    (QuoteIdent (dialect_of (global_of SQLServerDialect)) "dbo.a]b" +:+ " FROM t")
  = Some (Split dot "dbo.a]b", " FROM t")
  /\ Split dot "dbo.a]b" = ["dbo"; "a]b"].
Proof.
  split; [|reflexivity].
  apply (QuoteIdent_scans_back SQLServerDialect "dbo.a]b" " FROM t"); reflexivity.
Defined.

(** In every dialect the LIMIT/OFFSET clause is empty exactly when neither a
    positive limit nor a positive offset is asked for. *)
Lemma LimitOffset_empty_iff (d : concrete) (limit offset : Z) :
  LimitOffset (dialect_of d) limit offset = "" <-> limit <= 0 /\ offset <= 0.
Proof.
  assert (forall s t, s <> "" -> s +:+ t <> "") as Happ by (by intros [|c s]).
  destruct d as [[] b]; cbn -[Itoa String.append]; unfold base_LimitOffset, ClickHouseImpl.LimitOffset,
    StandardLimitOffset, SQLServerImpl.LimitOffset, OracleImpl.LimitOffset;
    destruct (Z.ltb_spec 0 limit), (Z.ltb_spec 0 offset);
    try destruct (Z.leb_spec limit 0); try destruct (Z.leb_spec offset 0);
    cbn -[Itoa String.append]; (split; [|lia || done]); intros Heq;
    first [lia | by apply Happ in Heq].
Qed.

(** The zero value of a concrete type is replaced by the initialised global, so
    that a normalised dialect quotes with the quotes of its type. *)
Lemma Normalize_quotes d :
  QuoteLeft (base (Normalize d)) <> "" /\ kind (Normalize d) = kind d
  /\ Normalize (Normalize d) = Normalize d.
Proof.
  unfold Normalize. destruct (String.eqb_spec (QuoteLeft (base d)) "") as [E|E].
  - destruct d as [[] b]; by cbn.
  - split; [done|]. split; [done|]. apply String.eqb_neq in E. by rewrite E.
Qed.

(** MySQL and SQL Server inherit the [DATE_TRUNC] spelling of the base type for
    a bound timestamp, although the databases have no such function. *)
Example mysql_date_trunc_of_placeholder :
  DateTruncPlaceholder (dialect_of MySQL) "day" "?" = "DATE_TRUNC('day', CAST(? AS TIMESTAMP))"
  /\ DateTruncPlaceholder (dialect_of SQLServer) "day" "@p1"
     = "DATE_TRUNC('day', CAST(@p1 AS TIMESTAMP))".
Proof. split; reflexivity. Qed.

#[local] Open Scope Z_scope.

(** * Rendering *)

Lemma Concat_app l k : Concat (l ++ k) = Concat l +:+ Concat k.
Proof. induction l as [|s l IH]; cbn [Concat app]; [done|]. by rewrite IH, app_assoc. Qed.
Lemma render_nil ph : render ph [] = "".
Proof. done. Qed.
Lemma render_cons ph f fs : render ph (f :: fs) = render1 ph f +:+ render ph fs.
Proof. done. Qed.
Lemma render_app ph a b : render ph (a ++ b) = render ph a +:+ render ph b.
Proof. unfold render. by rewrite map_app, Concat_app. Qed.
Lemma phs_app a b : phs (a ++ b) = phs a ++ phs b.
Proof. induction a as [|[s|i] a IH]; simpl; [done| |]; by rewrite IH. Qed.

(** Templates joined by a separator, as [strings.Join] joins their renderings. *)
Fixpoint join_frags (ts : list (list frag)) (sep : string) : list frag :=
  match ts with
  | [] => []
  | [t] => t
  | t :: ts => t ++ Txt sep :: join_frags ts sep
  end.
Lemma join_frags_cons t u ts sep :
  join_frags (t :: u :: ts) sep = t ++ Txt sep :: join_frags (u :: ts) sep.
Proof. done. Qed.
Lemma render_join ph ts sep : render ph (join_frags ts sep) = Join (map (render ph) ts) sep.
Proof.
  induction ts as [|t ts IH]; [done|]. destruct ts as [|u ts]; [done|].
  rewrite join_frags_cons, render_app, render_cons, IH. done.
Qed.
Lemma phs_join ts sep : phs (join_frags ts sep) = List.concat (map phs ts).
Proof.
  induction ts as [|t ts IH]; [done|]. destruct ts as [|u ts].
  - cbn. by rewrite List.app_nil_r.
  - rewrite join_frags_cons, phs_app. cbn [phs]. rewrite IH. done.
Qed.

(** * Indices *)

(** The indices of the values bound when [n] grows to [m]. *)
Definition fresh (n m : Z) : list Z := seqZ (n + 1) (m - n).

Lemma fresh_app n m k : n <= m -> m <= k -> fresh n k = fresh n m ++ fresh m k.
Proof.
  intros H1 H2. unfold fresh. replace (k - n) with ((m - n) + (k - m)) by lia.
  rewrite seqZ_app by lia. by replace (n + 1 + (m - n)) with (m + 1) by lia.
Qed.
Lemma fresh_same n : fresh n n = [].
Proof. unfold fresh. by rewrite Z.sub_diag. Qed.
Lemma fresh_one n : fresh n (n + 1) = [n + 1].
Proof. unfold fresh. by replace (n + 1 - n) with 1 by lia. Qed.
Lemma fresh_succ n k : n < k -> fresh n k = (n + 1) :: fresh (n + 1) k.
Proof. intros H. rewrite (fresh_app n (n + 1) k) by lia. by rewrite fresh_one. Qed.
Lemma elem_of_fresh i n m : i ∈ fresh n m <-> n < i <= m.
Proof. unfold fresh. rewrite elem_of_seqZ. lia. Qed.
