(* ===== verification/Semantic.v ===== *)
(** The semantic layer's data and expression language: [pkg/semantic].

    [ExprNode] is the sealed interface and its eight node types
    ([expr.go]); the nil interface value is [NilExpr].  [ValidateExprStrict]
    is the checker of [expr_validation.go], [ExprDependencies] the collector of
    [expr_lineage.go], and [SemanticModel], [Dimension], [Metric] and [Join] the
    records of [types.go]. *)

From S2P Require Import Prelude GoStrings Values.
From stdpp Require Import options.
#[local] Open Scope Z_scope.

(** * expr.go *)

Inductive ExprNode : Type :=
| NilExpr
| LiteralExpr (Value : gval)
| ColumnRefExpr (Table Column : string)
| MetricRefExpr (Name : string)
| DimensionRefExpr (Name : string)
| BinaryExpr (Op : string) (Left Right : ExprNode)
| UnaryExpr (Op : string) (Expr : ExprNode)
| FunctionCallExpr (Name : string) (Args : list ExprNode)
| CaseExpr (Conditions : list (ExprNode * ExprNode)) (ElseExpr : ExprNode).

Definition OpAdd := "add".
Definition OpSubtract := "subtract".
Definition OpMultiply := "multiply".
Definition OpDivide := "divide".
Definition OpModulo := "modulo".
Definition OpConcat := "concat".
Definition OpEq := "eq".
Definition OpNeq := "neq".
Definition OpLt := "lt".
Definition OpLte := "lte".
Definition OpGt := "gt".
Definition OpGte := "gte".
Definition OpAnd := "and".
Definition OpOr := "or".
Definition OpNot := "not".
Definition OpNegate := "negate".

Fixpoint assoc (k : string) (l : list (string * Z)) : option Z :=
  match l with
  | [] => None
  | (k', v) :: l' => if String.eqb k k' then Some v else assoc k l'
  end.

(** Function name to arity; -1 is variadic. *)
Definition AllowedFunctions : list (string * Z) := [
  ("COALESCE", -1); ("CONCAT", -1); ("UPPER", 1); ("LOWER", 1); ("ROUND", 2);
  ("LENGTH", 1); ("TRIM", 1); ("ABS", 1); ("CEIL", 1); ("FLOOR", 1); ("CAST", 2);
  ("EXTRACT", 2); ("DATE_TRUNC", 2); ("NULLIF", 2); ("IFNULL", 2); ("ISNULL", 1);
  ("SUBSTRING", 3); ("REPLACE", 3); ("LEFT", 2); ("RIGHT", 2)].

Definition AllowedAggregateFunctions : list (string * Z) := [
  ("SUM", 1); ("AVG", 1); ("MIN", 1); ("MAX", 1); ("COUNT", -1); ("COUNT_DISTINCT", 1)].

Definition IsAggregateFunction (name : string) : bool :=
  match assoc (ToUpper (TrimSpace name)) AllowedAggregateFunctions with
  | Some _ => true | None => false end.

Definition FunctionAllowed (name : string) (allowAggregates : bool) : bool :=
  let upper := ToUpper (TrimSpace name) in
  match assoc upper AllowedFunctions with
  | Some _ => true
  | None => allowAggregates && IsAggregateFunction upper
  end.

(** * expr_validation.go *)

(** [m[key]] on a Go [map[string]bool]: false when the key is missing. *)
Definition bmap_get (m : gmap string bool) (k : string) : bool := default false (m !! k).

(** The loop [for _, x := range xs { if err := f(i, x); err != nil { return err } }]. *)
Definition res_iteri {A} (f : Z -> A -> res unit) : Z -> list A -> res unit :=
  fix go i l :=
    match l with
    | [] => Ok tt
    | x :: l' => let? _ := f i x in go (i + 1) l'
    end.

Definition unqualifiedColumnAllowed (column : string) (allowedColumns : gmap string bool) : bool :=
  existsb (fun kv =>
    match Split "." kv.1 with
    | [_; c] => String.eqb c column
    | _ => false
    end) (map_to_list allowedColumns).

Definition validateColumnRefExpr (table column : string) (allowedColumns : gmap string bool) : res unit :=
  let key := if str_empty table then ToLower column
             else ToLower (table +:+ "." +:+ column) in
  if bmap_get allowedColumns key then Ok tt
  else if str_empty table && unqualifiedColumnAllowed key allowedColumns then Ok tt
  else Err (EMsg ("unknown column reference: " +:+ key)).

(** The checks of [validateFunctionCallExpr] that precede its arguments: the
    name against the white lists and the number of arguments. *)
Definition validateFunctionHead (name : string) (nargs : Z) (allowMetrics : bool) : res unit :=
  let funcName := ToUpper name in
  if negb (FunctionAllowed funcName allowMetrics) then
    if IsAggregateFunction funcName
    then Err (EMsg ("aggregate function not allowed in this context: " +:+ name))
    else Err (EMsg ("disallowed function call: " +:+ name))
  else
    match (match assoc funcName AllowedFunctions with
           | Some a => Some a
           | None => assoc funcName AllowedAggregateFunctions end) with
    | None => Err (EMsg ("disallowed function call: " +:+ name))
    | Some arity =>
        if String.eqb funcName "ROUND" then
          if negb (nargs =? 1) && negb (nargs =? 2)
          then Err (EMsg ("function " +:+ name +:+ " requires 1 or 2 arguments, got " +:+ Itoa nargs))
          else Ok tt
        else if String.eqb funcName "COUNT" then
          if 1 <? nargs
          then Err (EMsg ("function COUNT requires 0 or 1 arguments, got " +:+ Itoa nargs))
          else Ok tt
        else if arity =? -1 then
          if nargs <? 1
          then Err (EMsg ("function " +:+ name +:+ " requires at least 1 argument, got " +:+ Itoa nargs))
          else Ok tt
        else if negb (nargs =? arity)
          then Err (EMsg ("function " +:+ name +:+ " requires exactly " +:+ Itoa arity
                          +:+ " arguments, got " +:+ Itoa nargs))
          else Ok tt
    end.

Section Validate.
Context (allowedColumns allowedMetrics allowedDimensions : gmap string bool).
Context (allowMetrics : bool).

Fixpoint ValidateExprStrict (node : ExprNode) (depth : Z) {struct node} : res unit :=
    match node with
    | NilExpr => Ok tt
    | _ =>
      if 10 <? depth then Err (EMsg "expression nesting depth exceeds limit of 10") else
      match node with
      | NilExpr | LiteralExpr _ => Ok tt
      | ColumnRefExpr table column => validateColumnRefExpr table column allowedColumns
      | MetricRefExpr name =>
          if negb allowMetrics then
            Err (EMsg ("metric reference not allowed in this context: " +:+ name))
          else if negb (bmap_get allowedMetrics (ToLower name)) then
            Err (EMsg ("unknown metric reference: " +:+ name))
          else Ok tt
      | DimensionRefExpr name =>
          if negb (bmap_get allowedDimensions (ToLower name)) then
            Err (EMsg ("unknown dimension reference: " +:+ name))
          else Ok tt
      | BinaryExpr _ l r =>
          let? _ := ValidateExprStrict l (depth + 1) in
          ValidateExprStrict r (depth + 1)
      | UnaryExpr _ e => ValidateExprStrict e (depth + 1)
      | FunctionCallExpr name args =>
          let? _ := validateFunctionHead name (Z.of_nat (length args)) allowMetrics in
          res_iteri (fun _ arg => ValidateExprStrict arg (depth + 1)) 0 args
      | CaseExpr conditions elseExpr =>
          let? _ := res_iteri (fun i cond =>
            let? _ := res_map_err (EWrap ("invalid when condition " +:+ Itoa i))
                        (ValidateExprStrict cond.1 (depth + 1)) in
            res_map_err (EWrap ("invalid then result " +:+ Itoa i))
              (ValidateExprStrict cond.2 (depth + 1))) 0 conditions in
          res_map_err (EWrap "invalid else result") (ValidateExprStrict elseExpr (depth + 1))
      end
    end.
End Validate.

(** * expr_lineage.go *)

Record Deps : Type := mkDeps {
  dep_cols : list (string * string);
  dep_mets : list string;
  dep_dims : list string;
}.

Definition add_new {A} `{EqDecision A} (x : A) (l : list A) : list A :=
  if decide (x ∈ l) then l else l ++ [x].

(** The closure [collect], on the three slices it appends to. *)
Fixpoint collect (n : ExprNode) (d : Deps) : Deps :=
  match n with
  | NilExpr | LiteralExpr _ => d
  | ColumnRefExpr t c => mkDeps (add_new (t, c) (dep_cols d)) (dep_mets d) (dep_dims d)
  | MetricRefExpr m => mkDeps (dep_cols d) (add_new m (dep_mets d)) (dep_dims d)
  | DimensionRefExpr m => mkDeps (dep_cols d) (dep_mets d) (add_new m (dep_dims d))
  | BinaryExpr _ l r => collect r (collect l d)
  | UnaryExpr _ e => collect e d
  | FunctionCallExpr _ args => fold_left (fun d a => collect a d) args d
  | CaseExpr conds el =>
      collect el (fold_left (fun d (c : ExprNode * ExprNode) => collect c.2 (collect c.1 d)) conds d)
  end.

Definition ExprDependencies (node : ExprNode) : Deps := collect node (mkDeps [] [] []).

(** * types.go *)

(** The fields the query pipeline and the publish gate read; the active flags and
    timestamps of the catalogue, and the labels, descriptions and synonyms of
    anything but a model and a metric, are not represented. *)
Record Dimension : Type := mkDimension {
  dim_Name : string;
  dim_ColumnRef : string;
  dim_Type : string;
  dim_TimeGrain : string;
  dim_CalculatedExpression : string;
  dim_CalculatedExpr : ExprNode;
}.

Record Metric : Type := mkMetric {
  met_Name : string;
  met_Expression : string;
  met_Expr : ExprNode;
  met_Aggregation : string;
  met_Label : option string;
  met_Synonyms : list string;
  met_Format : option string;
}.

Record JoinDef : Type := mkJoin {
  join_Name : string;
  join_FromSchema : string;
  join_FromTable : string;
  join_FromColumn : string;
  join_ToSchema : string;
  join_ToTable : string;
  join_ToColumn : string;
  join_JoinType : string;
  join_Relationship : string;
}.

Record SemanticModel : Type := mkModel {
  model_ID : string;
  model_DatasourceID : string;
  model_Name : string;
  model_BaseSchema : string;
  model_BaseTable : string;
  model_Version : Z;
  model_Dimensions : list Dimension;
  model_Metrics : list Metric;
  model_Joins : list JoinDef;
  model_Label : option string;
  model_Description : option string;
  model_Status : string;
}.

Definition ModelStatusDraft : string := "draft".
Definition ModelStatusPublished : string := "published".

Definition DefaultJoinType : string := "LEFT".
Definition RelationshipManyToOne : string := "many_to_one".
Definition RelationshipOneToMany : string := "one_to_many".
Definition RelationshipOneToOne : string := "one_to_one".
Definition RelationshipManyToMany : string := "many_to_many".
Definition DefaultRelationshipType : string := RelationshipManyToOne.

(** * What the checker promises *)

(** The number of nodes on the longest path; a nil child adds nothing. *)
Fixpoint height (e : ExprNode) : Z :=
  match e with
  | NilExpr => 0
  | LiteralExpr _ | ColumnRefExpr _ _ | MetricRefExpr _ | DimensionRefExpr _ => 1
  | BinaryExpr _ l r => 1 + Z.max (height l) (height r)
  | UnaryExpr _ e => 1 + height e
  | FunctionCallExpr _ args => 1 + foldr (fun a h => Z.max (height a) h) 0 args
  | CaseExpr cs el =>
      1 + Z.max (foldr (fun (c : ExprNode * ExprNode) h =>
                   Z.max (Z.max (height c.1) (height c.2)) h) 0 cs) (height el)
  end.

(** The nodes of an expression, itself included. *)
Fixpoint subexprs (e : ExprNode) : list ExprNode :=
  e :: match e with
  | NilExpr | LiteralExpr _ | ColumnRefExpr _ _ | MetricRefExpr _ | DimensionRefExpr _ => []
  | BinaryExpr _ l r => subexprs l ++ subexprs r
  | UnaryExpr _ e => subexprs e
  | FunctionCallExpr _ args => flat_map subexprs args
  | CaseExpr cs el =>
      flat_map (fun c : ExprNode * ExprNode => subexprs c.1 ++ subexprs c.2) cs ++ subexprs el
  end.

(** The number of arguments a call may have. *)
Definition arity_ok (funcName : string) (arity n : Z) : Prop :=
  if String.eqb funcName "ROUND" then n = 1 \/ n = 2
  else if String.eqb funcName "COUNT" then n <= 1
  else if arity =? -1 then 1 <= n
  else n = arity.

Section NodeOk.
Context (allowedColumns allowedMetrics allowedDimensions : gmap string bool).
Context (allowMetrics : bool).

(** A column reference is known when its lower-cased, possibly qualified name
      is allowed, or, unqualified, when it is the column part of a listed
      table.column name. *)
Definition column_known (t c : string) : Prop :=
    if str_empty t then
      allowedColumns !! ToLower c = Some true \/
      exists tbl b, allowedColumns !! (tbl +:+ "." +:+ ToLower c) = Some b
                    /\ has_byte "." tbl = false /\ has_byte "." (ToLower c) = false
    else allowedColumns !! ToLower (t +:+ "." +:+ c) = Some true.

Definition call_ok (name : string) (nargs : Z) : Prop :=
    exists arity,
      (assoc (ToUpper name) AllowedFunctions = Some arity \/
       allowMetrics = true /\ assoc (ToUpper name) AllowedAggregateFunctions = Some arity) /\
      arity_ok (ToUpper name) arity nargs.

(** What each node of an accepted expression satisfies. *)
Definition node_ok (e : ExprNode) : Prop :=
    match e with
    | ColumnRefExpr t c => column_known t c
    | MetricRefExpr m => allowMetrics = true /\ allowedMetrics !! ToLower m = Some true
    | DimensionRefExpr m => allowedDimensions !! ToLower m = Some true
    | FunctionCallExpr f args => call_ok f (Z.of_nat (length args))
    | _ => True
    end.
End NodeOk.

(** * Theorems *)

(** Induction over expressions, through the argument lists of calls and the
    branches of CASE. *)
Lemma ExprNode_ind' (P : ExprNode -> Prop) :
  P NilExpr ->
  (forall v, P (LiteralExpr v)) ->
  (forall t c, P (ColumnRefExpr t c)) ->
  (forall m, P (MetricRefExpr m)) ->
  (forall m, P (DimensionRefExpr m)) ->
  (forall op l r, P l -> P r -> P (BinaryExpr op l r)) ->
  (forall op e, P e -> P (UnaryExpr op e)) ->
  (forall f args, Forall P args -> P (FunctionCallExpr f args)) ->
  (forall cs el, Forall (fun c => P c.1 /\ P c.2) cs -> P el -> P (CaseExpr cs el)) ->
  forall e, P e.
Proof.
  intros Hnil Hlit Hcol Hmet Hdim Hbin Hun Hfun Hcase. fix IH 1. intros [].
  - exact Hnil.
  - apply Hlit.
  - apply Hcol.
  - apply Hmet.
  - apply Hdim.
  - apply Hbin; apply IH.
  - apply Hun, IH.
  - apply Hfun. induction Args as [|a args IHargs]; constructor; [apply IH | exact IHargs].
  - apply Hcase; [|apply IH].
    induction Conditions as [|[w t] cs IHcs]; constructor; [|exact IHcs].
    split; apply IH.
Qed.

Section ValidateProofs.
Context (cols mets dims : gmap string bool) (am : bool).

Lemma res_iteri_ok {A} (f : Z -> A -> res unit) (P : A -> Prop) i l :
    Forall (fun x => forall i, f i x = Ok tt <-> P x) l ->
    res_iteri f i l = Ok tt <-> Forall P l.
Proof.
    intros H. revert i. induction H as [|x l Hx Hl IH]; intros i; simpl; [done|].
    rewrite Forall_cons. split.
    - intros ([] & H1 & H2)%res_bind_ok. split; [by eapply Hx | by eapply IH].
    - intros [H1 H2]. apply (Hx i) in H1 as ->. simpl. by apply IH.
Qed.

Lemma bind_unit_ok (m k : res unit) :
    (let? _ := m in k) = Ok tt <-> m = Ok tt /\ k = Ok tt.
Proof. destruct m as [[]|]; simpl; [tauto | split; [done | by intros []]]. Qed.

Lemma res_map_err_ok {A} f (m : res A) a : res_map_err f m = Ok a <-> m = Ok a.
Proof. by destruct m. Qed.

Lemma bmap_get_true m k : bmap_get m k = true <-> m !! k = Some true.
Proof. unfold bmap_get. by destruct (m !! k) as [[]|]. Qed.

Lemma unqualified_spec c :
    unqualifiedColumnAllowed c cols = true <->
    exists tbl b, cols !! (tbl +:+ "." +:+ c) = Some b
      /\ has_byte "." tbl = false /\ has_byte "." c = false.
Proof.
    unfold unqualifiedColumnAllowed. rewrite existsb_In. split.
    - intros ([k b] & Hk & H). simpl in H. apply elem_of_map_to_list in Hk.
      pose proof (Join_Split "." k) as Hj. pose proof (Split_no_sep "." k) as Hn.
      destruct (Split "." k) as [|t [|c' [|? ?]]]; try done.
      apply String.eqb_eq in H as ->. apply Forall_cons in Hn as [Ht Hn].
      apply Forall_cons in Hn as [Hc _]. exists t, b. split_and!; [|done..].
      rewrite <- Hj in Hk. simpl in Hk. done.
    - intros (t & b & Hk & Ht & Hc). exists (t +:+ "." +:+ c, b).
      split; [by apply elem_of_map_to_list|]. cbn [fst].
      rewrite app_cons, app_nil_l, Split_app_sep by done.
      rewrite Split_single by done. by apply String.eqb_eq.
Qed.

Lemma validateColumnRefExpr_ok t c :
    validateColumnRefExpr t c cols = Ok tt <-> column_known cols t c.
Proof.
    unfold validateColumnRefExpr, column_known. cbv zeta. destruct (str_empty t); simpl.
    - rewrite <- bmap_get_true, <- unqualified_spec.
      destruct (bmap_get _ _); simpl; [tauto|].
      destruct (unqualifiedColumnAllowed _ _); simpl; [tauto|].
      split; [done | by intros [|]].
    - rewrite <- bmap_get_true. by destruct (bmap_get _ _).
Qed.

Lemma arity_check f a n (e1 e2 e3 e4 : goerr) :
    (if String.eqb f "ROUND" then
       if negb (n =? 1) && negb (n =? 2) then Err e1 else Ok tt
     else if String.eqb f "COUNT" then if 1 <? n then Err e2 else Ok tt
     else if a =? -1 then if n <? 1 then Err e3 else Ok tt
     else if negb (n =? a) then Err e4 else Ok tt) = Ok tt <-> arity_ok f a n.
Proof.
    unfold arity_ok. destruct (String.eqb f "ROUND").
    { destruct (Z.eqb_spec n 1), (Z.eqb_spec n 2); simpl; split; try done; lia. }
    destruct (String.eqb f "COUNT"); [destruct (Z.ltb_spec 1 n); split; try done; lia|].
    destruct (a =? -1); [destruct (Z.ltb_spec n 1); split; try done; lia|].
    destruct (Z.eqb_spec n a); simpl; split; done.
Qed.

Lemma assoc_in k l v : assoc k l = Some v -> (k, v) ∈ l.
Proof.
    induction l as [|[k' v'] l IH]; simpl; [done|].
    destruct (String.eqb_spec k k') as [->|].
    - intros [= ->]. by left.
    - intros H. right. by apply IH.
Qed.
(** A check of every name of a table holds of the name looked up. *)
Lemma assoc_forall (p : string -> bool) l k v :
    assoc k l = Some v -> forallb (fun kv => p kv.1) l = true -> p k = true.
Proof.
    intros H%assoc_in Hl. rewrite forallb_forall in Hl.
    apply (Hl (k, v)). by apply list_elem_of_In.
Qed.

(** A name in both white lists would be ambiguous; there is none. *)
Lemma tables_disjoint f a b :
    assoc f AllowedAggregateFunctions = Some a -> assoc f AllowedFunctions = Some b -> False.
Proof.
    intros Ha Hb.
    assert (negb (str_in f (map fst AllowedFunctions)) = true) as Hn.
    { apply (assoc_forall (fun f => negb (str_in f (map fst AllowedFunctions)))
               AllowedAggregateFunctions f a); [exact Ha | by vm_compute]. }
    apply negb_true_iff, str_in_false in Hn. apply Hn.
    apply assoc_in in Hb. by apply (list_elem_of_fmap_2 fst) in Hb.
Qed.

(** The names of the white lists carry no white space and are upper case. *)
Lemma assoc_trimmed f a :
    assoc f AllowedFunctions = Some a \/ assoc f AllowedAggregateFunctions = Some a ->
    ToUpper (TrimSpace f) = f.
Proof.
    intros [H|H]; apply String.eqb_eq; eapply (assoc_forall (fun f => String.eqb (ToUpper (TrimSpace f)) f));
      try exact H; by vm_compute.
Qed.

Lemma validateFunctionHead_ok f n :
    validateFunctionHead f n am = Ok tt <-> call_ok am f n.
Proof.
    unfold validateFunctionHead, call_ok. cbv zeta.
    set (F := ToUpper f).
    destruct (assoc F AllowedFunctions) as [a|] eqn:Ea.
    - assert (FunctionAllowed F am = true) as ->.
      { unfold FunctionAllowed. rewrite (assoc_trimmed F a), Ea by auto. done. }
      simpl. rewrite arity_check. split; [eauto 6|].
      intros (b & [Hs|[_ Hb]] & Hok); [by simplify_eq|].
      by destruct (tables_disjoint F b a).
    - destruct (assoc F AllowedAggregateFunctions) as [a|] eqn:Eb.
      + assert (FunctionAllowed F am = am) as ->.
        { unfold FunctionAllowed, IsAggregateFunction. 
          rewrite (assoc_trimmed F a) by auto. rewrite Ea.
          assert (ToUpper (TrimSpace F) = F) as -> by eauto using assoc_trimmed.
          rewrite Eb. by rewrite andb_true_r. }
        destruct am; simpl.
        * rewrite arity_check. split; [intros Hn; exists a; auto|].
          intros (b & [|[_ Hb]] & Hok); by simplify_eq.
        * destruct (IsAggregateFunction F); split; try done; by intros (b & [|[]] & _).
      + split; [|by intros (b & [|[]] & _)].
        by destruct (FunctionAllowed F am), (IsAggregateFunction F).
Qed.

(** The bound on a list of children is the bound on each of them. *)
Lemma height_foldr_le {A} (h : A -> Z) l b :
    foldr (fun a m => Z.max (h a) m) 0 l <= b <-> 0 <= b /\ Forall (fun a => h a <= b) l.
Proof.
    induction l as [|x l IH]; simpl; [split; [done|tauto]|].
    rewrite Forall_cons, Z.max_lub_iff, IH. tauto.
Qed.

Lemma height_nonneg e : 0 <= height e.
Proof.
    assert (forall A (h : A -> Z) l, 0 <= foldr (fun a m => Z.max (h a) m) 0 l) as Hf.
    { intros A h l. destruct (height_foldr_le h l (foldr (fun a m => Z.max (h a) m) 0 l)) as [H _].
      by apply H. }
    induction e using ExprNode_ind'; simpl; try lia.
    specialize (Hf _ height args). lia.
Qed.

Lemma height_pos e : e <> NilExpr -> 1 <= height e.
Proof.
    assert (forall A (h : A -> Z) l, 0 <= foldr (fun a m => Z.max (h a) m) 0 l) as Hf.
    { intros A h l. destruct (height_foldr_le h l (foldr (fun a m => Z.max (h a) m) 0 l)) as [H _].
      by apply H. }
    destruct e; simpl; intros Hne; try done.
    - pose proof (height_nonneg e1). lia.
    - pose proof (height_nonneg e). lia.
    - specialize (Hf _ height Args). lia.
    - pose proof (height_nonneg e). lia.
Qed.

Lemma Forall_flat_map {A B} (P : B -> Prop) (f : A -> list B) l :
    Forall P (flat_map f l) <-> Forall (fun x => Forall P (f x)) l.
Proof. induction l; simpl; [done|]. by rewrite Forall_app, Forall_cons, IHl. Qed.

Lemma ValidateExprStrict_deep e depth :
    10 < depth -> e <> NilExpr -> ValidateExprStrict cols mets dims am e depth
                                  = Err (EMsg "expression nesting depth exceeds limit of 10").
Proof. intros Hd He. destruct e; try done; simpl; by destruct (Z.ltb_spec 10 depth); [|lia]. Qed.

(** What one node and its children contribute, the depth being within bounds. *)
Lemma ValidateExprStrict_step e depth :
    depth <= 10 ->
    ValidateExprStrict cols mets dims am e depth = Ok tt <->
    node_ok cols mets dims am e /\
    match e with
    | BinaryExpr _ l r =>
        ValidateExprStrict cols mets dims am l (depth + 1) = Ok tt /\
        ValidateExprStrict cols mets dims am r (depth + 1) = Ok tt
    | UnaryExpr _ e => ValidateExprStrict cols mets dims am e (depth + 1) = Ok tt
    | FunctionCallExpr _ args =>
        Forall (fun a => ValidateExprStrict cols mets dims am a (depth + 1) = Ok tt) args
    | CaseExpr cs el =>
        Forall (fun c => ValidateExprStrict cols mets dims am c.1 (depth + 1) = Ok tt /\
                         ValidateExprStrict cols mets dims am c.2 (depth + 1) = Ok tt) cs /\
        ValidateExprStrict cols mets dims am el (depth + 1) = Ok tt
    | _ => True
    end.
Proof.
    intros Hd. destruct e; simpl; try (destruct (Z.ltb_spec 10 depth); [lia|]); try tauto.
    - rewrite validateColumnRefExpr_ok. tauto.
    - rewrite <- bmap_get_true. destruct am, (bmap_get mets _); simpl; naive_solver.
    - rewrite <- bmap_get_true. destruct (bmap_get dims _); simpl; naive_solver.
    - rewrite bind_unit_ok. tauto.
    - rewrite bind_unit_ok, validateFunctionHead_ok.
      rewrite (res_iteri_ok _ (fun a => ValidateExprStrict cols mets dims am a (depth + 1) = Ok tt)); [done|].
      by apply Forall_forall.
    - rewrite bind_unit_ok, res_map_err_ok.
      rewrite (res_iteri_ok _ (fun c => ValidateExprStrict cols mets dims am c.1 (depth + 1) = Ok tt /\
                         ValidateExprStrict cols mets dims am c.2 (depth + 1) = Ok tt)); [tauto|].
      apply Forall_forall. intros c _ i. by rewrite bind_unit_ok, !res_map_err_ok.
Qed.

Lemma children_spec {A} (V N : A -> Prop) (h : A -> Z) l d :
    d <= 10 -> Forall (fun a => V a <-> d + 1 + h a <= 11 /\ N a) l ->
    Forall V l <-> d + 1 + foldr (fun a m => Z.max (h a) m) 0 l <= 11 /\ Forall N l.
Proof.
    intros Hd. induction 1 as [|x l Hx Hl IH]; simpl; [by split; [split; [lia|]|]|].
    rewrite !Forall_cons, Hx, IH, <- Z.add_max_distr_l, Z.max_lub_iff. tauto.
Qed.

(** The checker accepts exactly the expressions within the nesting limit all of
      whose nodes are in order. *)
Lemma ValidateExprStrict_spec e depth :
    depth <= 11 ->
    ValidateExprStrict cols mets dims am e depth = Ok tt <->
    depth + height e <= 11 /\ Forall (node_ok cols mets dims am) (subexprs e).
Proof.
    revert depth. induction e using ExprNode_ind'; intros depth Hd.
    { simpl. split; [|done]. intros _. split; [lia|]. by repeat constructor. }
    all: destruct (Z.ltb_spec 10 depth);
      [rewrite ValidateExprStrict_deep by done; split; [done|intros [Hh _]];
       match type of Hh with _ + height ?e <= _ => pose proof (height_pos e ltac:(done)) end; lia
      |rewrite ValidateExprStrict_step by lia; cbn [height subexprs node_ok]; rewrite Forall_cons].
    1-4: split; [intros [? _]; split; [lia|]; split; [done | apply Forall_nil_2]
                | by intros (_ & ? & _)].
    - rewrite IHe1, IHe2, Forall_app by lia. split.
      + intros (_ & [? ?] & [? ?]). split_and!; [lia|done..].
      + intros (? & _ & ? & ?). split_and!; try done; lia.
    - rewrite IHe by lia. split.
      + intros (_ & ? & ?). split_and!; [lia|done..].
      + intros (? & _ & ?). split_and!; try done; lia.
    - rewrite Forall_flat_map.
      rewrite (children_spec _ (fun a => Forall (node_ok cols mets dims am) (subexprs a)) height _ depth);
        [|lia|]; [intuition lia|].
      eapply Forall_impl; [exact H|]. intros a IHa. apply IHa. lia.
    - rewrite Forall_app, Forall_flat_map, IHe by lia.
      rewrite (children_spec _ (fun c => Forall (node_ok cols mets dims am) (subexprs c.1 ++ subexprs c.2))
        (fun c => Z.max (height c.1) (height c.2)) _ depth);
        [|lia|]; [intuition lia|].
      eapply Forall_impl; [exact H|]. intros c [IH1 IH2]. rewrite IH1, IH2, Forall_app by lia.
      intuition lia.
Qed.
End ValidateProofs.

(** [ValidateExprStrict] started at depth 0 accepts an expression exactly when
    no path of it is longer than eleven nodes and each of its nodes is in order:
    columns, metrics and dimensions are on the allowed lists (metrics only where
    they are allowed at all) and every call is of a white-listed function, with
    a number of arguments that function takes. *)
Theorem ValidateExprStrict_exact cols mets dims am e :
  ValidateExprStrict cols mets dims am e 0 = Ok tt <->
  height e <= 11 /\ Forall (node_ok cols mets dims am) (subexprs e).
Proof. by rewrite ValidateExprStrict_spec. Qed.

(** ** Lineage *)

Definition refs_of (d : Deps) : list ExprNode :=
  map (fun c => ColumnRefExpr c.1 c.2) (dep_cols d) ++ map MetricRefExpr (dep_mets d)
  ++ map DimensionRefExpr (dep_dims d).

Definition is_ref (e : ExprNode) : bool :=
  match e with ColumnRefExpr _ _ | MetricRefExpr _ | DimensionRefExpr _ => true | _ => false end.

Definition Deps_NoDup (d : Deps) : Prop :=
  NoDup (dep_cols d) /\ NoDup (dep_mets d) /\ NoDup (dep_dims d).

(** [collect] turned [d] into [d'] by adding the references among [es]. *)
Definition collects (es : list ExprNode) (d d' : Deps) : Prop :=
  (Deps_NoDup d -> Deps_NoDup d') /\
  forall r, r ∈ refs_of d' <-> r ∈ refs_of d \/ (is_ref r = true /\ r ∈ es).

Lemma add_new_elem {A} `{EqDecision A} (x y : A) l : y ∈ add_new x l <-> y ∈ l \/ y = x.
Proof. unfold add_new. case_decide; set_solver. Qed.
Lemma add_new_NoDup {A} `{EqDecision A} (x : A) l : NoDup l -> NoDup (add_new x l).
Proof.
  unfold add_new. case_decide; [done|]. intros. apply NoDup_app. split_and!; [done| |].
  - set_solver.
  - apply NoDup_singleton.
Qed.

Lemma collects_skip e es d d' : is_ref e = false -> collects es d d' -> collects (e :: es) d d'.
Proof.
  intros He [Hn H]. split; [done|]. intros r. rewrite H, elem_of_cons.
  split; [tauto|]. intros [?|[Hr [->|?]]]; [tauto|congruence|tauto].
Qed.
Lemma collects_app es1 es2 d d1 d2 :
  collects es1 d d1 -> collects es2 d1 d2 -> collects (es1 ++ es2) d d2.
Proof.
  intros [Hn1 H1] [Hn2 H2]. split; [auto|]. intros r. rewrite H2, H1, elem_of_app. tauto.
Qed.
Lemma collects_nil d : collects [] d d.
Proof. split; [done|]. intros r. set_solver. Qed.
Lemma collects_fold {A} (f : A -> list ExprNode) (g : Deps -> A -> Deps) l d :
  Forall (fun a => forall d, collects (f a) d (g d a)) l ->
  collects (flat_map f l) d (fold_left g l d).
Proof.
  intros H. revert d. induction H as [|a l Ha Hl IH]; intros d; simpl.
  - apply collects_nil.
  - eapply collects_app; [apply Ha | apply IH].
Qed.

Lemma refs_elem d r :
  r ∈ refs_of d <->
  match r with
  | ColumnRefExpr t c => (t, c) ∈ dep_cols d
  | MetricRefExpr m => m ∈ dep_mets d
  | DimensionRefExpr m => m ∈ dep_dims d
  | _ => False
  end.
Proof.
  unfold refs_of. rewrite !elem_of_app, !list_elem_of_fmap.
  split.
  - intros [([t c] & -> & H)|[(m & -> & H)|(m & -> & H)]]; exact H.
  - destruct r; try done; intros H; [left; by exists (Table, Column)|right; left; eauto|right; right; eauto].
Qed.

Lemma collect_collects e d : collects (subexprs e) d (collect e d).
Proof.
  revert d. induction e using ExprNode_ind'; intros d; cbn [subexprs collect].
  - apply collects_skip; [done|]. apply collects_nil.
  - apply collects_skip; [done|]. apply collects_nil.
  - split.
    + intros (? & ? & ?). split_and!; simpl; auto using add_new_NoDup.
    + intros r. rewrite !refs_elem. destruct r; simpl; try rewrite add_new_elem; set_solver.
  - split.
    + intros (? & ? & ?). split_and!; simpl; auto using add_new_NoDup.
    + intros r. rewrite !refs_elem. destruct r; simpl; try rewrite add_new_elem; set_solver.
  - split.
    + intros (? & ? & ?). split_and!; simpl; auto using add_new_NoDup.
    + intros r. rewrite !refs_elem. destruct r; simpl; try rewrite add_new_elem; set_solver.
  - apply collects_skip; [done|]. eapply collects_app; eauto.
  - apply collects_skip; [done|]. eauto.
  - apply collects_skip; [done|]. by apply collects_fold.
  - apply collects_skip; [done|]. eapply collects_app; [|apply IHe].
    apply collects_fold. eapply Forall_impl; [exact H|].
    intros c [H1 H2] d'. eapply collects_app; eauto.
Qed.

Lemma ExprDependencies_refs e :
  (forall m, m ∈ dep_mets (ExprDependencies e) <-> MetricRefExpr m ∈ subexprs e) /\
  (forall m, m ∈ dep_dims (ExprDependencies e) <-> DimensionRefExpr m ∈ subexprs e).
Proof.
  destruct (collect_collects e (mkDeps [] [] [])) as [_ H]. fold (ExprDependencies e) in *.
  assert (forall r, r ∉ refs_of (mkDeps [] [] [])) as He by (intros r; cbv; set_solver).
  split; intros m; [specialize (H (MetricRefExpr m))|specialize (H (DimensionRefExpr m))];
    rewrite refs_elem in H; rewrite H; naive_solver.
Qed.

(** [ExprDependencies] returns, each once, exactly the columns, metrics and
    dimensions the expression refers to anywhere. *)
Theorem ExprDependencies_exact e :
  Deps_NoDup (ExprDependencies e) /\
  (forall t c, (t, c) ∈ dep_cols (ExprDependencies e) <-> ColumnRefExpr t c ∈ subexprs e) /\
  (forall m, m ∈ dep_mets (ExprDependencies e) <-> MetricRefExpr m ∈ subexprs e) /\
  (forall m, m ∈ dep_dims (ExprDependencies e) <-> DimensionRefExpr m ∈ subexprs e).
Proof.
  destruct (collect_collects e (mkDeps [] [] [])) as [Hn H]. fold (ExprDependencies e) in *.
  split; [apply Hn; by repeat split; constructor|].
  assert (forall r, r ∉ refs_of (mkDeps [] [] [])) as He by (intros r; cbv; set_solver).
  split_and!; intros; [specialize (H (ColumnRefExpr t c))|specialize (H (MetricRefExpr m))
                      |specialize (H (DimensionRefExpr m))];
    rewrite refs_elem in H; rewrite H; simpl; naive_solver.
Qed.
