(* ===== verification/ReadOnly.v ===== *)
(** The read-only gate of [internal/security]: [readonly.go] and
    [function_blocklist.go].

    [Check] is [ReadOnlyChecker.Check]: strip literals and comments, demand a
    SELECT/WITH/EXPLAIN head, refuse data-modifying keywords, blocked functions
    and a second statement.  Positions [i] of the Go scanners are represented by
    the text from [i] on; a scanner that returns a new position returns the text
    from there.  The loops take the length of the text as fuel, and the
    development shows they never use it up.

    The second half states the lexical grammar the gate is about ([Strips],
    [Calls]) independently of the scanners and proves that the gate accepts
    exactly the texts that grammar allows. *)

From S2P Require Import Prelude GoStrings Dialect.
From stdpp Require Import options.
#[local] Open Scope nat_scope.

Definition sq : ascii := "'".
Definition dq : ascii := ascii_of_nat 34.
Definition newline : ascii := ascii_of_nat 10.
Definition is_char (c d : ascii) : bool := Ascii.eqb d c.

(** * readonly.go *)

Definition dangerousKeywords : list string :=
  ["INSERT"; "UPDATE"; "DELETE"; "DROP"; "ALTER";
   "TRUNCATE"; "CREATE"; "GRANT"; "REVOKE"; "MERGE";
   "CALL"; "EXEC"; "EXECUTE";
   "SET"; "RESET"; "COPY"; "DO"; "LOCK"; "VACUUM"; "REINDEX";
   "INTO"].

(** [\w] of a Go regular expression. *)
Definition is_word (c : ascii) : bool := is_alpha c || is_digit c || is_char "_" c.
(** [\s] of a Go regular expression. *)
Definition is_re_space (c : ascii) : bool :=
  (code c =? 9) || (code c =? 10) || (code c =? 12) || (code c =? 13) || (code c =? 32).

(** The text after [kw], when [s] starts with it in any case. *)
Fixpoint match_fold (kw s : string) : option string :=
  match kw, s with
  | EmptyString, _ => Some s
  | String a kw', String b s' => if Ascii.eqb (upper a) (upper b) then match_fold kw' s' else None
  | String _ _, EmptyString => None
  end.

(** [MatchString] of the pattern (?i)\b m \b, where [m] returns the text that
    follows a match starting here, and starts and ends with word characters:
    [prev] tells whether a word character precedes. *)
Fixpoint word_search (m : string -> option string) (prev : bool) (s : string) : bool :=
  (negb prev && match m s with Some r => negb (head_is is_word r) | None => false end) ||
  match s with
  | EmptyString => false
  | String c s' => word_search m (is_word c) s'
  end.

Definition has_word (kw s : string) : bool := word_search (match_fold kw) false s.

(** (?i)\bBULK\s+INSERT\b *)
Definition match_bulk_insert (s : string) : option string :=
  match match_fold "BULK" s with
  | Some r => let '(sp, r') := span is_re_space r in
              if str_empty sp then None else match_fold "INSERT" r'
  | None => None
  end.
Definition has_bulk_insert (s : string) : bool := word_search match_bulk_insert false s.

Definition readonlyLineCommentAt (s : string) : bool := HasPrefix s "--".
Definition readonlyBlockCommentAt (s : string) : bool := HasPrefix s "/*".

Fixpoint skipReadonlyLineComment (s : string) : string :=
  match s with
  | String c s' => if is_char newline c then s else skipReadonlyLineComment s'
  | EmptyString => EmptyString
  end.

(** The loop of [skipReadonlyBlockComment], after the opening two bytes. *)
Fixpoint skip_to_close (s : string) : string :=
  match cut_prefix "*/" s with
  | Some r => r
  | None => match s with
            | String _ s' => skip_to_close s'
            | EmptyString => EmptyString
            end
  end.
Definition skipReadonlyBlockComment (s : string) : string :=
  match s with String _ (String _ r) => skip_to_close r | _ => EmptyString end.

(** The loop of [skipStringLiteral] after the opening quote: whether the closing
    quote was found, and the text after it. *)
Fixpoint skip_quoted (quote : ascii) (s : string) : bool * string :=
  match s with
  | EmptyString => (false, EmptyString)
  | String c s' =>
      if is_char quote c then
        match s' with
        | String d s'' => if is_char quote d then skip_quoted quote s'' else (true, s')
        | EmptyString => (true, EmptyString)
        end
      else skip_quoted quote s'
  end.

(** [skipStringLiteral]: what is written for the literal starting at [s], and the
    text after it. *)
Definition skipStringLiteral (quote : ascii) (s : string) : string * string :=
  match s with
  | EmptyString => (EmptyString, EmptyString)
  | String _ s' =>
      let '(closed, r) := skip_quoted quote s' in
      (String quote (if closed then String quote "" else ""), r)
  end.

Fixpoint writeStrippedSQLLiteralsAndComments (fuel : nat) (s : string) : res string :=
  match fuel with
  | 0 => if str_empty s then Ok "" else Err EFuel
  | S fuel =>
    match s with
    | EmptyString => Ok ""
    | String c s' =>
        if readonlyLineCommentAt s then
          writeStrippedSQLLiteralsAndComments fuel (skipReadonlyLineComment s)
        else if readonlyBlockCommentAt s then
          writeStrippedSQLLiteralsAndComments fuel (skipReadonlyBlockComment s)
        else if is_char sq c then
          let '(w, r) := skipStringLiteral sq s in
          let? o := writeStrippedSQLLiteralsAndComments fuel r in Ok (w +:+ o)
        else if is_char dq c then
          let '(w, r) := skipStringLiteral dq s in
          let? o := writeStrippedSQLLiteralsAndComments fuel r in Ok (w +:+ o)
        else
          let? o := writeStrippedSQLLiteralsAndComments fuel s' in Ok (String c o)
    end
  end.

Definition stripSQLLiteralsAndComments (sql : string) : res string :=
  writeStrippedSQLLiteralsAndComments (String.length sql) sql.

(** [strings.TrimRight(cleaned, " \t\r\n;")] *)
Definition is_tail_byte (c : ascii) : bool :=
  (code c =? 32) || (code c =? 9) || (code c =? 13) || (code c =? 10) || is_char ";" c.

Definition hasMultipleStatements (cleaned : string) : bool :=
  has_byte ";" (trim_right is_tail_byte cleaned).

(** * function_blocklist.go *)

Definition defaultDeniedFunctions : list string :=
  ["xp_cmdshell"; "openrowset"; "pg_read_file"; "pg_execute_server_program";
   "load_file"; "dblink"; "dblink_connect"; "dblink_exec"; "lo_import"; "lo_export";
   "read_csv"; "read_parquet"; "postgres_scan"; "mysql_scan"; "eval"; "evalfunction"].

Definition DefaultDeniedFunctions : list string := defaultDeniedFunctions.

(** [^[a-z_][a-z0-9_]*$] *)
Definition functionNamePattern (s : string) : bool :=
  match s with
  | EmptyString => false
  | String c s' =>
      (is_lower c || is_char "_" c) &&
      str_forallb (fun d => is_lower d || is_digit d || is_char "_" d) s'
  end.

Fixpoint normalize_loop (functions normalized : list string) : res (list string) :=
  match functions with
  | [] => Ok normalized
  | f :: rest =>
      let name := ToLower (TrimSpace f) in
      if functionNamePattern name then
        normalize_loop rest (if str_in name normalized then normalized else normalized ++ [name])
      else Err (EMsg ("invalid SQL function name " +:+ Quote f))
  end.
Definition NormalizeFunctionBlocklist (functions : list string) : res (list string) :=
  normalize_loop functions [].

Definition NormalizeCustomFunctionBlocklist (functions : list string) : res (list string) :=
  let? normalized := NormalizeFunctionBlocklist functions in
  Ok (List.filter (fun n => negb (str_in n defaultDeniedFunctions)) normalized).

Definition EffectiveDeniedFunctions (custom : list string) : res (list string) :=
  let? normalized := NormalizeCustomFunctionBlocklist custom in
  Ok (fold_left (fun eff n => if str_in n eff then eff else eff ++ [n])
        normalized DefaultDeniedFunctions).

Definition isFunctionIdentifierStart (b : ascii) : bool := is_char "_" b || is_lower b || is_upper b.
Definition isFunctionIdentifierPart (b : ascii) : bool :=
  isFunctionIdentifierStart b || is_digit b || is_char "$" b.

(** [readQuotedFunctionIdentifier] after the opening quote. *)
Fixpoint readQuotedFunctionIdentifier (s : string) : string * string :=
  match s with
  | EmptyString => (EmptyString, EmptyString)
  | String c s' =>
      if is_char dq c then
        match s' with
        | String d s'' =>
            if is_char dq d
            then let '(n, r) := readQuotedFunctionIdentifier s'' in (String dq n, r)
            else (EmptyString, s')
        | EmptyString => (EmptyString, EmptyString)
        end
      else let '(n, r) := readQuotedFunctionIdentifier s' in (String c n, r)
  end.

(** [skipFunctionStringLiteral] after the opening quote. *)
Definition skipFunctionStringLiteral (s : string) : string := (skip_quoted sq s).2.

Definition is_call_space (c : ascii) : bool :=
  (code c =? 32) || (code c =? 9) || (code c =? 13) || (code c =? 10).

Fixpoint functionCallAt (fuel : nat) (s : string) : res bool :=
  match fuel with
  | 0 => if str_empty s then Ok false else Err EFuel
  | S fuel =>
    match s with
    | EmptyString => Ok false
    | String c s' =>
        if is_call_space c then functionCallAt fuel s'
        else if readonlyLineCommentAt s then functionCallAt fuel (skipReadonlyLineComment s)
        else if readonlyBlockCommentAt s then functionCallAt fuel (skipReadonlyBlockComment s)
        else Ok (is_char "(" c)
    end
  end.

Section Blocklist.
Context (denied : list string).

Definition blocked_error (name : string) : goerr :=
  EMsg ("function " +:+ Quote name +:+ " is blocked").

(** A lower-cased name read at some position, [r] being the text after it:
    blocked when it is denied and a call follows. *)
Definition blocked_at (key r : string) : res bool :=
  if str_in key denied then functionCallAt (String.length r) r else Ok false.

Fixpoint checkFunctionBlocklist (fuel : nat) (s : string) : res unit :=
  match fuel with
  | 0 => if str_empty s then Ok tt else Err EFuel
  | S fuel =>
    match s with
    | EmptyString => Ok tt
    | String c s' =>
        if readonlyLineCommentAt s then checkFunctionBlocklist fuel (skipReadonlyLineComment s)
        else if readonlyBlockCommentAt s then
          checkFunctionBlocklist fuel (skipReadonlyBlockComment s)
        else if is_char sq c then checkFunctionBlocklist fuel (skipFunctionStringLiteral s')
        else if is_char dq c then
          let '(name, next) := readQuotedFunctionIdentifier s' in
          let? b := blocked_at (ToLower name) next in
          if b then Err (blocked_error name) else checkFunctionBlocklist fuel next
        else if isFunctionIdentifierStart c then
          let '(tl, next) := span isFunctionIdentifierPart s' in
          let name := ToLower (String c tl) in
          let? b := blocked_at name next in
          if b then Err (blocked_error name) else checkFunctionBlocklist fuel next
        else checkFunctionBlocklist fuel s'
    end
  end.
End Blocklist.

(** * ReadOnlyChecker.Check *)

Record ReadOnlyChecker : Type := mkChecker { deniedFunctions : list string }.

Definition NewReadOnlyChecker : ReadOnlyChecker := mkChecker DefaultDeniedFunctions.

Definition NewReadOnlyCheckerWithAdditionalDeniedFunctions (additional : list string)
  : res ReadOnlyChecker :=
  let? d := EffectiveDeniedFunctions additional in Ok (mkChecker d).

(** The first dangerous keyword found, in the order of the pattern list. *)
Definition dangerous_found (cleaned : string) : option string :=
  match List.find (fun kw => has_word kw cleaned) dangerousKeywords with
  | Some kw => Some kw
  | None => if has_bulk_insert cleaned then Some "BULK INSERT" else None
  end.

Fixpoint take_bytes (n : nat) (s : string) : string :=
  match n, s with
  | S n, String c s' => String c (take_bytes n s')
  | _, _ => EmptyString
  end.

Definition Check (c : ReadOnlyChecker) (sql : string) : res unit :=
  let trimmed := TrimSpace sql in
  if str_empty trimmed then Err (EMsg "empty query") else
  let? cleaned := res_map_err (EWrap "strip sql literals and comments")
                    (stripSQLLiteralsAndComments trimmed) in
  let cleanedTrim := TrimSpace cleaned in
  if str_empty cleanedTrim then Err (EMsg "empty query after stripping comments") else
  let upper := ToUpper cleanedTrim in
  if negb (HasPrefix upper "SELECT") && negb (HasPrefix upper "WITH")
     && negb (HasPrefix upper "EXPLAIN") then
    Err (EMsg ("only SELECT, WITH or EXPLAIN queries are allowed, got: "
               +:+ take_bytes 50 cleanedTrim))
  else
  match dangerous_found cleaned with
  | Some kw => Err (EMsg ("query contains dangerous keyword: " +:+ kw))
  | None =>
      let? _ := checkFunctionBlocklist (deniedFunctions c) (String.length trimmed) trimmed in
      if hasMultipleStatements cleaned then Err (EMsg "multiple statements are not allowed")
      else Ok tt
  end.

(** * The lexical grammar the gate is about *)

(** What may follow the body of a line comment. *)
Definition line_end (r : string) : Prop := r = "" \/ head_is (is_char newline) r = true.

(** [Strips s o]: [o] is [s] without its comments, and with every quoted text
    emptied. *)
Inductive Strips : string -> string -> Prop :=
| Strips_end : Strips "" ""
| Strips_line b r o :
    has_byte newline b = false -> line_end r -> Strips r o -> Strips ("--" +:+ b +:+ r) o
| Strips_block b r o :
    Contains b "*/" = false -> Strips r o -> Strips ("/*" +:+ b +:+ "*/" +:+ r) o
| Strips_block_open b : Contains b "*/" = false -> Strips ("/*" +:+ b) ""
| Strips_quoted q v r o :
    q = sq \/ q = dq -> head_is (is_char q) r = false -> Strips r o ->
    Strips (String q (double q v +:+ String q r)) (String q (String q o))
| Strips_quoted_open q v :
    q = sq \/ q = dq -> Strips (String q (double q v)) (String q "")
| Strips_code c s o :
    is_char sq c = false -> is_char dq c = false ->
    HasPrefix (String c s) "--" = false -> HasPrefix (String c s) "/*" = false ->
    Strips s o -> Strips (String c s) (String c o).

(** An opening parenthesis follows, after white space and comments. *)
Inductive CallFollows : string -> Prop :=
| CallFollows_paren r : CallFollows (String "(" r)
| CallFollows_space c r : is_call_space c = true -> CallFollows r -> CallFollows (String c r)
| CallFollows_line b r :
    has_byte newline b = false -> line_end r -> CallFollows r -> CallFollows ("--" +:+ b +:+ r)
| CallFollows_block b r :
    Contains b "*/" = false -> CallFollows r -> CallFollows ("/*" +:+ b +:+ "*/" +:+ r).

Definition is_identifier (a : string) : Prop :=
  head_is isFunctionIdentifierStart a = true /\ str_forallb isFunctionIdentifierPart a = true.

(** [Calls f s]: outside comments and string literals, the text [s] calls the
    function [f], written bare or as a quoted identifier, in any case. *)
Inductive Calls (f : string) : string -> Prop :=
| Calls_bare a r :
    is_identifier a -> head_is isFunctionIdentifierPart r = false ->
    ToLower a = f -> CallFollows r -> Calls f (a +:+ r)
| Calls_quoted v r :
    head_is (is_char dq) r = false -> ToLower v = f -> CallFollows r ->
    Calls f (String dq (double dq v +:+ String dq r))
| Calls_after_bare a r :
    is_identifier a -> head_is isFunctionIdentifierPart r = false ->
    Calls f r -> Calls f (a +:+ r)
| Calls_after_quoted q v r :
    q = sq \/ q = dq -> head_is (is_char q) r = false ->
    Calls f r -> Calls f (String q (double q v +:+ String q r))
| Calls_after_line b r :
    has_byte newline b = false -> line_end r -> Calls f r -> Calls f ("--" +:+ b +:+ r)
| Calls_after_block b r :
    Contains b "*/" = false -> Calls f r -> Calls f ("/*" +:+ b +:+ "*/" +:+ r)
| Calls_after_code c s :
    is_char sq c = false -> is_char dq c = false -> isFunctionIdentifierStart c = false ->
    HasPrefix (String c s) "--" = false -> HasPrefix (String c s) "/*" = false ->
    Calls f s -> Calls f (String c s).

(** [kw] occurs in [s] as a whole word, in any case. *)
Definition word_occurs (kw s : string) : Prop :=
  exists pre w post, s = pre +:+ w +:+ post /\ ToUpper w = kw /\
    (forall p c, pre = p +:+ String c "" -> is_word c = false) /\ head_is is_word post = false.

(** BULK, white space, INSERT, as whole words. *)
Definition bulk_insert_occurs (s : string) : Prop :=
  exists pre w1 sp w2 post, s = pre +:+ w1 +:+ sp +:+ w2 +:+ post /\
    ToUpper w1 = "BULK" /\ ToUpper w2 = "INSERT" /\ sp <> "" /\ str_forallb is_re_space sp = true /\
    (forall p c, pre = p +:+ String c "" -> is_word c = false) /\ head_is is_word post = false.

(** At most one statement: nothing but white space and semicolons follows the
    first semicolon. *)
Definition single_statement (s : string) : Prop :=
  exists a b, s = a +:+ b /\ has_byte ";" a = false /\ str_forallb is_tail_byte b = true.

(** * Scanner lemmas *)

Lemma is_char_spec c d : is_char c d = true <-> d = c.
Proof. apply Ascii.eqb_eq. Qed.

Lemma has_byte_forallb c s : has_byte c s = false <-> str_forallb (fun d => negb (is_char c d)) s = true.
Proof.
  induction s as [|d s IH]; simpl; [done|].
  rewrite orb_false_iff, andb_true_iff, negb_true_iff, IH. done.
Qed.

Lemma skip_line_span s :
  skipReadonlyLineComment s = (span (fun d => negb (is_char newline d)) s).2.
Proof.
  induction s as [|c s IH]; simpl; [done|]. destruct (is_char newline c); simpl; [done|].
  rewrite IH. by destruct (span _ s).
Qed.

Lemma skip_line_spec s :
  exists b, s = b +:+ skipReadonlyLineComment s /\ has_byte newline b = false /\
            line_end (skipReadonlyLineComment s).
Proof.
  rewrite skip_line_span. pose proof (span_spec (fun d => negb (is_char newline d)) s) as H.
  destruct (span _ s) as [a r]. destruct H as (-> & Ha & Hr). exists a. simpl.
  split_and!; [done|by apply has_byte_forallb|].
  destruct r as [|c r]; [by left|right]. simpl in *. by apply negb_false_iff in Hr.
Qed.
Lemma skip_line_app b r :
  has_byte newline b = false -> line_end r -> skipReadonlyLineComment (b +:+ r) = r.
Proof.
  intros Hb%has_byte_forallb Hr. rewrite skip_line_span, span_app; [done|done|].
  destruct Hr as [->|Hr]; [done|]. destruct r; simpl in *; [done|]. by rewrite Hr.
Qed.
Lemma skip_line_dashes s : skipReadonlyLineComment ("--" +:+ s) = skipReadonlyLineComment s.
Proof. done. Qed.

Lemma skip_block_spec s :
  Contains s "*/" = false /\ skip_to_close s = "" \/
  exists b, s = b +:+ "*/" +:+ skip_to_close s /\ Contains b "*/" = false.
Proof.
  induction s as [|c s IH]; [by left|].
  cbn [skip_to_close Contains]. unfold HasPrefix.
  destruct (cut_prefix "*/" (String c s)) as [r|] eqn:E.
  - right. exists "". rewrite app_nil_l. split; [by apply cut_prefix_app|done].
  - simpl. destruct IH as [[H1 H2]|(b & H1 & H2)]; [by left|right].
    exists (String c b). rewrite app_cons, <- H1. split; [done|].
    cbn [Contains]. rewrite H2, orb_false_r. unfold HasPrefix.
    destruct (cut_prefix "*/" (String c b)) eqn:E2; [|done].
    apply cut_prefix_app in E2. rewrite H1, <- app_cons, E2, app_assoc in E.
    by rewrite cut_prefix_app_2 in E.
Qed.
Lemma skip_block_app b r : Contains b "*/" = false -> skip_to_close (b +:+ "*/" +:+ r) = r.
Proof.
  induction b as [|c b IH]; intros Hb; [done|].
  cbn [Contains] in Hb. apply orb_false_iff in Hb as [Hp Hb].
  rewrite app_cons. cbn [skip_to_close].
  destruct (cut_prefix "*/" (String c (b +:+ "*/" +:+ r))) as [t|] eqn:E; [|by apply IH].
  exfalso. destruct b as [|d b].
  - apply cut_prefix_app in E. destruct c as [[] [] [] [] [] [] [] []]; try discriminate E.
  - apply cut_prefix_app in E. rewrite !app_cons, app_nil_l in E. injection E as -> -> _.
    discriminate Hp.
Qed.
Lemma skip_block_none b : Contains b "*/" = false -> skip_to_close b = "".
Proof.
  intros H. destruct (skip_block_spec b) as [[_ ?]|(b' & Hb & _)]; [done|].
  exfalso. rewrite Hb in H. clear Hb. induction b' as [|c b' IH]; [by vm_compute in H|].
  rewrite app_cons in H. cbn [Contains] in H. apply orb_false_iff in H as [_ H]. by apply IH.
Qed.

Lemma double_cons q c v :
  double q (String c v) = if is_char q c then String q (String q (double q v)) else String c (double q v).
Proof.
  unfold double. cbn [ReplaceByte]. unfold is_char.
  destruct (Ascii.eqb_spec c q) as [->|]; [|done]. done.
Qed.

Lemma skip_quoted_spec q s :
  match skip_quoted q s with
  | (true, r) => exists v, s = double q v +:+ String q r /\ head_is (is_char q) r = false
  | (false, r) => r = "" /\ exists v, s = double q v
  end.
Proof.
  remember (String.length s) as n eqn:Hn. assert (String.length s <= n) as Hle by lia. clear Hn.
  revert s Hle. induction n as [|n IH]; intros s Hle.
  { destruct s; simpl in *; [|lia]. split; [done|]. by exists "". }
  destruct s as [|c s]; [split; [done|]; by exists ""|]. cbn [skip_quoted].
  destruct (is_char q c) eqn:Hc.
  - apply is_char_spec in Hc as ->. destruct s as [|d s]; [by exists ""|].
    destruct (is_char q d) eqn:Hd; [|exists ""; by simpl; rewrite Hd].
    apply is_char_spec in Hd as ->. simpl in Hle.
    assert (forall v, double q (String q v) = String q (String q (double q v))) as Hdq.
    { intros v. rewrite double_cons. unfold is_char. by rewrite Ascii.eqb_refl. }
    specialize (IH s ltac:(lia)). destruct (skip_quoted q s) as [[] r].
    + destruct IH as (v & -> & Hr). exists (String q v). by rewrite Hdq, !app_cons.
    + destruct IH as (Hr & v & ->). split; [done|]. exists (String q v). by rewrite Hdq.
  - simpl in Hle.
    assert (forall v, double q (String c v) = String c (double q v)) as Hdq.
    { intros v. by rewrite double_cons, Hc. }
    specialize (IH s ltac:(lia)). destruct (skip_quoted q s) as [[] r].
    + destruct IH as (v & -> & Hr). exists (String c v). by rewrite Hdq, !app_cons.
    + destruct IH as (Hr & v & ->). split; [done|]. exists (String c v). by rewrite Hdq.
Qed.

Lemma skip_quoted_double q v t :
  skip_quoted q (double q v +:+ t) = skip_quoted q t.
Proof.
  induction v as [|c v IH]; [done|]. rewrite double_cons.
  destruct (is_char q c) eqn:Hc; rewrite !app_cons; cbn [skip_quoted].
  - unfold is_char. by rewrite Ascii.eqb_refl.
  - by rewrite Hc.
Qed.
Lemma skip_quoted_close q v r :
  head_is (is_char q) r = false -> skip_quoted q (double q v +:+ String q r) = (true, r).
Proof.
  intros Hr. rewrite skip_quoted_double. simpl. unfold is_char at 1. rewrite Ascii.eqb_refl.
  destruct r; simpl in *; [done|]. by rewrite Hr.
Qed.
Lemma skip_quoted_open q v : skip_quoted q (double q v) = (false, "").
Proof. rewrite <- (app_nil_r (double q v)), skip_quoted_double. done. Qed.

Lemma skip_line_length s : String.length (skipReadonlyLineComment s) <= String.length s.
Proof. destruct (skip_line_spec s) as (b & Hb & _). rewrite Hb at 2. rewrite length_app. lia. Qed.
Lemma skip_block_length s : String.length (skip_to_close s) <= String.length s.
Proof.
  destruct (skip_block_spec s) as [[_ ->]|(b & Hb & _)]; simpl; [lia|].
  rewrite Hb at 2. rewrite !length_app. lia.
Qed.
Lemma skip_quoted_length q s : String.length (skip_quoted q s).2 <= String.length s.
Proof.
  pose proof (skip_quoted_spec q s) as H. destruct (skip_quoted q s) as [[] r]; simpl.
  - destruct H as (v & -> & _). rewrite length_app. simpl. lia.
  - destruct H as [-> _]. simpl. lia.
Qed.

Lemma comment_line s : HasPrefix s "--" = true -> exists t, s = String "-" (String "-" t).
Proof. intros [t ->]%HasPrefix_spec. by exists t. Qed.
Lemma comment_block s : HasPrefix s "/*" = true -> exists t, s = String "/" (String "*" t).
Proof. intros [t ->]%HasPrefix_spec. by exists t. Qed.

(** ** The stripper implements [Strips] *)

Lemma strip_sound fuel s :
  String.length s <= fuel ->
  exists o, writeStrippedSQLLiteralsAndComments fuel s = Ok o /\ Strips s o.
Proof.
  revert s. induction fuel as [|fuel IH]; intros s Hs.
  { destruct s; simpl in *; [|lia]. exists "". split; [done|constructor]. }
  destruct s as [|c s]; [exists ""; split; [done|constructor]|].
  cbn [writeStrippedSQLLiteralsAndComments]. unfold readonlyLineCommentAt, readonlyBlockCommentAt.
  destruct (HasPrefix (String c s) "--") eqn:Hl.
  { apply comment_line in Hl as [t [= -> ->]]. simpl in Hs.
    change (skipReadonlyLineComment (String "-" (String "-" t))) with (skipReadonlyLineComment t).
    destruct (IH (skipReadonlyLineComment t)) as (o & -> & Ho).
    { pose proof (skip_line_length t). lia. }
    exists o. split; [done|]. destruct (skip_line_spec t) as (b & Hb & Hnl & He).
    rewrite Hb. change (String "-" (String "-" ?x)) with ("--" +:+ x). by constructor. }
  destruct (HasPrefix (String c s) "/*") eqn:Hb.
  { apply comment_block in Hb as [t [= -> ->]]. simpl in Hs. cbn [skipReadonlyBlockComment].
    destruct (IH (skip_to_close t)) as (o & -> & Ho).
    { pose proof (skip_block_length t). lia. }
    exists o. split; [done|]. destruct (skip_block_spec t) as [[H1 H2]|(b & H1 & H2)].
    - rewrite H2 in Ho. assert (o = "") as ->.
      { inversion Ho; try done. }
      by apply (Strips_block_open t).
    - rewrite H1. by apply (Strips_block b). }
  assert (forall q, q = sq \/ q = dq -> is_char q c = true ->
    exists o, (let '(w, r) := skipStringLiteral q (String c s) in
      let? o := writeStrippedSQLLiteralsAndComments fuel r in Ok (w +:+ o)) = Ok o
      /\ Strips (String c s) o) as Hq.
  { intros q Hq ->%is_char_spec. cbn [skipStringLiteral].
    pose proof (skip_quoted_spec q s) as Hspec. pose proof (skip_quoted_length q s) as Hlen.
    destruct (skip_quoted q s) as [[] r]; simpl in Hs, Hlen.
    - destruct (IH r) as (o & -> & Ho); [lia|]. destruct Hspec as (v & -> & Hr).
      exists (String q (String q o)). split; [done|]. by constructor.
    - destruct (IH r) as (o & -> & Ho); [lia|]. destruct Hspec as (-> & v & ->).
      assert (o = "") as -> by by inversion Ho.
      exists (String q ""). split; [done|]. by constructor. }
  destruct (is_char sq c) eqn:Hsq; [apply Hq; auto|].
  destruct (is_char dq c) eqn:Hdq; [apply Hq; auto|].
  simpl in Hs. destruct (IH s) as (o & -> & Ho); [lia|].
  exists (String c o). split; [done|]. by constructor.
Qed.

Lemma strip_complete s o :
  Strips s o -> forall fuel, String.length s <= fuel ->
  writeStrippedSQLLiteralsAndComments fuel s = Ok o.
Proof.
  assert (forall q, q = sq \/ q = dq -> HasPrefix (String q "") "--" = false /\
    forall t, HasPrefix (String q t) "--" = false /\ HasPrefix (String q t) "/*" = false) as Hnc.
  { intros q [->| ->]; split; [done| |done|]; done. }
  assert (forall q s fuel, q = sq \/ q = dq ->
    writeStrippedSQLLiteralsAndComments (S fuel) (String q s) =
    let '(w, r) := skipStringLiteral q (String q s) in
      let? o := writeStrippedSQLLiteralsAndComments fuel r in Ok (w +:+ o)) as Hq.
  { intros q t fuel Hqq. cbn [writeStrippedSQLLiteralsAndComments].
    unfold readonlyLineCommentAt, readonlyBlockCommentAt.
    destruct (Hnc q Hqq) as [_ H]. destruct (H t) as [-> ->]. by destruct Hqq as [->| ->]. }
  induction 1 as [|b r o Hb He Hr IH|b r o Hb Hr IH|b Hb|q v r o Hqq Hh Hr IH|q v Hqq|c s o H1 H2 H3 H4 Hr IH];
    intros [|fuel] Hf; try (simpl in Hf; lia).
  - done.
  - done.
  - cbn [writeStrippedSQLLiteralsAndComments].
    change (readonlyLineCommentAt ("--" +:+ b +:+ r)) with true. cbn iota.
    rewrite skip_line_dashes, skip_line_app by done. apply IH.
    rewrite !length_app in Hf. simpl in Hf. lia.
  - cbn [writeStrippedSQLLiteralsAndComments].
    change (readonlyLineCommentAt ("/*" +:+ b +:+ "*/" +:+ r)) with false.
    change (readonlyBlockCommentAt ("/*" +:+ b +:+ "*/" +:+ r)) with true. cbn iota.
    change (skipReadonlyBlockComment ("/*" +:+ b +:+ "*/" +:+ r))
      with (skip_to_close (b +:+ "*/" +:+ r)).
    rewrite skip_block_app by done. apply IH. rewrite !length_app in Hf. simpl in Hf. lia.
  - cbn [writeStrippedSQLLiteralsAndComments].
    change (readonlyLineCommentAt ("/*" +:+ b)) with false.
    change (readonlyBlockCommentAt ("/*" +:+ b)) with true. cbn iota.
    change (skipReadonlyBlockComment ("/*" +:+ b)) with (skip_to_close b).
    rewrite skip_block_none by done. by destruct fuel.
  - rewrite Hq by done. cbn [skipStringLiteral]. rewrite skip_quoted_close by done.
    rewrite IH; [done|]. cbn [String.length] in Hf. rewrite length_app in Hf. simpl in Hf. lia.
  - rewrite Hq by done. cbn [skipStringLiteral]. rewrite skip_quoted_open. by destruct fuel.
  - cbn [writeStrippedSQLLiteralsAndComments]. unfold readonlyLineCommentAt, readonlyBlockCommentAt.
    rewrite H1, H2, H3, H4, IH; [done|]. simpl in Hf. lia.
Qed.

Lemma strip_exact s o : stripSQLLiteralsAndComments s = Ok o <-> Strips s o.
Proof.
  split; [|intros H; by apply strip_complete].
  intros H. destruct (strip_sound (String.length s) s) as (o' & H' & Ho); [done|].
  unfold stripSQLLiteralsAndComments in H. congruence.
Qed.
Lemma strip_total s : exists o, stripSQLLiteralsAndComments s = Ok o.
Proof. destruct (strip_sound (String.length s) s) as (o & H & _); [done|]. by exists o. Qed.

(** ** Words *)

Lemma match_fold_spec kw s r :
  match_fold kw s = Some r <-> exists w, s = w +:+ r /\ ToUpper w = ToUpper kw.
Proof.
  revert s. induction kw as [|a kw IH]; intros s; simpl.
  - split; [intros [= ->]; by exists ""|]. intros (w & -> & Hw). by destruct w.
  - destruct s as [|b s]; simpl.
    + split; [done|]. intros (w & Hs & Hw). by destruct w.
    + destruct (Ascii.eqb_spec (upper a) (upper b)) as [Hab|Hab].
      * rewrite IH. split.
        -- intros (w & -> & Hw). exists (String b w). rewrite app_cons. split; [done|].
           unfold ToUpper in *. simpl. by rewrite Hab, Hw.
        -- intros (w & Hs & Hw). destruct w as [|c w]; [done|].
           rewrite app_cons in Hs. injection Hs as -> ->.
           unfold ToUpper in *. simpl in Hw. injection Hw as _ Hw. by exists w.
      * split; [done|]. intros (w & Hs & Hw). destruct w as [|c w]; [done|].
        rewrite app_cons in Hs. injection Hs as -> ->. unfold ToUpper in Hw. simpl in Hw. congruence.
Qed.

Lemma last_byte pre p c d : String d pre = p +:+ String c "" ->
  (pre = "" /\ p = "" /\ c = d) \/ exists p', p = String d p' /\ pre = p' +:+ String c "".
Proof.
  destruct p as [|e p].
  - rewrite app_nil_l. intros [= -> ->]. by left.
  - rewrite app_cons. intros [= -> ->]. right. by exists p.
Qed.

(** The search finds a match whose start is not preceded by a word character. *)
Lemma word_search_spec m prev s :
  word_search m prev s = true <->
  exists pre t r, s = pre +:+ t /\ m t = Some r /\ head_is is_word r = false /\
    (pre = "" -> prev = false) /\ (forall p c, pre = p +:+ String c "" -> is_word c = false).
Proof.
  revert prev. induction s as [|d s IH]; intros prev.
  - cbn [word_search]. rewrite orb_false_r, andb_true_iff, negb_true_iff. split.
    + intros [Hp Hm]. destruct (m "") as [r|] eqn:E; [|done]. apply negb_true_iff in Hm.
      exists "", "", r. split_and!; try done. intros p c Hc. by destruct p.
    + intros (pre & t & r & Hs & Hm & Hr & Hp & _). destruct pre; [|done].
      rewrite app_nil_l in Hs. subst t. rewrite Hm, Hr. by split; [apply Hp|].
  - cbn [word_search]. rewrite orb_true_iff, andb_true_iff, negb_true_iff, IH. split.
    + intros [[Hp Hm]|(pre & t & r & -> & Hm & Hr & Hp & Hl)].
      * destruct (m (String d s)) as [r|] eqn:E; [|done]. apply negb_true_iff in Hm.
        exists "", (String d s), r. split_and!; try done. intros p c Hc. by destruct p.
      * exists (String d pre), t, r. rewrite app_cons. split_and!; try done.
        intros p c Hc. apply last_byte in Hc as [(-> & _ & ->)|(p' & _ & Hpre)];
          [by apply Hp | by eapply Hl].
    + intros (pre & t & r & Hs & Hm & Hr & Hp & Hl). destruct pre as [|e pre].
      * rewrite app_nil_l in Hs. subst t. left. rewrite Hm, Hr. by split; [apply Hp|].
      * rewrite app_cons in Hs. injection Hs as -> ->. right.
        exists pre, t, r. split_and!; try done.
        -- intros ->. apply (Hl "" e). done.
        -- intros p c ->. apply (Hl (String e p) c). by rewrite app_cons.
Qed.

Lemma has_word_spec kw s : ToUpper kw = kw -> has_word kw s = true <-> word_occurs kw s.
Proof.
  intros Hkw. unfold has_word, word_occurs. rewrite word_search_spec. split.
  - intros (pre & t & r & -> & (w & -> & Hw)%match_fold_spec & Hr & _ & Hl).
    exists pre, w, r. split_and!; try done. congruence.
  - intros (pre & w & post & -> & Hw & Hl & Hr). exists pre, (w +:+ post), post.
    split_and!; try done. apply match_fold_spec. exists w. split; [done|congruence].
Qed.

Lemma has_bulk_insert_spec s : has_bulk_insert s = true <-> bulk_insert_occurs s.
Proof.
  unfold has_bulk_insert, bulk_insert_occurs. rewrite word_search_spec.
  assert (forall t r, match_bulk_insert t = Some r <->
    exists w1 sp w2, t = w1 +:+ sp +:+ w2 +:+ r /\ ToUpper w1 = "BULK" /\ ToUpper w2 = "INSERT" /\
      sp <> "" /\ str_forallb is_re_space sp = true) as Hm.
  { intros t r. unfold match_bulk_insert. split.
    - destruct (match_fold "BULK" t) as [t1|] eqn:E1; [|done].
      apply match_fold_spec in E1 as (w1 & -> & Hw1).
      pose proof (span_spec is_re_space t1) as Hs. destruct (span is_re_space t1) as [sp t2].
      destruct Hs as (-> & Hsp & _). unfold str_empty.
      destruct (String.eqb_spec sp "") as [->|Hne]; [done|].
      intros (w2 & -> & Hw2)%match_fold_spec. by exists w1, sp, w2.
    - intros (w1 & sp & w2 & -> & Hw1 & Hw2 & Hne & Hsp).
      assert (match_fold "BULK" (w1 +:+ sp +:+ w2 +:+ r) = Some (sp +:+ w2 +:+ r)) as ->.
      { apply match_fold_spec. by exists w1. }
      rewrite span_app; [|done|].
      + unfold str_empty. destruct (String.eqb_spec sp "") as [->|_]; [done|].
        apply match_fold_spec. by exists w2.
      + destruct w2 as [|c w2]; [done|]. rewrite app_cons. simpl.
        unfold ToUpper in Hw2. simpl in Hw2. injection Hw2 as Hc _.
        destruct c as [[] [] [] [] [] [] [] []]; try discriminate Hc; reflexivity. }
  split.
  - intros (pre & t & r & -> & (w1 & sp & w2 & -> & ?)%Hm & Hr & _ & Hl).
    exists pre, w1, sp, w2, r. naive_solver.
  - intros (pre & w1 & sp & w2 & r & -> & H1 & H2 & H3 & H4 & Hl & Hr).
    exists pre, (w1 +:+ sp +:+ w2 +:+ r), r. split_and!; try done. apply Hm. by exists w1, sp, w2.
Qed.

(** ** Calls *)

Lemma readQuoted_close v r :
  head_is (is_char dq) r = false ->
  readQuotedFunctionIdentifier (double dq v +:+ String dq r) = (v, r).
Proof.
  intros Hr. induction v as [|c v IH].
  - change (double dq "" +:+ String dq r) with (String dq r). cbn [readQuotedFunctionIdentifier].
    change (is_char dq dq) with true. cbn iota. destruct r as [|d r]; [done|].
    simpl in Hr. by rewrite Hr.
  - rewrite double_cons. destruct (is_char dq c) eqn:Hc.
    + apply is_char_spec in Hc as ->. rewrite !app_cons. cbn [readQuotedFunctionIdentifier].
      change (is_char dq dq) with true. cbn iota. by rewrite IH.
    + rewrite !app_cons. cbn [readQuotedFunctionIdentifier]. by rewrite Hc, IH.
Qed.
Lemma readQuoted_open v : readQuotedFunctionIdentifier (double dq v) = (v, "").
Proof.
  induction v as [|c v IH]; [done|]. rewrite double_cons. destruct (is_char dq c) eqn:Hc.
  - apply is_char_spec in Hc as ->. cbn [readQuotedFunctionIdentifier].
    change (is_char dq dq) with true. cbn iota. by rewrite IH.
  - cbn [readQuotedFunctionIdentifier]. by rewrite Hc, IH.
Qed.

Lemma functionCallAt_total fuel s :
  String.length s <= fuel ->
  exists b, functionCallAt fuel s = Ok b /\ (b = true <-> CallFollows s).
Proof.
  revert s. induction fuel as [|fuel IH]; intros s Hs.
  { destruct s; simpl in *; [|lia]. exists false. split; [done|]. split; [done|]. by inversion 1. }
  destruct s as [|c s].
  { exists false. split; [done|]. split; [done|]. by inversion 1. }
  cbn [functionCallAt]. simpl in Hs.
  destruct (is_call_space c) eqn:Hc.
  { destruct (IH s) as (b & -> & Hb); [lia|]. exists b. split; [done|]. rewrite Hb.
    split; [by constructor|]. inversion 1; subst; try done. }
  unfold readonlyLineCommentAt, readonlyBlockCommentAt.
  destruct (HasPrefix (String c s) "--") eqn:Hl.
  { apply comment_line in Hl as [t [= -> ->]]. simpl in Hs.
    change (skipReadonlyLineComment (String "-" (String "-" t))) with (skipReadonlyLineComment t).
    destruct (IH (skipReadonlyLineComment t)) as (b & -> & Hb).
    { pose proof (skip_line_length t). lia. }
    exists b. split; [done|]. rewrite Hb. split.
    - intros H. destruct (skip_line_spec t) as (w & Hw & Hnl & He). rewrite Hw.
      change (String "-" (String "-" ?x)) with ("--" +:+ x). by constructor.
    - inversion 1; subst; [done|]. rewrite app_nil_l. by rewrite skip_line_app. }
  destruct (HasPrefix (String c s) "/*") eqn:Hb.
  { apply comment_block in Hb as [t [= -> ->]]. simpl in Hs. cbn [skipReadonlyBlockComment].
    destruct (IH (skip_to_close t)) as (b & -> & Hb).
    { pose proof (skip_block_length t). lia. }
    exists b. split; [done|]. rewrite Hb. split.
    - intros H. destruct (skip_block_spec t) as [[H1 H2]|(w & H1 & H2)].
      + rewrite H2 in H. by inversion H.
      + rewrite H1. by apply (CallFollows_block w).
    - inversion 1; subst; [done|]. rewrite app_nil_l. by rewrite skip_block_app. }
  exists (is_char "(" c). split; [done|]. rewrite is_char_spec. split; [intros ->; constructor|].
  inversion 1; subst; try done; congruence.
Qed.

Section BlocklistProofs.
Context (denied : list string).

Lemma blocked_at_spec key r :
  exists b, blocked_at denied key r = Ok b /\ (b = true <-> key ∈ denied /\ CallFollows r).
Proof.
  unfold blocked_at. destruct (str_in key denied) eqn:Hk.
  - apply str_in_spec in Hk.
    destruct (functionCallAt_total (String.length r) r) as (b & -> & Hb); [done|].
    exists b. split; [done|]. tauto.
  - apply str_in_false in Hk. exists false. split; [done|]. split; [done|]. by intros [? _].
Qed.

(** What a step of the scan past a name decides. *)
Lemma blocked_step key r (k : res unit) (e : goerr) :
  (let? b := blocked_at denied key r in if b then Err e else k) = Ok tt <->
  ~ (key ∈ denied /\ CallFollows r) /\ k = Ok tt.
Proof.
  destruct (blocked_at_spec key r) as (b & -> & Hb). simpl. destruct b.
  - split; [done|]. intros [H _]. exfalso. apply H. by apply Hb.
  - split; [|tauto]. intros H. split; [|done]. intros Hc. by apply Hb in Hc.
Qed.

Lemma identifier_start_not_quote c :
  isFunctionIdentifierStart c = true ->
  is_char sq c = false /\ is_char dq c = false /\
  forall s, HasPrefix (String c s) "--" = false /\ HasPrefix (String c s) "/*" = false.
Proof.
  intros H. assert (isFunctionIdentifierStart c = true -> is_char sq c = false /\ is_char dq c = false
    /\ is_char "-" c = false /\ is_char "/" c = false) as Hc.
  { clear H. destruct c as [[] [] [] [] [] [] [] []]; try (intros H; discriminate H); done. }
  destruct (Hc H) as (H1 & H2 & H3 & H4). split_and!; [done..|]. intros s.
  unfold HasPrefix. cbn [cut_prefix]. unfold is_char in H3, H4.
  rewrite (Ascii.eqb_sym "-"), (Ascii.eqb_sym "/"), H3, H4. done.
Qed.

Definition check_name (fuel : nat) (key : string) (e : goerr) (r : string) : res unit :=
  let? b := blocked_at denied key r in
  if b then Err e else checkFunctionBlocklist denied fuel r.

Lemma check_line fuel b r :
  has_byte newline b = false -> line_end r ->
  checkFunctionBlocklist denied (S fuel) ("--" +:+ b +:+ r) = checkFunctionBlocklist denied fuel r.
Proof.
  intros Hb Hr. cbn [checkFunctionBlocklist].
  change (readonlyLineCommentAt ("--" +:+ b +:+ r)) with true. cbn iota.
  by rewrite skip_line_dashes, skip_line_app.
Qed.
Lemma check_block fuel b r :
  Contains b "*/" = false ->
  checkFunctionBlocklist denied (S fuel) ("/*" +:+ b +:+ "*/" +:+ r)
  = checkFunctionBlocklist denied fuel r.
Proof.
  intros Hb. cbn [checkFunctionBlocklist].
  change (readonlyLineCommentAt ("/*" +:+ b +:+ "*/" +:+ r)) with false.
  change (readonlyBlockCommentAt ("/*" +:+ b +:+ "*/" +:+ r)) with true. cbn iota.
  change (skipReadonlyBlockComment ("/*" +:+ b +:+ "*/" +:+ r))
    with (skip_to_close (b +:+ "*/" +:+ r)).
  by rewrite skip_block_app.
Qed.
Lemma check_single fuel v r :
  head_is (is_char sq) r = false ->
  checkFunctionBlocklist denied (S fuel) (String sq (double sq v +:+ String sq r))
  = checkFunctionBlocklist denied fuel r.
Proof.
  intros Hr. transitivity (checkFunctionBlocklist denied fuel
    (skipFunctionStringLiteral (double sq v +:+ String sq r))); [done|].
  unfold skipFunctionStringLiteral. by rewrite skip_quoted_close.
Qed.
Lemma check_quoted fuel v r :
  head_is (is_char dq) r = false ->
  checkFunctionBlocklist denied (S fuel) (String dq (double dq v +:+ String dq r))
  = check_name fuel (ToLower v) (blocked_error v) r.
Proof.
  intros Hr. transitivity (let '(name, next) :=
      readQuotedFunctionIdentifier (double dq v +:+ String dq r) in
    check_name fuel (ToLower name) (blocked_error name) next); [done|].
  by rewrite readQuoted_close.
Qed.
Lemma check_bare fuel a r :
  is_identifier a -> head_is isFunctionIdentifierPart r = false ->
  checkFunctionBlocklist denied (S fuel) (a +:+ r)
  = check_name fuel (ToLower a) (blocked_error (ToLower a)) r.
Proof.
  intros [Ha Hp] Hr. destruct a as [|c a]; [done|]. simpl in Ha, Hp.
  apply andb_true_iff in Hp as [_ Hp].
  destruct (identifier_start_not_quote c Ha) as (H1 & H2 & Hno).
  rewrite app_cons. cbn [checkFunctionBlocklist].
  unfold readonlyLineCommentAt, readonlyBlockCommentAt.
  destruct (Hno (a +:+ r)) as [-> ->]. rewrite H1, H2, Ha. by rewrite span_app.
Qed.
Lemma check_code fuel c s :
  is_char sq c = false -> is_char dq c = false -> isFunctionIdentifierStart c = false ->
  HasPrefix (String c s) "--" = false -> HasPrefix (String c s) "/*" = false ->
  checkFunctionBlocklist denied (S fuel) (String c s) = checkFunctionBlocklist denied fuel s.
Proof.
  intros H1 H2 H3 H4 H5. cbn [checkFunctionBlocklist].
  unfold readonlyLineCommentAt, readonlyBlockCommentAt. by rewrite H4, H5, H1, H2, H3.
Qed.

Lemma identifier_length a : is_identifier a -> 1 <= String.length a.
Proof. intros [Ha _]. destruct a; simpl in *; [done|lia]. Qed.

(** A denied call is found. *)
Lemma check_finds f s :
  Calls f s -> f ∈ denied ->
  forall fuel, String.length s <= fuel -> checkFunctionBlocklist denied fuel s <> Ok tt.
Proof.
  intros H Hf. induction H as [a r Ha Hr Hl Hc|v r Hr Hl Hc|a r Ha Hr H IH|q v r Hq Hr H IH
    |b r Hb Hr H IH|b r Hb H IH|c s H1 H2 H3 H4 H5 H IH]; intros [|fuel] Hs.
  all: try (pose proof (identifier_length _ ltac:(eassumption)));
    rewrite ?length_app in Hs; simpl in Hs; rewrite ?length_app in Hs; simpl in Hs; try lia.
  - rewrite check_bare by done. unfold check_name. intros [Hn _]%blocked_step. apply Hn. by subst f.
  - rewrite check_quoted by done. unfold check_name. intros [Hn _]%blocked_step. apply Hn. by subst f.
  - rewrite check_bare by done. intros [_ Hk]%blocked_step. revert Hk. apply IH. lia.
  - destruct Hq as [->| ->].
    + rewrite check_single by done. apply IH. lia.
    + rewrite check_quoted by done. intros [_ Hk]%blocked_step. revert Hk. apply IH. lia.
  - rewrite check_line by done. apply IH. lia.
  - rewrite check_block by done. apply IH. lia.
  - rewrite check_code by done. apply IH. lia.
Qed.

(** When no denied function is called, the scan accepts. *)
Lemma check_accepts fuel s :
  String.length s <= fuel -> (forall f, f ∈ denied -> ~ Calls f s) ->
  checkFunctionBlocklist denied fuel s = Ok tt.
Proof.
  revert s. induction fuel as [|fuel IH]; intros s Hs Hn; [by destruct s; simpl in *; [|lia]|].
  destruct s as [|c s]; [done|]. simpl in Hs.
  destruct (HasPrefix (String c s) "--") eqn:Hl.
  { apply comment_line in Hl as [t [= -> ->]]. simpl in Hs.
    destruct (skip_line_spec t) as (b & Hb & Hnl & He).
    change (String "-" (String "-" t)) with ("--" +:+ t) in *. rewrite Hb in Hn |- *.
    rewrite check_line by done. apply IH.
    - pose proof (skip_line_length t). lia.
    - intros f Hf Hc. apply (Hn f Hf). by constructor. }
  destruct (HasPrefix (String c s) "/*") eqn:Hb.
  { apply comment_block in Hb as [t [= -> ->]]. simpl in Hs.
    pose proof (skip_block_length t).
    destruct (skip_block_spec t) as [[H1 H2]|(b & H1 & H2)].
    - transitivity (checkFunctionBlocklist denied fuel (skip_to_close t)); [done|].
      rewrite H2. by destruct fuel.
    - change (String "/" (String "*" t)) with ("/*" +:+ t) in *. rewrite H1 in Hn |- *.
      rewrite check_block by done. apply IH; [lia|].
      intros f Hf Hc. apply (Hn f Hf). by constructor. }
  destruct (is_char sq c) eqn:Hsq.
  { apply is_char_spec in Hsq as ->. pose proof (skip_quoted_spec sq s) as Hspec.
    pose proof (skip_quoted_length sq s). destruct (skip_quoted sq s) as [[] r] eqn:Eq.
    - destruct Hspec as (v & -> & Hr). rewrite check_single by done. apply IH; [simpl in *; lia|].
      intros f Hf Hc. apply (Hn f Hf). apply Calls_after_quoted; auto.
    - destruct Hspec as [-> _].
      transitivity (checkFunctionBlocklist denied fuel (skip_quoted sq s).2); [done|].
      rewrite Eq. by destruct fuel. }
  destruct (is_char dq c) eqn:Hdq.
  { apply is_char_spec in Hdq as ->. pose proof (skip_quoted_spec dq s) as Hspec.
    pose proof (skip_quoted_length dq s). destruct (skip_quoted dq s) as [[] r] eqn:Eq.
    - destruct Hspec as (v & -> & Hr). rewrite check_quoted by done. apply blocked_step. split.
      + intros [Hk Hc]. apply (Hn (ToLower v) Hk). by apply Calls_quoted.
      + apply IH; [simpl in *; lia|]. intros f Hf Hc. apply (Hn f Hf). apply Calls_after_quoted; auto.
    - destruct Hspec as (-> & v & ->).
      transitivity (let '(name, next) := readQuotedFunctionIdentifier (double dq v) in
        check_name fuel (ToLower name) (blocked_error name) next); [done|].
      rewrite readQuoted_open. apply blocked_step. split.
      + intros [_ Hc]. by inversion Hc.
      + by destruct fuel. }
  destruct (isFunctionIdentifierStart c) eqn:Hid.
  { pose proof (span_spec isFunctionIdentifierPart (String c s)) as Hspan.
    cbn [span] in Hspan. assert (isFunctionIdentifierPart c = true) as Hp.
    { unfold isFunctionIdentifierPart. by rewrite Hid. }
    rewrite Hp in Hspan. destruct (span isFunctionIdentifierPart s) as [a r].
    destruct Hspan as (He & Ha & Hr). rewrite He in Hn |- *.
    assert (is_identifier (String c a)) as Hi by (split; [by simpl|done]).
    rewrite check_bare by done. apply blocked_step. split.
    - intros [Hk Hc]. apply (Hn _ Hk). by apply Calls_bare.
    - apply IH.
      + apply (f_equal String.length) in He. rewrite length_app in He. simpl in He. lia.
      + intros f Hf Hc. apply (Hn f Hf). by apply Calls_after_bare. }
  rewrite check_code by done. apply IH; [lia|].
  intros f Hf Hc. apply (Hn f Hf). by constructor.
Qed.

Lemma check_exact s :
  checkFunctionBlocklist denied (String.length s) s = Ok tt <->
  forall f, f ∈ denied -> ~ Calls f s.
Proof.
  split.
  - intros H f Hf Hc. by eapply check_finds.
  - intros H. by apply check_accepts.
Qed.

Lemma check_name_fuel fuel key nm r e :
  (forall e, checkFunctionBlocklist denied fuel r = Err e -> no_fuel e) ->
  check_name fuel key (blocked_error nm) r = Err e -> no_fuel e.
Proof.
  intros Hk. unfold check_name. destruct (blocked_at_spec key r) as ([] & -> & _); cbn [res_bind].
  - by intros [= <-].
  - apply Hk.
Qed.

Lemma check_fuel fuel s e :
  String.length s <= fuel -> checkFunctionBlocklist denied fuel s = Err e -> no_fuel e.
Proof.
  revert s e. induction fuel as [|fuel IH]; intros s e Hs; [by destruct s; simpl in *; [|lia]|].
  destruct s as [|c s]; [done|]. simpl in Hs. cbn [checkFunctionBlocklist].
  unfold readonlyLineCommentAt, readonlyBlockCommentAt.
  destruct (HasPrefix (String c s) "--") eqn:Hl.
  { apply comment_line in Hl as [t [= -> ->]]. simpl in Hs. apply IH.
    change (skipReadonlyLineComment (String "-" (String "-" t))) with (skipReadonlyLineComment t).
    pose proof (skip_line_length t). lia. }
  destruct (HasPrefix (String c s) "/*") eqn:Hb.
  { apply comment_block in Hb as [t [= -> ->]]. simpl in Hs. apply IH. cbn [skipReadonlyBlockComment].
    pose proof (skip_block_length t). lia. }
  destruct (is_char sq c) eqn:Hsq.
  { apply IH. unfold skipFunctionStringLiteral. pose proof (skip_quoted_length sq s). lia. }
  destruct (is_char dq c) eqn:Hdq.
  { pose proof (skip_quoted_spec dq s) as Hspec. destruct (skip_quoted dq s) as [[] r].
    - destruct Hspec as (v & -> & Hr). rewrite readQuoted_close by done.
      apply (check_name_fuel fuel _ v). intros e'. apply IH. rewrite length_app in Hs. simpl in Hs. lia.
    - destruct Hspec as (_ & v & ->). rewrite readQuoted_open.
      apply (check_name_fuel fuel _ v). intros e'. apply IH. simpl. lia. }
  destruct (isFunctionIdentifierStart c).
  { pose proof (span_spec isFunctionIdentifierPart s) as Hspan. destruct (span isFunctionIdentifierPart s) as [a r].
    destruct Hspan as (-> & _). apply (check_name_fuel fuel). intros e'. apply IH.
    rewrite length_app in Hs. lia. }
  apply IH. lia.
Qed.
End BlocklistProofs.

(** ** Statements *)

Lemma trim_right_split p s :
  exists b, s = trim_right p s +:+ b /\ str_forallb p b = true.
Proof.
  induction s as [|c s (b & Hs & Hb)]; [by exists ""|]. cbn [trim_right].
  destruct (trim_right p s) as [|d t] eqn:E.
  - rewrite app_nil_l in Hs. subst b. destruct (p c) eqn:Hc.
    + exists (String c s). rewrite app_nil_l. split; [done|]. simpl. by rewrite Hc.
    + exists s. by rewrite app_cons, app_nil_l.
  - exists b. rewrite app_cons, <- Hs. done.
Qed.
Lemma trim_right_drop p a b :
  str_forallb p b = true -> trim_right p (a +:+ b) = trim_right p a.
Proof.
  intros Hb. induction a as [|c a IH].
  - rewrite app_nil_l. induction b as [|c b IHb]; [done|]. simpl in *.
    apply andb_true_iff in Hb as [Hc Hb]. by rewrite IHb, Hc.
  - rewrite app_cons. cbn [trim_right]. by rewrite IH.
Qed.
Lemma trim_right_has_byte p c s : has_byte c s = false -> has_byte c (trim_right p s) = false.
Proof.
  intros H. destruct (trim_right_split p s) as (b & Hs & _). rewrite Hs, has_byte_app in H.
  by apply orb_false_iff in H as [? _].
Qed.

Lemma hasMultipleStatements_spec s : hasMultipleStatements s = false <-> single_statement s.
Proof.
  unfold hasMultipleStatements, single_statement. split.
  - intros H. destruct (trim_right_split is_tail_byte s) as (b & Hs & Hb).
    by exists (trim_right is_tail_byte s), b.
  - intros (a & b & -> & Ha & Hb). rewrite trim_right_drop by done.
    by apply trim_right_has_byte.
Qed.

Lemma dangerous_upper kw : kw ∈ dangerousKeywords -> ToUpper kw = kw.
Proof.
  intros H. apply String.eqb_eq.
  assert (forallb (fun kw => String.eqb (ToUpper kw) kw) dangerousKeywords = true) as Hall by done.
  rewrite forallb_forall in Hall. apply Hall. by apply list_elem_of_In.
Qed.

Lemma dangerous_found_spec s :
  dangerous_found s = None <->
  (forall kw, kw ∈ dangerousKeywords -> ~ word_occurs kw s) /\ ~ bulk_insert_occurs s.
Proof.
  unfold dangerous_found. destruct (List.find _ dangerousKeywords) as [kw|] eqn:E.
  - apply find_some in E as [Hin Hw]. apply list_elem_of_In in Hin. split; [done|].
    intros [H _]. exfalso. apply (H kw Hin), has_word_spec; [by apply dangerous_upper|done].
  - assert (forall kw, kw ∈ dangerousKeywords -> ~ word_occurs kw s) as Hn.
    { intros kw Hin Hw. pose proof (dangerous_upper kw Hin) as Hu.
      apply list_elem_of_In in Hin. pose proof (find_none _ _ E kw Hin) as Hf. simpl in Hf.
      apply has_word_spec in Hw; [congruence|done]. }
    rewrite <- has_bulk_insert_spec. destruct (has_bulk_insert s); naive_solver.
Qed.

Lemma Check_spec (c : ReadOnlyChecker) (sql : string) :
  Check c sql = Ok tt <->
  exists o, Strips (TrimSpace sql) o /\
    (exists h rest, h ∈ ["SELECT"; "WITH"; "EXPLAIN"] /\ ToUpper (TrimSpace o) = h +:+ rest) /\
    (forall kw, kw ∈ dangerousKeywords -> ~ word_occurs kw o) /\ ~ bulk_insert_occurs o /\
    single_statement o /\
    (forall f, f ∈ deniedFunctions c -> ~ Calls f (TrimSpace sql)).
Proof.
  destruct (strip_total (TrimSpace sql)) as [o Ho]. pose proof (proj1 (strip_exact _ _) Ho) as Hs.
  assert (forall o', Strips (TrimSpace sql) o' -> o' = o) as Hdet.
  { intros o' H'%strip_exact. congruence. }
  assert ((exists h rest, h ∈ ["SELECT"; "WITH"; "EXPLAIN"] /\ ToUpper (TrimSpace o) = h +:+ rest) <->
    negb (HasPrefix (ToUpper (TrimSpace o)) "SELECT") && negb (HasPrefix (ToUpper (TrimSpace o)) "WITH")
      && negb (HasPrefix (ToUpper (TrimSpace o)) "EXPLAIN") = false) as Hhead.
  { rewrite <- !negb_orb, negb_false_iff, !orb_true_iff, !HasPrefix_spec. split.
    - intros (h & rest & Hh & ->). rewrite !elem_of_cons, elem_of_nil in Hh.
      destruct Hh as [->|[->|[->|[]]]]; eauto.
    - intros [[[r Hr]|[r Hr]]|[r Hr]]; rewrite Hr; eexists _, r; split; try done; set_solver. }
  transitivity (
    negb (HasPrefix (ToUpper (TrimSpace o)) "SELECT") && negb (HasPrefix (ToUpper (TrimSpace o)) "WITH")
      && negb (HasPrefix (ToUpper (TrimSpace o)) "EXPLAIN") = false /\
    dangerous_found o = None /\ hasMultipleStatements o = false /\
    checkFunctionBlocklist (deniedFunctions c) (String.length (TrimSpace sql)) (TrimSpace sql) = Ok tt).
  2: { rewrite <- Hhead, dangerous_found_spec, hasMultipleStatements_spec, check_exact. split.
       - intros (? & [? ?] & ? & ?). exists o. by split_and!.
       - intros (o' & Ho'%Hdet & ? & ? & ? & ? & ?). subst o'. by split_and!. }
  unfold Check, str_empty.
  destruct (String.eqb_spec (TrimSpace sql) "") as [E|_].
  { split; [done|]. intros (Hh & _). rewrite E in Ho. injection Ho as <-. discriminate Hh. }
  rewrite Ho. cbn [res_map_err res_bind].
  destruct (String.eqb_spec (TrimSpace o) "") as [->|_]; [split; [done|]; by intros [? _]|].
  destruct (negb _ && _ && _); [split; [done|]; by intros [? _]|].
  destruct (dangerous_found o); [split; [done|]; by intros (_ & ? & _)|].
  destruct (checkFunctionBlocklist _ _ _) as [[]|]; [|split; [done|]; by intros (_ & _ & _ & ?)].
  simpl. destruct (hasMultipleStatements o); [split; [done|]; by intros (_ & _ & ? & _)|done].
Qed.

(** C16: the read-only gate accepts a text exactly when, comments removed and
    quoted texts emptied, it starts with SELECT, WITH or EXPLAIN, has none of
    the data-modifying keywords as a whole word, holds a single statement, and
    calls no denied function anywhere outside comments and string literals. *)
Theorem Check_exact (c : ReadOnlyChecker) (sql : string) :
  Check c sql = Ok tt <->
  exists o, Strips (TrimSpace sql) o /\
    (exists h rest, h ∈ ["SELECT"; "WITH"; "EXPLAIN"] /\ ToUpper (TrimSpace o) = h +:+ rest) /\
    (forall kw, kw ∈ dangerousKeywords -> ~ word_occurs kw o) /\ ~ bulk_insert_occurs o /\
    single_statement o /\
    (forall f, f ∈ deniedFunctions c -> ~ Calls f (TrimSpace sql)).
Proof. apply Check_spec. Qed.

(** A refusal is never one of used-up fuel. *)
Lemma Check_fuel c sql e : Check c sql = Err e -> no_fuel e.
Proof.
  unfold Check. destruct (str_empty _); [by intros [= <-]|].
  destruct (strip_total (TrimSpace sql)) as [o ->]. cbn [res_map_err res_bind].
  destruct (str_empty _); [by intros [= <-]|]. destruct (_ && _); [by intros [= <-]|].
  destruct (dangerous_found o); [by intros [= <-]|].
  destruct (checkFunctionBlocklist _ _ _) as [u|e'] eqn:E; cbn [res_bind].
  - destruct (hasMultipleStatements o); [by intros [= <-]|done].
  - intros [= <-]. by eapply check_fuel.
Qed.

(** ** The deny list *)

Lemma normalize_loop_spec fs acc :
  NoDup acc ->
  match normalize_loop fs acc with
  | Ok d => NoDup d /\ (forall n, n ∈ d <-> n ∈ acc \/ exists f, f ∈ fs /\ n = ToLower (TrimSpace f)) /\
            Forall (fun f => functionNamePattern (ToLower (TrimSpace f)) = true) fs
  | Err _ => Exists (fun f => functionNamePattern (ToLower (TrimSpace f)) = false) fs
  end.
Proof.
  revert acc. induction fs as [|f fs IH]; intros acc Hacc; simpl.
  - split_and!; [done| |constructor]. intros n. set_solver.
  - destruct (functionNamePattern (ToLower (TrimSpace f))) eqn:Hp; [|by left].
    assert (NoDup (if str_in (ToLower (TrimSpace f)) acc then acc
                   else acc ++ [ToLower (TrimSpace f)])) as Hacc'.
    { destruct (str_in _ acc) eqn:Hi; [done|]. apply str_in_false in Hi.
      apply NoDup_app. split_and!; [done|set_solver|apply NoDup_singleton]. }
    specialize (IH _ Hacc'). destruct (normalize_loop fs _) as [d|]; [|by right].
    destruct IH as (H1 & H2 & H3). split_and!; [done| |by constructor].
    intros n. rewrite H2. destruct (str_in (ToLower (TrimSpace f)) acc) eqn:Hi.
    + apply str_in_spec in Hi. set_solver.
    + set_solver.
Qed.

Lemma extend_new_spec l acc :
  NoDup l -> NoDup acc -> (forall n, n ∈ l -> n ∉ acc) ->
  fold_left (fun eff n => if str_in n eff then eff else eff ++ [n]) l acc = acc ++ l.
Proof.
  revert acc. induction l as [|n l IH]; intros acc Hl Hacc Hd; simpl; [by rewrite List.app_nil_r|].
  apply NoDup_cons in Hl as [Hn Hl].
  assert (str_in n acc = false) as -> by (apply str_in_false, Hd; set_solver).
  rewrite IH; [by rewrite <- List.app_assoc|done| |].
  - apply NoDup_app. split_and!; [done|set_solver|apply NoDup_singleton].
  - set_solver.
Qed.

Lemma defaults_NoDup : NoDup defaultDeniedFunctions.
Proof. by apply (bool_decide_unpack _). Qed.

(** the deny list of a datasource is the built-in list, unchanged and in its
    order, followed by the datasource's own names: trimmed, lower-cased, each
    once and none of them twice.  A name that is not a function name is an
    error, and only that. *)
Theorem EffectiveDeniedFunctions_exact (custom : list string) :
  match EffectiveDeniedFunctions custom with
  | Ok d => exists extra, d = defaultDeniedFunctions ++ extra /\ NoDup d /\
      (forall n, n ∈ d <-> n ∈ defaultDeniedFunctions \/
                           exists f, f ∈ custom /\ n = ToLower (TrimSpace f)) /\
      Forall (fun f => functionNamePattern (ToLower (TrimSpace f)) = true) custom
  | Err _ => Exists (fun f => functionNamePattern (ToLower (TrimSpace f)) = false) custom
  end.
Proof.
  unfold EffectiveDeniedFunctions, NormalizeCustomFunctionBlocklist, NormalizeFunctionBlocklist.
  pose proof (normalize_loop_spec custom [] ltac:(constructor)) as H.
  destruct (normalize_loop custom []) as [l|]; [|done]. destruct H as (Hnd & Hin & Hall). simpl.
  set (extra := List.filter _ l).
  assert (forall n, n ∈ extra <-> n ∈ l /\ n ∉ defaultDeniedFunctions) as Hextra.
  { intros n. unfold extra. rewrite list_elem_of_In, filter_In, <- list_elem_of_In.
    rewrite <- (str_in_false n). cbv beta. by rewrite negb_true_iff. }
  assert (NoDup extra) as Hne.
  { unfold extra. clear -Hnd. induction Hnd as [|x l Hx Hl IH]; simpl; [constructor|].
    destruct (negb _); [|done]. constructor; [|done].
    intros [Hi _]%list_elem_of_In%filter_In. by apply list_elem_of_In in Hi. }
  rewrite extend_new_spec; [|done|apply defaults_NoDup|]; [|intros n; rewrite Hextra; tauto].
  exists extra. split_and!; [done| | |done].
  - apply NoDup_app. split_and!; [apply defaults_NoDup| |done]. intros n Hn Hx%Hextra. tauto.
  - intros n. unfold DefaultDeniedFunctions. rewrite elem_of_app, Hextra, Hin.
    pose proof (not_elem_of_nil n). destruct (decide (n ∈ defaultDeniedFunctions)); tauto.
Qed.

(** ** What the gate does not see

    The scanners know the standard literal and comment syntax only.  A server
    that reads a backslash as an escape ends the literal elsewhere: here the
    text after the literal, in the reading of [scan_token] with escapes, is a
    second statement, and MySQL runs the text of a /*! comment. *)
Example Check_backslash_literal :
  let sql := "SELECT '\' , '; DELETE FROM t -- '" in
  Check NewReadOnlyChecker sql = Ok tt /\
  scan_token true sq sq (String.substring 7 27 sql) = Some ("' , ", "; DELETE FROM t -- '").
Proof. split; vm_compute; reflexivity. Qed.

Example Check_mysql_executable_comment :
  Check NewReadOnlyChecker "SELECT 1 /*! INTO OUTFILE 'f' */" = Ok tt.
Proof. vm_compute. reflexivity. Qed.
