(* ===== verification/LogicalQuery.v ===== *)
(** The logical query of [pkg/logicalquery/types.go] and the structured metric
    query of [internal/query/structured_query.go].

    The Go types are mutually recursive (a filter may hold a subquery, a subquery
    has filters and select items, a select item has filters): so are the types
    here.  [EnsureVersion] and [EnsureGroupBySelected] change the query in place;
    here they return the changed query. *)

From S2P Require Import Prelude GoStrings Values Semantic.
From stdpp Require Import options.
#[local] Open Scope Z_scope.

(** * types.go *)

Definition CurrentLogicalQueryVersion : string := "v1".

Record GroupBy : Type := mkGroupBy {
  gb_Field : string;
  gb_TimeGrain : string;
}.

Record OrderBy : Type := mkOrderBy {
  ob_Field : string;
  ob_Direction : string;
}.

Record WindowSpec : Type := mkWindow {
  w_Aggregation : string;
  w_Expression : string;
  w_Expr : ExprNode;
  w_Metric : string;
  w_PartitionBy : list string;
  w_OrderBy : list OrderBy;
  w_Offset : Z;
  w_Frame : string;
}.

Record CaseThen : Type := mkCaseThen {
  ct_Type : string;
  ct_Dimension : string;
  ct_Literal : gval;
}.

Inductive Filter : Type := mkFilter {
  f_Field : string;
  f_Operator : string;
  f_Value : gval;
  f_CaseSensitive : bool;
  f_Subquery : option SubqueryFilter;
}
with SubqueryFilter : Type := mkSubqueryFilter {
  sf_Body : SubqueryBody;
  sf_ResultField : string;
}
with SubqueryBody : Type := mkBody {
  b_Select : list SelectItem;
  b_Filters : list Filter;
  b_GroupBy : list GroupBy;
  b_Having : list Filter;
  b_OrderBy : list OrderBy;
  b_Limit : Z;
  b_Offset : Z;
}
with SelectItem : Type := mkSelect {
  s_Type : string;
  s_Name : string;
  s_Alias : string;
  s_Filters : list Filter;
  s_Case : option CaseExpr;
  s_Formula : option FormulaSpec;
  s_Window : option WindowSpec;
}
with CaseExpr : Type := mkCase {
  c_Branches : list CaseBranch;
  c_Else : option CaseThen;
}
with CaseBranch : Type := mkBranch {
  br_When : list Filter;
  br_Then : CaseThen;
}
with FormulaSpec : Type := mkFormula {
  fo_Op : string;
  fo_Left : MeasureRef;
  fo_Right : MeasureRef;
}
with MeasureRef : Type := mkMeasure {
  m_Metric : string;
  m_Filters : list Filter;
}.

Record CTE : Type := mkCTE {
  cte_Name : string;
  cte_Select : list SelectItem;
  cte_Filters : list Filter;
  cte_GroupBy : list GroupBy;
  cte_Having : list Filter;
  cte_OrderBy : list OrderBy;
  cte_Limit : Z;
  cte_Offset : Z;
}.

Definition Subquery (c : CTE) : SubqueryBody := {|
  b_Select := cte_Select c; b_Filters := cte_Filters c; b_GroupBy := cte_GroupBy c;
  b_Having := cte_Having c; b_OrderBy := cte_OrderBy c; b_Limit := cte_Limit c;
  b_Offset := cte_Offset c |}.

Record LogicalQuery : Type := mkLQ {
  Version : string;
  DatasourceID : string;
  ModelID : string;
  CompositeID : string;
  Select : list SelectItem;
  Filters : list Filter;
  GroupBys : list GroupBy;
  Having : list Filter;
  OrderBys : list OrderBy;
  Limit : Z;
  Offset : Z;
  CTEs : list CTE;
  FromSubquery : option SubqueryBody;
  FromCTE : string;
  FromAlias : string;
  DefaultSchema : string;
  TableSchemas : gmap string string;
}.

Definition TimeGrainHour := "hour".
Definition TimeGrainDay := "day".
Definition TimeGrainWeek := "week".
Definition TimeGrainMonth := "month".
Definition TimeGrainQuarter := "quarter".
Definition TimeGrainYear := "year".

Definition IsValidTimeGrain (grain : string) : bool :=
  str_in grain ["";  TimeGrainHour; TimeGrainDay; TimeGrainWeek; TimeGrainMonth;
                TimeGrainQuarter; TimeGrainYear].

Definition OpEq := "eq".
Definition OpNeq := "neq".
Definition OpGt := "gt".
Definition OpGte := "gte".
Definition OpLt := "lt".
Definition OpLte := "lte".
Definition OpIn := "in".
Definition OpNotIn := "not_in".
Definition OpContains := "contains".
Definition OpStartsWith := "starts_with".
Definition OpEndsWith := "ends_with".
Definition OpBetween := "between".
Definition OpIsNull := "is_null".
Definition OpIsNotNull := "is_not_null".
Definition OpIsEmpty := "is_empty".
Definition OpIsNotEmpty := "is_not_empty".

Definition SelectTypeDimension := "dimension".
Definition SelectTypeMetric := "metric".
Definition SelectTypeWindow := "window".
Definition SelectTypeCase := "case".
Definition SelectTypeFormula := "formula".

Definition FormulaOpAdd := "add".
Definition FormulaOpSubtract := "subtract".
Definition FormulaOpDivide := "divide".
Definition FormulaOpPercentOf := "percent_of".
Definition FormulaOpPercentChange := "percent_change".

Definition IsValidFormulaOp (op : string) : bool :=
  str_in op [FormulaOpAdd; FormulaOpSubtract; FormulaOpDivide; FormulaOpPercentOf;
             FormulaOpPercentChange].

Definition CaseThenTypeDimension := "dimension".
Definition CaseThenTypeLiteral := "literal".
Definition OrderAsc := "asc".
Definition OrderDesc := "desc".

Definition lq_set_Version (v : string) (lq : LogicalQuery) : LogicalQuery := {|
  Version := v; DatasourceID := DatasourceID lq; ModelID := ModelID lq;
  CompositeID := CompositeID lq; Select := Select lq; Filters := Filters lq;
  GroupBys := GroupBys lq; Having := Having lq; OrderBys := OrderBys lq; Limit := Limit lq;
  Offset := Offset lq; CTEs := CTEs lq; FromSubquery := FromSubquery lq; FromCTE := FromCTE lq;
  FromAlias := FromAlias lq; DefaultSchema := DefaultSchema lq; TableSchemas := TableSchemas lq |}.

Definition lq_set_Select (s : list SelectItem) (lq : LogicalQuery) : LogicalQuery := {|
  Version := Version lq; DatasourceID := DatasourceID lq; ModelID := ModelID lq;
  CompositeID := CompositeID lq; Select := s; Filters := Filters lq;
  GroupBys := GroupBys lq; Having := Having lq; OrderBys := OrderBys lq; Limit := Limit lq;
  Offset := Offset lq; CTEs := CTEs lq; FromSubquery := FromSubquery lq; FromCTE := FromCTE lq;
  FromAlias := FromAlias lq; DefaultSchema := DefaultSchema lq; TableSchemas := TableSchemas lq |}.

Definition EnsureVersion (lq : LogicalQuery) : LogicalQuery :=
  if str_empty (Version lq) then lq_set_Version CurrentLogicalQueryVersion lq else lq.

(** A select item with a type and a name only. *)
Definition plain_item (ty name : string) : SelectItem := mkSelect ty name "" [] None None None.

Definition is_dimension_item (i : SelectItem) : bool := String.eqb (s_Type i) SelectTypeDimension.
Definition is_metric_item (i : SelectItem) : bool := String.eqb (s_Type i) SelectTypeMetric.

(** [selectedDims], a Go map used as a set, after the first loop. *)
Definition selected_dims (items : list SelectItem) : gset string :=
  list_to_set (map s_Name (List.filter is_dimension_item items)).

(** The second loop: the dimensions to add, each once, in GROUP BY order. *)
Fixpoint missing_dims (gbs : list GroupBy) (selected : gset string) : list SelectItem :=
  match gbs with
  | [] => []
  | gb :: gbs =>
      if decide (gb_Field gb ∈ selected) then missing_dims gbs selected
      else plain_item SelectTypeDimension (gb_Field gb)
           :: missing_dims gbs ({[ gb_Field gb ]} ∪ selected)
  end.

(** Index of the first metric, or the number of items. *)
Fixpoint firstMetric (items : list SelectItem) : nat :=
  match items with
  | [] => 0
  | i :: items => if is_metric_item i then 0 else S (firstMetric items)
  end%nat.

Definition EnsureGroupBySelected (lq : LogicalQuery) : LogicalQuery :=
  match GroupBys lq with
  | [] => lq
  | _ =>
      match missing_dims (GroupBys lq) (selected_dims (Select lq)) with
      | [] => lq
      | missing =>
          let k := firstMetric (Select lq) in
          lq_set_Select (take k (Select lq) ++ missing ++ drop k (Select lq)) lq
      end
  end.

(** * structured_query.go *)

Record DateRange : Type := mkDateRange { dr_Start : gval; dr_End : gval }.

Record TimeDimension : Type := mkTimeDimension {
  td_Dimension : string;
  td_Grain : string;
  td_DateRange : option DateRange;
}.

Record StructuredFilter : Type := mkStructuredFilter {
  stf_Field : string; stf_Operator : string; stf_Value : gval }.

Record StructuredSort : Type := mkStructuredSort { sts_Field : string; sts_Direction : string }.

Record StructuredMetricQuery : Type := mkStructured {
  q_DatasourceID : string;
  q_ModelID : string;
  q_Measures : list string;
  q_Dimensions : list string;
  q_TimeDimension : option TimeDimension;
  q_Filters : list StructuredFilter;
  q_Sort : list StructuredSort;
  q_Limit : Z;
  q_Offset : Z;
}.

Definition blank (s : string) : bool := str_empty (TrimSpace s).

Definition has_time (q : StructuredMetricQuery) : bool :=
  match q_TimeDimension q with Some td => negb (blank (td_Dimension td)) | None => false end.

Definition validateRequired (q : StructuredMetricQuery) : res unit :=
  if blank (q_DatasourceID q) then Err (EMsg "datasource_id is required")
  else if blank (q_ModelID q) then Err (EMsg "model_id is required")
  else match q_Measures q, q_Dimensions q with
       | [], [] => if has_time q then Ok tt
                   else Err (EMsg "at least one measure or dimension is required")
       | _, _ => Ok tt
       end.

(** The part of the query under construction that the append functions change:
    the select items, the GROUP BY list, the filters, and the [seen] map. *)
Record draft : Type := mkDraft {
  d_Select : list SelectItem;
  d_GroupBy : list GroupBy;
  d_Filters : list Filter;
  d_seen : gset string;
}.

Definition appendDimension (d : draft) (name grain : string) : res draft :=
  let name := TrimSpace name in
  if str_empty name then Err (EMsg "dimension name is empty") else
  let key := ToLower name in
  let d := if decide (key ∈ d_seen d) then d
           else mkDraft (d_Select d ++ [plain_item SelectTypeDimension name])
                  (d_GroupBy d) (d_Filters d) ({[ key ]} ∪ d_seen d) in
  if negb (str_empty grain) && negb (IsValidTimeGrain grain)
  then Err (EMsg ("invalid time grain " +:+ Quote grain))
  else if existsb (fun e => EqualFold (gb_Field e) name) (d_GroupBy d) then Ok d
  else Ok (mkDraft (d_Select d) (d_GroupBy d ++ [mkGroupBy name grain]) (d_Filters d) (d_seen d)).

Definition plain_filter (field op : string) (v : gval) : Filter := mkFilter field op v false None.

Definition is_nil (v : gval) : bool := match v with VNil => true | _ => false end.

Definition dateRangeFilters (field : string) (dr : option DateRange) : list Filter :=
  match dr with
  | None => []
  | Some dr =>
      let field := TrimSpace field in
      if negb (is_nil (dr_Start dr)) && negb (is_nil (dr_End dr))
      then [plain_filter field OpBetween (VList [dr_Start dr; dr_End dr])]
      else (if is_nil (dr_Start dr) then [] else [plain_filter field OpGte (dr_Start dr)]) ++
           (if is_nil (dr_End dr) then [] else [plain_filter field OpLte (dr_End dr)])
  end.

Definition appendTimeDimension (d : draft) (td : option TimeDimension) : res draft :=
  match td with
  | None => Ok d
  | Some td =>
      if blank (td_Dimension td) then Ok d else
      let? d := appendDimension d (td_Dimension td) (td_Grain td) in
      Ok (mkDraft (d_Select d) (d_GroupBy d)
            (d_Filters d ++ dateRangeFilters (td_Dimension td) (td_DateRange td)) (d_seen d))
  end.

Fixpoint appendDimensions (d : draft) (dims : list string) : res draft :=
  match dims with
  | [] => Ok d
  | n :: dims => let? d := appendDimension d n "" in appendDimensions d dims
  end.

Fixpoint appendMeasures (d : draft) (measures : list string) : res draft :=
  match measures with
  | [] => Ok d
  | m :: measures =>
      let m := TrimSpace m in
      if str_empty m then Err (EMsg "measure name is empty") else
      let key := ToLower m in
      if decide (key ∈ d_seen d) then appendMeasures d measures
      else appendMeasures (mkDraft (d_Select d ++ [plain_item SelectTypeMetric m])
             (d_GroupBy d) (d_Filters d) ({[ key ]} ∪ d_seen d)) measures
  end.

Definition isValidStructuredOperator (op : string) : bool :=
  str_in op [OpEq; OpNeq; OpGt; OpGte; OpLt; OpLte; OpIn; OpNotIn; OpContains; OpStartsWith;
             OpEndsWith; OpBetween; OpIsNull; OpIsNotNull; OpIsEmpty; OpIsNotEmpty].

Definition structured_filter (f : StructuredFilter) : res Filter :=
  let field := TrimSpace (stf_Field f) in
  let op := TrimSpace (stf_Operator f) in
  if str_empty field || str_empty op then Err (EMsg "filter field and operator are required")
  else if negb (isValidStructuredOperator op)
  then Err (EMsg ("unsupported filter operator " +:+ Quote op))
  else Ok (plain_filter field op (stf_Value f)).
Definition buildStructuredFilters : list StructuredFilter -> res (list Filter) :=
  res_mapM structured_filter.

Definition structured_sort (s : StructuredSort) : res OrderBy :=
  let field := TrimSpace (sts_Field s) in
  if str_empty field then Err (EMsg "sort field is empty") else
  let dir := ToLower (TrimSpace (sts_Direction s)) in
  let dir := if str_empty dir then OrderAsc else dir in
  if negb (String.eqb dir OrderAsc) && negb (String.eqb dir OrderDesc)
  then Err (EMsg ("invalid sort direction " +:+ Quote (sts_Direction s)))
  else Ok (mkOrderBy field dir).
Definition buildStructuredSort : list StructuredSort -> res (list OrderBy) :=
  res_mapM structured_sort.

Definition ToLogicalQuery (q : StructuredMetricQuery) : res LogicalQuery :=
  let? _ := validateRequired q in
  let? d := appendDimensions (mkDraft [] [] [] ∅) (q_Dimensions q) in
  let? d := appendTimeDimension d (q_TimeDimension q) in
  let? d := appendMeasures d (q_Measures q) in
  let? filters := buildStructuredFilters (q_Filters q) in
  let? orderBy := buildStructuredSort (q_Sort q) in
  Ok {| Version := CurrentLogicalQueryVersion; DatasourceID := q_DatasourceID q;
        ModelID := q_ModelID q; CompositeID := ""; Select := d_Select d;
        Filters := d_Filters d ++ filters; GroupBys := d_GroupBy d; Having := [];
        OrderBys := orderBy; Limit := if q_Limit q <=? 0 then 1000 else q_Limit q;
        Offset := q_Offset q; CTEs := []; FromSubquery := None; FromCTE := "";
        FromAlias := ""; DefaultSchema := ""; TableSchemas := ∅ |}.

(** * Theorems *)

(** ** EnsureGroupBySelected *)

Lemma selected_dims_app l1 l2 : selected_dims (l1 ++ l2) = selected_dims l1 ∪ selected_dims l2.
Proof. unfold selected_dims. by rewrite List.filter_app, map_app, list_to_set_app_L. Qed.

Lemma selected_dims_plain names :
  selected_dims (map (plain_item SelectTypeDimension) names) = list_to_set names.
Proof.
  unfold selected_dims. induction names as [|n names IH]; [done|].
  cbn [map List.filter]. change (is_dimension_item (plain_item SelectTypeDimension n)) with true.
  cbn [map list_to_set s_Name plain_item]. cbn. f_equal. exact IH.
Qed.

(** The dimensions added: those grouped by and not yet selected, each once. *)
Lemma missing_dims_spec gbs sel :
  exists names, missing_dims gbs sel = map (plain_item SelectTypeDimension) names /\ NoDup names /\
    forall n, n ∈ names <-> n ∉ sel /\ exists gb, gb ∈ gbs /\ gb_Field gb = n.
Proof.
  revert sel. induction gbs as [|gb gbs IH]; intros sel; simpl.
  - exists []. split_and!; [done|constructor|]. set_solver.
  - case_decide as Hd.
    + destruct (IH sel) as (names & -> & Hn & Hin). exists names. split_and!; [done..|].
      intros n. rewrite Hin. set_solver.
    + destruct (IH ({[gb_Field gb]} ∪ sel)) as (names & -> & Hn & Hin).
      exists (gb_Field gb :: names). split_and!; [done| |].
      * apply NoDup_cons. split; [|done]. rewrite Hin. set_solver.
      * intros n. rewrite elem_of_cons, Hin.
        destruct (decide (n = gb_Field gb)) as [->|]; set_solver.
Qed.

Lemma firstMetric_split items :
  Forall (fun i => is_metric_item i = false) (take (firstMetric items) items) /\
  match drop (firstMetric items) items with [] => True | i :: _ => is_metric_item i = true end.
Proof.
  induction items as [|i items [IH1 IH2]]; simpl; [done|].
  destruct (is_metric_item i) eqn:E; simpl; [done|]. split; [by constructor|done].
Qed.

Lemma EnsureGroupBySelected_cases lq :
  let missing := missing_dims (GroupBys lq) (selected_dims (Select lq)) in
  EnsureGroupBySelected lq =
    match missing with
    | [] => lq
    | _ => lq_set_Select (take (firstMetric (Select lq)) (Select lq) ++ missing
                          ++ drop (firstMetric (Select lq)) (Select lq)) lq
    end.
Proof.
  cbv zeta. unfold EnsureGroupBySelected. destruct (GroupBys lq) as [|gb gbs]; [done|].
  by destruct (missing_dims (gb :: gbs) (selected_dims (Select lq))).
Qed.

Lemma lq_set_Select_id lq : lq_set_Select (Select lq) lq = lq.
Proof. by destruct lq. Qed.

(** [EnsureGroupBySelected] leaves the query as it is but for select items it
    inserts, in one block, in front of the first metric; the block holds, each
    once, the grouped dimensions that were not selected.  Afterwards every
    grouped dimension is selected, and a second call changes nothing. *)
Theorem EnsureGroupBySelected_spec (lq : LogicalQuery) :
  exists pre names post,
    Select lq = pre ++ post /\
    EnsureGroupBySelected lq
      = lq_set_Select (pre ++ map (plain_item SelectTypeDimension) names ++ post) lq /\
    Forall (fun i => is_metric_item i = false) pre /\
    match post with [] => True | i :: _ => is_metric_item i = true end /\
    NoDup names /\
    (forall n, n ∈ names <-> n ∉ selected_dims (Select lq) /\
                             exists gb, gb ∈ GroupBys lq /\ gb_Field gb = n) /\
    (forall gb, gb ∈ GroupBys lq ->
       gb_Field gb ∈ selected_dims (Select (EnsureGroupBySelected lq))) /\
    EnsureGroupBySelected (EnsureGroupBySelected lq) = EnsureGroupBySelected lq.
Proof.
  destruct (missing_dims_spec (GroupBys lq) (selected_dims (Select lq))) as (names & Hm & Hnd & Hin).
  set (pre := take (firstMetric (Select lq)) (Select lq)).
  set (post := drop (firstMetric (Select lq)) (Select lq)).
  assert (Select lq = pre ++ post) as Hsplit by (symmetry; apply take_drop).
  assert (EnsureGroupBySelected lq
      = lq_set_Select (pre ++ map (plain_item SelectTypeDimension) names ++ post) lq) as He.
  { rewrite EnsureGroupBySelected_cases. cbv zeta. rewrite Hm. destruct names as [|n names]; [|done].
    simpl. rewrite <- Hsplit. by rewrite lq_set_Select_id. }
  assert (forall gb, gb ∈ GroupBys lq ->
       gb_Field gb ∈ selected_dims (Select (EnsureGroupBySelected lq))) as Hall.
  { intros gb Hgb. rewrite He. cbn [Select lq_set_Select].
    rewrite !selected_dims_app, selected_dims_plain.
    destruct (decide (gb_Field gb ∈ selected_dims (Select lq))) as [Hs|Hs].
    - rewrite Hsplit, selected_dims_app in Hs. set_solver.
    - assert (gb_Field gb ∈ names) by (apply Hin; eauto). set_solver. }
  destruct (firstMetric_split (Select lq)) as [Hpre Hpost].
  exists pre, names, post. split_and!; try done.
  rewrite (EnsureGroupBySelected_cases (EnsureGroupBySelected lq)). cbv zeta.
  destruct (missing_dims_spec (GroupBys (EnsureGroupBySelected lq))
    (selected_dims (Select (EnsureGroupBySelected lq)))) as (names' & Hm' & _ & Hin').
  rewrite Hm'. destruct names' as [|n names']; [done|]. exfalso.
  destruct (proj1 (Hin' n) ltac:(by left)) as [Hn (gb & Hgb & Hf)]. apply Hn. subst n. apply Hall.
  rewrite He in Hgb. exact Hgb.
Qed.

(** ** ToLogicalQuery *)

(** When a structured query is accepted. *)
Definition structured_ok (q : StructuredMetricQuery) : Prop :=
  blank (q_DatasourceID q) = false /\ blank (q_ModelID q) = false /\
  (q_Measures q <> [] \/ q_Dimensions q <> [] \/ has_time q = true) /\
  Forall (fun d => blank d = false) (q_Dimensions q) /\
  match q_TimeDimension q with
  | Some td => blank (td_Dimension td) = true \/ IsValidTimeGrain (td_Grain td) = true
  | None => True
  end /\
  Forall (fun m => blank m = false) (q_Measures q) /\
  Forall (fun f => blank (stf_Field f) = false /\
                   isValidStructuredOperator (TrimSpace (stf_Operator f)) = true) (q_Filters q) /\
  Forall (fun s => blank (sts_Field s) = false /\
                   ToLower (TrimSpace (sts_Direction s)) ∈ [""; OrderAsc; OrderDesc]) (q_Sort q).

Definition item_key (i : SelectItem) : string := ToLower (s_Name i).
Definition group_key (g : GroupBy) : string := ToLower (gb_Field g).

(** What the append functions maintain. *)
Record draft_ok (d : draft) : Prop := {
  ok_seen : d_seen d = list_to_set (map item_key (d_Select d));
  ok_items : NoDup (map item_key (d_Select d));
  ok_groups : NoDup (map group_key (d_GroupBy d));
  ok_grains : Forall (fun g => IsValidTimeGrain (gb_TimeGrain g) = true) (d_GroupBy d);
  ok_ops : Forall (fun f => f_Operator f ∈ [OpBetween; OpGte; OpLte]) (d_Filters d);
}.

(** [d'] keeps what [d] holds. *)
Definition draft_le (d d' : draft) : Prop :=
  (forall k, k ∈ map item_key (d_Select d) -> k ∈ map item_key (d_Select d')) /\
  (forall k, k ∈ map group_key (d_GroupBy d) -> k ∈ map group_key (d_GroupBy d')).

Lemma draft_le_trans d1 d2 d3 : draft_le d1 d2 -> draft_le d2 d3 -> draft_le d1 d3.
Proof. unfold draft_le. naive_solver. Qed.

Lemma NoDup_snoc {A} (l : list A) x : NoDup l -> x ∉ l -> NoDup (l ++ [x]).
Proof. intros. apply NoDup_app. split_and!; [done|set_solver|apply NoDup_singleton]. Qed.

(** Adding a select item unless its key was seen. *)
Lemma see_item_ok d ty n :
  draft_ok d ->
  let d' := if decide (ToLower n ∈ d_seen d) then d
            else mkDraft (d_Select d ++ [plain_item ty n]) (d_GroupBy d) (d_Filters d)
                   ({[ ToLower n ]} ∪ d_seen d) in
  draft_ok d' /\ draft_le d d' /\ ToLower n ∈ map item_key (d_Select d') /\
  d_GroupBy d' = d_GroupBy d /\ d_Filters d' = d_Filters d.
Proof.
  intros [H1 H2 H3 H4 H5]. cbv zeta. case_decide as Hd.
  - split_and!; try done. rewrite H1 in Hd. by apply elem_of_list_to_set in Hd.
  - rewrite H1 in Hd. rewrite elem_of_list_to_set in Hd.
    assert (map item_key (d_Select d ++ [plain_item ty n])
            = map item_key (d_Select d) ++ [ToLower n]) as Hm by apply map_app.
    split_and!; try done.
    + split; simpl; try done.
      * rewrite Hm, list_to_set_app_L, H1. set_solver.
      * rewrite Hm. by apply NoDup_snoc.
    + split; simpl; [|done]. intros k Hk. rewrite Hm. set_solver.
    + simpl. rewrite Hm. set_solver.
Qed.

Lemma appendDimension_spec d n g :
  draft_ok d ->
  match appendDimension d n g with
  | Ok d' => draft_ok d' /\ draft_le d d' /\ d_Filters d' = d_Filters d /\
      blank n = false /\ IsValidTimeGrain g = true /\
      ToLower (TrimSpace n) ∈ map item_key (d_Select d') /\
      ToLower (TrimSpace n) ∈ map group_key (d_GroupBy d')
  | Err _ => blank n = true \/ IsValidTimeGrain g = false
  end.
Proof.
  intros Hd. unfold appendDimension, blank. set (m := TrimSpace n). cbv zeta.
  destruct (str_empty m) eqn:Hm; [by left|].
  destruct (see_item_ok d SelectTypeDimension m Hd) as (Hok & Hle & Hin & Hg & Hf).
  cbv zeta in Hok, Hle, Hin, Hg, Hf.
  set (d' := if decide _ then _ else _) in *. clearbody d'.
  destruct (negb (str_empty g) && negb (IsValidTimeGrain g)) eqn:Hgr.
  { apply andb_true_iff in Hgr as [_ Hgr%negb_true_iff]. by right. }
  assert (IsValidTimeGrain g = true) as Hv.
  { apply andb_false_iff in Hgr as [Hgr|Hgr]; apply negb_false_iff in Hgr; [|done].
    unfold str_empty in Hgr. by apply String.eqb_eq in Hgr as ->. }
  destruct (existsb _ (d_GroupBy d')) eqn:He.
  - split_and!; try done. apply existsb_In in He as (e & Hin' & He%EqualFold_spec).
    rewrite <- He. by apply (list_elem_of_fmap_2 group_key).
  - assert (map group_key (d_GroupBy d' ++ [mkGroupBy m g])
            = map group_key (d_GroupBy d') ++ [ToLower m]) as Hmap by apply map_app.
    destruct Hok as [H1 H2 H3 H4 H5]. split_and!; try done.
    + split; simpl; try done.
      * rewrite Hmap. apply NoDup_snoc; [done|]. intros (e & Hk & Hin')%list_elem_of_fmap.
        assert (existsb (fun e => EqualFold (gb_Field e) m) (d_GroupBy d') = true); [|congruence].
        apply existsb_In. exists e. split; [done|]. by apply EqualFold_spec.
      * apply Forall_app. split; [done|]. by constructor.
    + destruct Hle as [L1 L2]. split; simpl; [done|]. intros k Hk%L2. rewrite Hmap. set_solver.
    + simpl. rewrite Hmap. set_solver.
Qed.

Lemma appendDimensions_spec dims d :
  draft_ok d ->
  match appendDimensions d dims with
  | Ok d' => draft_ok d' /\ draft_le d d' /\ d_Filters d' = d_Filters d /\
      Forall (fun n => blank n = false /\ ToLower (TrimSpace n) ∈ map item_key (d_Select d') /\
                       ToLower (TrimSpace n) ∈ map group_key (d_GroupBy d')) dims
  | Err _ => ~ Forall (fun n => blank n = false) dims
  end.
Proof.
  revert d. induction dims as [|n dims IH]; intros d Hd; simpl.
  - split_and!; [done|by split|done|constructor].
  - pose proof (appendDimension_spec d n "" Hd) as Hn.
    destruct (appendDimension d n "") as [d1|]; simpl.
    + destruct Hn as (Hok & Hle & Hf & Hb & _ & Hi & Hg). specialize (IH d1 Hok).
      destruct (appendDimensions d1 dims) as [d2|].
      * destruct IH as (Hok2 & Hle2 & Hf2 & Hall). split_and!; [done| |congruence|].
        -- by eapply draft_le_trans.
        -- constructor; [|done]. destruct Hle2 as [L1 L2]. auto.
      * intros [_ ?]%Forall_cons. done.
    + intros [Hb _]%Forall_cons. destruct Hn as [Hn|Hn]; [congruence|discriminate Hn].
Qed.

Lemma appendMeasures_spec ms d :
  draft_ok d ->
  match appendMeasures d ms with
  | Ok d' => draft_ok d' /\ draft_le d d' /\ d_Filters d' = d_Filters d /\
      Forall (fun n => blank n = false /\ ToLower (TrimSpace n) ∈ map item_key (d_Select d')) ms
  | Err _ => ~ Forall (fun n => blank n = false) ms
  end.
Proof.
  revert d. induction ms as [|n ms IH]; intros d Hd; simpl.
  - split_and!; [done|by split|done|constructor].
  - destruct (str_empty (TrimSpace n)) eqn:Hb.
    { intros [Hn _]%Forall_cons. unfold blank in Hn. congruence. }
    destruct (see_item_ok d SelectTypeMetric (TrimSpace n) Hd) as (Hok & Hle & Hin & Hg & Hf).
    cbv zeta in Hok, Hle, Hin, Hg, Hf.
    assert (forall d', (if decide (ToLower (TrimSpace n) ∈ d_seen d) then d
            else mkDraft (d_Select d ++ [plain_item SelectTypeMetric (TrimSpace n)]) (d_GroupBy d)
                   (d_Filters d) ({[ ToLower (TrimSpace n) ]} ∪ d_seen d)) = d' ->
      match appendMeasures d' ms with
      | Ok d2 => draft_ok d2 /\ draft_le d d2 /\ d_Filters d2 = d_Filters d /\
          Forall (fun n => blank n = false /\ ToLower (TrimSpace n) ∈ map item_key (d_Select d2)) (n :: ms)
      | Err _ => ~ Forall (fun n => blank n = false) (n :: ms)
      end) as H.
    { intros d' Hd'. rewrite Hd' in *. specialize (IH d' Hok).
      destruct (appendMeasures d' ms) as [d2|].
      - destruct IH as (Hok2 & Hle2 & Hf2 & Hall). split_and!; [done| |congruence|].
        + by eapply draft_le_trans.
        + constructor; [|done]. destruct Hle2 as [L1 _]. auto.
      - intros [_ ?]%Forall_cons. done. }
    case_decide; by apply H.
Qed.

Lemma dateRangeFilters_ops field dr :
  Forall (fun f => f_Operator f ∈ [OpBetween; OpGte; OpLte]) (dateRangeFilters field dr).
Proof.
  destruct dr as [[s e]|]; simpl; [|constructor].
  destruct (negb (is_nil s) && negb (is_nil e)); [constructor; [set_solver|constructor]|].
  apply Forall_app. split; [destruct (is_nil s)|destruct (is_nil e)];
    constructor; (set_solver || constructor).
Qed.

Lemma appendTimeDimension_spec d td :
  draft_ok d ->
  match appendTimeDimension d td with
  | Ok d' => draft_ok d' /\ draft_le d d' /\
      match td with
      | Some td => blank (td_Dimension td) = true \/ IsValidTimeGrain (td_Grain td) = true /\
          ToLower (TrimSpace (td_Dimension td)) ∈ map item_key (d_Select d') /\
          ToLower (TrimSpace (td_Dimension td)) ∈ map group_key (d_GroupBy d')
      | None => True
      end
  | Err _ => match td with
             | Some td => blank (td_Dimension td) = false /\ IsValidTimeGrain (td_Grain td) = false
             | None => False
             end
  end.
Proof.
  intros Hd. destruct td as [td|]; simpl; [|by split_and!].
  destruct (blank (td_Dimension td)) eqn:Hb; [by split_and!; [..|left]|].
  pose proof (appendDimension_spec d (td_Dimension td) (td_Grain td) Hd) as H.
  destruct (appendDimension d (td_Dimension td) (td_Grain td)) as [d1|]; simpl.
  - destruct H as ([H1 H2 H3 H4 H5] & Hle & Hf & _ & Hg & Hi & Hgr). split_and!.
    + split; simpl; try done. apply Forall_app. split; [done|]. apply dateRangeFilters_ops.
    + exact Hle.
    + by right.
  - destruct H as [H|H]; [congruence|done].
Qed.

(** A traversal with a pointwise success condition. *)
Lemma res_mapM_total {A B} (f : A -> res B) (P : A -> Prop) (R : A -> B -> Prop) l :
  (forall x, match f x with Ok y => P x /\ R x y | Err _ => ~ P x end) ->
  match res_mapM f l with
  | Ok ys => Forall P l /\ Forall2 R l ys
  | Err _ => ~ Forall P l
  end.
Proof.
  intros H. induction l as [|x l IH]; simpl; [by split; constructor|].
  specialize (H x). destruct (f x) as [y|]; simpl; [|by intros [? _]%Forall_cons].
  destruct H as [Hp Hr]. destruct (res_mapM f l) as [ys|]; simpl.
  - destruct IH. split; by constructor.
  - by intros [_ ?]%Forall_cons.
Qed.

Lemma structured_filter_spec f :
  match structured_filter f with
  | Ok g => (blank (stf_Field f) = false /\
             isValidStructuredOperator (TrimSpace (stf_Operator f)) = true) /\
            g = plain_filter (TrimSpace (stf_Field f)) (TrimSpace (stf_Operator f)) (stf_Value f)
  | Err _ => ~ (blank (stf_Field f) = false /\
                isValidStructuredOperator (TrimSpace (stf_Operator f)) = true)
  end.
Proof.
  unfold structured_filter, blank. cbv zeta. destruct (str_empty (TrimSpace (stf_Field f))); simpl.
  { by intros [? _]. }
  destruct (str_empty (TrimSpace (stf_Operator f))) eqn:Ho; simpl.
  { unfold str_empty in Ho. apply String.eqb_eq in Ho as ->. by intros [_ ?]. }
  destruct (isValidStructuredOperator _); simpl; [done|]. by intros [_ ?].
Qed.

Lemma structured_sort_spec s :
  match structured_sort s with
  | Ok o => (blank (sts_Field s) = false /\
             ToLower (TrimSpace (sts_Direction s)) ∈ [""; OrderAsc; OrderDesc]) /\
            ob_Field o = TrimSpace (sts_Field s) /\ ob_Direction o ∈ [OrderAsc; OrderDesc]
  | Err _ => ~ (blank (sts_Field s) = false /\
                ToLower (TrimSpace (sts_Direction s)) ∈ [""; OrderAsc; OrderDesc])
  end.
Proof.
  unfold structured_sort, blank. cbv zeta. destruct (str_empty (TrimSpace (sts_Field s))); simpl.
  { by intros [? _]. }
  set (dir := ToLower (TrimSpace (sts_Direction s))). unfold str_empty.
  destruct (String.eqb_spec dir "") as [He|He].
  { simpl. rewrite He. split_and!; [done|left|done|left]. }
  destruct (String.eqb_spec dir OrderAsc) as [Ha|Ha]; simpl.
  { rewrite Ha. split_and!; [done|right; left|done|left]. }
  destruct (String.eqb_spec dir OrderDesc) as [Hd|Hd]; simpl.
  { rewrite Hd. split_and!; [done|right; right; left|done|right; left]. }
  rewrite !elem_of_cons, elem_of_nil. tauto.
Qed.

Lemma validateRequired_ok q :
  validateRequired q = Ok tt <->
  blank (q_DatasourceID q) = false /\ blank (q_ModelID q) = false /\
  (q_Measures q <> [] \/ q_Dimensions q <> [] \/ has_time q = true).
Proof.
  unfold validateRequired. destruct (blank (q_DatasourceID q)); [split; [done|by intros [? _]]|].
  destruct (blank (q_ModelID q)); [split; [done|by intros (_ & ? & _)]|].
  destruct (q_Measures q), (q_Dimensions q), (has_time q); naive_solver.
Qed.

(** [ToLogicalQuery] accepts exactly the structured queries whose identifiers,
    names, operators, directions and time grain are in order.  The query it
    builds selects no name twice, groups by no field twice, selects and groups
    by every requested dimension and the time dimension, selects every measure
    (or a dimension of the same name), filters with known operators, sorts by
    asc or desc, has valid time grains, and a positive limit. *)
Theorem ToLogicalQuery_spec (q : StructuredMetricQuery) :
  match ToLogicalQuery q with
  | Err _ => ~ structured_ok q
  | Ok lq =>
      structured_ok q /\
      NoDup (map item_key (Select lq)) /\ NoDup (map group_key (GroupBys lq)) /\
      Forall (fun n => ToLower (TrimSpace n) ∈ map item_key (Select lq) /\
                       ToLower (TrimSpace n) ∈ map group_key (GroupBys lq)) (q_Dimensions q) /\
      (has_time q = true -> exists td, q_TimeDimension q = Some td /\
         ToLower (TrimSpace (td_Dimension td)) ∈ map group_key (GroupBys lq)) /\
      Forall (fun n => ToLower (TrimSpace n) ∈ map item_key (Select lq)) (q_Measures q) /\
      Forall (fun f => isValidStructuredOperator (f_Operator f) = true) (Filters lq) /\
      Forall (fun o => ob_Direction o ∈ [OrderAsc; OrderDesc]) (OrderBys lq) /\
      Forall (fun g => IsValidTimeGrain (gb_TimeGrain g) = true) (GroupBys lq) /\
      0 < Limit lq
  end.
Proof.
  unfold ToLogicalQuery, structured_ok. pose proof (validateRequired_ok q) as Hreq.
  destruct (validateRequired q) as [[]|e]; simpl.
  2: { intros (? & ? & ? & _). assert (Err e = Ok tt) as Hbad by (apply Hreq; auto). discriminate Hbad. }
  destruct (proj1 Hreq eq_refl) as (R1 & R2 & R3). clear Hreq.
  assert (draft_ok (mkDraft [] [] [] ∅)) as H0 by (split; simpl; constructor || done).
  pose proof (appendDimensions_spec (q_Dimensions q) _ H0) as HD.
  destruct (appendDimensions _ (q_Dimensions q)) as [d1|]; simpl; [|tauto].
  destruct HD as (Hok1 & _ & _ & Hdims).
  pose proof (appendTimeDimension_spec d1 (q_TimeDimension q) Hok1) as HT.
  destruct (appendTimeDimension d1 (q_TimeDimension q)) as [d2|]; simpl.
  2: { destruct (q_TimeDimension q); [|done]. intros (_ & _ & _ & _ & [?|?] & _); destruct HT; congruence. }
  destruct HT as (Hok2 & [L1 L2] & Htd).
  pose proof (appendMeasures_spec (q_Measures q) d2 Hok2) as HM.
  destruct (appendMeasures d2 (q_Measures q)) as [d3|]; simpl; [|tauto].
  destruct HM as (Hok3 & [L3 L4] & _ & Hms).
  pose proof (res_mapM_total _ _ _ (q_Filters q) structured_filter_spec) as HF.
  unfold buildStructuredFilters. destruct (res_mapM structured_filter _) as [fs|]; simpl; [|tauto].
  destruct HF as [Hfo Hfs].
  pose proof (res_mapM_total _ _ _ (q_Sort q) structured_sort_spec) as HS.
  unfold buildStructuredSort. destruct (res_mapM structured_sort _) as [os|]; simpl; [|tauto].
  destruct HS as [Hso Hos]. destruct Hok3 as [_ K2 K3 K4 K5].
  split_and!; try done.
  - eapply Forall_impl; [exact Hdims|]. naive_solver.
  - destruct (q_TimeDimension q); [tauto|done].
  - eapply Forall_impl; [exact Hms|]. naive_solver.
  - eapply Forall_impl; [exact Hdims|]. naive_solver.
  - unfold has_time. destruct (q_TimeDimension q) as [td|]; [|done]. intros Hb%negb_true_iff.
    exists td. split; [done|]. destruct Htd as [?|(_ & _ & ?)]; [congruence|auto].
  - eapply Forall_impl; [exact Hms|]. naive_solver.
  - apply Forall_app. split.
    + eapply Forall_impl; [exact K5|]. intros f Hf. rewrite !elem_of_cons, elem_of_nil in Hf.
      destruct Hf as [->|[->|[->|[]]]]; reflexivity.
    + clear -Hfo Hfs. induction Hfs as [|f g l1 l2 -> Hl IH]; [constructor|].
      apply Forall_cons in Hfo as [[_ Hf] Hfo]. constructor; [exact Hf|auto].
  - clear -Hos. induction Hos as [|s o l1 l2 [_ Ho] Hl IH]; constructor; done.
  - destruct (Z.leb_spec (q_Limit q) 0); lia.
Qed.

(** A time dimension that is also listed among the dimensions loses its grain. *)
Example time_grain_lost :
  let q := mkStructured "ds" "m" [] ["created_at"]
             (Some (mkTimeDimension "created_at" "month" None)) [] [] 0 0 in
  match ToLogicalQuery q with
  | Ok lq => GroupBys lq = [mkGroupBy "created_at" ""]
  | Err _ => False
  end.
Proof. vm_compute. reflexivity. Qed.
