(* ===== verification/PhysicalRef.v ===== *)
(** Column references and schemas ([physical_ref.go]), the join type check
    ([join_compat.go]) and the query planner ([planner.go]) of [internal/query].

    [SchemaResolver] is the Go struct; [Resolved] is what a reference denotes:
    the schema, table and column it stands for once overrides and the default
    schema are applied.  The theorems say that rewriting a reference to its
    physical form keeps what it denotes, and that the type check is symmetric
    and blind to case, spacing and length arguments. *)

From S2P Require Import Prelude GoStrings Values Dialect Semantic LogicalQuery.
From stdpp Require Import options.
#[local] Open Scope Z_scope.

(** * physical_ref.go *)

Record ParsedColumnRef : Type := mkPCR {
  p_Schema : string;
  p_Table : string;
  p_Column : string;
}.

Definition TableKey (schema table : string) : string :=
  let schema := TrimSpace schema in
  let table := TrimSpace table in
  if str_empty schema then table else schema +:+ "." +:+ table.

(** The scan of [splitDot], [cur] being [s[start:i]]. *)
Fixpoint splitDot_from (cur s : string) : list string :=
  match s with
  | EmptyString => [cur]
  | String c s' => if Ascii.eqb c "." then cur :: splitDot_from "" s'
                   else splitDot_from (cur +:+ String c "") s'
  end.
Definition splitDot (s : string) : list string := splitDot_from "" s.

Definition ParseColumnRef (ref defaultSchema : string) : option ParsedColumnRef :=
  match splitDot ref with
  | [s; t; c] => Some (mkPCR s t c)
  | [t; c] => Some (mkPCR defaultSchema t c)
  | _ => None
  end.

Record SchemaResolver : Type := mkResolver {
  modelBaseSchema : string;
  defaultSchema : string;
  tableSchemas : gmap string string;
}.

Definition NewSchemaResolver (model : SemanticModel) (lq : LogicalQuery) : SchemaResolver := {|
  modelBaseSchema := model_BaseSchema model;
  defaultSchema := TrimSpace (DefaultSchema lq);
  tableSchemas := omap (fun s => let s := TrimSpace s in if str_empty s then None else Some s)
                    (TableSchemas lq) |}.

Section Resolver.
Context (r : SchemaResolver).

Definition EffectiveDefaultSchema : string :=
  if negb (str_empty (defaultSchema r)) then defaultSchema r else modelBaseSchema r.

(** [s, ok := r.tableSchemas[table]; ok && s != ""] *)
Definition override (table : string) : option string :=
  match tableSchemas r !! table with
  | Some s => if str_empty s then None else Some s
  | None => None
  end.

Definition SchemaForTable (table : string) : string :=
  match override table with Some s => s | None => EffectiveDefaultSchema end.

Definition resolver_ParseColumnRef (ref : string) : option ParsedColumnRef :=
  ParseColumnRef ref EffectiveDefaultSchema.

Definition PhysicalColumnRef (ref : string) : string :=
  match resolver_ParseColumnRef ref with
  | None => ref
  | Some p =>
      let schema := match override (p_Table p) with Some s => s | None => p_Schema p end in
      if negb (String.eqb schema EffectiveDefaultSchema)
      then TableKey schema (p_Table p) +:+ "." +:+ p_Column p
      else p_Table p +:+ "." +:+ p_Column p
  end.

Definition splitQualifiedTableName (table : string) : string * string :=
  match Split "." (TrimSpace table) with
  | [s; n] => (s, n)
  | _ => ("", TrimSpace table)
  end.

Definition QualifyColumn (d : Dialect) (ref : string) : string :=
  QuoteIdent d (PhysicalColumnRef ref).

Definition QualifyTable (d : Dialect) (schema table : string) : string :=
  if str_empty schema then
    let '(s, t) := splitQualifiedTableName table in
    if negb (str_empty s) then QuoteIdent d (TableKey s t)
    else QuoteIdent d (TableKey (SchemaForTable table) (TrimSpace table))
  else QuoteIdent d (TableKey schema table).

Definition JoinSideKey (schema table : string) : string :=
  let '(s, t) := splitQualifiedTableName table in
  if negb (str_empty s) then TableKey s t
  else if str_empty schema then TableKey (SchemaForTable table) table
  else TableKey schema table.
End Resolver.

(** * join_compat.go *)

Definition joinTypeGroupByRawType : list (string * string) := [
  ("smallint", "integer"); ("int2", "integer"); ("integer", "integer"); ("int", "integer");
  ("int4", "integer"); ("bigint", "integer"); ("int8", "integer"); ("serial", "integer");
  ("serial4", "integer"); ("bigserial", "integer"); ("serial8", "integer");
  ("numeric", "decimal"); ("decimal", "decimal"); ("double precision", "decimal");
  ("float", "decimal"); ("float4", "decimal"); ("float8", "decimal"); ("real", "decimal");
  ("money", "decimal");
  ("text", "text"); ("character varying", "text"); ("varchar", "text"); ("character", "text");
  ("char", "text"); ("citext", "text"); ("nvarchar", "text"); ("nchar", "text");
  ("string", "text");
  ("uuid", "uuid"); ("uniqueidentifier", "uuid");
  ("boolean", "boolean"); ("bool", "boolean");
  ("timestamp", "timestamp"); ("timestamp without time zone", "timestamp");
  ("timestamp with time zone", "timestamp"); ("timestamptz", "timestamp");
  ("datetime", "timestamp");
  ("date", "date"); ("json", "json"); ("jsonb", "json")].

Fixpoint str_assoc (k : string) (l : list (string * string)) : string :=
  match l with
  | [] => ""
  | (k', v) :: l' => if String.eqb k k' then v else str_assoc k l'
  end.

(** Removes the first parenthesised text, when it is closed. *)
Definition drop_parens (t : string) : string :=
  match Cut "(" t with
  | Some (before, inside) =>
      match Cut ")" inside with
      | Some (_, after) => before +:+ after
      | None => t
      end
  | None => t
  end.

Definition NormalizeJoinDataType (dataType : string) : string :=
  str_assoc (Join (Fields (drop_parens (ToLower dataType))) " ") joinTypeGroupByRawType.

Definition JoinDataTypesCompatible (left right : string) : bool :=
  let l := NormalizeJoinDataType left in
  let r := NormalizeJoinDataType right in
  if str_empty l || str_empty r then true
  else if String.eqb l r then true
  else (String.eqb l "integer" && String.eqb r "decimal")
    || (String.eqb l "decimal" && String.eqb r "integer")
    || (String.eqb l "date" && String.eqb r "timestamp")
    || (String.eqb l "timestamp" && String.eqb r "date").

Section JoinTypes.
(** [ColumnTypeLookup]: the data type of schema.table.column, when known. *)
Context (typeFor : string -> string -> string -> option string).

Definition or_base (model : SemanticModel) (schema : string) : string :=
  if str_empty schema then model_BaseSchema model else schema.

Definition join_error (j : JoinDef) (fromType toType : string) : ValidationError := {|
  ve_field := "model.joins"; ve_code := "INCOMPATIBLE_JOIN_COLUMN_TYPES";
  ve_message := Sprintf
    "join column types are not compatible: %s.%s (%s) cannot be joined to %s.%s (%s)"
    [join_FromTable j; join_FromColumn j; fromType; join_ToTable j; join_ToColumn j; toType];
  ve_value := join_Name j; ve_allowed := [] |}.

Definition check_join (model : SemanticModel) (j : JoinDef) : list ValidationError :=
  if str_empty (join_FromTable j) || str_empty (join_FromColumn j)
     || str_empty (join_ToTable j) || str_empty (join_ToColumn j) then []
  else
    match typeFor (or_base model (join_FromSchema j)) (join_FromTable j) (join_FromColumn j),
          typeFor (or_base model (join_ToSchema j)) (join_ToTable j) (join_ToColumn j) with
    | Some fromType, Some toType =>
        if JoinDataTypesCompatible fromType toType then [] else [join_error j fromType toType]
    | _, _ => []
    end.

Definition ValidateJoinColumnTypes (model : SemanticModel) : list ValidationError :=
  flat_map (check_join model) (model_Joins model).
End JoinTypes.

(** * planner.go *)

Record TableNode : Type := mkTableNode {
  tn_Name : string; tn_Columns : list string; tn_IsBaseTable : bool }.

Record PlanResult : Type := mkPlan {
  RequiredJoins : list string;
  Warnings : list string;
  TableGraph : list TableNode;
}.

(** [m[name]] after the loop [for _, d := range ds { m[d.Name] = &d }]: the last
    entry of that name. *)
Definition last_named {A} (name_of : A -> string) (l : list A) (name : string) : option A :=
  fold_left (fun acc a => if String.eqb (name_of a) name then Some a else acc) l None.

Definition extractTable (colRef defaultSchema : string) : string :=
  match ParseColumnRef colRef defaultSchema with Some p => p_Table p | None => "" end.

Definition markNonBaseTable (tables : gset string) (table baseTable : string) : gset string :=
  if negb (str_empty table) && negb (String.eqb table baseTable)
  then {[ table ]} ∪ tables else tables.

Section Planner.
Context (model : SemanticModel) (lq : LogicalQuery).

Definition markTableFromDimension (tables : gset string) (field : string) : gset string :=
  match last_named dim_Name (model_Dimensions model) field with
  | Some dim => markNonBaseTable tables (extractTable (dim_ColumnRef dim) (model_BaseSchema model))
                  (model_BaseTable model)
  | None => tables
  end.

Definition mark_item (tables : gset string) (item : SelectItem) : gset string :=
  if String.eqb (s_Type item) SelectTypeDimension then markTableFromDimension tables (s_Name item)
  else if String.eqb (s_Type item) SelectTypeMetric then
    match last_named met_Name (model_Metrics model) (s_Name item) with
    | Some m => markNonBaseTable tables (extractTable (met_Expression m) (model_BaseSchema model))
                  (model_BaseTable model)
    | None => tables
    end
  else tables.

Definition collectRequiredTables : gset string :=
  let tables := {[ model_BaseTable model ]} in
  let tables := fold_left mark_item (Select lq) tables in
  let tables := fold_left (fun t f => markTableFromDimension t (f_Field f)) (Filters lq) tables in
  fold_left (fun t g => markTableFromDimension t (gb_Field g)) (GroupBys lq) tables.

Definition touches (tables : gset string) (j : JoinDef) : bool :=
  bool_decide (join_FromTable j ∈ tables) || bool_decide (join_ToTable j ∈ tables).

Definition requiredJoinNames (tables : gset string) : list string :=
  map join_Name (List.filter (touches tables) (model_Joins model)).

(** The order of the non-base nodes is the map's iteration order; here the set's. *)
Definition buildTableGraph (baseTable : string) (tables : gset string) : list TableNode :=
  mkTableNode baseTable [] true ::
  map (fun t => mkTableNode t [] false)
    (List.filter (fun t => negb (String.eqb t baseTable)) (elements tables)).

Definition count_relationship (rels : list string) (tables : gset string) : Z :=
  Z.of_nat (length (List.filter (fun j => touches tables j && str_in (join_Relationship j) rels)
    (model_Joins model))).

Definition risky_joins (tables : gset string) : list string :=
  map join_Name (List.filter (fun j => touches tables j &&
    str_in (join_Relationship j) [RelationshipManyToMany; RelationshipOneToMany])
    (model_Joins model)).

Definition checkFanout (tables : gset string) : list string :=
  let manyToMany := count_relationship [RelationshipManyToMany] tables in
  let manyToOne := count_relationship [RelationshipManyToOne; RelationshipOneToOne] tables in
  let oneToMany := count_relationship [RelationshipOneToMany] tables in
  let risky := Join (risky_joins tables) ", " in
  (if 0 <? manyToMany then
     ["fanout risk: query involves " +:+ Itoa manyToMany +:+ " many-to-many join(s) [" +:+ risky
      +:+ "] — aggregation results may be inflated"] else []) ++
  (if (0 <? oneToMany) && (manyToMany =? 0) then
     ["fanout risk: query involves " +:+ Itoa oneToMany +:+ " one-to-many join(s) [" +:+ risky
      +:+ "] — verify aggregation accuracy when grouping by base table columns"] else []) ++
  (if 2 <? manyToOne then
     ["multiple many-to-one joins detected - verify aggregation accuracy"] else []).

Definition checkAggregations : list string :=
  match GroupBys lq with
  | [] => if existsb is_metric_item (Select lq)
          then ["metrics selected without GROUP BY - result will be a single aggregated row"]
          else []
  | _ => []
  end.

Definition Plan : PlanResult :=
  let tables := collectRequiredTables in
  {| RequiredJoins := requiredJoinNames tables;
     Warnings := checkFanout tables ++ checkAggregations;
     TableGraph := buildTableGraph (model_BaseTable model) tables |}.
End Planner.

(** * Theorems *)

Lemma splitDot_from_Split cur s :
  has_byte "." cur = false -> splitDot_from cur s = Split "." (cur +:+ s).
Proof.
  revert cur. induction s as [|c s IH]; intros cur Hc; cbn [splitDot_from].
  - by rewrite app_nil_r, Split_single.
  - destruct (Ascii.eqb_spec c ".") as [->|Hne].
    + rewrite Split_app_sep by done. by rewrite IH.
    + rewrite IH.
      * by rewrite app_assoc, app_cons, app_nil_l.
      * rewrite has_byte_app, Hc. simpl. by apply Ascii.eqb_neq in Hne as ->.
Qed.

(** [splitDot] is [strings.Split(s, ".")]. *)
Lemma splitDot_Split s : splitDot s = Split "." s.
Proof. unfold splitDot. by rewrite splitDot_from_Split. Qed.

Lemma Split_dots ps :
  ps <> [] -> Forall (fun p => has_byte "." p = false) ps -> splitDot (Join ps ".") = ps.
Proof. intros. rewrite splitDot_Split. by apply Split_Join. Qed.

(** ** References *)

(** A name that stands for itself: no white space around it, not empty. *)
Definition clean (s : string) : Prop := TrimSpace s = s /\ s <> "".
Definition clean_ref (ref : string) : Prop := Forall clean (splitDot ref).
Definition clean_resolver (r : SchemaResolver) : Prop :=
  forall t s, tableSchemas r !! t = Some s -> clean s /\ has_byte "." s = false.

(** What a reference denotes. *)
Definition resolves (r : SchemaResolver) (ref : string) : option ParsedColumnRef :=
  p ← resolver_ParseColumnRef r ref;
  Some (mkPCR (default (p_Schema p) (override r (p_Table p))) (p_Table p) (p_Column p)).

Lemma ParseColumnRef_parts ref d p :
  ParseColumnRef ref d = Some p -> has_byte "." (p_Table p) = false /\ has_byte "." (p_Column p) = false
    /\ p_Table p ∈ splitDot ref /\ p_Column p ∈ splitDot ref /\
    (p_Schema p = d /\ length (splitDot ref) = 2%nat \/
     p_Schema p ∈ splitDot ref /\ has_byte "." (p_Schema p) = false).
Proof.
  unfold ParseColumnRef. pose proof (Split_no_sep "." ref) as H. rewrite <- splitDot_Split in H.
  destruct (splitDot ref) as [|a [|b [|c [|]]]]; try done; intros [= <-]; simpl;
    repeat (apply Forall_cons in H as [? H]); split_and!; try done; set_solver.
Qed.

Lemma ParseColumnRef_2 d t c :
  has_byte "." t = false -> has_byte "." c = false ->
  ParseColumnRef (t +:+ "." +:+ c) d = Some (mkPCR d t c).
Proof.
  intros Ht Hc. unfold ParseColumnRef. change (t +:+ "." +:+ c) with (Join [t; c] ".").
  rewrite Split_dots; [done|done|]. by repeat constructor.
Qed.
Lemma ParseColumnRef_3 d s t c :
  has_byte "." s = false -> has_byte "." t = false -> has_byte "." c = false ->
  ParseColumnRef (s +:+ "." +:+ t +:+ "." +:+ c) d = Some (mkPCR s t c).
Proof.
  intros Hs Ht Hc. unfold ParseColumnRef.
  change (s +:+ "." +:+ t +:+ "." +:+ c) with (Join [s; t; c] ".").
  rewrite Split_dots; [done|done|]. by repeat constructor.
Qed.

Section ResolverProofs.
Context (r : SchemaResolver) (Hr : clean_resolver r).

Lemma override_clean t s : override r t = Some s -> clean s /\ has_byte "." s = false.
Proof using Hr.
  unfold override. destruct (tableSchemas r !! t) as [s'|] eqn:E; [|done].
  destruct (str_empty s'); [done|]. intros [= <-]. by eapply Hr.
Qed.

Lemma PhysicalColumnRef_resolves ref :
  PhysicalColumnRef r ref =
  match resolves r ref with
  | None => ref
  | Some q => if negb (String.eqb (p_Schema q) (EffectiveDefaultSchema r))
              then TableKey (p_Schema q) (p_Table q) +:+ "." +:+ p_Column q
              else p_Table q +:+ "." +:+ p_Column q
  end.
Proof using.
  unfold PhysicalColumnRef, resolves. destruct (resolver_ParseColumnRef r ref) as [p|]; [|done].
  simpl. by destruct (override r (p_Table p)).
Qed.

Lemma TableKey_clean s t : clean s -> clean t -> TableKey s t = s +:+ "." +:+ t.
Proof.
  intros [Hs1 Hs2] [Ht1 _]. unfold TableKey. cbv zeta. rewrite Hs1, Ht1. unfold str_empty.
  destruct (String.eqb_spec s ""); done.
Qed.

Lemma resolves_parts ref q :
  clean_ref ref -> resolves r ref = Some q ->
  clean (p_Table q) /\ has_byte "." (p_Table q) = false /\ has_byte "." (p_Column q) = false /\
  override r (p_Table q) = (if decide (override r (p_Table q) = None) then None else Some (p_Schema q)) /\
  (p_Schema q = EffectiveDefaultSchema r \/ clean (p_Schema q) /\ has_byte "." (p_Schema q) = false).
Proof using Hr.
  unfold resolves, resolver_ParseColumnRef. intros Hc.
  destruct (ParseColumnRef ref _) as [p|] eqn:E; [|done]. intros [= <-]. simpl.
  apply ParseColumnRef_parts in E as (Ht & Hco & Hti & _ & Hs).
  unfold clean_ref in Hc. rewrite Forall_forall in Hc. split_and!; [by apply Hc|done|done| |].
  - destruct (override r (p_Table p)); simpl; try case_decide; done.
  - destruct (override r (p_Table p)) as [s|] eqn:E; simpl.
    + right. by eapply override_clean.
    + destruct Hs as [[-> _]|[Hs ?]]; [by left|]. right. split; [by apply Hc|done].
Qed.

(** A rewritten reference denotes what it denoted. *)
Lemma PhysicalColumnRef_denotes ref :
  clean_ref ref -> resolves r (PhysicalColumnRef r ref) = resolves r ref.
Proof using Hr.
  intros Hc. rewrite PhysicalColumnRef_resolves. destruct (resolves r ref) as [q|] eqn:E; [|done].
  destruct (resolves_parts ref q Hc E) as (Ht & Htd & Hcd & Ho & Hs).
  destruct (String.eqb_spec (p_Schema q) (EffectiveDefaultSchema r)) as [He|Hne]; simpl.
  - unfold resolves, resolver_ParseColumnRef. rewrite ParseColumnRef_2 by done. simpl.
    destruct q as [s t c]. simpl in *. f_equal. rewrite Ho. case_decide; simpl; congruence.
  - destruct Hs as [Hs|[Hs Hsd]]; [done|]. rewrite TableKey_clean by done.
    unfold resolves, resolver_ParseColumnRef. rewrite !app_assoc, ParseColumnRef_3 by done. simpl.
    destruct q as [s t c]. simpl in *. f_equal. rewrite Ho. case_decide; simpl; congruence.
Qed.
End ResolverProofs.

(** the physical reference is a canonical name: for well-formed references to
    a table column, with well-formed schema overrides, two references have the
    same physical form exactly when they denote the same schema, table and
    column; and the physical form of a physical form is itself. *)
Theorem PhysicalColumnRef_canonical (r : SchemaResolver) (a b : string) :
  clean_resolver r -> clean_ref a -> clean_ref b ->
  resolves r a <> None -> resolves r b <> None ->
  (PhysicalColumnRef r a = PhysicalColumnRef r b <-> resolves r a = resolves r b) /\
  PhysicalColumnRef r (PhysicalColumnRef r a) = PhysicalColumnRef r a.
Proof.
  intros Hr Ha Hb Hra Hrb. split; [split|].
  - intros H. rewrite <- (PhysicalColumnRef_denotes r Hr a), <- (PhysicalColumnRef_denotes r Hr b) by done.
    by rewrite H.
  - intros H. rewrite !PhysicalColumnRef_resolves, H. by destruct (resolves r b).
  - rewrite (PhysicalColumnRef_resolves r (PhysicalColumnRef r a)).
    rewrite PhysicalColumnRef_denotes by done.
    rewrite (PhysicalColumnRef_resolves r a). by destruct (resolves r a).
Qed.

Definition example_resolver : SchemaResolver :=
  mkResolver "public" "" {[ "orders" := "sales" ]}.

Lemma PhysicalColumnRef_canonical_witness :
  (PhysicalColumnRef example_resolver "orders.total"
     = PhysicalColumnRef example_resolver "sales.orders.total" <->
   resolves example_resolver "orders.total" = resolves example_resolver "sales.orders.total") /\
  PhysicalColumnRef example_resolver (PhysicalColumnRef example_resolver "orders.total")
    = PhysicalColumnRef example_resolver "orders.total".
Proof.
  apply PhysicalColumnRef_canonical.
  - intros t s H. cbn in H. apply lookup_singleton_Some in H as [_ <-].
    split; [split; [reflexivity|discriminate]|reflexivity].
  - repeat constructor; discriminate.
  - repeat constructor; discriminate.
  - vm_compute. discriminate.
  - vm_compute. discriminate.
Defined.

(** ** Join column types *)

Lemma Cut_none c s : has_byte c s = false -> Cut c s = None.
Proof.
  induction s as [|d s IH]; simpl; [done|]. intros [Hd Hs]%orb_false_iff.
  by rewrite Hd, IH.
Qed.
Lemma Cut_app c a b : has_byte c a = false -> Cut c (a +:+ String c b) = Some (a, b).
Proof.
  induction a as [|d a IH]; intros Ha.
  - rewrite app_nil_l. simpl. by rewrite Ascii.eqb_refl.
  - simpl in Ha. apply orb_false_iff in Ha as [Hd Ha]. rewrite app_cons. simpl.
    by rewrite Hd, IH.
Qed.

Lemma has_byte_lower c s :
  lower c = c -> (forall d, lower d = c -> d = c) -> has_byte c (ToLower s) = has_byte c s.
Proof.
  intros H1 H2. induction s as [|d s IH]; simpl; [done|]. unfold ToLower in IH. rewrite IH.
  f_equal. destruct (Ascii.eqb_spec d c) as [->|Hne].
  - rewrite H1. apply Ascii.eqb_refl.
  - apply Ascii.eqb_neq. intros Hl. apply Hne. by apply H2.
Qed.
Lemma lower_punct c d :
  negb (is_alpha c) = true -> lower d = c -> d = c.
Proof.
  intros Hc Hd. assert (implb (negb (is_alpha (lower d))) (Ascii.eqb d (lower d)) = true) as H.
  { clear. revert d. by apply ascii_forallb. }
  subst c. rewrite Hc in H. by apply Ascii.eqb_eq.
Qed.

Lemma drop_parens_args t args :
  has_byte "(" t = false -> has_byte ")" args = false ->
  drop_parens (t +:+ "(" +:+ args +:+ ")") = t.
Proof.
  intros Ht Ha. unfold drop_parens. rewrite app_cons, app_nil_l, Cut_app by done.
  rewrite Cut_app by done. by rewrite app_nil_r.
Qed.

(** the join check does not depend on the spelling of a type: upper or lower
    case, and a length or precision argument, leave its group unchanged, and
    compatibility of two columns does not depend on their order.  It holds of
    every type with itself. *)
Theorem NormalizeJoinDataType_spelling (t u args : string) :
  NormalizeJoinDataType (ToUpper t) = NormalizeJoinDataType t /\
  (has_byte "(" t = false -> has_byte ")" args = false ->
     NormalizeJoinDataType (t +:+ "(" +:+ args +:+ ")") = NormalizeJoinDataType t) /\
  JoinDataTypesCompatible t u = JoinDataTypesCompatible u t /\
  JoinDataTypesCompatible t t = true.
Proof.
  split_and!.
  - unfold NormalizeJoinDataType. by rewrite ToLower_ToUpper.
  - intros Ht Ha. unfold NormalizeJoinDataType, ToLower. rewrite !str_map_app.
    change (str_map lower "(") with "(". change (str_map lower ")") with ")".
    change (str_map lower) with ToLower. rewrite drop_parens_args.
    + f_equal. unfold drop_parens. rewrite Cut_none; [done|].
      rewrite has_byte_lower; [done|done|]. intros d. by apply lower_punct.
    + rewrite has_byte_lower; [done|done|]. intros d. by apply lower_punct.
    + rewrite has_byte_lower; [done|done|]. intros d. by apply lower_punct.
  - unfold JoinDataTypesCompatible. cbv zeta. set (l := NormalizeJoinDataType t).
    set (r := NormalizeJoinDataType u). rewrite (orb_comm (str_empty l)), (String.eqb_sym l r).
    destruct (str_empty r || str_empty l); [done|]. destruct (String.eqb r l); [done|].
    destruct (String.eqb l "integer"), (String.eqb r "integer"), (String.eqb l "decimal"),
      (String.eqb r "decimal"), (String.eqb l "date"), (String.eqb r "date"),
      (String.eqb l "timestamp"), (String.eqb r "timestamp"); reflexivity.
  - unfold JoinDataTypesCompatible. cbv zeta. rewrite String.eqb_refl.
    by destruct (str_empty _ || str_empty _).
Qed.

Lemma NormalizeJoinDataType_spelling_witness :
  NormalizeJoinDataType ("numeric" +:+ "(" +:+ "10,2" +:+ ")") = "decimal".
Proof.
  destruct (NormalizeJoinDataType_spelling "numeric" "int" "10,2") as (_ & H & _).
  rewrite H; reflexivity.
Defined.

(** ** The plan *)

(** The tables a query touches: the base table, and the table of every dimension
    it selects, filters on or groups by and of every metric it selects. *)
Definition touched_table (model : SemanticModel) (lq : LogicalQuery) (t : string) : Prop :=
  let dim_table n := exists d, last_named dim_Name (model_Dimensions model) n = Some d /\
                               extractTable (dim_ColumnRef d) (model_BaseSchema model) = t in
  t = model_BaseTable model \/
  t <> "" /\
  ((exists i, i ∈ Select lq /\ s_Type i = SelectTypeDimension /\ dim_table (s_Name i)) \/
   (exists i m, i ∈ Select lq /\ s_Type i = SelectTypeMetric /\
      last_named met_Name (model_Metrics model) (s_Name i) = Some m /\
      extractTable (met_Expression m) (model_BaseSchema model) = t) \/
   (exists f, f ∈ Filters lq /\ dim_table (f_Field f)) \/
   (exists g, g ∈ GroupBys lq /\ dim_table (gb_Field g))).

Lemma markNonBaseTable_elem tables t b x :
  b ∈ tables ->
  x ∈ markNonBaseTable tables t b <-> x ∈ tables \/ (x = t /\ t <> "").
Proof.
  intros Hb. unfold markNonBaseTable, str_empty.
  destruct (String.eqb_spec t ""), (String.eqb_spec t b); simpl; set_solver.
Qed.

(** A loop that adds at most one element per item. *)
Lemma fold_mark_elem {A} (mark : gset string -> A -> gset string) (P : A -> string -> Prop) b l tables x :
  (forall s a y, b ∈ s -> y ∈ mark s a <-> y ∈ s \/ P a y) ->
  b ∈ tables -> x ∈ fold_left mark l tables <-> x ∈ tables \/ exists a, a ∈ l /\ P a x.
Proof.
  intros Hm. revert tables. induction l as [|a l IH]; intros tables Hb; simpl; [set_solver|].
  rewrite IH by (apply Hm; auto). rewrite Hm by done. set_solver.
Qed.

Section PlanProofs.
Context (model : SemanticModel) (lq : LogicalQuery).

Definition dim_table (n t : string) : Prop :=
  t <> "" /\ exists d, last_named dim_Name (model_Dimensions model) n = Some d /\
                  extractTable (dim_ColumnRef d) (model_BaseSchema model) = t.

Lemma markTableFromDimension_elem s n x :
  model_BaseTable model ∈ s ->
  x ∈ markTableFromDimension model s n <-> x ∈ s \/ dim_table n x.
Proof.
  intros Hb. unfold markTableFromDimension, dim_table.
  destruct (last_named _ _ n) as [d|] eqn:E.
  - rewrite markNonBaseTable_elem by done. split.
    + intros [?|[-> ?]]; [by left|right; eauto].
    + intros [?|(? & d' & [= <-] & <-)]; auto.
  - split; [by left|]. intros [?|(_ & d' & [=] & _)]. done.
Qed.

Definition item_table (i : SelectItem) (x : string) : Prop :=
  (s_Type i = SelectTypeDimension /\ dim_table (s_Name i) x) \/
  (s_Type i = SelectTypeMetric /\ x <> "" /\ exists m,
     last_named met_Name (model_Metrics model) (s_Name i) = Some m /\
     extractTable (met_Expression m) (model_BaseSchema model) = x).

Lemma mark_item_elem s i x :
  model_BaseTable model ∈ s ->
  x ∈ mark_item model s i <-> x ∈ s \/ item_table i x.
Proof.
  intros Hb. unfold mark_item, item_table.
  destruct (String.eqb_spec (s_Type i) SelectTypeDimension) as [Hd|Hd].
  { rewrite markTableFromDimension_elem by done. rewrite Hd. split; [tauto|].
    intros [?|[[_ ?]|[? _]]]; [tauto|tauto|discriminate]. }
  destruct (String.eqb_spec (s_Type i) SelectTypeMetric) as [Hm|Hm]; [|naive_solver].
  destruct (last_named _ _ (s_Name i)) as [m|] eqn:E.
  - rewrite markNonBaseTable_elem by done. split.
    + intros [?|[-> ?]]; [by left|right; right; eauto].
    + intros [?|[[? _]|(_ & ? & m' & [= <-] & <-)]]; [tauto|done|tauto].
  - split; [by left|]. intros [?|[[? _]|(_ & _ & m' & [=] & _)]]; done.
Qed.

Lemma collectRequiredTables_elem t :
  t ∈ collectRequiredTables model lq <-> touched_table model lq t.
Proof.
  unfold collectRequiredTables. set (T0 := {[model_BaseTable model]}).
  set (T1 := fold_left (mark_item model) (Select lq) T0).
  set (T2 := fold_left _ (Filters lq) T1).
  assert (forall x, x ∈ T1 <-> x ∈ T0 \/ exists i, i ∈ Select lq /\ item_table i x) as H1.
  { intros x. apply (fold_mark_elem _ _ (model_BaseTable model)); [|set_solver].
    intros. by apply mark_item_elem. }
  assert (model_BaseTable model ∈ T1) as Hb1 by (apply H1; set_solver).
  assert (forall x, x ∈ T2 <-> x ∈ T1 \/ exists f, f ∈ Filters lq /\ dim_table (f_Field f) x) as H2.
  { intros x. apply (fold_mark_elem _ (fun f => dim_table (f_Field f)) (model_BaseTable model)); [|done].
    intros. by apply markTableFromDimension_elem. }
  assert (model_BaseTable model ∈ T2) as Hb2 by (apply H2; set_solver).
  rewrite (fold_mark_elem _ (fun g => dim_table (gb_Field g)) (model_BaseTable model));
    [|intros; by apply markTableFromDimension_elem|done].
  rewrite H2, H1. unfold T0. rewrite elem_of_singleton.
  unfold touched_table, item_table, dim_table. naive_solver.
Qed.

(** the plan requires exactly the joins that touch, on either side, the base
    table or the table of a field the query uses; its table graph has exactly
    those tables, each once, the base table first and marked; and it warns of
    an ungrouped aggregate exactly when a metric is selected without GROUP BY. *)
Theorem Plan_spec :
  (forall n, n ∈ RequiredJoins (Plan model lq) <->
     exists j, j ∈ model_Joins model /\ join_Name j = n /\
       (touched_table model lq (join_FromTable j) \/ touched_table model lq (join_ToTable j))) /\
  (exists others, TableGraph (Plan model lq)
       = mkTableNode (model_BaseTable model) [] true :: map (fun t => mkTableNode t [] false) others /\
     NoDup (model_BaseTable model :: others) /\
     (forall t, t ∈ model_BaseTable model :: others <-> touched_table model lq t)) /\
  ("metrics selected without GROUP BY - result will be a single aggregated row"
     ∈ checkAggregations lq <->
   GroupBys lq = [] /\ exists i, i ∈ Select lq /\ s_Type i = SelectTypeMetric).
Proof.
  split_and!.
  - intros n. unfold Plan, requiredJoinNames. cbn [RequiredJoins].
    rewrite list_elem_of_fmap. setoid_rewrite list_elem_of_In. setoid_rewrite filter_In.
    setoid_rewrite <- list_elem_of_In. unfold touches. setoid_rewrite orb_true_iff.
    setoid_rewrite bool_decide_eq_true. setoid_rewrite collectRequiredTables_elem. naive_solver.
  - exists (List.filter (fun t => negb (String.eqb t (model_BaseTable model)))
              (elements (collectRequiredTables model lq))).
    assert (forall t, t ∈ List.filter (fun t => negb (String.eqb t (model_BaseTable model)))
              (elements (collectRequiredTables model lq)) <->
            touched_table model lq t /\ t <> model_BaseTable model) as Hin.
    { intros t. rewrite list_elem_of_In, filter_In, <- list_elem_of_In, elem_of_elements,
        collectRequiredTables_elem, negb_true_iff, String.eqb_neq. done. }
    split_and!; [done| |].
    + apply NoDup_cons. split; [rewrite Hin; by intros [_ ?]|].
      apply NoDup_ListNoDup, List.NoDup_filter, NoDup_ListNoDup, NoDup_elements.
    + intros t. rewrite elem_of_cons, Hin. split; [|destruct (decide (t = model_BaseTable model)); tauto].
      intros [->|[? _]]; [by left|done].
  - unfold checkAggregations. destruct (GroupBys lq); [|set_solver].
    assert (existsb is_metric_item (Select lq) = true <->
            exists i, i ∈ Select lq /\ s_Type i = SelectTypeMetric) as He.
    { rewrite existsb_In. unfold is_metric_item. by setoid_rewrite String.eqb_eq. }
    destruct (existsb is_metric_item (Select lq)); [|].
    + split; [|intros _; left]. intros _. split; [done|]. by apply He.
    + split; [by intros ?%not_elem_of_nil|]. intros [_ ?%He]. done.
Qed.
End PlanProofs.
