(* ===== verification/ExprParse.v ===== *)
(** The calculated-expression parser of [internal/query/expression_parse.go].

    The lexer's state ([input], [pos]) is the text from [pos] on, together with
    the length of the whole input from which positions in error messages are
    computed; the parser's state is the list of tokens not yet consumed.  The
    mutual recursion of the parse methods goes back through [parseOr] only:
    each method is defined over a [rec] that stands for [parseOr], and
    [parseOr] itself ties the knot with fuel.  The loops take as fuel the number
    of tokens lhs.  [parse_total] shows that no fuel ever runs out. *)

From S2P Require Import Prelude GoStrings Values Semantic.
From stdpp Require Import options.
#[local] Open Scope nat_scope.

(** * Tokens and lexer *)

Inductive TokenType : Type :=
| TokenEOF | TokenError | TokenIdentifier | TokenNumber | TokenString | TokenOperator
| TokenParenOpen | TokenParenClose | TokenComma | TokenKeyword.

#[global] Instance TokenType_eq_dec : EqDecision TokenType.
Proof. solve_decision. Defined.

Record Token : Type := mkToken { tok_Type : TokenType; tok_Value : string }.

#[global] Instance Token_eq_dec : EqDecision Token.
Proof. solve_decision. Defined.

Definition is_lex_space (c : ascii) : bool :=
  (code c =? 32) || (code c =? 9) || (code c =? 10) || (code c =? 13).

Definition skipWhitespace (s : string) : string := trim_left is_lex_space s.

(** [peekNext] compared to a byte. *)
Definition second_is (c : ascii) (s : string) : bool :=
  match s with String _ (String d _) => Ascii.eqb d c | _ => false end.

Definition is_number_char (c : ascii) : bool := is_digit c || Ascii.eqb c ".".

(** The loop of [readString] after the opening quote: the bytes read, closing
    quote included, and the rest. *)
Fixpoint read_string_body (quote : ascii) (s : string) : option (string * string) :=
  match s with
  | EmptyString => None
  | String c s' =>
      if Ascii.eqb c quote then
        match s' with
        | String d s'' =>
            if Ascii.eqb quote "'" && Ascii.eqb d "'" then
              match read_string_body quote s'' with
              | Some (v, r) => Some (String c (String d v), r)
              | None => None
              end
            else Some (String c "", s')
        | EmptyString => Some (String c "", "")
        end
      else match read_string_body quote s' with
           | Some (v, r) => Some (String c v, r)
           | None => None
           end
  end.

(** The loop of [readBracketedIdentifier]. *)
Fixpoint read_bracket_body (s : string) : option (string * string) :=
  match s with
  | EmptyString => None
  | String c s' =>
      if Ascii.eqb c "]" then Some (String c "", s')
      else match read_bracket_body s' with
           | Some (v, r) => Some (String c v, r)
           | None => None
           end
  end.

Definition isOperatorChar (c : ascii) : bool := has_byte c "+-*/%=!<>|".

Definition readOperator (s : string) : Token * string :=
  match s with
  | String c (String d r as s') =>
      if (Ascii.eqb c "!" && Ascii.eqb d "=") || (Ascii.eqb c "<" && Ascii.eqb d ">")
         || (Ascii.eqb c "<" && Ascii.eqb d "=") || (Ascii.eqb c ">" && Ascii.eqb d "=")
         || (Ascii.eqb c "|" && Ascii.eqb d "|")
      then (mkToken TokenOperator (String c (String d "")), r)
      else (mkToken TokenOperator (String c ""), s')
  | _ => (mkToken TokenOperator s, "")
  end.

Definition isIdentifierStartChar (c : ascii) : bool := is_lower c || is_upper c || Ascii.eqb c "_".
Definition isIdentifierChar (c : ascii) : bool :=
  isIdentifierStartChar c || is_digit c || Ascii.eqb c ".".

Definition bannedKeywords : list string :=
  ["SELECT"; "INSERT"; "UPDATE"; "DELETE"; "DROP"; "ALTER"; "TRUNCATE"; "CREATE"; "GRANT";
   "REVOKE"; "MERGE"; "CALL"; "EXEC"; "EXECUTE"].
Definition allowedKeywords : list string :=
  ["CASE"; "WHEN"; "THEN"; "ELSE"; "END"; "AND"; "OR"; "NOT"; "IS"; "NULL"; "IN"; "LIKE";
   "ILIKE"; "BETWEEN"].

Definition readIdentifierOrKeyword (s : string) : res (Token * string) :=
  let '(val, r) := span isIdentifierChar s in
  let upperVal := ToUpper val in
  if str_in upperVal bannedKeywords then
    Err (EMsg ("DML/DDL keyword " +:+ Quote val +:+ " is not allowed"))
  else if str_in upperVal allowedKeywords then Ok (mkToken TokenKeyword upperVal, r)
  else Ok (mkToken TokenIdentifier val, r).

Section Lexer.
(** The length of the whole input. *)
Context (total : nat).

Definition position (s : string) : string := Itoa (Z.of_nat (total - String.length s)).

Definition readString (quote : ascii) (s : string) : res (Token * string) :=
  match s with
  | String c s' =>
      match read_string_body quote s' with
      | Some (v, r) => Ok (mkToken TokenString (String c v), r)
      | None => Err (EMsg ("unterminated string literal starting at position " +:+ position s))
      end
  | EmptyString => Err (EMsg ("unterminated string literal starting at position " +:+ position s))
  end.

Definition readBracketedIdentifier (s : string) : res (Token * string) :=
  match s with
  | String c s' =>
      match read_bracket_body s' with
      | Some (v, r) => Ok (mkToken TokenIdentifier (String c v), r)
      | None => Err (EMsg ("unterminated bracketed identifier starting at position " +:+ position s))
      end
  | EmptyString =>
      Err (EMsg ("unterminated bracketed identifier starting at position " +:+ position s))
  end.

Definition NextToken (s0 : string) : res (Token * string) :=
  let s := skipWhitespace s0 in
  match s with
  | EmptyString => Ok (mkToken TokenEOF "", "")
  | String ch s' =>
      if Ascii.eqb ch ";" then Err (EMsg "semicolons are not allowed")
      else if Ascii.eqb ch "-" && second_is "-" s then Err (EMsg "comments are not allowed")
      else if Ascii.eqb ch "/" && second_is "*" s then Err (EMsg "comments are not allowed")
      else if Ascii.eqb ch "(" then Ok (mkToken TokenParenOpen "(", s')
      else if Ascii.eqb ch ")" then Ok (mkToken TokenParenClose ")", s')
      else if Ascii.eqb ch "," then Ok (mkToken TokenComma ",", s')
      else if is_digit ch then
        let '(v, r) := span is_number_char s in Ok (mkToken TokenNumber v, r)
      else if Ascii.eqb ch "'" then readString "'" s
      else if code ch =? 34 then readString ch s
      else if Ascii.eqb ch "[" then readBracketedIdentifier s
      else if isOperatorChar ch then Ok (readOperator s)
      else if isIdentifierStartChar ch then readIdentifierOrKeyword s
      else Err (EMsg ("unexpected character: " +:+ QuoteRune ch))
  end.

(** The loop of [ParseExpression] that collects the tokens. *)
Fixpoint lex_all (fuel : nat) (s : string) : res (list Token) :=
  match fuel with
  | 0 => Err EFuel
  | S fuel =>
      let? (tok, r) := NextToken s in
      if decide (tok_Type tok = TokenEOF) then Ok []
      else let? toks := lex_all fuel r in Ok (tok :: toks)
  end.
End Lexer.

(** * Parser *)

Definition eof : Token := mkToken TokenEOF "".
Definition current (p : list Token) : Token := match p with [] => eof | t :: _ => t end.
Definition next (p : list Token) : list Token := tail p.

(** [match]: the tokens after the current one, when it has the type. *)
Definition match_type (t : TokenType) (p : list Token) : option (list Token) :=
  if decide (tok_Type (current p) = t) then Some (next p) else None.

Definition is_keyword (kw : string) (t : Token) : bool :=
  bool_decide (tok_Type t = TokenKeyword) && String.eqb (tok_Value t) kw.
Definition matchKeyword (kw : string) (p : list Token) : option (list Token) :=
  if is_keyword kw (current p) then Some (next p) else None.

Definition binaryOpFromToken (op : string) : string :=
  let u := ToUpper op in
  if String.eqb u "+" then OpAdd
  else if String.eqb u "-" then OpSubtract
  else if String.eqb u "*" then OpMultiply
  else if String.eqb u "/" then OpDivide
  else if String.eqb u "%" then OpModulo
  else if String.eqb u "=" then OpEq
  else if String.eqb u "!=" || String.eqb u "<>" then OpNeq
  else if String.eqb u "<" then OpLt
  else if String.eqb u "<=" then OpLte
  else if String.eqb u ">" then OpGt
  else if String.eqb u ">=" then OpGte
  else if String.eqb u "||" then OpConcat
  else if String.eqb u "AND" then OpAnd
  else if String.eqb u "OR" then OpOr
  else ToLower (ReplaceByte " " "_" op).

Definition unaryOpFromToken (op : string) : string :=
  let u := ToUpper op in
  if String.eqb u "NOT" then OpNot
  else if String.eqb u "-" then OpNegate
  else ToLower (ReplaceByte " " "_" op).

(** [strings.ReplaceAll(value, "''", "'")] *)
Fixpoint undouble (s : string) : string :=
  match s with
  | String a s' =>
      match s' with
      | String b s'' => if Ascii.eqb a "'" && Ascii.eqb b "'" then String a (undouble s'')
                        else String a (undouble s')
      | EmptyString => s
      end
  | EmptyString => s
  end.

(** The last byte and what precedes it. *)
Fixpoint unsnoc (s : string) : option (string * ascii) :=
  match s with
  | EmptyString => None
  | String c s' => match unsnoc s' with
                   | Some (p, l) => Some (String c p, l)
                   | None => Some ("", c)
                   end
  end.

Definition parseStringLiteral (value : string) : string :=
  undouble
    match value with
    | String q inner =>
        match unsnoc inner with
        | Some (body, l) =>
            if (Ascii.eqb q "'" || (code q =? 34)) && Ascii.eqb l q then body else value
        | None => value
        end
    | EmptyString => value
    end.

Definition identifierExpr (name : string) : ExprNode :=
  if HasPrefix name "[" && HasSuffix name "]" then
    MetricRefExpr (TrimSuffix (TrimPrefix name "[") "]")
  else match Cut "." name with
       | Some (table, column) => ColumnRefExpr table column
       | None => ColumnRefExpr "" name
       end.

Section Parser.
Context `{GoRuntime}.

Definition parseNumberLiteral (value : string) : res gval :=
  if has_byte "." value then
    match ParseFloat value with
    | inr (m, e) => Ok (VFloat64 m e)
    | inl msg => Err (EWrap ("parse numeric literal " +:+ Quote value) (EMsg msg))
    end
  else
    match ParseInt value with
    | Some n => Ok (VInt64 n)
    | None => Err (EWrap ("parse integer literal " +:+ Quote value)
        (EMsg ("strconv.ParseInt: parsing " +:+ Quote value +:+ ": value out of range")))
    end.

Definition parser : Type := list Token -> res (ExprNode * list Token).

(** [parseLeftAssociative]: the loop, [lhs] being what is parsed so far. *)
Fixpoint left_assoc_loop (operand : parser) (is_op : Token -> bool) (fuel : nat)
    (lhs : ExprNode) (p : list Token) : res (ExprNode * list Token) :=
  if is_op (current p) then
    match fuel with
    | 0 => Err EFuel
    | S fuel =>
        let? (rhs, p') := operand (next p) in
        left_assoc_loop operand is_op fuel
          (BinaryExpr (binaryOpFromToken (tok_Value (current p))) lhs rhs) p'
    end
  else Ok (lhs, p).
Definition left_assoc (operand : parser) (is_op : Token -> bool) : parser := fun p =>
  let? (lhs, p') := operand p in left_assoc_loop operand is_op (length p') lhs p'.

Definition is_operator_in (ops : list string) (t : Token) : bool :=
  bool_decide (tok_Type t = TokenOperator) && str_in (tok_Value t) ops.

Section Rec.
(** [parseOr], for the methods that call it on what is nested. *)
Context (rec : parser).

(** The comma-separated expressions of a call or an IN list. *)
Fixpoint expr_list (fuel : nat) (p : list Token) : res (list ExprNode * list Token) :=
  let? (item, p') := rec p in
  match match_type TokenComma p' with
  | Some p'' =>
      match fuel with
      | 0 => Err EFuel
      | S fuel => let? (items, r) := expr_list fuel p'' in Ok (item :: items, r)
      end
  | None => Ok ([item], p')
  end.

Definition parse_list (p : list Token) : res (list ExprNode * list Token) :=
  if decide (tok_Type (current p) = TokenParenClose) then Ok ([], p) else expr_list (length p) p.

Definition parseCallArgs (name : string) (p : list Token) : res (list ExprNode * list Token) :=
  let? (args, p') := parse_list p in
  match match_type TokenParenClose p' with
  | Some p'' => Ok (args, p'')
  | None => Err (EMsg ("expected closing parenthesis in function call " +:+ name))
  end.

Definition parseIdentifierPrimary (name : string) (p : list Token) : res (ExprNode * list Token) :=
  let p := next p in
  match match_type TokenParenOpen p with
  | None => Ok (identifierExpr name, p)
  | Some p' => let? (args, r) := parseCallArgs name p' in Ok (FunctionCallExpr (ToUpper name) args, r)
  end.

Definition parseParenthesizedPrimary (p : list Token) : res (ExprNode * list Token) :=
  let? (e, p') := rec p in
  match match_type TokenParenClose p' with
  | Some r => Ok (e, r)
  | None => Err (EMsg "expected closing parenthesis")
  end.

Fixpoint case_when_loop (fuel : nat) (p : list Token) : res (list (ExprNode * ExprNode) * list Token) :=
  match matchKeyword "WHEN" p with
  | None => Ok ([], p)
  | Some p =>
      match fuel with
      | 0 => Err EFuel
      | S fuel =>
          let? (whenExpr, p) := rec p in
          match matchKeyword "THEN" p with
          | None => Err (EMsg "expected 'THEN' in CASE expression")
          | Some p =>
              let? (thenExpr, p) := rec p in
              let? (conds, r) := case_when_loop fuel p in
              Ok ((whenExpr, thenExpr) :: conds, r)
          end
      end
  end.

Definition parseCaseWhenClauses (p : list Token) : res (list (ExprNode * ExprNode) * list Token) :=
  let? (conds, r) := case_when_loop (length p) p in
  match conds with
  | [] => Err (EMsg "CASE expression must have at least one WHEN condition")
  | _ => Ok (conds, r)
  end.

Definition parseCasePrimary (p : list Token) : res (ExprNode * list Token) :=
  let? (conds, p) := parseCaseWhenClauses p in
  let? (elseExpr, p) := match matchKeyword "ELSE" p with
                         | Some p => rec p
                         | None => Ok (NilExpr, p)
                         end in
  match matchKeyword "END" p with
  | Some r => Ok (CaseExpr conds elseExpr, r)
  | None => Err (EMsg "expected 'END' at the end of CASE expression")
  end.

Definition parsePrimary : parser := fun p =>
  let tok := current p in
  match tok_Type tok with
  | TokenNumber => let? v := parseNumberLiteral (tok_Value tok) in Ok (LiteralExpr v, next p)
  | TokenString => Ok (LiteralExpr (VStr (parseStringLiteral (tok_Value tok))), next p)
  | TokenIdentifier => parseIdentifierPrimary (tok_Value tok) p
  | TokenParenOpen => parseParenthesizedPrimary (next p)
  | _ =>
      match matchKeyword "CASE" p with
      | Some p => parseCasePrimary p
      | None => Err (EMsg ("unexpected token: " +:+ Quote (tok_Value tok)))
      end
  end.

Definition parseFactor : parser := left_assoc parsePrimary (is_operator_in ["*"; "/"; "%"]).
Definition parseArithmetic : parser := left_assoc parseFactor (is_operator_in ["+"; "-"; "||"]).

Definition parseInComparison (lhs : ExprNode) (p : list Token) : res (ExprNode * list Token) :=
  match match_type TokenParenOpen (next p) with
  | None => Err (EMsg "expected '(' after IN")
  | Some p =>
      let? (items, p) := parse_list p in
      match match_type TokenParenClose p with
      | None => Err (EMsg "expected ')' after IN list")
      | Some r => Ok (BinaryExpr "in" lhs (FunctionCallExpr "IN_LIST" items), r)
      end
  end.

Definition parseIsComparison (lhs : ExprNode) (p : list Token) : res (ExprNode * list Token) :=
  let p := next p in
  let '(op, p) := match matchKeyword "NOT" p with
                  | Some p => ("IS NOT NULL", p)
                  | None => ("IS NULL", p)
                  end in
  match matchKeyword "NULL" p with
  | Some r => Ok (UnaryExpr (unaryOpFromToken op) lhs, r)
  | None => Err (EMsg "expected 'NULL' after 'IS' / 'IS NOT'")
  end.

Definition parseBetweenComparison (lhs : ExprNode) (p : list Token) : res (ExprNode * list Token) :=
  let? (start, p) := parseArithmetic (next p) in
  match matchKeyword "AND" p with
  | None => Err (EMsg "expected 'AND' in BETWEEN expression")
  | Some p =>
      let? (end_, r) := parseArithmetic p in
      Ok (BinaryExpr "between" lhs (BinaryExpr OpAnd start end_), r)
  end.

(** [None]: the keyword is not a comparison. *)
Definition parseKeywordComparison (lhs : ExprNode) (keyword : string) (p : list Token)
  : option (res (ExprNode * list Token)) :=
  if String.eqb keyword "LIKE" || String.eqb keyword "ILIKE" then
    Some (let? (rhs, r) := parseArithmetic (next p) in
          Ok (BinaryExpr (binaryOpFromToken keyword) lhs rhs, r))
  else if String.eqb keyword "IN" then Some (parseInComparison lhs p)
  else if String.eqb keyword "IS" then Some (parseIsComparison lhs p)
  else if String.eqb keyword "BETWEEN" then Some (parseBetweenComparison lhs p)
  else None.

Definition parseComparison : parser := fun p =>
  let? (lhs, p) := parseArithmetic p in
  let tok := current p in
  match tok_Type tok with
  | TokenOperator =>
      let? (rhs, r) := parseArithmetic (next p) in
      Ok (BinaryExpr (binaryOpFromToken (tok_Value tok)) lhs rhs, r)
  | TokenKeyword =>
      match parseKeywordComparison lhs (tok_Value tok) p with
      | Some m => m
      | None => Ok (lhs, p)
      end
  | _ => Ok (lhs, p)
  end.

Fixpoint parseNot (p : list Token) : res (ExprNode * list Token) :=
  match p with
  | t :: p' =>
      if is_keyword "NOT" t then
        let? (e, r) := parseNot p' in Ok (UnaryExpr OpNot e, r)
      else parseComparison p
  | [] => parseComparison p
  end.

Definition parseAnd : parser := left_assoc parseNot (is_keyword "AND").
Definition parseOr_body : parser := left_assoc parseAnd (is_keyword "OR").
End Rec.

Fixpoint parseOr (fuel : nat) (p : list Token) : res (ExprNode * list Token) :=
  match fuel with
  | 0 => Err EFuel
  | S fuel => parseOr_body (parseOr fuel) p
  end.

Definition Parse (tokens : list Token) : res ExprNode :=
  let? (node, p) := parseOr (S (length tokens)) tokens in
  if decide (tok_Type (current p) = TokenEOF) then Ok node
  else Err (EMsg ("unexpected token at end of expression: " +:+ Quote (tok_Value (current p)))).

(** [NilExpr] is the nil AST of an empty expression. *)
Definition ParseExpression (expr : string) : res ExprNode :=
  let expr := TrimSpace expr in
  if str_empty expr then Ok NilExpr else
  let? tokens := lex_all (String.length expr) (S (String.length expr)) expr in
  Parse tokens.

Definition ValidateExpression (expr : string) : res unit :=
  let? _ := ParseExpression expr in Ok tt.
End Parser.

(** * Theorems *)

(** An abstract syntax tree without holes: the only node that may be missing is
    the ELSE of a CASE; a CASE has a branch; function names are upper case. *)
Inductive complete : ExprNode -> Prop :=
| complete_lit v : complete (LiteralExpr v)
| complete_col t c : complete (ColumnRefExpr t c)
| complete_met m : complete (MetricRefExpr m)
| complete_dim m : complete (DimensionRefExpr m)
| complete_bin op l r : complete l -> complete r -> complete (BinaryExpr op l r)
| complete_un op e : complete e -> complete (UnaryExpr op e)
| complete_call f args : ToUpper f = f -> Forall complete args -> complete (FunctionCallExpr f args)
| complete_case cs el :
    cs <> [] -> Forall (fun c => complete c.1 /\ complete c.2) cs -> el = NilExpr \/ complete el ->
    complete (CaseExpr cs el).

Lemma identifierExpr_complete n : complete (identifierExpr n).
Proof. unfold identifierExpr. destruct (_ && _); [constructor|]. destruct (Cut _ _) as [[]|]; constructor. Qed.

Section Total.
Context `{GoRuntime}.

(** A parser that, on at most [n] tokens, does not run out of fuel, consumes a
    token, and builds a complete tree. *)
Definition good (n : nat) (p : parser) : Prop :=
  forall toks, length toks <= n ->
    returns (fun er => length er.2 < length toks /\ complete er.1) (p toks).

Lemma length_next p : tok_Type (current p) <> TokenEOF -> length (next p) < length p.
Proof. destruct p; simpl; [done|lia]. Qed.

Lemma match_type_length t p q : t <> TokenEOF -> match_type t p = Some q -> length q < length p.
Proof.
  unfold match_type. case_decide; [|done]. intros Ht [= <-]. apply length_next. congruence.
Qed.
Lemma matchKeyword_length kw p q : matchKeyword kw p = Some q -> length q < length p.
Proof.
  unfold matchKeyword, is_keyword. case_bool_decide as Ht; simpl; [|done].
  destruct (String.eqb _ _); [|done]. intros [= <-]. apply length_next. congruence.
Qed.
Lemma is_keyword_not_eof kw t : is_keyword kw t = true -> tok_Type t <> TokenEOF.
Proof. unfold is_keyword. case_bool_decide; simpl; [congruence|done]. Qed.
Lemma is_operator_not_eof ops t : is_operator_in ops t = true -> tok_Type t <> TokenEOF.
Proof. unfold is_operator_in. case_bool_decide; simpl; [congruence|done]. Qed.

Lemma left_assoc_good n operand is_op :
  good n operand -> (forall t, is_op t = true -> tok_Type t <> TokenEOF) ->
  good n (left_assoc operand is_op).
Proof.
  intros Hg Hop toks Hn. unfold left_assoc.
  eapply returns_bind; [by apply Hg|]. intros [lhs p] [Hp Hl]. cbn [fst snd] in *.
  assert (forall fuel lhs p, length p <= fuel -> length p <= n -> complete lhs ->
    returns (fun er => length er.2 <= length p /\ complete er.1)
      (left_assoc_loop operand is_op fuel lhs p)) as Hloop.
  { clear -Hg Hop. induction fuel as [|fuel IH]; intros lhs p Hf Hn Hl; cbn [left_assoc_loop].
    - destruct (is_op (current p)) eqn:E; [|by split].
      apply Hop in E. destruct p; simpl in *; [done|lia].
    - destruct (is_op (current p)) eqn:E; [|by split].
      apply Hop, length_next in E. eapply returns_bind; [apply Hg; lia|].
      intros [rhs q] [Hq Hr]. cbn [fst snd] in *. eapply returns_impl.
      + apply IH; [lia|lia|by constructor].
      + intros er [? ?]. split; [lia|done]. }
  eapply returns_impl; [apply Hloop; [done|lia|done]|]. intros er [? ?]. split; [lia|done].
Qed.

Section RecGood.
Context (rec : parser) (n : nat) (Hrec : good n rec).

Definition good_list (toks : list Token) (m : res (list ExprNode * list Token)) : Prop :=
  returns (fun lr => length lr.2 <= length toks /\ Forall complete lr.1) m.

Lemma expr_list_good fuel toks :
  length toks <= fuel -> length toks <= n -> good_list toks (expr_list rec fuel toks).
Proof using Hrec.
  revert toks. induction fuel as [|fuel IH]; intros toks Hf Hn; cbn [expr_list];
    (eapply returns_bind; [by apply Hrec|]); intros [e p] [Hp He]; cbn [fst snd] in *.
  - lia.
  - destruct (match_type TokenComma p) as [q|] eqn:E.
    + apply match_type_length in E; [|done].
      eapply returns_bind; [apply IH; lia|]. intros [es r] [Hr Hes]. cbn [fst snd] in *.
      split; [simpl; lia|by constructor].
    + split; [simpl; lia|by repeat constructor].
Qed.

Lemma parse_list_good toks : length toks <= n -> good_list toks (parse_list rec toks).
Proof using Hrec.
  intros Hn. unfold parse_list. case_decide; [by split; [|constructor]|]. by apply expr_list_good.
Qed.

Lemma case_when_loop_good fuel toks :
  length toks <= fuel -> length toks <= n ->
  returns (fun lr => length lr.2 <= length toks /\ Forall (fun c => complete c.1 /\ complete c.2) lr.1)
    (case_when_loop rec fuel toks).
Proof using Hrec.
  revert toks. induction fuel as [|fuel IH]; intros toks Hf Hn; cbn [case_when_loop];
    (destruct (matchKeyword "WHEN" toks) as [p|] eqn:E; [|by split; [|constructor]]);
    apply matchKeyword_length in E.
  - lia.
  - eapply returns_bind; [apply Hrec; lia|]. intros [w p1] [Hp1 Hw]. cbn [fst snd] in *.
    destruct (matchKeyword "THEN" p1) as [p2|] eqn:E2; [|done]. apply matchKeyword_length in E2.
    eapply returns_bind; [apply Hrec; lia|]. intros [t p3] [Hp3 Ht]. cbn [fst snd] in *.
    eapply returns_bind; [apply IH; lia|]. intros [cs r] [Hr Hcs]. cbn [fst snd] in *.
    split; [simpl; lia|]. by constructor.
Qed.

Lemma parseCasePrimary_good toks :
  length toks <= n ->
  returns (fun er => length er.2 < length toks /\ complete er.1) (parseCasePrimary rec toks).
Proof using Hrec.
  intros Hn. unfold parseCasePrimary, parseCaseWhenClauses.
  eapply (returns_bind (fun lr => length lr.2 <= length toks /\ lr.1 <> [] /\
    Forall (fun c => complete c.1 /\ complete c.2) lr.1)).
  { eapply returns_bind; [by apply case_when_loop_good|]. intros [cs r] [Hr Hcs]. cbn [fst snd] in *.
    destruct cs; [done|]. by split_and!. }
  intros [cs p] (Hp & Hne & Hcs). cbn [fst snd] in *.
  eapply (returns_bind (fun er => length er.2 <= length p /\ (er.1 = NilExpr \/ complete er.1))).
  { destruct (matchKeyword "ELSE" p) as [q|] eqn:E; [|by split; [|left]].
    apply matchKeyword_length in E. eapply returns_impl; [apply Hrec; lia|].
    intros er [? ?]. split; [lia|by right]. }
  intros [el q] [Hq Hel]. cbn [fst snd] in *.
  destruct (matchKeyword "END" q) as [r|] eqn:E; [|done]. apply matchKeyword_length in E.
  split; [simpl; lia|by constructor].
Qed.

Lemma parsePrimary_good : good (S n) (parsePrimary rec).
Proof using Hrec.
  intros toks Hn. unfold parsePrimary. cbv zeta.
  assert (forall m, returns (fun er => length er.2 < length toks /\ complete er.1)
    (match matchKeyword "CASE" toks with
     | Some p => parseCasePrimary rec p | None => Err (EMsg m) end)) as Hcase.
  { intros m. destruct (matchKeyword "CASE" toks) as [p|] eqn:E; [|done].
    apply matchKeyword_length in E. eapply returns_impl; [apply parseCasePrimary_good; lia|].
    intros er [? ?]. split; [lia|done]. }
  assert (tok_Type (current toks) <> TokenEOF -> length (next toks) < length toks) as Hnext
    by apply length_next.
  destruct (tok_Type (current toks)) eqn:Ht; try apply Hcase.
  - unfold parseIdentifierPrimary. specialize (Hnext ltac:(done)).
    destruct (match_type TokenParenOpen (next toks)) as [p|] eqn:E.
    + apply match_type_length in E; [|done]. unfold parseCallArgs.
      eapply (returns_bind (fun lr => length lr.2 < length toks /\ Forall complete lr.1)).
      * eapply returns_bind; [apply parse_list_good; lia|]. intros [es q] [Hq Hes]. cbn [fst snd] in *.
        destruct (match_type TokenParenClose q) as [r|] eqn:E2; [|done].
        apply match_type_length in E2; [|done]. split; [simpl; lia|done].
      * intros [es q] [Hq Hes]. split; [done|]. constructor; [by apply ToUpper_idem|done].
    + split; [done|]. apply identifierExpr_complete.
  - specialize (Hnext ltac:(done)). eapply (returns_bind (fun _ => True)).
    + unfold parseNumberLiteral. destruct (has_byte _ _).
      * by destruct (ParseFloat _) as [|[]].
      * by destruct (ParseInt _).
    + intros v _. split; [done|constructor].
  - specialize (Hnext ltac:(done)). split; [done|constructor].
  - specialize (Hnext ltac:(done)). unfold parseParenthesizedPrimary.
    eapply returns_bind; [apply Hrec; lia|]. intros [e p] [Hp He]. cbn [fst snd] in *.
    destruct (match_type TokenParenClose p) as [r|] eqn:E; [|done].
    apply match_type_length in E; [|done]. split; [simpl; lia|done].
Qed.

Lemma parseArithmetic_good : good (S n) (parseArithmetic rec).
Proof using Hrec.
  apply left_assoc_good; [|apply is_operator_not_eof].
  apply left_assoc_good; [apply parsePrimary_good|apply is_operator_not_eof].
Qed.

Lemma parseKeywordComparison_good lhs kw toks m :
  length toks <= S n -> tok_Type (current toks) <> TokenEOF -> complete lhs ->
  parseKeywordComparison rec lhs kw toks = Some m ->
  returns (fun er => length er.2 < length toks /\ complete er.1) m.
Proof using Hrec.
  intros Hn Ht%length_next Hl. pose proof parseArithmetic_good as Ha.
  unfold parseKeywordComparison. destruct (String.eqb kw "LIKE" || String.eqb kw "ILIKE").
  { intros [= <-]. eapply returns_bind; [apply Ha; lia|]. intros [e r] [Hr He]. cbn [fst snd] in *.
    split; [simpl; lia|by constructor]. }
  destruct (String.eqb kw "IN").
  { intros [= <-]. unfold parseInComparison.
    destruct (match_type TokenParenOpen (next toks)) as [p|] eqn:E; [|done].
    apply match_type_length in E; [|done].
    eapply returns_bind; [apply parse_list_good; lia|]. intros [es q] [Hq Hes]. cbn [fst snd] in *.
    destruct (match_type TokenParenClose q) as [r|] eqn:E2; [|done].
    apply match_type_length in E2; [|done]. split; [simpl; lia|].
    constructor; [done|]. by constructor. }
  destruct (String.eqb kw "IS").
  { intros [= <-]. unfold parseIsComparison.
    assert (exists op p, (match matchKeyword "NOT" (next toks) with
        | Some p => ("IS NOT NULL", p) | None => ("IS NULL", next toks) end) = (op, p)
      /\ length p <= length (next toks)) as (op & p & -> & Hp).
    { destruct (matchKeyword "NOT" (next toks)) as [p|] eqn:E; [|by eexists _, _].
      apply matchKeyword_length in E. eexists _, _. split; [done|lia]. }
    destruct (matchKeyword "NULL" p) as [r|] eqn:E; [|done]. apply matchKeyword_length in E.
    split; [simpl; lia|by constructor]. }
  destruct (String.eqb kw "BETWEEN"); [|done].
  intros [= <-]. unfold parseBetweenComparison.
  eapply returns_bind; [apply Ha; lia|]. intros [s p] [Hp Hs]. cbn [fst snd] in *.
  destruct (matchKeyword "AND" p) as [q|] eqn:E; [|done]. apply matchKeyword_length in E.
  eapply returns_bind; [apply Ha; lia|]. intros [e r] [Hr He]. cbn [fst snd] in *.
  split; [simpl; lia|]. by repeat constructor.
Qed.

Lemma parseComparison_good : good (S n) (parseComparison rec).
Proof using Hrec.
  intros toks Hn. pose proof parseArithmetic_good as Ha. unfold parseComparison.
  eapply returns_bind; [by apply Ha|]. intros [lhs p] [Hp Hl]. cbn [fst snd] in *.
  assert (returns (fun er => length er.2 < length toks /\ complete er.1) (Ok (lhs, p))) as Hok by done.
  destruct (tok_Type (current p)) eqn:Ht; try exact Hok.
  - assert (length (next p) < length p) by (apply length_next; congruence).
    eapply returns_bind; [apply Ha; lia|]. intros [rhs r] [Hr Hrr]. cbn [fst snd] in *.
    split; [simpl; lia|by constructor].
  - destruct (parseKeywordComparison _ _ _ _) as [m|] eqn:E; [|exact Hok].
    apply parseKeywordComparison_good in E; [|lia|congruence|done].
    eapply returns_impl; [exact E|]. intros er [? ?]. split; [lia|done].
Qed.

Lemma parseNot_good : good (S n) (parseNot rec).
Proof using Hrec.
  pose proof parseComparison_good as Hc. intros toks. induction toks as [|t toks IH]; intros Hn.
  - by apply (Hc []).
  - cbn [parseNot]. destruct (is_keyword "NOT" t); [|by apply Hc].
    simpl in Hn. eapply returns_bind; [apply IH; lia|]. intros [e r] [Hr He]. cbn [fst snd] in *.
    split; [simpl; lia|by constructor].
Qed.

Lemma parseOr_body_good : good (S n) (parseOr_body rec).
Proof using Hrec.
  apply left_assoc_good; [|apply is_keyword_not_eof].
  apply left_assoc_good; [apply parseNot_good|apply is_keyword_not_eof].
Qed.
End RecGood.

Lemma parseOr_good fuel : good fuel (parseOr (S fuel)).
Proof.
  induction fuel as [|fuel IH].
  - intros toks Hn. destruct toks; simpl in Hn; [|lia].
    vm_compute. exact I.
  - exact (parseOr_body_good (parseOr (S fuel)) fuel IH).
Qed.

(** ** Lexing *)

(** The text of one token of an accepted expression. *)
Inductive piece : string -> Prop :=
| piece_number w : head_is is_digit w = true -> str_forallb is_number_char w = true -> piece w
| piece_string v : piece (String "'" (double "'" v +:+ "'"))
| piece_quoted q v : code q = 34 -> has_byte q v = false -> piece (String q (v +:+ String q ""))
| piece_bracket body : has_byte "]" body = false -> piece (String "[" (body +:+ "]"))
| piece_operator w : str_forallb isOperatorChar w = true -> w <> "" -> piece w
| piece_punctuation c : c ∈ ["("; ")"; ","]%char -> piece (String c "")
| piece_word w :
    head_is isIdentifierStartChar w = true -> str_forallb isIdentifierChar w = true ->
    ToUpper w ∉ bannedKeywords -> piece w.

(** A text made of pieces and white space, no piece of which starts a comment. *)
Inductive Lexed : string -> Prop :=
| Lexed_end ws : str_forallb is_lex_space ws = true -> Lexed ws
| Lexed_piece ws w r :
    str_forallb is_lex_space ws = true -> piece w ->
    HasPrefix (w +:+ r) "--" = false -> HasPrefix (w +:+ r) "/*" = false ->
    Lexed r -> Lexed (ws +:+ w +:+ r).

Lemma trim_left_spec p s :
  exists a, s = a +:+ trim_left p s /\ str_forallb p a = true /\ head_is p (trim_left p s) = false.
Proof.
  induction s as [|c s (a & Hs & Ha & Ht)]; [by exists ""|]. cbn [trim_left].
  destruct (p c) eqn:Hc.
  - exists (String c a). rewrite app_cons, <- Hs. split_and!; [done| |done]. simpl. by rewrite Hc.
  - exists "". split_and!; [done|done|]. simpl. by rewrite Hc.
Qed.

(** The bytes read are a body without a bare closing quote, then the quote. *)
Lemma read_string_body_spec q s v r :
  read_string_body q s = Some (v, r) ->
  s = v +:+ r /\ exists b, v = b +:+ String q "" /\
    if Ascii.eqb q "'" then exists u, b = double q u else has_byte q b = false.
Proof.
  remember (String.length s) as n eqn:Hn. assert (String.length s <= n) as Hle by lia. clear Hn.
  revert s v r Hle. induction n as [|n IH]; intros s v r Hle.
  { destruct s; simpl in *; [done|lia]. }
  destruct s as [|c s]; [done|]. simpl in Hle. cbn [read_string_body].
  assert (exists b, String q "" = b +:+ String q "" /\
    if Ascii.eqb q "'" then exists u, b = double q u else has_byte q b = false) as Hend.
  { exists "". split; [done|]. destruct (Ascii.eqb q "'"); [by exists ""|done]. }
  destruct (Ascii.eqb_spec c q) as [->|Hc].
  - destruct s as [|d s]; [by intros [= <- <-]|]. simpl in Hle.
    destruct (Ascii.eqb q "'" && Ascii.eqb d "'") eqn:Hdd; [|by intros [= <- <-]].
    apply andb_true_iff in Hdd as [Hq Hd]. apply Ascii.eqb_eq in Hq, Hd. subst q d.
    destruct (read_string_body "'" s) as [[v' r']|] eqn:E; [|done]. intros [= <- <-].
    apply IH in E as (-> & b & -> & u & ->); [|lia]. split; [by rewrite !app_cons|].
    exists (String "'" (String "'" (double "'" u))). rewrite !app_cons. split; [done|].
    by exists (String "'" u).
  - destruct (read_string_body q s) as [[v' r']|] eqn:E; [|done]. intros [= <- <-].
    apply IH in E as (-> & b & -> & Hb); [|lia]. split; [by rewrite app_cons|].
    exists (String c b). rewrite app_cons. split; [done|].
    apply Ascii.eqb_neq in Hc. destruct (Ascii.eqb q "'").
    + destruct Hb as [u ->]. exists (String c u). unfold double. cbn [ReplaceByte]. by rewrite Hc.
    + cbn [has_byte]. by rewrite Hc, Hb.
Qed.

Lemma read_bracket_body_spec s v r :
  read_bracket_body s = Some (v, r) ->
  s = v +:+ r /\ exists b, v = b +:+ "]" /\ has_byte "]" b = false.
Proof.
  revert v r. induction s as [|c s IH]; intros v r; [done|]. cbn [read_bracket_body].
  destruct (Ascii.eqb_spec c "]") as [->|Hc]; [intros [= <- <-]; split; [done|by exists ""]|].
  destruct (read_bracket_body s) as [[v' r']|]; [|done]. intros [= <- <-].
  destruct (IH v' r' eq_refl) as (-> & b & -> & Hb). split; [by rewrite app_cons|].
  exists (String c b). rewrite app_cons. split; [done|]. simpl.
  by apply Ascii.eqb_neq in Hc as ->.
Qed.

(** What one call of the lexer consumes. *)
Definition lex_result (s : string) (tr : Token * string) : Prop :=
  (tok_Type tr.1 = TokenEOF /\ str_forallb is_lex_space s = true) \/
  (tok_Type tr.1 <> TokenEOF /\ exists ws w, s = ws +:+ w +:+ tr.2 /\
     str_forallb is_lex_space ws = true /\ piece w /\ w <> "" /\
     HasPrefix (w +:+ tr.2) "--" = false /\ HasPrefix (w +:+ tr.2) "/*" = false).

Lemma readOperator_spec c s :
  isOperatorChar c = true -> exists w r, readOperator (String c s) = (mkToken TokenOperator w, r) /\
    String c s = w +:+ r /\ w <> "" /\ str_forallb isOperatorChar w = true.
Proof.
  intros Hc. unfold readOperator. destruct s as [|d s].
  { exists (String c ""), "". split_and!; [done|done|done|]. simpl. by rewrite Hc. }
  destruct (_ || _) eqn:E.
  - exists (String c (String d "")), s. split_and!; [done..|]. cbn [str_forallb]. rewrite Hc.
    assert (isOperatorChar d = true) as ->; [|done].
    rewrite !orb_true_iff, !andb_true_iff, !Ascii.eqb_eq in E.
    destruct E as [[[[[_ ->]|[_ ->]]|[_ ->]]|[_ ->]]|[_ ->]]; reflexivity.
  - exists (String c ""), (String d s). split_and!; [done..|]. simpl. by rewrite Hc.
Qed.

Lemma second_is_prefix c d s : 
  Ascii.eqb c d && second_is d (String c s) = false -> HasPrefix (String c s) (String d (String d "")) = false.
Proof.
  unfold HasPrefix. cbn [cut_prefix second_is]. rewrite (Ascii.eqb_sym d c).
  destruct (Ascii.eqb c d); [|done]. destruct s as [|e s]; [done|]. simpl.
  rewrite (Ascii.eqb_sym d e). by intros ->.
Qed.

Lemma NextToken_spec total s :
  returns (lex_result s) (NextToken total s).
Proof.
  unfold NextToken, skipWhitespace. cbv zeta.
  destruct (trim_left_spec is_lex_space s) as (ws & Hs & Hws & _).
  destruct (trim_left is_lex_space s) as [|c t] eqn:Et.
  { left. split; [done|]. rewrite app_nil_r in Hs. by subst. }
  clear Et. subst s.
  destruct (Ascii.eqb c ";"); [done|].
  destruct (Ascii.eqb c "-" && _) eqn:Hd; [done|].
  destruct (Ascii.eqb c "/" && _) eqn:Hb; [done|].
  assert (HasPrefix (String c t) "--" = false) as Hdd.
  { unfold HasPrefix. cbn [cut_prefix]. rewrite (Ascii.eqb_sym "-" c). destruct (Ascii.eqb c "-"); [|done].
    destruct t as [|e t]; [done|]. simpl in Hd. cbn [cut_prefix]. by rewrite (Ascii.eqb_sym "-" e), Hd. }
  assert (HasPrefix (String c t) "/*" = false) as Hbb.
  { unfold HasPrefix. cbn [cut_prefix]. rewrite (Ascii.eqb_sym "/" c). destruct (Ascii.eqb c "/"); [|done].
    destruct t as [|e t]; [done|]. simpl in Hb. cbn [cut_prefix]. by rewrite (Ascii.eqb_sym "*" e), Hb. }
  assert (forall tok w r, tok_Type tok <> TokenEOF -> String c t = w +:+ r -> w <> "" -> piece w ->
    lex_result (ws +:+ String c t) (tok, r)) as Hok.
  { intros tok w r Ht Hw Hne Hp. right. split; [done|]. exists ws, w. cbn [snd].
    rewrite <- Hw. by split_and!. }
  destruct (Ascii.eqb_spec c "(") as [->|].
  { by eapply (Hok _ "(" t); [| | |apply piece_punctuation; left]. }
  destruct (Ascii.eqb_spec c ")") as [->|].
  { by eapply (Hok _ ")" t); [| | |apply piece_punctuation; right; left]. }
  destruct (Ascii.eqb_spec c ",") as [->|].
  { by eapply (Hok _ "," t); [| | |apply piece_punctuation; right; right; left]. }
  destruct (is_digit c) eqn:Hdig.
  { pose proof (span_spec is_number_char (String c t)) as Hsp. cbn [span] in Hsp |- *.
    assert (is_number_char c = true) as Hn by (unfold is_number_char; by rewrite Hdig).
    rewrite Hn in *. destruct (span is_number_char t) as [a r]. destruct Hsp as (He & Ha & _).
    by eapply (Hok _ (String c a) r); [| | |apply piece_number]. }
  assert (forall q, c = q -> q = "'"%char \/ code q = 34 ->
    returns (lex_result (ws +:+ String c t)) (readString total q (String c t))) as Hstr.
  { intros q -> Hq. unfold readString. destruct (read_string_body q t) as [[v r]|] eqn:E; [|done].
    apply read_string_body_spec in E as (-> & b & -> & Hbody).
    apply (Hok _ (String q (b +:+ String q "")) r); [done|by rewrite app_cons|done|].
    destruct (Ascii.eqb_spec q "'") as [->|Hne].
    - destruct Hbody as [u ->]. apply piece_string.
    - destruct Hq as [|Hq]; [done|]. by apply piece_quoted. }
  destruct (Ascii.eqb_spec c "'") as [He|]; [apply Hstr; auto|].
  destruct (Nat.eqb_spec (code c) 34) as [He|]; [apply Hstr; auto|].
  destruct (Ascii.eqb_spec c "[") as [->|].
  { unfold readBracketedIdentifier. destruct (read_bracket_body t) as [[v r]|] eqn:E; [|done].
    apply read_bracket_body_spec in E as (-> & b & -> & Hbr).
    by eapply (Hok _ (String "[" (b +:+ "]")) r); [|rewrite app_cons| |apply piece_bracket]. }
  destruct (isOperatorChar c) eqn:Hop.
  { destruct (readOperator_spec c t Hop) as (w & r & -> & He & Hne & Hw).
    by eapply (Hok _ w r); [| | |apply piece_operator]. }
  destruct (isIdentifierStartChar c) eqn:Hid; [|done].
  unfold readIdentifierOrKeyword.
  pose proof (span_spec isIdentifierChar (String c t)) as Hsp. cbn [span] in Hsp |- *.
  assert (isIdentifierChar c = true) as Hn by (unfold isIdentifierChar; by rewrite Hid).
  rewrite Hn in *. destruct (span isIdentifierChar t) as [a r]. destruct Hsp as (He & Ha & _).
  destruct (str_in _ bannedKeywords) eqn:Hban; [done|]. apply str_in_false in Hban.
  assert (piece (String c a)) as Hp by by apply piece_word.
  destruct (str_in _ allowedKeywords); by eapply (Hok _ (String c a) r).
Qed.

Lemma lex_all_spec total fuel s :
  String.length s < fuel ->
  returns (fun toks => Lexed s /\ Forall (fun t => tok_Type t <> TokenEOF) toks /\
                       length toks <= String.length s) (lex_all total fuel s).
Proof.
  revert s. induction fuel as [|fuel IH]; intros s Hs; [lia|]. cbn [lex_all].
  eapply returns_bind; [apply NextToken_spec|]. intros [tok r] Hlex. cbn [fst snd] in *.
  destruct Hlex as [[Ht Hsp]|(Ht & ws & w & Hw & Hws & Hp & Hne & H1 & H2)]; cbn [fst snd] in *.
  - rewrite decide_True by done. simpl. split_and!; [by constructor|constructor|lia].
  - rewrite decide_False by done. assert (String.length r < String.length s) as Hlen.
    { rewrite Hw, !length_app. destruct w; [done|]. simpl. lia. }
    eapply returns_bind; [apply IH; lia|]. intros toks (HL & HF & Hl). split_and!.
    + rewrite Hw. by constructor.
    + by constructor.
    + simpl. lia.
Qed.
End Total.

Lemma ParseExpression_returns `{GoRuntime} expr :
  returns (fun e => Lexed (TrimSpace expr) /\ (TrimSpace expr = "" /\ e = NilExpr \/ complete e))
    (ParseExpression expr).
Proof.
  unfold ParseExpression. cbv zeta. unfold str_empty.
  destruct (String.eqb_spec (TrimSpace expr) "") as [->|Hne].
  { split; [by apply Lexed_end|by left]. }
  eapply returns_bind; [apply lex_all_spec; lia|]. intros toks (HL & HF & _).
  unfold Parse. eapply returns_bind; [by apply parseOr_good|]. intros [e p] [_ He]. cbn [fst snd] in *.
  case_decide; [|done]. split; [done|by right].
Qed.

(** parsing a calculated expression always comes to an end with a result or a
    genuine error, never by running out of fuel.  What it accepts is a text made
    of numbers, words, operators, punctuation, closed quoted strings and closed
    bracketed names, none of which starts a comment and none of which is a
    statement keyword (so a semicolon can only stand inside quotes or brackets),
    and the tree built from it has no hole. *)
Theorem ParseExpression_accepts `{GoRuntime} (expr : string) :
  match ParseExpression expr with
  | Ok e => Lexed (TrimSpace expr) /\ (TrimSpace expr = "" /\ e = NilExpr \/ complete e)
  | Err err => no_fuel err
  end.
Proof.
  pose proof (ParseExpression_returns expr) as Hr. by destruct (ParseExpression expr).
Qed.
