(* ===== verification/ExprGrammar.v ===== *)
(** The grammar of calculated expressions, and the proof that the recursive
    descent parser of [ExprParse] is exactly that grammar.

    Precedence, from loose to tight: OR, AND, NOT, one comparison (an operator,
    LIKE, IN, IS NULL, BETWEEN), additive, multiplicative, primary; the binary
    levels associate to the left.  [Or n] are the phrases with fewer than [n]
    levels of parentheses, calls and CASE; [Expression] forgets the bound. *)

From S2P Require Import Prelude GoStrings Values Semantic ExprParse.
From stdpp Require Import options.
#[local] Open Scope nat_scope.

Section Grammar.
Context `{GoRuntime}.

(** A phrase of operands joined by operators, nesting to the left. *)
Inductive Chain (operand : ExprNode -> list Token -> Prop) (is_op : Token -> bool)
  : ExprNode -> list Token -> Prop :=
| Chain_one e ts : operand e ts -> Chain operand is_op e ts
| Chain_step l ts o r us :
    Chain operand is_op l ts -> is_op o = true -> operand r us ->
    Chain operand is_op (BinaryExpr (binaryOpFromToken (tok_Value o)) l r) (ts ++ o :: us).

Section Level.
(** The expressions one level deeper. *)
Context (Or : ExprNode -> list Token -> Prop).

Inductive Items : list ExprNode -> list Token -> Prop :=
| Items_one e ts : Or e ts -> Items [e] ts
| Items_cons e ts c es us :
    Or e ts -> tok_Type c = TokenComma -> Items es us -> Items (e :: es) (ts ++ c :: us).

Definition Arguments_ (es : list ExprNode) (ts : list Token) : Prop :=
  es = [] /\ ts = [] \/ Items es ts.

Inductive Whens : list (ExprNode * ExprNode) -> list Token -> Prop :=
| Whens_nil : Whens [] []
| Whens_cons w e k1 ws k2 ts cs us :
    is_keyword "WHEN" k1 = true -> Or w ws -> is_keyword "THEN" k2 = true -> Or e ts ->
    Whens cs us -> Whens ((w, e) :: cs) (k1 :: ws ++ k2 :: ts ++ us).

Definition Else_ (e : ExprNode) (ts : list Token) : Prop :=
  e = NilExpr /\ ts = [] \/ exists k us, ts = k :: us /\ is_keyword "ELSE" k = true /\ Or e us.

Inductive Primary : ExprNode -> list Token -> Prop :=
| Primary_number t v :
    tok_Type t = TokenNumber -> parseNumberLiteral (tok_Value t) = Ok v ->
    Primary (LiteralExpr v) [t]
| Primary_string t :
    tok_Type t = TokenString -> Primary (LiteralExpr (VStr (parseStringLiteral (tok_Value t)))) [t]
| Primary_name t : tok_Type t = TokenIdentifier -> Primary (identifierExpr (tok_Value t)) [t]
| Primary_call t o es ts c :
    tok_Type t = TokenIdentifier -> tok_Type o = TokenParenOpen -> Arguments_ es ts ->
    tok_Type c = TokenParenClose ->
    Primary (FunctionCallExpr (ToUpper (tok_Value t)) es) (t :: o :: ts ++ [c])
| Primary_paren o e ts c :
    tok_Type o = TokenParenOpen -> Or e ts -> tok_Type c = TokenParenClose ->
    Primary e (o :: ts ++ [c])
| Primary_case k cs ws el es k' :
    is_keyword "CASE" k = true -> Whens cs ws -> cs <> [] -> Else_ el es ->
    is_keyword "END" k' = true -> Primary (CaseExpr cs el) (k :: ws ++ es ++ [k']).

Definition mul_op := is_operator_in ["*"; "/"; "%"].
Definition add_op := is_operator_in ["+"; "-"; "||"].
Definition Factor := Chain Primary mul_op.
Definition Arithmetic := Chain Factor add_op.

Inductive Comparison : ExprNode -> list Token -> Prop :=
| Comparison_none e ts : Arithmetic e ts -> Comparison e ts
| Comparison_op l ts o r us :
    Arithmetic l ts -> tok_Type o = TokenOperator -> mul_op o = false -> add_op o = false ->
    Arithmetic r us ->
    Comparison (BinaryExpr (binaryOpFromToken (tok_Value o)) l r) (ts ++ o :: us)
| Comparison_like l ts k r us :
    Arithmetic l ts -> is_keyword "LIKE" k = true \/ is_keyword "ILIKE" k = true -> Arithmetic r us ->
    Comparison (BinaryExpr (binaryOpFromToken (tok_Value k)) l r) (ts ++ k :: us)
| Comparison_in l ts k o es us c :
    Arithmetic l ts -> is_keyword "IN" k = true -> tok_Type o = TokenParenOpen ->
    Arguments_ es us -> tok_Type c = TokenParenClose ->
    Comparison (BinaryExpr "in" l (FunctionCallExpr "IN_LIST" es)) (ts ++ k :: o :: us ++ [c])
| Comparison_is_null l ts k k' :
    Arithmetic l ts -> is_keyword "IS" k = true -> is_keyword "NULL" k' = true ->
    Comparison (UnaryExpr "is_null" l) (ts ++ [k; k'])
| Comparison_is_not_null l ts k n k' :
    Arithmetic l ts -> is_keyword "IS" k = true -> is_keyword "NOT" n = true ->
    is_keyword "NULL" k' = true ->
    Comparison (UnaryExpr "is_not_null" l) (ts ++ [k; n; k'])
| Comparison_between l ts k a us k' b vs :
    Arithmetic l ts -> is_keyword "BETWEEN" k = true -> Arithmetic a us ->
    is_keyword "AND" k' = true -> Arithmetic b vs ->
    Comparison (BinaryExpr "between" l (BinaryExpr OpAnd a b)) (ts ++ k :: us ++ k' :: vs).

Inductive Negation : ExprNode -> list Token -> Prop :=
| Negation_none e ts : Comparison e ts -> Negation e ts
| Negation_not k e ts :
    is_keyword "NOT" k = true -> Negation e ts -> Negation (UnaryExpr OpNot e) (k :: ts).

Definition Conjunction := Chain Negation (is_keyword "AND").
Definition Disjunction := Chain Conjunction (is_keyword "OR").
End Level.

Fixpoint Or (n : nat) : ExprNode -> list Token -> Prop :=
  match n with
  | 0 => fun _ _ => False
  | S n => Disjunction (Or n)
  end.

Definition Expression (e : ExprNode) (ts : list Token) : Prop := exists n, Or n e ts.

(** ** The parser accepts every phrase *)

(** The tokens that may follow a phrase of each level. *)
Definition stopP (t : Token) : Prop := tok_Type t <> TokenParenOpen.
Definition stopF (t : Token) : Prop := stopP t /\ mul_op t = false.
Definition stopA (t : Token) : Prop := stopF t /\ add_op t = false.
Definition stopC (t : Token) : Prop :=
  stopA t /\ tok_Type t <> TokenOperator /\
  (tok_Type t = TokenKeyword -> tok_Value t ∉ ["LIKE"; "ILIKE"; "IN"; "IS"; "BETWEEN"]).
Definition stopN (t : Token) : Prop := stopC t /\ is_keyword "AND" t = false.
Definition stopO (t : Token) : Prop := stopN t /\ is_keyword "OR" t = false.

Definition accepts (G : ExprNode -> list Token -> Prop) (p : parser) (stop : Token -> Prop) : Prop :=
  forall e ts rest, G e ts -> stop (current rest) -> p (ts ++ rest) = Ok (e, rest).

Lemma keyword_spec kw t : is_keyword kw t = true <-> t = mkToken TokenKeyword kw.
Proof using.
  unfold is_keyword. destruct t as [ty v]. simpl. case_bool_decide as Ht; simpl.
  - rewrite String.eqb_eq. naive_solver.
  - split; [done|]. by intros [= -> ->].
Qed.
Lemma matchKeyword_cons kw t p : matchKeyword kw (t :: p) = if is_keyword kw t then Some p else None.
Proof using. done. Qed.
Lemma match_type_cons ty t p :
  match_type ty (t :: p) = if decide (tok_Type t = ty) then Some p else None.
Proof using. done. Qed.

(** Decides whether a concrete token may follow. *)
Ltac solve_stop :=
  unfold stopO, stopN, stopC, stopA, stopF, stopP; cbn [tok_Type tok_Value];
  split_and!; try reflexivity; try discriminate;
  let Hk := fresh "Hk" in
  intros _ Hk; rewrite !elem_of_cons, elem_of_nil in Hk; naive_solver.

(** Only a few types of tokens continue a phrase. *)
Lemma stopO_type t :
  tok_Type t ∈ [TokenEOF; TokenComma; TokenParenClose] -> stopO t.
Proof using.
  destruct t as [ty v]. cbn [tok_Type]. rewrite !elem_of_cons, elem_of_nil.
  intros [->|[->|[->|[]]]]; unfold stopO, stopN, stopC, stopA, stopF, stopP; split_and!; done.
Qed.
Lemma stopO_keyword kw :
  kw ∈ ["THEN"; "WHEN"; "ELSE"; "END"] -> stopO (mkToken TokenKeyword kw).
Proof using.
  rewrite !elem_of_cons, elem_of_nil. intros [->|[->|[->|[->|[]]]]]; solve_stop.
Qed.
Lemma stopA_keyword kw : stopA (mkToken TokenKeyword kw).
Proof using. unfold stopA, stopF, stopP. by split_and!. Qed.
Lemma stop_op_F ops t : is_operator_in ops t = true -> stopP t.
Proof using. unfold is_operator_in, stopP. case_bool_decide as Ht; simpl; [|done]. by rewrite Ht. Qed.
Lemma stop_add_F t : add_op t = true -> stopF t.
Proof using.
  intros Ht. split; [by eapply stop_op_F|]. unfold add_op, mul_op, is_operator_in in *.
  case_bool_decide; cbn [andb] in *; [|done]. apply str_in_spec in Ht. apply str_in_false.
  rewrite !elem_of_cons, elem_of_nil in *. destruct Ht as [->|[->|[->|[]]]]; naive_solver.
Qed.
Lemma stop_and t : is_keyword "AND" t = true -> stopC t.
Proof using. intros ->%keyword_spec. solve_stop. Qed.
Lemma stop_or t : is_keyword "OR" t = true -> stopN t.
Proof using. intros ->%keyword_spec. solve_stop. Qed.

Lemma accepts_chain G p stop is_op :
  accepts G p stop -> (forall o, is_op o = true -> stop o) ->
  accepts (Chain G is_op) (left_assoc p is_op) (fun t => stop t /\ is_op t = false).
Proof using.
  intros HG Hop.
  assert (forall e ts, Chain G is_op e ts -> forall rest, stop (current rest) ->
    exists l0 first tl k, G l0 first /\ ts = first ++ tl /\ k <= length tl /\
      stop (current (tl ++ rest)) /\
      forall F, left_assoc_loop p is_op (k + F) l0 (tl ++ rest) = left_assoc_loop p is_op F e rest)
    as Hloop.
  { induction 1 as [e ts He|l ts o r us Hl IH Ho Hr]; intros rest Hs.
    - exists e, ts, [], 0. split_and!; [done|by rewrite List.app_nil_r|simpl; lia|done|done].
    - destruct (IH (o :: us ++ rest)) as (l0 & first & tl & k & H1 & -> & H3 & H4 & H5); [by apply Hop|].
      exists l0, first, (tl ++ o :: us), (k + 1).
      assert ((tl ++ o :: us) ++ rest = tl ++ o :: us ++ rest) as -> by by rewrite <- List.app_assoc.
      split_and!; [done|by rewrite <- List.app_assoc|rewrite List.length_app; simpl; lia|done|].
      intros F. rewrite <- Nat.add_assoc, H5. cbn [left_assoc_loop Nat.add current next tail].
      rewrite Ho. rewrite (HG r us rest) by done. done. }
  intros e ts rest He [Hs Hno]. destruct (Hloop e ts He rest Hs) as (l0 & first & tl & k & H1 & -> & H3 & H4 & H5).
  unfold left_assoc. rewrite <- List.app_assoc, (HG l0 first (tl ++ rest)) by done. cbn [res_bind].
  replace (length (tl ++ rest)) with (k + (length (tl ++ rest) - k)) by (rewrite List.length_app; lia).
  rewrite H5. destruct (length (tl ++ rest) - k); cbn [left_assoc_loop]; by rewrite Hno.
Qed.

(** The first token of a phrase. *)
Definition starts (ok : Token -> Prop) (ts : list Token) : Prop :=
  match ts with [] => False | t :: _ => ok t end.
Definition first_ok (t : Token) : Prop :=
  tok_Type t ∈ [TokenNumber; TokenString; TokenIdentifier; TokenParenOpen] \/
  is_keyword "CASE" t = true.
Lemma starts_app ok ts us : starts ok ts -> starts ok (ts ++ us).
Proof using. by destruct ts. Qed.
Lemma starts_chain ok G is_op e ts :
  (forall e ts, G e ts -> starts ok ts) -> Chain G is_op e ts -> starts ok ts.
Proof using. intros HG. induction 1; [eauto|by apply starts_app]. Qed.

Section LevelAccepts.
Context (O : ExprNode -> list Token -> Prop).

Lemma Primary_starts e ts : Primary O e ts -> starts first_ok ts.
Proof using.
  intros He. inversion He; subst; simpl; unfold first_ok; (left; set_solver) || by right.
Qed.
Lemma Arithmetic_starts e ts : Arithmetic O e ts -> starts first_ok ts.
Proof using. apply starts_chain. intros ? ?. apply starts_chain, Primary_starts. Qed.
Lemma Negation_starts e ts :
  Negation O e ts -> starts (fun t => first_ok t \/ is_keyword "NOT" t = true) ts.
Proof using.
  assert (forall us, starts first_ok us -> starts (fun t => first_ok t \/ is_keyword "NOT" t = true) us)
    as Hw by (intros [|]; simpl; auto).
  intros He. inversion He as [? ? Hc|]; subst; [|by right]. apply Hw.
  inversion Hc; subst; try apply starts_app; eauto using Arithmetic_starts.
Qed.
Lemma Disjunction_starts e ts :
  Disjunction O e ts -> starts (fun t => first_ok t \/ is_keyword "NOT" t = true) ts.
Proof using. apply starts_chain. intros ? ?. apply starts_chain, Negation_starts. Qed.
End LevelAccepts.

Lemma Or_not_close n e ts rest : Or n e ts -> tok_Type (current (ts ++ rest)) <> TokenParenClose.
Proof using.
  destruct n as [|n]; [done|]. intros He%Disjunction_starts. destruct ts as [|t ts]; [done|].
  simpl in *. destruct He as [[He|He]|He].
  - intros Hc. rewrite Hc in He. set_solver.
  - apply keyword_spec in He as ->. done.
  - apply keyword_spec in He as ->. done.
Qed.

Section LevelAccepts2.
Context (n : nat) (rec : parser) (Hrec : accepts (Or n) rec stopO).

Lemma Items_not_nil es ts : Items (Or n) es ts -> es <> [].
Proof using. by destruct 1. Qed.

Lemma accepts_items es ts rest F :
  Items (Or n) es ts -> tok_Type (current rest) = TokenParenClose -> length ts <= F ->
  expr_list rec F (ts ++ rest) = Ok (es, rest).
Proof using Hrec.
  intros Hi Hr. revert F. induction Hi as [e ts He|e ts c es us He Hc Hi IH]; intros F HF.
  - assert (stopO (current rest)) by (apply stopO_type; rewrite Hr; set_solver).
    assert (match_type TokenComma rest = None) as Hn.
    { unfold match_type. rewrite decide_False; [done|congruence]. }
    destruct F; cbn [expr_list]; rewrite (Hrec e ts rest) by done; cbn [res_bind]; by rewrite Hn.
  - rewrite <- List.app_assoc. rewrite List.length_app in HF. simpl in HF. destruct F as [|F]; [lia|].
    cbn [expr_list]. rewrite (Hrec e ts) by (try done; apply stopO_type; simpl; rewrite Hc; set_solver).
    cbn [res_bind app]. rewrite match_type_cons, decide_True by done.
    rewrite IH by lia. done.
Qed.

Lemma accepts_arguments es ts c rest :
  Arguments_ (Or n) es ts -> tok_Type c = TokenParenClose ->
  parse_list rec (ts ++ c :: rest) = Ok (es, c :: rest).
Proof using Hrec.
  unfold parse_list. intros [[-> ->]|Hi] Hc.
  - by rewrite decide_True.
  - rewrite decide_False.
    + apply accepts_items; [done|done|]. rewrite List.length_app. lia.
    + destruct Hi as [e ts He|e ts d es us He]; [|rewrite <- List.app_assoc]; by apply (Or_not_close n e).
Qed.

Lemma current_cons t p : current (t :: p) = t.
Proof using. done. Qed.

Lemma accepts_whens cs ts rest F :
  Whens (Or n) cs ts -> (exists k, current rest = mkToken TokenKeyword k /\ k ∈ ["ELSE"; "END"]) ->
  length ts <= F -> case_when_loop rec F (ts ++ rest) = Ok (cs, rest).
Proof using Hrec.
  intros Hw (k & Hk & Hin). revert F. induction Hw as [|w e k1 ws k2 us cs vs H1 Hw H2 He Hc IH]; intros F HF.
  - assert (matchKeyword "WHEN" rest = None) as Hn.
    { unfold matchKeyword. rewrite Hk. rewrite !elem_of_cons, elem_of_nil in Hin.
      destruct Hin as [->|[->|[]]]; reflexivity. }
    destruct F; cbn [case_when_loop app]; by rewrite Hn.
  - simpl in HF. destruct F as [|F]; [lia|]. cbn [app case_when_loop].
    rewrite matchKeyword_cons, H1. rewrite <- List.app_assoc.
    pose proof (proj1 (keyword_spec _ _) H2) as ->.
    rewrite (Hrec w ws) by (try done; apply stopO_keyword; set_solver).
    cbn [res_bind app]. rewrite matchKeyword_cons, H2. rewrite <- List.app_assoc.
    rewrite (Hrec e us).
    + cbn [res_bind]. rewrite !List.length_app in HF. simpl in HF. rewrite List.length_app in HF.
      rewrite IH by lia. done.
    + done.
    + destruct Hc as [|? ? k3 ? ? ? ? ? H3]; cbn [app].
      * rewrite Hk. apply stopO_keyword. set_solver.
      * apply keyword_spec in H3 as ->. rewrite current_cons. apply stopO_keyword. set_solver.
Qed.

Lemma accepts_primary : accepts (Primary (Or n)) (parsePrimary rec) stopP.
Proof using Hrec.
  intros e ts rest He Hs.
  destruct He as [t v Ht Hv|t Ht|t Ht|t o es ts c Ht Ho Ha Hc|o e ts c Ho He Hc|k cs ws el es k' Hk Hw Hne Hel Hk'];
    unfold parsePrimary; cbn [app current]; cbv zeta.
  - rewrite Ht, Hv. done.
  - by rewrite Ht.
  - rewrite Ht. unfold parseIdentifierPrimary. cbn [next tail]. unfold match_type.
    by rewrite decide_False.
  - rewrite Ht. unfold parseIdentifierPrimary. cbn [next tail]. rewrite match_type_cons, decide_True by done.
    unfold parseCallArgs. rewrite <- List.app_assoc. cbn [app]. rewrite (accepts_arguments es) by done.
    cbn [res_bind]. by rewrite match_type_cons, decide_True.
  - rewrite Ho. unfold parseParenthesizedPrimary. cbn [next tail]. rewrite <- List.app_assoc. cbn [app].
    rewrite (Hrec e ts) by (try done; apply stopO_type; simpl; rewrite Hc; set_solver).
    cbn [res_bind]. by rewrite match_type_cons, decide_True.
  - pose proof (proj1 (keyword_spec _ _) Hk) as ->. cbn [tok_Type].
    rewrite matchKeyword_cons, Hk. unfold parseCasePrimary, parseCaseWhenClauses.
    assert (exists k, current ((es ++ [k']) ++ rest) = mkToken TokenKeyword k /\ k ∈ ["ELSE"; "END"]) as Hnext.
    { destruct Hel as [[-> ->]|(k0 & us & -> & H0 & _)]; cbn [app current].
      - apply keyword_spec in Hk'. eexists. split; [done|set_solver].
      - apply keyword_spec in H0. eexists. split; [done|set_solver]. }
    rewrite <- (List.app_assoc ws). rewrite (accepts_whens cs); [|done|done|rewrite List.length_app; lia].
    cbn [res_bind]. destruct cs; [done|]. cbn [res_bind]. rewrite <- List.app_assoc. cbn [app].
    destruct Hel as [[-> ->]|(k0 & us & -> & H0 & Hel)].
    + cbn [app]. rewrite matchKeyword_cons. pose proof (proj1 (keyword_spec _ _) Hk') as ->.
      change (is_keyword "ELSE" (mkToken TokenKeyword "END")) with false. cbn [res_bind].
      by rewrite matchKeyword_cons, Hk'.
    + cbn [app]. rewrite matchKeyword_cons, H0. pose proof (proj1 (keyword_spec _ _) Hk') as ->.
      rewrite (Hrec el us) by (try done; apply stopO_keyword; set_solver).
      cbn [res_bind]. by rewrite matchKeyword_cons, Hk'.
Qed.

Lemma accepts_arithmetic : accepts (Arithmetic (Or n)) (parseArithmetic rec) stopA.
Proof using Hrec.
  apply accepts_chain; [|apply stop_add_F]. apply accepts_chain; [apply accepts_primary|].
  intros o. apply stop_op_F.
Qed.

Lemma keyword_stopA kw t : is_keyword kw t = true -> stopA t.
Proof using. intros ->%keyword_spec. apply stopA_keyword. Qed.

Lemma accepts_comparison : accepts (Comparison (Or n)) (parseComparison rec) stopC.
Proof using Hrec.
  pose proof accepts_arithmetic as HA. intros e ts rest He (Hs & Hno & Hnk). unfold parseComparison.
  destruct He as [e ts He|l ts o r us Hl Ho Hm Ha Hr|l ts k r us Hl Hk Hr|l ts k o es us c Hl Hk Ho He Hc
    |l ts k k' Hl Hk Hk'|l ts k m k' Hl Hk Hm Hk'|l ts k a us k' b vs Hl Hk Hva Hk' Hvb].
  - rewrite (HA e ts) by done. cbn [res_bind]. cbv zeta.
    destruct (tok_Type (current rest)) eqn:Ht; try done.
    specialize (Hnk eq_refl). unfold parseKeywordComparison.
    rewrite !elem_of_cons, elem_of_nil in Hnk.
    destruct (String.eqb_spec (tok_Value (current rest)) "LIKE"); [tauto|].
    destruct (String.eqb_spec (tok_Value (current rest)) "ILIKE"); [tauto|].
    destruct (String.eqb_spec (tok_Value (current rest)) "IN"); [tauto|].
    destruct (String.eqb_spec (tok_Value (current rest)) "IS"); [tauto|].
    destruct (String.eqb_spec (tok_Value (current rest)) "BETWEEN"); [tauto|]. done.
  - rewrite <- List.app_assoc. cbn [app].
    assert (stopA o) as Hso by (unfold stopA, stopF, stopP; split_and!; try done; by rewrite Ho).
    rewrite (HA l ts) by done. cbn [res_bind]. rewrite current_cons. cbv zeta. rewrite Ho.
    cbn [next tail]. by rewrite (HA r us).
  - rewrite <- List.app_assoc. cbn [app].
    assert (exists kw, k = mkToken TokenKeyword kw /\ (kw = "LIKE" \/ kw = "ILIKE")) as (kw & -> & Hkw).
    { destruct Hk as [Hk|Hk]; apply keyword_spec in Hk; eauto. }
    rewrite (HA l ts) by (try done; apply stopA_keyword). cbn [res_bind current tok_Type tok_Value]. cbv zeta.
    assert (parseKeywordComparison rec l kw (mkToken TokenKeyword kw :: us ++ rest)
      = Some (let? (rhs, r) := parseArithmetic rec (us ++ rest) in
              Ok (BinaryExpr (binaryOpFromToken kw) l rhs, r))) as ->.
    { by destruct Hkw as [->| ->]. }
    by rewrite (HA r us).
  - pose proof (proj1 (keyword_spec _ _) Hk) as ->. rewrite <- List.app_assoc. cbn [app].
    rewrite (HA l ts) by (try done; apply stopA_keyword). cbn [res_bind current tok_Type tok_Value]. cbv zeta.
    unfold parseKeywordComparison. cbn [String.eqb Ascii.eqb Bool.eqb orb].
    unfold parseInComparison. cbn [next tail]. rewrite match_type_cons, decide_True by done.
    rewrite <- List.app_assoc. cbn [app]. rewrite (accepts_arguments es) by done. cbn [res_bind].
    by rewrite match_type_cons, decide_True.
  - pose proof (proj1 (keyword_spec _ _) Hk) as ->. pose proof (proj1 (keyword_spec _ _) Hk') as ->.
    rewrite <- List.app_assoc. cbn [app].
    by rewrite (HA l ts) by (try done; apply stopA_keyword).
  - pose proof (proj1 (keyword_spec _ _) Hk) as ->. pose proof (proj1 (keyword_spec _ _) Hk') as ->.
    pose proof (proj1 (keyword_spec _ _) Hm) as ->. rewrite <- List.app_assoc. cbn [app].
    by rewrite (HA l ts) by (try done; apply stopA_keyword).
  - pose proof (proj1 (keyword_spec _ _) Hk) as ->. pose proof (proj1 (keyword_spec _ _) Hk') as ->.
    rewrite <- List.app_assoc. cbn [app].
    rewrite (HA l ts) by (try done; apply stopA_keyword). cbn [res_bind current tok_Type tok_Value]. cbv zeta.
    unfold parseKeywordComparison. cbn [String.eqb Ascii.eqb Bool.eqb orb].
    unfold parseBetweenComparison. cbn [next tail]. rewrite <- List.app_assoc. cbn [app].
    rewrite (HA a us) by (try done; apply stopA_keyword). cbn [res_bind].
    rewrite matchKeyword_cons, Hk'. by rewrite (HA b vs).
Qed.

Lemma accepts_negation : accepts (Negation (Or n)) (parseNot rec) stopC.
Proof using Hrec.
  pose proof accepts_comparison as HC. intros e ts rest He Hs. induction He as [e ts He|k e ts Hk He IH].
  - assert (starts first_ok ts) as Hst.
    { inversion He; subst; try apply starts_app; eauto using Arithmetic_starts. }
    destruct ts as [|t ts]; [done|]. cbn [app parseNot].
    assert (is_keyword "NOT" t = false) as ->; [|by apply (HC e (t :: ts))].
    destruct (is_keyword "NOT" t) eqn:E; [|done]. apply keyword_spec in E as ->.
    destruct Hst as [Hst|Hst]; [|done]. simpl in Hst. rewrite !elem_of_cons, elem_of_nil in Hst. naive_solver.
  - cbn [app parseNot]. rewrite Hk. by rewrite IH.
Qed.

Lemma accepts_disjunction : accepts (Disjunction (Or n)) (parseOr_body rec) stopO.
Proof using Hrec.
  apply accepts_chain; [|apply stop_or]. apply accepts_chain; [apply accepts_negation|apply stop_and].
Qed.
End LevelAccepts2.

Lemma accepts_or n : accepts (Or n) (parseOr n) stopO.
Proof using.
  induction n as [|n IH]; [by intros e ts rest|]. cbn [Or parseOr]. by apply accepts_disjunction.
Qed.

(** ** What the parser accepts is a phrase *)

(** Reassociates concatenations of token lists. *)
Ltac tokens_assoc := cbn [app]; repeat (progress (rewrite <- ?List.app_assoc; cbn [app])); reflexivity.

Definition sound (G : ExprNode -> list Token -> Prop) (p : parser) : Prop :=
  forall toks e r, p toks = Ok (e, r) -> exists ts, toks = ts ++ r /\ G e ts.

Lemma matchKeyword_Some kw p q :
  matchKeyword kw p = Some q -> exists t, p = t :: q /\ is_keyword kw t = true.
Proof using.
  unfold matchKeyword. destruct (is_keyword kw (current p)) eqn:E; [|done]. intros [= <-].
  destruct p as [|t p]; [by apply keyword_spec in E|]. by exists t.
Qed.
Lemma match_type_Some ty p q :
  ty <> TokenEOF -> match_type ty p = Some q -> exists t, p = t :: q /\ tok_Type t = ty.
Proof using.
  unfold match_type. case_decide as E; [|done]. intros Hne [= <-].
  destruct p as [|t p]; [by subst|]. by exists t.
Qed.
Lemma current_type p ty :
  tok_Type (current p) = ty -> ty <> TokenEOF -> exists t q, p = t :: q /\ tok_Type t = ty.
Proof using. destruct p as [|t q]; [by intros <-|]. eauto. Qed.
Lemma is_op_current is_op p :
  (forall t, is_op t = true -> tok_Type t <> TokenEOF) -> is_op (current p) = true ->
  exists o q, p = o :: q /\ is_op o = true.
Proof using. intros H0 Hp. destruct p as [|o q]; [by apply H0 in Hp|]. eauto. Qed.

Lemma sound_chain G p is_op :
  sound G p -> (forall t, is_op t = true -> tok_Type t <> TokenEOF) ->
  sound (Chain G is_op) (left_assoc p is_op).
Proof using.
  intros HG Hop.
  assert (forall F l pre p' e r, Chain G is_op l pre -> left_assoc_loop p is_op F l p' = Ok (e, r) ->
    exists ts, pre ++ p' = ts ++ r /\ Chain G is_op e ts) as Hloop.
  { induction F as [|F IH]; intros l pre p' e r Hl; cbn [left_assoc_loop];
      (destruct (is_op (current p')) eqn:E; [|intros [= <- <-]; by exists pre]); [done|].
    intros ([rhs q] & Hr & Hq)%res_bind_ok.
    destruct (is_op_current is_op p' Hop E) as (o & us & -> & Ho). cbn [next tail current] in *.
    destruct (HG us rhs q Hr) as (vs & -> & Hv).
    destruct (IH _ (pre ++ o :: vs) q e r (Chain_step _ _ l pre o rhs vs Hl Ho Hv) Hq) as (ts & Hts & Hc).
    exists ts. split; [|done]. rewrite <- Hts, <- List.app_assoc. done. }
  intros toks e r. unfold left_assoc. intros ([l q] & Hl & Hq)%res_bind_ok.
  destruct (HG toks l q Hl) as (ts & -> & Ht). eapply Hloop; [by apply Chain_one|done].
Qed.

Section LevelSound.
Context (n : nat) (rec : parser) (Hrec : sound (Or n) rec).

Lemma sound_items F toks es r :
  expr_list rec F toks = Ok (es, r) -> exists ts, toks = ts ++ r /\ Items (Or n) es ts.
Proof using Hrec.
  revert toks es r. induction F as [|F IH]; intros toks es r; cbn [expr_list];
    intros ([e q] & He & Hq)%res_bind_ok; destruct (Hrec toks e q He) as (ts & -> & Hs);
    (destruct (match_type TokenComma q) as [q'|] eqn:E;
      [|injection Hq as <- <-; exists ts; split; [done|by constructor]]); [done|].
  apply match_type_Some in E as (c & -> & Hc); [|done].
  apply res_bind_ok in Hq as ([es' r'] & Hes & [= <- <-]).
  destruct (IH q' es' r' Hes) as (us & -> & Hi). exists (ts ++ c :: us).
  split; [tokens_assoc|by constructor].
Qed.

Lemma sound_arguments toks es r :
  parse_list rec toks = Ok (es, r) -> exists ts, toks = ts ++ r /\ Arguments_ (Or n) es ts.
Proof using Hrec.
  unfold parse_list. case_decide.
  - intros [= <- <-]. exists []. split; [done|by left].
  - intros (ts & -> & Hi)%sound_items. exists ts. split; [done|by right].
Qed.

Lemma sound_whens F toks cs r :
  case_when_loop rec F toks = Ok (cs, r) -> exists ts, toks = ts ++ r /\ Whens (Or n) cs ts.
Proof using Hrec.
  revert toks cs r. induction F as [|F IH]; intros toks cs r; cbn [case_when_loop];
    (destruct (matchKeyword "WHEN" toks) as [p|] eqn:E;
      [|intros [= <- <-]; exists []; split; [done|constructor]]); [done|].
  apply matchKeyword_Some in E as (k1 & -> & H1).
  intros ([w q] & Hw & Hq)%res_bind_ok. destruct (Hrec p w q Hw) as (ws & -> & Hws).
  destruct (matchKeyword "THEN" q) as [q1|] eqn:E2; [|done].
  apply matchKeyword_Some in E2 as (k2 & -> & H2).
  apply res_bind_ok in Hq as ([e q2] & He & Hq). destruct (Hrec q1 e q2 He) as (ts & -> & Hts).
  apply res_bind_ok in Hq as ([cs' q3] & Hcs & [= <- <-]).
  destruct (IH q2 cs' q3 Hcs) as (us & -> & Hus).
  exists (k1 :: ws ++ k2 :: ts ++ us). split; [|by apply Whens_cons].
  tokens_assoc.
Qed.

Lemma sound_case p e r k :
  is_keyword "CASE" k = true -> parseCasePrimary rec p = Ok (e, r) ->
  exists ts, k :: p = ts ++ r /\ Primary (Or n) e ts.
Proof using Hrec.
  intros Hk. unfold parseCasePrimary, parseCaseWhenClauses.
  intros ([cs q] & Hcs & Hq)%res_bind_ok. apply res_bind_ok in Hcs as ([cs' q'] & Hw & Hcs).
  assert (cs' = cs /\ q' = q /\ cs <> []) as (-> & -> & Hne).
  { destruct cs' as [|c cs']; [done|]. by injection Hcs as <- <-. }
  clear Hcs. apply sound_whens in Hw as (ws & -> & Hws).
  apply res_bind_ok in Hq as ([el q2] & Hel & Hq).
  assert (exists es, q = es ++ q2 /\ Else_ (Or n) el es) as (es & -> & He).
  { destruct (matchKeyword "ELSE" q) as [q3|] eqn:E.
    - apply matchKeyword_Some in E as (k0 & -> & H0). destruct (Hrec _ _ _ Hel) as (us & -> & Hus).
      exists (k0 :: us). split; [done|]. right. eauto.
    - injection Hel as <- <-. exists []. split; [done|by left]. }
  destruct (matchKeyword "END" q2) as [r'|] eqn:E; [|done]. injection Hq as <- <-.
  apply matchKeyword_Some in E as (k' & -> & Hk').
  exists (k :: ws ++ es ++ [k']). split; [|by constructor].
  tokens_assoc.
Qed.

Lemma sound_primary : sound (Primary (Or n)) (parsePrimary rec).
Proof using Hrec.
  intros toks e r. unfold parsePrimary. cbv zeta.
  assert (forall m, match matchKeyword "CASE" toks with
      | Some p => parseCasePrimary rec p | None => Err m end = Ok (e, r) ->
    exists ts, toks = ts ++ r /\ Primary (Or n) e ts) as Hcase.
  { intros m. destruct (matchKeyword "CASE" toks) as [p|] eqn:E; [|done].
    apply matchKeyword_Some in E as (k & -> & Hk). by apply sound_case. }
  destruct (tok_Type (current toks)) eqn:Ht; try apply Hcase;
    (apply current_type in Ht as (t & q & -> & Ht); [|done]); cbn [current next tail].
  - unfold parseIdentifierPrimary. cbn [next tail].
    destruct (match_type TokenParenOpen q) as [p|] eqn:E.
    + apply match_type_Some in E as (o & -> & Ho); [|done]. unfold parseCallArgs.
      intros ([es r'] & Hes & [= <- <-])%res_bind_ok.
      apply res_bind_ok in Hes as ([es' q'] & Hl & Hq).
      apply sound_arguments in Hl as (ts & -> & Ha).
      destruct (match_type TokenParenClose q') as [r''|] eqn:E2; [|done].
      injection Hq as <- <-. apply match_type_Some in E2 as (c & -> & Hc); [|done].
      exists (t :: o :: ts ++ [c]). split; [|by apply Primary_call].
      tokens_assoc.
    + intros [= <- <-]. exists [t]. split; [done|by constructor].
  - intros (v & Hv & [= <- <-])%res_bind_ok. exists [t]. split; [done|by constructor].
  - intros [= <- <-]. exists [t]. split; [done|by constructor].
  - unfold parseParenthesizedPrimary. intros ([e' q'] & He & Hq)%res_bind_ok.
    destruct (Hrec q e' q' He) as (ts & -> & Hts).
    destruct (match_type TokenParenClose q') as [r'|] eqn:E; [|done]. injection Hq as <- <-.
    apply match_type_Some in E as (c & -> & Hc); [|done].
    exists (t :: ts ++ [c]). split; [|by apply Primary_paren]. tokens_assoc.
Qed.

Lemma sound_arithmetic : sound (Arithmetic (Or n)) (parseArithmetic rec).
Proof using Hrec.
  apply sound_chain; [|apply is_operator_not_eof].
  apply sound_chain; [apply sound_primary|apply is_operator_not_eof].
Qed.

(** After an arithmetic phrase, the next token is not an arithmetic operator. *)
Lemma left_assoc_stops p is_op toks e r :
  left_assoc p is_op toks = Ok (e, r) -> is_op (current r) = false.
Proof using.
  unfold left_assoc. intros ([l q] & _ & Hq)%res_bind_ok. revert Hq. generalize (length q) as F.
  intros F. revert l q. induction F as [|F IH]; intros l q; cbn [left_assoc_loop];
    destruct (is_op (current q)) eqn:E; try done; try (by intros [= <- <-]).
  intros ([rhs q'] & _ & Hq)%res_bind_ok. eauto.
Qed.
Lemma arithmetic_stops toks e r :
  parseArithmetic rec toks = Ok (e, r) -> mul_op (current r) = false /\ add_op (current r) = false.
Proof using.
  intros Hp. split; [|by eapply left_assoc_stops].
  unfold parseArithmetic, left_assoc in Hp. apply res_bind_ok in Hp as ([l q] & Hl & Hq).
  apply left_assoc_stops in Hl. revert Hl Hq. generalize (length q) as F.
  intros F. revert l q. induction F as [|F IH]; intros l q Hl; cbn [left_assoc_loop];
    destruct (is_operator_in ["+"; "-"; "||"] (current q)) eqn:E; try done; try (by intros [= <- <-]).
  intros ([rhs q'] & Hr & Hq)%res_bind_ok. apply left_assoc_stops in Hr. eauto.
Qed.

Lemma keyword_of t kw : tok_Type t = TokenKeyword -> tok_Value t = kw -> is_keyword kw t = true.
Proof using. intros H1 H2. apply keyword_spec. destruct t; simpl in *; congruence. Qed.

Lemma sound_keyword_comparison l ts k q m e r :
  Arithmetic (Or n) l ts -> tok_Type k = TokenKeyword ->
  parseKeywordComparison rec l (tok_Value k) (k :: q) = Some m -> m = Ok (e, r) ->
  exists us, ts ++ k :: q = us ++ r /\ Comparison (Or n) e us.
Proof using Hrec.
  intros Hl Hk. pose proof sound_arithmetic as HA. unfold parseKeywordComparison.
  destruct (String.eqb (tok_Value k) "LIKE" || String.eqb (tok_Value k) "ILIKE") eqn:E1.
  { intros [= <-] ([x q'] & Hx & [= <- <-])%res_bind_ok. cbn [next tail] in Hx.
    destruct (HA _ _ _ Hx) as (us & -> & Hus). exists (ts ++ k :: us).
    split; [tokens_assoc|]. apply Comparison_like; [done| |done].
    apply orb_true_iff in E1 as [E1|E1]; apply String.eqb_eq in E1; [left|right]; by apply keyword_of. }
  destruct (String.eqb_spec (tok_Value k) "IN") as [E2|].
  { intros [= <-]. unfold parseInComparison. cbn [next tail].
    destruct (match_type TokenParenOpen q) as [p|] eqn:E; [|done].
    apply match_type_Some in E as (o & -> & Ho); [|done].
    intros ([es q'] & Hes & Hq)%res_bind_ok. apply sound_arguments in Hes as (us & -> & Hus).
    destruct (match_type TokenParenClose q') as [r'|] eqn:E3; [|done]. injection Hq as <- <-.
    apply match_type_Some in E3 as (c & -> & Hc); [|done].
    exists (ts ++ k :: o :: us ++ [c]). split; [tokens_assoc|].
    apply Comparison_in; try done. by apply keyword_of. }
  destruct (String.eqb_spec (tok_Value k) "IS") as [E3|].
  { intros [= <-]. unfold parseIsComparison. cbn [next tail]. pose proof (keyword_of _ _ Hk E3) as Hkk.
    destruct (matchKeyword "NOT" q) as [p|] eqn:E; cbv zeta beta iota.
    - apply matchKeyword_Some in E as (nt & -> & Hnt).
      destruct (matchKeyword "NULL" p) as [r'|] eqn:E4; [|done]. intros [= <- <-].
      apply matchKeyword_Some in E4 as (k' & -> & Hk'). exists (ts ++ [k; nt; k']).
      split; [tokens_assoc|by apply Comparison_is_not_null].
    - destruct (matchKeyword "NULL" q) as [r'|] eqn:E4; [|done]. intros [= <- <-].
      apply matchKeyword_Some in E4 as (k' & -> & Hk'). exists (ts ++ [k; k']).
      split; [tokens_assoc|by apply Comparison_is_null]. }
  destruct (String.eqb_spec (tok_Value k) "BETWEEN") as [E4|]; [|done].
  intros [= <-]. unfold parseBetweenComparison. cbn [next tail].
  intros ([a q'] & Ha & Hq)%res_bind_ok. destruct (HA _ _ _ Ha) as (us & -> & Hus).
  destruct (matchKeyword "AND" q') as [p|] eqn:E; [|done].
  apply matchKeyword_Some in E as (k' & -> & Hk').
  apply res_bind_ok in Hq as ([b r'] & Hb & [= <- <-]). destruct (HA _ _ _ Hb) as (vs & -> & Hvs).
  exists (ts ++ k :: us ++ k' :: vs). split.
  - tokens_assoc.
  - apply Comparison_between; try done. by apply keyword_of.
Qed.

Lemma sound_comparison : sound (Comparison (Or n)) (parseComparison rec).
Proof using Hrec.
  pose proof sound_arithmetic as HA. intros toks e r. unfold parseComparison.
  intros ([l q] & Hl & Hq)%res_bind_ok. destruct (arithmetic_stops _ _ _ Hl) as [Hm Hd].
  destruct (HA _ _ _ Hl) as (ts & -> & Hts). cbv zeta in Hq.
  assert (Ok (l, q) = Ok (e, r) -> exists us, ts ++ q = us ++ r /\ Comparison (Or n) e us) as Hnone.
  { intros [= <- <-]. exists ts. split; [done|by constructor]. }
  destruct (tok_Type (current q)) eqn:Ht; try (by apply Hnone);
    (apply current_type in Ht as (o & q' & -> & Ht); [|done]); cbn [current next tail] in *.
  - apply res_bind_ok in Hq as ([x r'] & Hx & [= <- <-]). destruct (HA _ _ _ Hx) as (us & -> & Hus).
    exists (ts ++ o :: us). split; [tokens_assoc|by apply Comparison_op].
  - destruct (parseKeywordComparison rec l (tok_Value o) (o :: q')) as [m|] eqn:E; [|by apply Hnone].
    by eapply sound_keyword_comparison.
Qed.

Lemma sound_negation : sound (Negation (Or n)) (parseNot rec).
Proof using Hrec.
  pose proof sound_comparison as HC. intros toks. induction toks as [|t toks IH]; intros e r; cbn [parseNot].
  - intros (ts & Hts & Hc)%HC. exists ts. split; [done|by constructor].
  - destruct (is_keyword "NOT" t) eqn:E.
    + intros ([x q] & Hx & [= <- <-])%res_bind_ok. destruct (IH _ _ Hx) as (ts & -> & Hts).
      exists (t :: ts). split; [done|by constructor].
    + intros (ts & Hts & Hc)%HC. exists ts. split; [done|by constructor].
Qed.

Lemma sound_disjunction : sound (Disjunction (Or n)) (parseOr_body rec).
Proof using Hrec.
  apply sound_chain; [|apply is_keyword_not_eof].
  apply sound_chain; [apply sound_negation|apply is_keyword_not_eof].
Qed.
End LevelSound.

Lemma sound_or n : sound (Or n) (parseOr n).
Proof using.
  induction n as [|n IH]; [done|]. cbn [Or parseOr]. by apply sound_disjunction.
Qed.

(** ** A phrase nests no deeper than it is long *)

Section Cut.
Context (O1 O2 : ExprNode -> list Token -> Prop).

(** [O1] may be replaced by [O2] on phrases shorter than [m]. *)
Definition below (m : nat) : Prop := forall e ts, length ts < m -> O1 e ts -> O2 e ts.

Lemma below_le m k : below m -> k <= m -> below k.
Proof using. intros Hb Hk e ts Hl. apply Hb. lia. Qed.

Lemma cut_chain (G1 G2 : ExprNode -> list Token -> Prop) is_op e ts :
  Chain G1 is_op e ts -> (forall e us, length us <= length ts -> G1 e us -> G2 e us) ->
  Chain G2 is_op e ts.
Proof using.
  induction 1 as [e ts He|l ts o r us Hl IH Ho Hr]; intros HG.
  - constructor. by apply HG.
  - rewrite List.length_app in HG. simpl in HG. constructor; [|done|].
    + apply IH. intros. apply HG; [lia|done].
    + apply HG; [lia|done].
Qed.

Lemma cut_items es ts : Items O1 es ts -> below (S (length ts)) -> Items O2 es ts.
Proof using.
  induction 1 as [e ts He|e ts c es us He Hc Hi IH]; intros Hb.
  - constructor. apply Hb; [lia|done].
  - rewrite List.length_app in Hb. simpl in Hb. constructor; [|done|].
    + apply Hb; [lia|done].
    + apply IH. eapply below_le; [done|lia].
Qed.
Lemma cut_arguments es ts : Arguments_ O1 es ts -> below (S (length ts)) -> Arguments_ O2 es ts.
Proof using. intros [?|Hi] Hb; [by left|right]. by apply cut_items. Qed.
Lemma cut_whens cs ts : Whens O1 cs ts -> below (S (length ts)) -> Whens O2 cs ts.
Proof using.
  induction 1 as [|w e k1 ws k2 us cs vs H1 Hw H2 He Hc IH]; intros Hb; [constructor|].
  simpl in Hb. rewrite List.length_app in Hb. simpl in Hb. rewrite List.length_app in Hb.
  constructor; try done.
  - apply Hb; [lia|done].
  - apply Hb; [lia|done].
  - apply IH. eapply below_le; [done|lia].
Qed.

Lemma cut_primary e ts : Primary O1 e ts -> below (length ts) -> Primary O2 e ts.
Proof using.
  intros He Hb. destruct He as [t v Ht Hv|t Ht|t Ht|t o es ts c Ht Ho Ha Hc|o e ts c Ho He Hc|k cs ws el es k' Hk Hw Hne Hel Hk'].
  - by constructor.
  - by constructor.
  - by constructor.
  - constructor; try done. apply cut_arguments; [done|]. eapply below_le; [done|].
    simpl. rewrite List.length_app. simpl. lia.
  - constructor; try done. apply Hb; [|done]. simpl. rewrite List.length_app. simpl. lia.
  - simpl in Hb. rewrite !List.length_app in Hb. simpl in Hb. constructor; try done.
    + apply cut_whens; [done|]. eapply below_le; [done|lia].
    + destruct Hel as [?|(k0 & us & -> & H0 & Hel)]; [by left|right]. exists k0, us.
      split_and!; [done..|]. apply Hb; [simpl; lia|done].
Qed.

Lemma cut_arithmetic e ts : Arithmetic O1 e ts -> below (length ts) -> Arithmetic O2 e ts.
Proof using.
  intros He Hb. eapply cut_chain; [exact He|]. intros e1 us Hus He1.
  eapply cut_chain; [exact He1|]. intros e2 vs Hvs He2. apply cut_primary; [done|].
  eapply below_le; [done|lia].
Qed.

Lemma cut_comparison e ts : Comparison O1 e ts -> below (length ts) -> Comparison O2 e ts.
Proof using.
  intros He Hb.
  destruct He as [e ts He|l ts o r us Hl Ho Hm Ha Hr|l ts k r us Hl Hk Hr|l ts k o es us c Hl Hk Ho He Hc
    |l ts k k' Hl Hk Hk'|l ts k m k' Hl Hk Hm Hk'|l ts k a us k' b vs Hl Hk Hva Hk' Hvb];
    repeat (rewrite ?List.length_app in Hb; simpl in Hb);
    [apply Comparison_none|apply Comparison_op|apply Comparison_like|apply Comparison_in
    |apply Comparison_is_null|apply Comparison_is_not_null|apply Comparison_between]; try done;
    first [apply cut_arithmetic; [done|]|apply cut_arguments; [done|]]; (eapply below_le; [done|lia]).
Qed.

Lemma cut_negation e ts : Negation O1 e ts -> below (length ts) -> Negation O2 e ts.
Proof using.
  induction 1 as [e ts He|k e ts Hk He IH]; intros Hb.
  - constructor. by apply cut_comparison.
  - constructor; [done|]. apply IH. eapply below_le; [done|simpl; lia].
Qed.

Lemma cut_disjunction e ts : Disjunction O1 e ts -> below (length ts) -> Disjunction O2 e ts.
Proof using.
  intros He Hb. eapply cut_chain; [exact He|]. intros e1 us Hus He1.
  eapply cut_chain; [exact He1|]. intros e2 vs Hvs He2. apply cut_negation; [done|].
  eapply below_le; [done|lia].
Qed.
End Cut.

Lemma Or_depth n m e ts : Or n e ts -> length ts < m -> Or m e ts.
Proof using.
  revert m e ts. induction n as [|n IH]; intros m e ts; [done|]. destruct m as [|m]; [lia|].
  cbn [Or]. intros He Hm. eapply cut_disjunction; [exact He|].
  intros e' us Hus Ho. apply IH; [done|lia].
Qed.
End Grammar.

(** C31: the parser is the grammar: on any sequence of tokens (none of them an
    end-of-input marker) [Parse] returns a tree exactly when the grammar derives
    the sequence with that tree.  So precedence and associativity are those of
    the grammar, every phrase of it is accepted, nothing else is, and no
    sequence has two readings. *)
Theorem Parse_exact `{GoRuntime} (toks : list Token) (e : ExprNode) :
  Forall (fun t => tok_Type t <> TokenEOF) toks ->
  Parse toks = Ok e <-> Expression e toks.
Proof.
  intros Hne. unfold Parse. split.
  - intros ([x r] & Hx & Hr)%res_bind_ok. case_decide as Hc; [|done]. injection Hr as <-.
    apply sound_or in Hx as (ts & -> & Hts). exists (S (length (ts ++ r))).
    destruct r as [|t r].
    + by rewrite List.app_nil_r in *.
    + apply Forall_app in Hne as [_ Hne]. apply Forall_cons in Hne as [Hne _]. done.
  - intros [n Hn]. apply (Or_depth _ (S (length toks))) in Hn; [|lia].
    pose proof (accepts_or _ e toks [] Hn ltac:(apply stopO_type; set_solver)) as Ha.
    rewrite List.app_nil_r in Ha. rewrite Ha. cbn [res_bind]. done.
Qed.

Lemma Parse_exact_witness :
  let _ := demo_runtime in
  let a := mkToken TokenIdentifier "a" in
  let plus := mkToken TokenOperator "+" in
  let times := mkToken TokenOperator "*" in
  let e := BinaryExpr "add" (ColumnRefExpr "" "a")
             (BinaryExpr "multiply" (ColumnRefExpr "" "a") (ColumnRefExpr "" "a")) in
  Expression e [a; plus; a; times; a].
Proof.
  intros. apply (Parse_exact [a; plus; a; times; a] e).
  - repeat constructor; discriminate.
  - vm_compute. reflexivity.
Defined.
