(* ===== verification/Suggest.v ===== *)
(** The suggestions of [internal/query/validation_helpers.go]: the edit distance,
    computed on two rows, and the closest candidates offered with an error about
    an unknown name. *)

From S2P Require Import Prelude GoStrings.
From stdpp Require Import options.
#[local] Open Scope Z_scope.

Definition maxFieldSuggestions : nat := 3.

Definition validationErrWithCode (field message code value : string) (allowed : list string) : goerr :=
  EValidation [mkValidationError field code message value allowed].

(** * The edit distance *)

(** The inner loop: from the row [v0] of the previous byte of [s], the rest of
    the row of its byte [a]; [prev] is the entry written last. *)
Fixpoint row_step (a : ascii) (t : list ascii) (v0 : list Z) (prev : Z) : list Z :=
  match t, v0 with
  | b :: t, v0j :: ((v0j1 :: _) as v0) =>
      let cost := if Ascii.eqb a b then 0 else 1 in
      let m := Z.min (prev + 1) (v0j1 + 1) in
      let v1j1 := if v0j + cost <? m then v0j + cost else m in
      v1j1 :: row_step a t v0 v1j1
  | _, _ => []
  end.

(** The outer loop, from index [i]. *)
Fixpoint rows (s t : list ascii) (i : Z) (v0 : list Z) : list Z :=
  match s with
  | [] => v0
  | a :: s => rows s t (i + 1) ((i + 1) :: row_step a t v0 (i + 1))
  end.

Definition levenshteinDistance (s t : string) : Z :=
  if String.eqb s t then 0
  else if str_empty s then Z.of_nat (String.length t)
  else if str_empty t then Z.of_nat (String.length s)
  else
    let v0 := map Z.of_nat (seq 0 (S (String.length t))) in
    List.last (rows (list_ascii_of_string s) (list_ascii_of_string t) 0 v0) 0.

(** * The suggestions *)

Record candidateWithDist : Type := mkCandidate { cand_name : string; cand_dist : Z }.

(** The comparison given to [slices.SortFunc]: not greater. *)
Definition candidate_le (a b : candidateWithDist) : bool :=
  if Z.eqb (cand_dist a) (cand_dist b) then String.leb (cand_name a) (cand_name b)
  else cand_dist a <=? cand_dist b.

Fixpoint insert_candidate (c : candidateWithDist) (l : list candidateWithDist) : list candidateWithDist :=
  match l with
  | [] => [c]
  | c' :: l' => if candidate_le c c' then c :: l else c' :: insert_candidate c l'
  end.
Definition sort_candidates (l : list candidateWithDist) : list candidateWithDist :=
  foldr insert_candidate [] l.

Definition candidate_of (unknownLower c : string) : candidateWithDist :=
  let cLower := ToLower c in
  let d := levenshteinDistance unknownLower cLower in
  mkCandidate c (if Contains cLower unknownLower || Contains unknownLower cLower then d - 1 else d).

(** The last loop: the entry of index [i] is kept when it is close or the first. *)
Fixpoint keep_close (i : nat) (l : list candidateWithDist) : list string :=
  match l with
  | [] => []
  | c :: l =>
      if (cand_dist c <=? 5) || Nat.eqb i 0 then cand_name c :: keep_close (S i) l
      else keep_close (S i) l
  end.

Definition suggestAlternatives (unknown : string) (candidates : list string) : list string :=
  match candidates with
  | [] => []
  | _ =>
      let l := sort_candidates (map (candidate_of (ToLower unknown)) candidates) in
      keep_close 0 (take maxFieldSuggestions l)
  end.

(** * Edit scripts *)

(** [Edit s t n]: some script of [n] insertions, deletions and substitutions of a
    byte turns [s] into [t]. *)
Inductive Edit : list ascii -> list ascii -> Z -> Prop :=
| Edit_nil : Edit [] [] 0
| Edit_keep a s t n : Edit s t n -> Edit (a :: s) (a :: t) n
| Edit_subst a b s t n : Edit s t n -> Edit (a :: s) (b :: t) (n + 1)
| Edit_delete a s t n : Edit s t n -> Edit (a :: s) t (n + 1)
| Edit_insert b s t n : Edit s t n -> Edit s (b :: t) (n + 1).

(** The recurrence. *)
Fixpoint lev (s : list ascii) : list ascii -> Z :=
  match s with
  | [] => fun t => Z.of_nat (length t)
  | a :: s' =>
      fix lev_a t := match t with
      | [] => Z.of_nat (length s)
      | b :: t' => Z.min (Z.min (lev s' t + 1) (lev_a t' + 1))
                         (lev s' t' + (if Ascii.eqb a b then 0 else 1))
      end
  end.

Lemma lev_cons a s b t :
  lev (a :: s) (b :: t) =
  Z.min (Z.min (lev s (b :: t) + 1) (lev (a :: s) t + 1)) (lev s t + (if Ascii.eqb a b then 0 else 1)).
Proof. done. Qed.
Lemma lev_nil_r s : lev s [] = Z.of_nat (length s).
Proof. by destruct s. Qed.

Lemma Edit_inserts t : Edit [] t (Z.of_nat (length t)).
Proof.
  induction t as [|b t IH]; [constructor|]. cbn [length]. rewrite Nat2Z.inj_succ, <- Z.add_1_r.
  by constructor.
Qed.
Lemma Edit_deletes s : Edit s [] (Z.of_nat (length s)).
Proof.
  induction s as [|b s IH]; [constructor|]. cbn [length]. rewrite Nat2Z.inj_succ, <- Z.add_1_r.
  by constructor.
Qed.

Lemma lev_Edit s t : Edit s t (lev s t).
Proof.
  revert t. induction s as [|a s IHs]; intros t; [apply Edit_inserts|].
  induction t as [|b t IHt]; [apply Edit_deletes|]. rewrite lev_cons.
  destruct (Z.min_spec (Z.min (lev s (b :: t) + 1) (lev (a :: s) t + 1))
    (lev s t + (if Ascii.eqb a b then 0 else 1))) as [[_ ->]|[_ ->]].
  - destruct (Z.min_spec (lev s (b :: t) + 1) (lev (a :: s) t + 1)) as [[_ ->]|[_ ->]];
      [by apply Edit_delete|by apply Edit_insert].
  - destruct (Ascii.eqb_spec a b) as [->|]; [|by apply Edit_subst]. rewrite Z.add_0_r. by apply Edit_keep.
Qed.

(** One more byte on either side changes the distance by at most one. *)
Lemma lev_shrink_r s b t : lev s t <= lev s (b :: t) + 1.
Proof.
  revert t. induction s as [|a s IH]; intros t; [cbn; lia|].
  destruct t as [|c t].
  - rewrite lev_cons, !lev_nil_r. cbn [length]. specialize (IH []). rewrite lev_nil_r in IH.
    destruct (Ascii.eqb a b); lia.
  - rewrite (lev_cons a s b (c :: t)).
    assert (lev (a :: s) (c :: t) <= lev s (c :: t) + 1) by (rewrite lev_cons; lia).
    pose proof (IH (c :: t)). destruct (Ascii.eqb a b); lia.
Qed.
Lemma lev_shrink_l a s t : lev s t <= lev (a :: s) t + 1.
Proof.
  revert s. induction t as [|b t IH]; intros s; [rewrite !lev_nil_r; cbn; lia|].
  destruct s as [|c s].
  - rewrite lev_cons. specialize (IH []). cbn in IH |- *. destruct (Ascii.eqb a b); lia.
  - rewrite (lev_cons a (c :: s) b t).
    assert (lev (c :: s) (b :: t) <= lev (c :: s) t + 1) by (rewrite lev_cons; lia).
    pose proof (IH (c :: s)). destruct (Ascii.eqb a b); lia.
Qed.
Lemma lev_nonneg s t : 0 <= lev s t.
Proof.
  revert t. induction s as [|a s IHs]; intros t; [cbn; lia|].
  induction t as [|b t IHt]; [cbn; lia|]. rewrite lev_cons.
  pose proof (IHs t). pose proof (IHs (b :: t)). destruct (Ascii.eqb a b); lia.
Qed.

Lemma Edit_lev s t n : Edit s t n -> lev s t <= n.
Proof.
  induction 1 as [|a s t n _ IH|a b s t n _ IH|a s t n _ IH|b s t n _ IH]; [done| | | |].
  - rewrite lev_cons, Ascii.eqb_refl. lia.
  - rewrite lev_cons. destruct (Ascii.eqb a b); lia.
  - destruct t as [|b t]; [rewrite lev_nil_r in *; cbn [length]; lia|rewrite lev_cons; lia].
  - destruct s as [|a s]; [cbn [lev length] in *; lia|rewrite lev_cons; lia].
Qed.

Lemma Edit_app s t n s' t' n' : Edit s t n -> Edit s' t' n' -> Edit (s ++ s') (t ++ t') (n + n').
Proof.
  intros H H'. induction H as [|a s t n _ IH|a b s t n _ IH|a s t n _ IH|b s t n _ IH]; cbn [app]; [done|..].
  - by constructor.
  - replace (n + 1 + n') with (n + n' + 1) by lia. by apply Edit_subst.
  - replace (n + 1 + n') with (n + n' + 1) by lia. by apply Edit_delete.
  - replace (n + 1 + n') with (n + n' + 1) by lia. by apply Edit_insert.
Qed.
Lemma Edit_rev s t n : Edit s t n -> Edit (rev s) (rev t) n.
Proof.
  induction 1 as [|a s t n _ IH|a b s t n _ IH|a s t n _ IH|b s t n _ IH]; cbn [rev]; [constructor|..].
  - rewrite <- (Z.add_0_r n). apply Edit_app; [done|]. by repeat constructor.
  - apply Edit_app; [done|]. apply (Edit_subst a b [] [] 0). constructor.
  - rewrite <- (List.app_nil_r (rev t)). apply Edit_app; [done|]. apply (Edit_delete a [] [] 0). constructor.
  - rewrite <- (List.app_nil_r (rev s)). apply Edit_app; [done|]. apply (Edit_insert b [] [] 0). constructor.
Qed.
Lemma lev_rev s t : lev (rev s) (rev t) = lev s t.
Proof.
  apply Z.le_antisymm.
  - apply Edit_lev, Edit_rev, lev_Edit.
  - pose proof (Edit_rev _ _ _ (lev_Edit (rev s) (rev t))) as H. rewrite !rev_involutive in H. by apply Edit_lev.
Qed.

(** * The two rows *)

(** The prefixes of [t], each reversed, on top of [acc]. *)
Fixpoint rprefixes (acc t : list ascii) : list (list ascii) :=
  acc :: match t with [] => [] | b :: t => rprefixes (b :: acc) t end.

Lemma rprefixes_last acc t d : List.last (rprefixes acc t) d = rev t ++ acc.
Proof.
  revert acc. induction t as [|b t IH]; intros acc; [done|]. cbn [rprefixes rev].
  rewrite <- List.app_assoc. cbn [app]. rewrite <- IH. cbn [List.last]. by destruct t.
Qed.

Lemma row_step_spec a s t acc :
  row_step a t (map (lev s) (rprefixes acc t)) (lev (a :: s) acc) =
  map (lev (a :: s)) (tail (rprefixes acc t)).
Proof.
  revert acc. induction t as [|b t IH]; intros acc; [done|].
  cbn [rprefixes map tail]. destruct (rprefixes (b :: acc) t) as [|acc' l] eqn:E; [by destruct t|].
  assert (acc' = b :: acc) as -> by (destruct t; by injection E).
  cbn [map row_step]. specialize (IH (b :: acc)). rewrite E in IH. cbn [map tail] in IH.
  assert ((if lev s acc + (if Ascii.eqb a b then 0 else 1) <?
      Z.min (lev (a :: s) acc + 1) (lev s (b :: acc) + 1)
    then lev s acc + (if Ascii.eqb a b then 0 else 1)
    else Z.min (lev (a :: s) acc + 1) (lev s (b :: acc) + 1)) = lev (a :: s) (b :: acc)) as ->.
  { rewrite lev_cons. destruct (Z.ltb_spec (lev s acc + (if Ascii.eqb a b then 0 else 1))
      (Z.min (lev (a :: s) acc + 1) (lev s (b :: acc) + 1))); lia. }
  by rewrite IH.
Qed.

Lemma rows_spec s r t :
  rows s t (Z.of_nat (length r)) (map (lev r) (rprefixes [] t)) = map (lev (rev s ++ r)) (rprefixes [] t).
Proof.
  revert r. induction s as [|a s IH]; intros r; [done|]. cbn [rows rev].
  rewrite <- List.app_assoc. cbn [app]. rewrite <- IH. cbn [length].
  rewrite Nat2Z.inj_succ, <- Z.add_1_r. f_equal.
  pose proof (row_step_spec a r t []) as H. cbn [rprefixes] in *. rewrite lev_nil_r in H. cbn [length] in H.
  rewrite Nat2Z.inj_succ, <- Z.add_1_r in H. rewrite H. destruct t; cbn [rprefixes map tail lev length].
  - by rewrite Nat2Z.inj_succ, <- Z.add_1_r.
  - by rewrite Nat2Z.inj_succ, <- Z.add_1_r.
Qed.

Lemma first_row t : map (lev []) (rprefixes [] t) = map Z.of_nat (seq 0 (S (length t))).
Proof.
  assert (forall acc, map (lev []) (rprefixes acc t) = map Z.of_nat (seq (length acc) (S (length t)))) as H;
    [|apply H].
  induction t as [|b t IH]; intros acc; [done|]. cbn [rprefixes map length seq]. f_equal. apply IH.
Qed.

Lemma length_list_ascii s : length (list_ascii_of_string s) = String.length s.
Proof. induction s as [|c s IH]; cbn; [done|by rewrite IH]. Qed.

Lemma levenshteinDistance_lev s t :
  levenshteinDistance s t = lev (list_ascii_of_string s) (list_ascii_of_string t).
Proof.
  unfold levenshteinDistance, str_empty. destruct (String.eqb_spec s t) as [->|Hne].
  - induction (list_ascii_of_string t) as [|a l IH]; [done|]. rewrite lev_cons, Ascii.eqb_refl.
    rewrite <- IH. pose proof (lev_nonneg l (a :: l)). pose proof (lev_nonneg (a :: l) l). lia.
  - destruct (String.eqb_spec s "") as [->|Hs]; [cbn [list_ascii_of_string lev]; by rewrite length_list_ascii|].
    destruct (String.eqb_spec t "") as [->|Ht]; [cbn [list_ascii_of_string]; by rewrite lev_nil_r, length_list_ascii|].
    rewrite <- (length_list_ascii t), <- first_row.
    pose proof (rows_spec (list_ascii_of_string s) [] (list_ascii_of_string t)) as H.
    change (Z.of_nat (length [])) with 0 in H. rewrite H, List.app_nil_r. clear H.
    rewrite <- (lev_rev (list_ascii_of_string s)), <- (List.app_nil_r (rev (list_ascii_of_string t))).
    rewrite <- (rprefixes_last [] _ []).
    assert (forall A B (f : A -> B) l d d', l <> [] -> List.last (map f l) d = f (List.last l d')) as Hlast.
    { intros A B f l d d'. induction l as [|x l IH]; [done|]. destruct l as [|y l]; [done|].
      intros _. cbn [map List.last] in *. by apply IH. }
    apply Hlast. by destruct (list_ascii_of_string t).
Qed.

(** [levenshteinDistance] is the edit distance: some script of that many
    insertions, deletions and substitutions of bytes turns one text into the
    other, and none is shorter. *)
Theorem levenshteinDistance_exact (s t : string) (n : Z) :
  levenshteinDistance s t = n <->
  Edit (list_ascii_of_string s) (list_ascii_of_string t) n /\
  Forall (fun k => ~ Edit (list_ascii_of_string s) (list_ascii_of_string t) k) (seqZ 0 n).
Proof.
  rewrite levenshteinDistance_lev, Forall_forall. set (l := list_ascii_of_string s).
  set (l' := list_ascii_of_string t). split.
  - intros <-. split; [apply lev_Edit|]. intros k Hk He%Edit_lev. apply elem_of_seqZ in Hk. lia.
  - intros [He Hmin]. pose proof (Edit_lev _ _ _ He) as Hle. pose proof (lev_nonneg l l') as H0.
    destruct (Z.eq_dec (lev l l') n) as [|Hne]; [done|]. exfalso.
    apply (Hmin (lev l l')); [|apply lev_Edit]. apply elem_of_seqZ. lia.
Qed.

(** * The order of the candidates *)

Lemma leb_trans s t u : String.leb s t = true -> String.leb t u = true -> String.leb s u = true.
Proof.
  unfold String.leb. revert t u. induction s as [|a s IH]; intros t u; [by destruct u|].
  destruct t as [|b t]; [done|]. destruct u as [|c u]; [done|]. cbn [String.compare].
  unfold Ascii.compare.
  destruct (N.compare_spec (N_of_ascii a) (N_of_ascii b)) as [E1|E1|E1]; [| |done];
  destruct (N.compare_spec (N_of_ascii b) (N_of_ascii c)) as [E2|E2|E2]; try done.
  - rewrite E1, E2, N.compare_refl. apply IH.
  - rewrite E1, (proj2 (N.compare_lt_iff _ _) E2). done.
  - rewrite <- E2, (proj2 (N.compare_lt_iff _ _) E1). done.
  - by rewrite (proj2 (N.compare_lt_iff _ _) (N.lt_trans _ _ _ E1 E2)).
Qed.

Definition cand_R (a b : candidateWithDist) : Prop := candidate_le a b = true.

Lemma cand_R_dist a b : cand_R a b -> cand_dist a <= cand_dist b.
Proof. unfold cand_R, candidate_le. destruct (Z.eqb_spec (cand_dist a) (cand_dist b)); lia. Qed.
Lemma cand_R_total a b : cand_R a b \/ cand_R b a.
Proof.
  unfold cand_R, candidate_le. rewrite (Z.eqb_sym (cand_dist b)).
  destruct (Z.eqb_spec (cand_dist a) (cand_dist b)); [apply String.leb_total|]. rewrite !Z.leb_le. lia.
Qed.
Lemma cand_R_trans a b c : cand_R a b -> cand_R b c -> cand_R a c.
Proof.
  unfold cand_R, candidate_le. intros H1 H2.
  destruct (Z.eqb_spec (cand_dist a) (cand_dist b)) as [E1|E1];
  destruct (Z.eqb_spec (cand_dist b) (cand_dist c)) as [E2|E2];
  destruct (Z.eqb_spec (cand_dist a) (cand_dist c)) as [E3|E3]; try lia.
  by eapply leb_trans.
Qed.
#[local] Instance cand_R_antisymm : AntiSymm eq cand_R.
Proof.
  intros [n m] [n' m']. unfold cand_R, candidate_le. cbn [cand_dist cand_name]. rewrite (Z.eqb_sym m'). intros H1 H2.
  destruct (Z.eqb_spec m m') as [->|]; [|lia]. f_equal. by apply String.leb_antisym.
Qed.

Lemma insert_candidate_perm c l : insert_candidate c l ≡ₚ c :: l.
Proof.
  induction l as [|c' l IH]; cbn [insert_candidate]; [done|]. destruct (candidate_le c c'); [done|].
  rewrite IH. apply perm_swap.
Qed.
Lemma sort_candidates_perm l : sort_candidates l ≡ₚ l.
Proof.
  induction l as [|c l IH]; [done|]. cbn [sort_candidates foldr]. by rewrite insert_candidate_perm, IH.
Qed.
Lemma insert_candidate_sorted c l : StronglySorted cand_R l -> StronglySorted cand_R (insert_candidate c l).
Proof.
  induction 1 as [|c' l Hl IH Hc]; cbn [insert_candidate]; [by repeat constructor|].
  destruct (candidate_le c c') eqn:E.
  - constructor; [by constructor|]. constructor; [done|]. eapply Forall_impl; [exact Hc|].
    intros x. by apply cand_R_trans.
  - constructor; [done|]. rewrite insert_candidate_perm. constructor; [|done].
    destruct (cand_R_total c c') as [Hc'|Hc']; [unfold cand_R in Hc'; congruence|done].
Qed.
Lemma sort_candidates_sorted l : StronglySorted cand_R (sort_candidates l).
Proof. induction l; [constructor|]. by apply insert_candidate_sorted. Qed.

(** How far a candidate is from the unknown name: the edit distance up to case,
    less one when one text contains the other. *)
Definition distance (unknown c : string) : Z := cand_dist (candidate_of (ToLower unknown) c).

Lemma keep_close_S i l : keep_close (S i) l = map cand_name (List.filter (fun c => cand_dist c <=? 5) l).
Proof.
  revert i. induction l as [|c l IH]; intros i; [done|]. cbn [keep_close Nat.eqb List.filter].
  rewrite orb_false_r. destruct (cand_dist c <=? 5); cbn [map]; by rewrite IH.
Qed.

Lemma candidate_sorted_names u candidates c :
  c ∈ sort_candidates (map (candidate_of (ToLower u)) candidates) ->
  cand_name c ∈ candidates /\ cand_dist c = distance u (cand_name c).
Proof.
  rewrite sort_candidates_perm. intros (x & -> & Hx)%list_elem_of_fmap. by split.
Qed.

(** the suggestions do not depend on the order in which the candidates come
    (they are collected by ranging over Go maps).  They are at most three
    candidates; there is one whenever there is a candidate; the first is a
    closest candidate; and every other one is at distance five or less. *)
Theorem suggestAlternatives_spec (unknown : string) (candidates candidates' : list string) :
  candidates ≡ₚ candidates' ->
  suggestAlternatives unknown candidates' = suggestAlternatives unknown candidates /\
  match suggestAlternatives unknown candidates with
  | [] => candidates = []
  | first :: others =>
      first ∈ candidates /\ Forall (fun c => distance unknown first <= distance unknown c) candidates /\
      (length others <= 2)%nat /\ Forall (fun c => c ∈ candidates /\ distance unknown c <= 5) others
  end.
Proof.
  intros Hp. split.
  { unfold suggestAlternatives. destruct candidates as [|c l], candidates' as [|c' l'];
      [done|by apply Permutation_nil_cons in Hp|by apply Permutation_sym, Permutation_nil_cons in Hp|].
    do 2 f_equal. apply (StronglySorted_unique cand_R); [apply sort_candidates_sorted..|].
    rewrite !sort_candidates_perm. by apply Permutation_map. }
  clear Hp candidates'. unfold suggestAlternatives. destruct candidates as [|c0 l0]; [done|].
  set (cs := c0 :: l0). set (l := sort_candidates (map (candidate_of (ToLower unknown)) cs)).
  pose proof (sort_candidates_sorted (map (candidate_of (ToLower unknown)) cs)) as Hs. fold l in Hs.
  assert (forall c, c ∈ l -> cand_name c ∈ cs /\ cand_dist c = distance unknown (cand_name c)) as Hl
    by apply candidate_sorted_names.
  assert (l ≡ₚ map (candidate_of (ToLower unknown)) cs) as Hperm by apply sort_candidates_perm.
  clearbody l. destruct l as [|c l]; [by apply Permutation_nil_cons in Hperm|].
  cbn [take maxFieldSuggestions keep_close Nat.eqb]. rewrite orb_true_r, keep_close_S.
  destruct (Hl c) as [Hc Hd]; [by left|]. inversion Hs as [|? ? _ Hle]; subst. split_and!.
  - done.
  - rewrite <- Hd. apply Forall_forall. intros x Hx.
    assert (candidate_of (ToLower unknown) x ∈ c :: l) as Hin.
    { rewrite Hperm. apply list_elem_of_fmap. by exists x. }
    unfold distance. apply elem_of_cons in Hin as [->|Hin]; [done|].
    rewrite Forall_forall in Hle. by apply cand_R_dist, Hle.
  - rewrite length_map. etransitivity; [apply List.filter_length_le|]. rewrite length_take. lia.
  - apply Forall_forall. intros x (y & -> & Hy)%list_elem_of_fmap.
    apply list_elem_of_In, List.filter_In in Hy as [Hy Hy5]. apply list_elem_of_In in Hy.
    assert (y ∈ l) as Hyl by (rewrite <- (take_drop 2 l); apply elem_of_app; by left).
    destruct (Hl y) as [H1 H2]; [by right|]. split; [done|]. rewrite <- H2. lia.
Qed.

Lemma suggestAlternatives_spec_witness :
  suggestAlternatives "revenu" ["region"; "revenue"; "month"; "net_revenue"] =
  suggestAlternatives "revenu" ["net_revenue"; "region"; "revenue"; "month"] /\
  suggestAlternatives "revenu" ["region"; "revenue"; "month"; "net_revenue"] = ["revenue"; "net_revenue"; "region"].
Proof.
  assert (["net_revenue"; "region"; "revenue"; "month"] ≡ₚ ["region"; "revenue"; "month"; "net_revenue"]) as Hp
    by apply (Permutation_cons_append ["region"; "revenue"; "month"] "net_revenue").
  destruct (suggestAlternatives_spec "revenu" _ _ Hp) as [H _]. split; [exact H|vm_compute; reflexivity].
Defined.
