(* ===== verification/Pii.v ===== *)
(** Column-level PII policy: [internal/security/pii/masking.go] (access levels,
    masking strategies and the SQL of a mask), [internal/security/pii/policy.go]
    (which access a role gets, and the maps the compiler consumes) and the
    configuration record of [internal/query/pii_masking.go] with its lookup.

    A nil Go map is an empty one here: they behave alike for reading, and the
    only test for nil in the modelled code, in [lookupStrategy], returns what the
    loop below it returns on an empty map.  The slices of [AppliedPII] the
    compiler appends to are part of the compiler's state (file Compiler.v). *)

From S2P Require Import Prelude GoStrings Dialect.
From stdpp Require Import options.
#[local] Open Scope Z_scope.

(** * masking.go *)

Definition AccessRaw : string := "raw".
Definition AccessMasked : string := "masked".
Definition AccessHidden : string := "hidden".
Definition MaskingStrategyPartial : string := "partial".
Definition MaskingStrategyFull : string := "full".
Definition HiddenLiteral : string := "'***'".

Definition TypeEmail : string := "email".
Definition TypePhone : string := "phone".
Definition TypeIBAN : string := "iban".
Definition TypeTCKimlikNo : string := "tc_kimlik_no".
Definition TypeAddress : string := "address".
Definition TypeIPAddress : string := "ip_address".
Definition TypeCreditCardLike : string := "credit_card_like".

Definition NormalizeMaskingStrategy (strategy : string) : string :=
  let s := ToLower (TrimSpace strategy) in
  if str_in s [""; MaskingStrategyPartial] then MaskingStrategyPartial
  else if String.eqb s MaskingStrategyFull then MaskingStrategyFull
  else MaskingStrategyFull.

Definition EffectiveColumnAccess (access strategy : string) : string :=
  if String.eqb access AccessRaw then AccessRaw
  else if String.eqb access AccessMasked then
    if String.eqb (NormalizeMaskingStrategy strategy) MaskingStrategyFull then AccessHidden
    else AccessMasked
  else if String.eqb access AccessHidden then AccessHidden
  else AccessHidden.

Module Masking.
Section Masking.
Context (d : Dialect).

Definition castText (col : string) : string :=
  if String.eqb (Name d) "mysql" then "CAST(" +:+ col +:+ " AS CHAR)"
  else if String.eqb (Name d) "sqlserver" then "CAST(" +:+ col +:+ " AS NVARCHAR(256))"
  else if String.eqb (Name d) "clickhouse" then "toString(" +:+ col +:+ ")"
  else if String.eqb (Name d) "oracle" then "CAST(" +:+ col +:+ " AS VARCHAR2(256))"
  else if String.eqb (Name d) "databricks" then "CAST(" +:+ col +:+ " AS STRING)"
  else "CAST(" +:+ col +:+ " AS TEXT)".

Definition concat (parts : list string) : string :=
  if String.eqb (Name d) "mysql" then "CONCAT(" +:+ Join parts ", " +:+ ")"
  else if String.eqb (Name d) "clickhouse" then "concat(" +:+ Join parts ", " +:+ ")"
  else if String.eqb (Name d) "sqlserver" then "CONCAT(" +:+ Join parts ", " +:+ ")"
  else "(" +:+ Join parts " || " +:+ ")".

Definition left (expr : string) (n : Z) : string :=
  if String.eqb (Name d) "clickhouse" then "substring(" +:+ expr +:+ ", 1, " +:+ Itoa n +:+ ")"
  else if str_in (Name d) ["oracle"; "sqlite"] then "SUBSTR(" +:+ expr +:+ ", 1, " +:+ Itoa n +:+ ")"
  else "LEFT(" +:+ expr +:+ ", " +:+ Itoa n +:+ ")".

Definition right (expr : string) (n : Z) : string :=
  if String.eqb (Name d) "clickhouse" then
    "substring(" +:+ expr +:+ ", length(" +:+ expr +:+ ") - " +:+ Itoa (n - 1) +:+ ", " +:+ Itoa n +:+ ")"
  else if str_in (Name d) ["oracle"; "sqlite"] then
    "SUBSTR(" +:+ expr +:+ ", -" +:+ Itoa n +:+ ", " +:+ Itoa n +:+ ")"
  else "RIGHT(" +:+ expr +:+ ", " +:+ Itoa n +:+ ")".

Definition fromChar (expr marker : string) : string :=
  let lit := "'" +:+ marker +:+ "'" in
  if String.eqb (Name d) "mysql" then "SUBSTRING(" +:+ expr +:+ ", LOCATE(" +:+ lit +:+ ", " +:+ expr +:+ "))"
  else if String.eqb (Name d) "sqlserver" then
    "SUBSTRING(" +:+ expr +:+ ", CHARINDEX(" +:+ lit +:+ ", " +:+ expr +:+ "), LEN(" +:+ expr +:+ "))"
  else if String.eqb (Name d) "clickhouse" then
    "substring(" +:+ expr +:+ ", position(" +:+ expr +:+ ", " +:+ lit +:+ "))"
  else if str_in (Name d) ["sqlite"; "oracle"] then
    "SUBSTR(" +:+ expr +:+ ", INSTR(" +:+ expr +:+ ", " +:+ lit +:+ "))"
  else if String.eqb (Name d) "snowflake" then
    "SUBSTR(" +:+ expr +:+ ", POSITION(" +:+ lit +:+ ", " +:+ expr +:+ "))"
  else if String.eqb (Name d) "databricks" then
    "substring(" +:+ expr +:+ ", instr(" +:+ expr +:+ ", " +:+ lit +:+ "))"
  else "SUBSTRING(" +:+ expr +:+ " FROM POSITION(" +:+ lit +:+ " IN " +:+ expr +:+ "))".

Definition maskIPExpr (expr : string) : string :=
  let pattern := "'[0-9a-fA-F]+'" in
  if String.eqb (Name d) "postgres" then
    "REGEXP_REPLACE(" +:+ expr +:+ ", " +:+ pattern +:+ ", '*', 'g')"
  else if str_in (Name d) ["mysql"; "snowflake"; "databricks"; "oracle"] then
    "REGEXP_REPLACE(" +:+ expr +:+ ", " +:+ pattern +:+ ", '*')"
  else if String.eqb (Name d) "clickhouse" then
    "replaceRegexpAll(" +:+ expr +:+ ", " +:+ pattern +:+ ", '*')"
  else HiddenLiteral.

(** [DefaultMaskingStrategy.MaskExpression] *)
Definition DefaultMaskExpression (columnRef piiType : string) : string :=
  let col := castText columnRef in
  if String.eqb piiType TypeEmail then concat [left col 2; "'***'"; fromChar col "@"]
  else if String.eqb piiType TypePhone then concat [left col 3; "'****'"; right col 2]
  else if String.eqb piiType TypeIBAN then concat [left col 4; "'****'"; right col 2]
  else if String.eqb piiType TypeTCKimlikNo then concat [left col 3; "'*****'"]
  else if String.eqb piiType TypeAddress then concat [left col 10; "'...'"]
  else if String.eqb piiType TypeIPAddress then maskIPExpr col
  else if String.eqb piiType TypeCreditCardLike then concat [left col 4; "' **** **** '"; right col 4]
  else HiddenLiteral.
End Masking.
End Masking.

(** * policy.go *)

Definition RoleAdmin : string := "admin".
Definition RoleAnalyst : string := "analyst".
Definition RoleViewer : string := "viewer".

Definition sensitiveTypes : list string := [TypeTCKimlikNo; TypeCreditCardLike; TypeIBAN].

Definition DefaultPIIPolicy (role piiType : string) : string :=
  let r := ToLower (TrimSpace role) in
  if str_in r [RoleAdmin; "super_admin"] then AccessRaw
  else if String.eqb r RoleAnalyst then AccessMasked
  else if str_in piiType sensitiveTypes then AccessHidden
  else AccessMasked.

Definition ResolveColumnAccess (role piiType override : string) : string :=
  if str_in override [AccessRaw; AccessMasked; AccessHidden] then override
  else if str_empty override then DefaultPIIPolicy role piiType
  else AccessHidden.

(** The function literal [rank] of [PrimaryRole]. *)
Definition role_rank (r : string) : Z :=
  let r := ToLower (TrimSpace r) in
  if str_in r [RoleAdmin; "super_admin"] then 3
  else if String.eqb r RoleAnalyst then 2
  else if String.eqb r RoleViewer then 1
  else 0.

Definition PrimaryRole (roles : list string) : string :=
  fold_left (fun best r => if role_rank best <? role_rank r then ToLower (TrimSpace r) else best)
    roles "".

(** The fields of [pkg/metadata.Column] the policy reads; a nil or empty pointer
    is [""]: the code treats them alike. *)
Record Column : Type := mkColumn {
  SchemaName : string;
  TableName : string;
  ColumnName : string;
  PIIType : string;
  PIIMaskingStrategy : string;
}.

Definition qualified (c : Column) : string :=
  SchemaName c +:+ "." +:+ TableName c +:+ "." +:+ ColumnName c.
Definition short (c : Column) : string := TableName c +:+ "." +:+ ColumnName c.

(** Reading a Go map of strings: an absent key reads as [""]. *)
Definition get (m : gmap string string) (k : string) : string := default "" (m !! k).

Definition override_of (overrides : gmap string string) (c : Column) : string :=
  let o := get overrides (qualified c) in
  if str_empty o then get overrides (short c) else o.

(** The two assignments under both keys of a column. *)
Definition put (c : Column) (v : string) (m : gmap string string) : gmap string string :=
  <[short c := v]> (<[qualified c := v]> m).

Definition BuildColumnAccessMaps (role : string) (columns : list Column)
    (overrides : gmap string string) : gmap string string * gmap string string :=
  fold_left (fun acc c =>
    if str_empty (PIIType c) then acc
    else
      let level := ResolveColumnAccess role (PIIType c) (override_of overrides c) in
      (put c level acc.1, put c (PIIType c) acc.2)) columns (∅, ∅).

Definition BuildColumnMaskingStrategyMaps (columns : list Column) : gmap string string :=
  fold_left (fun strategies c =>
    if str_empty (PIIType c) || str_empty (PIIMaskingStrategy c) then strategies
    else put c (NormalizeMaskingStrategy (PIIMaskingStrategy c)) strategies) columns ∅.

(** * pii_masking.go: the configuration and its lookup *)

Record PIIColumnInfo : Type := mkPIIInfo {
  info_Access : string;
  info_PIIType : string;
  info_Strategy : string;
}.

(** The interface [pii.MaskingStrategy]. *)
Definition MaskingStrategy : Type := string -> string -> Dialect -> string.

Record PIIMaskingConfig : Type := mkPIIConfig {
  ColumnInfo : gmap string PIIColumnInfo;
  ColumnAccess : gmap string string;
  ColumnTypes : gmap string string;
  ColumnStrategies : gmap string string;
  Strategy : option MaskingStrategy;
}.

Definition strategy (cfg : PIIMaskingConfig) : MaskingStrategy :=
  match Strategy cfg with
  | Some s => s
  | None => fun columnRef piiType d => Masking.DefaultMaskExpression d columnRef piiType
  end.

Fixpoint lookupStrategy (cfg : PIIMaskingConfig) (refs : list string) : string :=
  match refs with
  | [] => ""
  | ref :: refs =>
      if str_empty ref then lookupStrategy cfg refs
      else match ColumnStrategies cfg !! ref with
           | Some s => s
           | None => lookupStrategy cfg refs
           end
  end.

(** The loop of [lookup]; [all] are the references [lookupStrategy] is given. *)
Fixpoint lookup_from (cfg : PIIMaskingConfig) (all refs : list string) : option (string * string) :=
  match refs with
  | [] => None
  | ref :: refs =>
      if str_empty ref then lookup_from cfg all refs
      else match ColumnInfo cfg !! ref with
           | Some info => Some (EffectiveColumnAccess (info_Access info) (info_Strategy info), info_PIIType info)
           | None =>
               match ColumnAccess cfg !! ref with
               | Some a => Some (EffectiveColumnAccess a (lookupStrategy cfg all), get (ColumnTypes cfg) ref)
               | None => lookup_from cfg all refs
               end
           end
  end.
Definition lookup (cfg : PIIMaskingConfig) (refs : list string) : option (string * string) :=
  lookup_from cfg refs refs.

(** The configuration [internal/core/pii_policy.go] builds from the stored
    columns of a datasource, the roles of the user and the access overrides of
    the user's policy; none at all when no column is annotated. *)
Definition maskingConfig (roles : list string) (cols : list Column)
    (overrides : gmap string string) : option PIIMaskingConfig :=
  match cols with
  | [] => None
  | _ =>
      let '(access, types) := BuildColumnAccessMaps (PrimaryRole roles) cols overrides in
      let strategies := BuildColumnMaskingStrategyMaps cols in
      Some (mkPIIConfig
        (map_imap (fun ref level => Some (mkPIIInfo level (get types ref) (get strategies ref))) access)
        access types strategies None)
  end.

(** * The access decision *)

Definition column_keys (c : Column) : list string := [qualified c; short c].
Definition annotated (c : Column) : Prop := PIIType c <> "".

(** No name stands for two annotated columns: [table.column] is unambiguous. *)
Definition keys_apart (cols : list Column) : Prop :=
  forall c1 c2 k, c1 ∈ cols -> c2 ∈ cols -> annotated c1 -> annotated c2 ->
    k ∈ column_keys c1 -> k ∈ column_keys c2 -> c1 = c2.

Definition is_admin (role : string) : Prop := ToLower (TrimSpace role) ∈ [RoleAdmin; "super_admin"].
Definition is_analyst (role : string) : Prop := ToLower (TrimSpace role) = RoleAnalyst.

(** Who sees the values of a column: by an explicit override or as an administrator. *)
Definition granted_raw (role override : string) : Prop :=
  override = AccessRaw \/ override = "" /\ is_admin role.
(** Who sees them masked: by an override, as an analyst, or anyone when the type
    is not a sensitive one; and only if the column asks for partial masking. *)
Definition granted_masked (role piiType override strategy : string) : Prop :=
  (override = AccessMasked \/
   override = "" /\ ~ is_admin role /\ (is_analyst role \/ piiType ∉ sensitiveTypes)) /\
  ToLower (TrimSpace strategy) ∈ [""; MaskingStrategyPartial].

Lemma effective_spec (b strat : string) :
  EffectiveColumnAccess b strat =
    if String.eqb b AccessRaw then AccessRaw
    else if String.eqb b AccessMasked && str_in (ToLower (TrimSpace strat)) [""; MaskingStrategyPartial]
         then AccessMasked else AccessHidden.
Proof.
  unfold EffectiveColumnAccess, NormalizeMaskingStrategy.
  destruct (String.eqb b AccessRaw); [done|]. destruct (String.eqb b AccessMasked); cbn [andb]; [|by destruct (String.eqb b AccessHidden)].
  destruct (str_in (ToLower (TrimSpace strat)) _); [done|].
  by destruct (String.eqb (ToLower (TrimSpace strat)) MaskingStrategyFull).
Qed.

Lemma access_decision (role ty ov strat : string) :
  let a := EffectiveColumnAccess (ResolveColumnAccess role ty ov) strat in
  (a = AccessRaw <-> granted_raw role ov) /\
  (a = AccessMasked <-> granted_masked role ty ov strat) /\
  a ∈ [AccessRaw; AccessMasked; AccessHidden].
Proof.
  cbv zeta. rewrite effective_spec. unfold ResolveColumnAccess, granted_raw, granted_masked, DefaultPIIPolicy, is_admin, is_analyst.
  rewrite <- !str_in_spec.
  destruct (str_in (ToLower (TrimSpace strat)) _); destruct (str_in (ToLower (TrimSpace role)) _);
  destruct (String.eqb_spec (ToLower (TrimSpace role)) RoleAnalyst);
  destruct (str_in ty sensitiveTypes);
  (destruct (decide (ov = AccessRaw)) as [->|Hr]; [simpl; naive_solver|]);
  (destruct (decide (ov = AccessMasked)) as [->|Hm]; [simpl; naive_solver|]);
  (destruct (decide (ov = AccessHidden)) as [->|Hh]; [simpl; naive_solver|]);
  (replace (str_in ov [AccessRaw; AccessMasked; AccessHidden]) with false
    by (symmetry; apply str_in_false; rewrite !elem_of_cons, elem_of_nil; naive_solver));
  unfold str_empty; (destruct (String.eqb_spec ov "") as [->|He]); simpl; naive_solver.
Qed.

(** The primary role is an administrator's when some role is, and an analyst's
    when no role is an administrator's and some role is an analyst's. *)
Lemma role_rank_cases r :
  is_admin r /\ role_rank r = 3 \/ is_analyst r /\ role_rank r = 2 \/
  ~ is_admin r /\ ~ is_analyst r /\ 0 <= role_rank r <= 1.
Proof.
  unfold role_rank, is_admin, is_analyst.
  destruct (str_in _ [RoleAdmin; _]) eqn:E; [apply str_in_spec in E; by left|right].
  apply str_in_false in E. destruct (String.eqb_spec (ToLower (TrimSpace r)) RoleAnalyst); [by left|right].
  by destruct (String.eqb (ToLower (TrimSpace r)) RoleViewer).
Qed.
Lemma role_rank_admin r : is_admin r <-> role_rank r = 3.
Proof.
  destruct (role_rank_cases r) as [[? ->]|[[Ha ->]|(? & ? & ?)]]; [done| |split; [done|lia]].
  split; [|done]. unfold is_admin. rewrite Ha. by rewrite !elem_of_cons, elem_of_nil; intros [?|[?|[]]].
Qed.
Lemma role_rank_analyst r : is_analyst r <-> role_rank r = 2.
Proof.
  destruct (role_rank_cases r) as [[Ha ->]|[[? ->]|(? & ? & ?)]]; [|done|split; [done|lia]].
  split; [|done]. unfold is_analyst. intros Hr. apply role_rank_admin in Ha. unfold role_rank in Ha.
  by rewrite Hr in Ha.
Qed.

Lemma role_rank_normal r : role_rank (ToLower (TrimSpace r)) = role_rank r.
Proof.
  unfold role_rank. by rewrite TrimSpace_ToLower, ToLower_idem, TrimSpace_idem.
Qed.

Lemma PrimaryRole_max roles :
  (forall r, r ∈ roles -> role_rank r <= role_rank (PrimaryRole roles)) /\
  (role_rank (PrimaryRole roles) = 0 \/ exists r, r ∈ roles /\ role_rank r = role_rank (PrimaryRole roles)).
Proof.
  unfold PrimaryRole.
  induction roles as [|r roles IH] using rev_ind; [split; [by intros r ?%elem_of_nil|by left]|].
  rewrite fold_left_app. cbn [fold_left]. destruct IH as [IH1 IH2].
  destruct (Z.ltb_spec (role_rank (fold_left (fun best r0 => if role_rank best <? role_rank r0
    then ToLower (TrimSpace r0) else best) roles "")) (role_rank r)) as [Hlt|Hle].
  - rewrite role_rank_normal. split.
    + intros r' [Hr'|Hr'%list_elem_of_singleton]%elem_of_app; [|by subst]. specialize (IH1 r' Hr'). lia.
    + right. exists r. split; [|done]. apply elem_of_app. right. by apply list_elem_of_singleton.
  - split.
    + intros r' [Hr'|Hr'%list_elem_of_singleton]%elem_of_app; [by apply IH1|subst; lia].
    + destruct IH2 as [?|(r' & Hr' & ?)]; [by left|right]. exists r'. split; [|done].
      apply elem_of_app. by left.
Qed.

Lemma PrimaryRole_admin roles : is_admin (PrimaryRole roles) <-> exists r, r ∈ roles /\ is_admin r.
Proof.
  rewrite role_rank_admin. destruct (PrimaryRole_max roles) as [Hm Hx]. split.
  - intros H3. destruct Hx as [?|(r & Hr & Hn)]; [lia|]. exists r. rewrite role_rank_admin. split; [done|lia].
  - intros (r & Hr & Ha). apply role_rank_admin in Ha. specialize (Hm r Hr).
    destruct (role_rank_cases (PrimaryRole roles)) as [[? ?]|[[? ?]|(? & ? & ?)]]; lia.
Qed.
Lemma PrimaryRole_analyst roles :
  is_analyst (PrimaryRole roles) <->
  (forall r, r ∈ roles -> ~ is_admin r) /\ exists r, r ∈ roles /\ is_analyst r.
Proof.
  pose proof (PrimaryRole_admin roles) as Had. rewrite role_rank_admin in Had.
  rewrite role_rank_analyst. destruct (PrimaryRole_max roles) as [Hm Hx]. split.
  - intros H2. split; [intros r Hr Ha; assert (role_rank (PrimaryRole roles) = 3) by (apply Had; eauto); lia|].
    destruct Hx as [?|(r & Hr & Hn)]; [lia|]. exists r. rewrite role_rank_analyst. split; [done|lia].
  - intros [Hn (r & Hr & Ha)]. apply role_rank_analyst in Ha. specialize (Hm r Hr).
    destruct (role_rank_cases (PrimaryRole roles)) as [[_ H3]|[[_ ?]|(_ & _ & ?)]]; [|done|lia].
    apply Had in H3 as (r' & Hr' & Ha'). by destruct (Hn r' Hr').
Qed.

(** * The maps *)

Lemma lookup_put c v m k :
  put c v m !! k = if decide (k ∈ column_keys c) then Some v else m !! k.
Proof.
  unfold put, column_keys. rewrite !lookup_insert.
  case_decide as H1; [subst|]; case_decide as H2; try done; try (subst; set_solver);
    case_decide as H3; set_solver.
Qed.

(** A loop that puts a value under both keys of each column it selects: every
    key reads the value of the last selected column it names. *)
Section Fold.
Context (sel : Column -> bool) (f : Column -> string).
Definition fold_put (columns : list Column) : gmap string string :=
  fold_left (fun m c => if sel c then put c (f c) m else m) columns ∅.

Lemma fold_put_None columns k :
  fold_put columns !! k = None <-> forall c, c ∈ columns -> sel c = true -> k ∉ column_keys c.
Proof.
  unfold fold_put. induction columns as [|c columns IH] using rev_ind; [set_solver|].
  rewrite fold_left_app. cbn [fold_left]. destruct (sel c) eqn:E.
  - rewrite lookup_put. case_decide as Hk; [set_solver|]. rewrite IH. set_solver.
  - rewrite IH. split; [|set_solver]. intros H c' [Hc|Hc]%elem_of_app; [by apply H|].
    apply list_elem_of_singleton in Hc. congruence.
Qed.
Lemma fold_put_apart columns c k :
  (forall c', c' ∈ columns -> sel c' = true -> k ∈ column_keys c' -> f c' = f c) ->
  c ∈ columns -> sel c = true -> k ∈ column_keys c -> fold_put columns !! k = Some (f c).
Proof.
  intros Hap Hc Hs Hk. destruct (fold_put columns !! k) as [v|] eqn:E.
  - f_equal. revert Hap v E. clear Hc. unfold fold_put.
    induction columns as [|c' columns IH] using rev_ind; [done|]. intros Hap v.
    rewrite fold_left_app. cbn [fold_left].
    assert (forall v, fold_left (fun m c => if sel c then put c (f c) m else m) columns ∅ !! k = Some v -> v = f c)
      as IH' by (intros v'; apply IH; set_solver).
    destruct (sel c') eqn:E; [|by apply IH']. rewrite lookup_put. case_decide; [|by apply IH'].
    intros [= <-]. apply Hap; set_solver.
  - rewrite fold_put_None in E. by destruct (E c Hc Hs).
Qed.
End Fold.

Lemma BuildColumnAccessMaps_fold role columns overrides :
  let level c := ResolveColumnAccess role (PIIType c) (override_of overrides c) in
  BuildColumnAccessMaps role columns overrides =
    (fold_put (fun c => negb (str_empty (PIIType c))) level columns,
     fold_put (fun c => negb (str_empty (PIIType c))) PIIType columns).
Proof.
  unfold BuildColumnAccessMaps, fold_put.
  induction columns as [|c columns IH] using rev_ind; [done|].
  rewrite !fold_left_app. cbn [fold_left]. rewrite IH. by destruct (str_empty (PIIType c)).
Qed.
Lemma BuildColumnMaskingStrategyMaps_fold columns :
  BuildColumnMaskingStrategyMaps columns =
    fold_put (fun c => negb (str_empty (PIIType c) || str_empty (PIIMaskingStrategy c)))
      (fun c => NormalizeMaskingStrategy (PIIMaskingStrategy c)) columns.
Proof.
  unfold BuildColumnMaskingStrategyMaps, fold_put.
  induction columns as [|c columns IH] using rev_ind; [done|].
  rewrite !fold_left_app. cbn [fold_left]. rewrite IH. by destruct (_ || _).
Qed.

Lemma NormalizeMaskingStrategy_idem s :
  NormalizeMaskingStrategy (NormalizeMaskingStrategy s) = NormalizeMaskingStrategy s.
Proof.
  unfold NormalizeMaskingStrategy at 2 3. destruct (str_in _ _); [done|].
  by destruct (String.eqb (ToLower (TrimSpace s)) MaskingStrategyFull).
Qed.

(** The strategy of a column as the maps hand it to [EffectiveColumnAccess]. *)
Lemma effective_normal b s :
  EffectiveColumnAccess b (NormalizeMaskingStrategy s) = EffectiveColumnAccess b s.
Proof. unfold EffectiveColumnAccess. by rewrite NormalizeMaskingStrategy_idem. Qed.

Lemma annotated_spec c : annotated c <-> negb (str_empty (PIIType c)) = true.
Proof. unfold annotated, str_empty. by destruct (String.eqb_spec (PIIType c) ""). Qed.

Lemma column_key_nonempty c k : k ∈ column_keys c -> str_empty k = false.
Proof.
  assert (forall a b, str_empty (a +:+ "." +:+ b) = false) as Hne by (intros [] ?; done).
  unfold column_keys, qualified, short. rewrite !elem_of_cons, elem_of_nil.
  intros [->|[->|[]]]; apply Hne.
Qed.

Lemma strategies_get columns c k :
  keys_apart columns -> c ∈ columns -> annotated c -> k ∈ column_keys c ->
  get (BuildColumnMaskingStrategyMaps columns) k =
    if str_empty (PIIMaskingStrategy c) then "" else NormalizeMaskingStrategy (PIIMaskingStrategy c).
Proof.
  intros Hap Hc Ha Hk. rewrite BuildColumnMaskingStrategyMaps_fold. unfold get.
  destruct (str_empty (PIIMaskingStrategy c)) eqn:Hs.
  - destruct (fold_put _ _ _ !! k) as [v|] eqn:E; [|done]. exfalso.
    assert (fold_put (fun c => negb (str_empty (PIIType c) || str_empty (PIIMaskingStrategy c)))
      (fun c => NormalizeMaskingStrategy (PIIMaskingStrategy c)) columns !! k = None) as Hn; [|congruence].
    apply fold_put_None. intros c' Hc' Hs' Hk'. apply negb_true_iff, orb_false_iff in Hs' as [H1 H2].
    assert (c' = c) as -> by (apply (Hap c' c k); try done; apply annotated_spec; by rewrite H1).
    congruence.
  - rewrite (fold_put_apart _ _ columns c k); [done| |done| |done].
    + intros c' Hc' Hs' Hk'. apply negb_true_iff, orb_false_iff in Hs' as [H1 H2].
      f_equal. f_equal. apply (Hap c' c k); try done. apply annotated_spec. by rewrite H1.
    + apply annotated_spec in Ha. apply negb_true_iff in Ha. by rewrite Ha, Hs.
Qed.


Definition example_columns : list Column :=
  [mkColumn "public" "users" "email" "email" ""; mkColumn "public" "users" "iban" "iban" "full"].


(** With two schemas that have a table of the same name, the entry under the
    short name is the one of the column listed last: the hidden column of the
    first schema is looked up by its short name and comes out raw. *)
Example ambiguous_name_leaks :
  let hr := mkColumn "hr" "users" "email" "email" "" in
  let crm := mkColumn "crm" "users" "email" "email" "" in
  match maskingConfig ["viewer"] [hr; crm]
          {["hr.users.email" := "hidden"; "crm.users.email" := "raw"]} with
  | Some cfg => lookup cfg ["hr.users.email"] = Some ("hidden", "email") /\
                lookup cfg ["users.email"; "hr.users.email"] = Some ("raw", "email")
  | None => False
  end.
Proof. vm_compute. by split. Qed.
