(* ===== verification/RowFilter.v ===== *)
(** Row-level security and permissions: [internal/security/row_injection.go],
    [internal/security/permissions.go], [internal/security/composite_permissions.go]
    and the data of [pkg/security/types.go].

    A nil [*PermissionPolicy] is [None].  The key by which
    [containsRowFilter] compares two values ([rowFilterValueKey]: the name of the
    Go type and the JSON text a third-party encoder gives) is a parameter. *)

From S2P Require Import Prelude GoStrings Values Dialect.
From stdpp Require Import options.
#[local] Open Scope Z_scope.

(** * pkg/security/types.go *)

Record RowFilter : Type := mkRowFilter {
  rf_Field : string;
  rf_Operator : string;
  rf_Value : gval;
}.

Record PermissionPolicy : Type := mkPolicy {
  UserID : string;
  pol_DatasourceID : string;
  AllowedModels : list string;
  DeniedFields : list string;
  RowFilters : list RowFilter;
  PIIPolicy : gmap string string;
}.

(** * row_injection.go *)

Definition RowFilterUnknownField (name : string) : goerr := EMsg ("row filter references unknown field: " +:+ name).

(** The comparison operators and their SQL, the cases of the switch that append
    one value. *)
Definition row_comparators : list (string * string) :=
  [("", "="); ("eq", "="); ("neq", "<>"); ("gt", ">"); ("gte", ">="); ("lt", "<"); ("lte", "<=")].

Fixpoint str_assoc_opt (k : string) (l : list (string * string)) : option string :=
  match l with
  | [] => None
  | (k', v) :: l => if String.eqb k k' then Some v else str_assoc_opt k l
  end.

Section RowFilters.
Context (d : Dialect) (initialArgCount : Z).

(** The closure [ph]: the placeholder of the value appended last. *)
Definition ph (extraArgs : list gval) : string :=
  Placeholder d (initialArgCount + Z.of_nat (length extraArgs)).

Definition predicate (lhs op rhs : string) : string := lhs +:+ " " +:+ op +:+ " " +:+ rhs.

(** The loop over the values of an [in] filter. *)
Fixpoint in_placeholders (vals extraArgs : list gval) : list string * list gval :=
  match vals with
  | [] => ([], extraArgs)
  | v :: vals =>
      let extraArgs := extraArgs ++ [v] in
      let '(ps, ex) := in_placeholders vals extraArgs in (ph extraArgs :: ps, ex)
  end.

(** One turn of the loop on a filter whose field is known: the predicate it
    appends and the values bound so far. *)
Definition row_predicate (rf : RowFilter) (colRef : string) (extraArgs : list gval)
    : res (string * list gval) :=
  let quoted := QuoteIdent d colRef in
  let op := ToLower (TrimSpace (rf_Operator rf)) in
  match str_assoc_opt op row_comparators with
  | Some sqlop =>
      let extraArgs := extraArgs ++ [rf_Value rf] in
      Ok (predicate quoted sqlop (ph extraArgs), extraArgs)
  | None =>
      if str_in op ["in"; "not_in"] then
        match rf_Value rf with
        | VList [] =>
            Err (EMsg ("row filter " +:+ Quote op +:+ " requires at least one value for field " +:+ Quote (rf_Field rf)))
        | VList vals =>
            let '(placeholders, extraArgs) := in_placeholders vals extraArgs in
            let keyword := if String.eqb op "not_in" then "NOT IN" else "IN" in
            Ok (predicate quoted keyword ("(" +:+ Join placeholders ", " +:+ ")"), extraArgs)
        | _ =>
            Err (EMsg ("row filter " +:+ Quote op +:+ " expects array value for field " +:+ Quote (rf_Field rf)))
        end
      else if String.eqb op "is_null" then Ok (quoted +:+ " IS NULL", extraArgs)
      else if String.eqb op "is_not_null" then Ok (quoted +:+ " IS NOT NULL", extraArgs)
      else Err (EMsg ("row filter operator " +:+ Quote (rf_Operator rf) +:+ " is not supported for field "
                      +:+ Quote (rf_Field rf)))
  end.

Fixpoint row_loop (dimMap : gmap string string) (omitUnknownFields : bool) (filters : list RowFilter)
    (preds : list string) (extraArgs : list gval) : res (list string * list gval) :=
  match filters with
  | [] => Ok (preds, extraArgs)
  | rf :: filters =>
      match dimMap !! rf_Field rf with
      | None =>
          if omitUnknownFields then row_loop dimMap omitUnknownFields filters preds extraArgs
          else Err (RowFilterUnknownField (rf_Field rf))
      | Some colRef =>
          let? (p, extraArgs) := row_predicate rf colRef extraArgs in
          row_loop dimMap omitUnknownFields filters (preds ++ [p]) extraArgs
      end
  end.
Definition BuildRowFilterPredicates (dimMap : gmap string string) (filters : list RowFilter)
    (omitUnknownFields : bool) : res (list string * list gval) :=
  row_loop dimMap omitUnknownFields filters [] [].
End RowFilters.

(** * permissions.go *)

Definition SystemPolicy : PermissionPolicy := mkPolicy "system" "" [] [] [] ∅.

Definition CheckModelAccess (policy : option PermissionPolicy) (modelName : string) : res unit :=
  match policy with
  | None => Err (EMsg ("no permission policy supplied for model " +:+ modelName))
  | Some p =>
      if decide (AllowedModels p = []) then Ok tt
      else if str_in modelName (AllowedModels p) then Ok tt
      else Err (EMsg ("user " +:+ UserID p +:+ " does not have access to model " +:+ modelName))
  end.

Definition FieldIsDenied (policy : option PermissionPolicy) (qualifiedField plainField : string) : bool :=
  match policy with
  | None => true
  | Some p =>
      if decide (DeniedFields p = []) then false
      else str_in qualifiedField (DeniedFields p) || str_in plainField (DeniedFields p)
  end.

Definition PermissionRowFilters (policy : option PermissionPolicy) : list RowFilter :=
  match policy with None => [] | Some p => RowFilters p end.

Definition HasFieldAccess (policy : option PermissionPolicy) (modelName fieldName : string) : bool :=
  match policy with
  | None => false
  | Some _ => negb (FieldIsDenied policy (modelName +:+ "." +:+ fieldName) fieldName)
  end.

Definition PIIFieldIsHidden (policy : option PermissionPolicy) (qualifiedField plainField : string) : bool :=
  match policy with
  | None => true
  | Some p =>
      existsb (fun key => match PIIPolicy p !! key with
                          | Some access => negb (String.eqb access "raw") && negb (String.eqb access "masked")
                          | None => false
                          end) [qualifiedField; plainField]
  end.

(** * row_injection.go: field access *)

Definition isFieldAllowed (policy : option PermissionPolicy) (qualified unqualified : string) : bool :=
  negb (FieldIsDenied policy qualified unqualified) && negb (PIIFieldIsHidden policy qualified unqualified).

Fixpoint check_fields (policy : option PermissionPolicy) (modelName what uid : string)
    (fields : list string) : res unit :=
  match fields with
  | [] => Ok tt
  | field :: fields =>
      if isFieldAllowed policy (modelName +:+ "." +:+ field) field
      then check_fields policy modelName what uid fields
      else Err (EMsg (what +:+ " " +:+ field +:+ " is not accessible for user " +:+ uid))
  end.

Definition CheckFieldAccess (policy : option PermissionPolicy) (modelName : string)
    (selectFields filterFields : list string) : res unit :=
  match policy with
  | None => Err (EMsg ("no permission policy supplied for model " +:+ modelName))
  | Some p =>
      let? _ := check_fields policy modelName "field" (UserID p) selectFields in
      check_fields policy modelName "filter field" (UserID p) filterFields
  end.

(** * composite_permissions.go *)

Fixpoint CheckCompositeAccess_loop (policy : option PermissionPolicy) (names : list string) : res unit :=
  match names with
  | [] => Ok tt
  | name :: names =>
      let? _ := res_map_err (EWrap "composite access denied") (CheckModelAccess policy name) in
      CheckCompositeAccess_loop policy names
  end.
Definition CheckCompositeAccess (policy : option PermissionPolicy) (componentModelNames : list string) : res unit :=
  match policy with
  | None => Err (EMsg "no permission policy supplied for composite model")
  | Some _ => CheckCompositeAccess_loop policy componentModelNames
  end.

Section Composite.
(** [rowFilterValueKey] *)
Context (rowFilterValueKey : gval -> string).

Definition same_filter (f candidate : RowFilter) : bool :=
  String.eqb (rf_Field f) (rf_Field candidate) && String.eqb (rf_Operator f) (rf_Operator candidate)
  && String.eqb (rowFilterValueKey (rf_Value f)) (rowFilterValueKey (rf_Value candidate)).

Definition containsRowFilter (filters : list RowFilter) (candidate : RowFilter) : bool :=
  existsb (fun f => same_filter f candidate) filters.

(** Appending what was not seen yet. *)
Definition append_new (acc : list string) (xs : list string) : list string :=
  fold_left (fun acc x => if str_in x acc then acc else acc ++ [x]) xs acc.
Definition append_filters (acc xs : list RowFilter) : list RowFilter :=
  fold_left (fun acc x => if containsRowFilter acc x then acc else acc ++ [x]) xs acc.

Fixpoint merge_loop (merged : PermissionPolicy) (policies : list (option PermissionPolicy))
    : res PermissionPolicy :=
  match policies with
  | [] => Ok merged
  | None :: _ => Err (EMsg "missing permission policy for a composite component")
  | Some p :: policies =>
      merge_loop (mkPolicy (UserID merged) (pol_DatasourceID merged)
        (append_new (AllowedModels merged) (AllowedModels p))
        (append_new (DeniedFields merged) (DeniedFields p))
        (append_filters (RowFilters merged) (RowFilters p))
        (PIIPolicy merged)) policies
  end.
Definition MergeComponentPolicies (userID datasourceID : string)
    (policies : list (option PermissionPolicy)) : res PermissionPolicy :=
  merge_loop (mkPolicy userID datasourceID [] [] [] ∅) policies.
End Composite.

(** * What a row filter becomes *)

(** A comma-separated list of the placeholders of the indices [js]. *)
Definition ph_list (js : list Z) : list frag := join_frags (map (fun i => [Ph i]) js) ", ".

(** The predicate of a filter on a quoted column, when [n] values are bound
    already, and the values it binds.  There is no rule for another operator. *)
Inductive RowPred (quoted : string) (rf : RowFilter) (n : Z) : list frag -> list gval -> Prop :=
| RowPred_compare sqlop :
    str_assoc_opt (ToLower (TrimSpace (rf_Operator rf))) row_comparators = Some sqlop ->
    RowPred quoted rf n [Txt (quoted +:+ " " +:+ sqlop +:+ " "); Ph (n + 1)] [rf_Value rf]
| RowPred_in vals :
    ToLower (TrimSpace (rf_Operator rf)) = "in" -> rf_Value rf = VList vals -> vals <> [] ->
    RowPred quoted rf n (Txt (quoted +:+ " IN (") :: ph_list (fresh n (n + Z.of_nat (length vals))) ++ [Txt ")"]) vals
| RowPred_not_in vals :
    ToLower (TrimSpace (rf_Operator rf)) = "not_in" -> rf_Value rf = VList vals -> vals <> [] ->
    RowPred quoted rf n (Txt (quoted +:+ " NOT IN (") :: ph_list (fresh n (n + Z.of_nat (length vals))) ++ [Txt ")"]) vals
| RowPred_is_null :
    ToLower (TrimSpace (rf_Operator rf)) = "is_null" -> RowPred quoted rf n [Txt (quoted +:+ " IS NULL")] []
| RowPred_is_not_null :
    ToLower (TrimSpace (rf_Operator rf)) = "is_not_null" ->
    RowPred quoted rf n [Txt (quoted +:+ " IS NOT NULL")] [].

(** The predicates of a list of filters. *)
Inductive RowPreds (d : Dialect) (dimMap : gmap string string) (omit : bool)
  : Z -> list RowFilter -> list (list frag) -> list gval -> Prop :=
| RowPreds_nil n : RowPreds d dimMap omit n [] [] []
| RowPreds_skip n rf rfs ts args :
    dimMap !! rf_Field rf = None -> omit = true ->
    RowPreds d dimMap omit n rfs ts args -> RowPreds d dimMap omit n (rf :: rfs) ts args
| RowPreds_cons n rf rfs col t vals ts args :
    dimMap !! rf_Field rf = Some col -> RowPred (QuoteIdent d col) rf n t vals ->
    RowPreds d dimMap omit (n + Z.of_nat (length vals)) rfs ts args ->
    RowPreds d dimMap omit n (rf :: rfs) (t :: ts) (vals ++ args).


Lemma render_ph_list ph js : render ph (ph_list js) = Join (map ph js) ", ".
Proof.
  unfold ph_list. rewrite render_join, map_map. f_equal. apply map_ext. intros i. apply app_nil_r.
Qed.
Lemma phs_ph_list js : phs (ph_list js) = js.
Proof.
  unfold ph_list. rewrite phs_join, map_map. cbn [phs].
  induction js as [|i js IH]; cbn [map List.concat app]; [done|by rewrite IH].
Qed.

Lemma in_placeholders_spec d n0 vals extraArgs :
  let n := n0 + Z.of_nat (length extraArgs) in
  in_placeholders d n0 vals extraArgs =
    (map (Placeholder d) (fresh n (n + Z.of_nat (length vals))), extraArgs ++ vals).
Proof.
  revert extraArgs. induction vals as [|v vals IH]; intros extraArgs; cbn [in_placeholders length].
  - rewrite Z.add_0_r, fresh_same, List.app_nil_r. done.
  - rewrite IH. cbv zeta. rewrite <- List.app_assoc. unfold ph. rewrite !List.length_app. cbn [length app].
    rewrite (fresh_succ (n0 + _) (n0 + Z.of_nat (length extraArgs) + _)) by lia. cbn [map].
    replace (n0 + Z.of_nat (length extraArgs + 1)) with (n0 + Z.of_nat (length extraArgs) + 1) by lia.
    do 4 f_equal. lia.
Qed.

Lemma row_predicate_spec d n0 rf col ex p ex' :
  let n := n0 + Z.of_nat (length ex) in
  row_predicate d n0 rf col ex = Ok (p, ex') <->
  exists t vals, RowPred (QuoteIdent d col) rf n t vals /\ p = render (Placeholder d) t /\ ex' = ex ++ vals.
Proof.
  cbv zeta. unfold row_predicate, predicate, ph. split.
  - destruct (str_assoc_opt _ _) as [sqlop|] eqn:E.
    { intros [= <- <-]. eexists _, [rf_Value rf]. split; [by constructor|]. split; [|done].
      rewrite !render_cons, render_nil. cbn [render1]. rewrite app_nil_r, !app_assoc.
      rewrite List.length_app. cbn [length].
      by replace (n0 + Z.of_nat (length ex + 1)) with (n0 + Z.of_nat (length ex) + 1) by lia. }
    destruct (str_in _ _) eqn:E2.
    { destruct (rf_Value rf) as [| | | | | | | | | |[|v vals]| | |] eqn:Ev; try done.
      rewrite in_placeholders_spec. intros [= <- <-].
      apply str_in_spec in E2. rewrite !elem_of_cons, elem_of_nil in E2.
      destruct E2 as [E2|[E2|[]]]; rewrite E2; cbn [String.eqb Ascii.eqb Bool.eqb];
        (eexists _, (v :: vals); split; [first [by apply RowPred_in|by apply RowPred_not_in]|]; split; [|done]);
        by rewrite render_cons, render_app, render_ph_list; cbn [render1]; rewrite !app_assoc. }
    destruct (String.eqb_spec (ToLower (TrimSpace (rf_Operator rf))) "is_null") as [E3|_].
    { intros [= <- <-]. eexists _, []. split; [by apply RowPred_is_null|].
      rewrite List.app_nil_r. split; [|done]. symmetry. apply app_nil_r. }
    destruct (String.eqb_spec (ToLower (TrimSpace (rf_Operator rf))) "is_not_null") as [E3|_]; [|done].
    intros [= <- <-]. eexists _, []. split; [by apply RowPred_is_not_null|].
    rewrite List.app_nil_r. split; [|done]. symmetry. apply app_nil_r.
  - intros (t & vals & Ht & -> & ->). destruct Ht as [sqlop E|vals E Ev Hne|vals E Ev Hne|E|E]; rewrite E.
    + rewrite !render_cons, render_nil. cbn [render1]. rewrite app_nil_r, !app_assoc.
      rewrite List.length_app. cbn [length].
    by replace (n0 + Z.of_nat (length ex + 1)) with (n0 + Z.of_nat (length ex) + 1) by lia.
    + rewrite Ev. destruct vals as [|v vals]; [done|]. cbn [str_assoc_opt row_comparators String.eqb].
      rewrite in_placeholders_spec, render_cons, render_app, render_ph_list. cbn [render1].
      by rewrite !app_assoc.
    + rewrite Ev. destruct vals as [|v vals]; [done|]. cbn [str_assoc_opt row_comparators String.eqb].
      rewrite in_placeholders_spec, render_cons, render_app, render_ph_list. cbn [render1].
      by rewrite !app_assoc.
    + rewrite List.app_nil_r. cbn. by rewrite app_nil_r.
    + rewrite List.app_nil_r. cbn. by rewrite app_nil_r.
Qed.

Lemma row_loop_spec d n0 dimMap omit filters preds ex preds' ex' :
  row_loop d n0 dimMap omit filters preds ex = Ok (preds', ex') <->
  exists ts vals, RowPreds d dimMap omit (n0 + Z.of_nat (length ex)) filters ts vals /\
    preds' = preds ++ map (render (Placeholder d)) ts /\ ex' = ex ++ vals.
Proof.
  revert preds ex. induction filters as [|rf filters IH]; intros preds ex; cbn [row_loop].
  - split.
    + intros [= <- <-]. exists [], []. rewrite !List.app_nil_r. split; [constructor|done].
    + intros (ts & vals & Ht & -> & ->). inversion Ht. by rewrite !List.app_nil_r.
  - destruct (dimMap !! rf_Field rf) as [col|] eqn:E.
    + split.
      * intros ([p ex1] & (t & vals & Hp & -> & ->)%row_predicate_spec & Hl)%res_bind_ok.
        apply IH in Hl as (ts & vals' & Hts & -> & ->). exists (t :: ts), (vals ++ vals').
        rewrite <- !List.app_assoc. split; [|done].
        eapply RowPreds_cons; [done|done|]. rewrite List.length_app in Hts.
        by replace (n0 + Z.of_nat (length ex) + Z.of_nat (length vals))
          with (n0 + Z.of_nat (length ex + length vals)) by lia.
      * intros (ts & vals & Ht & -> & ->).
        inversion Ht as [|? ? ? ? ? Hn|? ? ? col' t vals' ts' args' Hc Hp Hr]; subst; [congruence|].
        rewrite E in Hc. injection Hc as <-.
        assert (row_predicate d n0 rf col ex = Ok (render (Placeholder d) t, ex ++ vals')) as ->
          by (apply row_predicate_spec; eauto).
        cbn [res_bind]. apply IH. exists ts', args'. rewrite <- !List.app_assoc. split; [|done].
        rewrite List.length_app.
        by replace (n0 + Z.of_nat (length ex + length vals'))
          with (n0 + Z.of_nat (length ex) + Z.of_nat (length vals')) by lia.
    + destruct omit; [rewrite IH|]; split.
      * intros (ts & vals & Ht & ? & ?). exists ts, vals. split; [by constructor|done].
      * intros (ts & vals & Ht & ? & ?). exists ts, vals. split; [|done].
        inversion Ht; subst; congruence.
      * done.
      * intros (ts & vals & Ht & ? & ?). inversion Ht; subst; congruence.
Qed.

Lemma RowPred_indices quoted rf n t vals :
  RowPred quoted rf n t vals -> phs t = fresh n (n + Z.of_nat (length vals)).
Proof.
  intros [sqlop _|vs _ _ _|vs _ _ _|_|_]; cbn [phs length app]; try by rewrite Z.add_0_r, fresh_same.
  - by rewrite fresh_one.
  - by rewrite phs_app, phs_ph_list, List.app_nil_r.
  - by rewrite phs_app, phs_ph_list, List.app_nil_r.
Qed.
Lemma RowPreds_indices d dimMap omit n rfs ts vals :
  RowPreds d dimMap omit n rfs ts vals ->
  List.concat (map phs ts) = fresh n (n + Z.of_nat (length vals)).
Proof.
  induction 1 as [n|n rf rfs ts args _ _ _ IH|n rf rfs col t vals ts args _ Ht _ IH].
  - by rewrite Z.add_0_r, fresh_same.
  - done.
  - cbn [map List.concat]. rewrite (RowPred_indices _ _ _ _ _ Ht), IH, List.length_app.
    rewrite (fresh_app n (n + Z.of_nat (length vals)) (n + Z.of_nat (length vals + length args))) by lia.
    do 2 f_equal. lia.
Qed.
(** The templates do not depend on how placeholders are spelled. *)
Lemma RowPreds_spelling d ph dimMap omit n rfs ts vals :
  RowPreds d dimMap omit n rfs ts vals -> RowPreds (with_placeholder d ph) dimMap omit n rfs ts vals.
Proof. induction 1; [apply RowPreds_nil|by apply RowPreds_skip|by eapply RowPreds_cons]. Qed.

(** Neither does a failure. *)
Lemma row_predicate_spelling d ph n0 rf col ex :
  match row_predicate (with_placeholder d ph) n0 rf col ex, row_predicate d n0 rf col ex with
  | Ok (_, ex1), Ok (_, ex2) => ex1 = ex2
  | Err e1, Err e2 => e1 = e2
  | _, _ => False
  end.
Proof.
  unfold row_predicate. cbv zeta. destruct (str_assoc_opt _ _); [done|]. destruct (str_in _ _).
  - destruct (rf_Value rf) as [| | | | | | | | | |[|v vals]| | |]; try done. by rewrite !in_placeholders_spec.
  - by repeat destruct (String.eqb _ _).
Qed.
Lemma row_loop_spelling d ph n0 dimMap omit filters preds preds' ex e :
  row_loop d n0 dimMap omit filters preds ex = Err e ->
  row_loop (with_placeholder d ph) n0 dimMap omit filters preds' ex = Err e.
Proof.
  revert preds preds' ex. induction filters as [|rf filters IH]; intros preds preds' ex; cbn [row_loop]; [done|].
  destruct (dimMap !! rf_Field rf) as [col|]; [|destruct omit; [apply IH|done]].
  pose proof (row_predicate_spelling d ph n0 rf col ex) as Hp.
  destruct (row_predicate (with_placeholder d ph) n0 rf col ex) as [[p1 ex1]|e1],
    (row_predicate d n0 rf col ex) as [[p2 ex2]|e2]; try done; cbn [res_bind]; subst; [apply IH|done].
Qed.

(** the row-level security predicates are exactly those the operators of the
    filters stand for.  Building them succeeds exactly when every filter on a
    known field has one of the eleven supported operators with a value of the
    right shape (and, unless unknown fields are to be left out, every field is
    known); there is then one predicate per filter on a known field, in order, on
    the quoted column, with the SQL operator of the table, so an operator is
    never replaced by another one; and the values, in order, are bound by the
    consecutive placeholders after those already in use, each mentioned once. *)
Theorem BuildRowFilterPredicates_exact (d : Dialect) (n : Z) (dimMap : gmap string string)
    (filters : list RowFilter) (omit : bool) (preds : list string) (args : list gval) :
  BuildRowFilterPredicates d n dimMap filters omit = Ok (preds, args) <->
  exists ts, RowPreds d dimMap omit n filters ts args /\
    preds = map (render (Placeholder d)) ts /\
    List.concat (map phs ts) = fresh n (n + Z.of_nat (length args)).
Proof.
  unfold BuildRowFilterPredicates. rewrite row_loop_spec. cbn [length app]. rewrite Z.add_0_r. split.
  - intros (ts & vals & Ht & -> & ->). exists ts. split_and!; [done|done|by eapply RowPreds_indices].
  - intros (ts & Ht & -> & _). by exists ts, args.
Qed.

Lemma BuildRowFilterPredicates_fuel d n dimMap filters omit e :
  BuildRowFilterPredicates d n dimMap filters omit = Err e -> no_fuel e.
Proof.
  unfold BuildRowFilterPredicates. generalize (@nil string), (@nil gval).
  induction filters as [|rf filters IH]; intros preds ex; cbn [row_loop]; [done|].
  destruct (dimMap !! rf_Field rf) as [col|]; [|destruct omit; [apply IH|by intros [= <-]]].
  destruct (row_predicate d n rf col ex) as [[p ex']|e'] eqn:E; cbn [res_bind]; [apply IH|].
  intros [= <-]. revert E. unfold row_predicate.
  split_cases; intros [= <-]; done.
Qed.

(** * Access checks *)

Definition field_open (p : PermissionPolicy) (modelName field : string) : Prop :=
  (forall k, k ∈ [modelName +:+ "." +:+ field; field] ->
     k ∉ DeniedFields p /\ (PIIPolicy p !! k = None \/ PIIPolicy p !! k = Some "raw" \/
                            PIIPolicy p !! k = Some "masked")).

Lemma FieldIsDenied_spec p q f :
  FieldIsDenied (Some p) q f = true <-> q ∈ DeniedFields p \/ f ∈ DeniedFields p.
Proof.
  cbn [FieldIsDenied]. case_decide as E.
  - rewrite E. rewrite !elem_of_nil. naive_solver.
  - by rewrite orb_true_iff, !str_in_spec.
Qed.

Lemma isFieldAllowed_spec p m f :
  isFieldAllowed (Some p) (m +:+ "." +:+ f) f = true <-> field_open p m f.
Proof.
  unfold isFieldAllowed, field_open. rewrite andb_true_iff, !negb_true_iff, <- !not_true_iff_false.
  rewrite FieldIsDenied_spec. cbn [PIIFieldIsHidden]. rewrite existsb_In.
  set (q := m +:+ "." +:+ f). split.
  - intros [Hd Hp] k Hk. split.
    + rewrite !elem_of_cons, elem_of_nil in Hk. destruct Hk as [->|[->|[]]]; naive_solver.
    + destruct (PIIPolicy p !! k) as [a|] eqn:E; [right|by left].
      destruct (String.eqb_spec a "raw") as [->|H1]; [by left|].
      destruct (String.eqb_spec a "masked") as [->|H2]; [by right|].
      exfalso. apply Hp. exists k. split; [done|]. rewrite E.
      by apply andb_true_iff; rewrite !negb_true_iff, !String.eqb_neq.
  - intros H. split.
    + intros [Hd|Hd]; [apply (H q)|apply (H f)]; set_solver.
    + intros (k & Hk & Ha). destruct (H k Hk) as [_ [E|[E|E]]]; by rewrite E in Ha.
Qed.

Lemma check_fields_ok p m what uid fields :
  check_fields (Some p) m what uid fields = Ok tt <-> Forall (field_open p m) fields.
Proof.
  induction fields as [|f fields IH]; cbn [check_fields]; [by split|].
  rewrite Forall_cons, <- isFieldAllowed_spec, <- IH.
  destruct (isFieldAllowed _ _ _); [naive_solver|]. split; [done|]. by intros [? _].
Qed.

Lemma CheckModelAccess_ok p name :
  CheckModelAccess (Some p) name = Ok tt <-> AllowedModels p = [] \/ name ∈ AllowedModels p.
Proof.
  cbn [CheckModelAccess]. case_decide; [naive_solver|].
  destruct (str_in name (AllowedModels p)) eqn:E.
  - apply str_in_spec in E. naive_solver.
  - apply str_in_false in E. naive_solver.
Qed.

(** C37: access checks fail closed.  Without a policy, no model, no composite and no
    field is accessible.  With one, a composite is accessible exactly when the
    policy restricts no models or allows every component, and a query's fields
    are accessible exactly when none of them, selected or filtered on, is denied
    or hidden under its plain or its model-qualified name, where every access
    word but raw and masked hides. *)
Theorem access_fails_closed (policy : option PermissionPolicy) (modelName : string)
    (names selectFields filterFields : list string) :
  (CheckCompositeAccess policy names = Ok tt <->
   exists p, policy = Some p /\ (AllowedModels p = [] \/ Forall (fun n => n ∈ AllowedModels p) names)) /\
  (CheckFieldAccess policy modelName selectFields filterFields = Ok tt <->
   exists p, policy = Some p /\ Forall (field_open p modelName) (selectFields ++ filterFields)) /\
  (CheckModelAccess policy modelName = Ok tt <->
   exists p, policy = Some p /\ (AllowedModels p = [] \/ modelName ∈ AllowedModels p)).
Proof.
  destruct policy as [p|]; cycle 1.
  { split_and!; (split; [done|]); intros (p & [=] & _). }
  assert (forall P : PermissionPolicy -> Prop, (exists p0, Some p = Some p0 /\ P p0) <-> P p) as Hex by naive_solver.
  split_and!; rewrite Hex; clear Hex.
  - cbn [CheckCompositeAccess].
    induction names as [|name names IH]; cbn [CheckCompositeAccess_loop].
    { split; [intros _; right; constructor|done]. }
    rewrite Forall_cons. destruct (CheckModelAccess (Some p) name) as [[]|e] eqn:E; cbn [res_map_err res_bind].
    + apply CheckModelAccess_ok in E. rewrite IH. naive_solver.
    + split; [done|]. intros H.
      assert (CheckModelAccess (Some p) name = Ok tt); [|congruence].
      apply CheckModelAccess_ok. naive_solver.
  - cbn [CheckFieldAccess]. rewrite Forall_app.
    rewrite <- (check_fields_ok p modelName "field" (UserID p) selectFields).
    rewrite <- (check_fields_ok p modelName "filter field" (UserID p) filterFields).
    destruct (check_fields (Some p) modelName "field" (UserID p) selectFields) as [[]|e]; cbn [res_bind];
      naive_solver.
  - apply CheckModelAccess_ok.
Qed.

(** * Merging the policies of a composite *)

Section MergeProofs.
Context (rowFilterValueKey : gval -> string).

(** What tells two row filters apart. *)
Definition row_key (rf : RowFilter) : string * string * string :=
  (rf_Field rf, rf_Operator rf, rowFilterValueKey (rf_Value rf)).

Lemma same_filter_spec f g : same_filter rowFilterValueKey f g = true <-> row_key f = row_key g.
Proof.
  unfold same_filter, row_key. rewrite !andb_true_iff, !String.eqb_eq.
  split; [intros [[-> ->] ->]; done|by intros [= -> -> ->]].
Qed.
Lemma containsRowFilter_spec fs g :
  containsRowFilter rowFilterValueKey fs g = true <-> row_key g ∈ map row_key fs.
Proof.
  unfold containsRowFilter. rewrite existsb_In, list_elem_of_fmap.
  split; intros (x & H1 & H2); exists x; rewrite same_filter_spec in *; by split.
Qed.

Lemma append_new_spec acc xs :
  (forall x, x ∈ append_new acc xs <-> x ∈ acc \/ x ∈ xs) /\ (NoDup acc -> NoDup (append_new acc xs)).
Proof.
  unfold append_new. induction xs as [|x xs IH] using rev_ind; [set_solver|].
  rewrite fold_left_app. cbn [fold_left]. destruct IH as [IH1 IH2].
  destruct (str_in x _) eqn:E.
  - apply str_in_spec, IH1 in E. split; [set_solver|done].
  - apply str_in_false in E. split; [set_solver|]. intros Hn. apply NoDup_app.
    split_and!; [by apply IH2|set_solver|apply NoDup_singleton].
Qed.
Lemma append_filters_spec acc xs :
  (forall k, k ∈ map row_key (append_filters rowFilterValueKey acc xs) <->
     k ∈ map row_key acc \/ k ∈ map row_key xs) /\
  (NoDup (map row_key acc) -> NoDup (map row_key (append_filters rowFilterValueKey acc xs))).
Proof.
  unfold append_filters. induction xs as [|x xs IH] using rev_ind; [set_solver|].
  rewrite fold_left_app. cbn [fold_left]. destruct IH as [IH1 IH2].
  destruct (containsRowFilter _ _ x) eqn:E.
  - apply containsRowFilter_spec in E. split; [|done]. intros k. rewrite map_app, elem_of_app, IH1.
    cbn [map]. rewrite list_elem_of_singleton. apply IH1 in E. naive_solver.
  - assert (row_key x ∉ map row_key (fold_left (fun acc x => if containsRowFilter rowFilterValueKey acc x
      then acc else acc ++ [x]) xs acc)) as Hx by (rewrite <- containsRowFilter_spec, E; done).
    split.
    + intros k. rewrite !map_app, !elem_of_app, IH1. tauto.
    + intros Hn. rewrite map_app. apply NoDup_app. cbn [map].
      split_and!; [by apply IH2|intros k Hk ->%list_elem_of_singleton; done|apply NoDup_singleton].
Qed.

(** The fields, models and filter keys some policy of a list has. *)
Definition some_policy (P : PermissionPolicy -> Prop) (ps : list (option PermissionPolicy)) : Prop :=
  exists p, Some p ∈ ps /\ P p.

Lemma some_policy_cons P p ps : some_policy P (Some p :: ps) <-> P p \/ some_policy P ps.
Proof. unfold some_policy. set_solver. Qed.
Lemma some_policy_nil P : some_policy P [] <-> False.
Proof. unfold some_policy. set_solver. Qed.

Lemma merge_loop_spec merged ps :
  match merge_loop rowFilterValueKey merged ps with
  | Ok m =>
      None ∉ ps /\ UserID m = UserID merged /\ pol_DatasourceID m = pol_DatasourceID merged /\
      PIIPolicy m = PIIPolicy merged /\
      (forall f, f ∈ DeniedFields m <-> f ∈ DeniedFields merged \/ some_policy (fun p => f ∈ DeniedFields p) ps) /\
      (forall f, f ∈ AllowedModels m <-> f ∈ AllowedModels merged \/ some_policy (fun p => f ∈ AllowedModels p) ps) /\
      (forall k, k ∈ map row_key (RowFilters m) <->
         k ∈ map row_key (RowFilters merged) \/ some_policy (fun p => k ∈ map row_key (RowFilters p)) ps) /\
      (NoDup (map row_key (RowFilters merged)) -> NoDup (map row_key (RowFilters m)))
  | Err _ => None ∈ ps
  end.
Proof.
  revert merged. induction ps as [|[p|] ps IH]; intros merged; cbn [merge_loop].
  - split_and!; try done; try (intros; rewrite some_policy_nil; naive_solver). set_solver.
  - match goal with |- context [merge_loop _ ?m ps] => specialize (IH m) end.
    destruct (merge_loop _ _ ps) as [m|e]; [|by right].
    cbn [UserID pol_DatasourceID PIIPolicy DeniedFields AllowedModels RowFilters] in IH.
    destruct IH as (Hn & HU & HD & HP & Hd & Ha & Hr & Hnd). split_and!; try done.
    + set_solver.
    + intros f. rewrite Hd, some_policy_cons. rewrite (proj1 (append_new_spec _ _)). tauto.
    + intros f. rewrite Ha, some_policy_cons. rewrite (proj1 (append_new_spec _ _)). tauto.
    + intros k. rewrite Hr, some_policy_cons. rewrite (proj1 (append_filters_spec _ _)). tauto.
    + intros ?. by apply Hnd, append_filters_spec.
  - by left.
Qed.

(** merging the policies of the components of a composite keeps every
    component's restrictions on fields and rows and adds none: the result denies
    a field, under either of its names, exactly when some component does, and
    demands a row filter exactly when some component does, each once; it fails
    exactly when a component has no policy.  (The components' column-level access
    words are not merged: see [merged_policy_unhides].) *)
Theorem MergeComponentPolicies_restricts (userID datasourceID : string)
    (ps : list (option PermissionPolicy)) :
  match MergeComponentPolicies rowFilterValueKey userID datasourceID ps with
  | Ok m =>
      None ∉ ps /\ UserID m = userID /\ pol_DatasourceID m = datasourceID /\
      (forall q f, FieldIsDenied (Some m) q f = existsb (fun p => FieldIsDenied p q f) ps) /\
      (forall k, k ∈ map row_key (RowFilters m) <->
         exists p, Some p ∈ ps /\ k ∈ map row_key (RowFilters p)) /\
      NoDup (map row_key (RowFilters m)) /\
      (forall n, n ∈ AllowedModels m <-> exists p, Some p ∈ ps /\ n ∈ AllowedModels p)
  | Err _ => None ∈ ps
  end.
Proof.
  unfold MergeComponentPolicies.
  pose proof (merge_loop_spec (mkPolicy userID datasourceID [] [] [] ∅) ps) as H.
  destruct (merge_loop _ _ ps) as [m|e]; [|done].
  cbn [UserID pol_DatasourceID PIIPolicy DeniedFields AllowedModels RowFilters map] in H.
  destruct H as (Hn & HU & HD & _ & Hd & Ha & Hr & Hnd). split_and!; try done.
  - intros q f. apply eq_true_iff_eq. rewrite FieldIsDenied_spec, existsb_In, !Hd, !elem_of_nil.
    unfold some_policy. split.
    + intros [[[]|(p & Hp & Hf)]|[[]|(p & Hp & Hf)]]; exists (Some p); (split; [done|]);
        rewrite FieldIsDenied_spec; tauto.
    + intros ([p|] & Hp & Hf); [|done]. rewrite FieldIsDenied_spec in Hf. naive_solver.
  - intros k. rewrite Hr, elem_of_nil. unfold some_policy. naive_solver.
  - apply Hnd. constructor.
  - intros k. rewrite Ha, elem_of_nil. unfold some_policy. naive_solver.
Qed.
End MergeProofs.

(** A field a component's policy hides is not hidden by the merged policy. *)
Example merged_policy_unhides :
  let p := mkPolicy "u" "d" [] [] [] {["users.email" := "hidden"]} in
  PIIFieldIsHidden (Some p) "users.email" "email" = true /\
  match MergeComponentPolicies (fun _ => "") "u" "d" [Some p] with
  | Ok m => PIIFieldIsHidden (Some m) "users.email" "email" = false
  | Err _ => False
  end.
Proof. vm_compute. by split. Qed.
