(* ===== verification/CompileMonad.v ===== *)
(** The compiler object and its effects: [Compiler] of
    [internal/query/compiler.go] and the mutable data its methods share.

    The fields fixed during one compilation are the record [Comp]; what the
    methods change is the state [St]: the bind arguments appended through the
    [args] pointer, the columns recorded in [PIIMaskingConfig.Applied], and the
    field [err], in which methods without an error result leave their error.  A
    method is a computation [M]: it returns or fails, and leaves a state either
    way, since the slices it appended to keep what they hold when it fails. *)

From S2P Require Import Prelude GoStrings Values Dialect Pii RowFilter.
From stdpp Require Import options.
#[local] Open Scope Z_scope.

Record Comp : Type := mkComp {
  dialect : Dialect;
  pii : option PIIMaskingConfig;
  rowFilters : list RowFilter;
  derivedSource : bool;
}.

Record St : Type := mkSt {
  args : list gval;
  Masked : list string;
  Hidden : list string;
  err : option goerr;
}.

Definition set_args (a : list gval) (st : St) : St := mkSt a (Masked st) (Hidden st) (err st).
Definition set_Masked (m : list string) (st : St) : St := mkSt (args st) m (Hidden st) (err st).
Definition set_Hidden (h : list string) (st : St) : St := mkSt (args st) (Masked st) h (err st).
Definition set_err (e : option goerr) (st : St) : St := mkSt (args st) (Masked st) (Hidden st) e.

Definition M (A : Type) : Type := St -> res A * St.

Definition ret {A} (a : A) : M A := fun st => (Ok a, st).
Definition throw {A} (e : goerr) : M A := fun st => (Err e, st).
Definition bind {A B} (m : M A) (k : A -> M B) : M B := fun st =>
  match m st with
  | (Ok a, st) => k a st
  | (Err e, st) => (Err e, st)
  end.
Notation "'do' x '<-' m ';' k" := (bind m (fun x => k))
  (at level 10, x pattern, m at level 100, k at level 200, right associativity) : biq_scope.

(** A pure call that may fail. *)
Definition lift {A} (r : res A) : M A := fun st => (r, st).

(** [fmt.Errorf("...: %w", err)] on the error of a call. *)
Definition wrapping {A} (ctx : string) (m : M A) : M A := fun st =>
  let '(r, st) := m st in (res_map_err (EWrap ctx) r, st).

(** [c.err = err] and the read of [c.err]. *)
Definition set_cerr (e : goerr) : M unit := fun st => (Ok tt, set_err (Some e) st).
Definition get_cerr : M (option goerr) := fun st => (Ok (err st), st).
(** [if c.err != nil { return "", c.err }] *)
Definition check_cerr : M unit := fun st =>
  match err st with Some e => (Err e, st) | None => (Ok tt, st) end.

(** A method without an error result that stores the error of a call in [c.err]
    and returns the empty string: [if err != nil { c.err = err; return "" }]. *)
Definition keeping (m : M string) : M string := fun st =>
  match m st with
  | (Ok s, st) => (Ok s, st)
  | (Err e, st) => (Ok "", set_err (Some e) st)
  end.

(** [*args = append( *args, v)], then [len( *args)]. *)
Definition append_arg (v : gval) : M Z := fun st =>
  let a := args st ++ [v] in (Ok (Z.of_nat (length a)), set_args a st).
Definition len_args : M Z := fun st => (Ok (Z.of_nat (length (args st))), st).
Definition append_args (vs : list gval) : M unit := fun st => (Ok tt, set_args (args st ++ vs) st).

Definition get_args : M (list gval) := fun st => (Ok (args st), st).
(** [args := make([]any, 0, 8)] *)
Definition fresh_args : M unit := fun st => (Ok tt, set_args [] st).

(** [m] on a copy of the compiler: what it leaves in [err] is dropped with the
    copy. *)
Definition on_copy {A} (m : M A) : M A := fun st =>
  let '(r, st') := m st in (r, set_err (err st) st').

(** The append followed by the placeholder of the value appended. *)
Definition bind_value (d : Dialect) (v : gval) : M string :=
  do n <- append_arg v; ret (Placeholder d n).

(** [recordMasked] and [recordHidden]. *)
Definition recordMasked (ref : string) : M unit := fun st =>
  (Ok tt, if str_in ref (Masked st) then st else set_Masked (Masked st ++ [ref]) st).
Definition recordHidden (ref : string) : M unit := fun st =>
  (Ok tt, if str_in ref (Hidden st) then st else set_Hidden (Hidden st ++ [ref]) st).

(** The columns recorded so far. *)
Definition get_record : M (list string * list string) := fun st => (Ok (Masked st, Hidden st), st).

(** A loop that collects one result per element and stops at the first error. *)
Definition mapM {A B} (f : A -> M B) : list A -> M (list B) :=
  fix go l :=
    match l with
    | [] => ret []
    | x :: l => do y <- f x; do ys <- go l; ret (y :: ys)
    end.

(** The same with the index of the element. *)
Definition mapiM {A B} (f : Z -> A -> M B) : Z -> list A -> M (list B) :=
  fix go i l :=
    match l with
    | [] => ret []
    | x :: l => do y <- f i x; do ys <- go (i + 1) l; ret (y :: ys)
    end.

(** * Success *)

Lemma bind_ok {A B} (m : M A) (k : A -> M B) st b st' :
  bind m k st = (Ok b, st') -> exists a st1, m st = (Ok a, st1) /\ k a st1 = (Ok b, st').
Proof.
  unfold bind. destruct (m st) as [[a|e] st1]; intros Hk; [by exists a, st1|discriminate Hk].
Qed.

Lemma wrapping_ok {A} s (m : M A) st a st' : wrapping s m st = (Ok a, st') -> m st = (Ok a, st').
Proof. unfold wrapping. by destruct (m st) as [[b|e] st1]; intros [= -> ->]. Qed.
Lemma on_copy_ok {A} (m : M A) st a st' :
  on_copy m st = (Ok a, st') -> exists st1, m st = (Ok a, st1) /\ args st' = args st1.
Proof. unfold on_copy. destruct (m st) as [r st1]. intros [= -> <-]. by exists st1. Qed.

(** [m] succeeds whatever the state. *)
Definition succeeds {A} (m : M A) : Prop := forall st, exists a st', m st = (Ok a, st').

Lemma succeeds_ret {A} (a : A) : succeeds (ret a).
Proof. intros st. by eexists _, _. Qed.
Lemma succeeds_bind {A B} (m : M A) (k : A -> M B) :
  succeeds m -> (forall a, succeeds (k a)) -> succeeds (bind m k).
Proof.
  intros Hm Hk st. destruct (Hm st) as (a & st1 & E). destruct (Hk a st1) as (b & st2 & E2).
  exists b, st2. unfold bind. by rewrite E.
Qed.
Lemma succeeds_mapM {A B} (f : A -> M B) l : Forall (fun x => succeeds (f x)) l -> succeeds (mapM f l).
Proof.
  induction 1 as [|x l Hx _ IH]; cbn [mapM]; [apply succeeds_ret|].
  apply succeeds_bind; [done|]. intros y. apply succeeds_bind; [done|]. intros ys. apply succeeds_ret.
Qed.
Lemma mapM_ok {A B} (f : A -> M B) l st ys st' :
  mapM f l st = (Ok ys, st') -> Forall (fun x => exists st y st', f x st = (Ok y, st')) l.
Proof.
  revert st ys st'. induction l as [|x l IH]; intros st ys st' Hm; [constructor|]. cbn [mapM] in Hm.
  apply bind_ok in Hm as (y & st1 & Hx & Hm). apply bind_ok in Hm as (ys' & st2 & Hl & _).
  constructor; [by exists st, y, st1|by eapply IH].
Qed.
#[export] Hint Resolve succeeds_ret succeeds_bind succeeds_mapM : biq.

Lemma Forall_apply {A} (P Q : A -> Prop) l : Forall (fun x => P x -> Q x) l -> Forall P l -> Forall Q l.
Proof. induction 1; inversion 1; subst; constructor; auto. Qed.

(** Takes apart a successful computation in the hypotheses. *)
Ltac bind_inv :=
  repeat match goal with
  | Hb : bind _ _ _ = (Ok _, _) |- _ =>
      let a := fresh "a" in let st := fresh "st" in let Ha := fresh "Ha" in
      apply bind_ok in Hb as (a & st & Ha & Hb)
  end.

(** * Computations whose result does not depend on the state *)

(** Both computations return the same result, whatever the state. *)
Definition same_result {A} (m1 m2 : M A) : Prop :=
  exists r, (forall st, (m1 st).1 = r) /\ (forall st, (m2 st).1 = r).

Lemma same_refl {A} (m : M A) r : (forall st, (m st).1 = r) -> same_result m m.
Proof. by exists r. Qed.
Lemma same_ret {A} (a : A) : same_result (ret a) (ret a).
Proof. by exists (Ok a). Qed.
Lemma same_throw {A} e : same_result (@throw A e) (throw e).
Proof. by exists (Err e). Qed.
Lemma same_lift {A} (r : res A) : same_result (lift r) (lift r).
Proof. by exists r. Qed.
Lemma same_bind {A B} (m1 m2 : M A) (k1 k2 : A -> M B) :
  same_result m1 m2 -> (forall a, same_result (k1 a) (k2 a)) -> same_result (bind m1 k1) (bind m2 k2).
Proof.
  intros (r & H1 & H2) Hk. destruct r as [a|e].
  - destruct (Hk a) as (r & K1 & K2). exists r. split; intros st; unfold bind.
    + specialize (H1 st). destruct (m1 st) as [[|] st']; cbn in H1; simplify_eq. apply K1.
    + specialize (H2 st). destruct (m2 st) as [[|] st']; cbn in H2; simplify_eq. apply K2.
  - exists (Err e). split; intros st; unfold bind.
    + specialize (H1 st). by destruct (m1 st) as [[|] st']; cbn in *; simplify_eq.
    + specialize (H2 st). by destruct (m2 st) as [[|] st']; cbn in *; simplify_eq.
Qed.
Lemma same_mapM {A A' B} (f1 : A -> M B) (f2 : A' -> M B) l1 l2 :
  Forall2 (fun x y => same_result (f1 x) (f2 y)) l1 l2 -> same_result (mapM f1 l1) (mapM f2 l2).
Proof.
  induction 1 as [|x y l1 l2 Hx _ IH]; cbn [mapM]; [apply same_ret|].
  apply same_bind; [done|]. intros b. apply same_bind; [done|]. intros bs. apply same_ret.
Qed.
#[export] Hint Resolve same_ret same_throw same_lift same_bind : biq.
