(* ===== verification/Effects.v ===== *)
(** Reasoning about computations of the compiler.

    [eff R E m]: from any state, [m] moves along the relation [R] and fails only
    with errors [E] admits from that state.  Two instances serve below: [quiet],
    for methods that bind no argument, and [fueled], for methods whose errors are
    never those of used-up fuel, given that the error kept in the state is not.

    [runs m st Q] is about a family of computations, one for each spelling of the
    placeholders: from [st] they all fail with the same error, or all succeed,
    leaving the same state; [Q] holds of the family of their results and of that
    state.  Its rules are those of a weakest precondition. *)

From stdpp Require Import numbers.
From S2P Require Import Prelude GoStrings Values Dialect Pii CompileMonad.
From stdpp Require Import options.
#[local] Open Scope Z_scope.
#[export] Set Warnings "-implicit-create-hint-db".

(** * Effects of one computation *)

Definition eff {A} (R : St -> St -> Prop) (E : St -> goerr -> Prop) (m : M A) : Prop :=
  forall st, R st (m st).2 /\ (forall e, (m st).1 = Err e -> E st e).

Class Effect (R : St -> St -> Prop) (E : St -> goerr -> Prop) : Prop := {
  eff_refl st : R st st;
  eff_trans st1 st2 st3 : R st1 st2 -> R st2 st3 -> R st1 st3;
  eff_record st m h : R st (mkSt (args st) m h (err st));
  eff_keep st st1 e : R st st1 -> E st e -> R st (set_err (Some e) st1);
  eff_copy st st1 : R st st1 -> R st (set_err (err st) st1);
  eff_err st e : no_fuel e -> E st e;
  eff_wrap st s e : E st e -> E st (EWrap s e);
  eff_back st st1 e : R st st1 -> E st1 e -> E st e;
  eff_cerr st e : err st = Some e -> E st e;
}.
(** Effects that let arguments be bound. *)
Class Binding (R : St -> St -> Prop) : Prop := eff_args st a : R st (set_args a st).

Definition same_args (st st' : St) : Prop := args st' = args st.
Definition any_error (st : St) (e : goerr) : Prop := True.
#[export] Instance Effect_quiet : Effect same_args any_error.
Proof. split; unfold same_args, any_error; by try congruence. Qed.

Definition err_fueled (st : St) : Prop := match err st with Some e => no_fuel e | None => True end.
Definition keeps_fueled (st st' : St) : Prop := err_fueled st -> err_fueled st'.
Definition fueled_error (st : St) (e : goerr) : Prop := err_fueled st -> no_fuel e.
#[export] Instance Effect_fueled : Effect keeps_fueled fueled_error.
Proof.
  split; unfold keeps_fueled, fueled_error, err_fueled; cbn [err set_err no_fuel]; try by auto.
  - tauto.
  - tauto.
  - by intros st e ->.
Qed.
#[export] Instance Binding_fueled : Binding keeps_fueled.
Proof. intros st a H. exact H. Qed.

Section Eff.
Context {R : St -> St -> Prop} {E : St -> goerr -> Prop} `{HE : !Effect R E}.

Lemma eff_ret {A} (a : A) : eff R E (ret a).
Proof using HE. intros st. split; [apply eff_refl|done]. Qed.
Lemma eff_throw {A} e : no_fuel e -> eff R E (@throw A e).
Proof using HE. intros He st. split; [apply eff_refl|]. intros e' [= <-]. by apply eff_err. Qed.
Lemma eff_lift {A} (r : res A) : (forall e, r = Err e -> no_fuel e) -> eff R E (lift r).
Proof using HE. intros He st. split; [apply eff_refl|]. intros e Hr. by apply eff_err, He. Qed.
Lemma eff_bind {A B} (m : M A) (k : A -> M B) : eff R E m -> (forall a, eff R E (k a)) -> eff R E (bind m k).
Proof using HE.
  intros Hm Hk st. destruct (Hm st) as [H1 H2]. unfold bind.
  destruct (m st) as [[a|e] st1]; cbn [fst snd] in *.
  - destruct (Hk a st1) as [H3 H4]. split; [by eapply eff_trans|]. intros e He. by eapply eff_back, H4.
  - split; [done|]. intros e' [= <-]. by apply H2.
Qed.
Lemma eff_wrapping {A} s (m : M A) : eff R E m -> eff R E (wrapping s m).
Proof using HE.
  intros Hm st. destruct (Hm st) as [H1 H2]. unfold wrapping.
  destruct (m st) as [[a|e] st1]; cbn [fst snd res_map_err] in *; split; try done.
  intros e' [= <-]. by apply eff_wrap, H2.
Qed.
Lemma eff_keeping m : eff R E m -> eff R E (keeping m).
Proof using HE.
  intros Hm st. destruct (Hm st) as [H1 H2]. unfold keeping.
  destruct (m st) as [[a|e] st1]; cbn [fst snd] in *; split; try done. by apply eff_keep; [|apply H2].
Qed.
Lemma eff_on_copy {A} (m : M A) : eff R E m -> eff R E (on_copy m).
Proof using HE.
  intros Hm st. destruct (Hm st) as [H1 H2]. unfold on_copy.
  destruct (m st) as [r st1]; cbn [fst snd] in *. split; [by apply eff_copy|done].
Qed.
Lemma eff_set_cerr e : no_fuel e -> eff R E (set_cerr e).
Proof using HE. intros He st. split; [|done]. apply eff_keep; [apply eff_refl|by apply eff_err]. Qed.
Lemma eff_get_cerr : eff R E get_cerr.
Proof using HE. intros st. split; [apply eff_refl|done]. Qed.
Lemma eff_check_cerr : eff R E check_cerr.
Proof using HE.
  intros st. unfold check_cerr. destruct (err st) eqn:Er; (split; [apply eff_refl|]); [|done].
  intros e [= <-]. by apply eff_cerr.
Qed.
Lemma eff_recordMasked r : eff R E (recordMasked r).
Proof using HE.
  intros st. split; [|done]. unfold recordMasked. destruct (str_in _ _); cbn [snd]; [apply eff_refl|apply eff_record].
Qed.
Lemma eff_recordHidden r : eff R E (recordHidden r).
Proof using HE.
  intros st. split; [|done]. unfold recordHidden. destruct (str_in _ _); cbn [snd]; [apply eff_refl|apply eff_record].
Qed.
Lemma eff_len_args : eff R E len_args.
Proof using HE. intros st. split; [apply eff_refl|done]. Qed.
Lemma eff_get_args : eff R E get_args.
Proof using HE. intros st. split; [apply eff_refl|done]. Qed.
Lemma eff_get_record : eff R E get_record.
Proof using HE. intros st. split; [apply eff_refl|done]. Qed.
Lemma eff_mapM {A B} (f : A -> M B) l : Forall (fun x => eff R E (f x)) l -> eff R E (mapM f l).
Proof using HE.
  induction 1 as [|x l Hx _ IH]; cbn [mapM]; [apply eff_ret|].
  apply eff_bind; [done|]. intros y. apply eff_bind; [done|]. intros ys. apply eff_ret.
Qed.
Lemma eff_mapM_all {A B} (f : A -> M B) l : (forall x, eff R E (f x)) -> eff R E (mapM f l).
Proof using HE. intros Hf. apply eff_mapM. by apply Forall_true. Qed.
Lemma eff_mapiM {A B} (f : Z -> A -> M B) i l : Forall (fun x => forall i, eff R E (f i x)) l -> eff R E (mapiM f i l).
Proof using HE.
  intros Hl. revert i. induction Hl as [|x l Hx _ IH]; intros i; cbn [mapiM]; [apply eff_ret|].
  apply eff_bind; [done|]. intros y. apply eff_bind; [done|]. intros ys. apply eff_ret.
Qed.

Context `{HB : !Binding R}.
Lemma eff_append_arg v : eff R E (append_arg v).
Proof using HB. intros st. split; [apply eff_args|done]. Qed.
Lemma eff_append_args vs : eff R E (append_args vs).
Proof using HB. intros st. split; [apply eff_args|done]. Qed.
Lemma eff_fresh_args : eff R E fresh_args.
Proof using HB. intros st. split; [apply eff_args|done]. Qed.
Lemma eff_bind_value d v : eff R E (bind_value d v).
Proof using HE HB. apply eff_bind; [apply eff_append_arg|]. intros n. apply eff_ret. Qed.
End Eff.

(** Takes a computation apart; what is left are the calls of methods without a
    lemma in the database, and pure calls. *)
Ltac eff_step :=
  first
  [ apply eff_ret | apply eff_get_cerr | apply eff_check_cerr | apply eff_recordMasked | apply eff_recordHidden
  | apply eff_len_args | apply eff_get_args | apply eff_get_record
  | apply eff_append_arg | apply eff_append_args | apply eff_fresh_args | apply eff_bind_value
  | apply eff_throw; exact I
  | apply eff_set_cerr; exact I
  | assumption | solve [auto with eff nocore]
  | apply eff_bind; [|intros ?]
  | apply eff_wrapping | apply eff_keeping | apply eff_on_copy | apply eff_mapM_all; intros ?
  | match goal with |- eff _ _ (match ?x with _ => _ end) => destruct x eqn:? end ].
Ltac eff_tac := repeat eff_step.

(** * Equal computations *)

Definition meq {A} (m1 m2 : M A) : Prop := forall st, m1 st = m2 st.
#[export] Instance meq_equiv {A} : Equivalence (@meq A).
Proof. split; unfold meq; [done|by intros m1 m2 Hm st|]. intros m1 m2 m3 H1 H2 st. by rewrite H1. Qed.

Lemma meq_bind {A B} (m1 m2 : M A) (k1 k2 : A -> M B) :
  meq m1 m2 -> (forall a, meq (k1 a) (k2 a)) -> meq (bind m1 k1) (bind m2 k2).
Proof. intros Hm Hk st. unfold bind. rewrite Hm. destruct (m2 st) as [[a|e] st']; [apply Hk|done]. Qed.
Lemma meq_mapM {A B} (f g : A -> M B) l : (forall x, meq (f x) (g x)) -> meq (mapM f l) (mapM g l).
Proof.
  intros Hf. induction l as [|x l IH]; cbn [mapM]; [done|]. apply meq_bind; [done|]. intros y.
  apply meq_bind; [done|]. by intros ys.
Qed.

(** * Families of computations *)

Abbreviation spelling := (Z -> string) (only parsing).

Definition runs {A} (m : spelling -> M A) (st : St) (Q : (spelling -> A) -> St -> Prop) : Prop :=
  (exists e st', forall ph, m ph st = (Err e, st')) \/
  (exists a st', (forall ph, m ph st = (Ok (a ph), st')) /\ Q a st').

Lemma runs_mono {A} (m : spelling -> M A) st (Q Q' : (spelling -> A) -> St -> Prop) :
  runs m st Q -> (forall a st', Q a st' -> Q' a st') -> runs m st Q'.
Proof. intros [He|(a & st' & Hm & HQ)] Himp; [by left|right]. exists a, st'. auto. Qed.
Lemma runs_ext {A} (m m' : spelling -> M A) st Q :
  (forall ph, m ph st = m' ph st) -> runs m' st Q -> runs m st Q.
Proof.
  intros Hm [(e & st' & He)|(a & st' & Ha & HQ)]; [left|right].
  - exists e, st'. intros ph. by rewrite Hm.
  - exists a, st'. split; [|done]. intros ph. by rewrite Hm.
Qed.
Lemma runs_if_false {A} (b : spelling -> bool) (m1 m2 : spelling -> M A) st Q :
  (forall ph, b ph = false) -> runs m2 st Q -> runs (fun ph => if b ph then m1 ph else m2 ph) st Q.
Proof. intros Hb. apply runs_ext. intros ph. by rewrite Hb. Qed.
Lemma runs_ret {A} (a : spelling -> A) st (Q : (spelling -> A) -> St -> Prop) :
  Q a st -> runs (fun ph => ret (a ph)) st Q.
Proof. intros HQ. right. by exists a, st. Qed.
Lemma runs_throw {A} e st (Q : (spelling -> A) -> St -> Prop) : runs (fun _ => throw e) st Q.
Proof. left. by exists e, st. Qed.
Lemma runs_bind {A B} (m : spelling -> M A) (k : spelling -> A -> M B) st Q :
  runs m st (fun a st1 => runs (fun ph => k ph (a ph)) st1 Q) -> runs (fun ph => bind (m ph) (k ph)) st Q.
Proof.
  intros [(e & st' & He)|(a & st1 & Ha & Hk)].
  - left. exists e, st'. intros ph. unfold bind. by rewrite He.
  - eapply runs_ext, Hk. intros ph. unfold bind. by rewrite Ha.
Qed.
Lemma runs_wrapping {A} s (m : spelling -> M A) st Q : runs m st Q -> runs (fun ph => wrapping s (m ph)) st Q.
Proof.
  intros [(e & st' & He)|(a & st' & Ha & HQ)]; [left|right].
  - exists (EWrap s e), st'. intros ph. unfold wrapping. by rewrite He.
  - exists a, st'. split; [|done]. intros ph. unfold wrapping. by rewrite Ha.
Qed.
Lemma runs_on_copy {A} (m : spelling -> M A) st (Q : (spelling -> A) -> St -> Prop) :
  runs m st (fun a st' => Q a (set_err (err st) st')) -> runs (fun ph => on_copy (m ph)) st Q.
Proof.
  intros [(e & st' & He)|(a & st' & Ha & HQ)]; [left|right].
  - exists e, (set_err (err st) st'). intros ph. unfold on_copy. by rewrite He.
  - exists a, (set_err (err st) st'). split; [|done]. intros ph. unfold on_copy. by rewrite Ha.
Qed.
(** A computation that is the same for every spelling. *)
Lemma runs_same {A} (m : spelling -> M A) (m0 : M A) st (Q : (spelling -> A) -> St -> Prop) :
  (forall ph, meq (m ph) m0) -> (forall a st', m0 st = (Ok a, st') -> Q (fun _ => a) st') -> runs m st Q.
Proof.
  intros Hm HQ. destruct (m0 st) as [[a|e] st'] eqn:Em.
  - right. exists (fun _ => a), st'. split; [intros ph; by rewrite (Hm ph st)|by apply HQ].
  - left. exists e, st'. intros ph. by rewrite (Hm ph st).
Qed.
Lemma runs_const {A} (m : M A) st (Q : (spelling -> A) -> St -> Prop) :
  (forall a st', m st = (Ok a, st') -> Q (fun _ => a) st') -> runs (fun _ => m) st Q.
Proof. by apply runs_same. Qed.
(** The same, when it binds no argument. *)
Definition quiet {A} (m : M A) : Prop := eff same_args any_error m.
Lemma runs_quiet {A} (m : spelling -> M A) (m0 : M A) st (Q : (spelling -> A) -> St -> Prop) :
  (forall ph, meq (m ph) m0) -> quiet m0 ->
  (forall a st', args st' = args st -> Q (fun _ => a) st') -> runs m st Q.
Proof.
  intros Hm Hq HQ. apply (runs_same _ m0); [done|]. intros a st' Ha. apply HQ.
  pose proof (proj1 (Hq st)) as Hs. by rewrite Ha in Hs.
Qed.

(** ** The indices a text mentions *)

Definition nargs (st : St) : Z := Z.of_nat (length (args st)).

(** The indices mentioned are those of the arguments bound between two states. *)
Definition covers (l : list Z) (st st' : St) : Prop :=
  nargs st <= nargs st' /\ forall i, i ∈ l <-> nargs st < i <= nargs st'.

Lemma covers_nil st st' : args st' = args st -> covers [] st st'.
Proof.
  intros Ha. unfold covers, nargs. rewrite Ha. split; [done|]. intros i. rewrite elem_of_nil. lia.
Qed.
Lemma covers_app l1 l2 st st1 st2 : covers l1 st st1 -> covers l2 st1 st2 -> covers (l1 ++ l2) st st2.
Proof.
  intros [H1 H2] [H3 H4]. split; [lia|]. intros i. rewrite elem_of_app, H2, H4. lia.
Qed.
Lemma covers_same l l' st st' : (forall i, i ∈ l' <-> i ∈ l) -> covers l st st' -> covers l' st st'.
Proof. intros Hl [H1 H2]. split; [done|]. intros i. by rewrite Hl. Qed.
Lemma covers_left l st0 st st' : args st0 = args st -> covers l st st' -> covers l st0 st'.
Proof. unfold covers, nargs. by intros ->. Qed.
Lemma covers_right l st0 st st' : args st0 = args st' -> covers l st st' -> covers l st st0.
Proof. unfold covers, nargs. by intros ->. Qed.
Lemma covers_one st v : covers [nargs st + 1] st (set_args (args st ++ [v]) st).
Proof.
  unfold covers, nargs. cbn [args set_args]. rewrite List.length_app. cbn [length]. split; [lia|].
  intros i. rewrite list_elem_of_singleton. lia.
Qed.

(** ** Texts *)

(** The template has a piece of text of its own, so no rendering is empty. *)
Definition solid (T : list frag) : Prop := exists s, s <> "" /\ Txt s ∈ T.

Lemma solid_render ph T : solid T -> render ph T <> "".
Proof.
  intros (s & Hs & Hin). induction T as [|f T IH]; [by apply elem_of_nil in Hin|]. rewrite render_cons.
  apply elem_of_cons in Hin as [<-|Hin].
  - destruct s; [done|]. by cbn [render1]; rewrite app_cons.
  - intros He. apply IH; [done|]. destruct (render1 ph f); [done|]. by rewrite app_cons in He.
Qed.
Lemma solid_here s T : s <> "" -> solid (Txt s :: T).
Proof. intros Hs. exists s. split; [done|by left]. Qed.
Lemma solid_later f T : solid T -> solid (f :: T).
Proof. intros (s & Hs & Hin). exists s. split; [done|by right]. Qed.
Lemma solid_app_r T T' : solid T' -> solid (T ++ T').
Proof. intros (s & Hs & Hin). exists s. split; [done|]. apply elem_of_app. by right. Qed.
Lemma solid_app_l T T' : solid T -> solid (T ++ T').
Proof. intros (s & Hs & Hin). exists s. split; [done|]. apply elem_of_app. by left. Qed.
Lemma solid_join Ts sep : Ts <> [] -> Forall solid Ts -> solid (join_frags Ts sep).
Proof.
  intros Hne Hs. destruct Hs as [|T Ts HT Hs]; [done|]. destruct Ts as [|T' Ts]; [done|].
  rewrite join_frags_cons. by apply solid_app_l.
Qed.
Lemma solid_join_head T Ts sep : solid T -> solid (join_frags (T :: Ts) sep).
Proof. intros HT. destruct Ts; [done|]. rewrite join_frags_cons. by apply solid_app_l. Qed.

(** The texts are the renderings of a template. *)
Definition Text (a : spelling -> string) (T : list frag) : Prop := forall ph, a ph = render ph T.
Definition Texts (a : spelling -> list string) (Ts : list (list frag)) : Prop :=
  forall ph, a ph = map (render ph) Ts.

(** What a builder of SQL text that binds arguments guarantees: its text is the
    rendering of a template that mentions exactly the arguments it bound. *)
Definition piece_of (P : list frag -> Prop) (st : St) (a : spelling -> string) (st' : St) : Prop :=
  exists T, Text a T /\ P T /\ covers (phs T) st st'.
Definition pieces_of (P : list frag -> Prop) (n : nat) (st : St) (a : spelling -> list string) (st' : St) : Prop :=
  exists Ts, Texts a Ts /\ Forall P Ts /\ length Ts = n /\ covers (List.concat (map phs Ts)) st st'.

Definition any_text (T : list frag) : Prop := True.
Definition piece := piece_of solid.
Definition builds (m : spelling -> M string) : Prop := forall st, runs m st (piece st).

(** The post-condition of a builder that may have nothing to say. *)
Definition maybe_piece (st : St) (a : spelling -> option string) (st' : St) : Prop :=
  (args st' = args st /\ forall ph, a ph = None) \/
  exists b, piece st b st' /\ forall ph, a ph = Some (b ph).

Lemma runs_bind_value d v st Q :
  Q (fun ph => ph (nargs st + 1)) (set_args (args st ++ [v]) st) ->
  runs (fun ph => bind_value (with_placeholder d ph) v) st Q.
Proof.
  intros HQ. right. eexists _, _. split; [|exact HQ]. intros ph. unfold bind_value, bind, append_arg, ret.
  unfold nargs. rewrite List.length_app. cbn [length Placeholder with_placeholder].
  by replace (Z.of_nat (length (args st) + 1)) with (Z.of_nat (length (args st)) + 1) by lia.
Qed.

Lemma runs_len_args st Q : Q (fun _ => nargs st) st -> runs (fun _ : spelling => len_args) st Q.
Proof. intros HQ. right. eexists _, _. split; [|exact HQ]. done. Qed.
Lemma runs_append_arg v st Q :
  Q (fun _ => nargs st + 1) (set_args (args st ++ [v]) st) -> runs (fun _ : spelling => append_arg v) st Q.
Proof.
  intros HQ. right. eexists _, _. split; [|exact HQ]. intros ph. unfold append_arg, nargs. cbv zeta.
  rewrite List.length_app. cbn [length]. do 2 f_equal. lia.
Qed.
Lemma runs_lift_ok {A} (a : spelling -> A) st (Q : (spelling -> A) -> St -> Prop) :
  Q a st -> runs (fun ph => lift (Ok (a ph))) st Q.
Proof. apply runs_ret. Qed.
Lemma runs_lift_same {A} (r : res A) st (Q : (spelling -> A) -> St -> Prop) :
  (forall a, r = Ok a -> Q (fun _ => a) st) -> runs (fun _ => lift r) st Q.
Proof. intros HQ. apply runs_const. intros a st' [= -> <-]. by apply HQ. Qed.

(** A loop of builders. *)
Lemma runs_mapM {X} (P : list frag -> Prop) (f : spelling -> X -> M string) l st :
  Forall (fun x => forall st, runs (fun ph => f ph x) st (piece_of P st)) l ->
  runs (fun ph => mapM (f ph) l) st (pieces_of P (length l) st).
Proof.
  intros Hl. revert st. induction Hl as [|x l Hx _ IH]; intros st; cbn [mapM].
  - apply runs_ret. exists []. split_and!; [done|constructor|done|by apply covers_nil].
  - apply runs_bind. eapply runs_mono; [apply Hx|]. intros a st1 (T & HT & Hs & Hc).
    apply runs_bind. eapply runs_mono; [apply IH|]. intros b st2 (Ts & HTs & Hss & Hlen & Hcs).
    apply runs_ret. exists (T :: Ts). split_and!.
    + intros ph. cbn [map]. by rewrite HT, HTs.
    + by constructor.
    + cbn [length]. lia.
    + cbn [map List.concat]. by eapply covers_app.
Qed.

(** Texts joined by a separator, with text before and after. *)
Lemma piece_join P n st a st' pre sep post :
  pre <> "" -> pieces_of P n st a st' ->
  piece st (fun ph => pre +:+ Join (a ph) sep +:+ post) st'.
Proof.
  intros Hpre (Ts & HT & _ & _ & Hc). exists (Txt pre :: join_frags Ts sep ++ [Txt post]). split_and!.
  - intros ph. rewrite render_cons, render_app, render_join, HT. cbn [render1].
    by rewrite render_cons, render_nil, app_nil_r.
  - by apply solid_here.
  - cbn [phs]. rewrite phs_app, phs_join. cbn [phs]. by rewrite List.app_nil_r.
Qed.
Lemma piece_join_solid n st a st' sep :
  n <> 0%nat -> pieces_of solid n st a st' -> piece st (fun ph => Join (a ph) sep) st'.
Proof.
  intros Hn (Ts & HT & Hs & Hl & Hc). exists (join_frags Ts sep). split_and!.
  - intros ph. by rewrite render_join, HT.
  - apply solid_join; [|done]. destruct Ts; [by cbn in Hl|done].
  - by rewrite phs_join.
Qed.
Lemma piece_around P st a st' pre post :
  pre <> "" -> piece_of P st a st' -> piece st (fun ph => pre +:+ a ph +:+ post) st'.
Proof.
  intros Hpre (T & HT & _ & Hc). exists (Txt pre :: T ++ [Txt post]). split_and!.
  - intros ph. rewrite render_cons, render_app, HT. cbn [render1]. by rewrite render_cons, render_nil, app_nil_r.
  - by apply solid_here.
  - cbn [phs]. rewrite phs_app. cbn [phs]. by rewrite List.app_nil_r.
Qed.
(** Text without placeholders. *)
Lemma piece_text st s st' : s <> "" -> args st' = args st -> piece st (fun _ => s) st'.
Proof.
  intros Hs Ha. exists [Txt s]. split_and!; [|by apply solid_here|by apply covers_nil].
  intros ph. by rewrite render_cons, render_nil, app_nil_r.
Qed.

(** A text around one placeholder. *)
Definition hole (f : string -> string) : Prop := exists pre post, pre <> "" /\ forall p, f p = pre +:+ p +:+ post.

Lemma runs_hole d v f st Q :
  hole f -> (forall a st', piece st a st' -> Q a st') ->
  runs (fun ph => do p <- bind_value (with_placeholder d ph) v; ret (f p)) st Q.
Proof.
  intros (pre & post & Hpre & Hf) HQ. apply runs_bind, runs_bind_value, runs_ret, HQ.
  exists [Txt pre; Ph (nargs st + 1); Txt post]. split_and!.
  - intros ph. rewrite Hf, !render_cons, render_nil, app_nil_r. done.
  - by apply solid_here.
  - apply covers_one.
Qed.
Lemma piece_mono_text P Q st a st' : piece_of P st a st' -> (forall T, P T -> Q T) -> piece_of Q st a st'.
Proof. intros (T & HT & HP & Hc) Himp. exists T. auto. Qed.
