(* ===== verification/ExprCompile.v ===== *)
(** The expression compiler of [internal/query/expr_compiler.go]: SQL text from
    an expression tree, with column-level PII policy applied to column
    references, and the read-only check of the result.

    [compileExpr] and the functions it is mutually recursive with take the
    recursive call as the argument [rec].  [bindLiterals] says whether the
    [args] pointer is non-nil: literals are then bound as arguments; every caller
    in the repository passes nil.  The dialect is the compiler's, already
    normalised, so [normalizeExprDialect] does nothing ([Dialect.Normalize] is
    idempotent). *)

From S2P Require Import Prelude GoStrings Values Dialect Semantic ReadOnly LogicalQuery PhysicalRef Pii.
From S2P Require Import RowFilter CompileMonad.
From stdpp Require Import options.
#[local] Open Scope Z_scope.

(** [dialectFunctions] *)
Definition dialectFunctions (upper dialectName : string) : string :=
  let clickhouse s := if String.eqb dialectName "clickhouse" then s else "" in
  if String.eqb upper "COALESCE" then clickhouse "coalesce"
  else if String.eqb upper "CONCAT" then clickhouse "concat"
  else if String.eqb upper "ROUND" then clickhouse "round"
  else if String.eqb upper "NULLIF" then clickhouse "nullif"
  else if String.eqb upper "SUBSTRING" then
    if String.eqb dialectName "oracle" then "SUBSTR" else clickhouse "substring"
  else if String.eqb upper "REPLACE" then clickhouse "replace"
  else if String.eqb upper "DATE_TRUNC" then
    if String.eqb dialectName "postgres" then "DATE_TRUNC"
    else if String.eqb dialectName "mysql" then "DATE_FORMAT"
    else if String.eqb dialectName "sqlserver" then "DATETRUNC"
    else clickhouse "toStartOfInterval"
  else "".

Definition functionNameSQL (name : string) (d : Dialect) : string :=
  let upper := ToUpper name in
  let mapped := dialectFunctions upper (Name d) in
  if str_empty mapped then upper else mapped.

Definition exprReadOnlyChecker : ReadOnlyChecker := NewReadOnlyChecker.

(** [ExprCompileOptsForMetric]: whether aggregate calls are allowed. *)
Definition ExprCompileOptsForMetric (metric : Metric) : bool :=
  EqualFold (TrimSpace (met_Aggregation metric)) "custom".

Definition binaryOpSQL (op : string) : res string :=
  if String.eqb op Semantic.OpAdd then Ok "+"
  else if String.eqb op Semantic.OpSubtract then Ok "-"
  else if String.eqb op Semantic.OpMultiply then Ok "*"
  else if String.eqb op Semantic.OpDivide then Ok "/"
  else if String.eqb op Semantic.OpModulo then Ok "%"
  else if String.eqb op Semantic.OpEq then Ok "="
  else if String.eqb op Semantic.OpNeq then Ok "<>"
  else if String.eqb op Semantic.OpLt then Ok "<"
  else if String.eqb op Semantic.OpLte then Ok "<="
  else if String.eqb op Semantic.OpGt then Ok ">"
  else if String.eqb op Semantic.OpGte then Ok ">="
  else if String.eqb op Semantic.OpAnd then Ok "AND"
  else if String.eqb op Semantic.OpOr then Ok "OR"
  else if String.eqb op Semantic.OpConcat then Ok "||"
  else Err (EMsg ("unsupported binary operator " +:+ Quote op)).

(** The normalised grain, and whether it is one. *)
Definition normalizeDateGrain (part : string) : string * bool :=
  let part := ToLower (TrimSpace part) in
  (part, str_in part ["hour"; "day"; "week"; "month"; "quarter"; "year"]).

Definition literalString (expr : ExprNode) : option string :=
  match expr with
  | LiteralExpr (VStr s) => Some s
  | _ => None
  end.

Definition aggregateCountStarSQL (d : Dialect) : string :=
  if String.eqb (Name d) "clickhouse" then "count()" else "COUNT(*)".

Definition isCountStarArg (arg : ExprNode) : bool :=
  match literalString arg with Some s => String.eqb s "*" | None => false end.

Definition dialectAggregateSQL (fn expr : string) (d : Dialect) : string :=
  let call ch other := (if String.eqb (Name d) "clickhouse" then ch else other) +:+ expr +:+ ")" in
  if String.eqb fn "count" then
    if String.eqb expr "*" then aggregateCountStarSQL d else call "count(" "COUNT("
  else if String.eqb fn "count_distinct" then call "uniq(" "COUNT(DISTINCT "
  else if String.eqb fn "sum" then call "sum(" "SUM("
  else if String.eqb fn "avg" then call "avg(" "AVG("
  else if String.eqb fn "min" then call "min(" "MIN("
  else if String.eqb fn "max" then call "max(" "MAX("
  else Aggregate d fn expr.

Section ExprCompile.
Context `{GoRuntime}.
Context (d : Dialect) (resolver : option SchemaResolver) (piiConfig : option PIIMaskingConfig).
Context (bindLiterals allowAggregates : bool).

Definition literalSQL (value : gval) : string :=
  match value with
  | VNil => "NULL"
  | VStr v => QuoteStringLiteral d v
  | VBool v => if v then "TRUE" else "FALSE"
  | VInt v => Itoa v
  | VInt64 v => Itoa v
  | VFloat64 m e => FormatFloat m e
  | v => QuoteStringLiteral d (Sprint v)
  end.

Definition physical_path (colPath : string) : string :=
  match resolver with Some r => PhysicalColumnRef r colPath | None => colPath end.

Definition column_path (table column : string) : string :=
  if str_empty table then column else table +:+ "." +:+ column.

(** [maskColumnRef]: the SQL that stands for the column, if it may not stand for
    itself. *)
Definition maskColumnRef (colPath physicalPath : string) : M (option string) :=
  match piiConfig with
  | None => ret None
  | Some cfg =>
      match lookup cfg [colPath; physicalPath] with
      | None => ret None
      | Some (access, piiType) =>
          if negb (String.eqb access AccessRaw) && negb (String.eqb access AccessMasked) then
            do _ <- recordHidden physicalPath; ret (Some HiddenLiteral)
          else if String.eqb access AccessMasked then
            do _ <- recordMasked physicalPath;
            ret (Some (strategy cfg (QuoteIdent d physicalPath) piiType d))
          else ret None
      end
  end.

Definition columnRefSQL (table column : string) : M string :=
  let colPath := column_path table column in
  let physicalPath := physical_path colPath in
  do masked <- maskColumnRef colPath physicalPath;
  match masked with
  | Some sql => ret sql
  | None => ret (QuoteIdent d physicalPath)
  end.

(** [dateTruncSQL]: [None] when the call is not one of DATE_TRUNC. *)
Definition dateTruncSQL (name : string) (fargs : list ExprNode) : option (res string) :=
  if negb (EqualFold name "DATE_TRUNC") then None
  else Some
    match fargs with
    | [grain; column] =>
        match literalString grain with
        | None => Err (EMsg "DATE_TRUNC grain must be a string literal")
        | Some part =>
            let '(part, ok) := normalizeDateGrain part in
            if negb ok then Err (EMsg ("unsupported DATE_TRUNC grain: " +:+ part))
            else match column with
            | ColumnRefExpr table column =>
                let colPath := column_path table column in
                let physicalPath := physical_path colPath in
                let hidden :=
                  match piiConfig with
                  | None => false
                  | Some cfg =>
                      match lookup cfg [colPath; physicalPath] with
                      | Some (access, _) =>
                          negb (String.eqb access AccessRaw) && negb (String.eqb access AccessMasked)
                      | None => false
                      end
                  end in
                if hidden then Ok HiddenLiteral else Ok (DateTrunc d part physicalPath)
            | _ => Err (EMsg "DATE_TRUNC column argument must be a column reference")
            end
        end
    | _ => Err (EMsg "DATE_TRUNC requires grain and column arguments")
    end.

Section Rec.
Context (rec : ExprNode -> M string).

Definition binaryExprSQL (op : string) (l r : ExprNode) : M string :=
  do lhs <- rec l;
  do rhs <- rec r;
  if String.eqb op Semantic.OpConcat then
    if String.eqb (Name d) "mysql" then ret ("CONCAT(" +:+ lhs +:+ ", " +:+ rhs +:+ ")")
    else if String.eqb (Name d) "sqlserver" then ret ("(" +:+ lhs +:+ " + " +:+ rhs +:+ ")")
    else if String.eqb (Name d) "clickhouse" then ret ("concat(" +:+ lhs +:+ ", " +:+ rhs +:+ ")")
    else ret ("(" +:+ lhs +:+ " || " +:+ rhs +:+ ")")
  else if String.eqb op Semantic.OpDivide then
    ret ("(" +:+ lhs +:+ " * 1.0 / " +:+ rhs +:+ ")")
  else
    do opSQL <- lift (binaryOpSQL op);
    ret ("(" +:+ lhs +:+ " " +:+ opSQL +:+ " " +:+ rhs +:+ ")").

Definition unaryExprSQL (op : string) (e : ExprNode) : M string :=
  do inner <- rec e;
  if String.eqb op Semantic.OpNot then ret ("(NOT " +:+ inner +:+ ")")
  else if String.eqb op Semantic.OpNegate then ret ("(-" +:+ inner +:+ ")")
  else throw (EMsg ("disallowed unary operator in expression: " +:+ op)).

Definition compileAggregateCountDistinctSQL (fargs : list ExprNode) : M string :=
  match fargs with
  | [a] => do inner <- rec a; ret (dialectAggregateSQL "count_distinct" inner d)
  | _ => throw (EMsg ("function COUNT_DISTINCT requires exactly 1 argument, got "
                      +:+ Itoa (Z.of_nat (length fargs))))
  end.

Definition compileAggregateCountSQL (fargs : list ExprNode) : M string :=
  match fargs with
  | [] => ret (aggregateCountStarSQL d)
  | [a] =>
      if isCountStarArg a then ret (aggregateCountStarSQL d)
      else do inner <- rec a; ret (dialectAggregateSQL "count" inner d)
  | _ => throw (EMsg ("function COUNT requires 0 or 1 arguments, got " +:+ Itoa (Z.of_nat (length fargs))))
  end.

Definition aggregateFunctionCallSQL (name : string) (fargs : list ExprNode) : M string :=
  let funcName := ToUpper name in
  if String.eqb funcName "COUNT_DISTINCT" then compileAggregateCountDistinctSQL fargs
  else if String.eqb funcName "COUNT" then compileAggregateCountSQL fargs
  else match fargs with
  | [a] => do inner <- rec a; ret (dialectAggregateSQL (ToLower funcName) inner d)
  | _ => throw (EMsg ("function " +:+ name +:+ " requires exactly 1 argument, got "
                      +:+ Itoa (Z.of_nat (length fargs))))
  end.

Definition functionCallSQL (name : string) (fargs : list ExprNode) : M string :=
  match dateTruncSQL name fargs with
  | Some r => lift r
  | None =>
      let funcName := ToUpper name in
      if IsAggregateFunction funcName then
        if negb allowAggregates then throw (EMsg ("disallowed function in expression: " +:+ name))
        else aggregateFunctionCallSQL name fargs
      else if negb (FunctionAllowed funcName false) then
        throw (EMsg ("disallowed function in expression: " +:+ name))
      else
        do funcArgs <- mapM rec fargs;
        ret (functionNameSQL name d +:+ "(" +:+ Join funcArgs ", " +:+ ")")
  end.

Definition caseExprSQL (conditions : list (ExprNode * ExprNode)) (elseExpr : ExprNode) : M string :=
  do chunks <- mapM (fun cond =>
    do compiledWhen <- rec cond.1;
    do compiledThen <- rec cond.2;
    ret (" WHEN " +:+ compiledWhen +:+ " THEN " +:+ compiledThen)) conditions;
  do elseChunk <- match elseExpr with
                  | NilExpr => ret ""
                  | _ => do compiledElse <- rec elseExpr; ret (" ELSE " +:+ compiledElse)
                  end;
  ret ("CASE" +:+ Concat chunks +:+ elseChunk +:+ " END").
End Rec.

Fixpoint compileExpr (expr : ExprNode) : M string :=
  match expr with
  | NilExpr => ret ""
  | LiteralExpr v => if bindLiterals then bind_value d v else ret (literalSQL v)
  | ColumnRefExpr table column => columnRefSQL table column
  | MetricRefExpr name => ret (QuoteIdent d name)
  | DimensionRefExpr name => ret (QuoteIdent d name)
  | BinaryExpr op l r => binaryExprSQL compileExpr op l r
  | UnaryExpr op e => unaryExprSQL compileExpr op e
  | FunctionCallExpr name fargs => functionCallSQL compileExpr name fargs
  | Semantic.CaseExpr conditions elseExpr => caseExprSQL compileExpr conditions elseExpr
  end.

Definition CompileExpr (expr : ExprNode) : M string :=
  do sql <- compileExpr expr;
  if str_empty sql then ret sql
  else do _ <- lift (Check exprReadOnlyChecker ("SELECT " +:+ sql)); ret sql.
End ExprCompile.

(** * What compiles *)

Definition binary_operators : list string :=
  [Semantic.OpAdd; Semantic.OpSubtract; Semantic.OpMultiply; Semantic.OpDivide; Semantic.OpModulo;
   Semantic.OpEq; Semantic.OpNeq; Semantic.OpLt; Semantic.OpLte; Semantic.OpGt; Semantic.OpGte;
   Semantic.OpAnd; Semantic.OpOr; Semantic.OpConcat].

(** The arguments an aggregate takes. *)
Definition aggregate_arity (name : string) (n : nat) : Prop :=
  n = 1%nat \/ ToUpper name = "COUNT" /\ n = 0%nat.

(** The expressions that have SQL: known operators, white-listed functions,
    DATE_TRUNC of a column with one of the six grains, and aggregates of the
    right arity when the context allows aggregates. *)
Inductive Compilable (allowAggregates : bool) : ExprNode -> Prop :=
| Comp_nil : Compilable allowAggregates NilExpr
| Comp_literal v : Compilable allowAggregates (LiteralExpr v)
| Comp_column t c : Compilable allowAggregates (ColumnRefExpr t c)
| Comp_metric n : Compilable allowAggregates (MetricRefExpr n)
| Comp_dimension n : Compilable allowAggregates (DimensionRefExpr n)
| Comp_binary op l r :
    op ∈ binary_operators -> Compilable allowAggregates l -> Compilable allowAggregates r ->
    Compilable allowAggregates (BinaryExpr op l r)
| Comp_unary op e :
    op ∈ [Semantic.OpNot; Semantic.OpNegate] -> Compilable allowAggregates e ->
    Compilable allowAggregates (UnaryExpr op e)
| Comp_date_trunc name grain t c :
    EqualFold name "DATE_TRUNC" = true ->
    ToLower (TrimSpace grain) ∈ ["hour"; "day"; "week"; "month"; "quarter"; "year"] ->
    Compilable allowAggregates (FunctionCallExpr name [LiteralExpr (VStr grain); ColumnRefExpr t c])
| Comp_function name fargs :
    EqualFold name "DATE_TRUNC" = false -> IsAggregateFunction (ToUpper name) = false ->
    FunctionAllowed (ToUpper name) false = true -> Forall (Compilable allowAggregates) fargs ->
    Compilable allowAggregates (FunctionCallExpr name fargs)
| Comp_aggregate name fargs :
    EqualFold name "DATE_TRUNC" = false -> IsAggregateFunction (ToUpper name) = true ->
    allowAggregates = true -> aggregate_arity name (length fargs) ->
    Forall (Compilable allowAggregates) fargs -> Compilable allowAggregates (FunctionCallExpr name fargs)
| Comp_case cs el :
    Forall (fun c => Compilable allowAggregates c.1 /\ Compilable allowAggregates c.2) cs ->
    Compilable allowAggregates el -> Compilable allowAggregates (Semantic.CaseExpr cs el).

Lemma binaryOpSQL_ok op : op ∈ binary_operators <-> exists s, binaryOpSQL op = Ok s.
Proof.
  unfold binaryOpSQL. rewrite <- str_in_spec. unfold str_in, binary_operators. cbn [existsb].
  repeat (destruct (String.eqb op _); [cbn [orb]; split; [eauto|by rewrite ?orb_true_r]|cbn [orb]]).
  split; [done|]. by intros [s ?].
Qed.

Section Correct.
Context `{GoRuntime}.
Context (d : Dialect) (resolver : option SchemaResolver) (piiConfig : option PIIMaskingConfig).
Context (bindLiterals agg : bool).
#[local] Abbreviation compile := (compileExpr d resolver piiConfig bindLiterals agg).

Lemma columnRefSQL_succeeds t c : succeeds (columnRefSQL d resolver piiConfig t c).
Proof using.
  unfold columnRefSQL. apply succeeds_bind.
  - unfold maskColumnRef. destruct piiConfig as [cfg|]; [|apply succeeds_ret].
    destruct (lookup _ _) as [[a ty]|]; [|apply succeeds_ret].
    destruct (_ && _); [intros st; by eexists _, _|]. destruct (String.eqb _ _); [intros st; by eexists _, _|].
    apply succeeds_ret.
  - intros [sql|]; apply succeeds_ret.
Qed.

Lemma compileExpr_succeeds e : Compilable agg e -> succeeds (compile e).
Proof using.
  induction e as [|v|t c|m|m|op l r IHl IHr|op e IH|name fargs IH|cs el IHc IHe] using ExprNode_ind';
    cbn [compileExpr]; intros He; inversion He; subst; auto with biq.
  - destruct bindLiterals; [intros st; by eexists _, _|apply succeeds_ret].
  - apply columnRefSQL_succeeds.
  - unfold binaryExprSQL. apply succeeds_bind; [auto|]. intros lhs. apply succeeds_bind; [auto|]. intros rhs.
    destruct (String.eqb op Semantic.OpConcat); [repeat case_match; apply succeeds_ret|].
    destruct (String.eqb op Semantic.OpDivide); [apply succeeds_ret|].
    apply succeeds_bind; [|intros; apply succeeds_ret].
    match goal with Hop : _ ∈ binary_operators |- _ => apply binaryOpSQL_ok in Hop as [s ->] end.
    apply succeeds_ret.
  - unfold unaryExprSQL. apply succeeds_bind; [auto|]. intros inner.
    match goal with Hop : _ ∈ _ |- _ => rewrite !elem_of_cons, elem_of_nil in Hop;
      destruct Hop as [->|[->|[]]]; apply succeeds_ret end.
  - unfold functionCallSQL, dateTruncSQL.
    match goal with Hn : EqualFold _ _ = true |- _ => rewrite Hn end. cbn [negb literalString].
    unfold normalizeDateGrain.
    match goal with Hg : _ ∈ _ |- _ => apply str_in_spec in Hg; rewrite Hg end. cbn [negb].
    repeat case_match; intros st; by eexists _, _.
  - unfold functionCallSQL, dateTruncSQL.
    match goal with Hn : EqualFold _ _ = false |- _ => rewrite Hn end. cbn [negb].
    match goal with Ha : IsAggregateFunction _ = false |- _ => rewrite Ha end.
    match goal with Ha : FunctionAllowed _ _ = true |- _ => rewrite Ha end. cbn [negb].
    apply succeeds_bind; [|intros; apply succeeds_ret]. apply succeeds_mapM.
    by eapply Forall_apply.
  - unfold functionCallSQL, dateTruncSQL.
    match goal with Hn : EqualFold _ _ = false |- _ => rewrite Hn end. cbn [negb].
    match goal with Ha : IsAggregateFunction _ = true |- _ => rewrite Ha end. cbn [negb].
    match goal with Hf : Forall (Compilable _) _ |- _ => apply (Forall_apply _ _ _ IH) in Hf end.
    unfold aggregateFunctionCallSQL, compileAggregateCountDistinctSQL, compileAggregateCountSQL.
    match goal with Hf : Forall (fun e => succeeds _) _, Hl : aggregate_arity _ _ |- _ =>
      destruct Hf as [|a fargs Ha Hf]; [|destruct Hf; cycle 1]; destruct Hl as [Hl|[Hc Hl]]; try discriminate Hl end.
    + rewrite Hc. cbn. apply succeeds_ret.
    + repeat case_match; try apply succeeds_ret;
        (apply succeeds_bind; [assumption|]; intros; apply succeeds_ret).
  - unfold caseExprSQL. apply succeeds_bind.
    + apply succeeds_mapM. match goal with Hf : Forall (fun c => Compilable _ _ /\ _) _ |- _ =>
        revert Hf; apply Forall_apply end.
      eapply Forall_impl; [exact IHc|]. intros [w t] [Hw Ht] [Cw Ct]. cbn [fst snd] in *.
      apply succeeds_bind; [auto|]. intros. apply succeeds_bind; [auto|]. intros. apply succeeds_ret.
    + intros chunks. apply succeeds_bind; [|intros; apply succeeds_ret].
      destruct el; try apply succeeds_ret; (apply succeeds_bind; [by apply IHe|]; intros; apply succeeds_ret).
Qed.

Lemma compileExpr_compilable e st sql st' : compile e st = (Ok sql, st') -> Compilable agg e.
Proof using.
  revert st sql st'.
  induction e as [|v|t c|m|m|op l r IHl IHr|op e IH|name fargs IH|cs el IHc IHe] using ExprNode_ind';
    intros st sql st'; cbn [compileExpr]; try by constructor.
  - unfold binaryExprSQL. intros Hb. bind_inv. constructor; [|by eapply IHl|by eapply IHr].
    destruct (String.eqb_spec op Semantic.OpConcat) as [->|]; [by apply str_in_spec|].
    destruct (String.eqb_spec op Semantic.OpDivide) as [->|]; [by apply str_in_spec|].
    bind_inv. apply binaryOpSQL_ok. unfold lift in *. eexists. by simplify_eq.
  - unfold unaryExprSQL. intros Hb. bind_inv. constructor; [|by eapply IH].
    destruct (String.eqb_spec op Semantic.OpNot) as [->|]; [by apply str_in_spec|].
    destruct (String.eqb_spec op Semantic.OpNegate) as [->|]; [by apply str_in_spec|done].
  - unfold functionCallSQL, dateTruncSQL. destruct (EqualFold name "DATE_TRUNC") eqn:Hn; cbn [negb].
    + intros Hr%(f_equal fst). cbn [fst lift] in Hr. destruct fargs as [|grain [|column [|]]]; try discriminate Hr.
      destruct grain as [|[]| | | | | | |]; try discriminate Hr. cbn [literalString] in Hr.
      unfold normalizeDateGrain in Hr. destruct (str_in (ToLower (TrimSpace s)) _) eqn:Hg; cbn [negb] in Hr; [|done].
      destruct column; try discriminate Hr. apply Comp_date_trunc; [done|by apply str_in_spec].
    + destruct (IsAggregateFunction (ToUpper name)) eqn:Ha.
      * destruct agg eqn:Hagg; cbn [negb]; [|done]. intros Hb.
        unfold aggregateFunctionCallSQL, compileAggregateCountDistinctSQL, compileAggregateCountSQL in Hb.
        assert (forall a st s st', compileExpr d resolver piiConfig bindLiterals true a st = (Ok s, st') ->
          fargs = [a] -> Compilable true a) as Hone.
        { intros a st1 s1 st1' Hc ->. inversion IH; subst. eauto. }
        apply Comp_aggregate; [done|done|done| |].
        -- destruct fargs as [|a [|b fargs]]; [right|by left|].
           ++ split; [|done]. destruct (String.eqb_spec (ToUpper name) "COUNT_DISTINCT"); [done|].
              by destruct (String.eqb_spec (ToUpper name) "COUNT").
           ++ by destruct (String.eqb (ToUpper name) "COUNT_DISTINCT"), (String.eqb (ToUpper name) "COUNT").
        -- destruct fargs as [|a [|b fargs]]; [constructor| |by destruct (String.eqb (ToUpper name) "COUNT_DISTINCT"), (String.eqb (ToUpper name) "COUNT")].
           constructor; [|constructor].
           destruct (String.eqb (ToUpper name) "COUNT_DISTINCT"); [bind_inv; by eapply Hone|].
           destruct (String.eqb (ToUpper name) "COUNT"); [|bind_inv; by eapply Hone].
           destruct (isCountStarArg a) eqn:Hs; [|bind_inv; by eapply Hone].
           unfold isCountStarArg in Hs. destruct a; try discriminate Hs. constructor.
      * destruct (FunctionAllowed (ToUpper name) false) eqn:Hf; cbn [negb]; [|done]. intros Hb.
        bind_inv. apply Comp_function; [done|done|done|].
        match goal with Hm : mapM _ _ _ = _ |- _ => apply mapM_ok in Hm; revert Hm; apply Forall_apply end.
        eapply Forall_impl; [exact IH|]. intros e He (sa & s1 & sb & Hc). by eapply He.
  - unfold caseExprSQL. intros Hb. bind_inv. constructor.
    + match goal with Hm : mapM _ _ _ = _ |- _ => apply mapM_ok in Hm; revert Hm; apply Forall_apply end.
      eapply Forall_impl; [exact IHc|]. intros [w t] [Hw Ht] (sa & s1 & sb & Hc). cbn [fst snd] in *.
      bind_inv. split; [by eapply Hw|by eapply Ht].
    + destruct el; try (by constructor); bind_inv; by eapply IHe.
Qed.
End Correct.

(** compiling an expression fails closed.  It succeeds exactly on the
    expressions built from known operators, white-listed functions (aggregates
    only where the context allows them, with the right number of arguments) and
    DATE_TRUNC calls with one of the six grains, provided the SQL text, put after
    SELECT, passes the read-only check; an operator or a function that is not
    known never reaches the text.  It never runs out of fuel. *)
Theorem CompileExpr_exact `{GoRuntime} (d : Dialect) (resolver : option SchemaResolver)
    (piiConfig : option PIIMaskingConfig) (bindLiterals agg : bool) (e : ExprNode) (st : St) :
  let checked sql := Check exprReadOnlyChecker ("SELECT " +:+ sql) in
  match (CompileExpr d resolver piiConfig bindLiterals agg e st).1 with
  | Ok sql =>
      Compilable agg e /\ (compileExpr d resolver piiConfig bindLiterals agg e st).1 = Ok sql /\
      (sql = "" \/ checked sql = Ok tt)
  | Err er =>
      (~ Compilable agg e /\ (compileExpr d resolver piiConfig bindLiterals agg e st).1 = Err er) \/
      Compilable agg e /\ exists sql,
        (compileExpr d resolver piiConfig bindLiterals agg e st).1 = Ok sql /\ sql <> "" /\
        checked sql = Err er
  end.
Proof.
  cbv zeta. unfold CompileExpr, bind.
  destruct (compileExpr d resolver piiConfig bindLiterals agg e st) as [[sql|er] st'] eqn:E; cbn [fst].
  - pose proof (compileExpr_compilable _ _ _ _ _ _ _ _ _ E) as Hc. unfold str_empty.
    destruct (String.eqb_spec sql "") as [->|Hs]; cbn [fst ret]; [by split_and!; [|..|left]|].
    unfold lift. destruct (Check exprReadOnlyChecker ("SELECT " +:+ sql)) as [[]|er] eqn:Hk; cbn [fst ret].
    + split_and!; [done|done|]. right. exact Hk.
    + right. split; [done|]. by exists sql.
  - left. split; [|done]. intros (s & st2 & Hs)%(compileExpr_succeeds d resolver piiConfig bindLiterals)
      %(fun f => f st). congruence.
Qed.

(** * Hidden columns *)

Section Redact.
Context (resolver : option SchemaResolver) (piiConfig : option PIIMaskingConfig).

(** Whether the policy hides a column. *)
Definition hides (table column : string) : bool :=
  let colPath := column_path table column in
  match piiConfig with
  | None => false
  | Some cfg =>
      match lookup cfg [colPath; physical_path resolver colPath] with
      | Some (access, _) => negb (String.eqb access AccessRaw) && negb (String.eqb access AccessMasked)
      | None => false
      end
  end.

Definition stars : ExprNode := LiteralExpr (VStr "***").

(** The expression with every hidden column, and every DATE_TRUNC of one,
    replaced by the string of three stars. *)
Fixpoint redact (e : ExprNode) : ExprNode :=
  match e with
  | ColumnRefExpr t c => if hides t c then stars else e
  | BinaryExpr op l r => BinaryExpr op (redact l) (redact r)
  | UnaryExpr op e => UnaryExpr op (redact e)
  | FunctionCallExpr name fargs =>
      if EqualFold name "DATE_TRUNC" then
        match fargs with
        | [LiteralExpr (VStr grain); ColumnRefExpr t c] =>
            if (normalizeDateGrain grain).2 && hides t c then stars else e
        | _ => e
        end
      else FunctionCallExpr name (map redact fargs)
  | Semantic.CaseExpr cs el => Semantic.CaseExpr (map (fun c => (redact c.1, redact c.2)) cs) (redact el)
  | _ => e
  end.

(** A reference to a metric or a dimension that is spelled like a hidden column: it is quoted as
    it stands. *)
Definition no_hidden_ref (e : ExprNode) : Prop :=
  match e with MetricRefExpr n | DimensionRefExpr n => hides "" n = false | _ => True end.
(** No node names a hidden column, in whatever way. *)
Definition visible (e : ExprNode) : Prop :=
  match e with
  | ColumnRefExpr t c => hides t c = false
  | MetricRefExpr n | DimensionRefExpr n => hides "" n = false
  | _ => True
  end.

Lemma redact_visible agg e : Compilable agg e -> Forall no_hidden_ref (subexprs e) -> Forall visible (subexprs (redact e)).
Proof using.
  induction e as [|v|t c|m|m|op l r IHl IHr|op e IH|name fargs IH|cs el IHc IHe] using ExprNode_ind';
    intros Hc Hr; cbn [redact]; inversion Hc; subst; cbn [subexprs] in Hr; apply Forall_cons in Hr as [Hr0 Hr]; try by repeat constructor.
  - destruct (hides t c) eqn:E; by repeat constructor.
  - cbn [subexprs]. apply Forall_app in Hr as [? ?]. constructor; [done|]. apply Forall_app. auto.
  - cbn [subexprs]. constructor; [done|]. auto.
  - match goal with Hn : EqualFold _ _ = true |- _ => rewrite Hn end. unfold normalizeDateGrain.
    match goal with Hg : _ ∈ _ |- _ => apply str_in_spec in Hg; rewrite Hg end. cbn [snd andb].
    destruct (hides t c) eqn:E; by repeat constructor.
  - match goal with Hn : EqualFold _ _ = false |- _ => rewrite Hn end. cbn [subexprs].
    constructor; [done|]. apply Forall_flat_map, Forall_map. apply Forall_flat_map in Hr.
    match goal with Hf : Forall (Compilable _) _ |- _ => exact (Forall_apply _ _ _ (Forall_apply _ _ _ IH Hf) Hr) end.
  - match goal with Hn : EqualFold _ _ = false |- _ => rewrite Hn end. cbn [subexprs].
    constructor; [done|]. apply Forall_flat_map, Forall_map. apply Forall_flat_map in Hr.
    match goal with Hf : Forall (Compilable _) _ |- _ => exact (Forall_apply _ _ _ (Forall_apply _ _ _ IH Hf) Hr) end.
  - cbn [subexprs]. apply Forall_app in Hr as [Hrc Hre]. apply Forall_flat_map in Hrc. constructor; [done|]. apply Forall_app. split; [|auto].
    apply Forall_flat_map, Forall_map.
    match goal with Hf : Forall (fun c => Compilable _ _ /\ _) _ |- _ =>
      rewrite Forall_forall in Hf, IHc, Hrc |- *; intros [w t] Hin; destruct (Hf _ Hin) as [Cw Ct] end.
    destruct (IHc _ Hin) as [Hw Ht]. specialize (Hrc _ Hin). cbn [fst snd] in *. apply Forall_app in Hrc as [? ?]. apply Forall_app. auto.
Qed.
End Redact.

Section RedactCorrect.
Context `{GoRuntime}.
Context (d : Dialect) (Hstars : QuoteStringLiteral d "***" = HiddenLiteral).
Context (resolver : option SchemaResolver) (piiConfig : option PIIMaskingConfig) (agg : bool).
#[local] Abbreviation compile := (compileExpr d resolver piiConfig false agg).
#[local] Abbreviation redact' := (redact resolver piiConfig).

Lemma isCountStarArg_redact e : isCountStarArg (redact' e) = isCountStarArg e.
Proof using.
  destruct e; cbn [redact]; try done.
  - by destruct (hides _ _ _ _).
  - destruct (EqualFold Name "DATE_TRUNC"); [|done].
    destruct Args as [|[|[]| | | | | | |] [|[] [|]]]; try done. by destruct (_ && _).
Qed.

Lemma columnRefSQL_stateless t c st st' :
  (columnRefSQL d resolver piiConfig t c st).1 = (columnRefSQL d resolver piiConfig t c st').1.
Proof using.
  unfold columnRefSQL, maskColumnRef. destruct piiConfig as [cfg|]; [|done].
  destruct (lookup cfg _) as [[a ty]|]; [|done]. destruct (_ && _); [done|]. by destruct (String.eqb _ _).
Qed.
Lemma columnRefSQL_hidden t c st :
  hides resolver piiConfig t c = true -> (columnRefSQL d resolver piiConfig t c st).1 = Ok HiddenLiteral.
Proof using.
  unfold hides, columnRefSQL, maskColumnRef. destruct piiConfig as [cfg|]; [|done].
  destruct (lookup cfg _) as [[a ty]|]; [|done]. by intros ->.
Qed.
Lemma same_columnRef t c :
  same_result (compile (ColumnRefExpr t c)) (compile (redact' (ColumnRefExpr t c))).
Proof using Hstars.
  cbn [redact]. destruct (hides resolver piiConfig t c) eqn:E.
  - exists (Ok HiddenLiteral). split; intros st; [by apply columnRefSQL_hidden|].
    cbn. by rewrite Hstars.
  - apply (same_refl _ (columnRefSQL d resolver piiConfig t c (mkSt [] [] [] None)).1).
    intros st. apply columnRefSQL_stateless.
Qed.

Lemma same_aggregate name fargs :
  Forall (fun e => same_result (compile e) (compile (redact' e))) fargs ->
  same_result (aggregateFunctionCallSQL d compile name fargs)
    (aggregateFunctionCallSQL d compile name (map redact' fargs)).
Proof using.
  intros Hf. unfold aggregateFunctionCallSQL, compileAggregateCountDistinctSQL, compileAggregateCountSQL.
  rewrite length_map.
  destruct Hf as [|a fargs Ha Hf]; [|destruct Hf as [|b fargs Hb Hf]]; cbn [map];
    rewrite ?isCountStarArg_redact; repeat case_match; auto with biq.
Qed.

Lemma same_compile e : same_result (compile e) (compile (redact' e)).
Proof using Hstars.
  induction e as [|v|t c|m|m|op l r IHl IHr|op e IH|name fargs IH|cs el IHc IHe] using ExprNode_ind'.
  - apply same_ret.
  - apply same_ret.
  - apply same_columnRef.
  - apply same_ret.
  - apply same_ret.
  - cbn [redact compileExpr]. unfold binaryExprSQL. apply same_bind; [done|]. intros lhs.
    apply same_bind; [done|]. intros rhs. repeat case_match; auto with biq.
  - cbn [redact compileExpr]. unfold unaryExprSQL. apply same_bind; [done|]. intros inner.
    repeat case_match; auto with biq.
  - cbn [redact]. destruct (EqualFold name "DATE_TRUNC") eqn:En.
    + assert (same_result (compile (FunctionCallExpr name fargs)) (compile (FunctionCallExpr name fargs))) as Hid.
      { cbn [compileExpr]. unfold functionCallSQL, dateTruncSQL. rewrite En. cbn [negb]. apply same_lift. }
      destruct fargs as [|[|[]| | | | | | |] [|[] [|]]]; try exact Hid.
      destruct ((normalizeDateGrain s).2 && hides resolver piiConfig Table Column) eqn:E; [|exact Hid].
      exists (Ok HiddenLiteral). split; intros st; [|cbn; by rewrite Hstars].
      cbn [compileExpr]. unfold functionCallSQL, dateTruncSQL. rewrite En. cbn [negb literalString lift fst].
      apply andb_true_iff in E as [Eg Eh]. unfold normalizeDateGrain in *. cbn [snd] in Eg. rewrite Eg. cbn [negb].
      unfold hides in Eh. destruct piiConfig as [cfg|]; [|done].
      destruct (lookup cfg _) as [[a ty]|]; [|done]. by rewrite Eh.
    + cbn [compileExpr]. unfold functionCallSQL, dateTruncSQL. rewrite En. cbn [negb].
      destruct (IsAggregateFunction _); [destruct (negb agg); [apply same_throw|by apply same_aggregate]|].
      destruct (negb _); [apply same_throw|]. apply same_bind; [|intros; apply same_ret].
      apply same_mapM. induction IH; constructor; auto.
  - cbn [redact compileExpr]. unfold caseExprSQL. apply same_bind; [|intros chunks; apply same_bind].
    + apply same_mapM. induction IHc as [|[w t] cs [Hw Ht] _ IH]; constructor; [|exact IH]. cbn [fst snd] in *.
      apply same_bind; [done|]. intros. apply same_bind; [done|]. intros. apply same_ret.
    + assert (same_result (do compiledElse <- compile el; ret (" ELSE " +:+ compiledElse))
        (do compiledElse <- compile (redact' el); ret (" ELSE " +:+ compiledElse))) as Hel
        by (apply same_bind; [done|intros; apply same_ret]).
      destruct el; try exact Hel; [apply same_ret| |].
      * cbn [redact] in *. destruct (hides _ _ _ _); exact Hel.
      * cbn [redact] in *. destruct (EqualFold Name "DATE_TRUNC"); [|exact Hel].
        destruct Args as [|[|[]| | | | | | |] [|[] [|]]]; try exact Hel. destruct (_ && _); exact Hel.
    + intros. apply same_ret.
Qed.
End RedactCorrect.

(** C36: no column that is hidden reaches the text of an expression, unless a reference to a
    metric or a dimension is spelled like it.  The SQL (or the error) is that of the
    expression in which every column the policy hides, and every DATE_TRUNC of such a
    column, is replaced by the string of three stars, so it does not depend on which hidden
    columns the expression mentions; and where no metric or dimension it refers to has the
    name of a hidden column, what is left of an expression that has SQL names none.  (Such a
    reference is quoted as it stands: the name of a hidden column would show it.) *)
Theorem hidden_columns_redacted `{GoRuntime} (c : concrete) (resolver : option SchemaResolver)
    (piiConfig : option PIIMaskingConfig) (agg : bool) (e : ExprNode) (st st' : St) :
  let compile := CompileExpr (dialect_of c) resolver piiConfig false agg in
  (compile e st).1 = (compile (redact resolver piiConfig e) st').1 /\
  match (compile e st).1 with
  | Ok _ => Forall (no_hidden_ref resolver piiConfig) (subexprs e) ->
            Forall (visible resolver piiConfig) (subexprs (redact resolver piiConfig e))
  | Err _ => True
  end.
Proof.
  assert (QuoteStringLiteral (dialect_of c) "***" = HiddenLiteral) as Hstars by (destruct c as [[] b]; reflexivity).
  cbv zeta. split.
  - assert (same_result (CompileExpr (dialect_of c) resolver piiConfig false agg e)
      (CompileExpr (dialect_of c) resolver piiConfig false agg (redact resolver piiConfig e))) as (r & H1 & H2);
      [|by rewrite H1, H2].
    unfold CompileExpr. apply same_bind; [by apply same_compile|]. intros sql.
    destruct (str_empty sql); [apply same_ret|]. apply same_bind; [apply same_lift|]. intros; apply same_ret.
  - destruct (CompileExpr _ _ _ _ _ e st) as [[sql|er] st2] eqn:E; [|done]. cbn [fst].
    unfold CompileExpr in E. bind_inv. by eapply redact_visible, compileExpr_compilable.
Qed.

(** A column to be masked is not masked inside DATE_TRUNC. *)
Example date_trunc_unmasked :
  let _ := demo_runtime in
  let cfg := mkPIIConfig {["users.birth" := mkPIIInfo "masked" "address" ""]} ∅ ∅ ∅ None in
  let compile e := (CompileExpr (dialect_of Postgres) None (Some cfg) false false e (mkSt [] [] [] None)).1 in
  let column := ColumnRefExpr "users" "birth" in
  compile column = Ok (Masking.DefaultMaskExpression (dialect_of Postgres)
                         (QuoteIdent (dialect_of Postgres) "users.birth") "address") /\
  compile (FunctionCallExpr "DATE_TRUNC" [LiteralExpr (VStr "day"); column]) =
    Ok (DateTrunc (dialect_of Postgres) "day" "users.birth").
Proof. vm_compute. by split. Qed.

(** A column that is hidden is shown by a reference to a metric or a dimension of its name, such
    as the expressions of window functions may hold. *)
Example reference_shows_hidden :
  let _ := demo_runtime in
  let cfg := mkPIIConfig {["users.ssn" := mkPIIInfo "hidden" "" ""]} ∅ ∅ ∅ None in
  let compile e := (CompileExpr (dialect_of Postgres) None (Some cfg) false false e (mkSt [] [] [] None)).1 in
  compile (ColumnRefExpr "users" "ssn") = Ok HiddenLiteral /\
  compile (DimensionRefExpr "users.ssn") = Ok (QuoteIdent (dialect_of Postgres) "users.ssn") /\
  compile (MetricRefExpr "users.ssn") = Ok (QuoteIdent (dialect_of Postgres) "users.ssn").
Proof. vm_compute. by split. Qed.
