(* ===== verification/Calendar.v ===== *)
(** Filters on calendar grains: [internal/query/calendar_grain_filter.go].

    A filter on a dimension with a time grain is compared on the truncated
    column when its value pins an instant, on the integer part of the column when
    its values are day numbers, and on the column cast to a date when the column
    has no grain and the value is a date. *)

From S2P Require Import Prelude GoStrings Values Dialect Semantic LogicalQuery PhysicalRef CompileMonad.
From stdpp Require Import options.
#[local] Open Scope Z_scope.

(** [grainStemBeforeSuffix] *)
Definition grainStemBeforeSuffix (dimName suffix : string) : option string :=
  if HasSuffix dimName suffix then Some (TrimSuffix dimName suffix) else None.

(** [isNumericFilterValue] of validator.go *)
Definition isNumericFilterValue (v : gval) : bool :=
  match v with
  | VInt _ | VInt32 _ | VInt64 _ | VIntOther _ | VFloat64 _ _ | VFloat32 _ _ | VNumber _ => true
  | _ => false
  end.

Definition isScalarCompareOp (op : string) : bool := str_in op [OpEq; OpNeq; OpGt; OpGte; OpLt; OpLte].

Definition sqlComparator (op : string) : res string :=
  if String.eqb op OpEq then Ok "="
  else if String.eqb op OpNeq then Ok "!="
  else if String.eqb op OpGt then Ok ">"
  else if String.eqb op OpGte then Ok ">="
  else if String.eqb op OpLt then Ok "<"
  else if String.eqb op OpLte then Ok "<="
  else Err (EMsg ("unsupported comparator operator: " +:+ op)).

(** The grain of a dimension as the tests compare it. *)
Definition grain_of (dim : Dimension) : string := ToLower (TrimSpace (dim_TimeGrain dim)).

(** [time.RFC3339Nano] and the other layouts, in the order they are tried. *)
Definition anchor_layouts : list string :=
  ["2006-01-02T15:04:05.999999999Z07:00"; "2006-01-02T15:04:05Z07:00"; "2006-01-02T15:04:05Z07:00";
   "2006-01-02 15:04:05"; "2006-01-02"; "2006-01"].

Section Calendar.
Context `{GoRuntime}.

Definition isDateOnlyCalendarValue (v : gval) : bool :=
  match v with
  | VStr s =>
      let s := TrimSpace s in
      if negb (Nat.eqb (String.length s) 10) then false
      else match TimeParse "2006-01-02" s with Some _ => true | None => false end
  | _ => false
  end.

Definition isRawDateTimestampDimension (dim : Dimension) : bool :=
  if negb (str_empty (TrimSpace (dim_TimeGrain dim))) then false
  else str_in (ToLower (TrimSpace (dim_Type dim))) ["date"; "timestamp"; "datetime"].

Definition rawDateColumnDayEqualityFilter (dim : Dimension) (f : Filter) : bool :=
  if negb (isRawDateTimestampDimension dim) then false
  else if negb (String.eqb (f_Operator f) OpEq) && negb (String.eqb (f_Operator f) OpNeq) then false
  else isDateOnlyCalendarValue (f_Value f).

Fixpoint first_parse (layouts : list string) (s : string) : option Z :=
  match layouts with
  | [] => None
  | layout :: layouts =>
      match TimeParse layout s with Some t => Some t | None => first_parse layouts s end
  end.

(** [calendarAnchorTime]: the instant a value pins, if it pins one. *)
Definition calendarAnchorTime (v : gval) : option Z :=
  match v with
  | VStr s =>
      let s := TrimSpace s in
      if str_empty s then None else first_parse anchor_layouts s
  | _ => None
  end.

Definition numericFilterValueInt (v : gval) : option Z :=
  if negb (isNumericFilterValue v) then None else
  let whole := fun me => option_map int_of_float (float_whole me.1 me.2) in
  match v with
  | VInt n | VInt32 n | VInt64 n => whole (float64_of_int n, 0)
  | VFloat64 m e => whole (m, e)
  | VNumber s => match NumberFloat64 s with Some me => whole me | None => None end
  | _ => None
  end.

Definition bareIntegerMonthOrQuarter (grain : string) (v : gval) : bool :=
  match numericFilterValueInt v with
  | None => false
  | Some iv =>
      if String.eqb grain TimeGrainMonth then (1 <=? iv) && (iv <=? 12)
      else if String.eqb grain TimeGrainQuarter then (1 <=? iv) && (iv <=? 4)
      else false
  end.

Definition scalarFilterValues (f : Filter) : option (list gval) :=
  if str_in (f_Operator f) [OpEq; OpNeq; OpGt; OpGte; OpLt; OpLte] then Some [f_Value f]
  else if str_in (f_Operator f) [OpBetween; OpIn; OpNotIn] then
    match f_Value f with VList vals => Some vals | _ => None end
  else None.

Definition is_day_number (v : gval) : bool :=
  match numericFilterValueInt v with
  | Some iv => negb ((iv <? 1) || (31 <? iv))
  | None => false
  end.

Definition dayGrainBareIntegerFilter (dim : Dimension) (f : Filter) : bool :=
  if negb (String.eqb (grain_of dim) TimeGrainDay) then false
  else match scalarFilterValues f with
       | None | Some [] => false
       | Some vals => forallb is_day_number vals
       end.

Definition filterTouchesField (filters : list Filter) (field : string) : bool :=
  existsb (fun f => String.eqb (f_Field f) field) filters.

(** The four predicates [*GrainFilterUsesDateTrunc]. *)
Definition grainFilterUsesDateTrunc (grain : string) (dim : Dimension) (f : Filter) : bool :=
  if negb (String.eqb (grain_of dim) grain) then false
  else if negb (isScalarCompareOp (f_Operator f)) then false
  else match calendarAnchorTime (f_Value f) with Some _ => true | None => false end.
Definition dayGrainFilterUsesDateTrunc := grainFilterUsesDateTrunc TimeGrainDay.
Definition monthGrainFilterUsesDateTrunc := grainFilterUsesDateTrunc TimeGrainMonth.
Definition quarterGrainFilterUsesDateTrunc := grainFilterUsesDateTrunc TimeGrainQuarter.
Definition hourGrainFilterUsesDateTrunc := grainFilterUsesDateTrunc TimeGrainHour.

(** * The year a month or a quarter belongs to *)

Definition CodeAmbiguousYearCoverage : string := "AMBIGUOUS_YEAR_COVERAGE".

(** The last dimension of a name: the entry the loop leaves in the map. *)
Definition dim_named (model : SemanticModel) (name : string) : option Dimension :=
  last_named dim_Name (model_Dimensions model) name.

(** The check of one filter of the loop; [None] stands for [continue]. *)
Definition year_coverage_error (lq : LogicalQuery) (model : SemanticModel) (f : Filter) : option ValidationError :=
  match dim_named model (f_Field f) with
  | None => None
  | Some dim =>
      if negb (isScalarCompareOp (f_Operator f)) then None else
      let g := grain_of dim in
      if negb (String.eqb g TimeGrainMonth) && negb (String.eqb g TimeGrainQuarter) then None else
      match calendarAnchorTime (f_Value f) with
      | Some _ => None
      | None =>
          if negb (bareIntegerMonthOrQuarter g (f_Value f)) then None else
          let suffix := if String.eqb g TimeGrainMonth then "_month" else "_quarter" in
          match grainStemBeforeSuffix (f_Field f) suffix with
          | None => None
          | Some stem =>
              if str_empty stem then None else
              let yearField := stem +:+ "_year" in
              match dim_named model yearField with
              | None => None
              | Some _ =>
                  if filterTouchesField (Filters lq) yearField then None
                  else Some {|
                    ve_field := "filters"; ve_code := CodeAmbiguousYearCoverage;
                    ve_message := "ambiguous calendar " +:+ g +:+ " filter on " +:+ Quote (f_Field f) +:+
                      " (numeric value without year): add a filter on dimension " +:+ Quote yearField +:+
                      " (e.g. eq 2026), or replace the " +:+ Quote (f_Field f) +:+
                      " filter value with an ISO calendar anchor like " +:+ Quote "2026-04-01";
                    ve_value := f_Field f; ve_allowed := [yearField] |}
              end
          end
      end
  end.

Fixpoint first_some {A B} (g : A -> option B) (l : list A) : option B :=
  match l with
  | [] => None
  | x :: l => match g x with Some y => Some y | None => first_some g l end
  end.

Definition validateCalendarGrainYearCoverage (lq : LogicalQuery) (model : SemanticModel) : option ValidationError :=
  first_some (year_coverage_error lq model) (Filters lq).

(** * The SQL *)

Definition dateTruncCompareExpr (d : Dialect) (part columnRef op : string) (argIndex : Z) : res string :=
  let part := ToLower (TrimSpace part) in
  if negb (str_in part ["day"; "month"; "quarter"; "hour"]) then
    Err (EMsg ("date_trunc compare: unsupported part " +:+ Quote part))
  else
    let lhs := DateTrunc d part columnRef in
    let rhs := DateTruncPlaceholder d part (Placeholder d argIndex) in
    let? cmp := sqlComparator op in
    Ok (lhs +:+ " " +:+ cmp +:+ " " +:+ rhs).

Definition castColumnAsDate (d : Dialect) (columnRef : string) : string :=
  let quoted := QuoteIdent d columnRef in
  if String.eqb (Name d) "mysql" then "DATE(" +:+ quoted +:+ ")"
  else if String.eqb (Name d) "clickhouse" then "toDate(" +:+ quoted +:+ ")"
  else if String.eqb (Name d) "sqlite" then "date(" +:+ quoted +:+ ")"
  else "CAST(" +:+ quoted +:+ " AS " +:+ CastType d "date" +:+ ")".

(** [rawDateDayFilterExpr]; [None] when the filter is not one. *)
Definition rawDateDayFilterExpr (d : Dialect) (f : Filter) (dim : option Dimension)
    (resolver : SchemaResolver) : M (option string) :=
  match dim with
  | None => ret None
  | Some dim =>
      if negb (rawDateColumnDayEqualityFilter dim f) then ret None
      else
        let colRef := PhysicalColumnRef resolver (dim_ColumnRef dim) in
        let lhs := castColumnAsDate d colRef in
        do cmp <- lift (sqlComparator (f_Operator f));
        do ph <- bind_value d (f_Value f);
        ret (Some (lhs +:+ " " +:+ cmp +:+ " " +:+ ph))
  end.

(** The grain a filter is truncated to by [calendarGrainFilterExpr], if any. *)
Definition filter_grain (dim : Dimension) (f : Filter) : option string :=
  if dayGrainFilterUsesDateTrunc dim f then Some TimeGrainDay
  else if monthGrainFilterUsesDateTrunc dim f then Some TimeGrainMonth
  else if quarterGrainFilterUsesDateTrunc dim f then Some TimeGrainQuarter
  else if hourGrainFilterUsesDateTrunc dim f then
    Some (if isDateOnlyCalendarValue (f_Value f) then TimeGrainDay else TimeGrainHour)
  else None.

(** [calendarGrainFilterExpr] of compiler.go *)
Definition calendarGrainFilterExpr (d : Dialect) (f : Filter) (dim : option Dimension)
    (resolver : SchemaResolver) : M (option string) :=
  match dim with
  | None => ret None
  | Some dim =>
      match filter_grain dim f with
      | None => ret None
      | Some grain =>
          match calendarAnchorTime (f_Value f) with
          | None => throw (EMsg (grain +:+ " grain filter on " +:+ Quote (f_Field f) +:+
                                 ": expected calendar anchor value"))
          | Some anchor =>
              do n <- len_args;
              do expr <- lift (dateTruncCompareExpr d grain (PhysicalColumnRef resolver (dim_ColumnRef dim))
                                 (f_Operator f) (n + 1));
              do _ <- append_arg (VTime anchor);
              ret (Some expr)
          end
      end
  end.
End Calendar.
