(* ===== verification/Joins.v ===== *)
(** Which tables a query needs and how they are joined: the parts of
    [internal/query/compiler.go] from [addTableFromColumnRef] to [determineJoins],
    [buildFrom] and [buildJoins], with [buildCompilerMaps] and
    [validateReachableTables] of [compiler_nested.go].

    A Go map is a [gmap]; a loop that ranges over one visits it in an order of the
    runtime's choosing: [MapOrder] is that choice, any permutation of the entries. *)

From S2P Require Import Prelude GoStrings Values Dialect Semantic LogicalQuery PhysicalRef.
From stdpp Require Import options.
#[local] Open Scope Z_scope.

Class MapOrder : Type := {
  range : forall {A}, gmap string A -> list (string * A);
  range_perm : forall A (m : gmap string A), range m ≡ₚ map_to_list m;
}.

(** One order, for evaluation. *)
Definition list_order : MapOrder := {|
  range A m := map_to_list m;
  range_perm A m := reflexivity _;
|}.

Definition keys `{MapOrder} {A} (m : gmap string A) : list string := map fst (range m).

(** A set is a map to the empty struct. *)
Definition set_of (l : gset string) : gmap string unit := gset_to_gmap tt l.

(** * buildCompilerMaps *)

Definition set_TimeGrain (grain : string) (dim : Dimension) : Dimension :=
  mkDimension (dim_Name dim) (dim_ColumnRef dim) (dim_Type dim) grain
    (dim_CalculatedExpression dim) (dim_CalculatedExpr dim).

Definition map_by {A} (name_of : A -> string) (l : list A) : gmap string A :=
  fold_left (fun m a => <[name_of a := a]> m) l ∅.

Definition override_grain (m : gmap string Dimension) (gb : GroupBy) : gmap string Dimension :=
  if str_empty (gb_TimeGrain gb) then m
  else match m !! gb_Field gb with
       | Some dim => <[gb_Field gb := set_TimeGrain (gb_TimeGrain gb) dim]> m
       | None => m
       end.

Definition build_dimMap (lq : LogicalQuery) (model : SemanticModel) : gmap string Dimension :=
  fold_left override_grain (GroupBys lq) (map_by dim_Name (model_Dimensions model)).
Definition build_metricMap (model : SemanticModel) : gmap string Metric := map_by met_Name (model_Metrics model).
Definition build_joinMap (model : SemanticModel) : gmap string JoinDef := map_by join_Name (model_Joins model).

(** * The tables a query references *)

Section Tables.
Context (dimMap : gmap string Dimension) (metricMap : gmap string Metric) (resolver : SchemaResolver).

Definition addTableFromColumnRef (tables : gset string) (colRef : string) : gset string :=
  match resolver_ParseColumnRef resolver colRef with
  | Some p => {[TableKey (p_Schema p) (p_Table p)]} ∪ tables
  | None => tables
  end.

Definition add_dimension (tables : gset string) (name : string) : gset string :=
  match dimMap !! name with
  | Some dim => addTableFromColumnRef tables (dim_ColumnRef dim)
  | None => tables
  end.
Definition add_metric (tables : gset string) (name : string) : gset string :=
  match metricMap !! name with
  | Some m => addTableFromColumnRef tables (met_Expression m)
  | None => tables
  end.

Definition addTableForField (tables : gset string) (field : string) : gset string :=
  add_metric (add_dimension tables field) field.

Definition addTablesFromWindowSelect (tables : gset string) (w : option WindowSpec) : gset string :=
  match w with
  | None => tables
  | Some w =>
      let tables := if str_empty (w_Metric w) then tables else add_metric tables (w_Metric w) in
      let tables := if str_empty (w_Expression w) then tables
                    else addTableFromColumnRef tables (w_Expression w) in
      let tables := fold_left add_dimension (w_PartitionBy w) tables in
      fold_left (fun tables ob => addTableForField tables (ob_Field ob)) (w_OrderBy w) tables
  end.

Definition add_item (tables : gset string) (item : SelectItem) : gset string :=
  if String.eqb (s_Type item) SelectTypeDimension then add_dimension tables (s_Name item)
  else if String.eqb (s_Type item) SelectTypeMetric then add_metric tables (s_Name item)
  else if String.eqb (s_Type item) SelectTypeWindow then addTablesFromWindowSelect tables (s_Window item)
  else tables.
Definition addTablesFromSelectItems (tables : gset string) (items : list SelectItem) : gset string :=
  fold_left add_item items tables.
Definition addTablesFromHaving (tables : gset string) (having : list Filter) : gset string :=
  fold_left (fun tables f => add_metric tables (f_Field f)) having tables.
Definition addTablesFromFilters (tables : gset string) (filters : list Filter) : gset string :=
  fold_left (fun tables f => addTableForField tables (f_Field f)) filters tables.
Definition addTablesFromGroupBy (tables : gset string) (groupBy : list GroupBy) : gset string :=
  fold_left (fun tables gb => add_dimension tables (gb_Field gb)) groupBy tables.
Definition addTablesFromOrderBy (tables : gset string) (orderBy : list OrderBy) : gset string :=
  fold_left (fun tables ob => addTableForField tables (ob_Field ob)) orderBy tables.

Definition tablesReferencedInLogicalQuery (lq : LogicalQuery) (model : SemanticModel) : gset string :=
  let tables := {[TableKey (model_BaseSchema model) (model_BaseTable model)]} in
  let tables := addTablesFromSelectItems tables (Select lq) in
  let tables := addTablesFromHaving tables (Having lq) in
  let tables := addTablesFromFilters tables (Filters lq) in
  let tables := addTablesFromGroupBy tables (GroupBys lq) in
  addTablesFromOrderBy tables (OrderBys lq).
End Tables.

(** * determineJoins *)

Record joinNeighbor : Type := mkNeighbor { nb_table : string; nb_joinName : string }.

Section Graph.
Context (model : SemanticModel) (resolver : SchemaResolver).

Definition base_key : string := TableKey (model_BaseSchema model) (model_BaseTable model).
Definition from_key (j : JoinDef) : string := JoinSideKey resolver (join_FromSchema j) (join_FromTable j).
Definition to_key (j : JoinDef) : string := JoinSideKey resolver (join_ToSchema j) (join_ToTable j).

(** [neighbors[u]]: what the loop over the joins appends under the key [u]. *)
Definition neighbors (u : string) : list joinNeighbor :=
  flat_map (fun j =>
    (if String.eqb (from_key j) u then [mkNeighbor (to_key j) (join_Name j)] else []) ++
    (if String.eqb (to_key j) u then [mkNeighbor (from_key j) (join_Name j)] else [])) (model_Joins model).

(** The variables of the breadth-first search; an entry of [parent] is the
    previous table and the name of the join. *)
Record search : Type := mkSearch {
  queue : list string;
  visited : gset string;
  parent : gmap string (string * string);
  joinDiscovery : list string;
  joinFirst : gset string;
}.

Definition search_start : search := mkSearch [base_key] {[base_key]} {[base_key := ("", "")]} [] ∅.

Definition visit_neighbor (u : string) (s : search) (nb : joinNeighbor) : search :=
  if decide (nb_table nb ∈ visited s) then s
  else
    let seen := bool_decide (nb_joinName nb ∈ joinFirst s) in
    mkSearch (queue s ++ [nb_table nb]) ({[nb_table nb]} ∪ visited s)
      (<[nb_table nb := (u, nb_joinName nb)]> (parent s))
      (if seen then joinDiscovery s else joinDiscovery s ++ [nb_joinName nb])
      (if seen then joinFirst s else {[nb_joinName nb]} ∪ joinFirst s).

Fixpoint search_loop (fuel : nat) (s : search) : res search :=
  match queue s with
  | [] => Ok s
  | u :: q =>
      match fuel with
      | 0%nat => Err EFuel
      | S fuel =>
          search_loop fuel (fold_left (visit_neighbor u) (neighbors u)
            (mkSearch q (visited s) (parent s) (joinDiscovery s) (joinFirst s)))
      end
  end.

(** The walk from a table back to the base. *)
Fixpoint walk (fuel : nat) (par : gmap string (string * string)) (cur : string)
    (required : gset string) : res (gset string) :=
  if String.eqb cur base_key || str_empty cur then Ok required
  else
    let '(prev, join) := default ("", "") (par !! cur) in
    if str_empty join then Ok required
    else match fuel with
         | 0%nat => Err EFuel
         | S fuel => walk fuel par prev ({[join]} ∪ required)
         end.

(** Enough for both loops: every table of the graph is visited once. *)
Definition graph_fuel : nat := S (2 * length (model_Joins model)).

(** The loop over the needed tables. *)
Fixpoint require_tables (s : search) (needed : list string) (required : gset string)
    (unreachable : list string) : res (gset string * list string) :=
  match needed with
  | [] => Ok (required, unreachable)
  | t :: needed =>
      if String.eqb t base_key then require_tables s needed required unreachable
      else if decide (t ∈ visited s) then
        let? required := walk graph_fuel (parent s) t required in
        require_tables s needed required unreachable
      else require_tables s needed required (unreachable ++ [t])
  end.

Definition determineJoins `{MapOrder} (lq : LogicalQuery) (dimMap : gmap string Dimension)
    (metricMap : gmap string Metric) : res (list string * list string) :=
  let needed := keys (set_of (tablesReferencedInLogicalQuery dimMap metricMap resolver lq model)) in
  match model_Joins model with
  | [] => Ok ([], List.filter (fun t => negb (String.eqb t base_key)) needed)
  | _ =>
      let? s := search_loop graph_fuel search_start in
      let? (required, unreachable) := require_tables s needed ∅ [] in
      Ok (List.filter (fun jn => bool_decide (jn ∈ required)) (joinDiscovery s), unreachable)
  end.

(** * buildFrom and buildJoins *)

(** One side of a join condition. *)
Record JoinSide : Type := mkSide { side_schema : string; side_table : string; side_column : string }.

Definition side_key (s : JoinSide) : string := JoinSideKey resolver (side_schema s) (side_table s).

(** A join as it is emitted: the side already in FROM and the side added. *)
Record JoinStep : Type := mkStep { step_join : JoinDef; step_from : JoinSide; step_to : JoinSide }.

(** The loop of [buildJoins] up to the rendering of a clause. *)
Fixpoint join_steps (joinMap : gmap string JoinDef) (inSet : gset string) (joinNames : list string) : list JoinStep :=
  match joinNames with
  | [] => []
  | name :: joinNames =>
      match joinMap !! name with
      | None => join_steps joinMap inSet joinNames
      | Some j =>
          let from := mkSide (join_FromSchema j) (join_FromTable j) (join_FromColumn j) in
          let to := mkSide (join_ToSchema j) (join_ToTable j) (join_ToColumn j) in
          let toInSet := bool_decide (to_key j ∈ inSet) in
          let fromInSet := bool_decide (from_key j ∈ inSet) in
          if toInSet && negb fromInSet then
            mkStep j to from :: join_steps joinMap ({[from_key j]} ∪ inSet) joinNames
          else if toInSet && fromInSet then join_steps joinMap inSet joinNames
          else mkStep j from to :: join_steps joinMap ({[to_key j]} ∪ inSet) joinNames
      end
  end.

Definition join_clause (d : Dialect) (s : JoinStep) : string :=
  let joinType := ToUpper (join_JoinType (step_join s)) in
  let joinType := if str_empty joinType then DefaultJoinType else joinType in
  let fromTableSQL := QualifyTable resolver d (side_schema (step_from s)) (side_table (step_from s)) in
  let toTableSQL := QualifyTable resolver d (side_schema (step_to s)) (side_table (step_to s)) in
  joinType +:+ " JOIN " +:+ toTableSQL +:+
    " ON " +:+ fromTableSQL +:+ "." +:+ QuoteIdentSegment d (side_column (step_from s)) +:+
    " = " +:+ toTableSQL +:+ "." +:+ QuoteIdentSegment d (side_column (step_to s)).

Definition buildJoins (d : Dialect) (joinNames : list string) (joinMap : gmap string JoinDef) : list string :=
  map (join_clause d) (join_steps joinMap {[base_key]} joinNames).
End Graph.

Definition buildFrom (d : Dialect) (model : SemanticModel) : string :=
  QuoteIdent d (model_BaseSchema model) +:+ "." +:+ QuoteIdent d (model_BaseTable model).

(** * validateReachableTables *)

Definition CodeUnreachableTable : string := "UNREACHABLE_TABLE".

Definition validateReachableTables (unreachableTables : list string) (lq : LogicalQuery) : res unit :=
  if decide (unreachableTables = []) then Ok tt
  else if bool_decide (FromSubquery lq <> None) || negb (str_empty (FromCTE lq)) then Ok tt
  else
    let filtered := List.filter (fun t => negb (has_byte "[" t || has_byte "]" t)) unreachableTables in
    match filtered with
    | [] => Ok tt
    | _ => Err (EValidation [mkValidationError "filters" CodeUnreachableTable
        ("query references tables not reachable through model relations: " +:+ Join filtered ", " +:+
         "; add these tables to the model's relations or remove the fields that reference them") "" []])
    end.

(** * The search tree *)

Lemma elem_of_keys `{MapOrder} {A} (m : gmap string A) k : k ∈ keys m <-> is_Some (m !! k).
Proof.
  unfold keys. rewrite range_perm, list_elem_of_fmap. split.
  - intros ([k' a] & -> & Hk%elem_of_map_to_list). by eexists.
  - intros [a Ha]. exists (k, a). split; [done|]. by apply elem_of_map_to_list.
Qed.
Lemma keys_NoDup `{MapOrder} {A} (m : gmap string A) : NoDup (keys m).
Proof. unfold keys. rewrite range_perm. apply NoDup_fst_map_to_list. Qed.
Lemma elem_of_set_of `{MapOrder} (s : gset string) k : k ∈ keys (set_of s) <-> k ∈ s.
Proof.
  rewrite elem_of_keys. unfold set_of. rewrite lookup_gset_to_gmap.
  destruct (decide (k ∈ s)) as [Hk|Hk].
  - rewrite option_guard_True by done. split; [done|]. by eexists.
  - rewrite option_guard_False by done. split; [by intros [? ?]|done].
Qed.

Section SearchProofs.
Context (model : SemanticModel) (resolver : SchemaResolver).
#[local] Abbreviation base := (base_key model).
#[local] Abbreviation nbs := (neighbors model resolver).

(** Two tables linked by a join, in either direction. *)
Definition adjacent (u t : string) : Prop := exists j, mkNeighbor t j ∈ nbs u.
Definition reachable (t : string) : Prop := rtc adjacent base t.

Lemma neighbor_join u t j :
  mkNeighbor t j ∈ nbs u <->
  exists jd, jd ∈ model_Joins model /\ join_Name jd = j /\
    (from_key resolver jd = u /\ to_key resolver jd = t \/ from_key resolver jd = t /\ to_key resolver jd = u).
Proof.
  unfold neighbors. rewrite list_elem_of_In, in_flat_map.
  split.
  - intros (jd & Hjd & Hin). exists jd. apply list_elem_of_In in Hjd. split; [done|].
    apply in_app_iff in Hin as [Hin|Hin].
    + destruct (String.eqb_spec (from_key resolver jd) u); [|done]. destruct Hin as [Heq|[]].
      injection Heq as <- <-. tauto.
    + destruct (String.eqb_spec (to_key resolver jd) u); [|done]. destruct Hin as [Heq|[]].
      injection Heq as <- <-. tauto.
  - intros (jd & Hjd & <- & Hk). exists jd. apply list_elem_of_In in Hjd. split; [done|].
    apply in_app_iff. destruct Hk as [[<- <-]|[<- <-]]; rewrite String.eqb_refl; [left|right]; by left.
Qed.

(** What the search found, newest first: a table, the table it was found from
    and the name of the join. *)
Definition entry : Type := string * (string * string).
Inductive Tree : list entry -> Prop :=
| Tree_nil : Tree []
| Tree_cons t u j l :
    Tree l -> u ∈ base :: map fst l -> t ∉ base :: map fst l -> mkNeighbor t j ∈ nbs u ->
    Tree ((t, (u, j)) :: l).

(** The names in the order of their first discovery. *)
Fixpoint discovered (l : list entry) : list string :=
  match l with
  | [] => []
  | (_, (_, j)) :: l => if decide (j ∈ discovered l) then discovered l else discovered l ++ [j]
  end.

Record describes (s : search) (l : list entry) : Prop := {
  desc_tree : Tree l;
  desc_visited : forall t, t ∈ visited s <-> t ∈ base :: map fst l;
  desc_parent : forall t u j, (t, (u, j)) ∈ l -> parent s !! t = Some (u, j);
  desc_discovery : joinDiscovery s = discovered l;
  desc_first : forall j, j ∈ joinFirst s <-> j ∈ discovered l;
}.

Lemma visit_neighbor_describes u s l nb :
  describes s l -> u ∈ base :: map fst l -> nb ∈ nbs u ->
  exists l', describes (visit_neighbor u s nb) l' /\ nb_table nb ∈ base :: map fst l' /\
    (forall t, t ∈ base :: map fst l -> t ∈ base :: map fst l') /\
    (length (queue (visit_neighbor u s nb)) + length l = length (queue s) + length l')%nat /\
    (forall t, t ∈ base :: map fst l' -> t ∈ base :: map fst l \/ t ∈ queue (visit_neighbor u s nb)) /\
    (forall t, t ∈ queue s -> t ∈ queue (visit_neighbor u s nb)) /\
    (forall t, t ∈ queue (visit_neighbor u s nb) -> t ∈ queue s \/ t ∈ base :: map fst l').
Proof using.
  intros [Ht Hv Hp Hd Hf] Hu Hnb. unfold visit_neighbor. case_decide as Hin.
  - exists l. split_and!; try done; [by apply Hv|auto|auto].
  - destruct nb as [t j]. cbn [nb_table nb_joinName] in *. rewrite Hv in Hin.
    exists ((t, (u, j)) :: l). split_and!.
    + constructor; cbn [visited parent joinDiscovery joinFirst].
      * by constructor.
      * intros t'. cbn [map fst]. rewrite elem_of_union, elem_of_singleton, Hv, !elem_of_cons. tauto.
      * intros t' u' j' [Heq|Hin']%elem_of_cons; [injection Heq as -> -> ->; by rewrite lookup_insert_eq|].
        rewrite lookup_insert_ne; [by apply Hp|]. intros <-. apply Hin. right.
        apply list_elem_of_fmap. by exists (t, (u', j')).
      * cbn [discovered]. destruct (decide (j ∈ discovered l)) as [E|E].
        -- rewrite bool_decide_eq_true_2; [done|by apply Hf].
        -- rewrite bool_decide_eq_false_2; [by rewrite Hd|by rewrite Hf].
      * intros j'. cbn [discovered]. destruct (decide (j ∈ discovered l)) as [E|E].
        -- rewrite bool_decide_eq_true_2; [done|by apply Hf].
        -- rewrite bool_decide_eq_false_2 by (by rewrite Hf).
           rewrite elem_of_union, elem_of_singleton, elem_of_app, list_elem_of_singleton, Hf. tauto.
    + cbn [map fst]. set_solver.
    + cbn [map fst]. set_solver.
    + cbn [queue]. rewrite List.length_app. cbn [length]. lia.
    + cbn [map fst queue]. set_solver.
    + cbn [queue]. set_solver.
    + cbn [map fst queue]. set_solver.
Qed.

Lemma visit_neighbors_describes u s l ns :
  describes s l -> u ∈ base :: map fst l -> (forall nb, nb ∈ ns -> nb ∈ nbs u) ->
  let s' := fold_left (visit_neighbor u) ns s in
  exists l', describes s' l' /\ (forall nb, nb ∈ ns -> nb_table nb ∈ base :: map fst l') /\
    (forall t, t ∈ base :: map fst l -> t ∈ base :: map fst l') /\
    (length (queue s') + length l = length (queue s) + length l')%nat /\
    (forall t, t ∈ base :: map fst l' -> t ∈ base :: map fst l \/ t ∈ queue s') /\
    (forall t, t ∈ queue s -> t ∈ queue s') /\
    (forall t, t ∈ queue s' -> t ∈ queue s \/ t ∈ base :: map fst l').
Proof using.
  revert s l. induction ns as [|nb ns IH]; intros s l Hs Hu Hns; cbn [fold_left].
  - exists l. split_and!; try done; [by intros nb ?%elem_of_nil|auto|auto].
  - destruct (visit_neighbor_describes u s l nb Hs Hu) as (l1 & H1 & Hnb & Hsub1 & Hlen1 & Hq1 & Hk1 & Ho1);
      [apply Hns; by left|].
    destruct (IH _ l1 H1) as (l2 & H2 & Hns2 & Hsub2 & Hlen2 & Hq2 & Hk2 & Ho2);
      [auto|intros nb' ?; apply Hns; by right|].
    exists l2. split_and!; [done| |auto|lia| |auto|].
    + intros nb' [->|Hin]%elem_of_cons; auto.
    + intros t Ht. destruct (Hq2 t Ht) as [H|H]; [|by right]. destruct (Hq1 t H) as [?|?]; auto.
    + intros t Ht. destruct (Ho2 t Ht) as [H|H]; [|by right]. destruct (Ho1 t H) as [?|?]; auto.
Qed.

(** The tree has no more entries than the graph has other tables. *)
Definition tables : list string :=
  flat_map (fun j => [from_key resolver j; to_key resolver j]) (model_Joins model).
Lemma length_tables : length tables = (2 * length (model_Joins model))%nat.
Proof using. unfold tables. induction (model_Joins model); simpl in *; lia. Qed.
Lemma Tree_tables l : Tree l -> forall t, t ∈ map fst l -> t ∈ tables.
Proof using.
  induction 1 as [|t u j l _ IH _ _ Hnb]; intros t'; cbn [map fst]; [by intros ?%elem_of_nil|].
  intros [->|Hin]%elem_of_cons; [|by apply IH].
  apply neighbor_join in Hnb as (jd & Hjd & _ & Hk). unfold tables.
  apply list_elem_of_In, in_flat_map. exists jd. apply list_elem_of_In in Hjd. split; [done|]. cbn. tauto.
Qed.
Lemma Tree_NoDup l : Tree l -> NoDup (base :: map fst l).
Proof using.
  induction 1 as [|t u j l _ IH _ Ht _]; [apply NoDup_singleton|]. cbn [map fst].
  rewrite !not_elem_of_cons in *. apply NoDup_cons in IH as [Hb Hl].
  destruct Ht as [Ht1 Ht2]. apply NoDup_cons. split; [|by apply NoDup_cons].
  rewrite elem_of_cons. intros [?|?]; congruence.
Qed.
Lemma Tree_length l : Tree l -> (length l <= 2 * length (model_Joins model))%nat.
Proof using.
  intros Ht. rewrite <- length_tables, <- (length_map (fst : entry -> string) l).
  pose proof (Tree_NoDup _ Ht) as [_ Hn]%NoDup_cons.
  apply submseteq_length, NoDup_submseteq; [done|]. by apply Tree_tables.
Qed.

Lemma search_loop_spec fuel s l :
  describes s l -> (forall t, t ∈ queue s -> t ∈ base :: map fst l) ->
  (forall u, u ∈ base :: map fst l -> u ∈ queue s \/ forall nb, nb ∈ nbs u -> nb_table nb ∈ base :: map fst l) ->
  (length (queue s) + (2 * length (model_Joins model) - length l) <= fuel)%nat ->
  exists s' l', search_loop model resolver fuel s = Ok s' /\ describes s' l' /\
    (forall u nb, u ∈ base :: map fst l' -> nb ∈ nbs u -> nb_table nb ∈ base :: map fst l').
Proof using.
  revert s l. induction fuel as [|fuel IH]; intros s l Hs Hq Hc Hf; cbn [search_loop];
    (destruct (queue s) as [|u q] eqn:Eq;
      [exists s, l; split_and!; [done|done|];
       intros u nb Hu Hnb; destruct (Hc u Hu) as [Hn|Hn]; [by apply elem_of_nil in Hn|by apply Hn]|]);
    [cbn [length] in Hf; lia|].
  assert (describes (mkSearch q (visited s) (parent s) (joinDiscovery s) (joinFirst s)) l) as Hs'
    by (destruct Hs; constructor; done).
  assert (u ∈ base :: map fst l) as Hu by (apply Hq; by left).
  destruct (visit_neighbors_describes u _ l (nbs u) Hs' Hu)
    as (l' & Hl' & Hnb & Hsub & Hlen & Hnew & Hold & Hin); [done|].
  apply (IH _ l'); [done| | |].
  - intros t Ht. destruct (Hin t Ht) as [Hq'|?]; [|done]. apply Hsub, Hq. by right.
  - intros v Hv. destruct (Hnew v Hv) as [Hv'|?]; [|by left].
    destruct (Hc v Hv') as [[->|Hvq]%elem_of_cons|Hcl]; [by right|left; by apply Hold|right; auto].
  - pose proof (Tree_length _ (desc_tree _ _ Hl')). cbn [queue length] in *. lia.
Qed.

Lemma search_spec :
  exists s l, search_loop model resolver (graph_fuel model) (search_start model) = Ok s /\ describes s l /\
    forall t, t ∈ base :: map fst l <-> reachable t.
Proof using.
  destruct (search_loop_spec (graph_fuel model) (search_start model) []) as (s & l & Hs & Hd & Hc).
  - constructor; cbn; [constructor| |by intros t u j ?%elem_of_nil|done|].
    + intros t. by rewrite elem_of_singleton, list_elem_of_singleton.
    + intros j. rewrite elem_of_nil. set_solver.
  - done.
  - cbn. intros u Hu. by left.
  - unfold graph_fuel. cbn. lia.
  - exists s, l. split_and!; [done|done|]. intros t. split.
    + pose proof (desc_tree _ _ Hd) as Ht. clear -Ht. revert t.
      induction Ht as [|t' u j l _ IH Hu _ Hnb]; intros t; cbn [map fst].
      * intros ->%list_elem_of_singleton. constructor.
      * intros [->|[->|Hin]%elem_of_cons]%elem_of_cons; [constructor| |apply IH; by right].
        eapply rtc_r; [by apply IH|]. by exists j.
    + intros Hr. assert (forall b v, rtc adjacent b v -> b ∈ base :: map fst l -> v ∈ base :: map fst l) as H.
      { induction 1 as [|b v w [j Hj] _ IH]; [done|]. intros Hb. apply IH. by apply (Hc b (mkNeighbor v j)). }
      apply (H base); [done|by left].
Qed.

(** * The walk *)

(** The joins from a table up to the base. *)
Fixpoint path (l : list entry) (t : string) : list string :=
  match l with
  | [] => []
  | (t', (u, j)) :: l =>
      if String.eqb t t' then
        if str_empty t || str_empty j then [] else j :: path l u
      else path l t
  end.

Lemma walk_spec fuel par l t required :
  Tree l -> (forall t u j, (t, (u, j)) ∈ l -> par !! t = Some (u, j)) -> t ∈ base :: map fst l ->
  (length l <= fuel)%nat ->
  exists r, walk model fuel par t required = Ok r /\ forall j, j ∈ r <-> j ∈ path l t \/ j ∈ required.
Proof using.
  intros Ht. revert fuel t required. induction Ht as [|t' u j l Ht IH Hu Hn Hnb]; intros fuel t required Hp Hin Hf.
  - apply list_elem_of_singleton in Hin as ->. exists required.
    destruct fuel; cbn [walk]; rewrite String.eqb_refl; cbn; (split; [done|]; intros j; rewrite elem_of_nil; tauto).
  - assert (forall t u j, (t, (u, j)) ∈ l -> par !! t = Some (u, j)) as Hp' by (intros; apply Hp; by right).
    cbn [path length] in *. destruct (String.eqb_spec t t') as [->|Hne].
    + destruct fuel as [|fuel]; [lia|]. cbn [walk].
      destruct (String.eqb_spec t' base) as [->|_]; [by destruct Hn; left|]. cbn [orb].
      destruct (str_empty t'); cbn [orb]; [exists required; split; [done|]; intros; rewrite elem_of_nil; tauto|].
      rewrite (Hp t' u j) by (by left). cbv beta iota delta [default id from_option].
      destruct (str_empty j); [exists required; split; [done|]; intros; rewrite elem_of_nil; tauto|].
      destruct (IH fuel u ({[j]} ∪ required) Hp' Hu) as (r & -> & Hr); [lia|].
      exists r. split; [done|]. intros j'. rewrite Hr, elem_of_cons, elem_of_union, elem_of_singleton. tauto.
    + apply IH; [done| |lia]. apply elem_of_cons in Hin as [->|Hin]; [by left|].
      cbn [map fst] in Hin. apply elem_of_cons in Hin as [?|Hin]; [done|by right].
Qed.

Lemma require_tables_spec s l needed required unreachable :
  describes s l ->
  exists r, require_tables model s needed required unreachable =
      Ok (r, unreachable ++ List.filter (fun t => negb (String.eqb t base) && negb (bool_decide (t ∈ visited s))) needed) /\
    forall j, j ∈ r <-> j ∈ required \/ exists t, t ∈ needed /\ t <> base /\ t ∈ visited s /\ j ∈ path l t.
Proof using.
  intros Hd. revert required unreachable. induction needed as [|t needed IH]; intros required unreachable;
    cbn [require_tables List.filter].
  - exists required. rewrite List.app_nil_r. split; [done|]. intros j. split; [by left|].
    intros [?|(t & Ht & _)]; [done|by apply elem_of_nil in Ht].
  - destruct (String.eqb_spec t base) as [->|Hne]; cbn [negb andb].
    + destruct (IH required unreachable) as (r & -> & Hr). exists r. split; [done|]. intros j. rewrite Hr.
      split; (intros [?|(t & Ht & Hb & Hv & Hj)]; [by left|right; exists t]); set_solver.
    + case_decide as Hv.
      * rewrite bool_decide_eq_true_2 by done. cbn [negb].
        destruct (walk_spec (graph_fuel model) (parent s) l t required) as (r1 & -> & Hr1).
        -- apply Hd.
        -- apply Hd.
        -- by apply (desc_visited _ _ Hd).
        -- pose proof (Tree_length _ (desc_tree _ _ Hd)). unfold graph_fuel. lia.
        -- cbn [res_bind]. destruct (IH r1 unreachable) as (r & -> & Hr). exists r. split; [done|].
           intros j. rewrite Hr, Hr1. set_solver.
      * rewrite bool_decide_eq_false_2 by done. cbn [negb].
        destruct (IH required (unreachable ++ [t])) as (r & -> & Hr). exists r.
        rewrite <- List.app_assoc. split; [done|]. intros j. rewrite Hr. set_solver.
Qed.
End SearchProofs.

(** * determineJoins *)

Lemma NoDup_filter_bool {A} (f : A -> bool) l : NoDup l -> NoDup (List.filter f l).
Proof. rewrite !NoDup_ListNoDup. apply List.NoDup_filter. Qed.

Lemma discovered_NoDup l : NoDup (discovered l).
Proof.
  induction l as [|[t [u j]] l IH]; cbn [discovered]; [constructor|]. case_decide; [done|].
  apply NoDup_app. split_and!; [done|set_solver|apply NoDup_singleton].
Qed.

Section DetermineProofs.
Context (model : SemanticModel) (resolver : SchemaResolver) (lq : LogicalQuery).
Context (dimMap : gmap string Dimension) (metricMap : gmap string Metric).
#[local] Abbreviation base := (base_key model).
#[local] Abbreviation needed := (tablesReferencedInLogicalQuery dimMap metricMap resolver lq model).

(** The result, whatever the order in which the needed tables are visited. *)
Lemma determineJoins_result :
  exists l, Tree model resolver l /\ (forall t, t ∈ base :: map fst l <-> reachable model resolver t) /\
  exists names, NoDup names /\
    (exists required : gset string, names = List.filter (fun j => bool_decide (j ∈ required)) (discovered l) /\
      forall j, j ∈ required <-> exists t, t ∈ needed /\ t <> base /\ t ∈ base :: map fst l /\ j ∈ path l t) /\
    forall order : MapOrder, exists unreachable,
      determineJoins model resolver lq dimMap metricMap = Ok (names, unreachable) /\ NoDup unreachable /\
      forall t, t ∈ unreachable <-> t ∈ needed /\ ~ reachable model resolver t.
Proof using.
  assert (forall order : MapOrder, NoDup (keys (set_of needed))) as Hnd.
  { intros order. apply keys_NoDup. }
  destruct (search_spec model resolver) as (s & l & Hs & Hd & Hr).
  exists l. split; [apply Hd|]. split; [done|].
  assert (forall t, reachable model resolver t <-> t ∈ visited s) as Hv
    by (intros t; by rewrite <- Hr, (desc_visited _ _ _ _ Hd)).
  destruct (model_Joins model) as [|j0 js] eqn:Ej.
  - assert (l = []) as ->.
    { pose proof (Tree_length _ _ _ (desc_tree _ _ _ _ Hd)) as Hl. rewrite Ej in Hl. destruct l; [done|simpl in Hl; lia]. }
    exists []. split; [constructor|]. split.
    { exists ∅. split; [done|]. intros j. split; [set_solver|]. intros (t & _ & Hb & Hin & _). set_solver. }
    intros order. unfold determineJoins. rewrite Ej. eexists. split; [done|]. split; [by apply NoDup_filter_bool|].
    intros t. rewrite list_elem_of_In, List.filter_In, <- list_elem_of_In, elem_of_set_of, <- Hr.
    rewrite list_elem_of_singleton, negb_true_iff, String.eqb_neq. done.
  - set (req (order : MapOrder) := match require_tables model s (keys (set_of needed)) ∅ [] with
      | Ok (r, _) => r | Err _ => ∅ end).
    assert (forall order : MapOrder, exists unreachable,
      require_tables model s (keys (set_of needed)) ∅ [] = Ok (req order, unreachable) /\ NoDup unreachable /\
      (forall t, t ∈ unreachable <-> t ∈ needed /\ ~ reachable model resolver t) /\
      forall j, j ∈ req order <-> exists t, t ∈ needed /\ t <> base /\ t ∈ base :: map fst l /\ j ∈ path l t) as Hreq.
    { intros order. destruct (require_tables_spec model resolver s l (keys (set_of needed)) ∅ [] Hd) as (r & E & Hrr).
      unfold req. rewrite E. eexists. split; [done|]. split_and!.
      - by apply NoDup_filter_bool.
      - intros t. cbn [app]. rewrite list_elem_of_In, List.filter_In, <- list_elem_of_In, elem_of_set_of.
        rewrite andb_true_iff, !negb_true_iff, String.eqb_neq, bool_decide_eq_false, <- Hv.
        assert (reachable model resolver base) by constructor. naive_solver.
      - intros j. rewrite Hrr. split.
        + intros [?|(t & Ht%elem_of_set_of & Hb & Hin & Hj)]; [set_solver|]. exists t. by rewrite Hr, Hv.
        + intros (t & Ht & Hb & Hin & Hj). right. exists t. rewrite elem_of_set_of, <- Hv, <- Hr. done. }
    pose (r0 := req list_order). destruct (Hreq list_order) as (_ & _ & _ & _ & H0).
    exists (List.filter (fun j => bool_decide (j ∈ r0)) (discovered l)). split.
    { apply NoDup_filter_bool, discovered_NoDup. }
    split; [by exists r0|]. intros order. destruct (Hreq order) as (un & E & Hn & Hun & Hrr).
    exists un. split; [|done]. unfold determineJoins. rewrite Ej, Hs. cbn [res_bind]. rewrite E. cbn [res_bind].
    rewrite (desc_discovery _ _ _ _ Hd). do 2 f_equal. apply filter_ext_in. intros j _. apply bool_decide_ext.
    unfold r0. by rewrite Hrr, H0.
Qed.
End DetermineProofs.

Lemma determineJoins_fuel `{MapOrder} model resolver lq dimMap metricMap e :
  determineJoins model resolver lq dimMap metricMap = Err e -> no_fuel e.
Proof.
  destruct (determineJoins_result model resolver lq dimMap metricMap) as (l & _ & _ & names & _ & _ & Hdet).
  destruct (Hdet _) as (un & -> & _). done.
Qed.
Lemma validateReachableTables_fuel un lq e : validateReachableTables un lq = Err e -> no_fuel e.
Proof. unfold validateReachableTables. repeat case_match; intros [= <-]; exact I. Qed.

(** looking for the joins of a query always ends; the joins do not depend on
    the order in which Go ranges over the set of needed tables, which also leaves
    the set of unreachable tables alone; and that set is exact: the needed tables
    that no chain of the model's joins links to the base table. *)
Theorem determineJoins_order (o1 o2 : MapOrder) (lq : LogicalQuery) (model : SemanticModel)
    (resolver : SchemaResolver) (dimMap : gmap string Dimension) (metricMap : gmap string Metric) :
  exists names un1 un2,
    @determineJoins model resolver o1 lq dimMap metricMap = Ok (names, un1) /\
    @determineJoins model resolver o2 lq dimMap metricMap = Ok (names, un2) /\
    NoDup names /\ un1 ≡ₚ un2 /\
    forall t, t ∈ un1 <-> t ∈ tablesReferencedInLogicalQuery dimMap metricMap resolver lq model /\
                          ~ reachable model resolver t.
Proof.
  destruct (determineJoins_result model resolver lq dimMap metricMap) as (l & _ & _ & names & Hn & _ & H).
  destruct (H o1) as (un1 & H1 & N1 & E1), (H o2) as (un2 & H2 & N2 & E2).
  exists names, un1, un2. split_and!; try done. apply NoDup_Permutation; [done|done|].
  intros t. by rewrite E1, E2.
Qed.

(** * The joined FROM clause *)

Definition from_side (j : JoinDef) : JoinSide := mkSide (join_FromSchema j) (join_FromTable j) (join_FromColumn j).
Definition to_side (j : JoinDef) : JoinSide := mkSide (join_ToSchema j) (join_ToTable j) (join_ToColumn j).

(** Joins one after the other, [inSet] being the tables in FROM so far: each
    condition links a table that is there to one that is not, as some join of the
    model does. *)
Inductive Connected (model : SemanticModel) (resolver : SchemaResolver) (inSet : gset string)
  : list JoinStep -> gset string -> Prop :=
| Connected_nil : Connected model resolver inSet [] inSet
| Connected_cons s steps final :
    step_join s ∈ model_Joins model ->
    (step_from s = from_side (step_join s) /\ step_to s = to_side (step_join s) \/
     step_from s = to_side (step_join s) /\ step_to s = from_side (step_join s)) ->
    side_key resolver (step_from s) ∈ inSet -> side_key resolver (step_to s) ∉ inSet ->
    Connected model resolver ({[side_key resolver (step_to s)]} ∪ inSet) steps final ->
    Connected model resolver inSet (s :: steps) final.

(** Join names tell joins apart, and no name is empty. *)
Definition well_named (model : SemanticModel) (resolver : SchemaResolver) : Prop :=
  NoDup (map join_Name (model_Joins model)) /\
  Forall (fun j => join_Name j <> "" /\ from_key resolver j <> "" /\ to_key resolver j <> "") (model_Joins model).

Lemma map_by_inv {A} (name_of : A -> string) l k a :
  map_by name_of l !! k = Some a -> a ∈ l /\ name_of a = k.
Proof.
  unfold map_by. induction l as [|b l IH] using rev_ind; [done|].
  rewrite fold_left_app. cbn [fold_left]. destruct (decide (name_of b = k)) as [<-|Hk].
  - rewrite lookup_insert_eq. intros [= ->]. split; [|done]. apply elem_of_app. right. by left.
  - rewrite lookup_insert_ne by done. intros [Hin Hn]%IH. split; [|done]. apply elem_of_app. by left.
Qed.

Lemma map_by_lookup {A} (name_of : A -> string) l x :
  NoDup (map name_of l) -> x ∈ l -> map_by name_of l !! name_of x = Some x.
Proof.
  unfold map_by. induction l as [|y l IH] using rev_ind; [by intros _ ?%elem_of_nil|].
  rewrite map_app, fold_left_app. cbn [map fold_left]. intros (Hn & Hd & _)%NoDup_app Hx.
  apply elem_of_app in Hx as [Hx|Hx%list_elem_of_singleton]; [|subst; by rewrite lookup_insert_eq].
  rewrite lookup_insert_ne; [by apply IH|]. intros Heq. apply (Hd (name_of x)).
  - apply list_elem_of_fmap. by exists x.
  - rewrite <- Heq. apply list_elem_of_singleton. done.
Qed.

Lemma join_steps_snoc model resolver jm inSet names j final :
  Connected model resolver inSet (join_steps resolver jm inSet names) final ->
  join_steps resolver jm inSet (names ++ [j]) =
  join_steps resolver jm inSet names ++ join_steps resolver jm final [j].
Proof.
  revert inSet. induction names as [|n names IH]; intros inSet Hc; cbn [app].
  - inversion Hc; subst. done.
  - cbn [join_steps] in Hc |- *. destruct (jm !! n) as [jd|]; [|by apply IH].
    destruct (bool_decide (to_key resolver jd ∈ inSet) && negb (bool_decide (from_key resolver jd ∈ inSet))).
    + inversion Hc; subst. cbn [app]. f_equal. by apply IH.
    + destruct (_ && _); [by apply IH|]. inversion Hc; subst. cbn [app]. f_equal. by apply IH.
Qed.
Lemma Connected_app model resolver a b inSet mid final :
  Connected model resolver inSet a mid -> Connected model resolver mid b final ->
  Connected model resolver inSet (a ++ b) final.
Proof. induction 1 as [|? ? ? ? ? ? ? ? ? IH]; cbn [app]; [done|]. intros. constructor; auto. Qed.

Section Connect.
Context (model : SemanticModel) (resolver : SchemaResolver) (Hnames : well_named model resolver).
#[local] Abbreviation base := (base_key model).

Lemma neighbor_unique u t u' t' j :
  mkNeighbor t j ∈ neighbors model resolver u -> mkNeighbor t' j ∈ neighbors model resolver u' ->
  t = t' /\ u = u' \/ t = u' /\ u = t'.
Proof using Hnames.
  intros (jd & Hjd & Hn & Hk)%neighbor_join (jd' & Hjd' & Hn' & Hk')%neighbor_join.
  assert (jd = jd') as <-; [|naive_solver].
  destruct Hnames as [Hnd _]. pose proof (map_by_lookup join_Name _ _ Hnd Hjd) as H1.
  pose proof (map_by_lookup join_Name _ _ Hnd Hjd') as H2. rewrite Hn in H1. rewrite Hn' in H2. congruence.
Qed.
Lemma neighbor_named u t j : mkNeighbor t j ∈ neighbors model resolver u -> t <> "" /\ j <> "".
Proof using Hnames.
  intros (jd & Hjd & <- & Hk)%neighbor_join. destruct Hnames as [_ Hf]. rewrite Forall_forall in Hf.
  destruct (Hf jd Hjd) as (? & ? & ?). split; [|done]. by destruct Hk as [[_ <-]|[<- _]].
Qed.

Lemma Tree_entry l t u j :
  Tree model resolver l -> (t, (u, j)) ∈ l ->
  mkNeighbor t j ∈ neighbors model resolver u /\ u ∈ base :: map fst l.
Proof using.
  clear Hnames.
  induction 1 as [|t' u' j' l _ IH Hu _ Hnb]; [by intros ?%elem_of_nil|].
  intros [[= -> -> ->]|Hin]%elem_of_cons; cbn [map fst].
  - split; [done|]. set_solver.
  - destruct (IH Hin) as [? ?]. split; [done|]. set_solver.
Qed.
Lemma elem_of_entries (l : list entry) t : t ∈ map fst l <-> exists u j, (t, (u, j)) ∈ l.
Proof using.
  clear Hnames.
  rewrite list_elem_of_fmap. split.
  - intros ([t' [u j]] & -> & Hin). by exists u, j.
  - intros (u & j & Hin). by exists (t, (u, j)).
Qed.

Lemma Tree_fresh_join l t u j :
  Tree model resolver ((t, (u, j)) :: l) -> forall t' u', (t', (u', j)) ∉ l.
Proof using Hnames.
  inversion 1 as [|? ? ? ? Ht Hu Hn Hnb]; subst. intros t' u' Hin.
  destruct (Tree_entry _ _ _ _ Ht Hin) as [Hnb' Hu'].
  destruct (neighbor_unique _ _ _ _ _ Hnb Hnb') as [[-> _]|[-> _]]; [|done].
  apply Hn. right. apply elem_of_entries. by eexists _, _.
Qed.
Lemma elem_of_discovered l j : j ∈ discovered l <-> exists t u, (t, (u, j)) ∈ l.
Proof using.
  clear Hnames.
  induction l as [|[t' [u' j']] l IH]; cbn [discovered].
  - rewrite elem_of_nil. split; [done|]. by intros (? & ? & ?%elem_of_nil).
  - transitivity (j ∈ discovered l \/ j = j').
    { case_decide; [|set_solver]. split; [by left|]. by intros [?| ->]. }
    rewrite IH. split.
    + intros [(t & u & Hin)| ->]; [exists t, u; by right|exists t', u'; by left].
    + intros (t & u & [[= -> -> ->]|Hin]%elem_of_cons); [by right|left; eauto].
Qed.

Lemma path_head l t :
  Tree model resolver l -> t ∈ map fst l -> exists u j, (t, (u, j)) ∈ l /\ j ∈ path l t.
Proof using Hnames.
  induction 1 as [|t' u' j' l Ht IH Hu Hn Hnb]; [by intros ?%elem_of_nil|].
  cbn [map fst path]. intros Hin. destruct (neighbor_named _ _ _ Hnb) as [Ht' Hj'].
  destruct (String.eqb_spec t t') as [->|Hne].
  - exists u', j'. split; [by left|]. unfold str_empty.
    destruct (String.eqb_spec t' ""); [done|]. destruct (String.eqb_spec j' ""); [done|]. by left.
  - apply elem_of_cons in Hin as [?|Hin]; [done|]. destruct (IH Hin) as (u & j & ? & ?). exists u, j. by split; [right|].
Qed.
Lemma path_closed l t0 j :
  Tree model resolver l -> j ∈ path l t0 ->
  exists t u, (t, (u, j)) ∈ l /\ (u = base \/ exists u2 j2, (u, (u2, j2)) ∈ l /\ j2 ∈ path l t0).
Proof using Hnames.
  intros Ht. revert t0. induction Ht as [|t' u' j' l Ht IH Hu Hn Hnb]; intros t0; [by intros ?%elem_of_nil|].
  cbn [path]. destruct (neighbor_named _ _ _ Hnb) as [Ht' Hj'].
  destruct (String.eqb_spec t0 t') as [->|Hne].
  - unfold str_empty. destruct (String.eqb_spec t' ""); [done|]. destruct (String.eqb_spec j' ""); [done|]. cbn [orb].
    intros [->|Hin]%elem_of_cons.
    + exists t', u'. split; [by left|]. apply elem_of_cons in Hu as [->|Hu]; [by left|right].
      destruct (path_head l u' Ht Hu) as (u2 & j2 & ? & ?). exists u2, j2. by split; right.
    + destruct (IH u' Hin) as (t & u & ? & Hc). exists t, u. split; [by right|].
      destruct Hc as [?|(u2 & j2 & ? & ?)]; [by left|right]. exists u2, j2. by split; right.
  - intros Hin. destruct (IH t0 Hin) as (t & u & ? & Hc). exists t, u. split; [by right|].
    destruct Hc as [?|(u2 & j2 & ? & ?)]; [by left|right]. exists u2, j2. by split; [right|].
Qed.

Lemma steps_connect l (R : gset string) :
  Tree model resolver l ->
  (forall t u j, (t, (u, j)) ∈ l -> j ∈ R -> u = base \/ exists u2 j2, (u, (u2, j2)) ∈ l /\ j2 ∈ R) ->
  let names := List.filter (fun j => bool_decide (j ∈ R)) (discovered l) in
  let steps := join_steps resolver (build_joinMap model) {[base]} names in
  exists final, Connected model resolver {[base]} steps final /\ length steps = length names /\
    forall t, t ∈ final <-> t = base \/ exists u j, (t, (u, j)) ∈ l /\ j ∈ R.
Proof using Hnames.
  intros Ht. induction Ht as [|t u j l Ht IH Hu Hn Hnb]; intros Hcl; cbv zeta.
  - exists {[base]}. cbn. split_and!; [constructor|done|]. intros t. rewrite elem_of_singleton.
    split; [by left|]. intros [?|(u & j & ?%elem_of_nil & _)]; done.
  - assert (Tree model resolver ((t, (u, j)) :: l)) as Ht' by by constructor.
    pose proof (Tree_fresh_join _ _ _ _ Ht') as Hfresh.
    destruct IH as (final & Hc & Hlen & Hf).
    { intros t1 u1 j1 Hin Hj1. destruct (Hcl t1 u1 j1) as [?|(u2 & j2 & Hin2 & Hj2)]; [by right|done|by left|].
      apply elem_of_cons in Hin2 as [[= -> -> ->]|Hin2]; [|right; by exists u2, j2].
      destruct (Tree_entry _ _ _ _ Ht Hin) as [_ ?]. done. }
    cbn [discovered]. rewrite decide_False by (rewrite elem_of_discovered; intros (t1 & u1 & ?); by eapply Hfresh).
    rewrite List.filter_app. cbn [List.filter]. destruct (decide (j ∈ R)) as [HR|HR].
    + rewrite bool_decide_eq_true_2 by done. rewrite (join_steps_snoc _ _ _ _ _ _ _ Hc).
      apply neighbor_join in Hnb as Hjd. destruct Hjd as (jd & Hjd & Hname & Hk).
      assert (u ∈ final) as Huf.
      { apply Hf. destruct (Hcl t u j) as [?|(u2 & j2 & Hin2 & Hj2)]; [by left|done|by left|right].
        exists u2, j2. split; [|done]. apply elem_of_cons in Hin2 as [[= -> -> ->]|?]; done. }
      assert (t ∉ final) as Htf.
      { rewrite Hf. intros [->|(u1 & j1 & Hin1 & _)]; [by destruct Hn; left|].
        apply Hn. right. apply elem_of_entries. by eexists _, _. }
      assert (exists s, join_steps resolver (build_joinMap model) final [j] = [s] /\
        Connected model resolver final [s] ({[t]} ∪ final)) as (s & -> & Hs).
      { cbn [join_steps]. unfold build_joinMap. destruct Hnames as [Hnd _].
        rewrite <- Hname, (map_by_lookup join_Name _ _ Hnd Hjd).
        destruct Hk as [[<- <-]|[<- <-]].
        - rewrite (bool_decide_eq_true_2 (from_key resolver jd ∈ final)) by done.
          rewrite (bool_decide_eq_false_2 (to_key resolver jd ∈ final)) by done. cbn [andb].
          eexists. split; [done|]. constructor; cbn [step_join step_from step_to]; [done|by left|done|done|constructor].
        - rewrite (bool_decide_eq_false_2 (from_key resolver jd ∈ final)) by done.
          rewrite (bool_decide_eq_true_2 (to_key resolver jd ∈ final)) by done. cbn [andb negb].
          eexists. split; [done|]. constructor; cbn [step_join step_from step_to]; [done|by right|done|done|constructor]. }
      exists ({[t]} ∪ final). split_and!.
      * by eapply Connected_app.
      * rewrite !List.length_app, Hlen. done.
      * intros t1. rewrite elem_of_union, elem_of_singleton, Hf. split.
        -- intros [->|[?|(u1 & j1 & ? & ?)]]; [right; exists u, j; split; [by left|done]|by left|right; exists u1, j1; by split; [right|]].
        -- intros [?|(u1 & j1 & [[= -> -> ->]|?]%elem_of_cons & ?)]; [right; by left|by left|right; right; eauto].
    + rewrite bool_decide_eq_false_2 by done. rewrite List.app_nil_r. exists final. split_and!; [done|done|].
      intros t1. rewrite Hf. split.
      * intros [?|(u1 & j1 & ? & ?)]; [by left|right; exists u1, j1; by split; [right|]].
      * intros [?|(u1 & j1 & [[= -> -> ->]|?]%elem_of_cons & ?)]; [by left|done|right; eauto].
Qed.
End Connect.


(** Orders, customers reached from orders, and regions reached from customers. *)
Definition example_model : SemanticModel :=
  mkModel "m" "d" "sales" "public" "orders" 1
    [mkDimension "region" "regions.name" "string" "" "" NilExpr]
    [mkMetric "revenue" "orders.amount" NilExpr "sum" None [] None]
    [mkJoin "by_region" "public" "regions" "id" "public" "customers" "region_id" "left" "one_to_many";
     mkJoin "by_customer" "public" "orders" "customer_id" "public" "customers" "id" "" "many_to_one"] None None "published".
Definition example_query : LogicalQuery :=
  mkLQ "v1" "d" "m" "" [plain_item SelectTypeDimension "region"; plain_item SelectTypeMetric "revenue"]
    [] [] [] [] 0 0 [] None "" "" "" ∅.

