(* ===== verification/Composite.v ===== *)
(** Composite models ([pkg/semantic/composite.go], [internal/semantic/composite.go]):
    several semantic models merged into one the compiler can use.

    The components are the models loaded, by alias; a nil pointer in the map is an
    absent entry.  The map of names a merge has seen is a set or, where the code
    keeps the owner, a map. *)

From S2P Require Import Prelude GoStrings Semantic PhysicalRef Joins.
From stdpp Require Import options.
#[local] Open Scope Z_scope.

(** * pkg/semantic/composite.go *)

Definition ComponentRolePrimary : string := "primary".
Definition ComponentRoleSecondary : string := "secondary".
Definition ConflictResolutionUsePrimary : string := "use_primary".
Definition ConflictResolutionRename : string := "rename".
Definition ConflictResolutionMerge : string := "merge".

Record ComponentModelRef : Type := mkComponent {
  comp_ModelID : string;
  comp_Alias : string;
  comp_Role : string;
}.

Record CrossModelJoin : Type := mkCrossJoin {
  cj_Name : string;
  cj_FromModel : string;
  cj_FromDimension : string;
  cj_ToModel : string;
  cj_ToDimension : string;
  cj_JoinType : string;
  cj_Relationship : string;
  cj_IsActive : bool;
}.

Record CanonicalDateRef : Type := mkCanonicalDate {
  cd_ModelAlias : string;
  cd_DimensionName : string;
}.

Record DimensionConflictResolution : Type := mkResolution {
  cr_DimensionName : string;
  cr_Resolution : string;
  cr_SourceAlias : string;
  cr_TargetAlias : string;
}.

Record CompositeModel : Type := mkComposite {
  cm_ID : string;
  cm_DatasourceID : string;
  cm_Name : string;
  cm_Label : option string;
  cm_Description : option string;
  cm_Status : string;
  cm_Version : Z;
  Components : list ComponentModelRef;
  CrossModelJoins : list CrossModelJoin;
  CanonicalDate : option CanonicalDateRef;
  ConflictResolutions : list DimensionConflictResolution;
}.

(** * References *)

Definition is_ref_byte (c : ascii) : bool :=
  is_lower c || is_upper c || is_digit c || Ascii.eqb c "_" || Ascii.eqb c ".".
Fixpoint isSimpleColumnRef (ref : string) : bool :=
  match ref with
  | EmptyString => true
  | String c ref => is_ref_byte c && isSimpleColumnRef ref
  end.

Definition joinRef (parts : list string) : string :=
  Join (omap (fun p => let p := TrimSpace p in if str_empty p then None else Some p) parts) ".".

Definition qualifyRef (ref baseSchema baseTable : string) : string :=
  let ref := TrimSpace ref in
  if str_empty ref || negb (isSimpleColumnRef ref) then ref
  else match Split "." ref with
  | [c] => joinRef [baseSchema; baseTable; c]
  | [t; c] => joinRef [baseSchema; t; c]
  | _ => ref
  end.

Definition splitQualifiedRef (ref : string) : option (string * string * string) :=
  match Split "." (TrimSpace ref) with
  | [s; t; c] => Some (s, t, c)
  | [t; c] => Some ("", t, c)
  | _ => None
  end.

(** * The resolver *)

Section Resolve.
Context (composite : CompositeModel) (components : gmap string SemanticModel).

Definition not_loaded (alias : string) : goerr :=
  EMsg ("component " +:+ Quote alias +:+ " not loaded for composite " +:+ Quote (cm_Name composite)).

(** The loop of [findPrimary]: the alias of the primary component, if one. *)
Fixpoint primary_alias (comps : list ComponentModelRef) (primaryAlias : string) : res string :=
  match comps with
  | [] => Ok primaryAlias
  | c :: comps =>
      if String.eqb (comp_Role c) ComponentRolePrimary then
        if negb (str_empty primaryAlias) then
          Err (EMsg ("composite model " +:+ Quote (cm_Name composite) +:+ " has multiple primary components"))
        else primary_alias comps (comp_Alias c)
      else primary_alias comps primaryAlias
  end.

Definition findPrimary (first : ComponentModelRef) : res SemanticModel :=
  let? alias := primary_alias (Components composite) "" in
  let alias := if str_empty alias then comp_Alias first else alias in
  match components !! alias with
  | Some model => Ok model
  | None => Err (EMsg ("primary component " +:+ Quote alias +:+ " not loaded for composite " +:+ Quote (cm_Name composite)))
  end.

Definition indexResolutions (rs : list DimensionConflictResolution) : gmap string DimensionConflictResolution :=
  map_by cr_DimensionName rs.

(** [resolveDimensionConflict]: the name of the copy kept; the zero rule has no
    resolution. *)
Definition resolveDimensionConflict (name alias : string) (isPrimary : bool) (rule : option DimensionConflictResolution)
    : option string :=
  let rule := default (mkResolution "" "" "" "") rule in
  if str_in (cr_Resolution rule) [ConflictResolutionUsePrimary; ConflictResolutionMerge] then
    if isPrimary then Some name else None
  else if String.eqb (cr_Resolution rule) ConflictResolutionRename then
    if String.eqb (cr_SourceAlias rule) alias && negb (str_empty (cr_TargetAlias rule)) then Some (cr_TargetAlias rule)
    else Some (alias +:+ "_" +:+ name)
  else Some (alias +:+ "_" +:+ name).

Definition qualified_dimension (model : SemanticModel) (dim : Dimension) : Dimension :=
  mkDimension (dim_Name dim) (qualifyRef (dim_ColumnRef dim) (model_BaseSchema model) (model_BaseTable model))
    (dim_Type dim) (dim_TimeGrain dim) (dim_CalculatedExpression dim) (dim_CalculatedExpr dim).
Definition rename_dimension (name : string) (dim : Dimension) : Dimension :=
  mkDimension name (dim_ColumnRef dim) (dim_Type dim) (dim_TimeGrain dim) (dim_CalculatedExpression dim)
    (dim_CalculatedExpr dim).

(** The inner loop: the names seen, and the dimensions appended. *)
Fixpoint merge_component_dimensions (alias : string) (model : SemanticModel) (isPrimary : bool)
    (resolutions : gmap string DimensionConflictResolution) (dims : list Dimension) (seen : gset string)
    : list Dimension * gset string :=
  match dims with
  | [] => ([], seen)
  | dim :: dims =>
      let dim := qualified_dimension model dim in
      let kept :=
        if bool_decide (dim_Name dim ∈ seen)
        then resolveDimensionConflict (dim_Name dim) alias isPrimary (resolutions !! dim_Name dim)
        else Some (dim_Name dim) in
      match kept with
      | None => merge_component_dimensions alias model isPrimary resolutions dims seen
      | Some name =>
          let (out, seen) := merge_component_dimensions alias model isPrimary resolutions dims ({[name]} ∪ seen) in
          (rename_dimension name dim :: out, seen)
      end
  end.

Fixpoint merge_dimensions_loop (primary : SemanticModel) (resolutions : gmap string DimensionConflictResolution)
    (comps : list ComponentModelRef) (seen : gset string) : res (list Dimension) :=
  match comps with
  | [] => Ok []
  | comp :: comps =>
      match components !! comp_Alias comp with
      | None => Err (not_loaded (comp_Alias comp))
      | Some model =>
          let isPrimary := String.eqb (model_BaseTable model) (model_BaseTable primary)
                           && String.eqb (model_BaseSchema model) (model_BaseSchema primary) in
          let (dims, seen) := merge_component_dimensions (comp_Alias comp) model isPrimary resolutions
                                (model_Dimensions model) seen in
          let? rest := merge_dimensions_loop primary resolutions comps seen in
          Ok (dims ++ rest)
      end
  end.
Definition mergeDimensions (primary : SemanticModel) (resolutions : gmap string DimensionConflictResolution)
    : res (list Dimension) :=
  merge_dimensions_loop primary resolutions (Components composite) ∅.

Definition qualified_metric (model : SemanticModel) (name : string) (m : Metric) : Metric :=
  mkMetric name (qualifyRef (met_Expression m) (model_BaseSchema model) (model_BaseTable model)) (met_Expr m)
    (met_Aggregation m) (met_Label m) (met_Synonyms m) (met_Format m).

Fixpoint merge_component_metrics (alias : string) (model : SemanticModel) (metrics : list Metric) (seen : gset string)
    : list Metric * gset string :=
  match metrics with
  | [] => ([], seen)
  | m :: metrics =>
      let name := if bool_decide (met_Name m ∈ seen) then alias +:+ "_" +:+ met_Name m else met_Name m in
      let (out, seen) := merge_component_metrics alias model metrics ({[name]} ∪ seen) in
      (qualified_metric model name m :: out, seen)
  end.

Fixpoint merge_metrics_loop (comps : list ComponentModelRef) (seen : gset string) : res (list Metric) :=
  match comps with
  | [] => Ok []
  | comp :: comps =>
      match components !! comp_Alias comp with
      | None => Err (not_loaded (comp_Alias comp))
      | Some model =>
          let (metrics, seen) := merge_component_metrics (comp_Alias comp) model (model_Metrics model) seen in
          let? rest := merge_metrics_loop comps seen in
          Ok (metrics ++ rest)
      end
  end.
Definition mergeMetrics : res (list Metric) := merge_metrics_loop (Components composite) ∅.

(** * Joins *)

(** The loop of [addJoin]; one turn per name taken is enough. *)
Fixpoint fresh_name (fuel : nat) (names : gset string) (name : string) : res string :=
  if bool_decide (name ∈ names) then
    match fuel with
    | 0%nat => Err EFuel
    | S fuel => fresh_name fuel names (name +:+ "_x")
    end
  else Ok name.

Definition rename_join (name : string) (j : JoinDef) : JoinDef :=
  mkJoin name (join_FromSchema j) (join_FromTable j) (join_FromColumn j) (join_ToSchema j) (join_ToTable j)
    (join_ToColumn j) (join_JoinType j) (join_Relationship j).

(** [addJoin] on the joins appended so far, whose names are those taken. *)
Definition addJoin (out : list JoinDef) (j : JoinDef) : res (list JoinDef) :=
  let names : gset string := list_to_set (map join_Name out) in
  let? name := fresh_name (size names) names (join_Name j) in
  Ok (out ++ [rename_join name j]).

Definition or_schema (schema base : string) : string := if str_empty schema then base else schema.
Definition component_join (alias : string) (model : SemanticModel) (j : JoinDef) : JoinDef :=
  mkJoin (alias +:+ "_" +:+ join_Name j) (or_schema (join_FromSchema j) (model_BaseSchema model)) (join_FromTable j)
    (join_FromColumn j) (or_schema (join_ToSchema j) (model_BaseSchema model)) (join_ToTable j) (join_ToColumn j)
    (join_JoinType j) (join_Relationship j).

Definition dimensionEndpoint (alias dimensionName : string) : res (string * string * string) :=
  match components !! alias with
  | None => Err (EMsg ("component alias " +:+ Quote alias +:+ " not found"))
  | Some model =>
      match List.find (fun d => String.eqb (dim_Name d) dimensionName) (model_Dimensions model) with
      | None => Err (EMsg ("dimension " +:+ Quote dimensionName +:+ " not found in component " +:+ Quote alias))
      | Some dim =>
          let ref := qualifyRef (dim_ColumnRef dim) (model_BaseSchema model) (model_BaseTable model) in
          match splitQualifiedRef ref with
          | Some side => Ok side
          | None => Err (EMsg ("dimension " +:+ Quote dimensionName +:+ " has unparsable column ref " +:+ Quote ref))
          end
      end
  end.

Definition resolveCrossJoin (cj : CrossModelJoin) : res JoinDef :=
  let ctx := "composite " +:+ Quote (cm_Name composite) +:+ " cross join " +:+ Quote (cj_Name cj) in
  let? from := res_map_err (EWrap ctx) (dimensionEndpoint (cj_FromModel cj) (cj_FromDimension cj)) in
  let? to := res_map_err (EWrap ctx) (dimensionEndpoint (cj_ToModel cj) (cj_ToDimension cj)) in
  let '(fromSchema, fromTable, fromColumn) := from in
  let '(toSchema, toTable, toColumn) := to in
  Ok (mkJoin ("x_" +:+ cj_Name cj) fromSchema fromTable fromColumn toSchema toTable toColumn
        (if str_empty (cj_JoinType cj) then DefaultJoinType else cj_JoinType cj)
        (if str_empty (cj_Relationship cj) then DefaultRelationshipType else cj_Relationship cj)).

Fixpoint add_joins (out : list JoinDef) (joins : list JoinDef) : res (list JoinDef) :=
  match joins with
  | [] => Ok out
  | j :: joins => let? out := addJoin out j in add_joins out joins
  end.

(** The joins of the components that are loaded, as [addJoin] gets them. *)
Definition component_joins : list JoinDef :=
  List.concat (map (fun comp =>
    match components !! comp_Alias comp with
    | Some model => map (component_join (comp_Alias comp) model) (model_Joins model)
    | None => []
    end) (Components composite)).

Fixpoint add_cross_joins (out : list JoinDef) (joins : list CrossModelJoin) : res (list JoinDef) :=
  match joins with
  | [] => Ok out
  | cj :: joins =>
      if negb (cj_IsActive cj) then add_cross_joins out joins
      else
        let? physical := resolveCrossJoin cj in
        let? out := addJoin out physical in
        add_cross_joins out joins
  end.

Definition mergeJoins : res (list JoinDef) :=
  let? out := add_joins [] component_joins in
  add_cross_joins out (CrossModelJoins composite).

Definition Resolve : res SemanticModel :=
  match Components composite with
  | [] => Err (EMsg ("composite model " +:+ Quote (cm_Name composite) +:+ " has no components"))
  | first :: _ =>
      let? primary := findPrimary first in
      let? dims := mergeDimensions primary (indexResolutions (ConflictResolutions composite)) in
      let? metrics := mergeMetrics in
      let? joins := mergeJoins in
      Ok (mkModel (cm_ID composite) (cm_DatasourceID composite) (cm_Name composite) (model_BaseSchema primary)
            (model_BaseTable primary) (cm_Version composite) dims metrics joins (cm_Label composite) (cm_Description composite)
            (cm_Status composite))
  end.
End Resolve.

(** * References mean the same in the composite *)

(** The schema, table and column a reference means in the model of a component. *)
Definition denotes (model : SemanticModel) (ref : string) : option (string * string * string) :=
  match Split "." (TrimSpace ref) with
  | [c] => Some (model_BaseSchema model, model_BaseTable model, c)
  | [t; c] => Some (model_BaseSchema model, t, c)
  | [s; t; c] => Some (s, t, c)
  | _ => None
  end.

(** A plain identifier: not empty, without dots or white space. *)
Definition plain (s : string) : Prop := s <> "" /\ isSimpleColumnRef s = true /\ has_byte "." s = false.
Definition plain_base (model : SemanticModel) : Prop := plain (model_BaseSchema model) /\ plain (model_BaseTable model).

Lemma simple_no_space s : isSimpleColumnRef s = true -> TrimSpace s = s.
Proof.
  assert (forall c, is_ref_byte c = true -> is_space c = false) as Hc.
  { intros [[] [] [] [] [] [] [] []]; vm_compute; done. }
  unfold TrimSpace. intros Hs. assert (trim_left is_space s = s) as ->.
  { destruct s as [|c s]; [done|]. cbn [isSimpleColumnRef trim_left] in *. apply andb_true_iff in Hs as [Hb _].
    by rewrite (Hc c Hb). }
  induction s as [|c s IH]; [done|]. cbn [isSimpleColumnRef trim_right] in *. apply andb_true_iff in Hs as [Hb Hs].
  rewrite (IH Hs), (Hc c Hb). by destruct s.
Qed.
Lemma simple_app s t : isSimpleColumnRef (s +:+ t) = isSimpleColumnRef s && isSimpleColumnRef t.
Proof.
  induction s as [|c s IH]; [done|]. rewrite app_cons. cbn [isSimpleColumnRef]. by rewrite IH, andb_assoc.
Qed.
Lemma simple_Split s : isSimpleColumnRef s = true -> Forall (fun p => isSimpleColumnRef p = true) (Split "." s).
Proof.
  induction s as [|c s IH]; cbn [Split isSimpleColumnRef]; [by repeat constructor|].
  intros [Hc Hs]%andb_true_iff. specialize (IH Hs). destruct (Ascii.eqb c "."); [by constructor|].
  destruct (Split "." s) as [|p ps]; [constructor; [|done]|]; cbn [isSimpleColumnRef]; [by rewrite Hc|].
  apply Forall_cons in IH as [Hp Hps]. constructor; [|done]. cbn [isSimpleColumnRef]. by rewrite Hc, Hp.
Qed.

Lemma joinRef_plain ps : Forall plain ps -> joinRef ps = Join ps ".".
Proof.
  intros Hp. unfold joinRef. f_equal. induction Hp as [|p ps (Hn & Hs & _) _ IH]; [done|].
  cbn [omap list_omap]. rewrite (simple_no_space p Hs). apply String.eqb_neq in Hn. unfold str_empty. rewrite Hn.
  f_equal. exact IH.
Qed.

Lemma qualifyRef_parts model ref s t c :
  plain_base model -> isSimpleColumnRef (TrimSpace ref) = true -> Forall (fun p => p <> "") (Split "." (TrimSpace ref)) ->
  denotes model ref = Some (s, t, c) ->
  qualifyRef ref (model_BaseSchema model) (model_BaseTable model) = Join [s; t; c] "." /\ Forall plain [s; t; c].
Proof.
  intros [Hbs Hbt] Hs Hne Hd. unfold qualifyRef. cbv zeta. rewrite Hs, orb_false_r.
  assert (Forall plain (Split "." (TrimSpace ref))) as Hp.
  { pose proof (Split_no_sep "." (TrimSpace ref)) as Hdot. pose proof (simple_Split _ Hs) as Hsim.
    rewrite Forall_forall in *. intros p Hin. split; [by apply Hne|]. split; [by apply Hsim|by apply Hdot]. }
  assert (str_empty (TrimSpace ref) = false) as ->.
  { destruct (str_empty _) eqn:E; [|done]. apply String.eqb_eq in E. rewrite E in Hne. cbn in Hne.
    by apply Forall_cons in Hne as [? _]. }
  unfold denotes in Hd. pose proof (Join_Split "." (TrimSpace ref)) as Hj.
  destruct (Split "." (TrimSpace ref)) as [|p1 [|p2 [|p3 [|? ?]]]]; try done; injection Hd as <- <- <-.
  - assert (Forall plain [model_BaseSchema model; model_BaseTable model; p1]) as Hall by (apply Forall_cons_2; [done|by apply Forall_cons_2]).
    by rewrite joinRef_plain.
  - assert (Forall plain [model_BaseSchema model; p1; p2]) as Hall by (by apply Forall_cons_2).
    by rewrite joinRef_plain.
  - by rewrite <- Hj.
Qed.

(** The reference a composite holds names the column the component meant, whatever
    schema references without one are given, and is not changed by qualifying it
    again. *)
Lemma qualifyRef_denotes model ref s t c :
  plain_base model -> isSimpleColumnRef (TrimSpace ref) = true -> Forall (fun p => p <> "") (Split "." (TrimSpace ref)) ->
  denotes model ref = Some (s, t, c) ->
  let ref' := qualifyRef ref (model_BaseSchema model) (model_BaseTable model) in
  (forall d, ParseColumnRef ref' d = Some (mkPCR s t c)) /\ splitQualifiedRef ref' = Some (s, t, c) /\
  (forall schema table, qualifyRef ref' schema table = ref').
Proof.
  intros Hb Hs Hne Hd. cbv zeta. destruct (qualifyRef_parts model ref s t c Hb Hs Hne Hd) as [-> Hp].
  apply Forall_cons in Hp as [(? & ? & ?) Hp]. apply Forall_cons in Hp as [(? & ? & ?) Hp].
  apply Forall_cons in Hp as [(? & ? & ?) _].
  assert (isSimpleColumnRef (Join [s; t; c] ".") = true) as Hsim.
  { change (Join [s; t; c] ".") with (s +:+ "." +:+ t +:+ "." +:+ c). rewrite !simple_app.
    repeat (apply andb_true_iff; split); done. }
  assert (Split "." (Join [s; t; c] ".") = [s; t; c]) as Hsp by (apply Split_Join; [done|by repeat constructor]).
  split_and!.
  - intros d. by apply ParseColumnRef_3.
  - unfold splitQualifiedRef. by rewrite (simple_no_space _ Hsim), Hsp.
  - intros schema table. unfold qualifyRef. cbv zeta. rewrite (simple_no_space _ Hsim), Hsim, Hsp. by destruct (_ || _).
Qed.

(** * What the resolver returns *)

Lemma fresh_name_ok fuel (names : gset string) name :
  (size (filter (fun x => String.length name <= String.length x)%nat names) <= fuel)%nat ->
  exists n, fresh_name fuel names name = Ok n /\ n ∉ names.
Proof.
  revert name. induction fuel as [|fuel IH]; intros name Hf; cbn [fresh_name];
    destruct (bool_decide_reflect (name ∈ names)) as [Hin|Hin]; try by eexists.
  - exfalso. assert (name ∈ filter (fun x => String.length name <= String.length x)%nat names) as Hn.
    { apply elem_of_filter. by split. }
    apply elem_of_weaken with (Y := ∅) in Hn; [by apply not_elem_of_empty in Hn|].
    intros x Hx. apply Nat.le_0_r, size_empty_inv in Hf. by apply Hf in Hx.
  - apply IH. assert (filter (fun x => String.length (name +:+ "_x") <= String.length x)%nat names ⊂
      filter (fun x => String.length name <= String.length x)%nat names) as Hsub%subset_size; [|lia].
    apply strict_spec. rewrite GoStrings.length_app. cbn [String.length]. split.
    + intros x. rewrite !elem_of_filter. intros [? ?]. split; [lia|done].
    + intros Hs. assert (name ∈ filter (fun x => String.length name <= String.length x)%nat names) as Hn
        by (apply elem_of_filter; by split).
      apply Hs in Hn. apply elem_of_filter in Hn as [? _]. lia.
Qed.

Lemma addJoin_ok out j :
  exists n, addJoin out j = Ok (out ++ [rename_join n j]) /\ n ∉ map join_Name out.
Proof.
  unfold addJoin. cbv zeta.
  destruct (fresh_name_ok (size (list_to_set (map join_Name out) : gset string)) (list_to_set (map join_Name out))
    (join_Name j)) as (n & -> & Hn).
  { apply subseteq_size. intros x. by intros [_ ?]%elem_of_filter. }
  exists n. split; [done|]. by rewrite elem_of_list_to_set in Hn.
Qed.

(** A join renamed. *)
Definition renamed (j j' : JoinDef) : Prop := exists n, j' = rename_join n j.

(** What [addJoin] adds to joins whose names are distinct. *)
Definition extends (out added : list JoinDef) (out' : list JoinDef) : Prop :=
  (NoDup (map join_Name out) -> NoDup (map join_Name out')) /\ exists l, out' = out ++ l /\ Forall2 renamed added l.

Lemma extends_refl out : extends out [] out.
Proof. split; [done|]. exists []. by rewrite List.app_nil_r. Qed.
Lemma extends_add out j n added out' :
  n ∉ map join_Name out -> extends (out ++ [rename_join n j]) added out' -> extends out (j :: added) out'.
Proof.
  intros Hn [Hd (l & -> & Hl)]. split.
  - intros Hout. apply Hd. rewrite map_app. apply NoDup_app. split; [done|]. split; [|apply NoDup_singleton].
    intros x Hx Hx'%list_elem_of_singleton. by subst.
  - exists (rename_join n j :: l). rewrite <- List.app_assoc. split; [done|]. constructor; [by exists n|done].
Qed.

Lemma add_joins_ok joins out : exists out', add_joins out joins = Ok out' /\ extends out joins out'.
Proof.
  revert out. induction joins as [|j joins IH]; intros out; cbn [add_joins].
  { exists out. split; [done|apply extends_refl]. }
  destruct (addJoin_ok out j) as (n & -> & Hn). cbn [res_bind].
  destruct (IH (out ++ [rename_join n j])) as (out' & -> & He). exists out'. split; [done|]. by eapply extends_add.
Qed.

Section ResolveProofs.
Context (composite : CompositeModel) (components : gmap string SemanticModel).

(** The components' entries of a kind, each with its component. *)
Definition entries {A} (field : SemanticModel -> list A) (comps : list ComponentModelRef)
    : list (string * SemanticModel * A) :=
  List.concat (map (fun comp =>
    match components !! comp_Alias comp with
    | Some model => map (pair (comp_Alias comp, model)) (field model)
    | None => []
    end) comps).

(** A metric of the composite, and the component's metric it is. *)
Definition metric_copy (e : string * SemanticModel * Metric) (m : Metric) : Prop :=
  let '(alias, model, src) := e in
  exists name, m = qualified_metric model name src /\ name ∈ [met_Name src; alias +:+ "_" +:+ met_Name src].
Definition dimension_copy (e : string * SemanticModel * Dimension) (d : Dimension) : Prop :=
  let '(alias, model, src) := e in
  exists name, d = rename_dimension name (qualified_dimension model src) /\
    (name ∈ [dim_Name src; alias +:+ "_" +:+ dim_Name src] \/
     exists rule, rule ∈ ConflictResolutions composite /\ cr_DimensionName rule = dim_Name src /\
       cr_Resolution rule = ConflictResolutionRename /\ cr_SourceAlias rule = alias /\ cr_TargetAlias rule = name).

Lemma elem_of_entries_inv {A} (field : SemanticModel -> list A) comps alias model x :
  (alias, model, x) ∈ entries field comps -> components !! alias = Some model /\ x ∈ field model.
Proof using.
  unfold entries. rewrite list_elem_of_In, in_concat. intros (l & Hl%list_elem_of_In & Hx%list_elem_of_In).
  apply list_elem_of_fmap in Hl as (comp & -> & _). destruct (components !! comp_Alias comp) as [model'|] eqn:El; [|by apply elem_of_nil in Hx].
  apply list_elem_of_fmap in Hx as (y & [= -> -> ->] & Hy). done.
Qed.

Lemma merge_component_metrics_copies alias model metrics seen out seen' :
  merge_component_metrics alias model metrics seen = (out, seen') ->
  Forall2 metric_copy (map (pair (alias, model)) metrics) out.
Proof using.
  revert seen out seen'. induction metrics as [|m metrics IH]; intros seen out seen'; cbn [merge_component_metrics map].
  { intros [= <- <-]. constructor. }
  cbv zeta. destruct (merge_component_metrics _ _ _ _) as [out1 seen1] eqn:E. intros [= <- <-].
  constructor; [|by eapply IH]. eexists. split; [done|]. case_bool_decide; set_solver.
Qed.

Lemma merge_metrics_copies comps seen out :
  merge_metrics_loop composite components comps seen = Ok out -> Forall2 metric_copy (entries model_Metrics comps) out.
Proof using.
  revert seen out. induction comps as [|comp comps IH]; intros seen out; cbn [merge_metrics_loop].
  { intros [= <-]. constructor. }
  unfold entries. cbn [map List.concat]. destruct (components !! comp_Alias comp) as [model|] eqn:El; [|done].
  destruct (merge_component_metrics _ _ _ _) as [ms seen1] eqn:E. intros Hr. res_inv.
  apply Forall2_app; [by eapply merge_component_metrics_copies|by eapply IH].
Qed.

(** What a merge of dimensions appends to those whose names are [seen]. *)
Definition merged_dimensions (es : list (string * SemanticModel * Dimension)) (seen : gset string) (out : list Dimension)
    : Prop :=
  Forall (fun d => Exists (fun e => dimension_copy e d) es) out /\
  Forall (fun e => dim_Name e.2 ∈ seen \/ dim_Name e.2 ∈ map dim_Name out) es.

Lemma resolveDimensionConflict_copy name alias isPrimary name' :
  resolveDimensionConflict name alias isPrimary (indexResolutions (ConflictResolutions composite) !! name) = Some name' ->
  name' ∈ [name; alias +:+ "_" +:+ name] \/
  exists rule, rule ∈ ConflictResolutions composite /\ cr_DimensionName rule = name /\
    cr_Resolution rule = ConflictResolutionRename /\ cr_SourceAlias rule = alias /\ cr_TargetAlias rule = name'.
Proof using.
  unfold resolveDimensionConflict. destruct (indexResolutions _ !! name) as [rule|] eqn:E; cbn [default from_option id]; cbv zeta.
  2: { cbn. intros [= <-]. left. set_solver. }
  apply map_by_inv in E as [Hin Hname]. destruct (str_in _ _); [destruct isPrimary; [|done]; intros [= <-]; left; set_solver|].
  destruct (String.eqb_spec (cr_Resolution rule) ConflictResolutionRename) as [Hr|]; [|intros [= <-]; left; set_solver].
  destruct (String.eqb_spec (cr_SourceAlias rule) alias) as [Ha|]; cbn [andb]; [|intros [= <-]; left; set_solver].
  destruct (negb _); intros [= <-]; [|left; set_solver]. right. by exists rule.
Qed.

Lemma merge_component_dimensions_ok alias model isPrimary dims seen out seen' :
  merge_component_dimensions alias model isPrimary (indexResolutions (ConflictResolutions composite)) dims seen = (out, seen') ->
  merged_dimensions (map (pair (alias, model)) dims) seen out /\ seen' = list_to_set (map dim_Name out) ∪ seen.
Proof using.
  revert seen out seen'. induction dims as [|src dims IH]; intros seen out seen'; cbn [merge_component_dimensions map].
  { intros [= <- <-]. cbn. split; [|set_solver]. by split. }
  cbv zeta. change (dim_Name (qualified_dimension model src)) with (dim_Name src).
  assert (forall k, (if bool_decide (dim_Name src ∈ seen)
      then resolveDimensionConflict (dim_Name src) alias isPrimary
             (indexResolutions (ConflictResolutions composite) !! dim_Name src)
      else Some (dim_Name src)) = k ->
    match k with
    | None => dim_Name src ∈ seen
    | Some n => dimension_copy (alias, model, src) (rename_dimension n (qualified_dimension model src)) /\
        (dim_Name src ∈ seen \/ n = dim_Name src)
    end) as Hk.
  { intros k <-. case_bool_decide as Hs; [|split; [|by right]; eexists; split; [done|left; set_solver]].
    destruct (resolveDimensionConflict _ _ _ _) as [n|] eqn:E; [|done].
    apply resolveDimensionConflict_copy in E. split; [by exists n|by left]. }
  specialize (Hk _ eq_refl). destruct (if bool_decide _ then _ else _) as [n|]; [destruct Hk as [Hc Hn]|].
  - destruct (merge_component_dimensions _ _ _ _ _ _) as [out1 seen1] eqn:E. intros [= <- <-].
    apply IH in E as [[Ho He] ->]. cbn [map list_to_set]. split; [|set_solver]. split.
    + constructor; [by left|]. eapply Forall_impl; [exact Ho|]. by right.
    + cbn [map dim_Name rename_dimension]. constructor; [cbn; set_solver|]. eapply Forall_impl; [exact He|]. cbn. set_solver.
  - intros E. apply IH in E as [[Ho He] ->]. split; [|done]. split.
    + eapply Forall_impl; [exact Ho|]. by right.
    + by constructor; [left|].
Qed.

Lemma merge_dimensions_ok primary comps seen out :
  merge_dimensions_loop composite components primary (indexResolutions (ConflictResolutions composite)) comps seen = Ok out ->
  merged_dimensions (entries model_Dimensions comps) seen out.
Proof using.
  revert seen out. induction comps as [|comp comps IH]; intros seen out; cbn [merge_dimensions_loop].
  { intros [= <-]. by split. }
  unfold entries. cbn [map List.concat]. destruct (components !! comp_Alias comp) as [model|] eqn:El; [|done].
  cbv zeta. destruct (merge_component_dimensions _ _ _ _ _ _) as [ds seen1] eqn:E. intros Hr. res_inv.
  apply merge_component_dimensions_ok in E as [[Ho1 He1] ->].
  match goal with H : merge_dimensions_loop _ _ _ _ _ _ = Ok _ |- _ => apply IH in H as [Ho2 He2] end. split.
  - apply Forall_app. split; (eapply Forall_impl; [eassumption|]); intros d Hd; apply Exists_app; [by left|by right].
  - rewrite map_app. apply Forall_app. split; (eapply Forall_impl; [eassumption|]); cbn; intros e; set_solver.
Qed.

(** The cross joins that take part, and the joins of tables they stand for. *)
Definition physical_joins : list JoinDef -> Prop :=
  Forall2 (fun cj j => resolveCrossJoin composite components cj = Ok j)
    (filter (fun cj => cj_IsActive cj = true) (CrossModelJoins composite)).

Lemma add_cross_joins_ok joins out out' :
  add_cross_joins composite components out joins = Ok out' ->
  exists physical, Forall2 (fun cj j => resolveCrossJoin composite components cj = Ok j)
    (filter (fun cj => cj_IsActive cj = true) joins) physical /\ extends out physical out'.
Proof using.
  revert out. induction joins as [|cj joins IH]; intros out; cbn [add_cross_joins].
  { intros [= <-]. exists []. split; [constructor|apply extends_refl]. }
  destruct (cj_IsActive cj) eqn:Ea; cbn [negb]; rewrite filter_cons.
  - rewrite decide_True by done. destruct (resolveCrossJoin composite components cj) as [j|e] eqn:Ej; [|done]. cbn [res_bind].
    destruct (addJoin_ok out j) as (n & -> & Hn). cbn [res_bind]. intros (physical & Hp & He)%IH.
    exists (j :: physical). split; [by constructor|by eapply extends_add].
  - rewrite decide_False by congruence. apply IH.
Qed.

Lemma mergeJoins_ok out :
  mergeJoins composite components = Ok out ->
  NoDup (map join_Name out) /\
  exists physical, physical_joins physical /\ Forall2 renamed (component_joins composite components ++ physical) out.
Proof using.
  unfold mergeJoins. destruct (add_joins_ok (component_joins composite components) []) as (out1 & -> & Hd1 & l & -> & Hl).
  cbn [res_bind]. intros (physical & Hp & Hd2 & l2 & -> & Hl2)%add_cross_joins_ok.
  split; [apply Hd2, Hd1, NoDup_nil_2|]. exists physical. split; [done|]. by apply Forall2_app.
Qed.

Lemma primary_alias_ok comps alias a :
  primary_alias composite comps alias = Ok a ->
  a = alias \/ Exists (fun c => comp_Alias c = a /\ comp_Role c = ComponentRolePrimary) comps.
Proof using.
  revert alias. induction comps as [|c comps IH]; intros alias; cbn [primary_alias].
  { intros [= <-]. by left. }
  destruct (String.eqb_spec (comp_Role c) ComponentRolePrimary) as [Hr|].
  - destruct (negb _); [done|]. intros [->|He]%IH; right; [by left|by right].
  - intros [->|He]%IH; [by left|right; by right].
Qed.

Lemma findPrimary_ok first model :
  first ∈ Components composite -> findPrimary composite components first = Ok model ->
  exists comp, comp ∈ Components composite /\ components !! comp_Alias comp = Some model /\
    (comp = first \/ comp_Role comp = ComponentRolePrimary).
Proof using.
  intros Hf. unfold findPrimary. destruct (primary_alias _ _ _) as [a|e] eqn:E; [|done]. cbn [res_bind]. cbv zeta.
  apply primary_alias_ok in E. destruct (str_empty a) eqn:Ea.
  - destruct (components !! comp_Alias first) as [m|] eqn:Em; [|done]. intros [= ->].
    exists first. split_and!; [done|done|by left].
  - destruct E as [->|(c & Hc & <- & Hr)%Exists_exists]; [done|].
    destruct (components !! comp_Alias c) as [m|] eqn:Em; [|done]. intros [= ->].
    exists c. split_and!; [done..|by right].
Qed.
End ResolveProofs.

(** The composite's model, from the parts. *)
Record is_composite (composite : CompositeModel) (components : gmap string SemanticModel) (m : SemanticModel) : Prop :=
  mkIsComposite {
  (** Every component is loaded, and the base table is that of the primary one. *)
  ic_loaded : Forall (fun c => is_Some (components !! comp_Alias c)) (Components composite);
  ic_base : exists comp primary, comp ∈ Components composite /\ components !! comp_Alias comp = Some primary /\
    (head (Components composite) = Some comp \/ comp_Role comp = ComponentRolePrimary) /\
    model_BaseSchema m = model_BaseSchema primary /\ model_BaseTable m = model_BaseTable primary;
  (** The metrics are those of the components, in order, and none is dropped. *)
  ic_metrics : Forall2 metric_copy (entries components model_Metrics (Components composite)) (model_Metrics m);
  (** Every dimension is a component's, and every name of one still names one. *)
  ic_dimensions : merged_dimensions composite (entries components model_Dimensions (Components composite)) ∅ (model_Dimensions m);
  (** The joins are the components' and the active cross joins', in order, and
      their names are distinct. *)
  ic_names : NoDup (map join_Name (model_Joins m));
  ic_joins : exists physical, physical_joins composite components physical /\
    Forall2 renamed (component_joins composite components ++ physical) (model_Joins m);
}.

Section Errors.
Context (composite : CompositeModel) (components : gmap string SemanticModel).

Lemma merge_dimensions_err primary resolutions comps seen e :
  merge_dimensions_loop composite components primary resolutions comps seen = Err e -> no_fuel e.
Proof using.
  revert seen. induction comps as [|comp comps IH]; intros seen; cbn [merge_dimensions_loop]; [done|].
  destruct (components !! _) as [model|]; [|by intros [= <-]]. cbv zeta.
  destruct (merge_component_dimensions _ _ _ _ _ _) as [ds s]. destruct (merge_dimensions_loop _ _ _ _ _ s) eqn:E; [done|].
  cbn [res_bind]. intros [= <-]. by eapply IH.
Qed.
Lemma merge_metrics_err comps seen e : merge_metrics_loop composite components comps seen = Err e -> no_fuel e.
Proof using.
  revert seen. induction comps as [|comp comps IH]; intros seen; cbn [merge_metrics_loop]; [done|].
  destruct (components !! _) as [model|]; [|by intros [= <-]].
  destruct (merge_component_metrics _ _ _ _) as [ms s]. destruct (merge_metrics_loop _ _ _ s) eqn:E; [done|].
  cbn [res_bind]. intros [= <-]. by eapply IH.
Qed.
Lemma merge_metrics_loaded comps seen out :
  merge_metrics_loop composite components comps seen = Ok out ->
  Forall (fun c => is_Some (components !! comp_Alias c)) comps.
Proof using.
  revert seen out. induction comps as [|comp comps IH]; intros seen out; cbn [merge_metrics_loop]; [constructor|].
  destruct (components !! _) as [model|] eqn:El; [|done]. destruct (merge_component_metrics _ _ _ _) as [ms s]. intros Hr.
  res_inv. constructor; [by rewrite El|by eapply IH].
Qed.

Lemma dimensionEndpoint_err alias name e : dimensionEndpoint components alias name = Err e -> no_fuel e.
Proof using. unfold dimensionEndpoint. split_cases; congruence || by intros [= <-]. Qed.
Lemma resolveCrossJoin_err cj e : resolveCrossJoin composite components cj = Err e -> no_fuel e.
Proof using.
  unfold resolveCrossJoin. cbv zeta.
  destruct (dimensionEndpoint _ _ (cj_FromDimension cj)) eqn:E1; cbn [res_map_err res_bind].
  2: { intros [= <-]. cbn [no_fuel]. by eapply dimensionEndpoint_err. }
  destruct (dimensionEndpoint _ _ (cj_ToDimension cj)) eqn:E2; cbn [res_map_err res_bind].
  2: { intros [= <-]. cbn [no_fuel]. by eapply dimensionEndpoint_err. }
  split_cases; done.
Qed.
Lemma add_cross_joins_err joins out e : add_cross_joins composite components out joins = Err e -> no_fuel e.
Proof using.
  revert out. induction joins as [|cj joins IH]; intros out; cbn [add_cross_joins]; [done|].
  destruct (negb _); [apply IH|]. destruct (resolveCrossJoin _ _ cj) as [j|e'] eqn:Ej; cbn [res_bind].
  2: { intros [= <-]. by eapply resolveCrossJoin_err. }
  destruct (addJoin_ok out j) as (n & -> & _). apply IH.
Qed.
Lemma primary_alias_err comps alias e : primary_alias composite comps alias = Err e -> no_fuel e.
Proof using.
  revert alias. induction comps as [|c comps IH]; intros alias; cbn [primary_alias]; [done|].
  destruct (String.eqb _ _); [destruct (negb _); [by intros [= <-]|]|]; apply IH.
Qed.
Lemma findPrimary_err first e : findPrimary composite components first = Err e -> no_fuel e.
Proof using.
  unfold findPrimary. destruct (primary_alias _ _ _) as [a|e'] eqn:E; cbn [res_bind].
  2: { intros [= <-]. by eapply primary_alias_err. }
  cbv zeta. destruct (components !! _); [done|]. by intros [= <-].
Qed.
End Errors.

Lemma Resolve_spec (composite : CompositeModel) (components : gmap string SemanticModel) :
  match Resolve composite components with
  | Ok m => is_composite composite components m
  | Err e => no_fuel e
  end.
Proof.
  unfold Resolve. destruct (Components composite) as [|first rest] eqn:Ec; [done|].
  destruct (findPrimary _ _ _) as [primary|e] eqn:Ep; cbn [res_bind]; [|by eapply findPrimary_err].
  unfold mergeDimensions, mergeMetrics. rewrite Ec.
  destruct (merge_dimensions_loop _ _ _ _ _ _) as [ds|e] eqn:Ed; cbn [res_bind]; [|by eapply merge_dimensions_err].
  destruct (merge_metrics_loop _ _ _ _) as [ms|e] eqn:Em; cbn [res_bind]; [|by eapply merge_metrics_err].
  destruct (mergeJoins _ _) as [js|e] eqn:Ej; cbn [res_bind].
  2: { revert Ej. unfold mergeJoins. destruct (add_joins_ok (component_joins composite components) []) as (? & -> & _).
       apply add_cross_joins_err. }
  apply mergeJoins_ok in Ej as [Hn Hj]. rewrite <- Ec in Ed, Em.
  apply (findPrimary_ok composite components) in Ep as (comp & Hc & Hl & Hp); [|rewrite Ec; by left].
  constructor; cbn; [by eapply merge_metrics_loaded| |by eapply merge_metrics_copies|by eapply merge_dimensions_ok|done|done].
  exists comp, primary. split_and!; try done. rewrite Ec. destruct Hp as [->|]; [by left|by right].
Qed.

(** [Resolve] returns — the search for a free join name comes to an end — and
    when it accepts, the model is the composite of its components: no metric is
    lost and each keeps its meaning but for its name and the qualification of its
    reference, every dimension name of a component still names a dimension, nothing
    is invented, joins keep their order and have distinct names. *)
Theorem Resolve_composite (composite : CompositeModel) (components : gmap string SemanticModel) :
  match Resolve composite components with
  | Ok m => is_composite composite components m
  | Err e => no_fuel e
  end.
Proof. apply Resolve_spec. Qed.

(** A column reference as it is meant to be: one to three identifiers. *)
Definition well_formed_ref (ref : string) : Prop :=
  isSimpleColumnRef (TrimSpace ref) = true /\ Forall (fun p => p <> "") (Split "." (TrimSpace ref)).

(** The column a cross join's end is on. *)
Definition endpoint (components : gmap string SemanticModel) (alias name : string) (col : string * string * string) : Prop :=
  exists model dim, components !! alias = Some model /\ dim ∈ model_Dimensions model /\ dim_Name dim = name /\
    (well_formed_ref (dim_ColumnRef dim) -> denotes model (dim_ColumnRef dim) = Some col).

Definition from_column (j : JoinDef) : string * string * string := (join_FromSchema j, join_FromTable j, join_FromColumn j).
Definition to_column (j : JoinDef) : string * string * string := (join_ToSchema j, join_ToTable j, join_ToColumn j).

Lemma split_denotes model ref s t c :
  plain_base model -> well_formed_ref ref ->
  splitQualifiedRef (qualifyRef ref (model_BaseSchema model) (model_BaseTable model)) = Some (s, t, c) ->
  denotes model ref = Some (s, t, c).
Proof.
  intros Hb [Hs Hne] Hq. destruct (denotes model ref) as [[[s' t'] c']|] eqn:Ed.
  - destruct (qualifyRef_denotes model ref s' t' c' Hb Hs Hne Ed) as (_ & Hq' & _). by rewrite Hq in Hq'.
  - exfalso. revert Hq Ed. unfold qualifyRef, denotes. cbv zeta. rewrite Hs, orb_false_r. unfold splitQualifiedRef.
    destruct (str_empty _) eqn:Ee.
    + apply String.eqb_eq in Ee. rewrite Ee. done.
    + destruct (Split "." (TrimSpace ref)) as [|p1 [|p2 [|p3 [|p4 ps]]]] eqn:Esp; try done.
      all: rewrite (simple_no_space _ Hs), Esp; done.
Qed.

Lemma dimensionEndpoint_ok components alias name col :
  (forall alias model, components !! alias = Some model -> plain_base model) ->
  dimensionEndpoint components alias name = Ok col -> endpoint components alias name col.
Proof.
  intros Hb. unfold dimensionEndpoint. destruct (components !! alias) as [model|] eqn:El; [|done].
  destruct (List.find _ _) as [dim|] eqn:Ef; [|done]. cbv zeta. destruct (splitQualifiedRef _) as [[[s t] c]|] eqn:Es; [|done].
  intros [= <-]. apply find_some in Ef as [Hin%list_elem_of_In Hn%String.eqb_eq]. exists model, dim.
  split_and!; try done. intros Hw. by apply split_denotes; [eapply Hb| |].
Qed.

Lemma resolveCrossJoin_ok composite components cj j :
  (forall alias model, components !! alias = Some model -> plain_base model) ->
  resolveCrossJoin composite components cj = Ok j ->
  endpoint components (cj_FromModel cj) (cj_FromDimension cj) (from_column j) /\
  endpoint components (cj_ToModel cj) (cj_ToDimension cj) (to_column j).
Proof.
  intros Hb. unfold resolveCrossJoin. cbv zeta.
  destruct (dimensionEndpoint _ _ (cj_FromDimension cj)) as [[[s t] c]|] eqn:E1; cbn [res_map_err res_bind]; [|done].
  destruct (dimensionEndpoint _ _ (cj_ToDimension cj)) as [[[s' t'] c']|] eqn:E2; cbn [res_map_err res_bind]; [|done].
  intros [= <-]. by split; apply dimensionEndpoint_ok.
Qed.

(** C39: the dimensions and cross joins of a composite stay on their columns.  Let the base
    schema and the base table of every component be plain identifiers (an empty schema,
    which is accepted too, is not one).  Whatever schema the compiler assumes for references
    without one, a dimension of the composite is then on the column of the dimension of a
    component it is a copy of, if the reference of that one is one to three identifiers
    joined by dots; and an active cross join joins the columns of the two dimensions it
    names, if their references are.  (Nothing is said of the expressions of metrics and of
    calculated dimensions.) *)
Theorem composite_columns (composite : CompositeModel) (components : gmap string SemanticModel) (m : SemanticModel)
    (Hbases : forall alias model, components !! alias = Some model -> plain_base model)
    (Hm : Resolve composite components = Ok m) :
  Forall (fun d => exists alias model src,
    components !! alias = Some model /\ src ∈ model_Dimensions model /\ dimension_copy composite (alias, model, src) d /\
    forall s t c, well_formed_ref (dim_ColumnRef src) -> denotes model (dim_ColumnRef src) = Some (s, t, c) ->
      forall schema, ParseColumnRef (dim_ColumnRef d) schema = Some (mkPCR s t c)) (model_Dimensions m) /\
  Forall (fun cj => cj_IsActive cj = true ->
    exists j, j ∈ model_Joins m /\
      endpoint components (cj_FromModel cj) (cj_FromDimension cj) (from_column j) /\
      endpoint components (cj_ToModel cj) (cj_ToDimension cj) (to_column j)) (CrossModelJoins composite).
Proof.
  pose proof (Resolve_spec composite components) as Hs. rewrite Hm in Hs. destruct Hs as [_ _ _ [Hd _] _ (physical & Hp & Hj)].
  split.
  - eapply Forall_impl; [exact Hd|]. intros d ([[alias model] src] & Hin & Hc)%Exists_exists.
    apply elem_of_entries_inv in Hin as [Hl Hsrc]. exists alias, model, src. split_and!; try done.
    intros s t c [Hs Hne] Hden schema. destruct Hc as (name & -> & _). cbn.
    by apply (qualifyRef_denotes model (dim_ColumnRef src)); [eapply Hbases|..].
  - apply Forall_forall. intros cj Hcj Ha.
    assert (cj ∈ filter (fun cj => cj_IsActive cj = true) (CrossModelJoins composite)) as Hf by (by apply list_elem_of_filter).
    apply list_elem_of_lookup in Hf as [i Hi]. destruct (Forall2_lookup_l _ _ _ _ _ Hp Hi) as (p & Hpi & Hr).
    apply Forall2_app_inv_l in Hj as (js1 & js2 & _ & Hj & ->). destruct (Forall2_lookup_l _ _ _ _ _ Hj Hpi) as (j & Hji & n & ->).
    exists (rename_join n p). split; [apply elem_of_app; right; by eapply list_elem_of_lookup_2|].
    exact (resolveCrossJoin_ok _ _ _ _ Hbases Hr).
Qed.

(** * Two models together *)

Module Demo.
Definition dim (name ref : string) : Dimension := mkDimension name ref "string" "" "" NilExpr.
Definition met (name expression : string) : Metric := mkMetric name expression NilExpr "sum" None [] None.
Definition sales : SemanticModel :=
  mkModel "m1" "ds" "Sales" "dbo" "orders" 1
    [dim "customer_id" "customer_id"; dim "region" "stores.region"] [met "amount" "amount"; met "double" "[amount] * 2"]
    [mkJoin "store" "" "orders" "store_id" "" "stores" "id" "LEFT" "many_to_one"] None None "published".
Definition crm : SemanticModel :=
  mkModel "m2" "ds" "CRM" "crm" "customers" 1
    [dim "id" "id"; dim "region" "region"] [met "amount" "budget"; met "share" "[amount] / 100"] [] None None "published".
Definition components : gmap string SemanticModel := {["s" := sales; "c" := crm]}.
Definition pair_of (first second : ComponentModelRef) (rules : list DimensionConflictResolution) : CompositeModel :=
  mkComposite "x" "ds" "Both" None None "draft" 1 [first; second] [mkCrossJoin "customer" "s" "customer_id" "c" "id" "" "" true] None rules.
Definition s_comp (role : string) : ComponentModelRef := mkComponent "m1" "s" role.
Definition c_comp (role : string) : ComponentModelRef := mkComponent "m2" "c" role.
Definition both : CompositeModel := pair_of (s_comp "primary") (c_comp "secondary") [].

Definition columns (r : res SemanticModel) : list (string * string) :=
  match r with Ok m => map (fun d => (dim_Name d, dim_ColumnRef d)) (model_Dimensions m) | Err _ => [] end.
Definition metrics (r : res SemanticModel) : list (string * string) :=
  match r with Ok m => map (fun d => (met_Name d, met_Expression d)) (model_Metrics m) | Err _ => [] end.
Definition joins (r : res SemanticModel) : list JoinDef := match r with Ok m => model_Joins m | Err _ => [] end.

Example merged_columns :
  columns (Resolve both components) =
  [("customer_id", "dbo.orders.customer_id"); ("region", "dbo.stores.region"); ("id", "crm.customers.id");
   ("c_region", "crm.customers.region")].
Proof. vm_compute. reflexivity. Qed.

Example merged_joins :
  joins (Resolve both components) =
  [mkJoin "s_store" "dbo" "orders" "store_id" "dbo" "stores" "id" "LEFT" "many_to_one";
   mkJoin "x_customer" "dbo" "orders" "customer_id" "crm" "customers" "id" DefaultJoinType DefaultRelationshipType].
Proof. vm_compute. reflexivity. Qed.

(** The copy of the primary model is kept; when that model is listed second, the
    other copy is kept too, under the same name. *)
Definition use_primary : list DimensionConflictResolution := [mkResolution "region" "use_primary" "" ""].
Example primary_first :
  columns (Resolve (pair_of (s_comp "primary") (c_comp "secondary") use_primary) components) =
  [("customer_id", "dbo.orders.customer_id"); ("region", "dbo.stores.region"); ("id", "crm.customers.id")].
Proof. vm_compute. reflexivity. Qed.
Example primary_second_keeps_both :
  columns (Resolve (pair_of (c_comp "secondary") (s_comp "primary") use_primary) components) =
  [("id", "crm.customers.id"); ("region", "crm.customers.region"); ("customer_id", "dbo.orders.customer_id");
   ("region", "dbo.stores.region")].
Proof. vm_compute. reflexivity. Qed.

(** A metric renamed for its name keeps the references of the others to the old
    name: [share] of the second model was of its own [amount], and is now of the
    first model's. *)
Example renamed_metrics_keep_references :
  metrics (Resolve both components) =
  [("amount", "dbo.orders.amount"); ("double", "[amount] * 2"); ("c_amount", "crm.customers.budget");
   ("share", "[amount] / 100")].
Proof. vm_compute. reflexivity. Qed.

(** The name given to a duplicate is not looked up again. *)
Example prefixed_names_clash :
  metrics (Resolve (pair_of (s_comp "primary") (c_comp "secondary") [])
    {["s" := mkModel "m1" "ds" "Sales" "dbo" "orders" 1 [dim "customer_id" "customer_id"]
               [met "c_amount" "a"; met "amount" "b"] [] None None "published";
      "c" := crm]}) =
  [("c_amount", "dbo.orders.a"); ("amount", "dbo.orders.b"); ("c_amount", "crm.customers.budget");
   ("share", "[amount] / 100")].
Proof. vm_compute. reflexivity. Qed.

Lemma components_plain : forall alias model, components !! alias = Some model -> plain_base model.
Proof.
  intros alias model. unfold components. destruct (decide (alias = "s")) as [->|Hs].
  { rewrite lookup_insert_eq. intros [= <-]. repeat split; vm_compute; congruence. }
  rewrite lookup_insert_ne by congruence. intros [<- <-]%lookup_singleton_Some. repeat split; vm_compute; congruence.
Qed.
End Demo.

Lemma composite_columns_witness :
  exists m, Resolve Demo.both Demo.components = Ok m /\
  Forall (fun cj => cj_IsActive cj = true ->
    exists j, j ∈ model_Joins m /\
      endpoint Demo.components (cj_FromModel cj) (cj_FromDimension cj) (from_column j) /\
      endpoint Demo.components (cj_ToModel cj) (cj_ToDimension cj) (to_column j)) (CrossModelJoins Demo.both).
Proof.
  destruct (Resolve Demo.both Demo.components) as [m|e] eqn:E; [|vm_compute in E; discriminate E].
  exists m. split; [reflexivity|]. exact (proj2 (composite_columns Demo.both Demo.components m Demo.components_plain E)).
Defined.
