(* ===== verification/Cycles.v ===== *)
(** Cycles of references: the dependency graph of the metrics of a composite
    ([internal/semantic/metric_graph.go]) and the search for circular calculated
    expressions ([findCalcExprCycles] of [publish.go]).

    Both searches are depth first, with three colours.  The colour of a name is its
    entry of a map (white when there is none), the names being visited are a stack.
    The recursion has one unit of fuel per name that has successors, and one more:
    each nested visit colours another of them. *)

From S2P Require Import Prelude GoStrings Semantic ReadOnly Joins Composite.
From stdpp Require Import options.
#[local] Open Scope Z_scope.

Inductive color : Type := Gray | Black.
#[export] Instance color_eq_dec : EqDecision color.
Proof. solve_decision. Defined.

(** * Graphs by adjacency *)

Abbreviation adjacency := (gmap string (list string)).
Definition successors (adj : adjacency) (name : string) : list string := default [] (adj !! name).
Definition edge (adj : adjacency) (x y : string) : Prop := y ∈ successors adj x.
(** No chain of edges from the name goes on for ever. *)
Definition grounded_in (adj : adjacency) (x : string) : Prop := Acc (flip (edge adj)) x.

(** [path l x]: consecutive names of [l] are joined by edges, and [x] is the last. *)
Inductive path (adj : adjacency) : list string -> string -> Prop :=
| path_one x : path adj [x] x
| path_snoc l x y : path adj l x -> edge adj x y -> path adj (l ++ [y]) y.

Lemma path_reaches adj l x y : path adj l x -> y ∈ l -> rtc (edge adj) y x.
Proof.
  induction 1 as [z|l z w Hp IH He]; intros Hy.
  - apply list_elem_of_singleton in Hy as ->. constructor.
  - apply elem_of_app in Hy as [Hy|Hy%list_elem_of_singleton]; [|subst; constructor].
    eapply rtc_r; [by apply IH|done].
Qed.
Lemma path_from_head adj l x y : path adj l x -> head l = Some y -> rtc (edge adj) y x.
Proof. intros Hp Hh. eapply path_reaches; [done|]. destruct l; [done|]. injection Hh as ->. by left. Qed.

(** A path that returns to one of its names closes a cycle. *)
Definition closes (adj : adjacency) (l : list string) (next : string) : Prop :=
  next ∈ l /\ exists x, path adj l x /\ edge adj x next.

Lemma closes_cycle adj l next : closes adj l next -> tc (edge adj) next next.
Proof. intros (Hin & x & Hp & He). eapply tc_rtc_l; [by eapply path_reaches|by constructor]. Qed.

Lemma grounded_acyclic adj x : grounded_in adj x -> forall y, rtc (edge adj) x y -> ~ tc (edge adj) y y.
Proof.
  intros Hg y Hxy. assert (grounded_in adj y) as Hy.
  { induction Hxy as [|x z y He _ IH]; [done|]. apply IH. by apply Hg. }
  clear x Hg Hxy. assert (Acc (flip (tc (edge adj))) y) as Ht.
  { induction Hy as [y _ IH]. constructor. intros z Hz. destruct Hz as [y z Hz|y w z Hw Hz]; [by apply IH|].
    destruct (IH w Hw) as [Hw']. by apply Hw'. }
  clear Hy. induction Ht as [y _ IH]. intros Hc. by apply (IH y Hc).
Qed.

(** * metric_graph.go *)

Definition isTokenByte (c : ascii) : bool := is_lower c || is_upper c || is_digit c || Ascii.eqb c "_".

(** The tokens of [expr], the bytes [expr[start:i]] being [cur]. *)
Fixpoint tokens_from (cur : option string) (expr : string) : list string :=
  match expr with
  | EmptyString => match cur with Some t => [t] | None => [] end
  | String c expr =>
      if isTokenByte c then tokens_from (Some (default "" cur +:+ String c "")) expr
      else match cur with Some t => t :: tokens_from None expr | None => tokens_from None expr end
  end.

Definition flush (metricNames : gmap string string) (self : string) (out : list string) (token : string) : list string :=
  match metricNames !! ToLower token with
  | Some name => if String.eqb name self || str_in name out then out else out ++ [name]
  | None => out
  end.
Definition referencedMetricNames (expr : string) (metricNames : gmap string string) (self : string) : list string :=
  fold_left (flush metricNames self) (tokens_from None expr) [].

Definition MetricEdgeDerivesFrom : string := "derives_from".
Record MetricNode : Type := mkNode {
  node_Name : string;
  SourceModelAlias : string;
  DependsOn : list string;
}.
Record MetricEdge : Type := mkEdge {
  edge_From : string;
  edge_To : string;
  edge_Type : string;
}.
Record MetricDependencyGraph : Type := mkGraph {
  Nodes : gmap string MetricNode;
  Edges : list MetricEdge;
}.

Definition tableOfRef (ref : string) : string :=
  if negb (isSimpleColumnRef ref) then ""
  else match Split "." (TrimSpace ref) with
  | [_; t; _] => t
  | [t; _] => t
  | _ => ""
  end.

Definition componentAliasByTable (composite : CompositeModel) : gmap string string :=
  fold_left (fun out c => <[comp_Alias c := comp_Alias c]> out) (Components composite) ∅.

Definition lower_names (metrics : list Metric) : gmap string string :=
  fold_left (fun names m => <[ToLower (met_Name m) := met_Name m]> names) metrics ∅.

Definition graph_metric (ownerByTable metricNames : gmap string string) (graph : MetricDependencyGraph) (m : Metric)
    : MetricDependencyGraph :=
  let deps := referencedMetricNames (met_Expression m) metricNames (met_Name m) in
  mkGraph (<[met_Name m := mkNode (met_Name m) (default "" (ownerByTable !! tableOfRef (met_Expression m))) deps]> (Nodes graph))
    (Edges graph ++ map (fun d => mkEdge (met_Name m) d MetricEdgeDerivesFrom) deps).

Definition BuildMetricGraph (composite : CompositeModel) (resolved : SemanticModel) : MetricDependencyGraph :=
  fold_left (graph_metric (componentAliasByTable composite) (lower_names (model_Metrics resolved)))
    (model_Metrics resolved) (mkGraph ∅ []).

(** [adj[from] = append(adj[from], to)] *)
Definition push (adj : adjacency) (from to : string) : adjacency := <[from := successors adj from ++ [to]]> adj.
Definition derives_adj (edges : list MetricEdge) : adjacency :=
  fold_left (fun adj e => if String.eqb (edge_Type e) MetricEdgeDerivesFrom then push adj (edge_From e) (edge_To e) else adj)
    edges ∅.

Section Detect.
Context (adj : adjacency).

(** The loop of [visit] over the successors of the top of the stack. *)
Fixpoint visit_nexts (rec : gmap string color -> string -> res (gmap string color)) (stack nexts : list string)
    (cols : gmap string color) : res (gmap string color) :=
  match nexts with
  | [] => Ok cols
  | next :: nexts =>
      match cols !! next with
      | Some Gray => Err (EMsg ("circular metric dependency: " +:+ Join stack " -> " +:+ " -> " +:+ next))
      | Some Black => visit_nexts rec stack nexts cols
      | None => let? cols := rec cols next in visit_nexts rec stack nexts cols
      end
  end.

(** [visit]: the colours after a visit that finds no cycle, or the first cycle. *)
Fixpoint visit (fuel : nat) (stack : list string) (cols : gmap string color) (name : string) : res (gmap string color) :=
  match fuel with
  | 0%nat => Err EFuel
  | S fuel =>
      let stack := stack ++ [name] in
      let? cols := visit_nexts (visit fuel stack) stack (successors adj name) (<[name := Gray]> cols) in
      Ok (<[name := Black]> cols)
  end.

Fixpoint visit_roots (roots : list string) (cols : gmap string color) : res unit :=
  match roots with
  | [] => Ok tt
  | name :: roots =>
      match cols !! name with
      | None => let? cols := visit (S (size adj)) [] cols name in visit_roots roots cols
      | Some _ => visit_roots roots cols
      end
  end.
End Detect.

Definition DetectCircularDependencies `{MapOrder} (graph : MetricDependencyGraph) : res unit :=
  visit_roots (derives_adj (Edges graph)) (keys (Nodes graph)) ∅.

(** * publish.go: [findCalcExprCycles] *)

(** [strings.SplitN(s, sep, 2)] has two parts when there is a separator. *)
Definition cleanNodeName (s : string) : string :=
  match Cut ":" s with Some (_, after) => after | None => s end.

Fixpoint from_first (x : string) (l : list string) : option (list string) :=
  match l with
  | [] => None
  | y :: l' => if String.eqb y x then Some l else from_first x l'
  end.
Definition formatCalcExprCycle (path : list string) (repeat : string) : string :=
  match from_first repeat path with
  | None => ""
  | Some cycle => "circular dependency detected: " +:+ Join (map cleanNodeName cycle ++ [cleanNodeName repeat]) " -> "
  end.

Section FindCycles.
Context (adj : adjacency).

Fixpoint dfs_nexts (rec : gmap string color -> list string -> string -> res (gmap string color * list string))
    (path vs : list string) (visited : gmap string color) (errs : list string) : res (gmap string color * list string) :=
  match vs with
  | [] => Ok (visited, errs)
  | v :: vs =>
      match visited !! v with
      | Some Gray =>
          let cycle := formatCalcExprCycle path v in
          dfs_nexts rec path vs visited (if str_empty cycle then errs else errs ++ [cycle])
      | Some Black => dfs_nexts rec path vs visited errs
      | None => let? (visited, errs) := rec visited errs v in dfs_nexts rec path vs visited errs
      end
  end.

(** [dfs], which goes on after a cycle: the names visited and the cycles found. *)
Fixpoint dfs (fuel : nat) (path : list string) (visited : gmap string color) (errs : list string) (u : string)
    : res (gmap string color * list string) :=
  match fuel with
  | 0%nat => Err EFuel
  | S fuel =>
      let path := path ++ [u] in
      let? (visited, errs) := dfs_nexts (dfs fuel path) path (successors adj u) (<[u := Gray]> visited) errs in
      Ok (<[u := Black]> visited, errs)
  end.

Fixpoint dfs_roots (roots : list string) (visited : gmap string color) (errs : list string) : res (list string) :=
  match roots with
  | [] => Ok errs
  | k :: roots =>
      match visited !! k with
      | None =>
          let? (visited, errs) := dfs (S (size adj)) [] visited errs k in
          dfs_roots roots visited errs
      | Some _ => dfs_roots roots visited errs
      end
  end.
End FindCycles.

Definition findCalcExprCycles `{MapOrder} (adj : adjacency) : res (list string) := dfs_roots adj (keys adj) ∅ [].

(** * What the searches find *)

Section Searches.
Context (adj : adjacency).

(** The colours while [stack] is being visited: its names are the gray ones, and, as
    long as no cycle was found ([quiet]), the black ones are grounded. *)
Definition coloured (quiet : Prop) (stack : list string) (cols : gmap string color) : Prop :=
  (forall x, cols !! x = Some Gray <-> x ∈ stack) /\ (quiet -> forall x, cols !! x = Some Black -> grounded_in adj x).

Definition darker (cols cols' : gmap string color) : Prop := forall x, cols !! x = Some Black -> cols' !! x = Some Black.

(** The names with successors that are still white. *)
Definition room (cols : gmap string color) : gset string := filter (fun x => cols !! x = None) (dom adj).

#[local] Instance darker_preorder : PreOrder darker.
Proof using. split; [by intros ? ?|intros ? ? ? H1 H2 ? ?; by apply H2, H1]. Qed.

Lemma coloured_weaken (q q' : Prop) stack cols : (q' -> q) -> coloured q stack cols -> coloured q' stack cols.
Proof using. intros Hq [Hg Hb]. split; [done|]. intros H'. by apply Hb, Hq. Qed.

Lemma room_shrinks q q' stack cols cols' :
  coloured q stack cols -> coloured q' stack cols' -> darker cols cols' -> room cols' ⊆ room cols.
Proof using.
  intros [Hg _] [Hg' _] Hd x. unfold room. rewrite !elem_of_filter. intros [Hn Hx]. split; [|done].
  destruct (cols !! x) as [[]|] eqn:E; [|apply Hd in E; congruence|done].
  apply Hg, Hg' in E. congruence.
Qed.

Lemma coloured_enter q stack cols name :
  coloured q stack cols -> cols !! name = None -> coloured q (stack ++ [name]) (<[name := Gray]> cols).
Proof using.
  intros [Hg Hb] Hn. split.
  - intros x. rewrite elem_of_app, list_elem_of_singleton. destruct (decide (x = name)) as [->|Hx].
    + rewrite lookup_insert_eq. tauto.
    + rewrite lookup_insert_ne by done. rewrite Hg. tauto.
  - intros Hq x. destruct (decide (x = name)) as [->|Hx]; [by rewrite lookup_insert_eq|].
    rewrite lookup_insert_ne by done. by apply Hb.
Qed.
Lemma darker_enter cols name : cols !! name = None -> darker cols (<[name := Gray]> cols).
Proof using.
  intros Hn x Hx. destruct (decide (x = name)) as [->|?]; [congruence|]. by rewrite lookup_insert_ne.
Qed.
Lemma room_enter cols name :
  name ∈ dom adj -> cols !! name = None -> (size (room (<[name := Gray]> cols)) < size (room cols))%nat.
Proof using.
  intros Hd Hn. apply subset_size, strict_spec. unfold room. split.
  - intros x. rewrite !elem_of_filter. intros [Hx ?]. split; [|done]. destruct (decide (x = name)) as [->|?]; [done|].
    by rewrite lookup_insert_ne in Hx.
  - intros Hs. assert (name ∈ filter (fun x => cols !! x = None) (dom adj)) as Hin by (by apply elem_of_filter).
    apply Hs, elem_of_filter in Hin as [Hg _]. by rewrite lookup_insert_eq in Hg.
Qed.
Lemma room_size cols : (size (room cols) < S (size adj))%nat.
Proof using.
  pose proof (size_dom (M:=gmap string) (D:=gset string) adj).
  pose proof (subseteq_size (room cols) (dom adj) ltac:(intros x; by intros [_ ?]%elem_of_filter)).
  lia.
Qed.
Lemma no_successors name : name ∉ dom adj -> successors adj name = [].
Proof using. intros Hn. unfold successors. by rewrite (not_elem_of_dom_1 _ _ Hn). Qed.

Lemma coloured_leave q stack cols cols' name :
  coloured q stack cols -> cols !! name = None -> coloured q (stack ++ [name]) cols' ->
  (q -> Forall (fun x => cols' !! x = Some Black) (successors adj name)) ->
  coloured q stack (<[name := Black]> cols').
Proof using.
  intros [Hg _] Hn [Hg' Hb'] Hs. split.
  - intros x. destruct (decide (x = name)) as [->|Hx].
    + rewrite lookup_insert_eq, <- Hg. by rewrite Hn.
    + rewrite lookup_insert_ne by done. rewrite Hg', elem_of_app, list_elem_of_singleton. tauto.
  - intros Hq x. destruct (decide (x = name)) as [->|Hx].
    + intros _. constructor. intros y Hy. apply (Hb' Hq). specialize (Hs Hq). rewrite Forall_forall in Hs. by apply Hs.
    + rewrite lookup_insert_ne by done. by apply Hb'.
Qed.
Lemma darker_leave cols name : darker cols (<[name := Black]> cols).
Proof using.
  intros x Hx. destruct (decide (x = name)) as [->|?]; [by rewrite lookup_insert_eq|by rewrite lookup_insert_ne].
Qed.

(** ** [visit] *)

Definition cycle_error (start : option string) (e : goerr) : Prop :=
  exists l next, closes adj l next /\ head l = start /\
    e = EMsg ("circular metric dependency: " +:+ Join l " -> " +:+ " -> " +:+ next).

Definition visited_well (stack : list string) (cols : gmap string color) (name : string)
    (r : res (gmap string color)) : Prop :=
  match r with
  | Ok cols' => coloured True stack cols' /\ darker cols cols' /\ cols' !! name = Some Black
  | Err e => cycle_error (head (stack ++ [name])) e
  end.

Lemma head_snoc {A} (l : list A) x y : head ((l ++ [x]) ++ [y]) = head (l ++ [x]).
Proof using. by destruct l. Qed.

Lemma visit_nexts_ok fuel stack name nexts cols
    (IH : forall cols next, coloured True (stack ++ [name]) cols -> cols !! next = None ->
       path adj ((stack ++ [name]) ++ [next]) next -> (size (room cols) < fuel)%nat ->
       visited_well (stack ++ [name]) cols next (visit adj fuel (stack ++ [name]) cols next)) :
  coloured True (stack ++ [name]) cols -> path adj (stack ++ [name]) name -> (forall x, x ∈ nexts -> edge adj name x) ->
  (size (room cols) < fuel)%nat ->
  match visit_nexts (visit adj fuel (stack ++ [name])) (stack ++ [name]) nexts cols with
  | Ok cols' => coloured True (stack ++ [name]) cols' /\ darker cols cols' /\ Forall (fun x => cols' !! x = Some Black) nexts
  | Err e => cycle_error (head (stack ++ [name])) e
  end.
Proof using.
  intros Hc Hp He Hf. revert cols Hc Hf. induction nexts as [|next nexts IHn]; intros cols Hc Hf; cbn [visit_nexts].
  { by split_and!. }
  assert (edge adj name next) as Hen by (apply He; by left).
  specialize (IHn ltac:(intros x Hx; apply He; by right)).
  destruct (cols !! next) as [[]|] eqn:En.
  - exists (stack ++ [name]), next. split_and!; [|done..]. split; [by apply Hc|]. by exists name.
  - specialize (IHn cols Hc Hf). destruct (visit_nexts _ _ _ _) as [cols'|e]; [|done].
    destruct IHn as (Hc' & Hd & Hb). split_and!; try done. constructor; [by apply Hd|done].
  - pose proof (IH cols next Hc En ltac:(by eapply path_snoc) Hf) as Hv.
    destruct (visit adj fuel (stack ++ [name]) cols next) as [cols1|e]; cbn [res_bind visited_well] in *.
    2: { by rewrite head_snoc in Hv. }
    destruct Hv as (Hc1 & Hd1 & Hb1). pose proof (subseteq_size _ _ (room_shrinks _ _ _ _ _ Hc Hc1 Hd1)).
    specialize (IHn cols1 Hc1 ltac:(lia)). destruct (visit_nexts _ _ _ _) as [cols'|e]; [|done].
    destruct IHn as (Hc' & Hd & Hb). split_and!; [done|by etransitivity|]. constructor; [by apply Hd|done].
Qed.

Lemma visit_ok fuel stack cols name :
  coloured True stack cols -> cols !! name = None -> path adj (stack ++ [name]) name ->
  (size (room cols) < fuel)%nat -> visited_well stack cols name (visit adj fuel stack cols name).
Proof using.
  revert stack cols name. induction fuel as [|fuel IH]; intros stack cols name Hc Hn Hp Hf; [lia|]. cbn [visit]. cbv zeta.
  pose proof (coloured_enter _ _ _ _ Hc Hn) as Hce. pose proof (darker_enter _ _ Hn) as Hde.
  assert (match visit_nexts (visit adj fuel (stack ++ [name])) (stack ++ [name]) (successors adj name) (<[name := Gray]> cols) with
    | Ok cols' => coloured True (stack ++ [name]) cols' /\ darker (<[name := Gray]> cols) cols' /\
        Forall (fun x => cols' !! x = Some Black) (successors adj name)
    | Err e => cycle_error (head (stack ++ [name])) e
    end) as Hl.
  { destruct (decide (name ∈ dom adj)) as [Hd|Hd].
    - pose proof (room_enter _ _ Hd Hn). apply visit_nexts_ok; try done; [intros; apply IH; done|lia].
    - rewrite (no_successors _ Hd). cbn. by split_and!. }
  destruct (visit_nexts _ _ _ _) as [cols'|e]; cbn [res_bind visited_well]; [|done].
  destruct Hl as (Hc' & Hd' & Hb). split_and!.
  - by eapply coloured_leave.
  - do 2 (etransitivity; [eassumption|]). apply darker_leave.
  - by rewrite lookup_insert_eq.
Qed.

Lemma visit_roots_ok roots cols :
  coloured True [] cols ->
  match visit_roots adj roots cols with
  | Ok _ => Forall (grounded_in adj) roots
  | Err e => exists root, root ∈ roots /\ cycle_error (Some root) e
  end.
Proof using.
  revert cols. induction roots as [|name roots IH]; intros cols Hc; cbn [visit_roots]; [constructor|].
  assert (forall cols', coloured True [] cols' -> cols' !! name = Some Black ->
    match visit_roots adj roots cols' with
    | Ok _ => Forall (grounded_in adj) (name :: roots)
    | Err e => exists root, root ∈ name :: roots /\ cycle_error (Some root) e
    end) as Hrest.
  { intros cols' Hc' Hb. specialize (IH cols' Hc'). destruct (visit_roots _ _ _).
    - constructor; [by apply Hc'|done].
    - destruct IH as (root & Hin & He). exists root. split; [by right|done]. }
  destruct (cols !! name) as [[]|] eqn:En; [|by apply Hrest|].
  - exfalso. apply Hc in En. by apply elem_of_nil in En.
  - pose proof (visit_ok _ [] cols name Hc En (path_one adj name) (room_size cols)) as Hv.
    destruct (visit adj _ [] cols name) as [cols'|e]; cbn [res_bind visited_well] in *.
    + destruct Hv as (Hc' & _ & Hb). by apply Hrest.
    + exists name. split; [by left|done].
Qed.

(** ** [dfs] *)

Definition calc_cycle (err : string) : Prop := exists l next, closes adj l next /\ err = formatCalcExprCycle l next.

Lemma from_first_some x l : x ∈ l -> is_Some (from_first x l).
Proof using.
  induction l as [|y l IH]; intros Hx; [by apply elem_of_nil in Hx|]. cbn [from_first].
  destruct (String.eqb_spec y x) as [->|Hne]; [done|]. apply IH. by apply elem_of_cons in Hx as [->|].
Qed.
Lemma formatCalcExprCycle_nonempty l next : next ∈ l -> str_empty (formatCalcExprCycle l next) = false.
Proof using. intros [cycle E]%from_first_some. unfold formatCalcExprCycle. by rewrite E. Qed.

(** The errors after a search started with [errs]: more of them, each a cycle. *)
Definition more_cycles (errs errs' : list string) : Prop := exists l, errs' = errs ++ l /\ Forall calc_cycle l.
#[local] Instance more_cycles_preorder : PreOrder more_cycles.
Proof using.
  split; [intros e; exists []; by rewrite List.app_nil_r|].
  intros e1 e2 e3 (l1 & -> & H1) (l2 & -> & H2). exists (l1 ++ l2). rewrite List.app_assoc. split; [done|by apply Forall_app].
Qed.
Lemma more_cycles_nil errs errs' : more_cycles errs errs' -> errs' = [] -> errs = [].
Proof using. intros (l & -> & _) H. by apply app_eq_nil in H as [? _]. Qed.

Definition searched (path : list string) (visited : gmap string color) (errs : list string) (us : list string)
    (r : res (gmap string color * list string)) : Prop :=
  match r with
  | Ok (visited', errs') =>
      coloured (errs' = []) path visited' /\ darker visited visited' /\ more_cycles errs errs' /\
      (errs' = [] -> Forall (fun u => visited' !! u = Some Black) us)
  | Err _ => False
  end.

Lemma dfs_nexts_ok fuel p name nexts visited errs
    (IH : forall visited errs next, coloured (errs = []) (p ++ [name]) visited -> visited !! next = None ->
       path adj ((p ++ [name]) ++ [next]) next -> (size (room visited) < fuel)%nat ->
       searched (p ++ [name]) visited errs [next] (dfs adj fuel (p ++ [name]) visited errs next)) :
  coloured (errs = []) (p ++ [name]) visited -> path adj (p ++ [name]) name -> (forall x, x ∈ nexts -> edge adj name x) ->
  (size (room visited) < fuel)%nat ->
  searched (p ++ [name]) visited errs nexts (dfs_nexts (dfs adj fuel (p ++ [name])) (p ++ [name]) nexts visited errs).
Proof using.
  intros Hc Hp He Hf. revert visited errs Hc Hf. induction nexts as [|next nexts IHn]; intros visited errs Hc Hf; cbn [dfs_nexts].
  { by split_and!. }
  assert (edge adj name next) as Hen by (apply He; by left).
  specialize (IHn ltac:(intros x Hx; apply He; by right)).
  destruct (visited !! next) as [[]|] eqn:En.
  - cbv zeta. assert (next ∈ p ++ [name]) as Hin by (by apply Hc). rewrite (formatCalcExprCycle_nonempty _ _ Hin).
    assert (coloured (errs ++ [formatCalcExprCycle (p ++ [name]) next] = []) (p ++ [name]) visited) as Hc2.
    { eapply coloured_weaken; [|exact Hc]. by intros [? _]%app_eq_nil. }
    specialize (IHn visited (errs ++ [formatCalcExprCycle (p ++ [name]) next]) Hc2 Hf).
    destruct (dfs_nexts _ _ _ _ _) as [[visited' errs']|e]; [|done]. destruct IHn as (Hc' & Hd & Hm & Hq).
    split_and!; [done..|etransitivity; [|exact Hm]|].
    + eexists. split; [done|]. constructor; [|done]. exists (p ++ [name]), next. split; [|done]. split; [done|by exists name].
    + intros H0%(more_cycles_nil _ _ Hm). by apply app_eq_nil in H0 as [_ ?].
  - specialize (IHn visited errs Hc Hf). destruct (dfs_nexts _ _ _ _ _) as [[visited' errs']|e]; [|done].
    destruct IHn as (Hc' & Hd & Hm & Hq). split_and!; try done. intros H. constructor; [by apply Hd|by apply Hq].
  - pose proof (IH visited errs next Hc En ltac:(by eapply path_snoc) Hf) as Hv.
    destruct (dfs adj fuel (p ++ [name]) visited errs next) as [[visited1 errs1]|e]; cbn [res_bind searched] in *; [|done].
    destruct Hv as (Hc1 & Hd1 & Hm1 & Hq1). pose proof (subseteq_size _ _ (room_shrinks _ _ _ _ _ Hc Hc1 Hd1)).
    specialize (IHn visited1 errs1 Hc1 ltac:(lia)). destruct (dfs_nexts _ _ _ _ _) as [[visited' errs']|e]; [|done].
    destruct IHn as (Hc' & Hd & Hm & Hq). split_and!; [done|by etransitivity|by etransitivity|].
    intros H0. constructor; [|by apply Hq]. apply Hd. specialize (Hq1 (more_cycles_nil _ _ Hm H0)).
    by apply Forall_cons in Hq1 as [? _].
Qed.

Lemma dfs_ok fuel p visited errs name :
  coloured (errs = []) p visited -> visited !! name = None -> path adj (p ++ [name]) name ->
  (size (room visited) < fuel)%nat -> searched p visited errs [name] (dfs adj fuel p visited errs name).
Proof using.
  revert p visited errs name. induction fuel as [|fuel IH]; intros p visited errs name Hc Hn Hp Hf; [lia|].
  cbn [dfs]. cbv zeta. pose proof (coloured_enter _ _ _ _ Hc Hn) as Hce. pose proof (darker_enter _ _ Hn) as Hde.
  assert (searched (p ++ [name]) (<[name := Gray]> visited) errs (successors adj name)
    (dfs_nexts (dfs adj fuel (p ++ [name])) (p ++ [name]) (successors adj name) (<[name := Gray]> visited) errs)) as Hl.
  { destruct (decide (name ∈ dom adj)) as [Hd|Hd].
    - pose proof (room_enter _ _ Hd Hn). apply dfs_nexts_ok; try done; [intros; by apply IH|lia].
    - rewrite (no_successors _ Hd). cbn. by split_and!. }
  destruct (dfs_nexts _ _ _ _ _) as [[visited' errs']|e]; cbn [res_bind searched] in *; [|done].
  destruct Hl as (Hc' & Hd' & Hm & Hq). split_and!; [| |done|].
  - eapply (coloured_leave _ _ visited); [|done|done|done]. eapply coloured_weaken; [|exact Hc]. by apply more_cycles_nil.
  - do 2 (etransitivity; [eassumption|]). apply darker_leave.
  - intros _. constructor; [by rewrite lookup_insert_eq|done].
Qed.

Lemma dfs_roots_ok roots visited errs :
  coloured (errs = []) [] visited ->
  exists errs', dfs_roots adj roots visited errs = Ok errs' /\ more_cycles errs errs' /\
    (errs' = [] -> Forall (grounded_in adj) roots).
Proof using.
  revert visited errs. induction roots as [|name roots IH]; intros visited errs Hc; cbn [dfs_roots].
  { by exists errs. }
  assert (forall visited' errs1, coloured (errs1 = []) [] visited' -> more_cycles errs errs1 ->
    (errs1 = [] -> visited' !! name = Some Black) ->
    exists errs', dfs_roots adj roots visited' errs1 = Ok errs' /\ more_cycles errs errs' /\
      (errs' = [] -> Forall (grounded_in adj) (name :: roots))) as Hrest.
  { intros visited' errs1 Hc' Hm Hb. destruct (IH visited' errs1 Hc') as (errs' & -> & Hm' & Hq).
    exists errs'. split_and!; [done|by etransitivity|]. intros H0. constructor; [|by apply Hq].
    apply (more_cycles_nil _ _ Hm') in H0. apply Hc'; auto. }
  destruct (visited !! name) as [[]|] eqn:En; [|by apply Hrest|].
  - exfalso. apply Hc in En. by apply elem_of_nil in En.
  - pose proof (dfs_ok _ [] visited errs name Hc En (path_one adj name) (room_size visited)) as Hv.
    destruct (dfs adj _ [] visited errs name) as [[visited' errs1]|e]; cbn [res_bind searched] in *; [|done].
    destruct Hv as (Hc' & _ & Hm & Hb). apply Hrest; try done. intros H0. by specialize (Hb H0); apply Forall_cons in Hb as [? _].
Qed.
End Searches.

(** No name of the graph starts a chain of edges that goes on for ever. *)
Definition acyclic (adj : adjacency) : Prop := forall x, grounded_in adj x.

Lemma edge_dom adj x y : edge adj x y -> x ∈ dom adj.
Proof. intros He. destruct (decide (x ∈ dom adj)) as [|Hn]; [done|]. unfold edge in He. rewrite no_successors in He; [|done]. by apply elem_of_nil in He. Qed.
Lemma acyclic_dom adj : Forall (grounded_in adj) (elements (dom adj)) -> acyclic adj.
Proof.
  intros Hf x. constructor. intros y Hy. apply edge_dom in Hy as Hx. rewrite Forall_forall in Hf.
  apply (Hf x); [by apply elem_of_elements|done].
Qed.
Lemma closes_not_acyclic adj l next : closes adj l next -> ~ acyclic adj.
Proof. intros Hc%closes_cycle Ha. by apply (grounded_acyclic adj next (Ha next) next). Qed.

Lemma coloured_start adj q : coloured adj q [] ∅.
Proof. split; [intros x; rewrite lookup_empty; split; [done|by intros ?%elem_of_nil]|intros _ x; by rewrite lookup_empty]. Qed.

(** The search for circular calculated expressions comes to an end, reports
    nothing exactly when no chain of references goes on for ever, and everything it
    reports is a cycle of the graph: the names visited from the first time the
    repeated one was met. *)
Lemma findCycles_exact `{MapOrder} (adj : adjacency) :
  exists errs, findCalcExprCycles adj = Ok errs /\ (errs = [] <-> acyclic adj) /\ Forall (calc_cycle adj) errs.
Proof.
  destruct (dfs_roots_ok adj (keys adj) ∅ []) as (errs & He & (l & -> & Hl) & Hq); [apply coloured_start|].
  exists ([] ++ l). split_and!; [done|split|done]; rewrite List.app_nil_l in *.
  - intros H0. specialize (Hq H0). apply acyclic_dom. rewrite Forall_forall in *. intros x Hx%elem_of_elements%elem_of_dom.
    apply Hq. by apply elem_of_keys.
  - intros Ha. destruct Hl as [|err l (p & next & Hc & _) _]; [done|]. by destruct (closes_not_acyclic _ _ _ Hc).
Qed.

(** ** The graph of a model's metrics *)

Lemma elem_of_push adj from to x y : edge (push adj from to) x y <-> edge adj x y \/ (x = from /\ y = to).
Proof.
  unfold edge, push, successors. destruct (decide (x = from)) as [->|Hx].
  - rewrite lookup_insert_eq. cbn [default from_option id]. rewrite elem_of_app, list_elem_of_singleton. naive_solver.
  - rewrite lookup_insert_ne by done. naive_solver.
Qed.
Lemma derives_adj_edge edges x y :
  edge (derives_adj edges) x y <-> mkEdge x y MetricEdgeDerivesFrom ∈ edges.
Proof.
  unfold derives_adj. induction edges as [|[from to ty] edges IH] using rev_ind.
  { split; [|by intros ?%elem_of_nil]. unfold edge, successors. cbn [fold_left]. rewrite lookup_empty. by intros ?%elem_of_nil. }
  rewrite fold_left_app, elem_of_app, list_elem_of_singleton. cbn [fold_left edge_Type edge_From edge_To].
  destruct (String.eqb_spec ty MetricEdgeDerivesFrom) as [->|Hne].
  - rewrite elem_of_push, IH. split; [intros [?|[-> ->]]; [by left|by right]|intros [?|[= -> ->]]; [by left|by right]].
  - rewrite IH. split; [by left|intros [?|[= _ _ ?]]; [done|congruence]].
Qed.

Lemma elem_of_referenced expr names self y :
  y ∈ referencedMetricNames expr names self <->
  y <> self /\ exists t, t ∈ tokens_from None expr /\ names !! ToLower t = Some y.
Proof.
  unfold referencedMetricNames. induction (tokens_from None expr) as [|t ts IH] using rev_ind.
  { split; [by intros ?%elem_of_nil|]. by intros (_ & t & ?%elem_of_nil & _). }
  rewrite fold_left_app. cbn [fold_left]. unfold flush at 1. destruct (names !! ToLower t) as [name|] eqn:En.
  - destruct (String.eqb_spec name self) as [->|Hs]; cbn [orb].
    + rewrite IH. set_solver.
    + destruct (str_in name _) eqn:Ei.
      * apply str_in_spec in Ei. rewrite IH. split; [set_solver|]. intros (Hy & t' & Ht & E).
        apply elem_of_app in Ht as [Ht|Ht%list_elem_of_singleton]; [by eauto|]. subst t'.
        rewrite E in En. injection En as ->. by apply IH.
      * rewrite elem_of_app, IH, list_elem_of_singleton. set_solver.
  - rewrite IH. set_solver.
Qed.

(** [Words s l]: the words of the text, the longest runs of letters, digits and
    underscores, are those of [l], from the left. *)
Inductive Words : string -> list string -> Prop :=
| Words_end : Words "" []
| Words_word w r l :
    w <> "" -> str_forallb is_word w = true -> head_is is_word r = false -> Words r l -> Words (w +:+ r) (w :: l)
| Words_other c s l : is_word c = false -> Words s l -> Words (String c s) l.

Lemma token_byte c : isTokenByte c = is_word c.
Proof. unfold isTokenByte, is_word, is_alpha, is_char. by destruct (is_lower c), (is_upper c), (is_digit c). Qed.
Lemma tokens_word p w r : str_forallb is_word w = true -> head_is is_word r = false ->
  tokens_from (Some p) (w +:+ r) = (p +:+ w) :: tokens_from None r.
Proof.
  revert p. induction w as [|c w IH]; intros p Hw Hr.
  - rewrite app_nil_l, app_nil_r. destruct r as [|c r]; [done|]. cbn in Hr |- *. by rewrite token_byte, Hr.
  - cbn in Hw. apply andb_true_iff in Hw as [Hc Hw]. rewrite app_cons. cbn [tokens_from]. rewrite token_byte, Hc.
    cbn [default from_option id]. rewrite (IH _ Hw Hr). rewrite app_assoc. done.
Qed.
Lemma tokens_start w r : w <> "" -> str_forallb is_word w = true -> head_is is_word r = false ->
  tokens_from None (w +:+ r) = w :: tokens_from None r.
Proof.
  intros Hne Hw Hr. destruct w as [|c w]; [done|]. cbn in Hw. apply andb_true_iff in Hw as [Hc Hw].
  rewrite app_cons. cbn [tokens_from]. rewrite token_byte, Hc. by rewrite (tokens_word _ _ _ Hw Hr).
Qed.
Lemma tokens_words s l : Words s l <-> tokens_from None s = l.
Proof.
  split.
  - induction 1 as [|w r l Hne Hw Hr _ IH|c s l Hc _ IH]; [done|by rewrite tokens_start, IH|].
    cbn. by rewrite token_byte, Hc.
  - intros <-. remember (String.length s) as n eqn:Hn. assert (String.length s <= n)%nat as Hle by lia. clear Hn.
    revert s Hle. induction n as [|n IH]; intros s Hle; [destruct s; [constructor|cbn in Hle; lia]|].
    destruct s as [|c s]; [constructor|]. destruct (is_word c) eqn:Hc.
    + pose proof (span_spec is_word (String c s)) as Hs. cbn [span] in Hs. rewrite Hc in Hs.
      destruct (span is_word s) as [a r]. destruct Hs as (E & Ha & Hr). rewrite E, tokens_start by done.
      constructor; [done..|]. apply IH. rewrite E, length_app in Hle. cbn in Hle. lia.
    + cbn [tokens_from]. rewrite token_byte, Hc. constructor; [done|]. apply IH. cbn in Hle. lia.
Qed.

(** The name that a word means: that of the last metric with it, in any case. *)
Definition means (metrics : list Metric) (t y : string) : Prop :=
  exists before m after, metrics = before ++ m :: after /\ met_Name m = y /\ ToLower y = ToLower t /\
    Forall (fun m' => ToLower (met_Name m') <> ToLower t) after.
Lemma lower_names_means metrics t y : lower_names metrics !! ToLower t = Some y <-> means metrics t y.
Proof.
  unfold lower_names, means. induction metrics as [|m ms IH] using rev_ind.
  { split; [done|]. intros ([|? ?] & ? & ? & ? & _); discriminate. }
  rewrite fold_left_app. cbn [fold_left]. destruct (decide (ToLower (met_Name m) = ToLower t)) as [He|He].
  - rewrite He, lookup_insert_eq. split.
    + intros [= <-]. exists ms, m, []. split_and!; done.
    + intros (before & m' & after & E & <- & _ & Ha). destruct after as [|x after _] using rev_ind.
      * apply app_inj_tail in E as [_ ->]. done.
      * change (before ++ m' :: after ++ [x]) with (before ++ (m' :: after) ++ [x]) in E. rewrite List.app_assoc in E.
        apply app_inj_tail in E as [_ ->]. apply Forall_app in Ha as [_ Ha]. by inversion Ha.
  - rewrite lookup_insert_ne by done. rewrite IH. split.
    + intros (before & m' & after & -> & Hy & Ht & Ha). exists before, m', (after ++ [m]). rewrite <- List.app_assoc.
      split_and!; try done. apply Forall_app. by repeat constructor.
    + intros (before & m' & after & E & Hy & Ht & Ha). destruct after as [|x after _] using rev_ind.
      * apply app_inj_tail in E as [_ ->]. congruence.
      * change (before ++ m' :: after ++ [x]) with (before ++ (m' :: after) ++ [x]) in E. rewrite List.app_assoc in E.
        apply app_inj_tail in E as [-> ->]. apply Forall_app in Ha as [Ha _]. by exists before, m', after.
Qed.

(** A word of metric [x]'s expression means metric [y], another one. *)
Definition derives_from (model : SemanticModel) (x y : string) : Prop :=
  y <> x /\ exists m words t, m ∈ model_Metrics model /\ met_Name m = x /\ Words (met_Expression m) words /\ t ∈ words /\
    means (model_Metrics model) t y.

Lemma BuildMetricGraph_edges composite model x y :
  edge (derives_adj (Edges (BuildMetricGraph composite model))) x y <-> derives_from model x y.
Proof.
  transitivity (y <> x /\ exists m t, m ∈ model_Metrics model /\ met_Name m = x /\ t ∈ tokens_from None (met_Expression m) /\
    lower_names (model_Metrics model) !! ToLower t = Some y).
  2: { unfold derives_from. split; intros (Hne & Hd); (split; [done|]).
    - destruct Hd as (m & t & Hm & Hx & Ht & Hy). exists m, (tokens_from None (met_Expression m)), t.
      rewrite <- lower_names_means. by rewrite tokens_words.
    - destruct Hd as (m & words & t & Hm & Hx & <-%tokens_words & Ht & Hy%lower_names_means). by exists m, t. }
  rewrite derives_adj_edge. unfold BuildMetricGraph. generalize (componentAliasByTable composite) as owners.
  generalize (lower_names (model_Metrics model)) as names. intros names owners.
  induction (model_Metrics model) as [|m ms IH] using rev_ind.
  { split; [by intros ?%elem_of_nil|]. by intros (_ & m & t & ?%elem_of_nil & _). }
  rewrite fold_left_app. cbn [fold_left]. unfold graph_metric at 1. cbv zeta. cbn [Edges].
  rewrite elem_of_app, IH, list_elem_of_fmap. split.
  - intros [(? & m' & t & ? & ?)|(d & [= -> ->] & Hd)]; [split; [done|]; exists m', t; set_solver|].
    apply elem_of_referenced in Hd as (? & t & ? & ?). split; [done|]. exists m, t. set_solver.
  - intros (? & m' & t & Hm & <- & ? & ?). apply elem_of_app in Hm as [Hm|Hm%list_elem_of_singleton]; [left; by eauto 10|].
    subst m'. right. exists y. split; [done|]. apply elem_of_referenced. by eauto.
Qed.
Lemma BuildMetricGraph_nodes composite model x :
  x ∈ dom (Nodes (BuildMetricGraph composite model)) <-> x ∈ map met_Name (model_Metrics model).
Proof.
  unfold BuildMetricGraph. generalize (componentAliasByTable composite) (lower_names (model_Metrics model)).
  intros owners names. induction (model_Metrics model) as [|m ms IH] using rev_ind; [by cbn; rewrite dom_empty, elem_of_nil, elem_of_empty|].
  rewrite fold_left_app, map_app, elem_of_app. cbn [fold_left map]. unfold graph_metric at 1. cbv zeta. cbn [Nodes].
  rewrite dom_insert, elem_of_union, elem_of_singleton, IH, list_elem_of_singleton. tauto.
Qed.

Lemma grounded_same adj (R : string -> string -> Prop) :
  (forall x y, edge adj x y <-> R x y) -> forall x, Acc (flip (edge adj)) x <-> Acc (flip R) x.
Proof.
  intros HR x. split; induction 1 as [x _ IH]; constructor; intros y Hy; apply IH; by apply HR.
Qed.

(** The check of the merged metrics comes to an end and accepts exactly the
    models none of whose metrics starts a chain of mentions of other metrics that
    goes on for ever; when it refuses, the error shows the metrics on the way from
    one to the first that is mentioned again, and that one depends on itself. *)
Lemma metric_cycles_spec `{MapOrder} (composite : CompositeModel) (model : SemanticModel) :
  let graph := BuildMetricGraph composite model in
  match DetectCircularDependencies graph with
  | Ok _ => Forall (fun m => Acc (flip (derives_from model)) (met_Name m)) (model_Metrics model)
  | Err e =>
      exists start l next, start ∈ map met_Name (model_Metrics model) /\ head l = Some start /\ next ∈ l /\
        tc (derives_from model) next next /\
        e = EMsg ("circular metric dependency: " +:+ Join l " -> " +:+ " -> " +:+ next)
  end.
Proof.
  intros graph. pose proof (BuildMetricGraph_edges composite model) as He. fold graph in He.
  unfold DetectCircularDependencies. pose proof (visit_roots_ok (derives_adj (Edges graph)) (keys (Nodes graph)) ∅
    (coloured_start _ _)) as Hv.
  assert (forall x, x ∈ keys (Nodes graph) <-> x ∈ map met_Name (model_Metrics model)) as Hk.
  { intros x. rewrite elem_of_keys, <- elem_of_dom. apply BuildMetricGraph_nodes. }
  destruct (visit_roots _ _ _) as [[]|e].
  - rewrite Forall_forall in Hv. apply Forall_forall. intros m Hm. apply (grounded_same _ _ He), Hv, Hk. by apply list_elem_of_fmap_2.
  - destruct Hv as (root & Hr & l & next & Hc & Hh & ->). exists root, l, next. split_and!; [by apply Hk|done|by apply Hc| |done].
    apply closes_cycle in Hc. revert Hc. apply (tc_congruence id). intros x y. apply He.
Qed.

Lemma metric_cycles_ok `{MapOrder} composite model :
  DetectCircularDependencies (BuildMetricGraph composite model) = Ok tt <->
  Forall (fun m => Acc (flip (derives_from model)) (met_Name m)) (model_Metrics model).
Proof.
  pose proof (metric_cycles_spec composite model) as Hs. cbv zeta in Hs.
  destruct (DetectCircularDependencies _) as [[]|e]; [done|]. split; [done|]. intros Hf. exfalso.
  destruct Hs as (_ & _ & next & _ & _ & _ & Hc & _).
  assert (exists y, derives_from model next y) as (y & _ & m & _ & _ & Hm & <- & _) by (inversion Hc; by eexists).
  rewrite Forall_forall in Hf. specialize (Hf m Hm).
  apply (grounded_same _ _ (BuildMetricGraph_edges composite model)) in Hf.
  apply (grounded_acyclic _ _ Hf (met_Name m)); [done|]. revert Hc. apply (tc_congruence id). intros ? ?.
  apply BuildMetricGraph_edges.
Qed.

(** * Examples *)

Module GraphDemo.
Definition named (name expression : string) : Metric := mkMetric name expression NilExpr "custom" None [] None.
Definition model_of (metrics : list Metric) : SemanticModel := mkModel "m" "ds" "M" "dbo" "t" 1 [] metrics [] None None "draft".
Definition check (metrics : list Metric) : res unit :=
  let _ := list_order in DetectCircularDependencies (BuildMetricGraph (mkComposite "c" "ds" "C" None None "draft" 1 [] [] None []) (model_of metrics)).

Example acyclic_accepted : check [named "profit" "revenue - cost"; named "revenue" "t.amount"; named "cost" "t.cost"] = Ok tt.
Proof. vm_compute. reflexivity. Qed.
Example cycle_shown :
  check [named "a" "[B] + 1"; named "b" "[c] * 2"; named "c" "[A]"] =
  Err (EMsg "circular metric dependency: c -> a -> b -> c").
Proof. vm_compute. reflexivity. Qed.

(** A metric that names itself, and metrics whose names are of several words, pass
    this check; see [MeasuresTotal.metric_references] for what such a metric does to
    the compiler. *)
Example self_reference_passes : check [named "loop" "[LOOP] + 1"] = Ok tt.
Proof. vm_compute. reflexivity. Qed.
Example spaced_names_pass : check [named "net sales" "[gross sales]"; named "gross sales" "[net sales]"] = Ok tt.
Proof. vm_compute. reflexivity. Qed.
(** Words that are not references count as ones. *)
Example column_taken_for_metric :
  check [named "amount" "t.total"; named "total" "t.amount"] =
  Err (EMsg "circular metric dependency: amount -> total -> amount").
Proof. vm_compute. reflexivity. Qed.

Example calc_cycles :
  let _ := list_order in
  findCalcExprCycles {["dim:a" := ["met:b"]; "met:b" := ["dim:a"; "met:b"]]} =
  Ok ["circular dependency detected: b -> a -> b"; "circular dependency detected: b -> b"].
Proof. vm_compute. reflexivity. Qed.
End GraphDemo.
