(* ===== verification/Measures.v ===== *)
(** The SQL of dimensions and metrics: the methods of
    [internal/query/compiler.go] and [internal/query/pii_masking.go] that render
    one field of the semantic model.

    A metric's raw expression may mention dimensions and other metrics in square
    brackets; [resolveCustomToken], [metricAggregate], [metricExpressionRef] and
    [resolveBracketExpressions] call each other along those references.  They
    take fuel, one unit per metric entered; the code has no bound, and on metrics
    that mention each other in a circle it never comes back (MeasuresTotal.v). *)

From S2P Require Import Prelude GoStrings Values Dialect Semantic ReadOnly LogicalQuery PhysicalRef ExprParse.
From S2P Require Import Suggest Pii RowFilter CompileMonad ExprCompile Joins.
From stdpp Require Import options.
#[local] Open Scope Z_scope.

(** * Bracketed tokens *)

(** A raw expression cut by [reBracket]: text, and the content of each match. *)
Inductive bracket_part : Type :=
| PText (s : string)
| PToken (s : string).

(** The match of the regular expression at the head of the text: an opening
    bracket, one or more other bytes than a closing one, a closing one. *)
Definition bracket_match (s : string) : option (string * string) :=
  match s with
  | String c s' =>
      if Ascii.eqb c "[" then
        let '(token, r) := span (fun c => negb (Ascii.eqb c "]")) s' in
        match r with
        | String _ r' => if str_empty token then None else Some (token, r')
        | EmptyString => None
        end
      else None
  | EmptyString => None
  end.

(** [fuel] is the length of the text. *)
Fixpoint bracket_parts (fuel : nat) (s : string) : list bracket_part :=
  match fuel with
  | 0%nat => []
  | S fuel =>
      match s with
      | EmptyString => []
      | String c s' =>
          match bracket_match s with
          | Some (token, r) => PToken token :: bracket_parts fuel r
          | None => PText (String c "") :: bracket_parts fuel s'
          end
      end
  end.
Definition split_brackets (s : string) : list bracket_part := bracket_parts (String.length s) s.

Definition isSupportedAggregation (fn : string) : bool :=
  str_in (ToLower (TrimSpace fn)) [""; "custom"; "none"; "count"; "count_distinct"; "sum"; "avg"; "min"; "max"].

Section Measures.
Context `{GoRuntime} `{MapOrder} (c : Comp).
Context (model : SemanticModel) (dimMap : gmap string Dimension) (metricMap : gmap string Metric).
Context (resolver : SchemaResolver).
#[local] Abbreviation d := (dialect c).

(** [CompileExpr] as the compiler calls it. *)
Definition compile_expr (allowAggregates : bool) (e : ExprNode) : M string :=
  CompileExpr d (Some resolver) (pii c) false allowAggregates e.

(** * Dimensions *)

Definition dimensionSQL (dim : Dimension) : M string :=
  match dim_CalculatedExpr dim with
  | NilExpr =>
      let expr := TrimSpace (dim_CalculatedExpression dim) in
      if negb (str_empty expr) then
        do parsed <- lift (ParseExpression expr);
        compile_expr false parsed
      else
        let colRef := PhysicalColumnRef resolver (dim_ColumnRef dim) in
        if str_empty (TrimSpace (dim_TimeGrain dim)) then ret (QuoteIdent d colRef)
        else
          let '(part, ok) := normalizeDateGrain (dim_TimeGrain dim) in
          if negb ok then throw (EMsg ("unsupported time grain: " +:+ dim_TimeGrain dim))
          else if str_in part ["year"; "quarter"; "month"; "hour"] then ret (CalendarPart d part colRef)
          else if str_in part ["day"; "week"] then ret (DateTrunc d part colRef)
          else throw (EMsg ("unsupported time grain: " +:+ dim_TimeGrain dim))
  | e => compile_expr false e
  end.

Definition piiAccessForDim (dim : Dimension) : option (string * string) :=
  match pii c with
  | None => None
  | Some cfg =>
      if str_empty (dim_ColumnRef dim) then None
      else lookup cfg [dim_ColumnRef dim; PhysicalColumnRef resolver (dim_ColumnRef dim)]
  end.

(** The policy on a column reference: [None] when it may be shown raw. *)
Definition piiSQLForColumnRef (ref : string) : M (option string) :=
  match pii c with
  | None => ret None
  | Some cfg =>
      let ref := TrimSpace ref in
      if str_empty ref then ret None
      else
        let physicalRef := PhysicalColumnRef resolver ref in
        match lookup cfg [ref; physicalRef] with
        | None => ret None
        | Some (access, piiType) =>
            if String.eqb access AccessRaw then ret None
            else if String.eqb access AccessMasked then
              do _ <- recordMasked physicalRef;
              ret (Some (strategy cfg (QuoteIdent d physicalRef) piiType d))
            else do _ <- recordHidden physicalRef; ret (Some HiddenLiteral)
        end
  end.

Definition dimensionOutputSQL (dim : Dimension) : M string :=
  let masked cfg piiType :=
    let physicalRef := PhysicalColumnRef resolver (dim_ColumnRef dim) in
    do _ <- recordMasked physicalRef;
    ret (strategy cfg (QuoteIdent d physicalRef) piiType d) in
  match pii c, piiAccessForDim dim with
  | Some cfg, Some (access, piiType) =>
      if String.eqb access AccessRaw then keeping (dimensionSQL dim)
      else if String.eqb access AccessMasked then masked cfg piiType
      else do _ <- recordHidden (PhysicalColumnRef resolver (dim_ColumnRef dim)); ret HiddenLiteral
  | _, _ => keeping (dimensionSQL dim)
  end.

Definition dimensionFullyHidden (dim : Dimension) : bool :=
  match piiAccessForDim dim with
  | Some (access, _) => negb (String.eqb access AccessRaw) && negb (String.eqb access AccessMasked)
  | None => false
  end.
Definition filterFieldHidden (dim : Dimension) : bool := dimensionFullyHidden dim.

Definition derivedFieldSQL (name : string) : string := QuoteIdent d name.

(** * Metrics *)

Definition aggregateExpr (fn expr : string) : M string :=
  let fnLower := ToLower (TrimSpace fn) in
  let call ch other := ret ((if String.eqb (Name d) "clickhouse" then ch else other) +:+ expr +:+ ")") in
  if str_in fnLower ["custom"; "none"; ""] then ret expr
  else if String.eqb fnLower "count" && String.eqb expr "*" then
    ret (if String.eqb (Name d) "clickhouse" then "count()" else "COUNT(*)")
  else if String.eqb fnLower "count" then call "count(" "COUNT("
  else if String.eqb fnLower "count_distinct" then call "uniq(" "COUNT(DISTINCT "
  else if String.eqb fnLower "sum" then call "sum(" "SUM("
  else if String.eqb fnLower "avg" then call "avg(" "AVG("
  else if String.eqb fnLower "min" then call "min(" "MIN("
  else if String.eqb fnLower "max" then call "max(" "MAX("
  else do _ <- set_cerr (EMsg ("unsupported aggregation function: " +:+ fn)); ret "".

Definition resolveBareCustomExpression (expr : string) : M string :=
  match resolver_ParseColumnRef resolver expr with
  | Some _ =>
      do masked <- piiSQLForColumnRef expr;
      match masked with
      | Some sql => ret sql
      | None => ret (PhysicalColumnRef resolver expr)
      end
  | None =>
      do masked <- piiSQLForColumnRef expr;
      match masked with
      | Some sql => ret sql
      | None =>
          if str_empty (model_BaseTable model) then ret expr
          else
            let ref := model_BaseTable model +:+ "." +:+ expr in
            do masked <- piiSQLForColumnRef ref;
            match masked with
            | Some sql => ret sql
            | None => ret expr
            end
      end
  end.

(** The entry a loop over a map stops at: the first whose key equals the token
    up to case. *)
Definition first_fold {A} (token : string) (m : gmap string A) : option A :=
  match List.find (fun kv => EqualFold kv.1 token) (range m) with
  | Some (_, a) => Some a
  | None => None
  end.

Section Rec.
(** [metricAggregate], for the metrics an expression mentions. *)
Context (rec : Metric -> M string).

Definition resolveCustomToken (token : string) : M string :=
  let token := TrimSpace token in
  match first_fold token dimMap with
  | Some dim => dimensionOutputSQL dim
  | None =>
      match first_fold token metricMap with
      | Some m => rec m
      | None =>
          do masked <- piiSQLForColumnRef token;
          match masked with
          | Some sql => ret sql
          | None =>
              if has_byte "." token then ret (QualifyColumn resolver d token)
              else if negb (str_empty (model_BaseTable model)) then
                let ref := model_BaseTable model +:+ "." +:+ token in
                do masked <- piiSQLForColumnRef ref;
                match masked with
                | Some sql => ret sql
                | None => ret (QualifyColumn resolver d ref)
                end
              else ret (QuoteIdent d token)
          end
      end
  end.

Definition resolve_part (p : bracket_part) : M string :=
  match p with PText s => ret s | PToken token => resolveCustomToken token end.

Definition resolveBracketExpressions (expr : string) : M string :=
  if String.eqb expr "*" then ret expr
  else
    do resolved <-
      if has_byte "[" expr
      then (do parts <- mapM resolve_part (split_brackets expr); ret (Concat parts))
      else resolveBareCustomExpression expr;
    do e <- get_cerr;
    match e with
    | None =>
        if str_empty resolved then ret resolved
        else
          match Check exprReadOnlyChecker ("SELECT " +:+ resolved) with
          | Err er => do _ <- set_cerr (EWrap "metric expression failed read-only check" er); ret ""
          | Ok _ => ret resolved
          end
    | Some _ => ret resolved
    end.

(** Whether the expression given is the metric's own, and the metric has a tree. *)
Definition uses_tree (metric : option Metric) (expr : string) : option Metric :=
  match metric with
  | Some m =>
      match met_Expr m with
      | NilExpr => None
      | _ => if String.eqb (TrimSpace expr) (TrimSpace (met_Expression m)) then Some m else None
      end
  | None => None
  end.

Definition metricExpressionRef (metric : option Metric) (expr : string) : M string :=
  match uses_tree metric expr with
  | Some m => keeping (compile_expr (ExprCompileOptsForMetric m) (met_Expr m))
  | None =>
      let expr := TrimSpace expr in
      if String.eqb expr "*" then ret expr else resolveBracketExpressions expr
  end.

Definition metricAggregate_body (metric : Metric) : M string :=
  do expr <- metricExpressionRef (Some metric) (met_Expression metric);
  match met_Expr metric with
  | NilExpr =>
      if negb (isSupportedAggregation (met_Aggregation metric)) then
        do _ <- set_cerr (EMsg ("unsupported aggregation function: " +:+ met_Aggregation metric)); ret ""
      else ret (Aggregate d (met_Aggregation metric) expr)
  | _ => aggregateExpr (met_Aggregation metric) expr
  end.

Definition qualifyMetricExpression (metric : option Metric) (expr : string) : M string :=
  match uses_tree metric expr with
  | Some m => keeping (compile_expr (ExprCompileOptsForMetric m) (met_Expr m))
  | None =>
      let expr := TrimSpace expr in
      if String.eqb expr "*" then ret expr
      else if has_byte "[" expr then resolveBracketExpressions expr
      else
        match resolver_ParseColumnRef resolver expr with
        | Some _ =>
            do masked <- piiSQLForColumnRef expr;
            match masked with
            | Some sql => ret sql
            | None => ret (QuoteIdent d (PhysicalColumnRef resolver expr))
            end
        | None =>
            do masked <- piiSQLForColumnRef expr;
            match masked with
            | Some sql => ret sql
            | None =>
                if negb (str_empty (model_BaseTable model)) then
                  let ref := model_BaseTable model +:+ "." +:+ expr in
                  do masked <- piiSQLForColumnRef ref;
                  match masked with
                  | Some sql => ret sql
                  | None => ret (QuoteIdent d expr)
                  end
                else ret (QuoteIdent d expr)
            end
        end
  end.
End Rec.

Fixpoint metricAggregate (fuel : nat) (metric : Metric) : M string :=
  match fuel with
  | 0%nat => throw EFuel
  | S fuel => metricAggregate_body (metricAggregate fuel) metric
  end.

(** Enough when no metric mentions itself, directly or not. *)
Definition metric_fuel : nat := S (size metricMap).
Definition metricAggregate' : Metric -> M string := metricAggregate metric_fuel.
End Measures.
