(* ===== verification/TextEffects.v ===== *)
(** The effects of the methods that render expressions, dimensions and metrics:
    they bind no argument, and they never fail for used-up fuel unless the
    metrics they mention do. *)

From S2P Require Import Prelude GoStrings Values Dialect Semantic ReadOnly LogicalQuery PhysicalRef ExprParse.
From S2P Require Import Suggest Pii RowFilter CompileMonad ExprCompile Joins Measures Effects.
From stdpp Require Import options.
#[local] Open Scope Z_scope.

Section Text.
Context `{GoRuntime} `{MapOrder}.
Context {R : St -> St -> Prop} {E : St -> goerr -> Prop} `{HE : !Effect R E}.

Section Expr.
Context (d : Dialect) (resolver : option SchemaResolver) (piiConfig : option PIIMaskingConfig) (agg : bool).
#[local] Abbreviation compile := (compileExpr d resolver piiConfig false agg).

Lemma columnRefSQL_eff t c : eff R E (columnRefSQL d resolver piiConfig t c).
Proof using HE. unfold columnRefSQL, maskColumnRef. eff_tac. Qed.

Lemma binaryOpSQL_fuel op e : binaryOpSQL op = Err e -> no_fuel e.
Proof using. unfold binaryOpSQL. repeat case_match; intros [= <-]; exact I. Qed.
Lemma dateTruncSQL_fuel name fargs r e :
  dateTruncSQL d resolver piiConfig name fargs = Some r -> r = Err e -> no_fuel e.
Proof using. unfold dateTruncSQL. intros Hr ->. revert Hr. repeat case_match; intros [= <-]; exact I. Qed.

Lemma aggregateFunctionCallSQL_eff name fargs :
  Forall (fun e => eff R E (compile e)) fargs -> eff R E (aggregateFunctionCallSQL d compile name fargs).
Proof using HE.
  intros Hf. unfold aggregateFunctionCallSQL, compileAggregateCountDistinctSQL, compileAggregateCountSQL.
  destruct Hf as [|a fargs Ha [|b fargs' Hb Hf]]; eff_tac.
Qed.

Lemma compileExpr_eff e : eff R E (compile e).
Proof using HE.
  induction e as [|v|t c|m|m|op l r IHl IHr|op e IH|name fargs IH|cs el IHc IHe] using ExprNode_ind';
    cbn [compileExpr]; try apply eff_ret.
  - apply columnRefSQL_eff.
  - unfold binaryExprSQL. eff_tac. apply eff_lift, binaryOpSQL_fuel.
  - unfold unaryExprSQL. eff_tac.
  - unfold functionCallSQL. destruct (dateTruncSQL _ _ _ _ _) as [r|] eqn:Ed.
    { apply eff_lift. intros er. by eapply dateTruncSQL_fuel. }
    destruct (IsAggregateFunction _); [destruct (negb agg); [by apply eff_throw|by apply aggregateFunctionCallSQL_eff]|].
    destruct (negb _); [by apply eff_throw|]. apply eff_bind; [by apply eff_mapM|]. intros; apply eff_ret.
  - unfold caseExprSQL. apply eff_bind.
    + apply eff_mapM. eapply Forall_impl; [exact IHc|]. intros [w t] [Hw Ht]. eff_tac.
    + intros chunks. apply eff_bind; [|intros; apply eff_ret]. destruct el; eff_tac.
Qed.

Lemma CompileExpr_eff e : eff R E (CompileExpr d resolver piiConfig false agg e).
Proof using HE.
  unfold CompileExpr. apply eff_bind; [apply compileExpr_eff|]. intros sql. eff_tac.
  apply eff_lift. intros er. apply Check_fuel.
Qed.
End Expr.

(** * Dimensions *)

Section Fields.
Context (c : Comp) (model : SemanticModel) (dimMap : gmap string Dimension) (metricMap : gmap string Metric).
Context (resolver : SchemaResolver).

Lemma compile_expr_eff agg e : eff R E (compile_expr c resolver agg e).
Proof using HE. apply CompileExpr_eff. Qed.
#[local] Hint Resolve compile_expr_eff : eff.

Lemma dimensionSQL_eff dim : eff R E (dimensionSQL c resolver dim).
Proof using HE.
  unfold dimensionSQL. cbv zeta. destruct (dim_CalculatedExpr dim); try apply compile_expr_eff.
  destruct (negb (str_empty (TrimSpace (dim_CalculatedExpression dim)))).
  - apply eff_bind; [|intros; apply compile_expr_eff]. apply eff_lift. intros e He.
    pose proof (ParseExpression_returns (TrimSpace (dim_CalculatedExpression dim))) as Hr. by rewrite He in Hr.
  - eff_tac.
Qed.
#[local] Hint Resolve dimensionSQL_eff : eff.

Lemma piiSQLForColumnRef_eff ref : eff R E (piiSQLForColumnRef c resolver ref).
Proof using HE. unfold piiSQLForColumnRef. eff_tac. Qed.
#[local] Hint Resolve piiSQLForColumnRef_eff : eff.

Lemma dimensionOutputSQL_eff dim : eff R E (dimensionOutputSQL c resolver dim).
Proof using HE.
  unfold dimensionOutputSQL. cbv zeta. destruct (pii c); [|eff_tac].
  destruct (piiAccessForDim _ _ _) as [[a ty]|]; eff_tac.
Qed.
#[local] Hint Resolve dimensionOutputSQL_eff : eff.

(** * Metrics *)

Lemma aggregateExpr_eff fn expr : eff R E (aggregateExpr c fn expr).
Proof using HE. unfold aggregateExpr. eff_tac. Qed.
#[local] Hint Resolve aggregateExpr_eff : eff.

Lemma resolveBareCustomExpression_eff expr : eff R E (resolveBareCustomExpression c model resolver expr).
Proof using HE. unfold resolveBareCustomExpression. eff_tac. Qed.
#[local] Hint Resolve resolveBareCustomExpression_eff : eff.

Section Rec.
Context (rec : Metric -> M string).

(** The metric a bracketed token stands for: a dimension of that name goes first. *)
Definition stands_for (token : string) (m : Metric) : Prop :=
  first_fold (TrimSpace token) dimMap = None /\ first_fold (TrimSpace token) metricMap = Some m.

Lemma resolveCustomToken_eff token :
  (forall m, stands_for token m -> eff R E (rec m)) ->
  eff R E (resolveCustomToken c model dimMap metricMap resolver rec token).
Proof using HE.
  intros Hrec. unfold resolveCustomToken. cbv zeta. destruct (first_fold _ dimMap) eqn:Ed; [auto with eff|].
  destruct (first_fold _ metricMap) eqn:Ef; [by apply Hrec|]. eff_tac.
Qed.

(** The metrics the brackets of an expression stand for. *)
Definition mentions (expr : string) (m : Metric) : Prop :=
  exists token, PToken token ∈ split_brackets expr /\ stands_for token m.

Lemma resolveBracketExpressions_eff expr :
  (forall m, mentions expr m -> eff R E (rec m)) ->
  eff R E (resolveBracketExpressions c model dimMap metricMap resolver rec expr).
Proof using HE.
  intros Hrec. unfold resolveBracketExpressions. destruct (String.eqb expr "*"); [apply eff_ret|].
  apply eff_bind.
  - destruct (has_byte "[" expr); [|auto with eff].
    apply eff_bind; [|intros; apply eff_ret]. apply eff_mapM, Forall_forall. intros [s|token] Hin; [apply eff_ret|].
    apply resolveCustomToken_eff. intros m Hm. apply Hrec. by exists token.
  - intros resolved. apply eff_bind; [apply eff_get_cerr|]. intros [e|]; [apply eff_ret|].
    destruct (str_empty resolved); [apply eff_ret|].
    destruct (Check _ _) as [u|er] eqn:Ek; [apply eff_ret|]. apply eff_bind; [|intros; apply eff_ret].
    apply eff_set_cerr. cbn [no_fuel]. by eapply Check_fuel.
Qed.

Lemma metricExpressionRef_eff metric expr :
  (uses_tree metric expr = None -> forall m, mentions (TrimSpace expr) m -> eff R E (rec m)) ->
  eff R E (metricExpressionRef c model dimMap metricMap resolver rec metric expr).
Proof using HE.
  intros Hrec. unfold metricExpressionRef. destruct (uses_tree metric expr) as [m|].
  - apply eff_keeping, compile_expr_eff.
  - cbv zeta. destruct (String.eqb _ _); [apply eff_ret|by apply resolveBracketExpressions_eff, Hrec].
Qed.

(** A metric refers to the metrics in the brackets of its raw expression, unless
    it has a tree. *)
Definition refers (metric m : Metric) : Prop :=
  met_Expr metric = NilExpr /\ mentions (TrimSpace (met_Expression metric)) m.

Lemma uses_tree_own metric : uses_tree (Some metric) (met_Expression metric) = None <-> met_Expr metric = NilExpr.
Proof using. unfold uses_tree. rewrite String.eqb_refl. by destruct (met_Expr metric). Qed.

Lemma metricAggregate_body_eff metric :
  (forall m, refers metric m -> eff R E (rec m)) ->
  eff R E (metricAggregate_body c model dimMap metricMap resolver rec metric).
Proof using HE.
  intros Hrec. unfold metricAggregate_body. apply eff_bind.
  { apply metricExpressionRef_eff. intros Ht%uses_tree_own m Hm. by apply Hrec. }
  intros expr. destruct (met_Expr metric); eff_tac.
Qed.

Lemma qualifyMetricExpression_eff metric expr :
  (forall m, mentions (TrimSpace expr) m -> eff R E (rec m)) ->
  eff R E (qualifyMetricExpression c model dimMap metricMap resolver rec metric expr).
Proof using HE.
  intros Hrec. unfold qualifyMetricExpression. destruct (uses_tree metric expr) as [m|].
  - apply eff_keeping, compile_expr_eff.
  - cbv zeta. destruct (String.eqb _ _); [apply eff_ret|].
    destruct (has_byte _ _); [by apply resolveBracketExpressions_eff|]. eff_tac.
Qed.
End Rec.
End Fields.
End Text.
