(* ===== verification/MeasuresTotal.v ===== *)
(** When the recursion through bracketed metrics comes to an end.

    A metric [refers] to those its raw expression names in brackets.  The code
    follows the references without a bound; the fuel of the model, one unit per
    metric entered, is enough exactly when no chain of references goes on for
    ever, and then as many units as there are metrics, and one more, do. *)

From S2P Require Import Prelude GoStrings Values Dialect Semantic ReadOnly LogicalQuery PhysicalRef ExprParse.
From S2P Require Import Suggest Pii RowFilter CompileMonad ExprCompile Joins Measures Effects TextEffects.
From stdpp Require Import options.
#[local] Open Scope Z_scope.

Definition start_state : St := mkSt [] [] [] None.

(** * Computations that always succeed, or always run out of fuel *)

Definition starves {A} (m : M A) : Prop := forall st, (m st).1 = Err EFuel.

Lemma starves_bind {A B} (m : M A) (k : A -> M B) : starves m -> starves (bind m k).
Proof. intros Hm st. unfold bind. specialize (Hm st). destruct (m st) as [[a|e] st']; cbn in *; congruence. Qed.
Lemma starves_bind_r {A B} (m : M A) (k : A -> M B) : succeeds m -> (forall a, starves (k a)) -> starves (bind m k).
Proof. intros Hm Hk st. destruct (Hm st) as (a & st' & E). unfold bind. rewrite E. apply Hk. Qed.
Lemma starves_mapM {A B} (f : A -> M B) l :
  Forall (fun x => succeeds (f x) \/ starves (f x)) l -> Exists (fun x => starves (f x)) l -> starves (mapM f l).
Proof.
  induction 1 as [|x l Hx Hl IH]; intros He; [by inversion He|]. cbn [mapM].
  destruct Hx as [Hx|Hx]; [|by apply starves_bind].
  apply starves_bind_r; [done|]. intros y. apply starves_bind. apply IH.
  inversion He as [? ? Hs|]; subst; [|done]. exfalso. destruct (Hx start_state) as (a & st' & Ea).
  specialize (Hs start_state). rewrite Ea in Hs. discriminate.
Qed.

Lemma succeeds_not_starves {A} (m : M A) : succeeds m -> ~ starves m.
Proof. intros Hm Hs. destruct (Hm start_state) as (a & st' & Ea). specialize (Hs start_state). by rewrite Ea in Hs. Qed.

Lemma succeeds_keeping m : succeeds (keeping m).
Proof. intros st. unfold keeping. destruct (m st) as [[a|e] st']; by eexists _, _. Qed.
Lemma succeeds_step {A} (f : St -> A) (g : St -> St) : succeeds (fun st => (Ok (f st), g st)).
Proof. intros st. by eexists _, _. Qed.
#[export] Hint Resolve succeeds_keeping succeeds_step : biq.

Lemma decide_parts {A B} (f : A -> M B) l :
  (forall x, x ∈ l -> succeeds (f x) \/ starves (f x)) ->
  Forall (fun x => succeeds (f x)) l \/ Exists (fun x => starves (f x)) l.
Proof.
  intros Hf. induction l as [|x l IH]; [by left|].
  destruct (Hf x ltac:(by left)) as [Hx|Hx]; [|right; by left].
  destruct IH as [Hl|Hl]; [intros y Hy; apply Hf; by right|left; by constructor|right; by right].
Qed.

Section Total.
Context `{GoRuntime} `{MapOrder} (c : Comp) (model : SemanticModel).
Context (dimMap : gmap string Dimension) (metricMap : gmap string Metric) (resolver : SchemaResolver).
#[local] Abbreviation refers := (refers dimMap metricMap).

Lemma piiSQLForColumnRef_succeeds ref : succeeds (piiSQLForColumnRef c resolver ref).
Proof using.
  unfold piiSQLForColumnRef. destruct (pii c) as [cfg|]; [|auto with biq]. cbv zeta.
  destruct (str_empty _); [auto with biq|]. destruct (lookup _ _) as [[a ty]|]; [|auto with biq].
  destruct (String.eqb _ _); [auto with biq|]. destruct (String.eqb _ _);
    (apply succeeds_bind; [apply succeeds_step|auto with biq]).
Qed.
Lemma dimensionOutputSQL_succeeds dim : succeeds (dimensionOutputSQL c resolver dim).
Proof using.
  unfold dimensionOutputSQL. cbv zeta. destruct (pii c) as [cfg|]; [|auto with biq].
  destruct (piiAccessForDim _ _ _) as [[a ty]|]; [|auto with biq].
  destruct (String.eqb _ _); [auto with biq|]. destruct (String.eqb _ _);
    (apply succeeds_bind; [apply succeeds_step|auto with biq]).
Qed.
Lemma resolveBareCustomExpression_succeeds expr : succeeds (resolveBareCustomExpression c model resolver expr).
Proof using.
  unfold resolveBareCustomExpression. destruct (resolver_ParseColumnRef _ _);
    (apply succeeds_bind; [apply piiSQLForColumnRef_succeeds|]; intros [s|]); auto with biq.
  destruct (str_empty _); [auto with biq|]. cbv zeta.
  apply succeeds_bind; [apply piiSQLForColumnRef_succeeds|]. intros [s|]; auto with biq.
Qed.

Section Rec.
Context (rec : Metric -> M string) (Hrec : forall m, succeeds (rec m) \/ starves (rec m)).

Lemma resolve_part_cases p :
  succeeds (resolve_part c model dimMap metricMap resolver rec p) \/
  starves (resolve_part c model dimMap metricMap resolver rec p) /\
  exists token m, p = PToken token /\ stands_for dimMap metricMap token m /\ starves (rec m).
Proof using Hrec.
  destruct p as [s|token]; cbn [resolve_part]; [left; auto with biq|]. unfold resolveCustomToken. cbv zeta.
  destruct (first_fold _ dimMap) eqn:Ed; [left; apply dimensionOutputSQL_succeeds|].
  destruct (first_fold _ metricMap) as [m|] eqn:Em.
  - destruct (Hrec m) as [Hm|Hm]; [by left|right]. split; [done|]. by exists token, m.
  - left. apply succeeds_bind; [apply piiSQLForColumnRef_succeeds|]. intros [s|]; [auto with biq|].
    destruct (has_byte _ _); [auto with biq|]. destruct (negb _); [|auto with biq].
    apply succeeds_bind; [apply piiSQLForColumnRef_succeeds|]. intros [s|]; auto with biq.
Qed.
Lemma resolve_part_starves token m :
  stands_for dimMap metricMap token m -> starves (rec m) ->
  starves (resolve_part c model dimMap metricMap resolver rec (PToken token)).
Proof using.
  intros [Hd Hm] Hs. cbn [resolve_part]. unfold resolveCustomToken. cbv zeta. by rewrite Hd, Hm.
Qed.

(** Without an opening bracket there is no token. *)
Lemma no_bracket_no_token fuel s : has_byte "[" s = false -> forall t, PToken t ∉ bracket_parts fuel s.
Proof using.
  revert s. induction fuel as [|fuel IH]; intros s Hs t; cbn [bracket_parts]; [by intros ?%elem_of_nil|].
  destruct s as [|ch s]; [by intros ?%elem_of_nil|]. cbn [has_byte] in Hs. apply orb_false_iff in Hs as [Hc Hs].
  unfold bracket_match. rewrite Hc. intros [|Hin]%elem_of_cons; [done|]. by eapply IH.
Qed.

Lemma aggregate_tail metric expr :
  succeeds (match met_Expr metric with
    | NilExpr =>
        if negb (isSupportedAggregation (met_Aggregation metric)) then
          do _ <- set_cerr (EMsg ("unsupported aggregation function: " +:+ met_Aggregation metric)); ret ""
        else ret (Aggregate (dialect c) (met_Aggregation metric) expr)
    | _ => aggregateExpr c (met_Aggregation metric) expr
    end).
Proof using.
  assert (succeeds (aggregateExpr c (met_Aggregation metric) expr)) as Ha.
  { unfold aggregateExpr. cbv zeta. repeat case_match; try apply succeeds_ret. apply succeeds_bind; [apply succeeds_step|auto with biq]. }
  destruct (met_Expr metric); try exact Ha. destruct (negb _); [|auto with biq].
  apply succeeds_bind; [apply succeeds_step|auto with biq].
Qed.

(** The recursive step: it starves exactly when a metric referred to does. *)
Lemma body_cases metric :
  succeeds (metricAggregate_body c model dimMap metricMap resolver rec metric) /\
    (forall m, refers metric m -> succeeds (rec m)) \/
  starves (metricAggregate_body c model dimMap metricMap resolver rec metric) /\
    (exists m, refers metric m /\ starves (rec m)).
Proof using Hrec.
  unfold metricAggregate_body, metricExpressionRef.
  destruct (uses_tree (Some metric) (met_Expression metric)) as [tm|] eqn:Et.
  { left. split.
    - apply succeeds_bind; [apply succeeds_keeping|]. intros expr. apply aggregate_tail.
    - intros m [Hn%uses_tree_own _]. congruence. }
  apply uses_tree_own in Et. cbv zeta. set (expr := TrimSpace (met_Expression metric)).
  destruct (String.eqb_spec expr "*") as [Es|Es].
  { left. split; [apply succeeds_bind; [auto with biq|intros; apply aggregate_tail]|].
    intros m [_ (t & Hin & _)]. exfalso. revert Hin. fold expr. rewrite Es. apply no_bracket_no_token. done. }
  unfold resolveBracketExpressions. rewrite (proj2 (String.eqb_neq _ _) Es).
  assert (forall resolved, succeeds (
    do e <- get_cerr;
    match e with
    | None => if str_empty resolved then ret resolved
              else match Check exprReadOnlyChecker ("SELECT " +:+ resolved) with
                   | Err er => do _ <- set_cerr (EWrap "metric expression failed read-only check" er); ret ""
                   | Ok _ => ret resolved
                   end
    | Some _ => ret resolved
    end)) as Htail.
  { intros resolved. apply succeeds_bind; [apply succeeds_step|]. intros [e|]; [auto with biq|].
    destruct (str_empty _); [auto with biq|]. destruct (Check _ _); [auto with biq|].
    apply succeeds_bind; [apply succeeds_step|auto with biq]. }
  destruct (has_byte "[" expr) eqn:Eb.
  2: { left. split.
       - apply succeeds_bind; [|intros; apply aggregate_tail]. apply succeeds_bind; [|done].
         apply resolveBareCustomExpression_succeeds.
       - intros m [_ (t & Hin & _)]. exfalso. revert Hin. fold expr. by apply no_bracket_no_token. }
  set (parts := split_brackets expr).
  set (f := resolve_part c model dimMap metricMap resolver rec).
  destruct (decide_parts f parts) as [Hall|Hex].
  { intros p _. destruct (resolve_part_cases p) as [Hp|[Hp _]]; [by left|by right]. }
  - left. split.
    + apply succeeds_bind; [|intros; apply aggregate_tail]. apply succeeds_bind; [|done].
      apply succeeds_bind; [|auto with biq]. by apply succeeds_mapM.
    + intros m [_ (t & Hin & Hst)]. destruct (Hrec m) as [Hm|Hm]; [done|]. exfalso.
      rewrite Forall_forall in Hall. apply (succeeds_not_starves _ (Hall _ Hin)). by eapply resolve_part_starves.
  - right. split.
    + apply starves_bind, starves_bind, starves_bind. apply starves_mapM; [|done].
      apply Forall_forall. intros p _. destruct (resolve_part_cases p) as [Hp|[Hp _]]; [by left|by right].
    + apply Exists_exists in Hex as (p & Hin & Hp). destruct (resolve_part_cases p) as [Hs|[_ (t & m & -> & Hst & Hm)]].
      { by destruct (succeeds_not_starves _ Hs). }
      exists m. split; [|done]. split; [done|]. by exists t.
Qed.
End Rec.

#[local] Abbreviation aggregate := (metricAggregate c model dimMap metricMap resolver).

Lemma aggregate_cases fuel m : succeeds (aggregate fuel m) \/ starves (aggregate fuel m).
Proof using.
  revert m. induction fuel as [|fuel IH]; intros m; cbn [metricAggregate]; [by right; intros st|].
  destruct (body_cases (aggregate fuel) IH m) as [[Hm _]|[Hm _]]; [by left|by right].
Qed.

(** The references followed from a metric, for as many steps as given. *)
Inductive Chain : Metric -> list Metric -> Prop :=
| Chain_nil m : Chain m []
| Chain_cons m m' l : refers m m' -> Chain m' l -> Chain m (m' :: l).

Lemma starves_chain fuel m : starves (aggregate fuel m) -> exists l, Chain m l /\ length l = fuel.
Proof using.
  revert m. induction fuel as [|fuel IH]; intros m Hm; [exists []; split; [constructor|done]|].
  cbn [metricAggregate] in Hm.
  destruct (body_cases (aggregate fuel) (aggregate_cases fuel) m) as [[Hs _]|[_ (m' & Hr & Hs)]].
  { by destruct (succeeds_not_starves _ Hs). }
  destruct (IH m' Hs) as (l & Hl & Hlen). exists (m' :: l). split; [by econstructor|]. cbn [length]. lia.
Qed.

(** Every metric referred to is one of the model's. *)
Lemma refers_known m m' : refers m m' -> m' ∈ (map_to_list metricMap).*2.
Proof using.
  intros (_ & t & _ & _ & Hf). unfold first_fold in Hf.
  destruct (List.find _ _) as [[k a]|] eqn:E; [|done]. injection Hf as ->. apply find_some in E as [Hin _].
  apply list_elem_of_In in Hin. rewrite range_perm in Hin. apply list_elem_of_fmap. by exists (k, m').
Qed.
Lemma Chain_known m l : Chain m l -> l ⊆ (map_to_list metricMap).*2.
Proof using.
  induction 1 as [m|m m' l Hr _ IH]; intros x; [by intros ?%elem_of_nil|]. rewrite elem_of_cons.
  intros [->|Hx]; [by eapply refers_known|by apply IH].
Qed.
Lemma Chain_tc m l x : Chain m l -> x ∈ l -> tc refers m x.
Proof using.
  induction 1 as [m|m m' l Hr _ IH]; [by intros ?%elem_of_nil|]. rewrite elem_of_cons.
  intros [->|Hx]; [by apply tc_once|by eapply tc_l, IH].
Qed.
(** No chain of references from [m] goes on for ever. *)
Definition grounded (m : Metric) : Prop := Acc (flip refers) m.

Lemma grounded_tc m x : grounded m -> tc refers m x -> grounded x.
Proof using.
  intros Hm Ht. induction Ht as [m x Hr|m y x Hr _ IH]; [by apply (Acc_inv Hm)|]. apply IH. by apply (Acc_inv Hm).
Qed.
Lemma grounded_no_cycle x : grounded x -> ~ tc refers x x.
Proof using.
  intros Hg. induction Hg as [x _ IH]. intros Ht. inversion Ht as [? ? Hr|? y ? Hr Hyx]; subst; [by apply (IH x Hr), tc_once|].
  apply (IH y Hr). by eapply tc_r.
Qed.

Lemma grounded_chain m l : grounded m -> Chain m l -> (length l <= size metricMap)%nat.
Proof using.
  intros Hg Hl. assert (NoDup l) as Hnd.
  { revert Hg. induction Hl as [m|m m' l Hr Hl IH]; intros Hg; [constructor|].
    assert (grounded m') as Hg' by (eapply grounded_tc; [done|by apply tc_once]).
    constructor; [|by apply IH]. intros Hin. by eapply grounded_no_cycle, Chain_tc. }
  etransitivity; [apply submseteq_length, NoDup_submseteq; [done|by eapply Chain_known]|].
  by rewrite length_fmap, length_map_to_list.
Qed.

Lemma succeeds_grounded fuel m : succeeds (aggregate fuel m) -> grounded m.
Proof using.
  revert m. induction fuel as [|fuel IH]; intros m Hm.
  { destruct (Hm start_state) as (a & st' & E). discriminate E. }
  cbn [metricAggregate] in Hm. constructor. intros m' Hr. apply IH.
  destruct (body_cases (aggregate fuel) (aggregate_cases fuel) m) as [[_ Hs]|[Hs _]]; [by apply Hs|].
  by destruct (succeeds_not_starves _ Hm).
Qed.

Lemma grounded_succeeds m : grounded m -> succeeds (metricAggregate' c model dimMap metricMap resolver m).
Proof using.
  intros Hg. unfold metricAggregate'. destruct (aggregate_cases (metric_fuel metricMap) m) as [|Hs]; [done|].
  apply starves_chain in Hs as (l & Hl & Hlen). apply grounded_chain in Hl; [|done]. unfold metric_fuel in Hlen. lia.
Qed.
End Total.

(** the recursion through bracketed metric names comes to an end exactly when
    no chain of such references goes on for ever, and on nothing else: rendering
    the aggregate of a metric then succeeds, within one unit of fuel per metric
    of the model and one more; and if a chain goes on for ever - a metric that
    names itself, or two that name each other - no amount of fuel is enough, so
    the code, which has no bound, does not come back. *)
Theorem metricAggregate_terminates `{GoRuntime} `{MapOrder} (c : Comp) (model : SemanticModel)
    (dimMap : gmap string Dimension) (metricMap : gmap string Metric) (resolver : SchemaResolver) (m : Metric) :
  let aggregate fuel st := (metricAggregate c model dimMap metricMap resolver fuel m st).1 in
  (grounded dimMap metricMap m /\ forall st, exists sql, aggregate (S (size metricMap)) st = Ok sql) \/
  (~ grounded dimMap metricMap m /\ forall fuel st, aggregate fuel st = Err EFuel).
Proof.
  intros aggregate. destruct (aggregate_cases c model dimMap metricMap resolver (S (size metricMap)) m) as [Hs|Hs].
  - left. split; [by eapply succeeds_grounded|]. intros st. destruct (Hs st) as (sql & st' & E).
    exists sql. unfold aggregate. by rewrite E.
  - right. assert (~ grounded dimMap metricMap m) as Hn.
    { intros Hg%(grounded_succeeds c model dimMap metricMap resolver). by apply (succeeds_not_starves _ Hg). }
    split; [done|]. intros fuel. destruct (aggregate_cases c model dimMap metricMap resolver fuel m) as [Hf|Hf]; [|exact Hf].
    by destruct (Hn (succeeds_grounded c model dimMap metricMap resolver fuel m Hf)).
Qed.

(** A metric over two others, and one that names itself. *)
Definition margin : Metric := mkMetric "margin" "[revenue] - [cost]" NilExpr "custom" None [] None.
Definition looping : Metric := mkMetric "loop" "[LOOP] + 1" NilExpr "custom" None [] None.
Definition metric_examples : gmap string Metric :=
  map_by met_Name [margin; mkMetric "revenue" "orders.amount" NilExpr "sum" None [] None; mkMetric "cost" "orders.cost" NilExpr "sum" None [] None;
                   looping].

Example metric_references :
  let _ := demo_runtime in
  let _ := list_order in
  let c := mkComp (dialect_of MySQL) None [] false in
  let aggregate fuel m :=
    (metricAggregate c example_model ∅ metric_examples (NewSchemaResolver example_model example_query) fuel m start_state).1 in
  aggregate (S (size metric_examples)) margin = Ok "SUM(`orders`.`amount`) - SUM(`orders`.`cost`)" /\
  aggregate 100%nat looping = Err EFuel.
Proof. vm_compute. by split. Qed.
