(* ===== verification/Publish.v ===== *)
(** The publish gate of a semantic model ([internal/semantic/publish.go],
    [publish_validation.go], [validation_sink.go], [budget.go]): a draft is validated
    against the catalogue of its datasource before the query runtime may use it.

    The catalogue ([CatalogReader]), the registered expression parser and the
    registered validator of calculated expressions are parameters; an absent
    registration is [None]. *)

From S2P Require Import Prelude GoStrings Semantic ReadOnly Joins Measures Composite Cycles.
From stdpp Require Import options.
#[local] Open Scope Z_scope.

(** * validation_sink.go *)

Record PublishValidationResult : Type := mkResult {
  Valid : bool;
  Errors : list string;
  Warnings : list string;
  EstimatedPromptSize : Z;
}.
(** The state of a sink is its result. *)
Abbreviation Sink := PublishValidationResult.

Definition newValidationSink : Sink := mkResult true [] [] 0.
Definition addError (msg : string) (s : Sink) : Sink :=
  mkResult false (Errors s ++ [msg]) (Warnings s) (EstimatedPromptSize s).
Definition addWarning (msg : string) (s : Sink) : Sink :=
  mkResult (Valid s) (Errors s) (Warnings s ++ [msg]) (EstimatedPromptSize s).
Definition merge (s : Sink) (other : PublishValidationResult) : Sink :=
  mkResult (Valid s && Valid other) (Errors s ++ Errors other) (Warnings s ++ Warnings other) (EstimatedPromptSize s).

(** [for _, x := range l { f(x) }] over a sink. *)
Definition each {A} (f : A -> Sink -> Sink) (l : list A) (s : Sink) : Sink := fold_left (fun s x => f x s) l s.
Definition addErrorIf (b : bool) (msg : string) (s : Sink) : Sink := if b then addError msg s else s.
Definition addWarningIf (b : bool) (msg : string) (s : Sink) : Sink := if b then addWarning msg s else s.

Definition opt_len (s : option string) : Z := match s with Some s => Z.of_nat (String.length s) | None => 0 end.
Definition estimatePromptSize (model : SemanticModel) : Z :=
  Z.of_nat (String.length (model_Name model)) + Z.of_nat (String.length (model_BaseSchema model))
  + Z.of_nat (String.length (model_BaseTable model)) + opt_len (model_Label model) + opt_len (model_Description model)
  + Z.of_nat (length (model_Dimensions model)) * 180 + Z.of_nat (length (model_Metrics model)) * 160
  + Z.of_nat (length (model_Joins model)) * 120.
Definition newValidationSinkWithPromptSize (model : SemanticModel) : Sink := mkResult true [] [] (estimatePromptSize model).

(** * budget.go *)

Record ContextBudget : Type := mkBudget {
  MaxModels : Z;
  MaxDimensions : Z;
  MaxMetrics : Z;
  MaxJoins : Z;
  MaxPromptChars : Z;
}.
Definition DefaultContextBudget : ContextBudget := mkBudget 3 80 40 30 20000.

Definition over (limit n : Z) (msg : string) : list string := if (0 <? limit) && (limit <? n) then [msg] else [].
Definition EnforceBudget (model : SemanticModel) (budget : ContextBudget) (promptChars : Z) : list string :=
  let dims := Z.of_nat (length (model_Dimensions model)) in
  let mets := Z.of_nat (length (model_Metrics model)) in
  let joins := Z.of_nat (length (model_Joins model)) in
  over (MaxDimensions budget) dims
    ("semantic context exceeds max_dimensions budget: " +:+ Itoa dims +:+ " > " +:+ Itoa (MaxDimensions budget))
  ++ over (MaxMetrics budget) mets
    ("semantic context exceeds max_metrics budget: " +:+ Itoa mets +:+ " > " +:+ Itoa (MaxMetrics budget))
  ++ over (MaxJoins budget) joins
    ("semantic context exceeds max_joins budget: " +:+ Itoa joins +:+ " > " +:+ Itoa (MaxJoins budget))
  ++ over (MaxPromptChars budget) promptChars
    ("semantic context exceeds max_prompt_chars budget: " +:+ Itoa promptChars +:+ " > "
     +:+ Itoa (MaxPromptChars budget) +:+ " (prompt will be auto-trimmed at query time)").

(** * The catalogue *)

Record CatalogColumn : Type := mkColumn {
  SchemaName : string;
  TableName : string;
  ColumnName : string;
}.
Record CatalogRelation : Type := mkRelation {
  FromSchema : string;
  FromTable : string;
  FromColumn : string;
  ToSchema : string;
  ToTable : string;
  ToColumn : string;
}.
Record CatalogPolicy : Type := mkPolicy {
  DeniedFields : list string;
  RowFilters : list string;
}.
Record CatalogReader : Type := mkCatalog {
  ListSemanticColumns : string -> res (list CatalogColumn);
  ListSemanticRelations : string -> res (list CatalogRelation);
  ListSemanticPolicies : string -> res (list CatalogPolicy);
}.

Definition normalizeColumnRef (ref : string) : string :=
  let quote c := Ascii.eqb c "034" in
  ToLower (trim_right quote (trim_left quote (TrimSpace ref))).

Definition full_name (col : CatalogColumn) : string :=
  normalizeColumnRef (SchemaName col +:+ "." +:+ TableName col +:+ "." +:+ ColumnName col).
Definition short_name (col : CatalogColumn) : string := normalizeColumnRef (TableName col +:+ "." +:+ ColumnName col).
Definition buildColumnSet (columns : list CatalogColumn) : gmap string bool :=
  fold_left (fun set col => <[short_name col := true]> (<[full_name col := true]> set)) columns ∅.

Definition has (s : gmap string bool) (defaultSchema ref : string) : bool :=
  let ref := normalizeColumnRef ref in
  if bmap_get s ref then true
  else match Split "." ref with
  | [_; _] => negb (str_empty defaultSchema) && bmap_get s (normalizeColumnRef (defaultSchema +:+ "." +:+ ref))
  | _ => false
  end.
Definition hasTableColumn (s : gmap string bool) (defaultSchema table column : string) : bool :=
  has s defaultSchema (TrimSpace table +:+ "." +:+ TrimSpace column).

(** * Calculated expressions *)

(** The match of [expressionColumnRefRE] that starts here, and the text after it;
    [prev] tells whether a word character precedes. *)
Definition word_starts (s : string) : bool := head_is (fun c => is_alpha c || Ascii.eqb c "_") s.
Definition column_match (prev : bool) (s : string) : option (string * string) :=
  if prev || negb (word_starts s) then None
  else
    let (a, r) := span is_word s in
    match r with
    | String c r =>
        if Ascii.eqb c "." && word_starts r then let (b, r) := span is_word r in Some (a +:+ "." +:+ b, r) else None
    | EmptyString => None
    end.
(** [FindAllString]; one unit of fuel per byte. *)
Fixpoint column_matches (fuel : nat) (prev : bool) (s : string) : list string :=
  match fuel, s with
  | S fuel, String c s' =>
      match column_match prev s with
      | Some (m, r) => m :: column_matches fuel true r
      | None => column_matches fuel (is_word c) s'
      end
  | _, _ => []
  end.
Definition columnRefsInExpression (expression : string) : list string :=
  let expression := TrimSpace expression in
  if str_empty expression || String.eqb expression "*" then []
  else match column_matches (String.length expression) false expression with
  | [] => [expression]
  | matches => matches
  end.

Fixpoint skipCalcExprLineComment (s : string) : string :=
  match s with
  | String c s' => if code c =? 10 then s else skipCalcExprLineComment s'
  | EmptyString => ""
  end%nat.
(** After the opening of the comment. *)
Fixpoint skipCalcExprBlockComment (s : string) : string :=
  match s with
  | String a ((String b r) as s') => if Ascii.eqb a "*" && Ascii.eqb b "/" then r else skipCalcExprBlockComment s'
  | _ => ""
  end.
(** After the opening quote. *)
Fixpoint skipCalcExprQuoted (quote : ascii) (s : string) : string :=
  match s with
  | String c s' =>
      if Ascii.eqb c quote then
        match s' with
        | String c' s'' => if Ascii.eqb c' quote then skipCalcExprQuoted quote s'' else s'
        | EmptyString => s'
        end
      else skipCalcExprQuoted quote s'
  | EmptyString => ""
  end.
(** One unit of fuel per byte of the text. *)
Fixpoint strip_calc (fuel : nat) (s : string) : string :=
  match fuel, s with
  | S fuel, String c s' =>
      if HasPrefix s "--" then strip_calc fuel (skipCalcExprLineComment s)
      else if HasPrefix s "/*" then
        match s' with String _ r => strip_calc fuel (skipCalcExprBlockComment r) | EmptyString => "" end
      else if Ascii.eqb c "'" || Ascii.eqb c "034" then strip_calc fuel (skipCalcExprQuoted c s')
      else String c (strip_calc fuel s')
  | _, _ => ""
  end.
Definition stripCalcExprLiteralsAndComments (sql : string) : string := strip_calc (String.length sql) sql.

Definition dmlKeywords : list string :=
  ["SELECT"; "INSERT"; "UPDATE"; "DELETE"; "DROP"; "ALTER"; "TRUNCATE"; "CREATE"; "GRANT"; "REVOKE"; "MERGE"; "CALL";
   "EXEC"; "EXECUTE"].
(** The text of the first match of (?i)\b kw \b. *)
Fixpoint find_word (kw : string) (prev : bool) (s : string) : option string :=
  if negb prev && match match_fold kw s with Some r => negb (head_is is_word r) | None => false end
  then Some (take_bytes (String.length kw) s)
  else match s with String c s' => find_word kw (is_word c) s' | EmptyString => None end.
Fixpoint first_word (kws : list string) (s : string) : option string :=
  match kws with
  | [] => None
  | kw :: kws => match find_word kw false s with Some w => Some w | None => first_word kws s end
  end.
Definition containsDMLKeyword (expr : string) : option string :=
  first_word dmlKeywords (stripCalcExprLiteralsAndComments expr).

Definition isSQLLiteral (s : string) : bool :=
  let s := TrimSpace s in
  str_empty s || str_in s ["0"; "1"; "NULL"; "null"; "TRUE"; "FALSE"] || (HasPrefix s "'" && HasSuffix s "'")
  || str_forallb is_digit s.

Fixpoint unknown_column (columnSet : gmap string bool) (defaultSchema : string) (cols : list string) : option string :=
  match cols with
  | [] => None
  | col :: cols =>
      if isSQLLiteral col || has columnSet defaultSchema col then unknown_column columnSet defaultSchema cols else Some col
  end.

Definition validateCalculatedExpression (validator : option (string -> res unit)) (expr : string)
    (columnSet : gmap string bool) (defaultSchema : string) : res unit :=
  let expr := TrimSpace expr in
  if str_empty expr then Err (EMsg "calculated expression is empty")
  else
    let? _ := match validator with Some validate => validate expr | None => Ok tt end in
    match unknown_column columnSet defaultSchema (columnRefsInExpression expr) with
    | Some col => Err (EMsg ("unknown column reference: " +:+ col))
    | None =>
        match containsDMLKeyword expr with
        | Some kw => Err (EMsg ("calculated expressions must not contain DML/DDL keyword: " +:+ kw))
        | None => Ok tt
        end
    end.

(** What [getOrParseExpr] returns: [errNoExpr], a tree, or the parser's error. *)
Inductive parsed_expr : Type :=
| NoExpr
| Parsed (expr : ExprNode)
| ParseErr (e : goerr).

Definition getOrParseExpr (parser : option (string -> res ExprNode)) (exprStr : string) (ast : ExprNode) : parsed_expr :=
  match ast with
  | NilExpr =>
      let exprStr := TrimSpace exprStr in
      match parser with
      | Some parse =>
          if str_empty exprStr || String.eqb exprStr "*" then NoExpr
          else match parse exprStr with Ok e => Parsed e | Err e => ParseErr e end
      | None => NoExpr
      end
  | _ => Parsed ast
  end.

(** * publish_validation.go *)

Definition DimensionUnknownColumn : string := "dimension references unknown column".
Definition MetricExpressionUnknownColumn : string := "metric expression references unknown column".
Definition JoinUnknownFromColumn : string := "join references unknown from column".
Definition JoinUnknownToColumn : string := "join references unknown to column".
Definition PermissionPolicyUnknownField : string := "permission policy references unknown field".
Definition PermissionRowFilterUnknownField : string := "permission row filter references unknown field".

Definition validateModelRequiredFields (model : SemanticModel) (s : Sink) : Sink :=
  let s := addErrorIf (str_empty (TrimSpace (model_Name model))) "model name is required" s in
  let s := addErrorIf (str_empty (TrimSpace (model_BaseTable model))) "base table is required" s in
  addErrorIf (match model_Dimensions model with [] => true | _ => false end)
    "model has no active dimensions; AI cannot generate queries without at least one dimension" s.

Record validationCatalog : Type := mkVC {
  vc_columns : gmap string bool;
  vc_relations : list CatalogRelation;
  vc_policies : list CatalogPolicy;
}.
(** The catalogue read, or the text of the error added. *)
Definition loadValidationCatalog (model : SemanticModel) (catalog : CatalogReader) : string + validationCatalog :=
  match ListSemanticColumns catalog (model_DatasourceID model) with
  | Err e => inl ("load datasource columns: " +:+ Error e)
  | Ok columns =>
      match ListSemanticRelations catalog (model_DatasourceID model) with
      | Err e => inl ("load datasource relations: " +:+ Error e)
      | Ok relations =>
          match ListSemanticPolicies catalog (model_DatasourceID model) with
          | Err e => inl ("load permission policies: " +:+ Error e)
          | Ok policies => inr (mkVC (buildColumnSet columns) relations policies)
          end
      end
  end.

(** The loop of [validateDuplicateNames] over the names. *)
Fixpoint validate_names (kind : string) (names : list string) (seen : gset string) (s : Sink) : Sink :=
  match names with
  | [] => s
  | name :: names =>
      let name := TrimSpace name in
      if str_empty name then validate_names kind names seen (addError (kind +:+ " name is required") s)
      else if bool_decide (ToLower name ∈ seen)
      then validate_names kind names seen (addError ("duplicate " +:+ kind +:+ " name: " +:+ name) s)
      else validate_names kind names ({[ToLower name]} ∪ seen) s
  end.
Definition validateDuplicateNames {A} (kind : string) (values : list A) (nameOf : A -> string) : Sink -> Sink :=
  validate_names kind (map nameOf values) ∅.

Definition allowed_names (names : list string) : gmap string bool :=
  fold_left (fun m n => <[ToLower n := true]> m) names ∅.
Definition allowedFieldMaps (model : SemanticModel) : gmap string bool * gmap string bool :=
  (allowed_names (map dim_Name (model_Dimensions model)), allowed_names (map met_Name (model_Metrics model))).

Section Fields.
Context (parser : option (string -> res ExprNode)) (validator : option (string -> res unit)).
Context (model : SemanticModel) (columnSet allowedDims allowedMets : gmap string bool).

Definition addErr (context : string) (r : res unit) (s : Sink) : Sink :=
  match r with Ok _ => s | Err e => addError (context +:+ Error e) s end.

Definition validateCalculatedDimension (dim : Dimension) (s : Sink) : Sink :=
  let name := "dimension " +:+ Quote (dim_Name dim) in
  let s := addErr (name +:+ " calculated expression invalid: ")
             (validateCalculatedExpression validator (dim_CalculatedExpression dim) columnSet (model_BaseSchema model)) s in
  match getOrParseExpr parser (dim_CalculatedExpression dim) (dim_CalculatedExpr dim) with
  | NoExpr => s
  | ParseErr e => addError (name +:+ " calculated expression parse error: " +:+ Error e) s
  | Parsed expr =>
      addErr (name +:+ " calculated expression invalid: ")
        (ValidateExprStrict columnSet allowedMets allowedDims false expr 0) s
  end.

Definition validateContextDimensions : Sink -> Sink :=
  each (fun dim s =>
    if negb (str_empty (dim_CalculatedExpression dim)) then validateCalculatedDimension dim s
    else addErrorIf (negb (has columnSet (model_BaseSchema model) (dim_ColumnRef dim)))
           (DimensionUnknownColumn +:+ ": " +:+ dim_ColumnRef dim) s) (model_Dimensions model).

Definition isModelFieldName (token : string) : bool :=
  existsb (fun d => EqualFold (dim_Name d) token) (model_Dimensions model)
  || existsb (fun m => EqualFold (met_Name m) token) (model_Metrics model).

Definition bracket_tokens (expr : string) : list string :=
  omap (fun p => match p with PToken token => Some token | PText _ => None end) (split_brackets expr).

Definition validateCustomMetricExpression (metric : Metric) : Sink -> Sink :=
  each (fun token s =>
    let token := TrimSpace token in
    if isModelFieldName token then s
    else
      let ref := if Contains token "." then token else model_BaseTable model +:+ "." +:+ token in
      addErrorIf (negb (has columnSet (model_BaseSchema model) ref))
        (MetricExpressionUnknownColumn +:+ ": " +:+ token) s) (bracket_tokens (met_Expression metric)).

Definition validateMetricColumns (metric : Metric) : Sink -> Sink :=
  if String.eqb (ToLower (TrimSpace (met_Aggregation metric))) "custom" || Contains (met_Expression metric) "["
  then validateCustomMetricExpression metric
  else each (fun ref => addErrorIf (negb (has columnSet (model_BaseSchema model) ref))
              (MetricExpressionUnknownColumn +:+ ": " +:+ ref)) (columnRefsInExpression (met_Expression metric)).

Definition validateMetricExpressionAST (metric : Metric) (s : Sink) : Sink :=
  let name := "metric " +:+ Quote (met_Name metric) in
  match getOrParseExpr parser (met_Expression metric) (met_Expr metric) with
  | NoExpr => s
  | ParseErr e => addError (name +:+ " expression parse error: " +:+ Error e) s
  | Parsed expr =>
      let allowMets := String.eqb (ToLower (TrimSpace (met_Aggregation metric))) "custom" in
      addErr (name +:+ " expression invalid: ")
        (ValidateExprStrict columnSet allowedMets allowedDims allowMets expr 0) s
  end.

Definition validateContextMetrics : Sink -> Sink :=
  each (fun metric s => validateMetricExpressionAST metric (validateMetricColumns metric s)) (model_Metrics model).
End Fields.

Definition splitSemanticTable (defaultSchema table : string) : string * string :=
  match Split "." (TrimSpace table) with
  | [schema; name] => (schema, name)
  | _ => (defaultSchema, table)
  end.
Definition sameRelationSide (schemaA tableA columnA schemaB tableB columnB : string) : bool :=
  EqualFold schemaA schemaB && EqualFold tableA tableB && EqualFold columnA columnB.
Definition relationExists (defaultSchema : string) (join : JoinDef) (relations : list CatalogRelation) : bool :=
  let (fromSchema, fromTable) := splitSemanticTable defaultSchema (join_FromTable join) in
  let (toSchema, toTable) := splitSemanticTable defaultSchema (join_ToTable join) in
  existsb (fun rel =>
    sameRelationSide (FromSchema rel) (FromTable rel) (FromColumn rel) fromSchema fromTable (join_FromColumn join)
    && sameRelationSide (ToSchema rel) (ToTable rel) (ToColumn rel) toSchema toTable (join_ToColumn join)
    || sameRelationSide (FromSchema rel) (FromTable rel) (FromColumn rel) toSchema toTable (join_ToColumn join)
    && sameRelationSide (ToSchema rel) (ToTable rel) (ToColumn rel) fromSchema fromTable (join_FromColumn join)) relations.

Definition validateJoinRelationship (join : JoinDef) (s : Sink) : Sink :=
  let relationship := ToLower (TrimSpace (join_Relationship join)) in
  if str_in relationship [""; RelationshipOneToOne; RelationshipManyToOne] then s
  else if str_in relationship [RelationshipOneToMany; RelationshipManyToMany]
  then addWarning ("join can fan out aggregations: " +:+ join_Name join +:+ " uses " +:+ join_Relationship join) s
  else addError ("join has invalid relationship type: " +:+ join_Relationship join) s.

Definition validateContextJoins (model : SemanticModel) (columnSet : gmap string bool) (relations : list CatalogRelation)
    : Sink -> Sink :=
  each (fun join s =>
    let schema := model_BaseSchema model in
    let s := addErrorIf (negb (hasTableColumn columnSet schema (join_FromTable join) (join_FromColumn join)))
               (JoinUnknownFromColumn +:+ ": " +:+ join_FromTable join +:+ "." +:+ join_FromColumn join) s in
    let s := addErrorIf (negb (hasTableColumn columnSet schema (join_ToTable join) (join_ToColumn join)))
               (JoinUnknownToColumn +:+ ": " +:+ join_ToTable join +:+ "." +:+ join_ToColumn join) s in
    let s := addWarningIf (negb (relationExists schema join relations))
               ("join does not match datasource metadata relation: " +:+ join_Name join +:+ " (manual join)") s in
    validateJoinRelationship join s) (model_Joins model).

(** * publish.go: cycles, policies, the whole validation *)

Definition dim_key (name : string) : string := "dim:" +:+ ToLower name.
Definition met_key (name : string) : string := "met:" +:+ ToLower name.

Definition addCalcExprDeps (parser : option (string -> res ExprNode)) (nodeKey exprStr : string) (ast : ExprNode)
    (adj : adjacency) : adjacency :=
  match getOrParseExpr parser exprStr ast with
  | Parsed NilExpr | NoExpr | ParseErr _ => adj
  | Parsed expr =>
      let deps := ExprDependencies expr in
      let adj := fold_left (fun adj d => push adj nodeKey (dim_key d)) (dep_dims deps) adj in
      fold_left (fun adj m => push adj nodeKey (met_key m)) (dep_mets deps) adj
  end.
Definition buildCalcExprDependencyAdj (parser : option (string -> res ExprNode)) (model : SemanticModel) : adjacency :=
  let adj := fold_left (fun adj d =>
    addCalcExprDeps parser (dim_key (dim_Name d)) (dim_CalculatedExpression d) (dim_CalculatedExpr d) adj)
    (model_Dimensions model) ∅ in
  fold_left (fun adj m => addCalcExprDeps parser (met_key (met_Name m)) (met_Expression m) (met_Expr m) adj)
    (model_Metrics model) adj.
Definition checkCircularDependencies `{MapOrder} (parser : option (string -> res ExprNode)) (model : SemanticModel)
    : res (list string) :=
  findCalcExprCycles (buildCalcExprDependencyAdj parser model).

Definition policy_fields (model : SemanticModel) : gmap string bool :=
  let add names fields :=
    fold_left (fun fields n =>
      <[ToLower (model_Name model +:+ "." +:+ n) := true]> (<[ToLower n := true]> fields)) names fields in
  add (map met_Name (model_Metrics model)) (add (map dim_Name (model_Dimensions model)) (∅ : gmap string bool)).
Definition validate_field (fields : gmap string bool) (context field : string) : Sink -> Sink :=
  let field := ToLower (TrimSpace field) in
  addErrorIf (negb (str_empty field || bmap_get fields field)) (context +:+ ": " +:+ field).
Definition validatePolicies (model : SemanticModel) (policies : list CatalogPolicy) : Sink -> Sink :=
  let fields := policy_fields model in
  each (fun policy s =>
    each (validate_field fields PermissionRowFilterUnknownField) (RowFilters policy)
      (each (validate_field fields PermissionPolicyUnknownField) (DeniedFields policy) s)) policies.

Definition appendContextBudgetWarnings (model : SemanticModel) (s : Sink) : Sink :=
  let s := addWarningIf (60000 <? EstimatedPromptSize s)
             ("semantic context prompt estimate is high: " +:+ Itoa (EstimatedPromptSize s) +:+ " runes") s in
  each addWarning (EnforceBudget model DefaultContextBudget (EstimatedPromptSize s)) s.

Definition ValidateContext `{MapOrder} (parser : option (string -> res ExprNode)) (validator : option (string -> res unit))
    (model : SemanticModel) (catalog : CatalogReader) : res PublishValidationResult :=
  let s := validateModelRequiredFields model (newValidationSinkWithPromptSize model) in
  match loadValidationCatalog model catalog with
  | inl msg => Ok (addError msg s)
  | inr vc =>
      let s := validateDuplicateNames "dimension" (model_Dimensions model) dim_Name s in
      let s := validateDuplicateNames "metric" (model_Metrics model) met_Name s in
      let s := validateDuplicateNames "relationship" (model_Joins model) join_Name s in
      let (allowedDims, allowedMets) := allowedFieldMaps model in
      let s := validateContextDimensions parser validator model (vc_columns vc) allowedDims allowedMets s in
      let s := validateContextMetrics parser model (vc_columns vc) allowedDims allowedMets s in
      let s := validateContextJoins model (vc_columns vc) (vc_relations vc) s in
      let? cycles := checkCircularDependencies parser model in
      let s := each addError cycles s in
      let s := validatePolicies model (vc_policies vc) s in
      Ok (appendContextBudgetWarnings model s)
  end.

(** * What a check reports *)

(** A sink's check: it adds errors, and none exactly when [P] holds; [Valid] stays
    set when none is added. *)
Definition reports (f : Sink -> Sink) (P : Prop) : Prop :=
  forall s, exists errs, Errors (f s) = Errors s ++ errs /\ Valid (f s) = Valid s && bool_decide (errs = []) /\
    (errs = [] <-> P).

Lemma reports_iff (P Q : Prop) f : reports f P -> (P <-> Q) -> reports f Q.
Proof. intros Hf Hpq s. destruct (Hf s) as (errs & ? & ? & ?). exists errs. split_and!; [done..|]. by rewrite <- Hpq. Qed.
Lemma reports_id : reports id True.
Proof. intros s. exists []. by rewrite List.app_nil_r, bool_decide_true, andb_true_r. Qed.
Lemma reports_addError msg : reports (addError msg) False.
Proof. intros s. exists [msg]. split_and!; [done|by rewrite bool_decide_false, andb_false_r|done]. Qed.
Lemma reports_comp f g P Q : reports f P -> reports g Q -> reports (fun s => g (f s)) (P /\ Q).
Proof.
  intros Hf Hg s. destruct (Hf s) as (e1 & E1 & V1 & H1). destruct (Hg (f s)) as (e2 & E2 & V2 & H2).
  exists (e1 ++ e2). rewrite E2, E1, List.app_assoc, V2, V1. split_and!; [done| |].
  - rewrite <- andb_assoc. f_equal. destruct e1 as [|x e1]; [by rewrite (bool_decide_true (@nil string = []))|].
    by rewrite !(bool_decide_false (x :: _ = [])).
  - rewrite <- H1, <- H2. split; [apply app_eq_nil|by intros [-> ->]].
Qed.
Lemma reports_warning f : (forall s, Errors (f s) = Errors s /\ Valid (f s) = Valid s) -> reports f True.
Proof. intros Hf s. exists []. destruct (Hf s) as [-> ->]. by rewrite List.app_nil_r, bool_decide_true, andb_true_r. Qed.
Lemma reports_addErrorIf b msg : reports (addErrorIf b msg) (b = false).
Proof.
  destruct b; [eapply reports_iff; [apply reports_addError|done]|].
  eapply reports_iff; [apply reports_id|done].
Qed.
Lemma reports_addWarningIf b msg : reports (addWarningIf b msg) True.
Proof. apply reports_warning. by destruct b. Qed.
Lemma reports_addErr ctx r : reports (addErr ctx r) (r = Ok tt).
Proof.
  destruct r as [[]|e]; cbn; [eapply reports_iff; [apply reports_id|done]|].
  eapply reports_iff; [apply reports_addError|done].
Qed.
Lemma reports_each {A} (f : A -> Sink -> Sink) (P : A -> Prop) l :
  (forall x, reports (f x) (P x)) -> reports (each f l) (Forall P l).
Proof.
  intros Hf. induction l as [|x l IH]; [eapply reports_iff; [apply reports_id|done]|].
  eapply reports_iff; [apply (reports_comp (f x) (each f l)); [apply Hf|exact IH]|]. by rewrite Forall_cons.
Qed.
Create HintDb reports.
#[export] Hint Resolve reports_id reports_addError reports_addErrorIf reports_addWarningIf reports_addErr : reports.

Lemma reports_cycles cycles : reports (each addError cycles) (cycles = []).
Proof.
  eapply reports_iff; [apply (reports_each _ (fun _ => False)); intros; apply reports_addError|].
  split; [intros H; destruct H as [|? ? []]; done|by intros ->].
Qed.

(** ** Names *)

Definition name_key (name : string) : string := ToLower (TrimSpace name).
(** Names that are present and differ in more than case and surrounding space. *)
Definition distinct_names (names : list string) : Prop :=
  Forall (fun n => TrimSpace n <> "") names /\ NoDup (map name_key names).

Lemma reports_names kind names seen :
  reports (validate_names kind names seen)
    (Forall (fun n => TrimSpace n <> "") names /\ NoDup (map name_key names) /\ Forall (fun n => name_key n ∉ seen) names).
Proof.
  revert seen. induction names as [|name names IH]; intros seen.
  { eapply reports_iff; [apply reports_id|]. cbn. split; [intros _; split_and!; constructor|done]. }
  cbn [validate_names]. cbv zeta. fold (name_key name).
  unfold str_empty. destruct (String.eqb_spec (TrimSpace name) "") as [He|He].
  { eapply reports_iff; [apply (reports_comp _ (validate_names kind names seen)); [apply reports_addError|apply IH]|].
    rewrite Forall_cons. tauto. }
  change (ToLower (TrimSpace name)) with (name_key name). case_bool_decide as Hs.
  { eapply reports_iff; [apply (reports_comp _ (validate_names kind names seen)); [apply reports_addError|apply IH]|].
    rewrite !Forall_cons. tauto. }
  eapply reports_iff; [apply IH|]. cbn [map]. rewrite !Forall_cons, NoDup_cons. split.
  - intros (H1 & H2 & H3). rewrite Forall_forall in H3. split_and!; try done.
    + intros (n & Hn & Hin)%list_elem_of_fmap. specialize (H3 n Hin). set_solver.
    + apply Forall_forall. intros n Hn. specialize (H3 n Hn). set_solver.
  - intros ((_ & H1) & (Hn & H2) & (_ & H3)). split_and!; try done. rewrite Forall_forall in *. intros n Hin.
    specialize (H3 n Hin). apply not_elem_of_union. split; [|done]. rewrite elem_of_singleton. intros Heq. apply Hn.
    apply list_elem_of_fmap. by exists n.
Qed.
Lemma reports_duplicates {A} kind (values : list A) nameOf :
  reports (validateDuplicateNames kind values nameOf) (distinct_names (map nameOf values)).
Proof.
  eapply reports_iff; [apply reports_names|]. unfold distinct_names. split; [tauto|]. intros [? ?]. split_and!; try done.
  apply Forall_true. intros n. apply not_elem_of_empty.
Qed.
#[export] Hint Resolve reports_cycles reports_duplicates : reports.

(** * What an expression refers to *)

(** A name: a letter or an underscore, and letters, digits and underscores. *)
Definition is_name (a : string) : Prop :=
  head_is (fun c => is_alpha c || Ascii.eqb c "_") a = true /\ str_forallb is_word a = true.
Definition pair_follows (a r : string) : Prop :=
  is_name a /\ exists b r', r = "." +:+ b +:+ r' /\ is_name b /\ head_is is_word r' = false.

(** [ColumnRefs s l]: read from the left, word after word, the text [s] has the pairs of
    names [l] that are joined by a dot.  A pair is not read again: of [a.b.c] the pair is
    [a.b]. Nothing is special between quotes. *)
Inductive ColumnRefs : string -> list string -> Prop :=
| ColumnRefs_end : ColumnRefs "" []
| ColumnRefs_pair a b r l :
    is_name a -> is_name b -> head_is is_word r = false -> ColumnRefs r l ->
    ColumnRefs (a +:+ "." +:+ b +:+ r) ((a +:+ "." +:+ b) :: l)
| ColumnRefs_word a r l :
    a <> "" -> str_forallb is_word a = true -> head_is is_word r = false -> ~ pair_follows a r -> ColumnRefs r l ->
    ColumnRefs (a +:+ r) l
| ColumnRefs_other c s l : is_word c = false -> ColumnRefs s l -> ColumnRefs (String c s) l.

(** The columns an expression is taken to refer to: its pairs, or, where there is none, the
    whole of it; none for a blank one or a star. *)
Definition columns_of (expr : string) (cols : list string) : Prop :=
  (expr = "" \/ expr = "*") /\ cols = [] \/
  (expr <> "" /\ expr <> "*") /\ exists refs, ColumnRefs expr refs /\ cols = match refs with [] => [expr] | _ => refs end.

(** [Bracketed s l]: the names in brackets of the text, from the left: an opening bracket and,
    after one byte or more, the first closing one. *)
Definition token_opens (s : string) : Prop :=
  exists t r, s = "[" +:+ t +:+ "]" +:+ r /\ t <> "" /\ has_byte "]" t = false.
Inductive Bracketed : string -> list string -> Prop :=
| Bracketed_end : Bracketed "" []
| Bracketed_token t r l : t <> "" -> has_byte "]" t = false -> Bracketed r l -> Bracketed ("[" +:+ t +:+ "]" +:+ r) (t :: l)
| Bracketed_other c s l : ~ token_opens (String c s) -> Bracketed s l -> Bracketed (String c s) l.

(** The text without its quotes: after [Strips], without its literals. *)
Fixpoint drop_quotes (s : string) : string :=
  match s with
  | String c s => if is_char sq c || is_char dq c then drop_quotes s else String c (drop_quotes s)
  | EmptyString => ""
  end.
Definition forbidden_words : list string :=
  ["SELECT"; "INSERT"; "UPDATE"; "DELETE"; "DROP"; "ALTER"; "TRUNCATE"; "CREATE"; "GRANT"; "REVOKE"; "MERGE"; "CALL";
   "EXEC"; "EXECUTE"].
(** Outside comments and literals stands none of the words. *)
Definition no_statement_word (expr : string) : Prop :=
  exists o, Strips expr o /\ Forall (fun kw => ~ word_occurs kw (drop_quotes o)) forbidden_words.

(** The tree of an expression: the one it came with, or what the registered parser makes of a
    text that is neither blank nor a star. *)
Definition tree_of (parser : option (string -> res ExprNode)) (text : string) (ast : ExprNode) : parsed_expr :=
  match ast, parser with
  | NilExpr, Some parse =>
      if decide (TrimSpace text = "" \/ TrimSpace text = "*") then NoExpr
      else match parse (TrimSpace text) with Ok e => Parsed e | Err e => ParseErr e end
  | NilExpr, None => NoExpr
  | _, _ => Parsed ast
  end.
Lemma tree_of_getOrParse parser text ast : getOrParseExpr parser text ast = tree_of parser text ast.
Proof.
  unfold getOrParseExpr, tree_of. destruct ast; try done. cbv zeta. destruct parser as [parse|]; [|done]. unfold str_empty.
  destruct (String.eqb_spec (TrimSpace text) ""), (String.eqb_spec (TrimSpace text) "*"); cbn [orb];
    case_decide; try done; naive_solver.
Qed.

(** ** The code finds these *)

Lemma span_word a r : str_forallb is_word a = true -> head_is is_word r = false -> span is_word (a +:+ r) = (a, r).
Proof. apply span_app. Qed.
Lemma name_word a : is_name a -> a <> "" /\ str_forallb is_word a = true.
Proof. intros [Hh Hw]. split; [|done]. by intros ->. Qed.
Lemma column_match_name s : column_match true s = None.
Proof. done. Qed.
Lemma word_starts_app a r : a <> "" -> word_starts (a +:+ r) = word_starts a.
Proof. by destruct a. Qed.
Lemma column_match_pair a b r : is_name a -> is_name b -> head_is is_word r = false ->
  column_match false (a +:+ "." +:+ b +:+ r) = Some (a +:+ "." +:+ b, r).
Proof.
  intros Ha Hb Hr. destruct (name_word _ Ha) as [Ha0 Haw], (name_word _ Hb) as [Hb0 Hbw]. unfold column_match.
  rewrite word_starts_app by done. unfold word_starts at 1. rewrite (proj1 Ha). cbn [orb negb].
  rewrite span_word by done. rewrite app_cons, app_nil_l. cbn [Ascii.eqb]. rewrite word_starts_app by done. unfold word_starts.
  rewrite (proj1 Hb). change (Ascii.eqb "." ".") with true. cbn [andb]. by rewrite span_word.
Qed.
Lemma column_match_word a r : a <> "" -> str_forallb is_word a = true -> head_is is_word r = false -> ~ pair_follows a r ->
  column_match false (a +:+ r) = None.
Proof.
  intros Ha Haw Hr Hn. unfold column_match. rewrite word_starts_app by done. destruct (word_starts a) eqn:Es; [|done]. cbn [orb negb].
  rewrite span_word by done. destruct r as [|c r]; [done|]. destruct (Ascii.eqb_spec c ".") as [->|]; [|done]. cbn [andb].
  destruct (word_starts r) eqn:Er; [|done]. exfalso. apply Hn. split; [done|].
  pose proof (span_spec is_word r) as Hs. destruct (span is_word r) as [b r']. destruct Hs as (-> & Hb & Hr').
  exists b, r'. split; [done|]. split; [|done]. split; [|done]. destruct b; [|done].
  rewrite app_nil_l in Er. destruct r' as [|d r']; [done|]. unfold word_starts in Er. cbn in Er, Hr'. unfold is_word in Hr'.
  unfold is_char in Hr'. destruct (is_alpha d); [done|]. cbn in Er, Hr'. apply Ascii.eqb_eq in Er as ->. by rewrite orb_true_r in Hr'.
Qed.
Lemma matches_skip fuel a r : str_forallb is_word a = true -> (String.length a <= fuel)%nat ->
  column_matches fuel true (a +:+ r) = column_matches (fuel - String.length a) true r.
Proof.
  revert fuel. induction a as [|c a IH]; intros fuel Ha Hf.
  - by rewrite app_nil_l, Nat.sub_0_r.
  - cbn in Ha, Hf. apply andb_true_iff in Ha as [Hc Ha]. destruct fuel as [|fuel]; [lia|]. rewrite app_cons. cbn [column_matches column_match orb].
    rewrite Hc, IH by (done || lia). done.
Qed.
Lemma matches_boundary fuel r : head_is is_word r = false -> column_matches fuel true r = column_matches fuel false r.
Proof.
  intros Hr. destruct fuel as [|fuel]; [done|]. destruct r as [|c r]; [done|]. cbn [column_matches].
  assert (column_match false (String c r) = None) as ->; [|done]. unfold column_match.
  assert (word_starts (String c r) = false) as ->; [|done]. unfold word_starts. cbn in Hr |- *. unfold is_word, is_char in Hr.
  destruct (is_alpha c); [done|]. cbn in Hr |- *. destruct (Ascii.eqb_spec c "_") as [->|]; [|done]. by rewrite orb_true_r in Hr.
Qed.
Lemma matches_word fuel a r : a <> "" -> str_forallb is_word a = true -> head_is is_word r = false -> ~ pair_follows a r ->
  (String.length a <= fuel)%nat -> column_matches fuel false (a +:+ r) = column_matches (fuel - String.length a) false r.
Proof.
  intros Ha Haw Hr Hn Hf. pose proof (column_match_word a r Ha Haw Hr Hn) as Hm. destruct a as [|c a]; [done|].
  destruct fuel as [|fuel]; [cbn in Hf; lia|]. rewrite app_cons in *. cbn [column_matches]. rewrite Hm.
  cbn in Haw, Hf. apply andb_true_iff in Haw as [Hc Haw]. rewrite Hc, matches_skip by (done || lia).
  by rewrite matches_boundary.
Qed.
Lemma ColumnRefs_matches s l : ColumnRefs s l -> forall fuel, (String.length s <= fuel)%nat -> column_matches fuel false s = l.
Proof.
  induction 1 as [|a b r l Ha Hb Hr _ IH|a r l Ha Haw Hr Hn _ IH|c s l Hc _ IH]; intros fuel Hf.
  - by destruct fuel.
  - pose proof (column_match_pair a b r Ha Hb Hr) as Hm. destruct (name_word _ Ha) as [Ha0 _].
    assert (String.length r < String.length (a +:+ "." +:+ b +:+ r))%nat as Hlen by (rewrite !length_app; cbn [String.length]; lia).
    destruct a as [|c a]; [done|]. rewrite app_cons in *. destruct fuel as [|fuel]; [lia|]. cbn [column_matches]. rewrite Hm. f_equal.
    rewrite matches_boundary by done. apply IH. lia.
  - rewrite length_app in Hf. rewrite matches_word by (done || lia). apply IH. lia.
  - destruct fuel as [|fuel]; [cbn in Hf; lia|]. cbn [column_matches]. unfold column_match.
    assert (word_starts (String c s) = false) as ->.
    { unfold word_starts. unfold is_word, is_char in Hc. cbn. apply orb_false_iff in Hc as [[-> _]%orb_false_iff Hc].
      by rewrite Ascii.eqb_sym. }
    cbn [orb negb]. rewrite Hc. apply IH. cbn in Hf. lia.
Qed.
#[export] Instance pair_follows_dec a r : Decision (pair_follows a r).
Proof.
  destruct (head_is (fun c => is_alpha c || Ascii.eqb c "_") a && str_forallb is_word a) eqn:Ea.
  2: { right. intros [[H1 H2] _]. by rewrite H1, H2 in Ea. }
  apply andb_true_iff in Ea. destruct r as [|c r]; [right; by intros (_ & b & r' & ? & _)|].
  destruct (Ascii.eqb_spec c ".") as [->|Hc].
  2: { right. intros (_ & b & r' & E & _). by injection E. }
  destruct (head_is (fun c => is_alpha c || Ascii.eqb c "_") (span is_word r).1) eqn:Eb.
  - left. split; [done|]. pose proof (span_spec is_word r) as Hs. destruct (span is_word r) as [b r']. destruct Hs as (-> & Hb & Hr').
    by exists b, r'.
  - right. intros (_ & b & r' & E & [Hb1 Hb2] & Hr'). rewrite app_cons, app_nil_l in E. injection E as ->.
    rewrite span_word in Eb by done. cbn in Eb. congruence.
Defined.
Lemma ColumnRefs_total s : exists l, ColumnRefs s l.
Proof.
  remember (String.length s) as n eqn:Hn. assert (String.length s <= n)%nat as Hle by lia. clear Hn.
  revert s Hle. induction n as [|n IH]; intros s Hle; [destruct s; [exists []; constructor|cbn in Hle; lia]|].
  destruct s as [|c s]; [exists []; constructor|]. destruct (is_word c) eqn:Hc.
  2: { destruct (IH s) as [l Hl]; [cbn in Hle; lia|]. exists l. by constructor. }
  pose proof (span_spec is_word (String c s)) as Hs. cbn [span] in Hs. rewrite Hc in Hs.
  destruct (span is_word s) as [a r]. destruct Hs as (E & Ha & Hr). rewrite E in *. rewrite length_app in Hle. cbn in Hle.
  destruct (decide (pair_follows (String c a) r)) as [(Hn & b & r' & -> & Hb & Hr')|Hn].
  - rewrite !length_app in Hle. cbn in Hle. destruct (IH r') as [l Hl]; [lia|]. eexists. by constructor.
  - destruct (IH r) as [l Hl]; [lia|]. eexists. by apply ColumnRefs_word.
Qed.
Lemma columns_of_exact expr cols : columns_of (TrimSpace expr) cols <-> columnRefsInExpression expr = cols.
Proof.
  unfold columns_of, columnRefsInExpression. cbv zeta. set (e := TrimSpace expr). unfold str_empty.
  destruct (String.eqb_spec e "") as [He|He]; cbn [orb]; [naive_solver|].
  destruct (String.eqb_spec e "*") as [Hs|Hs]; [naive_solver|].
  transitivity (exists refs, ColumnRefs e refs /\ cols = match refs with [] => [e] | _ => refs end); [naive_solver|].
  destruct (ColumnRefs_total e) as [l Hl]. pose proof (ColumnRefs_matches _ _ Hl _ (le_n _)) as Hm. rewrite Hm. split.
  - intros (refs & Hr & ->). rewrite (ColumnRefs_matches _ _ Hr _ (le_n _)) in Hm. subst. by destruct l.
  - intros <-. exists l. split; [done|]. by destruct l.
Qed.

Lemma bracket_match_opens t r : t <> "" -> has_byte "]" t = false -> bracket_match ("[" +:+ t +:+ "]" +:+ r) = Some (t, r).
Proof.
  intros Ht Hn. rewrite app_cons, app_nil_l. cbn [bracket_match]. change (Ascii.eqb "[" "[") with true. cbn iota.
  apply has_byte_forallb in Hn.
  assert (str_forallb (fun c => negb (Ascii.eqb c "]")) t = true) as Hn'.
  { revert Hn. apply str_forallb_impl. intros c. unfold is_char. by rewrite Ascii.eqb_sym. }
  rewrite span_app by done. rewrite app_cons, app_nil_l. unfold str_empty. by destruct (String.eqb_spec t "").
Qed.
Lemma bracket_match_spec s t r : bracket_match s = Some (t, r) -> s = "[" +:+ t +:+ "]" +:+ r /\ t <> "" /\ has_byte "]" t = false.
Proof.
  destruct s as [|c s]; [done|]. cbn [bracket_match]. destruct (Ascii.eqb_spec c "[") as [->|]; [|done].
  pose proof (span_spec (fun c => negb (Ascii.eqb c "]")) s) as Hs. destruct (span _ s) as [a b]. destruct Hs as (-> & Ha & Hb).
  destruct b as [|d b]; [done|]. cbn in Hb. apply negb_false_iff, Ascii.eqb_eq in Hb as ->. unfold str_empty.
  destruct (String.eqb_spec a ""); [done|]. intros [= -> ->]. split_and!; [done..|]. apply has_byte_forallb.
  revert Ha. apply str_forallb_impl. intros c. unfold is_char. by rewrite Ascii.eqb_sym.
Qed.
Lemma bracket_match_none s : bracket_match s = None <-> ~ token_opens s.
Proof.
  split.
  - intros Hm (t & r & -> & Ht & Hn). by rewrite bracket_match_opens in Hm.
  - intros Hn. destruct (bracket_match s) as [[t r]|] eqn:E; [|done]. destruct Hn. apply bracket_match_spec in E as (? & ? & ?). by exists t, r.
Qed.
Definition tokens_in (fuel : nat) (s : string) : list string :=
  omap (fun p => match p with PToken token => Some token | PText _ => None end) (bracket_parts fuel s).
Lemma Bracketed_tokens s l : Bracketed s l -> forall fuel, (String.length s <= fuel)%nat -> tokens_in fuel s = l.
Proof.
  induction 1 as [|t r l Ht Hn _ IH|c s l Hn%bracket_match_none _ IH]; intros fuel Hf.
  - by destruct fuel.
  - pose proof (bracket_match_opens t r Ht Hn) as Hm.
    assert (String.length r < String.length ("[" +:+ t +:+ "]" +:+ r))%nat as Hlen by (rewrite !length_app; cbn [String.length]; lia).
    rewrite app_cons, app_nil_l in *. destruct fuel as [|fuel]; [lia|]. unfold tokens_in. cbn [bracket_parts]. rewrite Hm. cbn [omap list_omap]. f_equal. apply IH. lia.
  - destruct fuel as [|fuel]; [cbn in Hf; lia|]. unfold tokens_in. cbn [bracket_parts]. rewrite Hn. cbn [omap list_omap]. apply IH. cbn in Hf. lia.
Qed.
Lemma Bracketed_total s : exists l, Bracketed s l.
Proof.
  remember (String.length s) as n eqn:Hn. assert (String.length s <= n)%nat as Hle by lia. clear Hn.
  revert s Hle. induction n as [|n IH]; intros s Hle; [destruct s; [exists []; constructor|cbn in Hle; lia]|].
  destruct s as [|c s]; [exists []; constructor|]. destruct (bracket_match (String c s)) as [[t r]|] eqn:E.
  - apply bracket_match_spec in E as (E & Ht & Hb). rewrite E in *. rewrite !length_app in Hle. cbn in Hle.
    destruct (IH r) as [l Hl]; [lia|]. eexists. by constructor.
  - destruct (IH s) as [l Hl]; [cbn in Hle; lia|]. exists l. apply Bracketed_other; [by apply bracket_match_none|done].
Qed.
Lemma Bracketed_exact s l : Bracketed s l <-> bracket_tokens s = l.
Proof.
  destruct (Bracketed_total s) as [l' Hl]. pose proof (Bracketed_tokens _ _ Hl _ (le_n _)) as Hm.
  change (tokens_in (String.length s) s) with (bracket_tokens s) in Hm. rewrite Hm. split; [|by intros <-].
  intros Hl'. pose proof (Bracketed_tokens _ _ Hl' _ (le_n _)) as Hm'.
  change (tokens_in (String.length s) s) with (bracket_tokens s) in Hm'. congruence.
Qed.

Lemma calc_line s : skipCalcExprLineComment s = skipReadonlyLineComment s.
Proof.
  induction s as [|c s IH]; [done|]. cbn. rewrite IH.
  assert ((code c =? 10)%nat = is_char newline c) as ->; [|done]. apply eqb_true_iff. revert c. by apply ascii_forallb.
Qed.
Lemma calc_block s : skipCalcExprBlockComment s = skip_to_close s.
Proof.
  induction s as [|a s IH]; [done|]. destruct s as [|b s].
  - cbn [skipCalcExprBlockComment skip_to_close cut_prefix]. by destruct (Ascii.eqb "*" a).
  - change (skipCalcExprBlockComment (String a (String b s))) with
      (if Ascii.eqb a "*" && Ascii.eqb b "/" then s else skipCalcExprBlockComment (String b s)).
    change (skip_to_close (String a (String b s))) with
      (match cut_prefix "*/" (String a (String b s)) with Some r => r | None => skip_to_close (String b s) end).
    rewrite IH. cbn [cut_prefix]. rewrite (Ascii.eqb_sym a), (Ascii.eqb_sym b). by destruct (Ascii.eqb "*" a), (Ascii.eqb "/" b).
Qed.
Lemma calc_quoted q s : skipCalcExprQuoted q s = (skip_quoted q s).2.
Proof.
  remember (String.length s) as n eqn:Hn. assert (String.length s <= n)%nat as Hle by lia. clear Hn.
  revert s Hle. induction n as [|n IH]; intros s Hle; [destruct s; [done|cbn in Hle; lia]|].
  destruct s as [|c s]; [done|]. cbn in Hle. cbn [skipCalcExprQuoted skip_quoted]. unfold is_char.
  rewrite (Ascii.eqb_sym c). destruct (Ascii.eqb q c); [|apply IH; lia].
  destruct s as [|d s]; [done|]. cbn in Hle. rewrite (Ascii.eqb_sym d). destruct (Ascii.eqb q d); [|done]. apply IH. lia.
Qed.
Lemma strip_calc_quote fuel q s : q = sq \/ q = dq -> strip_calc (S fuel) (String q s) = strip_calc fuel (skip_quoted q s).2.
Proof. intros [-> | ->]; cbn [strip_calc]; rewrite calc_quoted; done. Qed.
Lemma Strips_calc s o : Strips s o -> forall fuel, (String.length s <= fuel)%nat -> strip_calc fuel s = drop_quotes o.
Proof.
  induction 1 as [|b r o Hb He Hr IH|b r o Hb Hr IH|b Hb|q v r o Hqq Hh Hr IH|q v Hqq|c s o H1 H2 H3 H4 Hr IH];
    intros [|fuel] Hf; try (simpl in Hf; lia).
  - done.
  - done.
  - change (strip_calc (S fuel) ("--" +:+ b +:+ r)) with (strip_calc fuel (skipCalcExprLineComment ("--" +:+ b +:+ r))).
    rewrite calc_line, skip_line_dashes, skip_line_app by done. apply IH. rewrite !length_app in Hf. cbn in Hf. lia.
  - change (strip_calc (S fuel) ("/*" +:+ b +:+ "*/" +:+ r)) with (strip_calc fuel (skipCalcExprBlockComment (b +:+ "*/" +:+ r))).
    rewrite calc_block, skip_block_app by done. apply IH. rewrite !length_app in Hf. cbn in Hf. lia.
  - change (strip_calc (S fuel) ("/*" +:+ b)) with (strip_calc fuel (skipCalcExprBlockComment b)). rewrite calc_block, skip_block_none by done. by destruct fuel.
  - rewrite strip_calc_quote by done. rewrite skip_quoted_close by done. rewrite IH; [|cbn in Hf; rewrite length_app in Hf; cbn in Hf; lia].
    cbn [drop_quotes]. by destruct Hqq as [-> | ->].
  - rewrite strip_calc_quote by done. rewrite skip_quoted_open. destruct Hqq as [-> | ->]; by destruct fuel.
  - cbn [strip_calc drop_quotes]. rewrite H3, H4.
    assert (Ascii.eqb c "'" || Ascii.eqb c "034" = false) as -> by (apply orb_false_iff; split; [exact H1|exact H2]).
    rewrite H1, H2. cbn [orb]. rewrite IH; [done|]. cbn in Hf. lia.
Qed.
Lemma no_statement_word_exact expr :
  no_statement_word expr <-> Forall (fun kw => has_word kw (stripCalcExprLiteralsAndComments expr) = false) dmlKeywords.
Proof.
  destruct (strip_total expr) as [o Ho%strip_exact]. pose proof (Strips_calc _ _ Ho _ (le_n _)) as Hs.
  change (strip_calc (String.length expr) expr) with (stripCalcExprLiteralsAndComments expr) in Hs.
  transitivity (Forall (fun kw => ~ word_occurs kw (stripCalcExprLiteralsAndComments expr)) forbidden_words).
  { split; [|intros Hf; exists o; by rewrite <- Hs].
    intros (o' & Ho' & Hf). pose proof (Strips_calc _ _ Ho' _ (le_n _)) as Hs'.
    change (strip_calc (String.length expr) expr) with (stripCalcExprLiteralsAndComments expr) in Hs'. by rewrite Hs'. }
  change forbidden_words with dmlKeywords.
  assert (Forall (fun kw => ToUpper kw = kw) dmlKeywords) as Hu by (by repeat constructor).
  rewrite !Forall_forall in *. split; intros Hf kw Hkw; specialize (Hf kw Hkw); specialize (Hu kw Hkw).
  - by rewrite <- not_true_iff_false, has_word_spec.
  - by rewrite <- has_word_spec, not_true_iff_false.
Qed.

(** * When a model may be published *)

(** A reference as the catalogue compares them: in lower case, without the space and the
    double quotes around it. *)
Definition column_key (ref : string) : string :=
  let quote c := Ascii.eqb c "034" in ToLower (trim_right quote (trim_left quote (TrimSpace ref))).
Definition names_column (col : CatalogColumn) (key : string) : Prop :=
  key = column_key (SchemaName col +:+ "." +:+ TableName col +:+ "." +:+ ColumnName col) \/
  key = column_key (TableName col +:+ "." +:+ ColumnName col).
(** The catalogue has the column: under its name with or without schema, or, for a
    name of two parts, in the default schema. *)
Definition known_column (columns : list CatalogColumn) (schema ref : string) : Prop :=
  exists col, col ∈ columns /\
    (names_column col (column_key ref) \/
     schema <> "" /\ (exists t c, Split "." (column_key ref) = [t; c]) /\
     names_column col (column_key (schema +:+ "." +:+ column_key ref))).

Lemma bmap_get_insert m k k' : bmap_get (<[k := true]> m) k' = true <-> k' = k \/ bmap_get m k' = true.
Proof.
  unfold bmap_get. destruct (decide (k' = k)) as [->|Hk].
  - rewrite lookup_insert_eq. cbn. tauto.
  - rewrite lookup_insert_ne by done. tauto.
Qed.
Lemma bmap_get_fold {A} (f g : A -> string) l m k :
  bmap_get (fold_left (fun set x => <[g x := true]> (<[f x := true]> set)) l m) k = true <->
  bmap_get m k = true \/ exists x, x ∈ l /\ k ∈ [f x; g x].
Proof.
  revert m. induction l as [|x l IH]; intros m; cbn [fold_left].
  - split; [by left|]. intros [?|(x & ?%elem_of_nil & _)]; done.
  - rewrite IH, !bmap_get_insert. set_solver.
Qed.
Lemma bmap_get_empty k : bmap_get ∅ k = false.
Proof. unfold bmap_get. by rewrite lookup_empty. Qed.
Lemma bmap_get_columns columns k :
  bmap_get (buildColumnSet columns) k = true <-> exists col, col ∈ columns /\ k ∈ [full_name col; short_name col].
Proof. unfold buildColumnSet. rewrite bmap_get_fold, bmap_get_empty. naive_solver. Qed.

Lemma has_spec columns schema ref : has (buildColumnSet columns) schema ref = true <-> known_column columns schema ref.
Proof.
  assert (forall col key, names_column col key <-> key ∈ [full_name col; short_name col]) as Hnc
    by (intros col key; unfold names_column, full_name, short_name; change column_key with normalizeColumnRef; set_solver).
  unfold has, known_column. cbv zeta. setoid_rewrite Hnc. change column_key with normalizeColumnRef.
  destruct (bmap_get _ (normalizeColumnRef ref)) eqn:E.
  { apply bmap_get_columns in E as (col & ? & ?). split; [|done]. intros _. exists col. auto. }
  assert (~ exists col, col ∈ columns /\ normalizeColumnRef ref ∈ [full_name col; short_name col]) as Hno.
  { intros Hc%bmap_get_columns. congruence. }
  transitivity (schema <> "" /\ (exists t c, Split "." (normalizeColumnRef ref) = [t; c]) /\
    bmap_get (buildColumnSet columns) (normalizeColumnRef (schema +:+ "." +:+ normalizeColumnRef ref)) = true).
  - assert (negb (str_empty schema) = true <-> schema <> "") as Hs by (by rewrite negb_true_iff, <- String.eqb_neq).
    destruct (Split _ _) as [|t [|c [|? ?]]].
    3: { rewrite andb_true_iff, Hs. naive_solver. }
    all: split; [done|]; by intros (_ & (? & ? & ?) & _).
  - rewrite bmap_get_columns. split.
    + intros (? & ? & col & ? & ?). exists col. auto.
    + intros (col & ? & [?|(? & ? & ?)]); [by destruct Hno; eauto|eauto 10].
Qed.

Section Publishable.
Context (parser : option (string -> res ExprNode)) (validator : option (string -> res unit)).
Context (model : SemanticModel) (columns : list CatalogColumn).
#[local] Abbreviation known := (known_column columns (model_BaseSchema model)).
#[local] Abbreviation columnSet := (buildColumnSet columns).

Definition dim_names : gmap string bool := allowed_names (map dim_Name (model_Dimensions model)).
Definition met_names : gmap string bool := allowed_names (map met_Name (model_Metrics model)).

(** A tree no path of which is too long and whose nodes are all in order. *)
Definition tree_ok (allowMetrics : bool) (e : ExprNode) : Prop :=
  height e <= 11 /\ Forall (node_ok columnSet met_names dim_names allowMetrics) (subexprs e).
(** The tree of an expression is in order, if it has one, and it can be parsed. *)
Definition parsed_ok (allowMetrics : bool) (p : parsed_expr) : Prop :=
  match p with NoExpr => True | Parsed e => tree_ok allowMetrics e | ParseErr _ => False end.

(** What is taken for a literal, where a column is expected. *)
Definition literal (col : string) : Prop :=
  let c := TrimSpace col in
  c ∈ [""; "0"; "1"; "NULL"; "null"; "TRUE"; "FALSE"] \/ ((exists t, c = "'" +:+ t) /\ exists t, c = t +:+ "'") \/ str_forallb is_digit c = true.
Definition calculated_ok (expr : string) : Prop :=
  TrimSpace expr <> "" /\ match validator with Some validate => validate (TrimSpace expr) = Ok tt | None => True end /\
  (exists cols, columns_of (TrimSpace expr) cols /\ Forall (fun col => literal col \/ known col) cols) /\
  no_statement_word (TrimSpace expr).

Definition dimension_ok (dim : Dimension) : Prop :=
  if str_empty (dim_CalculatedExpression dim) then known (dim_ColumnRef dim)
  else calculated_ok (dim_CalculatedExpression dim) /\
       parsed_ok false (tree_of parser (dim_CalculatedExpression dim) (dim_CalculatedExpr dim)).

Definition is_custom (metric : Metric) : bool := String.eqb (ToLower (TrimSpace (met_Aggregation metric))) "custom".
Definition field_names : list string := map dim_Name (model_Dimensions model) ++ map met_Name (model_Metrics model).
(** A name in brackets is a field of the model's, in any case, or a column. *)
Definition token_known (token : string) : Prop :=
  (exists name, name ∈ field_names /\ EqualFold name token = true) \/
  known (if Contains token "." then token else model_BaseTable model +:+ "." +:+ token).

(** The names in brackets of a custom metric, or of one with a bracket, are known; any other
    metric refers to columns. *)
Definition metric_ok (metric : Metric) : Prop :=
  (if is_custom metric || Contains (met_Expression metric) "["
   then exists tokens, Bracketed (met_Expression metric) tokens /\ Forall (fun token => token_known (TrimSpace token)) tokens
   else exists cols, columns_of (TrimSpace (met_Expression metric)) cols /\ Forall known cols) /\
  parsed_ok (is_custom metric) (tree_of parser (met_Expression metric) (met_Expr metric)).

Definition join_ok (join : JoinDef) : Prop :=
  known (TrimSpace (join_FromTable join) +:+ "." +:+ TrimSpace (join_FromColumn join)) /\
  known (TrimSpace (join_ToTable join) +:+ "." +:+ TrimSpace (join_ToColumn join)) /\
  ToLower (TrimSpace (join_Relationship join)) ∈
    [""; RelationshipOneToOne; RelationshipManyToOne; RelationshipOneToMany; RelationshipManyToMany].

(** A field of a policy is blank, or one of the model's, on its own or after the
    model's name. *)
Definition policy_field_ok (field : string) : Prop :=
  name_key field = "" \/
  exists name, name ∈ field_names /\
    name_key field ∈ [ToLower name; ToLower (model_Name model +:+ "." +:+ name)].
Definition policy_ok (policy : CatalogPolicy) : Prop :=
  Forall policy_field_ok (DeniedFields policy) /\ Forall policy_field_ok (RowFilters policy).

(** ** References between fields *)

(** The keys of fields: metrics and dimensions do not share one. *)
Definition field_key (kind name : string) : string := kind +:+ ":" +:+ ToLower name.
Definition mentions (p : parsed_expr) (key : string) : Prop :=
  exists e, p = Parsed e /\
    ((exists n, DimensionRefExpr n ∈ subexprs e /\ key = field_key "dim" n) \/
     (exists n, MetricRefExpr n ∈ subexprs e /\ key = field_key "met" n)).

(** The tree of field [x] mentions field [y]; fields are known by their keys. *)
Definition field_depends (x y : string) : Prop :=
  (exists d, d ∈ model_Dimensions model /\ x = field_key "dim" (dim_Name d) /\
     mentions (tree_of parser (dim_CalculatedExpression d) (dim_CalculatedExpr d)) y) \/
  (exists m, m ∈ model_Metrics model /\ x = field_key "met" (met_Name m) /\
     mentions (tree_of parser (met_Expression m) (met_Expr m)) y).

(** What the gate promises of a model. *)
Record publishable (policies : list CatalogPolicy) : Prop := mkPublishable {
  pub_name : TrimSpace (model_Name model) <> "";
  pub_base : TrimSpace (model_BaseTable model) <> "";
  pub_some : model_Dimensions model <> [];
  pub_dim_names : distinct_names (map dim_Name (model_Dimensions model));
  pub_met_names : distinct_names (map met_Name (model_Metrics model));
  pub_join_names : distinct_names (map join_Name (model_Joins model));
  pub_dims : Forall dimension_ok (model_Dimensions model);
  pub_mets : Forall metric_ok (model_Metrics model);
  pub_joins : Forall join_ok (model_Joins model);
  pub_acyclic : forall x, Acc (flip field_depends) x;
  pub_policies : Forall policy_ok policies;
}.
End Publishable.

Section GateProofs.
Context (parser : option (string -> res ExprNode)) (validator : option (string -> res unit)).
Context (model : SemanticModel) (columns : list CatalogColumn).
#[local] Abbreviation columnSet := (buildColumnSet columns).
#[local] Abbreviation known := (known_column columns (model_BaseSchema model)).

Lemma reports_unknown ref msg : reports (addErrorIf (negb (has columnSet (model_BaseSchema model) ref)) msg) (known ref).
Proof using.
  eapply reports_iff; [apply reports_addErrorIf|]. by rewrite negb_false_iff, has_spec.
Qed.

Lemma find_word_spec kw prev s : find_word kw prev s = None <-> word_search (match_fold kw) prev s = false.
Proof using.
  revert prev. induction s as [|c s IH]; intros prev; cbn [find_word word_search];
    destruct (negb prev && _); cbn [orb]; done || apply IH.
Qed.
Lemma first_word_spec kws s : first_word kws s = None <-> Forall (fun kw => has_word kw s = false) kws.
Proof using.
  induction kws as [|kw kws IH]; cbn [first_word]; [by split; constructor|]. rewrite Forall_cons. unfold has_word at 1.
  rewrite <- find_word_spec, <- IH. destruct (find_word kw false s); naive_solver.
Qed.
Lemma isSQLLiteral_spec col : isSQLLiteral col = true <-> literal col.
Proof using.
  unfold isSQLLiteral, literal. cbv zeta. rewrite !orb_true_iff, andb_true_iff, str_in_spec, HasPrefix_spec, HasSuffix_spec.
  unfold str_empty. rewrite String.eqb_eq, (elem_of_cons ["0"; "1"; "NULL"; "null"; "TRUE"; "FALSE"] (TrimSpace col) ""). tauto.
Qed.
Lemma unknown_column_spec cols :
  unknown_column columnSet (model_BaseSchema model) cols = None <-> Forall (fun col => literal col \/ known col) cols.
Proof using.
  induction cols as [|col cols IH]; cbn [unknown_column]; [by split; constructor|].
  rewrite Forall_cons, <- IH, <- has_spec, <- isSQLLiteral_spec, <- orb_true_iff. destruct (_ || _); naive_solver.
Qed.
Lemma columns_found (P : string -> Prop) expr : (exists cols, columns_of (TrimSpace expr) cols /\ Forall P cols) <-> Forall P (columnRefsInExpression expr).
Proof using. setoid_rewrite columns_of_exact. naive_solver. Qed.
Lemma tokens_found (P : string -> Prop) expr : (exists tokens, Bracketed expr tokens /\ Forall P tokens) <-> Forall P (bracket_tokens expr).
Proof using. setoid_rewrite Bracketed_exact. naive_solver. Qed.

Lemma validateCalculatedExpression_spec expr :
  validateCalculatedExpression validator expr columnSet (model_BaseSchema model) = Ok tt <->
  calculated_ok validator model columns expr.
Proof using.
  unfold validateCalculatedExpression, calculated_ok. cbv zeta. unfold str_empty.
  destruct (String.eqb_spec (TrimSpace expr) "") as [He|He]; [by split; [|intros []]|].
  assert (columnRefsInExpression (TrimSpace expr) = columnRefsInExpression expr) as Ht
    by (unfold columnRefsInExpression; by rewrite TrimSpace_idem).
  rewrite bind_unit_ok, Ht, columns_found, no_statement_word_exact, <- unknown_column_spec.
  unfold containsDMLKeyword. rewrite <- first_word_spec.
  destruct (unknown_column _ _ _); [naive_solver|]. destruct (first_word _ _), validator; naive_solver.
Qed.

Lemma reports_parsed context (msg : goerr -> string) allowMetrics p :
  reports (fun s => match p with
    | NoExpr => s
    | Parsed expr => addErr context
        (ValidateExprStrict columnSet (met_names model) (dim_names model) allowMetrics expr 0) s
    | ParseErr e => addError (msg e) s
    end) (parsed_ok model columns allowMetrics p).
Proof using.
  destruct p as [|e|e]; cbn [parsed_ok]; [apply reports_id| |apply reports_addError].
  eapply reports_iff; [apply reports_addErr|]. rewrite ValidateExprStrict_spec by lia. unfold tree_ok. by rewrite Z.add_0_l.
Qed.

Lemma reports_dimensions :
  reports (validateContextDimensions parser validator model columnSet (dim_names model) (met_names model))
    (Forall (dimension_ok parser validator model columns) (model_Dimensions model)).
Proof using.
  apply reports_each. intros dim. unfold dimension_ok. destruct (str_empty (dim_CalculatedExpression dim)); cbn [negb].
  - apply reports_unknown.
  - unfold validateCalculatedDimension. cbv zeta.
    rewrite <- tree_of_getOrParse.
    eapply reports_iff; [exact (reports_comp _ _ _ _ (reports_addErr _ _) (reports_parsed _
      (fun e => "dimension " +:+ Quote (dim_Name dim) +:+ " calculated expression parse error: " +:+ Error e) _ _))|].
    by rewrite validateCalculatedExpression_spec.
Qed.

Lemma model_field token : isModelFieldName model token = true <-> exists name, name ∈ field_names model /\ EqualFold name token = true.
Proof using.
  unfold isModelFieldName, field_names. rewrite orb_true_iff, !existsb_exists. split.
  - intros [(d & Hd%list_elem_of_In & He)|(m & Hm%list_elem_of_In & He)]; eexists; (split; [apply elem_of_app|exact He]).
    + left. by apply (list_elem_of_fmap_2 dim_Name).
    + right. by apply (list_elem_of_fmap_2 met_Name).
  - intros (name & [Hn|Hn]%elem_of_app & He); apply list_elem_of_fmap in Hn as (x & -> & Hx%list_elem_of_In); [left|right]; by exists x.
Qed.
Lemma reports_metric_columns metric :
  reports (validateMetricColumns model columnSet metric)
    (if is_custom metric || Contains (met_Expression metric) "["
     then exists tokens, Bracketed (met_Expression metric) tokens /\ Forall (fun token => token_known model columns (TrimSpace token)) tokens
     else exists cols, columns_of (TrimSpace (met_Expression metric)) cols /\ Forall known cols).
Proof using.
  unfold validateMetricColumns. fold (is_custom metric).
  destruct (_ || _); (eapply reports_iff; [apply reports_each|symmetry; first [apply tokens_found|apply columns_found]]);
    [|intros; apply reports_unknown].
  intros token. cbv zeta. unfold token_known. pose proof (model_field (TrimSpace token)) as Hf.
  destruct (isModelFieldName model (TrimSpace token)).
  - eapply reports_iff; [apply reports_id|]. tauto.
  - eapply reports_iff; [apply reports_unknown|]. naive_solver.
Qed.
Lemma reports_metrics :
  reports (validateContextMetrics parser model columnSet (dim_names model) (met_names model))
    (Forall (metric_ok parser model columns) (model_Metrics model)).
Proof using.
  apply reports_each. intros metric. unfold metric_ok.
  apply (reports_comp (validateMetricColumns model columnSet metric)); [apply reports_metric_columns|].
  unfold validateMetricExpressionAST. cbv zeta. fold (is_custom metric). rewrite <- tree_of_getOrParse.
  apply (reports_parsed _ (fun e => "metric " +:+ Quote (met_Name metric) +:+ " expression parse error: " +:+ Error e)).
Qed.

Lemma reports_relationship join :
  reports (validateJoinRelationship join)
    (ToLower (TrimSpace (join_Relationship join)) ∈
       [""; RelationshipOneToOne; RelationshipManyToOne; RelationshipOneToMany; RelationshipManyToMany]).
Proof using.
  unfold validateJoinRelationship. cbv zeta. destruct (str_in _ _) eqn:E1.
  { apply str_in_spec in E1. eapply reports_iff; [apply reports_id|]. set_solver. }
  destruct (str_in _ [RelationshipOneToMany; _]) eqn:E2.
  { apply str_in_spec in E2. eapply reports_iff; [by apply reports_warning|]. set_solver. }
  apply str_in_false in E1, E2. eapply reports_iff; [apply reports_addError|]. set_solver.
Qed.
Lemma reports_joins relations :
  reports (validateContextJoins model columnSet relations) (Forall (join_ok model columns) (model_Joins model)).
Proof using.
  apply reports_each. intros join. unfold join_ok. cbv zeta.
  eapply reports_iff.
  - apply reports_comp; [|apply reports_relationship].
    apply reports_comp; [|apply reports_addWarningIf]. apply reports_comp; apply reports_unknown.
  - unfold hasTableColumn. tauto.
Qed.

Lemma policy_fields_spec field :
  str_empty (name_key field) || bmap_get (policy_fields model) (name_key field) = true <-> policy_field_ok model field.
Proof using.
  rewrite orb_true_iff. unfold policy_fields, policy_field_ok, str_empty. cbv zeta.
  rewrite !bmap_get_fold, bmap_get_empty, String.eqb_eq. set_solver.
Qed.
Lemma reports_policies policies : reports (validatePolicies model policies) (Forall (policy_ok model) policies).
Proof using.
  apply reports_each. intros policy. unfold policy_ok.
  apply reports_comp; apply reports_each; intros field; unfold validate_field; cbv zeta.
  all: eapply reports_iff; [apply reports_addErrorIf|]; rewrite negb_false_iff; apply policy_fields_spec.
Qed.

Lemma reports_required :
  reports (validateModelRequiredFields model)
    ((TrimSpace (model_Name model) <> "" /\ TrimSpace (model_BaseTable model) <> "") /\ model_Dimensions model <> []).
Proof using.
  unfold validateModelRequiredFields. cbv zeta.
  apply reports_comp; [apply reports_comp|].
  - eapply reports_iff; [apply reports_addErrorIf|]. apply String.eqb_neq.
  - eapply reports_iff; [apply reports_addErrorIf|]. apply String.eqb_neq.
  - eapply reports_iff; [apply reports_addErrorIf|]. by destruct (model_Dimensions model).
Qed.
Lemma each_addWarning msgs s : Errors (each addWarning msgs s) = Errors s /\ Valid (each addWarning msgs s) = Valid s.
Proof using.
  revert s. induction msgs as [|msg msgs IH]; intros s; [done|]. unfold each in *. cbn [fold_left].
  by destruct (IH (addWarning msg s)) as [-> ->].
Qed.
Lemma reports_budget : reports (appendContextBudgetWarnings model) True.
Proof using.
  unfold appendContextBudgetWarnings. cbv zeta. apply reports_warning. intros s.
  set (s1 := addWarningIf _ _ s). assert (Errors s1 = Errors s /\ Valid s1 = Valid s) as [<- <-] by (unfold s1, addWarningIf; by case_match).
  apply each_addWarning.
Qed.

(** ** Cycles *)

Lemma edge_pushes {A} (key : A -> string) from l adj x y :
  edge (fold_left (fun adj d => push adj from (key d)) l adj) x y <-> edge adj x y \/ x = from /\ exists d, d ∈ l /\ y = key d.
Proof using.
  revert adj. induction l as [|d l IH]; intros adj; cbn [fold_left]; [set_solver|]. rewrite IH, elem_of_push. set_solver.
Qed.
Lemma edge_addCalcExprDeps from expr ast adj x y :
  edge (addCalcExprDeps parser from expr ast adj) x y <->
  edge adj x y \/ x = from /\ mentions (getOrParseExpr parser expr ast) y.
Proof using.
  unfold addCalcExprDeps, mentions. destruct (getOrParseExpr parser expr ast) as [|e|]; [naive_solver| |naive_solver].
  destruct (ExprDependencies_refs e) as [Hm Hd].
  assert (match e with NilExpr => adj | _ => fold_left (fun adj m => push adj from (met_key m)) (dep_mets (ExprDependencies e))
      (fold_left (fun adj d => push adj from (dim_key d)) (dep_dims (ExprDependencies e)) adj) end =
    fold_left (fun adj m => push adj from (met_key m)) (dep_mets (ExprDependencies e))
      (fold_left (fun adj d => push adj from (dim_key d)) (dep_dims (ExprDependencies e)) adj)) as Heq by (by destruct e).
  transitivity (edge (fold_left (fun adj m => push adj from (met_key m)) (dep_mets (ExprDependencies e))
      (fold_left (fun adj d => push adj from (dim_key d)) (dep_dims (ExprDependencies e)) adj)) x y).
  { rewrite <- Heq. by destruct e. }
  rewrite !edge_pushes. naive_solver.
Qed.
Lemma edge_fold {A} (key : A -> string) (p : A -> adjacency -> adjacency) (Q : A -> string -> Prop) l adj x y :
  (forall a adj, edge (p a adj) x y <-> edge adj x y \/ x = key a /\ Q a y) ->
  edge (fold_left (fun adj a => p a adj) l adj) x y <-> edge adj x y \/ exists a, a ∈ l /\ x = key a /\ Q a y.
Proof using.
  intros Hp. revert adj. induction l as [|a l IH]; intros adj; cbn [fold_left]; [set_solver|]. rewrite IH, Hp. set_solver.
Qed.
Lemma edge_calc x y : edge (buildCalcExprDependencyAdj parser model) x y <-> field_depends parser model x y.
Proof using.
  unfold buildCalcExprDependencyAdj, field_depends. cbv zeta.
  rewrite (edge_fold (fun m => field_key "met" (met_Name m)) _ (fun m => mentions (tree_of parser (met_Expression m) (met_Expr m))))
    by (intros; rewrite <- tree_of_getOrParse; apply edge_addCalcExprDeps).
  rewrite (edge_fold (fun d => field_key "dim" (dim_Name d)) _
    (fun d => mentions (tree_of parser (dim_CalculatedExpression d) (dim_CalculatedExpr d))))
    by (intros; rewrite <- tree_of_getOrParse; apply edge_addCalcExprDeps).
  assert (~ edge ∅ x y) as Hno; [|tauto].
  unfold edge, successors. rewrite lookup_empty. by intros ?%elem_of_nil.
Qed.
End GateProofs.

Section Whole.
Context `{MapOrder} (parser : option (string -> res ExprNode)) (validator : option (string -> res unit)).
Context (model : SemanticModel) (catalog : CatalogReader).

(** The gate's promise, for the catalogue of the model's datasource. *)
Definition may_publish : Prop :=
  exists columns relations policies,
    ListSemanticColumns catalog (model_DatasourceID model) = Ok columns /\
    ListSemanticRelations catalog (model_DatasourceID model) = Ok relations /\
    ListSemanticPolicies catalog (model_DatasourceID model) = Ok policies /\
    publishable parser validator model columns policies.

Lemma checkCircularDependencies_spec :
  exists cycles, checkCircularDependencies parser model = Ok cycles /\
    (cycles = [] <-> forall x, Acc (flip (field_depends parser model)) x).
Proof using.
  destruct (findCycles_exact (buildCalcExprDependencyAdj parser model)) as (cycles & He & Hc & _).
  exists cycles. split; [exact He|]. rewrite Hc. unfold acyclic. split; intros Ha x; (eapply grounded_same; [|apply Ha]).
  - intros y z. by rewrite <- edge_calc.
  - apply edge_calc.
Qed.

(** Started on a sink without errors, a check leaves one without errors exactly when
    its condition holds. *)
Lemma reports_start f P s :
  reports f P -> Errors s = [] -> Valid s = true ->
  (Valid (f s) = true <-> Errors (f s) = []) /\ (Valid (f s) = true <-> P).
Proof using.
  intros Hf He Hv. destruct (Hf s) as (errs & -> & -> & HP). rewrite He, Hv. cbn [andb app].
  split; rewrite bool_decide_eq_true; done.
Qed.

Lemma ValidateContext_spec :
  exists r, ValidateContext parser validator model catalog = Ok r /\
    (Valid r = true <-> Errors r = []) /\ (Valid r = true <-> may_publish).
Proof using.
  unfold ValidateContext, may_publish. cbv zeta. unfold loadValidationCatalog.
  assert (forall msg, exists r, Ok (addError msg (validateModelRequiredFields model (newValidationSinkWithPromptSize model))) = Ok r /\
    (Valid r = true <-> Errors r = []) /\ (Valid r = true <-> False)) as Hload.
  { intros msg. eexists. split; [done|].
    refine (reports_start (fun s => addError msg (validateModelRequiredFields model s)) False _ _ _ _); [|done..].
    eapply reports_iff; [exact (reports_comp _ _ _ _ (reports_required model) (reports_addError msg))|]. tauto. }
  destruct (ListSemanticColumns _ _) as [columns|e].
  2: { destruct (Hload ("load datasource columns: " +:+ Error e)) as (r & Hr & ? & ?). exists r. naive_solver. }
  destruct (ListSemanticRelations _ _) as [relations|e].
  2: { destruct (Hload ("load datasource relations: " +:+ Error e)) as (r & Hr & ? & ?). exists r. naive_solver. }
  destruct (ListSemanticPolicies _ _) as [policies|e].
  2: { destruct (Hload ("load permission policies: " +:+ Error e)) as (r & Hr & ? & ?). exists r. naive_solver. }
  clear Hload. cbn [vc_columns vc_relations vc_policies]. unfold allowedFieldMaps.
  destruct checkCircularDependencies_spec as (cycles & -> & Hc). cbn [res_bind]. eexists. split; [done|].
  destruct (reports_start _ _ (newValidationSinkWithPromptSize model)
    (reports_comp _ _ _ _ (reports_comp _ _ _ _ (reports_comp _ _ _ _ (reports_comp _ _ _ _ (reports_comp _ _ _ _ (reports_comp _ _ _ _
      (reports_comp _ _ _ _ (reports_comp _ _ _ _ (reports_comp _ _ _ _
        (reports_required model)
        (reports_duplicates "dimension" (model_Dimensions model) dim_Name))
        (reports_duplicates "metric" (model_Metrics model) met_Name))
        (reports_duplicates "relationship" (model_Joins model) join_Name))
        (reports_dimensions parser validator model columns))
        (reports_metrics parser model columns))
        (reports_joins model columns relations))
        (reports_cycles cycles))
        (reports_policies model policies))
        (reports_budget model)) eq_refl eq_refl) as [H1 H2].
  split; [exact H1|]. etransitivity; [exact H2|]. rewrite Hc. split.
  - intros (((((((((((? & ?) & ?) & ?) & ?) & ?) & ?) & ?) & ?) & ?) & ?) & _). exists columns, relations, policies.
    split_and!; try done.
  - intros (columns' & relations' & policies' & [= <-] & [= <-] & [= <-] & []). tauto.
Qed.
End Whole.

(** C17: the publish gate.  [ValidateContext] returns for every model, and the result says the
    model is valid exactly when it lists no error, and exactly when the catalogue could be
    read and the model is publishable: it has a name, a base table and a dimension; the
    names of its dimensions, of its metrics and of its joins are present and differ in
    more than case; the column of each plain dimension and of each side of a join is in the
    catalogue, and so are the columns its expressions are taken to refer to - for a metric
    that is custom or has a bracket, the names in brackets that are not fields of the
    model; for another metric and for a calculated dimension, the pairs of names joined by
    a dot that a scan from the left finds, between quotes too, or else the whole
    expression, unless it is a literal of a dimension; the registered validator takes the
    calculated dimensions, and none has a word of SQL statements outside its literals and
    comments; every expression parses into a tree in order; no field depends on itself
    through others; and the policies speak of its fields. *)
Theorem ValidateContext_exact `{MapOrder} (parser : option (string -> res ExprNode))
    (validator : option (string -> res unit)) (model : SemanticModel) (catalog : CatalogReader) :
  exists r, ValidateContext parser validator model catalog = Ok r /\
    (Valid r = true <-> Errors r = []) /\ (Valid r = true <-> may_publish parser validator model catalog).
Proof. apply ValidateContext_spec. Qed.
