(* ===== verification/CompositePublish.v ===== *)
(** The publish gate of a composite model ([internal/semantic/composite_validation.go],
    [composite_publish.go]).

    The provider of published component models is a parameter; the context and the
    transaction that stores a version are not represented. *)

From S2P Require Import Prelude GoStrings Semantic Joins Composite Cycles Publish.
From stdpp Require Import options.
#[local] Open Scope Z_scope.

(** A component that could not be loaded has no entry. *)
Abbreviation Components_map := (gmap string SemanticModel).

Definition validateCompositeMetadata (composite : CompositeModel) (s : Sink) : Sink :=
  let s := addErrorIf (str_empty (TrimSpace (cm_Name composite))) "composite name is required" s in
  addErrorIf (length (Components composite) <? 2)%nat "composite model requires at least two component models" s.

(** The loop of [validateCompositeComponentLayout]: the aliases seen so far. *)
Fixpoint layout_aliases (comps : list ComponentModelRef) (aliases : gset string) (s : Sink) : Sink :=
  match comps with
  | [] => s
  | comp :: comps =>
      layout_aliases comps ({[comp_Alias comp]} ∪ aliases)
        (addErrorIf (bool_decide (comp_Alias comp ∈ aliases)) ("duplicate component alias " +:+ Quote (comp_Alias comp)) s)
  end.
Definition is_primary (comp : ComponentModelRef) : bool := String.eqb (comp_Role comp) ComponentRolePrimary.
Definition primaryCount (composite : CompositeModel) : nat := length (filter (fun c => is_primary c = true) (Components composite)).
Definition aliases_of (composite : CompositeModel) : gset string := list_to_set (map comp_Alias (Components composite)).
Definition validateCompositeComponentLayout (composite : CompositeModel) (s : Sink) : Sink :=
  let s := layout_aliases (Components composite) ∅ s in
  let n := primaryCount composite in
  let s := addErrorIf (n =? 0)%nat "composite model requires exactly one primary component; none found" s in
  addErrorIf (1 <? n)%nat
    ("composite model requires exactly one primary component; found " +:+ Itoa (Z.of_nat n)) s.

Section Provider.
Context (GetPublishedFullModel : string -> res SemanticModel).

(** The loop of [resolveComponents], over the map of those loaded. *)
Fixpoint resolve_components (comps : list ComponentModelRef) (components : Components_map) (result : PublishValidationResult)
    : Components_map * PublishValidationResult :=
  match comps with
  | [] => (components, result)
  | comp :: comps =>
      match GetPublishedFullModel (comp_ModelID comp) with
      | Err e =>
          resolve_components comps components
            (addError ("component " +:+ Quote (comp_Alias comp) +:+ ": " +:+ Error e) result)
      | Ok model =>
          resolve_components comps (<[comp_Alias comp := model]> components)
            (addErrorIf (negb (String.eqb (model_Status model) ModelStatusPublished))
               ("component " +:+ Quote (comp_Alias comp) +:+ " is not published") result)
      end
  end.
Definition resolveComponents (composite : CompositeModel) : Components_map * PublishValidationResult :=
  resolve_components (Components composite) ∅ newValidationSink.
End Provider.

Definition dimensionExists (model : SemanticModel) (name : string) : bool :=
  existsb (fun d => String.eqb (dim_Name d) name) (model_Dimensions model).
(** A component that is loaded and lacks the dimension. *)
Definition lacks_dimension (components : Components_map) (alias name : string) : bool :=
  match components !! alias with Some model => negb (dimensionExists model name) | None => false end.

Definition validate_cross_join (aliases : gset string) (components : Components_map) (j : CrossModelJoin) (s : Sink) : Sink :=
  if negb (cj_IsActive j) then s
  else
    let cross := "cross join " +:+ Quote (cj_Name j) in
    let s := addErrorIf (bool_decide (cj_FromModel j ∉ aliases)) (cross +:+ " references unknown alias " +:+ Quote (cj_FromModel j)) s in
    let s := addErrorIf (bool_decide (cj_ToModel j ∉ aliases)) (cross +:+ " references unknown alias " +:+ Quote (cj_ToModel j)) s in
    let s := addErrorIf (lacks_dimension components (cj_FromModel j) (cj_FromDimension j))
      (cross +:+ " references unknown dimension " +:+ Quote (cj_FromDimension j) +:+ " on " +:+ Quote (cj_FromModel j)) s in
    addErrorIf (lacks_dimension components (cj_ToModel j) (cj_ToDimension j))
      (cross +:+ " references unknown dimension " +:+ Quote (cj_ToDimension j) +:+ " on " +:+ Quote (cj_ToModel j)) s.
Definition validateCompositeCrossJoins (composite : CompositeModel) (aliases : gset string) (components : Components_map)
    : Sink -> Sink :=
  each (validate_cross_join aliases components) (CrossModelJoins composite).

Definition validateCompositeCanonicalDate (composite : CompositeModel) (aliases : gset string) (components : Components_map)
    (s : Sink) : Sink :=
  match CanonicalDate composite with
  | None => addWarning "no canonical date defined; cross-domain time filtering may be ambiguous" s
  | Some ref =>
      if bool_decide (cd_ModelAlias ref ∉ aliases)
      then addError ("canonical date references unknown alias " +:+ Quote (cd_ModelAlias ref)) s
      else addErrorIf (lacks_dimension components (cd_ModelAlias ref) (cd_DimensionName ref))
             ("canonical date references unknown dimension " +:+ Quote (cd_DimensionName ref) +:+ " on "
              +:+ Quote (cd_ModelAlias ref)) s
  end.

Definition activeCrossJoins (joins : list CrossModelJoin) : list CrossModelJoin := filter (fun j => cj_IsActive j = true) joins.
Definition appendCompositeFanoutWarnings (composite : CompositeModel) : Sink -> Sink :=
  each (fun j =>
    if String.eqb (cj_Relationship j) RelationshipManyToMany
    then addWarning ("cross join " +:+ Quote (cj_Name j) +:+ " is many_to_many; aggregated metrics may fan out and double-count")
    else if String.eqb (cj_Relationship j) RelationshipOneToMany
    then addWarning ("cross join " +:+ Quote (cj_Name j) +:+ " is one_to_many; verify metric grain to avoid fanout")
    else id) (activeCrossJoins (CrossModelJoins composite)).

Definition set_size (n : Z) (s : Sink) : Sink := mkResult (Valid s) (Errors s) (Warnings s) n.
(** The model, when it resolves, and the sink. *)
Definition validateCompositeResolution `{MapOrder} (composite : CompositeModel) (components : Components_map) (s : Sink)
    : option SemanticModel * Sink :=
  match Resolve composite components with
  | Err e => (None, addError ("resolve composite: " +:+ Error e) s)
  | Ok resolved =>
      let graph := BuildMetricGraph composite resolved in
      let s := addErr "metric dependency: " (DetectCircularDependencies graph) s in
      let s := appendCompositeFanoutWarnings composite s in
      (Some resolved, set_size (estimatePromptSize resolved) s)
  end.

Definition ValidateComposite `{MapOrder} (GetPublishedFullModel : string -> res SemanticModel) (composite : CompositeModel)
    : option SemanticModel * PublishValidationResult :=
  let s := validateCompositeMetadata composite newValidationSink in
  let s := validateCompositeComponentLayout composite s in
  let aliases := aliases_of composite in
  let (components, compResult) := resolveComponents GetPublishedFullModel composite in
  let s := merge s compResult in
  let s := validateCompositeCrossJoins composite aliases components s in
  let s := validateCompositeCanonicalDate composite aliases components s in
  if negb (Valid s) then (None, s) else validateCompositeResolution composite components s.

(** * Limits *)

Record CompositeLimits : Type := mkLimits {
  MaxComponents : Z;
  MaxCrossJoins : Z;
  MaxMergedFields : Z;
}.
Definition enforceLimits (limits : CompositeLimits) (composite : CompositeModel) (resolved : option SemanticModel)
    : list string :=
  let n := Z.of_nat (length (Components composite)) in
  let active := Z.of_nat (length (activeCrossJoins (CrossModelJoins composite))) in
  over (MaxComponents limits) n
    ("composite has " +:+ Itoa n +:+ " components; limit is " +:+ Itoa (MaxComponents limits))
  ++ over (MaxCrossJoins limits) active
    ("composite has " +:+ Itoa active +:+ " active cross-model joins; limit is " +:+ Itoa (MaxCrossJoins limits))
  ++ match resolved with
     | Some model =>
         let merged := Z.of_nat (length (model_Dimensions model) + length (model_Metrics model)) in
         over (MaxMergedFields limits) merged
           ("resolved composite has " +:+ Itoa merged +:+ " merged fields; limit is " +:+ Itoa (MaxMergedFields limits))
     | None => []
     end.

(** [CompositeRepository.ValidateComposite], on the composite loaded. *)
Definition ValidateComposite_limited `{MapOrder} (limits : CompositeLimits)
    (GetPublishedFullModel : string -> res SemanticModel) (composite : CompositeModel)
    : option SemanticModel * PublishValidationResult :=
  let (resolved, validation) := ValidateComposite GetPublishedFullModel composite in
  (resolved, each addError (enforceLimits limits composite resolved) validation).

(** * When a composite may be published *)

Section Gate.
Context `{MapOrder} (GetPublishedFullModel : string -> res SemanticModel) (composite : CompositeModel).

Definition component_ok (comp : ComponentModelRef) : Prop :=
  exists model, GetPublishedFullModel (comp_ModelID comp) = Ok model /\ model_Status model = ModelStatusPublished.

(** The components loaded: of those with the same alias, the last. *)
Definition loaded : Components_map := (resolveComponents GetPublishedFullModel composite).1.

(** The alias is that of a loaded component with a dimension of that name. *)
Definition dimension_known (alias name : string) : Prop :=
  exists model, loaded !! alias = Some model /\ name ∈ map dim_Name (model_Dimensions model).

Record composite_publishable (resolved : SemanticModel) : Prop := mkCompositePublishable {
  cp_name : TrimSpace (cm_Name composite) <> "";
  cp_several : (2 <= length (Components composite))%nat;
  cp_aliases : NoDup (map comp_Alias (Components composite));
  cp_primary : primaryCount composite = 1%nat;
  cp_components : Forall component_ok (Components composite);
  cp_cross_joins : Forall (fun j => cj_IsActive j = true ->
    dimension_known (cj_FromModel j) (cj_FromDimension j) /\ dimension_known (cj_ToModel j) (cj_ToDimension j))
    (CrossModelJoins composite);
  cp_date : match CanonicalDate composite with
    | Some ref => dimension_known (cd_ModelAlias ref) (cd_DimensionName ref)
    | None => True
    end;
  cp_resolves : Resolve composite loaded = Ok resolved;
  cp_acyclic : Forall (fun m => Acc (flip (derives_from resolved)) (met_Name m)) (model_Metrics resolved);
}.

Definition component_check (comp : ComponentModelRef) (s : Sink) : Sink :=
  match GetPublishedFullModel (comp_ModelID comp) with
  | Err e => addError ("component " +:+ Quote (comp_Alias comp) +:+ ": " +:+ Error e) s
  | Ok model =>
      addErrorIf (negb (String.eqb (model_Status model) ModelStatusPublished))
        ("component " +:+ Quote (comp_Alias comp) +:+ " is not published") s
  end.
Lemma resolve_components_checks comps components result :
  (resolve_components GetPublishedFullModel comps components result).2 = each component_check comps result.
Proof using.
  revert components result. induction comps as [|comp comps IH]; intros components result; [done|]. cbn [resolve_components].
  unfold each. cbn [fold_left]. unfold component_check at 2. destruct (GetPublishedFullModel _); apply IH.
Qed.
Lemma reports_component comp : reports (component_check comp) (component_ok comp).
Proof using.
  unfold component_check, component_ok. destruct (GetPublishedFullModel _) as [model|e].
  - eapply reports_iff; [apply reports_addErrorIf|]. rewrite negb_false_iff, String.eqb_eq. naive_solver.
  - eapply reports_iff; [apply reports_addError|]. naive_solver.
Qed.
Lemma resolve_components_loaded comps components result :
  Forall component_ok comps -> forall alias, alias ∈ map comp_Alias comps \/ is_Some (components !! alias) ->
  is_Some ((resolve_components GetPublishedFullModel comps components result).1 !! alias).
Proof using.
  intros Hc. revert components result. induction Hc as [|comp comps (model & E & _) Hc IH]; intros components result alias Ha.
  { by destruct Ha as [?%elem_of_nil|]. }
  cbn [resolve_components]. rewrite E. apply IH. cbn [map] in Ha. rewrite elem_of_cons in Ha.
  destruct (decide (alias = comp_Alias comp)) as [->|Hne]; [right; by rewrite lookup_insert_eq|].
  rewrite lookup_insert_ne by done. tauto.
Qed.
Lemma reports_merge f P : reports f P -> reports (fun s => merge s (f newValidationSink)) P.
Proof using.
  intros Hf s. destruct (Hf newValidationSink) as (errs & E & V & HP). exists errs. cbn. by rewrite E, V.
Qed.

Lemma reports_layout_aliases comps aliases :
  reports (layout_aliases comps aliases) (NoDup (map comp_Alias comps) /\ Forall (fun c => comp_Alias c ∉ aliases) comps).
Proof using.
  revert aliases. induction comps as [|comp comps IH]; intros aliases; cbn [layout_aliases map].
  { eapply reports_iff; [apply reports_id|]. split; [intros _; split; constructor|done]. }
  eapply reports_iff; [exact (reports_comp _ _ _ _ (reports_addErrorIf _ _) (IH _))|].
  rewrite bool_decide_eq_false, NoDup_cons, Forall_cons. split.
  - intros (Ha & Hn & Hf). rewrite Forall_forall in Hf. split_and!; try done.
    + intros (c & Hc & Hin)%list_elem_of_fmap. specialize (Hf c Hin). set_solver.
    + apply Forall_forall. intros c Hin. specialize (Hf c Hin). set_solver.
  - intros ((Ha & Hn) & Hx & Hf). split_and!; try done. rewrite Forall_forall in *. intros c Hin. specialize (Hf c Hin).
    apply not_elem_of_union. split; [|done]. rewrite elem_of_singleton. intros Heq. apply Ha, list_elem_of_fmap. by exists c.
Qed.
Lemma reports_metadata :
  reports (validateCompositeMetadata composite)
    (TrimSpace (cm_Name composite) <> "" /\ (2 <= length (Components composite))%nat).
Proof using.
  eapply reports_iff; [exact (reports_comp _ _ _ _ (reports_addErrorIf _ _) (reports_addErrorIf _ _))|].
  unfold str_empty. by rewrite String.eqb_neq, Nat.ltb_ge.
Qed.
Lemma reports_layout :
  reports (validateCompositeComponentLayout composite)
    (NoDup (map comp_Alias (Components composite)) /\ primaryCount composite = 1%nat).
Proof using.
  eapply reports_iff.
  { exact (reports_comp _ _ _ _ (reports_comp _ _ _ _ (reports_layout_aliases _ _) (reports_addErrorIf _ _)) (reports_addErrorIf _ _)). }
  rewrite Nat.eqb_neq, Nat.ltb_ge. split; [intros [[[? _] ?] ?]; split; [done|lia]|].
  intros [? ->]. split_and!; try done. apply Forall_true. intros c. apply not_elem_of_empty.
Qed.

Lemma lacks_dimension_spec components alias name :
  is_Some (components !! alias) ->
  lacks_dimension components alias name = false <->
  exists model, components !! alias = Some model /\ name ∈ map dim_Name (model_Dimensions model).
Proof using.
  intros [model E]. unfold lacks_dimension, dimensionExists. rewrite E, negb_false_iff, existsb_In. split.
  - intros (d & ? & <-%String.eqb_eq). exists model. split; [done|]. by apply list_elem_of_fmap_2.
  - intros (model' & [= <-] & (d & -> & ?)%list_elem_of_fmap). exists d. by rewrite String.eqb_refl.
Qed.

Lemma reports_cross_join components j :
  reports (validate_cross_join (aliases_of composite) components j)
    (cj_IsActive j = true ->
     (cj_FromModel j ∈ aliases_of composite /\ lacks_dimension components (cj_FromModel j) (cj_FromDimension j) = false) /\
     (cj_ToModel j ∈ aliases_of composite /\ lacks_dimension components (cj_ToModel j) (cj_ToDimension j) = false)).
Proof using.
  unfold validate_cross_join. destruct (cj_IsActive j); cbn [negb]; [|by eapply reports_iff; [apply reports_id|]]. cbv zeta.
  eapply reports_iff.
  { exact (reports_comp _ _ _ _ (reports_comp _ _ _ _ (reports_comp _ _ _ _ (reports_addErrorIf _ _) (reports_addErrorIf _ _))
      (reports_addErrorIf _ _)) (reports_addErrorIf _ _)). }
  rewrite !bool_decide_eq_false. split; [intros [[[?%dec_stable ?%dec_stable] ?] ?]; naive_solver|].
  intros Hj. destruct (Hj eq_refl) as [[? ?] [? ?]]. naive_solver.
Qed.
Lemma reports_canonical components :
  reports (validateCompositeCanonicalDate composite (aliases_of composite) components)
    (match CanonicalDate composite with
     | Some ref => cd_ModelAlias ref ∈ aliases_of composite /\
         lacks_dimension components (cd_ModelAlias ref) (cd_DimensionName ref) = false
     | None => True
     end).
Proof using.
  unfold validateCompositeCanonicalDate. destruct (CanonicalDate composite) as [ref|]; [|by apply reports_warning].
  case_bool_decide as Ha.
  - eapply reports_iff; [apply reports_addError|]. naive_solver.
  - eapply reports_iff; [apply reports_addErrorIf|]. naive_solver.
Qed.

(** What is checked before the composite is resolved. *)
Definition draft_ok : Prop :=
  TrimSpace (cm_Name composite) <> "" /\ (2 <= length (Components composite))%nat /\
  NoDup (map comp_Alias (Components composite)) /\ primaryCount composite = 1%nat /\
  Forall component_ok (Components composite) /\
  Forall (fun j => cj_IsActive j = true ->
    dimension_known (cj_FromModel j) (cj_FromDimension j) /\ dimension_known (cj_ToModel j) (cj_ToDimension j))
    (CrossModelJoins composite) /\
  match CanonicalDate composite with
  | Some ref => dimension_known (cd_ModelAlias ref) (cd_DimensionName ref)
  | None => True
  end.

Lemma elem_of_aliases alias : alias ∈ aliases_of composite <-> alias ∈ map comp_Alias (Components composite).
Proof using. unfold aliases_of. by rewrite elem_of_list_to_set. Qed.

Lemma loaded_alias model alias : loaded !! alias = Some model -> alias ∈ aliases_of composite.
Proof using.
  rewrite elem_of_aliases. unfold loaded, resolveComponents.
  assert (forall comps components result alias,
    (resolve_components GetPublishedFullModel comps components result).1 !! alias = Some model ->
    alias ∈ map comp_Alias comps \/ is_Some (components !! alias)) as Hl.
  { intros comps. induction comps as [|comp comps IH]; intros components result a; cbn [resolve_components map]; [by right|].
    rewrite elem_of_cons. destruct (GetPublishedFullModel _).
    - intros [?|Hs]%IH; [tauto|]. destruct (decide (a = comp_Alias comp)) as [->|Hne]; [tauto|].
      rewrite lookup_insert_ne in Hs by done. tauto.
    - intros [?|?]%IH; tauto. }
  intros [?|[? He]]%Hl; [done|]. by rewrite lookup_empty in He.
Qed.

Lemma dimension_known_spec alias name :
  Forall component_ok (Components composite) ->
  (alias ∈ aliases_of composite /\ lacks_dimension loaded alias name = false) <-> dimension_known alias name.
Proof using.
  intros Hc. unfold dimension_known. split.
  - intros [Ha Hl]. apply lacks_dimension_spec; [|done]. apply resolve_components_loaded; [done|]. left. by apply elem_of_aliases.
  - intros (model & E & Hn). split; [by eapply loaded_alias|]. apply lacks_dimension_spec; [by rewrite E|]. by exists model.
Qed.

Lemma draft_spec :
  let (components, compResult) := resolveComponents GetPublishedFullModel composite in
  let s := validateCompositeCanonicalDate composite (aliases_of composite) components
    (validateCompositeCrossJoins composite (aliases_of composite) components
      (merge (validateCompositeComponentLayout composite (validateCompositeMetadata composite newValidationSink)) compResult)) in
  components = loaded /\ (Valid s = true <-> Errors s = []) /\ (Valid s = true <-> draft_ok).
Proof using.
  unfold loaded. destruct (resolveComponents _ _) as [components compResult] eqn:E. cbv zeta.
  assert (compResult = each component_check (Components composite) newValidationSink) as ->.
  { rewrite <- (resolve_components_checks _ ∅). unfold resolveComponents in E. by rewrite E. }
  assert (components = loaded) as -> by (unfold loaded; by rewrite E). split; [by unfold loaded; rewrite E|].
  destruct (reports_start _ _ newValidationSink
    (reports_comp _ _ _ _ (reports_comp _ _ _ _ (reports_comp _ _ _ _ (reports_comp _ _ _ _
      reports_metadata reports_layout)
      (reports_merge _ _ (reports_each _ _ (Components composite) reports_component)))
      (reports_each _ _ (CrossModelJoins composite) (reports_cross_join loaded)))
      (reports_canonical loaded)) eq_refl eq_refl) as [H1 H2].
  split; [exact H1|]. etransitivity; [exact H2|]. unfold draft_ok.
  assert (forall A B C D S T T' U U' : Prop, (S -> (T <-> T') /\ (U <-> U')) ->
    (((((A /\ B) /\ (C /\ D)) /\ S) /\ T) /\ U <-> A /\ B /\ C /\ D /\ S /\ T' /\ U')) as Hprop by tauto.
  apply Hprop. intros Hc. split.
  - split; intros Hf; (eapply Forall_impl; [exact Hf|]); intros j Hj Ha; specialize (Hj Ha);
      by rewrite !dimension_known_spec in *.
  - destruct (CanonicalDate composite) as [ref|]; [|done]. by apply dimension_known_spec.
Qed.

Lemma reports_resolved resolved :
  reports (fun s => set_size (estimatePromptSize resolved) (appendCompositeFanoutWarnings composite
      (addErr "metric dependency: " (DetectCircularDependencies (BuildMetricGraph composite resolved)) s)))
    (Forall (fun m => Acc (flip (derives_from resolved)) (met_Name m)) (model_Metrics resolved)).
Proof using.
  eapply reports_iff.
  - apply (reports_comp (fun s => appendCompositeFanoutWarnings composite
      (addErr "metric dependency: " (DetectCircularDependencies (BuildMetricGraph composite resolved)) s))
      (set_size (estimatePromptSize resolved))); [|by apply reports_warning].
    apply (reports_comp _ (appendCompositeFanoutWarnings composite)); [apply reports_addErr|].
    apply reports_each. intros j. instantiate (1 := fun _ => True).
    do 2 (destruct (String.eqb _ _); [by apply reports_warning|]). apply reports_id.
  - rewrite <- (metric_cycles_ok composite). split; [tauto|]. intros Hd. split_and!; [done| |done]. by apply Forall_true.
Qed.
End Gate.

