(* ===== verification/FilterSQL.v ===== *)
(** Filters: [internal/query/compiler_filter.go], the filter part of
    [internal/query/compiler.go] ([buildFilterConjunction], [resolveFilterLHS],
    [dayOfMonthGrainFilterExpr]), [buildInSubqueryFilter] of
    [compiler_nested.go], and filtered aggregates.

    The methods that take the [args] pointer append to the state's arguments.
    They also return a slice of further arguments, which every handler leaves
    nil, so it is not represented.  The compilation of a nested SELECT
    ([compileSubqueryBody]) is the argument [subquery]. *)

From S2P Require Import Prelude GoStrings Values Dialect Semantic ReadOnly LogicalQuery PhysicalRef Suggest.
From S2P Require Import Pii RowFilter CompileMonad ExprCompile Calendar Joins Measures.
From stdpp Require Import options.
#[local] Open Scope Z_scope.

Definition CodeUnknownDimension : string := "UNKNOWN_DIMENSION".
Definition CodeUnknownMetric : string := "UNKNOWN_METRIC".
Definition CodeUnknownField : string := "UNKNOWN_FIELD".
Definition CodeHiddenPIIField : string := "HIDDEN_PII_FIELD".
Definition CodeInvalidSubqueryFilter : string := "INVALID_SUBQUERY_FILTER".
Definition UnknownDimensionMsg (name : string) : string := "unknown dimension: " +:+ name.
Definition UnknownMetricMsg (name : string) : string := "unknown metric: " +:+ name.
Definition UnknownFieldMsg (name : string) : string := "unknown field: " +:+ name.
Definition HiddenPIIFieldMsg (name : string) : string := "field is hidden by PII policy: " +:+ name.

Definition caseSensitiveComparison (dialectName lhsSQL op placeholder : string) : string :=
  if String.eqb dialectName "mysql" then lhsSQL +:+ " " +:+ op +:+ " BINARY " +:+ placeholder
  else if String.eqb dialectName "sqlserver" then
    lhsSQL +:+ " " +:+ op +:+ " " +:+ placeholder +:+ " COLLATE Latin1_General_CS_AS"
  else lhsSQL +:+ " " +:+ op +:+ " " +:+ placeholder.

Section Filters.
Context `{GoRuntime} `{MapOrder} (c : Comp).
Context (model : SemanticModel) (dimMap : gmap string Dimension) (metricMap : gmap string Metric).
Context (resolver : SchemaResolver).
Context (subquery : SubqueryBody -> M string).
#[local] Abbreviation d := (dialect c).

Definition sliceOfStrings (val : gval) : option (list string) :=
  match val with
  | VStrs v => Some v
  | VList v => Some (map Sprint (List.filter (fun item => negb (is_nil item)) v))
  | _ => None
  end.

Definition likeExpression (lhsSQL placeholder : string) (caseSensitive : bool) : string :=
  if caseSensitive then caseSensitiveComparison (Name d) lhsSQL "LIKE" placeholder
  else ILike d lhsSQL placeholder.

(** * The handlers *)

Definition buildEqualityFilter (f : Filter) (lhsSQL op sliceJoin : string) : M string :=
  let part ph :=
    if f_CaseSensitive f then caseSensitiveComparison (Name d) lhsSQL op ph
    else lhsSQL +:+ " " +:+ op +:+ " " +:+ ph in
  match sliceOfStrings (f_Value f) with
  | Some [] => ret "1=1"
  | Some vals =>
      do parts <- mapM (fun valStr => do ph <- bind_value d (VStr valStr); ret (part ph)) vals;
      ret ("(" +:+ Join parts (" " +:+ sliceJoin +:+ " ") +:+ ")")
  | None => do ph <- bind_value d (f_Value f); ret (part ph)
  end.

Definition buildComparisonFilter (f : Filter) (lhsSQL op : string) : M string :=
  do ph <- bind_value d (f_Value f);
  ret (lhsSQL +:+ " " +:+ op +:+ " " +:+ ph).

Definition buildLikeFilter (f : Filter) (lhsSQL : string) (wrap : string -> string) : M string :=
  match sliceOfStrings (f_Value f) with
  | Some [] => ret "1=1"
  | Some vals =>
      do parts <- mapM (fun valStr =>
        do ph <- bind_value d (VStr (wrap valStr));
        ret (likeExpression lhsSQL ph (f_CaseSensitive f))) vals;
      ret ("(" +:+ Join parts " OR " +:+ ")")
  | None =>
      let valStr := match f_Value f with VStr s => s | v => Sprint v end in
      do ph <- bind_value d (VStr (wrap valStr));
      ret (likeExpression lhsSQL ph (f_CaseSensitive f))
  end.

(** [buildInFilter] and [buildNotInFilter], which differ in two words. *)
Definition buildInValues (keyword what lhsSQL : string) (value : gval) : M string :=
  match value with
  | VList vals =>
      do placeholders <- mapM (bind_value d) vals;
      ret (lhsSQL +:+ " " +:+ keyword +:+ " (" +:+ Join placeholders ", " +:+ ")")
  | _ => throw (EMsg (what +:+ " operator expects array"))
  end.
Definition buildInFilter := buildInValues "IN" "in".
Definition buildNotInFilter := buildInValues "NOT IN" "not_in".

Definition buildBetweenFilter (lhsSQL : string) (value : gval) : M string :=
  match value with
  | VList [lo; hi] =>
      do p1 <- bind_value d lo;
      do p2 <- bind_value d hi;
      ret (lhsSQL +:+ " BETWEEN " +:+ p1 +:+ " AND " +:+ p2)
  | _ => throw (EMsg "between operator expects 2 values")
  end.

Definition buildInSubqueryFilter (lhsSQL : string) (sq : SubqueryFilter) (positive : bool) : M string :=
  if str_empty (TrimSpace (sf_ResultField sq)) then throw (EMsg "subquery filter requires result_field")
  else
    do subSQL <- subquery (sf_Body sq);
    match b_Select (sf_Body sq) with
    | [sel] =>
        if negb (String.eqb (s_Name sel) (sf_ResultField sq)) && negb (String.eqb (s_Alias sel) (sf_ResultField sq))
        then throw (EMsg ("subquery filter body does not select the required result_field "
                          +:+ Quote (sf_ResultField sq)))
        else
          let op := if positive then "IN" else "NOT IN" in
          ret (lhsSQL +:+ " " +:+ op +:+ " (" +:+ subSQL +:+ ")")
    | _ => throw (validationErrWithCode "filters" "subquery filter body must select exactly one field"
                    CodeInvalidSubqueryFilter (sf_ResultField sq) [])
    end.

Definition buildInOperatorFilter (f : Filter) (lhsSQL : string) : M string :=
  match f_Subquery f with
  | Some sq => buildInSubqueryFilter lhsSQL sq true
  | None => buildInFilter lhsSQL (f_Value f)
  end.
Definition buildNotInOperatorFilter (f : Filter) (lhsSQL : string) : M string :=
  match f_Subquery f with
  | Some sq => buildInSubqueryFilter lhsSQL sq false
  | None => buildNotInFilter lhsSQL (f_Value f)
  end.

(** The table [filterHandlers] and its lookup. *)
Definition buildFilterPart (f : Filter) (lhsSQL : string) : M string :=
  let op := f_Operator f in
  if String.eqb op OpEq then buildEqualityFilter f lhsSQL "=" "OR"
  else if String.eqb op OpNeq then buildEqualityFilter f lhsSQL "!=" "AND"
  else if String.eqb op OpGt then buildComparisonFilter f lhsSQL ">"
  else if String.eqb op OpGte then buildComparisonFilter f lhsSQL ">="
  else if String.eqb op OpLt then buildComparisonFilter f lhsSQL "<"
  else if String.eqb op OpLte then buildComparisonFilter f lhsSQL "<="
  else if String.eqb op OpIn then buildInOperatorFilter f lhsSQL
  else if String.eqb op OpNotIn then buildNotInOperatorFilter f lhsSQL
  else if String.eqb op OpContains then buildLikeFilter f lhsSQL (fun v => "%" +:+ v +:+ "%")
  else if String.eqb op OpStartsWith then buildLikeFilter f lhsSQL (fun v => v +:+ "%")
  else if String.eqb op OpEndsWith then buildLikeFilter f lhsSQL (fun v => "%" +:+ v)
  else if String.eqb op OpBetween then buildBetweenFilter lhsSQL (f_Value f)
  else if String.eqb op OpIsNull then ret (lhsSQL +:+ " IS NULL")
  else if String.eqb op OpIsNotNull then ret (lhsSQL +:+ " IS NOT NULL")
  else if String.eqb op OpIsEmpty then ret (lhsSQL +:+ " = ''")
  else if String.eqb op OpIsNotEmpty then ret (lhsSQL +:+ " != ''")
  else throw (EMsg ("unsupported operator: " +:+ op)).

(** * The left-hand side and the conjunction *)

Definition resolveFilterLHS (field : string) : M string :=
  let unknown := throw (validationErrWithCode "filters" (UnknownFieldMsg field) CodeUnknownField field
    (suggestAlternatives field (keys dimMap ++ keys metricMap))) in
  if derivedSource c && (bool_decide (is_Some (dimMap !! field)) || bool_decide (is_Some (metricMap !! field)))
  then ret (derivedFieldSQL c field)
  else
    match dimMap !! field with
    | Some dim =>
        if filterFieldHidden c resolver dim then
          throw (validationErrWithCode "filters" (HiddenPIIFieldMsg field) CodeHiddenPIIField field [])
        else dimensionSQL c resolver dim
    | None =>
        match metricMap !! field with
        | Some metric =>
            qualifyMetricExpression c model dimMap metricMap resolver
              (metricAggregate' c model dimMap metricMap resolver) (Some metric) (met_Expression metric)
        | None => unknown
        end
    end.

Definition dayOfMonthGrainFilterExpr (f : Filter) : M (option string) :=
  match dimMap !! f_Field f with
  | None => ret None
  | Some dim =>
      if negb (dayGrainBareIntegerFilter dim f) then ret None
      else
        let lhs := CalendarPart d TimeGrainDay (PhysicalColumnRef resolver (dim_ColumnRef dim)) in
        do part <- buildFilterPart f lhs;
        ret (Some part)
  end.

(** One turn of the loop of [buildFilterConjunction]. *)
Definition buildFilter (f : Filter) : M string :=
  do day <- dayOfMonthGrainFilterExpr f;
  match day with
  | Some expr => ret expr
  | None =>
      do grain <- calendarGrainFilterExpr d f (dimMap !! f_Field f) resolver;
      match grain with
      | Some expr => ret expr
      | None =>
          do raw <- rawDateDayFilterExpr d f (dimMap !! f_Field f) resolver;
          match raw with
          | Some expr => ret expr
          | None =>
              do colSQL <- resolveFilterLHS (f_Field f);
              buildFilterPart f colSQL
          end
      end
  end.

Definition buildFilterConjunction (filters : list Filter) : M string :=
  match filters with
  | [] => ret ""
  | _ => do parts <- mapM buildFilter filters; ret (Join parts " AND ")
  end.
Definition buildWhere := buildFilterConjunction.

(** [buildPredicate] of compiler_case.go *)
Definition buildPredicate (filters : list Filter) : M string :=
  match filters with
  | [] => throw (EMsg "empty predicate")
  | _ =>
      do parts <- mapM (fun f => do colSQL <- resolveFilterLHS (f_Field f); buildFilterPart f colSQL) filters;
      ret (Join parts " AND ")
  end.

(** * Filtered aggregates *)

Definition metricFilteredAggregate (metric : Metric) (filters : list Filter) : M string :=
  if negb (str_in (ToLower (TrimSpace (met_Aggregation metric)))
             ["count"; "count_distinct"; "sum"; "avg"; "min"; "max"]) then
    throw (EMsg ("per-measure filters require an aggregating metric (count/count_distinct/sum/avg/min/max), got "
                 +:+ Quote (met_Aggregation metric) +:+ " for metric " +:+ Quote (met_Name metric)))
  else
    do cond <- buildFilterConjunction filters;
    if str_empty cond then
      do agg <- metricAggregate' c model dimMap metricMap resolver metric;
      do _ <- check_cerr;
      ret agg
    else
      do expr <- metricExpressionRef c model dimMap metricMap resolver
        (metricAggregate' c model dimMap metricMap resolver) (Some metric) (met_Expression metric);
      do _ <- check_cerr;
      let inner :=
        if EqualFold (TrimSpace (met_Aggregation metric)) "count" && String.eqb (TrimSpace expr) "*" then "1"
        else match met_Expr metric with NilExpr => QuoteIdent d expr | _ => expr end in
      do agg <- aggregateExpr c (met_Aggregation metric) ("CASE WHEN " +:+ cond +:+ " THEN " +:+ inner +:+ " END");
      do _ <- check_cerr;
      ret agg.
End Filters.
