(* ===== verification/SelectSQL.v ===== *)
(** The SELECT list: [buildSelect] and the select items of
    [internal/query/compiler.go] and [compiler_case.go] - dimensions, metrics,
    formulas over two measures, window expressions and CASE expressions.

    The pattern [validFramePattern] is matched word by word on the words the
    frame clause has between the blanks of the class [\s]; letters other than
    ASCII ones are taken to differ from the keywords' letters. *)

From S2P Require Import Prelude GoStrings Values Dialect Semantic ReadOnly LogicalQuery PhysicalRef Suggest.
From S2P Require Import Pii RowFilter CompileMonad ExprCompile Calendar Joins Measures FilterSQL.
From stdpp Require Import options.
#[local] Open Scope Z_scope.

Definition CodeInvalidWindowFrame : string := "INVALID_WINDOW_FRAME".

Definition selectItemAlias (alias fallback : string) : string :=
  if negb (str_empty alias) then alias else fallback.
Definition selectItemSQL (expr alias : string) (d : Dialect) : string :=
  expr +:+ " AS " +:+ QuoteIdent d alias.

Definition analyticWindowFuncs : list string :=
  ["row_number"; "rank"; "dense_rank"; "percent_rank"; "cume_dist"; "ntile";
   "lag"; "lead"; "first_value"; "last_value"].

Definition isPositiveInt (s : string) : bool :=
  if str_empty s then false
  else if negb (str_forallb is_digit s) then false
  else negb (String.eqb s "0").

(** * Window frames *)

(** The words of a text, separated by the blanks of the class [\s]. *)
Fixpoint re_words_from (cur s : string) : list string :=
  match s with
  | EmptyString => if str_empty cur then [] else [cur]
  | String c s =>
      if is_re_space c then (if str_empty cur then re_words_from "" s else cur :: re_words_from "" s)
      else re_words_from (cur +:+ String c "") s
  end.
Definition re_words (s : string) : list string := re_words_from "" s.

Definition frame_start (w1 w2 : string) : bool :=
  (String.eqb w1 "UNBOUNDED" || str_forallb is_digit w1) && String.eqb w2 "PRECEDING"
  || String.eqb w1 "CURRENT" && String.eqb w2 "ROW".
Definition frame_end (w1 w2 : string) : bool :=
  String.eqb w1 "UNBOUNDED" && String.eqb w2 "FOLLOWING"
  || str_forallb is_digit w1 && str_in w2 ["PRECEDING"; "FOLLOWING"]
  || String.eqb w1 "CURRENT" && String.eqb w2 "ROW".

Definition isValidFrame (frame : string) : bool :=
  match map ToUpper (re_words frame) with
  | [unit; between; s1; s2; and; e1; e2] =>
      str_in unit ["ROWS"; "RANGE"; "GROUPS"] && String.eqb between "BETWEEN" && frame_start s1 s2
      && String.eqb and "AND" && frame_end e1 e2
  | _ => false
  end.

Section Select.
Context `{GoRuntime} `{MapOrder} (c : Comp).
Context (model : SemanticModel) (dimMap : gmap string Dimension) (metricMap : gmap string Metric).
Context (resolver : SchemaResolver).
Context (subquery : SubqueryBody -> M string).
#[local] Abbreviation d := (dialect c).
#[local] Abbreviation aggregate := (metricAggregate' c model dimMap metricMap resolver).
#[local] Abbreviation filtered := (metricFilteredAggregate c model dimMap metricMap resolver subquery).

Definition unknown_metric (name : string) : goerr :=
  validationErrWithCode "select" (UnknownMetricMsg name) CodeUnknownMetric name
    (suggestAlternatives name (keys metricMap)).

(** [metricAggregate] followed by the check of [c.err]. *)
Definition checked_aggregate (metric : Metric) : M string :=
  do agg <- aggregate metric;
  do _ <- check_cerr;
  ret agg.

Definition buildSelectDimension (item : SelectItem) : M string :=
  match dimMap !! s_Name item with
  | None => throw (validationErrWithCode "select" (UnknownDimensionMsg (s_Name item)) CodeUnknownDimension
                     (s_Name item) (suggestAlternatives (s_Name item) (keys dimMap)))
  | Some dim =>
      let alias := selectItemAlias (s_Alias item) (dim_Name dim) in
      if derivedSource c then ret (selectItemSQL (derivedFieldSQL c alias) alias d)
      else
        do dimSQL <- dimensionOutputSQL c resolver dim;
        do _ <- check_cerr;
        ret (selectItemSQL dimSQL alias d)
  end.

Definition buildSelectMetric (item : SelectItem) : M string :=
  match metricMap !! s_Name item with
  | None => throw (unknown_metric (s_Name item))
  | Some metric =>
      let alias := selectItemAlias (s_Alias item) (met_Name metric) in
      if derivedSource c then ret (selectItemSQL (derivedFieldSQL c alias) alias d)
      else
        match s_Filters item with
        | [] => do agg <- checked_aggregate metric; ret (selectItemSQL agg alias d)
        | filters => do agg <- filtered metric filters; ret (selectItemSQL agg alias d)
        end
  end.

Definition measureSQL (m : MeasureRef) : M string :=
  match metricMap !! m_Metric m with
  | None => throw (unknown_metric (m_Metric m))
  | Some metric =>
      match m_Filters m with
      | [] => checked_aggregate metric
      | filters => filtered metric filters
      end
  end.

(** The text of a formula; [None] is an operator the switch does not list. *)
Definition formulaSQL (op l r : string) : option string :=
  if String.eqb op FormulaOpAdd then Some (l +:+ " + " +:+ r)
  else if String.eqb op FormulaOpSubtract then Some (l +:+ " - " +:+ r)
  else if String.eqb op FormulaOpDivide then Some (l +:+ " * 1.0 / NULLIF(" +:+ r +:+ ", 0)")
  else if String.eqb op FormulaOpPercentOf then Some (l +:+ " * 100.0 / NULLIF(" +:+ r +:+ ", 0)")
  else if String.eqb op FormulaOpPercentChange then
    Some ("(" +:+ l +:+ " - " +:+ r +:+ ") * 100.0 / NULLIF(" +:+ r +:+ ", 0)")
  else None.

Definition buildSelectFormula (item : SelectItem) : M string :=
  match s_Formula item with
  | None => throw (EMsg "formula select item requires a formula spec")
  | Some formula =>
      let alias := selectItemAlias (s_Alias item) (s_Name item) in
      if str_empty alias then throw (EMsg "formula select item requires name or alias")
      else
        do lhs <- measureSQL (fo_Left formula);
        do rhs <- measureSQL (fo_Right formula);
        match formulaSQL (fo_Op formula) ("(" +:+ lhs +:+ ")") ("(" +:+ rhs +:+ ")") with
        | Some sql => ret (selectItemSQL sql alias d)
        | None => throw (EMsg ("unsupported formula op: " +:+ Quote (fo_Op formula)))
        end
  end.

(** * Window expressions *)

Definition buildWindowHead (agg expr : string) (exprFromAST : bool) (offset : Z) : M string :=
  if String.eqb agg "count_distinct" then
    throw (EMsg ("count_distinct is not supported as a window function (no portable SQL across engines); "
                 +:+ "use a plain count window or a distinct subquery instead"))
  else if negb (str_in agg analyticWindowFuncs) then
    if exprFromAST || String.eqb expr "*" then aggregateExpr c agg expr else ret (Aggregate d agg expr)
  else
    let valueSQL := if exprFromAST then expr else QuoteIdent d expr in
    let no_value := str_empty expr || String.eqb expr "*" in
    let needs_value := throw (EMsg ("window function " +:+ Quote agg +:+ " requires a metric or expression to read")) in
    do args <-
      if String.eqb agg "ntile" then
        let bucket := if str_empty expr then "4" else expr in
        if negb (isPositiveInt bucket) then
          throw (EMsg ("ntile bucket must be a positive integer, got: " +:+ Quote bucket))
        else ret [bucket]
      else if str_in agg ["lag"; "lead"] then
        if no_value then needs_value
        else ret [valueSQL; Itoa (if offset <=? 0 then 1 else offset)]
      else if str_in agg ["first_value"; "last_value"] then
        if no_value then needs_value else ret [valueSQL]
      else ret [];
    match WindowFunc d agg args with
    | Some head => ret head
    | None => throw (EMsg ("window function " +:+ Quote agg +:+ " is not supported by the " +:+ Name d +:+ " dialect"))
    end.

Definition inheritWindowMetricFields (metricName agg expr : string) (exprFromAST : bool)
    : M (string * string * bool) :=
  let mname := TrimSpace metricName in
  if str_empty mname then ret (agg, expr, exprFromAST)
  else
    match metricMap !! mname with
    | None => throw (EMsg ("window metric not found: " +:+ mname))
    | Some m =>
        let agg := if str_empty agg then ToLower (met_Aggregation m) else agg in
        if negb (str_empty expr) then ret (agg, expr, exprFromAST)
        else
          match met_Expr m with
          | NilExpr => ret (agg, met_Expression m, exprFromAST)
          | e => do compiled <- compile_expr c resolver (ExprCompileOptsForMetric m) e; ret (agg, compiled, true)
          end
    end.

Definition buildWindowPartitionBy (partitionBy : list string) : M string :=
  match partitionBy with
  | [] => ret ""
  | _ =>
      do cols <- mapM (fun p =>
        match dimMap !! p with
        | Some dim => dimensionSQL c resolver dim
        | None => throw (EMsg ("unknown window partition_by dimension: " +:+ p))
        end) partitionBy;
      ret ("PARTITION BY " +:+ Join cols ", ")
  end.

Definition window_direction (direction : string) : string :=
  let dir := ToUpper (TrimSpace direction) in
  if negb (String.eqb dir "DESC") then "ASC" else dir.

Definition buildWindowOrderBy (orderBy : list OrderBy) : M string :=
  match orderBy with
  | [] => ret ""
  | _ =>
      do parts <- mapM (fun ob =>
        do ref <-
          match dimMap !! ob_Field ob with
          | Some dim => dimensionSQL c resolver dim
          | None =>
              match metricMap !! ob_Field ob with
              | Some metric => aggregate metric
              | None => throw (EMsg ("unknown window order_by field: " +:+ ob_Field ob))
              end
          end;
        ret (ref +:+ " " +:+ window_direction (ob_Direction ob))) orderBy;
      ret ("ORDER BY " +:+ Join parts ", ")
  end.

(** The clause appended when it is not empty. *)
Definition nonempty (s : string) : list string := if str_empty s then [] else [s].

Definition finishWindowOver (head : string) (w : WindowSpec) : M string :=
  do partBy <- buildWindowPartitionBy (w_PartitionBy w);
  do orderBy <- buildWindowOrderBy (w_OrderBy w);
  let clauses := nonempty partBy ++ nonempty orderBy in
  let frame := TrimSpace (w_Frame w) in
  do clauses <-
    if str_empty frame then ret clauses
    else if negb (isValidFrame frame) then
      throw (validationErrWithCode "select" ("invalid window frame clause: " +:+ Quote frame)
               CodeInvalidWindowFrame frame [])
    else ret (clauses ++ [frame]);
  ret (head +:+ " OVER (" +:+ Join clauses " " +:+ ")").

(** [None] when the window is not one over an aggregated metric. *)
Definition tryBuildNestedMetricWindow (w : WindowSpec) (agg : string) : M (option string) :=
  let mname := TrimSpace (w_Metric w) in
  if str_empty mname then ret None
  else
    match metricMap !! mname with
    | None => ret None
    | Some m =>
        let metricAgg := ToLower (TrimSpace (met_Aggregation m)) in
        if str_empty metricAgg || String.eqb agg metricAgg || str_in agg analyticWindowFuncs then ret None
        else
          do inner <- checked_aggregate m;
          do head <- buildWindowHead agg inner true (w_Offset w);
          do finished <- finishWindowOver head w;
          ret (Some finished)
    end.

Definition buildWindowExpr (item : SelectItem) : M string :=
  match s_Window item with
  | None => throw (EMsg ("window select item " +:+ Quote (s_Name item) +:+ " missing window spec"))
  | Some w =>
      let agg := ToLower (TrimSpace (w_Aggregation w)) in
      do (expr, exprFromAST) <-
        match w_Expr w with
        | NilExpr => ret (TrimSpace (w_Expression w), false)
        | e => do expr <- compile_expr c resolver false e; ret (expr, true)
        end;
      do (agg, expr, exprFromAST) <- inheritWindowMetricFields (w_Metric w) agg expr exprFromAST;
      do nested <- tryBuildNestedMetricWindow w agg;
      match nested with
      | Some sql => ret sql
      | None =>
          do expr <-
            if negb (str_empty expr) && negb (String.eqb expr "*") && negb exprFromAST
            then metricExpressionRef c model dimMap metricMap resolver aggregate None expr
            else ret expr;
          if str_empty agg then
            throw (EMsg ("window select item " +:+ Quote (s_Name item) +:+ " missing aggregation"))
          else
            do head <- buildWindowHead agg expr exprFromAST (w_Offset w);
            finishWindowOver head w
      end
  end.

Definition buildSelectWindow (item : SelectItem) : M string :=
  do windowSQL <- buildWindowExpr item;
  ret (selectItemSQL windowSQL (selectItemAlias (s_Alias item) (s_Name item)) d).

(** * CASE expressions: compiler_case.go *)

Definition formatLiteral (value : gval) : M string :=
  match value with
  | VNil => ret "NULL"
  | VBool true => ret "TRUE"
  | VBool false => ret "FALSE"
  | v => bind_value d v
  end.

Definition buildCaseThen (thn : CaseThen) : M string :=
  let ty := ToLower (TrimSpace (ct_Type thn)) in
  if str_in ty [CaseThenTypeDimension; ""] then
    if str_empty (ct_Dimension thn) then throw (EMsg "case then dimension name required")
    else
      match dimMap !! ct_Dimension thn with
      | None => throw (EMsg ("unknown case then dimension: " +:+ ct_Dimension thn))
      | Some dim => dimensionSQL c resolver dim
      end
  else if String.eqb ty CaseThenTypeLiteral then formatLiteral (ct_Literal thn)
  else throw (EMsg ("invalid case then type: " +:+ ct_Type thn)).

Definition case_branch (i : Z) (br : CaseBranch) : M string :=
  match br_When br with
  | [] => throw (EMsg ("case branch " +:+ Itoa i +:+ " missing when filters"))
  | filters =>
      do pred <- wrapping ("case branch " +:+ Itoa i)
        (buildPredicate c model dimMap metricMap resolver subquery filters);
      do thenSQL <- wrapping ("case branch " +:+ Itoa i +:+ " then") (buildCaseThen (br_Then br));
      ret ("WHEN " +:+ pred +:+ " THEN " +:+ thenSQL)
  end.

Definition buildCaseExpr (item : SelectItem) : M string :=
  let missing := throw (EMsg ("case select item " +:+ Quote (s_Name item) +:+ " missing case branches")) in
  match s_Case item with
  | None => missing
  | Some case =>
      match c_Branches case with
      | [] => missing
      | branches =>
          do parts <- mapiM case_branch 0 branches;
          do otherwise <-
            match c_Else case with
            | None => ret []
            | Some thn => do elseSQL <- wrapping "case else" (buildCaseThen thn); ret ["ELSE " +:+ elseSQL]
            end;
          ret (Join (("CASE" :: parts) ++ otherwise ++ ["END"]) " ")
      end
  end.

Definition buildSelectCase (item : SelectItem) : M string :=
  do caseSQL <- buildCaseExpr item;
  let alias := selectItemAlias (s_Alias item) (s_Name item) in
  if str_empty alias then throw (EMsg "case select item requires name or alias")
  else ret (selectItemSQL caseSQL alias d).

(** * The list *)

Definition buildSelectItem (item : SelectItem) : M string :=
  if String.eqb (s_Type item) SelectTypeDimension then buildSelectDimension item
  else if String.eqb (s_Type item) SelectTypeMetric then buildSelectMetric item
  else if String.eqb (s_Type item) SelectTypeWindow then buildSelectWindow item
  else if String.eqb (s_Type item) SelectTypeCase then buildSelectCase item
  else if String.eqb (s_Type item) SelectTypeFormula then buildSelectFormula item
  else ret "".

Definition buildSelect (items : list SelectItem) : M (list string) :=
  do parts <- mapM buildSelectItem items;
  ret (List.filter (fun part => negb (str_empty part)) parts).
End Select.
