(* ===== verification/Validator.v ===== *)
(** The validator of logical queries ([internal/query/validator.go], the metric
    registry of [internal/semantic/model.go] and the name lists of
    [validation_helpers.go]).

    [Validate] checks a query against a semantic model and collects every defect
    it finds; when there is none the query, whose limit it may have set, goes on
    to the compiler. *)

From S2P Require Import Prelude GoStrings Values Semantic LogicalQuery Suggest Calendar Joins SelectSQL FilterSQL.
From stdpp Require Import options.
#[local] Open Scope Z_scope.

(** * The metric registry *)

Record MetricRegistry : Type := mkRegistry {
  byName : gmap string Metric;
  bySynonym : gmap string Metric;
}.

Definition register (r : MetricRegistry) (m : Metric) : MetricRegistry :=
  let syns := fold_left (fun s syn => <[ToLower syn := m]> s) (met_Synonyms m) (bySynonym r) in
  mkRegistry (<[ToLower (met_Name m) := m]> (byName r))
    (match met_Label m with Some label => <[ToLower label := m]> syns | None => syns end).

Definition NewMetricRegistry (metrics : list Metric) : MetricRegistry :=
  fold_left register metrics (mkRegistry ∅ ∅).

Definition Lookup (r : MetricRegistry) (name : string) : option Metric :=
  let key := ToLower (TrimSpace name) in
  match byName r !! key with
  | Some m => Some m
  | None => bySynonym r !! key
  end.

Definition Has (r : MetricRegistry) (name : string) : bool :=
  match Lookup r name with Some _ => true | None => false end.

(** * Lookups *)

Definition getDimensionNames (model : SemanticModel) : list string := map dim_Name (model_Dimensions model).
Definition getMetricNames (model : SemanticModel) : list string := map met_Name (model_Metrics model).
Definition getAllFieldNames (model : SemanticModel) : list string :=
  map dim_Name (model_Dimensions model) ++ map met_Name (model_Metrics model).

Record validationLookups : Type := mkLookups {
  lk_dimMap : gset string;
  lk_dimTypes : gmap string string;
  allowedFields : gset string;
  metricRegistry : MetricRegistry;
  dimensionNames : list string;
  metricNames : list string;
  allFieldNames : list string;
}.

Definition newValidationLookups (model : SemanticModel) : validationLookups := {|
  lk_dimMap := list_to_set (map dim_Name (model_Dimensions model));
  lk_dimTypes := fold_left (fun types d => <[dim_Name d := ToLower (TrimSpace (dim_Type d))]> types)
                   (model_Dimensions model) ∅;
  allowedFields := list_to_set (map dim_Name (model_Dimensions model))
                   ∪ list_to_set (map met_Name (model_Metrics model));
  metricRegistry := NewMetricRegistry (model_Metrics model);
  dimensionNames := getDimensionNames model;
  metricNames := getMetricNames model;
  allFieldNames := getAllFieldNames model |}.

(** [errs = append(errs, e)] under a condition. *)
Definition report (b : bool) (e : ValidationError) : list ValidationError := if b then [e] else [].

Definition CodeInvalidOperator : string := "INVALID_OPERATOR".
Definition CodeInvalidTimeGrain : string := "INVALID_TIME_GRAIN".
Definition CodeTimeGrainOnNonDate : string := "TIME_GRAIN_ON_NON_DATE".
Definition CodeInvalidSelectType : string := "INVALID_SELECT_TYPE".
Definition CodeRowLimitExceeded : string := "ROW_LIMIT_EXCEEDED".
Definition CodeNegativeOffset : string := "NEGATIVE_OFFSET".
Definition CodeDateValueTypeMismatch : string := "DATE_VALUE_TYPE_MISMATCH".

Definition havingOps : list string :=
  [OpEq; OpNeq; OpGt; OpGte; OpLt; OpLte; OpBetween; OpIsNull; OpIsNotNull].
Definition validFilterOps : list string :=
  [OpEq; OpNeq; OpGt; OpGte; OpLt; OpLte; OpIn; OpNotIn; OpContains; OpStartsWith; OpEndsWith;
   OpBetween; OpIsNull; OpIsNotNull; OpIsEmpty; OpIsNotEmpty].

(** The dates [time_grain] and the date checks are about. *)
Definition is_date_type (t : string) : bool := str_in t ["date"; "timestamp"; "datetime"].

(** * Filters *)

Definition validateSubqueryFilter (f : Filter) : list ValidationError :=
  report (negb (String.eqb (f_Operator f) OpIn) && negb (String.eqb (f_Operator f) OpNotIn))
    (mkValidationError "filters.subquery" "INVALID_SUBQUERY_OPERATOR"
       "subquery filter requires in or not_in operator" (f_Operator f) ["in"; "not_in"]) ++
  match f_Subquery f with
  | None => []
  | Some sq =>
      report (str_empty (TrimSpace (sf_ResultField sq)))
        (mkValidationError "filters.subquery" "MISSING_SUBQUERY_RESULT_FIELD"
           "subquery result_field is required" "" []) ++
      report (bool_decide (b_Select (sf_Body sq) = []))
        (mkValidationError "filters.subquery" "MISSING_SUBQUERY_SELECT" "subquery body requires select" "" [])
  end.

(** The verdict of the loop on one value of a filter. *)
Definition date_value_error `{GoRuntime} (f : Filter) (grain : string) (v : gval) : option ValidationError :=
  if negb (isNumericFilterValue v) then None
  else if str_empty grain then
    Some (mkValidationError "filters" CodeDateValueTypeMismatch
      ("filter on raw date/timestamp dimension " +:+ f_Field f +:+ " must use an ISO date string (" +:+ Quote "YYYY-MM-DD"
         +:+ "); for integer year/month/day filters use the matching *_year, *_month, or *_day grain dimension")
      (f_Field f) [f_Field f +:+ "_year"; f_Field f +:+ "_month"; f_Field f +:+ "_day"])
  else if String.eqb grain TimeGrainDay then
    if match numericFilterValueInt v with Some iv => (iv <? 1) || (31 <? iv) | None => true end then
      Some (mkValidationError "filters" CodeDateValueTypeMismatch
        ("day grain filter on " +:+ f_Field f +:+ " accepts day-of-month integers 1-31 or ISO date strings ("
           +:+ Quote "YYYY-MM-DD" +:+ ")") (f_Field f) [])
    else None
  else if String.eqb grain TimeGrainWeek then
    Some (mkValidationError "filters" CodeDateValueTypeMismatch
      ("week grain filter on " +:+ f_Field f +:+ " must use an ISO date string (" +:+ Quote "YYYY-MM-DD"
         +:+ ") anchoring the week; integers are not supported") (f_Field f) [])
  else None.

Definition validateDateFilterValueType `{GoRuntime} (f : Filter) (dimensions : list Dimension)
    : option ValidationError :=
  match scalarFilterValues f with
  | None | Some [] => None
  | Some vals =>
      match List.find (fun d => String.eqb (dim_Name d) (f_Field f)) dimensions with
      | None => None
      | Some dim =>
          if negb (is_date_type (ToLower (TrimSpace (dim_Type dim)))) then None
          else first_some (date_value_error f (grain_of dim)) vals
      end
  end.

Definition option_list {A} (o : option A) : list A := match o with Some a => [a] | None => [] end.

Section Lookups.
Context `{GoRuntime} (model : SemanticModel) (lk : validationLookups).
#[local] Abbreviation known_dimension n := (bool_decide (n ∈ lk_dimMap lk)).
#[local] Abbreviation known_metric := (Has (metricRegistry lk)).

Definition validate_filter (fieldPath : string) (f : Filter) : list ValidationError :=
  report (negb (bool_decide (f_Field f ∈ allowedFields lk)))
    (mkValidationError fieldPath CodeUnknownField (UnknownFieldMsg (f_Field f)) (f_Field f)
       (suggestAlternatives (f_Field f) (allFieldNames lk))) ++
  report (negb (str_in (f_Operator f) validFilterOps))
    (mkValidationError fieldPath CodeInvalidOperator ("invalid operator: " +:+ f_Operator f) (f_Operator f)
       validFilterOps) ++
  (match f_Subquery f with Some _ => validateSubqueryFilter f | None => [] end) ++
  option_list (validateDateFilterValueType f (model_Dimensions model)).

Definition validateFilterList (filters : list Filter) (fieldPath : string) : list ValidationError :=
  List.concat (map (validate_filter fieldPath) filters).

Definition validateFilterClauses (lq : LogicalQuery) : list ValidationError :=
  validateFilterList (Filters lq) "filters".

Definition validateMeasureRef (m : MeasureRef) (fieldPath : string) : list ValidationError :=
  report (negb (known_metric (m_Metric m)))
    (mkValidationError fieldPath CodeUnknownMetric (UnknownMetricMsg (m_Metric m)) (m_Metric m)
       (suggestAlternatives (m_Metric m) (metricNames lk))) ++
  validateFilterList (m_Filters m) (fieldPath +:+ ".filters").

(** * Select items *)

Definition validateFormulaSelect (item : SelectItem) : list ValidationError :=
  match s_Formula item with
  | None => [mkValidationError "select.formula" "MISSING_FORMULA_SPEC"
               ("formula item requires a formula spec: " +:+ s_Name item) "" []]
  | Some fo =>
      report (str_empty (TrimSpace (s_Name item)) && str_empty (TrimSpace (s_Alias item)))
        (mkValidationError "select.formula" "MISSING_FORMULA_NAME" "formula item requires name or alias" "" []) ++
      report (negb (IsValidFormulaOp (fo_Op fo)))
        (mkValidationError "select.formula" "INVALID_FORMULA_OP" ("unsupported formula op: " +:+ fo_Op fo) (fo_Op fo)
           [FormulaOpAdd; FormulaOpSubtract; FormulaOpDivide; FormulaOpPercentOf; FormulaOpPercentChange]) ++
      validateMeasureRef (fo_Left fo) "select.formula.left" ++
      validateMeasureRef (fo_Right fo) "select.formula.right"
  end.

Definition validateCaseThen (thn : CaseThen) : list ValidationError :=
  let ty := ToLower (TrimSpace (ct_Type thn)) in
  if str_in ty [CaseThenTypeDimension; ""] then
    report (str_empty (ct_Dimension thn) || negb (known_dimension (ct_Dimension thn)))
      (mkValidationError "select.case" CodeUnknownDimension ("unknown case then dimension: " +:+ ct_Dimension thn)
         (ct_Dimension thn) (suggestAlternatives (ct_Dimension thn) (dimensionNames lk)))
  else if String.eqb ty CaseThenTypeLiteral then
    report (match ct_Literal thn with VNil => true | _ => false end)
      (mkValidationError "select.case" "MISSING_CASE_THEN_LITERAL" "case then literal value required" "" [])
  else [mkValidationError "select.case" "INVALID_CASE_THEN_TYPE" ("invalid case then type: " +:+ ct_Type thn)
          (ct_Type thn) [CaseThenTypeDimension; CaseThenTypeLiteral]].

Fixpoint validate_branches (i : Z) (branches : list CaseBranch) : list ValidationError :=
  match branches with
  | [] => []
  | br :: branches =>
      report (bool_decide (br_When br = []))
        (mkValidationError "select.case" "MISSING_CASE_WHEN"
           ("case branch " +:+ Itoa i +:+ " missing when filters") "" []) ++
      validateCaseThen (br_Then br) ++ validate_branches (i + 1) branches
  end.

Definition validateCaseSelect (item : SelectItem) : list ValidationError :=
  match s_Case item with
  | None | Some (mkCase [] _) =>
      [mkValidationError "select.case" "MISSING_CASE_BRANCHES" ("case item requires branches: " +:+ s_Name item) "" []]
  | Some (mkCase branches els) =>
      report (str_empty (TrimSpace (s_Name item)) && str_empty (TrimSpace (s_Alias item)))
        (mkValidationError "select.case" "MISSING_CASE_NAME" "case item requires name or alias" "" []) ++
      validate_branches 0 branches ++
      match els with Some thn => validateCaseThen thn | None => [] end
  end.

Definition requiresWindowOrderBy (agg : string) : bool :=
  str_in agg ["row_number"; "rank"; "dense_rank"; "percent_rank"; "cume_dist"; "ntile"; "lag"; "lead";
              "first_value"; "last_value"].
Definition windowReadsValue (agg : string) : bool := str_in agg ["lag"; "lead"; "first_value"; "last_value"].
Definition aggregateWindow : list string := ["sum"; "avg"; "count"; "min"; "max"].

Definition validate_order (field : string) (ob : OrderBy) : list ValidationError :=
  report (negb (known_dimension (ob_Field ob)) && negb (known_metric (ob_Field ob)))
    (mkValidationError field CodeUnknownField (UnknownFieldMsg (ob_Field ob)) (ob_Field ob)
       (suggestAlternatives (ob_Field ob) (allFieldNames lk))) ++
  report (negb (str_empty (ob_Direction ob)) && negb (String.eqb (ob_Direction ob) OrderAsc)
            && negb (String.eqb (ob_Direction ob) OrderDesc))
    (mkValidationError field "INVALID_DIRECTION" ("invalid direction: " +:+ ob_Direction ob) (ob_Direction ob)
       [OrderAsc; OrderDesc]).

Definition validateOrderByClauses (orderBy : list OrderBy) (field : string) : list ValidationError :=
  List.concat (map (validate_order field) orderBy).

Definition validate_partition (p : string) : list ValidationError :=
  report (negb (known_dimension p))
    (mkValidationError "select.window.partition_by" CodeUnknownDimension (UnknownDimensionMsg p) p
       (suggestAlternatives p (dimensionNames lk))).

(** The aggregation: a windowed aggregate, an analytic function or, with a metric,
    anything but [count_distinct]. *)
Definition validate_window_aggregation (w : WindowSpec) (agg : string) : list ValidationError :=
  if String.eqb agg "count_distinct" then
    [mkValidationError "select.window" "INVALID_WINDOW_AGGREGATION"
       "count_distinct cannot be used as a window function; use a plain count window or a distinct subquery"
       (w_Aggregation w) []]
  else report (negb (str_in agg aggregateWindow) && negb (str_in agg analyticWindowFuncs) && str_empty (w_Metric w))
    (mkValidationError "select.window" "INVALID_WINDOW_AGGREGATION"
       ("unsupported window aggregation: " +:+ w_Aggregation w) (w_Aggregation w)
       ["sum"; "avg"; "count"; "min"; "max"; "row_number"; "rank"; "dense_rank"; "percent_rank"; "cume_dist";
        "ntile"; "lag"; "lead"; "first_value"; "last_value"]).

Definition validateWindowSelect (item : SelectItem) : list ValidationError :=
  match s_Window item with
  | None => [mkValidationError "select" "MISSING_WINDOW_SPEC" ("window item missing window spec: " +:+ s_Name item) "" []]
  | Some w =>
      let agg := ToLower (TrimSpace (w_Aggregation w)) in
      report (negb (str_empty (w_Metric w)) && negb (known_metric (w_Metric w)))
        (mkValidationError "select.window" CodeUnknownMetric ("unknown metric reference: " +:+ w_Metric w) (w_Metric w)
           (suggestAlternatives (w_Metric w) (metricNames lk))) ++
      validate_window_aggregation w agg ++
      report (requiresWindowOrderBy agg && bool_decide (w_OrderBy w = []))
        (mkValidationError "select.window.order_by" "MISSING_WINDOW_ORDER_BY"
           ("window function " +:+ agg +:+ " requires order_by") agg []) ++
      report (windowReadsValue agg && str_empty (TrimSpace (w_Expression w))
                && (match w_Expr w with NilExpr => true | _ => false end) && str_empty (TrimSpace (w_Metric w)))
        (mkValidationError "select.window" "MISSING_WINDOW_VALUE"
           ("window function " +:+ agg +:+ " requires a metric or expression to read") agg []) ++
      List.concat (map validate_partition (w_PartitionBy w)) ++
      validateOrderByClauses (w_OrderBy w) "select.window.order_by"
  end.

Definition validate_item (item : SelectItem) : list ValidationError :=
  if String.eqb (s_Type item) SelectTypeDimension then
    report (negb (known_dimension (s_Name item)))
      (mkValidationError "select" CodeUnknownDimension (UnknownDimensionMsg (s_Name item)) (s_Name item)
         (suggestAlternatives (s_Name item) (dimensionNames lk)))
  else if String.eqb (s_Type item) SelectTypeMetric then
    report (negb (known_metric (s_Name item)))
      (mkValidationError "select" CodeUnknownMetric (UnknownMetricMsg (s_Name item)) (s_Name item)
         (suggestAlternatives (s_Name item) (metricNames lk))) ++
    validateFilterList (s_Filters item) "select.filters"
  else if String.eqb (s_Type item) SelectTypeWindow then validateWindowSelect item
  else if String.eqb (s_Type item) SelectTypeCase then validateCaseSelect item
  else if String.eqb (s_Type item) SelectTypeFormula then validateFormulaSelect item
  else [mkValidationError "select" CodeInvalidSelectType ("invalid select type: " +:+ s_Type item) (s_Type item)
          [SelectTypeDimension; SelectTypeMetric; SelectTypeWindow; SelectTypeCase; SelectTypeFormula]].

Definition validateSelectItems (lq : LogicalQuery) : list ValidationError :=
  List.concat (map validate_item (Select lq)).

(** * HAVING, GROUP BY, FROM, schemas, limits *)

Definition validate_having (f : Filter) : list ValidationError :=
  report (negb (known_metric (f_Field f)))
    (mkValidationError "having" CodeUnknownMetric ("having field must reference a metric: " +:+ f_Field f) (f_Field f)
       (suggestAlternatives (f_Field f) (metricNames lk))) ++
  report (negb (str_in (f_Operator f) havingOps))
    (mkValidationError "having" CodeInvalidOperator ("operator not supported in having: " +:+ f_Operator f)
       (f_Operator f) havingOps).
Definition validateHavingClause (lq : LogicalQuery) : list ValidationError :=
  List.concat (map validate_having (Having lq)).

Definition validate_group (gb : GroupBy) : list ValidationError :=
  if negb (known_dimension (gb_Field gb)) then
    [mkValidationError "group_by" CodeUnknownDimension (UnknownDimensionMsg (gb_Field gb)) (gb_Field gb)
       (suggestAlternatives (gb_Field gb) (dimensionNames lk))]
  else if str_empty (gb_TimeGrain gb) then []
  else if negb (IsValidTimeGrain (gb_TimeGrain gb)) then
    [mkValidationError "group_by.time_grain" CodeInvalidTimeGrain
       ("invalid time_grain (expected hour|day|week|month|quarter|year): " +:+ gb_TimeGrain gb) (gb_TimeGrain gb)
       ["hour"; "day"; "week"; "month"; "quarter"; "year"]]
  else report (negb (is_date_type (default "" (lk_dimTypes lk !! gb_Field gb))))
    (mkValidationError "group_by.time_grain" CodeTimeGrainOnNonDate
       ("time_grain only valid on date/timestamp dimensions: " +:+ gb_Field gb) (gb_Field gb) []).
Definition validateGroupByClauses (lq : LogicalQuery) : list ValidationError :=
  List.concat (map validate_group (GroupBys lq)).
End Lookups.

Definition validateFromAndCTEs (lq : LogicalQuery) : list ValidationError :=
  let fromCTE := negb (str_empty (TrimSpace (FromCTE lq))) in
  report (bool_decide (FromSubquery lq <> None) && fromCTE)
    (mkValidationError "from" "MUTUALLY_EXCLUSIVE_FROM" "from_subquery and from_cte are mutually exclusive" "" []) ++
  List.concat (map (fun cte => report (str_empty (TrimSpace (cte_Name cte)))
    (mkValidationError "ctes" "MISSING_CTE_NAME" "cte name is required" "" [])) (CTEs lq)) ++
  report (fromCTE && negb (existsb (fun cte => String.eqb (cte_Name cte) (FromCTE lq)) (CTEs lq)))
    (mkValidationError "from_cte" "UNKNOWN_CTE" ("from_cte must match a defined cte name: " +:+ FromCTE lq)
       (FromCTE lq) []).

(** The schemas a query may name, in lower case. *)
Definition add_schema (allowed : gset string) (s : string) : gset string :=
  let s := TrimSpace s in if str_empty s then allowed else {[ToLower s]} ∪ allowed.
Definition allowed_schemas (model : SemanticModel) : gset string :=
  fold_left (fun allowed j => add_schema (add_schema allowed (join_FromSchema j)) (join_ToSchema j))
    (model_Joins model) (add_schema ∅ (model_BaseSchema model)).
Definition check_schema (allowed : gset string) (field schema : string) : list ValidationError :=
  let s := TrimSpace schema in
  report (negb (str_empty s) && negb (bool_decide (ToLower s ∈ allowed)))
    (mkValidationError field "DISALLOWED_SCHEMA" ("schema not declared by the semantic model: " +:+ schema) schema []).

Definition validateSchemaOverrides `{MapOrder} (lq : LogicalQuery) (model : SemanticModel) : list ValidationError :=
  if str_empty (TrimSpace (DefaultSchema lq)) && bool_decide (TableSchemas lq = ∅) then []
  else
    let allowed := allowed_schemas model in
    check_schema allowed "default_schema" (DefaultSchema lq) ++
    List.concat (map (fun e => check_schema allowed ("table_schemas." +:+ e.1) e.2) (range (TableSchemas lq))).

Definition set_Limit (n : Z) (lq : LogicalQuery) : LogicalQuery :=
  mkLQ (Version lq) (DatasourceID lq) (ModelID lq) (CompositeID lq) (Select lq) (Filters lq) (GroupBys lq) (Having lq)
    (OrderBys lq) n (Offset lq) (CTEs lq) (FromSubquery lq) (FromCTE lq) (FromAlias lq) (DefaultSchema lq)
    (TableSchemas lq).

(** The defects, and the query with an omitted limit set to the ceiling. *)
Definition validateLimitOffset (maxRows : Z) (lq : LogicalQuery) : list ValidationError * LogicalQuery :=
  let errs :=
    report (Limit lq <? 0) (mkValidationError "limit" "NEGATIVE_LIMIT" "limit must be non-negative" "" []) ++
    report (maxRows <? Limit lq)
      (mkValidationError "limit" CodeRowLimitExceeded
         ("limit exceeds maximum allowed rows (" +:+ Itoa maxRows +:+ ")") (Itoa (Limit lq)) []) ++
    report (Offset lq <? 0) (mkValidationError "offset" CodeNegativeOffset "offset must be non-negative" "" []) in
  (errs, if bool_decide (errs = []) && (Limit lq =? 0) && (0 <? maxRows) then set_Limit maxRows lq else lq).

(** [Validate] of a validator made by [NewValidator(maxRows)]: the error, if any,
    and the query as it leaves it. *)
Definition Validate `{GoRuntime} `{MapOrder} (maxRows : Z) (lq : LogicalQuery) (model : SemanticModel)
    : res unit * LogicalQuery :=
  let lk := newValidationLookups model in
  let (limit_errs, lq') := validateLimitOffset maxRows lq in
  let errs :=
    validateSelectItems model lk lq ++ validateHavingClause lk lq ++ validateFilterClauses model lk lq ++
    validateFromAndCTEs lq ++ validateSchemaOverrides lq model ++
    option_list (validateCalendarGrainYearCoverage lq model) ++
    validateGroupByClauses lk lq ++ validateOrderByClauses lk (OrderBys lq) "order_by" ++ limit_errs in
  (match errs with [] => Ok tt | _ => Err (EValidation errs) end, lq').
