(* ===== verification/Validated.v ===== *)
(** What the validator decides: a typing judgement on queries, stated without the
    validator's lookup tables and error lists. *)

From S2P Require Import Prelude GoStrings Values Dialect Semantic LogicalQuery PhysicalRef Suggest Calendar Joins.
From S2P Require Import SelectSQL FilterSQL Validator.
From stdpp Require Import options.
#[local] Open Scope Z_scope.

(** * The judgement *)

Section Typing.
Context `{GoRuntime} (model : SemanticModel).

Definition known_dimension (n : string) : Prop := n ∈ map dim_Name (model_Dimensions model).
Definition known_field (n : string) : Prop := known_dimension n \/ n ∈ map met_Name (model_Metrics model).

(** A metric answers to its name, its synonyms and its label, in any case. *)
Definition answers_to (m : Metric) (key : string) : Prop :=
  key ∈ map ToLower (met_Name m :: met_Synonyms m ++ option_list (met_Label m)).
Definition known_metric (n : string) : Prop :=
  exists m, m ∈ model_Metrics model /\ answers_to m (ToLower (TrimSpace n)).

Definition blank (s : string) : Prop := TrimSpace s = "".
Definition agg_of (w : WindowSpec) : string := ToLower (TrimSpace (w_Aggregation w)).

(** A number on a date column makes sense for a grain only. *)
Record date_value_typed (f : Filter) (grain : string) (v : gval) : Prop := {
  date_grain : isNumericFilterValue v = true -> grain ∉ [""; TimeGrainWeek];
  date_day : isNumericFilterValue v = true -> grain = TimeGrainDay ->
    exists n, numericFilterValueInt v = Some n /\ 1 <= n <= 31;
}.

Record filter_typed (f : Filter) : Prop := {
  ft_field : known_field (f_Field f);
  ft_operator : f_Operator f ∈ validFilterOps;
  ft_subquery : forall sq, f_Subquery f = Some sq ->
    f_Operator f ∈ [OpIn; OpNotIn] /\ ~ blank (sf_ResultField sq) /\ b_Select (sf_Body sq) <> [];
  ft_dates : forall dim vals v,
    List.find (fun d => String.eqb (dim_Name d) (f_Field f)) (model_Dimensions model) = Some dim ->
    ToLower (TrimSpace (dim_Type dim)) ∈ ["date"; "timestamp"; "datetime"] ->
    scalarFilterValues f = Some vals -> v ∈ vals -> date_value_typed f (grain_of dim) v;
}.

Definition measure_typed (m : MeasureRef) : Prop :=
  known_metric (m_Metric m) /\ Forall filter_typed (m_Filters m).

Inductive then_typed (thn : CaseThen) : Prop :=
| then_dimension :
    ToLower (TrimSpace (ct_Type thn)) ∈ [CaseThenTypeDimension; ""] ->
    ct_Dimension thn <> "" -> known_dimension (ct_Dimension thn) -> then_typed thn
| then_literal :
    ToLower (TrimSpace (ct_Type thn)) = CaseThenTypeLiteral -> ct_Literal thn <> VNil -> then_typed thn.

Definition order_typed (ob : OrderBy) : Prop :=
  (known_dimension (ob_Field ob) \/ known_metric (ob_Field ob)) /\ ob_Direction ob ∈ [""; OrderAsc; OrderDesc].

Record window_typed (w : WindowSpec) : Prop := {
  wt_metric : w_Metric w = "" \/ known_metric (w_Metric w);
  wt_aggregation : agg_of w <> "count_distinct" /\
    (w_Metric w <> "" \/ agg_of w ∈ aggregateWindow \/ agg_of w ∈ analyticWindowFuncs);
  wt_ordered : agg_of w ∈ analyticWindowFuncs -> w_OrderBy w <> [];
  wt_value : agg_of w ∈ ["lag"; "lead"; "first_value"; "last_value"] ->
    ~ blank (w_Expression w) \/ w_Expr w <> NilExpr \/ ~ blank (w_Metric w);
  wt_partition : Forall known_dimension (w_PartitionBy w);
  wt_order : Forall order_typed (w_OrderBy w);
}.

Inductive item_typed (item : SelectItem) : Prop :=
| typed_dimension :
    s_Type item = SelectTypeDimension -> known_dimension (s_Name item) -> item_typed item
| typed_metric :
    s_Type item = SelectTypeMetric -> known_metric (s_Name item) -> Forall filter_typed (s_Filters item) ->
    item_typed item
| typed_window w :
    s_Type item = SelectTypeWindow -> s_Window item = Some w -> window_typed w -> item_typed item
| typed_case branches els :
    s_Type item = SelectTypeCase -> s_Case item = Some (mkCase branches els) -> branches <> [] ->
    ~ (blank (s_Name item) /\ blank (s_Alias item)) ->
    Forall (fun br => br_When br <> [] /\ then_typed (br_Then br)) branches ->
    (forall thn, els = Some thn -> then_typed thn) -> item_typed item
| typed_formula fo :
    s_Type item = SelectTypeFormula -> s_Formula item = Some fo ->
    ~ (blank (s_Name item) /\ blank (s_Alias item)) -> IsValidFormulaOp (fo_Op fo) = true ->
    measure_typed (fo_Left fo) -> measure_typed (fo_Right fo) -> item_typed item.

Definition having_typed (f : Filter) : Prop := known_metric (f_Field f) /\ f_Operator f ∈ havingOps.

Record group_typed (gb : GroupBy) : Prop := {
  gt_field : known_dimension (gb_Field gb);
  gt_grain : gb_TimeGrain gb <> "" -> IsValidTimeGrain (gb_TimeGrain gb) = true /\
    exists dim, last_named dim_Name (model_Dimensions model) (gb_Field gb) = Some dim /\
      ToLower (TrimSpace (dim_Type dim)) ∈ ["date"; "timestamp"; "datetime"];
}.

(** A month or a quarter number says nothing without a year: [f] is one, and the
    model has the dimension of its year, which no filter is on. *)
Record ambiguous (filters : list Filter) (f : Filter) (dim : Dimension) (stem suffix : string) (hi : Z) : Prop := {
  am_dim : last_named dim_Name (model_Dimensions model) (f_Field f) = Some dim;
  am_grain : (grain_of dim, suffix, hi) ∈ [(TimeGrainMonth, "_month", 12); (TimeGrainQuarter, "_quarter", 4)];
  am_op : isScalarCompareOp (f_Operator f) = true;
  am_value : exists n, numericFilterValueInt (f_Value f) = Some n /\ 1 <= n <= hi;
  am_stem : stem <> "" /\ f_Field f = stem +:+ suffix;
  am_year : known_dimension (stem +:+ "_year") /\ stem +:+ "_year" ∉ map f_Field filters;
}.

Definition declared_schema (s : string) : Prop :=
  exists s', s' ∈ model_BaseSchema model ::
                  List.concat (map (fun j => [join_FromSchema j; join_ToSchema j]) (model_Joins model)) /\
    ~ blank s' /\ ToLower (TrimSpace s') = ToLower (TrimSpace s).

Record query_typed (maxRows : Z) (lq : LogicalQuery) : Prop := {
  qt_select : Forall item_typed (Select lq);
  qt_having : Forall having_typed (Having lq);
  qt_filters : Forall filter_typed (Filters lq);
  qt_from : FromSubquery lq = None \/ blank (FromCTE lq);
  qt_ctes : Forall (fun cte => ~ blank (cte_Name cte)) (CTEs lq);
  qt_from_cte : blank (FromCTE lq) \/ FromCTE lq ∈ map cte_Name (CTEs lq);
  qt_default_schema : blank (DefaultSchema lq) \/ declared_schema (DefaultSchema lq);
  qt_schemas : forall t s, TableSchemas lq !! t = Some s -> blank s \/ declared_schema s;
  qt_years : forall f dim stem suffix hi, f ∈ Filters lq -> ~ ambiguous (Filters lq) f dim stem suffix hi;
  qt_group : Forall group_typed (GroupBys lq);
  qt_order : Forall order_typed (OrderBys lq);
  qt_limit : 0 <= Limit lq <= maxRows;
  qt_offset : 0 <= Offset lq;
}.
End Typing.

(** * The error lists *)

Lemma report_nil b e : report b e = [] <-> b = false.
Proof. by destruct b. Qed.
Lemma concat_nil {A B} (f : A -> list B) l : List.concat (map f l) = [] <-> Forall (fun x => f x = []) l.
Proof.
  induction l as [|x l IH]; cbn [map List.concat]; [by split|]. by rewrite app_nil, Forall_cons, IH.
Qed.
Lemma option_list_nil {A} (o : option A) : option_list o = [] <-> o = None.
Proof. by destruct o. Qed.
Lemma first_some_none {A B} (g : A -> option B) l : first_some g l = None <-> Forall (fun x => g x = None) l.
Proof.
  induction l as [|x l IH]; cbn [first_some]; [by split|]. rewrite Forall_cons, <- IH. destruct (g x); naive_solver.
Qed.
Lemma stem_spec s suffix stem : grainStemBeforeSuffix s suffix = Some stem <-> s = stem +:+ suffix.
Proof.
  unfold grainStemBeforeSuffix, HasSuffix, TrimSuffix. rewrite <- cut_suffix_spec.
  destruct (cut_suffix suffix s); [done|]. by split.
Qed.
Lemma find_none {A} (p : A -> bool) l : (forall x, x ∈ l -> p x = false) -> List.find p l = None.
Proof.
  intros Hl. destruct (List.find p l) as [x|] eqn:E; [|done]. apply find_some in E as [Hx Hp].
  apply list_elem_of_In, Hl in Hx. congruence.
Qed.

(** * The registry *)

Lemma fold_insert_some {A} (keys : list string) (a : A) (m : gmap string A) k :
  is_Some (fold_left (fun s key => <[key := a]> s) keys m !! k) <-> is_Some (m !! k) \/ k ∈ keys.
Proof.
  revert m. induction keys as [|key keys IH]; intros m; cbn [fold_left].
  { split; [by left|]. by intros [?|?%elem_of_nil]. }
  rewrite IH, elem_of_cons. destruct (decide (key = k)) as [->|Hk].
  - rewrite lookup_insert_eq. split; [by right; left|]. intros _. left. by eexists.
  - rewrite lookup_insert_ne by done. naive_solver.
Qed.
Lemma register_some r m k :
  (is_Some (byName (register r m) !! k) <-> is_Some (byName r !! k) \/ k = ToLower (met_Name m)) /\
  (is_Some (bySynonym (register r m) !! k) <->
   is_Some (bySynonym r !! k) \/ k ∈ map ToLower (met_Synonyms m ++ option_list (met_Label m))).
Proof.
  assert (forall m0 : gmap string Metric, fold_left (fun s syn => <[ToLower syn := m]> s) (met_Synonyms m) m0 =
    fold_left (fun s key => <[key := m]> s) (map ToLower (met_Synonyms m)) m0) as Hf.
  { induction (met_Synonyms m) as [|s l IH]; intros m0; [done|]. cbn [map fold_left]. apply IH. }
  unfold register. cbn [byName bySynonym]. rewrite Hf. split.
  - pose proof (fold_insert_some [ToLower (met_Name m)] m (byName r) k) as Hi. cbn [fold_left] in Hi. rewrite Hi.
    by rewrite list_elem_of_singleton.
  - rewrite map_app, elem_of_app. pose proof (fold_insert_some (map ToLower (met_Synonyms m)) m (bySynonym r) k) as Hs.
    destruct (met_Label m) as [l|]; cbn [option_list map].
    + pose proof (fold_insert_some [ToLower l] m (fold_left (fun s key => <[key := m]> s)
        (map ToLower (met_Synonyms m)) (bySynonym r)) k) as Hi. cbn [fold_left] in Hi. rewrite Hi, Hs. tauto.
    + rewrite Hs, elem_of_nil. tauto.
Qed.
Lemma registry_some ms r k :
  is_Some (byName (fold_left register ms r) !! k) \/ is_Some (bySynonym (fold_left register ms r) !! k) <->
  (is_Some (byName r !! k) \/ is_Some (bySynonym r !! k)) \/ exists m, m ∈ ms /\ answers_to m k.
Proof.
  revert r. induction ms as [|m ms IH]; intros r; cbn [fold_left].
  { split; [by left|]. intros [?|(? & ?%elem_of_nil & _)]; done. }
  rewrite IH. destruct (register_some r m k) as [-> ->]. unfold answers_to. cbn [map].
  setoid_rewrite elem_of_cons. naive_solver.
Qed.
Lemma Has_spec (model : SemanticModel) n : Has (NewMetricRegistry (model_Metrics model)) n = true <-> known_metric model n.
Proof.
  unfold Has, Lookup, NewMetricRegistry. cbv zeta. set (k := ToLower (TrimSpace n)).
  pose proof (registry_some (model_Metrics model) (mkRegistry ∅ ∅) k) as Hr. cbn [byName bySynonym] in Hr.
  rewrite lookup_empty, !is_Some_alt in Hr. unfold known_metric. fold k.
  destruct (byName _ !! k); [naive_solver|]. destruct (bySynonym _ !! k); naive_solver.
Qed.

(** An item has one type. *)
Ltac wrong_type :=
  exfalso; match goal with H1 : s_Type ?i = _, H2 : s_Type ?i = _ |- _ => rewrite H1 in H2; discriminate H2 end.

(** * Each check decides its part of the judgement *)

Section Checks.
Context `{GoRuntime} (model : SemanticModel).
#[local] Abbreviation lk := (newValidationLookups model).
#[local] Abbreviation known_dim n := (bool_decide (n ∈ lk_dimMap lk)).

Lemma known_dim_spec n : known_dim n = true <-> known_dimension model n.
Proof using. rewrite bool_decide_eq_true. unfold known_dimension. cbn [lk_dimMap newValidationLookups]. set_solver. Qed.
Lemma known_field_spec n : bool_decide (n ∈ allowedFields lk) = true <-> known_field model n.
Proof using.
  rewrite bool_decide_eq_true. unfold known_field, known_dimension. cbn [allowedFields newValidationLookups].
  set_solver.
Qed.
Lemma known_metric_spec n : Has (metricRegistry lk) n = true <-> known_metric model n.
Proof using. apply Has_spec. Qed.

Lemma date_value_spec f grain v : date_value_error f grain v = None <-> date_value_typed f grain v.
Proof using.
  unfold date_value_error. destruct (isNumericFilterValue v) eqn:Hv; cbn [negb].
  2: { split; [|done]. intros _. by split; rewrite Hv. }
  destruct (str_empty grain) eqn:Hg.
  { apply str_empty_spec in Hg as ->. split; [done|]. intros [Hg _]. destruct (Hg Hv). by left. }
  apply str_empty_false in Hg. destruct (String.eqb_spec grain TimeGrainDay) as [->|Hd].
  - transitivity (exists n, numericFilterValueInt v = Some n /\ 1 <= n <= 31).
    + destruct (numericFilterValueInt v) as [n|]; cbn match; [|naive_solver].
      destruct (Z.ltb_spec n 1), (Z.ltb_spec 31 n); cbn [orb]; (split; [intros [=] || intros _|]); try done.
      all: try (by exists n). all: intros (? & [= <-] & ?); lia.
    + split; [|intros [_ Hn]; by apply Hn]. intros Hn. split; [|done]. intros _.
      rewrite !elem_of_cons, elem_of_nil. naive_solver.
  - destruct (String.eqb_spec grain TimeGrainWeek) as [->|Hw].
    + split; [done|]. intros [Hg' _]. destruct (Hg' Hv). right. by left.
    + split; [|done]. intros _. split; [|done]. rewrite !elem_of_cons, elem_of_nil. naive_solver.
Qed.

Lemma dates_spec f :
  validateDateFilterValueType f (model_Dimensions model) = None <->
  (forall dim vals v,
    List.find (fun d => String.eqb (dim_Name d) (f_Field f)) (model_Dimensions model) = Some dim ->
    ToLower (TrimSpace (dim_Type dim)) ∈ ["date"; "timestamp"; "datetime"] ->
    scalarFilterValues f = Some vals -> v ∈ vals -> date_value_typed f (grain_of dim) v).
Proof using.
  unfold validateDateFilterValueType.
  destruct (scalarFilterValues f) as [[|v0 vals]|]; [|destruct (List.find _ _) as [dim|]; [|naive_solver]|naive_solver].
  { split; [|done]. intros _ dim vals v _ _ [= <-] ?%elem_of_nil. done. }
  destruct (is_date_type _) eqn:Hd; unfold is_date_type in Hd; [apply str_in_spec in Hd|apply str_in_false in Hd];
    cbn [negb]; [|naive_solver].
  rewrite first_some_none, (Forall_iff _ _ _ (date_value_spec f (grain_of dim))), Forall_forall. split.
  - intros Hv dim' vals' v [= <-] _ [= <-]. apply Hv.
  - intros Hv v Hin. by eapply Hv.
Qed.

Lemma subquery_spec f sq :
  f_Subquery f = Some sq ->
  validateSubqueryFilter f = [] <->
  f_Operator f ∈ [OpIn; OpNotIn] /\ ~ blank (sf_ResultField sq) /\ b_Select (sf_Body sq) <> [].
Proof using.
  unfold validateSubqueryFilter, blank. intros ->. rewrite !app_nil, !report_nil, str_empty_false, bool_decide_eq_false.
  rewrite andb_false_iff, !negb_false_iff, !String.eqb_eq, !elem_of_cons, elem_of_nil. naive_solver.
Qed.

Lemma filter_spec path f : validate_filter model lk path f = [] <-> filter_typed model f.
Proof using.
  unfold validate_filter. rewrite !app_nil, !report_nil, !negb_false_iff, known_field_spec, str_in_spec.
  rewrite option_list_nil, dates_spec. split.
  - intros (Hf & Ho & Hs & Hd). split; [done|done| |done]. intros sq Hsq. rewrite Hsq in Hs. by apply (subquery_spec f sq).
  - intros [Hf Ho Hs Hd]. split_and!; [done|done| |done]. destruct (f_Subquery f) as [sq|] eqn:E; [|done].
    apply (subquery_spec f sq E). by apply Hs.
Qed.
Lemma filters_spec path l : validateFilterList model lk l path = [] <-> Forall (filter_typed model) l.
Proof using. unfold validateFilterList. rewrite concat_nil. apply Forall_iff, filter_spec. Qed.
Lemma measure_spec path m : validateMeasureRef model lk m path = [] <-> measure_typed model m.
Proof using.
  unfold validateMeasureRef, measure_typed.
  by rewrite app_nil, report_nil, negb_false_iff, known_metric_spec, filters_spec.
Qed.

Lemma names_spec a b : str_empty (TrimSpace a) && str_empty (TrimSpace b) = false <-> ~ (blank a /\ blank b).
Proof using. unfold blank. rewrite <- not_true_iff_false, andb_true_iff, !str_empty_spec. done. Qed.

Lemma then_spec thn : validateCaseThen lk thn = [] <-> then_typed model thn.
Proof using.
  unfold validateCaseThen. cbv zeta. destruct (str_in _ [_; _]) eqn:Ht; [apply str_in_spec in Ht|apply str_in_false in Ht].
  - rewrite report_nil, orb_false_iff, str_empty_false, negb_false_iff, known_dim_spec. split.
    + intros [? ?]. by constructor.
    + intros [_ ? ?|Hl _]; [done|]. rewrite Hl in Ht. by apply str_in_spec in Ht.
  - destruct (String.eqb_spec (ToLower (TrimSpace (ct_Type thn))) CaseThenTypeLiteral) as [Hl|Hl].
    + rewrite report_nil. split.
      * intros Hv. apply then_literal; [done|]. by intros Hn; rewrite Hn in Hv.
      * intros [? _ _|_ Hn]; [done|]. by destruct (ct_Literal thn).
    + split; [done|]. by intros [? _ _|? _].
Qed.

Lemma branches_spec i brs :
  validate_branches lk i brs = [] <-> Forall (fun br => br_When br <> [] /\ then_typed model (br_Then br)) brs.
Proof using.
  revert i. induction brs as [|br brs IH]; intros i; cbn [validate_branches]; [by split|].
  rewrite !app_nil, report_nil, bool_decide_eq_false, then_spec, IH, Forall_cons. tauto.
Qed.

Lemma order_spec path ob : validate_order lk path ob = [] <-> order_typed model ob.
Proof using.
  unfold validate_order, order_typed. rewrite app_nil, !report_nil, !andb_false_iff, !negb_false_iff.
  rewrite known_dim_spec, known_metric_spec, str_empty_spec, !String.eqb_eq, !elem_of_cons, elem_of_nil. tauto.
Qed.
Lemma orders_spec path l : validateOrderByClauses lk l path = [] <-> Forall (order_typed model) l.
Proof using. unfold validateOrderByClauses. rewrite concat_nil. apply Forall_iff, order_spec. Qed.

Lemma window_aggregation_spec w agg :
  validate_window_aggregation w agg = [] <->
  agg <> "count_distinct" /\ (w_Metric w <> "" \/ agg ∈ aggregateWindow \/ agg ∈ analyticWindowFuncs).
Proof using.
  unfold validate_window_aggregation. destruct (String.eqb_spec agg "count_distinct") as [Hc|Hc]; [naive_solver|].
  rewrite report_nil, !andb_false_iff, !negb_false_iff, !str_in_spec, str_empty_false. tauto.
Qed.
Lemma window_spec item w : s_Window item = Some w -> validateWindowSelect lk item = [] <-> window_typed model w.
Proof using.
  intros Hw. unfold validateWindowSelect. rewrite Hw. cbv zeta. fold (agg_of w).
  rewrite !app_nil, !report_nil, !andb_false_iff, !negb_false_iff, str_empty_spec, known_metric_spec, !bool_decide_eq_false.
  rewrite concat_nil, orders_spec.
  assert (Forall (fun p => validate_partition lk p = []) (w_PartitionBy w) <->
          Forall (known_dimension model) (w_PartitionBy w)) as ->.
  { apply Forall_iff. intros p. unfold validate_partition. by rewrite report_nil, negb_false_iff, known_dim_spec. }
  assert (requiresWindowOrderBy (agg_of w) = false <-> agg_of w ∉ analyticWindowFuncs) as -> by apply str_in_false.
  assert (windowReadsValue (agg_of w) = false <-> agg_of w ∉ ["lag"; "lead"; "first_value"; "last_value"]) as ->
    by apply str_in_false.
  assert ((match w_Expr w with NilExpr => true | _ => false end) = false <-> w_Expr w <> NilExpr) as ->
    by (destruct (w_Expr w); naive_solver).
  rewrite !str_empty_false.
  rewrite window_aggregation_spec.
  destruct (decide (agg_of w ∈ analyticWindowFuncs)), (decide (agg_of w ∈ ["lag"; "lead"; "first_value"; "last_value"])).
  all: unfold blank; split; [intros (? & ? & Ho & Hv & ? & ?); split; tauto|intros [? ? Ho Hv ? ?]; tauto].
Qed.

Lemma item_spec item : validate_item model lk item = [] <-> item_typed model item.
Proof using.
  unfold validate_item.
  destruct (String.eqb_spec (s_Type item) SelectTypeDimension) as [Ht|Hd].
  { rewrite report_nil, negb_false_iff, known_dim_spec. split; [by constructor|].
    intros [? ?|? ? ?|? ? ?|? ? ?|? ?]; [done|wrong_type..]. }
  destruct (String.eqb_spec (s_Type item) SelectTypeMetric) as [Ht|Hm].
  { rewrite app_nil, report_nil, negb_false_iff, known_metric_spec, filters_spec.
    split; [intros [? ?]; by apply typed_metric|].
    intros [? ?|? ? ?|? ? ?|? ? ?|? ?]; [wrong_type|done|wrong_type..]. }
  destruct (String.eqb_spec (s_Type item) SelectTypeWindow) as [Ht|Hw].
  { split.
    - intros Hn. destruct (s_Window item) as [w|] eqn:E; [|unfold validateWindowSelect in Hn; by rewrite E in Hn].
      apply (typed_window _ _ w); [done|done|]. by apply (window_spec item w E).
    - intros [? ?|? ? ?|w ? E Hty|? ? ?|? ?]; [wrong_type|wrong_type| |wrong_type|wrong_type]. by apply (window_spec item w E). }
  destruct (String.eqb_spec (s_Type item) SelectTypeCase) as [Ht|Hc].
  { unfold validateCaseSelect. split.
    - destruct (s_Case item) as [[[|br brs] els]|] eqn:E; [done| |done].
      rewrite !app_nil, report_nil, names_spec, branches_spec. intros (Hn & Hb & He).
      apply (typed_case _ _ (br :: brs) els); try done. intros thn ->. by apply then_spec.
    - intros [? ?|? ? ?|? ? ?|brs els ? -> Hne Hn Hb He|? ?]; [wrong_type|wrong_type|wrong_type| |wrong_type].
      destruct brs as [|br brs]; [done|]. rewrite !app_nil, report_nil, names_spec, branches_spec. split_and!; try done.
      destruct els as [thn|]; [|done]. apply then_spec. by apply He. }
  destruct (String.eqb_spec (s_Type item) SelectTypeFormula) as [Ht|Hf].
  - unfold validateFormulaSelect. split.
    + destruct (s_Formula item) as [fo|] eqn:E; [|done].
      rewrite !app_nil, !report_nil, names_spec, negb_false_iff, !measure_spec. intros (? & ? & ? & ?).
      by apply (typed_formula _ _ fo).
    + intros [? ?|? ? ?|? ? ?|? ? ?|fo ? -> ? ? ? ?]; [wrong_type..|].
      by rewrite !app_nil, !report_nil, names_spec, negb_false_iff, !measure_spec.
  - split; [done|]. by intros [? ?|? ? ?|? ? ?|? ? ?|? ?].
Qed.

Lemma having_spec f : validate_having lk f = [] <-> having_typed model f.
Proof using.
  unfold validate_having, having_typed.
  by rewrite app_nil, !report_nil, !negb_false_iff, known_metric_spec, str_in_spec.
Qed.

Lemma dim_types_lookup l n :
  fold_left (fun types d => <[dim_Name d := ToLower (TrimSpace (dim_Type d))]> types) l (∅ : gmap string string) !! n =
  (fun d => ToLower (TrimSpace (dim_Type d))) <$> last_named dim_Name l n.
Proof using.
  unfold last_named. induction l as [|d l IH] using rev_ind; [done|].
  rewrite !fold_left_app. cbn [fold_left]. destruct (String.eqb_spec (dim_Name d) n) as [<-|Hn].
  - by rewrite lookup_insert_eq.
  - by rewrite lookup_insert_ne.
Qed.
Lemma last_named_some n : known_dimension model n <-> is_Some (last_named dim_Name (model_Dimensions model) n).
Proof using.
  unfold known_dimension, last_named. induction (model_Dimensions model) as [|d l IH] using rev_ind.
  { split; [by intros ?%elem_of_nil|]. by intros [? ?]. }
  rewrite map_app, elem_of_app, fold_left_app, IH. cbn [map fold_left]. rewrite list_elem_of_singleton.
  destruct (String.eqb_spec (dim_Name d) n) as [<-|Hn]; [by split; [|right]|]. naive_solver.
Qed.

Lemma group_spec gb : validate_group lk gb = [] <-> group_typed model gb.
Proof using.
  unfold validate_group. destruct (known_dim (gb_Field gb)) eqn:Hk; cbn [negb].
  2: { split; [done|]. intros [Hf _]. apply known_dim_spec in Hf. congruence. }
  apply known_dim_spec in Hk. destruct (str_empty (gb_TimeGrain gb)) eqn:Hg.
  { apply str_empty_spec in Hg. split; [|done]. by intros _. }
  apply str_empty_false in Hg. destruct (IsValidTimeGrain (gb_TimeGrain gb)) eqn:Hv; cbn [negb].
  2: { split; [done|]. intros [_ Ht]. destruct (Ht Hg). congruence. }
  rewrite report_nil, negb_false_iff. cbn [lk_dimTypes newValidationLookups]. rewrite dim_types_lookup.
  unfold is_date_type. rewrite str_in_spec. apply last_named_some in Hk as Hd. destruct Hd as [d Hd]. rewrite Hd.
  cbn [fmap option_fmap option_map default]. split.
  - intros Hty. split; [done|]. intros _. split; [done|]. by exists d.
  - intros [_ Ht]. destruct (Ht Hg) as (_ & d' & Hd' & ?). rewrite Hd in Hd'. by injection Hd' as <-.
Qed.

Lemma numeric_not_anchor v n : numericFilterValueInt v = Some n -> calendarAnchorTime v = None.
Proof using. by destruct v. Qed.

Lemma bare_integer g v :
  bareIntegerMonthOrQuarter g v = true <->
  exists hi, (g, hi) ∈ [(TimeGrainMonth, 12); (TimeGrainQuarter, 4)] /\
    exists n, numericFilterValueInt v = Some n /\ 1 <= n <= hi.
Proof using.
  unfold bareIntegerMonthOrQuarter. setoid_rewrite elem_of_cons. setoid_rewrite list_elem_of_singleton.
  destruct (numericFilterValueInt v) as [n|]; [|naive_solver].
  destruct (String.eqb_spec g TimeGrainMonth) as [->|Hm].
  { rewrite andb_true_iff, !Z.leb_le. naive_solver. }
  destruct (String.eqb_spec g TimeGrainQuarter) as [->|Hq]; [|naive_solver].
  rewrite andb_true_iff, !Z.leb_le. naive_solver.
Qed.

Lemma touches_spec filters n : filterTouchesField filters n = true <-> n ∈ map f_Field filters.
Proof using.
  unfold filterTouchesField. rewrite existsb_In, list_elem_of_fmap. split; intros (f & ? & ?); exists f.
  - split; [|done]. symmetry. by apply String.eqb_eq.
  - split; [done|]. by apply String.eqb_eq.
Qed.

Definition suffix_of (g : string) : string := if String.eqb g TimeGrainMonth then "_month" else "_quarter".

Lemma ambiguous_iff lq f dim :
  last_named dim_Name (model_Dimensions model) (f_Field f) = Some dim ->
  (exists stem suffix hi, ambiguous model (Filters lq) f dim stem suffix hi) <->
  isScalarCompareOp (f_Operator f) = true /\ bareIntegerMonthOrQuarter (grain_of dim) (f_Value f) = true /\
  exists stem, stem <> "" /\ f_Field f = stem +:+ suffix_of (grain_of dim) /\
    known_dimension model (stem +:+ "_year") /\ filterTouchesField (Filters lq) (stem +:+ "_year") = false.
Proof using.
  intros Hd. rewrite bare_integer. setoid_rewrite <- not_true_iff_false. setoid_rewrite touches_spec. split.
  - intros (stem & suffix & hi & [_ Hg Ho Hv [Hs Hf] [Hy Ht]]).
    rewrite !elem_of_cons, elem_of_nil in Hg. split_and!; [done|exists hi; split; [|done]|].
    + rewrite !elem_of_cons. destruct Hg as [Hg|[Hg|[]]]; injection Hg as -> _ ->; [by left|by right; left].
    + exists stem. split_and!; try done. unfold suffix_of.
      destruct Hg as [Hg|[Hg|[]]]; injection Hg as Hg -> _; by rewrite Hg.
  - intros (Ho & (hi & Hg & Hv) & stem & Hs & Hf & Hy & Ht). exists stem, (suffix_of (grain_of dim)), hi.
    split; [done| |done|done|done|done]. rewrite !elem_of_cons, elem_of_nil in Hg. rewrite !elem_of_cons. unfold suffix_of.
    destruct Hg as [Hg|[Hg|[]]]; injection Hg as Hg ->; rewrite Hg; [by left|by right; left].
Qed.

Lemma bare_integer_grain g v : bareIntegerMonthOrQuarter g v = true -> g = TimeGrainMonth \/ g = TimeGrainQuarter.
Proof using. rewrite bare_integer. setoid_rewrite elem_of_cons. setoid_rewrite list_elem_of_singleton. naive_solver. Qed.

Lemma year_spec lq f :
  year_coverage_error lq model f = None <->
  (forall dim stem suffix hi, ~ ambiguous model (Filters lq) f dim stem suffix hi).
Proof using.
  transitivity (forall dim, last_named dim_Name (model_Dimensions model) (f_Field f) = Some dim ->
    ~ (isScalarCompareOp (f_Operator f) = true /\ bareIntegerMonthOrQuarter (grain_of dim) (f_Value f) = true /\
       exists stem, stem <> "" /\ f_Field f = stem +:+ suffix_of (grain_of dim) /\
         known_dimension model (stem +:+ "_year") /\ filterTouchesField (Filters lq) (stem +:+ "_year") = false)).
  2: { split.
    - intros Hn dim stem suffix hi Ha. destruct Ha as [Hd ? ? ? ? ?] eqn:E. apply (Hn dim Hd).
      apply (ambiguous_iff lq f dim Hd). by exists stem, suffix, hi.
    - intros Hn dim Hd (stem & suffix & hi & Ha)%(ambiguous_iff lq f dim Hd). by apply (Hn dim stem suffix hi). }
  unfold year_coverage_error, dim_named. destruct (last_named _ _ (f_Field f)) as [dim|]; [|naive_solver].
  transitivity (~ (isScalarCompareOp (f_Operator f) = true /\
       bareIntegerMonthOrQuarter (grain_of dim) (f_Value f) = true /\
       exists stem, stem <> "" /\ f_Field f = stem +:+ suffix_of (grain_of dim) /\
         known_dimension model (stem +:+ "_year") /\ filterTouchesField (Filters lq) (stem +:+ "_year") = false));
    [|naive_solver].
  destruct (isScalarCompareOp (f_Operator f)); cbn [negb]; [|naive_solver]. cbv zeta.
  destruct (bareIntegerMonthOrQuarter (grain_of dim) (f_Value f)) eqn:Hb; cbn [negb].
  2: { split; [naive_solver|]. intros _. destruct (_ && _); [done|]. by destruct (calendarAnchorTime _). }
  assert (calendarAnchorTime (f_Value f) = None) as ->.
  { unfold bareIntegerMonthOrQuarter in Hb. destruct (numericFilterValueInt (f_Value f)) eqn:E; [|done].
    by apply numeric_not_anchor in E. }
  assert (negb (String.eqb (grain_of dim) TimeGrainMonth) && negb (String.eqb (grain_of dim) TimeGrainQuarter) = false) as ->.
  { apply bare_integer_grain in Hb as [->| ->]; reflexivity. }
  fold (suffix_of (grain_of dim)). pose proof (stem_spec (f_Field f) (suffix_of (grain_of dim))) as Hst.
  destruct (grainStemBeforeSuffix _ _) as [stem|]; [|split; [|done]; intros _ (_ & _ & stem & _ & Hf & _); by apply Hst in Hf].
  assert (forall stem', f_Field f = stem' +:+ suffix_of (grain_of dim) <-> stem = stem') as Hs.
  { intros stem'. rewrite <- Hst. naive_solver. }
  setoid_rewrite Hs. destruct (str_empty stem) eqn:He.
  { apply str_empty_spec in He. naive_solver. }
  apply str_empty_false in He. setoid_rewrite last_named_some.
  destruct (last_named _ _ (stem +:+ "_year")) as [d|] eqn:Hy.
  2: { split; [|done]. intros _ (_ & _ & stem' & _ & <- & [? Hx] & _). congruence. }
  destruct (filterTouchesField (Filters lq) (stem +:+ "_year")) eqn:Ht.
  - split; [|done]. intros _ (_ & _ & stem' & _ & <- & _ & Hx). congruence.
  - split; [done|]. intros Hn. destruct Hn. split_and!; [done|done|]. exists stem. by split_and!.
Qed.

Lemma from_spec lq :
  validateFromAndCTEs lq = [] <->
  (FromSubquery lq = None \/ blank (FromCTE lq)) /\ Forall (fun cte => ~ blank (cte_Name cte)) (CTEs lq) /\
  (blank (FromCTE lq) \/ FromCTE lq ∈ map cte_Name (CTEs lq)).
Proof using.
  unfold validateFromAndCTEs, blank. cbv zeta.
  rewrite !app_nil, !report_nil, !andb_false_iff, !negb_false_iff, bool_decide_eq_false, str_empty_spec, concat_nil.
  rewrite existsb_In, list_elem_of_fmap.
  assert (Forall (fun cte => report (str_empty (TrimSpace (cte_Name cte)))
     (mkValidationError "ctes" "MISSING_CTE_NAME" "cte name is required" "" []) = []) (CTEs lq) <->
    Forall (fun cte => TrimSpace (cte_Name cte) <> "") (CTEs lq)) as ->.
  { apply Forall_iff. intros cte. by rewrite report_nil, str_empty_false. }
  assert (~ FromSubquery lq <> None <-> FromSubquery lq = None) as -> by (destruct (FromSubquery lq); naive_solver).
  assert ((exists x, x ∈ CTEs lq /\ String.eqb (cte_Name x) (FromCTE lq) = true) <->
          (exists y, FromCTE lq = cte_Name y /\ y ∈ CTEs lq)) as ->; [|done].
  split; intros (c & Hc & Hn); exists c.
  - split; [symmetry; by apply String.eqb_eq|done].
  - split; [done|by apply String.eqb_eq].
Qed.

Lemma add_schema_spec allowed s k :
  k ∈ add_schema allowed s <-> k ∈ allowed \/ (~ blank s /\ ToLower (TrimSpace s) = k).
Proof using.
  unfold add_schema, blank. cbv zeta. destruct (str_empty (TrimSpace s)) eqn:E.
  - apply str_empty_spec in E. naive_solver.
  - apply str_empty_false in E. set_solver.
Qed.
Lemma allowed_spec s : ToLower (TrimSpace s) ∈ allowed_schemas model <-> declared_schema model s.
Proof using.
  unfold allowed_schemas, declared_schema. generalize (ToLower (TrimSpace s)). intros k. clear s.
  assert (forall l (a : gset string), k ∈ fold_left (fun allowed j =>
      add_schema (add_schema allowed (join_FromSchema j)) (join_ToSchema j)) l a <->
    k ∈ a \/ exists s', s' ∈ List.concat (map (fun j => [join_FromSchema j; join_ToSchema j]) l) /\
      ~ blank s' /\ ToLower (TrimSpace s') = k) as Hf.
  { induction l as [|j l IH]; intros a; cbn [fold_left map List.concat app].
    - split; [by left|]. by intros [?|(? & ?%elem_of_nil & _)].
    - rewrite IH, !add_schema_spec. setoid_rewrite elem_of_cons. setoid_rewrite elem_of_cons. naive_solver. }
  rewrite Hf, add_schema_spec. setoid_rewrite elem_of_cons. split.
  - intros [[?|?]|?]; [set_solver|naive_solver|naive_solver].
  - intros (s' & [->|Hin] & Hb & Hk); [left; by right|right]. by exists s'.
Qed.

Lemma check_schema_spec path s :
  check_schema (allowed_schemas model) path s = [] <-> blank s \/ declared_schema model s.
Proof using.
  unfold check_schema, blank. cbv zeta.
  by rewrite report_nil, andb_false_iff, !negb_false_iff, str_empty_spec, bool_decide_eq_true, allowed_spec.
Qed.

Lemma schemas_spec `{MapOrder} lq :
  validateSchemaOverrides lq model = [] <->
  (blank (DefaultSchema lq) \/ declared_schema model (DefaultSchema lq)) /\
  (forall t s, TableSchemas lq !! t = Some s -> blank s \/ declared_schema model s).
Proof using.
  unfold validateSchemaOverrides.
  destruct (str_empty _ && bool_decide _) eqn:Hb.
  { apply andb_true_iff in Hb as [Hd%str_empty_spec Ht%bool_decide_eq_true]. split; [|done]. intros _.
    split; [by left|]. rewrite Ht. intros t s Hs. by apply lookup_empty_Some in Hs. }
  cbv zeta. rewrite app_nil, check_schema_spec, concat_nil, range_perm, Forall_forall.
  setoid_rewrite check_schema_spec. split; intros [Hd Hs]; (split; [done|]).
  - intros t s Ht. apply (Hs (t, s)). by apply elem_of_map_to_list.
  - intros [t s] Hts. apply (Hs t). by apply elem_of_map_to_list.
Qed.

Lemma limit_spec maxRows lq errs lq' :
  validateLimitOffset maxRows lq = (errs, lq') ->
  (errs = [] <-> 0 <= Limit lq <= maxRows /\ 0 <= Offset lq) /\
  (errs = [] -> lq' = set_Limit (if Limit lq =? 0 then maxRows else Limit lq) lq).
Proof using.
  unfold validateLimitOffset. cbv zeta. intros Hv. apply pair_equal_spec in Hv as [<- <-].
  assert (report (Limit lq <? 0) (mkValidationError "limit" "NEGATIVE_LIMIT" "limit must be non-negative" "" []) ++
    report (maxRows <? Limit lq) (mkValidationError "limit" CodeRowLimitExceeded
      ("limit exceeds maximum allowed rows (" +:+ Itoa maxRows +:+ ")") (Itoa (Limit lq)) []) ++
    report (Offset lq <? 0) (mkValidationError "offset" CodeNegativeOffset "offset must be non-negative" "" []) = []
    <-> 0 <= Limit lq <= maxRows /\ 0 <= Offset lq) as Hn.
  { rewrite !app_nil, !report_nil, !Z.ltb_ge. lia. }
  split; [exact Hn|]. intros He. rewrite bool_decide_eq_true_2 by exact He. apply Hn in He as [Hl _]. cbn [andb].
  destruct (Z.eqb_spec (Limit lq) 0) as [H0|H0]; cbn [andb].
  - destruct (Z.ltb_spec 0 maxRows); [done|]. destruct lq as []; cbn in *. unfold set_Limit; cbn. f_equal; lia.
  - by destruct lq.
Qed.
End Checks.

Lemma Validate_spec `{GoRuntime} `{MapOrder} maxRows lq model r lq' :
  Validate maxRows lq model = (r, lq') ->
  (r = Ok tt <-> query_typed model maxRows lq) /\
  (r = Ok tt -> lq' = set_Limit (if Limit lq =? 0 then maxRows else Limit lq) lq) /\
  (r <> Ok tt -> exists e errs, r = Err (EValidation (e :: errs))).
Proof.
  unfold Validate. destruct (validateLimitOffset maxRows lq) as [lim lq1] eqn:El. apply limit_spec in El as [Hl Hlq].
  match goal with |- context [match ?l with [] => Ok tt | _ => _ end] => set (errs := l) end. intros Hv. apply pair_equal_spec in Hv as [<- <-].
  assert (errs = [] <-> query_typed model maxRows lq) as Ht.
  { subst errs. unfold validateSelectItems, validateHavingClause, validateFilterClauses, validateGroupByClauses.
    rewrite !app_nil, !concat_nil, filters_spec, from_spec, schemas_spec, option_list_nil, orders_spec, Hl.
    rewrite (Forall_iff _ _ _ (item_spec model)), (Forall_iff _ _ _ (having_spec model)),
      (Forall_iff _ _ _ (group_spec model)).
    unfold validateCalendarGrainYearCoverage.
    rewrite first_some_none, (Forall_iff _ _ _ (year_spec model lq)).
    split.
    - intros (? & ? & ? & (? & ? & ?) & (? & ?) & Hy & ? & ? & (? & ?)). constructor; try done.
      rewrite Forall_forall in Hy. intros f dim stem suffix hi Hf. by apply Hy.
    - intros [? ? ? ? ? ? ? ? Hy ? ? ? ?]. split_and!; try done; try lia.
      rewrite Forall_forall. intros f Hf dim stem suffix hi. by apply Hy. }
  split_and!.
  - rewrite <- Ht. by destruct errs.
  - intros Hr. apply Hlq. destruct errs eqn:E; [|done]. apply Hl. by destruct (proj1 Ht eq_refl).
  - intros Hr. destruct errs as [|e rest]; [done|]. by exists e, rest.
Qed.
Lemma Validate_ok `{GoRuntime} `{MapOrder} maxRows lq model lq' :
  Validate maxRows lq model = (Ok tt, lq') ->
  query_typed model maxRows lq /\ lq' = set_Limit (if Limit lq =? 0 then maxRows else Limit lq) lq.
Proof. intros (Ht & Hl & _)%Validate_spec. split; [by apply Ht|by apply Hl]. Qed.

(** C18: the validator decides a typing judgement.  Whatever the order in which Go
    ranges over the schema overrides, a query is accepted exactly when it is well
    typed for the model - every item, filter, grouping and ordering names fields
    of the model of the right kind with operators of its clause, numbers filter
    dates only through a grain that takes them, no month or quarter number lacks
    its year, FROM names one source, a CTE defined, schemas are declared by the
    model, and the limit is between 0 and the ceiling; an accepted query leaves
    the validator with its limit, or the ceiling for one omitted, and is
    otherwise as it came; a rejected one comes with at least one error. *)
Theorem Validate_types `{GoRuntime} `{MapOrder} (maxRows : Z) (lq : LogicalQuery) (model : SemanticModel) :
  let (r, lq') := Validate maxRows lq model in
  (r = Ok tt <-> query_typed model maxRows lq) /\
  (r = Ok tt -> lq' = set_Limit (if Limit lq =? 0 then maxRows else Limit lq) lq) /\
  (r <> Ok tt -> exists e errs, r = Err (EValidation (e :: errs))).
Proof. destruct (Validate maxRows lq model) as [r lq'] eqn:E. by apply Validate_spec. Qed.
