(* ===== verification/Compiler.v ===== *)
(** The compiler from logical queries to SQL: HAVING, GROUP BY, ORDER BY, the
    row-level predicates, the assembly of a statement, WITH and FROM, and the
    entry points [Compile] and [CompileWithPermissions]
    ([internal/query/compiler.go], [compiler_nested.go]).

    [compileStatement] works on a copy of the compiler ([withCompileCtx]): an
    error a method left in the copy's [err] is dropped with the copy, while the
    bind arguments and the masking record are shared.  [fuel] bounds the nesting
    of subqueries.  Spans, timings and the fingerprint attribute are not
    represented; a context counts only for being nil or not. *)

From S2P Require Import Prelude GoStrings Values Dialect Semantic ReadOnly LogicalQuery PhysicalRef Suggest.
From S2P Require Import Pii RowFilter CompileMonad ExprCompile Calendar Joins Measures FilterSQL SelectSQL.
From stdpp Require Import options.
#[local] Open Scope Z_scope.

(** * pkg/query/types.go *)

Record AppliedRowFilter : Type := mkApplied {
  arf_Field : string;
  arf_Operator : string;
  arf_Value : gval;
}.

Record PolicyDecisions : Type := mkDecisions {
  pd_RowFilters : list AppliedRowFilter;
  MaskedColumns : list string;
  HiddenColumns : list string;
}.

Record CompiledQuery : Type := mkCompiled {
  SQL : string;
  Args : list gval;
  Policy : option PolicyDecisions;
}.

(** * The clauses of one statement *)

Definition orderByDirection (direction : string) : string :=
  let dir := ToUpper direction in
  if str_empty dir then "ASC" else dir.
Definition orderByDimensionSQL (dimSQL direction : string) : string :=
  dimSQL +:+ " " +:+ orderByDirection direction.
Definition orderByMetricSQL (metricName direction : string) (d : Dialect) : string :=
  QuoteIdent d metricName +:+ " " +:+ orderByDirection direction.

(** The column a row filter's field stands for. *)
Definition row_filter_fields (model : SemanticModel) : gmap string string :=
  fold_left (fun m me => <[met_Name me := met_Expression me]> m) (model_Metrics model)
    (fold_left (fun m dim => <[dim_Name dim := dim_ColumnRef dim]> m) (model_Dimensions model) ∅).

Section Clauses.
Context `{GoRuntime} `{MapOrder} (c : Comp).
Context (model : SemanticModel) (dimMap : gmap string Dimension) (metricMap : gmap string Metric).
Context (resolver : SchemaResolver).
#[local] Abbreviation d := (dialect c).

(** One turn of the loop of [buildHaving] on an aggregate: the text, and the
    values appended to [args]; [argCount] counts the placeholders emitted. *)
Definition having_part (f : Filter) (aggSQL : string) (argCount : Z) : res (string * list gval) :=
  let op := f_Operator f in
  if str_in op [OpEq; OpNeq; OpGt; OpGte; OpLt; OpLte] then
    let? op := res_map_err (EWrap ("having field " +:+ Quote (f_Field f))) (sqlComparator op) in
    Ok (aggSQL +:+ " " +:+ op +:+ " " +:+ Placeholder d (argCount + 1), [f_Value f])
  else if String.eqb op OpBetween then
    match f_Value f with
    | VList [lo; hi] =>
        Ok (aggSQL +:+ " BETWEEN " +:+ Placeholder d (argCount + 1)
              +:+ " AND " +:+ Placeholder d (argCount + 1 + 1), [lo; hi])
    | _ => Err (EMsg ("having between expects 2 values for metric " +:+ Quote (f_Field f)))
    end
  else if String.eqb op OpIsNull then Ok (aggSQL +:+ " IS NULL", [])
  else if String.eqb op OpIsNotNull then Ok (aggSQL +:+ " IS NOT NULL", [])
  else Err (EMsg ("operator " +:+ Quote op +:+ " not supported in HAVING for metric " +:+ Quote (f_Field f))).

Definition having_lhs (f : Filter) (metric : Metric) : M string :=
  if derivedSource c then ret (derivedFieldSQL c (f_Field f))
  else metricAggregate' c model dimMap metricMap resolver metric.

Fixpoint having_loop (filters : list Filter) (argCount : Z) : M (list string * list gval) :=
  match filters with
  | [] => ret ([], [])
  | f :: filters =>
      match metricMap !! f_Field f with
      | None => throw (EMsg ("unknown having field (must be a metric): " +:+ f_Field f))
      | Some metric =>
          do aggSQL <- having_lhs f metric;
          do (part, vals) <- lift (having_part f aggSQL argCount);
          do (parts, args) <- having_loop filters (argCount + Z.of_nat (length vals));
          ret (part :: parts, vals ++ args)
      end
  end.

Definition buildHaving (filters : list Filter) (startArg : Z) : M (string * list gval) :=
  match filters with
  | [] => ret ("", [])
  | _ => do (parts, args) <- having_loop filters startArg; ret (Join parts " AND ", args)
  end.

Definition group_by_part (gb : GroupBy) : M string :=
  match dimMap !! gb_Field gb with
  | None => throw (validationErrWithCode "group_by" (UnknownDimensionMsg (gb_Field gb)) CodeUnknownDimension
                     (gb_Field gb) (suggestAlternatives (gb_Field gb) (keys dimMap)))
  | Some dim =>
      if dimensionFullyHidden c resolver dim then
        throw (validationErrWithCode "group_by" (HiddenPIIFieldMsg (gb_Field gb)) CodeHiddenPIIField (gb_Field gb) [])
      else if derivedSource c then ret (derivedFieldSQL c (gb_Field gb))
      else dimensionOutputSQL c resolver dim
  end.

Definition buildGroupBy (groupBy : list GroupBy) : M string :=
  match groupBy with
  | [] => ret ""
  | _ => do parts <- mapM group_by_part groupBy; ret (Join parts ", ")
  end.

Definition buildOrderByDimension (dim : Dimension) (ob : OrderBy) : M string :=
  if dimensionFullyHidden c resolver dim then
    throw (validationErrWithCode "order_by" (HiddenPIIFieldMsg (ob_Field ob)) CodeHiddenPIIField (ob_Field ob) [])
  else
    do dimSQL <- dimensionOutputSQL c resolver dim;
    ret (orderByDimensionSQL dimSQL (ob_Direction ob)).

Definition buildOrderByField (ob : OrderBy) : M string :=
  match dimMap !! ob_Field ob with
  | Some dim => buildOrderByDimension dim ob
  | None =>
      match metricMap !! ob_Field ob with
      | Some metric => ret (orderByMetricSQL (met_Name metric) (ob_Direction ob) d)
      | None => throw (validationErrWithCode "order_by" (UnknownFieldMsg (ob_Field ob)) CodeUnknownField (ob_Field ob)
                         (suggestAlternatives (ob_Field ob) (keys dimMap ++ keys metricMap)))
      end
  end.

Definition buildOrderBy (orderBy : list OrderBy) : M string :=
  match orderBy with
  | [] => ret ""
  | _ => do parts <- mapM buildOrderByField orderBy; ret (Join parts ", ")
  end.

Definition buildRowFilterPreds (filters : list RowFilter) : M (list string) :=
  match filters with
  | [] => ret []
  | _ =>
      do n <- len_args;
      do (preds, extraArgs) <- lift (BuildRowFilterPredicates d n (row_filter_fields model) filters true);
      do _ <- append_args extraArgs;
      ret preds
  end.
End Clauses.

(** * The statement *)

(** The chunks of a statement, in the order they are appended. *)
Definition where_chunks (whereClause : string) (rowFilterPreds : list string) : list string :=
  let preds := match rowFilterPreds with [] => [] | _ => [Join rowFilterPreds " AND "] end in
  if negb (str_empty whereClause) || negb (bool_decide (rowFilterPreds = [])) then
    " WHERE " ::
    (if str_empty whereClause then []
     else whereClause :: match rowFilterPreds with [] => [] | _ => [" AND "] end) ++ preds
  else [].

Definition titled (title clause : string) : list string := if str_empty clause then [] else [title; clause].

Definition order_chunks (d : Dialect) (orderByClause limitClause : string) : list string :=
  if negb (str_empty orderByClause) then [" ORDER BY "; orderByClause]
  else if negb (str_empty (DefaultOrderBy d)) && negb (str_empty limitClause) then
    [" ORDER BY "; DefaultOrderBy d]
  else [].

Definition statement_chunks (d : Dialect) (withPrefix : string) (selectParts : list string) (fromClause : string)
    (joinClauses : list string) (whereClause : string) (rowFilterPreds : list string)
    (groupByClause havingClause orderByClause limitClause : string) : list string :=
  [withPrefix; "SELECT "; Join selectParts ", "; " FROM "; fromClause]
  ++ List.concat (map (fun jc => [" "; jc]) joinClauses)
  ++ where_chunks whereClause rowFilterPreds
  ++ titled " GROUP BY " groupByClause
  ++ titled " HAVING " havingClause
  ++ order_chunks d orderByClause limitClause
  ++ titled " " limitClause.

(** The work of [compileStatement] once the copy of the compiler is made:
    [subquery] compiles a nested SELECT. *)
Definition statement `{GoRuntime} `{MapOrder} (c : Comp) (model : SemanticModel)
    (subquery : SubqueryBody -> M string) (lq : LogicalQuery) (fromClause withPrefix : string)
    (rowFilters : list RowFilter) : M CompiledQuery :=
  let d := dialect c in
  let lq := EnsureGroupBySelected lq in
  let dimMap := build_dimMap lq model in
  let metricMap := build_metricMap model in
  let joinMap := build_joinMap model in
  let resolver := NewSchemaResolver model lq in
  do (neededJoins, unreachableTables) <- lift (determineJoins model resolver lq dimMap metricMap);
  do _ <- lift (validateReachableTables unreachableTables lq);
  do selectParts <- wrapping "build select"
    (buildSelect c model dimMap metricMap resolver subquery (Select lq));
  let joinClauses := buildJoins model resolver d neededJoins joinMap in
  do whereClause <- wrapping "build where"
    (buildWhere c model dimMap metricMap resolver subquery (Filters lq));
  do groupByClause <- wrapping "build group by" (buildGroupBy c dimMap resolver (GroupBys lq));
  do n <- len_args;
  do (havingClause, havingArgs) <- wrapping "build having"
    (buildHaving c model dimMap metricMap resolver (Having lq) n);
  do _ <- append_args havingArgs;
  do rowFilterPreds <- wrapping "build row filters" (buildRowFilterPreds c model rowFilters);
  do orderByClause <- wrapping "build order by" (buildOrderBy c dimMap metricMap resolver (OrderBys lq));
  let limitClause := LimitOffset d (Limit lq) (Offset lq) in
  let chunks := statement_chunks d withPrefix selectParts fromClause joinClauses whereClause rowFilterPreds
    groupByClause havingClause orderByClause limitClause in
  do args <- get_args;
  ret (mkCompiled (Concat chunks) args None).

Definition derives (lq : LogicalQuery) : bool :=
  negb (str_empty (TrimSpace (FromCTE lq))) || bool_decide (FromSubquery lq <> None).

Definition set_derived (b : bool) (c : Comp) : Comp := mkComp (dialect c) (pii c) (rowFilters c) b.

Definition logicalQueryFromBody (body : SubqueryBody) : LogicalQuery :=
  mkLQ "" "" "" "" (b_Select body) (b_Filters body) (b_GroupBy body) (b_Having body) (b_OrderBy body)
    (b_Limit body) (b_Offset body) [] None "" "" "" ∅.

(** The type of [compileStatement], the compiler object among its arguments. *)
Definition Statement : Type :=
  Comp -> LogicalQuery -> string -> string -> list RowFilter -> M CompiledQuery.

Definition compileSubqueryBody (compileStatement : Statement) (c : Comp) (model : SemanticModel)
    (body : SubqueryBody) : M string :=
  do cq <- compileStatement c (logicalQueryFromBody body) (buildFrom (dialect c) model) "" (rowFilters c);
  ret (SQL cq).

Fixpoint compileStatement `{GoRuntime} `{MapOrder} (model : SemanticModel) (fuel : nat) : Statement :=
  fun c lq fromClause withPrefix rowFilters =>
  match fuel with
  | 0%nat => throw EFuel
  | S fuel =>
      let c := set_derived (derives lq) c in
      on_copy (statement c model (compileSubqueryBody (compileStatement model fuel) c model)
                 lq fromClause withPrefix rowFilters)
  end.

(** * WITH, FROM and the entry points *)

Section Entry.
Context `{GoRuntime} `{MapOrder}.

Definition with_part (subquery : SubqueryBody -> M string) (d : Dialect) (cte : CTE) : M string :=
  let name := TrimSpace (cte_Name cte) in
  if str_empty name then throw (EMsg "cte name is required")
  else
    do innerSQL <- wrapping ("cte " +:+ Quote name) (subquery (Subquery cte));
    ret (QuoteIdent d name +:+ " AS (" +:+ innerSQL +:+ ")").

Definition buildWithClause (subquery : SubqueryBody -> M string) (d : Dialect) (ctes : list CTE) : M string :=
  match ctes with
  | [] => ret ""
  | _ => do parts <- mapM (with_part subquery d) ctes; ret ("WITH " +:+ Join parts ", " +:+ " ")
  end.

Definition resolveFromClause (subquery : SubqueryBody -> M string) (d : Dialect) (lq : LogicalQuery)
    (model : SemanticModel) : M string :=
  match FromSubquery lq with
  | Some body =>
      do innerSQL <- wrapping "from_subquery" (subquery body);
      let alias := TrimSpace (FromAlias lq) in
      let alias := if str_empty alias then "_sub" else alias in
      ret ("(" +:+ innerSQL +:+ ") AS " +:+ QuoteIdent d alias)
  | None =>
      let cte := TrimSpace (FromCTE lq) in
      if negb (str_empty cte) then ret (QuoteIdent d cte)
      else ret (buildFrom d model)
  end.

(** The steps [Compile] and [CompileWithPermissions] share, on a fresh slice of
    arguments. *)
Definition compile_query (fuel : nat) (c : Comp) (lq : LogicalQuery) (model : SemanticModel)
    (filters : list RowFilter) : M CompiledQuery :=
  let statement := compileStatement model fuel in
  let subquery := compileSubqueryBody statement c model in
  do _ <- fresh_args;
  do withPrefix <- buildWithClause subquery (dialect c) (CTEs lq);
  do fromClause <- resolveFromClause subquery (dialect c) lq model;
  do cq <- statement c lq fromClause withPrefix filters;
  do _ <- check_cerr;
  ret cq.

(** [withCompileCtx]: a copy whose source is not derived. *)
Definition withCompileCtx (ctx : bool) (c : Comp) : M Comp :=
  if ctx then ret (set_derived false c)
  else do _ <- set_cerr (EMsg "query compiler requires non-nil context"); ret (set_derived false c).

Definition Compile (fuel : nat) (c : Comp) (ctx : bool) (lq : LogicalQuery) (model : SemanticModel)
    : M CompiledQuery :=
  if negb ctx then throw (EMsg "query compiler requires non-nil context")
  else on_copy (
    do comp <- withCompileCtx ctx c;
    do _ <- check_cerr;
    compile_query fuel comp lq model (rowFilters comp)).

Definition row_filter_operator (rf : RowFilter) : string :=
  let op := ToLower (TrimSpace (rf_Operator rf)) in
  if str_empty op then "eq" else op.

Definition buildPolicyDecisions (filters : list RowFilter) (model : SemanticModel) (masked hidden : list string)
    : option PolicyDecisions :=
  let fields := map dim_Name (model_Dimensions model) ++ map met_Name (model_Metrics model) in
  let applied := map (fun rf => mkApplied (rf_Field rf) (row_filter_operator rf) (rf_Value rf))
                   (List.filter (fun rf => str_in (rf_Field rf) fields) filters) in
  match applied, masked, hidden with
  | [], [], [] => None
  | _, _, _ => Some (mkDecisions applied masked hidden)
  end.

Definition CompileWithPermissions (fuel : nat) (c : Comp) (ctx : bool) (lq : LogicalQuery) (model : SemanticModel)
    (filters : list RowFilter) (piiConfig : option PIIMaskingConfig) : M CompiledQuery :=
  match filters, piiConfig with
  | [], None => Compile fuel c ctx lq model
  | _, _ =>
      on_copy (
        do comp <- withCompileCtx ctx (mkComp (dialect c) piiConfig filters false);
        do _ <- check_cerr;
        do cq <- compile_query fuel comp lq model filters;
        do (masked, hidden) <- match piiConfig with Some _ => get_record | None => ret ([], []) end;
        ret (mkCompiled (SQL cq) (Args cq) (buildPolicyDecisions filters model masked hidden)))
  end.

(** [NewCompiler]; the state of a compiler just made. *)
Definition NewCompiler (d : concrete) : Comp := mkComp (dialect_of (Normalize d)) None [] false.
Definition start : St := mkSt [] [] [] None.
End Entry.
