(* ===== verification/ValidatedCompile.v ===== *)
(** The validator and the compiler together: what validation guarantees of the
    SQL, and where the two disagree. *)

From S2P Require Import Prelude GoStrings Values Dialect Semantic LogicalQuery PhysicalRef Suggest Pii.
From S2P Require Import RowFilter CompileMonad Calendar Joins Measures SelectSQL FilterSQL Compiler Validator Validated.
From stdpp Require Import options.
#[local] Open Scope Z_scope.

(** The text of an ORDER BY clause of [n] fields, each with a direction. *)
Definition order_text (n : nat) (order : string) : Prop :=
  exists parts, order = Join parts ", " /\ length parts = n /\
    Forall (fun p => exists field dir, p = field +:+ " " +:+ dir /\ dir ∈ ["ASC"; "DESC"]) parts.

Definition order_clause (obs : list OrderBy) (clause : string) : Prop :=
  match obs with [] => clause = "" | _ => order_text (length obs) clause end.

(** [sql] ends with the ordering and the limit of a query. *)
Definition ends_with_limit (d : Dialect) (lq : LogicalQuery) (sql : string) : Prop :=
  exists body order,
    sql = body +:+ order +:+ " " +:+ LimitOffset d (Limit lq) (Offset lq) /\
    match OrderBys lq with
    | [] => order = "" \/ order = " ORDER BY " +:+ DefaultOrderBy d
    | _ => exists text, order = " ORDER BY " +:+ text /\ order_text (length (OrderBys lq)) text
    end.

Section Bounds.
Context `{GoRuntime} `{MapOrder}.

Lemma direction_text dir : dir ∈ [""; OrderAsc; OrderDesc] -> orderByDirection dir ∈ ["ASC"; "DESC"].
Proof using.
  rewrite !elem_of_cons, elem_of_nil. intros [->|[->|[->|[]]]]; [by left|by left|by right; left].
Qed.

Lemma buildOrderByField_text (c : Comp) dm mm r ob st s st' :
  ob_Direction ob ∈ [""; OrderAsc; OrderDesc] -> buildOrderByField c dm mm r ob st = (Ok s, st') ->
  exists field dir, s = field +:+ " " +:+ dir /\ dir ∈ ["ASC"; "DESC"].
Proof using.
  intros Hd%direction_text. unfold buildOrderByField, buildOrderByDimension.
  destruct (dm !! ob_Field ob) as [dim|]; [destruct (dimensionFullyHidden _ _ _); [done|]|
    destruct (mm !! ob_Field ob) as [m|]; [|done]].
  - intros Hb. bind_inv. injection Hb as <- <-. by exists a, (orderByDirection (ob_Direction ob)).
  - intros [= <- <-]. by exists (QuoteIdent (dialect c) (met_Name m)), (orderByDirection (ob_Direction ob)).
Qed.

Lemma mapM_results {A B} (f : A -> M B) l st ys st' :
  mapM f l st = (Ok ys, st') -> Forall2 (fun x y => exists s s', f x s = (Ok y, s')) l ys.
Proof using.
  revert st ys st'. induction l as [|x l IH]; intros st ys st' Hm; cbn [mapM] in Hm; [by injection Hm as <- <-|].
  apply bind_ok in Hm as (y & st1 & Hx & Hm). apply bind_ok in Hm as (zs & st2 & Hl & Hm). injection Hm as <- <-.
  constructor; [by exists st, st1|by eapply IH].
Qed.

Lemma buildOrderBy_text (c : Comp) dm mm r obs st s st' :
  Forall (fun ob => ob_Direction ob ∈ [""; OrderAsc; OrderDesc]) obs ->
  buildOrderBy c dm mm r obs st = (Ok s, st') ->
  order_clause obs s.
Proof using.
  intros Hd Hb. unfold buildOrderBy in Hb. destruct obs as [|ob obs]; [by injection Hb as <- <-|].
  apply bind_ok in Hb as (parts & st1 & Hm%mapM_results & Hb). injection Hb as <- <-. exists parts. split; [done|].
  split; [symmetry; by eapply Forall2_length|]. eapply Forall2_Forall_r; [exact Hm|].
  eapply Forall_impl; [exact Hd|]. intros x Hx y (s1 & s2 & Hy). eapply buildOrderByField_text; [exact Hx|exact Hy].
Qed.

Lemma order_text_nonempty n s : order_text (S n) s -> s <> "".
Proof using.
  intros ([|p parts] & -> & Hn & Hf); [done|]. apply Forall_cons in Hf as [(field & dir & -> & Hd) _].
  assert (field +:+ " " +:+ dir <> "") as Hne by (apply app_nonempty_r; discriminate).
  destruct parts as [|q parts]; [done|]. cbn [Join]. by apply app_nonempty_l.
Qed.

Lemma EnsureGroupBySelected_tail lq :
  let lq' := EnsureGroupBySelected lq in
  OrderBys lq' = OrderBys lq /\ Limit lq' = Limit lq /\ Offset lq' = Offset lq.
Proof using. rewrite EnsureGroupBySelected_cases. cbv zeta. by destruct (missing_dims _ _). Qed.

Lemma order_chunks_text (d : Dialect) (lq : LogicalQuery) order limit :
  order_clause (OrderBys lq) order -> limit <> "" ->
  match OrderBys lq with
  | [] => Concat (order_chunks d order limit) = "" \/
          Concat (order_chunks d order limit) = " ORDER BY " +:+ DefaultOrderBy d
  | _ => exists text, Concat (order_chunks d order limit) = " ORDER BY " +:+ text /\
           order_text (length (OrderBys lq)) text
  end.
Proof using.
  intros Ho Hl. unfold order_chunks. destruct (OrderBys lq) as [|ob obs].
  - cbn [order_clause] in Ho. subst order. cbn [negb str_empty String.eqb]. destruct (negb _ && negb _); [right|by left].
    cbn [Concat]. by rewrite app_nil_r.
  - exists order. split; [|done]. apply order_text_nonempty, str_empty_false in Ho. rewrite Ho.
    cbn [negb Concat]. by rewrite app_nil_r.
Qed.

Lemma chunks_tail (d : Dialect) withPrefix sel from joins wh preds group having order limit :
  limit <> "" ->
  exists body, Concat (statement_chunks d withPrefix sel from joins wh preds group having order limit) =
    body +:+ Concat (order_chunks d order limit) +:+ " " +:+ limit.
Proof using.
  intros Hl. unfold statement_chunks. generalize (order_chunks d order limit). intros ord.
  eexists. rewrite !List.app_assoc, 2!Concat_app. unfold titled at 3. rewrite (proj2 (str_empty_false _) Hl).
  cbn [Concat]. rewrite app_nil_r, GoStrings.app_assoc. reflexivity.
Qed.

Lemma statement_limit (c : Comp) model subquery lq from withPrefix filters st cq st' :
  Forall (fun ob => ob_Direction ob ∈ [""; OrderAsc; OrderDesc]) (OrderBys lq) ->
  LimitOffset (dialect c) (Limit lq) (Offset lq) <> "" ->
  statement c model subquery lq from withPrefix filters st = (Ok cq, st') ->
  ends_with_limit (dialect c) lq (SQL cq).
Proof using.
  intros Hd Hl. unfold statement. cbv zeta. destruct (EnsureGroupBySelected_tail lq) as (Eo & El & Ef).
  intros Hb. bind_inv. destruct a as [joins un]. bind_inv. destruct a4 as [hav vals0]. bind_inv.
  match goal with Hw : wrapping "build order by" _ _ = _ |- _ => apply wrapping_ok in Hw; rename Hw into Hord end.
  apply buildOrderBy_text in Hord; [|by rewrite Eo]. rewrite Eo in Hord.
  pose proof (order_chunks_text (dialect c) lq _ _ Hord Hl) as Hc.
  injection Hb as <- _. rewrite El, Ef. cbn [SQL].
  destruct (chunks_tail (dialect c) withPrefix a0 from
    (buildJoins model (NewSchemaResolver model (EnsureGroupBySelected lq)) (dialect c) joins (build_joinMap model))
    a1 a5 a2 hav a6 _ Hl) as [body Hbody].
  by eexists body, _.
Qed.

Lemma compileStatement_limit fuel (c : Comp) model lq from withPrefix filters st cq st' :
  Forall (fun ob => ob_Direction ob ∈ [""; OrderAsc; OrderDesc]) (OrderBys lq) ->
  LimitOffset (dialect c) (Limit lq) (Offset lq) <> "" ->
  compileStatement model fuel c lq from withPrefix filters st = (Ok cq, st') ->
  ends_with_limit (dialect c) lq (SQL cq).
Proof using.
  intros Hd Hl. destruct fuel as [|fuel]; cbn [compileStatement]; [done|].
  intros (st1 & Hs & _)%on_copy_ok. by eapply (statement_limit (set_derived (derives lq) c)).
Qed.

Lemma compile_query_limit fuel (c : Comp) lq model filters st cq st' :
  Forall (fun ob => ob_Direction ob ∈ [""; OrderAsc; OrderDesc]) (OrderBys lq) ->
  LimitOffset (dialect c) (Limit lq) (Offset lq) <> "" ->
  compile_query fuel c lq model filters st = (Ok cq, st') -> ends_with_limit (dialect c) lq (SQL cq).
Proof using.
  intros Hd Hl. unfold compile_query. cbv zeta. intros Hb. bind_inv. unfold ret in Hb. injection Hb as <- <-.
  match goal with Hs : compileStatement _ _ _ _ _ _ _ _ = _ |- _ => by apply compileStatement_limit in Hs end.
Qed.

Lemma withCompileCtx_ok ctx c0 st a st' : withCompileCtx ctx c0 st = (Ok a, st') -> a = set_derived false c0.
Proof using.
  unfold withCompileCtx. destruct ctx; [by intros [= <-]|]. intros Hb. bind_inv. by injection Hb as <- <-.
Qed.

Lemma entry_limit fuel (c : Comp) ctx lq model filters piiConfig st cq st' :
  Forall (fun ob => ob_Direction ob ∈ [""; OrderAsc; OrderDesc]) (OrderBys lq) ->
  LimitOffset (dialect c) (Limit lq) (Offset lq) <> "" ->
  CompileWithPermissions fuel c ctx lq model filters piiConfig st = (Ok cq, st') ->
  ends_with_limit (dialect c) lq (SQL cq).
Proof using.
  intros Hd Hl.
  assert (forall s, on_copy (
    do comp <- withCompileCtx ctx (mkComp (dialect c) piiConfig filters false);
    do _ <- check_cerr;
    do cq <- compile_query fuel comp lq model filters;
    do (masked, hidden) <- match piiConfig with Some _ => get_record | None => ret ([], []) end;
    ret (mkCompiled (SQL cq) (Args cq) (buildPolicyDecisions filters model masked hidden))) s = (Ok cq, st') ->
    ends_with_limit (dialect c) lq (SQL cq)) as Hmain.
  { intros s (st1 & Hb & _)%on_copy_ok. bind_inv.
    match goal with Hw : withCompileCtx _ _ _ = _ |- _ => apply withCompileCtx_ok in Hw; subst end.
    match goal with Hq : compile_query _ _ _ _ _ _ = _ |- _ => apply compile_query_limit in Hq; [|done|done] end.
    destruct (a2 : list string * list string) as [masked hidden]. by injection Hb as <- <-. }
  unfold CompileWithPermissions. destruct filters as [|f fs]; [destruct piiConfig as [cfg|]|]; try (by apply Hmain).
  unfold Compile. destruct (negb ctx); [done|]. intros (st1 & Hb & _)%on_copy_ok. bind_inv.
  match goal with Hw : withCompileCtx _ _ _ = _ |- _ => apply withCompileCtx_ok in Hw; subst end.
  by apply compile_query_limit in Hb.
Qed.
End Bounds.

(** C19: what leaves the validator asks the database for a bounded number of rows.
    When the validator, with a positive ceiling, accepts a query and the compiler
    compiles what the validator made of it, the SQL ends with the LIMIT/OFFSET
    clause of the dialect, which is not empty, for a number of rows between one
    and the ceiling; before it comes the ordering, in which each field of the
    query's ORDER BY has one of the two directions and nothing else. *)
Theorem validated_queries_bounded `{GoRuntime} `{MapOrder} (maxRows : Z) (lq lq' : LogicalQuery) (model : SemanticModel)
    (fuel : nat) (d : concrete) (ctx : bool) (filters : list RowFilter) (piiConfig : option PIIMaskingConfig)
    (st st' : St) (cq : CompiledQuery) :
  0 < maxRows ->
  Validate maxRows lq model = (Ok tt, lq') ->
  CompileWithPermissions fuel (NewCompiler d) ctx lq' model filters piiConfig st = (Ok cq, st') ->
  1 <= Limit lq' <= maxRows /\ 0 <= Offset lq' /\
  LimitOffset (dialect (NewCompiler d)) (Limit lq') (Offset lq') <> "" /\
  ends_with_limit (dialect (NewCompiler d)) lq' (SQL cq).
Proof.
  intros Hmax Hv. apply Validate_ok in Hv as [Hq ->]. intros Hc.
  destruct (qt_limit _ _ _ Hq) as [Hlo Hhi]. pose proof (qt_offset _ _ _ Hq) as Hoff.
  pose proof (qt_order _ _ _ Hq) as Hord.
  assert (1 <= Limit (set_Limit (if Limit lq =? 0 then maxRows else Limit lq) lq) <= maxRows) as Hl.
  { cbn [Limit set_Limit]. destruct (Z.eqb_spec (Limit lq) 0); lia. }
  set (lq' := set_Limit _ lq) in *.
  assert (LimitOffset (dialect (NewCompiler d)) (Limit lq') (Offset lq') <> "") as Hne.
  { cbn [dialect NewCompiler]. rewrite LimitOffset_empty_iff. lia. }
  split_and!; try done; [lia..|]. eapply entry_limit; [|done|done]. eapply Forall_impl; [exact Hord|]. by intros ob [_ Hd].
Qed.

Definition revenue_query (metric : string) : LogicalQuery :=
  mkLQ "v1" "d" "m" "" [plain_item SelectTypeMetric metric] [] [mkGroupBy "region" ""] []
    [mkOrderBy "region" "desc"] 0 0 [] None "" "" "" ∅.

Lemma validated_queries_bounded_witness :
  let _ := demo_runtime in
  let _ := list_order in
  let lq' := (Validate 1000 (revenue_query "revenue") example_model).2 in
  exists cq, (CompileWithPermissions 1 (NewCompiler MySQL) true lq' example_model [] None start).1 = Ok cq /\
    HasSuffix (SQL cq) " ORDER BY `regions`.`name` DESC LIMIT 1000" = true /\
    Limit lq' = 1000 /\ ends_with_limit (dialect (NewCompiler MySQL)) lq' (SQL cq).
Proof.
  intros rt mo lq'.
  assert (exists cq st', CompileWithPermissions 1 (NewCompiler MySQL) true lq' example_model [] None start = (Ok cq, st') /\
    HasSuffix (SQL cq) " ORDER BY `regions`.`name` DESC LIMIT 1000" = true) as (cq & st' & Hc & Hsql).
  { eexists _, _. split; [vm_compute; reflexivity|vm_compute; reflexivity]. }
  destruct (@validated_queries_bounded rt mo 1000 (revenue_query "revenue") lq' example_model 1 MySQL true [] None
    start st' cq ltac:(lia) ltac:(vm_compute; reflexivity) Hc) as (_ & _ & _ & He).
  exists cq. split_and!; [by rewrite Hc|exact Hsql|reflexivity|exact He].
Defined.

Definition succeeded {A} (r : res A) : bool := match r with Ok _ => true | Err _ => false end.

(** The validator finds a metric by a synonym, a label or in another case; the
    compiler only by its name: the query below is well typed and does not
    compile. *)
Example synonyms_do_not_compile :
  let _ := demo_runtime in
  let _ := list_order in
  let model := mkModel "m" "d" "sales" "public" "orders" 1
    [mkDimension "region" "orders.region" "string" "" "" NilExpr]
    [mkMetric "revenue" "orders.amount" NilExpr "sum" (Some "Net sales") ["turnover"] None] [] None None "published" in
  let valid n := succeeded (Validate 1000 (revenue_query n) model).1 in
  let compiles n :=
    succeeded (CompileWithPermissions 1 (NewCompiler Postgres) true (revenue_query n) model [] None start).1 in
  map (fun n => (valid n, compiles n)) ["revenue"; "Revenue"; "net sales"; "turnover"; "profit"] =
  [(true, true); (true, false); (true, false); (true, false); (false, false)].
Proof. vm_compute. reflexivity. Qed.

(** The conditions of a CASE item are not looked at: an unknown field there passes
    validation and stops the compiler. *)
Example case_conditions_unchecked :
  let _ := demo_runtime in
  let _ := list_order in
  let branch := mkBranch [plain_filter "nonsense" "no_such_operator" (VInt 1)] (mkCaseThen "dimension" "region" VNil) in
  let item := mkSelect SelectTypeCase "bucket" "" [] (Some (mkCase [branch] None)) None None in
  let lq := mkLQ "v1" "d" "m" "" [item] [] [] [] [] 10 0 [] None "" "" "" ∅ in
  succeeded (Validate 1000 lq example_model).1 = true /\
  succeeded (CompileWithPermissions 1 (NewCompiler Postgres) true lq example_model [] None start).1 = false.
Proof. split; vm_compute; reflexivity. Qed.
