(* ===== verification/HttpClient.v ===== *)
(** Calls between services: the retry loop and the circuit breaker
    ([pkg/common/httpclient/retry.go], [circuit_breaker.go]).

    Time is in nanoseconds; [None] is the zero [time.Time], which every instant
    the clock shows comes after.  What a caller passes in - the request builder,
    the transport - and the context's end are given by their answers, one per
    attempt.  The mutex of the breaker makes each of its methods one step. *)

From S2P Require Import Prelude.
From stdpp Require Import options.
#[local] Open Scope Z_scope.

(** * retry.go *)

(** An [error] as far as [errors.Is] with the two errors of a context tells it. *)
Inductive neterr : Type :=
| Canceled
| DeadlineExceeded
| OtherError (msg : string).

(** A response: its status and, when it has a body, the errors of draining and of
    closing it. *)
Record Response : Type := mkResponse {
  StatusCode : Z;
  Body : option (option neterr * option neterr);
}.

Record RetryPolicy : Type := mkPolicy {
  MaxAttempts : Z;
  BaseBackoff : Z;
  MaxBackoff : Z;
}.

Definition millisecond : Z := 1000000.
Definition DefaultRetryPolicy : RetryPolicy := mkPolicy 3 (50 * millisecond) (250 * millisecond).

Definition shouldRetry (resp : option Response) (err : option neterr) : bool :=
  match err with
  | Some Canceled | Some DeadlineExceeded => false
  | Some (OtherError _) => true
  | None =>
      match resp with
      | None => false
      | Some r => bool_decide (StatusCode r ∈ [502; 503; 504])
      end
  end.

(** The error kept after an attempt that is tried again. *)
Definition drained_error (resp : option Response) (err : option neterr) : option neterr :=
  match resp with
  | Some (mkResponse _ (Some (copyErr, closeErr))) =>
      let lastErr := match copyErr with Some e => Some e | None => err end in
      match lastErr with Some _ => lastErr | None => closeErr end
  | _ => err
  end.

Definition result : Type := option Response * option neterr.

(** What the loop does, in order. *)
Inductive event : Type :=
| EvDo (attempt : Z)
| EvSleep (d : Z).

Section Retry.
Context (newRequest : Z -> option neterr) (do_ : Z -> result) (sleepWithContext : Z -> Z -> option neterr).

Fixpoint retry_loop (remaining : nat) (attempts attempt backoff maxBackoff : Z) (lastErr : option neterr)
    : result * list event :=
  match remaining with
  | 0%nat => ((None, lastErr), [])
  | S remaining =>
      match newRequest attempt with
      | Some err => ((None, Some err), [])
      | None =>
          let (resp, err) := do_ attempt in
          if negb (shouldRetry resp err) || (attempt =? attempts) then ((resp, err), [EvDo attempt])
          else
            let lastErr := drained_error resp err in
            match sleepWithContext attempt backoff with
            | Some e => ((None, match lastErr with Some _ => lastErr | None => Some e end),
                         [EvDo attempt; EvSleep backoff])
            | None =>
                let doubled := wrap64 (backoff * 2) in
                let backoff' := if maxBackoff <? doubled then maxBackoff else doubled in
                let (r, evs) := retry_loop remaining attempts (attempt + 1) backoff' maxBackoff lastErr in
                (r, EvDo attempt :: EvSleep backoff :: evs)
            end
      end
  end.

Definition effective_attempts (policy : RetryPolicy) : Z := if MaxAttempts policy <=? 0 then 1 else MaxAttempts policy.
Definition first_backoff (policy : RetryPolicy) : Z :=
  if BaseBackoff policy <=? 0 then 50 * millisecond else BaseBackoff policy.
Definition backoff_cap (policy : RetryPolicy) : Z :=
  if MaxBackoff policy <=? 0 then first_backoff policy else MaxBackoff policy.

Definition DoWithRetry (policy : RetryPolicy) : result * list event :=
  let attempts := effective_attempts policy in
  retry_loop (Z.to_nat attempts) attempts 1 (first_backoff policy) (backoff_cap policy) None.
End Retry.

(** * circuit_breaker.go *)

Definition ErrCircuitOpen : string := "httpclient: circuit open".

Record CircuitBreakerConfig : Type := mkBreakerConfig {
  cfg_FailureThreshold : Z;
  cfg_OpenDuration : Z;
}.

Definition DefaultCircuitBreakerConfig : CircuitBreakerConfig := mkBreakerConfig 5 (30000 * millisecond).

Record CircuitBreaker : Type := mkBreaker {
  failureThreshold : Z;
  openDuration : Z;
  failures : Z;
  openUntil : option Z;
  halfOpenInFlight : bool;
}.

Definition NewCircuitBreaker (cfg : CircuitBreakerConfig) : CircuitBreaker :=
  let defaults := DefaultCircuitBreakerConfig in
  mkBreaker
    (if cfg_FailureThreshold cfg <=? 0 then cfg_FailureThreshold defaults else cfg_FailureThreshold cfg)
    (if cfg_OpenDuration cfg <=? 0 then cfg_OpenDuration defaults else cfg_OpenDuration cfg)
    0 None false.

Definition set_halfOpen (b : CircuitBreaker) : CircuitBreaker :=
  mkBreaker (failureThreshold b) (openDuration b) (failures b) (openUntil b) true.

(** [now.Before(b.openUntil)] *)
Definition before_open (b : CircuitBreaker) (now : Z) : bool :=
  match openUntil b with Some t => now <? t | None => false end.

(** [Allow] of a breaker that is not nil: the error, and the breaker after. *)
Definition Allow (b : CircuitBreaker) (now : Z) : option string * CircuitBreaker :=
  if before_open b now then (Some ErrCircuitOpen, b)
  else match openUntil b with
  | Some _ =>
      if halfOpenInFlight b then (Some ErrCircuitOpen, b) else (None, set_halfOpen b)
  | None => if halfOpenInFlight b then (Some ErrCircuitOpen, b) else (None, b)
  end.

Definition recordFailure (b : CircuitBreaker) (now : Z) : CircuitBreaker :=
  if halfOpenInFlight b then
    mkBreaker (failureThreshold b) (openDuration b) (failureThreshold b) (Some (now + openDuration b)) false
  else
    let failures := wrap64 (failures b + 1) in
    mkBreaker (failureThreshold b) (openDuration b) failures
      (if failureThreshold b <=? failures then Some (now + openDuration b) else openUntil b) false.

Definition recordSuccess (b : CircuitBreaker) : CircuitBreaker :=
  mkBreaker (failureThreshold b) (openDuration b) 0 None false.

Definition Record_ (b : CircuitBreaker) (now : Z) (resp : option Response) (err : option neterr) : CircuitBreaker :=
  if shouldRetry resp err then recordFailure b now else recordSuccess b.

(** * The retry loop *)

Definition attempts_made (evs : list event) : list Z := omap (fun e => match e with EvDo a => Some a | _ => None end) evs.
Definition sleeps (evs : list event) : list Z := omap (fun e => match e with EvSleep d => Some d | _ => None end) evs.

(** The wait before attempt [i + 2]: exponential, capped from the second on. *)
Definition scheduled (policy : RetryPolicy) (i : nat) : Z :=
  match i with
  | 0%nat => first_backoff policy
  | S _ => Z.min (backoff_cap policy) (first_backoff policy * 2 ^ Z.of_nat i)
  end.

Section RetryProofs.
Context (newRequest : Z -> option neterr) (do_ : Z -> result) (sleepWithContext : Z -> Z -> option neterr).
Context (policy : RetryPolicy).
#[local] Abbreviation base := (first_backoff policy).
#[local] Abbreviation cap := (backoff_cap policy).
#[local] Abbreviation loop := (retry_loop newRequest do_ sleepWithContext).

Lemma first_backoff_pos : 0 < base.
Proof using. unfold first_backoff, millisecond. destruct (Z.leb_spec (BaseBackoff policy) 0); lia. Qed.
Lemma backoff_cap_pos : 0 < cap.
Proof using.
  unfold backoff_cap. pose proof first_backoff_pos. destruct (Z.leb_spec (MaxBackoff policy) 0); lia.
Qed.

Lemma next_backoff i :
  base < 2 ^ 62 -> cap < 2 ^ 62 ->
  (let doubled := wrap64 (scheduled policy i * 2) in if cap <? doubled then cap else doubled) = scheduled policy (S i).
Proof using.
  intros Hb Hc. pose proof first_backoff_pos. pose proof backoff_cap_pos. cbv zeta.
  assert (0 < scheduled policy i < 2 ^ 62) as Hs.
  { destruct i as [|i]; cbn [scheduled]; [lia|]. pose proof (Z.pow_pos_nonneg 2 (Z.of_nat (S i))). nia. }
  rewrite wrap64_small by lia.
  assert (scheduled policy (S i) = Z.min cap (scheduled policy i * 2)) as ->.
  { cbn [scheduled]. rewrite Nat2Z.inj_succ, Z.pow_succ_r by lia.
    destruct i as [|i]; [cbn [scheduled]; change (2 ^ Z.of_nat 0) with 1; lia|]. cbn [scheduled].
    pose proof (Z.pow_pos_nonneg 2 (Z.of_nat (S i))). nia. }
  destruct (Z.ltb_spec cap (scheduled policy i * 2)); lia.
Qed.

Lemma made_step a d evs :
  attempts_made (EvDo a :: EvSleep d :: evs) = a :: attempts_made evs /\
  sleeps (EvDo a :: EvSleep d :: evs) = d :: sleeps evs.
Proof using. done. Qed.

(** What one run of the loop did, from attempt [a], [i] waits behind. *)
Record run_ok (attempts a : Z) (i : nat) (r : result) (evs : list event) : Prop := {
  ro_order : attempts_made evs = seqZ a (Z.of_nat (length (attempts_made evs)));
  ro_count : Z.of_nat (length (attempts_made evs)) <= attempts - a + 1;
  ro_sleeps : sleeps evs = map (scheduled policy) (seq i (length (sleeps evs)));
  ro_waits : (length (sleeps evs) <= length (attempts_made evs) <= S (length (sleeps evs)))%nat;
  ro_retried : forall k, a <= k < a + Z.of_nat (length (sleeps evs)) ->
    shouldRetry (do_ k).1 (do_ k).2 = true /\ k < attempts;
  ro_result : (length (attempts_made evs) = S (length (sleeps evs)) /\
      r = do_ (a + Z.of_nat (length (sleeps evs))) /\
      (shouldRetry r.1 r.2 = false \/ a + Z.of_nat (length (sleeps evs)) = attempts)) \/
    (length (attempts_made evs) = length (sleeps evs) /\ exists e, r = (None, Some e));
}.

Lemma retry_loop_ok remaining attempts a i lastErr r evs :
  base < 2 ^ 62 -> cap < 2 ^ 62 -> Z.of_nat remaining = attempts - a + 1 -> 1 <= Z.of_nat remaining ->
  loop remaining attempts a (scheduled policy i) cap lastErr = (r, evs) -> run_ok attempts a i r evs.
Proof using.
  intros Hb Hc. revert a i lastErr r evs.
  induction remaining as [|n IH]; intros a i lastErr r evs Hn Hpos Hl; [lia|]. cbn [retry_loop] in Hl.
  destruct (newRequest a) as [e|].
  { injection Hl as <- <-. split; cbn; try done; try lia. right. split; [done|]. by exists e. }
  destruct (do_ a) as [resp err] eqn:Hd.
  destruct (negb (shouldRetry resp err) || (a =? attempts)) eqn:Hstop.
  { injection Hl as <- <-. split; cbn; try done; try lia. left. split; [done|]. rewrite Z.add_0_r, Hd. split; [done|].
    cbn [fst snd]. apply orb_true_iff in Hstop as [Hs%negb_true_iff|Hs%Z.eqb_eq]; [by left|right; lia]. }
  apply orb_false_iff in Hstop as [Hs%negb_false_iff Ha%Z.eqb_neq].
  assert (shouldRetry (do_ a).1 (do_ a).2 = true) as Hr by (by rewrite Hd).
  destruct (sleepWithContext a (scheduled policy i)) as [e|].
  { injection Hl as <- <-. split; cbn; try done; try lia.
    - intros k Hk. assert (k = a) as -> by lia. split; [done|lia].
    - right. split; [done|]. destruct (drained_error resp err); by eexists. }
  pose proof (next_backoff i Hb Hc) as Hnext. cbv zeta in Hl, Hnext. rewrite Hnext in Hl.
  destruct (loop n attempts (a + 1) (scheduled policy (S i)) cap (drained_error resp err)) as [r1 evs1] eqn:E.
  injection Hl as <- <-. apply IH in E; [|lia|lia]. destruct E as [Ho Hcnt Hsl Hw Hre Hres].
  pose proof (made_step a (scheduled policy i) evs1) as [Em Es].
  split; rewrite ?Em, ?Es; cbn [length].
  - rewrite Nat2Z.inj_succ, seqZ_cons by lia. rewrite Z.pred_succ, <- Z.add_1_r. by rewrite Ho at 1.
  - lia.
  - cbn [seq map]. by rewrite <- Hsl.
  - lia.
  - intros k Hk. destruct (Z.eq_dec k a) as [->|Hka]; [split; [done|lia]|]. apply Hre. lia.
  - assert (a + Z.of_nat (S (length (sleeps evs1))) = a + 1 + Z.of_nat (length (sleeps evs1))) as -> by lia.
    destruct Hres as [(Hlen & Hr1 & Hst)|(Hlen & He)]; [left|right]; split_and!; try done; by rewrite Hlen.
Qed.
End RetryProofs.

(** the retry loop is bounded.  For every behaviour of the server, the caller
    and the context, the attempts are numbered one after the other from one and
    there are at most [MaxAttempts] of them (one when that is not positive); the
    waits between them follow the schedule - the base, then its double, capped,
    again and again, without the 64-bit doubling overflowing; an attempt is
    followed by a wait only when it failed in a way worth trying again and is not
    the last; and what is returned is what the last attempt returned, final or
    out of attempts, or an error without a response. *)
Theorem retries_bounded (newRequest : Z -> option neterr) (do_ : Z -> result)
    (sleepWithContext : Z -> Z -> option neterr) (policy : RetryPolicy) :
  BaseBackoff policy < 2 ^ 62 -> MaxBackoff policy < 2 ^ 62 ->
  let (r, evs) := DoWithRetry newRequest do_ sleepWithContext policy in
  let n := Z.of_nat (length (attempts_made evs)) in
  let waits := Z.of_nat (length (sleeps evs)) in
  attempts_made evs = seqZ 1 n /\ n <= Z.max 1 (MaxAttempts policy) /\
  sleeps evs = map (scheduled policy) (seq 0 (length (sleeps evs))) /\
  Forall (fun d => 0 < d <= Z.max (first_backoff policy) (backoff_cap policy)) (sleeps evs) /\
  (forall k, 1 <= k <= waits -> shouldRetry (do_ k).1 (do_ k).2 = true /\ k < Z.max 1 (MaxAttempts policy)) /\
  ((n = waits + 1 /\ r = do_ n /\ (shouldRetry r.1 r.2 = false \/ n = Z.max 1 (MaxAttempts policy))) \/
   (n = waits /\ exists e, r = (None, Some e))).
Proof.
  intros Hb Hm. assert (first_backoff policy < 2 ^ 62) as Hbase.
  { unfold first_backoff, millisecond. destruct (_ <=? _); lia. }
  assert (backoff_cap policy < 2 ^ 62) as Hcap by (unfold backoff_cap; destruct (_ <=? _); lia).
  assert (effective_attempts policy = Z.max 1 (MaxAttempts policy)) as En.
  { unfold effective_attempts. destruct (Z.leb_spec (MaxAttempts policy) 0); lia. }
  unfold DoWithRetry. cbv zeta.
  destruct (retry_loop _ _ _ _ _ _ _ _ _) as [r evs] eqn:E. rewrite En in E.
  apply (retry_loop_ok newRequest do_ sleepWithContext policy _ _ _ 0) in E; [|done|done|lia|lia].
  destruct E as [Ho Hn Hs Hw Hr Hres]. split_and!; [done|lia|done| | |].
  - rewrite Hs. apply Forall_fmap, Forall_true. intros i. pose proof (first_backoff_pos policy).
    pose proof (backoff_cap_pos policy). destruct i as [|i]; cbn [compose scheduled]; [lia|].
    pose proof (Z.pow_pos_nonneg 2 (Z.of_nat (S i))). unfold compose. cbn [scheduled]. nia.
  - intros k Hk. apply Hr. lia.
  - destruct Hres as [(Hlen & -> & Hst)|(Hlen & He)]; [left|right; split; [lia|done]].
    assert (1 + Z.of_nat (length (sleeps evs)) = Z.of_nat (length (attempts_made evs))) as Hk by lia.
    rewrite Hk in *. split_and!; [lia|done|]. exact Hst.
Qed.
Lemma retries_bounded_witness :
  let do_ k := if k =? 3 then (Some (mkResponse 200 None), None) else (Some (mkResponse 503 None), None) in
  let (r, evs) := DoWithRetry (fun _ => None) do_ (fun _ _ => None) (mkPolicy 5 (50 * millisecond) (80 * millisecond)) in
  r = (Some (mkResponse 200 None), None) /\ attempts_made evs = [1; 2; 3] /\
  sleeps evs = [50 * millisecond; 80 * millisecond] /\ Z.of_nat (length (attempts_made evs)) <= 5.
Proof.
  intros do_.
  pose proof (retries_bounded (fun _ => None) do_ (fun _ _ => None) (mkPolicy 5 (50 * millisecond) (80 * millisecond))
    ltac:(reflexivity) ltac:(reflexivity)) as Hr.
  destruct (DoWithRetry _ _ _ _) as [r evs] eqn:E. cbv zeta in Hr. destruct Hr as (_ & Hn & _).
  vm_compute in E. injection E as <- <-. split_and!; [reflexivity|reflexivity|reflexivity|exact Hn].
Defined.

(** * The breaker as a state machine *)

(** What a breaker is for: it counts failures in a row; after [threshold] of them
    it lets no call through for a while, then one; the next call that comes back decides,
    whether it is that one or one that was out before. *)
Inductive phase : Type :=
| Closed (failed : Z)
| Open (until : Z)
| HalfOpen (until : Z).

Definition phase_of (b : CircuitBreaker) : phase :=
  match openUntil b with
  | None => Closed (failures b)
  | Some t => if halfOpenInFlight b then HalfOpen t else Open t
  end.

(** Whether a call at [now] may go through, and the phase after. *)
Definition admit_call (ph : phase) (now : Z) : bool * phase :=
  match ph with
  | Closed n => (true, Closed n)
  | Open t => if now <? t then (false, Open t) else (true, HalfOpen t)
  | HalfOpen t => (false, HalfOpen t)
  end.

(** The phase after a call, any of those that are out, came back at [now]. *)
Definition call_back (threshold duration : Z) (ph : phase) (now : Z) (failed : bool) : phase :=
  if failed then
    match ph with
    | Closed n => if n + 1 <? threshold then Closed (n + 1) else Open (now + duration)
    | Open _ | HalfOpen _ => Open (now + duration)
    end
  else Closed 0.

(** A call that failed for another reason than the end of its context, or was answered by a
    gateway that could not reach the service. *)
Definition counts_as_failure (resp : option Response) (err : option neterr) : Prop :=
  (exists msg, err = Some (OtherError msg)) \/ (err = None /\ exists r, resp = Some r /\ StatusCode r ∈ [502; 503; 504]).
Lemma shouldRetry_spec resp err : if shouldRetry resp err then counts_as_failure resp err else ~ counts_as_failure resp err.
Proof.
  unfold counts_as_failure. destruct err as [[| |msg]|]; cbn; try naive_solver.
  destruct resp as [r|]; [|naive_solver]. case_bool_decide; naive_solver.
Qed.

(** Calls of any number of goroutines, in any order: [inFlight] are out, [clock]
    is the time of the last event. *)
Record client : Type := mkClient {
  breaker : CircuitBreaker;
  inFlight : nat;
  clock : Z;
}.

Inductive step : client -> client -> Prop :=
| step_granted b n now b' t :
    t <= now -> Allow b now = (None, b') -> step (mkClient b n t) (mkClient b' (S n) now)
| step_refused b n now e b' t :
    t <= now -> Allow b now = (Some e, b') -> step (mkClient b n t) (mkClient b' n now)
| step_done b n now t resp err :
    t <= now -> step (mkClient b (S n) t) (mkClient (Record_ b now resp err) n now).

(** Reachable from a new breaker in [k] events. *)
Inductive reached (cfg : CircuitBreakerConfig) : Z -> client -> Prop :=
| reached_start t : reached cfg 0 (mkClient (NewCircuitBreaker cfg) 0 t)
| reached_step k s s' : reached cfg k s -> step s s' -> reached cfg (k + 1) s'.

Record breaker_ok (cfg : CircuitBreakerConfig) (k : Z) (s : client) : Prop := {
  bo_threshold : failureThreshold (breaker s) = failureThreshold (NewCircuitBreaker cfg);
  bo_duration : openDuration (breaker s) = openDuration (NewCircuitBreaker cfg);
  bo_count : 0 <= failures (breaker s) <= failureThreshold (breaker s) + k;
  bo_open : openUntil (breaker s) = None <-> failures (breaker s) < failureThreshold (breaker s);
  bo_half : halfOpenInFlight (breaker s) = true -> openUntil (breaker s) <> None /\ (1 <= inFlight s)%nat;
  bo_until : forall t, openUntil (breaker s) = Some t -> t <= clock s + openDuration (breaker s);
}.

Lemma new_positive cfg :
  0 < failureThreshold (NewCircuitBreaker cfg) /\ 0 < openDuration (NewCircuitBreaker cfg).
Proof.
  unfold NewCircuitBreaker, DefaultCircuitBreakerConfig, millisecond. cbn [failureThreshold openDuration cfg_FailureThreshold cfg_OpenDuration].
  destruct (Z.leb_spec (cfg_FailureThreshold cfg) 0), (Z.leb_spec (cfg_OpenDuration cfg) 0); lia.
Qed.

Lemma reached_nonneg cfg k s : reached cfg k s -> 0 <= k.
Proof. induction 1; lia. Qed.

Lemma breaker_ok_step cfg k s s' :
  failureThreshold (NewCircuitBreaker cfg) + k + 1 < 2 ^ 63 -> 0 <= k ->
  breaker_ok cfg k s -> step s s' -> breaker_ok cfg (k + 1) s'.
Proof.
  intros Hk Hk0 [Ht Hd Hc Ho Hh Hu] Hs. pose proof (new_positive cfg) as [Hp1 Hp2].
  destruct Hs as [b n now b' t Hnow Ha|b n now e b' t Hnow Ha|b n now t resp err Hnow];
    cbn [breaker inFlight clock] in *.
  - unfold Allow in Ha. destruct (before_open b now); [done|].
    destruct (openUntil b) as [u|] eqn:Eu, (halfOpenInFlight b) eqn:Eh; try done; injection Ha as <-;
      split; cbn [breaker inFlight clock set_halfOpen failureThreshold openDuration failures openUntil halfOpenInFlight];
      rewrite ?Eu, ?Eh; try done; try lia.
    + intros _. split; [done|lia].
    + intros t' [= <-]. specialize (Hu u eq_refl). lia.
  - assert (b' = b) as ->.
    { unfold Allow in Ha. destruct (before_open b now); [by injection Ha|].
      by destruct (openUntil b), (halfOpenInFlight b); try done; injection Ha. }
    split; cbn [breaker inFlight clock]; try done; [lia|]. intros t' Et. specialize (Hu t' Et). lia.
  - unfold Record_. destruct (shouldRetry resp err); [unfold recordFailure; destruct (halfOpenInFlight b) eqn:Eh|].
    + split; cbn [breaker inFlight clock failureThreshold openDuration failures openUntil halfOpenInFlight]; try done;
        try lia; [|by intros t' [= <-]; lia]. split; [done|lia].
    + rewrite wrap64_small by lia.
      split; cbn [breaker inFlight clock failureThreshold openDuration failures openUntil halfOpenInFlight]; try done;
        try lia.
      * destruct (Z.leb_spec (failureThreshold b) (failures b + 1)); [split; [done|lia]|]. rewrite Ho. lia.
      * intros t'. destruct (_ <=? _); [by intros [= <-]; lia|]. intros Et. specialize (Hu t' Et). lia.
    + split; cbn [breaker inFlight clock recordSuccess failureThreshold openDuration failures openUntil halfOpenInFlight];
        try done; try lia. split; [lia|done].
Qed.

Lemma reached_ok cfg k s :
  failureThreshold (NewCircuitBreaker cfg) + k < 2 ^ 63 -> reached cfg k s -> breaker_ok cfg k s.
Proof.
  intros Hk Hr. induction Hr as [t|k s s' Hr IH Hs].
  - pose proof (new_positive cfg). split; cbn [breaker inFlight clock]; try done; [cbn [failures NewCircuitBreaker]; lia|].
    split; [|done]. intros _. cbn [failures NewCircuitBreaker]. lia.
  - apply reached_nonneg in Hr as Hk0. apply (breaker_ok_step cfg k s); [lia|done| |done]. apply IH. lia.
Qed.

(** C38: the breaker, whatever calls go out and come back and however they overlap,
    behaves as the three-phase machine, whose phases a call may pass and each call that
    comes back moves.  In every state that fewer than 2^63 events lead to, a call is let
    through exactly when the phase admits one: always while it is closed, never while it
    is open and the time is not over, once after that, and not again before the next call
    comes back.  A call that failed, or was answered 502, 503 or 504, is counted and opens
    the breaker when it makes up the threshold or the breaker was open; any other call
    that comes back - also one whose caller cancelled it, or one that was out before the
    breaker opened - closes it. *)
Theorem breaker_refines (cfg : CircuitBreakerConfig) (k : Z) (s : client) :
  reached cfg k s -> failureThreshold (NewCircuitBreaker cfg) + k + 1 < 2 ^ 63 ->
  let b := breaker s in
  let came_back := call_back (failureThreshold (NewCircuitBreaker cfg)) (openDuration (NewCircuitBreaker cfg)) (phase_of b) in
  (forall now, let (e, b') := Allow b now in
     (e = None <-> (admit_call (phase_of b) now).1 = true) /\ phase_of b' = (admit_call (phase_of b) now).2) /\
  (forall now resp err,
     (counts_as_failure resp err -> phase_of (Record_ b now resp err) = came_back now true) /\
     (~ counts_as_failure resp err -> phase_of (Record_ b now resp err) = came_back now false)).
Proof.
  intros Hr Hk. apply reached_ok in Hr as [Ht Hd Hc Ho Hh Hu]; [|lia]. cbv zeta. rewrite <- Ht, <- Hd. split.
  - intros now. unfold Allow, before_open, phase_of.
    destruct (openUntil (breaker s)) as [u|] eqn:Eu, (halfOpenInFlight (breaker s)) eqn:Eh; cbn [admit_call fst snd].
    + destruct (now <? u); rewrite ?Eu, ?Eh; done.
    + destruct (now <? u); cbn [fst snd openUntil halfOpenInFlight set_halfOpen]; rewrite ?Eu, ?Eh; done.
    + by destruct (Hh eq_refl).
    + by rewrite Eu.
  - intros now resp err. pose proof (shouldRetry_spec resp err) as Hf. unfold Record_, phase_of.
    destruct (shouldRetry resp err); (split; intros Hfail); try done; cbn [call_back]. unfold recordFailure.
    destruct (openUntil (breaker s)) as [u|] eqn:Eu, (halfOpenInFlight (breaker s)) eqn:Eh;
      cbn [openUntil halfOpenInFlight failures]; try done.
    + rewrite wrap64_small by lia.
      destruct (Z.leb_spec (failureThreshold (breaker s)) (failures (breaker s) + 1)); [done|].
      assert (Some u = None) by (apply Ho; lia). done.
    + by destruct (Hh eq_refl).
    + rewrite wrap64_small by lia. destruct (Z.leb_spec (failureThreshold (breaker s)) (failures (breaker s) + 1)) as [Hle|Hle].
      * by rewrite (proj2 (Z.ltb_ge _ _) Hle).
      * by rewrite (proj2 (Z.ltb_lt _ _) Hle).
Qed.

(** One call, at [now], that fails. *)
Lemma one_failure cfg now :
  reached cfg 2 (mkClient (recordFailure (NewCircuitBreaker cfg) now) 0 now).
Proof.
  change 2 with (0 + 1 + 1). eapply reached_step; [eapply reached_step; [apply (reached_start cfg now)|]|].
  - apply (step_granted _ 0 now); [lia|reflexivity].
  - apply (step_done _ 0 now now None (Some (OtherError "reset"))). lia.
Qed.

Lemma breaker_refines_witness :
  let cfg := mkBreakerConfig 1 10 in
  let failing := recordFailure (NewCircuitBreaker cfg) 5 in
  reached cfg 2 (mkClient failing 0 5) /\ phase_of failing = Open 15 /\
  (Allow failing 14).1 <> None /\ (Allow failing 15).1 = None /\ phase_of (Allow failing 15).2 = HalfOpen 15.
Proof.
  intros cfg failing. assert (reached cfg 2 (mkClient failing 0 5)) as Hr.
  { exact (one_failure cfg 5). }
  destruct (breaker_refines cfg 2 _ Hr ltac:(vm_compute; reflexivity)) as [Ha _].
  cbn [breaker] in Ha. split; [exact Hr|]. split; [reflexivity|]. split.
  - pose proof (Ha 14) as H14. destruct (Allow failing 14) as [e b']. cbn [fst]. intros ->.
    destruct H14 as [H14 _]. assert (false = true) as Hf by (apply H14; reflexivity). discriminate Hf.
  - pose proof (Ha 15) as H15. destruct (Allow failing 15) as [e b']. cbn [fst snd].
    destruct H15 as [He Hp]. split; [apply He; reflexivity|exact Hp].
Defined.

(** Calls in flight can all come back. *)
Lemma drain cfg k s :
  reached cfg k s -> exists s', reached cfg (k + Z.of_nat (inFlight s)) s' /\ rtc step s s' /\ inFlight s' = 0%nat /\
    clock s' = clock s.
Proof.
  destruct s as [b n t]. cbn [inFlight clock]. revert b k. induction n as [|n IH]; intros b k Hr.
  { exists (mkClient b 0 t). rewrite Z.add_0_r. split_and!; try done. }
  assert (step (mkClient b (S n) t) (mkClient (Record_ b t None None) n t)) as Hs by (apply step_done; lia).
  destruct (IH (Record_ b t None None) (k + 1)) as (s' & Hr' & Hs' & Hn & Hc).
  { eapply reached_step; [exact Hr|exact Hs]. }
  exists s'. split_and!; try done; [|by eapply rtc_l].
  replace (k + Z.of_nat (S n)) with (k + 1 + Z.of_nat n) by lia. exact Hr'.
Qed.

(** the breaker is never stuck.  From every state it can get to, once the calls
    out have come back - they can, and no matter how they do - and the duration is
    over, a call is let through; and if that call comes back well the breaker is
    closed, with no failures counted. *)
Theorem breaker_recovers (cfg : CircuitBreakerConfig) (k : Z) (s : client) :
  reached cfg k s -> failureThreshold (NewCircuitBreaker cfg) + k + Z.of_nat (inFlight s) < 2 ^ 63 ->
  (exists s', rtc step s s' /\ inFlight s' = 0%nat /\ clock s' = clock s /\
     forall now, clock s + openDuration (NewCircuitBreaker cfg) <= now -> exists b, Allow (breaker s') now = (None, b)) /\
  (inFlight s = 0%nat -> forall now, clock s + openDuration (NewCircuitBreaker cfg) <= now ->
     exists b, Allow (breaker s) now = (None, b) /\
       forall later resp err, shouldRetry resp err = false -> phase_of (Record_ b later resp err) = Closed 0).
Proof.
  intros Hr Hk. assert (forall k s, failureThreshold (NewCircuitBreaker cfg) + k < 2 ^ 63 -> reached cfg k s ->
    inFlight s = 0%nat -> forall now, clock s + openDuration (NewCircuitBreaker cfg) <= now ->
    exists b, Allow (breaker s) now = (None, b)) as Hallow.
  { clear. intros k s Hk Hr Hn now Hnow. apply reached_ok in Hr as [Ht Hd Hc Ho Hh Hu]; [|done].
    assert (halfOpenInFlight (breaker s) = false) as Eh.
    { destruct (halfOpenInFlight (breaker s)); [|done]. destruct (Hh eq_refl) as [_ ?]. lia. }
    unfold Allow, before_open. destruct (openUntil (breaker s)) as [u|] eqn:Eu; rewrite Eh; [|by eexists].
    specialize (Hu u eq_refl). destruct (Z.ltb_spec now u); [lia|]. by eexists. }
  split.
  - destruct (drain cfg k s Hr) as (s' & Hr' & Hs & Hn & Hc). exists s'. split_and!; try done.
    intros now Hnow. apply (Hallow (k + Z.of_nat (inFlight s)) s' ltac:(lia) Hr' Hn now). by rewrite Hc.
  - intros Hn now Hnow. destruct (Hallow k s ltac:(lia) Hr Hn now Hnow) as [b Hb]. exists b. split; [done|].
    intros later resp err He. unfold Record_. by rewrite He.
Qed.

Lemma breaker_recovers_witness :
  let cfg := mkBreakerConfig 1 10 in
  let failing := recordFailure (NewCircuitBreaker cfg) 5 in
  reached cfg 2 (mkClient failing 0 5) /\ (exists b, Allow failing 20 = (None, b)) /\ (Allow failing 14).1 <> None.
Proof.
  intros cfg failing. assert (reached cfg 2 (mkClient failing 0 5)) as Hr.
  { exact (one_failure cfg 5). }
  destruct (breaker_recovers cfg 2 _ Hr ltac:(vm_compute; reflexivity)) as [_ Hb].
  destruct (Hb eq_refl 20 ltac:(vm_compute; discriminate)) as (b & Hb' & _).
  split; [exact Hr|]. split; [exists b; exact Hb'|discriminate].
Defined.

(** A call the caller cancels counts as a good one: it closes an open breaker. *)
Example cancelled_probe_closes :
  let b := recordFailure (NewCircuitBreaker (mkBreakerConfig 1 10)) 5 in
  let probing := (Allow b 15).2 in
  phase_of probing = HalfOpen 15 /\ phase_of (Record_ probing 16 None (Some Canceled)) = Closed 0.
Proof. split; reflexivity. Qed.

(** A call that was out before the breaker opened and fails now ends the probe
    that is still out: a second probe is let through while the first is. *)
Example two_probes :
  let b := recordFailure (NewCircuitBreaker (mkBreakerConfig 1 10)) 5 in
  let probing := (Allow b 15).2 in
  let stale := Record_ probing 16 None (Some (OtherError "reset")) in
  (Allow probing 30).1 = Some ErrCircuitOpen /\ (Allow stale 30).1 = None.
Proof. split; reflexivity. Qed.
