(* ===== verification/StatementEffects.v ===== *)
(** The effects of the builders of a statement, given those of the aggregates of
    metrics: window expressions, GROUP BY and ORDER BY bind no argument, and no
    builder fails for used-up fuel unless an aggregate or a nested SELECT does. *)

From stdpp Require Import numbers.
From S2P Require Import Prelude GoStrings Values Dialect Semantic ReadOnly LogicalQuery PhysicalRef.
From S2P Require Import ExprParse Suggest Pii RowFilter CompileMonad Effects ExprCompile Calendar Joins.
From S2P Require Import Measures TextEffects FilterSQL SelectSQL Compiler.
From stdpp Require Import options.
#[local] Open Scope Z_scope.

Section Effects.
Context `{GoRuntime} `{MapOrder}.
Context {R : St -> St -> Prop} {E : St -> goerr -> Prop} `{HE : !Effect R E}.
Context (c : Comp) (model : SemanticModel) (dimMap : gmap string Dimension) (metricMap : gmap string Metric).
Context (resolver : SchemaResolver).
#[local] Abbreviation aggregate := (metricAggregate' c model dimMap metricMap resolver).
Context (Hagg : forall m, eff R E (aggregate m)).
#[local] Hint Resolve Hagg dimensionSQL_eff dimensionOutputSQL_eff aggregateExpr_eff compile_expr_eff : eff.

Lemma metricExpressionRef_agg_eff m e :
  eff R E (metricExpressionRef c model dimMap metricMap resolver aggregate m e).
Proof using HE Hagg. apply metricExpressionRef_eff. intros _ m' _. apply Hagg. Qed.
Lemma qualifyMetricExpression_agg_eff m e :
  eff R E (qualifyMetricExpression c model dimMap metricMap resolver aggregate m e).
Proof using HE Hagg. apply qualifyMetricExpression_eff. intros m' _. apply Hagg. Qed.
#[local] Hint Resolve metricExpressionRef_agg_eff qualifyMetricExpression_agg_eff : eff.

(** * Window expressions *)

Lemma checked_aggregate_eff m : eff R E (checked_aggregate c model dimMap metricMap resolver m).
Proof using HE Hagg. unfold checked_aggregate. eff_tac. Qed.
Lemma buildWindowHead_eff agg expr ast offset : eff R E (buildWindowHead c agg expr ast offset).
Proof using HE. unfold buildWindowHead. cbv zeta. eff_tac. Qed.
Lemma inheritWindowMetricFields_eff m agg expr ast :
  eff R E (inheritWindowMetricFields c metricMap resolver m agg expr ast).
Proof using HE. unfold inheritWindowMetricFields. cbv zeta. eff_tac. Qed.
Lemma buildWindowPartitionBy_eff l : eff R E (buildWindowPartitionBy c dimMap resolver l).
Proof using HE. unfold buildWindowPartitionBy. eff_tac. Qed.
Lemma buildWindowOrderBy_eff l : eff R E (buildWindowOrderBy c model dimMap metricMap resolver l).
Proof using HE Hagg. unfold buildWindowOrderBy. eff_tac. Qed.
#[local] Hint Resolve checked_aggregate_eff buildWindowHead_eff inheritWindowMetricFields_eff
  buildWindowPartitionBy_eff buildWindowOrderBy_eff : eff.
Lemma finishWindowOver_eff head w : eff R E (finishWindowOver c model dimMap metricMap resolver head w).
Proof using HE Hagg. unfold finishWindowOver. cbv zeta. eff_tac. Qed.
#[local] Hint Resolve finishWindowOver_eff : eff.
Lemma tryBuildNestedMetricWindow_eff w agg :
  eff R E (tryBuildNestedMetricWindow c model dimMap metricMap resolver w agg).
Proof using HE Hagg. unfold tryBuildNestedMetricWindow. cbv zeta. eff_tac. Qed.
#[local] Hint Resolve tryBuildNestedMetricWindow_eff : eff.
Lemma buildWindowExpr_eff item : eff R E (buildWindowExpr c model dimMap metricMap resolver item).
Proof using HE Hagg. unfold buildWindowExpr. cbv zeta. eff_tac. Qed.
#[local] Hint Resolve buildWindowExpr_eff : eff.
Lemma buildSelectWindow_eff item : eff R E (buildSelectWindow c model dimMap metricMap resolver item).
Proof using HE Hagg. unfold buildSelectWindow. eff_tac. Qed.

(** * GROUP BY and ORDER BY *)

Lemma group_by_part_eff gb : eff R E (group_by_part c dimMap resolver gb).
Proof using HE. unfold group_by_part. eff_tac. Qed.
Lemma buildOrderByField_eff ob : eff R E (buildOrderByField c dimMap metricMap resolver ob).
Proof using HE. unfold buildOrderByField, buildOrderByDimension. eff_tac. Qed.
#[local] Hint Resolve group_by_part_eff buildOrderByField_eff : eff.
Lemma buildGroupBy_eff l : eff R E (buildGroupBy c dimMap resolver l).
Proof using HE. unfold buildGroupBy. eff_tac. Qed.
Lemma buildOrderBy_eff l : eff R E (buildOrderBy c dimMap metricMap resolver l).
Proof using HE. unfold buildOrderBy. eff_tac. Qed.

(** * HAVING, up to the binding of its values *)

Lemma having_part_fuel f agg n e : having_part c f agg n = Err e -> no_fuel e.
Proof using.
  unfold having_part. cbv zeta. destruct (str_in _ _).
  - unfold sqlComparator. repeat case_match; intros [= <-]; exact I.
  - repeat case_match; intros [= <-]; exact I.
Qed.
Lemma having_lhs_eff f m : eff R E (having_lhs c model dimMap metricMap resolver f m).
Proof using HE Hagg. unfold having_lhs. eff_tac. Qed.
#[local] Hint Resolve having_lhs_eff : eff.
Lemma having_loop_eff filters n : eff R E (having_loop c model dimMap metricMap resolver filters n).
Proof using HE Hagg.
  revert n. induction filters as [|f filters IH]; intros n; cbn [having_loop]; [apply eff_ret|].
  destruct (metricMap !! f_Field f); [|by apply eff_throw]. apply eff_bind; [auto with eff|]. intros agg.
  apply eff_bind; [apply eff_lift, having_part_fuel|]. intros [part vals].
  apply eff_bind; [apply IH|]. intros [parts args]. apply eff_ret.
Qed.
Lemma buildHaving_eff filters n : eff R E (buildHaving c model dimMap metricMap resolver filters n).
Proof using HE Hagg.
  unfold buildHaving. destruct filters; [apply eff_ret|]. apply eff_bind; [apply having_loop_eff|].
  intros [parts args]. apply eff_ret.
Qed.

(** * What binds arguments *)

Context `{HB : !Binding R}.
Context (subquery : SubqueryBody -> M string).

Lemma resolveFilterLHS_eff field : eff R E (resolveFilterLHS c model dimMap metricMap resolver field).
Proof using HE Hagg. unfold resolveFilterLHS. cbv zeta. eff_tac. Qed.
#[local] Hint Resolve resolveFilterLHS_eff : eff.

Lemma sqlComparator_fuel op e : sqlComparator op = Err e -> no_fuel e.
Proof using. unfold sqlComparator. repeat case_match; intros [= <-]; exact I. Qed.
Lemma dateTruncCompareExpr_fuel d p r op n e : dateTruncCompareExpr d p r op n = Err e -> no_fuel e.
Proof using.
  unfold dateTruncCompareExpr. cbv zeta. destruct (negb _); [by intros [= <-]|].
  destruct (sqlComparator op) as [s|e'] eqn:Es; cbn [res_bind]; [done|]. intros [= <-]. by eapply sqlComparator_fuel.
Qed.
Lemma calendarGrainFilterExpr_eff d f dim : eff R E (calendarGrainFilterExpr d f dim resolver).
Proof using HE HB.
  unfold calendarGrainFilterExpr. eff_tac. apply eff_lift, dateTruncCompareExpr_fuel.
Qed.
Lemma rawDateDayFilterExpr_eff d f dim : eff R E (rawDateDayFilterExpr d f dim resolver).
Proof using HE HB. unfold rawDateDayFilterExpr. eff_tac. apply eff_lift, sqlComparator_fuel. Qed.
#[local] Hint Resolve calendarGrainFilterExpr_eff rawDateDayFilterExpr_eff : eff.

(** The nested SELECTs of a filter. *)
Definition filter_ok (f : Filter) : Prop :=
  match f_Subquery f with Some sq => eff R E (subquery (sf_Body sq)) | None => True end.

Lemma buildInValues_eff kw what lhs v : eff R E (buildInValues c kw what lhs v).
Proof using HE HB. unfold buildInValues. eff_tac. Qed.
Lemma buildFilterPart_eff f lhs : filter_ok f -> eff R E (buildFilterPart c subquery f lhs).
Proof using HE HB.
  unfold filter_ok. intros Hf.
  assert (forall positive sq, f_Subquery f = Some sq -> eff R E (buildInSubqueryFilter subquery lhs sq positive)) as Hs.
  { intros positive sq Esq. rewrite Esq in Hf. unfold buildInSubqueryFilter. eff_tac. }
  unfold buildFilterPart. cbv zeta.
  repeat match goal with |- eff _ _ (if String.eqb (f_Operator f) ?o then _ else _) =>
    destruct (String.eqb (f_Operator f) o) end;
    unfold buildEqualityFilter, buildComparisonFilter, buildLikeFilter, buildInOperatorFilter,
      buildNotInOperatorFilter, buildBetweenFilter; cbv zeta;
    try (destruct (f_Subquery f) eqn:Es; [by apply Hs|by apply buildInValues_eff]); eff_tac.
Qed.

Lemma buildFilter_eff f : filter_ok f -> eff R E (buildFilter c model dimMap metricMap resolver subquery f).
Proof using HE HB Hagg.
  intros Hf. pose proof (fun lhs => buildFilterPart_eff f lhs Hf) as Hp.
  unfold buildFilter, dayOfMonthGrainFilterExpr. cbv zeta. eff_tac.
Qed.
Lemma buildFilterConjunction_eff filters :
  Forall filter_ok filters -> eff R E (buildFilterConjunction c model dimMap metricMap resolver subquery filters).
Proof using HE HB Hagg.
  intros Hf. unfold buildFilterConjunction. destruct filters as [|f filters]; [apply eff_ret|].
  apply eff_bind; [|intros; apply eff_ret]. apply eff_mapM. eapply Forall_impl; [exact Hf|]. apply buildFilter_eff.
Qed.
Lemma buildPredicate_eff filters :
  Forall filter_ok filters -> eff R E (buildPredicate c model dimMap metricMap resolver subquery filters).
Proof using HE HB Hagg.
  intros Hf. unfold buildPredicate. destruct filters as [|f filters]; [by apply eff_throw|].
  apply eff_bind; [|intros; apply eff_ret]. apply eff_mapM. eapply Forall_impl; [exact Hf|]. intros f' Hf'.
  apply eff_bind; [apply resolveFilterLHS_eff|]. intros lhs. by apply buildFilterPart_eff.
Qed.
Lemma metricFilteredAggregate_eff m filters :
  Forall filter_ok filters -> eff R E (metricFilteredAggregate c model dimMap metricMap resolver subquery m filters).
Proof using HE HB Hagg.
  intros Hf. unfold metricFilteredAggregate. cbv zeta. destruct (negb _); [by apply eff_throw|].
  apply eff_bind; [by apply buildFilterConjunction_eff|]. intros cond. eff_tac.
Qed.

(** * Select items *)

Definition measure_ok (m : MeasureRef) : Prop := Forall filter_ok (m_Filters m).
Definition item_ok (item : SelectItem) : Prop :=
  Forall filter_ok (s_Filters item) /\
  (forall cs, s_Case item = Some cs -> Forall (fun br => Forall filter_ok (br_When br)) (c_Branches cs)) /\
  (forall fo, s_Formula item = Some fo -> measure_ok (fo_Left fo) /\ measure_ok (fo_Right fo)).

Lemma measureSQL_eff m : measure_ok m -> eff R E (measureSQL c model dimMap metricMap resolver subquery m).
Proof using HE HB Hagg.
  intros Hok. unfold measureSQL. destruct (metricMap !! m_Metric m) as [metric|]; [|by apply eff_throw].
  revert Hok. unfold measure_ok. destruct (m_Filters m); intros Hok; [auto with eff|]. apply metricFilteredAggregate_eff. exact Hok.
Qed.
Lemma buildCaseThen_eff t : eff R E (buildCaseThen c dimMap resolver t).
Proof using HE HB. unfold buildCaseThen, formatLiteral. cbv zeta. eff_tac. Qed.
Lemma buildCaseExpr_eff item : item_ok item -> eff R E (buildCaseExpr c model dimMap metricMap resolver subquery item).
Proof using HE HB Hagg.
  intros (_ & Hc & _). unfold buildCaseExpr. cbv zeta. destruct (s_Case item) as [cs|]; [|by apply eff_throw].
  specialize (Hc cs eq_refl). revert Hc. destruct (c_Branches cs) as [|br brs]; intros Hc; [by apply eff_throw|].
  apply eff_bind.
  - apply eff_mapiM. eapply Forall_impl; [exact Hc|]. intros b Hb i. cbn beta in Hb. unfold case_branch.
    revert Hb. destruct (br_When b); intros Hb; [by apply eff_throw|]. apply eff_bind; [by apply eff_wrapping, buildPredicate_eff|].
    intros pred. apply eff_bind; [apply eff_wrapping, buildCaseThen_eff|]. intros; apply eff_ret.
  - intros parts. apply eff_bind; [|intros; apply eff_ret]. destruct (c_Else cs); [|apply eff_ret].
    apply eff_bind; [apply eff_wrapping, buildCaseThen_eff|]. intros; apply eff_ret.
Qed.

Lemma buildSelectItem_eff item : item_ok item -> eff R E (buildSelectItem c model dimMap metricMap resolver subquery item).
Proof using HE HB Hagg.
  intros Hok. pose proof Hok as (Hf & _ & Hfo). unfold buildSelectItem.
  destruct (String.eqb _ _); [unfold buildSelectDimension; eff_tac|].
  destruct (String.eqb _ _).
  { unfold buildSelectMetric. cbv zeta. destruct (metricMap !! _); [|by apply eff_throw].
    destruct (derivedSource c); [apply eff_ret|]. revert Hf. destruct (s_Filters item); intros Hf; [eff_tac|].
    apply eff_bind; [by apply metricFilteredAggregate_eff|]. intros; apply eff_ret. }
  destruct (String.eqb _ _); [apply buildSelectWindow_eff|].
  destruct (String.eqb _ _).
  { unfold buildSelectCase. apply eff_bind; [by apply buildCaseExpr_eff|]. intros. cbv zeta. eff_tac. }
  destruct (String.eqb _ _); [|apply eff_ret].
  unfold buildSelectFormula. cbv zeta. destruct (s_Formula item) as [fo|]; [|by apply eff_throw].
  destruct (Hfo fo eq_refl) as [Hl Hr]. destruct (str_empty _); [by apply eff_throw|].
  apply eff_bind; [by apply measureSQL_eff|]. intros l. apply eff_bind; [by apply measureSQL_eff|]. intros r. eff_tac.
Qed.

Lemma buildSelect_eff items :
  Forall item_ok items -> eff R E (buildSelect c model dimMap metricMap resolver subquery items).
Proof using HE HB Hagg.
  intros Hok. unfold buildSelect. apply eff_bind; [|intros; apply eff_ret]. apply eff_mapM.
  eapply Forall_impl; [exact Hok|]. apply buildSelectItem_eff.
Qed.

Lemma buildRowFilterPreds_eff filters : eff R E (buildRowFilterPreds c model filters).
Proof using HE HB.
  unfold buildRowFilterPreds. destruct filters as [|f filters]; [apply eff_ret|].
  apply eff_bind; [apply eff_len_args|]. intros n. apply eff_bind.
  - apply eff_lift. intros e. apply BuildRowFilterPredicates_fuel.
  - intros [preds extra]. eff_tac.
Qed.
End Effects.
