(* ===== verification/Placeholders.v ===== *)
(** The builders of SQL text look at placeholders in no way but to print them:
    each is the rendering of a template that does not depend on how the dialect
    spells placeholders, and the template mentions exactly the arguments bound
    while it was built.

    [spell ph c] is the compiler [c] with the placeholders spelled by [ph].  The
    masking strategy is taken to be the default one, as the application
    configures it: a custom strategy is given the whole dialect.

    The second part has the statement and its clauses, and the theorem of the compiler: the
    placeholders of a compiled query and its arguments match. *)

From stdpp Require Import numbers.
From S2P Require Import Prelude GoStrings Values Dialect Semantic ReadOnly LogicalQuery PhysicalRef ExprParse Suggest Pii RowFilter CompileMonad Effects ExprCompile Calendar Joins Measures TextEffects FilterSQL SelectSQL Compiler StatementEffects.
From stdpp Require Import options.

#[local] Open Scope Z_scope.

Definition spell (ph : Z -> string) (c : Comp) : Comp :=
  mkComp (with_placeholder (dialect c) ph) (pii c) (rowFilters c) (derivedSource c).

Definition default_masking (cfg : option PIIMaskingConfig) : Prop :=
  match cfg with Some cfg => Strategy cfg = None | None => True end.

(** Proves that a method that renders text without placeholders does not depend
    on their spelling: both sides compute to the same. *)
Ltac by_computation :=
  match goal with Hd : default_masking (pii ?c) |- _ =>
    destruct c as [? [[? ? ? ? ?]|] ? ?]; cbn in Hd; [rewrite Hd; clear Hd|]; reflexivity
  end.

Section Spelling.
Context `{GoRuntime} `{MapOrder} (c : Comp) (Hm : default_masking (pii c)).
Context (model : SemanticModel) (dimMap : gmap string Dimension) (metricMap : gmap string Metric).
Context (resolver : SchemaResolver).

Lemma dimensionSQL_spell ph dim : dimensionSQL (spell ph c) resolver dim = dimensionSQL c resolver dim.
Proof using Hm. by_computation. Qed.
Lemma dimensionOutputSQL_spell ph dim :
  dimensionOutputSQL (spell ph c) resolver dim = dimensionOutputSQL c resolver dim.
Proof using Hm. by_computation. Qed.
Lemma compile_expr_spell ph agg e : compile_expr (spell ph c) resolver agg e = compile_expr c resolver agg e.
Proof using Hm. by_computation. Qed.
Lemma resolveBracketExpressions_spell ph rec expr :
  resolveBracketExpressions (spell ph c) model dimMap metricMap resolver rec expr =
  resolveBracketExpressions c model dimMap metricMap resolver rec expr.
Proof using Hm. by_computation. Qed.
Lemma aggregateExpr_spell ph fn expr : aggregateExpr (spell ph c) fn expr = aggregateExpr c fn expr.
Proof using Hm. by_computation. Qed.
Lemma piiSQLForColumnRef_spell ph ref : piiSQLForColumnRef (spell ph c) resolver ref = piiSQLForColumnRef c resolver ref.
Proof using Hm. by_computation. Qed.

Lemma filterFieldHidden_spell ph dim : filterFieldHidden (spell ph c) resolver dim = filterFieldHidden c resolver dim.
Proof using Hm. by_computation. Qed.

(** The recursion through bracketed metrics. *)
Lemma resolveBracketExpressions_ext rec1 rec2 expr :
  (forall m, meq (rec1 m) (rec2 m)) ->
  meq (resolveBracketExpressions c model dimMap metricMap resolver rec1 expr)
      (resolveBracketExpressions c model dimMap metricMap resolver rec2 expr).
Proof using.
  intros Hrec. unfold resolveBracketExpressions. destruct (String.eqb expr "*"); [done|].
  apply meq_bind; [|done]. destruct (has_byte "[" expr); [|done]. apply meq_bind; [|done].
  apply meq_mapM. intros [s|token]; [done|]. cbn [resolve_part]. unfold resolveCustomToken. cbv zeta.
  destruct (first_fold _ dimMap); [done|]. destruct (first_fold _ metricMap); [apply Hrec|done].
Qed.

Lemma metricExpressionRef_ext ph rec1 rec2 m e :
  (forall m, meq (rec1 m) (rec2 m)) ->
  meq (metricExpressionRef (spell ph c) model dimMap metricMap resolver rec1 m e)
      (metricExpressionRef c model dimMap metricMap resolver rec2 m e).
Proof using Hm.
  intros Hrec. unfold metricExpressionRef. destruct (uses_tree m e) as [m'|]; [by rewrite compile_expr_spell|].
  cbv zeta. destruct (String.eqb _ _); [done|]. rewrite resolveBracketExpressions_spell.
  by apply resolveBracketExpressions_ext.
Qed.

Lemma qualifyMetricExpression_ext ph rec1 rec2 m e :
  (forall m, meq (rec1 m) (rec2 m)) ->
  meq (qualifyMetricExpression (spell ph c) model dimMap metricMap resolver rec1 m e)
      (qualifyMetricExpression c model dimMap metricMap resolver rec2 m e).
Proof using Hm.
  intros Hrec. unfold qualifyMetricExpression. destruct (uses_tree m e) as [m'|]; [by rewrite compile_expr_spell|].
  cbv zeta. destruct (String.eqb _ _); [done|]. rewrite resolveBracketExpressions_spell, !piiSQLForColumnRef_spell.
  destruct (has_byte _ _); [by apply resolveBracketExpressions_ext|done].
Qed.

Lemma metricAggregate_fuel_spell ph fuel m :
  meq (metricAggregate (spell ph c) model dimMap metricMap resolver fuel m)
      (metricAggregate c model dimMap metricMap resolver fuel m).
Proof using Hm.
  revert m. induction fuel as [|fuel IH]; intros m; cbn [metricAggregate]; [done|].
  unfold metricAggregate_body. apply meq_bind; [by apply metricExpressionRef_ext|]. intros e.
  destruct (met_Expr m); try (by rewrite aggregateExpr_spell). done.
Qed.
Lemma metricAggregate_spell ph m :
  meq (metricAggregate' (spell ph c) model dimMap metricMap resolver m)
      (metricAggregate' c model dimMap metricMap resolver m).
Proof using Hm. apply metricAggregate_fuel_spell. Qed.
End Spelling.

(** * Methods that bind no argument *)

Section Quiet.
Context `{GoRuntime} `{MapOrder} (c : Comp).
Context (model : SemanticModel) (dimMap : gmap string Dimension) (metricMap : gmap string Metric).
Context (resolver : SchemaResolver).

Lemma metricAggregate_quiet m : quiet (metricAggregate' c model dimMap metricMap resolver m).
Proof using.
  unfold metricAggregate'. generalize (metric_fuel metricMap). intros fuel. revert m.
  induction fuel as [|fuel IH]; intros m; cbn [metricAggregate]; [by intros st|].
  apply metricAggregate_body_eff. intros m' _. apply IH.
Qed.
Lemma qualify_quiet m e :
  quiet (qualifyMetricExpression c model dimMap metricMap resolver
           (metricAggregate' c model dimMap metricMap resolver) m e).
Proof using. apply qualifyMetricExpression_eff. intros m' _. apply metricAggregate_quiet. Qed.
Lemma metricExpressionRef_quiet m e :
  quiet (metricExpressionRef c model dimMap metricMap resolver
           (metricAggregate' c model dimMap metricMap resolver) m e).
Proof using. apply metricExpressionRef_eff. intros _ m' _. apply metricAggregate_quiet. Qed.
End Quiet.

(** * Filters *)

Lemma splices_template f : splices f ->
  exists pre posts, posts <> [] /\ forall i ph,
    f (ph i) = render ph (Txt pre :: flat_map (fun t => [Ph i; Txt t]) posts).
Proof.
  intros (pre & posts & Hne & Hf). exists pre, posts. split; [done|]. intros i ph. rewrite Hf, render_cons. f_equal.
  clear. induction posts as [|t posts IH]; [done|]. cbn [map Concat flat_map]. rewrite IH, render_app. f_equal.
  rewrite !render_cons, render_nil. cbn [render1]. by rewrite app_nil_r.
Qed.
Lemma phs_repeat i posts : posts <> [] ->
  forall j, j ∈ phs (flat_map (fun t => [Ph i; Txt t]) posts) <-> j ∈ [i].
Proof.
  intros Hne j. rewrite list_elem_of_singleton. destruct posts as [|t posts]; [done|]. clear Hne.
  revert t. induction posts as [|t' posts IH]; intros t; cbn [flat_map app phs]; rewrite elem_of_cons.
  - rewrite elem_of_nil. tauto.
  - rewrite (IH t'). tauto.
Qed.

Section Filters.
Context `{GoRuntime} `{MapOrder} (c : Comp) (Hm : default_masking (pii c)) (HL : DialectLaws (dialect c)).
Context (model : SemanticModel) (dimMap : gmap string Dimension) (metricMap : gmap string Metric).
Context (resolver : SchemaResolver).
Context (subquery : (Z -> string) -> SubqueryBody -> M string).
Context (Hsub : forall body, builds (fun ph => subquery ph body)).

Lemma hole_comparison lhs op : hole (fun p => lhs +:+ " " +:+ op +:+ " " +:+ p).
Proof using.
  exists (lhs +:+ " " +:+ op +:+ " "), "". split; [by apply app_nonempty_r|].
  intros p. by rewrite app_nil_r, !app_assoc.
Qed.
Lemma hole_caseSensitive name lhs op : hole (caseSensitiveComparison name lhs op).
Proof using.
  unfold caseSensitiveComparison. destruct (String.eqb name "mysql").
  { exists (lhs +:+ " " +:+ op +:+ " BINARY "), "". split; [by apply app_nonempty_r|].
    intros p. by rewrite app_nil_r, !app_assoc. }
  destruct (String.eqb name "sqlserver"); [|apply hole_comparison].
  exists (lhs +:+ " " +:+ op +:+ " "), " COLLATE Latin1_General_CS_AS". split; [by apply app_nonempty_r|].
  intros p. by rewrite !app_assoc.
Qed.
Lemma hole_like lhs cs : hole (fun p => likeExpression c lhs p cs).
Proof using HL.
  unfold likeExpression. destruct cs; [apply hole_caseSensitive|]. apply ILike_splices.
Qed.

(** One bound value in a text, alone or one per value of a list. *)
Lemma builds_hole v f : hole f -> builds (fun ph => do p <- bind_value (with_placeholder (dialect c) ph) v; ret (f p)).
Proof using. intros Hf st. by apply runs_hole. Qed.
Lemma builds_holes {X} (v : X -> gval) f (l : list X) pre sep post :
  (forall x, hole (f x)) -> pre <> "" ->
  builds (fun ph => do parts <- mapM (fun x => do p <- bind_value (with_placeholder (dialect c) ph) (v x); ret (f x p)) l;
                    ret (pre +:+ Join parts sep +:+ post)).
Proof using.
  intros Hf Hpre st. apply runs_bind. eapply runs_mono.
  - apply (runs_mapM solid (fun ph x => do p <- bind_value (with_placeholder (dialect c) ph) (v x); ret (f x p))).
    apply Forall_forall. intros x _ st1. by apply runs_hole.
  - intros a st' Ha. apply runs_ret. by eapply piece_join.
Qed.
Lemma builds_text s : s <> "" -> builds (fun _ => ret s).
Proof using. intros Hs st. by apply (runs_ret (fun _ => s)), piece_text. Qed.
Lemma builds_throw e : builds (fun _ => throw e).
Proof using. intros st. apply runs_throw. Qed.

Lemma builds_equality f lhs op sj : builds (fun ph => buildEqualityFilter (spell ph c) f lhs op sj).
Proof using.
  unfold buildEqualityFilter. cbv zeta. cbn [dialect spell with_placeholder Name].
  assert (hole (fun ph => if f_CaseSensitive f then caseSensitiveComparison (Name (dialect c)) lhs op ph
                          else lhs +:+ " " +:+ op +:+ " " +:+ ph)) as Hh.
  { destruct (f_CaseSensitive f); [apply hole_caseSensitive|apply hole_comparison]. }
  destruct (sliceOfStrings (f_Value f)) as [[|v vals]|]; [by apply builds_text| |by apply builds_hole].
  apply (builds_holes VStr (fun _ => _) (v :: vals)); [|done]. by intros _.
Qed.

Lemma builds_comparison f lhs op : builds (fun ph => buildComparisonFilter (spell ph c) f lhs op).
Proof using. apply builds_hole, hole_comparison. Qed.

Lemma builds_like f lhs wrap : builds (fun ph => buildLikeFilter (spell ph c) f lhs wrap).
Proof using HL.
  unfold buildLikeFilter. cbv zeta.
  destruct (sliceOfStrings (f_Value f)) as [[|v vals]|]; [by apply builds_text| |].
  - apply (builds_holes (fun s => VStr (wrap s)) (fun _ p => likeExpression c lhs p (f_CaseSensitive f)) (v :: vals)); [|done].
    intros _. apply hole_like.
  - exact (builds_hole _ _ (hole_like lhs (f_CaseSensitive f))).
Qed.

Lemma builds_in kw what lhs v : builds (fun ph => buildInValues (spell ph c) kw what lhs v).
Proof using.
  unfold buildInValues. destruct v as [| | | | | | | | | |vals| | |]; try apply builds_throw.
  intros st. apply runs_bind. eapply runs_mono.
  - apply (runs_mapM any_text (fun ph => bind_value (with_placeholder (dialect c) ph))). apply Forall_forall.
    intros x _ st1. apply runs_bind_value. exists [Ph (nargs st1 + 1)]. split_and!; [|done|apply covers_one].
    intros ph. by rewrite render_cons, render_nil, app_nil_r.
  - intros a st' Ha. apply runs_ret.
    apply (piece_join any_text _ st a st' (lhs +:+ " " +:+ kw +:+ " (") ", " ")") in Ha; [|by apply app_nonempty_r].
    destruct Ha as (T & HT & Hs & Hc). exists T. split; [|done]. intros ph. rewrite <- HT. by rewrite !app_assoc.
Qed.

Lemma builds_between lhs v : builds (fun ph => buildBetweenFilter (spell ph c) lhs v).
Proof using.
  unfold buildBetweenFilter. destruct v as [| | | | | | | | | |[|lo [|hi [|]]]| | |]; try apply builds_throw.
  intros st. apply runs_bind, runs_bind_value, runs_bind, runs_bind_value, runs_ret.
  set (st1 := set_args _ st).
  exists [Txt (lhs +:+ " BETWEEN "); Ph (nargs st + 1); Txt " AND "; Ph (nargs st1 + 1)]. split_and!.
  - intros ph. rewrite !render_cons, render_nil, app_nil_r. cbn [render1]. by rewrite !app_assoc.
  - apply solid_here. by apply app_nonempty_r.
  - apply (covers_app [_] [_] _ st1); apply covers_one.
Qed.

Lemma builds_in_subquery lhs sq positive : builds (fun ph => buildInSubqueryFilter (subquery ph) lhs sq positive).
Proof using Hsub.
  unfold buildInSubqueryFilter. destruct (str_empty _); [apply builds_throw|].
  intros st. apply runs_bind. eapply runs_mono; [apply Hsub|]. intros a st' Ha.
  destruct (b_Select (sf_Body sq)) as [|sel [|]]; try apply runs_throw.
  destruct (_ && _); [apply runs_throw|]. apply runs_ret.
  apply (piece_around solid _ _ _ (lhs +:+ " " +:+ (if positive then "IN" else "NOT IN") +:+ " (") ")") in Ha;
    [|by apply app_nonempty_r].
  destruct Ha as (T & HT & Hs & Hc). exists T. split; [|done]. intros ph. rewrite <- HT. by rewrite !app_assoc.
Qed.

Lemma builds_filter_part f lhs : builds (fun ph => buildFilterPart (spell ph c) (subquery ph) f lhs).
Proof using HL Hsub.
  unfold buildFilterPart. cbv zeta.
  repeat match goal with |- builds (fun ph => if String.eqb (f_Operator f) ?o then _ else _) =>
    destruct (String.eqb (f_Operator f) o) end;
  first [ apply builds_equality | apply builds_comparison | apply builds_like | apply builds_between
        | apply builds_throw | apply builds_text; by apply app_nonempty_r | idtac ].
  - unfold buildInOperatorFilter. destruct (f_Subquery f); [apply builds_in_subquery|apply builds_in].
  - unfold buildNotInOperatorFilter. destruct (f_Subquery f); [apply builds_in_subquery|apply builds_in].
Qed.

(** ** Calendar filters *)

Lemma builds_date_trunc grain ref op v :
  builds (fun ph =>
    do n <- len_args;
    do expr <- lift (dateTruncCompareExpr (with_placeholder (dialect c) ph) grain ref op (n + 1));
    do _ <- append_arg v;
    ret expr).
Proof using HL.
  intros st. apply runs_bind, runs_len_args, runs_bind. unfold dateTruncCompareExpr. cbv zeta.
  destruct (negb _); [apply runs_throw|].
  destruct (sqlComparator op) as [cmp|e]; cbn [res_bind]; [|apply runs_throw].
  apply runs_lift_ok. apply runs_bind, runs_append_arg, runs_ret.
  destruct (splices_template _ (DateTruncPlaceholder_splices (ToLower (TrimSpace grain)))) as (pre & posts & Hne & Hf).
  cbn [DateTruncPlaceholder DateTrunc Placeholder with_placeholder].
  set (lhs := DateTrunc (dialect c) (ToLower (TrimSpace grain)) ref).
  exists (Txt (lhs +:+ " " +:+ cmp +:+ " ") :: Txt pre :: flat_map (fun t => [Ph (nargs st + 1); Txt t]) posts). split_and!.
  - intros ph. rewrite Hf, (render_cons ph (Txt (lhs +:+ _))). cbn [render1]. by rewrite !app_assoc.
  - apply solid_here. by apply app_nonempty_r.
  - cbn [phs]. eapply covers_same, covers_one. by apply phs_repeat.
Qed.

Lemma runs_maybe (m : (Z -> string) -> M string) st :
  builds m -> runs (fun ph => do e <- m ph; ret (Some e)) st (maybe_piece st).
Proof using.
  intros Hb. apply runs_bind. eapply runs_mono; [apply Hb|]. intros a st' Ha. apply runs_ret. right. by exists a.
Qed.
Lemma runs_nothing st : runs (fun _ => ret None) st (maybe_piece st).
Proof using. apply (runs_ret (fun _ => None)). by left. Qed.

Lemma bind_assoc {A B C} (m : M A) (f : A -> M B) (g : B -> M C) st :
  bind (bind m f) g st = bind m (fun a => bind (f a) g) st.
Proof using. unfold bind. by destruct (m st) as [[a|e] st']. Qed.

Lemma runs_calendar f st :
  runs (fun ph => calendarGrainFilterExpr (dialect (spell ph c)) f (dimMap !! f_Field f) resolver) st (maybe_piece st).
Proof using HL.
  unfold calendarGrainFilterExpr. destruct (dimMap !! f_Field f) as [dim|]; [|apply runs_nothing].
  destruct (filter_grain dim f) as [grain|]; [|apply runs_nothing].
  destruct (calendarAnchorTime (f_Value f)) as [anchor|]; [|apply runs_throw].
  eapply runs_ext; [|apply runs_maybe, (builds_date_trunc grain (PhysicalColumnRef resolver (dim_ColumnRef dim))
    (f_Operator f) (VTime anchor))].
  intros ph. unfold bind, len_args, lift, append_arg, ret. cbn [dialect spell].
  by destruct (dateTruncCompareExpr (with_placeholder (dialect c) ph) grain
    (PhysicalColumnRef resolver (dim_ColumnRef dim)) (f_Operator f) (Z.of_nat (length (args st)) + 1)).
Qed.

Lemma runs_raw_date f st :
  runs (fun ph => rawDateDayFilterExpr (dialect (spell ph c)) f (dimMap !! f_Field f) resolver) st (maybe_piece st).
Proof using.
  unfold rawDateDayFilterExpr. destruct (dimMap !! f_Field f) as [dim|]; [|apply runs_nothing].
  destruct (negb _); [apply runs_nothing|]. cbv zeta. apply runs_bind, runs_lift_same. intros cmp _.
  pose (lhs := castColumnAsDate (dialect c) (PhysicalColumnRef resolver (dim_ColumnRef dim))).
  eapply runs_ext; [|apply runs_maybe, (builds_hole (f_Value f) _ (hole_comparison lhs cmp))].
  intros ph. cbn beta. by rewrite bind_assoc.
Qed.

Lemma runs_day f st :
  runs (fun ph => dayOfMonthGrainFilterExpr (spell ph c) dimMap resolver (subquery ph) f) st (maybe_piece st).
Proof using HL Hsub.
  unfold dayOfMonthGrainFilterExpr. destruct (dimMap !! f_Field f) as [dim|]; [|apply runs_nothing].
  destruct (negb _); [apply runs_nothing|]. cbv zeta.
  apply runs_maybe. exact (builds_filter_part f (CalendarPart (dialect c) TimeGrainDay
    (PhysicalColumnRef resolver (dim_ColumnRef dim)))).
Qed.

Lemma resolveFilterLHS_spell ph field :
  meq (resolveFilterLHS (spell ph c) model dimMap metricMap resolver field)
      (resolveFilterLHS c model dimMap metricMap resolver field).
Proof using Hm.
  unfold resolveFilterLHS. cbv zeta. cbn [derivedSource spell].
  destruct (_ && _); [done|]. destruct (dimMap !! field) as [dim|].
  - rewrite filterFieldHidden_spell, dimensionSQL_spell by done. by destruct (filterFieldHidden _ _ _).
  - destruct (metricMap !! field) as [m|]; [|done].
    apply qualifyMetricExpression_ext; [done|]. intros m'. by apply metricAggregate_spell.
Qed.
Lemma resolveFilterLHS_quiet field : quiet (resolveFilterLHS c model dimMap metricMap resolver field).
Proof using.
  unfold resolveFilterLHS. cbv zeta. destruct (_ && _); [apply eff_ret|].
  destruct (dimMap !! field) as [dim|].
  - destruct (filterFieldHidden _ _ _); [by apply eff_throw|apply dimensionSQL_eff].
  - destruct (metricMap !! field) as [m|]; [apply qualify_quiet|by apply eff_throw].
Qed.

(** The left-hand side, then the operator. *)
Lemma builds_plain_filter f :
  builds (fun ph => do colSQL <- resolveFilterLHS (spell ph c) model dimMap metricMap resolver (f_Field f);
                    buildFilterPart (spell ph c) (subquery ph) f colSQL).
Proof using Hm HL Hsub.
  intros st. apply runs_bind.
  eapply runs_quiet; [intros ph; apply resolveFilterLHS_spell|apply resolveFilterLHS_quiet|].
  intros lhs st1 Ha. eapply runs_mono; [apply builds_filter_part|]. intros a st2 (T & HT & Hs & Hc).
  exists T. split_and!; [done|done|]. by eapply covers_left.
Qed.

Lemma runs_or_else (m : (Z -> string) -> M (option string)) (k : (Z -> string) -> M string) st :
  runs m st (maybe_piece st) -> builds k ->
  runs (fun ph => do e <- m ph; match e with Some e => ret e | None => k ph end) st (piece st).
Proof using.
  intros Hr Hk. apply runs_bind. eapply runs_mono; [exact Hr|]. intros a st' [[Ha Hn]|(b & Hb & Hs)].
  - eapply runs_ext; [intros ph; by rewrite Hn|]. eapply runs_mono; [apply Hk|]. intros a' st2 (T & HT & Hs & Hc).
    exists T. split_and!; [done|done|]. by eapply covers_left.
  - eapply (runs_ext _ (fun ph => ret (b ph))); [intros ph; by rewrite Hs|]. by apply runs_ret.
Qed.

Lemma builds_filter f : builds (fun ph => buildFilter (spell ph c) model dimMap metricMap resolver (subquery ph) f).
Proof using Hm HL Hsub.
  intros st. unfold buildFilter.
  apply runs_or_else; [apply runs_day|]. intros st1.
  apply runs_or_else; [apply runs_calendar|]. intros st2.
  apply runs_or_else; [apply runs_raw_date|]. apply builds_plain_filter.
Qed.

Lemma builds_all (g : (Z -> string) -> Filter -> M string) filters sep :
  filters <> [] -> (forall f, builds (fun ph => g ph f)) ->
  builds (fun ph => do parts <- mapM (g ph) filters; ret (Join parts sep)).
Proof using.
  intros Hne Hg st. apply runs_bind. eapply runs_mono.
  - apply (runs_mapM solid g). apply Forall_forall. intros f _ st1. apply Hg.
  - intros a st' Ha. apply runs_ret. eapply piece_join_solid, Ha. by destruct filters.
Qed.

Lemma builds_conjunction filters :
  filters <> [] ->
  builds (fun ph => buildFilterConjunction (spell ph c) model dimMap metricMap resolver (subquery ph) filters).
Proof using Hm HL Hsub.
  intros Hne. unfold buildFilterConjunction. destruct filters as [|f filters]; [done|].
  apply builds_all; [done|]. intros f'. apply builds_filter.
Qed.
Lemma builds_predicate filters :
  builds (fun ph => buildPredicate (spell ph c) model dimMap metricMap resolver (subquery ph) filters).
Proof using Hm HL Hsub.
  unfold buildPredicate. destruct filters as [|f filters]; [apply builds_throw|].
  apply (builds_all (fun ph f => do colSQL <- resolveFilterLHS (spell ph c) model dimMap metricMap resolver (f_Field f);
                                 buildFilterPart (spell ph c) (subquery ph) f colSQL)); [done|].
  intros f'. apply builds_plain_filter.
Qed.
End Filters.

#[local] Open Scope Z_scope.

(** A builder whose text may be anything, the empty text included. *)
Definition builds_any (m : (Z -> string) -> M string) : Prop := forall st, runs m st (piece_of any_text st).

Lemma builds_weaken m : builds m -> builds_any m.
Proof. intros Hm st. eapply runs_mono; [apply Hm|]. intros a st' Ha. by eapply piece_mono_text. Qed.
Lemma piece_const st s st' : args st' = args st -> piece_of any_text st (fun _ => s) st'.
Proof.
  intros Ha. exists [Txt s]. split_and!; [|done|by apply covers_nil].
  intros ph. by rewrite render_cons, render_nil, app_nil_r.
Qed.
Lemma builds_any_quiet (m : (Z -> string) -> M string) m0 :
  (forall ph, meq (m ph) m0) -> quiet m0 -> builds_any m.
Proof. intros Hm Hq st. eapply runs_quiet; [exact Hm|exact Hq|]. intros s st' Ha. by apply piece_const. Qed.
Lemma piece_after P st a st' pre post :
  pre <> "" \/ post <> "" -> piece_of P st a st' -> piece st (fun ph => pre +:+ a ph +:+ post) st'.
Proof.
  intros Hne (T & HT & _ & Hc). exists (Txt pre :: T ++ [Txt post]). split_and!.
  - intros ph. rewrite render_cons, render_app, HT. cbn [render1]. by rewrite render_cons, render_nil, app_nil_r.
  - destruct Hne as [Hne|Hne]; [by apply solid_here|]. apply solid_later, solid_app_r. by apply solid_here.
  - cbn [phs]. rewrite phs_app. cbn [phs]. by rewrite List.app_nil_r.
Qed.
Lemma piece_ext P st a b st' : (forall ph, b ph = a ph) -> piece_of P st a st' -> piece_of P st b st'.
Proof. intros Hab (T & HT & HP & Hc). exists T. split_and!; [|done|done]. intros ph. by rewrite Hab, HT. Qed.
Lemma piece_left P st0 st a st' : args st0 = args st -> piece_of P st a st' -> piece_of P st0 a st'.
Proof. intros Ha (T & HT & HP & Hc). exists T. split_and!; [done|done|]. by eapply covers_left. Qed.
Lemma piece_right P st a st0 st' : args st0 = args st' -> piece_of P st a st' -> piece_of P st a st0.
Proof. intros Ha (T & HT & HP & Hc). exists T. split_and!; [done|done|]. by eapply covers_right. Qed.

(** Two texts one after the other. *)
Lemma piece_app P Q S st a st1 b st2 :
  (forall T U, P T -> Q U -> S (T ++ U)) -> piece_of P st a st1 -> piece_of Q st1 b st2 ->
  piece_of S st (fun ph => a ph +:+ b ph) st2.
Proof.
  intros HS (T & HT & HP & Hc) (U & HU & HQ & Hd). exists (T ++ U). split_and!.
  - intros ph. by rewrite render_app, HT, HU.
  - by apply HS.
  - rewrite phs_app. by eapply covers_app.
Qed.

Section Select.
Context `{GoRuntime} `{MapOrder} (c : Comp) (Hm : default_masking (pii c)) (HL : DialectLaws (dialect c)).
Context (model : SemanticModel) (dimMap : gmap string Dimension) (metricMap : gmap string Metric).
Context (resolver : SchemaResolver).
Context (subquery : (Z -> string) -> SubqueryBody -> M string).
Context (Hsub : forall body, builds (fun ph => subquery ph body)).
#[local] Abbreviation aggregate c := (metricAggregate' c model dimMap metricMap resolver).

Lemma checked_spell ph m :
  meq (checked_aggregate (spell ph c) model dimMap metricMap resolver m) (checked_aggregate c model dimMap metricMap resolver m).
Proof using Hm. unfold checked_aggregate. apply meq_bind; [by apply metricAggregate_spell|done]. Qed.
Lemma checked_quiet m : quiet (checked_aggregate c model dimMap metricMap resolver m).
Proof using. apply checked_aggregate_eff. intros m'. apply metricAggregate_quiet. Qed.

(** * Filtered aggregates *)

Lemma aggregateExpr_shape fn :
  str_in (ToLower (TrimSpace fn)) ["count"; "count_distinct"; "sum"; "avg"; "min"; "max"] = true ->
  exists pre, pre <> "" /\ forall t, t <> "*" -> aggregateExpr c fn t = ret (pre +:+ t +:+ ")").
Proof using.
  rewrite str_in_spec, !elem_of_cons, elem_of_nil. unfold aggregateExpr. cbv zeta.
  intros [Ef|[Ef|[Ef|[Ef|[Ef|[Ef|[]]]]]]]; rewrite Ef; cbn [str_in existsb String.eqb Ascii.eqb Bool.eqb orb andb].
  1: destruct (String.eqb (Name (dialect c)) "clickhouse"); [exists "count("|exists "COUNT("].
  3: destruct (String.eqb (Name (dialect c)) "clickhouse"); [exists "uniq("|exists "COUNT(DISTINCT "].
  5: destruct (String.eqb (Name (dialect c)) "clickhouse"); [exists "sum("|exists "SUM("].
  7: destruct (String.eqb (Name (dialect c)) "clickhouse"); [exists "avg("|exists "AVG("].
  9: destruct (String.eqb (Name (dialect c)) "clickhouse"); [exists "min("|exists "MIN("].
  11: destruct (String.eqb (Name (dialect c)) "clickhouse"); [exists "max("|exists "MAX("].
  all: split; [done|]; intros t Ht; try done.
  all: by destruct (String.eqb_spec t "*").
Qed.

Lemma builds_filtered m filters :
  filters <> [] ->
  builds (fun ph => metricFilteredAggregate (spell ph c) model dimMap metricMap resolver (subquery ph) m filters).
Proof using Hm HL Hsub.
  intros Hne st. unfold metricFilteredAggregate. cbv zeta.
  destruct (str_in (ToLower (TrimSpace (met_Aggregation m))) _) eqn:Ein; cbn [negb]; [|apply runs_throw].
  destruct (aggregateExpr_shape _ Ein) as (pre & Hpre & Hshape).
  apply runs_bind. eapply runs_mono; [by apply builds_conjunction|]. intros cond st1 (T & HT & Hs & Hc).
  apply (runs_if_false (fun ph => str_empty (cond ph))).
  { intros ph. apply String.eqb_neq. rewrite HT. by apply solid_render. }
  apply runs_bind. eapply runs_quiet.
  { intros ph. apply metricExpressionRef_ext; [done|]. intros m'. by apply metricAggregate_spell. }
  { apply metricExpressionRef_quiet. }
  intros expr st2 Ha2. apply runs_bind. eapply (runs_quiet _ check_cerr); [done|apply eff_check_cerr|].
  intros u st3 Ha3.
  pose (inner := if EqualFold (TrimSpace (met_Aggregation m)) "count" && String.eqb (TrimSpace expr) "*" then "1"
                 else match met_Expr m with NilExpr => QuoteIdent (dialect c) expr | _ => expr end).
  eapply (runs_ext _ (fun ph => do agg <- ret (pre +:+ ("CASE WHEN " +:+ cond ph +:+ " THEN " +:+ inner +:+ " END") +:+ ")");
    do _ <- check_cerr; ret agg)).
  { intros ph. rewrite aggregateExpr_spell, Hshape by done. done. }
  apply runs_bind, runs_ret, runs_bind. eapply (runs_quiet _ check_cerr); [done|apply eff_check_cerr|].
  intros u' st4 Ha4. apply runs_ret.
  apply (piece_left _ st st); [done|]. apply (piece_right _ _ _ st4 st1); [congruence|].
  eapply (piece_ext _ _ (fun ph => (pre +:+ "CASE WHEN ") +:+ cond ph +:+ (" THEN " +:+ inner +:+ " END)"))).
  { intros ph. by rewrite !app_assoc. }
  apply (piece_after solid); [left; by apply app_nonempty_l|]. by exists T.
Qed.

(** * Items *)

Lemma piece_item P st a st' alias :
  piece_of P st a st' -> piece st (fun ph => selectItemSQL (a ph) alias (dialect (spell ph c))) st'.
Proof using.
  intros Ha. eapply piece_ext; [|apply (piece_after P _ a _ "" (" AS " +:+ QuoteIdent (dialect c) alias)); [by right|done]].
  intros ph. reflexivity.
Qed.
Lemma builds_item m alias :
  builds_any m -> builds (fun ph => do e <- m ph; ret (selectItemSQL e alias (dialect (spell ph c)))).
Proof using.
  intros Hb st. apply runs_bind. eapply runs_mono; [apply Hb|]. intros a st' Ha. apply runs_ret. by eapply piece_item.
Qed.

Lemma builds_measure m : builds_any (fun ph => measureSQL (spell ph c) model dimMap metricMap resolver (subquery ph) m).
Proof using Hm HL Hsub.
  unfold measureSQL. destruct (metricMap !! m_Metric m) as [metric|]; [|intros st; apply runs_throw].
  destruct (m_Filters m) as [|f filters].
  - eapply builds_any_quiet; [intros ph; by apply checked_spell|apply checked_quiet].
  - by apply builds_weaken, builds_filtered.
Qed.

Lemma builds_dimension item : builds (fun ph => buildSelectDimension (spell ph c) dimMap resolver item).
Proof using Hm.
  unfold buildSelectDimension. cbv zeta. destruct (dimMap !! s_Name item) as [dim|]; [|apply builds_throw].
  cbn [derivedSource spell]. destruct (derivedSource c).
  - intros st. apply runs_ret.
    exact (piece_item any_text st (fun _ => derivedFieldSQL c (selectItemAlias (s_Alias item) (dim_Name dim))) st _
             (piece_const _ _ _ eq_refl)).
  - intros st. apply runs_bind. eapply runs_quiet; [intros ph; by rewrite dimensionOutputSQL_spell| |].
    { apply dimensionOutputSQL_eff. }
    intros s st1 Ha. apply runs_bind. eapply (runs_quiet _ check_cerr); [done|apply eff_check_cerr|]. intros u st2 Ha2.
    apply runs_ret. eapply (piece_item any_text _ (fun _ => s)). apply piece_const. congruence.
Qed.

Lemma builds_metric item :
  builds (fun ph => buildSelectMetric (spell ph c) model dimMap metricMap resolver (subquery ph) item).
Proof using Hm HL Hsub.
  unfold buildSelectMetric. cbv zeta. destruct (metricMap !! s_Name item) as [m|]; [|apply builds_throw].
  cbn [derivedSource spell]. destruct (derivedSource c).
  - intros st. apply runs_ret.
    exact (piece_item any_text st (fun _ => derivedFieldSQL c (selectItemAlias (s_Alias item) (met_Name m))) st _
             (piece_const _ _ _ eq_refl)).
  - destruct (s_Filters item) as [|f filters].
    + apply builds_item. eapply builds_any_quiet; [intros ph; by apply checked_spell|apply checked_quiet].
    + by apply builds_item, builds_weaken, builds_filtered.
Qed.

(** A formula prints its right measure once or twice, and its left measure once. *)
Lemma formulaSQL_shape op :
  (forall l r, formulaSQL op l r = None) \/
  exists x y posts, posts <> [] /\ forall l r,
    formulaSQL op l r = Some (x +:+ l +:+ y +:+ Concat (map (fun t => r +:+ t) posts)).
Proof using.
  unfold formulaSQL.
  destruct (String.eqb op FormulaOpAdd).
  { right. exists "", " + ", [""]. split; [done|]. intros l r. cbn [map Concat]. by rewrite !app_nil_r, app_nil_l. }
  destruct (String.eqb op FormulaOpSubtract).
  { right. exists "", " - ", [""]. split; [done|]. intros l r. cbn [map Concat]. by rewrite !app_nil_r, app_nil_l. }
  destruct (String.eqb op FormulaOpDivide).
  { right. exists "", " * 1.0 / NULLIF(", [", 0)"]. split; [done|]. intros l r. cbn [map Concat].
    by rewrite !app_nil_r, app_nil_l. }
  destruct (String.eqb op FormulaOpPercentOf).
  { right. exists "", " * 100.0 / NULLIF(", [", 0)"]. split; [done|]. intros l r. cbn [map Concat].
    by rewrite !app_nil_r, app_nil_l. }
  destruct (String.eqb op FormulaOpPercentChange); [|by left].
  right. exists "(", " - ", [") * 100.0 / NULLIF("; ", 0)"]. split; [done|]. intros l r. cbn [map Concat].
  by rewrite !app_nil_r, !app_assoc.
Qed.

Lemma repeat_template (U : list frag) posts : posts <> [] ->
  let T := flat_map (fun t => U ++ [Txt t]) posts in
  (forall ph, render ph T = Concat (map (fun t => render ph U +:+ t) posts)) /\
  (forall i, i ∈ phs T <-> i ∈ phs U).
Proof using.
  intros Hne T. subst T. split.
  - intros ph. clear Hne. induction posts as [|t posts IH]; [done|]. cbn [flat_map map Concat].
    rewrite !render_app, IH, render_cons, render_nil. cbn [render1]. by rewrite app_nil_r.
  - intros i. assert (i ∈ phs (flat_map (fun t => U ++ [Txt t]) posts) <-> posts <> [] /\ i ∈ phs U) as ->; [|tauto].
    clear Hne. induction posts as [|t posts IH]; cbn [flat_map].
    + split; [by intros ?%elem_of_nil|by intros [? _]].
    + rewrite !phs_app, !elem_of_app, IH. cbn [phs]. rewrite elem_of_nil. split; [|tauto]. intros Hi. split; [done|tauto].
Qed.

Lemma builds_formula item :
  builds (fun ph => buildSelectFormula (spell ph c) model dimMap metricMap resolver (subquery ph) item).
Proof using Hm HL Hsub.
  unfold buildSelectFormula. cbv zeta. destruct (s_Formula item) as [fo|]; [|apply builds_throw].
  destruct (str_empty _); [apply builds_throw|]. intros st.
  apply runs_bind. eapply runs_mono; [apply builds_measure|]. intros l st1 (T & HT & _ & Hc).
  apply runs_bind. eapply runs_mono; [apply builds_measure|]. intros r st2 (U & HU & _ & Hd).
  destruct (formulaSQL_shape (fo_Op fo)) as [Hnone|(x & y & posts & Hne & Hsome)].
  { apply (runs_ext _ (fun _ => throw (EMsg ("unsupported formula op: " +:+ Quote (fo_Op fo)))));
      [intros ph; by rewrite Hnone|apply runs_throw]. }
  apply (runs_ext _ (fun ph => ret (selectItemSQL
    (x +:+ ("(" +:+ l ph +:+ ")") +:+ y +:+ Concat (map (fun t => ("(" +:+ r ph +:+ ")") +:+ t) posts))
    (selectItemAlias (s_Alias item) (s_Name item)) (dialect (spell ph c)))));
    [intros ph; by rewrite Hsome|].
  apply runs_ret, (piece_item any_text st (fun ph =>
    x +:+ ("(" +:+ l ph +:+ ")") +:+ y +:+ Concat (map (fun t => ("(" +:+ r ph +:+ ")") +:+ t) posts))).
  destruct (repeat_template (Txt "(" :: U ++ [Txt ")"]) posts Hne) as [Hr Hi].
  set (V := flat_map _ posts) in *. exists (Txt x :: Txt "(" :: T ++ Txt ")" :: Txt y :: V). split_and!; [|done|].
  - intros ph. rewrite !render_cons, render_app, !render_cons, Hr, HT. cbn [render1].
    rewrite render_cons, render_app, render_cons, render_nil, HU. cbn [render1]. by rewrite app_nil_r, !app_assoc.
  - cbn [phs]. rewrite phs_app. cbn [phs]. eapply covers_app; [done|]. eapply covers_same, Hd. intros i.
    rewrite Hi. cbn [phs]. rewrite phs_app. cbn [phs]. by rewrite List.app_nil_r.
Qed.
End Select.

(** * Window expressions *)

Section Windows.
Context `{GoRuntime} `{MapOrder} (c : Comp) (Hm : default_masking (pii c)).
Context (model : SemanticModel) (dimMap : gmap string Dimension) (metricMap : gmap string Metric).
Context (resolver : SchemaResolver).

Lemma buildWindowHead_spell ph agg expr ast offset :
  buildWindowHead (spell ph c) agg expr ast offset = buildWindowHead c agg expr ast offset.
Proof using Hm. by_computation. Qed.
Lemma inheritWindowMetricFields_spell ph m agg expr ast :
  inheritWindowMetricFields (spell ph c) metricMap resolver m agg expr ast =
  inheritWindowMetricFields c metricMap resolver m agg expr ast.
Proof using Hm. by_computation. Qed.
Lemma buildWindowPartitionBy_spell ph l :
  buildWindowPartitionBy (spell ph c) dimMap resolver l = buildWindowPartitionBy c dimMap resolver l.
Proof using Hm. by_computation. Qed.
Lemma buildWindowOrderBy_spell ph l :
  meq (buildWindowOrderBy (spell ph c) model dimMap metricMap resolver l)
      (buildWindowOrderBy c model dimMap metricMap resolver l).
Proof using Hm.
  unfold buildWindowOrderBy. destruct l as [|ob l]; [done|]. apply meq_bind; [|done]. apply meq_mapM. intros o.
  apply meq_bind; [|done]. destruct (dimMap !! ob_Field o); [by rewrite dimensionSQL_spell|].
  destruct (metricMap !! ob_Field o); [by apply metricAggregate_spell|done].
Qed.
Lemma finishWindowOver_spell ph head w :
  meq (finishWindowOver (spell ph c) model dimMap metricMap resolver head w)
      (finishWindowOver c model dimMap metricMap resolver head w).
Proof using Hm.
  unfold finishWindowOver. rewrite buildWindowPartitionBy_spell. apply meq_bind; [done|]. intros partBy.
  apply meq_bind; [apply buildWindowOrderBy_spell|done].
Qed.
Lemma tryBuildNestedMetricWindow_spell ph w agg :
  meq (tryBuildNestedMetricWindow (spell ph c) model dimMap metricMap resolver w agg)
      (tryBuildNestedMetricWindow c model dimMap metricMap resolver w agg).
Proof using Hm.
  unfold tryBuildNestedMetricWindow. cbv zeta. destruct (str_empty _); [done|].
  destruct (metricMap !! _) as [m|]; [|done]. destruct (_ || _); [done|].
  apply meq_bind; [by apply checked_spell|]. intros inner. rewrite buildWindowHead_spell.
  apply meq_bind; [done|]. intros head. apply meq_bind; [apply finishWindowOver_spell|done].
Qed.
Lemma buildWindowExpr_spell ph item :
  meq (buildWindowExpr (spell ph c) model dimMap metricMap resolver item)
      (buildWindowExpr c model dimMap metricMap resolver item).
Proof using Hm.
  unfold buildWindowExpr. cbv zeta. destruct (s_Window item) as [w|]; [|done].
  apply meq_bind; [destruct (w_Expr w); by rewrite ?compile_expr_spell|]. intros [expr ast].
  rewrite inheritWindowMetricFields_spell. apply meq_bind; [done|]. intros [[agg expr'] ast'].
  apply meq_bind; [apply tryBuildNestedMetricWindow_spell|]. intros [sql|]; [done|].
  apply meq_bind.
  { destruct (_ && _); [|done]. apply metricExpressionRef_ext; [done|]. intros m. by apply metricAggregate_spell. }
  intros expr2. destruct (str_empty agg); [done|]. rewrite buildWindowHead_spell.
  apply meq_bind; [done|]. intros head. apply finishWindowOver_spell.
Qed.

Lemma builds_window item : builds (fun ph => buildSelectWindow (spell ph c) model dimMap metricMap resolver item).
Proof using Hm.
  unfold buildSelectWindow. apply (builds_item c). eapply builds_any_quiet; [intros ph; apply buildWindowExpr_spell|].
  apply buildWindowExpr_eff. intros m. apply metricAggregate_quiet.
Qed.
End Windows.

(** * CASE expressions and the list *)

Section List.
Context `{GoRuntime} `{MapOrder} (c : Comp) (Hm : default_masking (pii c)) (HL : DialectLaws (dialect c)).
Context (model : SemanticModel) (dimMap : gmap string Dimension) (metricMap : gmap string Metric).
Context (resolver : SchemaResolver).
Context (subquery : (Z -> string) -> SubqueryBody -> M string).
Context (Hsub : forall body, builds (fun ph => subquery ph body)).

Lemma builds_any_text (s : string) : builds_any (fun _ => ret s).
Proof using. intros st. by apply (runs_ret (fun _ => s)), piece_const. Qed.
Lemma builds_any_value v : builds_any (fun ph => bind_value (dialect (spell ph c)) v).
Proof using.
  intros st. apply runs_bind_value. exists [Ph (nargs st + 1)]. split_and!; [|done|apply covers_one].
  intros ph. by rewrite render_cons, render_nil, app_nil_r.
Qed.
Lemma builds_case_then t : builds_any (fun ph => buildCaseThen (spell ph c) dimMap resolver t).
Proof using Hm.
  unfold buildCaseThen. cbv zeta. destruct (str_in _ _).
  { destruct (str_empty _); [intros st; apply runs_throw|].
    destruct (dimMap !! ct_Dimension t) as [dim|]; [|intros st; apply runs_throw].
    eapply builds_any_quiet; [intros ph; by rewrite dimensionSQL_spell|apply dimensionSQL_eff]. }
  destruct (String.eqb _ _); [|intros st; apply runs_throw].
  destruct (ct_Literal t) as [|[]| | | | | | | | | | | |]; first [apply builds_any_text|apply builds_any_value].
Qed.

Lemma builds_case_branch i br :
  builds (fun ph => case_branch (spell ph c) model dimMap metricMap resolver (subquery ph) i br).
Proof using Hm HL Hsub.
  unfold case_branch. destruct (br_When br) as [|f filters]; [apply builds_throw|]. intros st.
  apply runs_bind, runs_wrapping. eapply runs_mono; [by apply builds_predicate|]. intros pred st1 Hp.
  apply runs_bind, runs_wrapping. eapply runs_mono; [apply builds_case_then|]. intros thn st2 Ht.
  apply runs_ret. eapply (piece_ext _ _ (fun ph => ("WHEN " +:+ pred ph +:+ "") +:+ (" THEN " +:+ thn ph +:+ ""))).
  { intros ph. by rewrite !app_nil_r, !app_assoc. }
  eapply (piece_app solid solid); [intros T U HT _; by apply solid_app_l|..].
  - eapply (piece_after solid); [by left|exact Hp].
  - eapply piece_after; [by left|exact Ht].
Qed.

Lemma runs_mapiM {X} (f : (Z -> string) -> Z -> X -> M string) i l st :
  (forall i x, builds (fun ph => f ph i x)) ->
  runs (fun ph => mapiM (f ph) i l) st (pieces_of solid (length l) st).
Proof using.
  intros Hf. revert i st. induction l as [|x l IH]; intros i st; cbn [mapiM].
  - apply runs_ret. exists []. split_and!; [done|constructor|done|by apply covers_nil].
  - apply runs_bind. eapply runs_mono; [apply Hf|]. intros a st1 (T & HT & Hs & Hc).
    apply runs_bind. eapply runs_mono; [apply IH|]. intros b st2 (Ts & HTs & Hss & Hlen & Hcs).
    apply runs_ret. exists (T :: Ts). split_and!.
    + intros ph. cbn [map]. by rewrite HT, HTs.
    + by constructor.
    + cbn [length]. lia.
    + cbn [map List.concat]. by eapply covers_app.
Qed.

Lemma builds_case item :
  builds (fun ph => buildCaseExpr (spell ph c) model dimMap metricMap resolver (subquery ph) item).
Proof using Hm HL Hsub.
  unfold buildCaseExpr. cbv zeta. destruct (s_Case item) as [cs|]; [|apply builds_throw].
  destruct (c_Branches cs) as [|br brs]; [apply builds_throw|]. intros st.
  apply runs_bind. eapply runs_mono.
  { apply (runs_mapiM (fun ph => case_branch (spell ph c) model dimMap metricMap resolver (subquery ph))).
    intros i b. apply builds_case_branch. }
  intros parts st1 (Ts & HT & Hs & _ & Hc). apply runs_bind.
  apply (runs_mono _ _ (fun a st2 => exists Us, Texts a Us /\ covers (List.concat (map phs Us)) st1 st2)).
  - destruct (c_Else cs) as [t|].
    + apply runs_bind, runs_wrapping. eapply runs_mono; [apply builds_case_then|]. intros a st2 (U & HU & _ & Hd).
      apply runs_ret. exists [Txt "ELSE " :: U]. split; [|by cbn; rewrite List.app_nil_r].
      intros ph. cbn [map]. by rewrite render_cons, HU.
    + apply (runs_ret (fun _ => [])). exists []. split; [done|by apply covers_nil].
  - intros otherwise st2 (Us & HU & Hd). apply runs_ret.
    exists (join_frags (([Txt "CASE"] :: Ts) ++ Us ++ [[Txt "END"]]) " "). split_and!.
    + intros ph. rewrite render_join, !map_app. cbn [map]. by rewrite HT, HU.
    + apply solid_join_head. by apply solid_here.
    + rewrite phs_join, !map_app, !concat_app. cbn [map phs List.concat app].
      rewrite List.app_nil_r. by eapply covers_app.
Qed.

Lemma builds_select_case item :
  builds (fun ph => buildSelectCase (spell ph c) model dimMap metricMap resolver (subquery ph) item).
Proof using Hm HL Hsub.
  unfold buildSelectCase. intros st. apply runs_bind. eapply runs_mono; [apply builds_case|]. intros a st' Ha. cbv zeta.
  destruct (str_empty _); [apply runs_throw|]. apply runs_ret. by apply (piece_item c solid).
Qed.

(** An item of an unknown type has no text; the others have. *)
Definition select_post (st : St) (a : (Z -> string) -> string) (st' : St) : Prop :=
  piece st a st' \/ (args st' = args st /\ forall ph, a ph = "").

Lemma runs_select_item item st :
  runs (fun ph => buildSelectItem (spell ph c) model dimMap metricMap resolver (subquery ph) item) st (select_post st).
Proof using Hm HL Hsub.
  assert (forall m, builds m -> runs m st (select_post st)) as Hb.
  { intros m Hb. eapply runs_mono; [apply Hb|]. intros a st' Ha. by left. }
  unfold buildSelectItem.
  destruct (String.eqb _ _); [by apply Hb, builds_dimension|].
  destruct (String.eqb _ _); [by apply Hb, builds_metric|].
  destruct (String.eqb _ _); [by apply Hb, builds_window|].
  destruct (String.eqb _ _); [by apply Hb, builds_select_case|].
  destruct (String.eqb _ _); [by apply Hb, builds_formula|].
  apply (runs_ret (fun _ => "")). by right.
Qed.

Lemma runs_select items st :
  runs (fun ph => buildSelect (spell ph c) model dimMap metricMap resolver (subquery ph) items) st
    (fun a st' => exists Ts, Texts a Ts /\ covers (List.concat (map phs Ts)) st st').
Proof using Hm HL Hsub.
  unfold buildSelect. revert st. induction items as [|item items IH]; intros st; cbn [mapM].
  { apply (runs_ret (fun _ => [])). exists []. split; [done|by apply covers_nil]. }
  eapply (runs_ext _ (fun ph =>
    do y <- buildSelectItem (spell ph c) model dimMap metricMap resolver (subquery ph) item;
    do ys <- (do parts <- mapM (buildSelectItem (spell ph c) model dimMap metricMap resolver (subquery ph)) items;
              ret (List.filter (fun part => negb (str_empty part)) parts));
    ret (if negb (str_empty y) then y :: ys else ys))).
  { intros ph. unfold bind. destruct (buildSelectItem _ _ _ _ _ _ _ _) as [[y|e] st1]; [|done].
    by destruct (mapM _ _ _) as [[ys|e] st2]. }
  apply runs_bind. eapply runs_mono; [apply runs_select_item|].
  intros a st1 [(T & HT & Hs & Hc)|[Ha He]]; apply runs_bind; (eapply runs_mono; [apply IH|]);
    intros b st2 (Ts & HTs & Hcs); apply runs_ret.
  - exists (T :: Ts). split; [|by eapply covers_app]. intros ph.
    assert (str_empty (a ph) = false) as -> by (apply String.eqb_neq; rewrite HT; by apply solid_render).
    cbn [negb map]. by rewrite HT, HTs.
  - exists Ts. split; [|by eapply covers_left]. intros ph. rewrite He. apply HTs.
Qed.
End List.
