(* ===== verification/Compiled.v ===== *)
(** What holds of every compiled query.

    The placeholders: the theorem the uniformity of the builders (Placeholders.v)
    leads to.  The indices mentioned in the SQL text are exactly those of the arguments,
    whatever subqueries, CTEs, filters, HAVING conditions and row filters the text was
    assembled from.

    The row filters: every SELECT the compiler emits - the query itself, each CTE, the FROM
    subquery, each filter subquery at any depth - has the predicates of the row filters in
    its WHERE clause, joined by AND to whatever the query's own filters are.

    The end: with as many units of fuel as nested SELECTs the compiler returns a query or a
    genuine error, provided no chain of bracketed metric references goes on for ever. *)

From stdpp Require Import numbers.
From S2P Require Import Prelude GoStrings Values Dialect Semantic ReadOnly LogicalQuery PhysicalRef ExprParse Suggest Pii RowFilter CompileMonad Effects ExprCompile Calendar Joins Measures TextEffects MeasuresTotal FilterSQL SelectSQL Compiler StatementEffects Placeholders.
From stdpp Require Import options.

#[local] Open Scope Z_scope.

(** * Clauses that may be absent *)

(** A clause is absent ([[]]) or has text of its own. *)
Definition clause (T : list frag) : Prop := T = [] \/ solid T.
Definition present (T : list frag) : bool := match T with [] => false | _ => true end.

Lemma clause_empty ph T : clause T -> str_empty (render ph T) = negb (present T).
Proof.
  intros [->|Hs]; [done|].
  assert (str_empty (render ph T) = false) as -> by by apply String.eqb_neq, solid_render.
  destruct T; [|done]. destruct Hs as (s & _ & Hin). by apply elem_of_nil in Hin.
Qed.
Lemma piece_clause st a st' : piece st a st' -> piece_of clause st a st'.
Proof. intros Ha. eapply piece_mono_text; [exact Ha|]. intros T HT. by right. Qed.
Lemma no_clause st st' : args st' = args st -> piece_of clause st (fun _ => "") st'.
Proof. intros Ha. exists []. split_and!; [done|by left|by apply covers_nil]. Qed.

(** The templates of the chunks [compileStatement] appends. *)
Definition titled_T (title : string) (T : list frag) : list frag := if present T then Txt title :: T else [].
Definition where_T (T : list frag) (preds : list (list frag)) : list frag :=
  match present T, preds with
  | false, [] => []
  | true, [] => Txt " WHERE " :: T
  | false, _ => Txt " WHERE " :: join_frags preds " AND "
  | true, _ => Txt " WHERE " :: T ++ Txt " AND " :: join_frags preds " AND "
  end.

Lemma render_titled ph title T : clause T -> Concat (titled title (render ph T)) = render ph (titled_T title T).
Proof.
  intros Hc. unfold titled, titled_T. rewrite clause_empty by done. destruct (present T); cbn [negb]; [|done].
  cbn [Concat]. by rewrite render_cons, app_nil_r.
Qed.
Lemma phs_titled title T : phs (titled_T title T) = phs T.
Proof. by destruct T. Qed.
Lemma render_where ph T preds :
  clause T -> Concat (where_chunks (render ph T) (map (render ph) preds)) = render ph (where_T T preds).
Proof.
  intros Hc. unfold where_chunks, where_T. rewrite clause_empty by done. rewrite negb_involutive.
  destruct preds as [|p preds]; cbn [map].
  - destruct (present T); [|done]. change (" WHERE " +:+ (render ph T +:+ "") = render ph (Txt " WHERE " :: T)).
    by rewrite render_cons, app_nil_r.
  - rewrite (bool_decide_eq_false_2 _ (fun He => nil_cons (eq_sym He))). rewrite orb_true_r.
    change (render ph p :: map (render ph) preds) with (map (render ph) (p :: preds)).
    rewrite <- (render_join ph (p :: preds) " AND "). destruct (present T); cbn [negb app Concat]; rewrite app_nil_r.
    + by rewrite render_cons, render_app, render_cons.
    + by rewrite render_cons.
Qed.
Lemma phs_where T preds : phs (where_T T preds) = phs T ++ List.concat (map phs preds).
Proof.
  rewrite <- (phs_join preds " AND "). unfold where_T. destruct T as [|f T]; cbn [present app].
  - by destruct preds.
  - destruct preds as [|p preds]; [by rewrite List.app_nil_r|]. cbn [phs].
    change (phs ((f :: T) ++ Txt " AND " :: join_frags (p :: preds) " AND ")
            = phs (f :: T) ++ phs (join_frags (p :: preds) " AND ")).
    by rewrite phs_app.
Qed.

Section Statement.
Context `{GoRuntime} `{MapOrder} (c : Comp) (Hm : default_masking (pii c)) (HL : DialectLaws (dialect c)).
Context (model : SemanticModel) (dimMap : gmap string Dimension) (metricMap : gmap string Metric).
Context (resolver : SchemaResolver).

(** * HAVING *)

Lemma having_part_spec f agg n :
  (exists e, forall ph, having_part (spell ph c) f agg n = Err e) \/
  exists T vals, (forall ph, having_part (spell ph c) f agg n = Ok (render ph T, vals)) /\ solid T /\
    phs T = fresh n (n + Z.of_nat (length vals)).
Proof using.
  unfold having_part. cbv zeta. destruct (str_in _ _).
  { destruct (sqlComparator (f_Operator f)) as [op|e]; cbn [res_map_err res_bind]; [right|left; by eexists].
    exists [Txt (agg +:+ " " +:+ op +:+ " "); Ph (n + 1)], [f_Value f]. split_and!.
    - intros ph. rewrite !render_cons, render_nil. cbn [render1 dialect spell Placeholder with_placeholder].
      by rewrite app_nil_r, !app_assoc.
    - apply solid_here. by apply app_nonempty_r.
    - cbn [phs length]. by rewrite fresh_one. }
  destruct (String.eqb _ _).
  { destruct (f_Value f) as [| | | | | | | | | |[|lo [|hi [|]]]| | |]; try (left; by eexists). right.
    exists [Txt (agg +:+ " BETWEEN "); Ph (n + 1); Txt " AND "; Ph (n + 1 + 1)], [lo; hi]. split_and!.
    - intros ph. rewrite !render_cons, render_nil. cbn [render1 dialect spell Placeholder with_placeholder].
      by rewrite app_nil_r, !app_assoc.
    - apply solid_here. by apply app_nonempty_r.
    - cbn [phs length]. rewrite (fresh_succ n) by lia. replace (n + Z.of_nat 2) with (n + 1 + 1) by lia.
      by rewrite fresh_one. }
  destruct (String.eqb _ _); [right|destruct (String.eqb _ _); [right|left; by eexists]].
  1: exists [Txt (agg +:+ " IS NULL")], []. 2: exists [Txt (agg +:+ " IS NOT NULL")], [].
  all: split_and!; [intros ph; by rewrite render_cons, render_nil, app_nil_r
                   |apply solid_here; by apply app_nonempty_r|cbn; by rewrite Z.add_0_r, fresh_same].
Qed.

Lemma having_lhs_spell ph f m :
  meq (having_lhs (spell ph c) model dimMap metricMap resolver f m) (having_lhs c model dimMap metricMap resolver f m).
Proof using Hm.
  unfold having_lhs. cbn [derivedSource spell]. destruct (derivedSource c); [done|]. by apply metricAggregate_spell.
Qed.

Lemma runs_having_loop filters n st :
  runs (fun ph => having_loop (spell ph c) model dimMap metricMap resolver filters n) st (fun a st' =>
    args st' = args st /\ exists Ts vals, (forall ph, a ph = (map (render ph) Ts, vals)) /\ Forall solid Ts /\
      length Ts = length filters /\ List.concat (map phs Ts) = fresh n (n + Z.of_nat (length vals))).
Proof using Hm.
  revert n st. induction filters as [|f filters IH]; intros n st; cbn [having_loop].
  { apply (runs_ret (fun _ => ([], []))). split; [done|]. exists [], []. split_and!; try done.
    cbn. by rewrite Z.add_0_r, fresh_same. }
  destruct (metricMap !! f_Field f) as [m|]; [|apply runs_throw].
  apply runs_bind. eapply runs_quiet; [intros ph; apply having_lhs_spell| |].
  { apply having_lhs_eff. intros m'. apply metricAggregate_quiet. }
  intros agg st1 Ha1. apply runs_bind.
  destruct (having_part_spec f agg n) as [[e He]|(T & vals & Hp & Hs & Hphs)].
  { apply (runs_ext _ (fun _ => throw e)); [intros ph; by rewrite He|apply runs_throw]. }
  apply (runs_ext _ (fun ph => lift (Ok (render ph T, vals)))); [intros ph; by rewrite Hp|].
  apply runs_lift_ok, runs_bind. eapply runs_mono; [apply IH|].
  intros a st2 (Ha2 & Ts & vs & Hts & Hss & Hlen & Hc).
  apply (runs_ext _ (fun ph => ret (render ph T :: map (render ph) Ts, vals ++ vs))); [intros ph; by rewrite Hts|].
  apply runs_ret. split; [congruence|]. exists (T :: Ts), (vals ++ vs). split_and!.
  - done.
  - by constructor.
  - cbn [length]. lia.
  - cbn [map List.concat]. rewrite Hphs, Hc, List.length_app.
    rewrite (fresh_app n (n + Z.of_nat (length vals)) (n + Z.of_nat (length vals + length vs))) by lia.
    do 2 f_equal. lia.
Qed.

(** HAVING with its values appended. *)
Lemma runs_having {A} filters st (k : (Z -> string) -> string -> M A) (Q : ((Z -> string) -> A) -> St -> Prop) :
  (forall a st', piece_of clause st a st' -> runs (fun ph => k ph (a ph)) st' Q) ->
  runs (fun ph => do n <- len_args;
                  do (havingClause, havingArgs) <- wrapping "build having"
                    (buildHaving (spell ph c) model dimMap metricMap resolver filters n);
                  do _ <- append_args havingArgs;
                  k ph havingClause) st Q.
Proof using Hm.
  intros Hk. apply runs_bind, runs_len_args, runs_bind, runs_wrapping. unfold buildHaving.
  assert (forall vals st', args st' = args st ->
    runs (fun _ : Z -> string => append_args vals) st' (fun _ st2 => args st2 = args st ++ vals)) as Happ.
  { intros vals st' Ha. right. eexists _, _. split; [done|]. cbn [args set_args]. by rewrite Ha. }
  destruct filters as [|f filters].
  { apply (runs_ret (fun _ => ("", []))), runs_bind. eapply runs_mono; [by apply Happ|]. intros u st2 Ha2. cbn beta in Ha2.
    apply (Hk (fun _ => "")), no_clause. by rewrite Ha2, List.app_nil_r. }
  apply runs_bind. eapply runs_mono; [apply runs_having_loop|]. intros a st1 (Ha1 & Ts & vals & Hts & Hss & Hlen & Hc).
  apply (runs_ext _ (fun ph => ret (Join (map (render ph) Ts) " AND ", vals))); [intros ph; by rewrite Hts|].
  apply runs_ret, runs_bind. eapply runs_mono; [by apply Happ|]. intros u st2 Ha2. cbn beta in Ha2.
  apply (Hk (fun ph => Join (map (render ph) Ts) " AND ")). exists (join_frags Ts " AND "). split_and!.
  - intros ph. by rewrite render_join.
  - right. apply solid_join; [|done]. destruct Ts; [by cbn in Hlen|done].
  - rewrite phs_join, Hc. unfold covers, nargs in *. rewrite Ha2, List.length_app, Nat2Z.inj_add. split; [lia|].
    intros i. by rewrite elem_of_fresh.
Qed.

(** * Row filters *)

Lemma runs_row_filters filters st :
  runs (fun ph => buildRowFilterPreds (spell ph c) model filters) st (fun a st' =>
    exists Ts vals, RowPreds (dialect c) (row_filter_fields model) true (nargs st) filters Ts vals /\
      Texts a Ts /\ args st' = args st ++ vals).
Proof using.
  unfold buildRowFilterPreds. destruct filters as [|f filters].
  { apply (runs_ret (fun _ => [])). exists [], []. split_and!; [constructor|done|by rewrite List.app_nil_r]. }
  apply runs_bind, runs_len_args, runs_bind. set (fs := f :: filters). set (dm := row_filter_fields model).
  destruct (BuildRowFilterPredicates (dialect c) (nargs st) dm fs true) as [[preds vals]|e] eqn:Eb.
  - pose proof Eb as (Ts & vals' & HT & _ & Hv)%row_loop_spec. cbn [length app] in HT, Hv. rewrite Z.add_0_r in HT.
    subst vals'.
    assert (forall ph, BuildRowFilterPredicates (dialect (spell ph c)) (nargs st) dm fs true =
                       Ok (map (render ph) Ts, vals)) as Hph.
    { intros ph. apply row_loop_spec. exists Ts, vals. cbn [length app]. rewrite Z.add_0_r. split_and!; try done.
      by apply RowPreds_spelling. }
    apply (runs_ext _ (fun ph => lift (Ok (map (render ph) Ts, vals)))); [intros ph; by rewrite Hph|].
    apply runs_lift_ok, runs_bind. right. exists (fun _ => tt), (set_args (args st ++ vals) st). split; [done|].
    apply runs_ret. by exists Ts, vals.
  - apply (runs_ext _ (fun _ => throw e)); [|apply runs_throw]. intros ph. unfold BuildRowFilterPredicates in *.
    unfold lift, throw. cbn [dialect spell]. by erewrite row_loop_spelling.
Qed.
End Statement.

(** * The statement *)

Section Compile.
Context `{GoRuntime} `{MapOrder}.

Lemma buildGroupBy_spell (c : Comp) (Hm : default_masking (pii c)) dimMap resolver ph l :
  buildGroupBy (spell ph c) dimMap resolver l = buildGroupBy c dimMap resolver l.
Proof using. by_computation. Qed.
Lemma buildOrderBy_spell (c : Comp) (Hm : default_masking (pii c)) dimMap metricMap resolver ph l :
  buildOrderBy (spell ph c) dimMap metricMap resolver l = buildOrderBy c dimMap metricMap resolver l.
Proof using. by_computation. Qed.

(** What a statement is, given the texts before SELECT and after FROM it is
    handed: two templates around the latter that mention, together, exactly the
    arguments bound while it was compiled. *)
Definition compiled (st : St) (withPrefix fromClause : (Z -> string) -> string)
    (a : (Z -> string) -> CompiledQuery) (st' : St) : Prop :=
  exists T1 T2,
    (forall ph, a ph = mkCompiled (withPrefix ph +:+ render ph T1 +:+ fromClause ph +:+ render ph T2) (args st') None) /\
    solid T1 /\ covers (phs T1 ++ phs T2) st st'.

(** The templates of [statement_chunks]. *)
Definition select_T (parts : list (list frag)) : list frag :=
  Txt "SELECT " :: join_frags parts ", " ++ [Txt " FROM "].
Definition rest_T (d : Dialect) (joinClauses : list string) (where_ : list frag) (preds : list (list frag))
    (groupBy : string) (having : list frag) (orderBy limit : string) : list frag :=
  Txt (Concat (List.concat (map (fun jc => [" "; jc]) joinClauses))) ::
  where_T where_ preds ++ Txt (Concat (titled " GROUP BY " groupBy)) ::
  titled_T " HAVING " having ++ [Txt (Concat (order_chunks d orderBy limit ++ titled " " limit))].

Lemma render_chunks d ph withPrefix parts from joins where_ preds groupBy having orderBy limit :
  clause where_ -> clause having ->
  Concat (statement_chunks d withPrefix (map (render ph) parts) from joins (render ph where_) (map (render ph) preds)
    groupBy (render ph having) orderBy limit) =
  withPrefix +:+ render ph (select_T parts) +:+ from +:+
    render ph (rest_T d joins where_ preds groupBy having orderBy limit).
Proof using.
  intros Hw Hh. unfold statement_chunks. rewrite !Concat_app. unfold select_T, rest_T.
  rewrite render_cons, !render_app, !render_cons, render_app, render_nil. cbn [render1].
  rewrite render_where, render_titled by done.
  rewrite (render_cons _ (Txt (Concat (titled _ _)))), render_app, render_cons, render_nil. cbn [Concat render1].
  rewrite Concat_app, <- render_join, !app_nil_r, !app_assoc. done.
Qed.

Lemma runs_statement (c : Comp) (model : SemanticModel) (subquery : (Z -> string) -> SubqueryBody -> M string)
    (lq : LogicalQuery) (fromClause withPrefix : (Z -> string) -> string) (filters : list RowFilter) st :
  default_masking (pii c) -> DialectLaws (dialect c) -> (forall body, builds (fun ph => subquery ph body)) ->
  runs (fun ph => statement (spell ph c) model (subquery ph) lq (fromClause ph) (withPrefix ph) filters) st
    (compiled st withPrefix fromClause).
Proof using.
  intros Hm HL Hsub. unfold statement. cbv zeta.
  set (lq' := EnsureGroupBySelected lq). set (dm := build_dimMap lq' model). set (mm := build_metricMap model).
  set (r := NewSchemaResolver model lq').
  apply runs_bind, runs_lift_same. intros [joins unreachable] _.
  apply runs_bind, runs_lift_same. intros _ _.
  apply runs_bind, runs_wrapping. eapply runs_mono; [by apply runs_select|]. intros sel st1 (Ts & HTs & Hc1).
  apply runs_bind, runs_wrapping. unfold buildWhere.
  apply (runs_mono _ _ (piece_of clause st1)).
  { destruct (Filters lq') as [|f fs] eqn:Ef.
    - apply (runs_ret (fun _ => "")). by apply no_clause.
    - eapply runs_mono; [by apply builds_conjunction|]. intros. by apply piece_clause. }
  intros wh st2 (W & HW & HWc & Hc2).
  apply runs_bind, runs_wrapping. eapply runs_quiet; [intros ph; by rewrite buildGroupBy_spell|apply buildGroupBy_eff|].
  intros group st3 Ha3.
  apply runs_having; [done|]. intros hav st4 (V & HV & HVc & Hc4).
  apply runs_bind, runs_wrapping. eapply runs_mono; [apply runs_row_filters|].
  intros preds st5 (Rs & vals & HR & HRs & Ha5).
  apply runs_bind, runs_wrapping. eapply runs_quiet; [intros ph; by rewrite buildOrderBy_spell|apply buildOrderBy_eff|].
  intros order st6 Ha6.
  apply runs_bind. right. exists (fun _ => args st6), st6. split; [done|]. apply runs_ret.
  exists (select_T Ts), (rest_T (dialect c) (buildJoins model r (dialect c) joins (build_joinMap model)) W Rs group V order
                           (LimitOffset (dialect c) (Limit lq') (Offset lq'))). split_and!.
  - intros ph. f_equal. rewrite <- render_chunks by done. by rewrite HTs, HW, HV, HRs.
  - by apply solid_here.
  - unfold select_T, rest_T. cbn [phs]. rewrite !phs_app, phs_join, phs_where. cbn [phs].
    rewrite phs_app, phs_titled. cbn [phs]. rewrite !List.app_nil_r.
    eapply covers_right; [exact Ha6|]. eapply covers_app; [exact Hc1|].
    eapply (covers_same (phs W ++ phs V ++ List.concat (map phs Rs))).
    { intros i. rewrite !elem_of_app. tauto. }
    eapply covers_app; [exact Hc2|]. eapply covers_left; [symmetry; exact Ha3|]. eapply covers_app; [exact Hc4|].
    rewrite (RowPreds_indices _ _ _ _ _ _ _ HR). unfold covers, nargs. rewrite Ha5, List.length_app, Nat2Z.inj_add.
    split; [lia|]. intros i. by rewrite elem_of_fresh.
Qed.

Lemma runs_compileStatement model fuel (c : Comp) lq fromClause withPrefix filters st :
  default_masking (pii c) -> DialectLaws (dialect c) ->
  runs (fun ph => compileStatement model fuel (spell ph c) lq (fromClause ph) (withPrefix ph) filters) st
    (compiled st withPrefix fromClause).
Proof using.
  intros Hm HL. revert c Hm HL lq fromClause withPrefix filters st.
  induction fuel as [|fuel IH]; intros c Hm HL lq fromClause withPrefix filters st; cbn [compileStatement];
    [apply runs_throw|].
  apply runs_on_copy. change (fun ph => statement (set_derived (derives lq) (spell ph c)) ?m ?s ?l ?f ?w ?r)
    with (fun ph => statement (spell ph (set_derived (derives lq) c)) m s l f w r).
  eapply runs_mono; [apply (runs_statement (set_derived (derives lq) c) model (fun ph => compileSubqueryBody
    (compileStatement model fuel) (spell ph (set_derived (derives lq) c)) model))|].
  all: try done.
  intros body st1. unfold compileSubqueryBody. apply runs_bind. eapply runs_mono.
  { apply (IH (set_derived (derives lq) c) Hm HL (logicalQueryFromBody body) (fun _ => buildFrom (dialect c) model)
      (fun _ => "") (rowFilters c) st1). }
  intros a st2 (T1 & T2 & Ha & Hs & Hc). apply runs_ret.
  exists (T1 ++ Txt (buildFrom (dialect c) model) :: T2). split_and!.
  - intros ph. rewrite Ha. cbn [SQL]. by rewrite render_app, render_cons, app_nil_l.
  - by apply solid_app_l.
  - rewrite phs_app. cbn [phs]. done.
Qed.

(** * WITH and FROM *)

Lemma builds_with (subquery : (Z -> string) -> SubqueryBody -> M string) d ctes st :
  (forall body, builds (fun ph => subquery ph body)) ->
  runs (fun ph => buildWithClause (subquery ph) (with_placeholder d ph) ctes) st (piece_of any_text st).
Proof using.
  intros Hsub. unfold buildWithClause. destruct ctes as [|cte ctes].
  { apply (runs_ret (fun _ => "")). by apply piece_const. }
  apply runs_bind. eapply runs_mono.
  - apply (runs_mapM any_text (fun ph => with_part (subquery ph) (with_placeholder d ph))). apply Forall_forall.
    intros x _ st1. unfold with_part. cbv zeta. destruct (str_empty _); [apply runs_throw|].
    apply runs_bind, runs_wrapping. eapply runs_mono; [apply Hsub|]. intros a st2 Ha. apply runs_ret.
    apply (piece_after _ _ _ _ (QuoteIdent d (TrimSpace (cte_Name x)) +:+ " AS (") ")") in Ha; [|by right].
    apply (piece_mono_text solid); [|by intros T _]. refine (piece_ext _ _ _ _ _ _ Ha). intros ph. cbn beta.
    rewrite !app_assoc. reflexivity.
  - intros a st' Ha. apply runs_ret. eapply piece_mono_text; [by eapply piece_join|by intros T _].
Qed.

Lemma builds_from (subquery : (Z -> string) -> SubqueryBody -> M string) d lq model st :
  (forall body, builds (fun ph => subquery ph body)) ->
  runs (fun ph => resolveFromClause (subquery ph) (with_placeholder d ph) lq model) st (piece_of any_text st).
Proof using.
  intros Hsub. unfold resolveFromClause. destruct (FromSubquery lq) as [body|].
  - apply runs_bind, runs_wrapping. eapply runs_mono; [apply Hsub|]. intros a st2 Ha. cbv zeta. apply runs_ret.
    set (alias := if str_empty (TrimSpace (FromAlias lq)) then "_sub" else TrimSpace (FromAlias lq)).
    apply (piece_after _ _ _ _ "(" (") AS " +:+ QuoteIdent d alias)) in Ha; [|by left].
    eapply piece_mono_text; [exact Ha|by intros T _].
  - cbv zeta. destruct (negb _).
    + apply runs_ret. exact (piece_const st (QuoteIdent d (TrimSpace (FromCTE lq))) st eq_refl).
    + apply runs_ret. exact (piece_const st (buildFrom d model) st eq_refl).
Qed.

(** * Queries *)

(** The text of a compiled query is the rendering of one template that mentions
    exactly its arguments. *)
Definition numbered (a : (Z -> string) -> CompiledQuery) : Prop :=
  exists T vals policy, (forall ph, a ph = mkCompiled (render ph T) vals policy) /\
    forall i, i ∈ phs T <-> 1 <= i <= Z.of_nat (length vals).

Lemma builds_subquery model fuel (c : Comp) body :
  default_masking (pii c) -> DialectLaws (dialect c) ->
  builds (fun ph => compileSubqueryBody (compileStatement model fuel) (spell ph c) model body).
Proof using.
  intros Hm HL st1. unfold compileSubqueryBody. apply runs_bind. eapply runs_mono.
  { apply (runs_compileStatement model fuel c (logicalQueryFromBody body) (fun _ => buildFrom (dialect c) model)
      (fun _ => "") (rowFilters c) st1 Hm HL). }
  intros a st2 (T1 & T2 & Ha & Hs & Hc). apply runs_ret.
  exists (T1 ++ Txt (buildFrom (dialect c) model) :: T2). split_and!.
  - intros ph. rewrite Ha. cbn [SQL]. by rewrite render_app, render_cons, app_nil_l.
  - by apply solid_app_l.
  - rewrite phs_app. cbn [phs]. done.
Qed.

Lemma runs_compile_query model fuel (c : Comp) lq filters st :
  default_masking (pii c) -> DialectLaws (dialect c) ->
  runs (fun ph => compile_query fuel (spell ph c) lq model filters) st (fun a _ => numbered a).
Proof using.
  intros Hm HL. unfold compile_query. cbv zeta.
  apply runs_bind. right. exists (fun _ => tt), (set_args [] st). split; [done|].
  apply runs_bind. eapply runs_mono; [apply builds_with; intros; by apply builds_subquery|].
  intros w st1 (W & HW & _ & Hc1).
  apply runs_bind. eapply runs_mono; [apply builds_from; intros; by apply builds_subquery|].
  intros f st2 (F & HF & _ & Hc2).
  apply runs_bind. eapply runs_mono; [by apply runs_compileStatement|].
  intros a st3 (T1 & T2 & Ha & _ & Hc3).
  apply runs_bind. eapply (runs_quiet _ check_cerr); [done|apply eff_check_cerr|]. intros u st4 _. apply runs_ret.
  exists (W ++ T1 ++ F ++ T2), (args st3), None. split.
  - intros ph. by rewrite Ha, !render_app, HW, HF.
  - pose proof (covers_app _ _ _ _ _ Hc1 (covers_app _ _ _ _ _ Hc2 Hc3)) as [_ Hc]. intros i.
    specialize (Hc i). rewrite !phs_app in *. rewrite !elem_of_app in *. unfold nargs in Hc. cbn in Hc.
    assert (1 <= i <= Z.of_nat (length (args st3)) <-> 0 < i <= Z.of_nat (length (args st3))) as -> by lia.
    rewrite <- Hc. tauto.
Qed.
End Compile.

Section Entry.
Context `{GoRuntime} `{MapOrder}.

Lemma numbered_policy a p : numbered a ->
  numbered (fun ph => mkCompiled (SQL (a ph)) (Args (a ph)) p).
Proof using.
  intros (T & vals & q & Ha & HT). exists T, vals, p. split; [|done]. intros ph. by rewrite Ha.
Qed.

Lemma runs_entry {A} (c : Comp) (ctx : bool) (k : Comp -> M A) st (Q : ((Z -> string) -> A) -> St -> Prop) :
  (forall st1, runs (fun ph => k (spell ph (set_derived false c))) st1 (fun a _ => forall st2, Q a st2)) ->
  runs (fun ph => on_copy (do comp <- withCompileCtx ctx (spell ph c); do _ <- check_cerr; k comp)) st Q.
Proof using.
  intros Hk. apply runs_on_copy, runs_bind. unfold withCompileCtx.
  assert (forall st1, runs (fun ph => do _ <- check_cerr; k (spell ph (set_derived false c))) st1
    (fun a st' => Q a (set_err (err st) st'))) as Hrest.
  { intros st1. apply runs_bind, runs_const. intros [] st2 _. eapply runs_mono; [apply Hk|]. auto. }
  destruct ctx.
  - apply (runs_ret (fun ph => spell ph (set_derived false c))), Hrest.
  - apply runs_bind, runs_const. intros [] st1 _. apply (runs_ret (fun ph => spell ph (set_derived false c))), Hrest.
Qed.

Lemma runs_Compile fuel (c : Comp) ctx lq model st :
  default_masking (pii c) -> DialectLaws (dialect c) ->
  runs (fun ph => Compile fuel (spell ph c) ctx lq model) st (fun a _ => numbered a).
Proof using.
  intros Hm HL. unfold Compile. destruct (negb ctx); [apply runs_throw|].
  apply (runs_entry c ctx (fun comp => compile_query fuel comp lq model (rowFilters comp))). intros st1.
  eapply runs_mono; [by apply (runs_compile_query model fuel (set_derived false c) lq (rowFilters c))|]. auto.
Qed.

Lemma runs_CompileWithPermissions fuel (c : Comp) ctx lq model filters piiConfig st :
  default_masking (pii c) -> default_masking piiConfig -> DialectLaws (dialect c) ->
  runs (fun ph => CompileWithPermissions fuel (spell ph c) ctx lq model filters piiConfig) st (fun a _ => numbered a).
Proof using.
  intros Hm Hp HL.
  assert (runs (fun ph => on_copy (
    do comp <- withCompileCtx ctx (spell ph (mkComp (dialect c) piiConfig filters false));
    do _ <- check_cerr;
    do cq <- compile_query fuel comp lq model filters;
    do (masked, hidden) <- match piiConfig with Some _ => get_record | None => ret ([], []) end;
    ret (mkCompiled (SQL cq) (Args cq) (buildPolicyDecisions filters model masked hidden)))) st
    (fun a _ => numbered a)) as Hmain.
  { apply (runs_entry (mkComp (dialect c) piiConfig filters false) ctx (fun comp =>
      do cq <- compile_query fuel comp lq model filters;
      do (masked, hidden) <- match piiConfig with Some _ => get_record | None => ret ([], []) end;
      ret (mkCompiled (SQL cq) (Args cq) (buildPolicyDecisions filters model masked hidden)))).
    intros st1. apply runs_bind. eapply runs_mono; [by apply runs_compile_query|]. intros a st2 Ha.
    apply runs_bind, runs_const. intros [masked hidden] st3 _. apply runs_ret. intros _. by apply numbered_policy. }
  unfold CompileWithPermissions. destruct filters as [|f filters]; [destruct piiConfig|]; try exact Hmain.
  by apply runs_Compile.
Qed.
End Entry.

Lemma spell_self (c : Comp) : spell (Placeholder (dialect c)) c = c.
Proof. by destruct c as [[] ? ? ?]. Qed.

(** A dialect that numbers its placeholders: PostgreSQL, SQL Server and Oracle. *)
Definition numbers_placeholders (d : Dialect) : Prop := exists p, forall i, Placeholder d i = p +:+ Itoa i.

Lemma render_ext ph ph' T : (forall i, ph i = ph' i) -> render ph T = render ph' T.
Proof. intros He. unfold render. f_equal. apply map_ext. intros []; [done|apply He]. Qed.

(** C1: on a dialect that numbers its placeholders, those of a compiled query and its arguments
    match, if masked columns are masked by the default strategy.  There is one template of
    the SQL text, of which the text at hand is the rendering - and, were placeholders spelled in
    any other way, so would be that text, with the same arguments and policy record: nothing in
    the compiler looks at a placeholder but to print it.  The numbers in the template are those
    of the arguments: each argument is mentioned, perhaps more than once, and no placeholder
    stands for an argument that is not there.  This covers CTEs, FROM and filter subqueries,
    CASE items, filtered measures, WHERE, HAVING and row filters.  (Where every placeholder is
    a question mark, the order and the number of them would have to be right too, and they are
    not always.) *)
Theorem compiled_placeholders `{GoRuntime} `{MapOrder} (fuel : nat) (d : concrete) (ctx : bool) (lq : LogicalQuery)
    (model : SemanticModel) (filters : list RowFilter) (piiConfig : option PIIMaskingConfig) (st : St)
    (cq : CompiledQuery) :
  let c := NewCompiler d in
  let compile c := (CompileWithPermissions fuel c ctx lq model filters piiConfig st).1 in
  numbers_placeholders (dialect c) -> default_masking piiConfig ->
  compile c = Ok cq ->
  exists p T, SQL cq = render (fun i => p +:+ Itoa i) T /\
    (forall i, i ∈ phs T <-> 1 <= i <= Z.of_nat (length (Args cq))) /\
    (forall ph, compile (spell ph c) = Ok (mkCompiled (render ph T) (Args cq) (Policy cq))).
Proof.
  intros c compile [p Hnum] Hp Hok. subst compile. cbv beta in *.
  destruct (runs_CompileWithPermissions fuel c ctx lq model filters piiConfig st I Hp (dialect_laws (Normalize d)))
    as [(e & st' & He)|(a & st' & Ha & T & vals & policy & HT & Hi)].
  { specialize (He (Placeholder (dialect c))). rewrite spell_self in He. by rewrite He in Hok. }
  pose proof (Ha (Placeholder (dialect c))) as Hc. rewrite spell_self in Hc. rewrite Hc, HT in Hok.
  injection Hok as <-. exists p, T. split_and!; [|exact Hi|].
  - cbn [SQL]. by apply render_ext.
  - intros ph. by rewrite Ha, HT.
Qed.

(** * Examples *)

Definition filtered_query : LogicalQuery :=
  mkLQ "v1" "d" "m" "" [plain_item SelectTypeDimension "region"; plain_item SelectTypeMetric "revenue"]
    [plain_filter "region" OpEq (VStr "EU")] [mkGroupBy "region" ""] [plain_filter "revenue" OpGt (VInt 5)]
    [mkOrderBy "revenue" "desc"] 10 0 [] None "" "" "" ∅.
Definition region_filter : RowFilter := mkRowFilter "region" "in" (VList [VStr "EU"; VStr "US"]).

Lemma compiled_placeholders_witness :
  let _ := demo_runtime in
  let _ := list_order in
  let c := NewCompiler Postgres in
  let compile c := (CompileWithPermissions 3 c true filtered_query example_model [region_filter] None start).1 in
  exists cq, compile c = Ok cq /\ exists p T, SQL cq = render (fun i => p +:+ Itoa i) T /\
    (forall i, i ∈ phs T <-> 1 <= i <= 4) /\
    (forall ph, compile (spell ph c) = Ok (mkCompiled (render ph T) (Args cq) (Policy cq))).
Proof.
  intros rt mo c compile.
  assert (exists cq, compile c = Ok cq /\ length (Args cq) = 4%nat) as (cq & Hc & Hl).
  { eexists. split; [vm_compute; reflexivity|reflexivity]. }
  exists cq. split; [exact Hc|].
  assert (numbers_placeholders (dialect c)) as Hn by (exists "$"; reflexivity).
  destruct (@compiled_placeholders rt mo 3 Postgres true filtered_query example_model [region_filter] None start cq
    Hn I Hc) as (p & T & HT & Hi & Hph).
  exists p, T. split; [exact HT|]. split; [|exact Hph]. intros i. rewrite Hi, Hl. reflexivity.
Defined.

(** On a dialect whose placeholders have no number the text must mention the
    arguments in order.  It does not: the values of HAVING are appended before
    those of the row filters, but WHERE comes before HAVING.  Here the row filter
    [region IN ('EU', 'US')] gets the value 5 of the HAVING condition. *)
Example positional_order :
  let _ := demo_runtime in
  let _ := list_order in
  let compile c := (CompileWithPermissions 3 c true filtered_query example_model [region_filter] None start).1 in
  let c := NewCompiler MySQL in
  let numbered i := "?" +:+ Itoa i in
  match compile c, compile (spell numbered c) with
  | Ok cq, Ok cq' =>
      Args cq = [VStr "EU"; VInt 5; VStr "EU"; VStr "US"] /\
      Contains (SQL cq) "WHERE `regions`.`name` = ? AND `regions`.`name` IN (?, ?)" = true /\
      Contains (SQL cq') "WHERE `regions`.`name` = ?1 AND `regions`.`name` IN (?3, ?4)" = true /\
      Contains (SQL cq') "HAVING SUM(`orders`.`amount`) > ?2" = true
  | _, _ => False
  end.
Proof. vm_compute. by split_and!. Qed.

#[local] Open Scope Z_scope.

(** The text of one SELECT with the predicates [preds] in its WHERE clause: the
    clause is the query's own condition, if it has one, and the predicates. *)
Definition where_text (own : string) (preds : list string) : string :=
  match preds with
  | [] => if str_empty own then "" else " WHERE " +:+ own
  | _ => " WHERE " +:+ (if str_empty own then "" else own +:+ " AND ") +:+ Join preds " AND "
  end.

(** [sql] is a SELECT on [fromClause] secured by [filters]; [vals] are the values
    bound for them, after [n] others. *)
Definition secured (d : Dialect) (model : SemanticModel) (filters : list RowFilter)
    (withPrefix fromClause sql : string) (n : Z) (vals : list gval) : Prop :=
  exists ts columns joins own rest,
    RowPreds d (row_filter_fields model) true n filters ts vals /\
    sql = withPrefix +:+ "SELECT " +:+ columns +:+ " FROM " +:+ fromClause +:+ joins +:+
          where_text own (map (render (Placeholder d)) ts) +:+ rest.

Lemma where_chunks_text own preds : Concat (where_chunks own preds) = where_text own preds.
Proof.
  unfold where_chunks, where_text. destruct preds as [|p preds].
  - destruct (str_empty own); [done|]. change (" WHERE " +:+ (own +:+ "") = " WHERE " +:+ own). by rewrite app_nil_r.
  - rewrite (bool_decide_eq_false_2 _ (fun He => nil_cons (eq_sym He))), orb_true_r.
    destruct (str_empty own); cbn [app Concat]; by rewrite ?app_nil_l, ?app_assoc, app_nil_r.
Qed.

Section Secured.
Context `{GoRuntime} `{MapOrder}.

Lemma buildRowFilterPreds_ok (c : Comp) model filters st preds st' :
  buildRowFilterPreds c model filters st = (Ok preds, st') ->
  exists ts vals, RowPreds (dialect c) (row_filter_fields model) true (nargs st) filters ts vals /\
    preds = map (render (Placeholder (dialect c))) ts /\ args st' = args st ++ vals.
Proof using.
  unfold buildRowFilterPreds. destruct filters as [|f filters].
  { intros [= <- <-]. exists [], []. split_and!; [constructor|done|by rewrite List.app_nil_r]. }
  intros Hb. bind_inv. unfold len_args, lift, append_args, ret in *. simplify_eq.
  destruct a0 as [ps extra]. bind_inv. simplify_eq. cbn [args set_args].
  match goal with Hr : BuildRowFilterPredicates _ _ _ _ _ = Ok _ |- _ => apply row_loop_spec in Hr as (ts & vals & HT & Hp & He) end.
  cbn [length app] in HT, Hp, He. rewrite Z.add_0_r in HT. subst. by exists ts, vals.
Qed.

Lemma statement_secured (c : Comp) model subquery lq from withPrefix filters st cq st' :
  statement c model subquery lq from withPrefix filters st = (Ok cq, st') ->
  args st' = Args cq /\ exists bound vals, Args cq = bound ++ vals /\
    secured (dialect c) model filters withPrefix from (SQL cq) (Z.of_nat (length bound)) vals.
Proof using.
  unfold statement. cbv zeta. intros Hb. bind_inv. destruct a as [joins un]. bind_inv. destruct a4 as [hav vals0].
  bind_inv.
  repeat match goal with Hw : wrapping _ _ _ = (Ok _, _) |- _ =>
    apply wrapping_ok in Hw end.
  match goal with Hr : buildRowFilterPreds _ _ _ ?s = (Ok _, _) |- _ =>
    apply buildRowFilterPreds_ok in Hr as (ts & vals & HT & Hp & Hvals) end.
  match goal with Ho : buildOrderBy ?c ?dm ?mm ?r ?l ?s1 = (Ok _, ?s2) |- _ =>
    pose proof (proj1 (buildOrderBy_eff (R := same_args) (E := any_error) c dm mm r l s1)) as Hq;
    rewrite Ho in Hq; unfold same_args in Hq; cbn [snd] in Hq end.
  unfold get_args, ret in *. simplify_eq. cbn [Args SQL].
  split; [done|]. match type of HT with RowPreds _ _ _ (nargs ?s) _ _ _ => exists (args s), vals end.
  split; [congruence|].
  eexists ts, _, _, a1, _. split; [done|]. by rewrite !Concat_app, where_chunks_text.
Qed.

Lemma compileStatement_secured model fuel (c : Comp) lq from withPrefix filters st cq st' :
  compileStatement model fuel c lq from withPrefix filters st = (Ok cq, st') ->
  args st' = Args cq /\ exists bound vals, Args cq = bound ++ vals /\
    secured (dialect c) model filters withPrefix from (SQL cq) (Z.of_nat (length bound)) vals.
Proof using.
  destruct fuel as [|fuel]; cbn [compileStatement]; [done|].
  intros (st1 & Hs & Ha)%on_copy_ok. rewrite Ha. by apply (statement_secured (set_derived (derives lq) c)) in Hs.
Qed.

(** The row filters a compilation applies: those of the call, or the compiler's
    own when the call brings neither row filters nor a masking policy. *)
Definition effective_filters (c : Comp) (filters : list RowFilter) (piiConfig : option PIIMaskingConfig)
    : list RowFilter :=
  match filters, piiConfig with [], None => rowFilters c | _, _ => filters end.

(** The text of a SELECT carries the predicates, whose values are the last of the arguments. *)
Definition carries (d : Dialect) (model : SemanticModel) (filters : list RowFilter) (withPrefix fromClause sql : string)
    (args : list gval) : Prop :=
  exists bound vals, args = bound ++ vals /\ secured d model filters withPrefix fromClause sql (Z.of_nat (length bound)) vals.

(** The compilation of one nested SELECT, those within it left to [inner]. *)
Definition one_select (comp : Comp) (model : SemanticModel) (filters : list RowFilter) (inner : SubqueryBody -> M string)
    (body : SubqueryBody) : M string :=
  do cq <- on_copy (statement comp model inner (logicalQueryFromBody body) (buildFrom (dialect comp) model) "" filters);
  ret (SQL cq).
(** What compiles nested SELECTS enforces the filters: it compiles none, or each with the
    filters, so that its text carries their predicates, and those within it with one that
    enforces them too. *)
Inductive Enforces (d : Dialect) (model : SemanticModel) (filters : list RowFilter) : (SubqueryBody -> M string) -> Prop :=
| Enforces_none nested : (forall body st, exists e, (nested body st).1 = Err e) -> Enforces d model filters nested
| Enforces_select comp inner nested :
    dialect comp = d -> Enforces d model filters inner ->
    (forall body st, nested body st = one_select comp model filters inner body st) ->
    (forall body st sql st', nested body st = (Ok sql, st') -> carries d model filters "" (buildFrom d model) sql (args st')) ->
    Enforces d model filters nested.

Lemma nested_enforces model fuel (c : Comp) :
  Enforces (dialect c) model (rowFilters c) (compileSubqueryBody (compileStatement model fuel) c model).
Proof using.
  revert c. induction fuel as [|fuel IH]; intros c; [apply Enforces_none; intros body st; by eexists|].
  apply (Enforces_select _ _ _ (set_derived false c) (compileSubqueryBody (compileStatement model fuel) (set_derived false c) model)); [done|exact (IH (set_derived false c))|done|].
  intros body st sql st' E. unfold compileSubqueryBody in E. bind_inv. injection E as <- <-.
  match goal with Hs : compileStatement _ _ _ _ _ _ _ _ = _ |- _ => apply compileStatement_secured in Hs as [-> Hs]; exact Hs end.
Qed.

(** A query compiled with the filters: its CTEs and its FROM clause by what enforces them, and
    the statement itself with them, its nested SELECTs by what enforces them. *)
Definition enforced (d : Dialect) (model : SemanticModel) (filters : list RowFilter) (lq : LogicalQuery) (sql : string)
    (arguments : list gval) : Prop :=
  exists nested comp inner withPrefix fromClause cq st0 st1 st2 st3,
    Enforces d model filters nested /\ Enforces d model filters inner /\ dialect comp = d /\
    buildWithClause nested d (CTEs lq) st0 = (Ok withPrefix, st1) /\
    resolveFromClause nested d lq model st1 = (Ok fromClause, st2) /\
    on_copy (statement comp model inner lq fromClause withPrefix filters) st2 = (Ok cq, st3) /\
    sql = SQL cq /\ arguments = Args cq /\ carries d model filters withPrefix fromClause sql arguments.

Lemma compile_query_enforced fuel (c : Comp) lq model st cq st' :
  compile_query fuel c lq model (rowFilters c) st = (Ok cq, st') -> enforced (dialect c) model (rowFilters c) lq (SQL cq) (Args cq).
Proof using.
  unfold compile_query. cbv zeta. intros Hb. bind_inv. unfold ret in Hb. injection Hb as <- <-.
  match goal with Hs : compileStatement _ _ _ _ ?f ?w _ ?s2 = (_, ?s3), Hw : buildWithClause _ _ _ ?s0 = (_, ?s1) |- _ =>
    pose proof (compileStatement_secured _ _ _ _ _ _ _ _ _ _ Hs) as [_ Hc]; destruct fuel as [|fuel]; [done|]; cbn [compileStatement] in Hs;
    exists (compileSubqueryBody (compileStatement model (S fuel)) c model), (set_derived (derives lq) c),
      (compileSubqueryBody (compileStatement model fuel) (set_derived (derives lq) c) model), w, f; eexists _, s0, s1, s2, s3 end.
  split; [apply nested_enforces|]. split; [apply (nested_enforces model fuel (set_derived (derives lq) c))|].
  split_and!; done.
Qed.

Lemma entry_enforced fuel (c : Comp) ctx lq model filters piiConfig st cq st' :
  CompileWithPermissions fuel c ctx lq model filters piiConfig st = (Ok cq, st') ->
  enforced (dialect c) model (effective_filters c filters piiConfig) lq (SQL cq) (Args cq).
Proof using.
  assert (forall c0 s a s', withCompileCtx ctx c0 s = (Ok a, s') -> a = set_derived false c0) as Hctx.
  { intros c0 s a s'. unfold withCompileCtx. destruct ctx; [by intros [= <- <-]|]. intros Hb. bind_inv.
    by injection Hb as <- <-. }
  assert (forall s, on_copy (
    do comp <- withCompileCtx ctx (mkComp (dialect c) piiConfig filters false);
    do _ <- check_cerr;
    do cq <- compile_query fuel comp lq model filters;
    do (masked, hidden) <- match piiConfig with Some _ => get_record | None => ret ([], []) end;
    ret (mkCompiled (SQL cq) (Args cq) (buildPolicyDecisions filters model masked hidden))) s = (Ok cq, st') ->
    enforced (dialect c) model filters lq (SQL cq) (Args cq)) as Hmain.
  { intros s (st1 & Hb & _)%on_copy_ok. bind_inv.
    match goal with Hw : withCompileCtx _ _ _ = _ |- _ => apply Hctx in Hw; subst end.
    match goal with Hq : compile_query _ ?c1 _ _ _ _ = _ |- _ => apply (compile_query_enforced fuel c1) in Hq end.
    destruct (a2 : list string * list string) as [masked hidden]. by injection Hb as <- <-. }
  unfold CompileWithPermissions, effective_filters. destruct filters as [|f fs]; [destruct piiConfig as [cfg|]|];
    try (by apply Hmain).
  unfold Compile. destruct (negb ctx); [done|]. intros (st1 & Hb & _)%on_copy_ok. bind_inv.
  match goal with Hw : withCompileCtx _ _ _ = _ |- _ => apply Hctx in Hw; subst end.
  by apply (compile_query_enforced fuel (set_derived false c)) in Hb.
Qed.
Lemma entry_secured fuel (c : Comp) ctx lq model filters piiConfig st cq st' :
  CompileWithPermissions fuel c ctx lq model filters piiConfig st = (Ok cq, st') ->
  exists withPrefix from bound vals, Args cq = bound ++ vals /\
    secured (dialect c) model (effective_filters c filters piiConfig) withPrefix from (SQL cq)
      (Z.of_nat (length bound)) vals.
Proof using.
  intros (nested & comp & inner & w & f & cq' & s0 & s1 & s2 & s3 & _ & _ & _ & _ & _ & _ & _ & _ & Hc)%entry_enforced. by exists w, f.
Qed.
End Secured.

(** C2: every SELECT the compiler emits for a query carries the row-level security predicates
    of the filters the query is compiled with - those of the call, or the compiler's own
    when the call brings neither row filters nor a masking policy.  The statement is a
    SELECT whose WHERE clause is its own condition, if it has one, AND the predicates of the
    filters on fields of the model, with their values bound as its last arguments.  So is,
    with the same filters, the text of every SELECT nested in it at any depth: those of the
    CTEs and of the FROM clause, those in the filters and the items of the statement, and
    those within these.  (The predicates follow the own condition as text: where that holds
    a raw expression with an OR at its top, they bind tighter.) *)
Theorem row_filters_enforced `{GoRuntime} `{MapOrder} (fuel : nat) (c : Comp) (model : SemanticModel)
    (filters : list RowFilter) (piiConfig : option PIIMaskingConfig) (ctx : bool) (lq : LogicalQuery) (st : St) :
  match CompileWithPermissions fuel c ctx lq model filters piiConfig st with
  | (Ok cq, _) => enforced (dialect c) model (effective_filters c filters piiConfig) lq (SQL cq) (Args cq)
  | (Err _, _) => True
  end.
Proof.
  destruct (CompileWithPermissions _ _ _ _ _ _ _ _) as [[cq|e] st'] eqn:E; [|done]. by eapply entry_enforced.
Qed.

#[local] Open Scope Z_scope.

(** * How deep SELECTs nest *)

#[local] Abbreviation deepest depth l := (fold_right (fun x n => Nat.max (depth x) n) 0%nat l).

(** The nesting of a SELECT with the given items and filters is the number of
    SELECTs one inside the other, itself included. *)
Fixpoint filter_depth (f : Filter) : nat :=
  match f with mkFilter _ _ _ _ sq => match sq with Some sq => subquery_depth sq | None => 0%nat end end
with subquery_depth (sq : SubqueryFilter) : nat :=
  match sq with mkSubqueryFilter body _ => body_depth body end
with body_depth (b : SubqueryBody) : nat :=
  match b with mkBody select filters _ _ _ _ _ => S (Nat.max (deepest item_depth select) (deepest filter_depth filters)) end
with item_depth (i : SelectItem) : nat :=
  match i with mkSelect _ _ _ filters case formula _ =>
    Nat.max (deepest filter_depth filters)
      (Nat.max (match case with Some c => case_depth c | None => 0%nat end)
               (match formula with Some f => formula_depth f | None => 0%nat end)) end
with case_depth (c : CaseExpr) : nat :=
  match c with mkCase branches _ => deepest branch_depth branches end
with branch_depth (b : CaseBranch) : nat :=
  match b with mkBranch filters _ => deepest filter_depth filters end
with formula_depth (f : FormulaSpec) : nat :=
  match f with mkFormula _ l r => Nat.max (measure_depth l) (measure_depth r) end
with measure_depth (m : MeasureRef) : nat :=
  match m with mkMeasure _ filters => deepest filter_depth filters end.

Definition statement_depth (lq : LogicalQuery) : nat :=
  S (Nat.max (deepest item_depth (Select lq)) (deepest filter_depth (Filters lq))).
Definition query_depth (lq : LogicalQuery) : nat :=
  Nat.max (statement_depth lq)
    (Nat.max (deepest body_depth (map Subquery (CTEs lq)))
             (match FromSubquery lq with Some body => body_depth body | None => 0%nat end)).

Lemma deepest_spec {A} (depth : A -> nat) l n :
  (deepest depth l <= n)%nat -> Forall (fun x => (depth x <= n)%nat) l.
Proof. induction l as [|x l IH]; cbn [fold_right]; intros Hn; constructor; [lia|apply IH; lia]. Qed.

(** The items [EnsureGroupBySelected] adds hold no nested SELECT. *)
Lemma EnsureGroupBySelected_items (P : SelectItem -> Prop) lq :
  (forall n, P (plain_item SelectTypeDimension n)) -> Forall P (Select lq) -> Forall P (Select (EnsureGroupBySelected lq)).
Proof.
  intros Hp Hl. rewrite EnsureGroupBySelected_cases. cbv zeta.
  destruct (missing_dims_spec (GroupBys lq) (selected_dims (Select lq))) as (names & Hm & _ & _).
  assert (Forall P (missing_dims (GroupBys lq) (selected_dims (Select lq)))) as Hmiss.
  { rewrite Hm. apply Forall_fmap. by apply Forall_true. }
  destruct (missing_dims _ _) as [|i missing]; [done|]. cbn [Select lq_set_Select].
  apply Forall_app. split; [by apply Forall_take|]. apply Forall_app. split; [done|by apply Forall_drop].
Qed.
Lemma EnsureGroupBySelected_Filters lq : Filters (EnsureGroupBySelected lq) = Filters lq.
Proof. rewrite EnsureGroupBySelected_cases. cbv zeta. by destruct (missing_dims _ _). Qed.

(** * References between the metrics of a model *)

Definition may_refer (model : SemanticModel) (m m' : Metric) : Prop :=
  met_Expr m = NilExpr /\ m' ∈ model_Metrics model /\
  exists token, PToken token ∈ split_brackets (TrimSpace (met_Expression m)) /\
    EqualFold (met_Name m') (TrimSpace token) = true.

(** No chain of references goes on for ever: no metric names itself, directly or
    through others. *)
Definition acyclic_metrics (model : SemanticModel) : Prop := forall m, Acc (flip (may_refer model)) m.

Section Total.
Context `{GoRuntime} `{MapOrder}.
#[local] Abbreviation fueled := (eff keeps_fueled fueled_error).

Lemma refers_may_refer model dimMap m m' : refers dimMap (build_metricMap model) m m' -> may_refer model m m'.
Proof using.
  intros (Hn & t & Ht & _ & Hf). unfold first_fold in Hf. destruct (List.find _ _) as [[k a]|] eqn:E; [|done].
  injection Hf as ->. apply find_some in E as [Hin He]. apply list_elem_of_In in Hin. rewrite range_perm in Hin.
  apply elem_of_map_to_list, map_by_inv in Hin as [Hin <-]. split; [done|]. split; [done|]. by exists t.
Qed.
Lemma acyclic_grounded model dimMap m : acyclic_metrics model -> grounded dimMap (build_metricMap model) m.
Proof using.
  intros Ha. specialize (Ha m). induction Ha as [m _ IH]. constructor. intros m' Hr. apply IH. by eapply refers_may_refer.
Qed.

Lemma aggregate_fueled (c : Comp) model dimMap metricMap resolver fuel m :
  succeeds (metricAggregate c model dimMap metricMap resolver fuel m) ->
  fueled (metricAggregate c model dimMap metricMap resolver fuel m).
Proof using.
  revert m. induction fuel as [|fuel IH]; intros m Hs; cbn [metricAggregate] in *.
  { exfalso. destruct (Hs start_state) as (a & st' & E). discriminate E. }
  apply metricAggregate_body_eff. intros m' Hr. apply IH.
  destruct (body_cases c model dimMap metricMap resolver _ (aggregate_cases c model dimMap metricMap resolver fuel) m)
    as [[_ Hm]|[Hm _]]; [by apply Hm|]. by destruct (succeeds_not_starves _ Hs).
Qed.

(** * Statements *)

Section Statement.
Context (model : SemanticModel) (Ha : acyclic_metrics model).

Lemma metrics_fueled (c : Comp) dimMap resolver m :
  fueled (metricAggregate' c model dimMap (build_metricMap model) resolver m).
Proof using Ha. by apply aggregate_fueled, grounded_succeeds, acyclic_grounded. Qed.

Section Nested.
Context (subquery : SubqueryBody -> M string) (n : nat).
Context (Hsub : forall body, (body_depth body <= n)%nat -> fueled (subquery body)).
#[local] Abbreviation filters_ok := (Forall (filter_ok (R := keeps_fueled) (E := fueled_error) subquery)).

Lemma filter_depth_ok f : (filter_depth f <= n)%nat -> filter_ok (R := keeps_fueled) (E := fueled_error) subquery f.
Proof using Hsub. destruct f as [fd op v cs [[body rf]|]]; cbn; [apply Hsub|done]. Qed.
Lemma filters_depth_ok l : (deepest filter_depth l <= n)%nat -> filters_ok l.
Proof using Hsub. intros Hl%deepest_spec. eapply Forall_impl; [exact Hl|]. apply filter_depth_ok. Qed.
Lemma item_depth_ok i : (item_depth i <= n)%nat -> item_ok (R := keeps_fueled) (E := fueled_error) subquery i.
Proof using Hsub.
  destruct i as [ty nm al filters case formula w]. cbn [item_depth]. intros Hn. split; [|split]; cbn [s_Filters s_Case s_Formula].
  - apply filters_depth_ok. lia.
  - intros [brs el] ->. cbn [case_depth c_Branches] in *.
    assert (deepest branch_depth brs <= n)%nat as Hb%deepest_spec by lia. eapply Forall_impl; [exact Hb|].
    intros [when thn] Hw. by apply filters_depth_ok.
  - intros [op [lm lf] [rm rf]] ->.
    cbn [formula_depth measure_depth] in Hn. split; apply filters_depth_ok; cbn [m_Filters fo_Left fo_Right]; lia.
Qed.

Lemma statement_fueled (c : Comp) lq from withPrefix filters :
  (statement_depth lq <= S n)%nat -> fueled (statement c model subquery lq from withPrefix filters).
Proof using Ha Hsub.
  unfold statement_depth. intros Hn. unfold statement. cbv zeta.
  set (lq' := EnsureGroupBySelected lq). set (dm := build_dimMap lq' model). set (r := NewSchemaResolver model lq').
  pose proof (metrics_fueled c dm r) as Hagg.
  apply eff_bind; [apply eff_lift, determineJoins_fuel|]. intros [joins un].
  apply eff_bind; [apply eff_lift, validateReachableTables_fuel|]. intros _.
  apply eff_bind; [apply eff_wrapping, buildSelect_eff; [exact Hagg|apply _|]|].
  { apply EnsureGroupBySelected_items; [intros nm; apply item_depth_ok; cbn; lia|].
    assert (deepest item_depth (Select lq) <= n)%nat as Hi%deepest_spec by lia.
    eapply Forall_impl; [exact Hi|]. apply item_depth_ok. }
  intros sel. apply eff_bind; [apply eff_wrapping, buildFilterConjunction_eff; [exact Hagg|apply _|]|].
  { unfold lq'. rewrite EnsureGroupBySelected_Filters. apply filters_depth_ok. lia. }
  intros wh. apply eff_bind; [apply eff_wrapping, buildGroupBy_eff|]. intros group.
  apply eff_bind; [apply eff_len_args|]. intros k.
  apply eff_bind; [by apply eff_wrapping, buildHaving_eff|]. intros [hav vals].
  apply eff_bind; [apply eff_append_args; apply _|]. intros _.
  apply eff_bind; [apply eff_wrapping, buildRowFilterPreds_eff; apply _|]. intros preds.
  apply eff_bind; [apply eff_wrapping, buildOrderBy_eff|]. intros order.
  apply eff_bind; [apply eff_get_args|]. intros. apply eff_ret.
Qed.
End Nested.

Lemma compileStatement_fueled fuel (c : Comp) lq from withPrefix filters :
  (statement_depth lq <= fuel)%nat -> fueled (compileStatement model fuel c lq from withPrefix filters).
Proof using Ha.
  revert c lq from withPrefix filters. induction fuel as [|fuel IH]; intros c lq from withPrefix filters Hn;
    [unfold statement_depth in Hn; lia|].
  cbn [compileStatement]. apply eff_on_copy, (statement_fueled _ fuel); [|done]. intros body Hb.
  unfold compileSubqueryBody. apply eff_bind; [|intros; apply eff_ret]. apply IH. by destruct body.
Qed.

Lemma compileSubqueryBody_fueled fuel (c : Comp) body :
  (body_depth body <= fuel)%nat -> fueled (compileSubqueryBody (compileStatement model fuel) c model body).
Proof using Ha.
  intros Hn. unfold compileSubqueryBody. apply eff_bind; [|intros; apply eff_ret].
  apply compileStatement_fueled. by destruct body.
Qed.

Lemma compile_query_fueled fuel (c : Comp) lq filters :
  (query_depth lq <= fuel)%nat -> fueled (compile_query fuel c lq model filters).
Proof using Ha.
  unfold query_depth. intros Hn. unfold compile_query. cbv zeta. apply eff_bind; [apply eff_fresh_args|]. intros _.
  apply eff_bind.
  { unfold buildWithClause. destruct (CTEs lq) as [|cte ctes] eqn:Ec; [apply eff_ret|].
    apply eff_bind; [|intros; apply eff_ret]. apply eff_mapM.
    assert (deepest body_depth (map Subquery (cte :: ctes)) <= fuel)%nat as Hc%deepest_spec by lia.
    apply Forall_fmap in Hc. eapply Forall_impl; [exact Hc|]. intros x Hx. unfold with_part. cbv zeta.
    destruct (str_empty _); [by apply eff_throw|]. apply eff_bind; [|intros; apply eff_ret].
    by apply eff_wrapping, compileSubqueryBody_fueled. }
  intros w. apply eff_bind.
  { unfold resolveFromClause. destruct (FromSubquery lq) as [body|].
    - apply eff_bind; [apply eff_wrapping, compileSubqueryBody_fueled; lia|]. intros; apply eff_ret.
    - cbv zeta. destruct (negb _); apply eff_ret. }
  intros f. apply eff_bind; [apply compileStatement_fueled; lia|]. intros cq.
  apply eff_bind; [apply eff_check_cerr|]. intros. apply eff_ret.
Qed.

Lemma CompileWithPermissions_fueled fuel (c : Comp) ctx lq filters piiConfig :
  (query_depth lq <= fuel)%nat -> fueled (CompileWithPermissions fuel c ctx lq model filters piiConfig).
Proof using Ha.
  intros Hn. assert (forall c0, fueled (withCompileCtx ctx c0)) as Hctx.
  { intros c0. unfold withCompileCtx. destruct ctx; [apply eff_ret|]. apply eff_bind; [by apply eff_set_cerr|].
    intros. apply eff_ret. }
  assert (forall c0 fs, fueled (on_copy (
    do comp <- withCompileCtx ctx c0;
    do _ <- check_cerr;
    do cq <- compile_query fuel comp lq model fs;
    do (masked, hidden) <- match piiConfig with Some _ => get_record | None => ret ([], []) end;
    ret (mkCompiled (SQL cq) (Args cq) (buildPolicyDecisions fs model masked hidden))))) as Hmain.
  { intros c0 fs. apply eff_on_copy, eff_bind; [apply Hctx|]. intros comp. apply eff_bind; [apply eff_check_cerr|].
    intros _. apply eff_bind; [by apply compile_query_fueled|]. intros cq.
    apply eff_bind; [destruct piiConfig; [apply eff_get_record|apply eff_ret]|]. intros [masked hidden]. apply eff_ret. }
  unfold CompileWithPermissions. destruct filters; [destruct piiConfig|]; try apply Hmain.
  unfold Compile. destruct (negb ctx); [by apply eff_throw|].
  apply eff_on_copy, eff_bind; [apply Hctx|]. intros comp. apply eff_bind; [apply eff_check_cerr|]. intros _.
  by apply compile_query_fueled.
Qed.
End Statement.
End Total.

(** C32: compiling comes to an end.  When no metric of the model names itself in
    brackets, directly or through other metrics, a compiler just made returns a
    query or a genuine error, for every query, policy and masking configuration:
    fuel for the depth to which the query nests SELECTs is enough. *)
Theorem compile_terminates `{GoRuntime} `{MapOrder} (d : concrete) (ctx : bool) (lq : LogicalQuery)
    (model : SemanticModel) (filters : list RowFilter) (piiConfig : option PIIMaskingConfig) (fuel : nat) :
  acyclic_metrics model -> (query_depth lq <= fuel)%nat ->
  match CompileWithPermissions fuel (NewCompiler d) ctx lq model filters piiConfig start with
  | (Ok _, _) => True
  | (Err e, _) => no_fuel e
  end.
Proof.
  intros Ha Hn. destruct (CompileWithPermissions_fueled model Ha fuel (NewCompiler d) ctx lq filters piiConfig Hn start)
    as [_ He].
  destruct (CompileWithPermissions _ _ _ _ _ _ _ _) as [[cq|e] st'] eqn:E; [done|]. by apply (He e).
Qed.

(** A query whose filter and whose FROM clause hold SELECTs. *)
Definition nested_query : LogicalQuery :=
  let body := mkBody [plain_item SelectTypeDimension "region"] [] [] [] [] 0 0 in
  mkLQ "v1" "d" "m" "" [plain_item SelectTypeDimension "region"]
    [mkFilter "region" OpIn VNil false (Some (mkSubqueryFilter body "region"))] [] [] [] 0 0 [] (Some body) "" "" "" ∅.

Lemma compile_terminates_witness :
  let _ := demo_runtime in
  let _ := list_order in
  acyclic_metrics example_model /\ query_depth nested_query = 2%nat /\
  match CompileWithPermissions 2 (NewCompiler Postgres) true nested_query example_model [] None start with
  | (Ok _, _) => True
  | (Err e, _) => no_fuel e
  end.
Proof.
  intros rt mo. assert (acyclic_metrics example_model) as Ha.
  { assert (forall m m', may_refer example_model m m' -> m ∉ model_Metrics example_model) as Hout.
    { intros m m' (_ & _ & t & Ht & _) Hm%list_elem_of_singleton. subst m. vm_compute in Ht.
      apply list_elem_of_In in Ht. cbn [In] in Ht. intuition discriminate. }
    intros m. constructor. intros m' Hr. constructor. intros m'' Hr'. exfalso. apply (Hout _ _ Hr').
    by destruct Hr as (_ & ? & _). }
  split; [exact Ha|]. split; [reflexivity|].
  apply (@compile_terminates rt mo Postgres true nested_query example_model [] None 2 Ha). vm_compute. lia.
Defined.
