(* ===== verification/PublishedCompile.v ===== *)
(** A model that passed the publish gate compiles: loading fills in the expression
    trees ([hydrateExpressionASTs], [internal/semantic/expression_ast.go]), and then
    no chain of bracketed metric references is left for the compiler to follow. *)

From S2P Require Import Prelude GoStrings Values Dialect Semantic LogicalQuery ExprParse ExprGrammar Pii RowFilter CompileMonad.
From S2P Require Import Joins Measures MeasuresTotal Composite Cycles Publish Compiler Compiled.
From stdpp Require Import options.
#[local] Open Scope Z_scope.

(** A parse that fails is logged, and leaves no tree. *)
Definition hydrate_dimension (parse : string -> res ExprNode) (d : Dimension) : Dimension :=
  match dim_CalculatedExpr d with
  | NilExpr =>
      let expr := TrimSpace (dim_CalculatedExpression d) in
      if str_empty expr then d
      else match parse expr with
      | Ok parsed =>
          mkDimension (dim_Name d) (dim_ColumnRef d) (dim_Type d) (dim_TimeGrain d) (dim_CalculatedExpression d) parsed
      | Err _ => d
      end
  | _ => d
  end.
Definition hydrate_metric (parse : string -> res ExprNode) (m : Metric) : Metric :=
  match met_Expr m with
  | NilExpr =>
      let expr := TrimSpace (met_Expression m) in
      if str_empty expr || String.eqb expr "*" then m
      else match parse expr with
      | Ok parsed => mkMetric (met_Name m) (met_Expression m) parsed (met_Aggregation m) (met_Label m) (met_Synonyms m) (met_Format m)
      | Err _ => m
      end
  | _ => m
  end.
Definition hydrateExpressionASTs (parser : option (string -> res ExprNode)) (model : SemanticModel) : SemanticModel :=
  match parser with
  | None => model
  | Some parse =>
      mkModel (model_ID model) (model_DatasourceID model) (model_Name model) (model_BaseSchema model)
        (model_BaseTable model) (model_Version model) (map (hydrate_dimension parse) (model_Dimensions model))
        (map (hydrate_metric parse) (model_Metrics model)) (model_Joins model) (model_Label model)
        (model_Description model) (model_Status model)
  end.

Section Published.
Context `{GoRuntime} `{MapOrder}.

Lemma parse_complete expr e : TrimSpace expr <> "" -> ParseExpression expr = Ok e -> e <> NilExpr.
Proof using.
  intros Hne Hp. pose proof (ParseExpression_returns expr) as Hr. rewrite Hp in Hr. destruct Hr as [_ [[? _]|Hc]]; [done|].
  intros ->. inversion Hc.
Qed.

(** After loading, a metric of a publishable model has a tree, or an expression
    without brackets. *)
Lemma hydrated_metric model columns m :
  metric_ok (Some ParseExpression) model columns m ->
  met_Expr (hydrate_metric ParseExpression m) <> NilExpr \/
  TrimSpace (met_Expression (hydrate_metric ParseExpression m)) ∈ [""; "*"].
Proof using.
  intros [_ Hp]. rewrite <- tree_of_getOrParse in Hp. unfold hydrate_metric, getOrParseExpr in *. destruct (met_Expr m) eqn:E; try (left; congruence).
  cbv zeta in *. destruct (str_empty (TrimSpace (met_Expression m)) || _) eqn:Ee.
  - right. unfold str_empty in Ee. rewrite orb_true_iff, !String.eqb_eq in Ee. set_solver.
  - destruct (ParseExpression _) as [e|e] eqn:Eq; [|done]. left. cbn [met_Expr].
    apply orb_false_iff in Ee as [Ee%String.eqb_neq _]. eapply parse_complete; [|done]. by rewrite TrimSpace_idem.
Qed.

Lemma published_acyclic validator model columns policies :
  publishable (Some ParseExpression) validator model columns policies ->
  acyclic_metrics (hydrateExpressionASTs (Some ParseExpression) model).
Proof using.
  intros [_ _ _ _ _ _ _ Hm _ _ _] m. rewrite Forall_forall in Hm.
  constructor. intros m1 (_ & Hin & _). constructor. intros m2 (Hn & _ & t & Ht & _). exfalso. cbn in Hin.
  apply list_elem_of_fmap in Hin as (m0 & -> & Hin). destruct (hydrated_metric _ _ _ (Hm m0 Hin)) as [?|He]; [done|].
  revert Ht. apply elem_of_cons in He as [->|[->|[]%elem_of_nil]%elem_of_cons]; vm_compute; intros Ht%list_elem_of_In; cbn in Ht; intuition discriminate.
Qed.
End Published.

(** Publishing makes the compiler safe to run: when the gate, with the parser and
    the validator the query package registers, says that a model is valid, then on
    the model as it is loaded every query comes to an end - a statement or a genuine
    error - whatever the dialect, the row filters and the masking. *)
Lemma published_model_compiles `{GoRuntime} `{MapOrder} (model : SemanticModel) (catalog : CatalogReader)
    (r : PublishValidationResult) (d : concrete) (ctx : bool) (lq : LogicalQuery) (filters : list RowFilter)
    (piiConfig : option PIIMaskingConfig) :
  ValidateContext (Some ParseExpression) (Some ValidateExpression) model catalog = Ok r -> Valid r = true ->
  match CompileWithPermissions (query_depth lq) (NewCompiler d) ctx lq
          (hydrateExpressionASTs (Some ParseExpression) model) filters piiConfig start with
  | (Ok _, _) => True
  | (Err e, _) => no_fuel e
  end.
Proof.
  intros Hr Hv. destruct (ValidateContext_spec (Some ParseExpression) (Some ValidateExpression) model catalog)
    as (r' & Hr' & _ & Hpub).
  rewrite Hr in Hr'. injection Hr' as <-. apply Hpub in Hv as (columns & _ & policies & _ & _ & _ & Hp%published_acyclic).
  destruct (CompileWithPermissions_fueled _ Hp (query_depth lq) (NewCompiler d) ctx lq filters piiConfig ltac:(done) start)
    as [_ He].
  destruct (CompileWithPermissions _ _ _ _ _ _ _ _) as [[cq|e] st'] eqn:E; [done|]. by apply (He e).
Qed.

(** * A model published *)

Module PublishDemo.
Definition dim (name ref calculated : string) : Dimension := mkDimension name ref "text" "" calculated NilExpr.
Definition met (name expression aggregation : string) : Metric := mkMetric name expression NilExpr aggregation None [] None.
Definition model_with (dims : list Dimension) (metrics : list Metric) : SemanticModel :=
  mkModel "m" "d" "sales" "public" "orders" 1 dims metrics
    [mkJoin "customer" "" "orders" "customer_id" "" "customers" "id" "LEFT" "many_to_one"] None None "draft".
Definition region : Dimension := dim "region" "customers.region" "".
Definition area : Dimension := dim "area" "" "UPPER(customers.region)".
Definition revenue : Metric := met "revenue" "orders.amount" "sum".
Definition cost : Metric := met "cost" "orders.cost" "sum".
Definition margin : Metric := met "margin" "[revenue] - [cost]" "custom".
Definition sales : SemanticModel := model_with [region; area] [revenue; cost; margin].
Definition catalog (policies : list CatalogPolicy) : CatalogReader := mkCatalog
  (fun _ => Ok (map (fun tc => mkColumn "public" tc.1 tc.2)
    [("orders", "amount"); ("orders", "cost"); ("orders", "customer_id"); ("customers", "id"); ("customers", "region")]))
  (fun _ => Ok [mkRelation "public" "orders" "customer_id" "public" "customers" "id"])
  (fun _ => Ok policies).
Definition policies : list CatalogPolicy := [mkPolicy ["Sales.Cost"; ""] ["region"]].
Definition errors (policies : list CatalogPolicy) (model : SemanticModel) : list string :=
  let _ := demo_runtime in let _ := list_order in
  match ValidateContext (Some ParseExpression) (Some ValidateExpression) model (catalog policies) with Ok r => Errors r | Err e => [Error e] end.

Example accepted : errors policies sales = [].
Proof. vm_compute. reflexivity. Qed.
Example unknown_metric : errors [] (model_with [region] [met "profit" "[turnover]" "custom"]) =
  ["metric expression references unknown column: turnover";
   "metric " +:+ Quote "profit" +:+ " expression invalid: unknown metric reference: turnover"].
Proof. vm_compute. reflexivity. Qed.
Example same_name : errors [] (model_with [region; dim "Region " "customers.region" ""] [revenue]) =
  ["duplicate dimension name: Region"].
Proof. vm_compute. reflexivity. Qed.
(** What the graph of a composite misses is found here. *)
Example self_reference : errors [] (model_with [region] [met "loop" "[LOOP] + 1" "custom"]) =
  ["circular dependency detected: loop -> loop"].
Proof. vm_compute. reflexivity. Qed.
(** The policies are those of the datasource: one on a field of another of its
    models stops this one. *)
Example policy_of_another_model : errors policies (model_with [region] [revenue]) =
  ["permission policy references unknown field: sales.cost"].
Proof. vm_compute. reflexivity. Qed.

(** The search for column references takes the first two parts of a name of three,
    words with a dot between quotes, and, when there is no name of two parts, the
    whole expression. *)
Example qualified_metric_refused : errors [] (model_with [region] [met "revenue" "public.orders.amount" "sum"]) =
  ["metric expression references unknown column: public.orders"].
Proof. vm_compute. reflexivity. Qed.
Example literal_taken_for_column :
  errors [] (model_with [dim "area" "" "COALESCE(customers.region, 'n.a')"] [revenue]) =
  ["dimension " +:+ Quote "area" +:+ " calculated expression invalid: unknown column reference: n.a"].
Proof. vm_compute. reflexivity. Qed.
Example bare_column_refused : errors [] (model_with [dim "area" "" "UPPER(region)"] [revenue]) =
  ["dimension " +:+ Quote "area" +:+ " calculated expression invalid: unknown column reference: UPPER(region)"].
Proof. vm_compute. reflexivity. Qed.
End PublishDemo.

Example sales_compile :
  let _ := demo_runtime in
  let _ := list_order in
  let lq := mkLQ "v1" "d" "m" "" [plain_item SelectTypeDimension "area"; plain_item SelectTypeMetric "margin"]
    [] [] [] [] 0 0 [] None "" "" "" ∅ in
  exists r, ValidateContext (Some ParseExpression) (Some ValidateExpression) PublishDemo.sales (PublishDemo.catalog PublishDemo.policies) = Ok r /\
    Valid r = true /\
    match CompileWithPermissions (query_depth lq) (NewCompiler Postgres) true lq
            (hydrateExpressionASTs (Some ParseExpression) PublishDemo.sales) [] None start with
    | (Ok _, _) => True
    | (Err e, _) => no_fuel e
    end.
Proof.
  intros rt mo lq.
  destruct (ValidateContext (Some ParseExpression) (Some ValidateExpression) PublishDemo.sales
    (PublishDemo.catalog PublishDemo.policies)) as [r|e] eqn:E; [|vm_compute in E; discriminate E].
  exists r. split; [reflexivity|]. assert (Valid r = true) as Hv by (vm_compute in E; injection E as <-; reflexivity).
  split; [exact Hv|].
  exact (published_model_compiles PublishDemo.sales (PublishDemo.catalog PublishDemo.policies) r Postgres true lq [] None E Hv).
Qed.
