(* ===== verification/Versions.v ===== *)
(** The versions of a semantic model ([internal/semantic/repository.go]): editing the
    draft, publishing it, rolling back, and what the query runtime is served.

    The rows of one model are its [Store]: the draft (header, status and version, with
    the active dimensions, metrics and joins) and the snapshots of its published
    versions.  The database is trusted to run the statements as SQL says:
    transactions are atomic, and the constraint UNIQUE(model_id, version) of the
    migrations refuses a second snapshot of a version.  A snapshot's JSON encoding is
    the business of a codec ([SnapshotCodec]). *)

From S2P Require Import Prelude GoStrings Values Dialect Semantic LogicalQuery ExprParse Pii RowFilter CompileMonad Joins.
From S2P Require Import Measures Composite Cycles Publish Compiler Compiled PublishedCompile.
From stdpp Require Import options.
#[local] Open Scope Z_scope.

(** [sonic.Marshal] and its inverse on models. *)
Class SnapshotCodec : Type := {
  payload : Type;
  Marshal : SemanticModel -> payload;
  Unmarshal : payload -> res SemanticModel;
  Unmarshal_Marshal : forall m, Unmarshal (Marshal m) = Ok m;
}.
(** A codec that keeps the model as it is. *)
Definition plain_codec : SnapshotCodec := {|
  payload := SemanticModel;
  Marshal m := m;
  Unmarshal m := Ok m;
  Unmarshal_Marshal m := eq_refl;
|}.

Definition set_published (version : Z) (m : SemanticModel) : SemanticModel :=
  mkModel (model_ID m) (model_DatasourceID m) (model_Name m) (model_BaseSchema m) (model_BaseTable m) version
    (model_Dimensions m) (model_Metrics m) (model_Joins m) (model_Label m) (model_Description m) ModelStatusPublished.
Definition set_status (status : string) (m : SemanticModel) : SemanticModel :=
  mkModel (model_ID m) (model_DatasourceID m) (model_Name m) (model_BaseSchema m) (model_BaseTable m) (model_Version m)
    (model_Dimensions m) (model_Metrics m) (model_Joins m) (model_Label m) (model_Description m) status.
Definition set_children (dims : list Dimension) (mets : list Metric) (joins : list JoinDef) (m : SemanticModel) : SemanticModel :=
  mkModel (model_ID m) (model_DatasourceID m) (model_Name m) (model_BaseSchema m) (model_BaseTable m) (model_Version m)
    dims mets joins (model_Label m) (model_Description m) (model_Status m).

Section Repository.
Context `{SnapshotCodec} (parser : option (string -> res ExprNode)) (validator : option (string -> res unit)).

Record Store : Type := mkStore {
  draft : SemanticModel;
  snapshots : list (Z * payload);
}.

(** ** The draft *)

(** The row of a new model has version 0 and no children. *)
Definition CreateModel (m : SemanticModel) : Store :=
  let status := if str_empty (model_Status m) then ModelStatusDraft else model_Status m in
  mkStore (mkModel (model_ID m) (model_DatasourceID m) (model_Name m) (model_BaseSchema m) (model_BaseTable m) 0 [] [] []
             (model_Label m) (model_Description m) status) [].

Definition on_draft (f : SemanticModel -> SemanticModel) (s : Store) : Store := mkStore (f (draft s)) (snapshots s).
Definition MarkModelDraft : Store -> Store := on_draft (set_status ModelStatusDraft).
Definition UpdateModel (m : SemanticModel) : Store -> Store :=
  on_draft (fun row =>
    mkModel (model_ID row) (model_DatasourceID row) (model_Name m) (model_BaseSchema m) (model_BaseTable m) (model_Version row)
      (model_Dimensions row) (model_Metrics row) (model_Joins row) (model_Label m) (model_Description m) ModelStatusDraft).
Definition BulkInsertModelChildren (dims : list Dimension) (mets : list Metric) (joins : list JoinDef) (s : Store) : Store :=
  match dims, mets, joins with
  | [], [], [] => s
  | _, _, _ =>
      MarkModelDraft (on_draft (fun row =>
        set_children (model_Dimensions row ++ dims) (model_Metrics row ++ mets) (model_Joins row ++ joins) row) s)
  end.
Definition CreateDimension (d : Dimension) (s : Store) : Store :=
  MarkModelDraft (on_draft (fun row =>
    set_children (model_Dimensions row ++ [d]) (model_Metrics row) (model_Joins row) row) s).
Definition CreateMetric (m : Metric) (s : Store) : Store :=
  MarkModelDraft (on_draft (fun row =>
    set_children (model_Dimensions row) (model_Metrics row ++ [m]) (model_Joins row) row) s).
Definition CreateJoin (j : JoinDef) (s : Store) : Store :=
  MarkModelDraft (on_draft (fun row =>
    set_children (model_Dimensions row) (model_Metrics row) (model_Joins row ++ [j]) row) s).

Definition GetFullModel (s : Store) : SemanticModel := hydrateExpressionASTs parser (draft s).

(** ** Snapshots *)

Definition decodeModelSnapshot (raw : payload) : res SemanticModel :=
  let? m := Unmarshal raw in Ok (hydrateExpressionASTs parser m).

(** ORDER BY version DESC LIMIT 1 *)
Fixpoint latest (rows : list (Z * payload)) : option (Z * payload) :=
  match rows with
  | [] => None
  | row :: rows =>
      match latest rows with
      | Some best => if best.1 <? row.1 then Some row else Some best
      | None => Some row
      end
  end.
(** [None] is [sql.ErrNoRows]. *)
Definition latestPublishedSnapshot (s : Store) : option (res SemanticModel) :=
  option_map (fun row => decodeModelSnapshot row.2) (latest (snapshots s)).
Definition row_of_version (version : Z) (s : Store) : option (Z * payload) :=
  List.find (fun row => row.1 =? version) (snapshots s).
Definition snapshotByVersion (version : Z) (s : Store) : res SemanticModel :=
  match row_of_version version s with
  | Some row => decodeModelSnapshot row.2
  | None => Err (EWrap "snapshot by version scan" (EMsg "sql: no rows in result set"))
  end.

(** What the query runtime is served. *)
Definition GetPublishedFullModel (s : Store) : res SemanticModel :=
  let fallback :=
    if String.eqb (model_Status (draft s)) ModelStatusDraft
    then Err (EMsg ("semantic model " +:+ model_Name (draft s) +:+ " has no published context"))
    else Ok (GetFullModel s) in
  match latestPublishedSnapshot s with
  | Some (Ok published) => match model_Dimensions published with [] => fallback | _ => Ok published end
  | Some (Err e) => Err (EWrap "latest published snapshot" e)
  | None => fallback
  end.

(** The transaction: a snapshot, and the status and version of the model's row. *)
Definition writePublishedVersionTx (version : Z) (raw : payload) (s : Store) : res Store :=
  match row_of_version version s with
  | Some _ => Err (EWrap "insert snapshot" (EMsg "duplicate key value violates unique constraint"))
  | None => Ok (mkStore (set_published version (draft s)) (snapshots s ++ [(version, raw)]))
  end.

(** ** Publishing and rolling back *)

(** What a publish or a rollback has read and is about to write. *)
Record Pending : Type := mkPending {
  pend_version : Z;
  pend_payload : payload;
}.

(** [PublishModel] up to its transaction: the validation that refuses the model, or
    what is to be written. *)
Definition publish_read `{MapOrder} (catalog : CatalogReader) (s : Store) : res (PublishValidationResult + Pending) :=
  let model := GetFullModel s in
  let? validation := ValidateContext parser validator model catalog in
  if negb (Valid validation) then Ok (inl validation)
  else
    let nextVersion := model_Version model + 1 in
    let nextVersion := if nextVersion <=? 0 then 1 else nextVersion in
    Ok (inr (mkPending nextVersion (Marshal (set_published nextVersion model)))).

Definition rollback_read (targetVersion : Z) (s : Store) : res Pending :=
  let current := draft s in
  let targetVersion := if targetVersion <=? 0 then model_Version current - 1 else targetVersion in
  if targetVersion <=? 0 then Err (EMsg "no previous published context to roll back to")
  else
    let? target := res_map_err (EWrap "rollback model snapshot") (snapshotByVersion targetVersion s) in
    let nextVersion := model_Version current + 1 in
    Ok (mkPending nextVersion (Marshal (set_published nextVersion target))).

Definition write (p : Pending) (s : Store) : res Store := writePublishedVersionTx (pend_version p) (pend_payload p) s.

(** The whole operations, when nothing comes between the reads and the write. *)
Definition PublishModel `{MapOrder} (catalog : CatalogReader) (s : Store) : res (Store * (PublishValidationResult + Z)) :=
  let? read := publish_read catalog s in
  match read with
  | inl validation => Ok (s, inl validation)
  | inr p => let? s := res_map_err (EWrap "publish model") (write p s) in Ok (s, inr (pend_version p))
  end.
Definition RollbackModel (targetVersion : Z) (s : Store) : res (Store * Z) :=
  let? p := rollback_read targetVersion s in
  let? s := res_map_err (EWrap "rollback model") (write p s) in
  Ok (s, pend_version p).
End Repository.

(** * Operations that interleave *)

Section Steps.
Context `{MapOrder} `{SnapshotCodec} (parser : option (string -> res ExprNode)) (validator : option (string -> res unit)).

(** The rows of the model, and the publishes and rollbacks that have read them and
    have not written yet. *)
Record System : Type := mkSystem {
  store : Store;
  pending : list Pending;
}.

(** One statement at a time: the rows of dimensions, metrics and joins may change in
    any way, and the draft is marked by a statement of its own.  A write that the
    database refuses ends its operation, and an operation may be given up. *)
Inductive step : System -> System -> Prop :=
| step_header m s ps : step (mkSystem s ps) (mkSystem (UpdateModel m s) ps)
| step_children dims mets joins s ps :
    step (mkSystem s ps) (mkSystem (on_draft (set_children dims mets joins) s) ps)
| step_mark s ps : step (mkSystem s ps) (mkSystem (MarkModelDraft s) ps)
| step_publish catalog p s ps :
    publish_read parser validator catalog s = Ok (inr p) -> step (mkSystem s ps) (mkSystem s (p :: ps))
| step_rollback target p s ps :
    rollback_read parser target s = Ok p -> step (mkSystem s ps) (mkSystem s (p :: ps))
| step_write p s s' ps1 ps2 :
    write p s = Ok s' -> step (mkSystem s (ps1 ++ p :: ps2)) (mkSystem s' (ps1 ++ ps2))
| step_give_up p s ps1 ps2 : step (mkSystem s (ps1 ++ p :: ps2)) (mkSystem s (ps1 ++ ps2)).

(** The states of a model created as a draft. *)
Definition reachable (sys : System) : Prop :=
  exists m, str_in (model_Status m) [""; ModelStatusDraft] = true /\ rtc step (mkSystem (CreateModel m) []) sys.

#[local] Abbreviation hydrate := (hydrateExpressionASTs parser).

Lemma hydrate_idem m : hydrate (hydrate m) = hydrate m.
Proof using.
  destruct parser as [parse|]; [|done]. cbn. f_equal; rewrite map_map; apply map_ext; intros [].
  - unfold hydrate_dimension. cbn -[str_empty TrimSpace]. destruct dim_CalculatedExpr; try done. destruct (str_empty _) eqn:Es; cbn -[str_empty TrimSpace]; rewrite ?Es; [done|].
    destruct (parse _) as [e|e] eqn:Ep; cbn -[str_empty TrimSpace]; rewrite ?Es, ?Ep; [|done]. by destruct e.
  - unfold hydrate_metric. cbn -[str_empty TrimSpace]. destruct met_Expr; try done. destruct (_ || _) eqn:Es; cbn -[str_empty TrimSpace]; rewrite ?Es; [done|].
    destruct (parse _) as [e|e] eqn:Ep; cbn -[str_empty TrimSpace]; rewrite ?Es, ?Ep; [|done]. by destruct e.
Qed.
Lemma hydrate_published v m : hydrate (set_published v m) = set_published v (hydrate m).
Proof using. by destruct parser. Qed.
Lemma hydrate_dimensions m : model_Dimensions (hydrate m) = [] -> model_Dimensions m = [].
Proof using. destruct parser; [|done]. cbn. apply map_eq_nil. Qed.
Lemma hydrate_version m : model_Version (hydrate m) = model_Version m.
Proof using. by destruct parser. Qed.

(** The gate accepted the model, with some state of the catalogue. *)
Definition passed (m : SemanticModel) : Prop := exists columns policies, publishable parser validator m columns policies.

Lemma passed_published v m : passed m -> passed (set_published v m).
Proof using. intros (columns & policies & []). exists columns, policies. by constructor. Qed.

(** A snapshot that passed, once loaded. *)
Definition good_payload (raw : payload) : Prop := exists m, raw = Marshal m /\ passed (hydrate m).

Lemma good_decode raw : good_payload raw ->
  exists m, decodeModelSnapshot parser raw = Ok m /\ passed m /\ hydrate m = m /\ model_Dimensions m <> [].
Proof using.
  intros (m & -> & Hp). exists (hydrate m). unfold decodeModelSnapshot. rewrite Unmarshal_Marshal. cbn [res_bind].
  split_and!; [done|done|apply hydrate_idem|]. destruct Hp as (columns & policies & []). done.
Qed.
Lemma good_published v m : passed m -> hydrate m = m -> good_payload (Marshal (set_published v m)).
Proof using.
  intros Hp Hm. exists (set_published v m). split; [done|]. rewrite hydrate_published, Hm. by apply passed_published.
Qed.

(** ** The invariant *)

Definition numbered (n : nat) (s : Store) : Prop :=
  map fst (snapshots s) = seqZ 1 (Z.of_nat n) /\ model_Version (draft s) = Z.of_nat n.

Record Inv (sys : System) : Prop := mkInv {
  inv_numbered : numbered (length (snapshots (store sys))) (store sys);
  inv_status : snapshots (store sys) = [] -> model_Status (draft (store sys)) = ModelStatusDraft;
  inv_snapshots : Forall (fun row => good_payload row.2) (snapshots (store sys));
  inv_pending : Forall (fun p => good_payload (pend_payload p) /\
    1 <= pend_version p <= Z.of_nat (length (snapshots (store sys))) + 1) (pending sys);
}.

Lemma row_of_version_spec s n v :
  numbered n s -> 1 <= v <= Z.of_nat n + 1 ->
  match row_of_version v s with Some row => v <= Z.of_nat n /\ row ∈ snapshots s | None => v = Z.of_nat n + 1 end.
Proof using.
  intros [Hn _] Hv. unfold row_of_version. destruct (List.find _ _) as [row|] eqn:E.
  - apply find_some in E as [Hin%list_elem_of_In Hr%Z.eqb_eq]. split; [|done].
    assert (v ∈ map fst (snapshots s)) as Hin' by (rewrite <- Hr; by apply list_elem_of_fmap_2).
    rewrite Hn, elem_of_seqZ in Hin'. lia.
  - destruct (decide (v = Z.of_nat n + 1)) as [|Hne]; [done|]. exfalso.
    assert (v ∈ map fst (snapshots s)) as (row & Hr & Hin)%list_elem_of_fmap by (rewrite Hn, elem_of_seqZ; lia).
    apply list_elem_of_In in Hin. pose proof (find_none _ _ E row Hin) as Hnone. cbn in Hnone.
    rewrite <- Hr, Z.eqb_refl in Hnone. done.
Qed.

Lemma latest_snoc rows row : Forall (fun r => r.1 < row.1) rows -> latest (rows ++ [row]) = Some row.
Proof using.
  induction 1 as [|r rows Hr _ IH]; [done|]. cbn [latest app]. rewrite IH. cbn.
  destruct (Z.ltb_spec row.1 r.1); [lia|done].
Qed.
Lemma write_spec n p s :
  numbered n s -> 1 <= pend_version p <= Z.of_nat n + 1 ->
  match write p s with
  | Ok s' => pend_version p = Z.of_nat n + 1 /\ numbered (S n) s' /\
      snapshots s' = snapshots s ++ [(pend_version p, pend_payload p)] /\
      latest (snapshots s') = Some (pend_version p, pend_payload p)
  | Err _ => pend_version p <= Z.of_nat n
  end.
Proof using.
  intros Hn Hv. unfold write, writePublishedVersionTx. pose proof (row_of_version_spec s n _ Hn Hv) as Hr.
  destruct (row_of_version _ _); [tauto|]. destruct Hn as [Hn _]. cbn. split_and!; [done| |done|].
  - split; cbn [draft snapshots set_published model_Version]; [|lia].
    rewrite map_app, Hn, seqZ_S. cbn [map fst]. do 2 f_equal. lia.
  - apply latest_snoc. apply Forall_forall. intros row Hin. cbn.
    assert (row.1 ∈ map fst (snapshots s)) as Hin' by (by apply list_elem_of_fmap_2).
    rewrite Hn, elem_of_seqZ in Hin'. lia.
Qed.

Definition pending_ok (n : nat) (p : Pending) : Prop :=
  good_payload (pend_payload p) /\ 1 <= pend_version p <= Z.of_nat n + 1.

Lemma publish_read_ok catalog s p n :
  numbered n s -> publish_read parser validator catalog s = Ok (inr p) ->
  pend_version p = Z.of_nat n + 1 /\ good_payload (pend_payload p).
Proof using.
  intros [_ Hn]. unfold publish_read. cbv zeta.
  destruct (ValidateContext_spec parser validator (GetFullModel parser s) catalog) as (r & -> & _ & Hv). cbn [res_bind].
  destruct (Valid r); [|done]. cbn [negb]. intros [= <-]. cbn [pend_version pend_payload].
  unfold GetFullModel in *. rewrite hydrate_version, Hn in *. destruct (Z.leb_spec (Z.of_nat n + 1) 0); [lia|]. split; [done|].
  destruct (proj1 Hv eq_refl) as (columns & _ & policies & _ & _ & _ & Hp).
  apply good_published; [by exists columns, policies|apply hydrate_idem].
Qed.
Lemma rollback_read_ok target s p n :
  numbered n s -> Forall (fun row => good_payload row.2) (snapshots s) -> rollback_read parser target s = Ok p ->
  pend_version p = Z.of_nat n + 1 /\
  exists v raw m, (v, raw) ∈ snapshots s /\ v = (if target <=? 0 then Z.of_nat n - 1 else target) /\
    decodeModelSnapshot parser raw = Ok m /\ hydrate m = m /\ passed m /\ pend_payload p = Marshal (set_published (Z.of_nat n + 1) m).
Proof using.
  intros [_ Hn] Hg. unfold rollback_read. cbv zeta. rewrite Hn. destruct (_ <=? 0) eqn:E; [done|]. unfold snapshotByVersion, row_of_version.
  destruct (List.find _ _) as [[v raw]|] eqn:Ef; [|done]. apply find_some in Ef as [Hin%list_elem_of_In Hv%Z.eqb_eq].
  rewrite Forall_forall in Hg. destruct (good_decode _ (Hg _ Hin)) as (m & Hm & Hp & Hh & _). cbn [snd] in *. rewrite Hm.
  cbn [res_map_err res_bind]. intros [= <-]. cbn [pend_version pend_payload]. split; [done|]. exists v, raw, m. by split_and!.
Qed.

Lemma step_inv sys sys' : step sys sys' -> Inv sys -> Inv sys'.
Proof using.
  assert (forall n p, pending_ok n p -> pending_ok (S n) p) as Hmono.
  { intros n p [? ?]. split; [done|lia]. }
  destruct 1 as [m s ps|dims mets joins s ps|s ps|catalog p s ps Hr|target p s ps Hr|p s s' ps1 ps2 Hw|p s ps1 ps2];
    intros [Hn Hst Hs Hp]; cbn [store pending snapshots] in *.
  1-3: by constructor.
  - constructor; cbn; try done. destruct (publish_read_ok _ _ _ _ Hn Hr) as [Hv Hg]. constructor; [|done]. split; [done|].
    cbn. rewrite Hv. lia.
  - constructor; cbn; try done. destruct (rollback_read_ok _ _ _ _ Hn Hs Hr) as (Hv & v & raw & m & _ & _ & _ & Hh & Hg & E).
    constructor; [|done]. split; [rewrite E; by apply good_published|]. cbn. rewrite Hv. lia.
  - apply Forall_app in Hp as [Hp1 Hp]. apply Forall_cons in Hp as [[Hg Hv] Hp2].
    pose proof (write_spec _ p s Hn Hv) as Hspec. rewrite Hw in Hspec. destruct Hspec as (Hv' & Hn' & Hsn & _).
    assert (length (snapshots s') = S (length (snapshots s))) as Hl by (rewrite Hsn, List.length_app; cbn; lia).
    constructor; cbn [store pending]; rewrite ?Hl; [done| | |].
    + intros Hnil. rewrite Hnil in Hl. done.
    + rewrite Hsn. apply Forall_app. split; [done|]. by constructor.
    + apply Forall_app. split; (eapply Forall_impl; [eassumption|]); intros q; apply Hmono.
  - constructor; cbn; try done. apply Forall_app in Hp as [Hp1 Hp]. apply Forall_cons in Hp as [_ Hp2]. by apply Forall_app.
Qed.

Lemma reachable_inv sys : reachable sys -> Inv sys.
Proof using.
  intros (m & Hm & Hr). assert (Inv (mkSystem (CreateModel m) [])) as Hi; [|by induction Hr; eauto using step_inv].
  constructor; cbn -[str_empty]; try done. intros _. apply str_in_spec in Hm.
  apply elem_of_cons in Hm as [->|[->|[]%elem_of_nil]%elem_of_cons]; done.
Qed.

(** What the runtime is served is the snapshot of the highest version. *)
Lemma served_latest s row :
  Forall (fun row => good_payload row.2) (snapshots s) -> latest (snapshots s) = Some row -> row ∈ snapshots s ->
  exists m, GetPublishedFullModel parser s = Ok m /\ decodeModelSnapshot parser row.2 = Ok m /\ passed m /\ hydrate m = m.
Proof using.
  intros Hg Hl Hin. rewrite Forall_forall in Hg. destruct (good_decode _ (Hg row Hin)) as (m & Hm & Hp & Hh & Hd).
  exists m. unfold GetPublishedFullModel, latestPublishedSnapshot. rewrite Hl. cbn [option_map]. rewrite Hm.
  by destruct (model_Dimensions m) eqn:Ed.
Qed.
(** After a write, it is what was written. *)
Lemma served_written s s' row :
  Forall (fun row => good_payload row.2) (snapshots s) -> good_payload row.2 ->
  snapshots s' = snapshots s ++ [row] -> latest (snapshots s') = Some row ->
  GetPublishedFullModel parser s' = decodeModelSnapshot parser row.2.
Proof using.
  intros Hs Hg Hsn Hl. destruct (served_latest s' row) as (m & -> & -> & _); [|exact Hl| |done]; rewrite Hsn.
  - apply Forall_app. split; [exact Hs|]. by constructor.
  - apply elem_of_app. right. by left.
Qed.
Lemma latest_elem rows : rows <> [] -> exists row, latest rows = Some row /\ row ∈ rows.
Proof using.
  induction rows as [|row rows IH]; [done|]. intros _. cbn [latest]. destruct rows as [|row' rows].
  { exists row. split; [done|by left]. }
  destruct (IH ltac:(done)) as (best & -> & Hin). destruct (_ <? _); [exists row|exists best]; (split; [done|]); [by left|by right].
Qed.

Lemma served_passed sys m :
  reachable sys -> GetPublishedFullModel parser (store sys) = Ok m -> passed m /\ hydrate m = m.
Proof using.
  intros [Hn Hst Hs _]%reachable_inv Hm. destruct (decide (snapshots (store sys) = [])) as [He|Hne].
  - exfalso. revert Hm. unfold GetPublishedFullModel, latestPublishedSnapshot. rewrite He. cbn [latest option_map].
    by rewrite (Hst He).
  - destruct (latest_elem _ Hne) as (row & Hl & Hin). destruct (served_latest _ _ Hs Hl Hin) as (m' & Hm' & _ & ? & ?).
    rewrite Hm' in Hm. by injection Hm as ->.
Qed.
End Steps.

(** ** Operations run on their own are steps *)

Section Sequential.
Context `{MapOrder} `{SnapshotCodec} (parser : option (string -> res ExprNode)) (validator : option (string -> res unit)).
#[local] Abbreviation reachable := (reachable parser validator).

Lemma reachable_step sys sys' : reachable sys -> step parser validator sys sys' -> reachable sys'.
Proof using. intros (m & Hm & Hr) Hs. exists m. split; [done|]. by eapply rtc_r. Qed.
Lemma reachable_create m :
  str_in (model_Status m) [""; ModelStatusDraft] = true -> reachable (mkSystem (CreateModel m) []).
Proof using. intros Hm. by exists m. Qed.
Lemma reachable_bulk dims mets joins s ps :
  reachable (mkSystem s ps) -> reachable (mkSystem (BulkInsertModelChildren dims mets joins s) ps).
Proof using.
  intros Hr. assert (forall dims mets joins, reachable (mkSystem (MarkModelDraft (on_draft (set_children dims mets joins) s)) ps)) as Hc.
  { intros. eapply reachable_step; [eapply reachable_step; [exact Hr|apply step_children]|apply step_mark]. }
  unfold BulkInsertModelChildren. destruct dims, mets, joins; (exact Hr || apply Hc).
Qed.
Lemma reachable_update m s ps : reachable (mkSystem s ps) -> reachable (mkSystem (UpdateModel m s) ps).
Proof using. intros Hr. eapply reachable_step; [exact Hr|apply step_header]. Qed.
Lemma reachable_publish catalog s ps s' v :
  reachable (mkSystem s ps) -> PublishModel parser validator catalog s = Ok (s', v) -> reachable (mkSystem s' ps).
Proof using.
  intros Hr. unfold PublishModel. destruct (publish_read _ _ _ _) as [[validation|p]|e] eqn:Ep; cbn [res_bind]; [by intros [= <- _]| |done].
  destruct (write p s) as [s1|e] eqn:Ew; cbn [res_map_err res_bind]; [|done]. intros [= <- _].
  eapply reachable_step; [eapply reachable_step; [exact Hr|by eapply step_publish]|]. by apply (step_write _ _ p s s1 [] ps).
Qed.
Lemma reachable_rollback target s ps s' v :
  reachable (mkSystem s ps) -> RollbackModel parser target s = Ok (s', v) -> reachable (mkSystem s' ps).
Proof using.
  intros Hr. unfold RollbackModel. destruct (rollback_read _ _ _) as [p|e] eqn:Ep; cbn [res_bind]; [|done].
  destruct (write p s) as [s1|e] eqn:Ew; cbn [res_map_err res_bind]; [|done]. intros [= <- _].
  eapply reachable_step; [eapply reachable_step; [exact Hr|by eapply step_rollback]|]. by apply (step_write _ _ p s s1 [] ps).
Qed.
End Sequential.

Lemma rtc_snapshots `{MapOrder} `{SnapshotCodec} parser validator sys sys' : rtc (step parser validator) sys sys' ->
  exists rows, snapshots (store sys') = snapshots (store sys) ++ rows.
Proof.
  induction 1 as [sys|sys1 sys2 sys3 Hs _ [rows IH]]; [exists []; by rewrite List.app_nil_r|].
  assert (exists rows', snapshots (store sys2) = snapshots (store sys1) ++ rows') as [rows' E].
  { destruct Hs as [m s ps|dims mets joins s ps|s ps|catalog p s ps Hr|target p s ps Hr|p s s' ps1 ps2 Hw|p s ps1 ps2];
      try (exists []; cbn; by rewrite List.app_nil_r).
    unfold write, writePublishedVersionTx in Hw. destruct (row_of_version _ _); [done|]. injection Hw as <-. by eexists. }
  exists (rows' ++ rows). by rewrite IH, E, List.app_assoc.
Qed.

(** A publish or a rollback reads the rows and is going to write [p]. *)
Definition reads `{MapOrder} `{SnapshotCodec} (parser : option (string -> res ExprNode)) (validator : option (string -> res unit))
    (s : Store) (p : Pending) : Prop :=
  (exists catalog, publish_read parser validator catalog s = Ok (inr p)) \/ (exists target, rollback_read parser target s = Ok p).

(** C33: versions are numbered without gaps, whatever operations interleave: in every
    state reached, the snapshots are those of versions 1 to n, oldest first, and n is
    the version of the model. A publish or a rollback that has read the rows in such a state
    may write in any later one: it succeeds exactly when no other has written a snapshot
    since; its own is then added as version n + 1 and is what the runtime is served;
    otherwise the database refuses it. *)
Theorem versions_sequential `{MapOrder} `{SnapshotCodec} (parser : option (string -> res ExprNode))
    (validator : option (string -> res unit)) (sys : System) :
  reachable parser validator sys ->
  let n := length (snapshots (store sys)) in
  numbered n (store sys) /\
  forall p sys', reads parser validator (store sys) p -> rtc (step parser validator) (mkSystem (store sys) (p :: pending sys)) sys' ->
    match write p (store sys') with
    | Ok s' => snapshots (store sys') = snapshots (store sys) /\ numbered (S n) s' /\
        snapshots s' = snapshots (store sys) ++ [(Z.of_nat n + 1, pend_payload p)] /\
        GetPublishedFullModel parser s' = decodeModelSnapshot parser (pend_payload p)
    | Err _ => snapshots (store sys') <> snapshots (store sys)
    end.
Proof.
  intros Hreach n. pose proof (reachable_inv _ _ _ Hreach) as [Hn _ Hs _]. split; [exact Hn|]. intros p sys' Hread Hrtc.
  assert (reachable parser validator (mkSystem (store sys) (p :: pending sys)) /\ pend_version p = Z.of_nat n + 1 /\
    good_payload parser validator (pend_payload p)) as (Hreach1 & Hv & Hg).
  { destruct sys as [s ps]. cbn in *. destruct Hread as [[catalog Hr]|[target Hr]].
    - split; [by eapply reachable_step; [|by eapply step_publish]|]. by eapply publish_read_ok.
    - split; [by eapply reachable_step; [|by eapply step_rollback]|].
      destruct (rollback_read_ok parser validator _ _ _ _ Hn Hs Hr) as (Hv & v & raw & m & _ & _ & _ & Hh & Hp & E).
      split; [exact Hv|]. rewrite E. by apply good_published. }
  assert (reachable parser validator sys') as Hreach'
    by (destruct Hreach1 as (m & Hm & Hr); exists m; split; [exact Hm|]; by etransitivity).
  destruct (rtc_snapshots _ _ _ _ Hrtc) as [rows Erows]. cbn [store] in Erows.
  apply reachable_inv in Hreach' as [Hn' _ Hs' _].
  assert (length (snapshots (store sys')) = (n + length rows)%nat) as El by (rewrite Erows; apply List.length_app).
  pose proof (write_spec _ p (store sys') Hn' ltac:(rewrite Hv, El; lia)) as Hw. rewrite Hv, El in Hw.
  destruct (write p (store sys')) as [s'|e].
  - destruct Hw as (Ev & Hnum & Hsn & Hl). assert (rows = []) as -> by (destruct rows; [done|cbn in Ev; lia]).
    rewrite List.app_nil_r in Erows. rewrite Nat.add_0_r in Hnum. rewrite <- Erows. split_and!; [done|done|exact Hsn|].
    refine (served_written parser validator _ _ (Z.of_nat n + 1, pend_payload p) Hs' Hg Hsn Hl).
  - intros E. rewrite E in Erows. apply (f_equal length) in Erows. rewrite List.length_app in Erows.
    destruct rows; [cbn in Hw; lia|cbn in Erows; lia].
Qed.

(** rolling back restores: after a rollback that nothing interrupted, to a version
    or, for a target that is not positive, to the one before the current, the runtime
    is served the model of that version's snapshot, published under the next number. *)
Theorem rollback_restores `{MapOrder} `{SnapshotCodec} (parser : option (string -> res ExprNode))
    (validator : option (string -> res unit)) (sys : System) (target : Z) (s' : Store) (v : Z) :
  reachable parser validator sys -> RollbackModel parser target (store sys) = Ok (s', v) ->
  let n := Z.of_nat (length (snapshots (store sys))) in
  v = n + 1 /\
  exists raw m, ((if target <=? 0 then n - 1 else target), raw) ∈ snapshots (store sys) /\
    decodeModelSnapshot parser raw = Ok m /\ GetPublishedFullModel parser s' = Ok (set_published v m).
Proof.
  intros [Hn _ Hs _]%reachable_inv Hr n. unfold RollbackModel in Hr.
  destruct (rollback_read _ _ _) as [p|e] eqn:Ep; [|done]. cbn [res_bind] in Hr.
  destruct (rollback_read_ok parser validator _ _ _ _ Hn Hs Ep) as (Hv & v' & raw & m & Hin & -> & Hm & Hh & Hg & Hpay).
  pose proof (write_spec _ p _ Hn ltac:(rewrite Hv; lia)) as Hw. destruct (write _ _) as [s1|e]; [|done].
  cbn [res_map_err res_bind] in Hr. injection Hr as -> <-. destruct Hw as (_ & Hn' & Hsn & Hl). split; [exact Hv|].
  exists raw, m. split_and!; [exact Hin|exact Hm|].
  assert (good_payload parser validator (pend_payload p)) as Hgp by (rewrite Hpay; by apply good_published).
  rewrite (served_written parser validator _ _ (pend_version p, pend_payload p) Hs Hgp Hsn Hl). cbn [snd]. rewrite Hpay. unfold decodeModelSnapshot.
  rewrite Unmarshal_Marshal. cbn [res_bind]. by rewrite hydrate_published, Hh, Hv.
Qed.

(** C15: the query runtime is safe, end to end: in every state that edits, publishes and
    rollbacks reach, in whatever order their statements run, a model the runtime is
    served passed the gate, and compiling any query against it comes to an end. *)
Theorem served_model_compiles `{GoRuntime} `{MapOrder} `{SnapshotCodec} (sys : System) (m : SemanticModel) (d : concrete)
    (ctx : bool) (lq : LogicalQuery) (filters : list RowFilter) (piiConfig : option PIIMaskingConfig) :
  reachable (Some ParseExpression) (Some ValidateExpression) sys ->
  GetPublishedFullModel (Some ParseExpression) (store sys) = Ok m ->
  passed (Some ParseExpression) (Some ValidateExpression) m /\
  match CompileWithPermissions (query_depth lq) (NewCompiler d) ctx lq m filters piiConfig start with
  | (Ok _, _) => True
  | (Err e, _) => no_fuel e
  end.
Proof.
  intros Hr Hm. destruct (served_passed _ _ _ _ Hr Hm) as [Hp Hh]. split; [exact Hp|].
  destruct Hp as (columns & policies & Hp%published_acyclic). rewrite Hh in Hp.
  destruct (CompileWithPermissions_fueled _ Hp (query_depth lq) (NewCompiler d) ctx lq filters piiConfig ltac:(done) start)
    as [_ He].
  destruct (CompileWithPermissions _ _ _ _ _ _ _ _) as [[cq|e] st'] eqn:E; [done|]. by apply (He e).
Qed.

(** * A model's life *)

Module Life.
#[local] Existing Instance demo_runtime.
#[local] Existing Instance list_order.
#[local] Existing Instance plain_codec.
#[local] Abbreviation parser := (Some ParseExpression).
#[local] Abbreviation validator := (Some ValidateExpression).
Definition catalog : CatalogReader := PublishDemo.catalog PublishDemo.policies.

Definition get {A} (r : res A) (default : A) : A := match r with Ok a => a | Err _ => default end.
(** Created, filled, published; renamed and published again. *)
Definition created : Store := CreateModel (set_status "" PublishDemo.sales).
Definition filled : Store :=
  BulkInsertModelChildren (model_Dimensions PublishDemo.sales) (model_Metrics PublishDemo.sales) (model_Joins PublishDemo.sales) created.
Definition first_published : Store := (get (PublishModel parser validator catalog filled) (filled, inr 0)).1.
Definition edited : Store := UpdateModel (mkModel "" "" "sales" "public" "orders" 0 [] [] [] (Some "Net sales") None "") first_published.
Definition second_published : Store := (get (PublishModel parser validator catalog edited) (edited, inr 0)).1.

Definition labels (s : Store) : list (Z * option string) := map (fun row => (row.1, model_Label row.2)) (snapshots s).
Definition served_label (s : Store) : option (Z * option string) :=
  match GetPublishedFullModel parser s with Ok m => Some (model_Version m, model_Label m) | Err _ => None end.

Example drafts_are_not_served : served_label filled = None /\ served_label edited = Some (1, None).
Proof. vm_compute. by split. Qed.
Example both_published : labels second_published = [(1, None); (2, Some "Net sales")] /\ served_label second_published = Some (2, Some "Net sales").
Proof. vm_compute. by split. Qed.
Example rolled_back :
  let s := (get (RollbackModel parser 0 second_published) (second_published, 0)).1 in
  served_label s = Some (3, None) /\ model_Label (draft s) = Some "Net sales".
Proof. vm_compute. by split. Qed.

(** An edit that comes between the reads of a publish and its transaction is marked
    published, though the snapshot lacks it. *)
Example lost_draft_mark :
  match publish_read parser validator catalog filled with
  | Ok (inr p) =>
      let s := get (write p (CreateMetric (PublishDemo.met "count" "*" "count") filled)) filled in
      model_Status (draft s) = ModelStatusPublished /\ length (model_Metrics (draft s)) = 4%nat /\
      match GetPublishedFullModel parser s with Ok m => length (model_Metrics m) = 3%nat | Err _ => False end
  | _ => False
  end.
Proof. vm_compute. by split_and!. Qed.

(** Of two publishes that read the same rows, one is refused. *)
Example second_writer_refused :
  match publish_read parser validator catalog filled with
  | Ok (inr p) => is_ok (write p filled) = true /\ is_ok (write p (get (write p filled) filled)) = false
  | _ => False
  end.
Proof. vm_compute. by split. Qed.

Lemma reachable_second : reachable parser validator (mkSystem second_published []).
Proof.
  assert (reachable parser validator (mkSystem filled [])) as Hf by (by apply reachable_bulk, reachable_create).
  assert (exists s v, PublishModel parser validator catalog filled = Ok (s, v)) as (s1 & v1 & E1).
  { destruct (PublishModel parser validator catalog filled) as [[s v]|e] eqn:E; [by exists s, v|]. vm_compute in E. discriminate E. }
  assert (reachable parser validator (mkSystem first_published [])) as H1.
  { unfold first_published. rewrite E1. by eapply reachable_publish. }
  apply (reachable_update _ _ (mkModel "" "" "sales" "public" "orders" 0 [] [] [] (Some "Net sales") None "")) in H1.
  fold edited in H1.
  assert (exists s v, PublishModel parser validator catalog edited = Ok (s, v)) as (s2 & v2 & E2).
  { destruct (PublishModel parser validator catalog edited) as [[s v]|e] eqn:E; [by exists s, v|]. vm_compute in E. discriminate E. }
  unfold second_published. rewrite E2. by eapply reachable_publish.
Qed.
End Life.

(** The model published twice, and a third publish that nothing comes before. *)
Lemma versions_sequential_witness :
  let _ := demo_runtime in let _ := list_order in let _ := plain_codec in
  numbered 2 Life.second_published /\
  exists p s', publish_read (Some ParseExpression) (Some ValidateExpression) Life.catalog Life.second_published = Ok (inr p) /\
    write p Life.second_published = Ok s' /\ numbered 3 s'.
Proof.
  intros rt mo co.
  assert (forall sys, reachable (Some ParseExpression) (Some ValidateExpression) sys ->
    numbered (length (snapshots (store sys))) (store sys) /\
    forall p, publish_read (Some ParseExpression) (Some ValidateExpression) Life.catalog (store sys) = Ok (inr p) ->
      exists s', write p (store sys) = Ok s' /\ numbered (S (length (snapshots (store sys)))) s') as Hlife.
  { intros sys Hr. destruct (versions_sequential (Some ParseExpression) (Some ValidateExpression) sys Hr) as [Hn Hw].
    split; [exact Hn|]. intros p E. specialize (Hw p _ (or_introl (ex_intro _ Life.catalog E)) (rtc_refl _ _)). cbn [store] in Hw.
    destruct (write p (store sys)) as [s'|e]; [exists s'; split; [reflexivity|exact (proj1 (proj2 Hw))]|].
    exact (False_ind _ (Hw eq_refl)). }
  destruct (Hlife _ Life.reachable_second) as [Hn Hw]. clear Hlife. cbn [store] in Hn, Hw. split; [exact Hn|].
  destruct (publish_read (Some ParseExpression) (Some ValidateExpression) Life.catalog Life.second_published) as [[v|p]|e] eqn:E;
    [vm_compute in E; discriminate E| |vm_compute in E; discriminate E].
  destruct (Hw p E) as (s' & Ew & Hnum). exists p, s'. split; [reflexivity|]. split; [exact Ew|exact Hnum].
Defined.

Lemma rollback_restores_witness :
  let _ := demo_runtime in let _ := list_order in let _ := plain_codec in
  exists s' m, RollbackModel (Some ParseExpression) 1 Life.second_published = Ok (s', 3) /\
    GetPublishedFullModel (Some ParseExpression) s' = Ok (set_published 3 m).
Proof.
  intros rt mo co.
  destruct (RollbackModel (Some ParseExpression) 1 Life.second_published) as [[s' v]|e] eqn:E; [|vm_compute in E; discriminate E].
  destruct (@rollback_restores mo co (Some ParseExpression) (Some ValidateExpression) (mkSystem Life.second_published []) 1 s' v
    Life.reachable_second E) as (Hv & raw & m & _ & _ & Hg).
  exists s', m. vm_compute in Hv. subst v. split; [reflexivity|exact Hg].
Defined.

Lemma served_model_compiles_witness :
  let _ := demo_runtime in let _ := list_order in let _ := plain_codec in
  let lq := mkLQ "v1" "d" "m" "" [plain_item SelectTypeDimension "area"; plain_item SelectTypeMetric "margin"]
    [] [] [] [] 0 0 [] None "" "" "" ∅ in
  exists m, GetPublishedFullModel (Some ParseExpression) Life.second_published = Ok m /\
  match CompileWithPermissions (query_depth lq) (NewCompiler Postgres) true lq m [] None start with
  | (Ok _, _) => True
  | (Err e, _) => no_fuel e
  end.
Proof.
  intros rt mo co lq.
  destruct (GetPublishedFullModel (Some ParseExpression) Life.second_published) as [m|e] eqn:E; [|vm_compute in E; discriminate E].
  exists m. split; [reflexivity|].
  exact (proj2 (@served_model_compiles rt mo co (mkSystem Life.second_published []) m Postgres true lq [] None Life.reachable_second E)).
Defined.
