(* ===== verification/GrainRepair.v ===== *)
(** The repairs of field names before a query is validated:
    [internal/query/grain_name_repair.go] (a calendar-grain dimension named without
    the infix of its column) and [internal/query/raw_day_filter_repair.go] (a day
    given for a raw timestamp).  The Go code writes into the slices of the query;
    here the repaired query is returned. *)

From S2P Require Import Prelude GoStrings Values Semantic LogicalQuery Joins Calendar.
From stdpp Require Import options.
#[local] Open Scope Z_scope.

(** * grain_name_repair.go *)

Definition calendarGrainSuffixes : list string := ["_year"; "_quarter"; "_month"; "_day"; "_hour"].

(** [dimSet], a Go [map[string]bool]. *)
Definition dim_set (knownDimensions : list string) : gmap string bool :=
  list_to_map (map (fun n => (n, true)) knownDimensions).
Definition known (dimSet : gmap string bool) (name : string) : bool := default false (dimSet !! name).

Section Repair.
Context `{MapOrder}.

(** The loop over the map: [found] is [match]. *)
Fixpoint unique_loop (needlePrefix suffix : string) (dims : list string) (found : string) : string * bool :=
  match dims with
  | [] => (found, negb (str_empty found))
  | dim :: dims =>
      if negb (HasSuffix dim suffix) || negb (HasPrefix dim needlePrefix) then unique_loop needlePrefix suffix dims found
      else if negb (str_empty found) then ("", false)
      else unique_loop needlePrefix suffix dims dim
  end.
Definition uniqueDimensionWithSuffix (dimSet : gmap string bool) (base suffix : string) : string * bool :=
  unique_loop (base +:+ "_") suffix (keys dimSet) "".

Fixpoint grain_loop (suffixes : list string) (dimSet : gmap string bool) (field : string) : string :=
  match suffixes with
  | [] => field
  | suf :: suffixes =>
      if negb (HasSuffix field suf) then grain_loop suffixes dimSet field else
      let base := TrimSuffix field suf in
      if str_empty base then grain_loop suffixes dimSet field else
      let cand := base +:+ "_ts" +:+ suf in
      if known dimSet cand then cand else
      let '(cand, ok) := uniqueDimensionWithSuffix dimSet base suf in
      if ok then cand else grain_loop suffixes dimSet field
  end.
Definition repairOneGrainFieldName (field : string) (dimSet : gmap string bool) : string :=
  if str_empty field || known dimSet field then field else grain_loop calendarGrainSuffixes dimSet field.

Definition set_f_Field (v : string) (f : Filter) : Filter :=
  mkFilter v (f_Operator f) (f_Value f) (f_CaseSensitive f) (f_Subquery f).

Section Fields.
Context (repair : string -> string).
Definition repair_filter (f : Filter) : Filter := set_f_Field (repair (f_Field f)) f.
Definition repair_group (g : GroupBy) : GroupBy := mkGroupBy (repair (gb_Field g)) (gb_TimeGrain g).
Definition repair_order (o : OrderBy) : OrderBy := mkOrderBy (repair (ob_Field o)) (ob_Direction o).
Definition repair_window (w : WindowSpec) : WindowSpec :=
  mkWindow (w_Aggregation w) (w_Expression w) (w_Expr w) (w_Metric w) (map repair (w_PartitionBy w))
    (map repair_order (w_OrderBy w)) (w_Offset w) (w_Frame w).
Definition repairSelectItemFields (item : SelectItem) : SelectItem :=
  mkSelect (s_Type item)
    (if String.eqb (s_Type item) SelectTypeDimension then repair (s_Name item) else s_Name item)
    (s_Alias item) (s_Filters item) (s_Case item) (s_Formula item) (option_map repair_window (s_Window item)).

(** The HAVING filters of a CTE are left as they are. *)
Definition repairCTEFields (cte : CTE) : CTE :=
  mkCTE (cte_Name cte) (map repairSelectItemFields (cte_Select cte)) (map repair_filter (cte_Filters cte))
    (map repair_group (cte_GroupBy cte)) (cte_Having cte) (map repair_order (cte_OrderBy cte))
    (cte_Limit cte) (cte_Offset cte).
Definition repairLogicalQueryFields (lq : LogicalQuery) : LogicalQuery :=
  mkLQ (Version lq) (DatasourceID lq) (ModelID lq) (CompositeID lq) (map repairSelectItemFields (Select lq))
    (map repair_filter (Filters lq)) (map repair_group (GroupBys lq)) (map repair_filter (Having lq))
    (map repair_order (OrderBys lq)) (Limit lq) (Offset lq) (CTEs lq) (FromSubquery lq) (FromCTE lq)
    (FromAlias lq) (DefaultSchema lq) (TableSchemas lq).
End Fields.

Definition set_CTEs (ctes : list CTE) (lq : LogicalQuery) : LogicalQuery :=
  mkLQ (Version lq) (DatasourceID lq) (ModelID lq) (CompositeID lq) (Select lq) (Filters lq) (GroupBys lq)
    (Having lq) (OrderBys lq) (Limit lq) (Offset lq) ctes (FromSubquery lq) (FromCTE lq) (FromAlias lq)
    (DefaultSchema lq) (TableSchemas lq).

Definition RepairMisnamedCalendarGrainDimensions (lq : LogicalQuery) (knownDimensions : list string) : LogicalQuery :=
  match knownDimensions with
  | [] => lq
  | _ =>
      let repair s := repairOneGrainFieldName s (dim_set knownDimensions) in
      let lq := repairLogicalQueryFields repair lq in
      set_CTEs (map (repairCTEFields repair) (CTEs lq)) lq
  end.
End Repair.

(** * raw_day_filter_repair.go *)

Section RawDay.
Context `{GoRuntime}.

(** [dimByName] *)
Definition dims_by_name (model : SemanticModel) : gmap string Dimension :=
  fold_left (fun m d => <[dim_Name d := d]> m) (model_Dimensions model) ∅.

Definition repairRawTimestampDayEqualityFilter (dimByName : gmap string Dimension) (f : Filter) : Filter :=
  if negb (String.eqb (f_Operator f) OpEq) && negb (String.eqb (f_Operator f) OpNeq) then f
  else if negb (isDateOnlyCalendarValue (f_Value f)) then f
  else match dimByName !! f_Field f with
  | None => f
  | Some dim =>
      if negb (isRawDateTimestampDimension dim) then f else
      let dayField := f_Field f +:+ "_day" in
      match dimByName !! dayField with Some _ => set_f_Field dayField f | None => f end
  end.

Definition RepairRawTimestampDayEqualityFilters (lq : LogicalQuery) (model : SemanticModel) : LogicalQuery :=
  let repair := map (repairRawTimestampDayEqualityFilter (dims_by_name model)) in
  mkLQ (Version lq) (DatasourceID lq) (ModelID lq) (CompositeID lq) (Select lq) (repair (Filters lq)) (GroupBys lq)
    (Having lq) (OrderBys lq) (Limit lq) (Offset lq)
    (map (fun c => mkCTE (cte_Name c) (cte_Select c) (repair (cte_Filters c)) (cte_GroupBy c) (cte_Having c)
                     (cte_OrderBy c) (cte_Limit c) (cte_Offset c)) (CTEs lq))
    (FromSubquery lq) (FromCTE lq) (FromAlias lq) (DefaultSchema lq) (TableSchemas lq).
End RawDay.

(** * What the repair of a name is *)

(** The name ends with the grain suffix and has [base] before an underscore. *)
Definition like (base suf d : string) : Prop :=
  (exists u, d = u +:+ suf) /\ (exists t, d = (base +:+ "_") +:+ t).

(** [r] is what [field] stands for among [dims]: the timestamp column's own
    dimension, else the only dimension with the same stem and grain. *)
Definition corrects (dims : list string) (field r : string) : Prop :=
  exists base suf, suf ∈ calendarGrainSuffixes /\ base <> "" /\ field = base +:+ suf /\ r ∈ dims /\
    (r = base +:+ "_ts" +:+ suf \/
     (base +:+ "_ts" +:+ suf) ∉ dims /\ like base suf r /\ forall r', r' ∈ dims -> like base suf r' -> r' = r).

Section Names.
Context `{MapOrder}.

Lemma unique_loop_found np suf dims found : found <> "" ->
  unique_loop np suf dims found =
  match List.filter (fun d => HasSuffix d suf && HasPrefix d np) dims with [] => (found, true) | _ => ("", false) end.
Proof using.
  intros Hf. assert (str_empty found = false) as He by (by apply String.eqb_neq).
  induction dims as [|d dims IH]; cbn [unique_loop List.filter]; [by rewrite He|].
  destruct (HasSuffix d suf), (HasPrefix d np); cbn [negb orb andb]; try done. by rewrite He.
Qed.

Lemma unique_loop_spec np suf dims : Forall (fun d => HasSuffix d suf = true -> d <> "") dims ->
  unique_loop np suf dims "" =
  match List.filter (fun d => HasSuffix d suf && HasPrefix d np) dims with [c] => (c, true) | _ => ("", false) end.
Proof using.
  induction 1 as [|d dims Hd _ IH]; cbn [unique_loop List.filter]; [done|].
  destruct (HasSuffix d suf) eqn:Es, (HasPrefix d np); cbn [negb orb andb]; try done.
  rewrite unique_loop_found by auto. by destruct (List.filter _ dims).
Qed.

Lemma known_spec dims d : known (dim_set dims) d = true <-> d ∈ dims.
Proof using.
  unfold known, dim_set. induction dims as [|x dims IH]; cbn [map list_to_map foldr].
  - rewrite lookup_empty. split; [done|by intros ?%elem_of_nil].
  - rewrite elem_of_cons. change (list_to_map ((x, true) :: ?l)) with (<[x:=true]> (list_to_map l : gmap string bool)).
    cbn. destruct (decide (x = d)) as [->|Hne]; [rewrite lookup_insert_eq; naive_solver|].
    rewrite lookup_insert_ne by done. rewrite IH. naive_solver.
Qed.

Lemma keys_spec dims d : d ∈ keys (dim_set dims) <-> d ∈ dims.
Proof using.
  rewrite elem_of_keys, <- known_spec. unfold known. split.
  - intros [b Hl]. rewrite Hl. unfold dim_set in Hl.
    apply elem_of_list_to_map_2, list_elem_of_fmap in Hl as (? & ? & _). by simplify_eq.
  - destruct (dim_set dims !! d) as [b|]; [by eexists|done].
Qed.

Lemma like_spec base suf d : HasSuffix d suf && HasPrefix d (base +:+ "_") = true <-> like base suf d.
Proof using. by rewrite andb_true_iff, HasSuffix_spec, HasPrefix_spec. Qed.

(** Some name other than those of the list has the same stem and grain, or none. *)
Lemma uniqueDimensionWithSuffix_spec dims base suf c : suf <> "" ->
  uniqueDimensionWithSuffix (dim_set dims) base suf = (c, true) <->
  c ∈ dims /\ like base suf c /\ forall r', r' ∈ dims -> like base suf r' -> r' = c.
Proof using.
  intros Hsuf. unfold uniqueDimensionWithSuffix. rewrite unique_loop_spec.
  2:{ apply Forall_forall. intros d _ (p & ->)%HasSuffix_spec. by apply app_nonempty_r. }
  set (p := fun d => HasSuffix d suf && HasPrefix d (base +:+ "_")).
  assert (NoDup (List.filter p (keys (dim_set dims)))) as Hnd
    by apply NoDup_ListNoDup, List.NoDup_filter, NoDup_ListNoDup, keys_NoDup.
  assert (forall d, d ∈ List.filter p (keys (dim_set dims)) <-> d ∈ dims /\ like base suf d) as Hin.
  { intros d. rewrite list_elem_of_In, filter_In, <- list_elem_of_In, keys_spec. unfold p. by rewrite like_spec. }
  destruct (List.filter p (keys (dim_set dims))) as [|x [|y l]].
  - split; [done|]. intros (Hc & Hl & _). by destruct (proj1 (elem_of_nil c) (proj2 (Hin c) (conj Hc Hl))).
  - split.
    + intros [= ->]. specialize (Hin c) as Hc. rewrite list_elem_of_singleton in Hc. destruct Hc as [[Hc Hl] _]; [done|].
      split_and!; [done|done|]. intros r' Hr Hlr. by apply list_elem_of_singleton, Hin.
    + intros (Hc & Hl & _). assert (c ∈ [x]) as ->%list_elem_of_singleton by (by apply Hin). done.
  - split; [done|]. intros (_ & _ & Hu). apply NoDup_cons in Hnd as [Hx _]. destruct Hx.
    assert (x = c) as -> by (destruct (proj1 (Hin x)) as []; [by left|by apply Hu]).
    assert (y = c) as -> by (destruct (proj1 (Hin y)) as []; [by right; left|by apply Hu]). by left.
Qed.

(** No suffix ends with another one. *)
Lemma suffix_unique s1 s2 a b : s1 ∈ calendarGrainSuffixes -> s2 ∈ calendarGrainSuffixes ->
  a +:+ s1 = b +:+ s2 -> s1 = s2 /\ a = b.
Proof using.
  assert (forall s s', s ∈ calendarGrainSuffixes -> s' ∈ calendarGrainSuffixes -> HasSuffix s' s = true -> s = s') as Hno.
  { assert (Forall (fun s => Forall (fun s' => negb (HasSuffix s' s) || String.eqb s s' = true) calendarGrainSuffixes)
      calendarGrainSuffixes) as Hf by (by repeat constructor).
    intros s s' Hs Hs' Ht. rewrite Forall_forall in Hf. pose proof (Hf s Hs) as Hg. rewrite Forall_forall in Hg.
    specialize (Hg s' Hs'). rewrite Ht in Hg. by apply String.eqb_eq. }
  intros H1 H2 [(v & -> & ->)|(v & -> & ->)]%split_suffix.
  - assert (s1 = v +:+ s1) as Hv by (apply Hno; [done|done|]; by apply HasSuffix_spec; exists v). rewrite <- Hv. split; [done|].
    assert (v = "") as ->; [|by rewrite app_nil_r]. apply (f_equal String.length) in Hv. rewrite length_app in Hv. destruct v; [done|cbn in Hv; lia].
  - assert (s2 = v +:+ s2) as Hv by (apply Hno; [done|done|]; by apply HasSuffix_spec; exists v). rewrite <- Hv. split; [done|].
    assert (v = "") as ->; [|by rewrite app_nil_r]. apply (f_equal String.length) in Hv. rewrite length_app in Hv. destruct v; [done|cbn in Hv; lia].
Qed.

(** The correction of a name, if it has one, is the only one. *)
Lemma corrects_unique dims field r1 r2 : corrects dims field r1 -> corrects dims field r2 -> r1 = r2.
Proof using.
  intros (b & s & Hs & _ & Hf & Hr1 & H1) (b' & s' & Hs' & _ & Hf' & Hr2 & H2). rewrite Hf in Hf'.
  apply suffix_unique in Hf' as [<- <-]; [|done..].
  destruct H1 as [->|(Hn1 & Hl1 & Hu1)], H2 as [->|(Hn2 & Hl2 & Hu2)]; [done|done|done|by apply Hu2].
Qed.

Lemma grain_loop_spec suffixes dims field : Forall (fun s => s ∈ calendarGrainSuffixes) suffixes ->
  (exists r, corrects dims field r /\ grain_loop suffixes (dim_set dims) field = r) \/
  grain_loop suffixes (dim_set dims) field = field /\
    (forall base suf r, suf ∈ suffixes -> base <> "" -> field = base +:+ suf -> r ∈ dims ->
       r <> base +:+ "_ts" +:+ suf /\ ~ (like base suf r /\ forall r', r' ∈ dims -> like base suf r' -> r' = r)).
Proof using.
  induction 1 as [|suf suffixes Hs Hss IH]; cbn [grain_loop].
  { right. split; [done|]. by intros ??? ?%elem_of_nil. }
  destruct (HasSuffix field suf) eqn:Eh; cbn [negb].
  2:{ destruct IH as [?|[He IH]]; [by left|right]. split; [done|]. intros base suf' r [->|Hin]%elem_of_cons Hb Hf; [|by apply IH].
      rewrite Hf in Eh. exfalso. apply not_true_iff_false in Eh. apply Eh, HasSuffix_spec. by exists base. }
  apply HasSuffix_spec in Eh as [base ->]. rewrite TrimSuffix_app. cbv zeta.
  assert (forall base', base +:+ suf = base' +:+ suf -> base' = base) as Hsame.
  { intros base' Hb. apply suffix_unique in Hb as [_ ->]; done. }
  destruct (str_empty base) eqn:Eb.
  { apply str_empty_spec in Eb as ->. destruct IH as [?|[He IH]]; [by left|right]. split; [done|].
    intros base' suf' r [->|Hin]%elem_of_cons Hb Hf; [|by apply IH]. by rewrite (Hsame base' Hf) in Hb. }
  apply str_empty_false in Eb.
  destruct (known (dim_set dims) (base +:+ "_ts" +:+ suf)) eqn:Ek.
  { apply known_spec in Ek. left. eexists. split; [|done]. exists base, suf. split_and!; try done. by left. }
  apply not_true_iff_false in Ek. rewrite known_spec in Ek.
  assert (Forall (fun s => s <> "") calendarGrainSuffixes) as Hne by (by repeat constructor).
  rewrite Forall_forall in Hne. specialize (Hne suf Hs).
  destruct (uniqueDimensionWithSuffix (dim_set dims) base suf) as [c [|]] eqn:Eu.
  { apply uniqueDimensionWithSuffix_spec in Eu as (Hc & Hl & Hu); [|done]. left. exists c. split; [|done].
    exists base, suf. split_and!; try done. by right. }
  destruct IH as [?|[He IH]]; [by left|right]. split; [done|].
  intros base' suf' r [->|Hin]%elem_of_cons Hb Hf Hr; [|by apply IH]. rewrite (Hsame base' Hf). split; [by intros ->|].
  intros [Hl Hu]. pose proof (proj2 (uniqueDimensionWithSuffix_spec dims base suf r Hne) (conj Hr (conj Hl Hu))). congruence.
Qed.

(** A name that no dimension has is replaced by its correction, when it has one;
    every other name stays. *)
Lemma repair_spec dims field :
  let r := repairOneGrainFieldName field (dim_set dims) in
  (field ∈ dims \/ field = "") /\ r = field \/
  field ∉ dims /\ field <> "" /\ (corrects dims field r \/ r = field /\ forall r', ~ corrects dims field r').
Proof using.
  cbv zeta. unfold repairOneGrainFieldName. destruct (str_empty field || known (dim_set dims) field) eqn:E.
  - left. apply orb_true_iff in E as [E%str_empty_spec|E%known_spec]; auto.
  - apply orb_false_iff in E as [E%str_empty_false Ek]. apply not_true_iff_false in Ek. rewrite known_spec in Ek.
    right. split_and!; [done|done|].
    destruct (grain_loop_spec calendarGrainSuffixes dims field) as [(r & Hr & ->)|[-> Hno]]; [by apply Forall_forall|by left|].
    right. split; [done|]. intros r (base & suf & Hs & Hb & Hf & Hr & [->|(_ & Hl & Hu)]); by destruct (Hno _ _ _ Hs Hb Hf Hr) as [H1 H2]; auto.
Qed.

Lemma repair_known dims field r : repairOneGrainFieldName field (dim_set dims) = r -> r <> field -> r ∈ dims.
Proof using.
  intros <- Hne. destruct (repair_spec dims field) as [[_ ?]|(_ & _ & [(b & s & _ & _ & _ & Hr & _)|[? _]])]; done.
Qed.

Lemma repair_idem dims field :
  repairOneGrainFieldName (repairOneGrainFieldName field (dim_set dims)) (dim_set dims) =
  repairOneGrainFieldName field (dim_set dims).
Proof using.
  destruct (decide (repairOneGrainFieldName field (dim_set dims) = field)) as [He|Hne]; [by rewrite !He|].
  pose proof (repair_known _ _ _ eq_refl Hne) as Hk. unfold repairOneGrainFieldName at 1.
  by rewrite (proj2 (known_spec _ _) Hk), orb_true_r.
Qed.
End Names.

(** * Repaired queries *)

Section Queries.
Context `{MapOrder}.

Lemma map_idem {A} (f : A -> A) l : (forall x, f (f x) = f x) -> map f (map f l) = map f l.
Proof using. intros Hf. rewrite List.map_map. by apply List.map_ext. Qed.

Context (repair : string -> string) (Hr : forall s, repair (repair s) = repair s).

Lemma repair_filter_idem f : repair_filter repair (repair_filter repair f) = repair_filter repair f.
Proof using Hr. unfold repair_filter. cbn. by rewrite Hr. Qed.
Lemma repair_group_idem g : repair_group repair (repair_group repair g) = repair_group repair g.
Proof using Hr. unfold repair_group. cbn. by rewrite Hr. Qed.
Lemma repair_order_idem o : repair_order repair (repair_order repair o) = repair_order repair o.
Proof using Hr. unfold repair_order. cbn. by rewrite Hr. Qed.
Lemma repair_item_idem i : repairSelectItemFields repair (repairSelectItemFields repair i) = repairSelectItemFields repair i.
Proof using Hr.
  unfold repairSelectItemFields. cbn [s_Type s_Name s_Alias s_Filters s_Case s_Formula s_Window]. f_equal.
  - destruct (String.eqb _ _); [apply Hr|done].
  - destruct (s_Window i) as [w|]; [|done]. cbn [option_map]. unfold repair_window. cbn. f_equal.
    by rewrite !map_idem by auto using repair_order_idem.
Qed.
Lemma repair_cte_idem c : repairCTEFields repair (repairCTEFields repair c) = repairCTEFields repair c.
Proof using Hr.
  unfold repairCTEFields. cbn. by rewrite !map_idem by auto using repair_filter_idem, repair_item_idem, repair_group_idem, repair_order_idem.
Qed.
Lemma repair_query_idem lq : repairLogicalQueryFields repair (repairLogicalQueryFields repair lq) = repairLogicalQueryFields repair lq.
Proof using Hr.
  unfold repairLogicalQueryFields. cbn. by rewrite !map_idem by auto using repair_filter_idem, repair_item_idem, repair_group_idem, repair_order_idem.
Qed.
End Queries.

(** the repair of grain names is exact, and stable.  A name that some dimension
    has, and the empty one, stay; any other name becomes the one dimension it can
    stand for - the timestamp column's own grain, else the only dimension with the
    same stem and grain - and stays when there is none or more than one.  Which it
    is does not depend on the order in which the map of dimensions is read.
    Repairing a repaired query changes nothing more. *)
Theorem grain_repair_exact `{MapOrder} (dims : list string) (field : string) (lq : LogicalQuery) :
  (let r := repairOneGrainFieldName field (dim_set dims) in
   (field ∈ dims \/ field = "") /\ r = field \/
   field ∉ dims /\ field <> "" /\ (corrects dims field r \/ r = field /\ forall r', ~ corrects dims field r')) /\
  (forall order : MapOrder, repairOneGrainFieldName (H := order) field (dim_set dims) = repairOneGrainFieldName (H := H) field (dim_set dims)) /\
  RepairMisnamedCalendarGrainDimensions (RepairMisnamedCalendarGrainDimensions lq dims) dims =
  RepairMisnamedCalendarGrainDimensions lq dims.
Proof.
  split_and!.
  - apply repair_spec.
  - intros order. destruct (repair_spec (H := order) dims field) as [[H1 ->]|(H1 & H2 & H3)],
      (repair_spec (H := H) dims field) as [[H1' ->]|(H1' & H2' & H3')]; try tauto.
    destruct H3 as [H3|[-> H3]], H3' as [H3'|[-> H3']]; [by eapply corrects_unique|by destruct (H3' _ H3)|by destruct (H3 _ H3')|done].
  - unfold RepairMisnamedCalendarGrainDimensions. destruct dims as [|d dims]; [done|]. cbv zeta.
    set (repair s := repairOneGrainFieldName s (dim_set (d :: dims))).
    assert (forall s, repair (repair s) = repair s) as Hr by apply repair_idem.
    pose proof (repair_query_idem repair Hr lq) as Hq.
    unfold set_CTEs, repairLogicalQueryFields in *. cbn in *. injection Hq as -> -> -> -> ->.
    by rewrite map_idem by (by apply repair_cte_idem).
Qed.

Example infix_restored :
  let _ := list_order in
  map (fun f => repairOneGrainFieldName f (dim_set ["created_at_ts_month"; "order_date_year"; "order_day_of_year"; "shipped_utc_day"]))
    ["created_at_month"; "order_year"; "shipped_day"; "_month"; "created_at_week"] =
  ["created_at_ts_month"; "order_year"; "shipped_utc_day"; "_month"; "created_at_week"].
Proof. vm_compute. reflexivity. Qed.
(** The HAVING filters of a CTE keep the name that its other clauses lose. *)
Example cte_having_kept :
  let _ := list_order in
  let f := mkFilter "created_at_month" OpEq (VInt 1) false None in
  let c := repairCTEFields (fun s => repairOneGrainFieldName s (dim_set ["created_at_ts_month"]))
             (mkCTE "c" [] [f] [] [f] [] 0 0) in
  (map f_Field (cte_Filters c), map f_Field (cte_Having c)) = (["created_at_ts_month"], ["created_at_month"]).
Proof. vm_compute. reflexivity. Qed.
