(* ===== verification/Pagination.v ===== *)
(** The total row count of a paginated query: [stripPagination] and the count
    statement of [computeTotalCount], in [internal/core/query_service.go].

    The regular expressions are anchored at the end of the text, so a replacement
    removes one suffix: the longest one that matches. *)

From stdpp Require Import pretty.
From S2P Require Import Prelude GoStrings Dialect ReadOnly.
From stdpp Require Import options.
#[local] Open Scope Z_scope.

(** \s+ and \d+ at the start of the text: what follows. *)
Definition some1 (p : ascii -> bool) (s : string) : option string :=
  let '(w, r) := span p s in if str_empty w then None else Some r.

(** \s+kw\s+\d+ *)
Definition number_clause (kw s : string) : option string :=
  r ← some1 is_re_space s; r ← match_fold kw r; r ← some1 is_re_space r; some1 is_digit r.

(** (?i)\s+OFFSET\s+\d+$ *)
Definition offset_tail (s : string) : bool :=
  match number_clause "OFFSET" s with Some r => str_empty r | None => false end.

(** (?i)\s+LIMIT\s+\d+(?:\s+OFFSET\s+\d+)?$ *)
Definition limit_tail (s : string) : bool :=
  match number_clause "LIMIT" s with Some r => str_empty r || offset_tail r | None => false end.

(** .+$ *)
Definition line_tail (s : string) : bool := negb (str_empty s) && negb (has_byte newline s).

(** \s+.+$ *)
Fixpoint spaced_tail (s : string) : bool :=
  match s with
  | EmptyString => false
  | String c r => is_re_space c && (line_tail r || spaced_tail r)
  end.

(** (?i)\s+ORDER\s+BY\s+.+$ *)
Definition order_head (s : string) : option string :=
  r ← some1 is_re_space s; r ← match_fold "ORDER" r; r ← some1 is_re_space r; match_fold "BY" r.
Definition order_tail (s : string) : bool :=
  match order_head s with Some r => spaced_tail r | None => false end.

(** [ReplaceAllString] of such a pattern by nothing. *)
Fixpoint cut_tail (p : string -> bool) (s : string) : string :=
  if p s then EmptyString else
  match s with
  | EmptyString => EmptyString
  | String c s' => String c (cut_tail p s')
  end.

Definition stripPagination (rawSQL : string) : string :=
  let s := TrimSpace rawSQL in
  let s := cut_tail offset_tail s in
  let stripped := cut_tail limit_tail s in
  if String.eqb s stripped then rawSQL else cut_tail order_tail stripped.

Definition count_statement (querySQL : string) : string := "SELECT COUNT(*) FROM (" +:+ querySQL +:+ ") AS _cnt".

(** The statement [computeTotalCount] sends, if it sends one. *)
Definition count_query (sql : string) : option string :=
  let querySQL := stripPagination sql in
  if String.eqb querySQL sql then None else Some (count_statement querySQL).

Example page_of_orders :
  count_query "SELECT region FROM orders ORDER BY region ASC LIMIT 10 OFFSET 20" =
  Some "SELECT COUNT(*) FROM (SELECT region FROM orders) AS _cnt".
Proof. reflexivity. Qed.
Example no_page : count_query "SELECT TOP 10 region FROM orders ORDER BY region" = None.
Proof. reflexivity. Qed.
(** The search for ORDER BY starts at the first one of the statement, which may be
    inside a window: the parenthesis stays open, and the database refuses the count. *)
Example window_cut :
  count_query "SELECT RANK() OVER (PARTITION BY region ORDER BY total DESC) FROM orders LIMIT 5" =
  Some "SELECT COUNT(*) FROM (SELECT RANK() OVER (PARTITION BY region) AS _cnt".
Proof. reflexivity. Qed.

(** * What is stripped *)

Definition digits (s : string) : Prop := s <> "" /\ str_forallb is_digit s = true.

Lemma some1_spec p s r : some1 p s = Some r <->
  exists w, s = w +:+ r /\ w <> "" /\ str_forallb p w = true /\ head_is p r = false.
Proof.
  unfold some1. destruct (span p s) as [w r'] eqn:E. pose proof (span_spec p s) as Hs. rewrite E in Hs. cbn in Hs.
  destruct Hs as (-> & Hw & Hr). split.
  - destruct (str_empty w) eqn:Ew; [done|]. intros [= <-]. exists w. apply str_empty_false in Ew. by split_and!.
  - intros (w' & Ha & Hne & Hw' & Hr'). assert (w = w' /\ r' = r) as [-> ->].
    { pose proof (span_app p w r' Hw Hr) as H1. rewrite Ha, (span_app p w' r Hw' Hr') in H1. by simplify_eq. }
    by rewrite (proj2 (str_empty_false w') Hne).
Qed.

(** The text does not end with a space of the patterns. *)
Definition tight (v : string) : Prop := forall a c, v = a +:+ String c "" -> is_re_space c = false.

Lemma tight_suffix w v : tight (w +:+ v) -> tight v.
Proof. intros H a c ->. apply (H (w +:+ a) c). by rewrite app_assoc. Qed.

Lemma space_not_digit c : negb (is_re_space c && is_digit c) = true.
Proof. revert c. by apply ascii_forallb. Qed.
Lemma upper_re_space c : is_re_space (upper c) = is_re_space c.
Proof. apply eqb_true_iff. revert c. by apply ascii_forallb. Qed.

Section Within.
(** [t] is a clause that follows [v]: a match that starts in [v] ends in [v]. *)
Context (t : string) (Ht : head_is is_re_space t = true).

Lemma head_space_not_digit : head_is is_digit t = false.
Proof using Ht.
  destruct t as [|c u]; [done|]. cbn in *. pose proof (space_not_digit c). by destruct (is_digit c), (is_re_space c).
Qed.

Lemma within_spaces v r : tight v -> v <> "" -> some1 is_re_space (v +:+ t) = Some r ->
  exists v', some1 is_re_space v = Some v' /\ r = v' +:+ t /\ tight v' /\ v' <> "".
Proof using.
  intros Hv Hne (w & Ha & Hw & Hall & Hr)%some1_spec.
  destruct (span is_re_space v) as [w' v'] eqn:E. pose proof (span_spec is_re_space v) as Hs. rewrite E in Hs.
  cbn in Hs. destruct Hs as (-> & Hw' & Hv').
  assert (v' <> "") as Hne'.
  { intros ->. rewrite app_nil_r in *. clear -Hv Hne Hw'. revert Hv Hne Hw'. induction w' as [|c w' IH]; [done|].
    cbn. intros Hv _ [Hc Hw']%andb_true_iff. destruct w' as [|c' w'].
    - pose proof (Hv "" c eq_refl). congruence.
    - apply IH; [|done|done]. intros a d Hd. apply (Hv (String c a) d). by rewrite app_cons, Hd. }
  exists v'. rewrite app_assoc in Ha.
  assert (head_is is_re_space (v' +:+ t) = false) as Hh by (by destruct v').
  pose proof (span_app _ _ _ Hw' Hh) as H1. rewrite Ha, (span_app _ _ _ Hall Hr) in H1. simplify_eq.
  split_and!; [|done|by apply tight_suffix in Hv|done]. unfold some1. rewrite E.
  by rewrite (proj2 (str_empty_false w') Hw).
Qed.

Lemma within_word kw v r : str_forallb (fun c => negb (is_re_space (upper c))) kw = true -> tight v ->
  match_fold kw (v +:+ t) = Some r -> exists v', match_fold kw v = Some v' /\ r = v' +:+ t /\ tight v'.
Proof using Ht.
  revert v. induction kw as [|k kw IH]; intros v Hk Hv Hm; cbn [match_fold] in *.
  - injection Hm as <-. by exists v.
  - cbn in Hk. apply andb_true_iff in Hk as [Hk Hkw]. destruct v as [|c v].
    + rewrite app_nil_l in Hm. destruct t as [|c u]; [done|]. exfalso. cbn in Ht, Hm.
      destruct (Ascii.eqb_spec (upper k) (upper c)) as [Heq|]; [|done]. rewrite Heq in Hk.
      by rewrite upper_re_space, Ht in Hk.
    + rewrite app_cons in Hm. cbn [match_fold] in Hm. destruct (Ascii.eqb _ _); [|done].
      apply IH; [done| |done]. by apply (tight_suffix (String c "")).
Qed.

Lemma within_digits v r : tight v -> some1 is_digit (v +:+ t) = Some r -> exists v', r = v' +:+ t /\ tight v'.
Proof using Ht.
  intros Hv (w & Ha & Hw & Hall & Hr)%some1_spec.
  destruct (span is_digit v) as [w' v'] eqn:E. pose proof (span_spec is_digit v) as Hs. rewrite E in Hs.
  cbn in Hs. destruct Hs as (-> & Hw' & Hv'). exists v'. rewrite app_assoc in Ha.
  assert (head_is is_digit (v' +:+ t) = false) as Hh.
  { destruct v'; [|done]. rewrite app_nil_l. apply head_space_not_digit. }
  pose proof (span_app _ _ _ Hw' Hh) as H1. rewrite Ha, (span_app _ _ _ Hall Hr) in H1. simplify_eq.
  split; [done|]. by apply tight_suffix in Hv.
Qed.

(** What a LIMIT or OFFSET clause found in [v] leaves contains [t]. *)
Lemma within_number kw v r : str_forallb (fun c => negb (is_re_space (upper c))) kw = true -> tight v -> v <> "" ->
  (r ← some1 is_re_space t; some1 is_digit r) = None ->
  number_clause kw (v +:+ t) = Some r -> exists v', r = v' +:+ t /\ tight v'.
Proof using Ht.
  intros Hk Hv Hne Hnd. unfold number_clause.
  destruct (some1 _ (v +:+ t)) as [r1|] eqn:E1; [|done]. apply within_spaces in E1 as (v1 & _ & -> & Hv1 & Hne1); [|done..].
  cbn [mbind option_bind]. destruct (match_fold _ _) as [r2|] eqn:E2; [|done].
  apply within_word in E2 as (v2 & _ & -> & Hv2); [|done..]. cbn [mbind option_bind].
  destruct (decide (v2 = "")) as [->|Hne2]; [rewrite app_nil_l; intros Hc; cbn in Hc, Hnd; congruence|].
  destruct (some1 is_re_space (v2 +:+ t)) as [r3|] eqn:E3; [|done].
  apply within_spaces in E3 as (v3 & _ & -> & Hv3 & Hne3); [|done..]. cbn [mbind option_bind].
  by apply within_digits.
Qed.

Lemma within_order v r : tight v -> v <> "" ->
  (r ← some1 is_re_space t; match_fold "BY" r) = None ->
  order_head (v +:+ t) = Some r -> order_head v <> None.
Proof using Ht.
  intros Hv Hne Hnd. unfold order_head.
  destruct (some1 _ (v +:+ t)) as [r1|] eqn:E1; [|done]. apply within_spaces in E1 as (v1 & -> & -> & Hv1 & Hne1); [|done..].
  cbn [mbind option_bind]. destruct (match_fold "ORDER" (v1 +:+ t)) as [r2|] eqn:E2; [|done].
  apply within_word in E2 as (v2 & -> & -> & Hv2); [|done..]. cbn [mbind option_bind].
  destruct (decide (v2 = "")) as [->|Hne2]; [rewrite app_nil_l; intros Hc; cbn in Hc, Hnd; congruence|].
  destruct (some1 is_re_space (v2 +:+ t)) as [r3|] eqn:E3; [|done].
  apply within_spaces in E3 as (v3 & -> & -> & Hv3 & Hne3); [|done..]. cbn [mbind option_bind].
  intros (v4 & -> & _)%within_word; done.
Qed.
End Within.

Lemma cut_tail_app p a t : p t = true -> (forall b c v, a = b +:+ String c v -> p (String c v +:+ t) = false) ->
  cut_tail p (a +:+ t) = a.
Proof.
  intros Hp Ha. induction a as [|c a IH].
  - rewrite app_nil_l. destruct t as [|c t]; cbn [cut_tail]; by rewrite Hp.
  - pose proof (Ha "" c a eq_refl) as Hc. rewrite app_cons in *. cbn [cut_tail]. rewrite Hc.
    rewrite IH; [done|]. intros b d v ->. by apply (Ha (String c b) d v).
Qed.
Lemma cut_tail_none p a : (forall b v, a = b +:+ v -> p v = false) -> cut_tail p a = a.
Proof.
  induction a as [|c a IH]; intros Ha; cbn [cut_tail]; rewrite (Ha "") by done; [done|].
  rewrite IH; [done|]. intros b v ->. by apply (Ha (String c b) v).
Qed.

Lemma pretty_char_digit x : is_digit (pretty_N_char x) = true.
Proof. unfold pretty_N_char. by repeat case_match. Qed.
Lemma pretty_go_digits x s : str_forallb is_digit s = true -> str_forallb is_digit (pretty_N_go x s) = true.
Proof.
  revert s. induction (N.lt_wf_0 x) as [x _ IH]. intros s Hs.
  destruct (decide (x = 0%N)) as [->|]; [by rewrite pretty_N_go_0|]. rewrite pretty_N_go_step by lia.
  apply IH; [apply N.div_lt; lia|]. cbn [str_forallb]. by rewrite pretty_char_digit.
Qed.
Lemma pretty_go_nonempty x s : s <> "" -> pretty_N_go x s <> "".
Proof.
  revert s. induction (N.lt_wf_0 x) as [x _ IH]. intros s Hs.
  destruct (decide (x = 0%N)) as [->|]; [by rewrite pretty_N_go_0|]. rewrite pretty_N_go_step by lia.
  apply IH; [apply N.div_lt; lia|done].
Qed.
Lemma Itoa_digits n : 0 < n -> digits (Itoa n).
Proof.
  intros Hn. destruct n as [|p|p]; [lia| |lia]. unfold Itoa, digits.
  change (pretty (Z.pos p)) with (pretty_N_go (N.pos p) ""). split; [|by apply pretty_go_digits].
  rewrite pretty_N_go_step by lia. by apply pretty_go_nonempty.
Qed.

Lemma trim_right_last p a c : p c = false -> trim_right p (a +:+ String c "") = a +:+ String c "".
Proof.
  intros Hc. induction a as [|d a IH]; [rewrite app_nil_l; cbn; by rewrite Hc|]. rewrite app_cons. cbn [trim_right]. rewrite IH.
  by destruct (a +:+ String c "") eqn:E; [destruct a|].
Qed.
Lemma last_char s : s <> "" -> exists a c, s = a +:+ String c "".
Proof.
  induction s as [|c s IH]; [done|]. intros _. destruct (decide (s = "")) as [->|Hs]; [by exists "", c|].
  destruct (IH Hs) as (a & d & ->). by exists (String c a), d.
Qed.
Lemma TrimSpace_page b n : b <> "" -> head_is is_space b = false -> digits n -> TrimSpace (b +:+ n) = b +:+ n.
Proof.
  intros Hb Hh [Hn Hd]. unfold TrimSpace.
  assert (trim_left is_space (b +:+ n) = b +:+ n) as ->.
  { destruct b as [|c b]; [done|]. rewrite app_cons. cbn in *. by rewrite Hh. }
  destruct (last_char n Hn) as (a & c & ->). rewrite <- app_assoc. apply trim_right_last.
  rewrite str_forallb_app in Hd. apply andb_true_iff in Hd as [_ Hd]. cbn in Hd. rewrite andb_true_r in Hd.
  pose proof (ascii_forallb (fun c => negb (is_space c && is_digit c)) eq_refl c) as Hc. cbn in Hc.
  rewrite Hd, andb_true_r in Hc. by apply negb_true_iff in Hc.
Qed.

Lemma snoc_inj a b c d : a +:+ String c "" = b +:+ String d "" -> c = d.
Proof.
  revert b. induction a as [|x a IH]; intros b.
  - rewrite app_nil_l. destruct b as [|y b]; [rewrite app_nil_l; by intros [= ->]|]. rewrite app_cons. by destruct b.
  - rewrite app_cons. destruct b as [|y b]; [rewrite app_nil_l; by destruct a|]. rewrite app_cons. intros [= _ Hab]. by eapply IH.
Qed.
Lemma tight_app a b : b <> "" -> tight b -> tight (a +:+ b).
Proof.
  intros (b' & d & ->)%last_char Hb x c Hx. rewrite <- app_assoc in Hx. apply snoc_inj in Hx as <-. by apply (Hb b' d).
Qed.

Lemma some1_space x : head_is is_re_space x = false -> some1 is_re_space (" " +:+ x) = Some x.
Proof. intros Hx. apply some1_spec. by exists " ". Qed.

Lemma digit_upper c : is_digit (upper c) = is_digit c.
Proof. apply eqb_true_iff. revert c. by apply ascii_forallb. Qed.
(** A clause of the compiler: a space, a word, a space, a number. *)
Lemma number_clause_page kw k n r : match_fold kw (k +:+ " " +:+ n +:+ r) = Some (" " +:+ n +:+ r) ->
  head_is is_re_space (k +:+ " ") = false -> digits n -> head_is is_digit r = false ->
  number_clause kw (" " +:+ k +:+ " " +:+ n +:+ r) = Some r.
Proof.
  intros Hm Hk [Hn Hd] Hr. unfold number_clause.
  rewrite some1_space by (by destruct k). cbn [mbind option_bind]. rewrite Hm. cbn [mbind option_bind]. rewrite some1_space.
  - cbn [mbind option_bind]. apply some1_spec. by exists n.
  - destruct n as [|c n]; [done|]. cbn in *. apply andb_true_iff in Hd as [Hc _]. pose proof (space_not_digit c) as Hs.
    rewrite Hc, andb_true_r in Hs. by apply negb_true_iff in Hs.
Qed.

Section Page.
Context (body order : string) (limit offset : Z).

(** No ORDER BY starts in the text. *)
Definition unordered (s : string) : Prop := forall a b, s = a +:+ b -> order_head b = None.
Definition ordering (s : string) : Prop :=
  s = "" \/ exists o, s = " ORDER BY " +:+ o /\ o <> "" /\ has_byte newline o = false /\ tight o.

Context (Hl : 0 < limit) (Hb : body <> "") (Hh : head_is is_space body = false) (Ht : tight body).
Context (Hu : unordered body) (Ho : ordering order).


Lemma ordered_tight : tight (body +:+ order).
Proof using Ht Ho.
  destruct Ho as [->|(o & -> & Hne & _ & Hto)]; [by rewrite app_nil_r|].
  by apply tight_app; [done|]; apply tight_app.
Qed.

Lemma order_tail_ordering : order <> "" -> order_tail order = true.
Proof using Ho.
  destruct Ho as [->|(o & -> & Hne & Hnl & _)]; [done|]. intros _. unfold order_tail.
  change (" ORDER BY " +:+ o) with (" " +:+ "ORDER" +:+ " " +:+ "BY" +:+ " " +:+ o).
  assert (order_head (" " +:+ "ORDER" +:+ " " +:+ "BY" +:+ " " +:+ o) = Some (" " +:+ o)) as ->.
  { unfold order_head. rewrite some1_space by done. cbn [mbind option_bind].
    rewrite (proj2 (match_fold_spec "ORDER" _ _) (ex_intro _ "ORDER" (conj eq_refl eq_refl))). cbn [mbind option_bind].
    rewrite some1_space by done. cbn [mbind option_bind].
    by rewrite (proj2 (match_fold_spec "BY" _ _) (ex_intro _ "BY" (conj eq_refl eq_refl))). }
  change (" " +:+ o) with (String " " o). cbn [spaced_tail].
  assert (line_tail o = true) as ->; [|done]. unfold line_tail. by rewrite (proj2 (str_empty_false o) Hne), Hnl.
Qed.

Lemma body_cut : cut_tail order_tail (body +:+ order) = body.
Proof using Hb Ht Hu Ho.
  assert (forall b v, body = b +:+ v -> order_tail v = false) as Hno.
  { intros b v Hv. unfold order_tail. by rewrite (Hu _ _ Hv). }
  destruct (decide (order = "")) as [->|Hne]; [rewrite app_nil_r; by apply cut_tail_none|].
  apply cut_tail_app; [by apply order_tail_ordering|]. intros b c v Hv. unfold order_tail.
  destruct (order_head (String c v +:+ order)) as [r|] eqn:E; [|done]. exfalso.
  apply within_order in E; [by rewrite (Hu _ _ Hv) in E|..].
  all: destruct Ho as [?|(o & -> & _)]; try done. rewrite Hv in Ht. by apply tight_suffix in Ht.
Qed.


Lemma limit_cut t : head_is is_re_space t = true -> (r ← some1 is_re_space t; some1 is_digit r) = None ->
  offset_tail t = false -> limit_tail t = true -> cut_tail limit_tail (body +:+ order +:+ t) = body +:+ order.
Proof using Hb Ht Ho.
  intros Hs Hd Hof Hli. rewrite <- app_assoc. apply cut_tail_app; [done|]. intros b c v Hv.
  assert (tight (String c v)) as Htv by (eapply tight_suffix; rewrite <- Hv; apply ordered_tight).
  unfold limit_tail. destruct (number_clause _ _) as [r|] eqn:E; [|done].
  apply within_number in E as (v' & -> & Hv'); [|done..].
  destruct (decide (v' = "")) as [->|Hne]; [rewrite app_nil_l, Hof; by destruct t|].
  unfold offset_tail. destruct (number_clause "OFFSET" _) as [r|] eqn:E.
  - apply within_number in E as (v2 & -> & _); [|done..]. destruct v', v2, t; done.
  - by destruct v'.
Qed.

Lemma offset_cut x t : tight x -> x <> "" -> head_is is_re_space t = true ->
  (r ← some1 is_re_space t; some1 is_digit r) = None -> offset_tail t = true -> cut_tail offset_tail (x +:+ t) = x.
Proof using.
  intros Hx Hne Hs Hd Hof. apply cut_tail_app; [done|]. intros b c v Hv.
  assert (tight (String c v)) as Htv by (eapply tight_suffix; by rewrite <- Hv).
  unfold offset_tail. destruct (number_clause _ _) as [r|] eqn:E; [|done].
  apply within_number in E as (v' & -> & Hv'); [|done..]. by destruct v', t.
Qed.

Definition limit_text : string := " LIMIT " +:+ Itoa limit.

Lemma limit_text_clause r : head_is is_digit r = false -> number_clause "LIMIT" (limit_text +:+ r) = Some r.
Proof using Hl.
  intros Hr. unfold limit_text. change (" LIMIT " +:+ Itoa limit) with (" " +:+ "LIMIT" +:+ " " +:+ Itoa limit).
  rewrite !app_assoc. apply number_clause_page; [by apply match_fold_spec; exists "LIMIT"|done|by apply Itoa_digits|done].
Qed.
Lemma digits_tight n : digits n -> tight n.
Proof using.
  intros [_ Hd] a c ->. rewrite str_forallb_app in Hd. apply andb_true_iff in Hd as [_ Hd]. cbn in Hd.
  rewrite andb_true_r in Hd. pose proof (space_not_digit c) as Hc. rewrite Hd, andb_true_r in Hc. by apply negb_true_iff in Hc.
Qed.
Lemma digits_no_clause n b v kw : digits n -> n = b +:+ v -> number_clause kw v = None.
Proof using.
  intros [_ Hd] ->. rewrite str_forallb_app in Hd. apply andb_true_iff in Hd as [_ Hd]. unfold number_clause.
  destruct (some1 is_re_space v) as [r|] eqn:E; [|done]. apply some1_spec in E as (w & -> & Hw & Hs & _).
  destruct w as [|c w]; [done|]. cbn in Hd, Hs. apply andb_true_iff in Hd as [Hc _]. apply andb_true_iff in Hs as [Hs _].
  pose proof (space_not_digit c) as Hn. by rewrite Hc, Hs in Hn.
Qed.

(** Without an OFFSET clause nothing is cut first. *)
Lemma no_offset : cut_tail offset_tail (body +:+ order +:+ limit_text) = body +:+ order +:+ limit_text.
Proof using Hl Hb Ht Ho.
  rewrite <- app_assoc. apply cut_tail_none. intros b v Hv.
  assert (head_is is_re_space limit_text = true) as Hs by done.
  pose proof (Itoa_digits limit Hl) as Hd.
  apply split_suffix in Hv as [(v' & -> & Hv')|(b' & -> & Hb')].
  - destruct (decide (v' = "")) as [->|Hne]; [done|].
    assert (tight v') as Htv by (eapply tight_suffix; rewrite <- Hv'; apply ordered_tight).
    unfold offset_tail. destruct (number_clause _ _) as [r|] eqn:E; [|done].
    apply within_number in E as (r' & -> & _); [|done..]. by destruct r'.
  - unfold offset_tail, limit_text in *.
    do 6 (destruct b' as [|? b']; [rewrite app_nil_l in Hb'; subst v; done|]; rewrite app_cons in Hb'; injection Hb' as <- Hb').
    destruct b' as [|? b']; [rewrite app_nil_l in Hb'; subst v|].
    + unfold number_clause. rewrite some1_space; cbn [mbind option_bind].
      * destruct Hd as [Hn Hd]. destruct (Itoa limit) as [|c n]; [done|]. cbn in Hd |- *. apply andb_true_iff in Hd as [Hc _].
        destruct (Ascii.eqb_spec (upper "O") (upper c)) as [He|]; [|done]. exfalso. clear -Hc He. revert Hc.
        rewrite <- (digit_upper c), <- He. done.
      * destruct Hd as [Hn Hd]. destruct (Itoa limit) as [|c n]; [done|]. cbn in *. apply andb_true_iff in Hd as [Hc _].
        pose proof (space_not_digit c) as Hsp. rewrite Hc, andb_true_r in Hsp. by apply negb_true_iff in Hsp.
    + rewrite app_cons in Hb'. injection Hb' as <- Hb'. by rewrite (digits_no_clause _ _ _ _ Hd Hb').
Qed.

Lemma limit_text_cut : cut_tail limit_tail (body +:+ order +:+ limit_text) = body +:+ order.
Proof using Hl Hb Ht Ho.
  apply limit_cut; [done|done|done|]. unfold limit_tail.
  pose proof (limit_text_clause "" eq_refl) as Hc. rewrite app_nil_r in Hc. by rewrite Hc.
Qed.

Lemma stripPagination_page : stripPagination (body +:+ order +:+ " " +:+ StandardLimitOffset limit offset) = body.
Proof using Hl Hb Hh Ht Hu Ho.
  assert (forall x, cut_tail offset_tail (TrimSpace x) = body +:+ order +:+ limit_text -> stripPagination x = body) as Hmain.
  { intros x Hx. unfold stripPagination. rewrite Hx, limit_text_cut, body_cut.
    destruct (String.eqb_spec (body +:+ order +:+ limit_text) (body +:+ order)) as [He|]; [|done].
    apply (f_equal String.length) in He. unfold limit_text in He. rewrite !length_app in He. cbn in He. lia. }
  apply Hmain. unfold StandardLimitOffset. rewrite (proj2 (Z.ltb_lt 0 limit) Hl).
  assert (forall n, digits n -> forall x, TrimSpace (body +:+ x +:+ n) = body +:+ x +:+ n) as Htrim.
  { intros n Hn x. rewrite <- app_assoc. apply TrimSpace_page; [by destruct body|by destruct body|done]. }
  destruct (Z.ltb_spec 0 offset) as [Hof|Hof]; cbn [app Join].
  - change (" " +:+ ("LIMIT " +:+ Itoa limit) +:+ " " +:+ ("OFFSET " +:+ Itoa offset))
      with (limit_text +:+ " OFFSET " +:+ Itoa offset).
    replace (body +:+ order +:+ limit_text +:+ " OFFSET " +:+ Itoa offset)
      with (body +:+ (order +:+ limit_text +:+ " OFFSET ") +:+ Itoa offset) by (by rewrite !app_assoc).
    rewrite Htrim by (by apply Itoa_digits).
    replace (body +:+ (order +:+ limit_text +:+ " OFFSET ") +:+ Itoa offset)
      with ((body +:+ order +:+ limit_text) +:+ " OFFSET " +:+ Itoa offset) by (by rewrite !app_assoc).
    apply offset_cut; [| |done..|].
    + unfold limit_text. pose proof (Itoa_digits limit Hl) as Hd. rewrite <- !app_assoc. apply tight_app; [apply Hd|by apply digits_tight].
    + by destruct body.
    + unfold offset_tail. change (" OFFSET " +:+ Itoa offset) with (" " +:+ "OFFSET" +:+ " " +:+ Itoa offset).
      pose proof (number_clause_page "OFFSET" "OFFSET" (Itoa offset) "") as Hn. rewrite app_nil_r in Hn.
      rewrite Hn; [done|by apply match_fold_spec; exists "OFFSET"|done|by apply Itoa_digits|done].
  - change (" " +:+ ("LIMIT " +:+ Itoa limit)) with limit_text.
    replace (body +:+ order +:+ limit_text) with (body +:+ (order +:+ " LIMIT ") +:+ Itoa limit)
      by (unfold limit_text; by rewrite !app_assoc).
    rewrite Htrim by (by apply Itoa_digits).
    replace (body +:+ (order +:+ " LIMIT ") +:+ Itoa limit) with (body +:+ order +:+ limit_text)
      by (unfold limit_text; by rewrite !app_assoc).
    apply no_offset.
Qed.
End Page.

(** the total of a page is the count of the query without its page.  On a
    statement that ends as the compiler ends it - an ordering or none, then LIMIT and
    OFFSET - in whose body no other ORDER BY starts, the statement sent for the
    total counts exactly the body; a negative or absent offset makes no difference. *)
Theorem count_of_page (body order : string) (limit offset : Z) :
  0 < limit -> body <> "" -> head_is is_space body = false -> tight body -> unordered body -> ordering order ->
  count_query (body +:+ order +:+ " " +:+ StandardLimitOffset limit offset) = Some (count_statement body).
Proof.
  intros Hl Hb Hh Ht Hu Ho. unfold count_query. rewrite stripPagination_page by done.
  destruct (String.eqb_spec body (body +:+ order +:+ " " +:+ StandardLimitOffset limit offset)) as [He|]; [|done].
  apply (f_equal String.length) in He. rewrite !length_app in He. cbn in He. lia.
Qed.

Lemma count_of_page_witness :
  count_query ("SELECT region FROM orders" +:+ " ORDER BY region ASC" +:+ " " +:+ StandardLimitOffset 10 20) =
  Some (count_statement "SELECT region FROM orders").
Proof.
  apply (count_of_page "SELECT region FROM orders" " ORDER BY region ASC" 10 20).
  - lia.
  - discriminate.
  - reflexivity.
  - intros a c Hac. apply (snoc_inj "SELECT region FROM order" a "s"%char c) in Hac. subst c. reflexivity.
  - intros a b Hab. repeat (destruct a as [|? a]; [rewrite app_nil_l in Hab; subst b; vm_compute; reflexivity|];
      rewrite app_cons in Hab; injection Hab as _ Hab).
    destruct a as [|? a]; [rewrite app_nil_l in Hab; subst b; reflexivity|]. rewrite app_cons in Hab. discriminate Hab.
  - right. exists "region ASC". split; [reflexivity|]. split; [discriminate|]. split; [reflexivity|].
    intros a c Hac. apply (snoc_inj "region AS" a "C"%char c) in Hac. subst c. reflexivity.
Defined.
