(* ===== verification/Fingerprint.v ===== *)
(** The fingerprint of a query, [internal/query/fingerprint.go]: the canonical form
    that is encoded and hashed.  The JSON encoder and SHA-256 are a parameter; the
    form itself, with its stable sorts, is the program's. *)

From S2P Require Import Prelude GoStrings Values Semantic LogicalQuery Suggest.
From stdpp Require Import options.
#[local] Open Scope Z_scope.

(** * Stable sorting by a key *)

Section StableSort.
Context {A K : Type} `{EqDecision K} (key : A -> K) (le : K -> K -> bool).

Fixpoint stable_insert (a : A) (l : list A) : list A :=
  match l with
  | [] => [a]
  | b :: l' => if le (key a) (key b) then a :: l else b :: stable_insert a l'
  end.
(** [sort.SliceStable] with the order of the keys. *)
Definition stable_sort (l : list A) : list A := foldr stable_insert [] l.

(** The elements with a key, in the order of the list. *)
Definition with_key (k : K) (l : list A) : list A := List.filter (fun a => bool_decide (key a = k)) l.

Context (le_total : forall k1 k2, le k1 k2 = true \/ le k2 k1 = true).
Context (le_trans : forall k1 k2 k3, le k1 k2 = true -> le k2 k3 = true -> le k1 k3 = true).
Context (le_antisym : forall k1 k2, le k1 k2 = true -> le k2 k1 = true -> k1 = k2).

Definition sorted (l : list A) : Prop := StronglySorted (fun a b => le (key a) (key b) = true) l.

Lemma stable_insert_with_key k a l : with_key k (stable_insert a l) = with_key k (a :: l).
Proof using le_antisym le_total.
  induction l as [|b l IH]; cbn [stable_insert]; [done|]. destruct (le (key a) (key b)) eqn:E; [done|].
  change (with_key k (b :: stable_insert a l)) with (with_key k ([b] ++ stable_insert a l)).
  unfold with_key in *. cbn [app List.filter] in *. rewrite IH.
  destruct (bool_decide_reflect (key b = k)), (bool_decide_reflect (key a = k)); try done.
  exfalso. subst k. destruct (le_total (key a) (key b)) as [Hc|Hc]; [congruence|].
  match goal with He : key a = key b |- _ => rewrite He in *; congruence | _ => congruence end.
Qed.
Lemma stable_sort_with_key k l : with_key k (stable_sort l) = with_key k l.
Proof using le_antisym le_total.
  induction l as [|a l IH]; [done|]. cbn [stable_sort foldr]. rewrite stable_insert_with_key.
  unfold with_key in *. cbn [List.filter]. by rewrite <- IH.
Qed.

Lemma stable_insert_In a l x : x ∈ stable_insert a l <-> x = a \/ x ∈ l.
Proof using.
  induction l as [|b l IH]; cbn [stable_insert]; [by rewrite elem_of_cons|].
  destruct (le _ _); rewrite !elem_of_cons, ?IH; tauto.
Qed.
Lemma stable_insert_sorted a l : sorted l -> sorted (stable_insert a l).
Proof using le_trans le_total.
  induction 1 as [|b l Hl IH Hb]; cbn [stable_insert]; [by repeat constructor|].
  destruct (le (key a) (key b)) eqn:E.
  - constructor; [by constructor|]. constructor; [done|]. eapply Forall_impl; [exact Hb|]. eauto.
  - constructor; [done|]. apply Forall_forall. intros x [->|Hx]%stable_insert_In.
    + destruct (le_total (key a) (key b)); congruence.
    + by eapply Forall_forall in Hb.
Qed.
Lemma stable_sort_sorted l : sorted (stable_sort l).
Proof using le_trans le_total. induction l; [constructor|]. by apply stable_insert_sorted. Qed.

Lemma le_refl k : le k k = true.
Proof using le_total. by destruct (le_total k k). Qed.

(** A sorted list is determined by its sublists of one key. *)
Lemma sorted_unique l1 l2 : sorted l1 -> sorted l2 -> (forall k, with_key k l1 = with_key k l2) -> l1 = l2.
Proof using le_antisym le_total.
  intros H1. revert l2. induction H1 as [|a l1 H1 IH Ha]; intros l2 H2 Hk.
  - destruct l2 as [|b l2]; [done|]. specialize (Hk (key b)). unfold with_key in Hk. cbn in Hk. by rewrite bool_decide_eq_true_2 in Hk.
  - assert (forall b l, sorted (b :: l) -> with_key (key a) (b :: l) <> [] -> le (key b) (key a) = true) as Hle.
    { intros b l Hs Hne. destruct (with_key (key a) (b :: l)) as [|x xs] eqn:E; [done|].
      assert (x ∈ b :: l /\ key x = key a) as [[->|Hx]%elem_of_cons Hkx].
      { assert (x ∈ with_key (key a) (b :: l)) as Hx by (rewrite E; by left). unfold with_key in Hx.
        rewrite list_elem_of_In, filter_In, <- list_elem_of_In, bool_decide_eq_true in Hx. done. }
      - rewrite Hkx. apply le_refl.
      - inversion_clear Hs. rewrite <- Hkx. match goal with HF : Forall _ l |- _ => exact (proj1 (Forall_forall _ _) HF x Hx) end. }
    assert (with_key (key a) (a :: l1) <> []) as Hna by (unfold with_key; cbn; by rewrite bool_decide_eq_true_2).
    destruct l2 as [|b l2]; [by rewrite (Hk (key a)) in Hna|].
    assert (key b = key a) as Hba.
    { apply le_antisym; [apply (Hle b l2); [done|by rewrite <- Hk]|].
      destruct (decide (key b = key a)) as [->|Hne]; [apply le_refl|].
      assert (with_key (key b) (a :: l1) <> []) as Hnb by (rewrite Hk; unfold with_key; cbn; by rewrite bool_decide_eq_true_2).
      destruct (with_key (key b) (a :: l1)) as [|x xs] eqn:E; [done|].
      assert (x ∈ with_key (key b) (a :: l1)) as Hx by (rewrite E; by left). unfold with_key in Hx.
      rewrite list_elem_of_In, filter_In, <- list_elem_of_In, bool_decide_eq_true in Hx. destruct Hx as [[->|Hx]%elem_of_cons Hkx]; [done|].
      rewrite <- Hkx. exact (proj1 (Forall_forall _ _) Ha x Hx). }
    assert (a = b) as <-.
    { specialize (Hk (key a)). unfold with_key in Hk. cbn in Hk. rewrite !bool_decide_eq_true_2 in Hk by done. by simplify_eq. }
    f_equal. apply IH; [by inversion_clear H2|]. intros k. specialize (Hk k). unfold with_key in *. cbn in Hk.
    destruct (bool_decide (key a = k)); by simplify_eq.
Qed.

Lemma stable_sort_exact l1 l2 : stable_sort l1 = stable_sort l2 <-> forall k, with_key k l1 = with_key k l2.
Proof using le_trans le_antisym le_total.
  split.
  - intros He k. by rewrite <- (stable_sort_with_key k l1), He, stable_sort_with_key.
  - intros Hk. apply sorted_unique; [apply stable_sort_sorted..|]. intros k. by rewrite !stable_sort_with_key.
Qed.
End StableSort.

(** * The canonical form *)

Record FingerprintInputs : Type := mkInputs {
  fi_LogicalQuery : LogicalQuery;
  fi_DatasourceID : string;
  fi_ContextVersion : string;
  fi_PermissionScope : string;
}.

Record canonical : Type := mkCanonical {
  ca_DatasourceID : string;
  ca_ModelID : string;
  ca_CompositeID : string;
  ca_ContextVersion : string;
  ca_PermissionScope : string;
  ca_Select : list SelectItem;
  ca_Filters : list Filter;
  ca_Having : list Filter;
  ca_GroupBy : list GroupBy;
  ca_OrderBy : list OrderBy;
  ca_Limit : Z;
  ca_Offset : Z;
  ca_CTEs : list CTE;
}.

Definition filter_key (f : Filter) : string * string := (f_Field f, f_Operator f).
Definition pair_le (a b : string * string) : bool :=
  if String.eqb a.1 b.1 then String.leb a.2 b.2 else String.leb a.1 b.1.
Definition sortedFilters (l : list Filter) : list Filter := stable_sort filter_key pair_le l.
Definition sortedGroupBy (l : list GroupBy) : list GroupBy := stable_sort gb_Field String.leb l.

Definition canonical_form (i : FingerprintInputs) : canonical :=
  let lq := fi_LogicalQuery i in
  mkCanonical (fi_DatasourceID i) (ModelID lq) (CompositeID lq) (fi_ContextVersion i) (fi_PermissionScope i)
    (Select lq) (sortedFilters (Filters lq)) (sortedFilters (Having lq)) (sortedGroupBy (GroupBys lq)) (OrderBys lq)
    (Limit lq) (Offset lq) (CTEs lq).

(** The hexadecimal SHA-256 of the JSON text of a canonical form. *)
Class Hashing : Type := { json_sha256 : canonical -> res string }.

Definition ComputeFingerprint `{Hashing} (i : FingerprintInputs) : res string :=
  res_map_err (EWrap "marshal query fingerprint inputs") (json_sha256 (canonical_form i)).

Definition semanticModelVersionForFingerprint (model : option SemanticModel) : string :=
  match model with None => "" | Some m => Itoa (model_Version m) end.

Definition LogicalQueryFingerprint `{Hashing} (lq : LogicalQuery) (model : option SemanticModel) : res string :=
  ComputeFingerprint (mkInputs (EnsureVersion lq) (DatasourceID lq) (semanticModelVersionForFingerprint model) "").

Lemma pair_le_total a b : pair_le a b = true \/ pair_le b a = true.
Proof.
  unfold pair_le. destruct (String.eqb_spec a.1 b.1) as [->|Hne]; [rewrite String.eqb_refl; apply String.leb_total|].
  destruct (String.eqb_spec b.1 a.1); [congruence|]. apply String.leb_total.
Qed.
Lemma pair_le_antisym a b : pair_le a b = true -> pair_le b a = true -> a = b.
Proof.
  destruct a as [a1 a2], b as [b1 b2]. unfold pair_le. cbn. destruct (String.eqb_spec a1 b1) as [->|Hne].
  - rewrite String.eqb_refl. intros H1 H2. f_equal. by apply String.leb_antisym.
  - destruct (String.eqb_spec b1 a1); [congruence|]. intros H1 H2. by destruct Hne; apply String.leb_antisym.
Qed.
Lemma pair_le_trans a b c : pair_le a b = true -> pair_le b c = true -> pair_le a c = true.
Proof.
  destruct a as [a1 a2], b as [b1 b2], c as [c1 c2]. unfold pair_le. cbn.
  destruct (String.eqb_spec a1 b1) as [->|H1], (String.eqb_spec b1 c1) as [->|H2]; rewrite ?String.eqb_refl.
  - apply leb_trans.
  - destruct (String.eqb_spec b1 c1); [done|]. done.
  - destruct (String.eqb_spec a1 c1); [done|]. done.
  - intros Ha Hb. destruct (String.eqb_spec a1 c1) as [->|]; [by destruct H1; apply String.leb_antisym|]. by eapply leb_trans.
Qed.

Lemma sortedFilters_exact l1 l2 :
  sortedFilters l1 = sortedFilters l2 <-> forall k, with_key filter_key k l1 = with_key filter_key k l2.
Proof. apply stable_sort_exact; eauto using pair_le_total, pair_le_trans, pair_le_antisym. Qed.
Lemma sortedGroupBy_exact l1 l2 :
  sortedGroupBy l1 = sortedGroupBy l2 <-> forall k, with_key gb_Field k l1 = with_key gb_Field k l2.
Proof. apply stable_sort_exact; eauto using String.leb_total, leb_trans, String.leb_antisym. Qed.

(** A query with other FROM parts, schemas and version. *)
Definition with_from (v : string) (sub : option SubqueryBody) (cte alias schema : string) (schemas : gmap string string)
    (lq : LogicalQuery) : LogicalQuery :=
  mkLQ v (DatasourceID lq) (ModelID lq) (CompositeID lq) (Select lq) (Filters lq) (GroupBys lq) (Having lq)
    (OrderBys lq) (Limit lq) (Offset lq) (CTEs lq) sub cte alias schema schemas.

(** what the fingerprint tells apart.  The texts that are hashed for two queries
    come from the same canonical form exactly when the queries agree in scope,
    select items, ordering, page and CTEs, and, for every field and operator, have the
    same filters in the same order (and the same for HAVING, and by field for GROUP
    BY): clauses on different fields may come in any order, clauses on the same field
    and operator may not.  The version does not count; neither do the FROM subquery,
    the FROM CTE and its alias, and the schemas. *)
Theorem fingerprint_exact `{Hashing} (i1 i2 : FingerprintInputs) (lq : LogicalQuery) (model : option SemanticModel)
    (v : string) (sub : option SubqueryBody) (cte alias schema : string) (schemas : gmap string string) :
  (canonical_form i1 = canonical_form i2 <->
   let q1 := fi_LogicalQuery i1 in
   let q2 := fi_LogicalQuery i2 in
   (fi_DatasourceID i1 = fi_DatasourceID i2 /\ ModelID q1 = ModelID q2 /\ CompositeID q1 = CompositeID q2 /\
    fi_ContextVersion i1 = fi_ContextVersion i2 /\ fi_PermissionScope i1 = fi_PermissionScope i2) /\
   (Select q1 = Select q2 /\ OrderBys q1 = OrderBys q2 /\ Limit q1 = Limit q2 /\ Offset q1 = Offset q2 /\
    CTEs q1 = CTEs q2) /\
   (forall k, with_key filter_key k (Filters q1) = with_key filter_key k (Filters q2)) /\
   (forall k, with_key filter_key k (Having q1) = with_key filter_key k (Having q2)) /\
   (forall k, with_key gb_Field k (GroupBys q1) = with_key gb_Field k (GroupBys q2))) /\
  (canonical_form i1 = canonical_form i2 -> ComputeFingerprint i1 = ComputeFingerprint i2) /\
  LogicalQueryFingerprint (with_from v sub cte alias schema schemas lq) model = LogicalQueryFingerprint lq model.
Proof.
  split; [|split].
  - cbv zeta. rewrite <- !sortedFilters_exact, <- sortedGroupBy_exact. unfold canonical_form. split.
    + intros He. injection He. auto 10.
    + intros ((-> & -> & -> & -> & ->) & (-> & -> & -> & -> & ->) & -> & -> & ->). done.
  - unfold ComputeFingerprint. by intros ->.
  - unfold LogicalQueryFingerprint, ComputeFingerprint. unfold EnsureVersion.
    by destruct (str_empty (Version (with_from v sub cte alias schema schemas lq))), (str_empty (Version lq)).
Qed.

Lemma fingerprint_exact_witness :
  let _ : Hashing := {| json_sha256 c := Ok (ca_DatasourceID c) |} in
  let lq := mkLQ "v1" "d" "m" "" [] [] [] [] [] 10 0 [] None "" "" "" ∅ in
  let i := mkInputs lq "d" "1" "" in
  canonical_form i = canonical_form i /\ ComputeFingerprint i = ComputeFingerprint i.
Proof.
  intros hash lq i. split; [reflexivity|].
  exact (proj1 (proj2 (fingerprint_exact i i lq None "" None "" "" "" ∅)) eq_refl).
Defined.

(** Two exclusions of one field, in either order, are the same condition and have
    different fingerprints; two queries that read different tables have the same. *)
Example same_condition_different_form :
  let f x := mkFilter "region" OpNeq (VStr x) false None in
  let i fs := canonical_form (mkInputs (mkLQ "v1" "d" "m" "" [] fs [] [] [] 10 0 [] None "" "" "" ∅) "d" "1" "") in
  map f_Value (ca_Filters (i [f "EU"; f "US"])) = [VStr "EU"; VStr "US"] /\
  map f_Value (ca_Filters (i [f "US"; f "EU"])) = [VStr "US"; VStr "EU"].
Proof. split; vm_compute; reflexivity. Qed.
Example different_tables_same_form :
  let i schema := canonical_form (mkInputs (mkLQ "v1" "d" "m" "" [] [] [] [] [] 10 0 [] None "" "" schema ∅) "d" "1" "") in
  i "tenant_a" = i "tenant_b".
Proof. reflexivity. Qed.
