(* ===== verification/Enrich.v ===== *)
(** What the result of a query is presented as: [internal/query/enrich.go] and
    [enrich_viz.go] - the role and format of each column, the chart types proposed,
    the pivot layout.  [detectAnomalies], which computes with floats and an unstable
    sort, is not modelled. *)

From S2P Require Import Prelude GoStrings Values Semantic LogicalQuery.
From stdpp Require Import options.
#[local] Open Scope Z_scope.

(** * pkg/query/types.go *)

Definition SemanticTypeDimension : string := "dimension".
Definition SemanticTypeMetric : string := "metric".
Definition FormatNumber : string := "number".
Definition FormatCurrency : string := "currency".
Definition FormatPercent : string := "percent".
Definition FormatDate : string := "date".
Definition FormatDateTime : string := "datetime".
Definition FormatText : string := "text".
Definition FormatMonthOfYear : string := "month_of_year".
Definition FormatQuarter : string := "quarter".
Definition ChartBar : string := "bar".
Definition ChartLine : string := "line".
Definition ChartTable : string := "table".
Definition ChartNumber : string := "number".
Definition ChartPie : string := "pie".

Record ResultColumn : Type := mkResultColumn {
  rc_Name : string;
  rc_Type : string;
  rc_SemanticType : string;
  rc_Format : string;
}.
Record PivotHint : Type := mkPivot { RowField : string; ColumnField : string; ValueFields : list string;
  Reason : string }.
(** The duration, read from the clock, is left out. *)
Record Stats : Type := mkStats { RowCount : Z; Truncated : bool; TotalCount : Z }.
Record Result : Type := mkResult {
  r_Columns : list ResultColumn;
  r_Rows : list (list gval);
  r_Stats : Stats;
  r_ChartSuggestions : list string;
  r_PivotHint : option PivotHint;
}.

(** * enrich.go *)

Definition formatForMetric (m : Metric) : string :=
  match met_Format m with
  | None => FormatNumber
  | Some f =>
      let f := ToLower (TrimSpace f) in
      if String.eqb f FormatPercent then FormatPercent
      else if String.eqb f FormatCurrency then FormatCurrency
      else FormatNumber
  end.

Definition formatForFormula (f : option FormulaSpec) : string :=
  match f with
  | None => FormatNumber
  | Some f => if str_in (fo_Op f) [FormulaOpPercentOf; FormulaOpPercentChange] then FormatPercent else FormatNumber
  end.

Definition formatForDimension (dimType : string) : string :=
  let t := ToLower (TrimSpace dimType) in
  if String.eqb t "date" then FormatDate
  else if str_in t ["timestamp"; "datetime"] then FormatDateTime
  else if str_in t ["number"; "numeric"; "float"; "double"; "integer"; "int"] then FormatNumber
  else FormatText.

Definition formatForTimeGrain (grain fallback : string) : string :=
  if String.eqb grain TimeGrainMonth then FormatMonthOfYear
  else if String.eqb grain TimeGrainQuarter then FormatQuarter
  else if str_in grain [TimeGrainDay; TimeGrainWeek] then FormatDate
  else if str_in grain [TimeGrainYear; TimeGrainHour] then FormatNumber
  else fallback.

Definition isTimeDimFormat (format : string) : bool :=
  str_in format [FormatDate; FormatDateTime; FormatMonthOfYear; FormatQuarter].

Definition has_role (ty : string) (c : ResultColumn) : bool := String.eqb (rc_SemanticType c) ty.

Definition suggestCharts (columns : list ResultColumn) (rowCount : Z) : list string :=
  let dim_cols := List.filter (has_role SemanticTypeDimension) columns in
  let dims := Z.of_nat (length dim_cols) in
  let metrics := Z.of_nat (length (List.filter (has_role SemanticTypeMetric) columns)) in
  let hasTimeDim := existsb (fun c => isTimeDimFormat (rc_Format c)) dim_cols in
  if (dims =? 0) && (metrics =? 1) && (rowCount <=? 1) then [ChartNumber; ChartTable]
  else if hasTimeDim && (1 <=? metrics) then [ChartLine; ChartBar; ChartTable]
  else if (dims =? 1) && (1 <=? metrics) then
    if (0 <? rowCount) && (rowCount <=? 8) then [ChartBar; ChartPie; ChartTable] else [ChartBar; ChartTable]
  else [ChartTable].

Definition suggestPivot (columns : list ResultColumn) : option PivotHint :=
  let catDims := map rc_Name (List.filter (fun c => has_role SemanticTypeDimension c && negb (isTimeDimFormat (rc_Format c))) columns) in
  let metrics := map rc_Name (List.filter (has_role SemanticTypeMetric) columns) in
  match catDims, metrics with
  | row :: column :: _, _ :: _ => Some (mkPivot row column metrics
      "Two categorical dimensions with metrics — pivot for a matrix view.")
  | _, _ => None
  end.

(** The role a select item gives its column. *)
Definition item_role (dimByName : gmap string Dimension) (metricByName : gmap string Metric)
    (timeGrainBySelect : gmap string string) (item : SelectItem) : option (string * string) :=
  if String.eqb (s_Type item) SelectTypeDimension then
    match dimByName !! s_Name item with
    | None => None
    | Some dim =>
        let format := formatForDimension (dim_Type dim) in
        let grain := default "" (timeGrainBySelect !! s_Name item) in
        Some (SemanticTypeDimension, if str_empty grain then format else formatForTimeGrain grain format)
    end
  else if String.eqb (s_Type item) SelectTypeMetric then
    match metricByName !! s_Name item with
    | None => None
    | Some mt => Some (SemanticTypeMetric, formatForMetric mt)
    end
  else if String.eqb (s_Type item) SelectTypeWindow then Some (SemanticTypeMetric, FormatNumber)
  else if String.eqb (s_Type item) SelectTypeFormula then Some (SemanticTypeMetric, formatForFormula (s_Formula item))
  else None.

Definition item_alias (item : SelectItem) : string := if str_empty (s_Alias item) then s_Name item else s_Alias item.

Definition roles_by_alias (lq : LogicalQuery) (model : SemanticModel) : gmap string (string * string) :=
  let dimByName := fold_left (fun m d => <[dim_Name d := d]> m) (model_Dimensions model) ∅ in
  let metricByName := fold_left (fun m x => <[met_Name x := x]> m) (model_Metrics model) ∅ in
  let timeGrainBySelect := fold_left (fun m gb =>
    if str_empty (gb_TimeGrain gb) then m else <[gb_Field gb := gb_TimeGrain gb]> m) (GroupBys lq) ∅ in
  fold_left (fun m item =>
    match item_role dimByName metricByName timeGrainBySelect item with
    | Some role => <[item_alias item := role]> m
    | None => m
    end) (Select lq) ∅.

Definition enrich_column (byAlias : gmap string (string * string)) (c : ResultColumn) : ResultColumn :=
  match byAlias !! rc_Name c with
  | Some (semanticType, format) => mkResultColumn (rc_Name c) (rc_Type c) semanticType format
  | None => c
  end.

(** All of [EnrichResult] but the anomalies. *)
Definition EnrichResult (result : Result) (lq : LogicalQuery) (model : SemanticModel) : Result :=
  let columns := map (enrich_column (roles_by_alias lq model)) (r_Columns result) in
  mkResult columns (r_Rows result) (r_Stats result)
    (suggestCharts columns (Z.of_nat (length (r_Rows result)))) (suggestPivot columns).

Definition PrimaryChartSuggestion (suggestions : list string) : string :=
  match suggestions with [] => ChartTable | s :: _ => s end.

Definition VisualizationHintFromResult (result : option Result) : string * string :=
  match result with
  | None => (ChartTable, "")
  | Some r =>
      let ct := PrimaryChartSuggestion (r_ChartSuggestions r) in
      let reason := match r_ChartSuggestions r with
        | _ :: (_ :: _) as more => "Primary suggestion: " +:+ ct +:+ "; alternatives: " +:+ Join more ", "
        | _ => "Suggested from result shape (dimensions, metrics, row count)."
        end in
      if String.eqb ct ChartNumber then (ChartTable, "Single aggregate value — use table or KPI display.")
      else (ct, reason)
  end.

(** * What enrichment does *)

Section Enrich.
Context (lq : LogicalQuery) (model : SemanticModel).

(** [by_name key l k] is the last element with the key. *)
Definition by_name {A} (key : A -> string) (l : list A) (k : string) : option A :=
  List.find (fun a => String.eqb (key a) k) (rev l).

Lemma last_wins {A B} (key : A -> string) (val : A -> option B) (l : list A) (m : gmap string B) k :
  fold_left (fun m a => match val a with Some b => <[key a := b]> m | None => m end) l m !! k =
  match List.find (fun a => String.eqb (key a) k && bool_decide (is_Some (val a))) (rev l) with
  | Some a => val a
  | None => m !! k
  end.
Proof using.
  revert m. induction l as [|a l IH]; intros m; cbn [fold_left rev]; [done|]. rewrite IH.
  assert (forall (p : A -> bool) l1 l2, List.find p (l1 ++ l2) = match List.find p l1 with Some x => Some x | None => List.find p l2 end) as ->.
  { intros p l1 l2. induction l1 as [|x l1 IH1]; cbn [app List.find]; [done|]. by destruct (p x). }
  destruct (List.find _ (rev l)); [done|]. cbn [List.find].
  destruct (val a) as [b|] eqn:E.
  - rewrite bool_decide_eq_true_2 by done. rewrite andb_true_r.
    destruct (String.eqb_spec (key a) k) as [->|Hne]; [by rewrite lookup_insert_eq|by rewrite lookup_insert_ne].
  - rewrite bool_decide_eq_false_2 by (by intros []). by rewrite andb_false_r.
Qed.

Definition dimensions_of : gmap string Dimension := fold_left (fun m d => <[dim_Name d := d]> m) (model_Dimensions model) ∅.
Definition metrics_of : gmap string Metric := fold_left (fun m x => <[met_Name x := x]> m) (model_Metrics model) ∅.
Definition grains_of : gmap string string := fold_left (fun m gb =>
  if str_empty (gb_TimeGrain gb) then m else <[gb_Field gb := gb_TimeGrain gb]> m) (GroupBys lq) ∅.
Definition role_of (item : SelectItem) : option (string * string) := item_role dimensions_of metrics_of grains_of item.

(** The select item a column shows: the last one with its name that has a role. *)
Definition source_item (name : string) : option SelectItem :=
  List.find (fun i => String.eqb (item_alias i) name && bool_decide (is_Some (role_of i))) (rev (Select lq)).

Lemma roles_by_alias_lookup name :
  roles_by_alias lq model !! name = match source_item name with Some i => role_of i | None => None end.
Proof using.
  unfold roles_by_alias. cbv zeta. fold dimensions_of metrics_of grains_of.
  rewrite (last_wins item_alias role_of (Select lq) ∅ name). by rewrite lookup_empty.
Qed.

Lemma role_of_semantic i ty format : role_of i = Some (ty, format) -> ty = SemanticTypeDimension \/ ty = SemanticTypeMetric.
Proof using.
  unfold role_of, item_role. repeat case_match; intros; simplify_eq; auto.
Qed.
End Enrich.

Lemma suggestCharts_table columns n : List.last (suggestCharts columns n) "" = ChartTable.
Proof. unfold suggestCharts. cbv zeta. by repeat case_match. Qed.

Lemma filter_names_In (p : ResultColumn -> bool) columns n :
  n ∈ map rc_Name (List.filter p columns) <-> exists c, c ∈ columns /\ rc_Name c = n /\ p c = true.
Proof.
  rewrite list_elem_of_fmap. setoid_rewrite list_elem_of_In. setoid_rewrite filter_In. setoid_rewrite <- list_elem_of_In.
  naive_solver.
Qed.

(** what enrichment says of a result.  Rows and counts stay; each column keeps
    its name and type, and gets the role and format of the select item it shows, if
    one has a role, and no other change.  There is always a chart to fall back on, a
    table, named last; and a pivot is proposed exactly when two columns are
    dimensions without a calendar format and some column is a metric, on the first
    two such dimensions and all the metrics. *)
Theorem EnrichResult_exact (result : Result) (lq : LogicalQuery) (model : SemanticModel) :
  let r := EnrichResult result lq model in
  (r_Rows r = r_Rows result /\ r_Stats r = r_Stats result) /\
  Forall2 (fun c c' => rc_Name c' = rc_Name c /\ rc_Type c' = rc_Type c /\
    match source_item lq model (rc_Name c) with
    | Some i => role_of lq model i = Some (rc_SemanticType c', rc_Format c') /\
                rc_SemanticType c' ∈ [SemanticTypeDimension; SemanticTypeMetric]
    | None => c' = c
    end) (r_Columns result) (r_Columns r) /\
  List.last (r_ChartSuggestions r) "" = ChartTable /\
  match r_PivotHint r with
  | Some p => exists rest,
      map rc_Name (List.filter (fun c => has_role SemanticTypeDimension c && negb (isTimeDimFormat (rc_Format c))) (r_Columns r)) =
        RowField p :: ColumnField p :: rest /\
      ValueFields p <> [] /\
      forall n, n ∈ ValueFields p <-> exists c, c ∈ r_Columns r /\ rc_Name c = n /\ rc_SemanticType c = SemanticTypeMetric
  | None =>
      (length (List.filter (fun c => has_role SemanticTypeDimension c && negb (isTimeDimFormat (rc_Format c))) (r_Columns r)) < 2)%nat \/
      forall c, c ∈ r_Columns r -> rc_SemanticType c <> SemanticTypeMetric
  end.
Proof.
  cbv zeta. split_and!; [done|done| | |].
  - cbn [r_Columns EnrichResult]. generalize (r_Columns result). intros columns.
    induction columns as [|c columns IH]; [constructor|]. constructor; [|exact IH].
    unfold enrich_column. rewrite roles_by_alias_lookup.
    destruct (source_item lq model (rc_Name c)) as [i|] eqn:E; [|done].
    apply find_some in E as [_ [_ [[ty format] Hr]%bool_decide_eq_true]%andb_true_iff]. rewrite Hr. cbn. split_and!; try done.
    apply role_of_semantic in Hr as [-> | ->]; [by left|by right; left].
  - apply suggestCharts_table.
  - cbn [r_PivotHint r_Columns EnrichResult]. generalize (map (enrich_column (roles_by_alias lq model)) (r_Columns result)).
    intros columns. unfold suggestPivot. cbv zeta.
    pose proof (filter_names_In (has_role SemanticTypeMetric) columns) as Hm.
    assert (forall c, has_role SemanticTypeMetric c = true <-> rc_SemanticType c = SemanticTypeMetric) as Hty by (intros; apply String.eqb_eq).
    setoid_rewrite Hty in Hm.
    set (cats := List.filter (fun c => has_role SemanticTypeDimension c && _) columns).
    assert (length (map rc_Name cats) = length cats) as Hl by apply length_map.
    destruct (map rc_Name cats) as [|x [|y l]] eqn:E; cbn in Hl |- *; [left; lia|left; lia|].
    destruct (map rc_Name (List.filter (has_role SemanticTypeMetric) columns)) as [|m ms] eqn:Em; cbn.
    + right. intros c Hc Ht. apply (proj1 (elem_of_nil (rc_Name c))). apply Hm. by exists c.
    + exists l. split_and!; [done|done|]. exact Hm.
Qed.

(** The enrichment is given the query as it came, not the one that was compiled: a
    GROUP BY field that the compilation added to the select list stays without a role,
    and the chart proposed for the totals per region is a table. *)
Definition by_region (select : list SelectItem) : LogicalQuery :=
  mkLQ "v1" "d" "m" "" select [] [mkGroupBy "region" ""] [] [] 10 0 [] None "" "" "" ∅.
Definition region_model : SemanticModel :=
  mkModel "m" "d" "sales" "public" "orders" 1 [mkDimension "region" "orders.region" "text" "" "" NilExpr]
    [mkMetric "revenue" "orders.amount" NilExpr "sum" None [] None] [] None None "published".
Example added_dimension_not_enriched :
  let lq := by_region [plain_item SelectTypeMetric "revenue"] in
  let rows := [[VStr "EU"; VInt 1]; [VStr "US"; VInt 2]] in
  let result := mkResult [mkResultColumn "region" "TEXT" "" ""; mkResultColumn "revenue" "NUMERIC" "" ""] rows
                  (mkStats 2 false 0) [] None in
  r_ChartSuggestions (EnrichResult result lq region_model) = [ChartTable] /\
  r_ChartSuggestions (EnrichResult result (EnsureGroupBySelected lq) region_model) = [ChartBar; ChartPie; ChartTable].
Proof. split; vm_compute; reflexivity. Qed.
