(* ===== verification/Execute.v ===== *)
(** Running a compiled statement: [internal/query/executor.go].

    The database is outside: what it answers may depend on everything that happened
    before ([Traced]). *)

From S2P Require Import Prelude GoStrings Values ReadOnly LogicalQuery Pii RowFilter Compiler Enrich.
From stdpp Require Import options.
#[local] Open Scope Z_scope.

(** * Events *)

(** [query.HistoryEntry]; the identifier is given by the store. *)
Record HistoryEntry : Type := mkHistory {
  he_ID : string;
  he_DatasourceID : string;
  he_ModelID : option string;
  he_UserID : option string;
  he_LogicalQuery : LogicalQuery;
  he_Status : string;
  he_Fingerprint : string;
  he_CompiledSQL : option string;
  he_SQLArgs : option string;
  he_RowCount : option Z;
  he_ErrorMessage : option string;
}.

(** An audit event, with the details the query service gives it; the channel of the
    request and the duration are left out. *)
Record AuditEvent : Type := mkAudit {
  ae_UserID : string;
  ae_EventType : string;
  ae_DatasourceID : string;
  ae_ModelID : string;
  ae_HistoryID : option string;
  ae_Fingerprint : option string;
  ae_RowCount : option Z;
  ae_RowFilters : list AppliedRowFilter;
  ae_MaskedColumns : list string;
  ae_HiddenColumns : list string;
  ae_Error : option string;
  (** of [pii.masking_applied] *)
  ae_Columns : list string;
}.

Inductive event : Type :=
| PoolGet (datasourceID dsn : string)
| PoolOpened (dsn : string)
| PoolClosed
| BeganReadOnly
| RolledBack
| Queried (inTx : bool) (sql : string) (args : list gval)
| RowsOpened
| RowsClosed
| Counted (sql : string) (args : list gval)
| Explained (sql : string) (args : list gval)
| HistoryWritten (e : HistoryEntry)
| Audited (e : AuditEvent).

Abbreviation IO := (Traced event).

(** The rows of a query, as [database/sql] hands them out: [Next] has a row for each
    element of [rows_data], with the result of [Scan]; [rows_Err n] is the answer of
    [Err] when [n] rows were read. *)
Record Rows : Type := mkRows {
  rows_ColumnTypes : res (list (string * string));
  rows_data : list (res (list gval));
  rows_Err : nat -> option goerr;
  rows_Close : option goerr;
}.

Class Database : Type := {
  db_BeginTx : list event -> option goerr;
  db_QueryContext : list event -> string -> list gval -> res Rows;
  db_QueryRow : list event -> string -> list gval -> res Z;
}.

Definition checked (o : option goerr) : res unit := match o with None => Ok tt | Some e => Err e end.

(** * executor.go *)

Record Executor : Type := mkExecutor { maxRows : Z; checker : ReadOnlyChecker }.
Definition NewExecutor (maxRows : Z) : Executor := mkExecutor maxRows NewReadOnlyChecker.

(** [Scan] into [n] destinations. *)
Definition Scan (n : nat) (row : res (list gval)) : res (list gval) :=
  let? vals := row in
  if Nat.eqb (length vals) n then Ok vals
  else Err (EMsg ("sql: expected " +:+ Itoa (Z.of_nat (length vals)) +:+ " destination arguments in Scan, not "
                  +:+ Itoa (Z.of_nat n))).

(** The loop: the cells of the rows read, one after the other, their number, and
    whether there were more. *)
Fixpoint scan_loop (maxRows : Z) (numCols : nat) (data : list (res (list gval))) (allCells : list gval) (count : nat)
    : res (list gval * nat * bool) :=
  match data with
  | [] => Ok (allCells, count, false)
  | row :: data =>
      if (0 <? maxRows) && (maxRows <=? Z.of_nat count) then Ok (allCells, count, true)
      else
        let? vals := res_map_err (EWrap "scan row") (Scan numCols row) in
        scan_loop maxRows numCols data (allCells ++ vals) (S count)
  end.

(** [allCells[i*numCols : (i+1)*numCols]] *)
Definition slice_row (allCells : list gval) (numCols i : nat) : list gval :=
  take numCols (drop (i * numCols) allCells).

Definition scanRows (maxRows : Z) (rows : Rows) : res Result :=
  let? colTypes := res_map_err (EWrap "get column types") (rows_ColumnTypes rows) in
  let columns := map (fun ct => mkResultColumn ct.1 ct.2 "" "") colTypes in
  let numCols := length colTypes in
  let? (cells, count, truncated) := scan_loop maxRows numCols (rows_data rows) [] 0 in
  let? _ := res_map_err (EWrap "rows iteration error") (checked (rows_Err rows count)) in
  let resultRows := map (slice_row cells numCols) (seq 0 count) in
  Ok (mkResult columns resultRows (mkStats (Z.of_nat (length resultRows)) truncated 0) [] None).

(** The query on the database or in the transaction; the rows are closed on every
    path that got them, and an error of closing counts when there is no other. *)
Definition run_query `{Database} (e : Executor) (cq : CompiledQuery) (readOnly : bool) : IO (res Result) :=
  let! _ := emit (Queried readOnly (SQL cq) (Args cq)) in
  let! answer := ask (fun tr => db_QueryContext tr (SQL cq) (Args cq)) in
  match answer with
  | Err err => io_ret (Err (EWrap "query execution failed" err))
  | Ok rows =>
      let! _ := emit RowsOpened in
      let! _ := emit RowsClosed in
      io_ret (let? r := scanRows (maxRows e) rows in let? _ := checked (rows_Close rows) in Ok r)
  end.

(** A transaction that began is rolled back on every path. *)
Definition Execute `{Database} (e : Executor) (cq : CompiledQuery) (readOnly : bool) : IO (res Result) :=
  match Check (checker e) (SQL cq) with
  | Err err => io_ret (Err (EWrap "security check failed" err))
  | Ok _ =>
      if readOnly then
        let! began := ask db_BeginTx in
        match began with
        | Some err => io_ret (Err (EWrap "begin read-only transaction" err))
        | None =>
            let! _ := emit BeganReadOnly in
            let! result := run_query e cq readOnly in
            let! _ := emit RolledBack in
            io_ret result
        end
      else run_query e cq readOnly
  end.

(** * Results *)

(** The rows of a successful scan, as the database has them. *)
Definition row_limit (maxRows : Z) (n : nat) : nat := if 0 <? maxRows then Nat.min (Z.to_nat maxRows) n else n.

Lemma slice_concat (rows : list (list gval)) (n i : nat) : Forall (fun r => length r = n) rows ->
  (i < length rows)%nat -> rows !! i = Some (slice_row (List.concat rows) n i).
Proof.
  intros Hr. revert i. induction Hr as [|r rows Hn Hr IH]; intros i Hi; cbn in Hi; [lia|]. unfold slice_row in *. cbn [List.concat].
  destruct i as [|i].
  - change ((r :: rows) !! 0%nat) with (Some r). f_equal. cbn [Nat.mul]. by rewrite drop_0, take_app_length' by done.
  - change ((r :: rows) !! S i) with (rows !! i). rewrite IH by lia. f_equal. f_equal. cbn [Nat.mul].
    rewrite drop_app_ge by lia. f_equal. lia.
Qed.

(** The rows the loop has read: all of them, each scanned into its columns. *)
Definition scanned (n : nat) (data : list (res (list gval))) (rows : list (list gval)) : Prop :=
  Forall2 (fun d r => d = Ok r /\ length r = n) data rows.

Lemma scan_loop_ok maxRows n data cells count c' k t :
  (maxRows <= 0 \/ Z.of_nat count <= maxRows) -> scan_loop maxRows n data cells count = Ok (c', k, t) ->
  exists rows rest, scanned n (take (length rows) data) rows /\ data = take (length rows) data ++ rest /\
    c' = cells ++ List.concat rows /\ k = (count + length rows)%nat /\
    (k = row_limit maxRows (count + length data) /\ (t = true <-> rest <> [])).
Proof.
  revert cells count. induction data as [|d data IH]; intros cells count Hc; cbn [scan_loop].
  - intros [= <- <- <-]. exists [], []. unfold row_limit. split_and!; [constructor|done|by rewrite List.app_nil_r|cbn; lia| |by split].
    cbn [length]. destruct (Z.ltb_spec 0 maxRows); lia.
  - destruct ((0 <? maxRows) && (maxRows <=? Z.of_nat count)) eqn:E.
    + intros [= <- <- <-]. apply andb_true_iff in E as [E1%Z.ltb_lt E2%Z.leb_le]. exists [], (d :: data).
      unfold row_limit. rewrite (proj2 (Z.ltb_lt _ _) E1). split_and!; [constructor|done|by rewrite List.app_nil_r|cbn; lia|cbn [length]; lia|done].
    + intros (vals & Hs & Hl)%res_bind_ok. unfold Scan in Hs. destruct d as [v|e]; cbn in Hs; [|done].
      destruct (Nat.eqb_spec (length v) n) as [Hn|]; [|done]. injection Hs as ->.
      apply IH in Hl as (rows & rest & Hsc & Hd & -> & -> & Hk & Ht).
      2:{ apply andb_false_iff in E as [E%Z.ltb_ge|E%Z.leb_gt]; [by left|right; lia]. }
      exists (vals :: rows), rest. cbn [length take app List.concat] in *. rewrite List.app_assoc.
      split_and!; [by constructor|by rewrite <- Hd|done|lia| |done]. rewrite Hk. f_equal. lia.
Qed.

(** reading a result keeps the rows as they are.  When [scanRows] succeeds, the
    result holds the first rows of the database's answer - all of them, or as many
    as the limit allows when it is positive - each with exactly the values scanned for
    it, although the loop keeps all cells in one slice; the row count is their number,
    and the result is marked truncated exactly when the database had more rows. *)
Theorem scanRows_exact (limit : Z) (rows : Rows) :
  match scanRows limit rows with
  | Ok r => exists colTypes rest,
      rows_ColumnTypes rows = Ok colTypes /\
      scanned (length colTypes) (take (length (r_Rows r)) (rows_data rows)) (r_Rows r) /\
      rows_data rows = take (length (r_Rows r)) (rows_data rows) ++ rest /\
      length (r_Rows r) = row_limit limit (length (rows_data rows)) /\
      RowCount (r_Stats r) = Z.of_nat (length (r_Rows r)) /\
      (Truncated (r_Stats r) = true <-> rest <> []) /\
      map rc_Name (r_Columns r) = map fst colTypes
  | Err _ => True
  end.
Proof.
  destruct (scanRows limit rows) as [r|e] eqn:E; [|done]. unfold scanRows in E.
  apply res_bind_ok in E as (colTypes & Hct & E). cbv zeta in E.
  destruct (rows_ColumnTypes rows) as [ct|]; [|done]. injection Hct as ->.
  apply res_bind_ok in E as ([[cells count] trunc] & Hs & E). apply res_bind_ok in E as (_ & _ & [= <-]).
  apply scan_loop_ok in Hs as (rs & rest & Hsc & Hd & -> & -> & Hk & Ht); [|lia]. cbn [app plus] in *.
  cbn [r_Rows r_Stats r_Columns RowCount Truncated].
  assert (map (slice_row (List.concat rs) (length colTypes)) (seq 0 (length rs)) = rs) as Hrs.
  { apply list_eq. intros i. rewrite list_lookup_fmap. destruct (decide (i < length rs)%nat) as [Hi|Hi].
    - rewrite lookup_seq_lt by done. cbn. rewrite (slice_concat rs (length colTypes) i); [done| |done].
      unfold scanned in Hsc. apply Forall2_Forall_r with (P := fun d r => d = Ok r /\ length r = length colTypes) (l := take (length rs) (rows_data rows)); [done|].
      apply Forall_forall. naive_solver.
    - rewrite lookup_seq_ge by lia. cbn. symmetry. apply lookup_ge_None. lia. }
  rewrite Hrs. exists colTypes, rest. split_and!; try done.
  rewrite List.map_map. cbn. by apply List.map_ext.
Qed.
