(* ===== verification/QueryService.v ===== *)
(** The query service, [internal/core/query_service.go] with [pii_policy.go],
    [service_error.go] and [errors.go]: loading, compiling under the caller's policy,
    the function block list, execution, the total count, history and audit.

    Stores, drivers, the decryption of connection strings, JSON and UUID parsing are
    the [World]; the database is that of [Execute].  A context is not represented:
    what is read from it (the caller) belongs to the [World] of the request. *)

From S2P Require Import Prelude GoStrings Values Dialect Semantic ReadOnly LogicalQuery PhysicalRef Pii RowFilter.
From S2P Require Import CompileMonad Joins Validator Compiler Compiled Publish GrainRepair Pagination Fingerprint Enrich Execute.
From stdpp Require Import options.
#[local] Open Scope Z_scope.

(** * errors.go, service_error.go *)

Inductive sentinel : Type :=
| ErrModelIDRequired | ErrDatasourceIDRequired | ErrLoadSemanticModel | ErrLoadDatasource
| ErrLoadDriver | ErrConnection | ErrQueryExecution.

Definition MsgDatasourceIDRequired : string := "datasource_id is required".
Definition MsgModelIDRequired : string := "model_id is required".

(** The errors the service makes: a sentinel, alone or joined to a cause
    ([fmt.Errorf] with two [%w]), or another error. *)
Inductive svc_error : Type :=
| Sentinel (s : sentinel)
| Joined (s : sentinel) (cause : goerr)
| Plain (e : goerr).

Record ServiceError : Type := mkServiceError { Status : Z; Message : string; cause : svc_error }.

Definition is_sentinel (s : sentinel) (e : svc_error) : bool :=
  match e with
  | Sentinel s' | Joined s' _ => match s, s' with
      | ErrModelIDRequired, ErrModelIDRequired | ErrDatasourceIDRequired, ErrDatasourceIDRequired
      | ErrLoadSemanticModel, ErrLoadSemanticModel | ErrLoadDatasource, ErrLoadDatasource
      | ErrLoadDriver, ErrLoadDriver | ErrConnection, ErrConnection | ErrQueryExecution, ErrQueryExecution => true
      | _, _ => false
      end
  | Plain _ => false
  end.

(** [errors.AsType[query.ValidationErrors]] *)
Fixpoint as_validation (e : goerr) : option (list ValidationError) :=
  match e with
  | EValidation errs => Some errs
  | EWrap _ e => as_validation e
  | _ => None
  end.

Definition StatusBadRequest : Z := 400.
Definition StatusNotFound : Z := 404.
Definition StatusInternalServerError : Z := 500.

Definition sentinel_text (s : sentinel) : string :=
  match s with
  | ErrModelIDRequired => MsgModelIDRequired
  | ErrDatasourceIDRequired => MsgDatasourceIDRequired
  | ErrLoadSemanticModel => "load semantic model"
  | ErrLoadDatasource => "load datasource"
  | ErrLoadDriver => "load driver"
  | ErrConnection => "connection failed"
  | ErrQueryExecution => "query execution failed"
  end.
Definition svc_text (e : svc_error) : string :=
  match e with
  | Sentinel s => sentinel_text s
  | Joined s e => sentinel_text s +:+ ": " +:+ Error e
  | Plain e => Error e
  end.

Definition mapQueryServiceError (err : svc_error) : ServiceError :=
  if is_sentinel ErrModelIDRequired err then mkServiceError StatusBadRequest MsgModelIDRequired err
  else if is_sentinel ErrDatasourceIDRequired err then mkServiceError StatusBadRequest MsgDatasourceIDRequired err
  else if is_sentinel ErrLoadSemanticModel err || is_sentinel ErrLoadDatasource err then
    mkServiceError StatusNotFound "resource not found" err
  else if is_sentinel ErrLoadDriver err then mkServiceError StatusBadRequest "unsupported datasource type" err
  else if is_sentinel ErrConnection err then mkServiceError StatusInternalServerError "connection failed" err
  else if is_sentinel ErrQueryExecution err then mkServiceError StatusInternalServerError "query failed" err
  else
    match err with
    | Plain e | Joined _ e =>
        match as_validation e with
        | Some errs => mkServiceError StatusBadRequest (Error (EValidation errs)) err
        | None => mkServiceError StatusInternalServerError (svc_text err) err
        end
    | Sentinel _ => mkServiceError StatusInternalServerError (svc_text err) err
    end.
Definition ToServiceError (err : svc_error) : ServiceError := mapQueryServiceError err.

(** * Results that may be a [ServiceError] *)

Inductive outcome (A : Type) : Type :=
| Done (a : A)
| Failed (se : ServiceError).
Arguments Done {A} _.
Arguments Failed {A} _.

Definition io_then {A B} (m : IO (outcome A)) (f : A -> IO (outcome B)) : IO (outcome B) :=
  let! a := m in match a with Done a => f a | Failed se => io_ret (Failed se) end.
Notation "'try!' x ':=' m 'in' k" := (io_then m (fun x => k))
  (at level 10, x pattern, m at level 100, k at level 200) : biq_scope.
Definition fail_with {A} (e : svc_error) : IO (outcome A) := io_ret (Failed (ToServiceError e)).
Definition done_with {A} (a : A) : IO (outcome A) := io_ret (Done a).
(** A result, its error made into one of the service. *)
Definition or_fail {A} (f : goerr -> svc_error) (r : res A) : IO (outcome A) :=
  match r with Ok a => done_with a | Err e => fail_with (f e) end.

(** * The world *)

Record Datasource : Type := mkDatasource { ds_ID : string; ds_Type : string; ds_Config : string; ds_DSN : string }.
Record Driver : Type := mkDriver { drv_Type : string; drv_Dialect : concrete; SupportsReadOnlyTx : bool }.

(** [metadata.SecurityPolicy]; [sp_PIIPolicy] has the access of each column. *)
Record SecurityPolicy : Type := mkSecurityPolicy {
  sp_AllowedModels : list string;
  sp_DeniedFields : list string;
  sp_RowFilters : list RowFilter;
  sp_PIIPolicy : gmap string string;
}.

(** [None] is [sql.ErrNoRows]. *)
Record PIIPolicyService : Type := mkPIIService {
  ListPIIColumns : string -> res (list Column);
  GetSecurityPolicyByKeys : string -> string -> res (option SecurityPolicy);
  pii_identity : option (string * list string);
  pii_audit : bool;
}.

Class World : Type := {
  GetPublishedFullModel : string -> res SemanticModel;
  GetPublishedResolvedComposite : option (string -> res SemanticModel);
  GetDatasource : string -> res Datasource;
  GetDriver : string -> res Driver;
  (** the columns of a table, name and type *)
  ListColumns : option (string -> string -> string -> res (list (string * string)));
  piiPolicies : option PIIPolicyService;
  identity : option (string * list string);
  RuntimeDSN : Datasource -> res string;
  (** [PoolCache.Get], when there is a cache, and [driver.Open] *)
  pools : option (list event -> Driver -> string -> string -> option goerr);
  driver_Open : list event -> Driver -> string -> option goerr;
  unmarshalBlocklist : string -> res (list string);
  (** [CreateQueryHistory]: the identifier of the new entry *)
  CreateQueryHistory : option (list event -> HistoryEntry -> res string);
  audit : bool;
  uuid_Parse : string -> bool;
  MarshalSQLArgs : list gval -> res (option string);
}.

(** The validator and the executor the service is made with. *)
Record Limits : Type := mkLimits { validator_maxRows : Z; executor : Executor }.

(** * pii_policy.go *)

Section Policy.
Context `{World}.

Definition policyRowFilters (policy : option SecurityPolicy) : list RowFilter :=
  match policy with None => [] | Some p => sp_RowFilters p end.

(** The columns named in the audit event: those the caller does not see as they are. *)
Definition masked_names (cfg : PIIMaskingConfig) (cols : list Column) : list string :=
  flat_map (fun c =>
    let level := get (ColumnAccess cfg) (qualified c) in
    if str_in level [AccessMasked; AccessHidden] then [qualified c +:+ ":" +:+ level] else []) cols.

Definition masking_event (userID datasourceID : string) (columns : list string) : event :=
  Audited (mkAudit userID "pii.masking_applied" datasourceID "" None None None [] [] [] None columns).

Definition QueryPolicy (s : option PIIPolicyService) (datasourceID : string)
    : IO (res (option PIIMaskingConfig * list RowFilter)) :=
  match s with
  | None => io_ret (Ok (None, []))
  | Some svc =>
      match pii_identity svc with
      | None => io_ret (Ok (None, []))
      | Some (userID, roles) =>
          if str_empty datasourceID || str_empty userID then io_ret (Ok (None, [])) else
          match GetSecurityPolicyByKeys svc userID datasourceID with
          | Err e => io_ret (Err (EWrap "load permission policy" e))
          | Ok policy =>
              match ListPIIColumns svc datasourceID with
              | Err e => io_ret (Err (EWrap "load pii columns" e))
              | Ok cols =>
                  let overrides := match policy with None => ∅ | Some p => sp_PIIPolicy p end in
                  let cfg := maskingConfig roles cols overrides in
                  let masked := match cfg with None => [] | Some c => masked_names c cols end in
                  let! _ := match masked with
                            | [] => io_ret tt
                            | _ => if pii_audit svc then emit (masking_event userID datasourceID masked) else io_ret tt
                            end in
                  io_ret (Ok (cfg, policyRowFilters policy))
              end
          end
      end
  end.
End Policy.

(** * query_service.go *)

Record CompileResult : Type := mkCompileResult {
  cr_LogicalQuery : LogicalQuery;
  cr_Model : SemanticModel;
  cr_Datasource : Datasource;
  cr_Driver : Driver;
  cr_Compiled : CompiledQuery;
}.

Section Service.
Context `{World} `{Database} `{GoRuntime} `{MapOrder} `{Hashing} (limits : Limits).

Definition dimensionNames (model : SemanticModel) : list string := map dim_Name (model_Dimensions model).

Definition loadSemanticModel (lq : LogicalQuery) : IO (outcome SemanticModel) :=
  if negb (str_empty (CompositeID lq)) then
    match GetPublishedResolvedComposite with
    | None => fail_with (Joined ErrLoadSemanticModel (EMsg "composite models not supported"))
    | Some get => or_fail (Joined ErrLoadSemanticModel) (get (CompositeID lq))
    end
  else if str_empty (ModelID lq) then fail_with (Sentinel ErrModelIDRequired)
  else or_fail (Joined ErrLoadSemanticModel) (GetPublishedFullModel (ModelID lq)).

(** The type of a column: that of the last column of the name.  The answers are kept
    per table in the code, so that a table is read once. *)
Definition column_type (list_columns : string -> string -> string -> res (list (string * string)))
    (datasourceID schema table column : string) : option string :=
  if str_empty table || str_empty column then None else
  match list_columns datasourceID schema table with
  | Err _ => None
  | Ok cols =>
      match (fold_left (fun m c => <[c.1 := c.2]> m) cols ∅ : gmap string string) !! column with
      | Some t => if str_empty t then None else Some t
      | None => None
      end
  end.

Definition validateInlineJoinColumnTypes (datasourceID : string) (model : SemanticModel) : IO (outcome unit) :=
  match ListColumns with
  | None => done_with tt
  | Some list_columns =>
      match ValidateJoinColumnTypes (column_type list_columns datasourceID) model with
      | [] => done_with tt
      | errs => fail_with (Plain (EValidation errs))
      end
  end.

(** The query as it is here is a copy of the caller's, and shares its slices. *)
Definition loadContext (lq : LogicalQuery) (inline : option SemanticModel)
    : IO (outcome (SemanticModel * Datasource * Driver)) :=
  if str_empty (DatasourceID lq) then fail_with (Sentinel ErrDatasourceIDRequired) else
  try! model := match inline with
    | None => loadSemanticModel lq
    | Some m => try! _ := validateInlineJoinColumnTypes (DatasourceID lq) m in done_with m
    end in
  try! ds := or_fail (Joined ErrLoadDatasource) (GetDatasource (DatasourceID lq)) in
  try! driver := or_fail (Joined ErrLoadDriver) (GetDriver (ds_Type ds)) in
  done_with (model, ds, driver).

(** The fuel is the depth of the query: see [Compiled]. *)
Definition compile_with (lq : LogicalQuery) (model : SemanticModel) (driver : Driver)
    (rowFilters : list RowFilter) (piiConfig : option PIIMaskingConfig) : res CompiledQuery :=
  (CompileWithPermissions (query_depth lq) (NewCompiler (drv_Dialect driver)) true lq model rowFilters piiConfig start).1.

Definition normalized (lq : LogicalQuery) (model : SemanticModel) : LogicalQuery :=
  EnsureGroupBySelected (RepairMisnamedCalendarGrainDimensions lq (dimensionNames model)).

(** The compiled query, and the logical query as the compilation leaves it. *)
Definition CompileWithContext (lq : LogicalQuery) (model : SemanticModel) (driver : Driver)
    : IO (outcome (CompiledQuery * LogicalQuery)) :=
  let (valid, lq) := Validate (validator_maxRows limits) (normalized lq model) model in
  try! _ := or_fail Plain valid in
  let! policy := QueryPolicy piiPolicies (DatasourceID lq) in
  try! (piiConfig, rowFilters) := or_fail (fun e => Plain (EWrap "resolve security policy" e)) policy in
  match compile_with lq model driver rowFilters piiConfig with
  | Ok compiled => done_with (compiled, lq)
  | Err e => fail_with (Plain (match as_validation e with Some _ => e | None => EWrap "compile" e end))
  end.

Definition ParseDatasourceFunctionBlocklist (config : string) : res (list string) :=
  if str_empty config then Ok [] else res_map_err (EWrap "parse datasource config") (unmarshalBlocklist config).

Definition blocklist_check (config sql : string) : res unit :=
  let? custom := res_map_err (EWrap "parse datasource function blocklist") (ParseDatasourceFunctionBlocklist config) in
  let? checker := res_map_err (EWrap "invalid datasource function blocklist")
                    (NewReadOnlyCheckerWithAdditionalDeniedFunctions custom) in
  res_map_err (EWrap "function blocklist") (Check checker sql).
Definition enforceFunctionBlocklist (cr : CompileResult) : IO (outcome unit) :=
  or_fail Plain (blocklist_check (ds_Config (cr_Datasource cr)) (SQL (cr_Compiled cr))).

Definition CompileWithModel (lq : LogicalQuery) (inline : option SemanticModel) : IO (outcome CompileResult) :=
  let lq := EnsureVersion lq in
  try! (model, ds, driver) := loadContext lq inline in
  try! (compiled, lq) := CompileWithContext lq model driver in
  let cr := mkCompileResult lq model ds driver compiled in
  try! _ := enforceFunctionBlocklist cr in
  done_with cr.

(** [openPool]: the error, or whether the pool is the caller's to close. *)
Definition openPool (driver : Driver) (datasourceID dsn : string) : IO (res bool) :=
  match pools with
  | Some get =>
      let! answer := ask (fun tr => get tr driver datasourceID dsn) in
      match answer with
      | Some e => io_ret (Err e)
      | None => let! _ := emit (PoolGet datasourceID dsn) in io_ret (Ok false)
      end
  | None =>
      let! answer := ask (fun tr => driver_Open tr driver dsn) in
      match answer with
      | Some e => io_ret (Err e)
      | None => let! _ := emit (PoolOpened dsn) in io_ret (Ok true)
      end
  end.

(** [defer cleanup()] *)
Definition with_pool {A} (cr : CompileResult) (body : IO (outcome A)) : IO (outcome A) :=
  try! dsn := or_fail (Joined ErrLoadDatasource) (RuntimeDSN (cr_Datasource cr)) in
  let! pool := openPool (cr_Driver cr) (ds_ID (cr_Datasource cr)) dsn in
  try! owned := or_fail (Joined ErrConnection) pool in
  let! result := body in
  let! _ := if owned then emit PoolClosed else io_ret tt in
  io_ret result.

Definition HistoryModelID (model : SemanticModel) : option string :=
  if uuid_Parse (model_ID model) then Some (model_ID model) else None.

Definition QueryStatusSuccess : string := "success".
Definition QueryStatusFailed : string := "failed".

Definition BuildQueryHistoryEntry (lq : LogicalQuery) (model : SemanticModel) (cq : CompiledQuery)
    (result : option Result) (status : string) (queryErr : option goerr) : res HistoryEntry :=
  let lq := EnsureVersion lq in
  let? fingerprint := ComputeFingerprint (mkInputs lq (DatasourceID lq) (semanticModelVersionForFingerprint (Some model)) "") in
  let? sqlArgs := MarshalSQLArgs (Args cq) in
  Ok (mkHistory "" (DatasourceID lq) (HistoryModelID model) None lq status fingerprint (Some (SQL cq)) sqlArgs
        (option_map (fun r => RowCount (r_Stats r)) result) (option_map Error queryErr)).

Definition callerID : string := match identity with None => "" | Some (uid, _) => uid end.

Definition set_user (uid : string) (e : HistoryEntry) : HistoryEntry :=
  if str_empty uid then e else
  mkHistory (he_ID e) (he_DatasourceID e) (he_ModelID e) (Some uid) (he_LogicalQuery e) (he_Status e)
    (he_Fingerprint e) (he_CompiledSQL e) (he_SQLArgs e) (he_RowCount e) (he_ErrorMessage e).
Definition set_ID (id : string) (e : HistoryEntry) : HistoryEntry :=
  mkHistory id (he_DatasourceID e) (he_ModelID e) (he_UserID e) (he_LogicalQuery e) (he_Status e)
    (he_Fingerprint e) (he_CompiledSQL e) (he_SQLArgs e) (he_RowCount e) (he_ErrorMessage e).

(** The entry written, when one was; failures are only logged. *)
Definition recordHistory (cr : CompileResult) (result : option Result) (status : string) (queryErr : option goerr)
    : IO (option HistoryEntry) :=
  match CreateQueryHistory with
  | None => io_ret None
  | Some create =>
      match BuildQueryHistoryEntry (cr_LogicalQuery cr) (cr_Model cr) (cr_Compiled cr) result status queryErr with
      | Err _ => io_ret None
      | Ok entry =>
          let entry := set_user callerID entry in
          let! answer := ask (fun tr => create tr entry) in
          match answer with
          | Err _ => io_ret None
          | Ok id => let! _ := emit (HistoryWritten (set_ID id entry)) in io_ret (Some (set_ID id entry))
          end
      end
  end.

Definition audit_event (cr : CompileResult) (result : option Result) (entry : option HistoryEntry)
    (queryErr : option goerr) : AuditEvent :=
  let p := Policy (cr_Compiled cr) in
  mkAudit callerID (match queryErr with None => "query_executed" | Some _ => "query_failed" end)
    (DatasourceID (cr_LogicalQuery cr)) (default "" (HistoryModelID (cr_Model cr)))
    (option_map he_ID entry) (option_map he_Fingerprint entry) (option_map (fun r => RowCount (r_Stats r)) result)
    (match p with None => [] | Some p => pd_RowFilters p end) (match p with None => [] | Some p => MaskedColumns p end)
    (match p with None => [] | Some p => HiddenColumns p end) (option_map Error queryErr) [].
Definition auditQueryExecution (cr : CompileResult) (result : option Result) (entry : option HistoryEntry)
    (queryErr : option goerr) : IO unit :=
  if audit then emit (Audited (audit_event cr result entry queryErr)) else io_ret tt.

(** The two calls that end a run. *)
Definition record_run (cr : CompileResult) (result : option Result) (status : string) (queryErr : option goerr) : IO unit :=
  let! entry := recordHistory cr result status queryErr in
  auditQueryExecution cr result entry queryErr.

Definition computeTotalCount (cq : CompiledQuery) : IO (res Z) :=
  match count_query (SQL cq) with
  | None => io_ret (Ok 0)
  | Some countSQL =>
      let! _ := emit (Counted countSQL (Args cq)) in
      let! answer := ask (fun tr => db_QueryRow tr countSQL (Args cq)) in
      io_ret (res_map_err (EWrap "count query") answer)
  end.

Definition set_TotalCount (n : Z) (r : Result) : Result :=
  mkResult (r_Columns r) (r_Rows r) (mkStats (RowCount (r_Stats r)) (Truncated (r_Stats r)) n)
    (r_ChartSuggestions r) (r_PivotHint r).

(** The caller's own query, after the repairs the compilation made in its slices. *)
Definition caller_query (lq : LogicalQuery) (model : SemanticModel) : LogicalQuery :=
  RepairMisnamedCalendarGrainDimensions (EnsureVersion lq) (dimensionNames model).

Definition run_compiled (lq : LogicalQuery) (cr : CompileResult) : IO (outcome (CompileResult * Result)) :=
  let! answer := Execute (executor limits) (cr_Compiled cr) (SupportsReadOnlyTx (cr_Driver cr)) in
  match answer with
  | Err err =>
      let! _ := record_run cr None QueryStatusFailed (Some err) in
      fail_with (Joined ErrQueryExecution err)
  | Ok result =>
      let! count := computeTotalCount (cr_Compiled cr) in
      let result := match count with Ok n => set_TotalCount n result | Err _ => result end in
      let result := EnrichResult result (caller_query lq (cr_Model cr)) (cr_Model cr) in
      let! _ := record_run cr (Some result) QueryStatusSuccess None in
      done_with (cr, result)
  end.

Definition RunWithModel (lq : LogicalQuery) (inline : option SemanticModel) : IO (outcome (CompileResult * Result)) :=
  try! cr := CompileWithModel lq inline in
  with_pool cr (run_compiled lq cr).

(** [None]: the dialect has no EXPLAIN. *)
Definition dryRunExplainSQL (cq : CompiledQuery) (driver : Driver) : res (option string) :=
  let? _ := res_map_err (EWrap "read-only check") (Check NewReadOnlyChecker (SQL cq)) in
  let explain := ExplainSQL (dialect_of (drv_Dialect driver)) (SQL cq) in
  Ok (if str_empty explain then None else Some explain).

(** The rows are read to the end. *)
Definition runDryExplain (explain : string) (args : list gval) : IO (outcome unit) :=
  let! _ := emit (Explained explain args) in
  let! answer := ask (fun tr => db_QueryContext tr explain args) in
  match answer with
  | Err e => fail_with (Plain (EWrap "explain" e))
  | Ok rows =>
      let! _ := emit RowsOpened in
      let! _ := emit RowsClosed in
      or_fail (fun e => Plain (EWrap "explain" e)) (checked (rows_Err rows (length (rows_data rows))))
  end.

Definition DryRunWithModel (lq : LogicalQuery) (inline : option SemanticModel) : IO (outcome CompileResult) :=
  try! cr := CompileWithModel lq inline in
  try! explain := or_fail Plain (dryRunExplainSQL (cr_Compiled cr) (cr_Driver cr)) in
  match explain with
  | None => done_with cr
  | Some explain =>
      with_pool cr (try! _ := runDryExplain explain (Args (cr_Compiled cr)) in done_with cr)
  end.

(** On the caller's connection. *)
Definition DryRun (lq : LogicalQuery) (model : SemanticModel) (driver : Driver) : IO (outcome unit) :=
  try! (compiled, _) := CompileWithContext lq model driver in
  try! explain := or_fail Plain (dryRunExplainSQL compiled driver) in
  match explain with
  | None => done_with tt
  | Some explain => runDryExplain explain (Args compiled)
  end.
End Service.
