(* ===== verification/ServiceSafety.v ===== *)
(** What the query service guarantees: nothing reaches a database but statements that
    were validated, compiled under the caller's policy and passed the read-only gate;
    what is opened is closed; what is executed is recorded; and the texts of internal
    errors do not reach the caller.  First the shapes of its traces, then the guarantees. *)

From S2P Require Import Prelude GoStrings Values Dialect Semantic ReadOnly LogicalQuery PhysicalRef Pii RowFilter CompileMonad Joins Publish Validator Compiler Compiled GrainRepair Pagination Fingerprint Enrich Execute QueryService.
From stdpp Require Import options.
#[local] Open Scope Z_scope.

(** * The events of computations that may fail *)

Lemma emits_then {A B} (m : IO (outcome A)) (f : A -> IO (outcome B)) (P : outcome A -> list event -> Prop)
    (Q : outcome B -> list event -> Prop) :
  emits m P -> (forall se e1, P (Failed se) e1 -> Q (Failed se) e1) ->
  (forall a e1, P (Done a) e1 -> emits (f a) (fun b e2 => Q b (e1 ++ e2))) -> emits (io_then m f) Q.
Proof.
  intros Hm Hfail Hdone. eapply emits_bind; [exact Hm|]. intros [a|se] e1 HP; [by apply Hdone|].
  apply emits_ret. rewrite List.app_nil_r. by apply Hfail.
Qed.
Lemma emits_or_fail {A} (f : goerr -> svc_error) (r : res A) (Q : outcome A -> list event -> Prop) :
  (forall a, r = Ok a -> Q (Done a) []) -> (forall e, r = Err e -> Q (Failed (ToServiceError (f e))) []) ->
  emits (or_fail f r) Q.
Proof. intros H1 H2. destruct r; apply emits_ret; auto. Qed.

(** * Compilation *)

Definition is_mask_event (e : event) : Prop := exists u d cs, e = masking_event u d cs.

Section Guards.
Context `{World} `{Database} `{GoRuntime} `{MapOrder} `{Hashing} (limits : Limits).

(** The policy the caller is under, on a datasource: none without a policy service or a
    caller, otherwise what the two stores hold. *)
Definition caller_policy (datasourceID : string) (cfg : option PIIMaskingConfig) (filters : list RowFilter) : Prop :=
  match piiPolicies with
  | None => cfg = None /\ filters = []
  | Some svc =>
      match pii_identity svc with
      | None => cfg = None /\ filters = []
      | Some (userID, roles) =>
          (datasourceID = "" \/ userID = "") /\ cfg = None /\ filters = [] \/
          exists policy cols,
            GetSecurityPolicyByKeys svc userID datasourceID = Ok policy /\ ListPIIColumns svc datasourceID = Ok cols /\
            cfg = maskingConfig roles cols (match policy with None => ∅ | Some p => sp_PIIPolicy p end) /\
            filters = match policy with None => [] | Some p => sp_RowFilters p end
      end
  end.

Lemma QueryPolicy_emits ds : emits (QueryPolicy piiPolicies ds) (fun r evs =>
  Forall is_mask_event evs /\ match r with Ok (cfg, filters) => caller_policy ds cfg filters | Err _ => True end).
Proof using.
  unfold QueryPolicy, caller_policy. destruct piiPolicies as [svc|]; [|by apply emits_ret].
  destruct (pii_identity svc) as [[u roles]|]; [|by apply emits_ret].
  destruct (str_empty ds || str_empty u) eqn:Eb.
  { apply emits_ret. split; [done|]. left. apply orb_true_iff in Eb. destruct Eb as [?%str_empty_spec|?%str_empty_spec]; tauto. }
  destruct (GetSecurityPolicyByKeys svc u ds) as [policy|e]; [|by apply emits_ret].
  destruct (ListPIIColumns svc ds) as [cols|e] eqn:Ec; [|by apply emits_ret]. cbv zeta.
  eapply emits_bind with (P := fun _ evs => Forall is_mask_event evs).
  - destruct (match maskingConfig _ _ _ with Some c => _ | None => _ end) as [|m ms]; [by apply emits_ret|].
    destruct (pii_audit svc); [|by apply emits_ret]. apply emits_emit. constructor; [|done]. by exists u, ds, (m :: ms).
  - intros [] e1 Hm. apply emits_ret. rewrite List.app_nil_r. split; [done|]. right. exists policy, cols.
    split; [done|]. split; [done|]. split; [done|]. by destruct policy.
Qed.

(** A compiled statement that may be sent to the database. *)
Record Guarded (lq : LogicalQuery) (inline : option SemanticModel) (cr : CompileResult) : Prop := {
  g_datasource : DatasourceID lq <> "" /\ GetDatasource (DatasourceID lq) = Ok (cr_Datasource cr);
  g_driver : GetDriver (ds_Type (cr_Datasource cr)) = Ok (cr_Driver cr);
  g_model : match inline with
            | Some m => cr_Model cr = m
            | None => forall tr, loadSemanticModel (EnsureVersion lq) tr = (Done (cr_Model cr), tr)
            end;
  g_valid : Validate (validator_maxRows limits) (normalized (EnsureVersion lq) (cr_Model cr)) (cr_Model cr) =
            (Ok tt, cr_LogicalQuery cr);
  g_policy : exists cfg filters, caller_policy (DatasourceID lq) cfg filters /\
    compile_with (cr_LogicalQuery cr) (cr_Model cr) (cr_Driver cr) filters cfg = Ok (cr_Compiled cr);
  g_readonly : blocklist_check (ds_Config (cr_Datasource cr)) (SQL (cr_Compiled cr)) = Ok tt;
}.

Lemma normalized_datasource lq model : DatasourceID (normalized lq model) = DatasourceID lq.
Proof using.
  unfold normalized. generalize (dimensionNames model). intros names.
  assert (forall q, DatasourceID (EnsureGroupBySelected q) = DatasourceID q) as ->.
  { intros q. unfold EnsureGroupBySelected. destruct (GroupBys q); [done|]. by destruct (missing_dims _ _). }
  by destruct names.
Qed.
Lemma Validate_datasource n lq model : DatasourceID (Validate n lq model).2 = DatasourceID lq.
Proof using.
  unfold Validate. cbv zeta. unfold validateLimitOffset. cbv zeta. cbn [snd]. by destruct (_ && _ && _).
Qed.
Lemma EnsureVersion_datasource lq : DatasourceID (EnsureVersion lq) = DatasourceID lq.
Proof using. unfold EnsureVersion. by destruct (str_empty _). Qed.

Lemma CompileWithContext_emits lq model driver :
  emits (CompileWithContext limits lq model driver) (fun r evs => Forall is_mask_event evs /\
    match r with
    | Done (cq, lq') =>
        Validate (validator_maxRows limits) (normalized lq model) model = (Ok tt, lq') /\
        exists cfg filters, caller_policy (DatasourceID lq) cfg filters /\
          compile_with lq' model driver filters cfg = Ok cq
    | Failed _ => True
    end).
Proof using.
  unfold CompileWithContext. destruct (Validate _ _ _) as [valid lq'] eqn:Ev.
  assert (DatasourceID lq' = DatasourceID lq) as Hds.
  { pose proof (Validate_datasource (validator_maxRows limits) (normalized lq model) model) as Hd. rewrite Ev in Hd. cbn in Hd.
    by rewrite Hd, normalized_datasource. }
  eapply emits_then; [apply emits_or_fail with (Q := fun r evs => evs = [] /\ (r = Done tt -> valid = Ok tt))|..].
  { by intros [] ->. }
  { done. }
  { by intros se e1 [-> _]. }
  intros [] e1 [-> Hv]. specialize (Hv eq_refl). subst valid.
  eapply emits_bind; [apply QueryPolicy_emits|]. intros policy e1 [Hm Hp]. cbn [app].
  eapply emits_then; [apply emits_or_fail with (Q := fun r evs => evs = [] /\
    match r with Done a => policy = Ok a | Failed _ => True end)|..]; [by intros a ->|done| |].
  { intros se e2 [-> _]. by rewrite List.app_nil_r. }
  intros [cfg filters] e2 [-> ->]. cbn in Hp. rewrite Hds in Hp.
  destruct (compile_with lq' model driver filters cfg) as [cq|e] eqn:Ec; apply emits_ret; rewrite !List.app_nil_r; split; try done.
  split; [done|]. by exists cfg, filters.
Qed.

Lemma loadContext_emits lq inline :
  emits (loadContext lq inline) (fun r evs => evs = [] /\
    match r with
    | Done (model, ds, driver) =>
        DatasourceID lq <> "" /\ GetDatasource (DatasourceID lq) = Ok ds /\ GetDriver (ds_Type ds) = Ok driver /\
        match inline with
        | Some m => model = m
        | None => forall tr, loadSemanticModel lq tr = (Done model, tr)
        end
    | Failed _ => True
    end).
Proof using.
  unfold loadContext. destruct (str_empty (DatasourceID lq)) eqn:Ed; [by apply emits_ret|]. apply str_empty_false in Ed.
  eapply emits_then with (P := fun r evs => evs = [] /\ match r with
    | Done model => match inline with Some m => model = m | None => forall tr, loadSemanticModel lq tr = (Done model, tr) end
    | Failed _ => True end).
  { destruct inline as [m|].
    - unfold validateInlineJoinColumnTypes. eapply emits_then with (P := fun r evs => evs = []).
      + destruct ListColumns; [|by apply emits_ret]. destruct (ValidateJoinColumnTypes _ _); by apply emits_ret.
      + by intros se e1 ->.
      + intros [] e1 ->. by apply emits_ret.
    - unfold loadSemanticModel. destruct (negb (str_empty (CompositeID lq))).
      + destruct GetPublishedResolvedComposite as [get|]; [|by apply emits_ret]. unfold or_fail. by destruct (get _); apply emits_ret.
      + destruct (str_empty (ModelID lq)); [by apply emits_ret|]. unfold or_fail. by destruct (GetPublishedFullModel _); apply emits_ret. }
  { by intros se e1 [-> _]. }
  intros model e1 [-> Hm].
  eapply emits_then; [apply emits_or_fail with (Q := fun r evs => evs = [] /\
    match r with Done a => GetDatasource (DatasourceID lq) = Ok a | Failed _ => True end); [done|done]|by intros ? ? [-> _]|].
  intros ds e2 [-> Hds].
  eapply emits_then; [apply emits_or_fail with (Q := fun r evs => evs = [] /\
    match r with Done a => GetDriver (ds_Type ds) = Ok a | Failed _ => True end); [done|done]|by intros ? ? [-> _]|].
  intros driver e3 [-> Hdr]. by apply emits_ret.
Qed.

Lemma CompileWithModel_emits lq inline :
  emits (CompileWithModel limits lq inline) (fun r evs => Forall is_mask_event evs /\
    match r with Done cr => Guarded lq inline cr | Failed _ => True end).
Proof using.
  unfold CompileWithModel. cbv zeta.
  eapply emits_then; [apply loadContext_emits|by intros se e1 [-> _]|].
  intros [[model ds] driver] e1 [-> (Hne & Hds & Hdr & Hmod)]. cbn [app].
  eapply emits_then; [apply CompileWithContext_emits|by intros se e1 [? _]|].
  intros [cq lq'] e1 [Hm (Hv & cfg & filters & Hp & Hc)]. rewrite EnsureVersion_datasource in *.
  unfold enforceFunctionBlocklist.
  eapply emits_then; [apply emits_or_fail with (Q := fun r evs => evs = [] /\
    match r with Done _ => blocklist_check (ds_Config ds) (SQL cq) = Ok tt | Failed _ => True end)|..].
  { by intros [] Hb. }
  { done. }
  { intros se e2 [-> _]. by rewrite List.app_nil_r. }
  intros [] e2 [-> Hb]. apply emits_ret. rewrite !List.app_nil_r. split; [done|].
  constructor; cbn; try done. by exists cfg, filters.
Qed.

(** * Execution *)

Definition bracket (readOnly : bool) (evs : list event) : list event :=
  if readOnly then BeganReadOnly :: evs ++ [RolledBack] else evs.

(** The events of [Execute]: none when the statement is refused or the transaction
    cannot begin. *)
Inductive execution (readOnly : bool) (cq : CompiledQuery) : res Result -> list event -> Prop :=
| Exec_refused e : execution readOnly cq (Err e) []
| Exec_failed e : execution readOnly cq (Err e) (bracket readOnly [Queried readOnly (SQL cq) (Args cq)])
| Exec_rows r : execution readOnly cq r
    (bracket readOnly [Queried readOnly (SQL cq) (Args cq); RowsOpened; RowsClosed]).

Lemma Execute_emits e cq readOnly : emits (Execute e cq readOnly) (execution readOnly cq).
Proof using.
  unfold Execute. destruct (Check (checker e) (SQL cq)) as [u|err]; [|apply emits_ret; constructor].
  assert (emits (run_query e cq readOnly) (fun r evs => (exists err, r = Err err) /\ evs = [Queried readOnly (SQL cq) (Args cq)] \/
    evs = [Queried readOnly (SQL cq) (Args cq); RowsOpened; RowsClosed])) as Hrun.
  { unfold run_query. eapply emits_bind; [by apply emits_emit with (Q := fun _ evs => evs = [Queried readOnly (SQL cq) (Args cq)])|].
    intros [] e1 ->. eapply emits_bind; [by apply emits_ask with (Q := fun _ evs => evs = [])|]. intros answer e2 ->.
    destruct answer as [rows|err]; [|apply emits_ret; left; split; [by eexists|done]].
    eapply emits_bind; [by apply emits_emit with (Q := fun _ evs => evs = [RowsOpened])|]. intros [] e3 ->.
    eapply emits_bind; [by apply emits_emit with (Q := fun _ evs => evs = [RowsClosed])|]. intros [] e4 ->.
    apply emits_ret. by right. }
  destruct readOnly.
  - eapply emits_bind; [by apply emits_ask with (Q := fun _ evs => evs = [])|]. intros began e1 ->.
    destruct began as [err|]; [apply emits_ret; constructor|].
    eapply emits_bind; [by apply emits_emit with (Q := fun _ evs => evs = [BeganReadOnly])|]. intros [] e2 ->.
    eapply emits_bind; [exact Hrun|]. intros r e3 He3.
    eapply emits_bind; [by apply emits_emit with (Q := fun _ evs => evs = [RolledBack])|]. intros [] e4 ->.
    apply emits_ret. destruct He3 as [[[err ->] ->]| ->]; cbn [app]; [apply Exec_failed|apply Exec_rows].
  - eapply emits_impl; [exact Hrun|]. intros r evs [[[err ->] ->]| ->]; [apply Exec_failed|apply Exec_rows].
Qed.

(** * What a run leaves in the records *)

(** The user a record names, the model, and the outcome of the run as the history has
    it. *)
Definition asked_by : string := match identity with None => "" | Some (user, _) => user end.
Definition model_recorded (model : SemanticModel) : option string :=
  if uuid_Parse (model_ID model) then Some (model_ID model) else None.
Definition status_recorded (err : option goerr) : string := match err with None => "success" | Some _ => "failed" end.
Definition fingerprint_recorded (cr : CompileResult) : res string :=
  ComputeFingerprint (mkInputs (EnsureVersion (cr_LogicalQuery cr)) (DatasourceID (cr_LogicalQuery cr))
    (Itoa (model_Version (cr_Model cr))) "").

(** The entry of the history for a run: whose it is, the query as it was asked, the
    statement and the arguments it was compiled to, and how it ended. *)
Record entry_of (cr : CompileResult) (result : option Result) (err : option goerr) (e : HistoryEntry) : Prop := {
  entry_user : he_UserID e = if String.eqb asked_by "" then None else Some asked_by;
  entry_datasource : he_DatasourceID e = DatasourceID (cr_LogicalQuery cr);
  entry_model : he_ModelID e = model_recorded (cr_Model cr);
  entry_query : he_LogicalQuery e = EnsureVersion (cr_LogicalQuery cr);
  entry_fingerprint : fingerprint_recorded cr = Ok (he_Fingerprint e);
  entry_statement : he_CompiledSQL e = Some (SQL (cr_Compiled cr));
  entry_args : MarshalSQLArgs (Args (cr_Compiled cr)) = Ok (he_SQLArgs e);
  entry_status : he_Status e = status_recorded err;
  entry_rows : he_RowCount e = option_map (fun r => RowCount (r_Stats r)) result;
  entry_error : he_ErrorMessage e = option_map Error err;
}.

(** Why a run has no entry: there is no history, the fingerprint or the arguments could
    not be encoded, or the store refused the entry. *)
Definition no_entry (cr : CompileResult) (result : option Result) (err : option goerr) : Prop :=
  match CreateQueryHistory with
  | None => True
  | Some create =>
      (exists x, fingerprint_recorded cr = Err x) \/ (exists x, MarshalSQLArgs (Args (cr_Compiled cr)) = Err x) \/
      (exists tr e x, entry_of cr result err e /\ create tr e = Err x)
  end.

(** The audit event of a run: whose it is, the entry of the history, what the policy did
    to the query, and how it ended. *)
Record audit_of (cr : CompileResult) (result : option Result) (entry : option HistoryEntry) (err : option goerr)
    (a : AuditEvent) : Prop := {
  audit_user : ae_UserID a = asked_by;
  audit_type : ae_EventType a = match err with None => "query_executed" | Some _ => "query_failed" end;
  audit_datasource : ae_DatasourceID a = DatasourceID (cr_LogicalQuery cr);
  audit_model : ae_ModelID a = match model_recorded (cr_Model cr) with None => "" | Some id => id end;
  audit_history : ae_HistoryID a = option_map he_ID entry;
  audit_fingerprint : ae_Fingerprint a = option_map he_Fingerprint entry;
  audit_rows : ae_RowCount a = option_map (fun r => RowCount (r_Stats r)) result;
  audit_filters : ae_RowFilters a = match Policy (cr_Compiled cr) with None => [] | Some p => pd_RowFilters p end;
  audit_masked : ae_MaskedColumns a = match Policy (cr_Compiled cr) with None => [] | Some p => MaskedColumns p end;
  audit_hidden : ae_HiddenColumns a = match Policy (cr_Compiled cr) with None => [] | Some p => HiddenColumns p end;
  audit_error : ae_Error a = option_map Error err;
}.

Lemma ensured_datasource lq : DatasourceID (EnsureVersion lq) = DatasourceID lq.
Proof using. unfold EnsureVersion. by destruct (str_empty _). Qed.
Lemma audit_event_of cr result entry err : audit_of cr result entry err (audit_event cr result entry err).
Proof using. by constructor. Qed.
Lemma entry_built cr result err built id :
  BuildQueryHistoryEntry (cr_LogicalQuery cr) (cr_Model cr) (cr_Compiled cr) result (status_recorded err) err = Ok built ->
  entry_of cr result err (set_ID id (set_user callerID built)).
Proof using.
  unfold BuildQueryHistoryEntry. cbv zeta. rewrite ensured_datasource. intros Hb.
  apply res_bind_ok in Hb as (fp & Hfp & Hb). apply res_bind_ok in Hb as (args & Hargs & [= <-]).
  unfold set_user, callerID. fold asked_by. unfold str_empty.
  destruct (String.eqb asked_by "") eqn:Eu; constructor; cbn; rewrite ?Eu; done.
Qed.
Lemma entry_not_built cr result err x :
  BuildQueryHistoryEntry (cr_LogicalQuery cr) (cr_Model cr) (cr_Compiled cr) result (status_recorded err) err = Err x ->
  (exists x, fingerprint_recorded cr = Err x) \/ (exists x, MarshalSQLArgs (Args (cr_Compiled cr)) = Err x).
Proof using.
  unfold BuildQueryHistoryEntry, fingerprint_recorded, semanticModelVersionForFingerprint. cbv zeta.
  rewrite ensured_datasource. destruct (ComputeFingerprint _); cbn; [|eauto]. destruct (MarshalSQLArgs _); cbn; [done|eauto].
Qed.

(** The events that record a run. *)
Inductive recording (cr : CompileResult) (result : option Result) (err : option goerr) : list event -> Prop :=
| Recorded_no_entry : no_entry cr result err ->
    recording cr result err (if audit then [Audited (audit_event cr result None err)] else [])
| Recorded e : entry_of cr result err e ->
    recording cr result err (HistoryWritten e :: if audit then [Audited (audit_event cr result (Some e) err)] else []).

Lemma record_emits cr result err :
  emits (record_run cr result (match err with None => QueryStatusSuccess | Some _ => QueryStatusFailed end) err)
    (fun _ evs => recording cr result err evs).
Proof using.
  unfold record_run.
  assert (forall entry, emits (auditQueryExecution cr result entry err)
    (fun _ evs => evs = if audit then [Audited (audit_event cr result entry err)] else [])) as Haudit.
  { intros entry. unfold auditQueryExecution. destruct audit; [by apply emits_emit|by apply emits_ret]. }
  eapply emits_bind with (P := fun entry evs =>
    match entry with None => evs = [] /\ no_entry cr result err | Some e => evs = [HistoryWritten e] /\ entry_of cr result err e end).
  - unfold recordHistory, no_entry. destruct CreateQueryHistory as [create|] eqn:Ec; [|by apply emits_ret].
    change (match err with None => _ | Some _ => _ end) with (status_recorded err).
    destruct (BuildQueryHistoryEntry _ _ _ _ _ _) as [built|x] eqn:Eb.
    2:{ apply emits_ret. split; [done|]. apply entry_not_built in Eb. tauto. }
    cbv zeta. eapply emits_bind; [apply emits_ask with (Q := fun answer evs => evs = [] /\
      match answer with Ok _ => True | Err x => exists tr, create tr (set_user callerID built) = Err x end)|].
    { intros tr. destruct (create tr _) eqn:Ex; eauto. }
    intros [id|x] e1 [-> Hx].
    2:{ apply emits_ret. split; [done|]. do 2 right. destruct Hx as [tr Hx]. exists tr, (set_user callerID built), x. split; [|done].
      apply (entry_built _ _ _ _ "") in Eb. revert Eb. unfold set_user. destruct (str_empty callerID); by intros []. }
    eapply emits_bind; [by apply emits_emit with (Q := fun _ evs => evs = [HistoryWritten (set_ID id (set_user callerID built))])|].
    intros [] e2 ->. apply emits_ret. split; [done|]. by apply entry_built.
  - intros [e|] e1 He1.
    + destruct He1 as [-> He]. eapply emits_impl; [apply Haudit|]. intros [] evs ->. by apply Recorded.
    + destruct He1 as [-> He]. eapply emits_impl; [apply Haudit|]. intros [] evs ->. by apply Recorded_no_entry.
Qed.

(** The events of [run_compiled]. *)
Inductive running (cr : CompileResult) : outcome (CompileResult * Result) -> list event -> Prop :=
| Run_failed err exec rec :
    execution (SupportsReadOnlyTx (cr_Driver cr)) (cr_Compiled cr) (Err err) exec ->
    recording cr None (Some err) rec ->
    running cr (Failed (ToServiceError (Joined ErrQueryExecution err))) (exec ++ rec)
| Run_done r result exec count rec :
    execution (SupportsReadOnlyTx (cr_Driver cr)) (cr_Compiled cr) (Ok r) exec ->
    (count = [] \/ exists c, count_query (SQL (cr_Compiled cr)) = Some c /\ count = [Counted c (Args (cr_Compiled cr))]) ->
    recording cr (Some result) None rec ->
    running cr (Done (cr, result)) (exec ++ count ++ rec).

Lemma run_emits lq cr : emits (run_compiled limits lq cr) (running cr).
Proof using.
  unfold run_compiled. eapply emits_bind; [apply Execute_emits|]. intros [r|err] exec Hexec.
  - eapply emits_bind with (P := fun _ count => count = [] \/
      exists c, count_query (SQL (cr_Compiled cr)) = Some c /\ count = [Counted c (Args (cr_Compiled cr))]).
    { unfold computeTotalCount. destruct (count_query _) as [c|] eqn:Ec; [|apply emits_ret; by left].
      eapply emits_bind; [by apply emits_emit with (Q := fun _ evs => evs = [Counted c (Args (cr_Compiled cr))])|]. intros [] e1 ->.
      eapply emits_bind; [by apply emits_ask with (Q := fun _ evs => evs = [])|]. intros a e2 ->.
      apply emits_ret. right. by exists c. }
    intros count cevs Hcount. cbv zeta. set (result := EnrichResult _ _ _).
    eapply emits_bind; [apply (record_emits cr (Some result) None)|]. intros [] rec Hrec.
    apply emits_ret. rewrite List.app_nil_r. by econstructor.
  - eapply emits_bind; [apply (record_emits cr None (Some err))|]. intros [] rec Hrec.
    apply emits_ret. rewrite List.app_nil_r. by constructor.
Qed.

(** * Connections *)

(** The events of a body that is run on a pool: the pool of the cache, or one that is
    opened, and closed after. *)
Inductive serving {B} (cr : CompileResult) (body : outcome B -> list event -> Prop) : outcome B -> list event -> Prop :=
| Serve_no_dsn e : serving cr body (Failed (ToServiceError (Joined ErrLoadDatasource e))) []
| Serve_no_pool e : serving cr body (Failed (ToServiceError (Joined ErrConnection e))) []
| Serve_cached dsn r evs : body r evs -> serving cr body r (PoolGet (ds_ID (cr_Datasource cr)) dsn :: evs)
| Serve_opened dsn r evs : body r evs -> serving cr body r (PoolOpened dsn :: evs ++ [PoolClosed]).

Lemma with_pool_emits {B} cr (body : IO (outcome B)) (P : outcome B -> list event -> Prop) :
  emits body P -> emits (with_pool cr body) (serving cr P).
Proof using.
  intros Hb. unfold with_pool.
  eapply emits_then; [apply emits_or_fail with (Q := fun r evs => evs = [] /\
    match r with Done _ => True | Failed se => exists e, se = ToServiceError (Joined ErrLoadDatasource e) end)|..];
    [done|by intros e _; split; [|eexists]|by intros se e1 [-> [e ->]]; constructor|].
  intros dsn e1 [-> _]. unfold openPool. cbn [app].
  assert (forall (ask_open : list event -> option goerr) (ev : event) (owned : bool),
    emits (let! answer := ask ask_open in match answer with Some e => io_ret (Err e) | None => let! _ := emit ev in io_ret (Ok owned) end)
      (fun r evs => match r with Err _ => evs = [] | Ok o => o = owned /\ evs = [ev] end)) as Hopen.
  { intros f ev owned. eapply emits_bind; [by apply emits_ask with (Q := fun _ evs => evs = [])|].
    intros [e|] e1 ->; [by apply emits_ret|].
    eapply emits_bind; [by apply emits_emit with (Q := fun _ evs => evs = [ev])|]. intros [] e2 ->. by apply emits_ret. }
  eapply emits_bind with (P := fun r evs => match r with
    | Err _ => evs = []
    | Ok true => evs = [PoolOpened dsn]
    | Ok false => evs = [PoolGet (ds_ID (cr_Datasource cr)) dsn] end).
  { destruct pools as [get|]; (eapply emits_impl; [apply Hopen|]); by intros [o|e] evs; [intros [-> ->]|]. }
  intros [owned|e] e1 He1; [|subst e1; by apply emits_ret, Serve_no_pool].
  eapply emits_then; [by apply emits_ret with (Q := fun r evs => evs = [] /\ r = Done owned)|by intros se e2 [_ ?]|].
  intros o e2 [-> [= ->]]. eapply emits_bind; [exact Hb|]. intros r evs Hr.
  destruct owned; subst e1.
  - eapply emits_bind; [by apply emits_emit with (Q := fun _ evs => evs = [PoolClosed])|]. intros [] e3 ->.
    apply emits_ret. cbn. by apply Serve_opened.
  - eapply emits_bind; [by apply emits_ret with (Q := fun _ evs => evs = [])|]. intros [] e3 ->.
    apply emits_ret. cbn. rewrite !List.app_nil_r. by apply Serve_cached.
Qed.

(** The events of a request: those of the policy, and, when the query was compiled,
    those of what is done with it. *)
Inductive request {B} (lq : LogicalQuery) (inline : option SemanticModel)
    (body : CompileResult -> outcome B -> list event -> Prop) : outcome B -> list event -> Prop :=
| Request_not_compiled se masks : Forall is_mask_event masks -> request lq inline body (Failed se) masks
| Request_compiled cr r masks evs :
    Forall is_mask_event masks -> Guarded lq inline cr -> body cr r evs -> request lq inline body r (masks ++ evs).

Lemma request_emits {B} lq inline (f : CompileResult -> IO (outcome B)) (body : CompileResult -> outcome B -> list event -> Prop) :
  (forall cr, Guarded lq inline cr -> emits (f cr) (body cr)) ->
  emits (try! cr := CompileWithModel limits lq inline in f cr) (request lq inline body).
Proof using.
  intros Hf. eapply emits_then; [apply CompileWithModel_emits|by intros se e1 [? _]; constructor|].
  intros cr masks [Hm Hg]. eapply emits_impl; [by apply Hf|]. intros r evs Hr. by econstructor.
Qed.

Lemma RunWithModel_emits lq inline :
  emits (RunWithModel limits lq inline) (request lq inline (fun cr => serving cr (running cr))).
Proof using. apply request_emits. intros cr _. apply with_pool_emits, run_emits. Qed.

(** The events of a dry run: EXPLAIN, when the dialect has it. *)
Definition explain_of (cr : CompileResult) : string := ExplainSQL (dialect_of (drv_Dialect (cr_Driver cr))) (SQL (cr_Compiled cr)).
Inductive explaining (cr : CompileResult) : outcome CompileResult -> list event -> Prop :=
| Explain_failed e :
    explaining cr (Failed (ToServiceError (Plain (EWrap "explain" e)))) [Explained (explain_of cr) (Args (cr_Compiled cr))]
| Explain_rows r : (forall cr', r = Done cr' -> cr' = cr) ->
    explaining cr r [Explained (explain_of cr) (Args (cr_Compiled cr)); RowsOpened; RowsClosed].
Inductive dry_running (cr : CompileResult) : outcome CompileResult -> list event -> Prop :=
| Dry_refused se : dry_running cr (Failed se) []
| Dry_no_explain : explain_of cr = "" -> dry_running cr (Done cr) []
| Dry_explained r evs : serving cr (explaining cr) r evs -> dry_running cr r evs.

Lemma DryRunWithModel_emits lq inline : emits (DryRunWithModel limits lq inline) (request lq inline dry_running).
Proof using.
  apply request_emits. intros cr _.
  eapply emits_then; [apply emits_or_fail with (Q := fun r evs => evs = [] /\
    match r with Done a => dryRunExplainSQL (cr_Compiled cr) (cr_Driver cr) = Ok a | Failed _ => True end)|..];
    [done|done|by intros se e1 [-> _]; constructor|].
  intros explain e1 [-> He]. cbn [app]. unfold dryRunExplainSQL in He. apply res_bind_ok in He as (_ & _ & [= He]).
  fold (explain_of cr) in He. destruct (str_empty (explain_of cr)) eqn:Ee; subst explain.
  - apply emits_ret, Dry_no_explain. by apply str_empty_spec.
  - eapply emits_impl; [apply with_pool_emits with (P := explaining cr)|by intros r evs; apply Dry_explained].
    eapply emits_then with (P := fun r evs =>
      match r with
      | Failed se => explaining cr (Failed se) evs
      | Done _ => evs = [Explained (explain_of cr) (Args (cr_Compiled cr)); RowsOpened; RowsClosed]
      end).
    + unfold runDryExplain.
      eapply emits_bind; [by apply emits_emit with (Q := fun _ evs => evs = [Explained (explain_of cr) (Args (cr_Compiled cr))])|].
      intros [] e1 ->. eapply emits_bind; [by apply emits_ask with (Q := fun _ evs => evs = [])|]. intros [rows|e] e2 ->.
      2:{ apply emits_ret. apply Explain_failed. }
      eapply emits_bind; [by apply emits_emit with (Q := fun _ evs => evs = [RowsOpened])|]. intros [] e3 ->.
      eapply emits_bind; [by apply emits_emit with (Q := fun _ evs => evs = [RowsClosed])|]. intros [] e4 ->.
      apply emits_or_fail; [done|]. intros e _. cbn. by apply Explain_rows.
    + done.
    + intros [] e1 ->. apply emits_ret. cbn. by apply Explain_rows; intros cr' [= ->].
Qed.
End Guards.

(** * What reaches a database *)

Definition reaches_database (e : event) : bool :=
  match e with
  | PoolGet _ _ | PoolOpened _ | BeganReadOnly | Queried _ _ _ | Counted _ _ | Explained _ _ => true
  | _ => false
  end.

Section Safety.
Context `{World} `{Database} `{GoRuntime} `{MapOrder} `{Hashing} (limits : Limits).

(** What is sent for a compiled query: the statement, the count of its rows, or its
    EXPLAIN, with its arguments. *)
Definition statement_of (cr : CompileResult) (e : event) : Prop :=
  match e with
  | Queried inTx sql args =>
      sql = SQL (cr_Compiled cr) /\ args = Args (cr_Compiled cr) /\ inTx = SupportsReadOnlyTx (cr_Driver cr)
  | Counted sql args => count_query (SQL (cr_Compiled cr)) = Some sql /\ args = Args (cr_Compiled cr)
  | Explained sql args => sql = explain_of cr /\ args = Args (cr_Compiled cr)
  | _ => True
  end.

(** The statement has the row filters of the caller's policy on the datasource, with
    their values as its last arguments. *)
Definition filtered (lq : LogicalQuery) (cr : CompileResult) : Prop :=
  exists cfg filters withPrefix from bound vals,
    caller_policy (DatasourceID lq) cfg filters /\ Args (cr_Compiled cr) = bound ++ vals /\
    secured (dialect_of (Normalize (drv_Dialect (cr_Driver cr)))) (cr_Model cr) filters withPrefix from
      (SQL (cr_Compiled cr)) (Z.of_nat (length bound)) vals.

Lemma Guarded_filtered lq inline cr : Guarded limits lq inline cr -> filtered lq cr.
Proof using.
  intros [_ _ _ _ (cfg & filters & Hp & Hc) _]. unfold compile_with in Hc.
  destruct (CompileWithPermissions _ _ _ _ _ _ _ _) as [r st'] eqn:E. cbn in Hc. subst r.
  apply entry_secured in E as (withPrefix & from & bound & vals & Ha & Hs). exists cfg, filters, withPrefix, from, bound, vals.
  split_and!; [done|done|]. unfold effective_filters in Hs. cbn [dialect NewCompiler rowFilters] in Hs.
  by destruct filters, cfg.
Qed.

(** The statement passed the gate of the datasource: the built-in denied functions
    and the ones its configuration adds. *)
Lemma Guarded_checked lq inline cr : Guarded limits lq inline cr ->
  exists custom checker, ParseDatasourceFunctionBlocklist (ds_Config (cr_Datasource cr)) = Ok custom /\
    NewReadOnlyCheckerWithAdditionalDeniedFunctions custom = Ok checker /\ Check checker (SQL (cr_Compiled cr)) = Ok tt.
Proof using.
  intros [_ _ _ _ _ Hb]. unfold blocklist_check in Hb. apply res_bind_ok in Hb as (custom & Hc & Hb).
  apply res_bind_ok in Hb as (checker & Hk & Hb). exists custom, checker. split_and!.
  - by destruct (ParseDatasourceFunctionBlocklist _).
  - by destruct (NewReadOnlyCheckerWithAdditionalDeniedFunctions _).
  - destruct (Check _ _) as [[]|]; done.
Qed.

(** What the datasource's gate accepts, the executor's accepts. *)
Lemma Guarded_executes lq inline cr : Guarded limits lq inline cr -> Check NewReadOnlyChecker (SQL (cr_Compiled cr)) = Ok tt.
Proof using.
  intros (custom & checker & _ & Hk & Hc)%Guarded_checked. apply Check_spec in Hc as (o & Hs & Hh & Hd & Hb & Hone & Hf).
  apply Check_spec. exists o. split_and!; try done. intros f Hin. apply Hf.
  unfold NewReadOnlyCheckerWithAdditionalDeniedFunctions in Hk. apply res_bind_ok in Hk as (l & Hl & [= <-]). cbn in *.
  pose proof (EffectiveDeniedFunctions_exact custom) as He. rewrite Hl in He. destruct He as (extra & -> & _).
  apply elem_of_app. by left.
Qed.

Definition allowed (cr : CompileResult) (e : event) : Prop := reaches_database e = true -> statement_of cr e.

Ltac each_event := repeat (apply Forall_cons; split); try apply Forall_nil; unfold allowed; intros; cbn; split_and?; first [done | congruence].

Lemma execution_allowed cr r evs :
  execution (SupportsReadOnlyTx (cr_Driver cr)) (cr_Compiled cr) r evs -> Forall (allowed cr) evs.
Proof using. intros Hx. inversion Hx; subst; unfold bracket; [|destruct (SupportsReadOnlyTx (cr_Driver cr)) eqn:Ero..]; each_event. Qed.
Lemma recording_allowed cr result err evs : recording cr result err evs -> Forall (allowed cr) evs.
Proof using. intros Hx. inversion Hx; subst; destruct audit; each_event. Qed.
Lemma running_allowed cr r evs : running cr r evs -> Forall (allowed cr) evs.
Proof using.
  intros Hx. inversion Hx as [? ? ? Hex Hrec|? ? ? ? ? Hex Hcount Hrec]; subst; apply execution_allowed in Hex;
    apply recording_allowed in Hrec; rewrite !Forall_app; split_and?; try done.
  destruct Hcount as [->|(c & Hc & ->)]; [constructor|]. each_event.
Qed.
Lemma explaining_allowed cr r evs : explaining cr r evs -> Forall (allowed cr) evs.
Proof using. intros Hx. inversion Hx; subst; each_event. Qed.
Lemma serving_allowed {B} cr (body : outcome B -> list event -> Prop) r evs :
  (forall r evs, body r evs -> Forall (allowed cr) evs) -> serving cr body r evs -> Forall (allowed cr) evs.
Proof using.
  intros Hb Hx. inversion Hx as [| |dsn r' evs' He|dsn r' evs' He]; subst; [constructor..|constructor; [done|by eapply Hb]|].
  constructor; [done|]. apply Forall_app. split; [by eapply Hb|each_event].
Qed.
Lemma request_allowed {B} lq inline (body : CompileResult -> outcome B -> list event -> Prop) r evs :
  (forall cr r evs, body cr r evs -> Forall (allowed cr) evs) -> request limits lq inline body r evs ->
  Forall (fun e => reaches_database e = true -> exists cr, Guarded limits lq inline cr /\ statement_of cr e) evs.
Proof using.
  intros Hb Hx. assert (forall masks, Forall is_mask_event masks ->
    Forall (fun e => reaches_database e = true -> exists cr, Guarded limits lq inline cr /\ statement_of cr e) masks) as Hmasks.
  { intros masks Hm. eapply Forall_impl; [exact Hm|]. by intros e (u & d & cs & ->). }
  inversion Hx as [se masks Hm|cr r' masks evs' Hm Hg He]; subst; [by apply Hmasks|]. apply Forall_app. split; [by apply Hmasks|].
  eapply Forall_impl; [by eapply Hb|]. intros e Ha Hr. exists cr. split; [done|by apply Ha].
Qed.
End Safety.

(** C3: nothing reaches a database but guarded statements.  In a run or a dry run of
    the service, whatever the database, the stores and the drivers answer, every event
    that touches a database - a pool, a transaction, the statement, the count of its
    rows, its EXPLAIN - comes from a compilation that succeeded: the query is the one
    asked for, normalised and validated; its model was loaded, or given by the caller;
    the caller's policy was resolved, and the statement has its row filters, with
    their values as its last arguments; and the datasource's read-only gate accepts
    it.  When the policy, the validation or the gate fails, nothing is sent. *)
Theorem queries_guarded `{World} `{Database} `{GoRuntime} `{MapOrder} `{Hashing} (limits : Limits)
    (lq : LogicalQuery) (inline : option SemanticModel) (tr : list event) :
  let guarded e := reaches_database e = true ->
    exists cr, Guarded limits lq inline cr /\ statement_of cr e /\ filtered lq cr /\
      exists custom checker, ParseDatasourceFunctionBlocklist (ds_Config (cr_Datasource cr)) = Ok custom /\
        NewReadOnlyCheckerWithAdditionalDeniedFunctions custom = Ok checker /\
        Check checker (SQL (cr_Compiled cr)) = Ok tt in
  (exists evs, (RunWithModel limits lq inline tr).2 = tr ++ evs /\ Forall guarded evs) /\
  (exists evs, (DryRunWithModel limits lq inline tr).2 = tr ++ evs /\ Forall guarded evs).
Proof.
  cbv zeta. split.
  - destruct (RunWithModel_emits limits lq inline tr) as (evs & He & Hr). exists evs. split; [done|].
    eapply Forall_impl; [eapply request_allowed; [|exact Hr]; intros cr r evs'; apply serving_allowed, running_allowed|].
    intros e Hg (cr & Hgd & Hs)%Hg. exists cr.
    split; [done|]. split; [done|]. split; [by eapply Guarded_filtered|by eapply Guarded_checked].
  - destruct (DryRunWithModel_emits limits lq inline tr) as (evs & He & Hr). exists evs. split; [done|].
    eapply Forall_impl; [eapply request_allowed; [|exact Hr]|].
    { intros cr r evs' Hd. inversion Hd; subst; [constructor..|]. eapply serving_allowed; [apply explaining_allowed|done]. }
    intros e Hg (cr & Hgd & Hs)%Hg. exists cr.
    split; [done|]. split; [done|]. split; [by eapply Guarded_filtered|by eapply Guarded_checked].
Qed.

(** * What is opened is closed *)

(** What a request holds: a pool (its own or the cache's), a transaction, rows. *)
Inductive phase : Type :=
| Idle
| Pooled (own : bool)
| InTx (own : bool)
| Reading (own inTx : bool).

(** The events allowed in a phase, and the phase after. *)
Definition phase_step (p : phase) (e : event) : option phase :=
  match p, e with
  | Idle, PoolGet _ _ => Some (Pooled false)
  | Idle, PoolOpened _ => Some (Pooled true)
  | Pooled true, PoolClosed => Some Idle
  | Pooled own, BeganReadOnly => Some (InTx own)
  | Pooled own, Queried false _ _ => Some (Pooled own)
  | InTx own, Queried true _ _ => Some (InTx own)
  | Pooled own, Explained _ _ => Some (Pooled own)
  | Pooled own, Counted _ _ => Some (Pooled own)
  | Pooled own, RowsOpened => Some (Reading own false)
  | InTx own, RowsOpened => Some (Reading own true)
  | Reading own false, RowsClosed => Some (Pooled own)
  | Reading own true, RowsClosed => Some (InTx own)
  | InTx own, RolledBack => Some (Pooled own)
  | p, (HistoryWritten _ | Audited _) => Some p
  | _, _ => None
  end.
Fixpoint phases (p : phase) (evs : list event) : option phase :=
  match evs with
  | [] => Some p
  | e :: evs => match phase_step p e with Some p => phases p evs | None => None end
  end.

Lemma phases_app p e1 e2 : phases p (e1 ++ e2) = match phases p e1 with Some p' => phases p' e2 | None => None end.
Proof. revert p. induction e1 as [|e e1 IH]; intros p; cbn [app phases]; [done|]. destruct (phase_step p e); auto. Qed.

Section Brackets.
Context `{World} `{Database} `{GoRuntime} `{MapOrder} `{Hashing} (limits : Limits).

Lemma masks_phases p masks : Forall is_mask_event masks -> phases p masks = Some p.
Proof using. induction 1 as [|e masks (u & d & cs & ->) _ IH]; [done|]. by destruct p as [|[]|[]|[] []]. Qed.
Lemma execution_phases own ro cq r evs : execution ro cq r evs -> phases (Pooled own) evs = Some (Pooled own).
Proof using. intros Hx. by inversion Hx; subst; destruct own, ro. Qed.
Lemma recording_phases own cr result err evs : recording cr result err evs -> phases (Pooled own) evs = Some (Pooled own).
Proof using. intros Hx. by inversion Hx; subst; destruct audit, own. Qed.
Lemma running_phases own cr r evs : running cr r evs -> phases (Pooled own) evs = Some (Pooled own).
Proof using.
  intros Hx. inversion Hx as [? ? ? Hex Hrec|? ? ? ? ? Hex Hcount Hrec]; subst; rewrite phases_app, (execution_phases _ _ _ _ _ Hex).
  - by eapply recording_phases.
  - rewrite phases_app. assert (phases (Pooled own) count = Some (Pooled own)) as ->.
    { destruct Hcount as [->|(c & _ & ->)]; by destruct own. }
    by eapply recording_phases.
Qed.
Lemma explaining_phases own cr r evs : explaining cr r evs -> phases (Pooled own) evs = Some (Pooled own).
Proof using. intros Hx. by inversion Hx; subst; destruct own. Qed.
Lemma serving_phases {B} cr (body : outcome B -> list event -> Prop) r evs :
  (forall own r evs, body r evs -> phases (Pooled own) evs = Some (Pooled own)) -> serving cr body r evs ->
  phases Idle evs = Some Idle \/ phases Idle evs = Some (Pooled false).
Proof using.
  intros Hb Hx. inversion Hx as [| |dsn r' evs' He|dsn r' evs' He]; subst; [by left..|right|left]; cbn [phases phase_step].
  - by eapply Hb.
  - by rewrite phases_app, (Hb true _ _ He).
Qed.
Lemma request_phases {B} lq inline (body : CompileResult -> outcome B -> list event -> Prop) r evs :
  (forall cr r evs, body cr r evs -> phases Idle evs = Some Idle \/ phases Idle evs = Some (Pooled false)) ->
  request limits lq inline body r evs -> phases Idle evs = Some Idle \/ phases Idle evs = Some (Pooled false).
Proof using.
  intros Hb Hx. inversion Hx as [se masks Hm|cr r' masks evs' Hm Hg He]; subst; [left; by apply masks_phases|].
  rewrite phases_app, (masks_phases _ _ Hm). by eapply Hb.
Qed.
End Brackets.

(** C20: what a request opens, it closes.  Whatever happens, the events of a run or of
    a dry run take the machine of phases from idle to an end where nothing is held but
    a pool of the cache: statements are sent only on a pool, and only inside the
    transaction when there is one; rows that were opened are closed, a transaction
    that began is rolled back, and a pool that was opened for the request is closed
    after all of them. *)
Theorem requests_bracketed `{World} `{Database} `{GoRuntime} `{MapOrder} `{Hashing} (limits : Limits)
    (lq : LogicalQuery) (inline : option SemanticModel) (tr : list event) :
  let closed evs := phases Idle evs = Some Idle \/ phases Idle evs = Some (Pooled false) in
  (exists evs, (RunWithModel limits lq inline tr).2 = tr ++ evs /\ closed evs) /\
  (exists evs, (DryRunWithModel limits lq inline tr).2 = tr ++ evs /\ closed evs).
Proof.
  cbv zeta. split.
  - destruct (RunWithModel_emits limits lq inline tr) as (evs & He & Hr). exists evs. split; [done|].
    eapply request_phases; [|exact Hr]. intros cr r evs'. apply serving_phases. intros own r' evs2. apply running_phases.
  - destruct (DryRunWithModel_emits limits lq inline tr) as (evs & He & Hr). exists evs. split; [done|].
    eapply request_phases; [|exact Hr]. intros cr r evs' Hd. inversion Hd; subst; [by left..|].
    eapply serving_phases; [|done]. intros own r' evs2. apply explaining_phases.
Qed.

(** * What is executed is recorded *)

Definition statements (evs : list event) : list event :=
  List.filter (fun e => match e with Queried _ _ _ => true | _ => false end) evs.
Definition entries (evs : list event) : list HistoryEntry :=
  flat_map (fun e => match e with HistoryWritten h => [h] | _ => [] end) evs.
(** The audit events of runs; those of the masking policy have another type. *)
Definition run_audits (evs : list event) : list AuditEvent :=
  flat_map (fun e => match e with
    | Audited a => if String.eqb (ae_EventType a) "pii.masking_applied" then [] else [a]
    | _ => [] end) evs.

Section Recorded.
Context `{World} `{Database} `{GoRuntime} `{MapOrder} `{Hashing} (limits : Limits).

(** The history has the entry of the run, unless there was a reason for none, and the
    audit log, if there is one, exactly one event, which names the entry. *)
Definition recorded_as (cr : CompileResult) (result : option Result) (err : option goerr) (evs : list event) : Prop :=
  exists entry,
    match entry with
    | Some e => entries evs = [e] /\ entry_of cr result err e
    | None => entries evs = [] /\ no_entry cr result err
    end /\
    if audit then exists a, run_audits evs = [a] /\ audit_of cr result entry err a else run_audits evs = [].

Lemma statements_app e1 e2 : statements (e1 ++ e2) = statements e1 ++ statements e2.
Proof using. apply List.filter_app. Qed.
Lemma recorded_app cr result err pre evs : entries pre = [] -> run_audits pre = [] ->
  recorded_as cr result err evs -> recorded_as cr result err (pre ++ evs).
Proof using.
  intros Hn Hm (entry & Hrec). exists entry. unfold entries, run_audits in *. by rewrite !flat_map_app, Hn, Hm.
Qed.
Lemma recording_recorded cr result err evs : recording cr result err evs -> recorded_as cr result err evs /\ statements evs = [].
Proof using.
  assert (forall entry, String.eqb (ae_EventType (audit_event cr result entry err)) "pii.masking_applied" = false) as Hty.
  { intros entry. unfold audit_event. cbn. by destruct err. }
  intros Hx. inversion Hx as [Hn|e He]; subst; unfold recorded_as, entries, run_audits.
  - split; [exists None|]; destruct audit; cbn [flat_map app]; rewrite ?Hty; cbn; eauto using audit_event_of.
  - split; [exists (Some e)|]; destruct audit; cbn [flat_map app]; rewrite ?Hty; cbn; eauto using audit_event_of.
Qed.
Lemma execution_statements ro cq r evs : execution ro cq r evs ->
  entries evs = [] /\ run_audits evs = [] /\
  (statements evs = [] /\ (exists e, r = Err e) \/ statements evs = [Queried ro (SQL cq) (Args cq)]).
Proof using. intros Hx. inversion Hx; subst; destruct ro; split_and!; try done; eauto. Qed.
Lemma masks_quiet masks : Forall is_mask_event masks -> statements masks = [] /\ entries masks = [] /\ run_audits masks = [].
Proof using. induction 1 as [|e masks (u & d & cs & ->) _ IH]; [done|]. exact IH. Qed.

(** The statement of the compiled query, sent once. *)
Definition sent_once (cr : CompileResult) (evs : list event) : Prop :=
  statements evs = [Queried (SupportsReadOnlyTx (cr_Driver cr)) (SQL (cr_Compiled cr)) (Args (cr_Compiled cr))].
Definition run_outcome (cr : CompileResult) (out : outcome (CompileResult * Result)) (evs : list event) : Prop :=
  match out with
  | Done (cr', result) => cr' = cr /\ sent_once cr evs /\ recorded_as cr (Some result) None evs
  | Failed se => exists err, se = ToServiceError (Joined ErrQueryExecution err) /\
      (statements evs = [] \/ sent_once cr evs) /\ recorded_as cr None (Some err) evs
  end.
Definition quiet (evs : list event) : Prop := statements evs = [] /\ entries evs = [] /\ run_audits evs = [].

Lemma quiet_around cr res err pre evs post : quiet pre -> quiet post ->
  statements (pre ++ evs ++ post) = statements evs /\ (recorded_as cr res err evs -> recorded_as cr res err (pre ++ evs ++ post)).
Proof using.
  intros (P1 & P2 & P3) (Q1 & Q2 & Q3). rewrite !statements_app, P1, Q1, List.app_nil_r. split; [done|].
  intros (entry & Hrec). apply recorded_app; [done|done|]. exists entry.
  unfold entries, run_audits in *. by rewrite !flat_map_app, Q2, Q3, !List.app_nil_r.
Qed.

Lemma running_outcome cr out evs : running cr out evs -> run_outcome cr out evs.
Proof using.
  intros Hrun. inversion Hrun as [err exec rec Hex Hrec|rr result exec count rec Hex Hcount Hrec]; subst;
    apply execution_statements in Hex as (X1 & X2 & X3); apply recording_recorded in Hrec as [Hrec R1];
    unfold run_outcome, sent_once; rewrite !statements_app, R1, List.app_nil_r.
  - exists err. split_and!; [done|destruct X3 as [[-> _]| ->]; auto|by apply recorded_app].
  - destruct X3 as [[_ [e ?]]| ->]; [done|].
    assert (quiet count) as (C1 & C2 & C3) by (by destruct Hcount as [->|(c & _ & ->)]).
    rewrite C1. split_and!; [done|done|]. apply recorded_app; [done|done|]. by apply recorded_app.
Qed.

Lemma run_outcome_around cr out pre evs post : quiet pre -> quiet post -> run_outcome cr out evs ->
  run_outcome cr out (pre ++ evs ++ post).
Proof using.
  intros Hpre Hpost Hout. destruct out as [[cr' result]|se]; unfold run_outcome, sent_once in *.
  - destruct (quiet_around cr (Some result) None pre evs post Hpre Hpost) as [-> Hw]. naive_solver.
  - destruct Hout as (err & -> & Hs & Hr). destruct (quiet_around cr None (Some err) pre evs post Hpre Hpost) as [-> Hw]. eauto.
Qed.

Lemma request_recorded lq inline out evs :
  request limits lq inline (fun cr => serving cr (running cr)) out evs ->
  (exists se, out = Failed se) /\ quiet evs \/ exists cr, Guarded limits lq inline cr /\ run_outcome cr out evs.
Proof using.
  intros Hr. inversion Hr as [se masks Hm Hout|cr r masks sevs Hm Hg Hs Hout]; subst; apply masks_quiet in Hm.
  { left. split; [by eexists|done]. }
  inversion Hs as [e Hse|e Hse|dsn r' mid Hrun Hse|dsn r' mid Hrun Hse]; subst.
  - left. rewrite List.app_nil_r. split; [by eexists|done].
  - left. rewrite List.app_nil_r. split; [by eexists|done].
  - right. exists cr. split; [done|]. apply running_outcome in Hrun.
    replace (masks ++ PoolGet (ds_ID (cr_Datasource cr)) dsn :: mid) with ((masks ++ [PoolGet (ds_ID (cr_Datasource cr)) dsn]) ++ mid ++ [])
      by (rewrite List.app_nil_r, <- List.app_assoc; done).
    apply run_outcome_around; [|done|done]. destruct Hm as (M1 & M2 & M3). unfold quiet, entries, run_audits in *.
    by rewrite statements_app, !flat_map_app, M1, M2, M3.
  - right. exists cr. split; [done|]. apply running_outcome in Hrun.
    replace (masks ++ PoolOpened dsn :: mid ++ [PoolClosed]) with ((masks ++ [PoolOpened dsn]) ++ mid ++ [PoolClosed])
      by (rewrite <- List.app_assoc; done).
    apply run_outcome_around; [|done|done]. destruct Hm as (M1 & M2 & M3). unfold quiet, entries, run_audits in *.
    by rewrite statements_app, !flat_map_app, M1, M2, M3.
Qed.

(** The errors of a run after its compilation. *)
Lemma request_errors lq inline se evs :
  request limits lq inline (fun cr => serving cr (running cr)) (Failed se) evs ->
  existsb reaches_database evs = true -> exists err, se = ToServiceError (Joined ErrQueryExecution err).
Proof using.
  intros Hr Hreach. inversion Hr as [? masks Hm Hout|cr r masks sevs Hm Hg Hs Hout]; subst.
  - exfalso. clear -Hm Hreach. induction Hm as [|e masks (u & d & cs & ->) _ IH]; [done|]. by apply IH.
  - assert (existsb reaches_database masks = false) as Hmasks by (clear -Hm; induction Hm as [|e masks (u & d & cs & ->) _ IH]; done).
    rewrite existsb_app, Hmasks in Hreach. cbn in Hreach.
    inversion Hs as [e Hse|e Hse|dsn r' mid Hrun Hse|dsn r' mid Hrun Hse]; subst; [done|done|..]; inversion Hrun; eauto.
Qed.
End Recorded.

(** C23: what is executed is recorded.  A run either fails with nothing sent and nothing
    recorded, or comes from a compilation that was guarded.  When it succeeds, its
    statement was sent once; when it fails, at most once and with the error of the
    execution.  Either way the history has one entry with the user, the data source, the
    model, the query and its fingerprint, the compiled statement, its arguments, the
    status, the number of rows and the error; it has none only if there is no history,
    the fingerprint or the arguments could not be encoded, or the store refused the
    entry.  The audit log, if there is one, has exactly one event for the run, which
    names that entry, the user and the outcome, and carries the row filters, the masked
    and the hidden columns of the compilation's policy decisions. *)
Theorem runs_recorded `{World} `{Database} `{GoRuntime} `{MapOrder} `{Hashing} (limits : Limits)
    (lq : LogicalQuery) (inline : option SemanticModel) (tr : list event) :
  exists evs, (RunWithModel limits lq inline tr).2 = tr ++ evs /\
    ((exists se, (RunWithModel limits lq inline tr).1 = Failed se) /\ quiet evs \/
     exists cr, Guarded limits lq inline cr /\ run_outcome cr (RunWithModel limits lq inline tr).1 evs).
Proof.
  destruct (RunWithModel_emits limits lq inline tr) as (evs & He & Hr). exists evs. split; [done|].
  by apply request_recorded.
Qed.

(** * What errors tell *)

Lemma ToServiceError_status e :
  Status (ToServiceError e) ∈ [StatusBadRequest; StatusNotFound; StatusInternalServerError] /\ cause (ToServiceError e) = e.
Proof.
  unfold ToServiceError, mapQueryServiceError. destruct e as [s|s e|e].
  - destruct s; (split; [set_solver|done]).
  - destruct s; (split; [set_solver|done]).
  - cbn. destruct (as_validation e); (split; [set_solver|done]).
Qed.

(** internal errors do not reach the caller of a run.  An error the service makes
    has status 400, 404 or 500; that of a load, a connection or an execution is told by
    a fixed text, whatever its cause; and once a pool was obtained, a run can only
    fail with "query failed": neither the total count nor the history nor the audit
    log make it fail, and no text of the database or the driver comes through. *)
Theorem run_errors_opaque `{World} `{Database} `{GoRuntime} `{MapOrder} `{Hashing} (limits : Limits)
    (lq : LogicalQuery) (inline : option SemanticModel) (tr : list event) (e : svc_error) (s : sentinel) (c1 c2 : goerr) :
  (Status (ToServiceError e) ∈ [StatusBadRequest; StatusNotFound; StatusInternalServerError] /\ cause (ToServiceError e) = e) /\
  (Status (ToServiceError (Joined s c1)), Message (ToServiceError (Joined s c1))) =
  (Status (ToServiceError (Joined s c2)), Message (ToServiceError (Joined s c2))) /\
  exists evs, (RunWithModel limits lq inline tr).2 = tr ++ evs /\
    match (RunWithModel limits lq inline tr).1 with
    | Failed se =>
        if existsb reaches_database evs then Message se = "query failed" /\ Status se = StatusInternalServerError else True
    | Done _ => True
    end.
Proof.
  split; [apply ToServiceError_status|]. split; [by destruct s|].
  destruct (RunWithModel_emits limits lq inline tr) as (evs & He & Hr). exists evs. split; [done|].
  destruct (RunWithModel limits lq inline tr).1 as [a|se]; [done|]. destruct (existsb reaches_database evs) eqn:E; [|done].
  by destruct (request_errors _ _ _ _ _ Hr E) as [err ->].
Qed.
