(* ===== verification/ServiceDemo.v ===== *)
(** Runs of the query service in a small world: one datasource, one published model,
    one user with a row filter on the region. *)

From S2P Require Import Prelude GoStrings Values Dialect Semantic ReadOnly LogicalQuery Pii RowFilter CompileMonad.
From S2P Require Import Joins Compiler Publish Fingerprint Enrich Execute QueryService ServiceSafety.
From stdpp Require Import options.
#[local] Open Scope Z_scope.

Definition metric (name column : string) : Metric := mkMetric name column NilExpr "sum" None [] None.
Definition dimension (name column : string) : Dimension := mkDimension name column "text" "" "" NilExpr.
Definition orders : SemanticModel :=
  mkModel "m" "d" "orders" "public" "orders" 1 [dimension "region" "orders.region"; dimension "city" "orders.city"]
    [metric "revenue" "orders.amount"; metric "cost" "orders.cost"] [] None None "published".
(** The same table, described by the caller without the region. *)
Definition ad_hoc : SemanticModel :=
  mkModel "auto:1" "d" "orders" "public" "orders" 1 [dimension "city" "orders.city"] [metric "revenue" "orders.amount"]
    [] None None "".

Definition policy : SecurityPolicy := mkSecurityPolicy ["invoices"] ["orders.cost"] [mkRowFilter "region" "eq" (VStr "EU")] ∅.
Definition demo_rows : Rows := mkRows (Ok [("city", "TEXT"); ("cost", "NUMERIC")])
  [Ok [VStr "Paris"; VInt 7]; Ok [VStr "Lyon"; VInt 5]; Ok [VStr "Nice"; VInt 3]] (fun _ => None) None.

(** [policies] is the policy store, [blocked] the functions the datasource denies. *)
Definition world (policies : res (option SecurityPolicy)) (blocked : list string) : World := {|
  GetPublishedFullModel id := if String.eqb id "m" then Ok orders else Err (EMsg "no rows");
  GetPublishedResolvedComposite := None;
  GetDatasource id := Ok (mkDatasource id "postgres" "{}" "dsn");
  GetDriver _ := Ok (mkDriver "postgres" Postgres true);
  ListColumns := None;
  piiPolicies := Some (mkPIIService (fun _ => Ok []) (fun _ _ => policies) (Some ("u1", ["viewer"])) true);
  identity := Some ("u1", ["viewer"]);
  RuntimeDSN ds := Ok (ds_DSN ds);
  pools := None;
  driver_Open _ _ _ := None;
  unmarshalBlocklist _ := Ok blocked;
  CreateQueryHistory := Some (fun _ _ => Ok "h1");
  audit := true;
  uuid_Parse _ := false;
  MarshalSQLArgs _ := Ok None;
|}.
Definition database (answer : res Rows) : Database := {|
  db_BeginTx _ := None;
  db_QueryContext _ _ _ := answer;
  db_QueryRow _ _ _ := Ok 40;
|}.
Definition hashing : Hashing := {| json_sha256 _ := Ok "fp" |}.
Definition limits : Limits := mkLimits 100 (NewExecutor 2).

Definition costs_by_city : LogicalQuery :=
  mkLQ "" "d" "m" "" [plain_item SelectTypeDimension "city"; plain_item SelectTypeMetric "cost"] [] [mkGroupBy "city" ""]
    [] [] 10 0 [] None "" "" "" ∅.
Definition revenue_by_city : LogicalQuery :=
  mkLQ "" "d" "m" "" [plain_item SelectTypeDimension "city"; plain_item SelectTypeMetric "revenue"] [] [mkGroupBy "city" ""]
    [] [] 10 0 [] None "" "" "" ∅.

Definition show (e : event) : string :=
  match e with
  | PoolGet _ _ => "pool"
  | PoolOpened _ => "open"
  | PoolClosed => "close"
  | BeganReadOnly => "begin"
  | RolledBack => "rollback"
  | Queried _ _ _ => "query"
  | RowsOpened => "rows"
  | RowsClosed => "rows closed"
  | Counted _ _ => "count"
  | Explained _ _ => "explain"
  | HistoryWritten h => "history " +:+ he_Status h
  | Audited a => "audit " +:+ ae_EventType a
  end.
Definition run (w : World) (answer : res Rows) (lq : LogicalQuery) (inline : option SemanticModel) : string * list string :=
  let _ := w in let _ := database answer in let _ := demo_runtime in let _ := list_order in let _ := hashing in
  let (out, evs) := RunWithModel limits lq inline [] in
  (match out with Done (_, r) => Itoa (RowCount (r_Stats r)) +:+ " of " +:+ Itoa (TotalCount (r_Stats r)) | Failed se => Message se end,
   map show evs).

(** The condition of the row filter in the statements sent. *)
Definition has_row_filter (evs : list event) : list bool :=
  flat_map (fun e => match e with
    | Queried _ sql _ | Counted sql _ => [Contains sql (" WHERE " +:+ Quote "orders" +:+ "." +:+ Quote "region" +:+ " = $1")]
    | _ => [] end) evs.
Definition filters_sent (w : World) (lq : LogicalQuery) (inline : option SemanticModel) : list bool :=
  let _ := w in let _ := database (Ok demo_rows) in let _ := demo_runtime in let _ := list_order in let _ := hashing in
  has_row_filter (RunWithModel limits lq inline []).2.

(** A run: two rows of the three, forty in all; statement and count have the filter. *)
Example revenue_run : run (world (Ok (Some policy)) []) (Ok demo_rows) revenue_by_city None =
  ("2 of 40", ["open"; "begin"; "query"; "rows"; "rows closed"; "rollback"; "count"; "history success";
               "audit query_executed"; "close"]).
Proof. vm_compute. reflexivity. Qed.
Example revenue_filtered : filters_sent (world (Ok (Some policy)) []) revenue_by_city None = [true; true].
Proof. vm_compute. reflexivity. Qed.
(** Without the policy there is no query. *)
Example no_policy : run (world (Err (EMsg "timeout")) []) (Ok demo_rows) revenue_by_city None =
  ("resolve security policy: load permission policy: timeout", []).
Proof. vm_compute. reflexivity. Qed.
(** The datasource denies a function the statement calls. *)
Example sum_denied : run (world (Ok (Some policy)) ["sum"]) (Ok demo_rows) revenue_by_city None =
  ("function blocklist: function " +:+ Quote "sum" +:+ " is blocked", []).
Proof. vm_compute. reflexivity. Qed.
(** The database fails: the caller reads no more than that, and the run is recorded. *)
Example query_fails : run (world (Ok (Some policy)) []) (Err (EMsg "relation orders is locked by pid 7")) revenue_by_city None =
  ("query failed", ["open"; "begin"; "query"; "rollback"; "history failed"; "audit query_failed"; "close"]).
Proof. vm_compute. reflexivity. Qed.

(** The policy allows the model "invoices" only and denies the field "orders.cost":
    neither is looked at, and the query on the model "orders" returns the costs. *)
Example denied_field_returned : run (world (Ok (Some policy)) []) (Ok demo_rows) costs_by_city None =
  ("2 of 40", ["open"; "begin"; "query"; "rows"; "rows closed"; "rollback"; "count"; "history success";
               "audit query_executed"; "close"]).
Proof. vm_compute. reflexivity. Qed.

(** A model that comes with the request and does not define the filtered field: the
    row filter is left out, and all regions are read. *)
Example inline_model_unfiltered :
  run (world (Ok (Some policy)) []) (Ok demo_rows) revenue_by_city (Some ad_hoc) =
  ("2 of 40", ["open"; "begin"; "query"; "rows"; "rows closed"; "rollback"; "count"; "history success";
               "audit query_executed"; "close"]) /\
  filters_sent (world (Ok (Some policy)) []) revenue_by_city (Some ad_hoc) = [false; false].
Proof. split; vm_compute; reflexivity. Qed.

(** There are guarded compilations. *)
Example revenue_guarded :
  let _ := world (Ok (Some policy)) [] in let _ := database (Ok demo_rows) in
  let _ := demo_runtime in let _ := list_order in let _ := hashing in
  exists cr, Guarded limits revenue_by_city None cr.
Proof.
  intros w db rt mo h. destruct (CompileWithModel_emits limits revenue_by_city None []) as (evs & He & _ & Hg).
  destruct (CompileWithModel limits revenue_by_city None []) as [[cr|se] tr] eqn:E; [by exists cr|].
  exfalso. revert E. vm_compute. discriminate.
Qed.
