(* ===== verification/AgentPolicy.v ===== *)
(** The policy of the agent: [internal/agent/policy.go].

    A planner - a language model - proposes tool calls; the engine allows a call, with
    arguments it may have narrowed, or denies it with the code of the rule that fired.
    Arguments are JSON texts; the JSON library is [AgentJSON]. *)

From S2P Require Import Prelude GoStrings.
From stdpp Require Import options.
#[local] Open Scope Z_scope.

(** * Tools *)

Definition ToolCatalog : string := "catalog.resolve".
Definition ToolSemantic : string := "semantic.resolve".
Definition ToolQueryCompile : string := "query.compile".
Definition ToolQueryExecute : string := "query.execute".
Definition ToolMemoryRecall : string := "memory.recall".
Definition ToolWebListDatasources : string := "list_datasources".
Definition ToolWebListModels : string := "list_models".
Definition ToolWebListPromptTemplates : string := "list_prompt_templates".
Definition ToolWebRunQuestion : string := "run_question".
Definition ToolWebRunLogicalQuery : string := "run_logical_query".
Definition ToolWebListSkills : string := "list_skills".
Definition ToolWebRunSkill : string := "run_skill".
Definition ToolWebDryPlan : string := "dry_plan".
Definition ToolWebDryRun : string := "dry_run".
Definition ToolWebMetricQuery : string := "metric_query".
Definition ToolWebListKnowledgeFiles : string := "list_knowledge_files".
Definition ToolWebReadKnowledgeFile : string := "read_knowledge_file".

Definition webAgentTools : list string :=
  [ToolWebListDatasources; ToolWebListModels; ToolWebListPromptTemplates; ToolWebRunQuestion; ToolWebRunLogicalQuery;
   ToolWebListSkills; ToolWebRunSkill; ToolWebDryPlan; ToolWebDryRun; ToolWebMetricQuery; ToolWebListKnowledgeFiles;
   ToolWebReadKnowledgeFile].
Definition isWebAgentTool (tool : string) : bool := str_in tool webAgentTools.

Record Proposal : Type := mkProposal { p_Tool : string; p_Arguments : string }.
Record Decision : Type := mkDecision { Allowed : bool; ReasonCode : string; d_Arguments : string }.

Definition ReasonToolNotAllowlisted : string := "tool_not_allowlisted".
Definition ReasonRetryBudgetExhausted : string := "retry_budget_exhausted".
Definition ReasonAirgappedEgressDenied : string := "airgapped_egress_denied".
Definition ReasonMalformedArguments : string := "malformed_arguments".
Definition ReasonIdentityMismatch : string := "identity_mismatch".
Definition ReasonPromptInjection : string := "prompt_injection_suspected".
Definition ReasonMultiStatementSQL : string := "multi_statement_sql_denied".
Definition ReasonWriteOrDDLDenied : string := "write_or_ddl_denied".
Definition ReasonHiddenColumnDenied : string := "hidden_column_denied".
Definition ReasonPIIMaskingRequired : string := "pii_masking_required".
Definition ReasonInvalidJoinDenied : string := "invalid_join_denied".
Definition ReasonRowFilterRequired : string := "row_filter_required".
Definition ReasonContextCanceled : string := "context_canceled".

Record JoinEdge : Type := mkEdge { e_Left : string; e_Right : string }.
Definition edge_key (e : JoinEdge) : string :=
  let l := ToLower (e_Left e) in
  let r := ToLower (e_Right e) in
  if String.ltb r l then r +:+ "|" +:+ l else l +:+ "|" +:+ r.

(** The pieces of a conversation the planner is shown. *)
Record PriorTurn : Type := mkPriorTurn { pt_User : string; pt_Assistant : string; ResultSummary : string }.
Record ClarificationExchange : Type := mkExchange { ce_Question : string; ce_Answer : string; AfterSeq : Z }.

(** The facts of a run, from trusted sources.  [Timeout] is a [time.Duration], in
    nanoseconds; the credential the web tools forward is with their dispatcher. *)
Record RunContext : Type := mkRun {
  TenantID : string;
  UserID : string;
  run_DatasourceID : string;
  run_ModelID : string;
  Question : string;
  PriorTurns : list PriorTurn;
  run_ClarificationHistory : list ClarificationExchange;
  AllowedTools : list string;
  RetryBudget : gmap string Z;
  DeploymentMode : string;
  ExternalEgressTools : gmap string bool;
  HiddenColumns : list string;
  PIIColumns : list string;
  AllowedJoins : list JoinEdge;
  RequiredRowFilter : bool;
  MaxRows : Z;
  Timeout : Z;
  MaxSteps : Z;
  MaxClarificationRounds : Z;
}.

Record identityArgs : Type := mkIdentity { ia_TenantID : string; ia_UserID : string; ia_DatasourceID : string }.
Record queryProposalArgs : Type := mkQueryArgs {
  qa_identity : identityArgs;
  qa_LogicalQuery : string;
  Fingerprint : string;
  qa_SQL : string;
  Columns : list string;
  qa_MaskedColumns : list string;
  qa_Joins : list JoinEdge;
  RowFilterSQL : string;
  RowLimit : Z;
  TimeoutSeconds : Z;
}.

(** [sonic]: the lenient decoding of the identity, the strict decoding of the arguments
    of a query ([strictDecode]) and their encoding. *)
Class AgentJSON : Type := {
  decode_identity : string -> res identityArgs;
  strictDecode_query : string -> res queryProposalArgs;
  marshal_query : queryProposalArgs -> res string;
}.

(** * The engine *)

Definition deny (reason : string) : Decision := mkDecision false reason "".
Definition allow (arguments : string) : Decision := mkDecision true "" arguments.

Definition containsTool (allowlist : list string) (tool : string) : bool := str_in tool allowlist.

Definition promptInjectionMarkers : list string :=
  ["ignore previous instructions"; "ignore all previous instructions"; "disregard the system prompt"; "you are now";
   "new instructions:"].
Definition containsPromptInjection (raw : string) : bool :=
  let lower := ToLower raw in
  existsb (Contains lower) promptInjectionMarkers.

(** A semicolon, and something after it. *)
Definition isMultiStatementSQL (sql : string) : bool :=
  let trimmed := trim_right (fun c => Ascii.eqb c ";") (TrimSpace sql) in
  match Cut ";" trimmed with
  | Some (_, rest) => negb (str_empty (TrimSpace rest))
  | None => false
  end.

Definition writeOrDDLKeywords : list string :=
  ["insert"; "update"; "delete"; "drop"; "alter"; "create"; "truncate"; "grant"; "revoke"].
Definition isWriteOrDDL (sql : string) : bool :=
  match Fields (ToLower (TrimSpace sql)) with
  | [] => false
  | field :: _ => str_in (TrimPrefix field "(") writeOrDDLKeywords
  end.

Definition containsFold (list : list string) (target : string) : bool := existsb (fun v => EqualFold v target) list.

(** The first of a list that meets a test, or the empty text. *)
Fixpoint first_such (test : string -> bool) (l : list string) : string :=
  match l with
  | [] => ""
  | col :: l => if test col then col else first_such test l
  end.
Definition firstHiddenColumn (requested hidden : list string) : string := first_such (containsFold hidden) requested.
Definition firstUnmaskedPIIColumn (requested masked pii : list string) : string :=
  first_such (fun col => containsFold pii col && negb (containsFold masked col)) requested.

Definition firstInvalidJoin (requested allowed : list JoinEdge) : option JoinEdge :=
  match allowed with
  | [] => None
  | _ =>
      let allowedKeys : gset string := list_to_set (map edge_key allowed) in
      find (fun j => negb (bool_decide (edge_key j ∈ allowedKeys))) requested
  end.

(** [int(d.Seconds())]: exact for every duration the configuration allows (the floating
    point sum of [Seconds] is below the next integer up to half a year). *)
Definition seconds (d : Z) : Z := Z.quot d 1000000000.

Definition clamp (ceiling v : Z) : Z :=
  if (0 <? ceiling) && ((v <=? 0) || (ceiling <? v)) then ceiling else v.
Definition set_limits (rows secs : Z) (a : queryProposalArgs) : queryProposalArgs :=
  mkQueryArgs (qa_identity a) (qa_LogicalQuery a) (Fingerprint a) (qa_SQL a) (Columns a) (qa_MaskedColumns a) (qa_Joins a)
    (RowFilterSQL a) rows secs.

Section Policy.
Context `{AgentJSON}.

Definition evaluateQuery (run : RunContext) (proposal : Proposal) : Decision :=
  match strictDecode_query (p_Arguments proposal) with
  | Err _ => deny ReasonMalformedArguments
  | Ok args =>
      if isMultiStatementSQL (qa_SQL args) then deny ReasonMultiStatementSQL else
      if isWriteOrDDL (qa_SQL args) then deny ReasonWriteOrDDLDenied else
      if negb (str_empty (firstHiddenColumn (Columns args) (HiddenColumns run))) then deny ReasonHiddenColumnDenied else
      if negb (str_empty (firstUnmaskedPIIColumn (Columns args) (qa_MaskedColumns args) (PIIColumns run)))
      then deny ReasonPIIMaskingRequired else
      match firstInvalidJoin (qa_Joins args) (AllowedJoins run) with
      | Some _ => deny ReasonInvalidJoinDenied
      | None =>
          if RequiredRowFilter run && str_empty (TrimSpace (RowFilterSQL args)) then deny ReasonRowFilterRequired else
          let args := set_limits (clamp (MaxRows run) (RowLimit args)) (clamp (seconds (Timeout run)) (TimeoutSeconds args)) args in
          match marshal_query args with
          | Err _ => deny ReasonMalformedArguments
          | Ok narrowed => allow narrowed
          end
      end
  end.

(** The reason the rules every tool shares deny for; [ctx_err] is [ctx.Err()]. *)
Definition shared_rules (ctx_err : option goerr) (run : RunContext) (proposal : Proposal) : option string :=
  match ctx_err with
  | Some _ => Some ReasonContextCanceled
  | None =>
      if negb (containsTool (AllowedTools run) (p_Tool proposal)) then Some ReasonToolNotAllowlisted else
      if match RetryBudget run !! p_Tool proposal with Some budget => budget <=? 0 | None => false end
      then Some ReasonRetryBudgetExhausted else
      if String.eqb (DeploymentMode run) "airgapped" && default false (ExternalEgressTools run !! p_Tool proposal)
      then Some ReasonAirgappedEgressDenied else
      if isWebAgentTool (p_Tool proposal) then None else
      match decode_identity (p_Arguments proposal) with
      | Err _ => Some ReasonMalformedArguments
      | Ok ident =>
          if negb (String.eqb (ia_TenantID ident) (TenantID run)) || negb (String.eqb (ia_UserID ident) (UserID run)) ||
             negb (String.eqb (ia_DatasourceID ident) (run_DatasourceID run))
          then Some ReasonIdentityMismatch
          else if containsPromptInjection (p_Arguments proposal) then Some ReasonPromptInjection else None
      end
  end.

Definition Evaluate (ctx_err : option goerr) (run : RunContext) (proposal : Proposal) : Decision :=
  match shared_rules ctx_err run proposal with
  | Some reason => deny reason
  | None =>
      if str_in (p_Tool proposal) [ToolQueryCompile; ToolQueryExecute] then evaluateQuery run proposal
      else if str_in (p_Tool proposal) [ToolCatalog; ToolSemantic; ToolMemoryRecall] || isWebAgentTool (p_Tool proposal)
      then allow (p_Arguments proposal)
      else deny ReasonToolNotAllowlisted
  end.
End Policy.

(** * What the engine allows *)

(** No name of the list is such, except that the search reports an empty name, and so
    everything after it, as none. *)
Definition none_such (P : string -> Prop) (l : list string) : Prop :=
  (forall c, c ∈ l -> ~ P c) \/ P "" /\ exists l1 l2, l = l1 ++ "" :: l2 /\ forall c, c ∈ l1 -> ~ P c.

(** A name listed, up to the case of its letters. *)
Definition listed (l : list string) (c : string) : Prop := exists v, v ∈ l /\ ToLower v = ToLower c.

(** The granted limit: what was asked for when the run has no ceiling, otherwise a
    positive number under the ceiling, and under what was asked for. *)
Definition granted (ceiling asked given : Z) : Prop :=
  (ceiling <= 0 -> given = asked) /\
  (0 < ceiling -> 0 < given <= ceiling /\ (0 < asked -> given <= asked) /\ (given = asked \/ given = ceiling)).

(** The words a statement may not begin with, and the phrases no arguments may have. *)
Definition write_words : list string :=
  ["insert"; "update"; "delete"; "drop"; "alter"; "create"; "truncate"; "grant"; "revoke"].
Definition injection_phrases : list string :=
  ["ignore previous instructions"; "ignore all previous instructions"; "disregard the system prompt"; "you are now";
   "new instructions:"].

(** The tools, by what is asked of their arguments. *)
Definition query_tools : list string := ["query.compile"; "query.execute"].
Definition lookup_tools : list string := ["catalog.resolve"; "semantic.resolve"; "memory.recall"].
Definition web_tools : list string :=
  ["list_datasources"; "list_models"; "list_prompt_templates"; "run_question"; "run_logical_query"; "list_skills";
   "run_skill"; "dry_plan"; "dry_run"; "metric_query"; "list_knowledge_files"; "read_knowledge_file"].

(** The text a join is known by: its two sides in lower case, the smaller first, with a
    bar between them. *)
Inductive known_by (j : JoinEdge) : string -> Prop :=
| In_order : String.leb (ToLower (e_Left j)) (ToLower (e_Right j)) = true ->
    known_by j (ToLower (e_Left j) +:+ "|" +:+ ToLower (e_Right j))
| Swapped : String.leb (ToLower (e_Left j)) (ToLower (e_Right j)) = false ->
    known_by j (ToLower (e_Right j) +:+ "|" +:+ ToLower (e_Left j)).
Definition same_join (j a : JoinEdge) : Prop := exists k, known_by j k /\ known_by a k.

(** The queries a run may make. *)
Record query_permitted (run : RunContext) (q : queryProposalArgs) : Prop := {
  q_single : forall a b, trim_right (fun c => Ascii.eqb c ";") (TrimSpace (qa_SQL q)) = a +:+ String ";" b ->
             has_byte ";" a = false -> TrimSpace b = "";
  q_reads : forall word rest, Fields (ToLower (TrimSpace (qa_SQL q))) = word :: rest -> TrimPrefix word "(" ∉ write_words;
  q_visible : none_such (listed (HiddenColumns run)) (Columns q);
  q_masked : none_such (fun c => listed (PIIColumns run) c /\ ~ listed (qa_MaskedColumns q) c) (Columns q);
  q_joins : AllowedJoins run = [] \/ forall j, j ∈ qa_Joins q -> exists a, a ∈ AllowedJoins run /\ same_join j a;
  q_filtered : RequiredRowFilter run = true -> TrimSpace (RowFilterSQL q) <> "";
}.

(** [q'] is [q] with the limits granted; the time is in whole seconds. *)
Record narrowed (run : RunContext) (q q' : queryProposalArgs) : Prop := {
  n_identity : qa_identity q' = qa_identity q;
  n_query : qa_LogicalQuery q' = qa_LogicalQuery q;
  n_fingerprint : Fingerprint q' = Fingerprint q;
  n_SQL : qa_SQL q' = qa_SQL q;
  n_columns : Columns q' = Columns q;
  n_masked : qa_MaskedColumns q' = qa_MaskedColumns q;
  n_joins : qa_Joins q' = qa_Joins q;
  n_filter : RowFilterSQL q' = RowFilterSQL q;
  n_rows : granted (MaxRows run) (RowLimit q) (RowLimit q');
  n_time : granted (Z.quot (Timeout run) 1000000000) (TimeoutSeconds q) (TimeoutSeconds q');
}.

Section Permitted.
Context `{AgentJSON}.

(** The calls a run may make, and the arguments they are made with. *)
Definition permitted (ctx_err : option goerr) (run : RunContext) (p : Proposal) (args : string) : Prop :=
  ctx_err = None /\ p_Tool p ∈ AllowedTools run /\
  (forall budget, RetryBudget run !! p_Tool p = Some budget -> 0 < budget) /\
  ~ (DeploymentMode run = "airgapped" /\ ExternalEgressTools run !! p_Tool p = Some true) /\
  (p_Tool p ∈ web_tools /\ args = p_Arguments p \/
   decode_identity (p_Arguments p) = Ok (mkIdentity (TenantID run) (UserID run) (run_DatasourceID run)) /\
   (forall m, m ∈ injection_phrases -> Contains (ToLower (p_Arguments p)) m = false) /\
   (p_Tool p ∈ lookup_tools /\ args = p_Arguments p \/
    p_Tool p ∈ query_tools /\
    exists q q', strictDecode_query (p_Arguments p) = Ok q /\ query_permitted run q /\ narrowed run q q' /\ marshal_query q' = Ok args)).
End Permitted.

Definition denyReasons : list string :=
  [ReasonToolNotAllowlisted; ReasonRetryBudgetExhausted; ReasonAirgappedEgressDenied; ReasonMalformedArguments;
   ReasonIdentityMismatch; ReasonPromptInjection; ReasonMultiStatementSQL; ReasonWriteOrDDLDenied; ReasonHiddenColumnDenied;
   ReasonPIIMaskingRequired; ReasonInvalidJoinDenied; ReasonRowFilterRequired; ReasonContextCanceled].

(** ** The tests *)

Lemma containsFold_spec l c : containsFold l c = true <-> listed l c.
Proof.
  unfold containsFold, listed. rewrite existsb_exists. split.
  - intros (v & Hv & He). exists v. rewrite list_elem_of_In. split; [done|]. by apply EqualFold_spec.
  - intros (v & Hv & He). exists v. rewrite <- list_elem_of_In. split; [done|]. by apply EqualFold_spec.
Qed.

Lemma first_such_spec (test : string -> bool) (P : string -> Prop) l : (forall c, test c = true <-> P c) ->
  first_such test l = "" <-> none_such P l.
Proof.
  intros HP. assert (forall c, test c = false -> ~ P c) as HN by (intros c Hc Hp%HP; congruence).
  induction l as [|c l IH]; cbn [first_such].
  - split; [left; intros c Hc; by apply not_elem_of_nil in Hc|done].
  - destruct (test c) eqn:E; split.
    + intros ->. right. split; [by apply HP|]. exists [], l. split; [done|]. intros c Hc. by apply not_elem_of_nil in Hc.
    + intros [Hn|(Hp & l1 & l2 & Hl & Hn)].
      * destruct (Hn c); [by left|by apply HP].
      * destruct l1 as [|d l1]; [by inversion Hl|]. inversion Hl; subst. destruct (Hn d); [by left|by apply HP].
    + intros [Hn|(Hp & l1 & l2 & -> & Hn)]%IH.
      * left. intros d [->|Hd]%elem_of_cons; [by apply HN|by apply Hn].
      * right. split; [done|]. exists (c :: l1), l2. split; [done|]. intros d [->|Hd]%elem_of_cons; [by apply HN|by apply Hn].
    + intros Hc. apply IH. destruct Hc as [Hn|(Hp & l1 & l2 & Hl & Hn)].
      * left. intros d Hd. apply Hn. by right.
      * destruct l1 as [|d l1]; [inversion Hl; subst; apply HP in Hp; congruence|]. inversion Hl; subst. right. split; [done|].
        exists l1, l2. split; [done|]. intros d' Hd. apply Hn. by right.
Qed.

Lemma Cut_spec c s : match Cut c s with
  | Some (a, b) => s = a +:+ String c b /\ has_byte c a = false
  | None => has_byte c s = false
  end.
Proof.
  induction s as [|d s IH]; [done|]. cbn [Cut has_byte]. destruct (Ascii.eqb d c) eqn:E.
  - apply Ascii.eqb_eq in E. by subst d.
  - destruct (Cut c s) as [[a b]|]; [|done]. destruct IH as [-> Ha]. rewrite app_cons. cbn [has_byte].
    by rewrite E, Ha.
Qed.

Lemma first_byte c a b a' b' : a +:+ String c b = a' +:+ String c b' -> has_byte c a = false -> has_byte c a' = false ->
  a = a' /\ b = b'.
Proof.
  revert a'. induction a as [|d a IH]; intros [|d' a']; rewrite ?app_nil_l, ?app_cons; cbn [has_byte]; intros Heq Ha Ha'.
  - by inversion Heq.
  - inversion Heq; subst. by rewrite Ascii.eqb_refl in Ha'.
  - inversion Heq; subst. by rewrite Ascii.eqb_refl in Ha.
  - inversion Heq; subst. apply orb_false_iff in Ha as [_ Ha], Ha' as [_ Ha']. destruct (IH a') as [-> ->]; try done.
Qed.

Lemma isMultiStatementSQL_spec sql : isMultiStatementSQL sql = false <->
  (forall a b, trim_right (fun c => Ascii.eqb c ";") (TrimSpace sql) = a +:+ String ";" b -> has_byte ";" a = false -> TrimSpace b = "").
Proof.
  unfold isMultiStatementSQL. cbv zeta. generalize (trim_right (fun c => Ascii.eqb c ";") (TrimSpace sql)). intros t.
  pose proof (Cut_spec ";" t) as Hc. destruct (Cut ";" t) as [[a b]|].
  - destruct Hc as [-> Ha]. rewrite negb_false_iff, str_empty_spec. split.
    + intros Hb a' b' Heq Ha'. by destruct (first_byte _ _ _ _ _ Heq Ha Ha') as [_ <-].
    + intros Hall. by apply (Hall a b).
  - split; [|done]. intros _ a b -> _. rewrite has_byte_app in Hc. cbn [has_byte] in Hc. rewrite Ascii.eqb_refl in Hc.
    by rewrite orb_true_r in Hc.
Qed.

Lemma isWriteOrDDL_spec sql : isWriteOrDDL sql = false <->
  (forall word rest, Fields (ToLower (TrimSpace sql)) = word :: rest -> TrimPrefix word "(" ∉ write_words).
Proof.
  change write_words with writeOrDDLKeywords. unfold isWriteOrDDL. destruct (Fields _) as [|word rest]; [done|]. rewrite str_in_false. split.
  - by intros Hn ? ? [= <- <-].
  - intros Hn. by apply (Hn word rest).
Qed.

Lemma known_by_key j k : known_by j k <-> k = edge_key j.
Proof.
  unfold edge_key, String.ltb. cbv zeta. split.
  - intros [Hle|Hle]; unfold String.leb in Hle; rewrite (String.compare_antisym (ToLower (e_Left j))) in Hle;
      by destruct (String.compare (ToLower (e_Right j)) _).
  - intros ->. destruct (String.compare (ToLower (e_Right j)) _) eqn:Ec;
      first [apply In_order | apply Swapped]; unfold String.leb; rewrite String.compare_antisym, Ec; done.
Qed.
Lemma same_join_key j a : same_join j a <-> edge_key j = edge_key a.
Proof.
  unfold same_join. setoid_rewrite known_by_key. split; [by intros (k & -> & ?)|]. intros He. by exists (edge_key j).
Qed.

Lemma firstInvalidJoin_spec requested allowed : firstInvalidJoin requested allowed = None <->
  (allowed = [] \/ forall j, j ∈ requested -> exists a, a ∈ allowed /\ same_join j a).
Proof.
  setoid_rewrite same_join_key.
  unfold firstInvalidJoin. destruct allowed as [|a0 allowed]; [tauto|]. set (al := a0 :: allowed). cbv zeta.
  assert (forall j, edge_key j ∈ (list_to_set (map edge_key al) : gset string) <-> exists a, a ∈ al /\ edge_key j = edge_key a) as Hk.
  { intros j. rewrite elem_of_list_to_set, list_elem_of_In, in_map_iff. split.
    - intros (a & He & Ha). exists a. by rewrite list_elem_of_In.
    - intros (a & Ha%list_elem_of_In & He). by exists a. }
  split.
  - intros Hf. right. intros j Hj%list_elem_of_In. apply Hk. pose proof (find_none _ _ Hf j Hj) as Hn. cbv beta in Hn.
    apply negb_false_iff in Hn. by apply bool_decide_eq_true in Hn.
  - intros [?|Hall]; [done|]. destruct (find _ requested) as [j|] eqn:Hf; [|done].
    apply find_some in Hf as [Hj Hn]. apply negb_true_iff, bool_decide_eq_false in Hn. destruct Hn. apply Hk, Hall.
    by apply list_elem_of_In.
Qed.

Lemma clamp_granted ceiling v w : clamp ceiling v = w <-> granted ceiling v w.
Proof.
  unfold clamp, granted.
  destruct (Z.ltb_spec 0 ceiling), (Z.leb_spec v 0), (Z.ltb_spec ceiling v); cbn [andb orb]; split; intros; subst; lia.
Qed.

(** ** The engine *)

Section Spec.
Context `{AgentJSON}.

Lemma query_permitted_spec run q : query_permitted run q <->
  isMultiStatementSQL (qa_SQL q) = false /\ isWriteOrDDL (qa_SQL q) = false /\
  firstHiddenColumn (Columns q) (HiddenColumns run) = "" /\
  firstUnmaskedPIIColumn (Columns q) (qa_MaskedColumns q) (PIIColumns run) = "" /\
  firstInvalidJoin (qa_Joins q) (AllowedJoins run) = None /\
  RequiredRowFilter run && str_empty (TrimSpace (RowFilterSQL q)) = false.
Proof using.
  rewrite isMultiStatementSQL_spec, isWriteOrDDL_spec, firstInvalidJoin_spec, andb_false_iff, str_empty_false.
  unfold firstHiddenColumn, firstUnmaskedPIIColumn.
  rewrite (first_such_spec _ (listed (HiddenColumns run))) by apply containsFold_spec.
  rewrite (first_such_spec _ (fun c => listed (PIIColumns run) c /\ ~ listed (qa_MaskedColumns q) c)).
  2: { intros c. by rewrite andb_true_iff, negb_true_iff, <- not_true_iff_false, !containsFold_spec. }
  split.
  - intros []. split_and!; try done. destruct (RequiredRowFilter run); auto.
  - intros (H1 & H2 & H3 & H4 & H5 & H6). constructor; try done. intros Hr. rewrite Hr in H6. by destruct H6.
Qed.

Lemma narrowed_spec run q q' : narrowed run q q' <->
  q' = set_limits (clamp (MaxRows run) (RowLimit q)) (clamp (seconds (Timeout run)) (TimeoutSeconds q)) q.
Proof using.
  unfold seconds. split.
  - intros [H1 H2 H3 H4 H5 H6 H7 H8 Hr%clamp_granted Ht%clamp_granted]. rewrite Hr, Ht.
    unfold set_limits. rewrite <- H1, <- H2, <- H3, <- H4, <- H5, <- H6, <- H7, <- H8. by destruct q'.
  - intros ->. constructor; try done; by apply clamp_granted.
Qed.

Lemma evaluateQuery_allows run p args : evaluateQuery run p = allow args <->
  exists q q', strictDecode_query (p_Arguments p) = Ok q /\ query_permitted run q /\ narrowed run q q' /\ marshal_query q' = Ok args.
Proof using.
  unfold evaluateQuery. destruct (strictDecode_query (p_Arguments p)) as [q|e].
  2: { split; [done|]. by intros (? & ? & ? & _). }
  transitivity (query_permitted run q /\
    marshal_query (set_limits (clamp (MaxRows run) (RowLimit q)) (clamp (seconds (Timeout run)) (TimeoutSeconds q)) q) = Ok args).
  - rewrite query_permitted_spec, <- !str_empty_spec. cbv zeta.
    destruct (isMultiStatementSQL _); [split; [done|by intros [(? & _) _]]|].
    destruct (isWriteOrDDL _); [split; [done|by intros [(_ & ? & _) _]]|].
    destruct (str_empty (firstHiddenColumn _ _)); [|split; [done|by intros [(_ & _ & ? & _) _]]]. cbn [negb].
    destruct (str_empty (firstUnmaskedPIIColumn _ _ _)); [|split; [done|by intros [(_ & _ & _ & ? & _) _]]]. cbn [negb].
    destruct (firstInvalidJoin _ _); [split; [done|by intros [(_ & _ & _ & _ & ? & _) _]]|].
    destruct (RequiredRowFilter run && _); [split; [done|by intros [(_ & _ & _ & _ & _ & ?) _]]|].
    destruct (marshal_query _) as [s|e]; [|by split; [|intros [_ ?]]].
    unfold allow. split; [by intros [= ->]|by intros [_ [= ->]]].
  - split.
    + intros [Hp Hm]. eexists q, _. split; [done|]. split; [done|]. split; [by apply narrowed_spec|done].
    + intros (q0 & q' & [= <-] & Hp & ->%narrowed_spec & Hm). done.
Qed.

Lemma evaluateQuery_denies run p : Allowed (evaluateQuery run p) = false ->
  exists r, r ∈ denyReasons /\ evaluateQuery run p = deny r.
Proof using.
  unfold evaluateQuery. destruct (strictDecode_query _); [|by eexists; split; [|reflexivity]; repeat constructor].
  cbv zeta. repeat case_match; try done; intros _; eexists; (split; [|reflexivity]); repeat constructor.
Qed.

Lemma shared_rules_spec ctx_err run p : shared_rules ctx_err run p = None <->
  ctx_err = None /\ p_Tool p ∈ AllowedTools run /\
  (forall budget, RetryBudget run !! p_Tool p = Some budget -> 0 < budget) /\
  ~ (DeploymentMode run = "airgapped" /\ ExternalEgressTools run !! p_Tool p = Some true) /\
  (p_Tool p ∈ webAgentTools \/
   p_Tool p ∉ webAgentTools /\
   decode_identity (p_Arguments p) = Ok (mkIdentity (TenantID run) (UserID run) (run_DatasourceID run)) /\
   (forall m, m ∈ promptInjectionMarkers -> Contains (ToLower (p_Arguments p)) m = false)).
Proof using.
  unfold shared_rules. destruct ctx_err as [e|]; [by split; [|intros [? _]]|].
  destruct (containsTool (AllowedTools run) (p_Tool p)) eqn:Et; cbn [negb].
  2: { apply str_in_false in Et. by split; [|intros (_ & ? & _)]. }
  apply str_in_spec in Et.
  destruct (match RetryBudget run !! p_Tool p with Some b => b <=? 0 | None => false end) eqn:Eb.
  { split; [done|]. intros (_ & _ & Hb & _). destruct (RetryBudget run !! p_Tool p) as [b|]; [|done].
    specialize (Hb b eq_refl). apply Z.leb_le in Eb. lia. }
  assert (forall budget, RetryBudget run !! p_Tool p = Some budget -> 0 < budget) as Hb.
  { intros b Hb. rewrite Hb in Eb. by apply Z.leb_gt in Eb. }
  destruct (String.eqb (DeploymentMode run) "airgapped" && _) eqn:Ea.
  { split; [done|]. intros (_ & _ & _ & Hn & _). destruct Hn. apply andb_true_iff in Ea as [?%String.eqb_eq Ha].
    split; [done|]. destruct (ExternalEgressTools run !! p_Tool p) as [[]|]; done. }
  assert (~ (DeploymentMode run = "airgapped" /\ ExternalEgressTools run !! p_Tool p = Some true)) as Ha.
  { intros [Hd Hx]. by rewrite Hd, Hx in Ea. }
  unfold isWebAgentTool. destruct (str_in (p_Tool p) webAgentTools) eqn:Ew.
  { apply str_in_spec in Ew. split; [|done]. intros _. split_and!; auto. }
  apply str_in_false in Ew.
  transitivity (decode_identity (p_Arguments p) = Ok (mkIdentity (TenantID run) (UserID run) (run_DatasourceID run)) /\
    containsPromptInjection (p_Arguments p) = false).
  - destruct (decode_identity _) as [[t u d]|e]; [|by split; [|intros [? _]]]. cbn [ia_TenantID ia_UserID ia_DatasourceID].
    destruct (String.eqb_spec t (TenantID run)) as [->|]; [|by split; [|intros [[= ? ? ?] _]]].
    destruct (String.eqb_spec u (UserID run)) as [->|]; [|by split; [|intros [[= ? ?] _]]].
    destruct (String.eqb_spec d (run_DatasourceID run)) as [->|]; [|by split; [|intros [[= ?] _]]]. cbn [negb orb].
    destruct (containsPromptInjection _); by split; [|intros [_ ?]].
  - assert (containsPromptInjection (p_Arguments p) = false <->
      forall m, m ∈ promptInjectionMarkers -> Contains (ToLower (p_Arguments p)) m = false) as ->.
    { unfold containsPromptInjection. cbv zeta. rewrite <- not_true_iff_false, existsb_exists. split.
      - intros Hn m Hm%list_elem_of_In. apply not_true_iff_false. intros Hc. apply Hn. by exists m.
      - intros Hall (m & Hm%list_elem_of_In & Hc). rewrite (Hall m Hm) in Hc. done. }
    split; [intros [? ?]; split_and!; auto|]. intros (_ & _ & _ & _ & [?|(_ & ? & ?)]); done.
Qed.

Lemma other_not_web tool : tool ∈ [ToolQueryCompile; ToolQueryExecute; ToolCatalog; ToolSemantic; ToolMemoryRecall] ->
  tool ∉ webAgentTools.
Proof using. intros Ht. apply str_in_false. repeat (apply elem_of_cons in Ht as [->|Ht]; [done|]). by apply not_elem_of_nil in Ht. Qed.
Lemma query_not_plain tool : tool ∈ [ToolCatalog; ToolSemantic; ToolMemoryRecall] -> tool ∉ [ToolQueryCompile; ToolQueryExecute].
Proof using. intros Ht. apply str_in_false. repeat (apply elem_of_cons in Ht as [->|Ht]; [done|]). by apply not_elem_of_nil in Ht. Qed.

Lemma Evaluate_allows ctx_err run p args : Evaluate ctx_err run p = allow args <-> permitted ctx_err run p args.
Proof using.
  unfold Evaluate, permitted. change web_tools with webAgentTools.
  change lookup_tools with [ToolCatalog; ToolSemantic; ToolMemoryRecall]. change query_tools with [ToolQueryCompile; ToolQueryExecute].
  change injection_phrases with promptInjectionMarkers. pose proof (shared_rules_spec ctx_err run p) as Hs. destruct (shared_rules ctx_err run p) as [r|].
  - split; [done|]. intros (H1 & H2 & H3 & H4 & H5). exfalso. enough (Some r = None) by done. apply Hs. split_and!; try done.
    destruct H5 as [[Hw _]|(Hi & Hm & Hc)]; [by left|right]. split_and!; try done. apply other_not_web.
    destruct Hc as [[Ht _]|[Ht _]]; apply str_in_spec; apply str_in_spec in Ht; unfold str_in in *; cbn [existsb] in *; by rewrite !orb_true_iff in *; naive_solver.
  - destruct (proj1 Hs eq_refl) as (-> & H2 & H3 & H4 & H5). clear Hs.
    destruct (str_in (p_Tool p) [ToolQueryCompile; ToolQueryExecute]) eqn:Eq.
    + apply str_in_spec in Eq. assert (p_Tool p ∉ webAgentTools) as Hw by (apply other_not_web; set_solver).
      rewrite evaluateQuery_allows. destruct H5 as [?|(_ & Hi & Hm)]; [done|]. split.
      * intros Hq. split_and!; try done. right. split_and!; try done. by right.
      * intros (_ & _ & _ & _ & [[? _]|(_ & _ & [[Ht _]|[_ Hq]])]); [done| |done]. by apply query_not_plain in Ht.
    + apply str_in_false in Eq. unfold isWebAgentTool. destruct (str_in (p_Tool p) [ToolCatalog; _; _]) eqn:Ec; cbn [orb].
      * apply str_in_spec in Ec. assert (p_Tool p ∉ webAgentTools) as Hw by (apply other_not_web; set_solver).
        destruct H5 as [?|(_ & Hi & Hm)]; [done|]. unfold allow. split.
        -- intros [= <-]. split_and!; try done. right. split_and!; try done. by left.
        -- by intros (_ & _ & _ & _ & [[? _]|(_ & _ & [[_ ->]|[? _]])]).
      * apply str_in_false in Ec. destruct (str_in (p_Tool p) webAgentTools) eqn:Ew.
        -- apply str_in_spec in Ew. unfold allow. split.
           ++ intros [= <-]. split_and!; try done. by left.
           ++ by intros (_ & _ & _ & _ & [[_ ->]|(_ & _ & [[? _]|[? _]])]).
        -- apply str_in_false in Ew. split; [done|]. by intros (_ & _ & _ & _ & [[? _]|(_ & _ & [[? _]|[? _]])]).
Qed.
End Spec.

Lemma shared_rules_reason `{AgentJSON} ctx_err run p r : shared_rules ctx_err run p = Some r -> r ∈ denyReasons.
Proof. unfold shared_rules. repeat case_match; intros [= <-]; by repeat constructor. Qed.

Lemma Evaluate_decides `{AgentJSON} ctx_err run p :
  (exists args, Evaluate ctx_err run p = allow args /\ permitted None run p args) \/
  exists reason, reason ∈ denyReasons /\ Evaluate ctx_err run p = deny reason.
Proof.
  assert (forall args, Evaluate ctx_err run p = allow args -> permitted None run p args) as Hpm.
  { intros args (-> & Hp)%Evaluate_allows. by split. }
  unfold Evaluate in *. destruct (shared_rules ctx_err run p) as [r|] eqn:Er.
  - right. exists r. split; [by eapply shared_rules_reason|done].
  - destruct (str_in (p_Tool p) _) eqn:Eq.
    + destruct (Allowed (evaluateQuery run p)) eqn:Ea; [left|right; by apply evaluateQuery_denies].
      assert (exists args, evaluateQuery run p = allow args) as [args Hargs].
      { unfold evaluateQuery in *. repeat case_match; try done. by eexists. }
      exists args. split; [done|by apply Hpm].
    + destruct (_ || _); [left; eexists; split; [done|by apply Hpm]|right]. eexists. split; [|reflexivity]. by repeat constructor.
Qed.

(** C27: the rules of the agent's policy engine, as far as they go.  A tool call is
    allowed exactly when the context is not cancelled, the tool is on the run's
    allow-list and has some of its retry budget left, it does not leave an air-gapped
    deployment, and its tool is one of the web tools, whose arguments are not looked at,
    or its arguments carry the run's own tenant, user and data source and none of the
    five injection phrases, and the tool is a lookup or a query.  A query must moreover
    have nothing but semicolons and space after its first semicolon; its first word,
    less one opening parenthesis, must not be one of the nine words that write (the words
    behind the first are not looked at, and an empty statement passes); no column it
    names may be hidden, and none be personal and not masked, up to the first empty name;
    its joins must be among the run's, in either direction, unless the run lists none;
    and it must have a row filter where the run requires one.  What is granted is what
    was asked for, except that a query's row and time limits are lowered to the run's
    and set where they were missing: never raised.  A denial grants nothing and carries
    the code of a rule. *)
Theorem Evaluate_exact `{AgentJSON} (ctx_err : option goerr) (run : RunContext) (p : Proposal) :
  (forall args, Evaluate ctx_err run p = allow args <-> permitted ctx_err run p args) /\
  ((exists args, Evaluate ctx_err run p = allow args) \/
   exists reason, reason ∈ denyReasons /\ Evaluate ctx_err run p = deny reason).
Proof.
  split; [intros args; apply Evaluate_allows|].
  destruct (Evaluate_decides ctx_err run p) as [(args & Ha & _)|Hd]; [left; by exists args|by right].
Qed.

(** Two joins have the same key when they are the same pair of tables up to case, in
    either order. *)
Lemma edge_key_swap a b : edge_key (mkEdge a b) = edge_key (mkEdge b a).
Proof.
  unfold edge_key. cbn. generalize (ToLower a) (ToLower b). clear a b. intros a b. unfold String.ltb.
  rewrite (String.compare_antisym b a). destruct (String.compare a b) eqn:E; cbn; try done.
  apply String.compare_eq_iff in E. by subst.
Qed.
