(* ===== verification/AgentContracts.v ===== *)
(** The envelopes of the agent queue, [internal/agent/contracts.go], and the comparison
    of a shadow run with the run it shadows, [internal/agent/shadow.go]; the adapters of its tools
    ([internal/app/agent_dependencies.go]) and the gate of its internal endpoints
    ([internal/agent/service.go], [internal/http/handlers/internal_auth_middleware.go]).

    A [float64] is a [spec_float], so that the comparisons are those of IEEE 754. *)

From Stdlib Require Import SpecFloat.
From S2P Require Import Prelude GoStrings LogicalQuery.
From stdpp Require Import options.
#[local] Open Scope Z_scope.

(** * Envelopes *)

Definition JobSchemaV1 : string := "agent-job.v1".
Definition StepSchemaV1 : string := "agent-step.v1".
Definition ResultSchemaV1 : string := "agent-result.v1".
Definition ErrorSchemaV1 : string := "agent-error.v1".
Definition ModeShadow : string := "shadow".
Definition ModeActive : string := "active".
Definition MinMaxSteps : Z := 1.
Definition MaxMaxSteps : Z := 6.
Definition MinClarificationRounds : Z := 0.
Definition MaxClarificationRounds : Z := 2.
(** [1 * time.Second] and [45 * time.Second], in seconds. *)
Definition MinTimeout : Z := 1.
Definition MaxTimeout : Z := 45.
Definition MinMaxRows : Z := 1.
Definition MaxMaxRows : Z := 1000.

Record Job : Type := mkJob {
  j_Schema : string; j_JobID : string; j_RunID : string; j_ConversationID : string; j_DatasourceID : string;
  j_ModelID : string; j_UserID : string; j_WorkspaceID : string; j_Question : string; j_Mode : string;
  j_MaxSteps : Z; j_MaxClarificationRounds : Z; j_TimeoutSeconds : Z; j_MaxRows : Z;
}.
Record Step : Type := mkStep {
  s_Schema : string; s_JobID : string; s_RunID : string; s_Seq : Z; s_Tool : string; s_Status : string;
  s_Attempt : Z; s_DurationMs : Z; s_Detail : string;
}.
Record Result : Type := mkResult {
  r_Schema : string; r_JobID : string; r_RunID : string; r_Status : string; r_Confidence : spec_float;
  r_Answer : string; r_RowCount : Z;
}.
Record ErrorEnvelope : Type := mkError {
  e_Schema : string; e_JobID : string; e_RunID : string; e_ReasonCode : string; e_Message : string; Retryable : bool;
}.

Definition IsValidMode (mode : string) : bool := String.eqb mode ModeShadow || String.eqb mode ModeActive.

(** The text before the last [.v]. *)
Fixpoint schemaFamily (schema : string) : option string :=
  match schema with
  | EmptyString => None
  | String c rest =>
      match schemaFamily rest with
      | Some family => Some (String c family)
      | None => if HasPrefix schema ".v" then Some "" else None
      end
  end.

(** [ErrUnsupportedSchemaVersion] is the error wrapped. *)
Definition ErrUnsupportedSchemaVersion : goerr := EMsg "unsupported schema version".
Definition validateSchema (got want : string) : res unit :=
  if String.eqb got want then Ok tt else
  match schemaFamily got, schemaFamily want with
  | Some gotFamily, Some wantFamily =>
      if String.eqb gotFamily wantFamily
      then Err (EWrap (Quote got +:+ " (this build supports " +:+ Quote want +:+ ")") ErrUnsupportedSchemaVersion)
      else Err (EMsg ("schema must be " +:+ Quote want +:+ ", got " +:+ Quote got))
  | _, _ => Err (EMsg ("schema must be " +:+ Quote want +:+ ", got " +:+ Quote got))
  end.
Definition requireNonEmpty (field value : string) : res unit :=
  if str_empty (TrimSpace value) then Err (EMsg (field +:+ " is required")) else Ok tt.
Definition requireIntRange (field : string) (value lo hi : Z) : res unit :=
  if (value <? lo) || (hi <? value)
  then Err (EMsg (field +:+ " must be between " +:+ Itoa lo +:+ " and " +:+ Itoa hi +:+ ", got " +:+ Itoa value))
  else Ok tt.

Definition ValidateJob (j : Job) : res unit :=
  let? _ := validateSchema (j_Schema j) JobSchemaV1 in
  let? _ := requireNonEmpty "job_id" (j_JobID j) in
  let? _ := requireNonEmpty "run_id" (j_RunID j) in
  let? _ := requireNonEmpty "datasource_id" (j_DatasourceID j) in
  let? _ := requireNonEmpty "user_id" (j_UserID j) in
  let? _ := if IsValidMode (j_Mode j) then Ok tt
            else Err (EMsg ("mode must be " +:+ Quote ModeShadow +:+ " or " +:+ Quote ModeActive +:+ ", got " +:+ Quote (j_Mode j))) in
  let? _ := requireIntRange "max_steps" (j_MaxSteps j) MinMaxSteps MaxMaxSteps in
  let? _ := requireIntRange "max_clarification_rounds" (j_MaxClarificationRounds j) MinClarificationRounds MaxClarificationRounds in
  let? _ := requireIntRange "timeout_seconds" (j_TimeoutSeconds j) MinTimeout MaxTimeout in
  requireIntRange "max_rows" (j_MaxRows j) MinMaxRows MaxMaxRows.
Definition ValidateStep (s : Step) : res unit :=
  let? _ := validateSchema (s_Schema s) StepSchemaV1 in
  let? _ := requireNonEmpty "job_id" (s_JobID s) in
  let? _ := requireNonEmpty "run_id" (s_RunID s) in
  let? _ := requireNonEmpty "tool" (s_Tool s) in
  if s_Seq s <? 1 then Err (EMsg ("seq must be >= 1, got " +:+ Itoa (s_Seq s))) else Ok tt.
(** The text of the number ([%g]) is left out of the error. *)
Definition float_one : spec_float := S754_finite false 4503599627370496 (-52).
Definition ValidateResult (r : Result) : res unit :=
  let? _ := validateSchema (r_Schema r) ResultSchemaV1 in
  let? _ := requireNonEmpty "job_id" (r_JobID r) in
  let? _ := requireNonEmpty "run_id" (r_RunID r) in
  if SFltb (r_Confidence r) (S754_zero false) || SFltb float_one (r_Confidence r)
  then Err (EMsg "confidence must be between 0 and 1") else Ok tt.
Definition ValidateError (e : ErrorEnvelope) : res unit :=
  let? _ := validateSchema (e_Schema e) ErrorSchemaV1 in
  let? _ := requireNonEmpty "job_id" (e_JobID e) in
  let? _ := requireNonEmpty "run_id" (e_RunID e) in
  requireNonEmpty "reason_code" (e_ReasonCode e).

(** * Shadow runs *)

Definition ShadowCategoryMatch : string := "match".
Definition ShadowCategoryResultMismatch : string := "result_mismatch".
Definition ShadowCategoryQueryMismatch : string := "query_mismatch".
Definition ShadowCategoryLatencyRegression : string := "latency_regression".
Definition ShadowCategoryClarificationMismatch : string := "clarification_mismatch".
Definition ShadowCategoryPolicyOutcomeMismatch : string := "policy_outcome_mismatch".
Definition ShadowCategoryAgentOnlyFailure : string := "agent_only_failure".
Definition ShadowCategoryLegacyOnlyFailure : string := "legacy_only_failure".
Definition ShadowCategoryBothFailed : string := "both_failed".

(** In nanoseconds. *)
Definition latencyRegressionFactor : Z := 2.
Definition latencyRegressionFloor : Z := 2 * 1000000000.

Record ShadowOutcome : Type := mkOutcome {
  Succeeded : bool;
  NormalizedQuery : string;
  NormalizedSQL : string;
  ResultFingerprint : string;
  so_RowCount : Z;
  Latency : Z;
  ClarificationAsked : bool;
  PolicyDenied : bool;
  PolicyReasonCode : string;
}.
(** The detail is a map of at most one key, [agent_policy_reason_code]. *)
Record ShadowComparison : Type := mkComparison { Categories : list string; Detail : gmap string string }.

Definition compareSucceededOutcomes (legacy agent : ShadowOutcome) : list string * gmap string string :=
  let asked := negb (Bool.eqb (ClarificationAsked legacy) (ClarificationAsked agent)) in
  let denied := negb (Bool.eqb (PolicyDenied legacy) (PolicyDenied agent)) in
  let query := negb (String.eqb (NormalizedQuery legacy) (NormalizedQuery agent)) ||
               negb (String.eqb (NormalizedSQL legacy) (NormalizedSQL agent)) in
  let result := negb (String.eqb (ResultFingerprint legacy) (ResultFingerprint agent)) ||
                negb (so_RowCount legacy =? so_RowCount agent) in
  let slow := (wrap64 (Latency legacy * latencyRegressionFactor) <? Latency agent) &&
              (latencyRegressionFloor <? Latency agent) in
  ((if asked then [ShadowCategoryClarificationMismatch] else []) ++
   (if denied then [ShadowCategoryPolicyOutcomeMismatch] else []) ++
   (if query then [ShadowCategoryQueryMismatch] else []) ++
   (if result then [ShadowCategoryResultMismatch] else []) ++
   (if slow then [ShadowCategoryLatencyRegression] else []),
   if denied && negb (str_empty (PolicyReasonCode agent))
   then {["agent_policy_reason_code" := PolicyReasonCode agent]} else ∅).

Definition CompareShadowOutcomes (legacy agent : ShadowOutcome) : ShadowComparison :=
  if negb (Succeeded legacy) && negb (Succeeded agent) then mkComparison [ShadowCategoryBothFailed] ∅ else
  let '(categories, detail) :=
    if negb (Succeeded legacy) then ([ShadowCategoryLegacyOnlyFailure], ∅)
    else if negb (Succeeded agent) then ([ShadowCategoryAgentOnlyFailure], ∅)
    else compareSucceededOutcomes legacy agent in
  mkComparison (match categories with [] => [ShadowCategoryMatch] | _ => categories end) detail.

(** [Evaluate] writes one row for each category, and stops at the first that fails. *)
Record ShadowRow : Type := mkShadowRow {
  sr_JobID : string; sr_LegacyRunID : string; sr_AgentRunID : string; sr_Category : string; sr_Detail : string;
}.
Class ShadowStore : Type := {
  marshal_detail : gmap string string -> res string;
  RecordShadowComparison : list ShadowRow -> ShadowRow -> option goerr;
}.

Fixpoint record_categories `{ShadowStore} (row : string -> ShadowRow) (categories : list string) : Traced ShadowRow (res unit) :=
  match categories with
  | [] => io_ret (Ok tt)
  | category :: categories =>
      let! answer := ask (fun tr => RecordShadowComparison tr (row category)) in
      match answer with
      | Some e => io_ret (Err (EWrap "record shadow comparison" e))
      | None => let! _ := emit (row category) in record_categories row categories
      end
  end.
Definition EvaluateShadow `{ShadowStore} (jobID legacyRunID agentRunID : string) (legacy agent : ShadowOutcome)
    : Traced ShadowRow (ShadowComparison * res unit) :=
  let comparison := CompareShadowOutcomes legacy agent in
  match marshal_detail (Detail comparison) with
  | Err e => io_ret (comparison, Err (EWrap "encode shadow comparison detail" e))
  | Ok detail =>
      let! r := record_categories (fun c => mkShadowRow jobID legacyRunID agentRunID c detail) (Categories comparison) in
      io_ret (comparison, r)
  end.

(** * Jobs *)

Lemma schemaFamily_None s : schemaFamily s = None <-> forall a b, s <> a +:+ ".v" +:+ b.
Proof.
  induction s as [|c s IH]; cbn [schemaFamily].
  - split; [intros _ [|? ?] b; [by rewrite app_nil_l|by rewrite app_cons]|done].
  - destruct (schemaFamily s) as [f|].
    + split; [done|]. intros Hn. destruct IH as [_ IH]. enough (Some f = None) by done. apply IH. intros a b ->.
      by apply (Hn (String c a) b).
    + destruct IH as [IH _]. specialize (IH eq_refl). destruct (HasPrefix (String c s) ".v") eqn:E.
      * split; [done|]. intros Hn. apply HasPrefix_spec in E as [t Ht]. destruct (Hn "" t). by rewrite app_nil_l.
      * split; [|done]. intros _ [|d a] b Heq.
        -- rewrite app_nil_l in Heq. assert (HasPrefix (String c s) ".v" = true) by (apply HasPrefix_spec; by exists b). congruence.
        -- rewrite app_cons in Heq. inversion Heq. by apply (IH a b).
Qed.

Lemma schemaFamily_app f t : schemaFamily t = None -> schemaFamily (f +:+ ".v" +:+ t) = Some f.
Proof.
  intros Ht. induction f as [|c f IH]; [|by rewrite app_cons; cbn [schemaFamily]; rewrite IH].
  rewrite app_nil_l, !app_cons, app_nil_l. cbn [schemaFamily]. rewrite Ht. cbn. by destruct t.
Qed.

Lemma schemaFamily_spec s f : schemaFamily s = Some f <-> exists t, s = f +:+ ".v" +:+ t /\ forall a b, t <> a +:+ ".v" +:+ b.
Proof.
  split.
  - revert f. induction s as [|c s IH]; intros f; cbn [schemaFamily]; [done|].
    destruct (schemaFamily s) as [g|] eqn:Es.
    + intros [= <-]. destruct (IH g eq_refl) as (t & -> & Hn). by exists t.
    + destruct (HasPrefix (String c s) ".v") eqn:E; [|done]. intros [= <-]. apply HasPrefix_spec in E as [t Ht]. exists t.
      split; [by rewrite app_nil_l|]. rewrite !app_cons, app_nil_l in Ht. inversion Ht; subst. intros a b ->.
      apply (proj1 (schemaFamily_None _) Es (String "v" a) b). by rewrite app_cons.
  - intros (t & -> & Hn). by apply schemaFamily_app, schemaFamily_None.
Qed.

Lemma validateSchema_ok got want : validateSchema got want = Ok tt <-> got = want.
Proof.
  unfold validateSchema. destruct (String.eqb_spec got want); [by subst|]. split; [|done].
  destruct (schemaFamily got), (schemaFamily want); try done. by destruct (String.eqb _ _).
Qed.
Lemma validateSchema_job got : (exists ctx, validateSchema got JobSchemaV1 = Err (EWrap ctx ErrUnsupportedSchemaVersion)) <->
  got <> JobSchemaV1 /\ exists version, got = "agent-job.v" +:+ version /\ forall a b, version <> a +:+ ".v" +:+ b.
Proof.
  unfold validateSchema. destruct (String.eqb_spec got JobSchemaV1) as [->|Hne]; [by split; [intros [? ?]|intros [? _]]|].
  assert ((exists version, got = "agent-job.v" +:+ version /\ forall a b, version <> a +:+ ".v" +:+ b) <->
          schemaFamily got = Some "agent-job") as -> by by rewrite schemaFamily_spec.
  change (schemaFamily JobSchemaV1) with (Some "agent-job").
  destruct (schemaFamily got) as [f|]; [|by split; [intros [? ?]|intros [_ ?]]].
  destruct (String.eqb_spec f "agent-job") as [->|Hf].
  - split; [done|intros _; by eexists].
  - split; [by intros [? ?]|]. by intros [_ [= ->]].
Qed.
Lemma requireNonEmpty_ok field value : requireNonEmpty field value = Ok tt <-> TrimSpace value <> "".
Proof. unfold requireNonEmpty. rewrite <- str_empty_false. by destruct (str_empty _). Qed.
Lemma requireIntRange_ok field value lo hi : requireIntRange field value lo hi = Ok tt <-> lo <= value <= hi.
Proof. unfold requireIntRange. destruct (Z.ltb_spec value lo), (Z.ltb_spec hi value); cbn [orb]; split; try done; lia. Qed.
Lemma IsValidMode_spec mode : IsValidMode mode = true <-> mode = ModeShadow \/ mode = ModeActive.
Proof. unfold IsValidMode. by rewrite orb_true_iff, !String.eqb_eq. Qed.
Lemma check_then (m n : res unit) : (let? _ := m in n) = Ok tt <-> m = Ok tt /\ n = Ok tt.
Proof. destruct m as [[]|e]; cbn; [tauto|]. by split; [|intros [? _]]. Qed.

(** The jobs the agent takes.  A job is accepted exactly when it has the schema of
    this build, names its job, run, data source and user, has a known mode, and asks for
    one to six steps, at most two rounds of clarification, one to forty-five seconds and
    one to a thousand rows; a job of another version of the schema, and no other, is
    told apart by the error for versions. *)
Lemma ValidateJob_exact (j : Job) :
  (ValidateJob j = Ok tt <->
   j_Schema j = JobSchemaV1 /\
   (forall id, id ∈ [j_JobID j; j_RunID j; j_DatasourceID j; j_UserID j] -> TrimSpace id <> "") /\
   (j_Mode j = ModeShadow \/ j_Mode j = ModeActive) /\
   1 <= j_MaxSteps j <= 6 /\ 0 <= j_MaxClarificationRounds j <= 2 /\ 1 <= j_TimeoutSeconds j <= 45 /\ 1 <= j_MaxRows j <= 1000) /\
  ((exists ctx, ValidateJob j = Err (EWrap ctx ErrUnsupportedSchemaVersion)) <->
   j_Schema j <> JobSchemaV1 /\
   exists version, j_Schema j = "agent-job.v" +:+ version /\ forall a b, version <> a +:+ ".v" +:+ b).
Proof.
  split.
  - unfold ValidateJob. rewrite !check_then, validateSchema_ok, !requireNonEmpty_ok, !requireIntRange_ok.
    assert ((if IsValidMode (j_Mode j) then Ok tt else Err (EMsg ("mode must be " +:+ Quote ModeShadow +:+ " or " +:+
       Quote ModeActive +:+ ", got " +:+ Quote (j_Mode j)))) = Ok tt <-> j_Mode j = ModeShadow \/ j_Mode j = ModeActive) as ->.
    { rewrite <- IsValidMode_spec. by destruct (IsValidMode _). }
    split.
    + intros (H1 & H2 & H3 & H4 & H5 & H6 & H7 & H8 & H9 & H10).
      split; [done|]. split; [|split; [done|]; split; [exact H7|]; split; [exact H8|]; split; [exact H9|exact H10]].
      intros id Hid. repeat (apply elem_of_cons in Hid as [->|Hid]; [done|]). by apply not_elem_of_nil in Hid.
    + intros (H1 & H2 & H3 & H4 & H5 & H6 & H7). do 5 (split; [first [done|apply H2; set_solver]|]). split; [done|].
      split; [exact H4|]. split; [exact H5|]. split; [exact H6|exact H7].
  - rewrite <- validateSchema_job. unfold ValidateJob. destruct (validateSchema (j_Schema j) JobSchemaV1) as [[]|e]; [|done]. cbn [res_bind].
    split; [|by intros [? ?]]. intros [ctx He]. unfold requireNonEmpty, requireIntRange in He.
    repeat (case_match; cbn [res_bind] in He; try done).
Qed.

(** * Shadow runs *)

(** What two runs that succeeded differ in. *)
Definition differs (legacy agent : ShadowOutcome) (category : string) : Prop :=
  category = ShadowCategoryClarificationMismatch /\ ClarificationAsked legacy <> ClarificationAsked agent \/
  category = ShadowCategoryPolicyOutcomeMismatch /\ PolicyDenied legacy <> PolicyDenied agent \/
  category = ShadowCategoryQueryMismatch /\
    (NormalizedQuery legacy, NormalizedSQL legacy) <> (NormalizedQuery agent, NormalizedSQL agent) \/
  category = ShadowCategoryResultMismatch /\ (ResultFingerprint legacy, so_RowCount legacy) <> (ResultFingerprint agent, so_RowCount agent) \/
  category = ShadowCategoryLatencyRegression /\ wrap64 (2 * Latency legacy) < Latency agent /\ 2000000000 < Latency agent.

Lemma in_if (b : bool) (c x : string) : x ∈ (if b then [c] else []) <-> b = true /\ x = c.
Proof. destruct b; rewrite ?list_elem_of_singleton, ?elem_of_nil; naive_solver. Qed.

Lemma compareSucceeded_spec legacy agent c : c ∈ (compareSucceededOutcomes legacy agent).1 <-> differs legacy agent c.
Proof.
  unfold compareSucceededOutcomes, differs. cbn [fst].
  rewrite !elem_of_app, !in_if, !negb_true_iff, !orb_true_iff, !andb_true_iff, !negb_true_iff, !eqb_false_iff, !String.eqb_neq,
    Z.eqb_neq, !Z.ltb_lt, (Z.mul_comm (Latency legacy)). unfold latencyRegressionFactor, latencyRegressionFloor.
  assert (forall (a b c d : string), (a, b) <> (c, d) <-> a <> c \/ b <> d) as Hp.
  { intros a b c' d. destruct (decide (a = c')), (decide (b = d)); subst; split; naive_solver. }
  assert (forall (a b : string) (m n : Z), (a, m) <> (b, n) <-> a <> b \/ m <> n) as Hq.
  { intros a b m n. destruct (decide (a = b)), (decide (m = n)); subst; split; naive_solver. }
  rewrite Hp, Hq. tauto.
Qed.

(** The categories of a comparison: never none; a failure of one or both runs is
    reported alone; otherwise every difference, or a match when there is none. *)
Lemma CompareShadowOutcomes_exact (legacy agent : ShadowOutcome) :
  Categories (CompareShadowOutcomes legacy agent) <> [] /\
  forall c, c ∈ Categories (CompareShadowOutcomes legacy agent) <->
    match Succeeded legacy, Succeeded agent with
    | false, false => c = ShadowCategoryBothFailed
    | false, true => c = ShadowCategoryLegacyOnlyFailure
    | true, false => c = ShadowCategoryAgentOnlyFailure
    | true, true => differs legacy agent c \/ c = ShadowCategoryMatch /\ forall d, ~ differs legacy agent d
    end.
Proof.
  unfold CompareShadowOutcomes. destruct (Succeeded legacy), (Succeeded agent); cbn [negb andb];
    [|split; [done|intros c; apply list_elem_of_singleton]..].
  pose proof (compareSucceeded_spec legacy agent) as Hs. destruct (compareSucceededOutcomes legacy agent) as [cs detail]. cbn [fst] in Hs.
  cbn [Categories]. destruct cs as [|c0 cs]; split; try done; intros c.
  - rewrite list_elem_of_singleton. split.
    + intros ->. right. split; [done|]. intros d Hd%Hs. by apply not_elem_of_nil in Hd.
    + intros [Hd%Hs|[? _]]; [by apply not_elem_of_nil in Hd|done].
  - rewrite Hs. split; [by left|]. intros [?|[_ Hn]]; [done|]. destruct (Hn c0). apply Hs. by left.
Qed.

(** * Adapters *)

Definition set_DatasourceID (ds : string) (q : LogicalQuery) : LogicalQuery :=
  mkLQ (Version q) ds (ModelID q) (CompositeID q) (Select q) (Filters q) (GroupBys q) (Having q) (OrderBys q) (Limit q)
    (Offset q) (CTEs q) (FromSubquery q) (FromCTE q) (FromAlias q) (DefaultSchema q) (TableSchemas q).

(** The logical query the query service is asked to compile or to run; [unmarshal] is
    [sonic.Unmarshal]. *)
Definition decodeLogicalQuery (unmarshal : string -> res LogicalQuery) (datasourceID raw : string) : res LogicalQuery :=
  let? lq := res_map_err (EWrap "decode logical query") (unmarshal raw) in
  Ok (if str_empty (DatasourceID lq) then set_DatasourceID datasourceID lq else lq).

Definition defaultAgentMemoryRecallLimit : Z := 5.
(** [configured] is [cfg.AI.Memory.RecallLimit]. *)
Definition agentMemoryRecallLimit (configured : Z) : Z := if 0 <? configured then configured else defaultAgentMemoryRecallLimit.

(** The data source of the query is the planner's, when it names one: the run's own is
    only a default. *)
Lemma decodeLogicalQuery_datasource unmarshal datasourceID raw lq : decodeLogicalQuery unmarshal datasourceID raw = Ok lq ->
  exists lq0, unmarshal raw = Ok lq0 /\ DatasourceID lq = (if str_empty (DatasourceID lq0) then datasourceID else DatasourceID lq0).
Proof.
  unfold decodeLogicalQuery. destruct (unmarshal raw) as [lq0|e]; [|done]. cbn. intros [= <-]. exists lq0. split; [done|].
  by destruct (str_empty (DatasourceID lq0)).
Qed.

(** * The internal token *)

Inductive gate : Type := NotConfigured | Unauthorized | Passed.

Definition internalTokenFromRequest (x_internal_token authorization : string) : string :=
  let token := TrimSpace x_internal_token in
  if negb (str_empty token) then token else
  let header := TrimSpace authorization in
  if (7 <? String.length header)%nat && EqualFold (String.substring 0 7 header) "bearer "
  then TrimSpace (String.substring 7 (String.length header - 7) header) else "".
Definition internalTokenMiddleware (token x_internal_token authorization : string) : gate :=
  let token := TrimSpace token in
  if str_empty token then NotConfigured else
  let got := internalTokenFromRequest x_internal_token authorization in
  if str_empty got || negb (String.eqb got token) then Unauthorized else Passed.

(** A request passes exactly with the token that is configured, and none does when no
    token is. *)
Lemma internalTokenMiddleware_passes token x auth : internalTokenMiddleware token x auth = Passed <->
  TrimSpace token <> "" /\ internalTokenFromRequest x auth = TrimSpace token.
Proof.
  unfold internalTokenMiddleware. cbv zeta. rewrite <- str_empty_false. destruct (str_empty (TrimSpace token)) eqn:E; [by split; [|intros [? _]]|].
  destruct (String.eqb_spec (internalTokenFromRequest x auth) (TrimSpace token)) as [->|Hn]; cbn [negb].
  - by rewrite E.
  - rewrite orb_true_r. by split; [|intros [_ ?]].
Qed.

(** A query on another data source than the run's. *)
Definition elsewhere : LogicalQuery := mkLQ "" "payroll" "" "" [] [] [] [] [] 0 0 [] None "" "" "" ∅.
Example planner_chooses_datasource :
  match decodeLogicalQuery (fun _ => Ok elsewhere) "sales" "{...}" with Ok lq => DatasourceID lq | Err _ => "" end = "payroll".
Proof. reflexivity. Qed.
