(* ===== verification/AgentState.v ===== *)
(** The data of an agent run: the planner's decisions ([internal/agent/planner.go]), the
    durable state of a run ([internal/agent/runtime.go]), the requests the tools make
    ([internal/toolcontract/contract.go]), and the events of a run. *)

From Stdlib Require Import SpecFloat.
From S2P Require Import Prelude GoStrings AgentPolicy.
From stdpp Require Import options.
#[local] Open Scope Z_scope.

(** * Decisions of the planner *)

Definition DecisionTool : string := "tool".
Definition DecisionClarification : string := "clarification".
Definition DecisionFinal : string := "final".
Definition DecisionFail : string := "fail".

Record Clarification : Type := mkClarification { c_Question : string; Options : list string }.
Record FinalResponse : Type := mkFinal { Answer : string; Confidence : spec_float }.
Record Failure : Type := mkFailure { f_ReasonCode : string; f_Message : string }.

(** [PlannerDecision]: exactly one variant is set, matching [Kind]. *)
Inductive PlannerDecision : Type :=
| UseTool (proposal : Proposal)
| Clarify (c : Clarification)
| Finish (f : FinalResponse)
| FailWith (f : Failure).

Record plannerDecisionEnvelope : Type := mkEnvelope {
  env_Tool : option Proposal;
  env_Clarification : option Clarification;
  env_Final : option FinalResponse;
  env_Fail : option Failure;
}.
Class PlannerJSON : Type := { strictDecode_envelope : string -> res plannerDecisionEnvelope }.

Definition set_variants (env : plannerDecisionEnvelope) : list PlannerDecision :=
  match env_Tool env with Some p => [UseTool p] | None => [] end ++
  match env_Clarification env with Some c => [Clarify c] | None => [] end ++
  match env_Final env with Some f => [Finish f] | None => [] end ++
  match env_Fail env with Some f => [FailWith f] | None => [] end.
Definition DecodePlannerDecision `{PlannerJSON} (raw : string) : res PlannerDecision :=
  let? env := res_map_err (EWrap "decode planner decision") (strictDecode_envelope raw) in
  match set_variants env with
  | [decision] => Ok decision
  | variants => Err (EMsg ("planner decision must set exactly one of tool/clarification/final/fail, got " +:+
                           Itoa (Z.of_nat (length variants))))
  end.

(** * The state of a run *)

Record Observation : Type := mkObservation { o_Tool : string; o_Payload : string }.
Record RuntimeStep : Type := mkRuntimeStep {
  Seq : Z;
  st_Proposal : Proposal;
  st_Observation : option Observation;
  DeniedReason : string;
  st_Error : string;
  st_DurationMs : Z;
}.
Inductive TerminalResult : Type :=
| TerminalFinal (f : FinalResponse)
| TerminalFail (f : Failure).
Record RuntimeState : Type := mkState {
  Steps : list RuntimeStep;
  ClarificationRounds : Z;
  QueryExecuteStarted : bool;
  Terminal : option TerminalResult;
  PendingClarification : option Clarification;
  ClarificationHistory : list ClarificationExchange;
}.
Definition zero_state : RuntimeState := mkState [] 0 false None None [].

Definition toolStepCount (s : RuntimeState) : Z := Z.of_nat (length (Steps s)).
Definition nextSeq (s : RuntimeState) : Z := Z.of_nat (length (Steps s)) + 1.

(** * Requests of the tools *)

Inductive json : Type :=
| JNull
| JBool (b : bool)
| JNumber (text : string)
| JString (s : string)
| JArray (l : list json)
| JObject (fields : list (string * json)).

Record Credential : Type := mkCredential { Authorization : string; APIKey : string }.
Record Loopback : Type := mkLoopback {
  lb_Method : string;
  lb_Path : string;
  lb_Body : option (list (string * json));
  lb_Credential : Credential;
  lb_Channel : string;
}.

(** What the tools ask of the services. *)
Inductive upstream : Type :=
| ResolveEntities (datasourceID modelID : string)
| GeneratePlan (datasourceID modelID question : string)
| Compile (datasourceID logicalQuery : string)
| ExecuteQuery (datasourceID logicalQuery : string) (rowLimit timeoutSeconds : Z)
| Recall (datasourceID modelID question : string) (limit : Z)
| Dispatch (request : Loopback).

(** * Events of a run *)

Inductive aevent : Type :=
| Asked (history : list RuntimeStep)
| SaveTried (state : RuntimeState)
| Saved (state : RuntimeState)
| Noted (step : RuntimeStep)
| ToolCalled (tool : string) (arguments : string)
| Called (call : upstream).

(** The planner reads one variant. *)
Lemma DecodePlannerDecision_ok `{PlannerJSON} raw d : DecodePlannerDecision raw = Ok d <->
  exists env, strictDecode_envelope raw = Ok env /\ env =
    match d with
    | UseTool p => mkEnvelope (Some p) None None None
    | Clarify c => mkEnvelope None (Some c) None None
    | Finish f => mkEnvelope None None (Some f) None
    | FailWith f => mkEnvelope None None None (Some f)
    end.
Proof.
  unfold DecodePlannerDecision. destruct (strictDecode_envelope raw) as [env|e]; cbn [res_map_err res_bind].
  - transitivity (set_variants env = [d]).
    + destruct (set_variants env) as [|x [|y l]]; split; try done; by intros [= ->].
    + split.
      * intros Hs. exists env. split; [done|]. destruct env as [[p|] [c|] [f|] [g|]]; inversion Hs; by subst.
      * intros (env' & [= <-] & ->). by destruct d.
  - split; [done|]. by intros (? & ? & _).
Qed.
