(* ===== verification/AgentTools.v ===== *)
(** The tools of the agent: the adapters of the services ([internal/agent/query_tools.go],
    [catalog_tool.go], [semantic_tool.go], [memory_tool.go]), the web tools
    ([web_tools.go]) with the requests they make ([internal/toolcontract/contract.go]),
    and the registry that dispatches to them ([tools.go]). *)

From Stdlib Require Import SpecFloat.
From S2P Require Import Prelude GoStrings AgentPolicy AgentState.
From stdpp Require Import options.
#[local] Open Scope Z_scope.

(** * The world of a run *)

Record CompileResult : Type := mkCompile { cr_Fingerprint : string; cr_SQL : string }.
Record QueryResult : Type := mkQueryResult { Rows : string; qr_RowCount : Z }.
Record SemanticPlan : Type := mkPlan { sp_LogicalQuery : string; sp_Confidence : spec_float }.
Record CatalogEntity : Type := mkEntity { ent_Table : string; ent_Columns : list string }.
Record RecalledExample : Type := mkExample { re_Question : string; re_LogicalQuery : string }.
Record DispatchResult : Type := mkDispatch { StatusCode : Z; Body : string }.

(** What a service answers: a result, or an error that may be a [TransientError]. *)
Inductive answer (A : Type) : Type :=
| Answered (a : A)
| Refused (transient : bool) (e : goerr).
Arguments Answered {A} _.
Arguments Refused {A} _ _.

(** [ctx] is the context of the run; [now] the clock, in nanoseconds. *)
Class AgentWorld : Type := {
  ctx_Err : list aevent -> option goerr;
  now : list aevent -> Z;
  svc_ResolveEntities : list aevent -> string -> string -> answer (list CatalogEntity);
  svc_GeneratePlan : list aevent -> string -> string -> string -> answer SemanticPlan;
  svc_Compile : list aevent -> string -> string -> answer CompileResult;
  svc_Execute : list aevent -> string -> string -> Z -> Z -> answer QueryResult;
  svc_Recall : list aevent -> string -> string -> string -> Z -> answer (list RecalledExample);
  svc_Dispatch : list aevent -> Loopback -> res DispatchResult;
}.

Record catalogResolveArgs : Type := mkCatalogArgs { ca_identity : identityArgs; ca_ModelID : string }.
Record semanticResolveArgs : Type := mkSemanticArgs { sa_identity : identityArgs; sa_ModelID : string; sa_Question : string }.
Record memoryRecallArgs : Type := mkMemoryArgs {
  ma_identity : identityArgs; ma_ModelID : string; ma_Question : string; Limit : Z;
}.
Record RunLogicalQueryInput : Type := mkLogicalQueryInput {
  in_DatasourceID : string; in_ModelID : string; in_LogicalQuery : option (gmap string json);
}.
Record RunQuestionInput : Type := mkQuestionInput { rq_DatasourceID : string; rq_Question : string; rq_ModelID : string }.
Record RunSkillInput : Type := mkSkillInput { SkillID : string; Parameters : list (string * json) }.
Record MetricQueryInput : Type := mkMetricInput {
  mq_DatasourceID : string; mq_ModelID : string; Measures : list string; Dimensions : list string;
  TimeDimension : option json; mq_Filters : list json; mq_Sort : list json; mq_Limit : Z; mq_Offset : Z;
}.

(** [sonic], for the tools.  The [decode_] functions of the inputs are [sonic.Unmarshal]
    into the structure of the name. *)
Class ToolsJSON : Type := {
  strictDecode_catalog : string -> res catalogResolveArgs;
  strictDecode_semantic : string -> res semanticResolveArgs;
  strictDecode_memory : string -> res memoryRecallArgs;
  marshal_compile : CompileResult -> res string;
  marshal_result : QueryResult -> res string;
  marshal_plan : SemanticPlan -> res string;
  marshal_entities : list CatalogEntity -> res string;
  marshal_examples : list RecalledExample -> res string;
  (** an object with a [datasource_id], a [locale], or a [datasource_id] and a [path] *)
  decode_datasource : string -> res string;
  decode_locale : string -> res string;
  decode_knowledge : string -> res (string * string);
  decode_question : string -> res RunQuestionInput;
  decode_logical_query : string -> res RunLogicalQueryInput;
  decode_skill : string -> res RunSkillInput;
  decode_metric : string -> res MetricQueryInput;
  unmarshal_object : string -> res (gmap string string);
  unmarshal_array : string -> res (list string);
  marshal_array : list string -> res string;
  marshal_object : gmap string string -> res string;
}.

(** A tool takes the run and its arguments; what it answers may depend on what happened. *)
Definition Tool : Type := RunContext -> string -> Traced aevent (res Observation).

Section Tools.
Context `{AgentWorld} `{AgentJSON} `{ToolsJSON}.

(** * Calls *)

Definition call {A} (request : upstream) (f : list aevent -> answer A) : Traced aevent (answer A) :=
  let! _ := emit (Called request) in ask f.

Definition answer_res {A} (a : answer A) : res A :=
  match a with Answered a => Ok a | Refused _ e => Err e end.

Definition callWithSingleRetry {A} (fn : Traced aevent (answer A)) : Traced aevent (res A) :=
  let! result := fn in
  match result with
  | Answered a => io_ret (Ok a)
  | Refused transient e =>
      let! ctx := ask ctx_Err in
      if match ctx with Some _ => true | None => negb transient end then io_ret (Err e)
      else let! again := fn in io_ret (answer_res again)
  end.

(** The end of a tool: the payload of its observation. *)
Definition observe {A} (tool : string) (marshal : A -> res string) (result : res A) : res Observation :=
  let? result := res_map_err (EWrap tool) result in
  let? payload := res_map_err (EWrap (tool +:+ ": encode observation")) (marshal result) in
  Ok (mkObservation tool payload).

(** * The tools of the services *)

Definition CatalogTool : Tool := fun run arguments =>
  match strictDecode_catalog arguments with
  | Err e => io_ret (Err (EWrap ToolCatalog e))
  | Ok args =>
      let! entities := callWithSingleRetry (call (ResolveEntities (run_DatasourceID run) (ca_ModelID args))
                         (fun tr => svc_ResolveEntities tr (run_DatasourceID run) (ca_ModelID args))) in
      io_ret (observe ToolCatalog marshal_entities entities)
  end.

Definition SemanticTool : Tool := fun run arguments =>
  match strictDecode_semantic arguments with
  | Err e => io_ret (Err (EWrap ToolSemantic e))
  | Ok args =>
      if str_empty (sa_Question args) then io_ret (Err (EMsg "semantic.resolve: question is required")) else
      let! plan := callWithSingleRetry (call (GeneratePlan (run_DatasourceID run) (sa_ModelID args) (sa_Question args))
                     (fun tr => svc_GeneratePlan tr (run_DatasourceID run) (sa_ModelID args) (sa_Question args))) in
      io_ret (observe ToolSemantic marshal_plan plan)
  end.

Definition MemoryTool (maxLimit : Z) : Tool := fun run arguments =>
  match strictDecode_memory arguments with
  | Err e => io_ret (Err (EWrap ToolMemoryRecall e))
  | Ok args =>
      if str_empty (ma_Question args) then io_ret (Err (EMsg "memory.recall: question is required")) else
      let limit := if (Limit args <=? 0) || ((0 <? maxLimit) && (maxLimit <? Limit args)) then maxLimit else Limit args in
      let! examples := callWithSingleRetry (call (Recall (run_DatasourceID run) (ma_ModelID args) (ma_Question args) limit)
                         (fun tr => svc_Recall tr (run_DatasourceID run) (ma_ModelID args) (ma_Question args) limit)) in
      io_ret (observe ToolMemoryRecall marshal_examples examples)
  end.

Definition compile_call (run : RunContext) (logicalQuery : string) : Traced aevent (answer CompileResult) :=
  call (Compile (run_DatasourceID run) logicalQuery) (fun tr => svc_Compile tr (run_DatasourceID run) logicalQuery).

Definition QueryCompileTool : Tool := fun run arguments =>
  match strictDecode_query arguments with
  | Err e => io_ret (Err (EWrap ToolQueryCompile e))
  | Ok args =>
      if str_empty (qa_LogicalQuery args) then io_ret (Err (EMsg "query.compile: logical_query is required")) else
      let! result := callWithSingleRetry (compile_call run (qa_LogicalQuery args)) in
      io_ret (observe ToolQueryCompile marshal_compile result)
  end.

Definition ErrCompileFingerprintMismatch : goerr := EMsg "logical_query does not match the claimed compile fingerprint".

Definition QueryExecuteTool : Tool := fun run arguments =>
  match strictDecode_query arguments with
  | Err e => io_ret (Err (EWrap ToolQueryExecute e))
  | Ok args =>
      if str_empty (qa_LogicalQuery args) || str_empty (Fingerprint args)
      then io_ret (Err (EMsg "query.execute: logical_query and fingerprint are required")) else
      let! compiled := compile_call run (qa_LogicalQuery args) in
      match compiled with
      | Refused _ e => io_ret (Err (EWrap "query.execute: revalidate compile" e))
      | Answered compiled =>
          if negb (String.eqb (cr_Fingerprint compiled) (Fingerprint args))
          then io_ret (Err (EWrap ToolQueryExecute ErrCompileFingerprintMismatch)) else
          let! result := callWithSingleRetry
            (call (ExecuteQuery (run_DatasourceID run) (qa_LogicalQuery args) (RowLimit args) (TimeoutSeconds args))
               (fun tr => svc_Execute tr (run_DatasourceID run) (qa_LogicalQuery args) (RowLimit args) (TimeoutSeconds args))) in
          io_ret (observe ToolQueryExecute marshal_result result)
      end
  end.

(** * The web tools *)

Definition ChannelAgent : string := "agent".
Definition MethodGet : string := "GET".
Definition MethodPost : string := "POST".

(** The method and the path of each governed tool. *)
Definition AllTools : list (string * (string * string)) :=
  [(ToolWebListDatasources, (MethodGet, "/api/datasources"));
   (ToolWebListModels, (MethodGet, "/api/semantic/models"));
   (ToolWebListPromptTemplates, (MethodGet, "/api/ai/prompt-templates/active"));
   (ToolWebRunQuestion, (MethodPost, "/api/ai/query/run"));
   (ToolWebRunLogicalQuery, (MethodPost, "/api/query/run"));
   (ToolWebListSkills, (MethodGet, "/api/ai/skills"));
   (ToolWebRunSkill, (MethodPost, "/api/ai/skills"));
   (ToolWebDryPlan, (MethodPost, "/api/query/compile"));
   (ToolWebDryRun, (MethodPost, "/api/query/dry-run"));
   (ToolWebListKnowledgeFiles, (MethodGet, "/api/ai/knowledge/files"));
   (ToolWebReadKnowledgeFile, (MethodGet, "/api/ai/knowledge/files/by-path"));
   (ToolWebMetricQuery, (MethodPost, "/api/query/metric"))].

(** [decodeArgs]: empty or null arguments are the zero value. *)
Definition decodeArgs {A} (zero : A) (name : string) (decode : string -> res A) (raw : string) : res A :=
  if str_empty raw || String.eqb raw "null" then Ok zero else res_map_err (EWrap ("decode " +:+ name)) (decode raw).

(** [injectLogicalQueryField] *)
Definition injectLogicalQueryField (lq : gmap string json) (key value : string) : gmap string json :=
  if str_empty value then lq else
  match lq !! key with
  | Some (JString s) => if str_empty (TrimSpace s) then <[key := JString value]> lq else lq
  | Some _ => lq
  | None => <[key := JString value]> lq
  end.

Definition logical_query_body (input : RunLogicalQueryInput) : list (string * json) :=
  let lq := default ∅ (in_LogicalQuery input) in
  let lq := injectLogicalQueryField lq "datasource_id" (in_DatasourceID input) in
  let lq := injectLogicalQueryField lq "model_id" (in_ModelID input) in
  [("logical_query", JObject (map_to_list lq))].

(** The identifiers of the run, where the planner left them out. *)
Definition inject_run (run : RunContext) (input : RunLogicalQueryInput) : RunLogicalQueryInput :=
  mkLogicalQueryInput (if str_empty (in_DatasourceID input) then run_DatasourceID run else in_DatasourceID input)
    (if str_empty (in_ModelID input) then run_ModelID run else in_ModelID input) (in_LogicalQuery input).
Definition decode_logical_query_args (run : RunContext) (raw : string) : res RunLogicalQueryInput :=
  let? input := decodeArgs (mkLogicalQueryInput "" "" None) "toolcontract.RunLogicalQueryInput" decode_logical_query raw in
  Ok (inject_run run input).

Definition strings (l : list string) : json := JArray (map JString l).
Definition metric_body (m : MetricQueryInput) : list (string * json) :=
  [("datasource_id", JString (mq_DatasourceID m)); ("model_id", JString (mq_ModelID m)); ("measures", strings (Measures m))] ++
  (match Dimensions m with [] => [] | _ => [("dimensions", strings (Dimensions m))] end) ++
  (match TimeDimension m with None => [] | Some t => [("time_dimension", t)] end) ++
  (match mq_Filters m with [] => [] | _ => [("filters", JArray (mq_Filters m))] end) ++
  (match mq_Sort m with [] => [] | _ => [("sort", JArray (mq_Sort m))] end) ++
  (if 0 <? mq_Limit m then [("limit", JNumber (Itoa (mq_Limit m)))] else []) ++
  (if 0 <? mq_Offset m then [("offset", JNumber (Itoa (mq_Offset m)))] else []).

Definition with_query (path : string) (values : list (string * string)) : string := path +:+ "?" +:+ encode_values values.

(** The request of a web tool: the method, the path and the body. *)
Definition web_request (tool : string) (run : RunContext) (raw : string) : res (string * string * option (list (string * json))) :=
  let own ds := if str_empty ds then run_DatasourceID run else ds in
  if String.eqb tool ToolWebListDatasources then Ok (MethodGet, "/api/datasources", None)
  else if String.eqb tool ToolWebListModels then
    let? ds := decodeArgs "" "toolcontract.ListModelsInput" decode_datasource raw in
    let ds := TrimSpace ds in
    Ok (MethodGet, with_query "/api/semantic/models"
          ((if str_empty ds then [] else [("datasource_id", ds)]) ++ [("include", "full")]), None)
  else if String.eqb tool ToolWebListPromptTemplates then
    let? loc := decodeArgs "" "toolcontract.ListPromptTemplatesInput" decode_locale raw in
    let loc := TrimSpace loc in
    Ok (MethodGet, "/api/ai/prompt-templates/active" +:+ (if str_empty loc then "" else "?locale=" +:+ QueryEscape loc), None)
  else if String.eqb tool ToolWebRunQuestion then
    let? q := decodeArgs (mkQuestionInput "" "" "") "toolcontract.RunQuestionInput" decode_question raw in
    Ok (MethodPost, "/api/ai/query/run",
        Some ([("datasource_id", JString (rq_DatasourceID q)); ("question", JString (rq_Question q))] ++
              (if str_empty (rq_ModelID q) then [] else [("model_id", JString (rq_ModelID q))])))
  else if String.eqb tool ToolWebRunLogicalQuery then
    let? input := decode_logical_query_args run raw in Ok (MethodPost, "/api/query/run", Some (logical_query_body input))
  else if String.eqb tool ToolWebListSkills then
    let? ds := decodeArgs "" "toolcontract.ListSkillsInput" decode_datasource raw in
    let ds := TrimSpace ds in
    Ok (MethodGet, "/api/ai/skills" +:+ (if str_empty ds then "" else "?datasource_id=" +:+ QueryEscape ds), None)
  else if String.eqb tool ToolWebRunSkill then
    let? s := decodeArgs (mkSkillInput "" []) "toolcontract.RunSkillInput" decode_skill raw in
    Ok (MethodPost, "/api/ai/skills/" +:+ PathEscape (SkillID s) +:+ "/run",
        Some (match Parameters s with [] => [] | _ => [("parameters", JObject (Parameters s))] end))
  else if String.eqb tool ToolWebDryPlan then
    let? input := decode_logical_query_args run raw in Ok (MethodPost, "/api/query/compile", Some (logical_query_body input))
  else if String.eqb tool ToolWebDryRun then
    let? input := decode_logical_query_args run raw in Ok (MethodPost, "/api/query/dry-run", Some (logical_query_body input))
  else if String.eqb tool ToolWebMetricQuery then
    let? m := decodeArgs (mkMetricInput "" "" [] [] None [] [] 0 0) "toolcontract.MetricQueryInput" decode_metric raw in
    let m := mkMetricInput (own (mq_DatasourceID m)) (if str_empty (mq_ModelID m) then run_ModelID run else mq_ModelID m)
               (Measures m) (Dimensions m) (TimeDimension m) (mq_Filters m) (mq_Sort m) (mq_Limit m) (mq_Offset m) in
    Ok (MethodPost, "/api/query/metric", Some (metric_body m))
  else if String.eqb tool ToolWebListKnowledgeFiles then
    let? ds := decodeArgs "" "toolcontract.ListKnowledgeFilesInput" decode_datasource raw in
    Ok (MethodGet, with_query "/api/ai/knowledge/files"
          [("datasource_id", TrimSpace (own ds)); ("published", "true")], None)
  else
    let? (ds, path) := decodeArgs ("", "") "toolcontract.ReadKnowledgeFileInput" decode_knowledge raw in
    Ok (MethodGet, with_query "/api/ai/knowledge/files/by-path"
          [("datasource_id", TrimSpace (own ds)); ("path", TrimSpace path)], None).

Definition maxPlannerRows : nat := 100.
Definition maxPlannerPayloadRunes : nat := Z.to_nat 120000.

Definition truncatePlannerPayload (raw : string) : string :=
  let rs := runes raw in
  if (length rs <=? maxPlannerPayloadRunes)%nat then raw
  else Concat (take maxPlannerPayloadRunes rs) +:+ "," +:+ Quote "_truncated" +:+ ":true}".

(** The rows of the response, when it is an object that has an array of them. *)
Definition response_rows (raw : string) : option (gmap string string * list string) :=
  match unmarshal_object raw with
  | Err _ => None
  | Ok obj =>
      match obj !! "rows" with
      | None => None
      | Some rowsRaw => match unmarshal_array rowsRaw with Err _ => None | Ok rows => Some (obj, rows) end
      end
  end.
Definition truncateForPlanner (raw : string) : string :=
  if str_empty raw then raw else
  match response_rows raw with
  | None => truncatePlannerPayload raw
  | Some (obj, rows) =>
      if (length rows <=? maxPlannerRows)%nat then truncatePlannerPayload raw else
      match marshal_array (take maxPlannerRows rows) with
      | Err _ => raw
      | Ok truncated =>
          let obj := <["rows_truncated" := Itoa (Z.of_nat (length rows - maxPlannerRows))]> (<["rows" := truncated]> obj) in
          match marshal_object obj with
          | Err _ => raw
          | Ok out => truncatePlannerPayload out
          end
      end
  end.

Definition IsError (r : DispatchResult) : bool := (StatusCode r <? 200) || (300 <=? StatusCode r).
Definition ErrorText (r : DispatchResult) : string := "HTTP " +:+ Itoa (StatusCode r) +:+ ": " +:+ Body r.

Definition webTool (cred : Credential) (tool : string) : Tool := fun run raw =>
  match web_request tool run raw with
  | Err e => io_ret (Err e)
  | Ok (method, path, body) =>
      let lb := mkLoopback method path body cred ChannelAgent in
      let! _ := emit (Called (Dispatch lb)) in
      let! answer := ask (fun tr => svc_Dispatch tr lb) in
      io_ret (let? r := answer in
              if IsError r then Err (EMsg (tool +:+ ": " +:+ ErrorText r))
              else Ok (mkObservation tool (truncateForPlanner (Body r))))
  end.
Definition WebTools (cred : Credential) : gmap string Tool :=
  list_to_map (map (fun tool => (tool, webTool cred tool)) webAgentTools).

(** The tools of the service that takes its jobs from the queue. *)
Definition ServiceTools (maxLimit : Z) : gmap string Tool :=
  list_to_map [(ToolCatalog, CatalogTool); (ToolSemantic, SemanticTool); (ToolQueryCompile, QueryCompileTool);
               (ToolQueryExecute, QueryExecuteTool); (ToolMemoryRecall, MemoryTool maxLimit)].

(** * The registry *)

Inductive tool_error : Type :=
| PolicyDenied (tool reason : string)
| ToolError (e : goerr).
Definition ErrToolNotRegistered : goerr := EMsg "tool not registered".

(** The tools of a registry, by name. *)
Definition Registry_Execute (tools : gmap string Tool) (run : RunContext) (proposal : Proposal)
    : Traced aevent (Observation + tool_error) :=
  let! ctx := ask ctx_Err in
  let decision := Evaluate ctx run proposal in
  if negb (Allowed decision) then io_ret (inr (PolicyDenied (p_Tool proposal) (ReasonCode decision))) else
  match tools !! p_Tool proposal with
  | None => io_ret (inr (ToolError (EWrap (p_Tool proposal) ErrToolNotRegistered)))
  | Some tool =>
      let! _ := emit (ToolCalled (p_Tool proposal) (d_Arguments decision)) in
      let! result := tool run (d_Arguments decision) in
      io_ret (match result with Ok obs => inl obs | Err e => inr (ToolError e) end)
  end.
End Tools.
