(* ===== verification/AgentRuntime.v ===== *)
(** The loop of an agent run: [internal/agent/runtime.go], and how a job of the queue
    starts one ([cmd/agent/main.go]).

    The planner and the store are outside: what they answer may depend on everything
    that happened.  [Save] may fail; what was saved is an event.  Metrics are left out. *)

From S2P Require Import Prelude GoStrings Pii AgentPolicy AgentContracts AgentState AgentTools.
From stdpp Require Import options.
#[local] Open Scope Z_scope.

(** [Save] has the context of the run, or that context without its cancellation. *)
Class RunWorld : Type := {
  svc_Decide : list aevent -> RunContext -> list RuntimeStep -> res PlannerDecision;
  svc_Save : list aevent -> bool -> RuntimeState -> option goerr;
  svc_Load : res (option RuntimeState);
}.

(** * Updates of the state *)

Definition set_Terminal (t : TerminalResult) (s : RuntimeState) : RuntimeState :=
  mkState (Steps s) (ClarificationRounds s) (QueryExecuteStarted s) (Some t) (PendingClarification s) (ClarificationHistory s).
Definition set_Pending (c : option Clarification) (s : RuntimeState) : RuntimeState :=
  mkState (Steps s) (ClarificationRounds s) (QueryExecuteStarted s) (Terminal s) c (ClarificationHistory s).
Definition set_Rounds (n : Z) (s : RuntimeState) : RuntimeState :=
  mkState (Steps s) n (QueryExecuteStarted s) (Terminal s) (PendingClarification s) (ClarificationHistory s).
Definition set_History (h : list ClarificationExchange) (s : RuntimeState) : RuntimeState :=
  mkState (Steps s) (ClarificationRounds s) (QueryExecuteStarted s) (Terminal s) (PendingClarification s) h.
Definition add_step (step : RuntimeStep) (started : bool) (s : RuntimeState) : RuntimeState :=
  mkState (Steps s ++ [step]) (ClarificationRounds s) (QueryExecuteStarted s || started) (Terminal s)
    (PendingClarification s) (ClarificationHistory s).
(** The last step, when its outcome is known. *)
Definition set_last (step : RuntimeStep) (s : RuntimeState) : RuntimeState :=
  mkState (removelast (Steps s) ++ [step]) (ClarificationRounds s) (QueryExecuteStarted s) (Terminal s)
    (PendingClarification s) (ClarificationHistory s).

(** * The loop *)

Definition ErrRunAlreadyTerminal : goerr := EMsg "agent run already reached a terminal state".
Definition queryExecutionTools : list string :=
  [ToolQueryExecute; ToolWebRunQuestion; ToolWebRunLogicalQuery; ToolWebRunSkill].
Definition toolStartsQueryExecution (tool : string) : bool := str_in tool queryExecutionTools.

(** What a step leaves: the state, whether the loop stops, and the error. *)
Definition outcome : Type := RuntimeState * bool * option goerr.

Section Runtime.
Context `{AgentWorld} `{RunWorld} `{AgentJSON} (tools : gmap string Tool).

Definition save (detached : bool) (state : RuntimeState) : Traced aevent (option goerr) :=
  let! _ := emit (SaveTried state) in
  let! answer := ask (fun tr => svc_Save tr detached state) in
  match answer with
  | Some e => io_ret (Some e)
  | None => let! _ := emit (Saved state) in io_ret None
  end.

Definition finalize (detached : bool) (state : RuntimeState) (t : TerminalResult) : Traced aevent (RuntimeState * option goerr) :=
  let state := set_Terminal t state in
  let! saved := save detached state in
  io_ret (state, option_map (EWrap "save runtime state") saved).
Definition finalizeOK (state : RuntimeState) (final : FinalResponse) : Traced aevent (RuntimeState * option goerr) :=
  finalize false state (TerminalFinal final).
Definition finalizeFail (detached : bool) (state : RuntimeState) (reasonCode message : string)
    : Traced aevent (RuntimeState * option goerr) :=
  finalize detached state (TerminalFail (mkFailure reasonCode message)).
Definition abandonOrFail (state : RuntimeState) (reason : string) (cause : goerr) : Traced aevent (RuntimeState * option goerr) :=
  if negb (QueryExecuteStarted state) then io_ret (state, Some cause)
  else finalizeFail true state reason (Error cause).

(** [return final, true, err] *)
Definition stop (m : Traced aevent (RuntimeState * option goerr)) : Traced aevent outcome :=
  let! (state, err) := m in io_ret (state, true, err).

Definition runClarificationStep (run : RunContext) (state : RuntimeState) (clarification : Clarification) : Traced aevent outcome :=
  let state := set_Rounds (ClarificationRounds state + 1) state in
  if AgentPolicy.MaxClarificationRounds run <? ClarificationRounds state then
    stop (finalizeFail false (set_Pending None state) "max_clarification_rounds_exceeded"
            "exceeded the maximum number of clarification rounds")
  else
    let state := set_Pending (Some clarification) state in
    let! saved := save false state in
    io_ret (state, true, option_map (EWrap "save runtime state") saved).

Definition runToolStep (run : RunContext) (state : RuntimeState) (proposal : Proposal) : Traced aevent outcome :=
  if MaxSteps run <=? toolStepCount state then
    stop (finalizeFail false state "max_steps_exceeded" "exceeded the maximum number of planner steps")
  else
    let step := mkRuntimeStep (nextSeq state) proposal None "" "" 0 in
    let state := add_step step (toolStartsQueryExecution (p_Tool proposal)) state in
    let! saved := save false state in
    match saved with
    | Some e => io_ret (state, true, Some (EWrap "save runtime state before dispatch" e))
    | None =>
        let! _ := emit (Noted step) in
        let! dispatchStart := ask now in
        let! result := Registry_Execute tools run proposal in
        let! dispatchEnd := ask now in
        let elapsed := Z.quot (dispatchEnd - dispatchStart) 1000000 in
        match result with
        | inr (PolicyDenied _ reason) =>
            let step := mkRuntimeStep (Seq step) proposal None reason "" elapsed in
            let state := set_last step state in
            let! saved := save false state in
            match saved with
            | Some e => io_ret (state, true, Some (EWrap "save runtime state after denial" e))
            | None => let! _ := emit (Noted step) in io_ret (state, false, None)
            end
        | inr (ToolError e) =>
            let step := mkRuntimeStep (Seq step) proposal None "" (Error e) elapsed in
            let state := set_last step state in
            let! _ := emit (Noted step) in
            stop (finalizeFail false state "tool_error" (Error e))
        | inl obs =>
            let step := mkRuntimeStep (Seq step) proposal (Some obs) "" "" elapsed in
            let state := set_last step state in
            let! saved := save false state in
            match saved with
            | Some e => io_ret (state, true, Some (EWrap "save runtime state after dispatch" e))
            | None => let! _ := emit (Noted step) in io_ret (state, false, None)
            end
        end
    end.

Definition ask_planner (run : RunContext) (state : RuntimeState) : Traced aevent (res PlannerDecision) :=
  let! _ := emit (Asked (Steps state)) in ask (fun tr => svc_Decide tr run (Steps state)).

Definition step (run : RunContext) (deadline : option Z) (state : RuntimeState) : Traced aevent outcome :=
  let! ctx := ask ctx_Err in
  match ctx with
  | Some err => stop (abandonOrFail state "context_canceled" err)
  | None =>
      let! time := ask now in
      if match deadline with Some d => d <=? time | None => false end
      then stop (finalizeFail false state "timeout" "run exceeded its time budget")
      else
        let! first := ask_planner run state in
        let! decision := match first with Ok d => io_ret (Ok d) | Err _ => ask_planner run state end in
        match decision with
        | Err derr => stop (abandonOrFail state "planner_error" derr)
        | Ok (Clarify c) => runClarificationStep run state c
        | Ok (Finish f) => stop (finalizeOK state f)
        | Ok (FailWith f) => stop (finalize false state (TerminalFail f))
        | Ok (UseTool p) => runToolStep run state p
        end
  end.

(** The loop; [fuel] bounds its turns. *)
Fixpoint loop (fuel : nat) (run : RunContext) (deadline : option Z) (state : RuntimeState)
    : Traced aevent (RuntimeState * option goerr) :=
  match fuel with
  | 0%nat => io_ret (state, Some EFuel)
  | S fuel =>
      let! (next, done, err) := step run deadline state in
      match done, err with
      | false, None => loop fuel run deadline next
      | _, _ => io_ret (next, err)
      end
  end.

(** What a run goes on from. *)
Definition resumed (run : RunContext) (state : RuntimeState) : RuntimeState :=
  let state := set_Pending None state in
  match run_ClarificationHistory run with [] => state | h => set_History h state end.

(** Every turn that does not stop the loop adds a step, and [MaxSteps] bounds them. *)
Definition Run (run : RunContext) : Traced aevent (RuntimeState * option goerr) :=
  match svc_Load with
  | Err e => io_ret (zero_state, Some (EWrap "load runtime state" e))
  | Ok loaded =>
      let state := default zero_state loaded in
      match Terminal state with
      | Some _ => io_ret (state, Some ErrRunAlreadyTerminal)
      | None =>
          let! started := ask now in
          let deadline := if 0 <? Timeout run then Some (started + Timeout run) else None in
          loop (S (Z.to_nat (MaxSteps run))) run deadline (resumed run state)
      end
  end.
End Runtime.

(** * Runs of the chat *)

(** [webAgentAllowedTools] and [webAgentRetryBudget] of [internal/http/handlers/ai_agent_chat.go]. *)
Definition webAgentAllowedTools (role : string) : list string :=
  [ToolWebListDatasources; ToolWebListModels; ToolWebListPromptTemplates; ToolWebRunQuestion; ToolWebListSkills;
   ToolWebRunSkill; ToolWebListKnowledgeFiles; ToolWebReadKnowledgeFile] ++
  (if String.eqb role RoleAnalyst || String.eqb role RoleAdmin then [ToolWebRunLogicalQuery] else []).
Definition webAgentRetryBudget : gmap string Z :=
  list_to_map [(ToolWebListDatasources, 2); (ToolWebListModels, 2); (ToolWebListPromptTemplates, 2); (ToolWebRunQuestion, 3);
    (ToolWebRunLogicalQuery, 2); (ToolWebListSkills, 2); (ToolWebRunSkill, 2); (ToolWebListKnowledgeFiles, 2);
    (ToolWebReadKnowledgeFile, 3)].

(** * Jobs of the queue *)

(** The run of a job; the workspace is the tenant. *)
Definition job_run (deploymentMode : string) (job : Job) : RunContext :=
  mkRun (j_WorkspaceID job) (j_UserID job) (j_DatasourceID job) "" (j_Question job) [] []
    [ToolCatalog; ToolSemantic; ToolQueryCompile; ToolQueryExecute; ToolMemoryRecall] ∅ deploymentMode ∅ [] [] [] false
    (j_MaxRows job) (j_TimeoutSeconds job * 1000000000) (j_MaxSteps job) (j_MaxClarificationRounds job).

(** [metadata.AgentRunInsert]: the row of a new run. *)
Record AgentRunInsert : Type := mkRunInsert {
  ri_ConversationID : string; ri_DatasourceID : string; ri_ModelID : string; ri_UserID : string; ri_Question : string;
  ri_QuestionHash : string; ri_Mode : string;
}.

(** The queue and the table of runs: the decoding of a payload, the run of a job, a new
    run, and the store of a run, by its identifier.  [sha256_hex] is the digest in hex. *)
Class JobWorld : Type := {
  decode_job : string -> res Job;
  sha256_hex : string -> string;
  GetAgentRunByJobID : list aevent -> string -> res (option string);
  CreateAgentRunForJob : list aevent -> string -> AgentRunInsert -> res string;
  run_world : string -> RunWorld;
}.

Definition QuestionHash `{JobWorld} (question : string) : string := sha256_hex (TrimSpace (ToLower question)).
Definition new_run `{JobWorld} (job : Job) : AgentRunInsert :=
  mkRunInsert (j_ConversationID job) (j_DatasourceID job) (j_ModelID job) (j_UserID job) (j_Question job)
    (QuestionHash (j_Question job)) (j_Mode job).

(** The message of the queue.  A job that has a run already, because its message was
    delivered again, goes on with that run.  The count of redeliveries and the table of
    the runs that can be cancelled are left out. *)
Definition processJob `{AgentWorld} `{JobWorld} `{AgentJSON} `{ToolsJSON} (maxLimit : Z) (deploymentMode : string) (payload : string)
    : Traced aevent (option goerr) :=
  match decode_job payload with
  | Err e => io_ret (Some (EMsg ("decode agent job: " +:+ Error e)))
  | Ok job =>
      match ValidateJob job with
      | Err e => io_ret (Some e)
      | Ok _ =>
          let! found := ask (fun tr => GetAgentRunByJobID tr (j_JobID job)) in
          let! run :=
            match found with
            | Err e => io_ret (Err e)
            | Ok (Some id) => io_ret (Ok id)
            | Ok None => ask (fun tr => CreateAgentRunForJob tr (j_JobID job) (new_run job))
            end in
          match run with
          | Err e => io_ret (Some e)
          | Ok id =>
              let! (_, err) := Run (H0 := run_world id) (ServiceTools maxLimit) (job_run deploymentMode job) in
              io_ret err
          end
      end
  end.
