(* ===== verification/AgentSafety.v ===== *)
(** The guarantees of the agent.

    First the protocol of a run, and that the loop of [AgentRuntime] follows it: the protocol
    says what may be saved when, and what must be saved before a tool is called; the tools
    are described by the calls they may make.  Then what follows: what is saved before a tool
    is called, how the durable state of a run grows, how a run ends, and what it may ask of
    the services. *)

From S2P Require Import Prelude GoStrings Pii AgentPolicy AgentContracts AgentState AgentTools AgentRuntime.
From stdpp Require Import options.

#[local] Open Scope Z_scope.

(** * The calls of the tools *)

Section Calls.
Context `{AgentWorld} `{AgentJSON} `{ToolsJSON}.

(** The calls to the services: on the run's data source, with what the arguments say. *)
Definition service_call (run : RunContext) (tool args : string) (c : upstream) : Prop :=
  match c with
  | ResolveEntities ds _ => tool = ToolCatalog /\ ds = run_DatasourceID run
  | GeneratePlan ds _ _ => tool = ToolSemantic /\ ds = run_DatasourceID run
  | Recall ds _ _ _ => tool = ToolMemoryRecall /\ ds = run_DatasourceID run
  | Compile ds lq =>
      (tool = ToolQueryCompile \/ tool = ToolQueryExecute) /\ ds = run_DatasourceID run /\
      exists q, strictDecode_query args = Ok q /\ lq = qa_LogicalQuery q
  | ExecuteQuery ds lq rows secs =>
      tool = ToolQueryExecute /\ ds = run_DatasourceID run /\
      exists q, strictDecode_query args = Ok q /\ lq = qa_LogicalQuery q /\ rows = RowLimit q /\ secs = TimeoutSeconds q
  | Dispatch _ => False
  end.

(** The calls of the web tools: to the endpoint of the tool, with the caller's credential. *)
Definition web_call (cred : Credential) (tool : string) (c : upstream) : Prop :=
  exists lb method path rest, c = Dispatch lb /\ (tool, (method, path)) ∈ AllTools /\ lb_Method lb = method /\
    lb_Path lb = path +:+ rest /\ (rest = "" \/ head_is (fun c => has_byte c "?/") rest = true) /\
    lb_Credential lb = cred /\ lb_Channel lb = ChannelAgent.

Definition calls (P : upstream -> Prop) (e : aevent) : Prop := exists c, e = Called c /\ P c.

Lemma emits_retry {A} (request : upstream) (f : list aevent -> answer A) (P : upstream -> Prop) : P request ->
  emits (callWithSingleRetry (call request f)) (fun _ evs => Forall (calls P) evs).
Proof using.
  intros HP. assert (emits (call request f) (fun _ evs => Forall (calls P) evs)) as Hc.
  { eapply emits_bind; [apply emits_emit with (Q := fun _ evs => Forall (calls P) evs)|].
    - constructor; [by exists request|done].
    - intros [] e1 He. apply emits_ask. intros a. by rewrite List.app_nil_r. }
  eapply emits_bind; [exact Hc|]. intros [a|t e] e1 He; [apply emits_ret; by rewrite List.app_nil_r|].
  eapply emits_bind; [by apply emits_ask with (Q := fun _ evs => evs = [])|]. intros ctx e2 ->.
  destruct (match ctx with Some _ => true | None => _ end); [apply emits_ret; by rewrite !List.app_nil_r|].
  eapply emits_bind; [exact Hc|]. intros again e3 He3. apply emits_ret. rewrite List.app_nil_r. cbn [app]. by apply Forall_app.
Qed.

Lemma emits_call {A} (request : upstream) (f : list aevent -> answer A) (P : upstream -> Prop) : P request ->
  emits (call request f) (fun _ evs => Forall (calls P) evs).
Proof using.
  intros HP. eapply emits_bind; [apply emits_emit with (Q := fun _ evs => Forall (calls P) evs)|].
  - constructor; [by exists request|done].
  - intros [] e1 He. apply emits_ask. intros a. by rewrite List.app_nil_r.
Qed.

(** The end of every tool. *)
Lemma emits_last_call {A B} (request : upstream) (f : list aevent -> answer A) (g : res A -> B) (P : upstream -> Prop) : P request ->
  emits (let! r := callWithSingleRetry (call request f) in io_ret (g r)) (fun _ evs => Forall (calls P) evs).
Proof using.
  intros HP. eapply emits_bind; [by apply emits_retry|]. intros r e1 He. apply emits_ret. by rewrite List.app_nil_r.
Qed.

Lemma ServiceTools_calls maxLimit name tool run args : ServiceTools maxLimit !! name = Some tool ->
  emits (tool run args) (fun _ evs => Forall (calls (service_call run name args)) evs).
Proof using.
  unfold ServiceTools. cbn [list_to_map foldr fst snd uncurry].
  rewrite !lookup_insert_Some, lookup_empty.
  intros [[<- <-]|[_ [[<- <-]|[_ [[<- <-]|[_ [[<- <-]|[_ [[<- <-]|[_ ?]]]]]]]]]]; [..|done].
  - unfold CatalogTool. destruct (strictDecode_catalog args) as [a|e]; [|by apply emits_ret].
    by apply emits_last_call.
  - unfold SemanticTool. destruct (strictDecode_semantic args) as [a|e]; [|by apply emits_ret].
    destruct (str_empty _); [by apply emits_ret|].
    by apply emits_last_call.
  - unfold QueryCompileTool. destruct (strictDecode_query args) as [q|e] eqn:Eq; [|by apply emits_ret].
    destruct (str_empty _); [by apply emits_ret|].
    apply emits_last_call. cbn. split; [by left|]. split; [done|]. by exists q.
  - unfold QueryExecuteTool. destruct (strictDecode_query args) as [q|e] eqn:Eq; [|by apply emits_ret].
    destruct (_ || _); [by apply emits_ret|].
    eapply emits_bind; [apply (emits_call _ _ (service_call run ToolQueryExecute args))|].
    + cbn. split; [by right|]. split; [done|]. by exists q.
    + intros [c|t e] e1 He; [|apply emits_ret; by rewrite List.app_nil_r].
      destruct (negb _); [apply emits_ret; by rewrite List.app_nil_r|].
      eapply emits_impl; [apply emits_last_call with (P := service_call run ToolQueryExecute args)|].
      * cbn. split; [done|]. split; [done|]. by exists q.
      * intros ? ? ?. by apply Forall_app.
  - unfold MemoryTool. destruct (strictDecode_memory args) as [a|e]; [|by apply emits_ret].
    destruct (str_empty _); [by apply emits_ret|].
    by apply emits_last_call.
Qed.
End Calls.

Lemma request_endpoint `{ToolsJSON} tool run raw method path body : tool ∈ webAgentTools ->
  web_request tool run raw = Ok (method, path, body) ->
  exists p rest, (tool, (method, p)) ∈ AllTools /\ path = p +:+ rest /\ (rest = "" \/ head_is (fun c => has_byte c "?/") rest = true).
Proof.
  assert (forall A (m : res A) f x, (let? y := m in f y) = Ok x -> exists y, f y = Ok (A := string * string * option (list (string * json))) x) as Hb.
  { intros A [a|e] f x; cbn; [by exists a|done]. }
  assert (forall t m p rest, (t, (m, p)) ∈ AllTools -> (rest = "" \/ head_is (fun c => has_byte c "?/") rest = true) ->
    exists p' rest', (t, (m, p')) ∈ AllTools /\ p +:+ rest = p' +:+ rest' /\
      (rest' = "" \/ head_is (fun c => has_byte c "?/") rest' = true)) as Hp by (intros t m p rest ? ?; by exists p, rest).
  assert (forall s, s +:+ "" = s) as Hnil by apply app_nil_r.
  intros Ht Hr.
  repeat (apply elem_of_cons in Ht as [->|Ht]); [..|by apply not_elem_of_nil in Ht]; unfold web_request in Hr; cbv zeta in Hr;
    repeat (rewrite String.eqb_refl in Hr || rewrite (proj2 (String.eqb_neq _ _)) in Hr by done);
    try (apply Hb in Hr as [y Hr]; try destruct y as [y1 y2]); injection Hr as <- <- _.
  - rewrite <- (Hnil "/api/datasources"). apply Hp; [by repeat constructor|by left].
  - apply Hp; [by repeat constructor|by right].
  - apply Hp; [by repeat constructor|]. destruct (str_empty _); [by left|by right].
  - rewrite <- (Hnil "/api/ai/query/run"). apply Hp; [by repeat constructor|by left].
  - rewrite <- (Hnil "/api/query/run"). apply Hp; [by repeat constructor|by left].
  - apply Hp; [by repeat constructor|]. destruct (str_empty _); [by left|by right].
  - apply (Hp _ _ "/api/ai/skills" ("/" +:+ _ +:+ "/run")); [by repeat constructor|by right].
  - rewrite <- (Hnil "/api/query/compile"). apply Hp; [by repeat constructor|by left].
  - rewrite <- (Hnil "/api/query/dry-run"). apply Hp; [by repeat constructor|by left].
  - rewrite <- (Hnil "/api/query/metric"). apply Hp; [by repeat constructor|by left].
  - apply Hp; [by repeat constructor|by right].
  - apply Hp; [by repeat constructor|by right].
Qed.

Lemma WebTools_calls `{AgentWorld} `{ToolsJSON} cred name tool run args : WebTools cred !! name = Some tool ->
  emits (tool run args) (fun _ evs => Forall (calls (web_call cred name)) evs).
Proof.
  intros Hl. apply elem_of_list_to_map_2 in Hl. apply list_elem_of_fmap in Hl as (t & [= -> ->] & Ht).
  unfold webTool. destruct (web_request t run args) as [[[method path] body]|e] eqn:Er; [|by apply emits_ret].
  destruct (request_endpoint _ _ _ _ _ _ Ht Er) as (p & rest & Hin & Hpath & Hrest).
  eapply emits_bind; [apply emits_emit with (Q := fun _ evs => Forall (calls (web_call cred t)) evs)|].
  - constructor; [|done]. eexists. split; [done|]. by eexists _, method, p, rest.
  - intros [] e1 He. eapply emits_bind; [by apply emits_ask with (Q := fun _ evs => evs = [])|]. intros a e2 ->.
    apply emits_ret. by rewrite !List.app_nil_r.
Qed.

(** * The protocol *)

(** Where a run is.  The state is the one in memory; [Saving s next] waits for [s] to be
    saved; [Ready], [Armed] and [Using] carry the step in flight. *)
Inductive mode : Type :=
| Plan (s : RuntimeState)
| Saving (s : RuntimeState) (next : mode)
| Ready (s : RuntimeState) (st : RuntimeStep)
| Armed (s : RuntimeState) (st : RuntimeStep)
| Using (s : RuntimeState) (st : RuntimeStep) (args : string)
| Told (s : RuntimeState) (st : RuntimeStep)
| Failing (s : RuntimeState)
| Over (s : RuntimeState).

(** The step of a proposal, before it is dispatched. *)
Definition proposed (s : RuntimeState) (p : Proposal) : RuntimeStep := mkRuntimeStep (nextSeq s) p None "" "" 0.
(** A later version of a step: with what came of it. *)
Definition came_of (st st' : RuntimeStep) : Prop := Seq st' = Seq st /\ st_Proposal st' = st_Proposal st.

Section Protocol.
Context `{AgentJSON} (run : RunContext) (tool_calls : string -> string -> upstream -> Prop).

Inductive proto : mode -> aevent -> mode -> Prop :=
| P_ask s : proto (Plan s) (Asked (Steps s)) (Plan s)
| P_clarify s c s' : ClarificationRounds s + 1 <= AgentPolicy.MaxClarificationRounds run ->
    s' = set_Pending (Some c) (set_Rounds (ClarificationRounds s + 1) s) ->
    proto (Plan s) (SaveTried s') (Saving s' (Over s'))
| P_rounds s t s' : AgentPolicy.MaxClarificationRounds run < ClarificationRounds s + 1 ->
    s' = set_Terminal t (set_Pending None (set_Rounds (ClarificationRounds s + 1) s)) ->
    proto (Plan s) (SaveTried s') (Saving s' (Over s'))
| P_end s t s' : s' = set_Terminal t s -> proto (Plan s) (SaveTried s') (Saving s' (Over s'))
| P_propose s p s' : toolStepCount s < MaxSteps run ->
    s' = add_step (proposed s p) (toolStartsQueryExecution (p_Tool p)) s ->
    proto (Plan s) (SaveTried s') (Saving s' (Ready s' (proposed s p)))
| P_saved s next : match next with Ready s' _ | Told s' _ | Over s' => s' = s | _ => False end ->
    proto (Saving s next) (Saved s) next
| P_announce s st : proto (Ready s st) (Noted st) (Armed s st)
| P_use s st args : permitted None run (st_Proposal st) args ->
    proto (Armed s st) (ToolCalled (p_Tool (st_Proposal st)) args) (Using s st args)
| P_call s st args c : tool_calls (p_Tool (st_Proposal st)) args c -> proto (Using s st args) (Called c) (Using s st args)
| P_denied s st st' s' : came_of st st' -> st_Observation st' = None -> DeniedReason st' ∈ denyReasons -> s' = set_last st' s ->
    proto (Armed s st) (SaveTried s') (Saving s' (Told s' st'))
| P_observed s st args st' s' : came_of st st' -> st_Observation st' <> None -> s' = set_last st' s ->
    proto (Using s st args) (SaveTried s') (Saving s' (Told s' st'))
| P_told s st : proto (Told s st) (Noted st) (Plan s)
| P_unregistered s st st' : came_of st st' -> proto (Armed s st) (Noted st') (Failing (set_last st' s))
| P_failed s st args st' : came_of st st' -> proto (Using s st args) (Noted st') (Failing (set_last st' s))
| P_fail s t s' : s' = set_Terminal t s -> proto (Failing s) (SaveTried s') (Saving s' (Over s')).

Inductive path : mode -> list aevent -> mode -> Prop :=
| path_nil m : path m [] m
| path_cons m e m' evs m'' : proto m e m' -> path m' evs m'' -> path m (e :: evs) m''.

Lemma path_app m evs m' evs' m'' : path m evs m' -> path m' evs' m'' -> path m (evs ++ evs') m''.
Proof using. induction 1; [done|]. intros Hp. econstructor; eauto. Qed.
Lemma path_app_inv m evs evs' m'' : path m (evs ++ evs') m'' -> exists m', path m evs m' /\ path m' evs' m''.
Proof using.
  revert m. induction evs as [|e evs IH]; intros m Hp; [by exists m; split; [by constructor|]|].
  inversion Hp as [|? ? m1 ? ? H1 H2]; subst. destruct (IH _ H2) as (m' & Ha & Hb). exists m'. split; [by econstructor|done].
Qed.
Lemma path_calls s st args evs : Forall (calls (tool_calls (p_Tool (st_Proposal st)) args)) evs ->
  path (Using s st args) evs (Using s st args).
Proof using. induction 1 as [|e evs (c & -> & Hc) _ IH]; [by constructor|]. econstructor; [by constructor|done]. Qed.
End Protocol.

(** * The loop follows the protocol *)

Section Follows.
Context `{AgentWorld} `{RunWorld} `{AgentJSON} (tools : gmap string Tool) (run : RunContext).
Context (tool_calls : string -> string -> upstream -> Prop).
Context (Htools : forall name tool args, tools !! name = Some tool ->
  emits (tool run args) (fun _ evs => Forall (calls (tool_calls name args)) evs)).
Local Abbreviation path := (path run tool_calls).

Lemma save_emits d s : emits (save d s) (fun r evs =>
  r = None /\ evs = [SaveTried s; Saved s] \/ (exists e, r = Some e) /\ evs = [SaveTried s]).
Proof using.
  eapply emits_bind; [by apply emits_emit with (Q := fun _ evs => evs = [SaveTried s])|]. intros [] e1 ->.
  eapply emits_bind; [by apply emits_ask with (Q := fun _ evs => evs = [])|]. intros [e|] e2 ->.
  - apply emits_ret. right. split; [by exists e|done].
  - eapply emits_bind; [by apply emits_emit with (Q := fun _ evs => evs = [Saved s])|]. intros [] e3 ->. apply emits_ret. by left.
Qed.

(** An error of the run: it could not be saved, or it was given up before any query. *)
Inductive run_error (s : RuntimeState) (e : goerr) : mode -> Prop :=
| Unsaved next : (exists ctx e', e = EWrap ctx e') -> run_error s e (Saving s next)
| Abandoned : QueryExecuteStarted s = false ->
    (exists tr, ctx_Err tr = Some e) \/ (exists tr history, svc_Decide tr run history = Err e) -> run_error s e (Plan s).

(** Where a part of a run that began at [m] and stops ends. *)
Definition ends (m : mode) (r : RuntimeState * option goerr) (evs : list aevent) : Prop :=
  exists m', path m evs m' /\ match r with (s, None) => m' = Over s | (s, Some e) => run_error s e m' end.

Lemma saved_emits d m s : proto run tool_calls m (SaveTried s) (Saving s (Over s)) ->
  emits (let! saved := save d s in io_ret (s, option_map (EWrap "save runtime state") saved)) (ends m).
Proof using.
  intros Hp. eapply emits_bind; [apply save_emits|]. intros r e1 [[-> ->]|[[e ->] ->]]; apply emits_ret; rewrite List.app_nil_r.
  - exists (Over s). split; [|done]. econstructor; [exact Hp|]. econstructor; [by constructor|constructor].
  - exists (Saving s (Over s)). split; [|constructor; by eexists _, e]. econstructor; [exact Hp|constructor].
Qed.
Lemma finalize_emits d m s t : proto run tool_calls m (SaveTried (set_Terminal t s)) (Saving (set_Terminal t s) (Over (set_Terminal t s))) ->
  emits (finalize d s t) (ends m).
Proof using. intros Hp. unfold finalize. cbv zeta. by apply saved_emits. Qed.
Lemma abandonOrFail_emits s reason e :
  (exists tr, ctx_Err tr = Some e) \/ (exists tr history, svc_Decide tr run history = Err e) ->
  emits (abandonOrFail s reason e) (ends (Plan s)).
Proof using.
  intros He. unfold abandonOrFail. destruct (QueryExecuteStarted s) eqn:Eq; cbn [negb].
  - apply finalize_emits. by eapply P_end.
  - apply emits_ret. exists (Plan s). split; [by constructor|by constructor].
Qed.

(** Where a step of the loop ends. *)
Definition steps (s : RuntimeState) (r : outcome) (evs : list aevent) : Prop :=
  match r with
  | (s', false, None) => path (Plan s) evs (Plan s') /\ length (Steps s') = S (length (Steps s)) /\ toolStepCount s < MaxSteps run
  | (s', _, err) => ends (Plan s) (s', err) evs
  end.
Lemma stop_emits s m : emits m (ends (Plan s)) -> emits (stop m) (steps s).
Proof using.
  intros Hm. eapply emits_bind; [exact Hm|]. intros [s' err] e1 He. apply emits_ret. by rewrite List.app_nil_r.
Qed.

Lemma clarification_emits s c : emits (runClarificationStep run s c) (steps s).
Proof using.
  unfold runClarificationStep. cbv zeta. cbn [ClarificationRounds set_Rounds].
  destruct (Z.ltb_spec (AgentPolicy.MaxClarificationRounds run) (ClarificationRounds s + 1)).
  - apply stop_emits, finalize_emits. by eapply P_rounds.
  - eapply emits_bind; [apply save_emits|].
    assert (forall next, proto run tool_calls (Plan s) (SaveTried (set_Pending (Some c) (set_Rounds (ClarificationRounds s + 1) s))) next ->
      path (Plan s) [SaveTried (set_Pending (Some c) (set_Rounds (ClarificationRounds s + 1) s))] next) as Hone.
    { intros next Hn. econstructor; [exact Hn|constructor]. }
    intros r e1 [[-> ->]|[[e ->] ->]]; apply emits_ret; rewrite List.app_nil_r; cbn [option_map steps].
    + eexists. split; [|reflexivity]. econstructor; [by eapply P_clarify|]. econstructor; [by constructor|constructor].
    + eexists. split; [by apply Hone; eapply P_clarify|]. constructor. by eexists _, e.
Qed.

Lemma Registry_emits_at s st :
  emits (Registry_Execute tools run (st_Proposal st)) (fun r evs =>
    match r with
    | inr (PolicyDenied _ reason) => evs = [] /\ reason ∈ denyReasons
    | inr (ToolError _) => evs = [] \/ exists args, path (Armed s st) evs (Using s st args)
    | inl _ => exists args, path (Armed s st) evs (Using s st args)
    end).
Proof using Htools.
  unfold Registry_Execute. set (p := st_Proposal st).
  eapply emits_bind with (P := fun a evs => evs = []); [by apply emits_ask|]. intros ctx e1 ->. cbv zeta.
  pose proof (Evaluate_decides ctx run p) as [(args & Ha & Hp)|(reason & Hr & Hd)].
  - rewrite Ha. cbn [Allowed allow negb d_Arguments]. destruct (tools !! p_Tool p) as [tool|] eqn:Et; [|apply emits_ret; by left].
    eapply emits_bind; [by apply emits_emit with (Q := fun _ evs => evs = [ToolCalled (p_Tool p) args])|]. intros [] e1 ->.
    eapply emits_bind; [exact (Htools (p_Tool p) tool args Et)|]. intros r e1 He. apply emits_ret. rewrite List.app_nil_r. cbn [app].
    assert (path (Armed s st) (ToolCalled (p_Tool p) args :: e1) (Using s st args)) as Hpath.
    { econstructor; [by apply (P_use _ _ s st)|]. by apply path_calls. }
    destruct r; [by exists args|right; by exists args].
  - rewrite Hd. cbn [Allowed deny negb ReasonCode]. by apply emits_ret.
Qed.

Lemma removelast_add st b s : removelast (Steps (add_step st b s)) = Steps s.
Proof using. apply removelast_last. Qed.

(** The end of a step that went through: its outcome is saved, and told. *)
Lemma outcome_emits m m' e0 s s' st msg : path m e0 m' -> length (Steps s') = S (length (Steps s)) -> toolStepCount s < MaxSteps run ->
  proto run tool_calls m' (SaveTried s') (Saving s' (Told s' st)) -> m = Plan s ->
  emits (let! saved := save false s' in
         match saved with
         | Some e => io_ret (s', true, Some (EWrap msg e))
         | None => let! _ := emit (Noted st) in io_ret (s', false, None)
         end) (fun r evs => steps s r (e0 ++ evs)).
Proof using.
  intros Hp Hlen Hmax Hsave ->. eapply emits_bind; [apply save_emits|]. intros r e1 [[-> ->]|[[e ->] ->]].
  - eapply emits_bind; [by apply emits_emit with (Q := fun _ evs => evs = [Noted st])|]. intros [] e2 ->. apply emits_ret.
    cbn [steps]. split; [|done]. rewrite List.app_nil_r. eapply path_app; [exact Hp|]. cbn [app].
    econstructor; [exact Hsave|]. econstructor; [by constructor|]. econstructor; [by constructor|constructor].
  - apply emits_ret. cbn [steps]. rewrite List.app_nil_r. eexists. split; [|constructor; by eexists _, e].
    eapply path_app; [exact Hp|]. econstructor; [exact Hsave|constructor].
Qed.

Lemma tool_emits s p : emits (runToolStep tools run s p) (steps s).
Proof using Htools.
  unfold runToolStep. destruct (Z.leb_spec (MaxSteps run) (toolStepCount s)) as [|Hmax].
  { apply stop_emits, finalize_emits. by eapply P_end. }
  cbv zeta. fold (proposed s p). set (s1 := add_step (proposed s p) _ s). eapply emits_bind; [apply save_emits|].
  assert (proto run tool_calls (Plan s) (SaveTried s1) (Saving s1 (Ready s1 (proposed s p)))) as Hp by by eapply P_propose.
  intros r e1 [[-> ->]|[[e ->] ->]].
  2: { apply emits_ret. cbn [steps]. rewrite List.app_nil_r. eexists. split; [|constructor; by eexists _, e]. econstructor; [exact Hp|constructor]. }
  eapply emits_bind; [by apply emits_emit with (Q := fun _ evs => evs = [Noted (proposed s p)])|]. intros [] e2 ->. cbn [app].
  eapply emits_bind with (P := fun a evs => evs = []); [by apply emits_ask|]. intros t1 e2 ->.
  assert (path (Plan s) [SaveTried s1; Saved s1; Noted (proposed s p)] (Armed s1 (proposed s p))) as Hready.
  { econstructor; [exact Hp|]. econstructor; [by constructor|]. econstructor; [by constructor|constructor]. }
  assert (forall st', length (Steps (set_last st' s1)) = S (length (Steps s))) as Hlen.
  { intros st'. cbn [set_last Steps s1]. unfold s1. rewrite removelast_add, List.length_app. cbn. lia. }
  eapply emits_bind; [apply (Registry_emits_at s1 (proposed s p))|]. intros result e2 Hres. cbn [app].
  eapply emits_bind with (P := fun a evs => evs = []); [by apply emits_ask|]. intros t2 e3 ->.
  destruct result as [obs|[tool reason|err]].
  - destruct Hres as (args & Hres).
    eapply emits_impl; [eapply (outcome_emits (Plan s) _ ([SaveTried s1; Saved s1; Noted (proposed s p)] ++ e2));
      [by eapply path_app|apply Hlen|done| |done]|].
    + eapply P_observed; [..|done]; done.
    + intros r evs Hs. exact Hs.
  - destruct Hres as [-> Hreason].
    eapply emits_impl; [eapply (outcome_emits (Plan s) _ [SaveTried s1; Saved s1; Noted (proposed s p)]);
      [exact Hready|apply Hlen|done| |done]|].
    + eapply P_denied; [..|done]; done.
    + intros r evs Hs. exact Hs.
  - eapply emits_bind; [by eapply emits_emit with (Q := fun _ evs => evs = [_])|]. intros [] e3 ->.
    set (st' := mkRuntimeStep _ _ _ _ _ _). eapply emits_bind; [apply (finalize_emits false (Failing (set_last st' s1)))|].
    { by eapply P_fail. }
    intros [s2 er] e4 (m' & Hpath & Hm'). apply emits_ret. rewrite !List.app_nil_r.
    assert (path (Plan s) (SaveTried s1 :: Saved s1 :: Noted (proposed s p) :: e2 ++ Noted st' :: e4) m') as Hall.
    { eapply (path_app _ _ (Plan s) [SaveTried s1; Saved s1; Noted (proposed s p)]); [exact Hready|].
      destruct Hres as [->|(args & Hres)].
      - econstructor; [by apply P_unregistered|exact Hpath].
      - eapply path_app; [exact Hres|]. econstructor; [by apply P_failed|exact Hpath]. }
    cbn [steps]. destruct er; exists m'; (split; [by rewrite <- ?List.app_assoc|exact Hm']).
Qed.

Lemma ask_planner_emits s : emits (ask_planner run s) (fun r evs =>
  path (Plan s) evs (Plan s) /\ match r with Err e => exists tr, svc_Decide tr run (Steps s) = Err e | Ok _ => True end).
Proof using.
  eapply emits_bind; [by apply emits_emit with (Q := fun _ evs => evs = [Asked (Steps s)])|]. intros [] e1 ->.
  apply emits_ask. intros tr. split; [econstructor; [by constructor|constructor]|].
  destruct (svc_Decide tr run (Steps s)) eqn:E; [done|by exists tr].
Qed.

Lemma steps_after s evs r evs' : path (Plan s) evs (Plan s) -> steps s r evs' -> steps s r (evs ++ evs').
Proof using.
  destruct r as [[s' [|]] [e|]]; cbn [steps]; intros Hp Hs;
    try (destruct Hs as (m' & Hpath & Hm'); exists m'; split; [by eapply path_app|done]).
  destruct Hs as (Hpath & ? & ?). split; [by eapply path_app|done].
Qed.

Lemma step_emits deadline s : emits (step tools run deadline s) (steps s).
Proof using Htools.
  unfold step. eapply emits_bind with (P := fun ctx evs => evs = [] /\ match ctx with Some e => exists tr, ctx_Err tr = Some e | None => True end).
  { apply emits_ask. intros tr. split; [done|]. destruct (ctx_Err tr) eqn:E; [by exists tr|done]. }
  intros [e|] e1 [-> Hctx]; cbn [app]; [by apply stop_emits, abandonOrFail_emits; left|].
  eapply emits_bind with (P := fun a evs => evs = []); [by apply emits_ask|]. intros time e1 ->. cbn [app].
  destruct (match deadline with Some d => d <=? time | None => false end); [apply stop_emits, finalize_emits; by eapply P_end|].
  eapply emits_bind; [apply ask_planner_emits|]. intros first e1 [Hp1 Hd1].
  eapply emits_bind with (P := fun r evs => path (Plan s) evs (Plan s) /\
    match r with Err e => exists tr, svc_Decide tr run (Steps s) = Err e | Ok _ => True end).
  { destruct first; [apply emits_ret; split; [by constructor|done]|apply ask_planner_emits]. }
  intros decision e2 [Hp2 Hd2].
  apply emits_impl with (P := fun r evs => steps s r evs).
  - destruct decision as [[p|c|f|f]|e].
    + apply tool_emits.
    + apply clarification_emits.
    + apply stop_emits, finalize_emits. by eapply P_end.
    + apply stop_emits, finalize_emits. by eapply P_end.
    + apply stop_emits, abandonOrFail_emits. right. destruct Hd2 as [tr Hd2]. by exists tr, (Steps s).
  - intros r evs Hs. by apply steps_after, steps_after.
Qed.

(** A run that goes on has steps left to take, so the turns the loop is given are enough. *)
Lemma loop_emits fuel deadline s : (Z.to_nat (MaxSteps run - toolStepCount s) < fuel)%nat ->
  emits (loop tools fuel run deadline s) (ends (Plan s)).
Proof using Htools.
  revert s. induction fuel as [|fuel IH]; intros s Hf; [lia|]. cbn [loop].
  eapply emits_bind; [apply step_emits|]. intros [[s' done] err] e1 Hs.
  assert (match done, err with false, None => True | _, _ => ends (Plan s) (s', err) e1 end) as Hends by by destruct done, err.
  destruct done, err; try (apply emits_ret; by rewrite List.app_nil_r).
  destruct Hs as (Hp & Hlen & Hmax). eapply emits_impl; [apply IH; unfold toolStepCount in *; rewrite Hlen; lia|].
  intros r e2 (m' & Hp2 & Hm'). exists m'. split; [by eapply path_app|done].
Qed.

(** A whole run: it does not start, or follows the protocol from the state it goes on
    from. *)
Definition follows (r : RuntimeState * option goerr) (evs : list aevent) : Prop :=
  match svc_Load with
  | Err e => r = (zero_state, Some (EWrap "load runtime state" e)) /\ evs = []
  | Ok loaded =>
      let s := default zero_state loaded in
      match Terminal s with
      | Some _ => r = (s, Some ErrRunAlreadyTerminal) /\ evs = []
      | None => ends (Plan (resumed run s)) r evs
      end
  end.
Lemma Run_emits : emits (Run tools run) follows.
Proof using Htools.
  unfold Run, follows. destruct svc_Load as [loaded|e]; [|by apply emits_ret]. cbv zeta.
  destruct (Terminal (default zero_state loaded)); [by apply emits_ret|].
  eapply emits_bind with (P := fun a evs => evs = []); [by apply emits_ask|]. intros t e1 ->. cbn [app].
  apply loop_emits. unfold toolStepCount. lia.
Qed.
End Follows.

#[local] Open Scope Z_scope.

(** * Invariants of the protocol *)

(** [s'] is a later state of a run that was in [s]: steps are only added, numbered in
    order, and what was counted or started stays so. *)
Record grown (s s' : RuntimeState) : Prop := {
  g_steps : exists more, Steps s' = Steps s ++ more /\
            forall i st, more !! i = Some st -> Seq st = Z.of_nat (length (Steps s) + i) + 1;
  g_rounds : ClarificationRounds s <= ClarificationRounds s';
  g_started : QueryExecuteStarted s = true -> QueryExecuteStarted s' = true;
  g_history : ClarificationHistory s' = ClarificationHistory s;
}.

(** The state of a mode. *)
Definition state_of (m : mode) : RuntimeState :=
  match m with
  | Plan s | Saving s _ | Ready s _ | Armed s _ | Using s _ _ | Told s _ | Failing s | Over s => s
  end.

(** The tools that mark a run as one that started a query. *)
Definition marking_tools : list string := ["query.execute"; "run_question"; "run_logical_query"; "run_skill"].

(** The step in flight is the last, and was saved as it is; a query it runs is marked. *)
Definition in_flight (s : RuntimeState) (st : RuntimeStep) : Prop :=
  (exists before, Steps s = before ++ [st] /\ Seq st = Z.of_nat (length before) + 1) /\ st_Observation st = None /\
  (p_Tool (st_Proposal st) ∈ marking_tools -> QueryExecuteStarted s = true).

Section Invariants.
Context `{AgentJSON} (run : RunContext) (tool_calls : string -> string -> upstream -> Prop) (s0 : RuntimeState).
Local Abbreviation proto := (proto run tool_calls).
Local Abbreviation path := (path run tool_calls).

Definition bounded_steps (s : RuntimeState) : Prop :=
  toolStepCount s0 <= toolStepCount s /\ toolStepCount s <= Z.max (toolStepCount s0) (MaxSteps run).

(** The invariant of a run that goes on from [s0]. *)
Fixpoint inv (m : mode) : Prop :=
  grown s0 (state_of m) /\ bounded_steps (state_of m) /\
  match m with
  | Plan s => Terminal s = None
  | Saving s next =>
      inv next /\ match next with Ready s' _ | Told s' _ | Over s' => s' = s | _ => False end
  | Ready s st | Armed s st | Using s st _ =>
      Terminal s = None /\ in_flight s st /\ toolStepCount s0 < toolStepCount s <= MaxSteps run
  | Told s st => Terminal s = None
  | Failing s => Terminal s = None
  | Over s => Terminal s <> None \/
              (exists c, PendingClarification s = Some c) /\ ClarificationRounds s <= AgentPolicy.MaxClarificationRounds run
  end.

Lemma grown_refl s : grown s s.
Proof using. constructor; try done. exists []. split; [by rewrite List.app_nil_r|done]. Qed.
Lemma grown_same s s' : grown s0 s -> Steps s' = Steps s -> ClarificationRounds s <= ClarificationRounds s' ->
  QueryExecuteStarted s' = QueryExecuteStarted s -> ClarificationHistory s' = ClarificationHistory s -> grown s0 s'.
Proof using.
  intros [(more & Hm & Hseq) Hr Hs Hh] H1 H2 H3 H4. constructor; [|lia|by rewrite H3|by rewrite H4].
  exists more. by rewrite H1.
Qed.
Lemma grown_add s p : grown s0 s -> bounded_steps s -> toolStepCount s < MaxSteps run ->
  let s' := add_step (proposed s p) (toolStartsQueryExecution (p_Tool p)) s in
  grown s0 s' /\ bounded_steps s' /\ in_flight s' (proposed s p) /\ toolStepCount s0 < toolStepCount s' <= MaxSteps run.
Proof using.
  intros [(more & Hm & Hseq) Hr Hs Hh] [Hb1 Hb2] Hmax s'.
  assert (toolStepCount s' = toolStepCount s + 1) as Hc.
  { unfold toolStepCount, s'. cbn. rewrite List.length_app. cbn. lia. }
  unfold bounded_steps. rewrite Hc. split_and!; try lia.
  - constructor; try done.
    + exists (more ++ [proposed s p]). cbn. split; [by rewrite Hm, List.app_assoc|]. intros i st Hi.
      apply lookup_app_Some in Hi as [Hi|[Hge Hi]]; [by apply Hseq|].
      destruct (i - length more)%nat as [|k] eqn:Ei; [|by destruct k]. injection Hi as <-. cbn. unfold nextSeq. rewrite Hm, List.length_app. lia.
    + cbn. intros Hq. by rewrite (Hs Hq).
  - split; [exists (Steps s); split; [done|done]|]. split; [done|]. intros Hq. cbn in Hq.
    assert (toolStartsQueryExecution (p_Tool p) = true) as Hst by by apply str_in_spec.
    unfold s'. cbn [add_step QueryExecuteStarted]. by rewrite Hst, orb_true_r.
Qed.
Lemma grown_last s st st' : grown s0 s -> bounded_steps s -> in_flight s st -> came_of st st' -> toolStepCount s0 < toolStepCount s ->
  grown s0 (set_last st' s) /\ bounded_steps (set_last st' s).
Proof using.
  intros [(more & Hm & Hseq) Hr Hs Hh] Hb ((before & Hbef & Hq) & _) [Hcs _] Hlt.
  assert (length (Steps (set_last st' s)) = length (Steps s)) as Hlen.
  { cbn. rewrite Hbef, removelast_last, !List.length_app. done. }
  split; [|unfold bounded_steps, toolStepCount in *; by rewrite Hlen].
  constructor; try done. cbn. rewrite Hbef, removelast_last.
  destruct (exists_last (l := more)) as (more' & last & Hmore).
  { intros ->. rewrite List.app_nil_r in Hm. unfold toolStepCount in Hlt. rewrite Hm in Hlt. lia. }
  subst more. rewrite List.app_assoc in Hm. rewrite Hbef in Hm. apply app_inj_tail in Hm as [-> <-].
  exists (more' ++ [st']). split; [by rewrite List.app_assoc|]. intros i x Hi.
  apply lookup_app_Some in Hi as [Hi|[Hge Hi]]; [apply Hseq; by apply lookup_app_l_Some|].
  destruct (i - length more')%nat as [|k] eqn:Ei; [|by destruct k]. injection Hi as <-. rewrite Hcs, Hq, List.length_app. lia.
Qed.

Lemma proto_inv m e m' : inv m -> proto m e m' -> inv m'.
Proof using.
  intros Hi Hp. destruct Hp as [s|s c s' Hr ->|s t s' Hr ->|s t s' ->|s p s' Hmax ->|s next Hn|s st|s st args Hperm|s st args c Hc|
    s st st' s' Hc Ho Hd ->|s st args st' s' Hc Ho ->|s st|s st st' Hc|s st args st' Hc|s t s' ->]; cbn [inv state_of] in Hi.
  - done.
  - destruct Hi as (Hg & Hb & Ht). cbn [inv state_of].
    assert (grown s0 (set_Pending (Some c) (set_Rounds (ClarificationRounds s + 1) s))) as Hg' by (eapply grown_same; [exact Hg|..]; cbn; [done|lia|done|done]).
    split; [done|]. split; [done|]. split; [|done]. split; [done|]. split; [done|]. right. split; [by exists c|done].
  - destruct Hi as (Hg & Hb & Ht). cbn [inv state_of].
    assert (grown s0 (set_Terminal t (set_Pending None (set_Rounds (ClarificationRounds s + 1) s)))) as Hg' by (eapply grown_same; [exact Hg|..]; cbn; [done|lia|done|done]).
    split; [done|]. split; [done|]. split; [|done]. split; [done|]. split; [done|]. by left.
  - destruct Hi as (Hg & Hb & Ht). cbn [inv state_of].
    assert (grown s0 (set_Terminal t s)) as Hg' by (eapply grown_same; [exact Hg|..]; cbn; [done|lia|done|done]).
    split; [done|]. split; [done|]. split; [|done]. split; [done|]. split; [done|]. by left.
  - destruct Hi as (Hg & Hb & Ht). cbn [inv state_of]. destruct (grown_add s p Hg Hb Hmax) as (Hg' & Hb' & Hf & Hc).
    split; [done|]. split; [done|]. split; [|done].
    split; [done|]. split; [done|]. split; [done|]. split; [done|]. done.
  - by destruct Hi as (_ & _ & Hi & _).
  - done.
  - done.
  - done.
  - destruct Hi as (Hg & Hb & Ht & Hf & Hc'). cbn [inv state_of]. destruct (grown_last s st st' Hg Hb Hf Hc) as [Hg' Hb']; [lia|].
    split; [done|]. split; [done|]. split; [|done]. by split.
  - destruct Hi as (Hg & Hb & Ht & Hf & Hc'). cbn [inv state_of]. destruct (grown_last s st st' Hg Hb Hf Hc) as [Hg' Hb']; [lia|].
    split; [done|]. split; [done|]. split; [|done]. by split.
  - done.
  - destruct Hi as (Hg & Hb & Ht & Hf & Hc'). cbn [inv state_of]. destruct (grown_last s st st' Hg Hb Hf Hc) as [Hg' Hb']; [lia|]. by split.
  - destruct Hi as (Hg & Hb & Ht & Hf & Hc'). cbn [inv state_of]. destruct (grown_last s st st' Hg Hb Hf Hc) as [Hg' Hb']; [lia|]. by split.
  - destruct Hi as (Hg & Hb & Ht). cbn [inv state_of].
    assert (grown s0 (set_Terminal t s)) as Hg' by (eapply grown_same; [exact Hg|..]; cbn; [done|lia|done|done]).
    split; [done|]. split; [done|]. split; [|done]. split; [done|]. split; [done|]. by left.
Qed.
Lemma path_inv m evs m' : inv m -> path m evs m' -> inv m'.
Proof using. intros Hi Hp. induction Hp; [done|]. eauto using proto_inv. Qed.

Lemma path_snoc m evs e m' : path m (evs ++ [e]) m' -> exists m1, path m evs m1 /\ proto m1 e m'.
Proof using.
  intros (m1 & H1 & H2)%path_app_inv. exists m1. split; [done|]. inversion H2 as [|? ? m2 ? ? Hp Hn]; subst. by inversion Hn; subst.
Qed.

(** What was saved and announced before a tool is used. *)
Lemma path_to_armed a evs s st : path (Plan a) evs (Armed s st) -> exists pre, evs = pre ++ [SaveTried s; Saved s; Noted st].
Proof using.
  intros Hp. destruct (exists_last (l := evs)) as (evs1 & e1 & ->); [by intros ->; inversion Hp|].
  apply path_snoc in Hp as (m1 & Hp & H1). inversion H1; subst; try done.
  destruct (exists_last (l := evs1)) as (evs2 & e2 & ->); [by intros ->; inversion Hp|].
  apply path_snoc in Hp as (m2 & Hp & H2). inversion H2; subst; try done.
  destruct (exists_last (l := evs2)) as (evs3 & e3 & ->); [by intros ->; inversion Hp|].
  apply path_snoc in Hp as (m3 & Hp & H3). exists evs3. rewrite <- !List.app_assoc. by inversion H3; subst.
Qed.

(** A state that is terminal is saved once, and nothing happens after. *)
Lemma path_over s evs m : path (Over s) evs m -> evs = [] /\ m = Over s.
Proof using. intros Hp. inversion Hp as [|? ? ? ? ? H1]; [done|]. inversion H1. Qed.
Lemma path_terminal m s evs m' : inv m -> path m (SaveTried s :: evs) m' -> Terminal s <> None ->
  evs = [] /\ m' = Saving s (Over s) \/ evs = [Saved s] /\ m' = Over s.
Proof using.
  intros Hi Hp Ht. inversion Hp as [|? ? m1 ? ? H1 H2]; subst. pose proof (proto_inv _ _ _ Hi H1) as Hi1.
  assert (m1 = Saving s (Over s)) as ->.
  { inversion H1; subst; cbn [inv state_of] in Hi1; try done.
    - destruct Hi1 as (_ & _ & (_ & _ & Hn & _) & _). by rewrite Hn in Ht.
    - destruct Hi1 as (_ & _ & (_ & _ & Hn) & _). by rewrite Hn in Ht.
    - destruct Hi1 as (_ & _ & (_ & _ & Hn) & _). by rewrite Hn in Ht. }
  inversion H2 as [|? ? m2 ? ? H3 H4]; subst; [by left|]. inversion H3; subst. apply path_over in H4 as [-> ->]. by right.
Qed.

(** The calls of tools count steps of the state. *)
Definition is_tool_call (e : aevent) : bool := match e with ToolCalled _ _ => true | _ => false end.
Definition tool_calls_of (evs : list aevent) : nat := length (List.filter is_tool_call evs).
(** The steps of a mode that may have called their tool. *)
Definition used (m : mode) : Z :=
  toolStepCount (state_of m) - (match m with Saving _ (Ready _ _) | Ready _ _ | Armed _ _ => 1 | _ => 0 end).
Lemma used_step m e m' : inv m -> proto m e m' -> used m + (if is_tool_call e then 1 else 0) <= used m'.
Proof using.
  intros Hi Hp. pose proof (proto_inv _ _ _ Hi Hp) as Hi'. destruct Hp; cbn [is_tool_call]; unfold used; cbn [state_of]; subst; try lia.
  - unfold toolStepCount. cbn. lia.
  - unfold toolStepCount. cbn. lia.
  - unfold toolStepCount. cbn. lia.
  - unfold toolStepCount. cbn. rewrite List.length_app. cbn. lia.
  - destruct next; try done; subst; cbn [state_of]; lia.
  - unfold toolStepCount. cbn [inv state_of] in Hi. destruct Hi as (_ & _ & _ & ((before & Hb & _) & _) & _).
    cbn. rewrite Hb, removelast_last, !List.length_app. cbn. lia.
  - unfold toolStepCount. cbn [inv state_of] in Hi. destruct Hi as (_ & _ & _ & ((before & Hb & _) & _) & _).
    cbn. rewrite Hb, removelast_last, !List.length_app. cbn. lia.
  - unfold toolStepCount. cbn [inv state_of] in Hi. destruct Hi as (_ & _ & _ & ((before & Hb & _) & _) & _).
    cbn. rewrite Hb, removelast_last, !List.length_app. cbn. lia.
  - unfold toolStepCount. cbn [inv state_of] in Hi. destruct Hi as (_ & _ & _ & ((before & Hb & _) & _) & _).
    cbn. rewrite Hb, removelast_last, !List.length_app. cbn. lia.
  - unfold toolStepCount. cbn. lia.
Qed.
Lemma path_used m evs m' : inv m -> path m evs m' -> used m + Z.of_nat (tool_calls_of evs) <= used m'.
Proof using.
  intros Hi Hp. induction Hp as [m|m e m1 evs m2 H1 H2 IH]; [unfold tool_calls_of; cbn; lia|].
  specialize (IH (proto_inv _ _ _ Hi H1)). pose proof (used_step _ _ _ Hi H1). unfold tool_calls_of in *. cbn [List.filter].
  destruct (is_tool_call e); cbn [length]; lia.
Qed.

(** The mark stays, and a tool that marks a run leaves it. *)
Lemma proto_marked m e m' : proto m e m' -> QueryExecuteStarted (state_of m) = true -> QueryExecuteStarted (state_of m') = true.
Proof using.
  intros Hp Hq. destruct Hp; subst; try done.
  - cbn [state_of add_step QueryExecuteStarted] in *. by rewrite Hq.
  - destruct next; try done; by subst.
Qed.
Lemma path_marked m evs m' : path m evs m' -> QueryExecuteStarted (state_of m) = true -> QueryExecuteStarted (state_of m') = true.
Proof using. induction 1; [done|]. intros Hq. eauto using proto_marked. Qed.
Lemma path_called m evs m' tool args : inv m -> path m evs m' -> ToolCalled tool args ∈ evs -> tool ∈ marking_tools ->
  QueryExecuteStarted (state_of m') = true.
Proof using.
  intros Hi Hp Hc Ht. induction Hp as [m|m e m1 evs m2 Hst Hp IH]; [by apply not_elem_of_nil in Hc|].
  apply elem_of_cons in Hc as [<-|Hc]; [|by apply IH; [by eapply proto_inv|]].
  eapply path_marked; [exact Hp|]. inversion Hst; subst. cbn [inv state_of] in Hi. destruct Hi as (_ & _ & _ & (_ & _ & Hq) & _).
  by apply Hq.
Qed.
End Invariants.

(** * Runs *)

(** The two sets of tools a run is given. *)
Inductive registry : Type :=
| Service (maxLimit : Z)
| Web (cred : Credential).

Section Runs.
Context `{AgentWorld} `{RunWorld} `{AgentJSON} `{ToolsJSON}.

Definition tools_of (r : registry) : gmap string Tool :=
  match r with Service maxLimit => ServiceTools maxLimit | Web cred => WebTools cred end.
Definition calls_of (r : registry) (run : RunContext) (tool args : string) : upstream -> Prop :=
  match r with Service _ => service_call run tool args | Web cred => web_call cred tool end.

Lemma Run_follows r run : emits (Run (tools_of r) run) (follows run (calls_of r run)).
Proof using.
  apply Run_emits. intros name tool args Ht. destruct r; [by eapply ServiceTools_calls|by eapply WebTools_calls].
Qed.

(** What a run goes on from, when it does. *)
Definition starts (run : RunContext) (s0 : RuntimeState) : Prop :=
  exists loaded, svc_Load = Ok loaded /\ Terminal (default zero_state loaded) = None /\ s0 = resumed run (default zero_state loaded).

Lemma inv_start run tool_calls s0 : starts run s0 -> inv run s0 (Plan s0) /\ path run tool_calls (Plan s0) [] (Plan s0).
Proof using.
  intros (loaded & _ & Ht & ->). split; [|constructor]. cbn [inv state_of]. split; [apply grown_refl|]. split; [split; lia|].
  unfold resumed. cbv zeta. by destruct (run_ClarificationHistory run).
Qed.

Lemma starts_count run s0 loaded : starts run s0 -> svc_Load = Ok loaded ->
  toolStepCount s0 = match loaded with Some s => Z.of_nat (length (Steps s)) | None => 0 end.
Proof using.
  intros (l & -> & _ & ->) [= ->]. unfold toolStepCount, resumed. cbv zeta. by destruct (run_ClarificationHistory run), loaded.
Qed.
Lemma follows_cases run tool_calls r evs : follows run tool_calls r evs ->
  evs = [] /\ ((exists e, svc_Load = Err e /\ r = (zero_state, Some (EWrap "load runtime state" e))) \/
               (exists s, svc_Load = Ok (Some s) /\ Terminal s <> None /\ r = (s, Some ErrRunAlreadyTerminal))) \/
  exists s0, starts run s0 /\ ends run tool_calls (Plan s0) r evs.
Proof using.
  unfold follows. destruct svc_Load as [loaded|e] eqn:El; [|intros [-> ->]; left; split; [done|left; by exists e]].
  cbv zeta. destruct (Terminal (default zero_state loaded)) eqn:Et.
  - intros [-> ->]. left. split; [done|]. right. destruct loaded as [s|]; [|done]. cbn in Et. exists s. by rewrite Et.
  - intros He. right. exists (resumed run (default zero_state loaded)). split; [by exists loaded|done].
Qed.
End Runs.

(** C5: nothing is asked of a tool before it is durable.  When a tool is called in a run,
    the last thing the store accepted is a state whose last step is this call, without an
    outcome yet, and within the steps the run may take, and the arguments are those the
    policy granted for the proposal.  A crash during the call thus finds the call
    recorded.  For query.execute, run_question, run_logical_query and run_skill that state
    has the mark that a query was started (metric_query runs a query as well and does not
    set the mark). *)
Theorem tools_called_after_save `{AgentWorld} `{RunWorld} `{AgentJSON} `{ToolsJSON} (r : registry) (run : RunContext) (tr : list aevent) :
  exists evs, (Run (tools_of r) run tr).2 = tr ++ evs /\
    forall pre tool args post, evs = pre ++ ToolCalled tool args :: post ->
      exists pre' s before st, pre = pre' ++ [SaveTried s; Saved s; Noted st] /\ Steps s = before ++ [st] /\
        p_Tool (st_Proposal st) = tool /\ st_Observation st = None /\ permitted None run (st_Proposal st) args /\
        (tool ∈ ["query.execute"; "run_question"; "run_logical_query"; "run_skill"] -> QueryExecuteStarted s = true) /\
        toolStepCount s <= MaxSteps run.
Proof.
  destruct (Run_follows r run tr) as (evs & He & Hf). exists evs. split; [done|].
  destruct (follows_cases _ _ _ _ Hf) as [[-> _]|(s0 & Hs0 & (m' & Hp & _))]; [by intros [|? ?] ? ? ?|].
  intros pre tool args post ->. apply path_app_inv in Hp as (m1 & Hp1 & Hp2). inversion Hp2 as [|? ? m2 ? ? Hst _]; subst.
  inversion Hst; subst. destruct (path_to_armed _ _ _ _ _ _ Hp1) as (pre' & ->).
  pose proof (path_inv _ _ _ _ _ _ (proj1 (inv_start _ (calls_of r run) _ Hs0)) Hp1) as (_ & _ & _ & ((before & Hb & _) & Ho & Hq) & Hc).
  exists pre', s, before, st. split; [done|]. split; [done|]. split_and!; try done. apply Hc.
Qed.

(** the durable state of a run only grows.  Every state a run saves has the steps of
    the state it went on from, followed by steps numbered one after the other; rounds of
    clarification are not uncounted and a started query is not forgotten; and a terminal
    state is the last that is saved. *)
Theorem history_grows `{AgentWorld} `{RunWorld} `{AgentJSON} `{ToolsJSON} (r : registry) (run : RunContext) (tr : list aevent) :
  exists evs, (Run (tools_of r) run tr).2 = tr ++ evs /\
    (evs = [] \/ exists s0, starts run s0 /\
     forall pre s post, evs = pre ++ SaveTried s :: post ->
       grown s0 s /\ (Terminal s <> None -> post = [] \/ post = [Saved s])).
Proof.
  destruct (Run_follows r run tr) as (evs & He & Hf). exists evs. split; [done|].
  destruct (follows_cases _ _ _ _ Hf) as [[-> _]|(s0 & Hs0 & (m' & Hp & _))]; [by left|right].
  exists s0. split; [done|]. intros pre s post ->. apply path_app_inv in Hp as (m1 & Hp1 & Hp2).
  pose proof (path_inv _ _ _ _ _ _ (proj1 (inv_start _ (calls_of r run) _ Hs0)) Hp1) as Hi. split.
  - inversion Hp2 as [|? ? m2 ? ? Hst _]; subst. pose proof (proto_inv _ _ _ _ _ _ Hi Hst) as Hi2.
    assert (exists next, m2 = Saving s next) as [next ->] by (inversion Hst; subst; by eexists). by destruct Hi2.
  - intros Ht. destruct (path_terminal _ _ _ _ _ _ _ Hi Hp2 Ht) as [[-> _]|[-> _]]; auto.
Qed.


(** * What is asked of the services *)

(** Every call in a run is one its tool may make, on arguments the policy granted. *)
Lemma run_calls `{AgentWorld} `{RunWorld} `{AgentJSON} `{ToolsJSON} (r : registry) (run : RunContext) :
  emits (Run (tools_of r) run) (fun _ evs => forall c, Called c ∈ evs ->
    exists p args, permitted None run p args /\ calls_of r run (p_Tool p) args c).
Proof.
  eapply emits_impl; [apply Run_follows|]. intros res evs Hf c Hc.
  destruct (follows_cases _ _ _ _ Hf) as [[-> _]|(s0 & Hs0 & (m' & Hp & _))]; [by apply not_elem_of_nil in Hc|].
  clear Hf Hs0. assert (match Plan s0 with Using _ st args => permitted None run (st_Proposal st) args | _ => True end) as Hperm by done.
  revert Hp Hperm Hc. generalize (Plan s0). intros m Hp Hperm Hc.
  induction Hp as [m|m e m1 evs m2 Hst Hp IH]; [by apply not_elem_of_nil in Hc|]. apply elem_of_cons in Hc as [<-|Hc].
  - inversion Hst; subst. by eexists _, _.
  - apply IH; [|done]. inversion Hst; subst; try done. by destruct m1.
Qed.

Lemma service_tools_disjoint : Forall (fun t => t ∉ webAgentTools) [ToolCatalog; ToolSemantic; ToolQueryCompile; ToolQueryExecute; ToolMemoryRecall].
Proof. repeat constructor; by apply str_in_false. Qed.

(** What the agent of a job may ask of the services: all of it names the job's data
    source, and a request to run a query its limits. *)
Definition job_request (job : Job) (c : upstream) : Prop :=
  match c with
  | ResolveEntities ds _ | GeneratePlan ds _ _ | Recall ds _ _ _ | Compile ds _ => ds = j_DatasourceID job
  | ExecuteQuery ds _ rows secs =>
      ds = j_DatasourceID job /\ 1 <= rows <= j_MaxRows job /\ j_MaxRows job <= 1000 /\
      1 <= secs <= j_TimeoutSeconds job /\ j_TimeoutSeconds job <= 45
  | Dispatch _ => False
  end.

Lemma job_calls `{AgentWorld} `{RunWorld} `{AgentJSON} `{ToolsJSON}
    (Hread : forall q s, marshal_query q = Ok s -> strictDecode_query s = Ok q) maxLimit mode job :
  ValidateJob job = Ok tt ->
  emits (Run (ServiceTools maxLimit) (job_run mode job)) (fun _ evs => forall c, Called c ∈ evs -> job_request job c).
Proof.
  intros (_ & _ & _ & _ & _ & Ht & Hr)%ValidateJob_exact. eapply emits_impl; [apply (run_calls (Service maxLimit))|].
  intros res evs Hcalls c Hc. destruct (Hcalls c Hc) as (p & args & (_ & _ & _ & _ & Hp) & Hs). cbn [calls_of] in Hs.
  destruct c as [ds mo|ds mo qu|ds lq|ds lq rows secs|ds mo qu li|lb]; cbn [service_call job_request] in *; try (by destruct Hs as (_ & -> & _));
    try (by destruct Hs as (_ & ->)); [|done].
  destruct Hs as (Htool & -> & q & Hq & -> & -> & ->).
  cbn [job_run run_DatasourceID]. split; [done|]. destruct Hp as [[Hw _]|(_ & _ & [[Hin _]|(_ & q0 & q' & _ & _ & Hn & Hm)])].
  - rewrite Htool in Hw. apply str_in_spec in Hw. discriminate Hw.
  - rewrite Htool in Hin. apply str_in_spec in Hin. discriminate Hin.
  - apply Hread in Hm. rewrite Hm in Hq. injection Hq as ->. destruct Hn as [_ _ _ _ _ _ _ _ (_ & Hrow) (_ & Hsec)].
    cbn [job_run MaxRows Timeout] in Hrow, Hsec. rewrite Z.quot_mul in Hsec by lia.
    destruct Hrow as (Hrow & _); [lia|]. destruct Hsec as (Hsec & _); [lia|]. lia.
Qed.

(** C4: what the agent of a job asks of the services.  A message that does not decode to a
    valid job, or whose run cannot be found or created, asks for nothing and ends with an
    error.  Otherwise, with a JSON library that reads back what it writes, every request -
    through the loop, the policy, the registry and the tools - names the job's data
    source; and a request to run a query asks for at least one and at most the job's number
    of rows and seconds, which are at most a thousand and forty-five.  These are the
    parameters of the requests: what the query service makes of them is its own, and it
    reads the data source out of the planner's logical query and does not read the limits. *)
Theorem job_requests_bounded `{AgentWorld} `{JobWorld} `{AgentJSON} `{ToolsJSON}
    (Hread : forall q s, marshal_query q = Ok s -> strictDecode_query s = Ok q)
    (maxLimit : Z) (deploymentMode payload : string) (tr : list aevent) :
  exists evs, (processJob maxLimit deploymentMode payload tr).2 = tr ++ evs /\
    (evs = [] /\ (exists e, (processJob maxLimit deploymentMode payload tr).1 = Some e) \/
     exists job id, decode_job payload = Ok job /\ ValidateJob job = Ok tt /\
       (GetAgentRunByJobID tr (j_JobID job) = Ok (Some id) \/
        GetAgentRunByJobID tr (j_JobID job) = Ok None /\ CreateAgentRunForJob tr (j_JobID job) (new_run job) = Ok id) /\
       forall c, Called c ∈ evs -> job_request job c).
Proof.
  unfold processJob. destruct (decode_job payload) as [job|e].
  2: { exists []. rewrite List.app_nil_r. split; [done|]. left. split; [done|by eexists]. }
  destruct (ValidateJob job) as [[]|e] eqn:Ev.
  2: { exists []. rewrite List.app_nil_r. split; [done|]. left. split; [done|by eexists]. }
  unfold io_bind, ask. destruct (GetAgentRunByJobID tr (j_JobID job)) as [[id|]|e] eqn:Eg; cbn [io_ret].
  - destruct (job_calls (H0 := run_world id) Hread maxLimit deploymentMode job Ev tr) as (evs & He & Hcalls). exists evs. split.
    { by destruct (Run _ _ tr) as [[s err] tr']. }
    right. exists job, id. split_and!; auto.
  - destruct (CreateAgentRunForJob tr _ _) as [id|e] eqn:Ec.
    + destruct (job_calls (H0 := run_world id) Hread maxLimit deploymentMode job Ev tr) as (evs & He & Hcalls). exists evs. split.
      { by destruct (Run _ _ tr) as [[s err] tr']. }
      right. exists job, id. split_and!; auto.
    + exists []. rewrite List.app_nil_r. split; [done|]. left. split; [done|by eexists].
  - exists []. rewrite List.app_nil_r. split; [done|]. left. split; [done|by eexists].
Qed.

(** C28: the web tools stay within the caller's rights.  Every request an agent of the chat
    makes is to the endpoint of a governed tool that is on the run's allow-list, with the
    caller's credential and the channel of the agent; and an agent with the tools of a
    role posts to the endpoint that runs a logical query only for analysts and
    administrators. *)
Theorem web_requests_confined `{AgentWorld} `{RunWorld} `{AgentJSON} `{ToolsJSON} (cred : Credential) (run : RunContext) (tr : list aevent) :
  exists evs, (Run (WebTools cred) run tr).2 = tr ++ evs /\
    forall c, Called c ∈ evs -> exists tool, tool ∈ AllowedTools run /\ web_call cred tool c /\
      forall role lb rest, AllowedTools run = webAgentAllowedTools role -> c = Dispatch lb -> lb_Path lb = "/api/query/run" +:+ rest ->
        role = RoleAnalyst \/ role = RoleAdmin.
Proof.
  destruct (run_calls (Web cred) run tr) as (evs & He & Hcalls). exists evs. split; [exact He|].
  intros c Hc. destruct (Hcalls c Hc) as (p & args & (_ & Hin & _) & Hw). exists (p_Tool p). split; [done|]. split; [exact Hw|].
  intros role lb rest Hallow -> Hpath. destruct Hw as (lb' & method & path0 & rest0 & [= <-] & Hall & _ & Hp & _).
  rewrite Hallow in Hin. unfold webAgentAllowedTools in Hin.
  destruct (String.eqb_spec role RoleAnalyst); [by left|]. destruct (String.eqb_spec role RoleAdmin); [by right|]. exfalso.
  cbn [orb] in Hin. rewrite List.app_nil_r in Hin.
  assert (HasPrefix (path0 +:+ rest0) "/api/query/run" = true) as Hpre by (apply HasPrefix_spec; exists rest; congruence).
  assert (Forall (fun e => str_in e.1 [ToolWebListDatasources; ToolWebListModels; ToolWebListPromptTemplates; ToolWebRunQuestion;
    ToolWebListSkills; ToolWebRunSkill; ToolWebListKnowledgeFiles; ToolWebReadKnowledgeFile] = true ->
    HasPrefix (e.2.2 +:+ rest0) "/api/query/run" = false) AllTools) as Hno by (repeat constructor; vm_compute; done).
  pose proof (proj1 (Forall_forall _ _) Hno _ Hall) as Hf. cbn [fst snd] in Hf.
  rewrite (Hf (proj2 (str_in_spec _ _) Hin)) in Hpre. done.
Qed.

Lemma bind_call {A B} (c : upstream) (f : list aevent -> answer A) (k : answer A -> Traced aevent B) tr :
  io_bind (call c f) k tr = k (f (tr ++ [Called c])) (tr ++ [Called c]).
Proof. reflexivity. Qed.

(** a query is executed as it was compiled.  The tool that executes queries asks the
    query service to run a logical query only right after that service compiled the same
    query, on the run's data source, to the fingerprint the caller claimed; it runs it
    once, or twice when the first answer was a transient error. *)
Theorem executed_as_compiled `{AgentWorld} `{AgentJSON} `{ToolsJSON} (run : RunContext) (args : string) (tr : list aevent) :
  exists evs, (QueryExecuteTool run args tr).2 = tr ++ evs /\
    ((forall ds lq rows secs, Called (ExecuteQuery ds lq rows secs) ∉ evs) \/
     exists q c n, strictDecode_query args = Ok q /\
       let compile := Called (Compile (run_DatasourceID run) (qa_LogicalQuery q)) in
       let execute := Called (ExecuteQuery (run_DatasourceID run) (qa_LogicalQuery q) (RowLimit q) (TimeoutSeconds q)) in
       svc_Compile (tr ++ [compile]) (run_DatasourceID run) (qa_LogicalQuery q) = Answered c /\
       cr_Fingerprint c = Fingerprint q /\ Fingerprint q <> "" /\
       evs = compile :: repeat execute n /\ (1 <= n <= 2)%nat).
Proof.
  assert (exists evs, tr = tr ++ evs /\ ((forall ds lq rows secs, Called (ExecuteQuery ds lq rows secs) ∉ evs) \/ False)) as Hnone.
  { exists []. rewrite List.app_nil_r. split; [done|]. left. intros ????. apply not_elem_of_nil. }
  unfold QueryExecuteTool. destruct (strictDecode_query args) as [q|e].
  2: { destruct Hnone as (evs & ? & [?|[]]). exists evs. split; [done|by left]. }
  destruct (str_empty (qa_LogicalQuery q) || str_empty (Fingerprint q)) eqn:Eb.
  { destruct Hnone as (evs & ? & [?|[]]). exists evs. split; [done|by left]. }
  apply orb_false_iff in Eb as [_ Ef%str_empty_false]. unfold compile_call. rewrite bind_call.
  set (compile := Called (Compile _ _)).
  assert (exists evs, tr ++ [compile] = tr ++ evs /\ ((forall ds lq rows secs, Called (ExecuteQuery ds lq rows secs) ∉ evs) \/ False)) as Hone.
  { exists [compile]. split; [done|]. left. intros ???? [?|?%not_elem_of_nil]%elem_of_cons; done. }
  destruct (svc_Compile (tr ++ [compile]) _ _) as [c|t e] eqn:Ec.
  2: { destruct Hone as (evs & ? & [?|[]]). exists evs. split; [done|by left]. }
  destruct (String.eqb_spec (cr_Fingerprint c) (Fingerprint q)) as [Hfp|Hfp]; cbn [negb].
  2: { destruct Hone as (evs & ? & [?|[]]). exists evs. split; [done|by left]. }
  set (execute := Called (ExecuteQuery (run_DatasourceID run) (qa_LogicalQuery q) (RowLimit q) (TimeoutSeconds q))).
  assert (exists n, (1 <= n <= 2)%nat /\ (callWithSingleRetry (call (ExecuteQuery (run_DatasourceID run) (qa_LogicalQuery q) (RowLimit q) (TimeoutSeconds q))
    (fun tr => svc_Execute tr (run_DatasourceID run) (qa_LogicalQuery q) (RowLimit q) (TimeoutSeconds q))) (tr ++ [compile])).2 =
    tr ++ compile :: repeat execute n) as (n & Hn & Htr).
  { unfold callWithSingleRetry. rewrite bind_call. fold compile execute. destruct (svc_Execute _ _ _ _ _) as [a|t e].
    - exists 1%nat. split; [lia|]. cbn [snd repeat]. by rewrite <- List.app_assoc.
    - unfold io_bind at 1. cbn [ask]. destruct (match ctx_Err _ with Some _ => true | None => negb t end).
      + exists 1%nat. split; [lia|]. cbn [snd repeat]. by rewrite <- List.app_assoc.
      + rewrite bind_call. exists 2%nat. split; [lia|]. cbn [snd repeat io_ret]. by rewrite <- !List.app_assoc. }
  exists (compile :: repeat execute n). split; [|right; by exists q, c, n].
  unfold io_bind at 1. destruct (callWithSingleRetry _ _) as [r tr']. cbn [snd io_ret] in *. exact Htr.
Qed.
