(* ===== verification/AgentDemo.v ===== *)
(** Runs of the agent on concrete inputs. *)

From Stdlib Require Import SpecFloat.
From S2P Require Import Prelude GoStrings Pii AgentPolicy AgentContracts AgentState AgentTools AgentRuntime AgentSafety.
From stdpp Require Import options.
#[local] Open Scope Z_scope.

#[local] Instance JoinEdge_eq_dec : EqDecision JoinEdge.
Proof. solve_decision. Defined.
#[local] Instance identityArgs_eq_dec : EqDecision identityArgs.
Proof. solve_decision. Defined.
#[local] Instance queryProposalArgs_eq_dec : EqDecision queryProposalArgs.
Proof. solve_decision. Defined.

(** * A job that executes a query *)

Definition caller : identityArgs := mkIdentity "acme" "ada" "sales".
(** Arguments that ask for five thousand rows, and what the policy makes of them. *)
Definition asked : queryProposalArgs := mkQueryArgs caller "{...}" "f1" "" [] [] [] "" 5000 0.
Definition given : queryProposalArgs := mkQueryArgs caller "{...}" "f1" "" [] [] [] "" 100 30.
Definition demo_json : AgentJSON := {|
  decode_identity _ := Ok caller;
  strictDecode_query s := if String.eqb s "asked" then Ok asked else if String.eqb s "given" then Ok given else Err (EMsg "EOF");
  marshal_query q := if decide (q = given) then Ok "given" else Err (EMsg "unsupported");
|}.
Definition unread {A} (s : string) : res A := Err (EMsg s).
Definition demo_tools : ToolsJSON := {|
  strictDecode_catalog := unread; strictDecode_semantic := unread; strictDecode_memory := unread;
  marshal_compile c := Ok (cr_Fingerprint c); marshal_result r := Ok (Rows r); marshal_plan _ := Ok "plan";
  marshal_entities _ := Ok "entities"; marshal_examples _ := Ok "examples";
  decode_datasource := unread; decode_locale := unread; decode_knowledge := unread; decode_question := unread;
  decode_logical_query := unread; decode_skill := unread; decode_metric := unread;
  unmarshal_object := unread; unmarshal_array := unread; marshal_array _ := Ok "[]"; marshal_object _ := Ok "{}";
|}.

(** The services: [cancelled] says when the context of the run is. *)
Definition demo_world (cancelled : list aevent -> bool) : AgentWorld := {|
  ctx_Err tr := if cancelled tr then Some (EMsg "context canceled") else None;
  now tr := Z.of_nat (length tr) * 1000000;
  svc_ResolveEntities _ _ _ := Answered []; svc_GeneratePlan _ _ _ _ := Refused false (EMsg "no");
  svc_Compile _ _ _ := Answered (mkCompile "f1" "SELECT 1");
  svc_Execute tr _ _ _ _ := if cancelled tr then Refused false (EMsg "context canceled") else Answered (mkQueryResult "[[1]]" 1);
  svc_Recall _ _ _ _ _ := Answered []; svc_Dispatch _ _ := Err (EMsg "no");
|}.
(** A planner that executes the query, then answers; a store that refuses under a
    cancelled context. *)
Definition demo_run (cancelled : list aevent -> bool) : RunWorld := {|
  svc_Decide _ _ history :=
    match history with
    | [] => Ok (UseTool (mkProposal ToolQueryExecute "asked"))
    | _ => Ok (Finish (mkFinal "one" (S754_zero false)))
    end;
  svc_Save tr detached _ := if negb detached && cancelled tr then Some (EMsg "context canceled") else None;
  svc_Load := Ok None;
|}.

Definition job : Job :=
  mkJob JobSchemaV1 "j1" "r1" "" "sales" "" "ada" "acme" "how many orders?" ModeActive 4 1 30 100.
(** The queue: one message; the job has no run yet, and gets the first. *)
Definition demo_jobs (cancelled : list aevent -> bool) : JobWorld := {|
  decode_job payload := if String.eqb payload "{...}" then Ok job else Err (EMsg "no job");
  sha256_hex s := s;
  GetAgentRunByJobID _ _ := Ok None;
  CreateAgentRunForJob _ _ _ := Ok "r1";
  run_world _ := demo_run cancelled;
|}.

(** What the services were asked. *)
Definition asked_of (evs : list aevent) : list upstream :=
  flat_map (fun e => match e with Called c => [c] | _ => [] end) evs.
(** What the store holds: whether the run is terminal, and whether a query was started. *)
Definition stored (evs : list aevent) : option (bool * bool) :=
  match flat_map (fun e => match e with Saved s => [s] | _ => [] end) (rev evs) with
  | [] => None
  | s :: _ => Some (match Terminal s with Some _ => true | None => false end, QueryExecuteStarted s)
  end.

Definition never (evs : list aevent) : bool := false.
Example job_runs :
  let '(err, evs) := processJob (H := demo_world never) (H0 := demo_jobs never) (H1 := demo_json) (H2 := demo_tools) 5 "saas" "{...}" [] in
  (err, asked_of evs, stored evs) =
  (None, [Compile "sales" "{...}"; ExecuteQuery "sales" "{...}" 100 30], Some (true, true)).
Proof. vm_compute. reflexivity. Qed.

(** The context ends while the query runs: the error of the tool is to be saved under the
    context that ended, the store refuses it, and the run is left open although a query
    was started. *)
Definition at_execution (evs : list aevent) : bool :=
  existsb (fun e => match e with Called (ExecuteQuery _ _ _ _) => true | _ => false end) evs.
Example cancelled_tool_left_open :
  let '(err, evs) := processJob (H := demo_world at_execution) (H0 := demo_jobs at_execution) (H1 := demo_json) (H2 := demo_tools)
                       5 "saas" "{...}" [] in
  (err, stored evs) = (Some (EWrap "save runtime state" (EMsg "context canceled")), Some (false, true)).
Proof. vm_compute. reflexivity. Qed.

(** A job of another version of the schema, and one that asks for too much. *)
Example job_v2 : exists ctx, ValidateJob (mkJob "agent-job.v2" "j1" "r1" "" "sales" "" "ada" "acme" "" ModeActive 4 1 30 100) =
  Err (EWrap ctx ErrUnsupportedSchemaVersion).
Proof. eexists. vm_compute. reflexivity. Qed.
Example job_greedy : is_ok (ValidateJob (mkJob JobSchemaV1 "j1" "r1" "" "sales" "" "ada" "acme" "" ModeActive 4 1 30 1001)) = false.
Proof. vm_compute. reflexivity. Qed.

(** * Policy and roles *)

(** [metric_query] executes a query, and is not among the tools that mark one started. *)
Example metric_query_unmarked : toolStartsQueryExecution ToolWebMetricQuery = false.
Proof. vm_compute. reflexivity. Qed.
(** The role above the administrators has the tools of a viewer. *)
Example super_admin_tools :
  (PrimaryRole ["super_admin"], webAgentAllowedTools (PrimaryRole ["super_admin"])) =
  ("super_admin", webAgentAllowedTools RoleViewer).
Proof. vm_compute. reflexivity. Qed.

Lemma job_requests_bounded_witness :
  (forall q s, marshal_query (AgentJSON := demo_json) q = Ok s -> strictDecode_query (AgentJSON := demo_json) s = Ok q) /\
  exists evs, (processJob (H := demo_world never) (H0 := demo_jobs never) (H1 := demo_json) (H2 := demo_tools) 5 "saas" "{...}" []).2 = evs /\
    (evs = [] /\ (exists e, (processJob (H := demo_world never) (H0 := demo_jobs never) (H1 := demo_json) (H2 := demo_tools)
                              5 "saas" "{...}" []).1 = Some e) \/
     exists job0 id, decode_job (JobWorld := demo_jobs never) "{...}" = Ok job0 /\ ValidateJob job0 = Ok tt /\
       (GetAgentRunByJobID (JobWorld := demo_jobs never) [] (j_JobID job0) = Ok (Some id) \/
        GetAgentRunByJobID (JobWorld := demo_jobs never) [] (j_JobID job0) = Ok None /\
        CreateAgentRunForJob (JobWorld := demo_jobs never) [] (j_JobID job0) (new_run (H := demo_jobs never) job0) = Ok id) /\
       forall c, Called c ∈ evs -> job_request job0 c).
Proof.
  assert (forall q s, marshal_query (AgentJSON := demo_json) q = Ok s -> strictDecode_query (AgentJSON := demo_json) s = Ok q) as Hread.
  { intros q s. cbn. destruct (decide (q = given)) as [->|]; [intros [= <-]; reflexivity|discriminate]. }
  split; [exact Hread|].
  exact (job_requests_bounded (H := demo_world never) (H0 := demo_jobs never) (H1 := demo_json) (H2 := demo_tools)
           Hread 5 "saas" "{...}" []).
Defined.
