(* ===== verification/Interleave.v ===== *)
(** Programs that act on shared state one atomic step at a time.

    A request of a server is a sequence of statements on a database and commands on a
    key-value store; each of these is atomic, and between two of them the requests of
    others may act.  [prog] is such a program: a step takes the shared state to its next
    value and to the rest of the program.  [exec] runs a program alone; [interleaves] is
    every way a number of programs may run together.  [steps_in R] says that whatever
    others do in between, each step of the program is in [R]; [once] that a program can
    succeed only by being the one that spends something; [rg] that a program keeps to what it
    guarantees to others while they keep to what it relies on; [wp] is what holds at the end of
    a program alone. *)

From S2P Require Import Prelude.
From stdpp Require Import options.

(** * Programs *)

Inductive prog (W A : Type) : Type :=
| Ret (a : A)
| Act {B : Type} (f : W -> W * B) (k : B -> prog W A).
Arguments Ret {W A} _.
Arguments Act {W A B} _ _.

Fixpoint prog_bind {W A B} (m : prog W A) (k : A -> prog W B) : prog W B :=
  match m with
  | Ret a => k a
  | Act f k' => Act f (fun b => prog_bind (k' b) k)
  end.
Definition atomic {W A} (f : W -> W * A) : prog W A := Act f Ret.

Notation "'let*' x ':=' m 'in' k" := (prog_bind m (fun x => k))
  (at level 10, x pattern, m at level 100, k at level 200) : biq_scope.

(** [if err != nil { return err }] *)
Definition or_return {W A B} (m : prog W (res A)) (k : A -> prog W (res B)) : prog W (res B) :=
  prog_bind m (fun r => match r with Ok a => k a | Err e => Ret (Err e) end).
Notation "'try*' x ':=' m 'in' k" := (or_return m (fun x => k))
  (at level 10, x pattern, m at level 100, k at level 200) : biq_scope.

Definition wrap {W A} (ctx : string) (m : prog W (res A)) : prog W (res A) :=
  prog_bind m (fun r => Ret (res_map_err (EWrap ctx) r)).

(** The program alone. *)
Fixpoint exec {W A} (m : prog W A) (w : W) : W * A :=
  match m with
  | Ret a => (w, a)
  | Act f k => exec (k (f w).2) (f w).1
  end.

Lemma exec_bind {W A B} (m : prog W A) (k : A -> prog W B) w :
  exec (prog_bind m k) w = exec (k (exec m w).2) (exec m w).1.
Proof. revert w. induction m as [a|C f k' IH]; intros w; [done|apply IH]. Qed.

(** * Programs that run together *)

(** A pool of programs; at each step one of them makes its next step. *)
Inductive pool_step {W A} : W * list (prog W A) -> W * list (prog W A) -> Prop :=
| pool_act w l1 l2 B (f : W -> W * B) (k : B -> prog W A) :
    pool_step (w, l1 ++ Act f k :: l2) ((f w).1, l1 ++ k (f w).2 :: l2).

Definition interleaves {W A} : W * list (prog W A) -> W * list (prog W A) -> Prop := rtc pool_step.

(** A schedule names, step by step, the program that goes next. *)
Definition go {W A} (i : nat) (c : W * list (prog W A)) : W * list (prog W A) :=
  match c.2 !! i with
  | Some (Act f k) => ((f c.1).1, <[i := k (f c.1).2]> c.2)
  | _ => c
  end.
Definition follow {W A} (schedule : list nat) (c : W * list (prog W A)) : W * list (prog W A) := fold_left (fun c i => go i c) schedule c.
Lemma go_step {W A} i (c : W * list (prog W A)) B (f : W -> W * B) (k : B -> prog W A) : c.2 !! i = Some (Act f k) -> pool_step c (go i c).
Proof.
  destruct c as [w l]. cbn. intros Ei. unfold go. cbn. rewrite Ei. pose proof (take_drop_middle l i _ Ei) as El. rewrite <- El at 1.
  replace (<[i := k (f w).2]> l) with (take i l ++ k (f w).2 :: drop (S i) l); [constructor|].
  rewrite <- El at 3. rewrite insert_app_r_alt by (rewrite length_take; lia). rewrite length_take.
  pose proof (lookup_lt_Some _ _ _ Ei) as Hi. by replace (i - i `min` length l) with 0 by lia.
Qed.
Lemma follow_interleaves {W A} schedule (c : W * list (prog W A)) : interleaves c (follow schedule c).
Proof.
  revert c. induction schedule as [|i schedule IH]; intros c; [apply rtc_refl|]. cbn. etransitivity; [|apply IH].
  destruct (c.2 !! i) as [[a|B f k]|] eqn:Ei; [| by eapply rtc_once, go_step|]; unfold go; rewrite Ei; apply rtc_refl.
Qed.

(** * What a program does to the shared state, whatever others do to it in between *)

Fixpoint steps_in {W A} (R : W -> W -> Prop) (m : prog W A) : Prop :=
  match m with
  | Ret _ => True
  | Act f k => forall w, R w (f w).1 /\ steps_in R (k (f w).2)
  end.

Lemma steps_in_bind {W A B} (R : W -> W -> Prop) (m : prog W A) (k : A -> prog W B) :
  steps_in R m -> (forall a, steps_in R (k a)) -> steps_in R (prog_bind m k).
Proof.
  induction m as [a|C f k' IH]; intros Hm Hk; [apply Hk|]. cbn in *. intros w. destruct (Hm w) as [HR Hm'].
  split; [done|]. apply IH; done.
Qed.
Lemma steps_in_atomic {W A} (R : W -> W -> Prop) (f : W -> W * A) : (forall w, R w (f w).1) -> steps_in R (atomic f).
Proof. intros H w. cbn. auto. Qed.
Lemma steps_in_try {W A B} (R : W -> W -> Prop) (m : prog W (res A)) (k : A -> prog W (res B)) :
  steps_in R m -> (forall a, steps_in R (k a)) -> steps_in R (or_return m k).
Proof. intros Hm Hk. apply steps_in_bind; [done|]. intros [a|e]; [apply Hk|done]. Qed.
Lemma steps_in_wrap {W A} (R : W -> W -> Prop) ctx (m : prog W (res A)) : steps_in R m -> steps_in R (wrap ctx m).
Proof. intros Hm. by apply steps_in_bind. Qed.

Lemma steps_in_exec {W A} (R : W -> W -> Prop) `{!PreOrder R} (m : prog W A) w : steps_in R m -> R w (exec m w).1.
Proof.
  revert w. induction m as [a|C f k IH]; intros w Hm; [done|]. cbn. destruct (Hm w) as [HR Hm'].
  transitivity (f w).1; [done|]. by apply IH.
Qed.

Lemma interleaves_in {W A} (R : W -> W -> Prop) `{!PreOrder R} (c c' : W * list (prog W A)) :
  interleaves c c' -> Forall (steps_in R) c.2 -> R c.1 c'.1 /\ Forall (steps_in R) c'.2.
Proof.
  induction 1 as [c|c1 c2 c3 Hs Hr IH]; [done|]. intros HF. destruct Hs as [w l1 l2 B f k]. cbn in *.
  apply Forall_app in HF as [HF1 HF]. apply Forall_cons in HF as [HF2 HF3]. destruct (HF2 w) as [HR HF2'].
  destruct IH as [HR' HF']; [by apply Forall_app; split; [|constructor]|]. split; [by transitivity (f w).1|done].
Qed.

(** * Results under an invariant of the shared state *)

(** Whatever others do to a state that satisfies [I] without leaving it, the program does not
    leave it either, and its result satisfies [Q]. *)
Fixpoint under {W A} (I : W -> Prop) (m : prog W A) (Q : A -> Prop) : Prop :=
  match m with
  | Ret a => Q a
  | Act f k => forall w, I w -> I (f w).1 /\ under I (k (f w).2) Q
  end.

Lemma under_bind {W A B} (I : W -> Prop) (m : prog W A) (k : A -> prog W B) P Q :
  under I m P -> (forall a, P a -> under I (k a) Q) -> under I (prog_bind m k) Q.
Proof.
  induction m as [a|C f k' IH]; intros Hm Hk; [by apply Hk|]. cbn in *. intros w Hw. destruct (Hm w Hw) as [HI Hm'].
  split; [done|]. by apply IH.
Qed.
Lemma under_atomic {W A} (I : W -> Prop) (f : W -> W * A) (Q : A -> Prop) :
  (forall w, I w -> I (f w).1 /\ Q (f w).2) -> under I (atomic f) Q.
Proof. intros Hf w Hw. by apply Hf. Qed.
Lemma under_impl {W A} (I : W -> Prop) (m : prog W A) (P Q : A -> Prop) : under I m P -> (forall a, P a -> Q a) -> under I m Q.
Proof.
  induction m as [a|C f k IH]; intros Hm HPQ; [by apply HPQ|]. cbn in *. intros w Hw. destruct (Hm w Hw) as [HI Hm'].
  split; [done|]. by apply IH.
Qed.
Lemma under_steps {W A} (I : W -> Prop) (m : prog W A) : steps_in (fun w w' => I w -> I w') m -> under I m (fun _ => True).
Proof.
  induction m as [a|C f k IH]; intros Hm; [done|]. cbn in *. intros w Hw. destruct (Hm w) as [HI Hm']. auto.
Qed.
(** The one statement that matters, and the rest. *)
Lemma under_try {W A B} (I : W -> Prop) (m : prog W (res A)) (k : A -> prog W (res B)) (P : A -> Prop) (Q : res B -> Prop) :
  under I m (fun r => match r with Ok a => P a | Err e => Q (Err e) end) -> (forall a, P a -> under I (k a) Q) ->
  under I (or_return m k) Q.
Proof. intros Hm Hk. eapply under_bind; [apply Hm|]. intros [a|e] Ha; [by apply Hk|done]. Qed.

Lemma steps_in_impl {W A} (R R' : W -> W -> Prop) (m : prog W A) : (forall w w', R w w' -> R' w w') -> steps_in R m -> steps_in R' m.
Proof. intros HR. induction m as [a|C f k IH]; [done|]. cbn. intros Hm w. destruct (Hm w). auto. Qed.

(** In every state the pool reaches, the results are as promised. *)
Lemma under_pool {W A} (I : W -> Prop) (Q : A -> Prop) (c c' : W * list (prog W A)) :
  interleaves c c' -> I c.1 -> Forall (fun m => under I m Q) c.2 -> Forall (fun m => under I m Q) c'.2.
Proof.
  induction 1 as [c|c1 c2 c3 Hs Hr IH]; [done|]. intros HI HF. destruct Hs as [w l1 l2 B f k]. cbn in *.
  apply Forall_app in HF as [HF1 HF]. apply Forall_cons in HF as [HF2 HF3]. destruct (HF2 w HI) as [HI' HF2'].
  apply IH; [done|]. by apply Forall_app; split; [|constructor].
Qed.

(** A program all of whose results satisfy [P]. *)
Fixpoint results_in {W A} (P : A -> Prop) (m : prog W A) : Prop :=
  match m with Ret a => P a | Act f k => forall b, results_in P (k b) end.
Lemma results_in_bind {W A B} (P : B -> Prop) (m : prog W A) (k : A -> prog W B) :
  (forall a, results_in P (k a)) -> results_in P (prog_bind m k).
Proof. intros Hk. induction m as [a|C f k' IH]; [apply Hk|]. intros b. apply IH. Qed.
Lemma under_results {W A} (I : W -> Prop) (P : A -> Prop) (m : prog W A) :
  steps_in (fun w w' => I w -> I w') m -> results_in P m -> under I m P.
Proof.
  induction m as [a|B f k IH]; [done|]. cbn. intros Hs Hr w Hw. destruct (Hs w) as [HI Hk]. auto.
Qed.

(** * Spending something at most once *)

Section Once.
Context {W A : Type} (spent : W -> Prop) (wins : A -> bool).

(** [once won m]: what is spent stays so; a program that has not won may win in a step that finds
    the thing unspent and leaves it spent, and a result that counts is one of a program that has. *)
Fixpoint once (won : bool) (m : prog W A) : Prop :=
  match m with
  | Ret a => wins a = true -> won = true
  | Act f k => forall w, (spent w -> spent (f w).1) /\
      exists won', (won = true -> won' = true) /\
        (won = false -> won' = true -> ~ spent w /\ spent (f w).1) /\ once won' (k (f w).2)
  end.

Definition results (l : list (prog W A)) : list A := omap (fun m => match m with Ret a => Some a | Act _ _ => None end) l.
Definition winners (l : list (prog W A)) : nat := length (List.filter wins (results l)).

Lemma once_harmless m : steps_in (fun w w' => spent w -> spent w') m -> results_in (fun a => wins a = false) m -> once false m.
Proof using.
  induction m as [a|B f k IH]; cbn; [by intros _ ->|]. intros Hs Hr w. destruct (Hs w) as [Hp Hk]. split; [done|].
  exists false. split; [done|]. split; [done|]. apply IH; [done|apply Hr].
Qed.

Lemma once_bind_harmless {B} b (m : prog W B) (k : B -> prog W A) :
  steps_in (fun w w' => spent w -> spent w') m -> (forall a, once b (k a)) -> once b (prog_bind m k).
Proof using.
  induction m as [a|C f k' IH]; intros Hm Hk; [apply Hk|]. cbn in *. intros w. destruct (Hm w) as [HR Hm'].
  split; [done|]. exists b. split; [done|]. split; [by intros ->|]. by apply IH.
Qed.

(** After the step that wins, the rest of the program only has to keep what is spent. *)
Lemma once_won m : steps_in (fun w w' => spent w -> spent w') m -> once true m.
Proof using.
  induction m as [a|B f k IH]; cbn; [done|]. intros Hs w. destruct (Hs w) as [Hp Hk]. split; [done|].
  exists true. split; [done|]. split; [done|]. by apply IH.
Qed.

Definition count_true (bits : list bool) : nat := length (List.filter (fun b => b) bits).

Definition fair_share (w : W) (l : list (prog W A)) (bits : list bool) : Prop :=
  Forall2 once bits l /\ count_true bits <= 1 /\ (true ∈ bits -> spent w).

Lemma count_true_app b1 b2 : count_true (b1 ++ b2) = count_true b1 + count_true b2.
Proof using. unfold count_true. by rewrite List.filter_app, List.length_app. Qed.
Lemma count_true_cons (b : bool) l : count_true (b :: l) = (if b then 1 else 0) + count_true l.
Proof using. by destruct b. Qed.
Lemma no_true bits : true ∉ bits -> count_true bits = 0.
Proof using.
  induction bits as [|b bits IH]; intros Hn; [done|]. rewrite count_true_cons, IH by set_solver.
  destruct b; [set_solver|done].
Qed.

Lemma pool_step_fair (c c' : W * list (prog W A)) bits :
  pool_step c c' -> fair_share c.1 c.2 bits -> exists bits', fair_share c'.1 c'.2 bits'.
Proof using.
  intros [w l1 l2 B f k] (HF & Hc & Hs). cbn in *. apply Forall2_app_inv_r in HF as (b1 & b2 & HF1 & HF2 & ->).
  apply Forall2_cons_inv_r in HF2 as (b & b2' & Hb & HF2 & ->). destruct (Hb w) as (Hp & won' & Hw1 & Hw2 & Hk).
  exists (b1 ++ won' :: b2'). rewrite count_true_app, count_true_cons in Hc. split; [|split].
  - apply Forall2_app; [done|]. by constructor.
  - rewrite count_true_app, count_true_cons. destruct won'; [|destruct b; [by specialize (Hw1 eq_refl)|lia]]. destruct b; [done|]. destruct (Hw2 eq_refl eq_refl) as [Hn _].
    assert (true ∉ b1 /\ true ∉ b2') as [Hb1 Hb2] by (split; intros ?; apply Hn, Hs; set_solver).
    by rewrite (no_true b1), (no_true b2').
  - intros Hin. apply elem_of_app in Hin as [Hin|Hin]; [apply Hp, Hs; set_solver|].
    apply elem_of_cons in Hin as [<-|Hin]; [|apply Hp, Hs; set_solver].
    destruct b; [apply Hp, Hs; set_solver|]. by apply Hw2.
Qed.

Lemma winners_bits l bits : Forall2 once bits l -> winners l <= count_true bits.
Proof using.
  unfold winners, results. induction 1 as [|b m bits l Hb _ IH]; [done|]. rewrite count_true_cons.
  destruct m as [a|B f k]; cbn in *; [|lia]. destruct (wins a); cbn; [rewrite Hb by done|]; lia.
Qed.

Lemma at_most_one_wins (c c' : W * list (prog W A)) : interleaves c c' -> Forall (once false) c.2 -> winners c'.2 <= 1.
Proof using.
  intros Hi HF. assert (Hf : exists bits, fair_share c.1 c.2 bits).
  { assert (Hr : true ∉ replicate (length c.2) false) by (intros [? _]%elem_of_replicate; done).
    exists (replicate (length c.2) false). split; [|split; [by rewrite (no_true _ Hr); lia|done]].
    clear Hi Hr. induction HF; cbn; by constructor. }
  clear HF. induction Hi as [c|c1 c2 c3 Hs _ IH]; destruct Hf as [bits Hf].
  - destruct Hf as (HF & Hc & _). etransitivity; [by eapply winners_bits|done].
  - apply IH. by eapply pool_step_fair.
Qed.
End Once.

(** * A walk through a program *)

(** The parts of a program that have a lemma of their own. *)
Create HintDb steps.

(** Walks through a program to its steps.  [known] settles the steps that need no thought and
    [leaf] the others; a part that no lemma is about is unfolded, unless [keep] fails on it. *)
Ltac program_head m := lazymatch m with ?f _ => program_head f | _ => m end.
Ltac steps_walk known leaf keep :=
  cbv zeta;
  repeat (first
    [ exact I
    | known
    | lazymatch goal with
      | |- steps_in _ (prog_bind _ _) => apply steps_in_bind; [|intros]
      | |- steps_in _ (or_return _ _) => apply steps_in_try; [|intros]
      | |- steps_in _ (wrap _ _) => apply steps_in_wrap
      | |- steps_in _ (match ?x with _ => _ end) => destruct x
      | |- steps_in _ ?m => first
          [ solve [eauto 2 with steps] | solve [leaf]
          | let f := program_head m in keep f; unfold f ]
      end ]; cbv zeta).

(** * Rely and guarantee *)

(** Started in [w], while the others only take steps in [R], each step of the program is in [G],
    and when it ends its result and the state satisfy [Q]. *)
Fixpoint rg {W A} (R G : W -> W -> Prop) (m : prog W A) (Q : A -> W -> Prop) (w : W) : Prop :=
  match m with
  | Ret a => forall w', R w w' -> Q a w'
  | Act f k => forall w', R w w' -> G w' (f w').1 /\ rg R G (k (f w').2) Q (f w').1
  end.

Section RelyGuarantee.
Context {W : Type} (R G : W -> W -> Prop) `{!PreOrder R}.

Lemma rg_rely {A} (m : prog W A) Q w w' : R w w' -> rg R G m Q w -> rg R G m Q w'.
Proof using Type*.
  intros HR. destruct m as [a|B f k]; cbn; intros Hm w'' HR'; apply Hm; by transitivity w'.
Qed.
Lemma rg_ret {A} (a : A) (Q : A -> W -> Prop) w : (forall w', R w w' -> Q a w') -> rg R G (Ret a) Q w.
Proof using. done. Qed.
Lemma rg_mono {A} (m : prog W A) (P Q : A -> W -> Prop) w : rg R G m P w -> (forall a w', P a w' -> Q a w') -> rg R G m Q w.
Proof using.
  revert w. induction m as [a|B f k IH]; intros w Hm HPQ; cbn in *; [by intros w' HR; apply HPQ, Hm|].
  intros w' HR. destruct (Hm w' HR) as [HG Hk]. split; [done|]. by apply IH.
Qed.
Lemma rg_bind {A B} (m : prog W A) (k : A -> prog W B) Q w :
  rg R G m (fun a => rg R G (k a) Q) w -> rg R G (prog_bind m k) Q w.
Proof using Type*.
  revert w. induction m as [a|C f k' IH]; intros w Hm; cbn in *.
  - by apply Hm.
  - intros w' HR. destruct (Hm w' HR) as [HG Hk]. split; [done|]. by apply IH.
Qed.
Lemma rg_try {A B} (m : prog W (res A)) (k : A -> prog W (res B)) Q w :
  rg R G m (fun r w => match r with Ok a => rg R G (k a) Q w | Err e => forall w', R w w' -> Q (Err e) w' end) w ->
  rg R G (or_return m k) Q w.
Proof using Type*. intros Hm. apply rg_bind. eapply rg_mono; [apply Hm|]. by intros [a|e] w'. Qed.
Lemma rg_wrap {A} ctx (m : prog W (res A)) Q w :
  rg R G m (fun r w => forall w', R w w' -> Q (res_map_err (EWrap ctx) r) w') w -> rg R G (wrap ctx m) Q w.
Proof using Type*. intros Hm. apply rg_bind. eapply rg_mono; [apply Hm|]. done. Qed.
Lemma rg_atomic {A} (f : W -> W * A) Q w :
  (forall w', R w w' -> G w' (f w').1 /\ forall w'', R (f w').1 w'' -> Q (f w').2 w'') -> rg R G (atomic f) Q w.
Proof using. done. Qed.
(** Where the state does not matter. *)
Lemma rg_steps {A} (m : prog W A) w : steps_in G m -> rg R G m (fun _ _ => True) w.
Proof using.
  revert w. induction m as [a|B f k IH]; intros w Hm; cbn in *; [done|].
  intros w' _. destruct (Hm w') as [HG Hk]. split; [done|]. by apply IH.
Qed.
(** Where only what was done counts. *)
Lemma rg_frame {A} (m : prog W A) w : (forall w w', G w w' -> R w w') -> steps_in G m -> rg R G m (fun _ w' => R w w') w.
Proof using Type*.
  intros HGR Hm. assert (Hg : forall w0, R w0 w -> rg R G m (fun _ w' => R w0 w') w); [|by apply Hg].
  revert w Hm. induction m as [a|B f k IH]; intros w Hm w0 H0; cbn in *.
  - intros w' HR. by transitivity w.
  - intros w' HR. destruct (Hm w') as [HG Hk]. split; [done|]. apply IH; [done|].
    transitivity w'; [by transitivity w|]. by apply HGR.
Qed.
(** Where only the answers matter. *)
Lemma rg_under {A} (m : prog W A) (P : A -> Prop) w : steps_in G m -> under (fun _ => True) m P -> rg R G m (fun a _ => P a) w.
Proof using.
  revert w. induction m as [a|B f k IH]; intros w Hm Hu; cbn in *; [done|].
  intros w' _. destruct (Hm w') as [HG Hk]. destruct (Hu w' I) as [_ Hu']. split; [done|]. by apply IH.
Qed.
Lemma rg_both {A} (m : prog W A) (P Q : A -> W -> Prop) w : rg R G m P w -> rg R G m Q w -> rg R G m (fun a w' => P a w' /\ Q a w') w.
Proof using.
  revert w. induction m as [a|B f k IH]; intros w HP HQ; cbn in *; [auto|].
  intros w' HR. destruct (HP w' HR) as [HG HP']. destruct (HQ w' HR) as [_ HQ']. split; [done|]. by apply IH.
Qed.
End RelyGuarantee.

(** The step that the program at place [i] of a pool makes. *)
Inductive step_of {W A} (i : nat) : W * list (prog W A) -> W * list (prog W A) -> Prop :=
| step_of_act w l B (f : W -> W * B) (k : B -> prog W A) :
    l !! i = Some (Act f k) -> step_of i (w, l) ((f w).1, <[i := k (f w).2]> l).

Lemma pool_step_of {W A} (c c' : W * list (prog W A)) : pool_step c c' -> exists i, step_of i c c'.
Proof.
  intros [w l1 l2 B f k]. exists (length l1).
  replace (l1 ++ k (f w).2 :: l2) with (<[length l1 := k (f w).2]> (l1 ++ Act f k :: l2)).
  - constructor. by apply list_lookup_middle.
  - rewrite insert_app_r_alt by done. by rewrite Nat.sub_diag.
Qed.

(** Programs each of which relies on no more than all the others guarantee: wherever the pool
    gets, each step is in the guarantee of the one that makes it, and each result is as promised. *)
Section Pools.
Context {W A : Type} (R G : nat -> W -> W -> Prop) (Q : nat -> A -> W -> Prop).
Context (HR : forall i, PreOrder (R i)) (HG : forall i j w w', i <> j -> G j w w' -> R i w w').

Definition pool_rg (c : W * list (prog W A)) : Prop := forall i m, c.2 !! i = Some m -> rg (R i) (G i) m (Q i) c.1.

Lemma step_of_rg i c c' : step_of i c c' -> pool_rg c -> G i c.1 c'.1 /\ pool_rg c'.
Proof using HR HG.
  intros [w l B f k Hi] Hc. destruct (Hc i _ Hi w) as [Hg Hk]; [reflexivity|]. split; [done|]. intros j m Hj. cbn in *.
  destruct (decide (i = j)) as [<-|Hn].
  - rewrite list_lookup_insert_eq in Hj by (by eapply lookup_lt_Some). by injection Hj as <-.
  - rewrite list_lookup_insert_ne in Hj by done. eapply (rg_rely (R j) (G j)); [|by apply Hc]. by eapply HG.
Qed.
Lemma interleaves_rg c c' : interleaves c c' -> pool_rg c -> pool_rg c'.
Proof using HR HG.
  induction 1 as [c|c1 c2 c3 Hs _ IH]; [done|]. intros Hc. apply pool_step_of in Hs as [i Hs]. apply IH. by eapply step_of_rg.
Qed.
Lemma pool_guarantees i c c' c'' : interleaves c c' -> pool_rg c -> step_of i c' c'' -> G i c'.1 c''.1.
Proof using HR HG. intros Hi Hc Hs. eapply step_of_rg; [done|]. by eapply interleaves_rg. Qed.
Lemma pool_results i c w l a : interleaves c (w, l) -> pool_rg c -> l !! i = Some (Ret a) -> Q i a w.
Proof using HR HG. intros Hi Hc Hr. eapply (interleaves_rg _ _ Hi Hc i _ Hr). reflexivity. Qed.
End Pools.

(** * A program alone *)

Lemma exec_try {W A B} (m : prog W (res A)) (k : A -> prog W (res B)) w :
  exec (or_return m k) w = match (exec m w).2 with Ok a => exec (k a) (exec m w).1 | Err e => ((exec m w).1, Err e) end.
Proof. unfold or_return. rewrite exec_bind. by destruct (exec m w).2. Qed.
Lemma exec_wrap {W A} ctx (m : prog W (res A)) w : exec (wrap ctx m) w = ((exec m w).1, res_map_err (EWrap ctx) (exec m w).2).
Proof. unfold wrap. by rewrite exec_bind. Qed.

(** What holds of the answer and of the world when the program ends. *)
Definition wp {W A} (m : prog W A) (Q : A -> W -> Prop) (w : W) : Prop := Q (exec m w).2 (exec m w).1.

Lemma wp_ret {W A} (a : A) Q (w : W) : Q a w -> wp (Ret a) Q w.
Proof. done. Qed.
Lemma wp_mono {W A} (m : prog W A) (P Q : A -> W -> Prop) w : wp m P w -> (forall a w', P a w' -> Q a w') -> wp m Q w.
Proof. unfold wp. auto. Qed.
Lemma wp_bind {W A B} (m : prog W A) (k : A -> prog W B) Q w : wp m (fun a => wp (k a) Q) w -> wp (prog_bind m k) Q w.
Proof. unfold wp. by rewrite exec_bind. Qed.
Lemma wp_try {W A B} (m : prog W (res A)) (k : A -> prog W (res B)) Q w :
  wp m (fun r w => match r with Ok a => wp (k a) Q w | Err e => Q (Err e) w end) w -> wp (or_return m k) Q w.
Proof. intros H. apply wp_bind. revert H. unfold wp. by destruct (exec m w).2. Qed.
Lemma wp_wrap {W A} ctx (m : prog W (res A)) Q w : wp m (fun r => Q (res_map_err (EWrap ctx) r)) w -> wp (wrap ctx m) Q w.
Proof. intros H. by apply wp_bind. Qed.
Lemma wp_both {W A} (m : prog W A) (P Q : A -> W -> Prop) w : wp m P w -> wp m Q w -> wp m (fun a w' => P a w' /\ Q a w') w.
Proof. by split. Qed.

Lemma wp_results {W A} (P : A -> Prop) (m : prog W A) (w : W) : results_in P m -> wp m (fun a _ => P a) w.
Proof. revert w. induction m as [a|B f k IH]; intros w Hm; [done|]. apply IH, Hm. Qed.
Lemma results_in_try {W A B} (P : res B -> Prop) (m : prog W (res A)) (k : A -> prog W (res B)) :
  (forall e, P (Err e)) -> (forall a, results_in P (k a)) -> results_in P (or_return m k).
Proof. intros He Hk. apply results_in_bind. intros [a|e]; [apply Hk|apply He]. Qed.
