(* ===== verification/Tables.v ===== *)
(** Tables of a database and the statements on them.

    A table is a map from its primary key to its rows; a statement selects, updates or
    removes the rows that satisfy a condition.  Where the order of rows is not given by the
    statement, it is that of the keys. *)

From S2P Require Import Prelude GoStrings.
From stdpp Require Import options.

(** * Statements *)

(** The rows a query selects; [QueryRow] takes the first. *)
Definition select {K R} `{Countable K} (P : R -> bool) (t : gmap K R) : list R := List.filter P (map_to_list t).*2.
Definition select_one {K R} `{Countable K} (P : R -> bool) (t : gmap K R) : option R := head (select P t).
(** [EXISTS (SELECT 1 FROM t WHERE P)] *)
Definition exists_row {K R} `{Countable K} (P : R -> bool) (t : gmap K R) : bool := existsb P (map_to_list t).*2.
(** [UPDATE t SET f WHERE P], and the number of rows affected. *)
Definition update_where {K R} `{Countable K} (P : R -> bool) (f : R -> R) (t : gmap K R) : gmap K R :=
  (fun r => if P r then f r else r) <$> t.
Definition affected {K R} `{Countable K} (P : R -> bool) (t : gmap K R) : nat := length (select P t).
(** [DELETE FROM t WHERE P] *)
Definition delete_where {K R} `{Countable K} (P : R -> bool) (t : gmap K R) : gmap K R := filter (fun kr => P kr.2 = false) t.
(** A comparison with a column that may be null. *)
Definition is_some_eq (x : option string) (v : string) : bool := match x with Some s => String.eqb s v | None => false end.

(** * Errors *)

(** [errors.Is]: a sentinel is told by its text. *)
Fixpoint errors_Is (e target : goerr) : bool :=
  bool_decide (e = target) || match e with EWrap _ e => errors_Is e target | _ => false end.
(** [errors.New("sql: no rows in result set")]; a violated constraint. *)
Definition ErrNoRows : goerr := EMsg "sql: no rows in result set".
Definition violates (constraint : string) : goerr := EMsg ("pq: violates " +:+ constraint).
Definition row_or {A} (e : goerr) (o : option A) : res A := match o with Some a => Ok a | None => Err e end.

(** * What the statements do *)

Section Rows.
Context {K R : Type} `{Countable K}.
Implicit Types (P : R -> bool) (t : gmap K R).

Lemma select_In P t r : In r (select P t) <-> exists k, t !! k = Some r /\ P r = true.
Proof using.
  unfold select. rewrite List.filter_In, <- list_elem_of_In, list_elem_of_fmap. split.
  - intros [([k r'] & -> & Hk) HP]. exists k. by apply elem_of_map_to_list in Hk.
  - intros (k & Hk & HP). split; [|done]. exists (k, r). by rewrite elem_of_map_to_list.
Qed.
Lemma select_one_Some P t r : select_one P t = Some r -> exists k, t !! k = Some r /\ P r = true.
Proof using.
  unfold select_one. intros Hr. apply select_In. destruct (select P t) as [|x l]; [done|]. injection Hr as ->. by left.
Qed.
Lemma select_one_None P t k r : select_one P t = None -> t !! k = Some r -> P r = false.
Proof using.
  unfold select_one. intros Hn Hr. destruct (P r) eqn:EP; [|done]. assert (In r (select P t)) as Hin by (apply select_In; by exists k).
  destruct (select P t); [done|discriminate].
Qed.
Lemma exists_row_false P t k r : exists_row P t = false -> t !! k = Some r -> P r = false.
Proof using.
  intros He Hr. destruct (P r) eqn:Ep; [|done]. unfold exists_row in He. rewrite <- not_true_iff_false, existsb_exists in He.
  exfalso. apply He. exists r. split; [|done]. apply list_elem_of_In, list_elem_of_fmap. exists (k, r). split; [done|].
  by apply elem_of_map_to_list.
Qed.
Lemma exists_row_true P t : exists_row P t = true <-> exists k r, t !! k = Some r /\ P r = true.
Proof using.
  unfold exists_row. rewrite existsb_exists. split.
  - intros (r & Hr & HP). apply list_elem_of_In, list_elem_of_fmap in Hr as ([k r'] & -> & Hk). exists k, r'.
    by apply elem_of_map_to_list in Hk.
  - intros (k & r & Hk & HP). exists r. split; [|done]. apply list_elem_of_In, list_elem_of_fmap. exists (k, r).
    by rewrite elem_of_map_to_list.
Qed.
Lemma lookup_update_where P (f : R -> R) t k : update_where P f t !! k = (fun r => if P r then f r else r) <$> t !! k.
Proof using. apply lookup_fmap. Qed.

(** How many rows a statement affects. *)
Lemma affected_insert P t k r : t !! k = None -> affected P (<[k := r]> t) = ((if P r then 1 else 0) + affected P t)%nat.
Proof using.
  intros Hn. unfold affected, select. assert (Hp : forall l l' : list R, l ≡ₚ l' -> length (List.filter P l) = length (List.filter P l')).
  { intros l l' Hl. induction Hl as [|x l l' Hl IH|x y l|]; cbn; [done| | |congruence].
    - destruct (P x); cbn; congruence.
    - by destruct (P x), (P y). }
  rewrite (Hp _ (r :: (map_to_list t).*2)) by (by rewrite map_to_list_insert). cbn [List.filter]. by destruct (P r).
Qed.
Lemma affected_size P t : affected P t = size (filter (fun kr => P kr.2 = true) t).
Proof using.
  induction t as [|k r t Hn IH] using map_ind; [by rewrite map_filter_empty, map_size_empty|].
  rewrite affected_insert by done. destruct (P r) eqn:Ep.
  - rewrite map_filter_insert_True by done. rewrite map_size_insert_None by (rewrite map_lookup_filter_None; by left). by rewrite IH.
  - rewrite map_filter_insert_False by (cbn; congruence). by rewrite delete_id by done.
Qed.
Lemma affected_lt P Q t k r : (forall r, Q r = true -> P r = true) -> t !! k = Some r -> P r = true -> Q r = false ->
  (affected Q t < affected P t)%nat.
Proof using.
  intros Himp Hr HP HQ. unfold affected, select. assert (Hin : In r (map_to_list t).*2).
  { apply list_elem_of_In, list_elem_of_fmap. exists (k, r). by rewrite elem_of_map_to_list. }
  clear Hr. revert Hin. generalize (map_to_list t).*2 as l. induction l as [|x l IH]; [done|]. cbn [List.filter In]. intros [->|Hin].
  - rewrite HP, HQ. cbn. apply Nat.lt_succ_r. clear IH. induction l as [|x l IH]; [done|]. cbn. destruct (Q x) eqn:EQ; [rewrite (Himp x EQ)|destruct (P x)]; cbn; lia.
  - specialize (IH Hin). destruct (Q x) eqn:EQ; [rewrite (Himp x EQ)|destruct (P x)]; cbn; lia.
Qed.
End Rows.
