(* ===== verification/AuthStore.v ===== *)
(** The state of the authentication service: the tables of its database, the keys of
    Redis, the letters sent and the log of its audit, and the statements on them.

    A table is a map from its primary key to its rows (the migrations under
    [migrations/auth]); a column that a query does not read is left out, and so is the
    surrogate key of a table with another unique column.  An instant is a number of
    nanoseconds.  Every statement is one atomic step, and so is a transaction of the code
    whose rows are locked or whose keys are unique; a transaction that locks nothing is
    given as the statements it has.  The clock, the random numbers and the failures are
    those of an arbitrary run ([Env]): the step a program is at determines them, and a
    statement that fails may have been carried out all the same. *)

From S2P Require Import Prelude GoStrings Interleave Tables.
From stdpp Require Import options.
#[local] Open Scope Z_scope.

(** * Rows *)

(** The row of a user; [active_workspace_id] is no field of the Go struct. *)
Record User : Type := mkUser {
  u_ID : string;
  u_Email : string;
  u_Username : option string;
  u_DisplayName : option string;
  u_AvatarURL : option string;
  u_PasswordHash : option string;
  u_IsActive : bool;
  u_EmailVerified : bool;
  u_CreatedAt : Z;
  u_UpdatedAt : Z;
  u_LastLoginAt : option Z;
  u_FrozenAt : option Z;
  u_DeletedAt : option Z;
  u_PurgeAfter : option Z;
  u_PasswordChangedAt : option Z;
  u_ActiveWorkspaceID : option string;
}.
Definition set_u_Email (x : string) (u : User) : User :=
  mkUser (u_ID u) x (u_Username u) (u_DisplayName u) (u_AvatarURL u) (u_PasswordHash u) (u_IsActive u)
    (u_EmailVerified u) (u_CreatedAt u) (u_UpdatedAt u) (u_LastLoginAt u) (u_FrozenAt u) (u_DeletedAt u)
    (u_PurgeAfter u) (u_PasswordChangedAt u) (u_ActiveWorkspaceID u).
Definition set_u_DisplayName (x : option string) (u : User) : User :=
  mkUser (u_ID u) (u_Email u) (u_Username u) x (u_AvatarURL u) (u_PasswordHash u) (u_IsActive u)
    (u_EmailVerified u) (u_CreatedAt u) (u_UpdatedAt u) (u_LastLoginAt u) (u_FrozenAt u) (u_DeletedAt u)
    (u_PurgeAfter u) (u_PasswordChangedAt u) (u_ActiveWorkspaceID u).
Definition set_u_AvatarURL (x : option string) (u : User) : User :=
  mkUser (u_ID u) (u_Email u) (u_Username u) (u_DisplayName u) x (u_PasswordHash u) (u_IsActive u)
    (u_EmailVerified u) (u_CreatedAt u) (u_UpdatedAt u) (u_LastLoginAt u) (u_FrozenAt u) (u_DeletedAt u)
    (u_PurgeAfter u) (u_PasswordChangedAt u) (u_ActiveWorkspaceID u).
Definition set_u_PasswordHash (x : option string) (u : User) : User :=
  mkUser (u_ID u) (u_Email u) (u_Username u) (u_DisplayName u) (u_AvatarURL u) x (u_IsActive u) (u_EmailVerified u)
    (u_CreatedAt u) (u_UpdatedAt u) (u_LastLoginAt u) (u_FrozenAt u) (u_DeletedAt u) (u_PurgeAfter u)
    (u_PasswordChangedAt u) (u_ActiveWorkspaceID u).
Definition set_u_IsActive (x : bool) (u : User) : User :=
  mkUser (u_ID u) (u_Email u) (u_Username u) (u_DisplayName u) (u_AvatarURL u) (u_PasswordHash u) x
    (u_EmailVerified u) (u_CreatedAt u) (u_UpdatedAt u) (u_LastLoginAt u) (u_FrozenAt u) (u_DeletedAt u)
    (u_PurgeAfter u) (u_PasswordChangedAt u) (u_ActiveWorkspaceID u).
Definition set_u_EmailVerified (x : bool) (u : User) : User :=
  mkUser (u_ID u) (u_Email u) (u_Username u) (u_DisplayName u) (u_AvatarURL u) (u_PasswordHash u) (u_IsActive u) x
    (u_CreatedAt u) (u_UpdatedAt u) (u_LastLoginAt u) (u_FrozenAt u) (u_DeletedAt u) (u_PurgeAfter u)
    (u_PasswordChangedAt u) (u_ActiveWorkspaceID u).
Definition set_u_UpdatedAt (x : Z) (u : User) : User :=
  mkUser (u_ID u) (u_Email u) (u_Username u) (u_DisplayName u) (u_AvatarURL u) (u_PasswordHash u) (u_IsActive u)
    (u_EmailVerified u) (u_CreatedAt u) x (u_LastLoginAt u) (u_FrozenAt u) (u_DeletedAt u) (u_PurgeAfter u)
    (u_PasswordChangedAt u) (u_ActiveWorkspaceID u).
Definition set_u_LastLoginAt (x : option Z) (u : User) : User :=
  mkUser (u_ID u) (u_Email u) (u_Username u) (u_DisplayName u) (u_AvatarURL u) (u_PasswordHash u) (u_IsActive u)
    (u_EmailVerified u) (u_CreatedAt u) (u_UpdatedAt u) x (u_FrozenAt u) (u_DeletedAt u) (u_PurgeAfter u)
    (u_PasswordChangedAt u) (u_ActiveWorkspaceID u).
Definition set_u_FrozenAt (x : option Z) (u : User) : User :=
  mkUser (u_ID u) (u_Email u) (u_Username u) (u_DisplayName u) (u_AvatarURL u) (u_PasswordHash u) (u_IsActive u)
    (u_EmailVerified u) (u_CreatedAt u) (u_UpdatedAt u) (u_LastLoginAt u) x (u_DeletedAt u) (u_PurgeAfter u)
    (u_PasswordChangedAt u) (u_ActiveWorkspaceID u).
Definition set_u_DeletedAt (x : option Z) (u : User) : User :=
  mkUser (u_ID u) (u_Email u) (u_Username u) (u_DisplayName u) (u_AvatarURL u) (u_PasswordHash u) (u_IsActive u)
    (u_EmailVerified u) (u_CreatedAt u) (u_UpdatedAt u) (u_LastLoginAt u) (u_FrozenAt u) x (u_PurgeAfter u)
    (u_PasswordChangedAt u) (u_ActiveWorkspaceID u).
Definition set_u_PurgeAfter (x : option Z) (u : User) : User :=
  mkUser (u_ID u) (u_Email u) (u_Username u) (u_DisplayName u) (u_AvatarURL u) (u_PasswordHash u) (u_IsActive u)
    (u_EmailVerified u) (u_CreatedAt u) (u_UpdatedAt u) (u_LastLoginAt u) (u_FrozenAt u) (u_DeletedAt u) x
    (u_PasswordChangedAt u) (u_ActiveWorkspaceID u).
Definition set_u_PasswordChangedAt (x : option Z) (u : User) : User :=
  mkUser (u_ID u) (u_Email u) (u_Username u) (u_DisplayName u) (u_AvatarURL u) (u_PasswordHash u) (u_IsActive u)
    (u_EmailVerified u) (u_CreatedAt u) (u_UpdatedAt u) (u_LastLoginAt u) (u_FrozenAt u) (u_DeletedAt u)
    (u_PurgeAfter u) x (u_ActiveWorkspaceID u).
Definition set_u_ActiveWorkspaceID (x : option string) (u : User) : User :=
  mkUser (u_ID u) (u_Email u) (u_Username u) (u_DisplayName u) (u_AvatarURL u) (u_PasswordHash u) (u_IsActive u)
    (u_EmailVerified u) (u_CreatedAt u) (u_UpdatedAt u) (u_LastLoginAt u) (u_FrozenAt u) (u_DeletedAt u)
    (u_PurgeAfter u) (u_PasswordChangedAt u) x.

(** [s_RefreshToken] is the hash of the token. *)
Record Session : Type := mkSession {
  s_ID : string;
  s_UserID : string;
  s_RefreshToken : string;
  s_UserAgent : option string;
  s_IPAddress : option string;
  s_DeviceFingerprint : option string;
  s_CreatedAt : Z;
  s_ExpiresAt : Z;
  s_LastActiveAt : Z;
  s_AbsoluteExpiresAt : Z;
  s_RevokedAt : option Z;
}.
Definition set_s_RevokedAt (x : option Z) (s : Session) : Session :=
  mkSession (s_ID s) (s_UserID s) (s_RefreshToken s) (s_UserAgent s) (s_IPAddress s) (s_DeviceFingerprint s)
    (s_CreatedAt s) (s_ExpiresAt s) (s_LastActiveAt s) (s_AbsoluteExpiresAt s) x.

(** [magic_link_tokens], by the hash of the token. *)
Record MagicLink : Type := mkMagicLink {
  ml_Email : string;
  ml_UserID : option string;
  ml_ExpiresAt : Z;
  ml_ConsumedAt : option Z;
  ml_IPAddress : option string;
}.
Definition set_ml_ConsumedAt (x : option Z) (m : MagicLink) : MagicLink :=
  mkMagicLink (ml_Email m) (ml_UserID m) (ml_ExpiresAt m) x (ml_IPAddress m).

(** [account_unlock_tokens], [password_reset_tokens], [email_verification_tokens], by the token. *)
Record UserToken : Type := mkUserToken {
  t_UserID : string;
  t_ExpiresAt : Z;
  t_UsedAt : option Z;
}.
Definition set_t_UsedAt (x : option Z) (u : UserToken) : UserToken := mkUserToken (t_UserID u) (t_ExpiresAt u) x.

Record EmailChangeRequest : Type := mkEmailChange {
  ec_ID : string;
  ec_UserID : string;
  ec_OldEmail : string;
  ec_NewEmail : string;
  ec_OldEmailToken : string;
  ec_NewEmailToken : string;
  ec_OldEmailConfirmedAt : option Z;
  ec_NewEmailConfirmedAt : option Z;
  ec_RequestedAt : Z;
  ec_NotBefore : Z;
  ec_ExpiresAt : Z;
  ec_CompletedAt : option Z;
}.
Definition set_ec_OldEmailConfirmedAt (x : option Z) (e : EmailChangeRequest) : EmailChangeRequest :=
  mkEmailChange (ec_ID e) (ec_UserID e) (ec_OldEmail e) (ec_NewEmail e) (ec_OldEmailToken e) (ec_NewEmailToken e) x
    (ec_NewEmailConfirmedAt e) (ec_RequestedAt e) (ec_NotBefore e) (ec_ExpiresAt e) (ec_CompletedAt e).
Definition set_ec_NewEmailConfirmedAt (x : option Z) (e : EmailChangeRequest) : EmailChangeRequest :=
  mkEmailChange (ec_ID e) (ec_UserID e) (ec_OldEmail e) (ec_NewEmail e) (ec_OldEmailToken e) (ec_NewEmailToken e)
    (ec_OldEmailConfirmedAt e) x (ec_RequestedAt e) (ec_NotBefore e) (ec_ExpiresAt e) (ec_CompletedAt e).
Definition set_ec_CompletedAt (x : option Z) (e : EmailChangeRequest) : EmailChangeRequest :=
  mkEmailChange (ec_ID e) (ec_UserID e) (ec_OldEmail e) (ec_NewEmail e) (ec_OldEmailToken e) (ec_NewEmailToken e)
    (ec_OldEmailConfirmedAt e) (ec_NewEmailConfirmedAt e) (ec_RequestedAt e) (ec_NotBefore e) (ec_ExpiresAt e) x.

Record PersonalAccessToken : Type := mkPAT {
  pat_ID : string;
  pat_UserID : string;
  pat_Name : string;
  pat_TokenHash : string;
  pat_TokenPrefix : string;
  pat_CreatedAt : Z;
  pat_ExpiresAt : option Z;
  pat_LastUsedAt : option Z;
  pat_RevokedAt : option Z;
}.
Definition set_pat_LastUsedAt (x : option Z) (p : PersonalAccessToken) : PersonalAccessToken :=
  mkPAT (pat_ID p) (pat_UserID p) (pat_Name p) (pat_TokenHash p) (pat_TokenPrefix p) (pat_CreatedAt p)
    (pat_ExpiresAt p) x (pat_RevokedAt p).
Definition set_pat_RevokedAt (x : option Z) (p : PersonalAccessToken) : PersonalAccessToken :=
  mkPAT (pat_ID p) (pat_UserID p) (pat_Name p) (pat_TokenHash p) (pat_TokenPrefix p) (pat_CreatedAt p)
    (pat_ExpiresAt p) (pat_LastUsedAt p) x.

Record Passkey : Type := mkPasskey {
  pk_ID : string;
  pk_UserID : string;
  pk_CredentialID : string;
  pk_PublicKey : string;
  pk_SignCount : Z;
  pk_Name : option string;
  pk_CreatedAt : Z;
  pk_LastUsedAt : option Z;
}.
Definition set_pk_SignCount (x : Z) (p : Passkey) : Passkey :=
  mkPasskey (pk_ID p) (pk_UserID p) (pk_CredentialID p) (pk_PublicKey p) x (pk_Name p) (pk_CreatedAt p)
    (pk_LastUsedAt p).
Definition set_pk_LastUsedAt (x : option Z) (p : Passkey) : Passkey :=
  mkPasskey (pk_ID p) (pk_UserID p) (pk_CredentialID p) (pk_PublicKey p) (pk_SignCount p) (pk_Name p)
    (pk_CreatedAt p) x.
Definition set_pk_Name (x : option string) (p : Passkey) : Passkey :=
  mkPasskey (pk_ID p) (pk_UserID p) (pk_CredentialID p) (pk_PublicKey p) (pk_SignCount p) x (pk_CreatedAt p)
    (pk_LastUsedAt p).

Record WebAuthnChallenge : Type := mkChallenge {
  wc_Challenge : string;
  wc_UserID : option string;
  wc_ExpiresAt : Z;
}.

(** [user_mfa], by user; the secret as the code sees it, decrypted. *)
Record Enrollment : Type := mkEnrollment {
  e_Method : string;
  e_Secret : string;
  e_RecoveryCodes : list string;
  e_BypassCodes : list string;
  e_Enabled : bool;
  e_VerifiedAt : option Z;
  e_LastUsedAt : option Z;
  e_LastTOTPStep : Z;
}.
Definition set_e_RecoveryCodes (x : list string) (e : Enrollment) : Enrollment :=
  mkEnrollment (e_Method e) (e_Secret e) x (e_BypassCodes e) (e_Enabled e) (e_VerifiedAt e) (e_LastUsedAt e)
    (e_LastTOTPStep e).
Definition set_e_BypassCodes (x : list string) (e : Enrollment) : Enrollment :=
  mkEnrollment (e_Method e) (e_Secret e) (e_RecoveryCodes e) x (e_Enabled e) (e_VerifiedAt e) (e_LastUsedAt e)
    (e_LastTOTPStep e).
Definition set_e_Enabled (x : bool) (e : Enrollment) : Enrollment :=
  mkEnrollment (e_Method e) (e_Secret e) (e_RecoveryCodes e) (e_BypassCodes e) x (e_VerifiedAt e) (e_LastUsedAt e)
    (e_LastTOTPStep e).
Definition set_e_VerifiedAt (x : option Z) (e : Enrollment) : Enrollment :=
  mkEnrollment (e_Method e) (e_Secret e) (e_RecoveryCodes e) (e_BypassCodes e) (e_Enabled e) x (e_LastUsedAt e)
    (e_LastTOTPStep e).
Definition set_e_LastUsedAt (x : option Z) (e : Enrollment) : Enrollment :=
  mkEnrollment (e_Method e) (e_Secret e) (e_RecoveryCodes e) (e_BypassCodes e) (e_Enabled e) (e_VerifiedAt e) x
    (e_LastTOTPStep e).
Definition set_e_LastTOTPStep (x : Z) (e : Enrollment) : Enrollment :=
  mkEnrollment (e_Method e) (e_Secret e) (e_RecoveryCodes e) (e_BypassCodes e) (e_Enabled e) (e_VerifiedAt e)
    (e_LastUsedAt e) x.

Record PasswordEntry : Type := mkPasswordEntry {
  ph_UserID : string;
  ph_Hash : string;
  ph_CreatedAt : Z;
}.

(** By user and fingerprint. *)
Record KnownDevice : Type := mkDevice {
  kd_FirstSeenAt : Z;
  kd_LastSeenAt : Z;
}.

Record Workspace : Type := mkWorkspace {
  ws_ID : string;
  ws_Name : string;
  ws_Slug : string;
  ws_Description : option string;
  ws_IsPersonal : bool;
  ws_MFARequired : bool;
  ws_PublicSharingEnabled : bool;
  ws_CreatedBy : string;
  ws_CreatedAt : Z;
  ws_UpdatedAt : Z;
}.
Definition set_ws_Name (x : string) (w : Workspace) : Workspace :=
  mkWorkspace (ws_ID w) x (ws_Slug w) (ws_Description w) (ws_IsPersonal w) (ws_MFARequired w)
    (ws_PublicSharingEnabled w) (ws_CreatedBy w) (ws_CreatedAt w) (ws_UpdatedAt w).
Definition set_ws_Description (x : option string) (w : Workspace) : Workspace :=
  mkWorkspace (ws_ID w) (ws_Name w) (ws_Slug w) x (ws_IsPersonal w) (ws_MFARequired w) (ws_PublicSharingEnabled w)
    (ws_CreatedBy w) (ws_CreatedAt w) (ws_UpdatedAt w).
Definition set_ws_MFARequired (x : bool) (w : Workspace) : Workspace :=
  mkWorkspace (ws_ID w) (ws_Name w) (ws_Slug w) (ws_Description w) (ws_IsPersonal w) x (ws_PublicSharingEnabled w)
    (ws_CreatedBy w) (ws_CreatedAt w) (ws_UpdatedAt w).
Definition set_ws_PublicSharingEnabled (x : bool) (w : Workspace) : Workspace :=
  mkWorkspace (ws_ID w) (ws_Name w) (ws_Slug w) (ws_Description w) (ws_IsPersonal w) (ws_MFARequired w) x
    (ws_CreatedBy w) (ws_CreatedAt w) (ws_UpdatedAt w).
Definition set_ws_UpdatedAt (x : Z) (w : Workspace) : Workspace :=
  mkWorkspace (ws_ID w) (ws_Name w) (ws_Slug w) (ws_Description w) (ws_IsPersonal w) (ws_MFARequired w)
    (ws_PublicSharingEnabled w) (ws_CreatedBy w) (ws_CreatedAt w) x.

(** [workspace_members], by workspace and user. *)
Record Membership : Type := mkMembership {
  m_RoleID : string;
  m_JoinedAt : Z;
  m_InvitedBy : option string;
}.
Definition set_m_RoleID (x : string) (m : Membership) : Membership := mkMembership x (m_JoinedAt m) (m_InvitedBy m).

Record Permission : Type := mkPermission {
  p_Name : string;
  p_Resource : string;
  p_Action : string;
}.

(** [inv_Token] is the hash of the token. *)
Record Invitation : Type := mkInvitation {
  inv_ID : string;
  inv_Email : string;
  inv_Token : option string;
  inv_RoleID : string;
  inv_InvitedBy : string;
  inv_CreatedAt : Z;
  inv_ExpiresAt : Z;
  inv_ClaimedAt : option Z;
}.
Definition set_inv_InvitedBy (x : string) (i : Invitation) : Invitation :=
  mkInvitation (inv_ID i) (inv_Email i) (inv_Token i) (inv_RoleID i) x (inv_CreatedAt i) (inv_ExpiresAt i)
    (inv_ClaimedAt i).
Definition set_inv_ClaimedAt (x : option Z) (i : Invitation) : Invitation :=
  mkInvitation (inv_ID i) (inv_Email i) (inv_Token i) (inv_RoleID i) (inv_InvitedBy i) (inv_CreatedAt i)
    (inv_ExpiresAt i) x.

Record DatasourceAccess : Type := mkAccess {
  da_ID : string;
  da_UserID : string;
  da_DatasourceID : string;
  da_AccessLevel : string;
  da_GrantedBy : option string;
  da_GrantedAt : Z;
}.
Definition set_da_AccessLevel (x : string) (d : DatasourceAccess) : DatasourceAccess :=
  mkAccess (da_ID d) (da_UserID d) (da_DatasourceID d) x (da_GrantedBy d) (da_GrantedAt d).

(** [resource_shares] *)
Record Share : Type := mkShare {
  sh_ID : string;
  sh_ResourceType : string;
  sh_ResourceID : string;
  sh_OwnerID : string;
  sh_SharedWith : option string;
  sh_WorkspaceID : option string;
  sh_Permission : string;
  sh_CreatedAt : Z;
}.
Definition set_sh_Permission (x : string) (s : Share) : Share :=
  mkShare (sh_ID s) (sh_ResourceType s) (sh_ResourceID s) (sh_OwnerID s) (sh_SharedWith s) (sh_WorkspaceID s) x
    (sh_CreatedAt s).

(** [ldap_config]; the settings of the directory as one value. *)
Record LDAPConfig : Type := mkLDAPConfig {
  ldap_Enabled : bool;
  ldap_AutoCreateUsers : bool;
  ldap_Settings : string;
}.

Record AuditEntry : Type := mkAudit {
  a_UserID : option string;
  a_Action : string;
  a_Resource : option string;
  a_ResourceID : option string;
  a_IPAddress : option string;
  a_CreatedAt : Z;
}.

(** * The database *)

(** [roles] are the names by id; [role_inheritance] pairs parent and child; [oauth_accounts] are the users by
    provider and identity there; [user_roles] are user, role,
    scope type and scope; [workspace_datasources] are the levels; [password_history] and [audit_log] in the
    order of their insertion. *)
Record DB : Type := mkDB {
  users : gmap string User;
  sessions : gmap string Session;
  magic_links : gmap string MagicLink;
  unlock_tokens : gmap string UserToken;
  reset_tokens : gmap string UserToken;
  verify_tokens : gmap string UserToken;
  email_changes : gmap string EmailChangeRequest;
  access_tokens : gmap string PersonalAccessToken;
  oauth_accounts : gmap (string * string) string;
  passkeys : gmap string Passkey;
  challenges : list WebAuthnChallenge;
  user_mfa : gmap string Enrollment;
  password_history : list PasswordEntry;
  known_devices : gmap (string * string) KnownDevice;
  workspaces : gmap string Workspace;
  members : gmap (string * string) Membership;
  roles : gmap string string;
  role_inheritance : gset (string * string);
  permissions : gmap string Permission;
  role_permissions : gset (string * string);
  user_roles : gset (string * string * string * string);
  invitations : gmap string Invitation;
  datasource_access : gmap string DatasourceAccess;
  workspace_datasources : gmap (string * string) string;
  shares : gmap string Share;
  platform_settings : option bool;
  ldap_config : option LDAPConfig;
  audit_log : list AuditEntry;
}.
Definition set_users (x : gmap string User) (d : DB) : DB :=
  mkDB x (sessions d) (magic_links d) (unlock_tokens d) (reset_tokens d) (verify_tokens d) (email_changes d)
    (access_tokens d) (oauth_accounts d) (passkeys d) (challenges d) (user_mfa d) (password_history d)
    (known_devices d) (workspaces d) (members d) (roles d) (role_inheritance d) (permissions d)
    (role_permissions d) (user_roles d) (invitations d) (datasource_access d) (workspace_datasources d) (shares d)
    (platform_settings d) (ldap_config d) (audit_log d).
Definition set_sessions (x : gmap string Session) (d : DB) : DB :=
  mkDB (users d) x (magic_links d) (unlock_tokens d) (reset_tokens d) (verify_tokens d) (email_changes d)
    (access_tokens d) (oauth_accounts d) (passkeys d) (challenges d) (user_mfa d) (password_history d)
    (known_devices d) (workspaces d) (members d) (roles d) (role_inheritance d) (permissions d)
    (role_permissions d) (user_roles d) (invitations d) (datasource_access d) (workspace_datasources d) (shares d)
    (platform_settings d) (ldap_config d) (audit_log d).
Definition set_magic_links (x : gmap string MagicLink) (d : DB) : DB :=
  mkDB (users d) (sessions d) x (unlock_tokens d) (reset_tokens d) (verify_tokens d) (email_changes d)
    (access_tokens d) (oauth_accounts d) (passkeys d) (challenges d) (user_mfa d) (password_history d)
    (known_devices d) (workspaces d) (members d) (roles d) (role_inheritance d) (permissions d)
    (role_permissions d) (user_roles d) (invitations d) (datasource_access d) (workspace_datasources d) (shares d)
    (platform_settings d) (ldap_config d) (audit_log d).
Definition set_unlock_tokens (x : gmap string UserToken) (d : DB) : DB :=
  mkDB (users d) (sessions d) (magic_links d) x (reset_tokens d) (verify_tokens d) (email_changes d)
    (access_tokens d) (oauth_accounts d) (passkeys d) (challenges d) (user_mfa d) (password_history d)
    (known_devices d) (workspaces d) (members d) (roles d) (role_inheritance d) (permissions d)
    (role_permissions d) (user_roles d) (invitations d) (datasource_access d) (workspace_datasources d) (shares d)
    (platform_settings d) (ldap_config d) (audit_log d).
Definition set_reset_tokens (x : gmap string UserToken) (d : DB) : DB :=
  mkDB (users d) (sessions d) (magic_links d) (unlock_tokens d) x (verify_tokens d) (email_changes d)
    (access_tokens d) (oauth_accounts d) (passkeys d) (challenges d) (user_mfa d) (password_history d)
    (known_devices d) (workspaces d) (members d) (roles d) (role_inheritance d) (permissions d)
    (role_permissions d) (user_roles d) (invitations d) (datasource_access d) (workspace_datasources d) (shares d)
    (platform_settings d) (ldap_config d) (audit_log d).
Definition set_verify_tokens (x : gmap string UserToken) (d : DB) : DB :=
  mkDB (users d) (sessions d) (magic_links d) (unlock_tokens d) (reset_tokens d) x (email_changes d)
    (access_tokens d) (oauth_accounts d) (passkeys d) (challenges d) (user_mfa d) (password_history d)
    (known_devices d) (workspaces d) (members d) (roles d) (role_inheritance d) (permissions d)
    (role_permissions d) (user_roles d) (invitations d) (datasource_access d) (workspace_datasources d) (shares d)
    (platform_settings d) (ldap_config d) (audit_log d).
Definition set_email_changes (x : gmap string EmailChangeRequest) (d : DB) : DB :=
  mkDB (users d) (sessions d) (magic_links d) (unlock_tokens d) (reset_tokens d) (verify_tokens d) x
    (access_tokens d) (oauth_accounts d) (passkeys d) (challenges d) (user_mfa d) (password_history d)
    (known_devices d) (workspaces d) (members d) (roles d) (role_inheritance d) (permissions d)
    (role_permissions d) (user_roles d) (invitations d) (datasource_access d) (workspace_datasources d) (shares d)
    (platform_settings d) (ldap_config d) (audit_log d).
Definition set_access_tokens (x : gmap string PersonalAccessToken) (d : DB) : DB :=
  mkDB (users d) (sessions d) (magic_links d) (unlock_tokens d) (reset_tokens d) (verify_tokens d)
    (email_changes d) x (oauth_accounts d) (passkeys d) (challenges d) (user_mfa d) (password_history d)
    (known_devices d) (workspaces d) (members d) (roles d) (role_inheritance d) (permissions d)
    (role_permissions d) (user_roles d) (invitations d) (datasource_access d) (workspace_datasources d) (shares d)
    (platform_settings d) (ldap_config d) (audit_log d).
Definition set_oauth_accounts (x : gmap (string * string) string) (d : DB) : DB :=
  mkDB (users d) (sessions d) (magic_links d) (unlock_tokens d) (reset_tokens d) (verify_tokens d)
    (email_changes d) (access_tokens d) x (passkeys d) (challenges d) (user_mfa d) (password_history d)
    (known_devices d) (workspaces d) (members d) (roles d) (role_inheritance d) (permissions d)
    (role_permissions d) (user_roles d) (invitations d) (datasource_access d) (workspace_datasources d) (shares d)
    (platform_settings d) (ldap_config d) (audit_log d).
Definition set_passkeys (x : gmap string Passkey) (d : DB) : DB :=
  mkDB (users d) (sessions d) (magic_links d) (unlock_tokens d) (reset_tokens d) (verify_tokens d)
    (email_changes d) (access_tokens d) (oauth_accounts d) x (challenges d) (user_mfa d) (password_history d)
    (known_devices d) (workspaces d) (members d) (roles d) (role_inheritance d) (permissions d)
    (role_permissions d) (user_roles d) (invitations d) (datasource_access d) (workspace_datasources d) (shares d)
    (platform_settings d) (ldap_config d) (audit_log d).
Definition set_challenges (x : list WebAuthnChallenge) (d : DB) : DB :=
  mkDB (users d) (sessions d) (magic_links d) (unlock_tokens d) (reset_tokens d) (verify_tokens d)
    (email_changes d) (access_tokens d) (oauth_accounts d) (passkeys d) x (user_mfa d) (password_history d)
    (known_devices d) (workspaces d) (members d) (roles d) (role_inheritance d) (permissions d)
    (role_permissions d) (user_roles d) (invitations d) (datasource_access d) (workspace_datasources d) (shares d)
    (platform_settings d) (ldap_config d) (audit_log d).
Definition set_user_mfa (x : gmap string Enrollment) (d : DB) : DB :=
  mkDB (users d) (sessions d) (magic_links d) (unlock_tokens d) (reset_tokens d) (verify_tokens d)
    (email_changes d) (access_tokens d) (oauth_accounts d) (passkeys d) (challenges d) x (password_history d)
    (known_devices d) (workspaces d) (members d) (roles d) (role_inheritance d) (permissions d)
    (role_permissions d) (user_roles d) (invitations d) (datasource_access d) (workspace_datasources d) (shares d)
    (platform_settings d) (ldap_config d) (audit_log d).
Definition set_password_history (x : list PasswordEntry) (d : DB) : DB :=
  mkDB (users d) (sessions d) (magic_links d) (unlock_tokens d) (reset_tokens d) (verify_tokens d)
    (email_changes d) (access_tokens d) (oauth_accounts d) (passkeys d) (challenges d) (user_mfa d) x
    (known_devices d) (workspaces d) (members d) (roles d) (role_inheritance d) (permissions d)
    (role_permissions d) (user_roles d) (invitations d) (datasource_access d) (workspace_datasources d) (shares d)
    (platform_settings d) (ldap_config d) (audit_log d).
Definition set_known_devices (x : gmap (string * string) KnownDevice) (d : DB) : DB :=
  mkDB (users d) (sessions d) (magic_links d) (unlock_tokens d) (reset_tokens d) (verify_tokens d)
    (email_changes d) (access_tokens d) (oauth_accounts d) (passkeys d) (challenges d) (user_mfa d)
    (password_history d) x (workspaces d) (members d) (roles d) (role_inheritance d) (permissions d)
    (role_permissions d) (user_roles d) (invitations d) (datasource_access d) (workspace_datasources d) (shares d)
    (platform_settings d) (ldap_config d) (audit_log d).
Definition set_workspaces (x : gmap string Workspace) (d : DB) : DB :=
  mkDB (users d) (sessions d) (magic_links d) (unlock_tokens d) (reset_tokens d) (verify_tokens d)
    (email_changes d) (access_tokens d) (oauth_accounts d) (passkeys d) (challenges d) (user_mfa d)
    (password_history d) (known_devices d) x (members d) (roles d) (role_inheritance d) (permissions d)
    (role_permissions d) (user_roles d) (invitations d) (datasource_access d) (workspace_datasources d) (shares d)
    (platform_settings d) (ldap_config d) (audit_log d).
Definition set_members (x : gmap (string * string) Membership) (d : DB) : DB :=
  mkDB (users d) (sessions d) (magic_links d) (unlock_tokens d) (reset_tokens d) (verify_tokens d)
    (email_changes d) (access_tokens d) (oauth_accounts d) (passkeys d) (challenges d) (user_mfa d)
    (password_history d) (known_devices d) (workspaces d) x (roles d) (role_inheritance d) (permissions d)
    (role_permissions d) (user_roles d) (invitations d) (datasource_access d) (workspace_datasources d) (shares d)
    (platform_settings d) (ldap_config d) (audit_log d).
Definition set_roles (x : gmap string string) (d : DB) : DB :=
  mkDB (users d) (sessions d) (magic_links d) (unlock_tokens d) (reset_tokens d) (verify_tokens d)
    (email_changes d) (access_tokens d) (oauth_accounts d) (passkeys d) (challenges d) (user_mfa d)
    (password_history d) (known_devices d) (workspaces d) (members d) x (role_inheritance d) (permissions d)
    (role_permissions d) (user_roles d) (invitations d) (datasource_access d) (workspace_datasources d) (shares d)
    (platform_settings d) (ldap_config d) (audit_log d).
Definition set_role_inheritance (x : gset (string * string)) (d : DB) : DB :=
  mkDB (users d) (sessions d) (magic_links d) (unlock_tokens d) (reset_tokens d) (verify_tokens d)
    (email_changes d) (access_tokens d) (oauth_accounts d) (passkeys d) (challenges d) (user_mfa d)
    (password_history d) (known_devices d) (workspaces d) (members d) (roles d) x (permissions d)
    (role_permissions d) (user_roles d) (invitations d) (datasource_access d) (workspace_datasources d) (shares d)
    (platform_settings d) (ldap_config d) (audit_log d).
Definition set_permissions (x : gmap string Permission) (d : DB) : DB :=
  mkDB (users d) (sessions d) (magic_links d) (unlock_tokens d) (reset_tokens d) (verify_tokens d)
    (email_changes d) (access_tokens d) (oauth_accounts d) (passkeys d) (challenges d) (user_mfa d)
    (password_history d) (known_devices d) (workspaces d) (members d) (roles d) (role_inheritance d) x
    (role_permissions d) (user_roles d) (invitations d) (datasource_access d) (workspace_datasources d) (shares d)
    (platform_settings d) (ldap_config d) (audit_log d).
Definition set_role_permissions (x : gset (string * string)) (d : DB) : DB :=
  mkDB (users d) (sessions d) (magic_links d) (unlock_tokens d) (reset_tokens d) (verify_tokens d)
    (email_changes d) (access_tokens d) (oauth_accounts d) (passkeys d) (challenges d) (user_mfa d)
    (password_history d) (known_devices d) (workspaces d) (members d) (roles d) (role_inheritance d)
    (permissions d) x (user_roles d) (invitations d) (datasource_access d) (workspace_datasources d) (shares d)
    (platform_settings d) (ldap_config d) (audit_log d).
Definition set_user_roles (x : gset (string * string * string * string)) (d : DB) : DB :=
  mkDB (users d) (sessions d) (magic_links d) (unlock_tokens d) (reset_tokens d) (verify_tokens d)
    (email_changes d) (access_tokens d) (oauth_accounts d) (passkeys d) (challenges d) (user_mfa d)
    (password_history d) (known_devices d) (workspaces d) (members d) (roles d) (role_inheritance d)
    (permissions d) (role_permissions d) x (invitations d) (datasource_access d) (workspace_datasources d)
    (shares d) (platform_settings d) (ldap_config d) (audit_log d).
Definition set_invitations (x : gmap string Invitation) (d : DB) : DB :=
  mkDB (users d) (sessions d) (magic_links d) (unlock_tokens d) (reset_tokens d) (verify_tokens d)
    (email_changes d) (access_tokens d) (oauth_accounts d) (passkeys d) (challenges d) (user_mfa d)
    (password_history d) (known_devices d) (workspaces d) (members d) (roles d) (role_inheritance d)
    (permissions d) (role_permissions d) (user_roles d) x (datasource_access d) (workspace_datasources d)
    (shares d) (platform_settings d) (ldap_config d) (audit_log d).
Definition set_datasource_access (x : gmap string DatasourceAccess) (d : DB) : DB :=
  mkDB (users d) (sessions d) (magic_links d) (unlock_tokens d) (reset_tokens d) (verify_tokens d)
    (email_changes d) (access_tokens d) (oauth_accounts d) (passkeys d) (challenges d) (user_mfa d)
    (password_history d) (known_devices d) (workspaces d) (members d) (roles d) (role_inheritance d)
    (permissions d) (role_permissions d) (user_roles d) (invitations d) x (workspace_datasources d) (shares d)
    (platform_settings d) (ldap_config d) (audit_log d).
Definition set_workspace_datasources (x : gmap (string * string) string) (d : DB) : DB :=
  mkDB (users d) (sessions d) (magic_links d) (unlock_tokens d) (reset_tokens d) (verify_tokens d)
    (email_changes d) (access_tokens d) (oauth_accounts d) (passkeys d) (challenges d) (user_mfa d)
    (password_history d) (known_devices d) (workspaces d) (members d) (roles d) (role_inheritance d)
    (permissions d) (role_permissions d) (user_roles d) (invitations d) (datasource_access d) x (shares d)
    (platform_settings d) (ldap_config d) (audit_log d).
Definition set_shares (x : gmap string Share) (d : DB) : DB :=
  mkDB (users d) (sessions d) (magic_links d) (unlock_tokens d) (reset_tokens d) (verify_tokens d)
    (email_changes d) (access_tokens d) (oauth_accounts d) (passkeys d) (challenges d) (user_mfa d)
    (password_history d) (known_devices d) (workspaces d) (members d) (roles d) (role_inheritance d)
    (permissions d) (role_permissions d) (user_roles d) (invitations d) (datasource_access d)
    (workspace_datasources d) x (platform_settings d) (ldap_config d) (audit_log d).
Definition set_platform_settings (x : option bool) (d : DB) : DB :=
  mkDB (users d) (sessions d) (magic_links d) (unlock_tokens d) (reset_tokens d) (verify_tokens d)
    (email_changes d) (access_tokens d) (oauth_accounts d) (passkeys d) (challenges d) (user_mfa d)
    (password_history d) (known_devices d) (workspaces d) (members d) (roles d) (role_inheritance d)
    (permissions d) (role_permissions d) (user_roles d) (invitations d) (datasource_access d)
    (workspace_datasources d) (shares d) x (ldap_config d) (audit_log d).
Definition set_ldap_config (x : option LDAPConfig) (d : DB) : DB :=
  mkDB (users d) (sessions d) (magic_links d) (unlock_tokens d) (reset_tokens d) (verify_tokens d)
    (email_changes d) (access_tokens d) (oauth_accounts d) (passkeys d) (challenges d) (user_mfa d)
    (password_history d) (known_devices d) (workspaces d) (members d) (roles d) (role_inheritance d)
    (permissions d) (role_permissions d) (user_roles d) (invitations d) (datasource_access d)
    (workspace_datasources d) (shares d) (platform_settings d) x (audit_log d).
Definition set_audit_log (x : list AuditEntry) (d : DB) : DB :=
  mkDB (users d) (sessions d) (magic_links d) (unlock_tokens d) (reset_tokens d) (verify_tokens d)
    (email_changes d) (access_tokens d) (oauth_accounts d) (passkeys d) (challenges d) (user_mfa d)
    (password_history d) (known_devices d) (workspaces d) (members d) (roles d) (role_inheritance d)
    (permissions d) (role_permissions d) (user_roles d) (invitations d) (datasource_access d)
    (workspace_datasources d) (shares d) (platform_settings d) (ldap_config d) x.

(** * Redis *)

Inductive rvalue : Type := RInt (n : Z) | RStr (s : string) | RSet (l : list string).
(** A value and the instant it expires at. *)
Definition Redis : Type := gmap string (rvalue * option Z).
Definition live (now : Z) (e : rvalue * option Z) : bool := match e.2 with Some t => now <? t | None => true end.
Definition redis_get (now : Z) (key : string) (r : Redis) : option rvalue :=
  match r !! key with Some e => if live now e then Some e.1 else None | None => None end.

(** * Letters *)

Inductive Letter : Type :=
| EmailVerification (to token : string)
| DuplicateRegistrationNotice (to : string)
| NewDeviceLogin (to : string)
| PasswordReset (to token : string)
| AccountUnlock (to token : string)
| AccountDeletionScheduled (to : string) (purgeAt : Z)
| EmailChangeConfirmation (to token : string) (newAddress : bool)
| MagicLinkLetter (to token : string)
| InvitationLetter (to token role : string) (expiresAt : Z).

(** * The world *)

(** What a process keeps in memory, under locks: the states of OAuth when there is no Redis,
    with the instant they expire at, and the answers to permission checks, with the
    instant they were given at. *)
Record Memory : Type := mkMemory { oauth_states : gmap string (string * Z); check_cache : gmap string (bool * Z) }.

Record World : Type := mkWorld {
  w_db : DB;
  w_redis : Redis;
  w_letters : list Letter;
  w_memory : Memory;
  (** the steps made so far *)
  w_tick : nat;
}.

(** What a run is given: the clock and the random numbers of each step, the statements,
    commands and letters that fail, and whether a statement that fails was carried out;
    the functions of Go's libraries and of the directory that the code calls. *)
Class Env : Type := {
  time : nat -> Z;
  db_fault : nat -> option (goerr * bool);
  redis_fault : nat -> option (goerr * bool);
  mail_fault : nat -> option goerr;
  (** so many random bytes; the encodings of [encoding/base64] and [encoding/base32]; a key of the database *)
  random : nat -> nat -> res string;
  Base64URL : string -> string;
  RawBase64URL : string -> string;
  Base32 : string -> string;
  new_id : nat -> nat -> string;
  (** [hex.EncodeToString] of SHA-256, and of its first eight bytes *)
  sha256_hex : string -> string;
  sha256_prefix : string -> string;
  (** [bcrypt.GenerateFromPassword] and [bcrypt.CompareHashAndPassword] *)
  bcrypt_generate : nat -> string -> res string;
  bcrypt_compare : string -> string -> bool;
  (** [norm.NFKC.String], and [mail.ParseAddress] as the name and the address *)
  NFKC : string -> string;
  ParseAddress : string -> res (string * string);
  (** [net.SplitHostPort], the host; the texts the database reads as an [inet] *)
  SplitHost : string -> option string;
  inet_ok : string -> bool;
}.

Section Statements.
Context `{Env}.

(** The value of an [inet] column. *)
Definition valid_inet (ip : option string) : bool := match ip with Some s => inet_ok s | None => true end.

Definition next (w : World) : World := mkWorld (w_db w) (w_redis w) (w_letters w) (w_memory w) (S (w_tick w)).
Definition set_db (d : DB) (w : World) : World := mkWorld d (w_redis w) (w_letters w) (w_memory w) (w_tick w).
Definition set_redis (r : Redis) (w : World) : World := mkWorld (w_db w) r (w_letters w) (w_memory w) (w_tick w).

(** A statement of the database, or a transaction, at the instant [NOW()]. *)
Definition stmt {A} (f : Z -> DB -> DB * res A) : prog World (res A) :=
  atomic (fun w =>
    let t := w_tick w in
    let '(d, r) := f (time t) (w_db w) in
    match db_fault t with
    | Some (e, applied) => (if applied then set_db d (next w) else next w, Err e)
    | None => (set_db d (next w), r)
    end).
Definition query {A} (f : Z -> DB -> res A) : prog World (res A) := stmt (fun now d => (d, f now d)).
(** [ExecContext], whose result is the number of rows affected. *)
Definition update (f : Z -> DB -> DB) (n : Z -> DB -> nat) : prog World (res nat) := stmt (fun now d => (f now d, Ok (n now d))).
(** A transaction, or an insertion, with the keys it may give to new rows: nothing of it
    remains when it fails. *)
Definition in_tx {A} (f : (nat -> string) -> Z -> DB -> res (DB * A)) : prog World (res A) :=
  atomic (fun w =>
    let t := w_tick w in
    let '(d, r) := match f (new_id t) (time t) (w_db w) with Ok (d, a) => (d, Ok a) | Err e => (w_db w, Err e) end in
    match db_fault t with
    | Some (e, applied) => (if applied then set_db d (next w) else next w, Err e)
    | None => (set_db d (next w), r)
    end).

Definition now_ : prog World Z := atomic (fun w => (next w, time (w_tick w))).
Definition draw (n : nat) : prog World (res string) := atomic (fun w => (next w, random (w_tick w) n)).
Definition draw_text (encode : string -> string) (n : nat) : prog World (res string) :=
  try* b := draw n in Ret (Ok (encode b)).
Definition bcrypt (password : string) : prog World (res string) := atomic (fun w => (next w, bcrypt_generate (w_tick w) password)).

Definition command {A} (f : Z -> Redis -> Redis * res A) : prog World (res A) :=
  atomic (fun w =>
    let t := w_tick w in
    let '(r', a) := f (time t) (w_redis w) in
    match redis_fault t with
    | Some (e, applied) => (if applied then set_redis r' (next w) else next w, Err e)
    | None => (set_redis r' (next w), a)
    end).
(** [INCR]; the expiry of a live key stays. *)
Definition Incr (key : string) : prog World (res Z) := command (fun now r =>
  match r !! key with
  | Some (RInt n, e) => if live now (RInt n, e) then (<[key := (RInt (n + 1), e)]> r, Ok (n + 1)) else (<[key := (RInt 1, None)]> r, Ok 1)
  | Some (v, e) => if live now (v, e) then (r, Err (EMsg "ERR value is not an integer or out of range"))
                   else (<[key := (RInt 1, None)]> r, Ok 1)
  | None => (<[key := (RInt 1, None)]> r, Ok 1)
  end).
Definition Expire (key : string) (ttl : Z) : prog World (res unit) := command (fun now r =>
  (match r !! key with Some (v, e) => if live now (v, e) then <[key := (v, Some (now + ttl))]> r else r | None => r end, Ok tt)).
(** [GET key] as an integer. *)
Definition GetInt (key : string) : prog World (res Z) := command (fun now r =>
  (r, match redis_get now key r with Some (RInt n) => Ok n | Some _ => Err (EMsg "strconv.Atoi: invalid syntax") | None => Err (EMsg "redis: nil") end)).
Definition Set_ (key value : string) (ttl : Z) : prog World (res unit) :=
  command (fun now r => (<[key := (RStr value, Some (now + ttl))]> r, Ok tt)).
(** [SET NX]: whether the key was set. *)
Definition SetNX (key value : string) (ttl : Z) : prog World (res bool) := command (fun now r =>
  match redis_get now key r with Some _ => (r, Ok false) | None => (<[key := (RStr value, Some (now + ttl))]> r, Ok true) end).
Definition GetDel (key : string) : prog World (res (option string)) := command (fun now r =>
  match redis_get now key r with
  | Some (RStr v) => (delete key r, Ok (Some v))
  | Some (RInt n) => (delete key r, Ok (Some (Itoa n)))
  | Some (RSet _) => (r, Err (EMsg "WRONGTYPE Operation against a key holding the wrong kind of value"))
  | None => (delete key r, Ok None)
  end).
Definition Del (key : string) : prog World (res unit) := command (fun _ r => (delete key r, Ok tt)).

(** [SMEMBERS]; [DEL], [SADD] and [EXPIRE] in one transaction. *)
Definition SMembers (key : string) : prog World (res (list string)) := command (fun now r =>
  (r, match redis_get now key r with
      | Some (RSet l) => Ok l
      | Some _ => Err (EMsg "WRONGTYPE Operation against a key holding the wrong kind of value")
      | None => Ok []
      end)).
Definition ReplaceSet (key : string) (l : list string) (ttl : Z) : prog World (res unit) :=
  command (fun now r => (<[key := (RSet l, Some (now + ttl))]> r, Ok tt)).

(** An action on the memory of the process, under its lock. *)
Definition locally {A} (f : Z -> Memory -> Memory * A) : prog World A :=
  atomic (fun w => let '(m, a) := f (time (w_tick w)) (w_memory w) in (mkWorld (w_db w) (w_redis w) (w_letters w) m (S (w_tick w)), a)).

Definition send (l : Letter) : prog World (res unit) :=
  atomic (fun w =>
    match mail_fault (w_tick w) with
    | Some e => (next w, Err e)
    | None => (mkWorld (w_db w) (w_redis w) (w_letters w ++ [l]) (w_memory w) (S (w_tick w)), Ok tt)
    end).
End Statements.

(** * Errors *)

Definition bad_inet : goerr := EMsg "pq: invalid input syntax for type inet".
