(* ===== verification/AuthLogic.v ===== *)
(** Reasoning on programs of the authentication service: a tactic that
    walks through a program to its statements - what each does to the database, whatever
    others do in between - and the rules of the weakest precondition for the statements of a
    program that runs alone. *)

From S2P Require Import Prelude GoStrings Interleave Tables AuthStore.
From stdpp Require Import options.
#[local] Open Scope Z_scope.

(** A relation on databases, of the worlds that hold them. *)
Definition db_in (D : relation DB) (w w' : World) : Prop := D (w_db w) (w_db w').

Section Primitives.
Context `{Env} (D : relation DB) `{!Reflexive D}.

Lemma stmt_in {A} (f : Z -> DB -> DB * res A) : (forall now d, D d (f now d).1) -> steps_in (db_in D) (stmt f).
Proof using Type*.
  intros Hf. apply steps_in_atomic. intros w. unfold db_in. specialize (Hf (time (w_tick w)) (w_db w)).
  destruct (f _ _) as [d r]. by destruct (db_fault _) as [[e []]|].
Qed.
Lemma tx_in {A} (f : (nat -> string) -> Z -> DB -> res (DB * A)) :
  (forall ids now d d' a, f ids now d = Ok (d', a) -> D d d') -> steps_in (db_in D) (in_tx f).
Proof using Type*.
  intros Hf. apply steps_in_atomic. intros w. unfold db_in. specialize (Hf (new_id (w_tick w)) (time (w_tick w)) (w_db w)).
  destruct (f _ _ _) as [[d a]|e].
  - destruct (db_fault _) as [[e []]|]; cbn; [by eapply Hf|done|by eapply Hf].
  - by destruct (db_fault _) as [[e' []]|].
Qed.
Lemma query_in {A} (f : Z -> DB -> res A) : steps_in (db_in D) (query f).
Proof using Type*. by apply stmt_in. Qed.
Lemma update_in f n : (forall now d, D d (f now d)) -> steps_in (db_in D) (update f n).
Proof using Type*. intros Hf. by apply stmt_in. Qed.
Lemma outside_in {A} (f : World -> A) : steps_in (db_in D) (atomic (fun w => (next w, f w))).
Proof using Type*. apply steps_in_atomic. intros w. unfold db_in. reflexivity. Qed.
Lemma draw_in n : steps_in (db_in D) (draw n).
Proof using Type*. apply outside_in. Qed.
Lemma bcrypt_in p : steps_in (db_in D) (bcrypt p).
Proof using Type*. apply outside_in. Qed.
Lemma now_in : steps_in (db_in D) now_.
Proof using Type*. apply outside_in. Qed.
Lemma command_in {A} (f : Z -> Redis -> Redis * res A) : steps_in (db_in D) (command f).
Proof using Type*.
  apply steps_in_atomic. intros w. unfold db_in. destruct (f _ _) as [r a]. by destruct (redis_fault _) as [[e []]|].
Qed.
Lemma locally_in {A} (f : Z -> Memory -> Memory * A) : steps_in (db_in D) (locally f).
Proof using Type*. apply steps_in_atomic. intros w. unfold db_in. by destruct (f _ _). Qed.
Lemma send_in l : steps_in (db_in D) (send l).
Proof using Type*. apply steps_in_atomic. intros w. unfold db_in. by destruct (mail_fault _). Qed.
End Primitives.

(** Splits the hypotheses that say what a transaction computed. *)
Ltac split_tx :=
  repeat match goal with
  | H : res_bind ?m _ = Ok _ |- _ => destruct m as [?|?] eqn:?; cbn [res_bind] in H; [|discriminate H]
  | H : res_map_err _ ?m = Ok _ |- _ => destruct m as [?|?] eqn:?; cbn [res_map_err] in H; [|discriminate H]
  | H : row_or _ ?m = Ok _ |- _ => destruct m as [?|] eqn:?; cbn [row_or] in H; [|discriminate H]
  | H : (match ?x with _ => _ end) = Ok _ |- _ => destruct x eqn:?; try discriminate H
  | H : Ok _ = Ok _ |- _ => injection H as H; subst
  | H : (_, _) = (_, _) |- _ => injection H as H; subst
  end.

(** A statement that writes is for [leaf]; the others leave the database as it is. *)
Ltac unwritten := idtac;
  lazymatch goal with
  | |- steps_in _ (query _) => apply query_in; exact _
  | |- steps_in _ (command _) => apply command_in; exact _
  | |- steps_in _ (locally _) => apply locally_in; exact _
  | |- steps_in _ (send _) => apply send_in; exact _
  | |- steps_in _ (draw _) => apply draw_in; exact _
  | |- steps_in _ (bcrypt _) => apply bcrypt_in; exact _
  | |- steps_in _ now_ => apply now_in; exact _
  | |- steps_in _ (atomic _) => apply outside_in; exact _
  end.
Ltac no_statement f := lazymatch f with @in_tx => fail | @stmt => fail | @update => fail | _ => idtac end.
Ltac steps_by leaf := steps_walk unwritten leaf no_statement.

#[global] Instance db_in_preorder D `{!PreOrder D} : PreOrder (db_in D).
Proof. split; [intros w; unfold db_in; reflexivity|]. intros w1 w2 w3. unfold db_in. apply transitivity. Qed.

Section Rules.
Context `{Env}.

(** A statement keeps count of the instants; it may fail. *)
Definition later_in (w w' : World) (d : DB) : Prop := w_db w' = d /\ w_tick w' = S (w_tick w).

Lemma wp_query {A} (f : Z -> DB -> res A) Q w :
  (forall w' r, later_in w w' (w_db w) -> (db_fault (w_tick w) = None -> r = f (time (w_tick w)) (w_db w)) ->
     (forall a, r = Ok a -> f (time (w_tick w)) (w_db w) = Ok a) -> Q r w') -> wp (query f) Q w.
Proof using.
  intros HQ. unfold wp. cbn. destruct (db_fault (w_tick w)) as [[e []]|] eqn:Ef; cbn; apply HQ; done.
Qed.
Lemma wp_stmt {A} (f : Z -> DB -> DB * res A) Q w :
  (forall w' r, (r = (f (time (w_tick w)) (w_db w)).2 /\ later_in w w' (f (time (w_tick w)) (w_db w)).1 \/
     (exists e, r = Err e) /\ db_fault (w_tick w) <> None /\ exists d, (d = w_db w \/ d = (f (time (w_tick w)) (w_db w)).1) /\ later_in w w' d) ->
     Q r w') -> wp (stmt f) Q w.
Proof using.
  intros HQ. unfold wp. cbn. destruct (f _ _) as [d r] eqn:Efd. cbn in *. destruct (db_fault (w_tick w)) as [[e []]|] eqn:Ef; cbn; apply HQ.
  - right. split; [by eexists|]. split; [done|]. eexists. split; [by right|done].
  - right. split; [by eexists|]. split; [done|]. eexists. split; [by left|done].
  - by left.
Qed.
Lemma wp_update f n Q w :
  (forall w' r, (r = Ok (n (time (w_tick w)) (w_db w)) /\ later_in w w' (f (time (w_tick w)) (w_db w)) \/
     (exists e, r = Err e) /\ db_fault (w_tick w) <> None /\ exists d, (d = w_db w \/ d = f (time (w_tick w)) (w_db w)) /\ later_in w w' d) ->
     Q r w') -> wp (update f n) Q w.
Proof using. intros HQ. apply wp_stmt. exact HQ. Qed.
Lemma wp_tx {A} (f : (nat -> string) -> Z -> DB -> res (DB * A)) Q w :
  (forall w' r, match r with
     | Ok a => exists d, f (new_id (w_tick w)) (time (w_tick w)) (w_db w) = Ok (d, a) /\ later_in w w' d
     | Err _ => later_in w w' (w_db w) \/ exists d a, f (new_id (w_tick w)) (time (w_tick w)) (w_db w) = Ok (d, a) /\ later_in w w' d
     end -> Q r w') -> wp (in_tx f) Q w.
Proof using.
  intros HQ. unfold wp. cbn. destruct (f _ _ _) as [[d a]|e] eqn:Ef; destruct (db_fault (w_tick w)) as [[e' []]|]; cbn; apply HQ.
  - right. by exists d, a.
  - by left.
  - by exists d.
  - by left.
  - by left.
  - by left.
Qed.
(** What is outside the database. *)
Lemma wp_now Q w : (forall w', later_in w w' (w_db w) -> Q (time (w_tick w)) w') -> wp now_ Q w.
Proof using. intros HQ. by apply HQ. Qed.
Lemma wp_outside {A} (f : World -> A) Q w : (forall w', later_in w w' (w_db w) -> Q (f w) w') -> wp (atomic (fun w => (next w, f w))) Q w.
Proof using. intros HQ. by apply HQ. Qed.

Lemma wp_draw_text encode n Q w : (forall w' r, later_in w w' (w_db w) -> Q r w') -> wp (draw_text encode n) Q w.
Proof using.
  intros HQ. apply wp_try, wp_outside. intros w' Hw. destruct (random _ _) as [b|e]; [apply wp_ret|]; by apply HQ.
Qed.

(** What a program does to the database whatever others do, it does alone. *)
Lemma wp_frame {A} D `{!PreOrder D} (m : prog World A) w : steps_in (db_in D) m -> wp m (fun _ w' => D (w_db w) (w_db w')) w.
Proof using. intros Hm. by apply (steps_in_exec (db_in D)). Qed.
End Rules.
