(* ===== verification/AuthText.v ===== *)
(** The texts the authentication service accepts: addresses ([internal/emailaddr]),
    display names ([validator.go]), passwords ([password_policy.go],
    [password_common.go]), addresses of devices ([session.go], [account_state.go]) and the
    masks of its log ([audit_mask.go]). *)

From S2P Require Import Prelude GoStrings Interleave Tables AuthStore.
From stdpp Require Import options.
#[local] Open Scope Z_scope.

(** Unicode as Go's [strings] and [unicode] know it, on texts and on runes. *)
Class Unicode : Type := {
  LowerText : string -> string;
  UpperText : string -> string;
  IsUpper : string -> bool;
  IsLower : string -> bool;
  IsDigit : string -> bool;
  IsLetter : string -> bool;
  IsPunct : string -> bool;
  IsSymbol : string -> bool;
  IsControl : string -> bool;
}.

Definition RuneCount (s : string) : Z := Z.of_nat (length (runes s)).
(** The code point of a rune of valid UTF-8. *)
Definition rune_code (r : string) : Z :=
  let low s i := match String.get i s with Some c => Z.of_nat (code c) mod 64 | None => 0 end in
  match r with
  | EmptyString => 0
  | String c _ =>
      let b := Z.of_nat (code c) in
      match String.length r with
      | 1%nat => b
      | 2%nat => b mod 32 * 64 + low r 1%nat
      | 3%nat => b mod 16 * 4096 + low r 1%nat * 64 + low r 2%nat
      | _ => b mod 8 * 262144 + low r 1%nat * 4096 + low r 2%nat * 64 + low r 3%nat
      end
  end.

(** [strings.LastIndex(s, c)] for a separator of one byte: the parts before and after it. *)
Fixpoint CutLast (c : ascii) (s : string) : option (string * string) :=
  match s with
  | EmptyString => None
  | String d s' =>
      match CutLast c s' with
      | Some (a, b) => Some (String d a, b)
      | None => if Ascii.eqb d c then Some ("", s') else None
      end
  end.
Definition count_byte (c : ascii) (s : string) : Z := Z.of_nat (length (Split c s)) - 1.

Section Texts.
Context `{Env} `{Unicode}.

(** * Addresses *)

Definition containsUnsupportedText (value : string) : bool :=
  existsb (fun r => String.eqb r "<" || String.eqb r ">" || IsControl r) (runes value).
Definition invalid_address : goerr := EMsg "invalid email address format".

(** [emailaddr.Normalize] *)
Definition NormalizeEmail (email : string) : res string :=
  let email := TrimSpace email in
  if str_empty email then Err (EMsg "email is required") else
  let email := NFKC email in
  match ParseAddress email with
  | Err _ => Err invalid_address
  | Ok (name, addr) =>
      if negb (str_empty name) || negb (String.eqb addr email) then Err invalid_address else
      if containsUnsupportedText email then Err invalid_address else
      match CutLast "@" (LowerText email) with
      | None => Err invalid_address
      | Some (local, domain) =>
          if str_empty local || str_empty domain then Err invalid_address else
          let domain := if String.eqb domain "googlemail.com" then "gmail.com" else domain in
          if String.eqb domain "gmail.com" then
            let local := match Cut "+" local with Some (l, _) => l | None => local end in
            let local := ReplaceByte "." "" local in
            if str_empty local then Err invalid_address else Ok (local +:+ "@" +:+ domain)
          else Ok (local +:+ "@" +:+ domain)
      end
  end.
Definition ValidateEmail (email : string) : res unit := let? _ := NormalizeEmail email in Ok tt.
Definition normalizeLoginEmail (raw : string) : string :=
  match NormalizeEmail raw with Ok email => email | Err _ => TrimSpace (LowerText raw) end.

Fixpoint Repeat (c : ascii) (n : nat) : string := match n with O => "" | S n => String c (Repeat c n) end.
(** [emailaddr.Mask]; the local part by bytes. *)
Definition MaskEmail (email : string) : string :=
  if str_empty email then "" else
  match CutLast "@" email with
  | None => "***"
  | Some (local, domain) =>
      if str_empty local || str_empty domain then "***" else
      match String.length local with
      | 0%nat | 1%nat => "*@" +:+ domain
      | 2%nat => String.substring 0 1 local +:+ "*@" +:+ domain
      | S (S n) => String.substring 0 1 local +:+ Repeat "*" n +:+ String.substring (S n) 1 local +:+ "@" +:+ domain
      end
  end.
Definition MaskToken (token : string) : string :=
  let n := String.length token in
  if (n <=? 8)%nat then "***" else String.substring 0 4 token +:+ "***" +:+ String.substring (n - 4) 4 token.

Definition SanitizeDisplayName (displayName : string) : res string :=
  let displayName := TrimSpace displayName in
  if str_empty displayName then Ok "" else
  if 120 <? RuneCount displayName then Err (EMsg "display name is too long") else
  if containsUnsupportedText displayName then Err (EMsg "display name contains unsupported characters") else Ok displayName.
Definition ValidateDisplayName (displayName : string) : res unit := let? _ := SanitizeDisplayName displayName in Ok tt.

(** * Passwords *)

Definition maxBcryptPasswordBytes : Z := 72.
Definition ErrPasswordTooLong : goerr := EMsg "password exceeds bcrypt 72-byte limit".
Definition HashPassword (password : string) : prog World (res string) :=
  if maxBcryptPasswordBytes <? Z.of_nat (String.length password) then Ret (Err ErrPasswordTooLong) else bcrypt password.
Definition VerifyPassword (password hash : string) : bool := bcrypt_compare hash password.

Record PasswordPolicy : Type := mkPolicy {
  MinLength : Z;
  MaxLength : Z;
  RequireUpper : bool;
  RequireLower : bool;
  RequireDigit : bool;
  RequireSpecial : bool;
  MinScore : Z;
}.
Definition DefaultPasswordPolicy : PasswordPolicy := mkPolicy 8 72 true true true true 2.

Definition specialChars : string :=
  "!@#$%^&*()_+-=[]{}|;:',.<>/?~`" +:+ String (ascii_of_nat 34) " " +:+ String (ascii_of_nat 9) "".

Record passwordCharClasses : Type := mkClasses { has_upper : bool; has_lower : bool; has_digit : bool; has_special : bool }.
(** [classify]: which of the classes a rune is of, the first that fits. *)
Definition classifyPasswordChars (password : string) : passwordCharClasses :=
  foldl (fun k r =>
    if IsUpper r then mkClasses true (has_lower k) (has_digit k) (has_special k)
    else if IsLower r then mkClasses (has_upper k) true (has_digit k) (has_special k)
    else if IsDigit r then mkClasses (has_upper k) (has_lower k) true (has_special k)
    else if Contains specialChars r || IsPunct r || IsSymbol r then mkClasses (has_upper k) (has_lower k) (has_digit k) true
    else k) (mkClasses false false false false) (runes password).

Definition validatePasswordLength (p : PasswordPolicy) (password : string) : res unit :=
  if RuneCount password <? MinLength p then Err (EMsg ("password must be at least " +:+ Itoa (MinLength p) +:+ " characters long")) else
  if (0 <? MaxLength p) && (MaxLength p <? Z.of_nat (String.length password))
  then Err (EMsg ("password must be at most " +:+ Itoa (MaxLength p) +:+ " bytes long")) else Ok tt.
Definition validateRequiredCharClasses (p : PasswordPolicy) (k : passwordCharClasses) : res unit :=
  if RequireUpper p && negb (has_upper k) then Err (EMsg "password must contain at least one uppercase letter") else
  if RequireLower p && negb (has_lower k) then Err (EMsg "password must contain at least one lowercase letter") else
  if RequireDigit p && negb (has_digit k) then Err (EMsg "password must contain at least one digit") else
  if RequireSpecial p && negb (has_special k) then Err (EMsg "password must contain at least one special character") else Ok tt.

Definition normalizePassword (s : string) : string := Concat (List.filter (fun r => IsLetter r || IsDigit r) (runes (LowerText s))).
Fixpoint validatePasswordIdentityFields (password : string) (identityFields : list string) : res unit :=
  match identityFields with
  | [] => Ok tt
  | field :: rest =>
      let token := normalizePassword field in
      if (String.length token <? 4)%nat then validatePasswordIdentityFields password rest else
      if Contains (normalizePassword password) token then Err (EMsg "password must not contain your email or name")
      else validatePasswordIdentityFields password rest
  end.

(** [commonPasswordList] is the embedded file [password_common.txt]. *)
Definition commonSet (commonPasswordList : string) : list string :=
  List.filter (fun line => negb (str_empty line) && negb (HasPrefix line "#"))
    (map (fun line => TrimSpace (LowerText line)) (Split (ascii_of_nat 10) commonPasswordList)).
Fixpoint drop_trailing (p : string -> bool) (l : list string) : list string :=
  match l with
  | [] => []
  | r :: l => match drop_trailing p l with [] => if p r then [] else [r] | l' => r :: l' end
  end.
Definition stripTrailingNonLetters (password : string) : string :=
  Concat (drop_trailing (fun r => negb (IsLetter r)) (runes (LowerText password))).
Definition unleet (r : string) : string :=
  if String.eqb r "0" then "o" else if String.eqb r "1" then "i" else if String.eqb r "3" then "e"
  else if String.eqb r "4" then "a" else if String.eqb r "5" then "s" else if String.eqb r "7" then "t"
  else if String.eqb r "@" then "a" else if String.eqb r "$" then "s" else if String.eqb r "!" then "i" else r.
Definition stripLeetSpeak (password : string) : string := Concat (map unleet (runes (LowerText password))).
Definition IsCommonPassword (common : list string) (password : string) : bool :=
  if str_empty password then false else
  existsb (fun c => negb (str_empty c) && existsb (String.eqb c) common)
    [LowerText password; stripTrailingNonLetters password; stripLeetSpeak password].

(** Four in a row that are each [step] after the one before. *)
Fixpoint run_of (step : Z) (n : nat) (prev : Z) (l : list Z) : bool :=
  match l with
  | [] => false
  | c :: l =>
      if c =? prev + step then (if (4 <=? S n)%nat then true else run_of step (S n) c l) else run_of step 1 c l
  end.
Definition hasRunOrSequence (password : string) : bool :=
  let rs := map rune_code (runes (LowerText password)) in
  if (length rs <? 4)%nat then false else
  match rs with [] => false | c :: l => run_of 0 1 c l || run_of 1 1 c l end.

Definition PasswordScore (common : list string) (password : string) : Z :=
  if str_empty password then 0 else
  let n := RuneCount password in
  if n =? 0 then 0 else
  let any P := existsb P (runes password) in
  let b2z (b : bool) : Z := if b then 1 else 0 in
  let classes := b2z (any IsUpper) + b2z (any (fun r => negb (IsUpper r) && IsLower r))
    + b2z (any (fun r => negb (IsUpper r) && negb (IsLower r) && IsDigit r))
    + b2z (any (fun r => negb (IsUpper r) && negb (IsLower r) && negb (IsDigit r))) in
  let score := if 16 <=? n then 2 else if 12 <=? n then 1 else 0 in
  let score := score + (if classes =? 4 then 2 else if classes =? 3 then 1 else 0) in
  let score := if 20 <=? n then score + 1 else score in
  let score := if hasRunOrSequence password then score - 1 else score in
  let score := if IsCommonPassword common password then score - 2 else score in
  let score := if score <? 0 then 0 else score in
  if 4 <? score then 4 else score.

Definition validatePasswordStrength (common : list string) (p : PasswordPolicy) (password : string) : res unit :=
  if IsCommonPassword common password then Err (EMsg "password is too common; please choose a less guessable one") else
  if (0 <? MinScore p) && (PasswordScore common password <? MinScore p)
  then Err (EMsg "password is not strong enough; try a longer passphrase with more variety") else Ok tt.
Definition ValidatePolicy (common : list string) (p : PasswordPolicy) (password : string) (identityFields : list string) : res unit :=
  let? _ := validatePasswordLength p password in
  let? _ := validateRequiredCharClasses p (classifyPasswordChars password) in
  let? _ := validatePasswordIdentityFields password identityFields in
  validatePasswordStrength common p password.

(** * Devices *)

Definition normalizeIP (ip : option string) : option string :=
  match ip with
  | None => None
  | Some s => if str_empty s then Some s else match SplitHost s with Some host => Some host | None => Some s end
  end.
(** IPv4 to its first three parts, IPv6 to its first three groups. *)
Definition DeviceFingerprint (userAgent ipAddress : string) : string :=
  let ip := TrimSpace ipAddress in
  let ip := match CutLast "." ip with
    | Some (h, _) =>
        if negb (str_empty h) && (count_byte "." ip =? 3) then h +:+ ".0"
        else if Contains ip ":" then let segs := Split ":" ip in if (3 <? length segs)%nat then Join (take 3 segs) ":" else ip else ip
    | None => if Contains ip ":" then let segs := Split ":" ip in if (3 <? length segs)%nat then Join (take 3 segs) ":" else ip else ip
    end in
  sha256_prefix (TrimSpace userAgent +:+ "|" +:+ ip).

(** * Theorems *)

Lemma PasswordScore_range common password : 0 <= PasswordScore common password <= 4.
Proof using.
  unfold PasswordScore. cbv zeta. destruct (str_empty password); [lia|].
  destruct (_ =? 0); [lia|].
  match goal with |- context [if ?x <? 0 then 0 else ?x] => generalize x; intros score end.
  destruct (Z.ltb_spec score 0); [|destruct (Z.ltb_spec 4 score); lia]. cbn. lia.
Qed.
End Texts.
