(* ===== verification/Sessions.v ===== *)
(** Sessions ([internal/auth/session.go]): a login opens one, its refresh token is rotated,
    and it is revoked by the user, by an administrator or because a rotated token came
    back. *)

From S2P Require Import Prelude GoStrings Interleave Tables AuthStore AuthText.
From stdpp Require Import options.
#[local] Open Scope Z_scope.

Definition ErrSessionNotFound : goerr := EMsg "session not found".
Definition ErrSessionExpired : goerr := EMsg "session expired".
Definition ErrSessionRevoked : goerr := EMsg "session revoked".
Definition ErrSessionAbsoluteExpired : goerr := EMsg "session absolute lifetime exceeded; please sign in again".
Definition ErrSessionIdleExpired : goerr := EMsg "session idle for too long; please sign in again".

Record SessionManager : Type := mkSessionManager { absoluteTTL : Z; idleTTL : Z }.

(** [revoked_at IS NULL AND expires_at > NOW()] *)
Definition unrevoked (s : Session) : bool := match s_RevokedAt s with None => true | Some _ => false end.
Definition active (now : Z) (s : Session) : bool := unrevoked s && (now <? s_ExpiresAt s).
Definition revoke (now : Z) : Session -> Session := set_s_RevokedAt (Some now).

Section SessionManagement.
Context `{Env} `{Unicode}.

Definition HashToken (token : string) : string := sha256_hex token.
Definition generateOpaqueToken : prog World (res string) := draw_text Base64URL 32.

Definition absoluteTTLOrDefault (m : SessionManager) (fallback : Z) : Z := if 0 <? absoluteTTL m then absoluteTTL m else fallback.

(** The row a login or a rotation adds; the hash of its token is unique, and its user exists. *)
Definition insert_session (userID : string) (hash : string) (userAgent ipAddress fp : option string) (expiresAt absoluteExpiresAt : Z)
    : prog World (res unit) :=
  in_tx (fun ids now d =>
    let id := ids 0%nat in
    if negb (valid_inet ipAddress) then Err bad_inet else
    if bool_decide (users d !! userID = None) then Err (violates "sessions_user_id_fkey") else
    if bool_decide (is_Some (sessions d !! id)) || exists_row (fun s => String.eqb (s_RefreshToken s) hash) (sessions d)
    then Err (violates "sessions_refresh_token_key") else
    Ok (set_sessions (<[id := mkSession id userID hash userAgent ipAddress fp now expiresAt now absoluteExpiresAt None]> (sessions d)) d, tt)).
Definition createSession (userID : string) (userAgent ipAddress : option string) (fingerprint : string) (expiresAt absoluteExpiresAt : Z)
    : prog World (res string) :=
  try* token := wrap "generate session token" generateOpaqueToken in
  let fp := if str_empty fingerprint then None else Some fingerprint in
  try* _ := wrap "insert session" (insert_session userID (HashToken token) userAgent (normalizeIP ipAddress) fp expiresAt absoluteExpiresAt) in
  Ret (Ok token).
Definition CreateSessionWithFingerprint (m : SessionManager) (userID : string) (userAgent ipAddress : option string) (fingerprint : string)
    (ttl : Z) : prog World (res string) :=
  let* now := now_ in
  createSession userID userAgent ipAddress fingerprint (now + ttl) (now + absoluteTTLOrDefault m ttl).
Definition CreateSession (m : SessionManager) (userID : string) (userAgent ipAddress : option string) (ttl : Z) : prog World (res string) :=
  CreateSessionWithFingerprint m userID userAgent ipAddress "" ttl.

(** [ORDER BY last_active_at DESC, created_at DESC] *)
Definition more_recent (s t : Session) : Prop :=
  s_LastActiveAt t < s_LastActiveAt s \/ s_LastActiveAt s = s_LastActiveAt t /\ s_CreatedAt t <= s_CreatedAt s.
#[global] Instance more_recent_dec s t : Decision (more_recent s t).
Proof using. unfold more_recent. apply _. Defined.
Definition active_of (userID : string) (now : Z) (d : DB) : list Session :=
  merge_sort more_recent (select (fun s => String.eqb (s_UserID s) userID && active now s) (sessions d)).
Definition revoke_ids (now : Z) (ids : list string) (t : gmap string Session) : gmap string Session :=
  update_where (fun s => bool_decide (s_ID s ∈ ids)) (revoke now) t.
Definition EnforceMaxSessions (userID : string) (maxSessions : Z) : prog World (res (list string)) :=
  if maxSessions <=? 0 then Ret (Ok []) else
  wrap "evict sessions" (stmt (fun now d =>
    let ids := map s_ID (drop (Z.to_nat maxSessions) (active_of userID now d)) in
    (set_sessions (revoke_ids now ids (sessions d)) d, Ok ids))).

Definition ListActiveSessions (userID : string) : prog World (res (list Session)) := query (fun now d => Ok (active_of userID now d)).

(** An update of the sessions that satisfy [P]. *)
Definition revoke_where (P : Session -> bool) : prog World (res nat) :=
  update (fun now d => set_sessions (update_where P (revoke now) (sessions d)) d) (fun _ d => affected P (sessions d)).
Definition RevokeSessionByID (userID sessionID : string) : prog World (res unit) :=
  try* rows := revoke_where (fun s => String.eqb (s_ID s) sessionID && String.eqb (s_UserID s) userID && unrevoked s) in
  if (rows =? 0)%nat then Ret (Err ErrSessionNotFound) else Ret (Ok tt).
Definition RevokeSession (token : string) : prog World (res unit) :=
  try* _ := revoke_where (fun s => String.eqb (s_RefreshToken s) (HashToken token) && unrevoked s) in Ret (Ok tt).
Definition RevokeAllUserSessions (userID : string) : prog World (res unit) :=
  try* _ := revoke_where (fun s => String.eqb (s_UserID s) userID && unrevoked s) in Ret (Ok tt).

Definition session_by_token (hash : string) (d : DB) : option Session :=
  select_one (fun s => String.eqb (s_RefreshToken s) hash) (sessions d).
Definition RotateSession (m : SessionManager) (oldToken : string) (ttl : Z) (userAgent ipAddress : option string) : prog World (res string) :=
  try* s := query (fun _ d => row_or ErrSessionNotFound (session_by_token (HashToken oldToken) d)) in
  match s_RevokedAt s with
  | Some _ =>
      let* _ := RevokeAllUserSessions (s_UserID s) in
      Ret (Err ErrSessionRevoked)
  | None =>
      let* now := now_ in
      if s_ExpiresAt s <? now then Ret (Err ErrSessionExpired) else
      if s_AbsoluteExpiresAt s <? now then
        let* _ := RevokeSession oldToken in
        Ret (Err ErrSessionAbsoluteExpired)
      else if (0 <? idleTTL m) && (idleTTL m <? now - s_LastActiveAt s) then
        let* _ := RevokeSession oldToken in
        Ret (Err ErrSessionIdleExpired)
      else
        try* _ := wrap "revoke old session" (revoke_where (fun t => String.eqb (s_ID t) (s_ID s))) in
        let rotatedExpiresAt := if s_AbsoluteExpiresAt s <? now + ttl then s_AbsoluteExpiresAt s else now + ttl in
        wrap "create rotated session"
          (createSession (s_UserID s) userAgent ipAddress "" rotatedExpiresAt (s_AbsoluteExpiresAt s))
  end.
End SessionManagement.
