(* ===== verification/Users.v ===== *)
(** The users of the authentication service ([internal/auth/repository.go],
    [account_state.go]): their creation with a workspace of their own, the states of an
    account and the devices it was used from. *)

From S2P Require Import Prelude GoStrings Interleave Tables AuthStore AuthText Sessions.
From stdpp Require Import options.
#[local] Open Scope Z_scope.

Definition ErrUserNotFound : goerr := EMsg "user not found".
Definition ErrUserAlreadyExists : goerr := EMsg "user already exists".
Definition ErrOAuthAccountNotFound : goerr := EMsg "oauth account not found".
Definition ErrEmailAlreadyVerified : goerr := EMsg "email is already verified".
Definition ErrAccountFrozen : goerr := EMsg "account is frozen".
Definition ErrAccountDeleted : goerr := EMsg "account is deleted".
Definition ErrUnlockTokenInvalid : goerr := EMsg "unlock token is invalid or expired".
Definition ErrAccountAlreadyFrozen : goerr := EMsg "account is already frozen".
Definition ErrAccountNotFrozen : goerr := EMsg "account is not frozen".

Definition RoleSuperAdmin : string := "super_admin".
Definition ScopeGlobal : string := "global".
Definition ScopeWorkspace : string := "workspace".
Definition no_scope : string := "00000000-0000-0000-0000-000000000000".

(** * Creation *)

Definition user_by_email (email : string) (d : DB) : option User := select_one (fun u => String.eqb (u_Email u) email) (users d).
Definition email_taken (email : string) (d : DB) : bool := exists_row (fun u => String.eqb (u_Email u) email) (users d).
Definition role_id (name : string) (d : DB) : option string :=
  head (map fst (List.filter (fun r => String.eqb r.2 name) (map_to_list (roles d)))).

(** Who creates the first user is its super administrator. *)
Definition firstUserGlobalRoleName (d : DB) : string := if bool_decide (users d = ∅) then RoleSuperAdmin else "viewer".

Definition insert_user (id email : string) (passwordHash : option string) (displayName : string) (verified : bool) (changed : option Z) (now : Z)
    (d : DB) : res (DB * User) :=
  if bool_decide (is_Some (users d !! id)) || email_taken email d then Err (EWrap "insert user" (violates "users_email_key")) else
  let user := mkUser id email None (Some displayName) None passwordHash true verified now now None None None None changed None in
  Ok (set_users (<[id := user]> (users d)) d, user).
Definition insertPasswordHistory (userID passwordHash : string) (now : Z) (d : DB) : DB :=
  if str_empty passwordHash then d else set_password_history (password_history d ++ [mkPasswordEntry userID passwordHash now]) d.

(** The user's own workspace, of which the user is an administrator, and the role everywhere. *)
Definition insert_workspace (id name slug : string) (description : option string) (personal : bool) (createdBy : string) (now : Z) (d : DB)
    : res DB :=
  if bool_decide (is_Some (workspaces d !! id)) || exists_row (fun w => String.eqb (ws_Slug w) slug) (workspaces d)
  then Err (violates "workspaces_slug_key")
  else Ok (set_workspaces (<[id := mkWorkspace id name slug description personal false false createdBy now now]> (workspaces d)) d).
Definition insert_member (workspaceID userID roleID : string) (invitedBy : option string) (now : Z) (d : DB) : res DB :=
  if bool_decide (is_Some (members d !! (workspaceID, userID))) then Err (violates "workspace_members_pkey")
  else Ok (set_members (<[(workspaceID, userID) := mkMembership roleID now invitedBy]> (members d)) d).
Definition own_workspace (wsID userID workspaceName globalRoleID : string) (now : Z) (d : DB) : res DB :=
  let? d := res_map_err (EWrap "create personal workspace")
    (insert_workspace wsID workspaceName (userID +:+ "-personal") None true userID now d) in
  let d := set_user_roles ({[(userID, globalRoleID, ScopeGlobal, no_scope)]} ∪ user_roles d) d in
  let? adminRoleID := row_or (EWrap "get admin role" ErrNoRows) (role_id "admin" d) in
  res_map_err (EWrap "add member to workspace") (insert_member wsID userID adminRoleID None now d).
Definition bootstrapUserWorkspace (wsID userID displayName email globalRoleName : string) (now : Z) (d : DB) : res DB :=
  let workspaceName := (if str_empty displayName then email else displayName) +:+ "'s Workspace" in
  let? roleID := row_or (EWrap ("get default role " +:+ Quote globalRoleName) ErrNoRows) (role_id globalRoleName d) in
  own_workspace wsID userID workspaceName roleID now d.

(** A user as the statements that create one return it: without the hash. *)
Definition public (u : User) : User := set_u_PasswordHash None u.

Section Repository.
Context `{Env} `{Unicode}.

Definition CreateUser (email passwordHash displayName : string) : prog World (res User) :=
  in_tx (fun ids now d =>
    let globalRoleName := firstUserGlobalRoleName d in
    if email_taken email d then Err ErrUserAlreadyExists else
    let? (d, user) := insert_user (ids 0%nat) email (Some passwordHash) displayName false (Some now) now d in
    let d := insertPasswordHistory (u_ID user) passwordHash now d in
    let? d := bootstrapUserWorkspace (ids 1%nat) (u_ID user) displayName email globalRoleName now d in
    Ok (d, public user)).
Definition CreateDirectoryUser (email displayName : string) : prog World (res User) :=
  in_tx (fun ids now d =>
    let globalRoleName := firstUserGlobalRoleName d in
    if email_taken email d then Err ErrUserAlreadyExists else
    let? (d, user) := insert_user (ids 0%nat) email None displayName true None now d in
    let? d := bootstrapUserWorkspace (ids 1%nat) (u_ID user) displayName email globalRoleName now d in
    Ok (d, user)).
Definition FirstUserSetupRequired : prog World (res bool) :=
  wrap "check user bootstrap state" (query (fun _ d => Ok (bool_decide (users d = ∅)))).

(** * Reading and updating *)

Definition GetUserByEmail (email : string) : prog World (res User) := query (fun _ d => row_or ErrUserNotFound (user_by_email email d)).
Definition GetUserByID (id : string) : prog World (res User) := query (fun _ d => row_or ErrUserNotFound (users d !! id)).
Definition GetUserByEmailOrUsername (loginStr : string) : prog World (res User) :=
  query (fun _ d => row_or ErrUserNotFound
    (select_one (fun u => String.eqb (u_Email u) loginStr || is_some_eq (u_Username u) loginStr) (users d))).
Definition newest_first (u v : User) : Prop := u_CreatedAt v <= u_CreatedAt u.
#[global] Instance newest_first_dec u v : Decision (newest_first u v).
Proof using. unfold newest_first. apply _. Defined.
Definition ListUsers : prog World (res (list User)) :=
  query (fun _ d => Ok (map public (merge_sort newest_first (map_to_list (users d)).*2))).

Definition update_users (P : User -> bool) (f : Z -> User -> User) : prog World (res nat) :=
  update (fun now d => set_users (update_where P (f now) (users d)) d) (fun _ d => affected P (users d)).
Definition by_id (userID : string) (u : User) : bool := String.eqb (u_ID u) userID.
(** An update that has to find its row. *)
Definition update_user_or (e : goerr) (P : User -> bool) (f : Z -> User -> User) : prog World (res unit) :=
  try* rows := update_users P f in if (rows =? 0)%nat then Ret (Err e) else Ret (Ok tt).

Definition UpdateLastLogin (userID : string) : prog World (res unit) :=
  try* _ := update_users (by_id userID) (fun now => set_u_LastLoginAt (Some now)) in Ret (Ok tt).
Definition UpdateUserActiveStatus (userID : string) (isActive : bool) : prog World (res unit) :=
  try* _ := update_users (by_id userID) (fun now u => set_u_UpdatedAt now (set_u_IsActive isActive u)) in Ret (Ok tt).
Definition nonempty (s : string) : option string := if str_empty s then None else Some s.
Definition UpdateUserDisplayName (userID displayName : string) : prog World (res unit) :=
  update_user_or ErrUserNotFound (by_id userID) (fun now u => set_u_UpdatedAt now (set_u_DisplayName (nonempty displayName) u)).
Definition UpdateUserAvatarURL (userID : string) (avatarURL : option string) : prog World (res unit) :=
  update_user_or ErrUserNotFound (by_id userID)
    (fun now u => set_u_UpdatedAt now (set_u_AvatarURL (avatarURL ≫= nonempty) u)).

Definition personal_workspace (userID : string) (d : DB) : option Workspace :=
  select_one (fun w => String.eqb (ws_CreatedBy w) userID && ws_IsPersonal w) (workspaces d).
Definition GetPersonalWorkspaceID (userID : string) : prog World (res string) :=
  query (fun _ d => row_or ErrNoRows (ws_ID <$> personal_workspace userID d)).
(** The active workspace while the user is a member of it, otherwise the user's own. *)
Definition GetActiveOrPersonalWorkspaceID (userID : string) : prog World (res string) :=
  try* active := query (fun _ d => match users d !! userID with Some u => Ok (u_ActiveWorkspaceID u) | None => Err ErrNoRows end) in
  match active ≫= nonempty with
  | Some workspaceID =>
      let* ok := query (fun _ d => Ok (bool_decide (is_Some (members d !! (workspaceID, userID))))) in
      match ok with Ok true => Ret (Ok workspaceID) | _ => GetPersonalWorkspaceID userID end
  | None => GetPersonalWorkspaceID userID
  end.
Definition SetActiveWorkspaceID (userID workspaceID : string) : prog World (res unit) :=
  in_tx (fun _ now d =>
    if exists_row (by_id userID) (users d) && bool_decide (workspaces d !! workspaceID = None)
    then Err (violates "users_active_workspace_id_fkey")
    else Ok (set_users (update_where (by_id userID) (fun u => set_u_UpdatedAt now (set_u_ActiveWorkspaceID (Some workspaceID) u)) (users d)) d, tt)).

(** * Accounts elsewhere *)

Definition GetOAuthAccount (provider providerUID : string) : prog World (res string) :=
  query (fun _ d => row_or ErrOAuthAccountNotFound (oauth_accounts d !! (provider, providerUID))).
(** An account that is linked stays with its user. *)
Definition upsertOAuthAccount (userID provider providerUID : string) (d : DB) : DB :=
  match oauth_accounts d !! (provider, providerUID) with
  | Some _ => d
  | None => set_oauth_accounts (<[(provider, providerUID) := userID]> (oauth_accounts d)) d
  end.
Definition LinkOAuthAccount (userID provider providerUID : string) : prog World (res unit) :=
  in_tx (fun _ _ d =>
    if bool_decide (users d !! userID = None) then Err (violates "oauth_accounts_user_id_fkey")
    else Ok (upsertOAuthAccount userID provider providerUID d, tt)).
Definition CreateUserWithOAuth (email displayName provider providerUID : string) : prog World (res User) :=
  in_tx (fun ids now d =>
    let globalRoleName := firstUserGlobalRoleName d in
    let? (d, user) :=
      match user_by_email email d with
      | Some user => Ok (d, public user)
      | None =>
          let? (d, user) := insert_user (ids 0%nat) email None displayName true None now d in
          let? d := bootstrapUserWorkspace (ids 1%nat) (u_ID user) displayName email globalRoleName now d in
          Ok (d, user)
      end in
    Ok (upsertOAuthAccount (u_ID user) provider providerUID d, user)).
Definition UnlinkOAuthAccount (userID provider : string) : prog World (res unit) :=
  in_tx (fun _ _ d =>
    Ok (set_oauth_accounts (filter (fun kv => negb (String.eqb kv.2 userID && String.eqb kv.1.1 provider) = true) (oauth_accounts d)) d, tt)).

(** * The state of an account *)

Record AccountState : Type := mkAccountState { FrozenAt : option Z; DeletedAt : option Z; PurgeAfter : option Z; PasswordChangedAt : option Z }.
Definition IsFrozen (s : AccountState) : bool := match FrozenAt s with Some _ => true | None => false end.
Definition IsDeleted (s : AccountState) : bool := match DeletedAt s with Some _ => true | None => false end.
Definition account_state (u : User) : AccountState := mkAccountState (u_FrozenAt u) (u_DeletedAt u) (u_PurgeAfter u) (u_PasswordChangedAt u).
Definition GetAccountState (userID : string) : prog World (res AccountState) :=
  query (fun _ d => row_or ErrUserNotFound (account_state <$> users d !! userID)).

Definition FreezeAccount (userID : string) : prog World (res unit) :=
  update_user_or ErrAccountAlreadyFrozen
    (fun u => by_id userID u && negb (IsFrozen (account_state u)) && negb (IsDeleted (account_state u)))
    (fun now u => set_u_UpdatedAt now (set_u_FrozenAt (Some now) u)).
Definition UnfreezeAccount (userID : string) : prog World (res unit) :=
  update_user_or ErrAccountNotFrozen (fun u => by_id userID u && IsFrozen (account_state u))
    (fun now u => set_u_UpdatedAt now (set_u_FrozenAt None u)).
Definition day : Z := 24 * 3600 * 1000000000.
Definition SoftDeleteAccount (userID : string) (purgeAfterDays : Z) : prog World (res Z) :=
  let purgeAfterDays := if purgeAfterDays <=? 0 then 30 else purgeAfterDays in
  let* now := now_ in
  let purgeAt := now + purgeAfterDays * day in
  try* _ := wrap "soft delete account" (update_users (fun u => by_id userID u && negb (IsDeleted (account_state u)))
    (fun now u => set_u_UpdatedAt now (set_u_IsActive false (set_u_PurgeAfter (Some purgeAt) (set_u_DeletedAt (Some now) u))))) in
  Ret (Ok purgeAt).
Definition RestoreAccount (userID : string) : prog World (res unit) :=
  update_user_or ErrUserNotFound (fun u => by_id userID u && IsDeleted (account_state u))
    (fun now u => set_u_UpdatedAt now (set_u_IsActive true (set_u_PurgeAfter None (set_u_DeletedAt None u)))).

(** The accounts whose time has come; [email NOT LIKE 'purged-%']. *)
Definition to_purge (now : Z) (u : User) : bool :=
  match u_PurgeAfter u with Some t => t <=? now | None => false end && negb (HasPrefix (u_Email u) "purged-").
Definition scrub (userID : string) (now : Z) (u : User) : User :=
  mkUser (u_ID u) ("purged-" +:+ userID +:+ "@example.invalid") None None None None false false (u_CreatedAt u) now (u_LastLoginAt u)
    None (u_DeletedAt u) None (u_PasswordChangedAt u) (u_ActiveWorkspaceID u).
Definition purgeUser (userID : string) : prog World (res unit) :=
  in_tx (fun _ now d =>
    let of_user {R} (owner : R -> string) (r : R) : bool := String.eqb (owner r) userID in
    let d := set_users (update_where (by_id userID) (scrub userID now) (users d)) d in
    let d := set_oauth_accounts (delete_where (String.eqb userID) (oauth_accounts d)) d in
    let d := set_passkeys (delete_where (of_user pk_UserID) (passkeys d)) d in
    let d := set_sessions (delete_where (of_user s_UserID) (sessions d)) d in
    let d := set_verify_tokens (delete_where (of_user t_UserID) (verify_tokens d)) d in
    let d := set_reset_tokens (delete_where (of_user t_UserID) (reset_tokens d)) d in
    let d := set_password_history (List.filter (fun p => negb (of_user ph_UserID p)) (password_history d)) d in
    let d := set_email_changes (delete_where (of_user ec_UserID) (email_changes d)) d in
    let d := set_known_devices (filter (fun kv => String.eqb kv.1.1 userID = false) (known_devices d)) d in
    let d := set_unlock_tokens (delete_where (of_user t_UserID) (unlock_tokens d)) d in
    Ok (set_user_mfa (delete userID (user_mfa d)) d, tt)).
Fixpoint purge_all (ids : list string) : prog World (res unit) :=
  match ids with
  | [] => Ret (Ok tt)
  | id :: ids => try* _ := wrap ("purge user " +:+ id) (purgeUser id) in purge_all ids
  end.
Definition PurgeExpiredAccounts (now : Z) : prog World (res (list string)) :=
  try* ids := wrap "list expired accounts" (query (fun _ d => Ok (map u_ID (select (to_purge now) (users d))))) in
  try* _ := purge_all ids in Ret (Ok ids).

Definition MarkPasswordChanged (userID : string) : prog World (res unit) :=
  try* _ := update_users (by_id userID) (fun now u => set_u_UpdatedAt now (set_u_PasswordChangedAt (Some now) u)) in Ret (Ok tt).

(** Whether the device is new to the user. *)
Definition RecordKnownDevice (userID fingerprint : string) (ip : option string) : prog World (res bool) :=
  wrap "record known device" (in_tx (fun _ now d =>
    if negb (valid_inet ip) then Err bad_inet else
    if bool_decide (users d !! userID = None) then Err (violates "known_devices_user_id_fkey") else
    match known_devices d !! (userID, fingerprint) with
    | None => Ok (set_known_devices (<[(userID, fingerprint) := mkDevice now now]> (known_devices d)) d, true)
    | Some kd => Ok (set_known_devices (<[(userID, fingerprint) := mkDevice (kd_FirstSeenAt kd) now]> (known_devices d)) d, false)
    end)).

(** * Passwords *)

Definition UpdateUserPassword (userID newPasswordHash : string) : prog World (res unit) :=
  in_tx (fun _ now d =>
    let d := set_users (update_where (by_id userID)
      (fun u => set_u_UpdatedAt now (set_u_PasswordChangedAt (Some now) (set_u_PasswordHash (Some newPasswordHash) u))) (users d)) d in
    Ok (insertPasswordHistory userID newPasswordHash now d, tt)).
Definition later (p q : PasswordEntry) : Prop := ph_CreatedAt q <= ph_CreatedAt p.
#[global] Instance later_dec p q : Decision (later p q).
Proof using. unfold later. apply _. Defined.
Definition PasswordWasUsed (userID password : string) (limit : Z) : prog World (res bool) :=
  if limit <=? 0 then Ret (Ok false) else
  query (fun _ d =>
    let rows := merge_sort later (List.filter (fun p => String.eqb (ph_UserID p) userID) (password_history d)) in
    Ok (existsb (fun p => VerifyPassword password (ph_Hash p)) (take (Z.to_nat limit) rows))).
End Repository.
