(* ===== verification/AuthTokens.v ===== *)
(** The tokens that stand for a user: those of letters ([magiclink.go], the tokens of
    [repository.go] and [account_state.go]), personal access tokens ([pat.go]), the
    states and codes of OAuth ([service.go], [oauth_exchange.go]), the challenges of
    passkeys ([repository.go]) and JSON web tokens ([jwt.go]). *)

From S2P Require Import Prelude GoStrings Interleave Tables AuthStore AuthText Sessions Users.
From stdpp Require Import options.
#[local] Open Scope Z_scope.

Definition second : Z := 1000000000.
Definition minute : Z := 60 * second.
Definition hour : Z := 3600 * second.

Section Tokens.
Context `{Env} `{Unicode}.

Definition generateSecureToken : prog World (res string) := draw_text Base64URL 32.
Definition generateOpaque (n : nat) : prog World (res string) := draw_text Base64URL n.

(** * Magic links *)

Definition MagicLinkTokenTTL : Z := 10 * minute.
Definition MagicLinkRequestCooldown : Z := 60 * second.
Definition ErrMagicLinkInvalid : goerr := EMsg "magic link token is invalid or expired".
Definition ErrMagicLinkUsed : goerr := EMsg "magic link token has already been used".

Definition hashMagicLink (plaintext : string) : string := HashToken plaintext.
Definition generateMagicLinkToken : prog World (res string) := wrap "read random bytes" (draw_text RawBase64URL 32).
Definition MagicLink_Issue (plaintext email userID ipAddress : string) (expiresAt : Z) : prog World (res unit) :=
  in_tx (fun _ _ d =>
    let hash := hashMagicLink plaintext in
    if bool_decide (is_Some (magic_links d !! hash)) then Err (violates "magic_link_tokens_pkey")
    else Ok (set_magic_links (<[hash := mkMagicLink email (nonempty userID) expiresAt None (nonempty ipAddress)]> (magic_links d)) d, tt)).
(** The row is locked until the transaction ends. *)
Definition MagicLink_Consume (plaintext : string) : prog World (res string) :=
  in_tx (fun _ now d =>
    let hash := hashMagicLink plaintext in
    match magic_links d !! hash with
    | None => Err ErrMagicLinkInvalid
    | Some l =>
        match ml_ConsumedAt l with
        | Some _ => Err ErrMagicLinkUsed
        | None =>
            if ml_ExpiresAt l <? now then Err ErrMagicLinkInvalid else
            match ml_UserID l ≫= nonempty with
            | None => Err ErrMagicLinkInvalid
            | Some userID => Ok (set_magic_links (<[hash := set_ml_ConsumedAt (Some now) l]> (magic_links d)) d, userID)
            end
        end
    end).

(** * The other tokens of letters *)

Definition unused (t : UserToken) : bool := match t_UsedAt t with None => true | Some _ => false end.

Definition hashUnlockToken (token : string) : string := HashToken token.
Definition CreateUnlockToken (userID : string) (ttl : Z) : prog World (res string) :=
  try* tok := generateOpaque 32 in
  let* now := now_ in
  try* _ := wrap "insert unlock token" (in_tx (fun _ _ d =>
    let hashed := hashUnlockToken tok in
    if bool_decide (users d !! userID = None) || bool_decide (is_Some (unlock_tokens d !! hashed))
    then Err (violates "account_unlock_tokens")
    else Ok (set_unlock_tokens (<[hashed := mkUserToken userID (now + ttl) None]> (unlock_tokens d)) d, tt))) in
  Ret (Ok tok).
(** One statement finds the token and marks it. *)
Definition ConsumeUnlockToken (token : string) : prog World (res string) :=
  in_tx (fun _ now d =>
    let hashed := hashUnlockToken token in
    match unlock_tokens d !! hashed with
    | Some t =>
        if unused t && (now <? t_ExpiresAt t)
        then Ok (set_unlock_tokens (<[hashed := set_t_UsedAt (Some now) t]> (unlock_tokens d)) d, t_UserID t)
        else Err ErrUnlockTokenInvalid
    | None => Err ErrUnlockTokenInvalid
    end).

(** A token of a table of its own replaces those the user has. *)
Definition replace_token (userID token : string) (expiresAt : Z) (t : gmap string UserToken) : res (gmap string UserToken) :=
  let t := delete_where (fun r => String.eqb (t_UserID r) userID) t in
  if bool_decide (is_Some (t !! token)) then Err (violates "token_key") else Ok (<[token := mkUserToken userID expiresAt None]> t).
Definition CreateEmailVerificationToken (userID token : string) (expiresAt : Z) : prog World (res unit) :=
  in_tx (fun _ _ d =>
    if bool_decide (users d !! userID = None) then Err (violates "email_verification_tokens_user_id_fkey") else
    let? t := replace_token userID token expiresAt (verify_tokens d) in Ok (set_verify_tokens t d, tt)).
Definition CreatePasswordResetToken (userID token : string) (expiresAt : Z) : prog World (res unit) :=
  in_tx (fun _ _ d =>
    if bool_decide (users d !! userID = None) then Err (violates "password_reset_tokens_user_id_fkey") else
    let? t := replace_token userID token expiresAt (reset_tokens d) in Ok (set_reset_tokens t d, tt)).
Definition mark_used (token : string) (now : Z) (t : gmap string UserToken) : gmap string UserToken :=
  alter (set_t_UsedAt (Some now)) token t.

(** The token is read before the transaction that marks it. *)
Definition VerifyEmailToken (token : string) : prog World (res string) :=
  try* t := query (fun _ d => row_or (EMsg "invalid verification token") (verify_tokens d !! token)) in
  match t_UsedAt t with
  | Some _ => Ret (Err (EMsg "verification token already used"))
  | None =>
      let* now := now_ in
      if t_ExpiresAt t <? now then Ret (Err (EMsg "verification token expired")) else
      try* _ := in_tx (fun _ now d =>
        let d := set_verify_tokens (mark_used token now (verify_tokens d)) d in
        Ok (set_users (update_where (by_id (t_UserID t)) (set_u_EmailVerified true) (users d)) d, tt)) in
      Ret (Ok (t_UserID t))
  end.
Definition VerifyPasswordResetToken (token : string) : prog World (res string) :=
  try* t := query (fun _ d => row_or (EMsg "invalid password reset token") (reset_tokens d !! token)) in
  match t_UsedAt t with
  | Some _ => Ret (Err (EMsg "password reset token already used"))
  | None =>
      let* now := now_ in
      if t_ExpiresAt t <? now then Ret (Err (EMsg "password reset token expired")) else Ret (Ok (t_UserID t))
  end.
Definition MarkPasswordResetTokenUsed (token : string) : prog World (res unit) :=
  in_tx (fun _ now d =>
    match reset_tokens d !! token with
    | Some t => if unused t then Ok (set_reset_tokens (mark_used token now (reset_tokens d)) d, tt)
                else Err (EMsg "password reset token already used")
    | None => Err (EMsg "password reset token already used")
    end).
(** One statement finds the token and marks it; the password changes with it or not at all. *)
Definition ConsumePasswordResetAndUpdatePassword (token newPasswordHash : string) : prog World (res unit) :=
  in_tx (fun _ now d =>
    match reset_tokens d !! token with
    | Some t =>
        if unused t && (now <? t_ExpiresAt t) then
          let d := set_reset_tokens (mark_used token now (reset_tokens d)) d in
          let d := set_users (update_where (by_id (t_UserID t))
            (fun u => set_u_UpdatedAt now (set_u_PasswordChangedAt (Some now) (set_u_PasswordHash (Some newPasswordHash) u))) (users d)) d in
          Ok (insertPasswordHistory (t_UserID t) newPasswordHash now d, tt)
        else Err (EMsg "invalid or expired password reset token")
    | None => Err (EMsg "invalid or expired password reset token")
    end).

(** * Changing an address *)

Definition EmailChangeWaitPeriod : Z := 24 * hour.
Definition EmailChangeTokenTTL : Z := 48 * hour.
Definition CreateEmailChangeRequest (userID oldEmail newEmail oldToken newToken : string) (notBefore expiresAt : Z)
    : prog World (res EmailChangeRequest) :=
  in_tx (fun ids now d =>
    let id := ids 0%nat in
    let t := delete_where (fun r => String.eqb (ec_UserID r) userID && bool_decide (ec_CompletedAt r = None)) (email_changes d) in
    if bool_decide (users d !! userID = None) then Err (violates "email_change_requests_user_id_fkey") else
    if bool_decide (is_Some (t !! id)) ||
       exists_row (fun r => String.eqb (ec_OldEmailToken r) oldToken || String.eqb (ec_NewEmailToken r) newToken) t
    then Err (violates "email_change_requests_token_key") else
    let req := mkEmailChange id userID oldEmail newEmail oldToken newToken None None now notBefore expiresAt None in
    Ok (set_email_changes (<[id := req]> t) d, req)).

Definition loadEmailChangeRequestForToken (token : string) (d : DB) : res EmailChangeRequest :=
  row_or (EMsg "invalid email change token")
    (select_one (fun r => String.eqb (ec_OldEmailToken r) token || String.eqb (ec_NewEmailToken r) token) (email_changes d)).
Definition validateEmailChangeRequest (req : EmailChangeRequest) (now : Z) : res unit :=
  match ec_CompletedAt req with
  | Some _ => Err (EMsg "email change already completed")
  | None => if ec_ExpiresAt req <? now then Err (EMsg "email change token expired") else Ok tt
  end.
Definition confirmed_at (at_ : option Z) (now : Z) : option Z := match at_ with Some t => Some t | None => Some now end.
Definition recordEmailChangeTokenConfirmation (token : string) (req : EmailChangeRequest) (now : Z) : res EmailChangeRequest :=
  if String.eqb token (ec_OldEmailToken req) then Ok (set_ec_OldEmailConfirmedAt (confirmed_at (ec_OldEmailConfirmedAt req) now) req)
  else if String.eqb token (ec_NewEmailToken req) then Ok (set_ec_NewEmailConfirmedAt (confirmed_at (ec_NewEmailConfirmedAt req) now) req)
  else Err (EMsg "invalid email change token").
Definition finalizeEmailChangeIfReady (req : EmailChangeRequest) (now : Z) (d : DB) : res (DB * EmailChangeRequest) :=
  match ec_OldEmailConfirmedAt req, ec_NewEmailConfirmedAt req with
  | Some _, Some _ =>
      if now <? ec_NotBefore req then Ok (d, req) else
      if exists_row (fun u => String.eqb (u_Email u) (ec_NewEmail req) && negb (by_id (ec_UserID req) u)) (users d)
      then Err (violates "users_email_key") else
      let d := set_users (update_where (by_id (ec_UserID req))
        (fun u => set_u_UpdatedAt now (set_u_EmailVerified true (set_u_Email (ec_NewEmail req) u))) (users d)) d in
      Ok (d, set_ec_CompletedAt (Some now) req)
  | _, _ => Ok (d, req)
  end.
(** [now] is the instant the caller read. *)
Definition ConfirmEmailChangeToken (token : string) (now : Z) : prog World (res EmailChangeRequest) :=
  in_tx (fun _ _ d =>
    let? req := loadEmailChangeRequestForToken token d in
    let? _ := validateEmailChangeRequest req now in
    let? req := recordEmailChangeTokenConfirmation token req now in
    let? (d, req) := finalizeEmailChangeIfReady req now d in
    Ok (set_email_changes (<[ec_ID req := req]> (email_changes d)) d, req)).

(** * Personal access tokens *)

Definition personalAccessTokenPrefix : string := "bqpat_".
Definition ErrPersonalAccessTokenNotFound : goerr := EMsg "personal access token not found".
Definition ErrPersonalAccessTokenInvalid : goerr := EMsg "personal access token invalid, expired, or revoked".

Definition generateToken : prog World (res (string * string)) :=
  try* secret := draw_text RawBase64URL 32 in
  let plaintext := personalAccessTokenPrefix +:+ secret in
  Ret (Ok (plaintext, String.substring 0 (String.length personalAccessTokenPrefix + 4) plaintext)).
Definition CreateToken (userID name : string) (expiresAt : option Z) : prog World (res (string * PersonalAccessToken)) :=
  try* (plaintext, prefix) := wrap "generate token" generateToken in
  try* rec := wrap "insert personal access token" (in_tx (fun ids now d =>
    let id := ids 0%nat in
    if bool_decide (users d !! userID = None) then Err (violates "personal_access_tokens_user_id_fkey") else
    if bool_decide (is_Some (access_tokens d !! id)) || exists_row (fun r => String.eqb (pat_TokenHash r) (HashToken plaintext)) (access_tokens d)
    then Err (violates "personal_access_tokens_token_hash_key") else
    let rec := mkPAT id userID name (HashToken plaintext) prefix now expiresAt None None in
    Ok (set_access_tokens (<[id := rec]> (access_tokens d)) d, rec))) in
  Ret (Ok (plaintext, rec)).
Definition pat_unrevoked (r : PersonalAccessToken) : bool := match pat_RevokedAt r with None => true | Some _ => false end.
Definition pat_active (now : Z) (r : PersonalAccessToken) : bool :=
  pat_unrevoked r && match pat_ExpiresAt r with Some t => now <? t | None => true end.
Definition pat_newer (r s : PersonalAccessToken) : Prop := pat_CreatedAt s <= pat_CreatedAt r.
#[global] Instance pat_newer_dec r s : Decision (pat_newer r s).
Proof using. unfold pat_newer. apply _. Defined.
Definition ListActiveTokens (userID : string) : prog World (res (list PersonalAccessToken)) :=
  query (fun _ d => Ok (merge_sort pat_newer (select (fun r => String.eqb (pat_UserID r) userID && pat_unrevoked r) (access_tokens d)))).
Definition RevokeTokenByID (userID tokenID : string) : prog World (res unit) :=
  let P r := String.eqb (pat_ID r) tokenID && String.eqb (pat_UserID r) userID && pat_unrevoked r in
  try* rows := update (fun now d => set_access_tokens (update_where P (set_pat_RevokedAt (Some now)) (access_tokens d)) d)
    (fun _ d => affected P (access_tokens d)) in
  if (rows =? 0)%nat then Ret (Err ErrPersonalAccessTokenNotFound) else Ret (Ok tt).
Definition FindActiveByHash (plaintext : string) : prog World (res PersonalAccessToken) :=
  try* rec := query (fun now d => row_or ErrPersonalAccessTokenInvalid
    (select_one (fun r => String.eqb (pat_TokenHash r) (HashToken plaintext) && pat_active now r) (access_tokens d))) in
  let P r := String.eqb (pat_ID r) (pat_ID rec) in
  let* _ := update (fun now d => set_access_tokens (update_where P (set_pat_LastUsedAt (Some now)) (access_tokens d)) d)
    (fun _ d => affected P (access_tokens d)) in
  Ret (Ok rec).

(** * The states of OAuth *)

Definition oauthStateTTL : Z := 300 * second.
Definition oauth_state_key (provider bindToken : string) : string := "oauth_state:" +:+ bindToken +:+ ":" +:+ provider.
Definition set_oauth_states (x : gmap string (string * Z)) (m : Memory) : Memory := mkMemory x (check_cache m).
Definition storeLocalOAuthState (key state : string) (ttl : Z) : prog World unit :=
  locally (fun now m => (set_oauth_states (<[key := (state, now + ttl)]> (oauth_states m)) m, tt)).
Definition consumeLocalOAuthState (key : string) : prog World (option string) :=
  locally (fun now m =>
    match oauth_states m !! key with
    | Some (state, expiresAt) => (set_oauth_states (delete key (oauth_states m)) m, if now <? expiresAt then Some state else None)
    | None => (m, None)
    end).
Definition purgeExpiredLocalOAuthStates : prog World unit :=
  locally (fun now m => (set_oauth_states (filter (fun kv => now < kv.2.2) (oauth_states m)) m, tt)).
Definition StoreOAuthState (redis : bool) (provider bindToken state : string) : prog World (res unit) :=
  let key := oauth_state_key provider bindToken in
  if negb redis then let* _ := storeLocalOAuthState key state oauthStateTTL in Ret (Ok tt)
  else Set_ key state oauthStateTTL.
Definition VerifyOAuthState (redis : bool) (provider bindToken expectedState : string) : prog World (res bool) :=
  let key := oauth_state_key provider bindToken in
  if negb redis then
    let* stored := consumeLocalOAuthState key in
    Ret (Ok (is_some_eq stored expectedState))
  else
    try* stored := GetDel key in
    Ret (Ok (is_some_eq stored expectedState)).

(** * The challenges of passkeys *)

Definition SaveWebAuthnChallenge (challenge : string) (userID : option string) (expiresAt : Z) : prog World (res unit) :=
  in_tx (fun _ _ d => Ok (set_challenges (challenges d ++ [mkChallenge challenge userID expiresAt]) d, tt)).
(** The transaction locks nothing: its statements may interleave with another's. *)
Definition GetWebAuthnChallenge (challenge : string) : prog World (res (option string)) :=
  try* found := query (fun _ d => Ok (head (List.filter (fun c => String.eqb (wc_Challenge c) challenge) (challenges d)))) in
  match found with
  | None => Ret (Ok None)
  | Some c =>
      try* _ := stmt (fun _ d => (set_challenges (List.filter (fun c => negb (String.eqb (wc_Challenge c) challenge)) (challenges d)) d, Ok tt)) in
      let* now := now_ in
      Ret (Ok (if wc_ExpiresAt c <? now then None else wc_UserID c))
  end.
End Tokens.
