(* ===== verification/Mfa.v ===== *)
(** The second factor ([internal/auth/mfa]): time-based codes ([totp.go]), the enrolment
    of a user ([mfa_repository.go]) and its use ([mfa.go]). *)

From S2P Require Import Prelude GoStrings Interleave Tables AuthStore AuthText Sessions Users AuthTokens.
From stdpp Require Import options.
#[local] Open Scope Z_scope.

Definition ErrMFANotEnrolled : goerr := EMsg "mfa not enrolled".
Definition ErrMFANotEnabled : goerr := EMsg "mfa not enabled".
Definition ErrMFACodeInvalid : goerr := EMsg "invalid mfa code".
Definition ErrTOTPCodeAlreadyUsed : goerr := EMsg "totp code already used".

(** [base32.StdEncoding] without padding, decoded, and [hmac] with SHA-1: its 20 bytes. *)
Class Totp : Type := {
  Base32Decode : string -> res string;
  hmac_sha1 : string -> string -> list Z;
}.

(** * Codes *)

Definition totpDigits : nat := 6.
Definition totpPeriod : Z := 30.
Definition totpSkewSteps : Z := 1.

(** [binary.BigEndian.PutUint64] *)
Definition PutUint64 (n : Z) : string :=
  string_of_list_ascii (map (fun i => ascii_of_nat (Z.to_nat (Z.land (Z.shiftr n (8 * i)) 255))) [7; 6; 5; 4; 3; 2; 1; 0]).
(** [fmt.Sprintf("%0*d", width, n)] of a number that is not negative *)
Fixpoint pad_digits (width : nat) (s : string) : string :=
  if (String.length s <? width)%nat then match width with O => s | S w => String "0" (pad_digits w s) end else s.

Section Codes.
Context `{Totp} `{Unicode}.

Definition sum_at (sum : list Z) (i : Z) : Z := nth (Z.to_nat i) sum 0.
Definition truncate_mac (sum : list Z) : Z :=
  let offset := Z.land (sum_at sum (Z.of_nat (length sum) - 1)) 15 in
  Z.lor (Z.lor (Z.lor (Z.shiftl (Z.land (sum_at sum offset) 127) 24) (Z.shiftl (Z.land (sum_at sum (offset + 1)) 255) 16))
    (Z.shiftl (Z.land (sum_at sum (offset + 2)) 255) 8)) (Z.land (sum_at sum (offset + 3)) 255).
Definition generateTOTPCode (secret : string) (counter : Z) : res string :=
  let? key := res_map_err (EWrap "invalid totp secret") (Base32Decode (UpperText secret)) in
  Ok (pad_digits totpDigits (Itoa (truncate_mac (hmac_sha1 key (PutUint64 counter)) mod 10 ^ Z.of_nat totpDigits))).

(** [now] in nanoseconds. *)
Definition totpCounter (now : Z) : option Z :=
  let unix := now / second in if unix <? 0 then None else Some (unix / totpPeriod).
Definition totpCounterWithSkew (counter skew : Z) : option Z :=
  if skew <? 0 then if counter <? - skew then None else Some (counter + skew)
  else Some ((counter + skew) mod 2 ^ 64).
Fixpoint try_skews (secret code : string) (counter : Z) (skews : list Z) : option Z :=
  match skews with
  | [] => None
  | skew :: skews =>
      match totpCounterWithSkew counter skew with
      | None => try_skews secret code counter skews
      | Some s =>
          match generateTOTPCode secret s with
          | Err _ => None
          | Ok generated => if String.eqb generated code then Some s else try_skews secret code counter skews
          end
      end
  end.
(** The step whose code this is. *)
Definition VerifyTOTPStep (secret code : string) (now : Z) : option Z :=
  let code := TrimSpace code in
  if negb (String.length code =? totpDigits)%nat then None else
  match totpCounter now with
  | None => None
  | Some counter => try_skews secret code counter [- totpSkewSteps; 0; totpSkewSteps]
  end.
Definition VerifyTOTP (secret code : string) (now : Z) : bool := match VerifyTOTPStep secret code now with Some _ => true | None => false end.
Definition BuildOTPAuthURL (issuer account secret : string) : string :=
  "otpauth://totp/" +:+ PathEscape (issuer +:+ ":" +:+ account) +:+ "?" +:+
  encode_values [("algorithm", "SHA1"); ("digits", Itoa (Z.of_nat totpDigits)); ("issuer", issuer); ("period", Itoa totpPeriod); ("secret", secret)].

(** * Recovery codes *)

Fixpoint groups_of_four (n : nat) (l : list string) : list string :=
  match n, l with
  | O, _ | _, [] => []
  | S n, l => Concat (take 4 l) :: groups_of_four n (drop 4 l)
  end.
Definition formatRecoveryCode (code : string) : string :=
  let code := UpperText code in
  if (String.length code =? 16)%nat
  then String.substring 0 4 code +:+ "-" +:+ String.substring 4 4 code +:+ "-" +:+ String.substring 8 4 code +:+ "-" +:+ String.substring 12 4 code
  else let rs := runes code in Join (groups_of_four (length rs) rs) "-".
Definition normalizeRecoveryCode (code : string) : string := UpperText (ReplaceByte "-" "" (TrimSpace code)).
End Codes.

(** * Enrolments *)

Section Enrolments.
Context `{Env} `{Unicode} `{Totp}.

Definition Mfa_Upsert (userID method secret : string) (recoveryHashes : list string) : prog World (res unit) :=
  in_tx (fun _ _ d =>
    if bool_decide (users d !! userID = None) then Err (violates "user_mfa_user_id_fkey") else
    let old := user_mfa d !! userID in
    let e := mkEnrollment method secret recoveryHashes [] false None (match old with Some e => e_LastUsedAt e | None => None end)
      (match old with Some e => e_LastTOTPStep e | None => 0 end) in
    Ok (set_user_mfa (<[userID := e]> (user_mfa d)) d, tt)).
Definition Mfa_Get (userID : string) : prog World (res Enrollment) := query (fun _ d => row_or ErrMFANotEnrolled (user_mfa d !! userID)).

(** An update of the row of the user when it satisfies [P]. *)
Definition update_mfa (userID : string) (P : Enrollment -> bool) (f : Z -> Enrollment -> Enrollment) : prog World (res bool) :=
  stmt (fun now d =>
    match user_mfa d !! userID with
    | Some e => if P e then (set_user_mfa (<[userID := f now e]> (user_mfa d)) d, Ok true) else (d, Ok false)
    | None => (d, Ok false)
    end).
Definition update_mfa_any (userID : string) (f : Z -> Enrollment -> Enrollment) : prog World (res unit) :=
  try* _ := update_mfa userID (fun _ => true) f in Ret (Ok tt).
Definition Mfa_Enable (userID : string) : prog World (res unit) :=
  update_mfa_any userID (fun now e => set_e_VerifiedAt (confirmed_at (e_VerifiedAt e) now) (set_e_Enabled true e)).
Definition Mfa_Disable (userID : string) : prog World (res unit) :=
  in_tx (fun _ _ d => Ok (set_user_mfa (delete userID (user_mfa d)) d, tt)).
Definition MarkUsed (userID : string) : prog World (res unit) := update_mfa_any userID (fun now => set_e_LastUsedAt (Some now)).
Definition ConsumeTOTPStep (userID : string) (step : Z) : prog World (res bool) :=
  update_mfa userID (fun e => e_LastTOTPStep e <? step) (fun now e => set_e_LastUsedAt (Some now) (set_e_LastTOTPStep step e)).
(** [array_remove], [= ANY] *)
Definition remove_code (hash : string) (l : list string) : list string := List.filter (fun h => negb (String.eqb h hash)) l.
Definition ConsumeRecoveryCode (userID hash : string) : prog World (res bool) :=
  update_mfa userID (fun e => existsb (String.eqb hash) (e_RecoveryCodes e))
    (fun _ e => set_e_RecoveryCodes (remove_code hash (e_RecoveryCodes e)) e).
Definition ReplaceRecoveryCodes (userID : string) (hashes : list string) : prog World (res unit) :=
  update_mfa_any userID (fun _ => set_e_RecoveryCodes hashes).
Definition AddBypassCode (userID hash : string) : prog World (res unit) :=
  update_mfa_any userID (fun _ e => set_e_BypassCodes (e_BypassCodes e ++ [hash]) e).
Definition ConsumeBypassCode (userID hash : string) : prog World (res bool) :=
  update_mfa userID (fun e => existsb (String.eqb hash) (e_BypassCodes e))
    (fun _ e => set_e_BypassCodes (remove_code hash (e_BypassCodes e)) e).

(** * The service *)

Definition recoveryCodeCount : nat := 10.
Definition trim_padding (s : string) : string := trim_right (fun c => Ascii.eqb c "=") s.
Fixpoint generateRecoveryCodes (n : nat) : prog World (res (list (string * string))) :=
  match n with
  | O => Ret (Ok [])
  | S n =>
      try* raw := draw_text Base32 10 in
      let formatted := formatRecoveryCode (trim_padding raw) in
      try* h := wrap "hash recovery code" (bcrypt (normalizeRecoveryCode formatted)) in
      try* rest := generateRecoveryCodes n in
      Ret (Ok ((formatted, h) :: rest))
  end.
Definition GenerateTOTPSecret : prog World (res string) :=
  try* s := draw_text Base32 20 in Ret (Ok (trim_padding s)).
Definition Enroll (issuer userID accountLabel : string) : prog World (res (string * string * list string)) :=
  try* secret := GenerateTOTPSecret in
  try* codes := generateRecoveryCodes recoveryCodeCount in
  try* _ := Mfa_Upsert userID "totp" secret (map snd codes) in
  Ret (Ok (secret, BuildOTPAuthURL issuer accountLabel secret, map fst codes)).
(** The enrolment is enabled before the step is consumed. *)
Definition Verify (userID code : string) : prog World (res unit) :=
  try* enrol := Mfa_Get userID in
  let* now := now_ in
  match VerifyTOTPStep (e_Secret enrol) code now with
  | None => Ret (Err ErrMFACodeInvalid)
  | Some step =>
      try* _ := if e_Enabled enrol then Ret (Ok tt) else Mfa_Enable userID in
      try* consumed := ConsumeTOTPStep userID step in
      if consumed then Ret (Ok tt) else Ret (Err ErrTOTPCodeAlreadyUsed)
  end.

(** The codes a text matches, in their order, until one is consumed. *)
Fixpoint redeem (consume : string -> prog World (res bool)) (userID code : string) (hashes : list string) (otherwise : prog World (res unit))
    : prog World (res unit) :=
  match hashes with
  | [] => otherwise
  | h :: hashes =>
      if bcrypt_compare h code then
        try* ok := consume h in
        if ok then MarkUsed userID else redeem consume userID code hashes otherwise
      else redeem consume userID code hashes otherwise
  end.
Definition VerifyCode (userID code : string) : prog World (res unit) :=
  try* enrol := Mfa_Get userID in
  if negb (e_Enabled enrol) then Ret (Err ErrMFANotEnabled) else
  let* now := now_ in
  match VerifyTOTPStep (e_Secret enrol) code now with
  | Some step =>
      try* consumed := ConsumeTOTPStep userID step in
      if consumed then Ret (Ok tt) else Ret (Err ErrTOTPCodeAlreadyUsed)
  | None =>
      redeem (ConsumeRecoveryCode userID) userID (normalizeRecoveryCode code) (e_RecoveryCodes enrol)
        (redeem (ConsumeBypassCode userID) userID (UpperText (TrimSpace code)) (e_BypassCodes enrol) (Ret (Err ErrMFACodeInvalid)))
  end.
Definition GenerateBypassCode (userID : string) : prog World (res string) :=
  try* enrol := Mfa_Get userID in
  if negb (e_Enabled enrol) then Ret (Err ErrMFANotEnabled) else
  try* raw := draw_text Base32 5 in
  let bypassCode := "BYPASS-" +:+ trim_padding raw in
  try* h := wrap "hash bypass code" (bcrypt bypassCode) in
  try* _ := AddBypassCode userID h in
  Ret (Ok bypassCode).
Definition Status (userID : string) : prog World (res (option Enrollment)) :=
  let* r := Mfa_Get userID in
  match r with
  | Ok e => Ret (Ok (Some e))
  | Err e => if errors_Is e ErrMFANotEnrolled then Ret (Ok None) else Ret (Err e)
  end.
Definition RegenerateRecoveryCodes (userID : string) : prog World (res (list string)) :=
  try* enrol := Mfa_Get userID in
  if negb (e_Enabled enrol) then Ret (Err ErrMFANotEnabled) else
  try* codes := generateRecoveryCodes recoveryCodeCount in
  try* _ := ReplaceRecoveryCodes userID (map snd codes) in
  Ret (Ok (map fst codes)).
Definition IsEnabled (userID : string) : prog World (res bool) :=
  let* r := Mfa_Get userID in
  match r with
  | Ok e => Ret (Ok (e_Enabled e))
  | Err e => if errors_Is e ErrMFANotEnrolled then Ret (Ok false) else Ret (Err e)
  end.
End Enrolments.
