(* ===== verification/Rbac.v ===== *)
(** Roles and permissions ([internal/auth/rbac]): the roles a user holds with those they
    inherit, the permissions they grant, the check of a permission with its cache, the
    separation of duties and the access to data sources. *)

From S2P Require Import Prelude GoStrings Interleave Tables AuthStore AuthText Sessions Users AuthTokens.
From stdpp Require Import options.
#[local] Open Scope Z_scope.

(** * What a user holds *)

(** One round of the recursive query: the roles and those they directly inherit. *)
Definition inherited (inh : gset (string * string)) (s : gset string) : gset string :=
  list_to_set (map snd (List.filter (fun pc => bool_decide (pc.1 ∈ s)) (elements inh))).
Fixpoint effective_roles (fuel : nat) (inh : gset (string * string)) (s : gset string) : gset string :=
  match fuel with
  | O => s
  | S fuel => effective_roles fuel inh (s ∪ inherited inh s)
  end.
Definition closure (d : DB) (s : gset string) : gset string := effective_roles (size (role_inheritance d)) (role_inheritance d) s.

Definition text_le (a b : string) : Prop := String.leb a b = true.
#[global] Instance text_le_dec a b : Decision (text_le a b).
Proof. unfold text_le. apply _. Defined.
Definition sorted_names (l : list string) : list string := merge_sort text_le (remove_dups l).
Definition role_names (d : DB) (s : gset string) : list string := sorted_names (omap (fun id => roles d !! id) (elements s)).
Definition granted (d : DB) (s : gset string) : list string :=
  sorted_names (omap (fun rp => if bool_decide (rp.1 ∈ s) then p_Name <$> permissions d !! rp.2 else None) (elements (role_permissions d))).

(** The roles given to a user in a scope; the role of a user in a workspace. *)
Definition scoped_roles (userID scopeType scopeID : string) (d : DB) : gset string :=
  list_to_set (omap (fun '(u, r, st, sid) =>
    if String.eqb u userID && String.eqb st scopeType && String.eqb sid scopeID && bool_decide (is_Some (roles d !! r)) then Some r else None)
    (elements (user_roles d))).
Definition global_roles (userID : string) (d : DB) : gset string :=
  list_to_set (omap (fun '(u, r, st, _) =>
    if String.eqb u userID && String.eqb st ScopeGlobal && bool_decide (is_Some (roles d !! r)) then Some r else None)
    (elements (user_roles d))).
Definition workspace_roles (userID workspaceID : string) (d : DB) : gset string :=
  match members d !! (workspaceID, userID) with
  | Some m => if bool_decide (is_Some (roles d !! m_RoleID m)) then {[m_RoleID m]} else ∅
  | None => ∅
  end.

Definition has_name (l : list string) (name : string) : bool := existsb (String.eqb name) l.

Section Repository.
Context `{Env}.

Definition GetUserRoles (userID : string) : prog World (res (list string)) :=
  wrap "query user roles" (query (fun _ d => Ok (role_names d (closure d (global_roles userID d))))).
Definition GetUserPermissions (userID : string) : prog World (res (list string)) :=
  wrap "query user permissions" (query (fun _ d => Ok (granted d (closure d (global_roles userID d))))).
Definition GetUserScopedPermissions (userID scopeType scopeID : string) : prog World (res (list string)) :=
  wrap "query scoped permissions" (query (fun _ d => Ok (granted d (closure d (scoped_roles userID scopeType scopeID d))))).
Definition GetUserWorkspacePermissions (userID workspaceID : string) : prog World (res (list string)) :=
  wrap "query workspace permissions" (query (fun _ d => Ok (granted d (closure d (workspace_roles userID workspaceID d))))).
Definition ListAllPermissionNames : prog World (res (list string)) :=
  wrap "list permissions" (query (fun _ d => Ok (sorted_names (map p_Name (map_to_list (permissions d)).*2)))).

Definition text_or (default_ : string) (x : option string) : string :=
  match x with Some s => if str_empty s then default_ else s | None => default_ end.
Definition AssignRole (userID roleID : string) (scopeType scopeID : option string) : prog World (res unit) :=
  in_tx (fun _ _ d =>
    if bool_decide (users d !! userID = None) || bool_decide (roles d !! roleID = None) then Err (violates "user_roles_fkey")
    else Ok (set_user_roles ({[(userID, roleID, text_or ScopeGlobal scopeType, text_or no_scope scopeID)]} ∪ user_roles d) d, tt)).
(** In every scope. *)
Definition RemoveRole (userID roleID : string) : prog World (res unit) :=
  in_tx (fun _ _ d =>
    Ok (set_user_roles (filter (fun ur : string * string * string * string => ~ (ur.1.1.1 = userID /\ ur.1.1.2 = roleID)) (user_roles d)) d, tt)).
Definition GetUserWorkspaceRole (userID workspaceID : string) : prog World (res string) :=
  query (fun _ d => Ok (match members d !! (workspaceID, userID) with Some m => default "" (roles d !! m_RoleID m) | None => "" end)).
Definition role_info (userID : string) (d : DB) (ur : string * string * string * string) : option (string * string * string * string) :=
  let '(u, r, st, sid) := ur in
  if String.eqb u userID then match roles d !! r with Some name => Some (r, name, st, sid) | None => None end else None.
Definition GetUserRolesWithScope (userID : string) : prog World (res (list (string * string * string * string))) :=
  query (fun _ d => Ok (omap (M := list) (role_info userID d) (elements (user_roles d)))).
(** Whether the role is that of a super administrator or grants a permission on the
    administration itself. *)
Definition RoleGrantsAdminPermissions (roleID : string) : prog World (res bool) :=
  wrap "check privileged role" (query (fun _ d => Ok (
    match roles d !! roleID with
    | None => false
    | Some name => String.eqb name RoleSuperAdmin ||
        existsb (fun rp => String.eqb rp.1 roleID && match permissions d !! rp.2 with Some p => String.eqb (p_Resource p) "admin" | None => false end)
          (elements (role_permissions d))
    end))).
Definition GetRolePermissionIDs (roleID : string) : prog World (res (list string)) :=
  wrap "query role permissions" (query (fun _ d =>
    Ok (merge_sort text_le (map snd (List.filter (fun rp => String.eqb rp.1 roleID) (elements (role_permissions d))))))).
Definition SetRolePermissions (roleID : string) (permissionIDs : list string) : prog World (res unit) :=
  in_tx (fun _ _ d =>
    let pids := List.filter (fun pid => negb (str_empty pid)) permissionIDs in
    if existsb (fun pid => bool_decide (permissions d !! pid = None)) pids || (negb (bool_decide (pids = [])) && bool_decide (roles d !! roleID = None))
    then Err (violates "role_permissions_fkey") else
    let kept := filter (fun rp : string * string => rp.1 <> roleID) (role_permissions d) in
    Ok (set_role_permissions (list_to_set (map (pair roleID) pids) ∪ kept) d, tt)).

(** * Checks *)

Definition checkTTL : Z := 2 * minute.
Definition checkCacheKey (userID permission scopeType scopeID : string) : string :=
  userID +:+ ":" +:+ permission +:+ ":" +:+ scopeType +:+ ":" +:+ scopeID.
Definition set_check_cache (x : gmap string (bool * Z)) (m : Memory) : Memory := mkMemory (oauth_states m) x.
Definition InvalidateUserCache (userID : string) : prog World unit :=
  locally (fun _ m => (set_check_cache (filter (fun kv => HasPrefix kv.1 (userID +:+ ":") = false) (check_cache m)) m, tt)).
Definition InvalidateAllCache : prog World unit := locally (fun _ m => (set_check_cache ∅ m, tt)).
(** The answer is stored, and those too old are dropped. *)
Definition storeCheckResult (key : string) (allowed : bool) : prog World unit :=
  locally (fun now m => (set_check_cache (filter (fun kv => now - kv.2.2 < checkTTL) (<[key := (allowed, now)]> (check_cache m))) m, tt)).
Definition cached_check (key : string) : prog World (option bool) :=
  locally (fun now m =>
    (m, match check_cache m !! key with Some (allowed, at_) => if now - at_ <? checkTTL then Some allowed else None | None => None end)).

Definition HasRole (userID role : string) : prog World (res bool) :=
  try* roles := GetUserRoles userID in Ret (Ok (has_name roles role)).
Definition IsSuperAdmin (userID : string) : prog World (res bool) := HasRole userID RoleSuperAdmin.

Definition answer (key : string) (allowed : bool) : prog World (res bool) :=
  let* _ := storeCheckResult key allowed in Ret (Ok allowed).
Definition Check_ (userID permission scopeType scopeID : string) : prog World (res bool) :=
  if str_empty userID || str_empty permission then Ret (Err (EMsg "user_id and permission are required")) else
  let key := checkCacheKey userID permission scopeType scopeID in
  let* hit := cached_check key in
  match hit with
  | Some allowed => Ret (Ok allowed)
  | None =>
      try* isSuper := IsSuperAdmin userID in
      if isSuper then answer key true else
      try* globalPerms := GetUserPermissions userID in
      if has_name globalPerms permission then answer key true else
      try* scopedPerms :=
        if negb (str_empty scopeType) && negb (String.eqb scopeType ScopeGlobal) && negb (str_empty scopeID)
        then GetUserScopedPermissions userID scopeType scopeID else Ret (Ok []) in
      if has_name scopedPerms permission then answer key true else
      try* wsPerms :=
        if String.eqb scopeType ScopeWorkspace && negb (str_empty scopeID)
        then GetUserWorkspacePermissions userID scopeID else Ret (Ok []) in
      answer key (has_name wsPerms permission)
  end.
Definition RequireAny (userID : string) (perms : list string) : prog World (res bool) :=
  try* isSuper := IsSuperAdmin userID in
  if isSuper then Ret (Ok true) else
  try* userPerms := GetUserPermissions userID in
  Ret (Ok (existsb (has_name userPerms) perms)).
(** The order of the names is that of a Go map: any. *)
Definition EffectivePermissions (userID workspaceID : string) : prog World (res (gset string)) :=
  try* isSuper := IsSuperAdmin userID in
  if isSuper then try* l := ListAllPermissionNames in Ret (Ok (list_to_set l)) else
  try* globalPerms := GetUserPermissions userID in
  if str_empty workspaceID then Ret (Ok (list_to_set globalPerms)) else
  try* wsPerms := GetUserWorkspacePermissions userID workspaceID in
  try* scopedPerms := GetUserScopedPermissions userID ScopeWorkspace workspaceID in
  Ret (Ok (list_to_set globalPerms ∪ list_to_set wsPerms ∪ list_to_set scopedPerms)).

(** * Separation of duties *)

Definition ErrSeparationOfDuties : goerr := EMsg "separation of duties: super_admin cannot modify their own privileged state".
Definition ErrCannotDeactivateSelf : goerr := EMsg "cannot deactivate your own account".
Definition ErrPrivilegedRoleEscalation : goerr := EMsg "only super_admin may assign or remove privileged roles".

Definition EnforceSelfModificationGuard (callerID targetUserID action : string) : prog World (res unit) :=
  if negb (str_empty callerID) && String.eqb callerID targetUserID && String.eqb action "user.deactivate" then Ret (Err ErrCannotDeactivateSelf) else
  if str_empty callerID || negb (String.eqb callerID targetUserID) then Ret (Ok tt) else
  try* roles := GetUserRoles callerID in
  if has_name roles RoleSuperAdmin then Ret (Err ErrSeparationOfDuties) else Ret (Ok tt).
Definition EnforcePrivilegedRoleAssignmentGuard (callerID roleID : string) : prog World (res unit) :=
  try* privileged := RoleGrantsAdminPermissions roleID in
  if negb privileged then Ret (Ok tt) else
  try* roles := GetUserRoles callerID in
  if negb (has_name roles RoleSuperAdmin) then Ret (Err ErrPrivilegedRoleEscalation) else Ret (Ok tt).
End Repository.
