(* ===== verification/AuthService.v ===== *)
(** The authentication service ([internal/auth/service*.go], [jwt.go], [ldap_service.go]):
    the ways to sign in, the refresh of a session, the second factor, the letters and the
    life of an account, composed from the repositories. *)

From S2P Require Import Prelude GoStrings Interleave Tables AuthStore AuthText Sessions Users AuthTokens Mfa Rbac.
From stdpp Require Import options.
#[local] Open Scope Z_scope.

Definition ErrInvalidCredentials : goerr := EMsg "invalid email or password".
Definition ErrInactiveUser : goerr := EMsg "user account is deactivated".
Definition ErrAccountLocked : goerr := EMsg "too many failed login attempts; account is temporarily locked for 15 minutes".
Definition ErrMFARequired : goerr := EMsg "mfa required for active workspace".
Definition ErrEmailChangePending : goerr := EMsg "email change confirmation pending".
Definition ErrPasswordReused : goerr := EMsg "password was recently used".
Definition ErrNoPasswordSet : goerr := EMsg "password login is not enabled for this account".
Definition ErrSuperAdminRequired : goerr := EMsg "super admin privilege required".
Definition ErrSelfSignupDisabled : goerr := EMsg "self-service registration is disabled".
Definition ErrNotWorkspaceOwner : goerr := EMsg "not workspace owner".
Definition ErrMFAVerificationLocked : goerr := EMsg "too many failed MFA verification attempts; temporarily locked for 15 minutes".
Definition ErrPersonalAccessTokensUnavailable : goerr := EMsg "personal access tokens are not available".
Definition ErrInvalidOAuthCallbackCode : goerr := EMsg "invalid or expired oauth callback code".
Definition ErrOAuthExchangeUnavailable : goerr := EMsg "oauth callback exchange unavailable".
Definition ErrPlatformSettingsNotFound : goerr := EMsg "platform settings not found".
Definition ErrNotSuperAdmin : goerr := EMsg "only super admins can invite users".
Definition ErrWorkspaceNotFound : goerr := EMsg "workspace not found".
Definition ErrLDAPInvalidCredentials : goerr := EMsg "ldap: invalid credentials".
Definition PasswordHistoryLimit : Z := 5.

(** * Configuration, requests and answers *)

(** What of [Config] the service reads, and which of its optional parts are wired. *)
Record Config : Type := mkConfig {
  JWTRefreshTTL : Z;
  JWTAccessTTL : Z;
  JWTIssuer : string;
  JWTAudience : string;
  MaxActiveSessions : Z;
  PasswordMaxAgeDays : Z;
  GDPRPurgeAfterDays : Z;
  WebAuthnChallengeTTL : Z;
  Policy : PasswordPolicy;
  commonPasswords : list string;
  sessionMgr : SessionManager;
  redisClient : bool;
  emailSender : bool;
  workspaceSvc : bool;
  mfaSvc : bool;
  magicLinks : bool;
  patMgr : bool;
  ldapReady : bool;
  platformSettings : bool;
  auditSvc : bool;
}.

Record TokenResponse : Type := mkTokenResponse {
  AccessToken : string;
  RefreshToken : string;
  tr_UserID : string;
  tr_Email : string;
  tr_Roles : list string;
  tr_MFARequired : bool;
  MFAToken : string;
  PasswordExpired : bool;
  VerificationPending : bool;
}.

(** * JSON web tokens *)

Record JWTClaims : Type := mkClaims {
  jc_Email : string;
  jc_Roles : list string;
  jc_WorkspaceID : string;
  jc_AccessibleDatasources : list string;
  jc_EmailVerified : bool;
  jc_ID : string;
  jc_Subject : string;
  jc_Issuer : string;
  jc_Audience : list string;
  jc_ExpiresAt : Z;
  jc_IssuedAt : Z;
  jc_NotBefore : Z;
}.
(** [SignedString] with the private key, and [ParseWithClaims] of a parser for an issuer and
    an audience that accepts RS256 only, at an instant; the directory; [sonic]. *)
Class Outside : Type := {
  SignedString : JWTClaims -> res string;
  ParseWithClaims : string -> string -> Z -> string -> res JWTClaims;
  (** the address and the name of whom the directory knows by these credentials *)
  ldap_Authenticate : nat -> string -> string -> string -> res (string * string);
  marshal_response : TokenResponse -> res string;
  unmarshal_response : string -> res TokenResponse;
}.

Definition AuditLoginSuccess : string := "auth.login.success".
Definition AuditRegisterSuccess : string := "auth.register.success".
Definition AuditPasswordChanged : string := "auth.password.changed".
Definition AuditPasswordReset : string := "auth.password.reset".

Section AuthService.
Context `{Env} `{Unicode} `{Totp} `{Outside}.
Variable s : Config.

Definition MFAChallengeAudience : string := "biqly-mfa".
Definition mfaChallengeTTL : Z := 5 * minute.

Definition generateJTI : prog World (res string) := draw_text RawBase64URL 16.
Definition GenerateTokenWithVerification (userID email : string) (emailVerified : bool) (roles : list string) (workspaceID : string)
    (datasources : list string) : prog World (res string) :=
  let* now := now_ in
  try* jti := wrap "generate jti" generateJTI in
  Ret (SignedString (mkClaims email roles workspaceID datasources emailVerified jti userID (JWTIssuer s) [JWTAudience s]
    (now + JWTAccessTTL s) now now)).
Definition ValidateToken (tokenStr : string) : prog World (res JWTClaims) :=
  let* now := now_ in Ret (ParseWithClaims (JWTIssuer s) (JWTAudience s) now tokenStr).
Definition GenerateMFAChallenge (userID : string) : prog World (res string) :=
  let* now := now_ in
  try* jti := generateJTI in
  Ret (SignedString (mkClaims "" [] "" [] false jti userID (JWTIssuer s) [MFAChallengeAudience] (now + mfaChallengeTTL) now now)).
Definition ValidateMFAChallenge (tokenStr : string) : prog World (res string) :=
  let* now := now_ in
  match ParseWithClaims (JWTIssuer s) MFAChallengeAudience now tokenStr with
  | Err e => Ret (Err e)
  | Ok claims => if str_empty (jc_Subject claims) then Ret (Err (EMsg "invalid mfa challenge")) else Ret (Ok (jc_Subject claims))
  end.

(** * Parts shared by the ways to sign in *)

(** [emailSender] when it is wired; [slog] takes its failures. *)
Definition send_if (l : Letter) : prog World unit := if emailSender s then let* _ := send l in Ret tt else Ret tt.
(** The same where a failure is returned. *)
Definition send_or_fail (l : Letter) : prog World (res unit) := if emailSender s then send l else Ret (Ok tt).

Definition AuditLog (userID : option string) (action : string) (resource resourceID ipAddress : option string) : prog World (res unit) :=
  wrap "insert audit log" (in_tx (fun _ now d =>
    if negb (valid_inet ipAddress) then Err bad_inet else
    if match userID with Some u => bool_decide (users d !! u = None) | None => false end then Err (violates "audit_log_user_id_fkey") else
    Ok (set_audit_log (audit_log d ++ [mkAudit userID action resource resourceID ipAddress now]) d, tt))).
Definition auditEvent (userID action : string) (ipAddress : option string) : prog World unit :=
  if auditSvc s then let* _ := AuditLog (Some userID) action None None ipAddress in Ret tt else Ret tt.

Definition IsMFARequired (workspaceID : string) : prog World (res bool) :=
  query (fun _ d => row_or ErrWorkspaceNotFound (match workspaces d !! workspaceID with Some w => Some (ws_MFARequired w) | None => None end)).
Definition IsMember (workspaceID userID : string) : prog World (res bool) :=
  query (fun _ d => Ok (bool_decide (is_Some (members d !! (workspaceID, userID))))).
Definition activeWorkspaceRequiresMFA (userID : string) : prog World (res bool) :=
  if negb (workspaceSvc s) then Ret (Ok false) else
  try* workspaceID := wrap "get active workspace" (GetActiveOrPersonalWorkspaceID userID) in
  wrap "check workspace mfa policy" (IsMFARequired workspaceID).

Definition isPasswordExpired (userID : string) : prog World bool :=
  if PasswordMaxAgeDays s <=? 0 then Ret false else
  let* state := GetAccountState userID in
  match state with
  | Ok st =>
      match PasswordChangedAt st with
      | Some t => let* now := now_ in Ret (PasswordMaxAgeDays s * day <? now - t)
      | None => Ret false
      end
  | Err _ => Ret false
  end.

(** The roles, the workspace and the access token of a user, as every way to sign in needs them. *)
Definition access_token (user : User) : prog World (res (list string * string)) :=
  try* roles := GetUserRoles (u_ID user) in
  try* workspaceID := GetActiveOrPersonalWorkspaceID (u_ID user) in
  try* accessToken := wrap "generate access token"
    (GenerateTokenWithVerification (u_ID user) (u_Email user) (u_EmailVerified user) roles workspaceID []) in
  Ret (Ok (roles, accessToken)).
Definition tokens (user : User) (roles : list string) (accessToken refreshToken : string) (expired pending : bool) : TokenResponse :=
  mkTokenResponse accessToken refreshToken (u_ID user) (u_Email user) roles false "" expired pending.

Definition issueSession (user : User) (userAgent ipAddress : option string) : prog World (res TokenResponse) :=
  try* (roles, accessToken) := access_token user in
  let fingerprint := DeviceFingerprint (default "" userAgent) (default "" ipAddress) in
  try* refreshToken := wrap "create session"
    (CreateSessionWithFingerprint (sessionMgr s) (u_ID user) userAgent ipAddress fingerprint (JWTRefreshTTL s)) in
  let* _ := UpdateLastLogin (u_ID user) in
  let* _ := if 0 <? MaxActiveSessions s then EnforceMaxSessions (u_ID user) (MaxActiveSessions s) else Ret (Ok []) in
  let* isNew := RecordKnownDevice (u_ID user) fingerprint ipAddress in
  let* _ := match isNew with Ok true => send_if (NewDeviceLogin (u_Email user)) | _ => Ret tt end in
  let* passwordExpired := isPasswordExpired (u_ID user) in
  let* _ := auditEvent (u_ID user) AuditLoginSuccess ipAddress in
  Ret (Ok (tokens user roles accessToken refreshToken passwordExpired false)).
Definition CreateTokenResponseForUser (user : User) (userAgent ipAddress : option string) : prog World (res TokenResponse) :=
  try* (roles, accessToken) := access_token user in
  try* refreshToken := wrap "create session" (CreateSession (sessionMgr s) (u_ID user) userAgent ipAddress (JWTRefreshTTL s)) in
  Ret (Ok (tokens user roles accessToken refreshToken false false)).

(** * The password *)

Definition login_failures_key (email : string) : string := "login_failures:" +:+ email.
Definition checkLoginLockout (email : string) : prog World (res unit) :=
  if negb (redisClient s) then Ret (Ok tt) else
  let* val := GetInt (login_failures_key email) in
  Ret (match val with Ok v => if 5 <=? v then Err ErrAccountLocked else Ok tt | Err _ => Ok tt end).
Definition lockoutWindow : Z := 15 * minute.
Definition recordLoginFailure (email : string) (user : option User) : prog World unit :=
  if negb (redisClient s) then Ret tt else
  let* count := Incr (login_failures_key email) in
  match count with
  | Err _ => Ret tt
  | Ok count =>
      let* _ := Expire (login_failures_key email) lockoutWindow in
      match user with
      | Some u =>
          if (count =? 5) && emailSender s then
            let* token := CreateUnlockToken (u_ID u) hour in
            match token with
            | Ok token => let* _ := send (AccountUnlock (u_Email u) token) in Ret tt
            | Err _ => Ret tt
            end
          else Ret tt
      | None => Ret tt
      end
  end.
Definition clearLoginFailures (email : string) : prog World unit :=
  if redisClient s then let* _ := Del (login_failures_key email) in Ret tt else Ret tt.

(** The directory, when it is enabled: the user it vouches for, created here if need be. *)
Definition tryLDAP (username password : string) : prog World (res (option User)) :=
  if negb (ldapReady s) then Ret (Ok None) else
  try* cfg := wrap "get ldap config" (query (fun _ d => Ok (default (mkLDAPConfig false false "") (ldap_config d)))) in
  if negb (ldap_Enabled cfg) then Ret (Ok None) else
  let* found := atomic (fun w => (next w, ldap_Authenticate (w_tick w) (ldap_Settings cfg) username password)) in
  match found with
  | Err e => if errors_Is e ErrLDAPInvalidCredentials then Ret (Ok None) else Ret (Err e)
  | Ok (addr, name) =>
      let email := TrimSpace addr in
      let email := if str_empty email then username else email in
      let normEmail := normalizeLoginEmail email in
      let* user := GetUserByEmail normEmail in
      match user with
      | Ok user => Ret (Ok (Some user))
      | Err e =>
          if errors_Is e ErrUserNotFound then
            if negb (ldap_AutoCreateUsers cfg) then Ret (Ok None) else
            let displayName := match SanitizeDisplayName name with Ok n => if str_empty (TrimSpace n) then normEmail else n | Err _ => normEmail end in
            try* user := CreateDirectoryUser normEmail displayName in
            Ret (Ok (Some user))
          else Ret (Err e)
      end
  end.
(** The user the credentials name, whether they are right, and what vouched for them. *)
Definition authenticateLogin (rawEmail password email : string) : prog World (res (option User * bool * string)) :=
  let* found := GetUserByEmail email in
  try* user := match found with
    | Ok u => Ret (Ok (Some u))
    | Err e => if errors_Is e ErrUserNotFound then Ret (Ok None) else Ret (Err e)
    end in
  let passwordOK := match user with
    | Some u => match u_PasswordHash u with Some hash => VerifyPassword password hash | None => false end
    | None => false
    end in
  if passwordOK then Ret (Ok (user, true, "password")) else
  let* ldapUser := tryLDAP rawEmail password in
  match ldapUser with
  | Ok (Some u) => Ret (Ok (Some u, true, "ldap"))
  | _ => Ret (Ok (user, false, "password"))
  end.
Definition rejectInvalidLogin (user : option User) (passwordOK : bool) (email : string) : prog World (res User) :=
  match user with
  | None => let* _ := recordLoginFailure email None in Ret (Err ErrInvalidCredentials)
  | Some u =>
      if negb (u_IsActive u) then Ret (Err ErrInactiveUser) else
      if negb passwordOK then let* _ := recordLoginFailure email (Some u) in Ret (Err ErrInvalidCredentials)
      else Ret (Ok u)
  end.
Definition validateLoginAccountState (user : User) : prog World (res unit) :=
  try* state := GetAccountState (u_ID user) in
  if IsDeleted state then Ret (Err ErrAccountDeleted) else
  if IsFrozen state then Ret (Err ErrAccountFrozen) else Ret (Ok tt).

(** A challenge for the second factor, or leave to go on. *)
Definition loginMFAGate (user : User) : prog World (res (option TokenResponse)) :=
  try* workspaceMFARequired := activeWorkspaceRequiresMFA (u_ID user) in
  try* enabled := if mfaSvc s then wrap "check mfa" (IsEnabled (u_ID user)) else Ret (Ok false) in
  if enabled then
    try* challenge := wrap "generate mfa challenge" (GenerateMFAChallenge (u_ID user)) in
    Ret (Ok (Some (mkTokenResponse "" "" "" "" [] true challenge false false)))
  else if workspaceMFARequired then Ret (Err ErrMFARequired) else Ret (Ok None).
Definition Login (rawEmail password : string) (userAgent ipAddress : option string) : prog World (res TokenResponse) :=
  let email := normalizeLoginEmail rawEmail in
  try* _ := checkLoginLockout email in
  try* (user, passwordOK, _) := authenticateLogin rawEmail password email in
  try* user := rejectInvalidLogin user passwordOK email in
  try* _ := validateLoginAccountState user in
  let* _ := clearLoginFailures email in
  try* mfaResp := loginMFAGate user in
  match mfaResp with
  | Some resp => Ret (Ok resp)
  | None => issueSession user userAgent ipAddress
  end.

(** * The other ways *)

Definition CompleteMFALogin (mfaToken code : string) (userAgent ipAddress : option string) : prog World (res TokenResponse) :=
  if negb (mfaSvc s) then Ret (Err ErrMFANotEnabled) else
  let* userID := ValidateMFAChallenge mfaToken in
  match userID with
  | Err _ => Ret (Err ErrInvalidCredentials)
  | Ok userID =>
      try* _ := VerifyCode userID code in
      try* user := GetUserByID userID in
      if negb (u_IsActive user) then Ret (Err ErrInactiveUser) else issueSession user userAgent ipAddress
  end.
Definition ConsumeMagicLink (plain : string) (userAgent ipAddress : option string) : prog World (res TokenResponse) :=
  if negb (magicLinks s) || str_empty plain then Ret (Err ErrMagicLinkInvalid) else
  try* userID := MagicLink_Consume plain in
  try* user := GetUserByID userID in
  if negb (u_IsActive user) then Ret (Err ErrInactiveUser) else
  try* state := GetAccountState (u_ID user) in
  if IsDeleted state then Ret (Err ErrAccountDeleted) else
  if IsFrozen state then Ret (Err ErrAccountFrozen) else issueSession user userAgent ipAddress.

Definition GetPlatformSettings : prog World (res bool) :=
  if negb (platformSettings s) then Ret (Ok true) else query (fun _ d => row_or ErrPlatformSettingsNotFound (platform_settings d)).
Definition SelfSignupEnabled : prog World (res bool) := GetPlatformSettings.
Definition RegistrationAllowed : prog World (res bool) :=
  try* enabled := SelfSignupEnabled in if enabled then Ret (Ok true) else FirstUserSetupRequired.

Definition LoginOrRegisterOAuth (provider rawEmail rawName sub : string) (providerVerified : bool) (userAgent ipAddress : option string)
    : prog World (res TokenResponse) :=
  match NormalizeEmail rawEmail, SanitizeDisplayName rawName with
  | Err e, _ | _, Err e => Ret (Err e)
  | Ok email, Ok displayName =>
      if negb providerVerified then Ret (Err (EMsg "oauth provider email is not verified")) else
      let* account := GetOAuthAccount provider sub in
      try* user := match account with
        | Err e =>
            if errors_Is e ErrOAuthAccountNotFound then
              try* enabled := SelfSignupEnabled in
              if negb enabled then Ret (Err ErrSelfSignupDisabled) else CreateUserWithOAuth email displayName provider sub
            else Ret (Err e)
        | Ok userID =>
            try* user := GetUserByID userID in
            try* _ := wrap "link oauth account" (LinkOAuthAccount userID provider sub) in
            Ret (Ok user)
        end in
      if negb (u_IsActive user) then Ret (Err ErrInactiveUser) else
      try* (roles, accessToken) := access_token user in
      try* refreshToken := wrap "create session" (CreateSession (sessionMgr s) (u_ID user) userAgent ipAddress (JWTRefreshTTL s)) in
      let* _ := UpdateLastLogin (u_ID user) in
      let* _ := auditEvent (u_ID user) AuditLoginSuccess ipAddress in
      Ret (Ok (tokens user roles accessToken refreshToken false false))
  end.

Definition sendRegisterVerification (userID email : string) : prog World unit :=
  let* token := generateSecureToken in
  match token with
  | Err _ => Ret tt
  | Ok token =>
      let* now := now_ in
      let* _ := CreateEmailVerificationToken userID token (now + 24 * hour) in
      let* _ := send (EmailVerification email token) in
      Ret tt
  end.
(** What follows the creation of a user who chose a password. *)
Definition welcome (user : User) (userAgent ipAddress : option string) : prog World (res TokenResponse) :=
  try* (roles, accessToken) := access_token user in
  try* refreshToken := wrap "create session" (CreateSession (sessionMgr s) (u_ID user) userAgent ipAddress (JWTRefreshTTL s)) in
  let* _ := if emailSender s then sendRegisterVerification (u_ID user) (u_Email user) else Ret tt in
  let* _ := auditEvent (u_ID user) AuditRegisterSuccess ipAddress in
  Ret (Ok (tokens user roles accessToken refreshToken false true)).
Definition pending_response : TokenResponse := mkTokenResponse "" "" "" "" [] false "" false true.
Definition Register (rawEmail password rawName : string) (userAgent ipAddress : option string) : prog World (res TokenResponse) :=
  try* enabled := RegistrationAllowed in
  if negb enabled then Ret (Err ErrSelfSignupDisabled) else
  try* email := Ret (NormalizeEmail rawEmail) in
  try* displayName := Ret (SanitizeDisplayName rawName) in
  try* _ := Ret (ValidatePolicy (commonPasswords s) (Policy s) password [email; displayName]) in
  try* hash := wrap "hash password" (HashPassword password) in
  let* user := CreateUser email hash displayName in
  match user with
  | Err e =>
      if errors_Is e ErrUserAlreadyExists then
        let* _ := send_if (DuplicateRegistrationNotice email) in Ret (Ok pending_response)
      else Ret (Err e)
  | Ok user => welcome user userAgent ipAddress
  end.

(** The session is rotated before the account is looked at. *)
Definition Refresh (refreshToken : string) (userAgent ipAddress : option string) : prog World (res TokenResponse) :=
  try* newRefreshToken := RotateSession (sessionMgr s) refreshToken (JWTRefreshTTL s) userAgent ipAddress in
  try* userID := wrap "query session user" (query (fun _ d =>
    row_or ErrNoRows (match session_by_token (HashToken newRefreshToken) d with Some x => Some (s_UserID x) | None => None end))) in
  try* user := GetUserByID userID in
  if negb (u_IsActive user) then Ret (Err ErrInactiveUser) else
  try* _ := validateLoginAccountState user in
  try* (roles, accessToken) := access_token user in
  Ret (Ok (tokens user roles accessToken newRefreshToken false false)).
Definition Logout (token : string) : prog World (res unit) := RevokeSession token.
End AuthService.
