(* ===== verification/AuthAccounts.v ===== *)
(** The rest of the authentication service: letters with links ([service_magic_link.go],
    [service_email.go]), passwords ([service_password.go], [service_profile.go]), the life
    of an account ([service_account_lifecycle.go]), personal access tokens
    ([service_pat.go]), the exchange of OAuth codes ([oauth_exchange.go]), invitations
    ([invitation.go]) and what administrators do. *)

From S2P Require Import Prelude GoStrings Interleave Tables AuthStore AuthText Sessions Users AuthTokens Mfa Rbac AuthService.
From stdpp Require Import options.
#[local] Open Scope Z_scope.

Definition ErrInvitationNotFound : goerr := EMsg "invitation not found".
Definition ErrInvitationExpired : goerr := EMsg "invitation has expired".
Definition ErrInvitationClaimed : goerr := EMsg "invitation has already been claimed".
Definition ErrRoleNotFound : goerr := EMsg "role not found".

Section Accounts.
Context `{Env} `{Unicode} `{Totp} `{Outside}.
Variable s : Config.

(** * Letters with links *)

(** An address that is not known, or not active, is answered as one that is. *)
Definition RequestMagicLink (email ipAddress : string) : prog World (res unit) :=
  try* normalized := Ret (NormalizeEmail email) in
  if negb (magicLinks s) then Ret (Ok tt) else
  let* cooled := if redisClient s then SetNX ("magic_link_cooldown:" +:+ normalized) "1" MagicLinkRequestCooldown else Ret (Ok true) in
  match cooled with
  | Ok false => Ret (Ok tt)
  | _ =>
      let* user := GetUserByEmail normalized in
      match user with
      | Err e => if errors_Is e ErrUserNotFound then Ret (Ok tt) else Ret (Err e)
      | Ok user =>
          if negb (u_IsActive user) then Ret (Ok tt) else
          try* plain := generateMagicLinkToken in
          let* now := now_ in
          try* _ := MagicLink_Issue plain normalized (u_ID user) ipAddress (now + MagicLinkTokenTTL) in
          let* _ := send_if s (MagicLinkLetter normalized plain) in
          Ret (Ok tt)
      end
  end.

Definition VerifyEmail (token : string) : prog World (res unit) := try* _ := VerifyEmailToken token in Ret (Ok tt).
Definition ResendVerificationEmail (email : string) : prog World (res unit) :=
  try* normalized := Ret (NormalizeEmail email) in
  let* user := GetUserByEmail normalized in
  match user with
  | Err e => if errors_Is e ErrUserNotFound then Ret (Ok tt) else Ret (Err e)
  | Ok user =>
      if u_EmailVerified user then Ret (Err ErrEmailAlreadyVerified) else
      try* token := generateSecureToken in
      let* now := now_ in
      try* _ := CreateEmailVerificationToken (u_ID user) token (now + 24 * hour) in
      send_or_fail s (EmailVerification normalized token)
  end.
Definition AdminResendUserVerification (targetUserID : string) : prog World (res unit) :=
  try* user := GetUserByID targetUserID in ResendVerificationEmail (u_Email user).

Definition RequestEmailChange (userID newEmail : string) : prog World (res EmailChangeRequest) :=
  try* normalized := Ret (NormalizeEmail newEmail) in
  try* user := GetUserByID userID in
  if String.eqb (LowerText (u_Email user)) (LowerText normalized) then Ret (Err (EMsg "new email must be different")) else
  let* other := GetUserByEmail normalized in
  match other with
  | Ok _ => Ret (Err ErrUserAlreadyExists)
  | Err e =>
      if negb (errors_Is e ErrUserNotFound) then Ret (Err e) else
      try* oldToken := generateSecureToken in
      try* newToken := generateSecureToken in
      let* now := now_ in
      try* req := CreateEmailChangeRequest (u_ID user) (u_Email user) normalized oldToken newToken
        (now + EmailChangeWaitPeriod) (now + EmailChangeTokenTTL) in
      try* _ := send_or_fail s (EmailChangeConfirmation (u_Email user) oldToken false) in
      try* _ := send_or_fail s (EmailChangeConfirmation normalized newToken true) in
      Ret (Ok req)
  end.
(** Beside [ErrEmailChangePending] the request is returned. *)
Definition ConfirmEmailChange (token : string) : prog World (res (EmailChangeRequest * option goerr)) :=
  if str_empty (TrimSpace token) then Ret (Err (EMsg "token is required")) else
  let* now := now_ in
  try* req := ConfirmEmailChangeToken token now in
  Ret (Ok (req, match ec_CompletedAt req with None => Some ErrEmailChangePending | Some _ => None end)).

(** * Passwords *)

Definition mfa_failures_key (userID : string) : string := "mfa_failures:" +:+ userID.
Definition RecordMFAFailure (userID : string) : prog World unit :=
  if negb (redisClient s) then Ret tt else
  let* count := Incr (mfa_failures_key userID) in
  match count with
  | Err _ => Ret tt
  | Ok _ => let* _ := Expire (mfa_failures_key userID) lockoutWindow in Ret tt
  end.
Definition CheckMFALockout (userID : string) : prog World (res unit) :=
  if negb (redisClient s) then Ret (Ok tt) else
  let* val := GetInt (mfa_failures_key userID) in
  Ret (match val with Ok v => if 5 <=? v then Err ErrMFAVerificationLocked else Ok tt | Err _ => Ok tt end).
Definition ClearMFAFailures (userID : string) : prog World unit :=
  if redisClient s then let* _ := Del (mfa_failures_key userID) in Ret tt else Ret tt.

Definition ForgotPassword (email : string) : prog World (res unit) :=
  try* normalized := Ret (NormalizeEmail email) in
  let* user := GetUserByEmail normalized in
  match user with
  | Err e => if errors_Is e ErrUserNotFound then Ret (Ok tt) else Ret (Err e)
  | Ok user =>
      try* token := generateSecureToken in
      let* now := now_ in
      try* _ := CreatePasswordResetToken (u_ID user) token (now + hour) in
      send_or_fail s (PasswordReset normalized token)
  end.
Definition identity (user : User) : list string :=
  u_Email user :: match u_DisplayName user with Some n => [n] | None => [] end ++ match u_Username user with Some n => [n] | None => [] end.
(** A new password: within the policy, and none of the last ones; its hash. *)
Definition new_password (user : User) (newPassword : string) : prog World (res string) :=
  try* _ := Ret (ValidatePolicy (commonPasswords s) (Policy s) newPassword (identity user)) in
  try* reused := PasswordWasUsed (u_ID user) newPassword PasswordHistoryLimit in
  if reused then Ret (Err ErrPasswordReused) else HashPassword newPassword.
Definition ResetPassword (token newPassword : string) : prog World (res unit) :=
  try* userID := VerifyPasswordResetToken token in
  try* user := GetUserByID userID in
  try* hash := new_password user newPassword in
  try* _ := ConsumePasswordResetAndUpdatePassword token hash in
  try* _ := wrap "revoke user sessions on password reset" (RevokeAllUserSessions userID) in
  let* _ := auditEvent s userID AuditPasswordReset None in
  Ret (Ok tt).
Definition ChangePassword (userID currentPassword newPassword : string) : prog World (res unit) :=
  try* user := GetUserByID userID in
  match u_PasswordHash user with
  | None => Ret (Err ErrNoPasswordSet)
  | Some current =>
      if negb (VerifyPassword currentPassword current) then Ret (Err ErrInvalidCredentials) else
      try* hash := new_password user newPassword in
      try* _ := UpdateUserPassword userID hash in
      try* _ := wrap "revoke user sessions on password change" (RevokeAllUserSessions userID) in
      let* _ := auditEvent s userID AuditPasswordChanged None in
      Ret (Ok tt)
  end.

(** * The user's own page *)

Record UserResponse : Type := mkUserResponse { ur_User : User; ur_HasPassword : bool; ur_ActiveWorkspaceID : string }.
Definition GetMe (userID : string) : prog World (res UserResponse) :=
  try* user := GetUserByID userID in
  let* activeWS := GetActiveOrPersonalWorkspaceID userID in
  Ret (Ok (mkUserResponse (public user) (match u_PasswordHash user with Some _ => true | None => false end)
    (match activeWS with Ok ws => ws | Err _ => "" end))).
Definition UpdateProfile (userID displayName : string) (avatarURL : option string) : prog World (res UserResponse) :=
  try* displayName := Ret (SanitizeDisplayName displayName) in
  try* _ := UpdateUserDisplayName userID displayName in
  try* _ := match avatarURL with Some _ => UpdateUserAvatarURL userID avatarURL | None => Ret (Ok tt) end in
  GetMe userID.
Definition SetActiveWorkspace (userID workspaceID : string) : prog World (res (string * string)) :=
  if str_empty workspaceID then Ret (Err (EMsg "workspace_id is required")) else
  if negb (workspaceSvc s) then Ret (Err (EMsg "workspace service not configured")) else
  try* isMember := wrap "check workspace membership" (IsMember workspaceID userID) in
  if negb isMember then Ret (Err ErrNotWorkspaceOwner) else
  try* _ := wrap "set active workspace" (SetActiveWorkspaceID userID workspaceID) in
  try* user := GetUserByID userID in
  try* roles := GetUserRoles userID in
  try* accessToken := wrap "generate access token"
    (GenerateTokenWithVerification s (u_ID user) (u_Email user) (u_EmailVerified user) roles workspaceID []) in
  Ret (Ok (accessToken, workspaceID)).

(** * The life of an account *)

(** An account and the end of its sessions. *)
Definition Service_FreezeAccount (userID : string) : prog World (res unit) :=
  try* _ := FreezeAccount userID in
  wrap "revoke user sessions on freeze" (RevokeAllUserSessions userID).
Definition Service_UnfreezeAccount (userID : string) : prog World (res unit) := UnfreezeAccount userID.
(** A password that is given has to be right. *)
Definition DeleteAccount (userID password : string) : prog World (res Z) :=
  try* user := GetUserByID userID in
  if negb (str_empty password) &&
     negb (match u_PasswordHash user with Some hash => VerifyPassword password hash | None => false end)
  then Ret (Err ErrInvalidCredentials) else
  try* purgeAt := SoftDeleteAccount userID (GDPRPurgeAfterDays s) in
  try* _ := wrap "revoke user sessions on delete" (RevokeAllUserSessions userID) in
  let* _ := send_if s (AccountDeletionScheduled (u_Email user) purgeAt) in
  Ret (Ok purgeAt).
(** Only for a super administrator. *)
Definition require_super_admin (e : goerr) (actorUserID : string) : prog World (res unit) :=
  try* isSuper := IsSuperAdmin actorUserID in
  if isSuper then Ret (Ok tt) else Ret (Err e).
Definition Service_RestoreAccount (actorUserID targetUserID : string) : prog World (res unit) :=
  try* _ := require_super_admin ErrSuperAdminRequired actorUserID in RestoreAccount targetUserID.
Definition AdminForceLogout (actorUserID targetUserID : string) : prog World (res unit) :=
  try* _ := require_super_admin ErrSuperAdminRequired actorUserID in RevokeAllUserSessions targetUserID.
Definition GenerateMFABypassCode (actorUserID targetUserID : string) : prog World (res string) :=
  try* _ := require_super_admin ErrSuperAdminRequired actorUserID in
  if String.eqb actorUserID targetUserID then Ret (Err ErrSuperAdminRequired) else
  if negb (mfaSvc s) then Ret (Err ErrMFANotEnabled) else
  try* _ := GetUserByID targetUserID in
  GenerateBypassCode targetUserID.
Definition UnlockAccount (token : string) : prog World (res string) :=
  try* userID := ConsumeUnlockToken token in
  try* user := GetUserByID userID in
  let* _ := clearLoginFailures s (u_Email user) in
  Ret (Ok userID).
Definition UpdatePlatformSettings (actorUserID : string) (selfSignupEnabled : bool) : prog World (res bool) :=
  try* _ := require_super_admin ErrNotSuperAdmin actorUserID in
  if negb (platformSettings s) then Ret (Err ErrPlatformSettingsNotFound) else
  in_tx (fun _ _ d =>
    match AuthStore.platform_settings d with
    | None => Err ErrPlatformSettingsNotFound
    | Some _ => Ok (set_platform_settings (Some selfSignupEnabled) d, selfSignupEnabled)
    end).

(** * Personal access tokens *)

Record PATIdentity : Type := mkPATIdentity {
  pi_UserID : string; pi_Email : string; pi_EmailVerified : bool; pi_Roles : list string; pi_WorkspaceID : string }.
Definition resolveIdentity (userID : string) : prog World (res (list string * string)) :=
  try* roles := GetUserRoles userID in
  try* workspaceID := GetActiveOrPersonalWorkspaceID userID in
  Ret (Ok (roles, workspaceID)).
Definition with_pats {A} (m : prog World (res A)) : prog World (res A) :=
  if negb (patMgr s) then Ret (Err ErrPersonalAccessTokensUnavailable) else m.
Definition CreateAccessToken (userID name : string) (expiresAt : option Z) : prog World (res (string * PersonalAccessToken)) :=
  with_pats (CreateToken userID name expiresAt).
Definition ListAccessTokens (userID : string) : prog World (res (list PersonalAccessToken)) := with_pats (ListActiveTokens userID).
Definition RevokeAccessToken (userID tokenID : string) : prog World (res unit) := with_pats (RevokeTokenByID userID tokenID).
Definition VerifyAccessToken (plaintext : string) : prog World (res PATIdentity) :=
  with_pats (
    try* rec := FindActiveByHash plaintext in
    try* user := GetUserByID (pat_UserID rec) in
    if negb (u_IsActive user) then Ret (Err ErrInactiveUser) else
    try* (roles, workspaceID) := wrap "resolve identity for personal access token" (resolveIdentity (u_ID user)) in
    Ret (Ok (mkPATIdentity (u_ID user) (u_Email user) (u_EmailVerified user) roles workspaceID))).

(** * The exchange of OAuth codes *)

Definition oauthCallbackKeyPrefix : string := "oauth_callback:".
Definition oauthCallbackUsedKeyPrefix : string := "oauth_callback_used:".
Definition oauthCallbackCodeTTL : Z := 90 * second.
Definition oauthCallbackGraceTTL : Z := 5 * second.
Definition has_tokens (resp : TokenResponse) : bool := negb (str_empty (AccessToken resp)) && negb (str_empty (RefreshToken resp)).
Definition IssueOAuthCallbackCode (resp : TokenResponse) : prog World (res string) :=
  if negb (redisClient s) then Ret (Err ErrOAuthExchangeUnavailable) else
  if negb (has_tokens resp) then Ret (Err (EMsg "token response missing tokens")) else
  try* code := wrap "generate oauth callback code" (draw_text RawBase64URL 32) in
  try* payload := Ret (marshal_response resp) in
  try* _ := wrap "store oauth callback code" (Set_ (oauthCallbackKeyPrefix +:+ code) payload oauthCallbackCodeTTL) in
  Ret (Ok code).
(** The payload and, for a retry, the copy that the first reader leaves. *)
Definition loadOAuthCallbackPayload (key usedKey : string) : prog World (res string) :=
  let* first := GetDel key in
  match first with
  | Ok (Some raw) => let* _ := Set_ usedKey raw oauthCallbackGraceTTL in Ret (Ok raw)
  | Err e => Ret (Err (EWrap "redeem oauth callback code" e))
  | Ok None =>
      let* grace := GetDel usedKey in
      Ret (match grace with
           | Ok (Some raw) => Ok raw
           | Ok None => Err ErrInvalidOAuthCallbackCode
           | Err e => Err (EWrap "redeem oauth callback grace cache" e)
           end)
  end.
Definition RedeemOAuthCallbackCode (code : string) : prog World (res TokenResponse) :=
  if negb (redisClient s) then Ret (Err ErrOAuthExchangeUnavailable) else
  if str_empty code then Ret (Err ErrInvalidOAuthCallbackCode) else
  try* raw := loadOAuthCallbackPayload (oauthCallbackKeyPrefix +:+ code) (oauthCallbackUsedKeyPrefix +:+ code) in
  try* resp := Ret (res_map_err (EWrap "decode oauth callback payload") (unmarshal_response raw)) in
  if has_tokens resp then Ret (Ok resp) else Ret (Err ErrInvalidOAuthCallbackCode).

(** * Invitations *)

Definition invitationTTL : Z := 48 * hour.
Definition invitation_by_email (email : string) (d : DB) : option Invitation :=
  select_one (fun i => String.eqb (inv_Email i) email) (invitations d).
Definition invitation_by_hash (hash : string) (d : DB) : option Invitation :=
  select_one (fun i => is_some_eq (inv_Token i) hash) (invitations d).
(** An address has one invitation: a later one takes its place. *)
Definition upsert_invitation (id email hash roleID actorUserID : string) (now expiresAt : Z) (d : DB) : DB :=
  let id := match invitation_by_email email d with Some i => inv_ID i | None => id end in
  set_invitations (<[id := mkInvitation id email (Some hash) roleID actorUserID now expiresAt None]> (invitations d)) d.
Definition InviteUser (actorUserID email roleName : string) : prog World (res unit) :=
  try* isSuper := wrap "check super admin" (IsSuperAdmin actorUserID) in
  if negb isSuper then Ret (Err ErrNotSuperAdmin) else
  try* normEmail := Ret (NormalizeEmail email) in
  let* other := GetUserByEmail normEmail in
  match other with
  | Ok _ => Ret (Err (EMsg "user already exists with this email"))
  | Err e =>
      if negb (errors_Is e ErrUserNotFound) then Ret (Err (EWrap "check user existence" e)) else
      try* roleID := query (fun _ d => row_or ErrRoleNotFound (role_id roleName d)) in
      try* token := wrap "generate secure token" generateSecureToken in
      let* now := now_ in
      try* _ := wrap "upsert invitation" (in_tx (fun ids now' d =>
        Ok (upsert_invitation (ids 0%nat) normEmail (hashMagicLink token) roleID actorUserID now' (now + invitationTTL) d, tt))) in
      wrap "send invitation email" (send_or_fail s (InvitationLetter normEmail token roleName (now + invitationTTL)))
  end.
Definition GetInvitation (token : string) : prog World (res Invitation) :=
  if str_empty token then Ret (Err ErrInvitationNotFound) else
  try* invite := query (fun _ d => row_or ErrInvitationNotFound (invitation_by_hash (hashMagicLink token) d)) in
  match inv_ClaimedAt invite with
  | Some _ => Ret (Err ErrInvitationClaimed)
  | None =>
      let* now := now_ in
      if inv_ExpiresAt invite <? now then Ret (Err ErrInvitationExpired) else Ret (Ok invite)
  end.
Definition claimInvitationInTx (invite : Invitation) (hash displayName : string) (ids : nat -> string) (now : Z) (d : DB) : res (DB * User) :=
  if email_taken (inv_Email invite) d then Err (EMsg "user already exists with this email") else
  let? (d, user) := insert_user (ids 0%nat) (inv_Email invite) (Some hash) displayName false (Some now) now d in
  let d := insertPasswordHistory (u_ID user) hash now d in
  let? d := own_workspace (ids 1%nat) (u_ID user) (displayName +:+ "'s Workspace") (inv_RoleID invite) now d in
  Ok (set_invitations (update_where (fun i => String.eqb (inv_ID i) (inv_ID invite)) (set_inv_ClaimedAt (Some now)) (invitations d)) d, public user).
Definition ClaimInvitation (token password rawName userAgent ipAddress : string) : prog World (res TokenResponse) :=
  try* invite := GetInvitation token in
  try* displayName := Ret (SanitizeDisplayName rawName) in
  let displayName := if str_empty displayName then inv_Email invite else displayName in
  try* _ := Ret (ValidatePolicy (commonPasswords s) (Policy s) password [inv_Email invite; displayName]) in
  try* hash := wrap "hash password" (HashPassword password) in
  try* user := in_tx (claimInvitationInTx invite hash displayName) in
  welcome s user (Some userAgent) (Some ipAddress).
(** [COALESCE(u.display_name, u.email, ui.invited_by)] *)
Definition inviter_name (userID : string) (d : DB) : string :=
  match AuthStore.users d !! userID with Some u => default (u_Email u) (u_DisplayName u) | None => userID end.
Definition invited_later (i j : Invitation) : Prop := inv_CreatedAt j <= inv_CreatedAt i.
#[global] Instance invited_later_dec i j : Decision (invited_later i j).
Proof using. unfold invited_later. apply _. Defined.
Definition ListInvitations (actorUserID : string) : prog World (res (list Invitation)) :=
  try* isSuper := wrap "check super admin" (IsSuperAdmin actorUserID) in
  if negb isSuper then Ret (Err ErrNotSuperAdmin) else
  wrap "query invitations" (query (fun _ d =>
    Ok (merge_sort invited_later (map (fun i => set_inv_InvitedBy (inviter_name (inv_InvitedBy i) d) i) (map_to_list (invitations d)).*2)))).
Definition RevokeInvitation (actorUserID invitationID : string) : prog World (res unit) :=
  try* isSuper := wrap "check super admin" (IsSuperAdmin actorUserID) in
  if negb isSuper then Ret (Err ErrNotSuperAdmin) else
  try* rows := wrap "delete invitation" (stmt (fun _ d =>
    (set_invitations (delete invitationID (invitations d)) d, Ok (if bool_decide (is_Some (invitations d !! invitationID)) then 1%nat else 0%nat)))) in
  if (rows =? 0)%nat then Ret (Err ErrInvitationNotFound) else Ret (Ok tt).
Definition ResendInvitation (actorUserID invitationID : string) : prog World (res unit) :=
  try* isSuper := wrap "check super admin" (IsSuperAdmin actorUserID) in
  if negb isSuper then Ret (Err ErrNotSuperAdmin) else
  try* (email, roleName) := query (fun _ d =>
    match invitations d !! invitationID with
    | Some i => row_or ErrInvitationNotFound (match AuthStore.roles d !! inv_RoleID i with Some n => Some (inv_Email i, n) | None => None end)
    | None => Err ErrInvitationNotFound
    end) in
  try* token := wrap "generate secure token" generateSecureToken in
  let* now := now_ in
  let expiresAt := now + invitationTTL in
  try* _ := wrap "update invitation token" (in_tx (fun _ now d =>
    Ok (set_invitations (alter (fun i => mkInvitation (inv_ID i) (inv_Email i) (Some (hashMagicLink token)) (inv_RoleID i) actorUserID now expiresAt None)
      invitationID (invitations d)) d, tt))) in
  wrap "send invitation email" (send_or_fail s (InvitationLetter email token roleName expiresAt)).
End Accounts.
