(* ===== verification/Workspaces.v ===== *)
(** Workspaces ([internal/auth/workspace]) and the access to data sources
    ([rbac/datasource_access.go]): who may change a workspace, its members, its data
    sources, and what may be shared with it. *)

From S2P Require Import Prelude GoStrings Interleave Tables AuthStore AuthText Sessions Users AuthTokens Rbac AuthService.
From stdpp Require Import options.
#[local] Open Scope Z_scope.

Definition ErrWorkspaceRoleForbidden : goerr := EMsg "role is not assignable to workspace".
Definition ErrDatasourceAccessDenied : goerr := EMsg "datasource access denied".
Definition ErrShareNotFound : goerr := EMsg "share not found".
Definition ErrResourceAccessDenied : goerr := EMsg "caller does not have access to the resource".

(** * Levels of access *)

Definition IsValidLevel (level : string) : bool := has_name ["read"; "write"; "admin"] (ToLower level).
Definition rank (level : string) : Z :=
  let l := ToLower level in
  if String.eqb l "read" then 1 else if String.eqb l "write" then 2 else if String.eqb l "admin" then 3 else 0.
Definition levelSatisfies (have required : string) : bool := rank required <=? rank have.

(** The rank the database orders by: the names as they are written. *)
Definition sql_rank (level : string) : Z :=
  if String.eqb level "admin" then 3 else if String.eqb level "write" then 2 else if String.eqb level "read" then 1 else 0.

Definition direct_level (userID datasourceID : string) (d : DB) : option string :=
  match select_one (fun a => String.eqb (da_UserID a) userID && String.eqb (da_DatasourceID a) datasourceID) (datasource_access d) with
  | Some a => Some (da_AccessLevel a)
  | None => None
  end.
(** The levels the workspaces of a user have for a data source. *)
Definition workspace_levels (userID datasourceID : string) (d : DB) : list string :=
  omap (fun '((ws, ds), level) => if String.eqb ds datasourceID && bool_decide (is_Some (members d !! (ws, userID))) then Some level else None)
    (map_to_list (workspace_datasources d)).
Fixpoint best_level (l : list string) : option string :=
  match l with
  | [] => None
  | x :: l => match best_level l with Some y => if sql_rank x <? sql_rank y then Some y else Some x | None => Some x end
  end.
Definition accessible_datasources (userID : string) (d : DB) : list string :=
  remove_dups (map da_DatasourceID (select (fun a => String.eqb (da_UserID a) userID) (datasource_access d)) ++
    omap (fun '((ws, ds), _) => if bool_decide (is_Some (members d !! (ws, userID))) then Some ds else None) (map_to_list (workspace_datasources d))).

Section DatasourceAccess.
Context `{Env}.
(** Whether the service has a Redis. *)
Variable redis : bool.

Definition cacheTTL : Z := 5 * minute.
Definition cacheKey (userID : string) : string := "user:" +:+ userID +:+ ":datasources".
Definition InvalidateCache (userID : string) : prog World (res unit) := if redis then Del (cacheKey userID) else Ret (Ok tt).
Definition invalidate (userID : string) : prog World (res unit) := wrap "invalidate datasource access cache" (InvalidateCache userID).

Definition Grant (userID datasourceID level grantedBy : string) : prog World (res DatasourceAccess) :=
  if negb (IsValidLevel level) then Ret (Err (EMsg ("invalid access level: " +:+ level))) else
  try* access := wrap "grant datasource access" (in_tx (fun ids now d =>
    if bool_decide (users d !! userID = None) then Err (violates "datasource_access_user_id_fkey") else
    let of_pair a := String.eqb (da_UserID a) userID && String.eqb (da_DatasourceID a) datasourceID in
    let id := match select_one of_pair (datasource_access d) with Some a => da_ID a | None => ids 0%nat end in
    let access := mkAccess id userID datasourceID level (nonempty grantedBy) now in
    Ok (set_datasource_access (<[id := access]> (datasource_access d)) d, access))) in
  try* _ := invalidate userID in
  Ret (Ok access).
Definition Revoke (userID datasourceID : string) : prog World (res unit) :=
  try* _ := wrap "revoke datasource access" (in_tx (fun _ _ d =>
    Ok (set_datasource_access (delete_where (fun a => String.eqb (da_UserID a) userID && String.eqb (da_DatasourceID a) datasourceID)
      (datasource_access d)) d, tt))) in
  invalidate userID.
Definition Access_GetByID (id : string) : prog World (res DatasourceAccess) := query (fun _ d => row_or ErrNoRows (datasource_access d !! id)).
Definition UpdateLevel (accessID level : string) : prog World (res unit) :=
  if negb (IsValidLevel level) then Ret (Err (EMsg ("invalid access level: " +:+ level))) else
  try* userID := wrap "update access level" (in_tx (fun _ _ d =>
    match datasource_access d !! accessID with
    | None => Err ErrNoRows
    | Some a => Ok (set_datasource_access (<[accessID := set_da_AccessLevel level a]> (datasource_access d)) d, da_UserID a)
    end)) in
  invalidate userID.
Definition ListUserAccess (userID : string) : prog World (res (list DatasourceAccess)) :=
  wrap "query user access" (query (fun _ d => Ok (select (fun a => String.eqb (da_UserID a) userID) (datasource_access d)))).

Definition none_sentinel : string := "__none__".
(** [None] when nothing is cached. *)
Definition getCached (userID : string) : prog World (res (option (list string))) :=
  if negb redis then Ret (Err (EMsg "no redis")) else
  try* cached := SMembers (cacheKey userID) in
  Ret (Ok (match cached with
           | [] => None
           | [x] => if String.eqb x none_sentinel then Some [] else Some [x]
           | l => Some l
           end)).
Definition setCached (userID : string) (ids : list string) : prog World (res unit) :=
  if negb redis then Ret (Ok tt) else
  ReplaceSet (cacheKey userID) (match ids with [] => [none_sentinel] | _ => ids end) cacheTTL.
Definition ListAccessibleDatasourceIDs (userID : string) : prog World (res (list string)) :=
  let* cached := getCached userID in
  match cached with
  | Ok (Some l) => Ret (Ok l)
  | _ =>
      try* ids := wrap "query accessible datasources" (query (fun _ d => Ok (accessible_datasources userID d))) in
      let* _ := setCached userID ids in
      Ret (Ok ids)
  end.
(** [rbac] is wired. *)
Definition CheckAccess (userID datasourceID requiredLevel : string) : prog World (res unit) :=
  if negb (IsValidLevel requiredLevel) then Ret (Err (EMsg ("invalid required level: " +:+ requiredLevel))) else
  let* isSuper := IsSuperAdmin userID in
  match isSuper with
  | Ok true => Ret (Ok tt)
  | _ =>
      try* directLevel := wrap "check direct access" (query (fun _ d => Ok (direct_level userID datasourceID d))) in
      if match directLevel with Some l => levelSatisfies l requiredLevel | None => false end then Ret (Ok tt) else
      try* workspaceLevel := wrap "check workspace access" (query (fun _ d => Ok (best_level (workspace_levels userID datasourceID d)))) in
      if match workspaceLevel with Some l => levelSatisfies l requiredLevel | None => false end then Ret (Ok tt)
      else Ret (Err ErrDatasourceAccessDenied)
  end.

(** * Workspaces *)

Definition slug_byte (r : string) : string :=
  match r with
  | String c "" => if is_lower c || GoStrings.is_digit c then r else if Ascii.eqb c " " || Ascii.eqb c "-" || Ascii.eqb c "_" then "-" else ""
  | _ => ""
  end.
Definition is_dash (c : ascii) : bool := Ascii.eqb c "-".
Definition slugify (lower : string -> string) (name : string) : string :=
  let out := trim_right is_dash (trim_left is_dash (Concat (map slug_byte (runes (lower (TrimSpace name)))))) in
  if (60 <? String.length out)%nat then String.substring 0 60 out else out.

Definition Workspace_Create (lower : string -> string) (name description createdBy : string) : prog World (res Workspace) :=
  let slug := slugify lower name in
  if str_empty slug then Ret (Err (EMsg "invalid workspace name")) else
  in_tx (fun ids now d =>
    let id := ids 0%nat in
    if bool_decide (users d !! createdBy = None) then Err (EWrap "insert workspace" (violates "workspaces_created_by_fkey")) else
    let? d := res_map_err (EWrap "insert workspace") (insert_workspace id name slug (nonempty description) false createdBy now d) in
    let? adminRoleID := row_or (EWrap "get admin role" ErrNoRows) (role_id "admin" d) in
    let? d := res_map_err (EWrap "add owner as admin") (insert_member id createdBy adminRoleID None now d) in
    Ok (d, mkWorkspace id name slug (nonempty description) false false false createdBy now now)).
Definition Workspace_Get (id : string) : prog World (res Workspace) := query (fun _ d => row_or ErrWorkspaceNotFound (workspaces d !! id)).

Definition requireOwner (workspaceID userID : string) : prog World (res unit) :=
  try* ws := Workspace_Get workspaceID in
  if String.eqb (ws_CreatedBy ws) userID then Ret (Ok tt) else Ret (Err ErrNotWorkspaceOwner).
Definition member_role (workspaceID userID : string) (d : DB) : option string :=
  match members d !! (workspaceID, userID) with Some m => roles d !! m_RoleID m | None => None end.
Definition requireOwnerOrAdmin (workspaceID userID : string) : prog World (res unit) :=
  try* ws := Workspace_Get workspaceID in
  if String.eqb (ws_CreatedBy ws) userID then Ret (Ok tt) else
  try* roleName := query (fun _ d => row_or ErrNotWorkspaceOwner (member_role workspaceID userID d)) in
  if String.eqb roleName "admin" || String.eqb roleName "super_admin" then Ret (Ok tt) else Ret (Err ErrNotWorkspaceOwner).
Definition requireWorkspaceAssignableRole (roleID : string) : prog World (res unit) :=
  try* roleName := wrap "check workspace role assignment" (query (fun _ d => row_or ErrNoRows (roles d !! roleID))) in
  if has_name ["admin"; "developer"; "analyst"; "viewer"] roleName then Ret (Ok tt) else
  if String.eqb roleName RoleSuperAdmin then Ret (Err ErrPrivilegedRoleEscalation) else Ret (Err ErrWorkspaceRoleForbidden).

Definition update_workspace (id : string) (f : Z -> Workspace -> Workspace) : prog World (res unit) :=
  in_tx (fun _ now d => Ok (set_workspaces (alter (fun w => set_ws_UpdatedAt now (f now w)) id (workspaces d)) d, tt)).
Definition Workspace_Update (id callerID name description : string) (mfaRequired publicSharing : option bool) : prog World (res Workspace) :=
  try* _ := requireOwner id callerID in
  try* _ := update_workspace id (fun _ w =>
    let w := set_ws_Description (nonempty description) (set_ws_Name name w) in
    let w := match mfaRequired with Some b => set_ws_MFARequired b w | None => w end in
    match publicSharing with Some b => set_ws_PublicSharingEnabled b w | None => w end) in
  Workspace_Get id.
(** With its members, its data sources and the active workspace of its users. *)
Definition delete_workspace (id : string) (d : DB) : res DB :=
  if exists_row (fun sh => is_some_eq (sh_WorkspaceID sh) id) (shares d) then Err (violates "resource_shares_workspace_id_fkey") else
  let d := set_workspaces (delete id (workspaces d)) d in
  let d := set_members (filter (fun kv => kv.1.1 <> id) (members d)) d in
  let d := set_workspace_datasources (filter (fun kv => kv.1.1 <> id) (workspace_datasources d)) d in
  Ok (set_users (update_where (fun u => is_some_eq (u_ActiveWorkspaceID u) id) (set_u_ActiveWorkspaceID None) (users d)) d).
Definition Workspace_Delete (id callerID : string) : prog World (res unit) :=
  try* ws := Workspace_Get id in
  if negb (String.eqb (ws_CreatedBy ws) callerID) then Ret (Err ErrNotWorkspaceOwner) else
  if ws_IsPersonal ws then Ret (Err (EMsg "cannot delete personal workspace")) else
  in_tx (fun _ _ d => let? d := delete_workspace id d in Ok (d, tt)).

Definition AddMember (workspaceID userID roleID invitedBy : string) : prog World (res unit) :=
  try* _ := requireOwnerOrAdmin workspaceID invitedBy in
  try* _ := requireWorkspaceAssignableRole roleID in
  try* _ := wrap "add member" (in_tx (fun _ now d =>
    if bool_decide (users d !! userID = None) || bool_decide (workspaces d !! workspaceID = None) || bool_decide (roles d !! roleID = None)
    then Err (violates "workspace_members_fkey") else
    let m := match members d !! (workspaceID, userID) with
      | Some m => set_m_RoleID roleID m
      | None => mkMembership roleID now (Some invitedBy)
      end in
    Ok (set_members (<[(workspaceID, userID) := m]> (members d)) d, tt))) in
  invalidate userID.
Definition UpdateMemberRole (workspaceID userID roleID callerID : string) : prog World (res unit) :=
  try* _ := requireOwnerOrAdmin workspaceID callerID in
  try* _ := requireWorkspaceAssignableRole roleID in
  in_tx (fun _ _ d => Ok (set_members (alter (set_m_RoleID roleID) (workspaceID, userID) (members d)) d, tt)).
Definition RemoveMember (workspaceID userID callerID : string) : prog World (res unit) :=
  try* _ := requireOwnerOrAdmin workspaceID callerID in
  try* ws := Workspace_Get workspaceID in
  if String.eqb (ws_CreatedBy ws) userID then Ret (Err (EMsg "cannot remove workspace owner")) else
  try* _ := in_tx (fun _ _ d => Ok (set_members (delete (workspaceID, userID) (members d)) d, tt)) in
  invalidate userID.

Definition SetMFARequired (workspaceID callerID : string) (required : bool) : prog World (res unit) :=
  try* _ := requireOwnerOrAdmin workspaceID callerID in update_workspace workspaceID (fun _ => set_ws_MFARequired required).
Definition IsPublicSharingEnabled (workspaceID : string) : prog World (res bool) :=
  query (fun _ d => row_or ErrWorkspaceNotFound (match workspaces d !! workspaceID with Some w => Some (ws_PublicSharingEnabled w) | None => None end)).
Definition SetPublicSharingEnabled (workspaceID callerID : string) (enabled : bool) : prog World (res unit) :=
  try* _ := requireOwnerOrAdmin workspaceID callerID in update_workspace workspaceID (fun _ => set_ws_PublicSharingEnabled enabled).

(** The members one after the other; the first failure ends it. *)
Fixpoint invalidate_each (userIDs : list string) : prog World (res unit) :=
  match userIDs with
  | [] => Ret (Ok tt)
  | u :: userIDs => try* _ := InvalidateCache u in invalidate_each userIDs
  end.
Definition invalidateAllMembers (workspaceID : string) : prog World (res unit) :=
  try* userIDs := query (fun _ d => Ok (map snd (List.filter (fun k => String.eqb k.1 workspaceID) (map fst (map_to_list (members d)))))) in
  invalidate_each userIDs.
Definition AttachDatasource (workspaceID datasourceID level callerID : string) : prog World (res unit) :=
  try* _ := requireOwnerOrAdmin workspaceID callerID in
  if negb (IsValidLevel level) then Ret (Err (EMsg ("invalid access level: " +:+ level))) else
  try* _ := wrap "attach datasource" (in_tx (fun _ _ d =>
    if bool_decide (workspaces d !! workspaceID = None) then Err (violates "workspace_datasources_workspace_id_fkey")
    else Ok (set_workspace_datasources (<[(workspaceID, datasourceID) := level]> (workspace_datasources d)) d, tt))) in
  wrap "invalidate workspace datasource access cache" (invalidateAllMembers workspaceID).
Definition DetachDatasource (workspaceID datasourceID callerID : string) : prog World (res unit) :=
  try* _ := requireOwnerOrAdmin workspaceID callerID in
  try* _ := in_tx (fun _ _ d => Ok (set_workspace_datasources (delete (workspaceID, datasourceID) (workspace_datasources d)) d, tt)) in
  wrap "invalidate workspace datasource access cache" (invalidateAllMembers workspaceID).

(** * Sharing *)

Definition datasourceLevelForPermission (permission : string) : string := if EqualFold permission "edit" then "write" else "read".
Definition isValidPermission (p : string) : bool := has_name ["view"; "execute"; "edit"] (ToLower p).
(** The data source that governs a resource, as the catalog service resolves it; none when no
    resolver is wired. *)
Definition Resolver : Type := option (string -> string -> res string).
Definition same_share (resourceType resourceID : string) (sharedWith workspaceID : option string) (sh : Share) : bool :=
  String.eqb (sh_ResourceType sh) resourceType && String.eqb (sh_ResourceID sh) resourceID &&
  String.eqb (default no_scope (sh_SharedWith sh)) (default no_scope sharedWith) &&
  String.eqb (default no_scope (sh_WorkspaceID sh)) (default no_scope workspaceID).
Definition Share_ (resolve : Resolver) (callerID resourceType resourceID : string) (sharedWith workspaceID : option string) (permission : string)
    : prog World (res Share) :=
  if str_empty resourceType || str_empty resourceID then Ret (Err (EMsg "resource_type and resource_id are required")) else
  if bool_decide (sharedWith = None) && bool_decide (workspaceID = None)
  then Ret (Err (EMsg "either shared_with or workspace_id must be provided")) else
  if negb (isValidPermission permission) then Ret (Err (EMsg ("invalid permission: " +:+ permission))) else
  try* _ := match resolve with
    | None => Ret (Ok tt)
    | Some resolve =>
        match resolve resourceType resourceID with
        | Err e => Ret (Err (EWrap "resolve resource for sharing" e))
        | Ok datasourceID =>
            wrap "caller does not have access to the resource" (CheckAccess callerID datasourceID (datasourceLevelForPermission permission))
        end
    end in
  try* _ := match workspaceID with
    | None => Ret (Ok tt)
    | Some ws =>
        try* isMember := wrap "verify workspace membership" (IsMember ws callerID) in
        if isMember then Ret (Ok tt) else Ret (Err (EMsg "caller is not a member of the target workspace"))
    end in
  wrap "share resource" (in_tx (fun ids now d =>
    if match sharedWith with Some u => bool_decide (users d !! u = None) | None => false end ||
       match workspaceID with Some w => bool_decide (workspaces d !! w = None) | None => false end ||
       bool_decide (users d !! callerID = None)
    then Err (violates "resource_shares_fkey") else
    let sh := match select_one (same_share resourceType resourceID sharedWith workspaceID) (shares d) with
      | Some sh => set_sh_Permission permission sh
      | None => mkShare (ids 0%nat) resourceType resourceID callerID sharedWith workspaceID permission now
      end in
    Ok (set_shares (<[sh_ID sh := sh]> (shares d)) d, sh))).
Definition Share_Revoke (shareID callerID : string) : prog World (res unit) :=
  try* ownerID := query (fun _ d => row_or ErrShareNotFound (match shares d !! shareID with Some sh => Some (sh_OwnerID sh) | None => None end)) in
  if negb (String.eqb ownerID callerID) then Ret (Err (EMsg "only owner can revoke share")) else
  in_tx (fun _ _ d => Ok (set_shares (delete shareID (shares d)) d, tt)).
Definition share_newer (a b : Share) : Prop := sh_CreatedAt b <= sh_CreatedAt a.
#[global] Instance share_newer_dec a b : Decision (share_newer a b).
Proof using. unfold share_newer. apply _. Defined.
(** What is shared with a user, by name or through a workspace. *)
Definition shared_with (userID : string) (d : DB) (sh : Share) : bool :=
  is_some_eq (sh_SharedWith sh) userID ||
  match sh_WorkspaceID sh with Some ws => bool_decide (is_Some (members d !! (ws, userID))) | None => false end.
Definition ListShared (userID resourceType : string) : prog World (res (list Share)) :=
  wrap "list shared" (query (fun _ d =>
    Ok (merge_sort share_newer (select (fun sh => shared_with userID d sh && (str_empty resourceType || String.eqb (sh_ResourceType sh) resourceType)) (shares d))))).
Definition ListOwned (ownerID resourceType resourceID : string) : prog World (res (list Share)) :=
  wrap "list owned" (query (fun _ d =>
    Ok (merge_sort share_newer (select (fun sh => String.eqb (sh_OwnerID sh) ownerID &&
      (str_empty resourceType || String.eqb (sh_ResourceType sh) resourceType &&
        (str_empty resourceID || String.eqb (sh_ResourceID sh) resourceID))) (shares d))))).
End DatasourceAccess.
