(* ===== verification/Passkeys.v ===== *)
(** Signing in with a passkey ([internal/auth/mfa/webauthn.go], the passkeys of
    [repository.go]) and the handlers of the second factor and of passkeys
    ([handlers/handler_mfa.go], [handler.go]). *)

From S2P Require Import Prelude GoStrings Interleave Tables AuthStore AuthText Sessions Users AuthTokens Mfa Rbac AuthService AuthAccounts.
From stdpp Require Import options.
#[local] Open Scope Z_scope.

(** * The WebAuthn library *)

Record SessionData : Type := mkSessionData { sd_Challenge : string; sd_Expires : option Z }.
(** A credential as the library takes it: the row and the flags of its backup. *)
Record Credential : Type := mkCredential { cr_ID : string; cr_PublicKey : string; cr_SignCount : Z; cr_Flags : option (bool * bool); cr_CloneWarning : bool }.
(** [base64.RawURLEncoding] and [base64.URLEncoding], which decode; and the library: the
    credential identifier and the authenticator data of an assertion, the verification of an
    assertion and of a registration, and the start of each. *)
Class WebAuthnLib : Type := {
  RawURLDecode : string -> res string;
  URLDecode : string -> res string;
  assertion_id : string -> res string;
  assertion_auth_data : string -> option (list Z);
  verify_assertion : list Credential -> SessionData -> string -> res Credential;
  verify_registration : list Credential -> SessionData -> string -> res Credential;
  begin_ceremony : nat -> list Credential -> res SessionData;
  (** [time.Format] to the minute *)
  FormatMinute : Z -> string;
}.

Section Passkeys.
Context `{Env} `{Unicode} `{Totp} `{Outside} `{WebAuthnLib}.
Variable s : Config.

(** * The repository *)

Definition credential_of (pk : Passkey) : Credential := mkCredential (pk_CredentialID pk) (pk_PublicKey pk) (pk_SignCount pk mod 2 ^ 32) None false.
Definition GetPasskeysByUserID (userID : string) : prog World (res (list Credential)) :=
  query (fun _ d => Ok (map credential_of (select (fun pk => String.eqb (pk_UserID pk) userID) (passkeys d)))).
Definition SavePasskey (userID : string) (cred : Credential) (name : string) : prog World (res unit) :=
  in_tx (fun ids now d =>
    let id := ids 0%nat in
    if bool_decide (users d !! userID = None) then Err (violates "passkeys_user_id_fkey") else
    if bool_decide (is_Some (passkeys d !! id)) || exists_row (fun pk => String.eqb (pk_CredentialID pk) (cr_ID cred)) (passkeys d)
    then Err (violates "passkeys_credential_id_key") else
    Ok (set_passkeys (<[id := mkPasskey id userID (cr_ID cred) (cr_PublicKey cred) (cr_SignCount cred) (Some name) now None]> (passkeys d)) d, tt)).
Definition UpdatePasskeySignCount (credentialID : string) (signCount : Z) : prog World (res unit) :=
  in_tx (fun _ now d => Ok (set_passkeys (update_where (fun pk => String.eqb (pk_CredentialID pk) credentialID)
    (fun pk => set_pk_LastUsedAt (Some now) (set_pk_SignCount signCount pk)) (passkeys d)) d, tt)).
Definition UpdatePasskeyName (userID passkeyID name : string) : prog World (res unit) :=
  in_tx (fun _ _ d => Ok (set_passkeys (update_where (fun pk => String.eqb (pk_UserID pk) userID && String.eqb (pk_ID pk) passkeyID)
    (set_pk_Name (Some name)) (passkeys d)) d, tt)).
Definition DeletePasskey (userID passkeyID : string) : prog World (res unit) :=
  in_tx (fun _ _ d => Ok (set_passkeys (delete_where (fun pk => String.eqb (pk_UserID pk) userID && String.eqb (pk_ID pk) passkeyID) (passkeys d)) d, tt)).
Definition GetUserIDByCredentialID (credentialID : string) : prog World (res string) :=
  query (fun _ d => match select_one (fun pk => String.eqb (pk_CredentialID pk) credentialID) (passkeys d) with
    | Some pk => Ok (pk_UserID pk) | None => Err ErrNoRows end).
Definition pk_newer (a b : Passkey) : Prop := pk_CreatedAt b <= pk_CreatedAt a.
#[global] Instance pk_newer_dec a b : Decision (pk_newer a b).
Proof using. unfold pk_newer. apply _. Defined.
Definition GetUserPasskeys (userID : string) : prog World (res (list Passkey)) :=
  query (fun _ d => Ok (merge_sort pk_newer (select (fun pk => String.eqb (pk_UserID pk) userID) (passkeys d)))).

(** * The service *)

Definition decodeSessionChallenge (challenge : string) : res string :=
  match RawURLDecode challenge with Ok b => Ok b | Err _ => URLDecode challenge end.
Definition sessionChallengeExpiry (session : SessionData) : prog World Z :=
  match sd_Expires session with Some t => Ret t | None => let* now := now_ in Ret (now + WebAuthnChallengeTTL s) end.
Definition persistSessionChallenge (session : SessionData) (userID : option string) : prog World (res unit) :=
  try* challenge := Ret (decodeSessionChallenge (sd_Challenge session)) in
  let* expiry := sessionChallengeExpiry session in
  SaveWebAuthnChallenge challenge userID expiry.
Definition ceremony (creds : list Credential) : prog World (res SessionData) := atomic (fun w => (next w, begin_ceremony (w_tick w) creds)).

Definition BeginRegistration (user : User) : prog World (res SessionData) :=
  try* creds := GetPasskeysByUserID (u_ID user) in
  try* session := ceremony creds in
  try* _ := persistSessionChallenge session (Some (u_ID user)) in
  Ret (Ok session).
Definition FinishRegistration (user : User) (session : SessionData) (request name : string) : prog World (res Credential) :=
  try* challenge := Ret (decodeSessionChallenge (sd_Challenge session)) in
  try* uid := GetWebAuthnChallenge challenge in
  if negb (is_some_eq uid (u_ID user)) then Ret (Err (EMsg "invalid or expired registration challenge")) else
  try* creds := GetPasskeysByUserID (u_ID user) in
  try* cred := Ret (verify_registration creds session request) in
  let* name := if str_empty name then let* now := now_ in Ret ("Passkey " +:+ FormatMinute now) else Ret name in
  try* _ := SavePasskey (u_ID user) cred name in
  Ret (Ok cred).
Definition BeginLogin (emailOrUsername : string) : prog World (res SessionData) :=
  if str_empty emailOrUsername then
    try* session := ceremony [] in
    try* _ := persistSessionChallenge session None in
    Ret (Ok session)
  else
    try* user := GetUserByEmailOrUsername emailOrUsername in
    try* creds := GetPasskeysByUserID (u_ID user) in
    match creds with
    | [] => Ret (Err (EMsg "no registered passkeys found for user"))
    | _ =>
        try* session := ceremony creds in
        try* _ := persistSessionChallenge session (Some (u_ID user)) in
        Ret (Ok session)
    end.

(** The flags of the authenticator data: bits 3 and 4 of its byte 32. *)
Definition AssertionBackupFlags (request : string) : option (bool * bool) :=
  match assertion_auth_data request with
  | Some l => if (length l <=? 32)%nat then None else Some (Z.testbit (nth 32 l 0) 3, Z.testbit (nth 32 l 0) 4)
  | None => None
  end.
Definition applyAssertionBackupFlags (creds : list Credential) (request : string) : list Credential :=
  match AssertionBackupFlags request with
  | None => creds
  | Some flags => map (fun c => mkCredential (cr_ID c) (cr_PublicKey c) (cr_SignCount c) (Some flags) (cr_CloneWarning c)) creds
  end.
Definition rejectPasskeyCloneWarning (cred : Credential) : res unit := if cr_CloneWarning cred then Err (EMsg "passkey clone detected") else Ok tt.

(** The end of a login with the credentials of a user. *)
Definition finish_with (user : User) (session : SessionData) (request : string) : prog World (res User) :=
  try* creds := GetPasskeysByUserID (u_ID user) in
  try* cred := Ret (verify_assertion (applyAssertionBackupFlags creds request) session request) in
  try* _ := Ret (rejectPasskeyCloneWarning cred) in
  try* _ := UpdatePasskeySignCount (cr_ID cred) (cr_SignCount cred) in
  try* _ := UpdateLastLogin (u_ID user) in
  Ret (Ok user).
Definition finishDiscoverablePasskeyLogin (session : SessionData) (request : string) : prog World (res User) :=
  try* rawID := Ret (assertion_id request) in
  let* uid := GetUserIDByCredentialID rawID in
  match uid with
  | Err _ => Ret (Err (EMsg "no user found for passkey"))
  | Ok uid => try* user := GetUserByID uid in finish_with user session request
  end.
Definition finishKnownUserPasskeyLogin (uid : string) (session : SessionData) (request : string) : prog World (res User) :=
  try* user := GetUserByID uid in finish_with user session request.
(** A challenge that is not known, or no longer, is taken for one without a user. *)
Definition FinishLogin (session : SessionData) (request : string) : prog World (res User) :=
  try* challenge := Ret (decodeSessionChallenge (sd_Challenge session)) in
  try* uid := GetWebAuthnChallenge challenge in
  match uid with
  | None => finishDiscoverablePasskeyLogin session request
  | Some uid => finishKnownUserPasskeyLogin uid session request
  end.

(** * Handlers *)

(** The status of an answer and, when a user is signed in, the tokens. *)
Definition Answer : Type := Z * option TokenResponse.
Definition unavailable : Z := 503.

Definition handlePasskeyLoginFinish (session : SessionData) (request : string) (userAgent ipAddress : option string) : prog World Answer :=
  let* user := FinishLogin session request in
  match user with
  | Err _ => Ret (400, None)
  | Ok user =>
      let* resp := CreateTokenResponseForUser s user userAgent ipAddress in
      Ret (match resp with Ok resp => (200, Some resp) | Err _ => (500, None) end)
  end.
Definition handleLogin (rawEmail password : string) (userAgent ipAddress : option string) : prog World Answer :=
  let* resp := Login s rawEmail password userAgent ipAddress in
  Ret (match resp with
       | Ok resp => (200, Some resp)
       | Err e =>
           if errors_Is e ErrInvalidCredentials || errors_Is e ErrInactiveUser then (401, None) else
           if errors_Is e ErrAccountLocked then (429, None) else
           if errors_Is e ErrMFARequired || errors_Is e ErrAccountFrozen || errors_Is e ErrAccountDeleted then (403, None) else (500, None)
       end).
Definition handleMFALogin (mfaToken code : string) (userAgent ipAddress : option string) : prog World Answer :=
  let* resp := CompleteMFALogin s mfaToken code userAgent ipAddress in
  Ret (match resp with
       | Ok resp => (200, Some resp)
       | Err e =>
           if errors_Is e ErrInvalidCredentials || errors_Is e ErrMFACodeInvalid || errors_Is e ErrMFANotEnrolled || errors_Is e ErrInactiveUser
           then (401, None) else (500, None)
       end).

(** [None] when the code is right, otherwise the status of the answer. *)
Definition parseAndVerifyMFACode (userID code : string) : prog World (option Z) :=
  let* locked := CheckMFALockout s userID in
  match locked with
  | Err _ => Ret (Some 429)
  | Ok _ =>
      let* ok := VerifyCode userID code in
      match ok with
      | Err _ => let* _ := RecordMFAFailure s userID in Ret (Some 401)
      | Ok _ => let* _ := ClearMFAFailures s userID in Ret None
      end
  end.
Definition handleMFAEnroll (issuer userID email : string) : prog World Z :=
  if negb (mfaSvc s) then Ret unavailable else
  let* r := Enroll issuer userID (if str_empty email then userID else email) in
  Ret (match r with Ok _ => 200 | Err _ => 500 end).
Definition handleMFAVerify (userID code : string) : prog World Z :=
  if negb (mfaSvc s) then Ret unavailable else
  let* locked := CheckMFALockout s userID in
  match locked with
  | Err _ => Ret 429
  | Ok _ =>
      let* r := Verify userID code in
      match r with
      | Err e =>
          if errors_Is e ErrMFACodeInvalid || errors_Is e ErrMFANotEnrolled
          then let* _ := RecordMFAFailure s userID in Ret 401 else Ret 500
      | Ok _ => let* _ := ClearMFAFailures s userID in Ret 204
      end
  end.
Definition handleMFADisable (userID code : string) : prog World Z :=
  if negb (mfaSvc s) then Ret unavailable else
  let* bad := parseAndVerifyMFACode userID code in
  match bad with
  | Some status => Ret status
  | None => let* r := Mfa_Disable userID in Ret (match r with Ok _ => 204 | Err _ => 500 end)
  end.
Definition handleMFARegenerateRecovery (userID code : string) : prog World (Z * list string) :=
  if negb (mfaSvc s) then Ret (unavailable, []) else
  let* bad := parseAndVerifyMFACode userID code in
  match bad with
  | Some status => Ret (status, [])
  | None => let* r := RegenerateRecoveryCodes userID in Ret (match r with Ok codes => (200, codes) | Err _ => (500, []) end)
  end.
End Passkeys.
