(* ===== verification/AuthConcurrent.v ===== *)
(** Requests to the authentication service side by side.

    The operations as requests ([internal/auth/handlers], [module.go]), and what every request
    does to the sessions and to the magic links, step by step: a session keeps what it was
    opened with and is never un-revoked, the token of a new session is new, and a link that was
    used stays used.  The purge of deleted accounts, a job of its own, is not among the
    requests: it removes rows.

    From this, two promises the service keeps however its requests interleave: a magic link
    signs in at most once, and the token of a session that was revoked is not exchanged for
    another. *)

From S2P Require Import Prelude GoStrings Interleave Tables AuthStore AuthLogic AuthText Sessions Users AuthTokens Mfa Rbac AuthService AuthAccounts Workspaces Passkeys.
From stdpp Require Import options.

#[local] Open Scope Z_scope.

Inductive Request : Type :=
| Do_Refresh (refreshToken : string) (userAgent ipAddress : option string)
| Do_ConsumeMagicLink (plain : string) (userAgent ipAddress : option string)
| Do_Login (rawEmail password : string) (userAgent ipAddress : option string)
| Do_CompleteMFALogin (mfaToken code : string) (userAgent ipAddress : option string)
| Do_LoginOrRegisterOAuth (provider rawEmail rawName sub : string) (providerVerified : bool) (userAgent ipAddress : option string)
| Do_Register (rawEmail password rawName : string) (userAgent ipAddress : option string)
| Do_Logout (token : string)
| Do_RevokeSessionByID (userID sessionID : string)
| Do_RevokeAllUserSessions (userID : string)
| Do_ListActiveSessions (userID : string)
| Do_RequestMagicLink (email ipAddress : string)
| Do_VerifyEmail (token : string)
| Do_ResendVerificationEmail (email : string)
| Do_AdminResendUserVerification (targetUserID : string)
| Do_RequestEmailChange (userID newEmail : string)
| Do_ConfirmEmailChange (token : string)
| Do_ForgotPassword (email : string)
| Do_ResetPassword (token newPassword : string)
| Do_ChangePassword (userID currentPassword newPassword : string)
| Do_GetMe (userID : string)
| Do_UpdateProfile (userID displayName : string) (avatarURL : option string)
| Do_SetActiveWorkspace (userID workspaceID : string)
| Do_FreezeAccount (userID : string)
| Do_UnfreezeAccount (userID : string)
| Do_DeleteAccount (userID password : string)
| Do_RestoreAccount (actorUserID targetUserID : string)
| Do_AdminForceLogout (actorUserID targetUserID : string)
| Do_GenerateMFABypassCode (actorUserID targetUserID : string)
| Do_UnlockAccount (token : string)
| Do_UpdatePlatformSettings (actorUserID : string) (selfSignupEnabled : bool)
| Do_UpdateUserActiveStatus (userID : string) (isActive : bool)
| Do_UnlinkOAuthAccount (userID provider : string)
| Do_ListUsers
| Do_CreateAccessToken (userID name : string) (expiresAt : option Z)
| Do_ListAccessTokens (userID : string)
| Do_RevokeAccessToken (userID tokenID : string)
| Do_VerifyAccessToken (plaintext : string)
| Do_IssueOAuthCallbackCode (resp : TokenResponse)
| Do_RedeemOAuthCallbackCode (code : string)
| Do_StoreOAuthState (redis : bool) (provider bindToken state : string)
| Do_VerifyOAuthState (redis : bool) (provider bindToken expectedState : string)
| Do_InviteUser (actorUserID email roleName : string)
| Do_ClaimInvitation (token password rawName userAgent ipAddress : string)
| Do_ListInvitations (actorUserID : string)
| Do_RevokeInvitation (actorUserID invitationID : string)
| Do_ResendInvitation (actorUserID invitationID : string)
| Do_BeginRegistration (user : User)
| Do_FinishRegistration (user : User) (session : SessionData) (request name : string)
| Do_BeginLogin (emailOrUsername : string)
| Do_PasskeyLoginFinish (session : SessionData) (request : string) (userAgent ipAddress : option string)
| Do_UpdatePasskeyName (userID passkeyID name : string)
| Do_DeletePasskey (userID passkeyID : string)
| Do_MFAEnroll (issuer userID email : string)
| Do_MFAVerify (userID code : string)
| Do_MFADisable (userID code : string)
| Do_MFARegenerateRecovery (userID code : string)
| Do_Check (userID permission scopeType scopeID : string)
| Do_EffectivePermissions (userID workspaceID : string)
| Do_AssignRole (userID roleID : string) (scopeType scopeID : option string)
| Do_RemoveRole (userID roleID : string)
| Do_SetRolePermissions (roleID : string) (permissionIDs : list string)
| Do_EnforceSelfModificationGuard (callerID targetUserID action : string)
| Do_EnforcePrivilegedRoleAssignmentGuard (callerID roleID : string)
| Do_InvalidateUserCache (userID : string)
| Do_Grant (userID datasourceID level grantedBy : string)
| Do_Revoke (userID datasourceID : string)
| Do_UpdateLevel (accessID level : string)
| Do_ListAccessibleDatasourceIDs (userID : string)
| Do_CheckAccess (userID datasourceID requiredLevel : string)
| Do_Workspace_Create (lower : string -> string) (name description createdBy : string)
| Do_Workspace_Update (id callerID name description : string) (mfaRequired publicSharing : option bool)
| Do_Workspace_Delete (id callerID : string)
| Do_AddMember (workspaceID userID roleID invitedBy : string)
| Do_UpdateMemberRole (workspaceID userID roleID callerID : string)
| Do_RemoveMember (workspaceID userID callerID : string)
| Do_SetMFARequired (workspaceID callerID : string) (required : bool)
| Do_SetPublicSharingEnabled (workspaceID callerID : string) (enabled : bool)
| Do_AttachDatasource (workspaceID datasourceID level callerID : string)
| Do_DetachDatasource (workspaceID datasourceID callerID : string)
| Do_Share (resolve : Resolver) (callerID resourceType resourceID : string) (sharedWith workspaceID : option string) (permission : string)
| Do_Share_Revoke (shareID callerID : string)
| Do_ListShared (userID resourceType : string).

(** The answers the theorems are about. *)
Inductive Outcome : Type :=
| Refreshed (token : string) (r : res TokenResponse)
| Redeemed (plain : string) (r : res TokenResponse)
| Done.

Section Server.
Context `{Env} `{Unicode} `{Totp} `{Outside} `{WebAuthnLib}.
Variable s : Config.
(** Whether the service of data source access has a Redis. *)
Variable redis : bool.

Definition other {A} (m : prog World A) : prog World Outcome := let* _ := m in Ret Done.
Definition serve (req : Request) : prog World Outcome :=
  match req with
  | Do_Refresh t ua ip => let* r := Refresh s t ua ip in Ret (Refreshed t r)
  | Do_ConsumeMagicLink plain ua ip => let* r := ConsumeMagicLink s plain ua ip in Ret (Redeemed plain r)
  | Do_Login rawEmail password userAgent ipAddress => other (Login s rawEmail password userAgent ipAddress)
  | Do_CompleteMFALogin mfaToken code userAgent ipAddress => other (CompleteMFALogin s mfaToken code userAgent ipAddress)
  | Do_LoginOrRegisterOAuth provider rawEmail rawName sub providerVerified userAgent ipAddress => other (LoginOrRegisterOAuth s provider rawEmail rawName sub providerVerified userAgent ipAddress)
  | Do_Register rawEmail password rawName userAgent ipAddress => other (Register s rawEmail password rawName userAgent ipAddress)
  | Do_Logout token => other (Logout token)
  | Do_RevokeSessionByID userID sessionID => other (RevokeSessionByID userID sessionID)
  | Do_RevokeAllUserSessions userID => other (RevokeAllUserSessions userID)
  | Do_ListActiveSessions userID => other (ListActiveSessions userID)
  | Do_RequestMagicLink email ipAddress => other (RequestMagicLink s email ipAddress)
  | Do_VerifyEmail token => other (VerifyEmail token)
  | Do_ResendVerificationEmail email => other (ResendVerificationEmail s email)
  | Do_AdminResendUserVerification targetUserID => other (AdminResendUserVerification s targetUserID)
  | Do_RequestEmailChange userID newEmail => other (RequestEmailChange s userID newEmail)
  | Do_ConfirmEmailChange token => other (ConfirmEmailChange token)
  | Do_ForgotPassword email => other (ForgotPassword s email)
  | Do_ResetPassword token newPassword => other (ResetPassword s token newPassword)
  | Do_ChangePassword userID currentPassword newPassword => other (ChangePassword s userID currentPassword newPassword)
  | Do_GetMe userID => other (GetMe userID)
  | Do_UpdateProfile userID displayName avatarURL => other (UpdateProfile userID displayName avatarURL)
  | Do_SetActiveWorkspace userID workspaceID => other (SetActiveWorkspace s userID workspaceID)
  | Do_FreezeAccount userID => other (Service_FreezeAccount userID)
  | Do_UnfreezeAccount userID => other (Service_UnfreezeAccount userID)
  | Do_DeleteAccount userID password => other (DeleteAccount s userID password)
  | Do_RestoreAccount actorUserID targetUserID => other (Service_RestoreAccount actorUserID targetUserID)
  | Do_AdminForceLogout actorUserID targetUserID => other (AdminForceLogout actorUserID targetUserID)
  | Do_GenerateMFABypassCode actorUserID targetUserID => other (GenerateMFABypassCode s actorUserID targetUserID)
  | Do_UnlockAccount token => other (UnlockAccount s token)
  | Do_UpdatePlatformSettings actorUserID selfSignupEnabled => other (UpdatePlatformSettings s actorUserID selfSignupEnabled)
  | Do_UpdateUserActiveStatus userID isActive => other (UpdateUserActiveStatus userID isActive)
  | Do_UnlinkOAuthAccount userID provider => other (UnlinkOAuthAccount userID provider)
  | Do_ListUsers => other (ListUsers)
  | Do_CreateAccessToken userID name expiresAt => other (CreateAccessToken s userID name expiresAt)
  | Do_ListAccessTokens userID => other (ListAccessTokens s userID)
  | Do_RevokeAccessToken userID tokenID => other (RevokeAccessToken s userID tokenID)
  | Do_VerifyAccessToken plaintext => other (VerifyAccessToken s plaintext)
  | Do_IssueOAuthCallbackCode resp => other (IssueOAuthCallbackCode s resp)
  | Do_RedeemOAuthCallbackCode code => other (RedeemOAuthCallbackCode s code)
  | Do_StoreOAuthState redis provider bindToken state => other (StoreOAuthState redis provider bindToken state)
  | Do_VerifyOAuthState redis provider bindToken expectedState => other (VerifyOAuthState redis provider bindToken expectedState)
  | Do_InviteUser actorUserID email roleName => other (InviteUser s actorUserID email roleName)
  | Do_ClaimInvitation token password rawName userAgent ipAddress => other (ClaimInvitation s token password rawName userAgent ipAddress)
  | Do_ListInvitations actorUserID => other (ListInvitations actorUserID)
  | Do_RevokeInvitation actorUserID invitationID => other (RevokeInvitation actorUserID invitationID)
  | Do_ResendInvitation actorUserID invitationID => other (ResendInvitation s actorUserID invitationID)
  | Do_BeginRegistration user => other (BeginRegistration s user)
  | Do_FinishRegistration user session request name => other (FinishRegistration user session request name)
  | Do_BeginLogin emailOrUsername => other (BeginLogin s emailOrUsername)
  | Do_PasskeyLoginFinish session request userAgent ipAddress => other (handlePasskeyLoginFinish s session request userAgent ipAddress)
  | Do_UpdatePasskeyName userID passkeyID name => other (UpdatePasskeyName userID passkeyID name)
  | Do_DeletePasskey userID passkeyID => other (DeletePasskey userID passkeyID)
  | Do_MFAEnroll issuer userID email => other (handleMFAEnroll s issuer userID email)
  | Do_MFAVerify userID code => other (handleMFAVerify s userID code)
  | Do_MFADisable userID code => other (handleMFADisable s userID code)
  | Do_MFARegenerateRecovery userID code => other (handleMFARegenerateRecovery s userID code)
  | Do_Check userID permission scopeType scopeID => other (Check_ userID permission scopeType scopeID)
  | Do_EffectivePermissions userID workspaceID => other (EffectivePermissions userID workspaceID)
  | Do_AssignRole userID roleID scopeType scopeID => other (AssignRole userID roleID scopeType scopeID)
  | Do_RemoveRole userID roleID => other (RemoveRole userID roleID)
  | Do_SetRolePermissions roleID permissionIDs => other (SetRolePermissions roleID permissionIDs)
  | Do_EnforceSelfModificationGuard callerID targetUserID action => other (EnforceSelfModificationGuard callerID targetUserID action)
  | Do_EnforcePrivilegedRoleAssignmentGuard callerID roleID => other (EnforcePrivilegedRoleAssignmentGuard callerID roleID)
  | Do_InvalidateUserCache userID => other (InvalidateUserCache userID)
  | Do_Grant userID datasourceID level grantedBy => other (Grant redis userID datasourceID level grantedBy)
  | Do_Revoke userID datasourceID => other (Revoke redis userID datasourceID)
  | Do_UpdateLevel accessID level => other (UpdateLevel redis accessID level)
  | Do_ListAccessibleDatasourceIDs userID => other (ListAccessibleDatasourceIDs redis userID)
  | Do_CheckAccess userID datasourceID requiredLevel => other (CheckAccess userID datasourceID requiredLevel)
  | Do_Workspace_Create lower name description createdBy => other (Workspace_Create lower name description createdBy)
  | Do_Workspace_Update id callerID name description mfaRequired publicSharing => other (Workspace_Update id callerID name description mfaRequired publicSharing)
  | Do_Workspace_Delete id callerID => other (Workspace_Delete id callerID)
  | Do_AddMember workspaceID userID roleID invitedBy => other (AddMember redis workspaceID userID roleID invitedBy)
  | Do_UpdateMemberRole workspaceID userID roleID callerID => other (UpdateMemberRole workspaceID userID roleID callerID)
  | Do_RemoveMember workspaceID userID callerID => other (RemoveMember redis workspaceID userID callerID)
  | Do_SetMFARequired workspaceID callerID required => other (SetMFARequired workspaceID callerID required)
  | Do_SetPublicSharingEnabled workspaceID callerID enabled => other (SetPublicSharingEnabled workspaceID callerID enabled)
  | Do_AttachDatasource workspaceID datasourceID level callerID => other (AttachDatasource redis workspaceID datasourceID level callerID)
  | Do_DetachDatasource workspaceID datasourceID callerID => other (DetachDatasource redis workspaceID datasourceID callerID)
  | Do_Share resolve callerID resourceType resourceID sharedWith workspaceID permission => other (Share_ resolve callerID resourceType resourceID sharedWith workspaceID permission)
  | Do_Share_Revoke shareID callerID => other (Share_Revoke shareID callerID)
  | Do_ListShared userID resourceType => other (ListShared userID resourceType)
  end.
End Server.

(** * The relation between a database and the next *)

(** The key of a row is its identifier, and no two rows share a token. *)
Definition session_keys (t : gmap string Session) : Prop :=
  (forall id x, t !! id = Some x -> s_ID x = id) /\
  (forall id id' x y, t !! id = Some x -> t !! id' = Some y -> s_RefreshToken x = s_RefreshToken y -> id = id').

Lemma revoked_keys P now t : session_keys t -> session_keys (update_where P (revoke now) t).
Proof.
  intros [Hid Hu]. split.
  - intros id x. rewrite lookup_update_where. intros (y & Hy & ->)%fmap_Some. specialize (Hid _ _ Hy). by destruct (P y).
  - intros id id' x y. rewrite !lookup_update_where. intros (x' & Hx & ->)%fmap_Some (y' & Hy & ->)%fmap_Some Et.
    apply (Hu _ _ _ _ Hx Hy). revert Et. by destruct (P x'), (P y').
Qed.

(** Equal but for the revocation. *)
Definition same_session (s s' : Session) : Prop := set_s_RevokedAt None s = set_s_RevokedAt None s'.
Definition sessions_kept (t t' : gmap string Session) : Prop :=
  (forall id s, t !! id = Some s -> exists s', t' !! id = Some s' /\ same_session s s' /\ (unrevoked s' = true -> unrevoked s = true)) /\
  (forall id s', t' !! id = Some s' -> t !! id = None -> forall id0 s0, t !! id0 = Some s0 -> s_RefreshToken s0 <> s_RefreshToken s') /\
  (session_keys t -> session_keys t').
Definition links_kept (t t' : gmap string MagicLink) : Prop :=
  forall h l, t !! h = Some l -> exists l', t' !! h = Some l' /\ set_ml_ConsumedAt None l = set_ml_ConsumedAt None l' /\
    (ml_ConsumedAt l <> None -> ml_ConsumedAt l' <> None).
Definition keeps (d d' : DB) : Prop := sessions_kept (sessions d) (sessions d') /\ links_kept (magic_links d) (magic_links d').

Lemma sessions_kept_refl t : sessions_kept t t.
Proof. split; [|split; [congruence|done]]. intros id s Hs. by exists s. Qed.
Lemma session_added t id s : t !! id = None -> (forall id' x, t !! id' = Some x -> s_RefreshToken x <> s_RefreshToken s) ->
  s_ID s = id -> sessions_kept t (<[id := s]> t).
Proof.
  intros Hn Hh Hid. split; [|split].
  - intros id' x Hx. exists x. rewrite lookup_insert_ne by congruence. done.
  - intros id' s' Hs' Hn' id0 s0 Hs0. destruct (decide (id' = id)) as [->|Hne].
    + rewrite lookup_insert_eq in Hs'. injection Hs' as <-. by eapply Hh.
    + rewrite lookup_insert_ne in Hs' by done. congruence.
  - intros [Hk Hu]. split.
    + intros id' x Hx. destruct (decide (id' = id)) as [->|Hne]; [rewrite lookup_insert_eq in Hx; congruence|].
      rewrite lookup_insert_ne in Hx by done. auto.
    + intros i j x y Hx Hy E. rewrite lookup_insert_Some in Hx, Hy. destruct Hx as [[<- <-]|[Hi Hx]], Hy as [[<- <-]|[Hj Hy]]; [done| | |by eapply Hu].
      * by destruct (Hh _ _ Hy).
      * by destruct (Hh _ _ Hx).
Qed.
Lemma links_kept_refl t : links_kept t t.
Proof. intros h l Hl. by exists l. Qed.
Lemma keeps_refl d : keeps d d.
Proof. split; [apply sessions_kept_refl|apply links_kept_refl]. Qed.

(** Neither table is touched. *)
Definition frame (d d' : DB) : Prop := sessions d' = sessions d /\ magic_links d' = magic_links d.
Lemma keeps_frame d d' : frame d d' -> keeps d d'.
Proof. intros [E1 E2]. unfold keeps. rewrite E1, E2. split; [apply sessions_kept_refl|apply links_kept_refl]. Qed.
Lemma frame_trans d d' d'' : frame d d' -> frame d' d'' -> frame d d''.
Proof. intros [E1 E2] [E3 E4]. split; congruence. Qed.

(** Revoking some of the sessions. *)
Lemma revoke_kept P now t : sessions_kept t (update_where P (revoke now) t).
Proof.
  split; [|split; [|apply revoked_keys]].
  - intros id s Hs. unfold update_where. rewrite lookup_fmap, Hs. cbn. eexists. split; [done|]. by destruct (P s).
  - intros id s' Hs' Hn. unfold update_where in Hs'. by rewrite lookup_fmap, Hn in Hs'.
Qed.

#[global] Instance keeps_reflexive : Reflexive keeps.
Proof. exact keeps_refl. Qed.

(** * Helpers of transactions *)

Ltac frame_facts :=
  repeat match goal with H : frame _ _ |- _ => destruct H as [? ?] end; split; cbn in *; congruence.

Lemma insert_user_frame id email h name v c now d d' u : insert_user id email h name v c now d = Ok (d', u) -> frame d d'.
Proof. unfold insert_user. intros H. split_tx. done. Qed.
Lemma insertPasswordHistory_frame u h now d : frame d (insertPasswordHistory u h now d).
Proof. unfold insertPasswordHistory. by destruct (str_empty h). Qed.
Lemma insert_workspace_frame id n sl ds p c now d d' : insert_workspace id n sl ds p c now d = Ok d' -> frame d d'.
Proof. unfold insert_workspace. intros H. split_tx. done. Qed.
Lemma insert_member_frame ws u r i now d d' : insert_member ws u r i now d = Ok d' -> frame d d'.
Proof. unfold insert_member. intros H. split_tx. done. Qed.
Lemma own_workspace_frame ws u n r now d d' : own_workspace ws u n r now d = Ok d' -> frame d d'.
Proof.
  unfold own_workspace. intros H. split_tx. repeat match goal with
  | H : insert_workspace _ _ _ _ _ _ _ _ = Ok _ |- _ => apply insert_workspace_frame in H
  | H : insert_member _ _ _ _ _ _ = Ok _ |- _ => apply insert_member_frame in H end. frame_facts.
Qed.
Lemma bootstrap_frame ws u n e g now d d' : bootstrapUserWorkspace ws u n e g now d = Ok d' -> frame d d'.
Proof. unfold bootstrapUserWorkspace. intros H. split_tx. by apply own_workspace_frame in H. Qed.
Lemma upsertOAuthAccount_frame u p pu d : frame d (upsertOAuthAccount u p pu d).
Proof. unfold upsertOAuthAccount. by destruct (oauth_accounts d !! _). Qed.
Lemma finalize_frame req now d d' req' : finalizeEmailChangeIfReady req now d = Ok (d', req') -> frame d d'.
Proof. unfold finalizeEmailChangeIfReady. intros H. split_tx; done. Qed.
Lemma delete_workspace_frame id d d' : delete_workspace id d = Ok d' -> frame d d'.
Proof. unfold delete_workspace. intros H. split_tx. done. Qed.

Ltac helper_frames :=
  repeat match goal with
  | H : insert_user _ _ _ _ _ _ _ _ = Ok _ |- _ => apply insert_user_frame in H
  | H : insert_workspace _ _ _ _ _ _ _ _ = Ok _ |- _ => apply insert_workspace_frame in H
  | H : insert_member _ _ _ _ _ _ = Ok _ |- _ => apply insert_member_frame in H
  | H : own_workspace _ _ _ _ _ _ = Ok _ |- _ => apply own_workspace_frame in H
  | H : bootstrapUserWorkspace _ _ _ _ _ _ _ = Ok _ |- _ => apply bootstrap_frame in H
  | H : finalizeEmailChangeIfReady _ _ _ = Ok _ |- _ => apply finalize_frame in H
  | H : delete_workspace _ _ = Ok _ |- _ => apply delete_workspace_frame in H
  end;
  repeat match goal with
  | |- context [insertPasswordHistory ?u ?h ?n ?d] => pose proof (insertPasswordHistory_frame u h n d); generalize dependent (insertPasswordHistory u h n d); intros
  | |- context [upsertOAuthAccount ?u ?p ?q ?d] => pose proof (upsertOAuthAccount_frame u p q d); generalize dependent (upsertOAuthAccount u p q d); intros
  | H : context [insertPasswordHistory ?u ?h ?n ?d] |- _ => pose proof (insertPasswordHistory_frame u h n d); generalize dependent (insertPasswordHistory u h n d); intros
  end.
(** A transaction that touches neither table. *)
Ltac tx_frame := apply (tx_in keeps); intros; cbv zeta in *; split_tx; helper_frames; apply keeps_frame; try frame_facts.

Ltac keeps_leaf :=
  idtac;
  match goal with
  | |- steps_in _ (in_tx _) => tx_frame
  | |- steps_in _ (update _ _) => apply (update_in keeps); intros; apply keeps_frame; done
  | |- steps_in _ (stmt _) => apply (stmt_in keeps); intros; apply keeps_frame; repeat (case_match; cbn); done
  end.
Ltac steps := steps_by keeps_leaf.
Ltac program f := intros; unfold f; steps.

Section Operations.
Context `{Env} `{Unicode} `{Totp} `{Outside} `{WebAuthnLib}.

(** ** Sessions *)

Lemma insert_session_keeps u h ua ip fp e a : steps_in (db_in keeps) (insert_session u h ua ip fp e a).
Proof using.
  apply (tx_in keeps). intros ids now d d' [] Hd. cbv zeta in Hd. split_tx.
  match goal with H : _ || _ = false |- _ => apply orb_false_iff in H as [Hid Hh] end. apply bool_decide_eq_false in Hid.
  rewrite <- eq_None_not_Some in Hid. split; [|apply links_kept_refl]. cbn. apply session_added; [done| |done]. intros id x Hx Hxh.
  apply (exists_row_false _ _ _ _ Hh) in Hx. rewrite Hxh in Hx. cbn in Hx. by rewrite String.eqb_refl in Hx.
Qed.
Lemma revoke_where_keeps P : steps_in (db_in keeps) (revoke_where P).
Proof using. apply (update_in keeps). intros now d. split; [apply revoke_kept|apply links_kept_refl]. Qed.
#[local] Hint Resolve insert_session_keeps revoke_where_keeps : steps.
Lemma EnforceMaxSessions_keeps u n : steps_in (db_in keeps) (EnforceMaxSessions u n).
Proof using.
  program @EnforceMaxSessions. apply (stmt_in keeps). intros now d. split; [apply revoke_kept|apply links_kept_refl].
Qed.
#[local] Hint Resolve EnforceMaxSessions_keeps : steps.
Lemma RotateSession_keeps m o t ua ip : steps_in (db_in keeps) (RotateSession m o t ua ip).
Proof using. program @RotateSession. Qed.
#[local] Hint Resolve RotateSession_keeps : steps.

(** ** The parts the requests share *)

Lemma generateRecoveryCodes_keeps n : steps_in (db_in keeps) (generateRecoveryCodes n).
Proof using. induction n; cbn [generateRecoveryCodes]; steps. Qed.
Lemma redeem_keeps consume u c hs m : (forall h, steps_in (db_in keeps) (consume h)) -> steps_in (db_in keeps) m ->
  steps_in (db_in keeps) (redeem consume u c hs m).
Proof using. intros Hc Hm. induction hs; cbn [redeem]; steps. Qed.
Lemma invalidate_each_keeps r l : steps_in (db_in keeps) (invalidate_each r l).
Proof using. induction l; cbn [invalidate_each]; steps. Qed.
#[local] Hint Resolve generateRecoveryCodes_keeps redeem_keeps invalidate_each_keeps : steps.
Lemma GetActiveOrPersonalWorkspaceID_keeps u : steps_in (db_in keeps) (GetActiveOrPersonalWorkspaceID u).
Proof using. program @GetActiveOrPersonalWorkspaceID. Qed.
Lemma VerifyCode_keeps u c : steps_in (db_in keeps) (VerifyCode u c).
Proof using. unfold VerifyCode. steps; repeat (apply redeem_keeps; [intros; steps|]); steps. Qed.
#[local] Hint Resolve GetActiveOrPersonalWorkspaceID_keeps VerifyCode_keeps : steps.

(** ** Every request *)

Variables (s : Config) (redis : bool).

Lemma MagicLink_Issue_keeps p e u ip x : steps_in (db_in keeps) (MagicLink_Issue p e u ip x).
Proof using.
  apply (tx_in keeps). intros ids now d d' [] Hd. cbv zeta in Hd. split_tx. split; [apply sessions_kept_refl|].
  intros h l Hl. cbn. exists l. rewrite lookup_insert_ne; [done|]. intros <-. rewrite Hl in *. done.
Qed.
Lemma MagicLink_Consume_keeps p : steps_in (db_in keeps) (MagicLink_Consume p).
Proof using.
  apply (tx_in keeps). intros ids now d d' u Hd. cbv zeta in Hd. split_tx. split; [apply sessions_kept_refl|].
  intros h l Hl. cbn. destruct (decide (h = hashMagicLink p)) as [->|Hne].
  - rewrite lookup_insert_eq. rewrite Hl in *. simplify_eq. by eexists.
  - rewrite lookup_insert_ne by done. by exists l.
Qed.
#[local] Hint Resolve MagicLink_Issue_keeps MagicLink_Consume_keeps : steps.
Lemma claimInvitation_keeps i h n : steps_in (db_in keeps) (in_tx (claimInvitationInTx i h n)).
Proof using. unfold claimInvitationInTx. tx_frame. Qed.
#[local] Hint Resolve claimInvitation_keeps : steps.
Lemma serve_keeps req : steps_in (db_in keeps) (serve s redis req).
Proof using. destruct req; unfold serve; steps. Qed.
End Operations.

#[local] Open Scope Z_scope.

Instance keeps_preorder : PreOrder (db_in keeps).
Proof.
  split; [intros w; apply keeps_refl|]. intros w1 w2 w3 [(Hs1 & Hn1 & Hk1) Hl1] [(Hs2 & Hn2 & Hk2) Hl2]. split; [split; [|split; [|auto]]|].
  - intros id x Hx. destruct (Hs1 _ _ Hx) as (y & Hy & Exy & Rxy). destruct (Hs2 _ _ Hy) as (z & Hz & Eyz & Ryz).
    exists z. split; [done|]. split; [by unfold same_session in *; congruence|auto].
  - intros id z Hz Hn id0 x Hx. destruct (Hs1 _ _ Hx) as (y & Hy & Exy & _). destruct (sessions (w_db w2) !! id) as [y'|] eqn:Hy'.
    + destruct (Hs2 _ _ Hy') as (z' & Hz' & E & _). rewrite Hz in Hz'. injection Hz' as <-.
      assert (s_RefreshToken y' = s_RefreshToken z) as <- by (apply (f_equal s_RefreshToken) in E; exact E). by eapply Hn1.
    + assert (s_RefreshToken x = s_RefreshToken y) as -> by (apply (f_equal s_RefreshToken) in Exy; exact Exy). by eapply Hn2.
  - intros h x Hx. destruct (Hl1 _ _ Hx) as (y & Hy & Exy & Rxy). destruct (Hl2 _ _ Hy) as (z & Hz & Eyz & Ryz).
    exists z. split; [done|]. split; [congruence|auto].
Qed.

(** * What is spent, what is dead *)

(** The link with this hash was used. *)
Definition used_link (h : string) (w : World) : Prop := exists l, magic_links (w_db w) !! h = Some l /\ ml_ConsumedAt l <> None.
(** The sessions with this token are all revoked, and there is one. *)
Definition dead_token (h : string) (w : World) : Prop :=
  (exists id x, sessions (w_db w) !! id = Some x /\ s_RefreshToken x = h) /\
  (forall id x, sessions (w_db w) !! id = Some x -> s_RefreshToken x = h -> unrevoked x = false).

Lemma keeps_used h w w' : (db_in keeps) w w' -> used_link h w -> used_link h w'.
Proof. intros [_ Hl] (l & Hh & Hc). destruct (Hl _ _ Hh) as (l' & Hl' & _ & Hc'). exists l'. auto. Qed.
Lemma same_token x y : same_session x y -> s_RefreshToken x = s_RefreshToken y.
Proof. intros E. by apply (f_equal s_RefreshToken) in E. Qed.
Lemma keeps_dead h w w' : (db_in keeps) w w' -> dead_token h w -> dead_token h w'.
Proof.
  intros [(Hs & Hn & _) _] [(id & x & Hx & Ex) Hall]. split.
  - destruct (Hs _ _ Hx) as (y & Hy & Exy & _). exists id, y. split; [done|]. by rewrite <- (same_token _ _ Exy).
  - intros id' y Hy Ey. destruct (sessions (w_db w) !! id') as [x'|] eqn:Hx'.
    + destruct (Hs _ _ Hx') as (y' & Hy' & E & Hr). rewrite Hy in Hy'. injection Hy' as <-.
      specialize (Hall _ _ Hx'). rewrite (same_token _ _ E) in Hall. specialize (Hall Ey).
      destruct (unrevoked y); [|done]. by rewrite Hr in Hall.
    + exfalso. apply (Hn _ _ Hy Hx' _ _ Hx). congruence.
Qed.

Section Concurrent.
Context `{Env} `{Unicode} `{Totp} `{Outside} `{WebAuthnLib}.
Variables (s : Config) (redis : bool).

(** * Magic links *)

Definition redeems (h : string) (o : Outcome) : bool :=
  match o with Redeemed plain (Ok _) => String.eqb (hashMagicLink plain) h | _ => false end.

(** The transaction that consumes a link finds it unused and leaves it used, or fails. *)
Lemma consume_step plain w : match (exec (MagicLink_Consume plain) w).2 with
  | Ok _ => ~ used_link (hashMagicLink plain) w /\ used_link (hashMagicLink plain) (exec (MagicLink_Consume plain) w).1
  | Err _ => True
  end.
Proof using.
  cbn. destruct (magic_links (w_db w) !! hashMagicLink plain) as [l|] eqn:El; [|by destruct (db_fault _) as [[e []]|]].
  destruct (ml_ConsumedAt l) as [c|] eqn:Ec; [by destruct (db_fault _) as [[e []]|]|].
  destruct (ml_ExpiresAt l <? _); [by destruct (db_fault _) as [[e []]|]|].
  destruct (ml_UserID l ≫= nonempty) as [u|]; [|by destruct (db_fault _) as [[e []]|]].
  destruct (db_fault _) as [[e []]|]; cbn; [done|done|]. split.
  - intros (l' & Hl' & Hc). congruence.
  - eexists. cbn. rewrite lookup_insert_eq. by split.
Qed.

Lemma serve_once h req : once (used_link h) (redeems h) false (serve s redis req).
Proof using.
  assert (Hk : forall req, steps_in (fun w w' => used_link h w -> used_link h w') (serve s redis req))
    by (intros; eapply steps_in_impl; [apply keeps_used|apply serve_keeps]).
  destruct req; try (apply once_harmless; [apply Hk|by apply results_in_bind]).
  destruct (decide (hashMagicLink plain = h)) as [<-|Hne].
  - specialize (Hk (Do_ConsumeMagicLink plain userAgent ipAddress)). cbn [serve] in *. unfold ConsumeMagicLink in *.
    destruct (_ || _); [done|]. intros w. destruct (Hk w) as [Hp Hrest]. split; [exact Hp|].
    pose proof (consume_step plain w) as Hc. cbn [MagicLink_Consume in_tx atomic exec or_return prog_bind fst snd] in *.
    match goal with |- context [prog_bind match ?r with _ => _ end] => destruct r as [u|e] eqn:Er end.
    + exists true. split; [done|]. split; [intros _ _; exact Hc|]. by apply once_won.
    + exists false. split; [done|]. split; [done|]. done.
  - apply once_harmless; [apply Hk|]. apply results_in_bind. intros [a|e]; [|done]. cbn. by apply String.eqb_neq.
Qed.

(** C10: However any requests to the authentication service interleave, a magic link signs in
    at most once. *)
Theorem magic_link_used_once h w reqs c :
  interleaves (w, map (serve s redis) reqs) c -> (winners (redeems h) c.2 <= 1)%nat.
Proof using.
  intros Hi. eapply at_most_one_wins; [exact Hi|]. cbn. apply Forall_fmap, Forall_true. intros req. apply serve_once.
Qed.

(** * Revoked sessions *)

Definition never_exchanged (h : string) (o : Outcome) : Prop :=
  match o with Refreshed token (Ok _) => HashToken token <> h | _ => True end.

Lemma rotate_dead m token ttl ua ip :
  under (dead_token (HashToken token)) (RotateSession m token ttl ua ip) (fun r => match r with Ok _ => False | Err _ => True end).
Proof using.
  unfold RotateSession. eapply under_try with (P := fun x => unrevoked x = false).
  - apply under_atomic. intros w Hw. split.
    + cbn. by destruct (db_fault _) as [[e []]|].
    + cbn. destruct Hw as [_ Hall]. destruct (db_fault _) as [[e []]|]; cbn; [done|done|].
      destruct (session_by_token _ _) as [x|] eqn:Ex; [|done].
      apply select_one_Some in Ex as (k & Hk & Ht). apply String.eqb_eq in Ht. by eapply Hall.
  - intros x Hx. unfold unrevoked in Hx. destruct (s_RevokedAt x); [|done].
    eapply under_bind; [apply under_steps; eapply steps_in_impl; [apply keeps_dead|apply steps_in_try; [apply revoke_where_keeps|done]]|done].
Qed.
Lemma serve_dead h req : under (dead_token h) (serve s redis req) (never_exchanged h).
Proof using.
  assert (Hk : forall req, steps_in (fun w w' => dead_token h w -> dead_token h w') (serve s redis req))
    by (intros; eapply steps_in_impl; [apply keeps_dead|apply serve_keeps]).
  destruct req; try (apply under_results; [apply Hk|by apply results_in_bind]).
  destruct (decide (HashToken refreshToken = h)) as [<-|Hne].
  - cbn [serve]. unfold Refresh. eapply under_bind with (P := fun r => match r with Ok _ => False | Err _ => True end).
    + eapply under_bind; [apply rotate_dead|]. by intros [a|e].
    + by intros [a|e].
  - apply under_results; [apply Hk|]. apply results_in_bind. by intros [a|e].
Qed.

(** C11: Once every session with a token is revoked - by a sign-out, an administrator or the
    replay of a rotated token - no request that starts after that exchanges the token for
    another, however the requests that start then interleave with each other. (A rotation that
    had read the session before it was revoked is not among them: it may still exchange it.) *)
Theorem revoked_token_never_exchanged h w reqs c (Hdead : dead_token h w) (Hi : interleaves (w, map (serve s redis) reqs) c) :
  forall o, Ret o ∈ c.2 -> never_exchanged h o.
Proof using.
  intros o Ho. assert (HF : Forall (fun m => under (dead_token h) m (never_exchanged h)) c.2).
  { eapply under_pool; [exact Hi|done|]. apply Forall_fmap, Forall_true. intros req. apply serve_dead. }
  rewrite Forall_forall in HF. by apply (HF _ Ho).
Qed.

(** * The table of sessions *)

(** Whatever requests interleave, the key of a session stays its identifier and no two
    sessions come to share a token. *)
Theorem sessions_stay_distinct w reqs c (Hw : session_keys (sessions (w_db w))) (Hi : interleaves (w, map (serve s redis) reqs) c) :
  session_keys (sessions (w_db c.1)).
Proof using.
  eapply (interleaves_in (db_in keeps)) in Hi as [[(_ & _ & Hk) _] _]; [by apply Hk|].
  apply Forall_fmap, Forall_true. intros req. apply serve_keeps.
Qed.
End Concurrent.
