(* ===== verification/AuthLogin.v ===== *)
(** Sessions and logins of requests that run alone: what a rotation does, what the replay of a
    rotated token does, which sessions the limit ends, and who a login admits - what holds
    of an account when the service signs somebody in by a password. *)

From S2P Require Import Prelude GoStrings Interleave Tables AuthStore AuthLogic AuthText Sessions Users AuthTokens Mfa Rbac AuthService AuthConcurrent.
From stdpp Require Import options.

#[local] Open Scope Z_scope.

Lemma revoke_by_id now t id x : session_keys t -> t !! id = Some x ->
  update_where (fun r => String.eqb (s_ID r) (s_ID x)) (revoke now) t = <[id := revoke now x]> t.
Proof.
  intros [Hid _] Hx. apply map_eq. intros k. rewrite lookup_update_where. destruct (decide (k = id)) as [->|Hne].
  - rewrite lookup_insert_eq, Hx. cbn. by rewrite String.eqb_refl.
  - rewrite lookup_insert_ne by done. destruct (t !! k) as [y|] eqn:Hy; [|done]. cbn.
    rewrite (Hid _ _ Hy), (Hid _ _ Hx). by apply String.eqb_neq in Hne as ->.
Qed.

Lemma min_if a b : (if b <? a then b else a) = Z.min a b.
Proof. destruct (Z.ltb_spec b a); lia. Qed.

Section Alone.
Context `{Env} `{Unicode}.

(** A new session, as the statement that inserts it leaves the database: a row of a new key,
    and nothing else. *)
Definition opened (d d' : DB) (userID token : string) (ua ip fp : option string) (expiresAt absoluteExpiresAt : Z) : Prop :=
  exists id created, sessions d !! id = None /\
    d' = set_sessions (<[id := mkSession id userID (HashToken token) ua ip fp created expiresAt created absoluteExpiresAt None]> (sessions d)) d.
Lemma wp_createSession userID ua ip fp e a w : wp (createSession userID ua ip fp e a)
  (fun r w' => match r with
     | Ok token => opened (w_db w) (w_db w') userID token ua (normalizeIP ip) (if str_empty fp then None else Some fp) e a
     | Err _ => True
     end) w.
Proof using.
  apply wp_try, wp_wrap, wp_draw_text. intros w1 [b|err] [E1 _]; [|done]. apply wp_try, wp_wrap, wp_tx. intros w2 [[]|err]; [|done].
  intros (d & Hd & E2 & _). apply wp_ret. cbv zeta in Hd. split_tx. rewrite E1 in *.
  match goal with H : _ || _ = false |- _ => apply orb_false_iff in H as [Hid _] end.
  apply bool_decide_eq_false in Hid. rewrite <- eq_None_not_Some in Hid. eexists _, _. split; [exact Hid|]. by rewrite E2.
Qed.

(** What a rotation that answers with [new] did: the session of the old token was open, it is
    revoked, and a session of [new] stands beside it. *)
Definition rotated_to (m : SessionManager) (old : string) (ttl : Z) (ua ip : option string) (w w' : World) (new : string) : Prop :=
  exists id x at_, let now := time (S (w_tick w)) in
    sessions (w_db w) !! id = Some x /\ s_RefreshToken x = HashToken old /\ unrevoked x = true /\
    now <= s_ExpiresAt x /\ now <= s_AbsoluteExpiresAt x /\ (0 < idleTTL m -> now - s_LastActiveAt x <= idleTTL m) /\
    opened (set_sessions (<[id := revoke at_ x]> (sessions (w_db w))) (w_db w)) (w_db w') (s_UserID x) new ua (normalizeIP ip) None
      (Z.min (now + ttl) (s_AbsoluteExpiresAt x)) (s_AbsoluteExpiresAt x).

(** C21: Let the keys of the sessions and the hashes of their tokens be unique, as the tables have
    it. A rotation that succeeds, where nobody else writes in between, was given the token of a
    session that is neither revoked nor expired nor idle for too long. The database after it
    is the one before with that session revoked and one row added: a session of the same
    user for the new token, which ends no later than the first could have. *)
Theorem RotateSession_exchanges m old ttl ua ip w (Hok : session_keys (sessions (w_db w))) :
  match exec (RotateSession m old ttl ua ip) w with
  | (w', Ok new) => rotated_to m old ttl ua ip w w' new
  | (_, Err _) => True
  end.
Proof using.
  enough (wp (RotateSession m old ttl ua ip) (fun r w' => match r with Ok new => rotated_to m old ttl ua ip w w' new | Err _ => True end) w)
    as Hw by (revert Hw; unfold wp; by destruct (exec _ w) as [w' [new|e]]).
  unfold RotateSession. apply wp_try, wp_query. intros w1 [x|e] [E1 T1] _ Hr; [|done]. specialize (Hr _ eq_refl).
  destruct (session_by_token (HashToken old) (w_db w)) as [x'|] eqn:Ex; [|done]. injection Hr as ->.
  apply select_one_Some in Ex as (id & Hx & Et). apply String.eqb_eq in Et.
  destruct (s_RevokedAt x) as [rv|] eqn:Ev; [by apply wp_bind|].
  apply wp_bind, wp_now. intros w2 [E2 T2]. rewrite T1. destruct (s_ExpiresAt x <? _) eqn:L1; [done|].
  destruct (s_AbsoluteExpiresAt x <? time _) eqn:L2; [by apply wp_bind|].
  destruct (_ && _) eqn:L3; [by apply wp_bind|]. apply wp_try, wp_wrap, wp_update.
  intros w3 r [[-> [E3 _]]|[[e ->] _]]; [|done]. cbn [res_map_err]. apply wp_wrap.
  eapply wp_mono; [apply wp_createSession|]. intros [new|e] w4 Hn; [|done]. cbn [res_map_err].
  exists id, x, (time (w_tick w2)). cbv zeta. split; [done|]. split; [done|]. split; [by unfold unrevoked; rewrite Ev|].
  apply Z.ltb_ge in L1, L2. split; [done|]. split; [done|]. split.
  { intros Hi. apply andb_false_iff in L3 as [L3|L3]; [by apply Z.ltb_ge in L3; lia|by apply Z.ltb_ge in L3]. }
  rewrite min_if in Hn. rewrite E3, E2, E1, (revoke_by_id _ _ _ _ Hok Hx) in Hn. exact Hn.
Qed.

(** C22: When a token comes back after its session was revoked, and nothing fails, the user it
    belonged to is signed out everywhere: no session of that user is left unrevoked. *)
Theorem RotateSession_replay m old ttl ua ip w id x
    (Hok : session_keys (sessions (w_db w))) (Hx : sessions (w_db w) !! id = Some x)
    (Ht : s_RefreshToken x = HashToken old) (Hr : unrevoked x = false) (Hf : forall t, db_fault t = None) :
  exec (RotateSession m old ttl ua ip) w =
    (set_db (set_sessions (update_where (fun y => String.eqb (s_UserID y) (s_UserID x) && unrevoked y)
       (revoke (time (S (w_tick w)))) (sessions (w_db w))) (w_db w)) (next (next w)), Err ErrSessionRevoked) /\
  forall id' y, sessions (w_db (exec (RotateSession m old ttl ua ip) w).1) !! id' = Some y -> s_UserID y = s_UserID x -> unrevoked y = false.
Proof using.
  assert (session_by_token (HashToken old) (w_db w) = Some x) as Es.
  { unfold session_by_token. destruct (select_one _ _) as [y|] eqn:Ey.
    - apply select_one_Some in Ey as (k & Hk & Et). apply String.eqb_eq in Et. destruct Hok as [_ Hu].
      rewrite <- Ht in Et. rewrite (Hu _ _ _ _ Hk Hx Et) in Hk. congruence.
    - eapply select_one_None in Ey; [|done]. rewrite Ht in Ey. by rewrite String.eqb_refl in Ey. }
  assert (exec (RotateSession m old ttl ua ip) w = (set_db (set_sessions (update_where (fun y => String.eqb (s_UserID y) (s_UserID x) && unrevoked y)
       (revoke (time (S (w_tick w)))) (sessions (w_db w))) (w_db w)) (next (next w)), Err ErrSessionRevoked)) as E.
  { cbn. rewrite Hf, Es. cbn. unfold unrevoked in Hr. destruct (s_RevokedAt x); [|done]. cbn. by rewrite Hf. }
  split; [done|]. rewrite E. cbn. intros id' y Hy Eu. rewrite lookup_update_where in Hy.
  destruct (sessions (w_db w) !! id') as [z|]; [|done]. cbn in Hy. injection Hy as <-.
  destruct (String.eqb (s_UserID z) (s_UserID x) && unrevoked z) eqn:EP; [done|]. apply andb_false_iff in EP as [EP|EP]; [|done].
  by apply String.eqb_neq in EP.
Qed.

(** ** The limit *)

Lemma NoDup_map_filter {A B} (f : A -> B) (P : A -> bool) l : NoDup (map f l) -> NoDup (map f (List.filter P l)).
Proof using.
  induction l as [|x l IH]; [done|]. cbn. intros [Hx Hl]%NoDup_cons. destruct (P x); [|auto]. cbn. apply NoDup_cons. split; [|auto].
  intros (y & Ey & Hy)%list_elem_of_fmap. apply Hx, list_elem_of_fmap. exists y. split; [done|].
  apply list_elem_of_In. apply list_elem_of_In in Hy. by apply List.filter_In in Hy as [Hy _].
Qed.
Lemma select_ids P t : session_keys t -> NoDup (map s_ID (select P t)).
Proof using.
  intros [Hid _]. unfold select. apply NoDup_map_filter.
  replace (map s_ID (map_to_list t).*2) with (map_to_list t).*1; [apply NoDup_fst_map_to_list|].
  change (@map) with (fun A B => @fmap list _ A B). cbv beta. rewrite <- list_fmap_compose. apply list_fmap_ext. intros i [k x] Hx. cbn. symmetry. apply Hid.
  apply elem_of_map_to_list, list_elem_of_lookup_2 with i. exact Hx.
Qed.
Lemma elem_of_active u now d y :
  y ∈ active_of u now d <-> exists k, sessions d !! k = Some y /\ String.eqb (s_UserID y) u && active now y = true.
Proof using. unfold active_of. rewrite merge_sort_Permutation, list_elem_of_In. exact (select_In (fun s => String.eqb (s_UserID s) u && active now s) _ _). Qed.
Lemma active_ids u now d : session_keys (sessions d) -> NoDup (map s_ID (active_of u now d)).
Proof using. intros Hk. unfold active_of. rewrite merge_sort_Permutation. by apply select_ids. Qed.

Lemma active_NoDup u now d : session_keys (sessions d) -> NoDup (active_of u now d).
Proof using. intros Hk. by eapply (NoDup_fmap_1 s_ID), active_ids. Qed.
Lemma active_evicted u now ids d y : y ∈ active_of u now (set_sessions (revoke_ids now ids (sessions d)) d) <->
  y ∈ active_of u now d /\ s_ID y ∉ ids.
Proof using.
  rewrite !elem_of_active. cbn. unfold revoke_ids. split.
  - intros (k & Hk & Ha). rewrite lookup_update_where in Hk. apply fmap_Some in Hk as (x & Hx & ->).
    case_bool_decide; [by rewrite andb_false_r in Ha|]. split; [|done]. by exists k.
  - intros [(k & Hk & Ha) Hn]. exists k. rewrite lookup_update_where, Hk. cbn. by rewrite bool_decide_eq_false_2.
Qed.
Lemma first_of_distinct {A} (f : A -> string) n l y : NoDup (map f l) -> (y ∈ l /\ f y ∉ map f (drop n l) <-> y ∈ take n l).
Proof using.
  intros Hl. rewrite <- (take_drop n l) in Hl at 1. rewrite List.map_app in Hl. apply NoDup_app in Hl as (_ & Hl & _). split.
  - intros [Hy Hn]. rewrite <- (take_drop n l), elem_of_app in Hy. destruct Hy as [Hy|Hy]; [done|]. exfalso. by apply Hn, list_elem_of_fmap_2.
  - intros Hy. split; [by eapply subseteq_take|]. by apply Hl, list_elem_of_fmap_2.
Qed.

(** After the limit is enforced, and unless the statement fails, the active sessions of the
    user are the most recent ones, as many as the limit allows. *)
Theorem EnforceMaxSessions_keeps_recent u n w (Hok : session_keys (sessions (w_db w))) (Hn : 0 < n) (Hf : db_fault (w_tick w) = None) :
  let now := time (w_tick w) in
  active_of u now (w_db (exec (EnforceMaxSessions u n) w).1) ≡ₚ take (Z.to_nat n) (active_of u now (w_db w)) /\
  Sorted more_recent (active_of u now (w_db w)) /\
  (forall other, other <> u -> active_of other now (w_db (exec (EnforceMaxSessions u n) w).1) ≡ₚ active_of other now (w_db w)).
Proof using.
  cbv zeta. unfold EnforceMaxSessions. assert (n <=? 0 = false) as -> by (apply Z.leb_gt; lia). rewrite exec_wrap. cbn. rewrite Hf. cbn.
  set (now := time (w_tick w)). set (l := active_of u now (w_db w)). set (ids := map s_ID (drop (Z.to_nat n) l)). set (d := set_sessions _ _).
  assert (Hd : forall v y, y ∈ active_of v now d <-> y ∈ active_of v now (w_db w) /\ s_ID y ∉ ids) by (intros v y; exact (active_evicted v now ids (w_db w) y)).
  assert (Hk : session_keys (sessions d)) by (by apply revoked_keys).
  split; [|split].
  - apply NoDup_Permutation; [by apply active_NoDup|by apply (sublist_NoDup _ l); [apply active_NoDup|apply sublist_take]|].
    intros y. rewrite Hd. apply first_of_distinct. by apply active_ids.
  - apply Sorted_merge_sort. intros x y. unfold more_recent. lia.
  - intros v Hv. apply NoDup_Permutation; [by apply active_NoDup|by apply active_NoDup|].
    intros y. rewrite Hd. split; [tauto|]. intros Hy. split; [done|]. intros (z & Ez & Hz)%list_elem_of_fmap. apply Hv.
    apply subseteq_drop, elem_of_active in Hz as (k & Hz & [Hu _]%andb_true_iff). apply elem_of_active in Hy as (k' & Hy & [Hu' _]%andb_true_iff).
    destruct Hok as [Hid _]. rewrite (Hid _ _ Hy), (Hid _ _ Hz) in Ez. subst. rewrite Hy in Hz. simplify_eq.
    apply String.eqb_eq in Hu, Hu'. congruence.
Qed.
End Alone.

#[local] Open Scope Z_scope.

Definition users_keyed (d : DB) : Prop := forall k u, users d !! k = Some u -> u_ID u = k.
(** An account that may be signed in. *)
Definition in_good_standing (u : User) : Prop := u_IsActive u = true /\ u_FrozenAt u = None /\ u_DeletedAt u = None.
Definition mfa_enabled (d : DB) (id : string) : bool := match user_mfa d !! id with Some e => e_Enabled e | None => false end.

(** Nothing changes that tells whether an account may be signed in. *)
Definition standing_kept (d d' : DB) : Prop :=
  user_mfa d' = user_mfa d /\
  forall k, set_u_LastLoginAt None <$> users d' !! k = set_u_LastLoginAt None <$> users d !! k.
#[global] Instance standing_kept_preorder : PreOrder standing_kept.
Proof. split; [done|]. intros d1 d2 d3 [E1 H1] [E2 H2]. split; [congruence|]. intros k. by rewrite H2. Qed.
Lemma standing_frame d d' : user_mfa d' = user_mfa d -> users d' = users d -> standing_kept d d'.
Proof. intros E1 E2. split; [done|]. by rewrite E2. Qed.
Lemma standing_good d d' id u : standing_kept d d' -> users d !! id = Some u -> in_good_standing u ->
  exists u', users d' !! id = Some u' /\ in_good_standing u' /\ set_u_LastLoginAt None u' = set_u_LastLoginAt None u.
Proof.
  intros [_ Hk] Hu (Ha & Hf & Hd). specialize (Hk id). rewrite Hu in Hk. cbn in Hk. apply fmap_Some in Hk as (u' & Hu' & E).
  exists u'. split; [done|]. pose proof (f_equal u_IsActive E). pose proof (f_equal u_FrozenAt E). pose proof (f_equal u_DeletedAt E).
  cbn in *. split; [|done]. unfold in_good_standing. repeat split; congruence.
Qed.

Ltac standing_leaf :=
  idtac;
  match goal with
  | |- steps_in _ (in_tx _) => apply tx_in; [exact _|]; intros; cbv zeta in *; split_tx; by apply standing_frame
  | |- steps_in _ (stmt _) => apply stmt_in; [exact _|]; intros; by apply standing_frame
  | |- steps_in _ (update _ _) => apply update_in; [exact _|]; intros; by apply standing_frame
  end.

Section Login.
Context `{Env} `{Unicode} `{Totp} `{Outside}.
Variable s : Config.

Lemma UpdateLastLogin_standing u : steps_in (db_in standing_kept) (UpdateLastLogin u).
Proof using.
  apply steps_in_try; [|done]. apply update_in; [exact _|]. intros now d. split; [done|]. intros k. cbn. rewrite lookup_update_where.
  destruct (users d !! k) as [x|]; [|done]. cbn. by destruct (by_id u x).
Qed.
#[local] Hint Resolve UpdateLastLogin_standing : steps.
Lemma issueSession_standing u ua ip : steps_in (db_in standing_kept) (issueSession s u ua ip).
Proof using. unfold issueSession. steps_by standing_leaf. Qed.
Definition for_user (u : User) (r : res TokenResponse) : Prop :=
  match r with Ok t => tr_UserID t = u_ID u /\ tr_MFARequired t = false | Err _ => True end.
Lemma issueSession_for_user u ua ip : results_in (for_user u) (issueSession s u ua ip).
Proof using.
  apply results_in_try; [done|]. intros [roles at_]. apply results_in_try; [done|]. intros rt.
  repeat (apply results_in_bind; intros). done.
Qed.

(** * Credentials *)

(** The address of whom the directory knows: what it says, or the name that was typed. *)
Definition directory_email (username addr : string) : string :=
  normalizeLoginEmail (if str_empty (TrimSpace addr) then username else TrimSpace addr).
(** The password is that of the account with the address that was typed; or the directory that
    is set up takes the name and the password, and the account has the address it gives:
    an account that was there, or a new one without a password. *)
Definition vouched (d : DB) (username password : string) (u : User) : Prop :=
  (user_by_email (normalizeLoginEmail username) d = Some u /\
   exists hash, u_PasswordHash u = Some hash /\ VerifyPassword password hash = true) \/
  (ldapReady s = true /\ exists t cfg addr name,
     ldap_config d = Some cfg /\ ldap_Enabled cfg = true /\ ldap_Authenticate t (ldap_Settings cfg) username password = Ok (addr, name) /\
     (user_by_email (directory_email username addr) d = Some u \/
      user_by_email (directory_email username addr) d = None /\ ldap_AutoCreateUsers cfg = true /\
      users d !! u_ID u = None /\ u_Email u = directory_email username addr /\ u_PasswordHash u = None)).

Lemma email_keyed email d u : users_keyed d -> user_by_email email d = Some u -> users d !! u_ID u = Some u.
Proof using. intros Hk Hu. apply select_one_Some in Hu as (k & Hu & _). by rewrite (Hk _ _ Hu). Qed.
Lemma email_free email d : email_taken email d = false -> user_by_email email d = None.
Proof using.
  intros He. destruct (user_by_email email d) as [u|] eqn:Eu; [|done]. apply select_one_Some in Eu as (k & Hk & Hu).
  by rewrite (exists_row_false _ _ _ _ He Hk) in Hu.
Qed.
Lemma GetUserByEmail_row email w : users_keyed (w_db w) ->
  wp (GetUserByEmail email) (fun r w' => w_db w' = w_db w /\
    forall u, r = Ok u -> user_by_email email (w_db w) = Some u /\ users (w_db w') !! u_ID u = Some u) w.
Proof using.
  intros Hk. apply wp_query. intros w' r [E _] _ Hr. split; [done|]. intros u ->. specialize (Hr _ eq_refl).
  destruct (user_by_email _ _) as [v|] eqn:Ev; [|done]. injection Hr as ->. rewrite E. split; [done|]. by eapply email_keyed.
Qed.
Lemma insert_user_new id email name v c now d d' u : insert_user id email None name v c now d = Ok (d', u) ->
  users d' = <[u_ID u := u]> (users d) /\ users d !! u_ID u = None /\ u_Email u = email /\ u_PasswordHash u = None.
Proof using.
  unfold insert_user. intros Hd. split_tx. match goal with Ho : _ || _ = false |- _ => apply orb_false_iff in Ho as [Hn _] end.
  apply bool_decide_eq_false in Hn. rewrite <- eq_None_not_Some in Hn. done.
Qed.
Lemma bootstrap_users ws u n e g now d d' : bootstrapUserWorkspace ws u n e g now d = Ok d' -> users d' = users d.
Proof using.
  unfold bootstrapUserWorkspace, own_workspace, insert_workspace, insert_member. intros Hd. split_tx. done.
Qed.
Lemma CreateDirectoryUser_row email name w :
  wp (CreateDirectoryUser email name) (fun r w' => forall u, r = Ok u -> users (w_db w') !! u_ID u = Some u /\
    user_by_email email (w_db w) = None /\ users (w_db w) !! u_ID u = None /\ u_Email u = email /\ u_PasswordHash u = None) w.
Proof using.
  apply wp_tx. intros w' r Hr u ->. destruct Hr as (d & Hd & E & _). cbv zeta in Hd. rewrite E. split_tx.
  repeat match goal with
  | Hb : bootstrapUserWorkspace _ _ _ _ _ _ _ = Ok _ |- _ => apply bootstrap_users in Hb as ->
  | Hi : insert_user _ _ _ _ _ _ _ _ = Ok _ |- _ => apply insert_user_new in Hi as (-> & ? & ? & ?)
  end. split; [apply lookup_insert_eq|]. split; [by apply email_free|done].
Qed.
Lemma tryLDAP_vouched username password w : users_keyed (w_db w) ->
  wp (tryLDAP s username password)
    (fun r w' => forall u, r = Ok (Some u) -> users (w_db w') !! u_ID u = Some u /\ vouched (w_db w) username password u) w.
Proof using.
  intros Hk. unfold tryLDAP. destruct (negb (ldapReady s)) eqn:El; [done|]. apply negb_false_iff in El.
  apply wp_try, wp_wrap, wp_query. intros w1 [cfg|e] [E1 _] _ Hc; [cbn [res_map_err]|done]. injection (Hc _ eq_refl) as Ec.
  destruct (negb (ldap_Enabled cfg)) eqn:En; [done|]. apply negb_false_iff in En.
  assert (ldap_config (w_db w) = Some cfg) as Ecfg by (destruct (ldap_config (w_db w)); [by subst|by subst]).
  apply wp_bind, wp_outside. intros w2 [E2 _]. destruct (ldap_Authenticate _ _ _ _) as [[addr name]|e] eqn:EL; [|by destruct (errors_Is _ _)].
  cbv zeta. fold (directory_email username addr). apply wp_bind. eapply wp_mono; [apply GetUserByEmail_row; by rewrite E2, E1|].
  rewrite E2, E1. intros [u|e] w3 [E3 Hu]; cbn beta iota.
  - intros v [= <-]. destruct (Hu _ eq_refl) as [Hb Hr]. split; [done|]. right. split; [done|]. eexists _, cfg, addr, name. eauto 10.
  - destruct (errors_Is _ _); [|done]. destruct (negb _) eqn:Ea; [done|]. apply negb_false_iff in Ea.
    apply wp_try. eapply wp_mono; [apply CreateDirectoryUser_row|]. rewrite E3.
    intros [u|e'] w4 Hu'; [|done]. intros v [= <-]. destruct (Hu' _ eq_refl) as (Hr & Hf & Hn & Hm & Hp). split; [done|].
    right. split; [done|]. eexists _, cfg, addr, name. split; [done|]. split; [done|]. split; [exact EL|]. right. done.
Qed.
Lemma authenticateLogin_vouched rawEmail password w : users_keyed (w_db w) ->
  wp (authenticateLogin s rawEmail password (normalizeLoginEmail rawEmail))
    (fun r w' => forall u how, r = Ok (Some u, true, how) -> users (w_db w') !! u_ID u = Some u /\ vouched (w_db w) rawEmail password u) w.
Proof using.
  intros Hk. apply wp_bind. eapply wp_mono; [by apply GetUserByEmail_row|]. intros r w1 [E1 Hr]. apply wp_try.
  assert (Hrest : forall user : option User,
      (forall u, user = Some u -> user_by_email (normalizeLoginEmail rawEmail) (w_db w) = Some u /\ users (w_db w1) !! u_ID u = Some u) ->
    wp (let passwordOK := match user with Some u => match u_PasswordHash u with Some hash => VerifyPassword password hash | None => false end | None => false end in
        if passwordOK then Ret (Ok (user, true, "password")) else
        let* ldapUser := tryLDAP s rawEmail password in
        match ldapUser with Ok (Some u) => Ret (Ok (Some u, true, "ldap")) | _ => Ret (Ok (user, false, "password")) end)
      (fun r w' => forall u how, r = Ok (Some u, true, how) -> users (w_db w') !! u_ID u = Some u /\ vouched (w_db w) rawEmail password u) w1).
  { intros user Hu. cbv zeta. destruct (match user with Some _ => _ | None => _ end) eqn:Ep.
    - intros u how [= -> _]. destruct (Hu _ eq_refl) as [Hb Hrow]. split; [done|]. left. split; [done|].
      destruct (u_PasswordHash u) as [hash|]; [|done]. by exists hash.
    - apply wp_bind. eapply wp_mono; [apply tryLDAP_vouched; by rewrite E1|]. rewrite E1. intros [[u|]|e] w2 Hl; cbn beta iota; intros v how [= <- _].
      by apply Hl. }
  destruct r as [u|e]; [apply Hrest; by intros v [= <-]; apply Hr|]. destruct (errors_Is _ _); [by apply Hrest|done].
Qed.

(** * The gates *)

Ltac read_only := unfold db_in; steps_by fail.

Lemma lockout_open email w : wp (checkLoginLockout s email) (fun r w' => w_db w' = w_db w /\ (r = Ok tt -> redisClient s = true ->
  redis_fault (w_tick w) = None -> forall n, redis_get (time (w_tick w)) (login_failures_key email) (w_redis w) = Some (RInt n) -> n < 5)) w.
Proof using.
  unfold checkLoginLockout. destruct (redisClient s); [|done]. cbn. unfold wp. cbn. split; [by destruct (redis_fault _) as [[e []]|]|].
  intros Hr _ Hf n Hn. rewrite Hf, Hn in Hr. cbn in Hr. destruct (5 <=? n) eqn:E; [done|]. by apply Z.leb_gt in E.
Qed.
Lemma rejectInvalidLogin_admits user ok email w : wp (rejectInvalidLogin s user ok email)
  (fun r w' => forall u, r = Ok u -> w' = w /\ user = Some u /\ u_IsActive u = true /\ ok = true) w.
Proof using.
  unfold rejectInvalidLogin. destruct user as [u|]; [|by apply wp_bind]. destruct (u_IsActive u) eqn:Ea; [|done]. cbn [negb].
  destruct ok; [|by apply wp_bind]. cbn [negb]. by intros v [= <-].
Qed.
Lemma validateLoginAccountState_good u w : users (w_db w) !! u_ID u = Some u -> u_IsActive u = true ->
  wp (validateLoginAccountState u) (fun r w' => r = Ok tt -> w_db w' = w_db w /\ in_good_standing u) w.
Proof using.
  intros Hu Ha. apply wp_try, wp_query. intros w' [st|e] [E _] _ Hr; [|done]. specialize (Hr _ eq_refl).
  rewrite Hu in Hr. injection Hr as <-. unfold IsDeleted, IsFrozen. cbn.
  destruct (u_DeletedAt u) eqn:Ed; [done|]. by destruct (u_FrozenAt u) eqn:Ef.
Qed.
(** A fault of the database is not one of the errors the service tells apart. *)
Definition faults_apart : Prop := forall t e b, db_fault t = Some (e, b) -> errors_Is e ErrMFANotEnrolled = false.
Definition gate_passed (u : User) (d : DB) (r : res (option TokenResponse)) : Prop :=
  match r with
  | Ok None => mfaSvc s = true -> mfa_enabled d (u_ID u) = false
  | Ok (Some resp) => tr_MFARequired resp = true /\ AccessToken resp = "" /\ RefreshToken resp = ""
  | Err _ => True
  end.
Lemma IsEnabled_spec id w : faults_apart -> wp (IsEnabled id) (fun r w' => w_db w' = w_db w /\ (r = Ok false -> mfa_enabled (w_db w) id = false)) w.
Proof using.
  intros Hf. unfold wp, IsEnabled, mfa_enabled. cbn. destruct (db_fault (w_tick w)) as [[e b]|] eqn:Ef; cbn.
  - rewrite (Hf _ _ _ Ef). by destruct b.
  - destruct (user_mfa (w_db w) !! id) as [e|]; cbn; [|done]. split; [done|]. by intros [= <-].
Qed.
Lemma policy_reads id : steps_in (db_in eq) (activeWorkspaceRequiresMFA s id).
Proof using. read_only. Qed.
Lemma loginMFAGate_gate u w : faults_apart -> wp (loginMFAGate s u) (fun r w' => w_db w' = w_db w /\ gate_passed u (w_db w) r) w.
Proof using.
  intros Hf. apply wp_try. eapply wp_mono; [apply (wp_frame eq), policy_reads|]. intros [req|e] w1 E1; [|done].
  apply wp_try. destruct (mfaSvc s) eqn:Em.
  - apply wp_wrap. eapply wp_mono; [by apply IsEnabled_spec|]. intros [[]|e] w2 [E2 He]; cbn [res_map_err].
    + apply wp_try, wp_wrap. eapply wp_mono; [apply (wp_frame eq); read_only|]. intros [c|e] w3 E3; unfold db_in in *;
        [apply wp_ret|]; (split; [congruence|done]).
    + rewrite <- E1 in *. destruct req; cbn; [done|]. by split; [|intros _; apply He].
    + by rewrite E2, E1.
  - apply wp_ret. unfold db_in in E1. destruct req; (split; [done|]); [done|]. cbn. congruence.
Qed.

(** What an answer of a login says of the accounts before and after. *)
Definition admitted (rawEmail password : string) (w w' : World) (resp : TokenResponse) : Prop :=
  exists u u',
    vouched (w_db w) rawEmail password u /\ users (w_db w') !! u_ID u = Some u' /\ in_good_standing u' /\
    set_u_LastLoginAt None u' = set_u_LastLoginAt None u /\
    (redisClient s = true -> redis_fault (w_tick w) = None -> forall n,
       redis_get (time (w_tick w)) (login_failures_key (normalizeLoginEmail rawEmail)) (w_redis w) = Some (RInt n) -> n < 5) /\
    (if tr_MFARequired resp then AccessToken resp = "" /\ RefreshToken resp = ""
     else tr_UserID resp = u_ID u /\ (mfaSvc s = true -> mfa_enabled (w_db w') (u_ID u) = false)).

End Login.
