(* ===== verification/AuthAccess.v ===== *)
(** What the checks of a permission and of the access to a data source decide: the rules
    they implement, in terms of the assignments, the inheritance of roles and the levels. *)

From S2P Require Import Prelude GoStrings Interleave Tables AuthStore AuthLogic AuthText Sessions Users AuthTokens Rbac AuthService Workspaces.
From stdpp Require Import options.
#[local] Open Scope Z_scope.

(** * Inheritance *)

Definition inherits (d : DB) : relation string := fun parent child => (parent, child) ∈ role_inheritance d.

Lemma elem_of_inherited inh s r : r ∈ inherited inh s <-> exists p, p ∈ s /\ (p, r) ∈ inh.
Proof.
  unfold inherited. rewrite elem_of_list_to_set. split.
  - intros ([p r'] & -> & Hp)%list_elem_of_fmap. apply list_elem_of_In, List.filter_In in Hp as [Hp Hb].
    apply bool_decide_eq_true in Hb. exists p. split; [done|]. apply elem_of_elements, list_elem_of_In, Hp.
  - intros (p & Hp & Hr). apply list_elem_of_fmap. exists (p, r). split; [done|]. apply list_elem_of_In, List.filter_In.
    split; [by apply list_elem_of_In, elem_of_elements|by apply bool_decide_eq_true].
Qed.
Lemma size_targets (inh : gset (string * string)) : (size (set_map snd inh : gset string) <= size inh)%nat.
Proof.
  assert (Hl : forall l : list string, (size (list_to_set l : gset string) <= length l)%nat).
  { induction l as [|x l IH]; cbn; [by rewrite size_empty|]. rewrite size_union_alt, size_singleton.
    pose proof (subseteq_size (list_to_set l ∖ {[x]} : gset string) (list_to_set l)) as Hs. specialize (Hs ltac:(set_solver)). lia. }
  unfold set_map. etransitivity; [apply Hl|]. by rewrite length_fmap.
Qed.
Lemma effective_grows fuel inh s : s ⊆ effective_roles fuel inh s.
Proof. revert s. induction fuel as [|fuel IH]; intros s; cbn; [done|]. etransitivity; [|apply IH]. set_solver. Qed.
Lemma effective_sound fuel inh s r : r ∈ effective_roles fuel inh s -> exists r0, r0 ∈ s /\ rtc (fun p c => (p, c) ∈ inh) r0 r.
Proof.
  revert s. induction fuel as [|fuel IH]; intros s Hr; cbn in Hr; [by exists r|]. destruct (IH _ Hr) as (r1 & Hr1 & Hp).
  apply elem_of_union in Hr1 as [Hr1|Hr1]; [by exists r1|]. apply elem_of_inherited in Hr1 as (r0 & Hr0 & He).
  exists r0. split; [done|]. by eapply rtc_l.
Qed.
Definition closed_under (inh : gset (string * string)) (s : gset string) : Prop := inherited inh s ⊆ s.
Lemma effective_closed_same fuel inh s : closed_under inh s -> effective_roles fuel inh s = s.
Proof.
  intros Hc. induction fuel as [|fuel IH]; cbn; [done|]. by replace (s ∪ inherited inh s) with s by (unfold closed_under in Hc; set_solver).
Qed.
(** Every round but the last adds a role that some role inherits. *)
Lemma effective_closes fuel inh s : (size (set_map snd inh ∖ s : gset string) <= fuel)%nat -> closed_under inh (effective_roles fuel inh s).
Proof.
  revert s. induction fuel as [|fuel IH]; intros s Hs; cbn.
  - assert (set_map snd inh ∖ s ≡@{gset string} ∅) as Hn by (apply size_empty_inv; lia).
    intros r (p & Hp & Hr)%elem_of_inherited. destruct (decide (r ∈ s)) as [|Hns]; [done|]. exfalso.
    apply (not_elem_of_empty (C := gset string) r). rewrite <- Hn. apply elem_of_difference. split; [|done]. apply elem_of_map. by exists (p, r).
  - destruct (decide (inherited inh s ⊆ s)) as [Hc|Hc].
    + replace (s ∪ inherited inh s) with s by set_solver. by rewrite effective_closed_same.
    + apply IH. assert (exists x, x ∈ inherited inh s /\ x ∉ s) as (x & Hx & Hn).
      { destruct (decide (inherited inh s ∖ s ≡ ∅)) as [He|He]; [exfalso; apply Hc; set_solver|].
        apply set_choose in He as [x Hx]. exists x. set_solver. }
      assert (x ∈ (set_map snd inh : gset string)) as Hi.
      { apply elem_of_inherited in Hx as (p & _ & Hp). apply elem_of_map. by exists (p, x). }
      enough (size (set_map snd inh ∖ (s ∪ inherited inh s) : gset string) < size (set_map snd inh ∖ s : gset string))%nat by lia.
      apply subset_size. set_solver.
Qed.
(** The fuel of [closure] is enough: the roles it yields are those that can be reached. *)
Lemma elem_of_closure d s r : r ∈ closure d s <-> exists r0, r0 ∈ s /\ rtc (inherits d) r0 r.
Proof.
  split; [apply effective_sound|]. intros (r0 & H0 & Hp). unfold closure.
  assert (Hc : closed_under (role_inheritance d) (effective_roles (size (role_inheritance d)) (role_inheritance d) s)).
  { apply effective_closes. transitivity (size (set_map snd (role_inheritance d) : gset string)); [apply subseteq_size; set_solver|apply size_targets]. }
  revert Hp. apply (rtc_ind_r (fun r => r ∈ _) r0); [by apply effective_grows|]. intros r1 r2 _ Hr Hin. apply Hc, elem_of_inherited. by exists r1.
Qed.

(** * Permissions *)

(** A role among these, or one it inherits, grants the permission. *)
Definition grants (d : DB) (start : string -> Prop) (perm : string) : Prop :=
  exists r0 r pid p, start r0 /\ rtc (inherits d) r0 r /\ (r, pid) ∈ role_permissions d /\ permissions d !! pid = Some p /\ p_Name p = perm.
(** The roles a user is given everywhere, in a scope, and as a member of a workspace. *)
Definition given_globally (d : DB) (u r : string) : Prop := (exists sid, (u, r, ScopeGlobal, sid) ∈ user_roles d) /\ is_Some (roles d !! r).
Definition given_in (d : DB) (u st sid r : string) : Prop := (u, r, st, sid) ∈ user_roles d /\ is_Some (roles d !! r).
Definition given_by_workspace (d : DB) (u ws r : string) : Prop := exists m, members d !! (ws, u) = Some m /\ m_RoleID m = r /\ is_Some (roles d !! r).
Definition is_super (d : DB) (u : string) : Prop :=
  exists r0 r, given_globally d u r0 /\ rtc (inherits d) r0 r /\ roles d !! r = Some RoleSuperAdmin.
Definition permitted (d : DB) (u perm st sid : string) : Prop :=
  is_super d u \/ grants d (given_globally d u) perm \/
  (st <> "" /\ st <> ScopeGlobal /\ sid <> "" /\ grants d (given_in d u st sid) perm) \/
  (st = ScopeWorkspace /\ sid <> "" /\ grants d (given_by_workspace d u sid) perm).

Lemma elem_of_global_roles u d r : r ∈ global_roles u d <-> given_globally d u r.
Proof.
  unfold global_roles, given_globally. rewrite elem_of_list_to_set, list_elem_of_omap. split.
  - intros ([[[u' r'] st] sid] & He & Hc). apply elem_of_elements in He.
    destruct (String.eqb u' u) eqn:E1; [|done]. destruct (String.eqb st ScopeGlobal) eqn:E2; [|done]. cbn in Hc. case_bool_decide; [|done].
    injection Hc as ->. apply String.eqb_eq in E1, E2. subst. split; [by exists sid|done].
  - intros [[sid Hin] Hr]. exists (u, r, ScopeGlobal, sid). split; [by apply elem_of_elements|]. rewrite !String.eqb_refl. cbn. by rewrite bool_decide_eq_true_2.
Qed.
Lemma elem_of_scoped_roles u st sid d r : r ∈ scoped_roles u st sid d <-> given_in d u st sid r.
Proof.
  unfold scoped_roles, given_in. rewrite elem_of_list_to_set, list_elem_of_omap. split.
  - intros ([[[u' r'] st'] sid'] & He & Hc). apply elem_of_elements in He.
    destruct (String.eqb u' u) eqn:E1; [|done]. destruct (String.eqb st' st) eqn:E2; [|done]. destruct (String.eqb sid' sid) eqn:E3; [|done].
    cbn in Hc. case_bool_decide; [|done]. injection Hc as ->. apply String.eqb_eq in E1, E2, E3. by subst.
  - intros [Hin Hr]. exists (u, r, st, sid). split; [by apply elem_of_elements|]. rewrite !String.eqb_refl. cbn. by rewrite bool_decide_eq_true_2.
Qed.
Lemma elem_of_workspace_roles u ws d r : r ∈ workspace_roles u ws d <-> given_by_workspace d u ws r.
Proof.
  unfold workspace_roles, given_by_workspace. destruct (members d !! (ws, u)) as [m|] eqn:Em.
  - case_bool_decide as Hr; split.
    + intros ->%elem_of_singleton. by exists m.
    + intros (m' & [= ->] & <- & _). by apply elem_of_singleton.
    + done.
    + by intros (m' & [= ->] & <- & Hr').
  - split; [done|]. by intros (m' & ? & _).
Qed.

Lemma has_name_sorted l name : has_name (sorted_names l) name = true <-> name ∈ l.
Proof.
  unfold has_name, sorted_names. rewrite existsb_exists. split.
  - intros (x & Hx & ->%String.eqb_eq). apply list_elem_of_In in Hx. by rewrite merge_sort_Permutation, elem_of_remove_dups in Hx.
  - intros Hx. exists name. split; [|apply String.eqb_refl]. apply list_elem_of_In. by rewrite merge_sort_Permutation, elem_of_remove_dups.
Qed.
Lemma has_granted d s perm : has_name (granted d (closure d s)) perm = true <-> grants d (fun r => r ∈ s) perm.
Proof.
  unfold granted. rewrite has_name_sorted, list_elem_of_omap. split.
  - intros ([r pid] & Hin & Hc). cbn in Hc. case_bool_decide as Hr; [|done]. apply fmap_Some in Hc as (p & Hp & ->).
    apply elem_of_closure in Hr as (r0 & H0 & Hp0). exists r0, r, pid, p. split; [done|]. split; [done|]. split; [by apply elem_of_elements|done].
  - intros (r0 & r & pid & p & H0 & Hp0 & Hin & Hp & <-). exists (r, pid). split; [by apply elem_of_elements|]. cbn.
    rewrite bool_decide_eq_true_2 by (apply elem_of_closure; by exists r0). by rewrite Hp.
Qed.
Lemma has_role d s name : has_name (role_names d (closure d s)) name = true <->
  exists r0 r, r0 ∈ s /\ rtc (inherits d) r0 r /\ roles d !! r = Some name.
Proof.
  unfold role_names. rewrite has_name_sorted, list_elem_of_omap. split.
  - intros (r & Hr%elem_of_elements & Hn). apply elem_of_closure in Hr as (r0 & H0 & Hp). by exists r0, r.
  - intros (r0 & r & H0 & Hp & Hn). exists r. split; [|done]. apply elem_of_elements, elem_of_closure. by exists r0.
Qed.
Lemma grants_ext d P Q perm : (forall r, P r <-> Q r) -> grants d P perm <-> grants d Q perm.
Proof. intros HPQ. unfold grants. by setoid_rewrite HPQ. Qed.

Section Decisions.
Context `{Env}.

(** The statements of a database that does not fail. *)
Definition reliable : Prop := forall t, db_fault t = None.
Lemma wp_read {A} (f : Z -> DB -> res A) Q w : reliable ->
  (forall w', w_db w' = w_db w -> Q (f (time (w_tick w)) (w_db w)) w') -> wp (query f) Q w.
Proof using. intros Hf HQ. apply wp_query. intros w' r [E _] Hr _. rewrite (Hr (Hf _)). by apply HQ. Qed.
Lemma wp_answer key b (Q : res bool -> World -> Prop) w : (forall w', w_db w' = w_db w -> Q (Ok b) w') -> wp (answer key b) Q w.
Proof using. intros HQ. by apply HQ. Qed.

Lemma IsSuperAdmin_decides u w Q : reliable ->
  (forall b w', w_db w' = w_db w -> (b = true <-> is_super (w_db w) u) -> Q (Ok b) w') -> wp (IsSuperAdmin u) Q w.
Proof using.
  intros Hf HQ. apply wp_try, wp_wrap, wp_read; [done|]. intros w' E. cbn [res_map_err]. apply wp_ret, HQ; [done|].
  rewrite has_role. unfold is_super. by setoid_rewrite elem_of_global_roles.
Qed.

Lemma wp_names {A} ctx (f : DB -> A) Q w : reliable -> (forall w', w_db w' = w_db w -> Q (Ok (f (w_db w))) w') ->
  wp (wrap ctx (query (fun _ d => Ok (f d)))) Q w.
Proof using. intros Hf HQ. apply wp_wrap, wp_read; [done|]. intros w' E. by apply HQ. Qed.

(** The entry of the cache, while it is fresh. *)
Definition fresh_answer (key : string) (w : World) : option bool :=
  match check_cache (w_memory w) !! key with
  | Some (allowed, at_) => if time (w_tick w) - at_ <? checkTTL then Some allowed else None
  | None => None
  end.
Lemma has_global u perm d : has_name (granted d (closure d (global_roles u d))) perm = true <-> grants d (given_globally d u) perm.
Proof using. rewrite has_granted. apply grants_ext. intros r. apply elem_of_global_roles. Qed.
Lemma has_scoped u st sid perm d : has_name (granted d (closure d (scoped_roles u st sid d))) perm = true <-> grants d (given_in d u st sid) perm.
Proof using. rewrite has_granted. apply grants_ext. intros r. apply elem_of_scoped_roles. Qed.
Lemma has_workspace u ws perm d : has_name (granted d (closure d (workspace_roles u ws d))) perm = true <-> grants d (given_by_workspace d u ws) perm.
Proof using. rewrite has_granted. apply grants_ext. intros r. apply elem_of_workspace_roles. Qed.

Definition decides (P : Prop) (r : res bool) : Prop := exists b, r = Ok b /\ (b = true <-> P).
Lemma decides_true (P : Prop) : P -> decides P (Ok true).
Proof using. intros HP. by exists true. Qed.

Lemma scoped_part u st sid perm w : reliable ->
  wp (if negb (str_empty st) && negb (String.eqb st ScopeGlobal) && negb (str_empty sid) then GetUserScopedPermissions u st sid else Ret (Ok []))
    (fun r w' => w_db w' = w_db w /\ exists l, r = Ok l /\
       (has_name l perm = true <-> st <> "" /\ st <> ScopeGlobal /\ sid <> "" /\ grants (w_db w) (given_in (w_db w) u st sid) perm)) w.
Proof using.
  intros Hf. destruct (negb (str_empty st) && _ && _) eqn:Ec.
  - apply andb_true_iff in Ec as [[E1 E2]%andb_true_iff E3]. apply negb_true_iff in E1, E2, E3.
    apply str_empty_false in E1, E3. apply String.eqb_neq in E2.
    apply wp_names; [done|]. intros w' E. split; [done|]. eexists. split; [done|]. rewrite has_scoped. tauto.
  - apply wp_ret. split; [done|]. eexists. split; [done|]. split; [done|]. intros (E1 & E2 & E3 & _). exfalso.
    apply str_empty_false in E1, E3. apply String.eqb_neq in E2. by rewrite E1, E2, E3 in Ec.
Qed.
Lemma workspace_part u st sid perm w : reliable ->
  wp (if String.eqb st ScopeWorkspace && negb (str_empty sid) then GetUserWorkspacePermissions u sid else Ret (Ok []))
    (fun r w' => w_db w' = w_db w /\ exists l, r = Ok l /\
       (has_name l perm = true <-> st = ScopeWorkspace /\ sid <> "" /\ grants (w_db w) (given_by_workspace (w_db w) u sid) perm)) w.
Proof using.
  intros Hf. destruct (String.eqb st _ && _) eqn:Ec.
  - apply andb_true_iff in Ec as [E1%String.eqb_eq E2%negb_true_iff]. apply str_empty_false in E2.
    apply wp_names; [done|]. intros w' E. split; [done|]. eexists. split; [done|]. rewrite has_workspace. tauto.
  - apply wp_ret. split; [done|]. eexists. split; [done|]. split; [done|]. intros (E1 & E2 & _). exfalso.
    apply str_empty_false in E2. apply String.eqb_eq in E1. by rewrite E1, E2 in Ec.
Qed.

(** C13: A check of a permission whose answer is not in the cache, on a database that does not
    fail, decides exactly the rule: the user is a super administrator, or a role given
    everywhere, in the scope or by the membership of the workspace, or one such a role
    inherits through any number of steps, grants the permission.  A fresh entry of the cache
    is the answer. *)
Theorem Check_decides u perm st sid w (Hu : u <> "") (Hp : perm <> "") (Hf : reliable) :
  match fresh_answer (checkCacheKey u perm st sid) w with
  | Some allowed => (exec (Check_ u perm st sid) w).2 = Ok allowed
  | None => decides (permitted (w_db w) u perm st sid) (exec (Check_ u perm st sid) w).2
  end.
Proof using.
  unfold Check_. apply str_empty_false in Hu as ->, Hp as ->. cbn [orb].
  match goal with |- context [exec (prog_bind _ ?k) w] => set (F := k) end.
  assert (Hmiss : forall w', w_db w' = w_db w -> wp (F None) (fun r _ => decides (permitted (w_db w) u perm st sid) r) w').
  2: { rewrite exec_bind. cbn. unfold fresh_answer. destruct (check_cache _ !! _) as [[allowed at_]|]; [destruct (_ <? _)|]; [done|by apply Hmiss|by apply Hmiss]. }
  intros w1 E1. unfold F, permitted. clear F. apply wp_try, IsSuperAdmin_decides; [done|]. intros super w2 E2 Hs. rewrite E1 in *.
  destruct super; [apply wp_answer; intros; apply decides_true; left; by apply Hs|].
  apply wp_try, wp_names; [done|]. intros w3 E3. rewrite E2 in *. destruct (has_name _ perm) eqn:Eg.
  { apply wp_answer; intros; apply decides_true. right; left. by apply has_global. }
  apply wp_try. eapply wp_mono; [by apply scoped_part|]. rewrite E3. intros ? w4 [E4 (scoped & -> & Hsc)]; cbn beta iota.
  destruct (has_name scoped perm) eqn:Esc; [apply wp_answer; intros; apply decides_true; right; right; left; by apply Hsc|].
  apply wp_try. eapply wp_mono; [by apply workspace_part|]. rewrite E4. intros ? w5 [E5 (ws & -> & Hws)]; cbn beta iota.
  apply wp_answer. intros _ _. eexists. split; [done|]. rewrite Hws. split; [auto|].
  rewrite <- not_true_iff_false in Eg, Esc. rewrite has_global in Eg. rewrite Hsc in Esc. rewrite <- Hs. intuition congruence.
Qed.

(** * Data sources *)

(** The rows the checks rely on: one for a user and a data source; and, for a user and a data
    source, levels of the workspaces they share that are spelled in lower case. *)
Definition access_rows (d : DB) : Prop :=
  forall k k' a a', datasource_access d !! k = Some a -> datasource_access d !! k' = Some a' ->
    da_UserID a = da_UserID a' -> da_DatasourceID a = da_DatasourceID a' -> a = a'.
Definition plain_level (l : string) : Prop := l ∈ ["read"; "write"; "admin"].
Definition plain_levels (d : DB) (u ds : string) : Prop := forall ws l,
  workspace_datasources d !! (ws, ds) = Some l -> is_Some (members d !! (ws, u)) -> plain_level l.

(** What a user has for a data source, by name or as a member of a workspace. *)
Definition has_level (d : DB) (u ds : string) (n : Z) : Prop :=
  (exists k a, datasource_access d !! k = Some a /\ da_UserID a = u /\ da_DatasourceID a = ds /\ n <= rank (da_AccessLevel a)) \/
  (exists ws l, workspace_datasources d !! (ws, ds) = Some l /\ is_Some (members d !! (ws, u)) /\ n <= rank l).

Lemma direct_level_spec d u ds n : access_rows d ->
  match direct_level u ds d with Some l => n <=? rank l | None => false end = true <->
  exists k a, datasource_access d !! k = Some a /\ da_UserID a = u /\ da_DatasourceID a = ds /\ n <= rank (da_AccessLevel a).
Proof using.
  intros Ho. unfold direct_level. destruct (select_one _ _) as [a|] eqn:Ea.
  - apply select_one_Some in Ea as (k & Hk & [E1%String.eqb_eq E2%String.eqb_eq]%andb_true_iff). rewrite Z.leb_le. split; [intros Hn; by exists k, a|].
    intros (k' & a' & Hk' & E1' & E2' & Hn). by rewrite (Ho _ _ _ _ Hk Hk'); [| congruence | congruence].
  - split; [done|]. intros (k & a & Hk & E1 & E2 & _). eapply select_one_None in Ea; [|done]. cbn in Ea.
    by rewrite E1, E2, !String.eqb_refl in Ea.
Qed.
Lemma elem_of_workspace_levels u ds d l : l ∈ workspace_levels u ds d <->
  exists ws, workspace_datasources d !! (ws, ds) = Some l /\ is_Some (members d !! (ws, u)).
Proof using.
  unfold workspace_levels. rewrite list_elem_of_omap. split.
  - intros ([[ws ds'] l'] & Hin & Hc). apply elem_of_map_to_list in Hin. destruct (String.eqb ds' ds) eqn:E; [|done]. cbn in Hc.
    case_bool_decide; [|done]. injection Hc as ->. apply String.eqb_eq in E as ->. by exists ws.
  - intros (ws & Hl & Hm). exists (ws, ds, l). split; [by apply elem_of_map_to_list|]. rewrite String.eqb_refl. cbn. by rewrite bool_decide_eq_true_2.
Qed.
Lemma plain_rank l : plain_level l -> sql_rank l = rank l.
Proof using. unfold plain_level. intros Hl. set_unfold in Hl. by destruct Hl as [->|[->|[->|[]]]]. Qed.
(** The best level is one of them, and none is better. *)
Lemma best_level_spec (l : list string) : match best_level l with
  | Some x => x ∈ l /\ forall y, y ∈ l -> sql_rank y <= sql_rank x
  | None => l = []
  end.
Proof using.
  induction l as [|x l IH]; cbn; [done|]. destruct (best_level l) as [y|].
  - destruct IH as [Hy Hb]. destruct (Z.ltb_spec (sql_rank x) (sql_rank y)) as [Hlt|Hge]; (split; [set_solver|]); intros z [->|Hz]%elem_of_cons; try lia; specialize (Hb _ Hz); lia.
  - subst. split; [set_solver|]. intros z [->|Hz]%elem_of_cons; [lia|set_solver].
Qed.
(** The best level that counts is one of them; where all are in lower case, none is higher. *)
Lemma workspace_level_spec d u ds n :
  let found := match best_level (workspace_levels u ds d) with Some l => n <=? rank l | None => false end = true in
  let given := exists ws l, workspace_datasources d !! (ws, ds) = Some l /\ is_Some (members d !! (ws, u)) /\ n <= rank l in
  (found -> given) /\ (plain_levels d u ds -> given -> found).
Proof using.
  cbv zeta. pose proof (best_level_spec (workspace_levels u ds d)) as Hb. destruct (best_level _) as [x|].
  - destruct Hb as [Hx Hb]. rewrite Z.leb_le. split.
    + intros Hn. pose proof Hx as (ws & Hl & Hm)%elem_of_workspace_levels. by exists ws, x.
    + intros Hp. assert (Hr : forall l, l ∈ workspace_levels u ds d -> sql_rank l = rank l)
        by (intros l (ws & Hl & Hm)%elem_of_workspace_levels; by eapply plain_rank, Hp).
      intros (ws & l & Hl & Hm & Hn). assert (l ∈ workspace_levels u ds d) as Hin by (apply elem_of_workspace_levels; by exists ws).
      specialize (Hb _ Hin). rewrite (Hr l), (Hr x) in Hb by done. lia.
  - split; [done|]. intros _ (ws & l & Hl & Hm & _). assert (l ∈ workspace_levels u ds d) as Hin by (apply elem_of_workspace_levels; by exists ws).
    rewrite Hb in Hin. set_solver.
Qed.

End Decisions.
