(* ===== verification/AuthDemo.v ===== *)
(** A small installation of the authentication service: the theorems applied to it, and what
    some requests do there. *)

From S2P Require Import Prelude GoStrings Interleave Tables AuthStore AuthLogic AuthText Sessions Users AuthTokens Mfa Rbac AuthService AuthAccounts Workspaces Passkeys AuthConcurrent AuthLogin AuthAccess.
From stdpp Require Import options.
#[local] Open Scope Z_scope.

(** A clock that advances a second at each step, nothing that fails, texts for hashes. *)
#[local] Instance demo_env : Env := {|
  time t := Z.of_nat t * AuthTokens.second;
  db_fault _ := None;
  redis_fault _ := None;
  mail_fault _ := None;
  random t _ := Ok ("random-" +:+ Itoa (Z.of_nat t));
  Base64URL b := b;
  RawBase64URL b := b;
  Base32 b := b;
  new_id t i := "id-" +:+ Itoa (Z.of_nat t) +:+ "-" +:+ Itoa (Z.of_nat i);
  sha256_hex b := "sha256:" +:+ b;
  sha256_prefix b := "sha256:" +:+ b;
  bcrypt_generate _ p := Ok ("bcrypt:" +:+ p);
  bcrypt_compare hash p := String.eqb hash ("bcrypt:" +:+ p);
  NFKC x := x;
  ParseAddress x := Ok ("", x);
  SplitHost _ := None;
  inet_ok _ := true;
|}.
#[local] Instance demo_unicode : Unicode := {|
  LowerText x := x; UpperText x := x; IsUpper _ := false; IsLower _ := true; IsDigit _ := false; IsLetter _ := true;
  IsPunct _ := false; IsSymbol _ := false; IsControl _ := false;
|}.
#[local] Instance demo_totp : Totp := {| Base32Decode x := Ok x; hmac_sha1 _ _ := repeat 0 20 |}.
#[local] Instance demo_outside : Outside := {|
  SignedString c := Ok ("token of " +:+ jc_Subject c);
  ParseWithClaims issuer audience now t :=
    Ok (mkClaims "" [] "" [] false "" (String.substring 9 (String.length t - 9) t) issuer [audience] now now now);
  ldap_Authenticate _ _ _ _ := Err ErrLDAPInvalidCredentials;
  marshal_response r := Ok (AccessToken r +:+ " " +:+ RefreshToken r);
  unmarshal_response x := Ok (mkTokenResponse x x "" "" [] false "" false false);
|}.
#[local] Instance demo_webauthn : WebAuthnLib := {|
  RawURLDecode x := Ok x;
  URLDecode x := Ok x;
  assertion_id x := Ok x;
  assertion_auth_data _ := None;
  verify_assertion creds _ _ := match creds with c :: _ => Ok c | [] => Err (EMsg "no credential") end;
  verify_registration _ _ _ := Err (EMsg "none");
  begin_ceremony _ _ := Ok (mkSessionData "challenge" None);
  FormatMinute _ := "now";
|}.

Definition demo_config : Config := mkConfig (10 * day) hour "biqly" "biqly" 2 0 30 (60 * AuthTokens.second) (mkPolicy 8 64 false false false false 0) [] (mkSessionManager (30 * day) 0)
  true false false true true true false true true.

(** Ann, whose account is as [f] makes it; her workspace, her passkey, her password. *)
Definition ann : User := mkUser "ann" "ann@x" None (Some "Ann") None (Some "bcrypt:secret") true true 0 0 None None None None None None.
Definition empty_db : DB :=
  mkDB ∅ ∅ ∅ ∅ ∅ ∅ ∅ ∅ ∅ ∅ [] ∅ [] ∅ ∅ ∅ ∅ ∅ ∅ ∅ ∅ ∅ ∅ ∅ ∅ (Some true) None [].
Definition demo_db (f : User -> User) : DB :=
  let d := set_users {["ann" := f ann]} empty_db in
  let d := set_workspaces {["ws" := mkWorkspace "ws" "Ann's" "ann" None true false false "ann" 0 0]} d in
  let d := set_roles {["r1" := "viewer"; "r2" := "editor"; "r3" := "admin"]} d in
  let d := set_role_inheritance {[("r2", "r1"); ("r3", "r2")]} d in
  let d := set_permissions {["p1" := mkPermission "query.run" "query" "run"]} d in
  let d := set_role_permissions {[("r1", "p1")]} d in
  let d := set_user_roles {[("ann", "r3", ScopeGlobal, no_scope)]} d in
  let d := set_passkeys {["k" := mkPasskey "k" "ann" "cred" "key" 1 None 0 None]} d in
  set_magic_links {["sha256:plain" := mkMagicLink "ann@x" (Some "ann") (600 * AuthTokens.second) None None]} d.
Definition world (d : DB) : World := mkWorld d ∅ [] (mkMemory ∅ ∅) 0.
Definition answered {A} (r : res A) : bool := match r with Ok _ => true | Err _ => false end.

(** A session of Ann's and the same one revoked. *)
Definition open_session : Session := mkSession "s1" "ann" (HashToken "t1") None None None 0 (10 * day) 0 (30 * day) None.
Definition with_session (x : Session) : DB := set_sessions {["s1" := x]} (demo_db id).

(** * What the model does *)

Example login_ok : answered (exec (Login demo_config "ann@x" "secret" None None) (world (demo_db id))).2 = true /\
  answered (exec (Login demo_config "ann@x" "wrong" None None) (world (demo_db id))).2 = false /\
  (exec (Login demo_config "ann@x" "secret" None None) (world (demo_db (set_u_FrozenAt (Some 0))))).2 = Err ErrAccountFrozen.
Proof. vm_compute. done. Qed.

(** The fifth wrong password locks the address. *)
Example login_locks : let w := fold_left (fun w p => (exec (Login demo_config "ann@x" p None None) w).1) (repeat "wrong" 5) (world (demo_db id)) in
  (exec (Login demo_config "ann@x" "secret" None None) w).2 = Err ErrAccountLocked.
Proof. vm_compute. done. Qed.

(** A frozen account signs in where only its activity is looked at: by an identity provider
    and, after the first factor, with the second. *)
Example oauth_admits_frozen : answered (exec (LoginOrRegisterOAuth demo_config "google" "ann@x" "Ann" "sub" true None None)
  (world (demo_db (set_u_FrozenAt (Some 0))))).2 = true.
Proof. vm_compute. done. Qed.

(** A passkey signs in an account that is not active and is deleted. *)
Example passkey_admits_inactive :
  fst (exec (handlePasskeyLoginFinish demo_config (mkSessionData "challenge" None) "cred" None None)
    (world (demo_db (fun u => set_u_DeletedAt (Some 0) (set_u_IsActive false u))))).2 = 200.
Proof. vm_compute. done. Qed.

(** A challenge that was never stored is no obstacle to a passkey. *)
Example challenge_not_needed : challenges (demo_db id) = [] /\
  answered (exec (FinishLogin (mkSessionData "challenge" None) "cred") (world (demo_db id))).2 = true.
Proof. vm_compute. done. Qed.

(** A code of the exchange is redeemed twice. *)
Example oauth_code_twice :
  let '(w, code) := exec (IssueOAuthCallbackCode demo_config (mkTokenResponse "a" "r" "ann" "ann@x" [] false "" false false)) (world (demo_db id)) in
  match code with
  | Ok code =>
      let '(w, first) := exec (RedeemOAuthCallbackCode demo_config code) w in
      let '(w, second_) := exec (RedeemOAuthCallbackCode demo_config code) w in
      let '(_, third) := exec (RedeemOAuthCallbackCode demo_config code) w in
      (answered first, answered second_, answered third) = (true, true, false)
  | Err _ => False
  end.
Proof. vm_compute. done. Qed.

(** Enrolling again turns off a second factor that is on, without a code. *)
Example enroll_disables :
  let d := set_user_mfa {["ann" := mkEnrollment "totp" "S" [] [] true (Some 0) None 0]} (demo_db id) in
  (exec (IsEnabled "ann") (world d)).2 = Ok true /\
  (exec (IsEnabled "ann") (exec (handleMFAEnroll demo_config "biqly" "ann" "") (world d)).1).2 = Ok false.
Proof. vm_compute. done. Qed.

(** Two rotations of one token that interleave both succeed. *)
Definition refresh_pool : World * list (prog World Outcome) :=
  (world (with_session open_session), map (serve demo_config false) [Do_Refresh "t1" None None; Do_Refresh "t1" None None]).
Definition refreshed (m : prog World Outcome) : bool := match m with Ret (Refreshed _ (Ok _)) => true | _ => false end.
Example rotation_races : exists c, interleaves refresh_pool c /\ map refreshed c.2 = [true; true].
Proof.
  exists (follow (List.concat (repeat [0%nat; 1%nat] 20)) refresh_pool). split; [apply follow_interleaves|]. vm_compute. done.
Qed.

(** A level that was stored in capitals counts for nothing beside a lower one. *)
Example capital_level_loses :
  let d := set_members {[("w1", "ann") := mkMembership "r1" 0 None; ("w2", "ann") := mkMembership "r1" 0 None]} (demo_db id) in
  let d1 := set_workspace_datasources {[("w1", "ds") := "ADMIN"]} d in
  let d2 := set_workspace_datasources {[("w1", "ds") := "ADMIN"; ("w2", "ds") := "read"]} d in
  (exec (CheckAccess "ann" "ds" "write") (world d1)).2 = Ok tt /\
  (exec (CheckAccess "ann" "ds" "write") (world d2)).2 = Err ErrDatasourceAccessDenied.
Proof. vm_compute. done. Qed.

(** * The theorems here *)

Definition link_pool : World * list (prog World Outcome) :=
  (world (demo_db id), map (serve demo_config false) [Do_ConsumeMagicLink "plain" None None; Do_ConsumeMagicLink "plain" None None]).
Definition in_turn : list nat := List.concat (repeat [0%nat; 1%nat] 30).
Lemma magic_link_used_once_witness : winners (redeems "sha256:plain") (follow in_turn link_pool).2 = 1%nat /\
  (winners (redeems "sha256:plain") (follow in_turn link_pool).2 <= 1)%nat.
Proof.
  split; [vm_compute; reflexivity|]. exact (magic_link_used_once demo_config false "sha256:plain" _ _ _ (follow_interleaves in_turn link_pool)).
Defined.

Lemma one_session_keys x : s_ID x = "s1" -> session_keys (sessions (with_session x)).
Proof.
  intros Hid. unfold with_session. cbn. split.
  - intros id y [<- <-]%lookup_singleton_Some. done.
  - intros i j y z [<- _]%lookup_singleton_Some [<- _]%lookup_singleton_Some. done.
Qed.
Definition closed_session : Session := set_s_RevokedAt (Some 5) open_session.
Definition dead_pool : World * list (prog World Outcome) :=
  (world (with_session closed_session), map (serve demo_config false) [Do_Refresh "t1" None None; Do_Login "ann@x" "secret" None None]).
Lemma closed_is_dead : dead_token (HashToken "t1") (world (with_session closed_session)).
Proof.
  split; [by exists "s1", closed_session|]. intros id x Hx _. unfold with_session in Hx. cbn in Hx. by apply lookup_singleton_Some in Hx as [_ <-].
Qed.
Lemma revoked_token_never_exchanged_witness :
  existsb (fun m => match m with Ret (Refreshed _ _) => true | _ => false end) (follow in_turn dead_pool).2 = true /\
  forall o, Ret o ∈ (follow in_turn dead_pool).2 -> never_exchanged (HashToken "t1") o.
Proof.
  split; [vm_compute; reflexivity|].
  exact (revoked_token_never_exchanged demo_config false _ _ _ _ closed_is_dead (follow_interleaves in_turn dead_pool)).
Defined.
Lemma sessions_stay_distinct_witness : session_keys (sessions (w_db (follow in_turn refresh_pool).1)).
Proof.
  exact (sessions_stay_distinct demo_config false (world (with_session open_session)) _ _ (one_session_keys open_session eq_refl) (follow_interleaves in_turn refresh_pool)).
Defined.

Definition rotated : World * res string := exec (RotateSession (sessionMgr demo_config) "t1" (10 * day) None None) (world (with_session open_session)).
Lemma RotateSession_exchanges_witness : answered rotated.2 = true /\
  match rotated with
  | (w', Ok new) => rotated_to (sessionMgr demo_config) "t1" (10 * day) None None (world (with_session open_session)) w' new
  | (_, Err _) => True
  end.
Proof.
  split; [vm_compute; reflexivity|].
  exact (RotateSession_exchanges (sessionMgr demo_config) "t1" (10 * day) None None (world (with_session open_session)) (one_session_keys open_session eq_refl)).
Defined.
Lemma RotateSession_replay_witness :
  (exec (RotateSession (sessionMgr demo_config) "t1" (10 * day) None None) (world (with_session closed_session))).2 = Err ErrSessionRevoked /\
  forall id' y, sessions (w_db (exec (RotateSession (sessionMgr demo_config) "t1" (10 * day) None None) (world (with_session closed_session))).1) !! id' = Some y ->
    s_UserID y = "ann" -> unrevoked y = false.
Proof.
  split; [vm_compute; reflexivity|].
  exact (proj2 (RotateSession_replay (sessionMgr demo_config) "t1" (10 * day) None None (world (with_session closed_session)) "s1" closed_session
    (one_session_keys closed_session eq_refl) eq_refl eq_refl eq_refl (fun _ => eq_refl))).
Defined.
Lemma EnforceMaxSessions_keeps_recent_witness :
  active_of "ann" (time 0) (w_db (exec (EnforceMaxSessions "ann" 1) (world (with_session open_session))).1) ≡ₚ [open_session].
Proof.
  exact (proj1 (EnforceMaxSessions_keeps_recent "ann" 1 (world (with_session open_session)) (one_session_keys open_session eq_refl) eq_refl eq_refl)).
Defined.

Lemma demo_keyed f : u_ID (f ann) = "ann" -> users_keyed (demo_db f).
Proof. intros Hf k u Hu. cbn in Hu. by apply lookup_singleton_Some in Hu as [<- <-]. Qed.
Lemma demo_apart : faults_apart.
Proof. done. Qed.
Definition signed_in : World * res TokenResponse := exec (Login demo_config "ann@x" "secret" None None) (world (demo_db id)).

(** Ann's role inherits the one that grants the permission, two steps away. *)
Lemma Check_decides_witness : (exec (Check_ "ann" "query.run" "" "") (world (demo_db id))).2 = Ok true /\
  match fresh_answer (checkCacheKey "ann" "query.run" "" "") (world (demo_db id)) with
  | Some allowed => (exec (Check_ "ann" "query.run" "" "") (world (demo_db id))).2 = Ok allowed
  | None => decides (permitted (w_db (world (demo_db id))) "ann" "query.run" "" "") (exec (Check_ "ann" "query.run" "" "") (world (demo_db id))).2
  end.
Proof.
  split; [vm_compute; reflexivity|].
  exact (Check_decides "ann" "query.run" "" "" (world (demo_db id)) ltac:(discriminate) ltac:(discriminate) (fun _ => eq_refl)).
Defined.
Definition access_db : DB :=
  set_workspace_datasources {[("w1", "ds") := "write"]} (set_members {[("w1", "ann") := mkMembership "r1" 0 None]} (demo_db id)).
