(* ===== verification/AIJobs.v ===== *)
(** The table of AI jobs and the statements on it ([internal/metadata/ai_jobs.go]).

    A job is a row of [ai_jobs] ([migrations/019a] to [047a]): who asked for what, how far
    it has got, and what came out.  Every statement of the repository is one atomic step on
    the table ([prog JobWorld]).  A text that may be null is read as the empty text, as
    [scanAIJobFromScanner] reads it.  An instant is a number of nanoseconds.  The clock, the
    failures and the keys are those of an arbitrary run ([JobEnv]): the step a program is at
    determines them, and a statement that fails may have been carried out all the same. *)

From S2P Require Import Prelude GoStrings Interleave Tables.
From stdpp Require Import options.
#[local] Open Scope Z_scope.

(** * Jobs *)

Definition AIJobStatusPending : string := "pending".
Definition AIJobStatusQueued : string := "queued".
Definition AIJobStatusRunning : string := "running".
Definition AIJobStatusSucceeded : string := "succeeded".
Definition AIJobStatusFailed : string := "failed".
Definition AIJobStatusCancelled : string := "cancelled".

Record AIJob : Type := mkAIJob {
  j_ID : string;
  j_ClientSessionID : string;
  j_UserID : option string;
  j_Locale : string;
  j_Kind : string;
  j_Status : string;
  j_Phase : string;
  j_PhaseMessage : string;
  j_ProgressPct : Z;
  j_DatasourceID : option string;
  j_ScopeSchemas : list string;
  j_ProgressJSON : option string;
  j_RequestJSON : string;
  j_ResultJSON : option string;
  j_ErrorMessage : string;
  j_CreatedAt : Z;
  j_UpdatedAt : Z;
  j_StartedAt : option Z;
  j_FinishedAt : option Z;
}.

(** What an update of a row may touch; the rest is as the job was made. *)
Definition set_state (status phase message : string) (pct : Z) (progress result : option string) (error : string)
    (updated : Z) (started finished : option Z) (j : AIJob) : AIJob :=
  mkAIJob (j_ID j) (j_ClientSessionID j) (j_UserID j) (j_Locale j) (j_Kind j) status phase message pct
    (j_DatasourceID j) (j_ScopeSchemas j) progress (j_RequestJSON j) result error (j_CreatedAt j) updated started finished.

Definition waiting_statuses : list string := [AIJobStatusPending; AIJobStatusQueued].
Definition active_statuses : list string := waiting_statuses ++ [AIJobStatusRunning].
Definition terminal_statuses : list string := [AIJobStatusSucceeded; AIJobStatusFailed; AIJobStatusCancelled].
Definition waiting (j : AIJob) : bool := str_in (j_Status j) waiting_statuses.
Definition active (j : AIJob) : bool := str_in (j_Status j) active_statuses.

(** The constraints of the table. *)
Definition job_kinds : list string := ["query"; "preview"; "run"; "describe"; "describe_batch"; "embed_metadata"].
Definition status_check (j : AIJob) : bool := str_in (j_Status j) (active_statuses ++ terminal_statuses).
Definition kind_check (j : AIJob) : bool := str_in (j_Kind j) job_kinds.
Definition progress_check (j : AIJob) : bool := (0 <=? j_ProgressPct j) && (j_ProgressPct j <=? 100).
Definition check_job (j : AIJob) : res unit :=
  if negb (kind_check j) then Err (violates "ai_jobs_kind_check") else
  if negb (status_check j) then Err (violates "ai_jobs_status_check") else
  if negb (progress_check j) then Err (violates "ai_jobs_progress_pct_check") else
  Ok tt.

Abbreviation Table := (gmap string AIJob).

(** * The world of the jobs *)

(** An entry of the audit log: who did what to whose job. *)
Record JobEvent : Type := mkJobEvent { ev_UserID : string; ev_JobID : string; ev_Kind : string; ev_Owner : option string }.

Record JobWorld : Type := mkJobWorld {
  jobs : Table;
  (** the messages published, and the entries written, in order *)
  published : list string;
  audited : list JobEvent;
  (** the steps made so far *)
  j_tick : nat;
}.

Class JobEnv : Type := {
  jtime : nat -> Z;
  jdb_fault : nat -> option (goerr * bool);
  publish_fault : nat -> option goerr;
  (** [uuid.NewString] *)
  new_uuid : nat -> string;
  (** what the database makes of a text: a key, a document, a member of a document; whether a
      text matches a pattern ([ILIKE]); what a [nil] slice of bytes is as a document *)
  uuid : string -> res string;
  jsonb : string -> res string;
  member : string -> string -> option string;
  ilike : string -> string -> bool;
  nil_jsonb : res (option string);
}.

Section Repository.
Context `{JobEnv}.

Definition jnext (w : JobWorld) : JobWorld := mkJobWorld (jobs w) (published w) (audited w) (S (j_tick w)).
Definition with_jobs (t : Table) (w : JobWorld) : JobWorld := mkJobWorld t (published w) (audited w) (S (j_tick w)).

(** A statement at the instant [NOW()]. *)
Definition statement {A} (f : Z -> Table -> res (Table * A)) : prog JobWorld (res A) :=
  atomic (fun w =>
    let t := j_tick w in
    let '(rows, r) := match f (jtime t) (jobs w) with Ok (rows, a) => (rows, Ok a) | Err e => (jobs w, Err e) end in
    match jdb_fault t with
    | Some (e, applied) => (if applied then with_jobs rows w else jnext w, Err e)
    | None => (with_jobs rows w, r)
    end).
Definition reading {A} (f : Z -> Table -> res A) : prog JobWorld (res A) :=
  statement (fun now t => let? a := f now t in Ok (t, a)).
(** [UPDATE ai_jobs SET f WHERE P]: the rows affected, unless one of them breaks a constraint. *)
Definition update_jobs (P : AIJob -> bool) (f : AIJob -> AIJob) (t : Table) : res (Table * nat) :=
  let? _ := res_mapM (fun j => check_job (f j)) (select P t) in
  Ok (update_where P f t, affected P t).
(** [WHERE id = $1 AND P] *)
Definition with_id (id : string) (P : AIJob -> bool) (j : AIJob) : bool := String.eqb (j_ID j) id && P j.

Definition nullableLocale (locale : string) : string := TrimSpace locale.
Definition nullableRawJSON (raw : string) : option string := if str_empty raw then None else Some raw.
(** [$n::jsonb] of a text that may be null *)
Definition jsonb_opt (raw : option string) : res (option string) :=
  match raw with Some s => let? d := jsonb s in Ok (Some d) | None => Ok None end.
Definition uuid_opt (id : option string) : res (option string) :=
  match id with Some s => let? u := uuid s in Ok (Some u) | None => Ok None end.

Definition insert_job (job : AIJob) (now : Z) (t : Table) : res (Table * unit) :=
  let? id := uuid (j_ID job) in
  let? ds := uuid_opt (j_DatasourceID job) in
  let? request := jsonb (j_RequestJSON job) in
  let row := mkAIJob id (j_ClientSessionID job) (j_UserID job) (nullableLocale (j_Locale job)) (j_Kind job) (j_Status job) (j_Phase job)
    (j_PhaseMessage job) (j_ProgressPct job) ds (j_ScopeSchemas job) None request None "" now now None None in
  let? _ := check_job row in
  if bool_decide (is_Some (t !! id)) then Err (violates "ai_jobs_pkey") else
  Ok (<[id := row]> t, tt).
Definition CreateAIJob (job : option AIJob) : prog JobWorld (res unit) :=
  match job with
  | None => Ret (Err (EMsg "job is nil"))
  | Some job => wrap "create ai job" (statement (insert_job job))
  end.

Definition GetAIJob (id : string) : prog JobWorld (res AIJob) :=
  reading (fun _ t => let? id := uuid id in row_or ErrNoRows (t !! id)).

(** [ORDER BY created_at DESC], [ORDER BY created_at ASC], [ORDER BY updated_at ASC] *)
Definition newer (j k : AIJob) : Prop := j_CreatedAt k <= j_CreatedAt j.
Definition older (j k : AIJob) : Prop := j_CreatedAt j <= j_CreatedAt k.
Definition staler (j k : AIJob) : Prop := j_UpdatedAt j <= j_UpdatedAt k.
#[global] Instance newer_dec j k : Decision (newer j k).
Proof using. unfold newer. apply _. Defined.
#[global] Instance older_dec j k : Decision (older j k).
Proof using. unfold older. apply _. Defined.
#[global] Instance staler_dec j k : Decision (staler j k).
Proof using. unfold staler. apply _. Defined.

Definition listAIJobs (P : AIJob -> bool) (activeOnly : bool) (limit : Z) : prog JobWorld (res (list AIJob)) :=
  let limit := if limit <=? 0 then 50 else limit in
  wrap "list ai jobs" (reading (fun _ t =>
    Ok (take (Z.to_nat limit) (merge_sort newer (select (fun j => P j && (negb activeOnly || active j)) t))))).
Definition ListAIJobsBySession (sessionID : string) : bool -> Z -> prog JobWorld (res (list AIJob)) :=
  listAIJobs (fun j => String.eqb (j_ClientSessionID j) sessionID).
Definition ListAIJobsByUser (userID : string) : bool -> Z -> prog JobWorld (res (list AIJob)) :=
  listAIJobs (fun j => is_some_eq (j_UserID j) userID).

Record AIJobsAdminFilter : Type := mkAdminFilter {
  af_Status : string; af_Kind : string; af_UserID : string; af_Search : string; af_Limit : Z; af_Offset : Z }.
Definition admin_matches (f : AIJobsAdminFilter) (j : AIJob) : bool :=
  let search := "%" +:+ af_Search f +:+ "%" in
  (str_empty (af_Status f) || String.eqb (j_Status j) (af_Status f)) &&
  (str_empty (af_Kind f) || String.eqb (j_Kind j) (af_Kind f)) &&
  (str_empty (af_UserID f) || is_some_eq (j_UserID j) (af_UserID f)) &&
  (String.eqb search "%" || ilike (j_RequestJSON j) search || ilike (default "" (j_UserID j)) search).
(** [ORDER BY (status IN (...)) DESC, created_at DESC] *)
Definition admin_order (j k : AIJob) : Prop :=
  (active j = true /\ active k = false) \/ (active j = active k /\ newer j k).
#[global] Instance admin_order_dec j k : Decision (admin_order j k).
Proof using. unfold admin_order. apply _. Defined.
Definition ListAIJobsAdmin (f : AIJobsAdminFilter) : prog JobWorld (res (list AIJob)) :=
  let limit := if (af_Limit f <=? 0) || (500 <? af_Limit f) then 200 else af_Limit f in
  let offset := Z.max (af_Offset f) 0 in
  wrap "list ai jobs" (reading (fun _ t =>
    Ok (take (Z.to_nat limit) (drop (Z.to_nat offset) (merge_sort admin_order (select (admin_matches f) t)))))).
Definition CountAIJobsAdmin (f : AIJobsAdminFilter) : prog JobWorld (res Z) :=
  wrap "count ai jobs" (reading (fun _ t => Ok (Z.of_nat (affected (admin_matches f) t)))).

(** ** Progress *)

Definition UpdateAIJobProgressDetail (id status phase phaseMessage : string) (progressPct : Z) (progressJSON : string) : prog JobWorld (res unit) :=
  wrap "update ai job progress" (statement (fun now t =>
    let? id := uuid id in
    let? detail := jsonb_opt (nullableRawJSON progressJSON) in
    let? r := update_jobs (with_id id (fun _ => true)) (fun j =>
      set_state status phase phaseMessage progressPct (match detail with Some d => Some d | None => j_ProgressJSON j end)
        (j_ResultJSON j) (j_ErrorMessage j) now (j_StartedAt j) (j_FinishedAt j) j) t in
    Ok (r.1, tt))).
Definition UpdateAIJobProgress (id status phase phaseMessage : string) (progressPct : Z) : prog JobWorld (res unit) :=
  UpdateAIJobProgressDetail id status phase phaseMessage progressPct "".

(** [scope_schemas && $2] *)
Definition overlaps (l l' : list string) : bool := existsb (fun s => str_in s l') l.
(** A search for the oldest job that satisfies a condition; none is no error. *)
Definition find_oldest (ctx : string) (P : Table -> res (AIJob -> bool)) : prog JobWorld (res (option AIJob)) :=
  wrap ctx (reading (fun _ t => let? P := P t in Ok (head (merge_sort older (select P t))))).
Definition FindConflictingDescribeBatch (datasourceID : string) (scopeSchemas : list string) : prog JobWorld (res (option AIJob)) :=
  if str_empty datasourceID || bool_decide (scopeSchemas = []) then Ret (Ok None) else
  find_oldest "find conflicting describe batch" (fun _ =>
    let? ds := uuid datasourceID in
    Ok (fun j => String.eqb (j_Kind j) "describe_batch" && active j && is_some_eq (j_DatasourceID j) ds && overlaps (j_ScopeSchemas j) scopeSchemas)).
Definition FindConflictingEmbedMetadata (datasourceID modelID : string) : prog JobWorld (res (option AIJob)) :=
  let datasourceID := TrimSpace datasourceID in
  let modelID := TrimSpace modelID in
  if str_empty datasourceID then Ret (Ok None) else
  find_oldest "find conflicting embed metadata" (fun _ =>
    let? ds := uuid datasourceID in
    Ok (fun j => String.eqb (j_Kind j) "embed_metadata" && active j && is_some_eq (j_DatasourceID j) ds &&
      String.eqb (default "" (member (j_RequestJSON j) "model_id")) modelID)).

(** ** The states of a job *)

Definition mark_running (now : Z) (j : AIJob) : AIJob :=
  set_state AIJobStatusRunning "routing" "" 5 (j_ProgressJSON j) (j_ResultJSON j) (j_ErrorMessage j) now
    (Some (default now (j_StartedAt j))) (j_FinishedAt j) j.
Definition MarkAIJobRunning (id : string) : prog JobWorld (res unit) :=
  wrap "mark ai job running" (statement (fun now t =>
    let? id := uuid id in let? r := update_jobs (with_id id waiting) (mark_running now) t in Ok (r.1, tt))).
Definition TryMarkAIJobRunning (id : string) : prog JobWorld (res bool) :=
  wrap "mark ai job running" (statement (fun now t =>
    let? id := uuid id in let? r := update_jobs (with_id id active) (mark_running now) t in Ok (r.1, (0 <? r.2)%nat))).

Definition complete (result : option string) (now : Z) (j : AIJob) : AIJob :=
  set_state AIJobStatusSucceeded "completed" "" 100 (j_ProgressJSON j) result "" now (j_StartedAt j) (Some now) j.
(** [result] is [nil] when there is nothing to encode. *)
Definition CompleteAIJob (id : string) (result : option string) : prog JobWorld (res unit) :=
  wrap "complete ai job" (statement (fun now t =>
    let? id := uuid id in
    let? result := match result with Some raw => jsonb_opt (Some raw) | None => nil_jsonb end in
    let? r := update_jobs (with_id id (fun _ => true)) (complete result now) t in Ok (r.1, tt))).
Definition fail (message : string) (now : Z) (j : AIJob) : AIJob :=
  set_state AIJobStatusFailed "failed" "" (j_ProgressPct j) (j_ProgressJSON j) (j_ResultJSON j) message now (j_StartedAt j) (Some now) j.
Definition FailAIJob (id message : string) : prog JobWorld (res unit) :=
  wrap "fail ai job" (statement (fun now t =>
    let? id := uuid id in let? r := update_jobs (with_id id (fun _ => true)) (fail message now) t in Ok (r.1, tt))).

Definition cancel (now : Z) (j : AIJob) : AIJob :=
  set_state AIJobStatusCancelled "cancelled" "cancelled by user" 0 (j_ProgressJSON j) (j_ResultJSON j) (j_ErrorMessage j) now
    (j_StartedAt j) (Some now) j.
Definition CancelAIJob (id : string) : prog JobWorld (res bool) :=
  wrap "cancel ai job" (statement (fun now t =>
    let? id := uuid id in let? r := update_jobs (with_id id active) (cancel now) t in Ok (r.1, (0 <? r.2)%nat))).

Definition cancel_where (ctx : string) (P : Table -> res (AIJob -> bool)) : prog JobWorld (res Z) :=
  wrap ctx (statement (fun now t =>
    let? P := P t in let? r := update_jobs (fun j => P j && active j) (cancel now) t in Ok (r.1, Z.of_nat r.2))).
Definition CancelAIJobs (ids : list string) : prog JobWorld (res Z) :=
  if bool_decide (ids = []) then Ret (Ok 0) else
  cancel_where "cancel ai jobs" (fun _ => let? ids := res_mapM uuid ids in Ok (fun j => str_in (j_ID j) ids)).
(** [($6 <> '' AND user_id = $6) OR ($7 <> '' AND client_session_id = $7)] *)
Definition owner_matches (userID sessionID : string) (j : AIJob) : bool :=
  negb (str_empty userID) && is_some_eq (j_UserID j) userID || negb (str_empty sessionID) && String.eqb (j_ClientSessionID j) sessionID.
Definition CancelAIJobsOwned (ids : list string) (userID sessionID : string) : prog JobWorld (res Z) :=
  if bool_decide (ids = []) || (str_empty userID && str_empty sessionID) then Ret (Ok 0) else
  cancel_where "cancel owned ai jobs" (fun _ =>
    let? ids := res_mapM uuid ids in Ok (fun j => str_in (j_ID j) ids && owner_matches userID sessionID j)).
Definition CancelActiveAIJobsBySession (sessionID : string) : prog JobWorld (res Z) :=
  cancel_where "cancel active ai jobs" (fun _ => Ok (fun j => String.eqb (j_ClientSessionID j) sessionID)).

(** ** What waits *)

(** [olderThan] back from the instant the query is prepared. *)
Definition ListStaleAIJobs (sessionID : string) (olderThan limit : Z) : prog JobWorld (res (list AIJob)) :=
  let limit := if limit <=? 0 then 100 else limit in
  let* now := atomic (fun w => (jnext w, jtime (j_tick w))) in
  let cutoff := now - olderThan in
  wrap "list stale ai jobs" (reading (fun _ t =>
    Ok (take (Z.to_nat limit) (merge_sort staler (select (fun j =>
      active j && (j_UpdatedAt j <? cutoff) && (str_empty sessionID || String.eqb (j_ClientSessionID j) sessionID)) t))))).

Record AIQueueStatus : Type := mkQueueStatus {
  TotalPending : Z;
  MyPosition : option Z;
  MyJobID : string;
  MyJobStatus : string;
}.
Definition pending_count (t : Table) : Z := Z.of_nat (affected waiting t).
(** The caller's oldest active job, and its place among those that wait. *)
Definition my_job (sessionID : string) (t : Table) : option AIJob :=
  head (merge_sort older (select (fun j => String.eqb (j_ClientSessionID j) sessionID && active j) t)).
Definition position (t : Table) (j : AIJob) : option Z :=
  if waiting j then Some (Z.of_nat (affected (fun k => waiting k && (j_CreatedAt k <? j_CreatedAt j)) t) + 1) else None.
Definition GetAIQueueStatus (sessionID : string) : prog JobWorld (res AIQueueStatus) :=
  if str_empty sessionID then
    wrap "count pending" (reading (fun _ t => Ok (mkQueueStatus (pending_count t) None "" "idle")))
  else
    wrap "get ai queue status" (reading (fun _ t =>
      Ok (match my_job sessionID t with
          | None => mkQueueStatus (pending_count t) None "" "idle"
          | Some j => mkQueueStatus (pending_count t) (position t j) (j_ID j) (j_Status j)
          end))).
End Repository.
