(* ===== verification/AIJobService.v ===== *)
(** The service of AI jobs: what a request to start a job does, what a worker does with a
    job, and the requests of users and administrators about jobs
    ([internal/http/handlers/ai_job_service.go], [ai_job_exec.go], [ai_jobs.go],
    [ai_job_conflict.go], the job of [ai_describe_relations.go], [internal/ai/describe_scope.go],
    [internal/http/middleware/pagination.go]).

    What a job works with - the language model, the semantic models, the embeddings, the
    datasources - is given by its answers ([AIWork]): the step at which it is asked, and the
    user and the locale of the job, determine an answer.  The relations and descriptions a
    job writes are not rows of the table of jobs. *)

From S2P Require Import Prelude GoStrings Interleave Tables AIJobs.
From stdpp Require Import options.
#[local] Open Scope Z_scope.

(** * Requests *)

Record priorTurnPayload : Type := mkPriorTurn { pt_Question : string; pt_LogicalQuery : string; pt_Note : string; pt_ResultSummary : string }.
Record aiQueryRequest : Type := mkQueryRequest {
  q_DatasourceID : string;
  q_ModelID : string;
  q_CompositeID : string;
  q_ConversationID : string;
  q_Question : string;
  q_Tables : list string;
  q_ClarificationChoice : string;
  q_ClarificationRound : Z;
  q_IncludeBaseTables : option bool;
  q_IncludeViews : option bool;
  q_PriorTurns : list priorTurnPayload;
  q_ExampleIDs : list string;
  q_IncludePastQueries : bool;
  q_AutoFindSkills : option bool;
  q_SavedQueryIDs : list string;
}.
Record DescribeRequest : Type := mkDescribe {
  d_DatasourceID : string; d_Schema : string; d_Table : string; d_Locale : string; d_SampleSize : Z; d_AutoApply : bool }.
Record DescribeBatchTable : Type := mkBatchTable { bt_Schema : string; bt_Table : string }.
Record DescribeBatchRequest : Type := mkDescribeBatch {
  b_DatasourceID : string; b_Tables : list DescribeBatchTable; b_Locale : string; b_SampleSize : Z; b_AutoApply : bool; b_SkipExisting : bool }.
Record describeRelationsJobRequest : Type := mkDescribeRelations {
  r_DatasourceID : string; r_RelationIDs : list string; r_SkipExisting : bool; r_Locale : string }.
Record embedMetadataRequest : Type := mkEmbed { m_DatasourceID : string; m_ModelID : string }.

(** A row of the catalogue: a table, a relation. *)
Record TableInfo : Type := mkTableInfo { ti_SchemaName : string; ti_TableName : string; ti_Description : option string }.
Record RelationDetail : Type := mkRelation { rel_ID : string; rel_Description : string }.
Record relationDescription : Type := mkRelationText { rd_ID : string; rd_Description : string; rd_Localized : string }.
Record EmbedTableResult : Type := mkEmbedTable {
  et_Schema : string; et_Table : string; et_Column : string; et_Kind : string; et_Skipped : bool; et_Reason : string }.

Inductive aiQueryPhase : Type := aiPhaseGenerate | aiPhasePreview | aiPhaseRun.

Record AIJobProgress : Type := mkProgress { p_Phase : string; p_Message : string; p_Progress : Z; p_Status : string; p_Detail : string }.
Record DescribeBatchJobProgress : Type := mkBatchProgress {
  bp_Total : Z; bp_Index : Z; bp_CurrentSchema : string; bp_CurrentTable : string; bp_Completed : list string; bp_PendingPreview : list string }.
Record describeRelationsJobResult : Type := mkRelationsResult { rr_Updated : Z; rr_Total : Z }.
Record embedMetadataResponse : Type := mkEmbedResponse {
  er_DatasourceID : string; er_ModelID : string; er_Model : string; er_Embedded : Z; er_Skipped : Z; er_Results : list EmbedTableResult }.

(** The user and the locale of a context. *)
Record JobContext : Type := mkContext { c_UserID : string; c_Locale : string }.

(** * What a job works with *)

Class AIWork : Type := {
  (** [sonic.Unmarshal] of the payload of each kind of job *)
  decode_query : string -> res aiQueryRequest;
  decode_describe : string -> res DescribeRequest;
  decode_describe_batch : string -> res DescribeBatchRequest;
  decode_describe_relations : string -> res describeRelationsJobRequest;
  decode_embed_metadata : string -> res embedMetadataRequest;
  (** the locales there are, in the order of priority *)
  supported_locales : list string;
  (** the pipeline of a question: the model it is about, an answer that asks back, the request
      with its conversation, the datasource of a run, the answer with its trace, what is done
      with it, and the answer with the number of the run that was recorded *)
  QueryModel : Type;
  Route : Type;
  Response : Type;
  loadQueryModel : nat -> JobContext -> aiQueryRequest -> res (QueryModel * Route);
  tierZeroClarification : nat -> JobContext -> aiQueryRequest -> QueryModel -> Route -> option Response;
  resolveProcessContext : nat -> JobContext -> aiQueryRequest -> QueryModel -> res aiQueryRequest;
  resolveRunPhase : nat -> JobContext -> aiQueryRequest -> QueryModel -> res unit;
  processAIQuestion : nat -> JobContext -> aiQueryRequest -> QueryModel -> Route -> res Response;
  finishAIPreviewResult : nat -> JobContext -> aiQueryRequest -> QueryModel -> Response -> res Response;
  finishAIRunResult : nat -> JobContext -> aiQueryRequest -> QueryModel -> Response -> res Response;
  persistAgentRun : nat -> JobContext -> aiQueryRequest -> QueryModel -> Response -> Response;
  marshal_response : Response -> res string;
  (** descriptions *)
  DescribeResult : Type;
  described_columns : DescribeResult -> Z;
  Describe : nat -> JobContext -> DescribeRequest -> res DescribeResult;
  ListTables : nat -> string -> res (list TableInfo);
  marshal_describe : DescribeResult -> res string;
  marshal_batch : list (string * string * string * string * option DescribeResult) -> Z -> Z -> Z -> res string;
  marshal_batch_progress : DescribeBatchJobProgress -> res string;
  (** relations *)
  relations_configured : bool;
  ListRelationDetails : nat -> string -> res (list RelationDetail);
  CheckSpend : nat -> option goerr;
  ctx_Err : nat -> option goerr;
  GenerateRelations : nat -> list RelationDetail -> string -> res (res (list relationDescription));
  UpdateRelationDescription : nat -> string -> string -> option goerr;
  UpsertTranslation : nat -> string -> string -> string -> option goerr;
  marshal_relations : describeRelationsJobResult -> res string;
  (** embeddings *)
  embeddings_configured : bool;
  tablesForModel : nat -> string -> res (list string);
  EmbedForTables : nat -> string -> list string -> res (list EmbedTableResult);
  EmbedAllForDatasource : nat -> string -> res (list EmbedTableResult);
  embedder_model : string;
  marshal_embed : embedMetadataResponse -> res string;
}.

Definition Canceled : goerr := EMsg "context canceled".
Definition DeadlineExceeded : goerr := EMsg "context deadline exceeded".
Definition invalid_payload : goerr := EMsg "invalid request payload".
Definition MsgDatasourceIDRequired : goerr := EMsg "datasource_id is required".

(** The service has a publisher or has none; so with the audit log. *)
Record AIJobService : Type := mkJobService { publisher : bool; audits : bool }.

Section Service.
Context `{JobEnv} `{AIWork}.

Definition outside {A} (f : nat -> A) : prog JobWorld A := atomic (fun w => (jnext w, f (j_tick w))).
(** A call whose only answer is an error. *)
Definition outside_err (f : nat -> option goerr) : prog JobWorld (res unit) :=
  outside (fun t => match f t with Some e => Err e | None => Ok tt end).
Definition payload {A} (r : res A) : res A := res_map_err (fun _ => invalid_payload) r.

(** ** Locales ([internal/i18n]) *)

Definition DefaultLocale : string := "en".
Definition is_subtag_sep (c : ascii) : bool := has_byte c "-_".
Definition matchSupported (tag : string) : option string :=
  if str_empty tag then None else
  let lower := ToLower tag in
  let primary := fst (span (fun c => negb (is_subtag_sep c)) lower) in
  let loc := if str_empty primary then lower else primary in
  if str_in loc supported_locales then Some loc else None.
Definition ParseLocale (raw : string) : string := default DefaultLocale (matchSupported raw).

(** ** Enqueueing *)

Definition validateAIJobRequest (kind raw : string) : res unit :=
  if str_in kind ["query"; "preview"; "run"] then
    let? req := payload (decode_query raw) in
    if str_empty (q_Question req) then Err (EMsg "question is required") else
    if str_empty (q_DatasourceID req) then Err MsgDatasourceIDRequired else Ok tt
  else if String.eqb kind "describe" then
    let? req := payload (decode_describe raw) in
    if str_empty (d_DatasourceID req) || str_empty (d_Table req) then Err (EMsg "datasource_id and table are required") else Ok tt
  else if String.eqb kind "describe_batch" then
    let? req := payload (decode_describe_batch raw) in
    if str_empty (b_DatasourceID req) || bool_decide (b_Tables req = []) then Err (EMsg "datasource_id and tables are required") else
    if 200 <? Z.of_nat (length (b_Tables req)) then Err (EMsg "at most 200 tables per batch") else Ok tt
  else if String.eqb kind "describe_relations" then
    let? req := payload (decode_describe_relations raw) in
    if str_empty (r_DatasourceID req) then Err MsgDatasourceIDRequired else Ok tt
  else if String.eqb kind "embed_metadata" then
    let? req := payload (decode_embed_metadata raw) in
    if str_empty (m_DatasourceID req) then Err MsgDatasourceIDRequired else Ok tt
  else Err (EMsg "invalid kind").

(** The keys of a map, sorted. *)
Definition DescribeBatchScopeSchemas (tables : list DescribeBatchTable) : list string :=
  merge_sort String.le (remove_dups (List.filter (fun s => negb (str_empty s)) (map (fun t => TrimSpace (bt_Schema t)) tables))).
Definition SchemasOverlap (a b : list string) : bool :=
  if bool_decide (a = []) || bool_decide (b = []) then false else existsb (fun s => str_in s a) b.

(** [AIJobConflictError] *)
Record Conflict : Type := mkConflict { cf_Message : string; cf_Existing : AIJob }.
Definition scope_result : Type := (option string * list string) + Conflict.
(** The scope of the job, unless an active job has it. *)
Definition unless_conflict (message : string) (found : prog JobWorld (res (option AIJob))) (scope : option string * list string)
    : prog JobWorld (res scope_result) :=
  try* existing := found in
  match existing with
  | Some job => Ret (Ok (inr (mkConflict message job)))
  | None => Ret (Ok (inl scope))
  end.
Definition describeBatchEnqueueScope (req : string) : prog JobWorld (res scope_result) :=
  try* batchReq := Ret (payload (decode_describe_batch req)) in
  let ds := TrimSpace (b_DatasourceID batchReq) in
  if str_empty ds then Ret (Err MsgDatasourceIDRequired) else
  let scopeSchemas := DescribeBatchScopeSchemas (b_Tables batchReq) in
  if bool_decide (scopeSchemas = []) then Ret (Err (EMsg "tables must include at least one schema")) else
  unless_conflict "metadata describe batch already running for overlapping schema(s)"
    (FindConflictingDescribeBatch ds scopeSchemas) (Some ds, scopeSchemas).
Definition embedMetadataEnqueueScope (req : string) : prog JobWorld (res scope_result) :=
  try* er := Ret (payload (decode_embed_metadata req)) in
  let ds := TrimSpace (m_DatasourceID er) in
  if str_empty ds then Ret (Err MsgDatasourceIDRequired) else
  unless_conflict "embedding refresh already running for the same scope"
    (FindConflictingEmbedMetadata ds (TrimSpace (m_ModelID er))) (Some ds, []).
Definition enqueueJobScope (kind req : string) : prog JobWorld (res scope_result) :=
  if String.eqb kind "describe_batch" then describeBatchEnqueueScope req
  else if String.eqb kind "describe_relations" then
    try* relReq := Ret (payload (decode_describe_relations req)) in
    let ds := TrimSpace (r_DatasourceID relReq) in
    if str_empty ds then Ret (Err MsgDatasourceIDRequired) else Ret (Ok (inl (Some ds, [])))
  else if String.eqb kind "embed_metadata" then embedMetadataEnqueueScope req
  else Ret (Ok (inl (None, []))).

(** The locale of the request, where it has one. *)
Definition request_locale (r : res string) (fallback : string) : string :=
  match r with Ok l => if str_empty (TrimSpace l) then fallback else TrimSpace l | Err _ => fallback end.
Definition aiJobLocaleFromRequest (kind raw fallback : string) : string :=
  let locale := TrimSpace fallback in
  ParseLocale (
    if String.eqb kind "describe" then request_locale (let? q := decode_describe raw in Ok (d_Locale q)) locale
    else if String.eqb kind "describe_batch" then request_locale (let? q := decode_describe_batch raw in Ok (b_Locale q)) locale
    else if String.eqb kind "describe_relations" then request_locale (let? q := decode_describe_relations raw in Ok (r_Locale q)) locale
    else locale).

(** [NATSQueue.Publish] *)
Definition Publish (jobID : string) : prog JobWorld (res unit) :=
  wrap "publish ai job" (atomic (fun w =>
    match publish_fault (j_tick w) with
    | Some e => (jnext w, Err e)
    | None => (mkJobWorld (jobs w) (published w ++ [jobID]) (audited w) (S (j_tick w)), Ok tt)
    end)).

(** The zero value of [time.Time]. *)
Definition zero_time : Z := -62135596800 * 10 ^ 9.
Definition Enqueue (s : AIJobService) (ctx_locale kind sessionID userID req : string) : prog JobWorld (res (AIJob + Conflict)) :=
  if str_empty sessionID then Ret (Err (EMsg "client_session_id is required")) else
  try* _ := Ret (validateAIJobRequest kind req) in
  let req := if str_empty req then "{}" else req in
  try* scope := enqueueJobScope kind req in
  match scope with
  | inr conflict => Ret (Ok (inr conflict))
  | inl (datasourceID, scopeSchemas) =>
      let user := if str_empty (TrimSpace userID) then None else Some userID in
      let* id := outside new_uuid in
      let job := mkAIJob id sessionID user (aiJobLocaleFromRequest kind req ctx_locale) kind AIJobStatusQueued "queued" "waiting in queue" 0
        datasourceID scopeSchemas None req None "" zero_time zero_time None None in
      try* _ := CreateAIJob (Some job) in
      if negb (publisher s) then Ret (Ok (inl job)) else
      let* r := Publish id in
      match r with
      | Ok _ => Ret (Ok (inl job))
      | Err e => let* _ := FailAIJob id (Error e) in Ret (Err e)
      end
  end.

(** ** Cancelling *)

Definition not_cancellable : goerr := EMsg "job cannot be cancelled".
Definition Cancel (jobID : string) : prog JobWorld (res AIJob) :=
  try* ok := CancelAIJob jobID in
  if negb ok then
    try* job := GetAIJob jobID in
    if str_in (j_Status job) terminal_statuses then Ret (Ok job) else Ret (Err not_cancellable)
  else GetAIJob jobID.

(** * The jobs *)

Definition Reporter : Type := AIJobProgress -> prog JobWorld unit.
Definition tell (report : option Reporter) (p : AIJobProgress) : prog JobWorld unit :=
  match report with Some f => f p | None => Ret tt end.
Definition running (phase message : string) (pct : Z) : AIJobProgress := mkProgress phase message pct AIJobStatusRunning "".

(** ** Questions *)

Definition resolveAIQuery (ctx : JobContext) (req : aiQueryRequest) : prog JobWorld (res (QueryModel * Route * option Response)) :=
  if str_empty (q_Question req) then Ret (Err (EMsg "question is required")) else
  if str_empty (q_DatasourceID req) then Ret (Err MsgDatasourceIDRequired) else
  try* mr := outside (fun t => loadQueryModel t ctx req) in
  let* clarify := outside (fun t => tierZeroClarification t ctx req mr.1 mr.2) in
  Ret (Ok (mr.1, mr.2, clarify)).
Definition executeAIQueryPhase (ctx : JobContext) (req : aiQueryRequest) (phase : aiQueryPhase) (report : option Reporter)
    : prog JobWorld (res Response) :=
  let* _ := tell report (running "routing" "routing tables" 10) in
  try* resolved := resolveAIQuery ctx req in
  let '(model, route, clarify) := resolved in
  match clarify with
  | Some resp => Ret (Ok resp)
  | None =>
      try* req := outside (fun t => resolveProcessContext t ctx req model) in
      let* _ := tell report (running "generating" "generating logical query" 35) in
      try* _ := (match phase with aiPhaseRun => outside (fun t => resolveRunPhase t ctx req model) | _ => Ret (Ok tt) end) in
      let* _ := tell report (running "validating" "validating response" 55) in
      try* resp := outside (fun t => processAIQuestion t ctx req model route) in
      try* resp := (match phase with
        | aiPhaseGenerate => Ret (Ok resp)
        | aiPhasePreview =>
            let* _ := tell report (running "compiling" "compiling sql" 75) in
            outside (fun t => finishAIPreviewResult t ctx req model resp)
        | aiPhaseRun =>
            let* _ := tell report (running "executing" "executing query" 85) in
            outside (fun t => finishAIRunResult t ctx req model resp)
        end) in
      let* resp := outside (fun t => persistAgentRun t ctx req model resp) in
      Ret (Ok resp)
  end.

Definition aiJobPhaseFromKind (kind : string) : res aiQueryPhase :=
  if String.eqb kind "query" then Ok aiPhaseGenerate
  else if String.eqb kind "preview" then Ok aiPhasePreview
  else if String.eqb kind "run" then Ok aiPhaseRun
  else Err (EMsg ("unknown job kind " +:+ Quote kind)).
(** ** Descriptions of tables *)

Definition executeMetadataDescribeJob (ctx : JobContext) (req : DescribeRequest) (report : option Reporter) : prog JobWorld (res DescribeResult) :=
  let* _ := tell report (running "sampling" "sampling table metadata" 15) in
  let* _ := tell report (running "generating" "generating metadata descriptions" 35) in
  try* result := outside (fun t => Describe t ctx req) in
  let* _ := tell report (running "applying" "saving generated descriptions" 90) in
  Ret (Ok result).

Definition isAIJobCancelled (jobID : string) : prog JobWorld bool :=
  if str_empty jobID then Ret false else
  let* r := GetAIJob jobID in
  Ret (match r with Ok job => String.eqb (j_Status job) AIJobStatusCancelled | Err _ => false end).

(** An entry: schema, table, status, message and result. *)
Definition BatchEntry : Type := string * string * string * string * option DescribeResult.
Record DescribeBatchResult : Type := mkBatchResult { br_Entries : list BatchEntry; br_OK : Z; br_Error : Z; br_Skipped : Z }.
Definition DescribeBatchTableKey (schema table : string) : string := TrimSpace schema +:+ "." +:+ TrimSpace table.

(** The keys of the tables that have a description. *)
Definition loadDescribedTableKeys (req : DescribeBatchRequest) : prog JobWorld (res (list string)) :=
  if negb (b_SkipExisting req) then Ret (Ok []) else
  try* tables := outside (fun t => ListTables t (b_DatasourceID req)) in
  Ret (Ok (map (fun t => ti_SchemaName t +:+ "." +:+ ti_TableName t)
    (List.filter (fun t => match ti_Description t with Some d => negb (str_empty (TrimSpace d)) | None => false end) tables))).
Definition describeBatchSingleRequest (req : DescribeBatchRequest) (schema table : string) : DescribeRequest :=
  mkDescribe (b_DatasourceID req) schema table (b_Locale req) (b_SampleSize req) (b_AutoApply req).
Definition runDescribeBatchTable (ctx : JobContext) (req : DescribeBatchRequest) (schema table : string) : prog JobWorld BatchEntry :=
  let* r := executeMetadataDescribeJob ctx (describeBatchSingleRequest req schema table) None in
  Ret (match r with
       | Err e => (schema, table, "error", Error e, None)
       | Ok result => (schema, table, "ok", Itoa (described_columns result) +:+ " columns described", Some result)
       end).
(** At most five of the tables to come. *)
Definition describeBatchPendingPreview (rest : list DescribeBatchTable) : list string :=
  take 5 (map (fun t => DescribeBatchTableKey (bt_Schema t) (bt_Table t))
    (List.filter (fun t => negb (str_empty (TrimSpace (bt_Schema t)) || str_empty (TrimSpace (bt_Table t)))) rest)).
Definition reportDescribeBatchProgress (report : option Reporter) (rest : list DescribeBatchTable) (total index : Z)
    (schema table key : string) (completedKeys : list string) : prog JobWorld unit :=
  let denom := Z.max total 1 in
  let pct := 5 + Z.quot (index * 90) denom in
  let detail := match marshal_batch_progress (mkBatchProgress total index schema table completedKeys (describeBatchPendingPreview rest)) with
    | Ok d => d | Err _ => "" end in
  tell report (mkProgress "generating" ("describing " +:+ key) pct AIJobStatusRunning detail).

Fixpoint describe_batch_loop (ctx : JobContext) (jobID : string) (req : DescribeBatchRequest) (report : option Reporter) (existing : list string)
    (total index : Z) (tables : list DescribeBatchTable) (out : DescribeBatchResult) (completed : list string)
    : prog JobWorld (DescribeBatchResult * option goerr) :=
  match tables with
  | [] =>
      let* _ := tell report (running "applying" "batch complete" 100) in
      Ret (out, None)
  | target :: rest =>
      let next := describe_batch_loop ctx jobID req report existing total (index + 1) rest in
      let* cancelled := isAIJobCancelled jobID in
      if cancelled then Ret (out, Some (EMsg "job cancelled")) else
      let schema := TrimSpace (bt_Schema target) in
      let table := TrimSpace (bt_Table target) in
      if str_empty schema || str_empty table then
        next (mkBatchResult (br_Entries out ++ [(schema, table, "error", "schema and table are required", None)]) (br_OK out) (br_Error out + 1) (br_Skipped out))
          (completed ++ [DescribeBatchTableKey schema table])
      else
      let key := schema +:+ "." +:+ table in
      if b_SkipExisting req && str_in key existing then
        next (mkBatchResult (br_Entries out ++ [(schema, table, "skipped", "already has description", None)]) (br_OK out) (br_Error out) (br_Skipped out + 1))
          (completed ++ [key])
      else
      let* _ := reportDescribeBatchProgress report rest total index schema table key completed in
      let* entry := runDescribeBatchTable ctx req schema table in
      let failed := match entry with (_, _, status, _, _) => String.eqb status "error" end in
      next (mkBatchResult (br_Entries out ++ [entry]) (if failed then br_OK out else br_OK out + 1)
              (if failed then br_Error out + 1 else br_Error out) (br_Skipped out))
        (completed ++ [key])
  end.
(** The result so far comes with the error that it was cancelled. *)
Definition executeMetadataDescribeBatchJob (ctx : JobContext) (jobID : string) (req : DescribeBatchRequest) (report : option Reporter)
    : prog JobWorld (option DescribeBatchResult * option goerr) :=
  if str_empty (b_DatasourceID req) || bool_decide (b_Tables req = []) then
    Ret (None, Some (EMsg "datasource_id and tables are required")) else
  let* existing := loadDescribedTableKeys req in
  match existing with
  | Err e => Ret (None, Some e)
  | Ok existing =>
      let* r := describe_batch_loop ctx jobID req report existing (Z.of_nat (length (b_Tables req))) 0 (b_Tables req) (mkBatchResult [] 0 0 0) [] in
      Ret (Some r.1, r.2)
  end.
Definition encodeDescribeBatchJobResult (result : option DescribeBatchResult) : res (option string) :=
  match result with
  | None => Ok None
  | Some b => let? raw := marshal_batch (br_Entries b) (br_OK b) (br_Error b) (br_Skipped b) in Ok (Some raw)
  end.

(** ** Relations *)

Definition selectRelations (rels : list RelationDetail) (relationIDs : list string) (skipExisting : bool) : list RelationDetail :=
  List.filter (fun rel =>
    (bool_decide (relationIDs = []) || str_in (rel_ID rel) relationIDs) &&
    negb (skipExisting && negb (str_empty (TrimSpace (rel_Description rel))))) rels.
Definition describeRelationsChunkSize : nat := 8.
Fixpoint persistRelationDescriptions (chunk : list RelationDetail) (descriptions : list relationDescription) (locale : string) (updated : Z)
    : prog JobWorld (Z * option goerr) :=
  match descriptions with
  | [] => Ret (updated, None)
  | d :: rest =>
      let next := persistRelationDescriptions chunk rest locale in
      let desc := TrimSpace (rd_Description d) in
      if str_empty desc || negb (existsb (fun rel => String.eqb (rel_ID rel) (rd_ID d)) chunk) then next updated else
      let* r := outside_err (fun t => UpdateRelationDescription t (rd_ID d) desc) in
      match r with
      | Err e => Ret (updated, Some e)
      | Ok _ =>
          let localized := TrimSpace (rd_Localized d) in
          if str_empty localized || String.eqb locale DefaultLocale then next (updated + 1) else
          let* r := outside_err (fun t => UpsertTranslation t (rd_ID d) locale localized) in
          match r with Err e => Ret (updated, Some e) | Ok _ => next (updated + 1) end
      end
  end.
(** The chunks of eight, each with the place it starts at. *)
Definition chunk_starts (n : nat) : list nat :=
  map (fun k => describeRelationsChunkSize * k)%nat (seq 0 ((n + (describeRelationsChunkSize - 1)) / describeRelationsChunkSize)).
Fixpoint describe_chunks (targets : list RelationDetail) (locale : string) (report : option Reporter) (starts : list nat) (updated : Z)
    : prog JobWorld (Z * option goerr) :=
  match starts with
  | [] => Ret (updated, None)
  | start :: rest =>
      let* alive := outside_err ctx_Err in
      match alive with
      | Err e => Ret (updated, Some e)
      | Ok _ =>
          let chunk := take describeRelationsChunkSize (drop start targets) in
          let total := Z.of_nat (length targets) in
          let* _ := tell report (running "generating"
            ("describing relations " +:+ Itoa (Z.of_nat start + 1) +:+ "–" +:+ Itoa (Z.of_nat (start + length chunk)) +:+ " of " +:+ Itoa total)
            (10 + Z.quot (85 * Z.of_nat start) total)) in
          let* gen := outside (fun t => GenerateRelations t chunk locale) in
          match gen with
          | Err e => Ret (updated, Some (EWrap "describe relations chunk" e))
          | Ok (Err e) => Ret (updated, Some e)
          | Ok (Ok descriptions) =>
              let* r := persistRelationDescriptions chunk descriptions locale 0 in
              match r.2 with
              | Some e => Ret (updated + r.1, Some (EWrap "store relation description" e))
              | None => describe_chunks targets locale report rest (updated + r.1)
              end
          end
      end
  end.
Definition describeRelationsCore (targets : list RelationDetail) (locale : string) (report : option Reporter) : prog JobWorld (Z * option goerr) :=
  let* allowed := outside_err CheckSpend in
  match allowed with
  | Err e => Ret (0, Some e)
  | Ok _ => describe_chunks targets locale report (chunk_starts (length targets)) 0
  end.
Definition executeDescribeRelationsJob (ctx : JobContext) (req : describeRelationsJobRequest) (report : option Reporter)
    : prog JobWorld (res describeRelationsJobResult) :=
  if negb relations_configured then Ret (Err (EMsg "describe service is not configured")) else
  let locale := if str_empty (r_Locale req) then c_Locale ctx else ParseLocale (r_Locale req) in
  try* all := wrap "list relations" (outside (fun t => ListRelationDetails t (r_DatasourceID req))) in
  let targets := selectRelations all (r_RelationIDs req) (r_SkipExisting req) in
  let total := Z.of_nat (length targets) in
  let* _ := tell report (running "generating" ("describing " +:+ Itoa total +:+ " relations") 10) in
  let* r := describeRelationsCore targets locale report in
  match r.2 with
  | Some e => Ret (Err e)
  | None =>
      let* _ := tell report (running "applying" "descriptions saved" 98) in
      Ret (Ok (mkRelationsResult r.1 total))
  end.

(** ** Embeddings *)

Definition executeEmbedMetadataJob (req : embedMetadataRequest) (report : option Reporter) : prog JobWorld (res embedMetadataResponse) :=
  let* _ := tell report (running "fetching" "fetching tables for embedding" 10) in
  if negb embeddings_configured then Ret (Err (EMsg "embeddings are not configured")) else
  try* results := (
    if negb (str_empty (m_ModelID req)) then
      try* allowed := wrap "semantic model not found" (outside (fun t => tablesForModel t (m_ModelID req))) in
      let* _ := tell report (running "embedding" ("computing embeddings for " +:+ Itoa (Z.of_nat (length allowed)) +:+ " tables") 30) in
      outside (fun t => EmbedForTables t (m_DatasourceID req) allowed)
    else
      let* _ := tell report (running "embedding" "computing embeddings for all tables in datasource" 30) in
      outside (fun t => EmbedAllForDatasource t (m_DatasourceID req))) in
  let* _ := tell report (running "completing" "saving vector embeddings" 90) in
  let skipped := Z.of_nat (length (List.filter et_Skipped results)) in
  Ret (Ok (mkEmbedResponse (m_DatasourceID req) (m_ModelID req) embedder_model (Z.of_nat (length results) - skipped) skipped results)).

(** * The worker *)

Definition mentions_cancelled (e : goerr) : bool := Contains (ToLower (Error e)) "cancelled".
Definition encode {A} (marshal : A -> res string) (r : res A) : res (option string) :=
  let? a := r in let? raw := marshal a in Ok (Some raw).
Definition processJob (ctx : JobContext) (job : AIJob) (report : option Reporter) : prog JobWorld (res (option string)) :=
  let kind := j_Kind job in
  if str_in kind ["query"; "preview"; "run"] then
    try* phase := Ret (aiJobPhaseFromKind kind) in
    try* req := Ret (payload (decode_query (j_RequestJSON job))) in
    let* r := executeAIQueryPhase ctx req phase report in
    Ret (encode marshal_response r)
  else if String.eqb kind "describe" then
    try* req := Ret (payload (decode_describe (j_RequestJSON job))) in
    let* r := executeMetadataDescribeJob ctx req report in
    Ret (encode marshal_describe r)
  else if String.eqb kind "describe_batch" then
    try* req := Ret (payload (decode_describe_batch (j_RequestJSON job))) in
    let* r := executeMetadataDescribeBatchJob ctx (j_ID job) req report in
    Ret (match r.2 with
         | Some e => if mentions_cancelled e then encodeDescribeBatchJobResult r.1 else Err e
         | None => encodeDescribeBatchJobResult r.1
         end)
  else if String.eqb kind "describe_relations" then
    try* req := Ret (payload (decode_describe_relations (j_RequestJSON job))) in
    let* r := executeDescribeRelationsJob ctx req report in
    Ret (encode marshal_relations r)
  else if String.eqb kind "embed_metadata" then
    try* req := Ret (payload (decode_embed_metadata (j_RequestJSON job))) in
    let* r := executeEmbedMetadataJob req report in
    Ret (encode marshal_embed r)
  else Ret (Err (EMsg ("unknown job kind " +:+ Quote kind))).

Definition consumerContextForAIJob (ctx : JobContext) (job : AIJob) : JobContext :=
  mkContext (match j_UserID job with Some u => if str_empty u then c_UserID ctx else u | None => c_UserID ctx end)
    (let loc := TrimSpace (j_Locale job) in if str_empty loc then c_Locale ctx else ParseLocale loc).

Definition report_to (jobID : string) : Reporter := fun p =>
  let status := if str_empty (p_Status p) then AIJobStatusRunning else p_Status p in
  let* _ := UpdateAIJobProgressDetail jobID status (p_Phase p) (p_Message p) (p_Progress p) (p_Detail p) in
  Ret tt.
Definition is_cancelled (r : res AIJob) : bool :=
  match r with Ok job => String.eqb (j_Status job) AIJobStatusCancelled | Err _ => false end.
(** What becomes of a job whose work ended. *)
Definition finish_job (jobID : string) (r : res (option string)) : prog JobWorld (res unit) :=
  match r with
  | Ok raw => CompleteAIJob jobID raw
  | Err e =>
      let* job := GetAIJob jobID in
      if is_cancelled job then Ret (Ok tt) else
      if mentions_cancelled e then Ret (Ok tt) else
      if errors_Is e Canceled || errors_Is e DeadlineExceeded then Ret (Err e) else
      let* _ := FailAIJob jobID (Error e) in
      Ret (Err e)
  end.
Definition Process (ctx : JobContext) (jobID : string) : prog JobWorld (res unit) :=
  try* started := TryMarkAIJobRunning jobID in
  if negb started then
    try* job := GetAIJob jobID in
    if String.eqb (j_Status job) AIJobStatusCancelled then Ret (Ok tt) else
    Ret (Err (EMsg (Sprintf "job %s is not runnable (status=%s)" [jobID; j_Status job])))
  else
    try* job := GetAIJob jobID in
    if String.eqb (j_Status job) AIJobStatusCancelled then Ret (Ok tt) else
    let* r := processJob (consumerContextForAIJob ctx job) job (Some (report_to jobID)) in
    finish_job jobID r.
End Service.
