(* ===== verification/AIJobHandlers.v ===== *)
(** The requests about AI jobs ([internal/http/handlers/ai_jobs.go],
    [ai_job_conflict.go], [internal/http/middleware/pagination.go]).

    A request comes decoded: the caller that the middleware found, the parameters of the
    path and of the query, the body.  A reply is its status and what its body says; the
    messages of internal errors are replaced ([response.WriteInternalError]). *)

From S2P Require Import Prelude GoStrings Interleave Tables AIJobs AIJobService.
From stdpp Require Import options.
#[local] Open Scope Z_scope.

Record Caller : Type := mkCaller { UserID : string; UserRoles : list string }.
(** [url.Values] *)
Definition Values : Type := string -> list string.
Definition Get_ (q : Values) (key : string) : string := default "" (head (q key)).

Inductive ReplyBody : Type :=
| BError (message : string)
| BJob (job : AIJob)
| BJobs (jobs : list AIJob)
| BJobsOf (jobs : list AIJob) (total : Z)
| BCreateConflict (error existing_job_id : string) (existing_job : AIJob) (scope_schemas : list string)
| BNoConflict
| BConflict (existing_job_id : string) (existing_job : AIJob) (scope_schemas : list string)
| BQueue (status : AIQueueStatus)
| BCancelled (n : Z)
| BCancelledOf (n matched : Z).
Record Reply : Type := mkReply { status : Z; body : ReplyBody }.

Definition StatusOK : Z := 200.
Definition StatusAccepted : Z := 202.
Definition StatusBadRequest : Z := 400.
Definition StatusForbidden : Z := 403.
Definition StatusNotFound : Z := 404.
Definition StatusConflict : Z := 409.
Definition StatusInternalServerError : Z := 500.
Definition writeError (code : Z) (message : string) : Reply := mkReply code (BError message).
Definition writeInternalError (code : Z) (publicMsg : string) : Reply :=
  writeError code (if StatusInternalServerError <=? code then "internal server error" else publicMsg).

(** * Pagination *)

Record PaginationConfig : Type := mkPagination { DefaultPage : Z; DefaultPageSize : Z; MaxPageSize : Z }.
Record PageParams : Type := mkPage { Page : Z; PageSize : Z; Limit : Z; Offset : Z; Requested : bool }.
Definition parsePositiveQueryInt (value : string) : option Z :=
  if str_empty value then None else
  match Atoi value with Some n => if n <=? 0 then None else Some n | None => None end.
Definition paginationFromQuery (q : Values) (config : PaginationConfig) : PageParams :=
  let defaultPage := if DefaultPage config <=? 0 then 1 else DefaultPage config in
  let pageValue := Get_ q "page" in
  let pageSizeValue := Get_ q "page_size" in
  let limitValue := Get_ q "limit" in
  let requested := negb (str_empty pageValue) || negb (str_empty pageSizeValue) || negb (str_empty limitValue) in
  let page := default defaultPage (parsePositiveQueryInt pageValue) in
  let pageSize := match parsePositiveQueryInt pageSizeValue with
    | Some n => n
    | None => default (DefaultPageSize config) (parsePositiveQueryInt limitValue)
    end in
  let pageSize := if 0 <? MaxPageSize config then Z.min pageSize (MaxPageSize config) else pageSize in
  mkPage page pageSize pageSize (wrap64 (wrap64 (page - 1) * pageSize)) requested.
(** The windows of the routes ([ai_router.go]). *)
Definition staleJobsPagination : PaginationConfig := mkPagination 1 100 500.
Definition adminJobsPagination : PaginationConfig := mkPagination 1 25 100.

(** * Handlers *)

Definition aiJobsAdminRole (c : Caller) : bool := str_in "super_admin" (UserRoles c) || str_in "admin" (UserRoles c).
Definition aiJobOwnedBy (job : AIJob) (userID sessionID : string) : bool :=
  negb (str_empty userID) && is_some_eq (j_UserID job) userID ||
  negb (str_empty sessionID) && String.eqb (j_ClientSessionID job) sessionID.

Section Handlers.
Context `{JobEnv} `{AIWork} (s : AIJobService) (c : Caller).

Definition Create (ctx_locale kind sessionID req : string) : prog JobWorld Reply :=
  let* r := Enqueue s ctx_locale kind sessionID (UserID c) req in
  Ret (match r with
       | Ok (inl job) => mkReply StatusAccepted (BJob job)
       | Ok (inr conflict) =>
           let existing := cf_Existing conflict in
           mkReply StatusConflict (BCreateConflict (cf_Message conflict) (j_ID existing) existing (j_ScopeSchemas existing))
       | Err e => writeError StatusBadRequest (Error e)
       end).

(** The schemas asked about: repeated, or in one value separated by commas; blanks and repetitions go. *)
Definition conflict_schemas (q : Values) : list string :=
  let raw := match q "schemas" with [one] => if has_byte "," one then Split "," one else [one] | l => l end in
  reverse (remove_dups (reverse (List.filter (fun s => negb (str_empty s)) (map TrimSpace raw)))).
Definition DescribeBatchConflict (q : Values) : prog JobWorld Reply :=
  let datasourceID := TrimSpace (Get_ q "datasource_id") in
  if str_empty datasourceID then Ret (writeError StatusBadRequest "datasource_id is required") else
  let schemas := conflict_schemas q in
  if bool_decide (schemas = []) then Ret (mkReply StatusOK BNoConflict) else
  let* existing := FindConflictingDescribeBatch datasourceID schemas in
  Ret (match existing with
       | Err _ => writeInternalError StatusInternalServerError "failed to check describe batch conflict"
       | Ok None => mkReply StatusOK BNoConflict
       | Ok (Some job) => mkReply StatusOK (BConflict (j_ID job) job (j_ScopeSchemas job))
       end).

Definition Get (id : string) (q : Values) : prog JobWorld Reply :=
  let* r := GetAIJob id in
  Ret (match r with
       | Err _ => writeError StatusNotFound "job not found"
       | Ok job =>
           if negb (aiJobsAdminRole c) && negb (aiJobOwnedBy job (UserID c) (Get_ q "client_session_id"))
           then writeError StatusForbidden "not allowed to view this job"
           else mkReply StatusOK (BJob job)
       end).

(** The entry of the audit log for a job of another user. *)
Definition logAdminCancel (job : AIJob) : prog JobWorld unit :=
  if negb (audits s) then Ret tt else
  atomic (fun w => (mkJobWorld (jobs w) (published w)
    (audited w ++ [mkJobEvent (UserID c) (j_ID job) (j_Kind job) (j_UserID job)]) (S (j_tick w)), tt)).
Definition CancelJob (id : string) (q : Values) : prog JobWorld Reply :=
  let* r := GetAIJob id in
  match r with
  | Err _ => Ret (writeError StatusNotFound "job not found")
  | Ok existing =>
      let isAdmin := aiJobsAdminRole c in
      let owned := aiJobOwnedBy existing (UserID c) (Get_ q "client_session_id") in
      if negb isAdmin && negb owned then Ret (writeError StatusForbidden "not allowed to cancel this job") else
      let* r := Cancel id in
      match r with
      | Err e =>
          if String.eqb (Error e) "job cannot be cancelled" then Ret (writeError StatusConflict (Error e))
          else Ret (writeError StatusNotFound "job not found")
      | Ok job =>
          let* _ := (if isAdmin && negb owned then logAdminCancel existing else Ret tt) in
          Ret (mkReply StatusOK (BJob job))
      end
  end.

Definition list_reply (r : res (list AIJob)) (publicMsg : string) : Reply :=
  match r with Err _ => writeInternalError StatusInternalServerError publicMsg | Ok l => mkReply StatusOK (BJobs l) end.
Definition List_ (q : Values) : prog JobWorld Reply :=
  let activeOnly := String.eqb (Get_ q "active") "true" in
  if String.eqb (Get_ q "scope") "user" then
    if str_empty (UserID c) then Ret (writeError StatusBadRequest "authenticated user required for scope=user") else
    let* r := ListAIJobsByUser (UserID c) activeOnly 50 in
    Ret (list_reply r "list jobs failed")
  else
    let sessionID := TrimSpace (Get_ q "client_session_id") in
    if str_empty sessionID then Ret (writeError StatusBadRequest "client_session_id is required") else
    let* r := ListAIJobsBySession sessionID activeOnly 50 in
    Ret (list_reply r "list jobs failed").

Definition QueueStatus (q : Values) : prog JobWorld Reply :=
  let* r := GetAIQueueStatus (Get_ q "client_session_id") in
  Ret (match r with
       | Err _ => writeInternalError StatusInternalServerError "queue status failed"
       | Ok st => mkReply StatusOK (BQueue st)
       end).

(** [time.Duration(mins) * time.Minute] *)
Definition Minute : Z := 60 * 10 ^ 9.
Definition staleJobOlderThan (q : Values) : Z :=
  wrap64 (default 15 (parsePositiveQueryInt (Get_ q "older_minutes")) * Minute).
Definition ListStale (q : Values) : prog JobWorld Reply :=
  let sessionID := TrimSpace (Get_ q "client_session_id") in
  if str_empty sessionID then Ret (writeError StatusBadRequest "client_session_id is required") else
  let limit := Limit (paginationFromQuery q staleJobsPagination) in
  let limit := if limit <=? 0 then 100 else limit in
  let* r := ListStaleAIJobs sessionID (staleJobOlderThan q) limit in
  Ret (list_reply r "list stale jobs failed").

Definition cancelled_reply (r : res Z) (publicMsg : string) : Reply :=
  match r with Err _ => writeInternalError StatusInternalServerError publicMsg | Ok n => mkReply StatusOK (BCancelled n) end.
Definition CancelBatch (ids : list string) (clientSessionID : string) : prog JobWorld Reply :=
  if bool_decide (ids = []) then Ret (writeError StatusBadRequest "ids is required") else
  let* r := (if aiJobsAdminRole c then CancelAIJobs ids else CancelAIJobsOwned ids (UserID c) clientSessionID) in
  Ret (cancelled_reply r "cancel jobs failed").
Definition CancelActive (clientSessionID : string) : prog JobWorld Reply :=
  if str_empty clientSessionID then Ret (writeError StatusBadRequest "client_session_id is required") else
  let* r := CancelActiveAIJobsBySession clientSessionID in
  Ret (cancelled_reply r "cancel active jobs failed").

(** ** Of administrators *)

Definition AdminList (q : Values) : prog JobWorld Reply :=
  let pag := paginationFromQuery q adminJobsPagination in
  let limit := if Limit pag <=? 0 then 25 else Limit pag in
  let filter := mkAdminFilter (Get_ q "status") (Get_ q "kind") (Get_ q "user_id") (Get_ q "search") limit (Offset pag) in
  let* r := ListAIJobsAdmin filter in
  match r with
  | Err _ => Ret (writeInternalError StatusInternalServerError "list jobs failed")
  | Ok l =>
      let* n := CountAIJobsAdmin filter in
      Ret (match n with
           | Err _ => writeInternalError StatusInternalServerError "count jobs failed"
           | Ok total => mkReply StatusOK (BJobsOf l total)
           end)
  end.
Definition AdminListStale (q : Values) : prog JobWorld Reply :=
  let limit := Limit (paginationFromQuery q adminJobsPagination) in
  let limit := if limit <=? 0 then 200 else limit in
  let* r := ListStaleAIJobs "" (staleJobOlderThan q) limit in
  Ret (list_reply r "list stale jobs failed").
Definition AdminCancelAllStale (q : Values) : prog JobWorld Reply :=
  let* r := ListStaleAIJobs "" (staleJobOlderThan q) 500 in
  match r with
  | Err _ => Ret (writeInternalError StatusInternalServerError "list stale jobs failed")
  | Ok l =>
      let ids := map j_ID l in
      let* n := CancelAIJobs ids in
      Ret (match n with
           | Err _ => writeInternalError StatusInternalServerError "cancel jobs failed"
           | Ok n => mkReply StatusOK (BCancelledOf n (Z.of_nat (length ids)))
           end)
  end.
End Handlers.

(** * The routes ([ai_router.go]) *)

Inductive JobRequest : Type :=
| RCreate (ctx_locale kind sessionID request : string)
| RDescribeBatchConflict (q : Values)
| RList (q : Values)
| RQueueStatus (q : Values)
| RListStale (q : Values)
| RCancelActive (clientSessionID : string)
| RCancelBatch (ids : list string) (clientSessionID : string)
| RGet (id : string) (q : Values)
| RCancel (id : string) (q : Values)
| RAdminList (q : Values)
| RAdminListStale (q : Values)
| RAdminCancelAllStale (q : Values).
(** The routes that only administrators reach ([AdminAccessMiddleware]). *)
Definition admin_route (r : JobRequest) : bool :=
  match r with RAdminList _ | RAdminListStale _ | RAdminCancelAllStale _ => true | _ => false end.
(** The client session a request names. *)
Definition session_named (r : JobRequest) : string :=
  match r with
  | RCreate _ _ sessionID _ => sessionID
  | RList q | RListStale q => TrimSpace (Get_ q "client_session_id")
  | RCancelActive sessionID | RCancelBatch _ sessionID => sessionID
  | RGet _ q | RCancel _ q | RQueueStatus q => Get_ q "client_session_id"
  | _ => ""
  end.
Definition serve_job `{JobEnv} `{AIWork} (s : AIJobService) (c : Caller) (r : JobRequest) : prog JobWorld Reply :=
  match r with
  | RCreate ctx_locale kind sessionID request => Create s c ctx_locale kind sessionID request
  | RDescribeBatchConflict q => DescribeBatchConflict q
  | RList q => List_ c q
  | RQueueStatus q => QueueStatus q
  | RListStale q => ListStale q
  | RCancelActive sessionID => CancelActive sessionID
  | RCancelBatch ids sessionID => CancelBatch c ids sessionID
  | RGet id q => Get c id q
  | RCancel id q => CancelJob s c id q
  | RAdminList q => AdminList q
  | RAdminListStale q => AdminListStale q
  | RAdminCancelAllStale q => AdminCancelAllStale q
  end.
