(* ===== verification/AIJobQueue.v ===== *)
(** How jobs reach the workers: the messages of NATS ([internal/queue/nats.go]) and of the
    queue in one process ([local.go]), the route of a job between the two pipelines
    ([routeAIJob], [shouldFallbackToLegacy]), and the semaphore that bounds the jobs that run
    at once ([dynamicSemaphore], [StartConsumer]; [internal/http/handlers/ai_job_service.go]).

    The goroutines that share the semaphore take steps in any order; a step is what one
    goroutine does under the lock, or one case of a [select]. *)

From S2P Require Import Prelude GoStrings.
From stdpp Require Import options.
#[local] Open Scope Z_scope.

(** * Messages *)

Definition AIJobSubject : string := "biqly.ai.jobs".
Definition AIJobDLQSubject : string := "biqly.ai.jobs.dlq".
Definition AIJobStream : string := "BIQLY_AI_JOBS".
Definition aiJobMaxDeliver : Z := 3.

Record NATSConfig : Type := mkNATSConfig { URL : string; Stream : string; Subject : string }.
Definition normalizeNATSConfig (cfg : NATSConfig) : NATSConfig :=
  mkNATSConfig (URL cfg) (if str_empty (Stream cfg) then AIJobStream else Stream cfg)
    (if str_empty (Subject cfg) then AIJobSubject else Subject cfg).

(** The subjects wanted, then those there already are; none twice from the second list. *)
Fixpoint merge_new (seen merged existing : list string) : list string :=
  match existing with
  | [] => merged
  | s :: rest => if str_in s seen then merge_new seen merged rest else merge_new (s :: seen) (merged ++ [s]) rest
  end.
Definition mergeStreamSubjects (existing desired : list string) : list string := merge_new desired desired existing.

(** What the consumer answers for one delivery of a message; [ToDLQ] is a copy that was stored. *)
Inductive answer : Type := Ack | Nak | Term | ToDLQ.
(** [NumDelivered], when the message tells it; whether the copy could be stored. *)
Definition handleAIJobFailure (numDelivered : option Z) (dlq_stores : bool) : list answer :=
  match numDelivered with
  | None => [Nak]
  | Some n => if n <? aiJobMaxDeliver then [Nak] else if dlq_stores then [ToDLQ; Term] else [Nak]
  end.
Definition consume (handler_ok : bool) (numDelivered : option Z) (dlq_stores : bool) : list answer :=
  if handler_ok then [Ack] else handleAIJobFailure numDelivered dlq_stores.

(** The deliveries of one message, one after the other, until it is acknowledged or ended; whether
    it left the stream, and the copies it left behind. *)
Definition removed (l : list answer) : bool := existsb (fun a => match a with Ack | Term => true | _ => false end) l.
Fixpoint deliveries (l : list (bool * option Z * bool)) : bool * list answer :=
  match l with
  | [] => (false, [])
  | (ok, n, stores) :: rest =>
      let a := consume ok n stores in
      if removed a then (true, a) else let '(gone, b) := deliveries rest in (gone, a ++ b)
  end.

(** A message leaves the stream only when its job was processed, or with a copy among the dead letters. *)
Lemma no_message_lost l :
  (deliveries l).1 = true -> existsb (fun d => d.1.1) l = true \/ In ToDLQ (deliveries l).2.
Proof.
  induction l as [|[[ok n] stores] l IH]; [done|]. cbn. destruct ok; cbn; [by left|].
  unfold consume, handleAIJobFailure. destruct n as [n|]; [destruct (Z.ltb_spec n aiJobMaxDeliver); [|destruct stores]|]; cbn.
  2: { intros _. right. by left. }
  all: destruct (deliveries l) as [gone b]; cbn in *; intros Hg; destruct (IH Hg) as [He|Hd]; [by left|right; by right].
Qed.

Lemma merge_new_spec seen merged existing :
  (forall x, x ∈ merge_new seen merged existing <-> x ∈ merged \/ (x ∈ existing /\ x ∉ seen)) /\
  (exists l, merge_new seen merged existing = merged ++ l /\ NoDup l /\ Forall (fun x => x ∉ seen) l).
Proof.
  revert seen merged. induction existing as [|s rest IH]; intros seen merged; cbn [merge_new].
  - split; [set_solver|]. exists []. split; [by rewrite List.app_nil_r|]. by split; constructor.
  - destruct (str_in s seen) eqn:Es; [apply str_in_spec in Es|apply str_in_false in Es].
    + destruct (IH seen merged) as [IH1 IH2]. split; [|done]. intros x. rewrite IH1, elem_of_cons. naive_solver.
    + destruct (IH (s :: seen) (merged ++ [s])) as [IH1 (l & Hl & Hn & Hf)]. split.
      * intros x. rewrite IH1, elem_of_app, list_elem_of_singleton, !elem_of_cons. destruct (decide (x = s)) as [->|]; naive_solver.
      * exists (s :: l). rewrite Hl, <- List.app_assoc. split; [done|]. rewrite Forall_forall in Hf. split.
        -- constructor; [|done]. intros Hs. apply (Hf s Hs). by left.
        -- apply Forall_forall. intros x [->|Hx]%elem_of_cons; [done|]. specialize (Hf x Hx). set_solver.
Qed.
(** Every subject of the stream and every subject wanted is kept, the wanted ones first. *)
Lemma mergeStreamSubjects_exact existing desired :
  (forall x, x ∈ mergeStreamSubjects existing desired <-> x ∈ desired \/ x ∈ existing) /\
  desired `prefix_of` mergeStreamSubjects existing desired /\
  (NoDup desired -> NoDup (mergeStreamSubjects existing desired)).
Proof.
  destruct (merge_new_spec desired desired existing) as [Hx (l & Hl & Hn & Hf)]. unfold mergeStreamSubjects. split; [|split].
  - intros x. rewrite Hx. destruct (decide (x ∈ desired)); naive_solver.
  - rewrite Hl. by eexists.
  - intros Hd. rewrite Hl. apply NoDup_app. split; [done|]. split; [|done]. rewrite Forall_forall in Hf. set_solver.
Qed.

(** ** In one process *)

(** [LocalAIJobQueue]: the jobs in the channel, its capacity, and whether it is closed. *)
Record LocalAIJobQueue : Type := mkLocalQueue { ch : list string; capacity : nat; closed : bool }.
Definition NewLocalAIJobQueue (buffer : Z) : LocalAIJobQueue :=
  mkLocalQueue [] (Z.to_nat (if buffer <=? 0 then 64 else buffer)) false.
Inductive published_locally : Type := Sent (q : LocalAIJobQueue) | Blocked | Refused (e : goerr).
(** [ctx_done] is the error of a context that is over; a send on a full channel waits, and when both
    cases of the [select] are ready [first] says which one is taken. *)
Definition LocalPublish (ctx_done : option goerr) (first : bool) (jobID : string) (q : LocalAIJobQueue) : published_locally :=
  if closed q then Refused (EMsg "context canceled") else
  let room := (length (ch q) <? capacity q)%nat in
  match ctx_done with
  | Some e => if room && negb first then Sent (mkLocalQueue (ch q ++ [jobID]) (capacity q) false) else Refused e
  | None => if room then Sent (mkLocalQueue (ch q ++ [jobID]) (capacity q) false) else Blocked
  end.
(** The next job of the consumer; a closed channel gives what is left. *)
Definition LocalReceive (q : LocalAIJobQueue) : option (string * LocalAIJobQueue) :=
  match ch q with [] => None | id :: rest => Some (id, mkLocalQueue rest (capacity q) (closed q)) end.
Definition LocalClose (q : LocalAIJobQueue) : LocalAIJobQueue := mkLocalQueue (ch q) (capacity q) true.

(** * Routes *)

Definition AgentModeShadow : string := "shadow".
Definition AgentModeActive : string := "active".
Record AgentConfig : Type := mkAgentConfig {
  Enabled : bool; Mode : string; JobSubject : string; WorkspaceAllowlist : list string; LegacyFallbackEnabled : bool }.
Record AIJobRoute : Type := mkRoute { LegacySubject : string; AgentSubject : string; AgentAuthoritative : bool }.
Definition legacy_only : AIJobRoute := mkRoute AIJobSubject "" false.
Definition routeAIJob (cfg : AgentConfig) (workspaceID : string) : AIJobRoute :=
  if negb (Enabled cfg) then legacy_only else
  if String.eqb (Mode cfg) AgentModeShadow then mkRoute AIJobSubject (JobSubject cfg) false else
  if String.eqb (Mode cfg) AgentModeActive then
    if bool_decide (WorkspaceAllowlist cfg = []) || str_in workspaceID (WorkspaceAllowlist cfg)
    then mkRoute "" (JobSubject cfg) true else legacy_only
  else legacy_only.
Definition shouldFallbackToLegacy (cfg : AgentConfig) (route : AIJobRoute) (queryExecuteStarted : bool) : bool :=
  if negb (AgentAuthoritative route) || queryExecuteStarted then false else LegacyFallbackEnabled cfg.

(** One pipeline answers the user: the agent exactly when it is enabled, active, and the workspace is
    let in, and then the legacy one does not see the job; a job falls back to it only before its query
    was executed. *)
Lemma routeAIJob_exact cfg workspaceID :
  let route := routeAIJob cfg workspaceID in
  (AgentAuthoritative route = true <-> Enabled cfg = true /\ Mode cfg = AgentModeActive /\
     (WorkspaceAllowlist cfg = [] \/ workspaceID ∈ WorkspaceAllowlist cfg)) /\
  (LegacySubject route = AIJobSubject <-> AgentAuthoritative route = false) /\
  (forall started, shouldFallbackToLegacy cfg route started = true ->
     AgentAuthoritative route = true /\ LegacyFallbackEnabled cfg = true /\ started = false).
Proof.
  cbv zeta. unfold routeAIJob, shouldFallbackToLegacy. destruct (Enabled cfg); cbn [negb]; [|naive_solver].
  destruct (String.eqb_spec (Mode cfg) AgentModeShadow) as [Em|Em]; cbn.
  { rewrite Em. split; [split; [done|by intros (_ & ? & _)]|]. split; [done|]. intros started. done. }
  destruct (String.eqb_spec (Mode cfg) AgentModeActive) as [Ea|Ea]; cbn; [|naive_solver].
  destruct (bool_decide_reflect (WorkspaceAllowlist cfg = [])) as [He|He]; cbn.
  { split; [naive_solver|]. split; [done|]. intros []; [done|]. naive_solver. }
  destruct (str_in workspaceID (WorkspaceAllowlist cfg)) eqn:Es; cbn.
  - apply str_in_spec in Es. split; [naive_solver|]. split; [done|]. intros []; [done|]. naive_solver.
  - apply str_in_false in Es. split; [naive_solver|]. split; [done|]. intros started. done.
Qed.

(** * The semaphore *)

(** Where a goroutine is: outside; at the head of the loop of [Acquire]; in its [select]; past the
    [select], about to take itself off the count of those that wait, to go on or to give up; holding
    the semaphore; in [Release], with goroutines still to wake. *)
Inductive place : Type := Away | Trying | Parked | Woken | Quitting | Holding | Waking (n : nat).
#[global] Instance place_eq_dec : EqDecision place.
Proof. solve_decision. Defined.

Record dynamicSemaphore : Type := mkSemaphore { sem_active : Z; sem_waiting : Z; sem_ch : nat }.
Definition newDynamicSemaphore : dynamicSemaphore := mkSemaphore 0 0 0.
Definition sem_buffer : nat := 1024.
Definition effective_limit (lim : Z) : Z := if lim <=? 0 then 1 else lim.

Inductive sem_step : Type :=
| Begin
| Attempt (limit : Z)
| TakeToken
| TimeOut
| ContextDone
| LeaveWait
| Release_ (limit : Z)
| WakeOne
| Finished.

(** What a goroutine at a place does to the semaphore, and where it is then; [None] when it cannot. *)
Definition sem_act (e : sem_step) (s : dynamicSemaphore) (p : place) : option (dynamicSemaphore * place) :=
  match e, p with
  | Begin, Away => Some (s, Trying)
  | Attempt limit, Trying =>
      let lim := effective_limit limit in
      if sem_active s <? lim then Some (mkSemaphore (sem_active s + 1) (sem_waiting s) (sem_ch s), Holding)
      else Some (mkSemaphore (sem_active s) (sem_waiting s + 1) (sem_ch s), Parked)
  | TakeToken, Parked =>
      match sem_ch s with
      | O => None
      | S n => Some (mkSemaphore (sem_active s) (sem_waiting s) n, Woken)
      end
  | TimeOut, Parked => Some (s, Trying)
  | ContextDone, Parked => Some (s, Quitting)
  | LeaveWait, Woken => Some (mkSemaphore (sem_active s) (sem_waiting s - 1) (sem_ch s), Trying)
  | LeaveWait, Quitting => Some (mkSemaphore (sem_active s) (sem_waiting s - 1) (sem_ch s), Away)
  | Release_ limit, Holding =>
      let active := if 0 <? sem_active s then sem_active s - 1 else sem_active s in
      let lim := effective_limit limit in
      let toWake := if (0 <? sem_waiting s) && (active <? lim) then Z.min (lim - active) (sem_waiting s) else 0 in
      Some (mkSemaphore active (sem_waiting s) (sem_ch s), Waking (Z.to_nat toWake))
  | WakeOne, Waking (S n) =>
      Some (mkSemaphore (sem_active s) (sem_waiting s) (if (sem_ch s <? sem_buffer)%nat then S (sem_ch s) else sem_ch s), Waking n)
  | Finished, Waking O => Some (s, Away)
  | _, _ => None
  end.

(** A number of goroutines; step [e] of goroutine [i]. *)
Definition sem_go (c : dynamicSemaphore * list place) (ie : nat * sem_step) : option (dynamicSemaphore * list place) :=
  match c.2 !! ie.1 with
  | Some p => match sem_act ie.2 c.1 p with Some (s, p') => Some (s, <[ie.1 := p']> c.2) | None => None end
  | None => None
  end.
Fixpoint sem_run (c : dynamicSemaphore * list place) (l : list (nat * sem_step)) : option (dynamicSemaphore * list place) :=
  match l with
  | [] => Some c
  | ie :: l => match sem_go c ie with Some c' => sem_run c' l | None => None end
  end.

(** ** What it bounds *)

Definition holds (p : place) : Z := match p with Holding => 1 | _ => 0 end.
Definition waits (p : place) : Z := match p with Parked | Woken | Quitting => 1 | _ => 0 end.
Definition count_places (f : place -> Z) (l : list place) : Z := foldr (fun p n => f p + n) 0 l.
Definition timeouts (l : list (nat * sem_step)) : Z :=
  Z.of_nat (length (List.filter (fun ie => match ie.2 with TimeOut => true | _ => false end) l)).
(** Every limit read when a goroutine tries to acquire is at most [L]. *)
Definition limits_at_most (L : Z) (l : list (nat * sem_step)) : Prop :=
  Forall (fun ie => match ie.2 with Attempt limit => effective_limit limit <= L | _ => True end) l.

Lemma count_cons f p l : count_places f (p :: l) = f p + count_places f l.
Proof. done. Qed.
Lemma count_update f l i p p' : l !! i = Some p -> count_places f (<[i := p']> l) = count_places f l - f p + f p'.
Proof.
  revert i. induction l as [|q l IH]; intros [|i] Hi; [done|done| |]; cbn in Hi.
  - injection Hi as ->. cbn [insert list_insert]. rewrite !count_cons. lia.
  - change (<[S i := p']> (q :: l)) with (q :: <[i := p']> l). rewrite !count_cons, IH by done. lia.
Qed.

Lemma count_away f n : f Away = 0 -> count_places f (replicate n Away) = 0.
Proof. intros Hf. induction n as [|n IH]; [done|]. cbn [replicate]. by rewrite count_cons, Hf, IH. Qed.

Definition sem_inv (L t : Z) (c : dynamicSemaphore * list place) : Prop :=
  sem_active c.1 = count_places holds c.2 /\ sem_waiting c.1 = count_places waits c.2 + t /\
  count_places holds c.2 <= L /\ 0 <= count_places holds c.2 /\ (sem_ch c.1 <= sem_buffer)%nat.

Lemma holds_nonneg l : 0 <= count_places holds l.
Proof. induction l as [|p l IH]; [done|]. rewrite count_cons. destruct p; cbn [holds]; lia. Qed.

Lemma sem_go_inv L t c ie c' : 0 <= L ->
  match ie.2 with Attempt limit => effective_limit limit <= L | _ => True end ->
  sem_inv L t c -> sem_go c ie = Some c' -> sem_inv L (t + match ie.2 with TimeOut => 1 | _ => 0 end) c'.
Proof.
  intros HL Hlim (Ha & Hw & Hb & Hp & Hc). unfold sem_go. destruct (c.2 !! ie.1) as [p|] eqn:Ep; [|done].
  destruct (sem_act ie.2 c.1 p) as [[s p']|] eqn:Es; [|done]. intros [= <-].
  pose proof (holds_nonneg (<[ie.1 := p']> c.2)) as Hn. unfold sem_inv. cbn [fst snd] in *.
  rewrite !(count_update _ _ _ _ p' Ep) in *.
  destruct ie as [i e]; cbn [fst snd] in *; destruct e, p as [| | | | | |[|m]]; cbn [sem_act] in Es; try discriminate Es.
  all: repeat match type of Es with
    | (if ?x <? ?y then _ else _) = _ => destruct (Z.ltb_spec x y)
    | match ?n with O => _ | S _ => _ end = _ => destruct n eqn:?; [discriminate Es|]
    end.
  all: injection Es as <- <-; cbn [sem_active sem_waiting sem_ch holds waits] in *.
  all: try lia.
  - destruct (Z.ltb_spec 0 (sem_active c.1)); lia.
  - destruct (Nat.ltb_spec (sem_ch c.1) sem_buffer); lia.
Qed.

Lemma timeouts_cons ie l : timeouts (ie :: l) = match ie.2 with TimeOut => 1 | _ => 0 end + timeouts l.
Proof. unfold timeouts. cbn [List.filter]. destruct ie.2; cbn [length]; lia. Qed.
Lemma sem_run_inv L t c l c' : 0 <= L -> limits_at_most L l -> sem_inv L t c -> sem_run c l = Some c' -> sem_inv L (t + timeouts l) c'.
Proof.
  intros HL. revert t c. induction l as [|ie l IH]; intros t c Hf Hi Hr; cbn in Hr.
  - injection Hr as <-. change (timeouts []) with 0. by rewrite Z.add_0_r.
  - apply Forall_cons in Hf as [Hlim Hf]. destruct (sem_go c ie) as [c1|] eqn:Eg; [|done].
    pose proof (sem_go_inv L t c ie c1 HL Hlim Hi Eg) as Hi1. pose proof (IH _ _ Hf Hi1 Hr) as Hi'.
    by rewrite timeouts_cons, Z.add_assoc.
Qed.

(** However the goroutines that share the semaphore interleave, and whatever each of them finds the
    configured limit to be, no more of them hold it than the largest limit found (at least one), and the
    count of the active is the number that hold it.  The count of those that wait is not theirs: it is
    too high by one for each time a wait timed out, since that case of the [select] does not take it
    back. *)
Theorem semaphore_bounded L n trace s places :
  limits_at_most L trace -> 1 <= L ->
  sem_run (newDynamicSemaphore, replicate n Away) trace = Some (s, places) ->
  count_places holds places <= L /\ sem_active s = count_places holds places /\
  sem_waiting s = count_places waits places + timeouts trace.
Proof.
  intros Hl HL Hr. assert (Hi : sem_inv L 0 (newDynamicSemaphore, replicate n Away)).
  { unfold sem_inv. cbn [fst snd]. rewrite !count_away by done. cbn [newDynamicSemaphore sem_active sem_waiting sem_ch]. lia. }
  pose proof (sem_run_inv L 0 _ trace _ ltac:(lia) Hl Hi Hr) as (Ha & Hw & Hb & _). cbn [fst snd] in *. lia.
Qed.

(** Two goroutines and a limit of one: the second waits, gives up waiting after a second, and gets in
    when the first is gone; it is counted among those that wait ever after. *)
Definition sem_trace : list (nat * sem_step) :=
  [(0, Begin); (0, Attempt 1); (1, Begin); (1, Attempt 1); (1, TimeOut); (0, Release_ 1); (0, WakeOne); (0, Finished); (1, Attempt 1)]%nat.
Example wait_leaks : sem_run (newDynamicSemaphore, replicate 2 Away) sem_trace = Some (mkSemaphore 1 1 1, [Away; Holding]).
Proof. reflexivity. Qed.
Lemma semaphore_bounded_witness : count_places holds [Away; Holding] <= 1 /\ sem_active (mkSemaphore 1 1 1) = 1 /\
  sem_waiting (mkSemaphore 1 1 1) = 0 + timeouts sem_trace.
Proof.
  apply (semaphore_bounded 1 2 sem_trace).
  - unfold limits_at_most, sem_trace. repeat (constructor; cbn; [done || lia|]). constructor.
  - lia.
  - reflexivity.
Defined.
