(* ===== verification/AIJobSafety.v ===== *)
(** What holds of the AI jobs however requests and workers interleave.

    A job keeps what it was made with and is never removed; its status, its progress and its
    instants stay in their ranges; whoever is not an administrator changes, and is shown,
    only jobs of its own; and the progress of a job that a worker runs does not go back.
    Then what single operations do: what an accepted job is, and the queue status. *)

From S2P Require Import Prelude GoStrings Interleave Tables AIJobs AIJobService AIJobHandlers.
From stdpp Require Import options.
#[local] Open Scope Z_scope.

(** * Rows *)

Lemma active_not_terminal s : s ∈ active_statuses -> s ∉ terminal_statuses.
Proof.
  assert (Hf : Forall (fun s => str_in s terminal_statuses = false) active_statuses) by (repeat constructor).
  rewrite Forall_forall in Hf. intros Hs. apply str_in_false. by apply Hf.
Qed.

(** What a job is made with. *)
Definition identity (j : AIJob) : string * string * option string * string * string * option string * list string * string * Z :=
  (j_ID j, j_ClientSessionID j, j_UserID j, j_Locale j, j_Kind j, j_DatasourceID j, j_ScopeSchemas j, j_RequestJSON j, j_CreatedAt j).
Definition job_kept (j j' : AIJob) : Prop :=
  identity j' = identity j /\ (forall t, j_StartedAt j = Some t -> j_StartedAt j' = Some t).
Definition table_kept (t t' : Table) : Prop := forall k j, t !! k = Some j -> exists j', t' !! k = Some j' /\ job_kept j j'.

Definition terminal (j : AIJob) : Prop := j_Status j ∈ terminal_statuses.
Definition job_ok (k : string) (j : AIJob) : Prop :=
  j_ID j = k /\ check_job j = Ok tt /\ (terminal j -> is_Some (j_FinishedAt j)).
Definition jobs_ok (t : Table) : Prop := forall k j, t !! k = Some j -> job_ok k j.

#[global] Instance job_kept_preorder : PreOrder job_kept.
Proof.
  split; [done|]. intros j1 j2 j3 [H1 H1'] [H2 H2']. split; [by rewrite H2|]. auto.
Qed.
#[global] Instance table_kept_preorder : PreOrder table_kept.
Proof.
  split; [by intros t k j Hk; exists j|]. intros t1 t2 t3 H1 H2 k j Hk. destruct (H1 k j Hk) as (j' & Hk' & Hj').
  destruct (H2 k j' Hk') as (j'' & Hk'' & Hj''). exists j''. split; [done|]. by transitivity j'.
Qed.

(** The table is kept, and stays in order. *)
Definition well_kept (t t' : Table) : Prop := table_kept t t' /\ (jobs_ok t -> jobs_ok t').
#[global] Instance well_kept_preorder : PreOrder well_kept.
Proof.
  split; [by split|]. intros t1 t2 t3 [H1 H1'] [H2 H2']. split; [by transitivity t2|auto].
Qed.

(** A relation on tables, of the worlds that hold them. *)
Definition jobs_in (T : relation Table) (w w' : JobWorld) : Prop := T (jobs w) (jobs w').
#[global] Instance jobs_in_preorder T `{!PreOrder T} : PreOrder (jobs_in T).
Proof. split; [intros w; unfold jobs_in; reflexivity|]. intros w1 w2 w3. unfold jobs_in. apply transitivity. Qed.

Lemma insert_kept t k j : t !! k = None -> job_ok k j -> well_kept t (<[k := j]> t).
Proof.
  intros Hn Hj. split.
  - intros k' j' Hk. exists j'. rewrite lookup_insert_ne by congruence. done.
  - intros Ht k' j'. destruct (decide (k = k')) as [<-|Hne].
    + rewrite lookup_insert_eq. by intros [= <-].
    + rewrite lookup_insert_ne by done. apply Ht.
Qed.

(** An update that sets no more than the state of the rows it touches. *)
Definition fair_update (f : AIJob -> AIJob) : Prop :=
  forall j, job_kept j (f j) /\ ((terminal j -> is_Some (j_FinishedAt j)) -> terminal (f j) -> is_Some (j_FinishedAt (f j))).
Lemma update_jobs_ok P f t t' n : update_jobs P f t = Ok (t', n) ->
  t' = update_where P f t /\ n = affected P t /\ forall k j, t !! k = Some j -> P j = true -> check_job (f j) = Ok tt.
Proof.
  unfold update_jobs. intros Hu. apply res_bind_ok in Hu as (l & Hl & [= <- <-]). split; [done|]. split; [done|].
  intros k j Hk HP. apply res_mapM_ok in Hl. assert (Hin : j ∈ select P t) by (apply list_elem_of_In, select_In; eauto).
  apply list_elem_of_lookup in Hin as [i Hi]. destruct (Forall2_lookup_l _ _ _ _ _ Hl Hi) as ([] & _ & Hc). done.
Qed.
Lemma update_kept P f t t' n : fair_update f -> update_jobs P f t = Ok (t', n) -> well_kept t t'.
Proof.
  intros Hf Hu. apply update_jobs_ok in Hu as (-> & _ & Hc). split.
  - intros k j Hk. rewrite lookup_update_where, Hk. cbn. eexists. split; [done|]. destruct (P j); [apply Hf|done].
  - intros Ht k j'. rewrite lookup_update_where. destruct (t !! k) as [j|] eqn:Hk; [|done]. cbn. intros [= <-].
    destruct (Ht k j Hk) as (Hid & Hck & Hfin). destruct (P j) eqn:HP; [|done].
    destruct (Hf j) as ((Hi & _) & Hfin'). split; [|split; [by eapply Hc|by apply Hfin']].
    rewrite <- Hid. unfold identity in Hi. by simplify_eq.
Qed.

Lemma mark_running_fair now : fair_update (mark_running now).
Proof.
  intros j. split.
  - split; [done|]. intros t Ht. cbn. by rewrite Ht.
  - intros _ Hr. exfalso. revert Hr. unfold terminal. cbn. set_solver.
Qed.
Lemma complete_fair r now : fair_update (complete r now).
Proof. intros j. split; [done|]. intros _ _. by eexists. Qed.
Lemma fail_fair m now : fair_update (fail m now).
Proof. intros j. split; [done|]. intros _ _. by eexists. Qed.
Lemma cancel_fair now : fair_update (cancel now).
Proof. intros j. split; [done|]. intros _ _. by eexists. Qed.
#[global] Hint Resolve mark_running_fair complete_fair fail_fair cancel_fair : steps.

(** A report of progress as the jobs make them. *)
Definition honest (p : AIJobProgress) : Prop := p_Status p = AIJobStatusRunning /\ 0 <= p_Progress p <= 100.

(** * Statements *)

Section Primitives.
Context `{JobEnv}.

Section Relations.
Context (T : relation Table) `{!Reflexive T}.

Lemma statement_in {A} (f : Z -> Table -> res (Table * A)) :
  (forall now t t' a, f now t = Ok (t', a) -> T t t') -> steps_in (jobs_in T) (statement f).
Proof using Type*.
  intros Hf. apply steps_in_atomic. intros w. unfold jobs_in. specialize (Hf (jtime (j_tick w)) (jobs w)).
  destruct (f _ _) as [[t a]|e]; destruct (jdb_fault _) as [[e' []]|]; cbn; try reflexivity; by eapply Hf.
Qed.
Lemma reading_in {A} (f : Z -> Table -> res A) : steps_in (jobs_in T) (reading f).
Proof using Type*. apply statement_in. intros now t t' a Ht. destruct (f now t) as [b|e]; [|done]. cbn in Ht. by injection Ht as <- <-. Qed.
Lemma quiet_in {A} (f : JobWorld -> JobWorld * A) : (forall w, jobs (f w).1 = jobs w) -> steps_in (jobs_in T) (atomic f).
Proof using Type*. intros Hf. apply steps_in_atomic. intros w. unfold jobs_in. by rewrite Hf. Qed.
Lemma outside_job_in {A} (f : nat -> A) : steps_in (jobs_in T) (outside f).
Proof using Type*. by apply quiet_in. Qed.
Lemma Publish_in id : steps_in (jobs_in T) (Publish id).
Proof using Type*. apply steps_in_wrap, quiet_in. intros w. by destruct (publish_fault _). Qed.
End Relations.

(** The statements that write, by the rows they touch. *)
Lemma on_id_ok id P f (t t' : Table) {A} (g : nat -> A) a :
  (let? id := uuid id in let? r := update_jobs (with_id id P) (f : AIJob -> AIJob) t in Ok (r.1, g r.2)) = Ok (t', a) ->
  exists k n, uuid id = Ok k /\ update_jobs (with_id k P) f t = Ok (t', n) /\ a = g n.
Proof using.
  intros Ht. apply res_bind_ok in Ht as (k & Hk & Ht). apply res_bind_ok in Ht as ([t1 n] & Hu & [= <- <-]). by exists k, n.
Qed.
Lemma insert_job_ok job now t t' a : insert_job job now t = Ok (t', a) ->
  exists k row, uuid (j_ID job) = Ok k /\ t !! k = None /\ t' = <[k := row]> t /\ check_job row = Ok tt /\ j_ID row = k /\
    j_UserID row = j_UserID job /\ j_ClientSessionID row = j_ClientSessionID job /\ j_Kind row = j_Kind job /\ j_Status row = j_Status job /\
    j_ProgressPct row = j_ProgressPct job /\ j_ScopeSchemas row = j_ScopeSchemas job /\ uuid_opt (j_DatasourceID job) = Ok (j_DatasourceID row) /\
    jsonb (j_RequestJSON job) = Ok (j_RequestJSON row) /\ j_CreatedAt row = now.
Proof using.
  unfold insert_job. intros Hi. apply res_bind_ok in Hi as (k & Hk & Hi). apply res_bind_ok in Hi as (ds & Hds & Hi).
  apply res_bind_ok in Hi as (rq & Hrq & Hi). apply res_bind_ok in Hi as ([] & Hc & Hi).
  case_bool_decide as Hn; [done|]. injection Hi as <- _. exists k. eexists. split; [done|].
  split; [by rewrite <- eq_None_not_Some in Hn|]. split; [reflexivity|]. split; [exact Hc|]. done.
Qed.
End Primitives.

(** * Walking through the programs *)

Ltac unwritten_job := idtac;
  lazymatch goal with
  | |- steps_in _ (reading _) => apply reading_in; exact _
  | |- steps_in _ (outside _) => apply outside_job_in; exact _
  | |- steps_in _ (Publish _) => apply Publish_in; exact _
  | |- steps_in _ (atomic _) => apply quiet_in; [exact _|done]
  end.
Ltac no_job_statement f := lazymatch f with @statement => fail | @atomic => fail | _ => idtac end.
Ltac job_steps_by leaf := steps_walk unwritten_job leaf no_job_statement.

(** * Jobs are kept *)

Section Kept.
Context `{JobEnv} `{AIWork}.
#[local] Abbreviation kept := (jobs_in well_kept).

Ltac fair_statement := idtac;
  apply statement_in; [exact _|]; intros ?now ?t ?t' ?a ?Hs; res_inv;
  repeat match goal with r : Table * nat |- _ => destruct r end; cbn [fst snd] in *;
  eapply update_kept; [|eassumption]; auto with steps.
Ltac fair := job_steps_by fair_statement.

Lemma CreateAIJob_kept job : job = None \/ (exists j, job = Some j /\ j_Status j ∈ active_statuses) -> steps_in kept (CreateAIJob job).
Proof using.
  intros [->|(j & -> & Hs)]; [done|]. apply steps_in_wrap, statement_in; [exact _|]. intros now t t' [] Hi.
  apply insert_job_ok in Hi as (k & row & _ & Hn & -> & Hc & Hk & _ & _ & _ & Hst & _). apply insert_kept; [done|].
  split; [done|]. split; [done|]. unfold terminal. rewrite Hst. intros Ht. by destruct (active_not_terminal _ Hs).
Qed.
Lemma TryMarkAIJobRunning_kept id : steps_in kept (TryMarkAIJobRunning id).
Proof using. fair. Qed.
Lemma MarkAIJobRunning_kept id : steps_in kept (MarkAIJobRunning id).
Proof using. fair. Qed.
Lemma CompleteAIJob_kept id r : steps_in kept (CompleteAIJob id r).
Proof using. fair. Qed.
Lemma FailAIJob_kept id m : steps_in kept (FailAIJob id m).
Proof using. fair. Qed.
Lemma CancelAIJob_kept id : steps_in kept (CancelAIJob id).
Proof using. fair. Qed.
Lemma CancelAIJobs_kept ids : steps_in kept (CancelAIJobs ids).
Proof using. fair. Qed.
Lemma CancelAIJobsOwned_kept ids u s : steps_in kept (CancelAIJobsOwned ids u s).
Proof using. fair. Qed.
Lemma CancelActiveAIJobsBySession_kept s : steps_in kept (CancelActiveAIJobsBySession s).
Proof using. fair. Qed.
Lemma report_kept id p : honest p -> steps_in kept (report_to id p).
Proof using.
  intros [Hs Hp]. apply steps_in_bind; [|done]. apply steps_in_wrap, statement_in; [exact _|]. intros now t t' a Hu. res_inv.
  destruct a2 as [t1 n]. eapply update_kept; [|done]. intros j. split; [done|]. intros _ Hr. exfalso. revert Hr.
  unfold terminal. cbn. rewrite Hs. cbn. set_solver.
Qed.
End Kept.
#[global] Hint Resolve TryMarkAIJobRunning_kept MarkAIJobRunning_kept CompleteAIJob_kept FailAIJob_kept CancelAIJob_kept CancelAIJobs_kept
  CancelAIJobsOwned_kept CancelActiveAIJobsBySession_kept report_kept : steps.

(** * The work of a job *)

(** A job reports honestly: it is running, and so many percent done. *)
Section Reports.
Context `{JobEnv} `{AIWork} (T : relation Table) `{!Reflexive T} (report : Reporter) (Hreport : forall p, honest p -> steps_in (jobs_in T) (report p)).

Lemma tell_in p : honest p -> steps_in (jobs_in T) (tell (Some report) p).
Proof using Hreport. apply Hreport. Qed.
Lemma running_honest phase message pct : 0 <= pct <= 100 -> honest (running phase message pct).
Proof using. by split. Qed.

Ltac tells := idtac;
  first [ apply tell_in; try (apply running_honest; lia)
        | match goal with IH : forall _, _ |- _ => apply IH; fail end ].
Ltac working := job_steps_by tells.

Lemma executeAIQueryPhase_in ctx req phase : steps_in (jobs_in T) (executeAIQueryPhase ctx req phase (Some report)).
Proof using Type*. unfold executeAIQueryPhase. working. Qed.
Lemma executeMetadataDescribeJob_in ctx req : steps_in (jobs_in T) (executeMetadataDescribeJob ctx req (Some report)).
Proof using Type*. unfold executeMetadataDescribeJob. working. Qed.
Lemma executeEmbedMetadataJob_in req : steps_in (jobs_in T) (executeEmbedMetadataJob req (Some report)).
Proof using Type*. unfold executeEmbedMetadataJob. working. Qed.

(** How far a batch is when it starts with a table. *)
Lemma batch_pct index total : 0 <= index < total -> 5 <= 5 + Z.quot (index * 90) (Z.max total 1) <= 95.
Proof using.
  intros Hi. rewrite Z.max_l by lia. rewrite Z.quot_div_nonneg by lia.
  pose proof (Z.div_le_upper_bound (index * 90) total 90 ltac:(lia) ltac:(lia)). pose proof (Z.div_pos (index * 90) total ltac:(lia) ltac:(lia)). lia.
Qed.
Lemma describe_batch_loop_in ctx jobID req existing total index tables out completed :
  0 <= index -> index + Z.of_nat (length tables) = total ->
  steps_in (jobs_in T) (describe_batch_loop ctx jobID req (Some report) existing total index tables out completed).
Proof using Type*.
  revert index out completed. induction tables as [|target rest IH]; intros index out completed Hi Ht; cbn [describe_batch_loop].
  - working.
  - cbn [length] in Ht. assert (Hnext : forall out completed, steps_in (jobs_in T)
      (describe_batch_loop ctx jobID req (Some report) existing total (index + 1) rest out completed)) by (intros; apply IH; lia).
    clear IH. cbv zeta. apply steps_in_bind; [working|]. intros []; [done|].
    destruct (_ || _); [apply Hnext|]. destruct (_ && _); [apply Hnext|].
    apply steps_in_bind; [|intros _; apply steps_in_bind; [working|intros; apply Hnext]].
    apply tell_in. split; [done|]. cbn [p_Progress]. pose proof (batch_pct index total ltac:(lia)). lia.
Qed.
Lemma executeMetadataDescribeBatchJob_in ctx jobID req : steps_in (jobs_in T) (executeMetadataDescribeBatchJob ctx jobID req (Some report)).
Proof using Type*.
  unfold executeMetadataDescribeBatchJob. destruct (_ || _); [done|]. apply steps_in_bind; [working|]. intros [existing|e]; [|done].
  apply steps_in_bind; [|done]. apply describe_batch_loop_in; lia.
Qed.

Lemma chunk_starts_lt n start : start ∈ chunk_starts n -> (start < n)%nat.
Proof using.
  unfold chunk_starts, describeRelationsChunkSize. intros Hs. apply list_elem_of_fmap in Hs as (k & -> & Hk).
  apply elem_of_seq in Hk. pose proof (Nat.Div0.mul_div_le (n + (8 - 1)) 8). lia.
Qed.
Lemma chunk_pct start n : (start < n)%nat -> 10 <= 10 + Z.quot (85 * Z.of_nat start) (Z.of_nat n) <= 95.
Proof using.
  intros Hs. rewrite Z.quot_div_nonneg by lia.
  pose proof (Z.div_le_upper_bound (85 * Z.of_nat start) (Z.of_nat n) 85 ltac:(lia) ltac:(lia)).
  pose proof (Z.div_pos (85 * Z.of_nat start) (Z.of_nat n) ltac:(lia) ltac:(lia)). lia.
Qed.
Lemma persistRelationDescriptions_in chunk descriptions locale updated :
  steps_in (jobs_in T) (persistRelationDescriptions chunk descriptions locale updated).
Proof using Type*.
  revert updated. induction descriptions as [|d rest IH]; intros updated; cbn [persistRelationDescriptions]; [done|]. cbv zeta.
  destruct (_ || _); [apply IH|]. apply steps_in_bind; [working|]. intros [[]|e]; [|done].
  destruct (_ || _); [apply IH|]. apply steps_in_bind; [working|]. intros [[]|e]; [apply IH|done].
Qed.
Lemma describe_chunks_in targets locale starts updated : Forall (fun start => (start < length targets)%nat) starts ->
  steps_in (jobs_in T) (describe_chunks targets locale (Some report) starts updated).
Proof using Type*.
  intros Hs. revert updated. induction Hs as [|start starts Hlt _ IH]; intros updated; cbn [describe_chunks]; [done|].
  apply steps_in_bind; [working|]. intros [[]|e]; [|done]. cbv zeta. apply steps_in_bind.
  { apply tell_in, running_honest. pose proof (chunk_pct start (length targets) Hlt). lia. }
  intros _. apply steps_in_bind; [working|]. intros [[ds|e]|e]; [|done|done].
  apply steps_in_bind; [apply persistRelationDescriptions_in|]. intros [n [e|]]; [done|apply IH].
Qed.
Lemma executeDescribeRelationsJob_in ctx req : steps_in (jobs_in T) (executeDescribeRelationsJob ctx req (Some report)).
Proof using Type*.
  unfold executeDescribeRelationsJob. destruct (negb _); [done|]. cbv zeta. apply steps_in_try; [working|]. intros all.
  apply steps_in_bind; [working|]. intros _. apply steps_in_bind; [|intros [n [e|]]; [done|working]].
  unfold describeRelationsCore. apply steps_in_bind; [working|]. intros [[]|e]; [|done]. apply describe_chunks_in, Forall_forall.
  intros start. apply chunk_starts_lt.
Qed.

Lemma processJob_in ctx job : steps_in (jobs_in T) (processJob ctx job (Some report)).
Proof using Type*.
  unfold processJob. cbv zeta.
  repeat match goal with |- steps_in _ (if ?b then _ else _) => destruct b end; [| | | | |done];
    repeat (apply steps_in_try; [done|intros]); (apply steps_in_bind; [|intros; exact I]).
  - apply executeAIQueryPhase_in.
  - apply executeMetadataDescribeJob_in.
  - apply executeMetadataDescribeBatchJob_in.
  - apply executeDescribeRelationsJob_in.
  - apply executeEmbedMetadataJob_in.
Qed.
End Reports.

Section Actors.
Context `{JobEnv} `{AIWork}.
#[local] Abbreviation kept := (jobs_in well_kept).

Lemma Process_kept ctx id : steps_in kept (Process ctx id).
Proof using.
  unfold Process. apply steps_in_try; [auto with steps|]. intros started. destruct (negb started); [job_steps_by fail|].
  apply steps_in_try; [job_steps_by fail|]. intros job. destruct (String.eqb _ _); [done|]. apply steps_in_bind.
  - apply processJob_in; [exact _|]. intros p Hp. by apply report_kept.
  - intros r. unfold finish_job. job_steps_by fail.
Qed.
Lemma Enqueue_kept s l kind sid u req : steps_in kept (Enqueue s l kind sid u req).
Proof using.
  unfold Enqueue. destruct (str_empty _); [done|]. apply steps_in_try; [done|]. intros _. cbv zeta.
  apply steps_in_try; [job_steps_by fail|]. intros [[ds scope]|conflict]; [|done]. apply steps_in_bind; [job_steps_by fail|]. intros id.
  apply steps_in_try; [|intros _; job_steps_by fail]. apply CreateAIJob_kept. right. eexists. split; [done|]. cbn. set_solver.
Qed.
Lemma serve_job_kept s c r : steps_in kept (serve_job s c r).
Proof using. destruct r; cbn [serve_job]; try unfold Create; job_steps_by ltac:(idtac; apply Enqueue_kept). Qed.
End Actors.

(** * Owners *)

(** An update touches only rows that satisfy [P]. *)
Definition touches (P : AIJob -> Prop) (t t' : Table) : Prop := forall k j, t !! k = Some j -> P j \/ t' !! k = Some j.
Definition confined (P : AIJob -> Prop) (t t' : Table) : Prop := well_kept t t' /\ touches P t t'.
#[global] Instance confined_reflexive P : Reflexive (confined P).
Proof. intros t. split; [reflexivity|]. intros k j Hk. by right. Qed.

Lemma owned_identity j j' u s : identity j = identity j' -> aiJobOwnedBy j u s = aiJobOwnedBy j' u s.
Proof. unfold identity, aiJobOwnedBy. intros Hi. injection Hi as _ Hs Hu _ _ _ _ _ _. by rewrite Hs, Hu. Qed.

Lemma update_touches (P : AIJob -> Prop) C f t t' n : fair_update f -> update_jobs C f t = Ok (t', n) ->
  (forall k j, t !! k = Some j -> C j = true -> P j) -> confined P t t'.
Proof.
  intros Hf Hu HP. split; [by eapply update_kept|]. apply update_jobs_ok in Hu as (-> & _ & _). intros k j Hk.
  rewrite lookup_update_where, Hk. cbn. destruct (C j) eqn:HC; [left; by eapply HP|by right].
Qed.

Section Owners.
Context `{JobEnv} `{AIWork} (c : Caller) (rq : JobRequest).
Definition own (j : AIJob) : Prop := aiJobOwnedBy j (UserID c) (session_named rq) = true.
#[local] Abbreviation kept := (jobs_in well_kept).
#[local] Abbreviation mine := (jobs_in (confined own)).

Definition own_row (k : string) (w : JobWorld) : Prop := jobs_ok (jobs w) /\ exists j, jobs w !! k = Some j /\ own j.
Lemma own_row_stable k w w' : kept w w' -> own_row k w -> own_row k w'.
Proof using.
  intros [Hk Hok] [Ho (j & Hj & Hown)]. split; [by apply Hok|]. destruct (Hk k j Hj) as (j' & Hj' & Hi & _). exists j'. split; [done|].
  unfold own. by rewrite (owned_identity _ _ _ _ Hi).
Qed.

(** A statement, whatever was done to the jobs before and is done after. *)
Lemma rg_statement {A} (f : Z -> Table -> res (Table * A)) (Q : res A -> JobWorld -> Prop) w :
  (forall w1 now t' a, kept w w1 -> f now (jobs w1) = Ok (t', a) -> confined own (jobs w1) t') ->
  (forall w1 now r w3, kept w w1 -> kept w1 w3 ->
     (forall a, r = Ok a -> exists t', f now (jobs w1) = Ok (t', a) /\ well_kept t' (jobs w3)) -> Q r w3) ->
  rg kept mine (statement f) Q w.
Proof using.
  intros Hf HQ. apply rg_atomic. intros w1 Hk. specialize (Hf w1 (jtime (j_tick w1))). specialize (HQ w1 (jtime (j_tick w1))).
  unfold kept, jobs_in in *. destruct (f _ _) as [[t a]|e].
  - pose proof (Hf t a Hk eq_refl) as Hc. destruct (jdb_fault _) as [[e []]|]; cbn.
    + split; [done|]. intros w3 Hw3. apply HQ; [done|by transitivity t; [apply Hc|]|done].
    + split; [reflexivity|]. intros w3 Hw3. by apply HQ.
    + split; [done|]. intros w3 Hw3. apply HQ; [done|by transitivity t; [apply Hc|]|]. intros a' [= <-]. by exists t.
  - destruct (jdb_fault _) as [[e' []]|]; cbn; (split; [reflexivity|]); intros w3 Hw3; by apply HQ.
Qed.
(** A statement on the row of a job of the caller. *)
Lemma rg_own_row {A} id k P (f : Z -> AIJob -> AIJob) (g : nat -> A) w : uuid id = Ok k -> (forall now, fair_update (f now)) -> own_row k w ->
  rg kept mine (statement (fun now t => let? id := uuid id in let? r := update_jobs (with_id id P) (f now) t in Ok (r.1, g r.2)))
    (fun _ => own_row k) w.
Proof using.
  intros Hid Hf Hw. apply rg_statement.
  - intros w1 now t' a Hk1 Ht. pose proof (own_row_stable k w w1 Hk1 Hw) as [Hok (j & Hj & Hown)].
    apply on_id_ok in Ht as (k' & n & Hk' & Hu & _). rewrite Hid in Hk'. injection Hk' as <-.
    eapply update_touches; [apply Hf|exact Hu|]. intros k' j' Hj' HC.
    apply andb_true_iff in HC as [HC _]. apply String.eqb_eq in HC. destruct (Hok k' j' Hj') as (Hid' & _). congruence.
  - intros w1 now r w3 Hk1 Hk3 _. eapply own_row_stable; [exact Hk3|]. by eapply own_row_stable.
Qed.
Lemma rg_GetAIJob id k w : uuid id = Ok k -> own_row k w ->
  rg kept mine (GetAIJob id) (fun r w' => own_row k w' /\ forall j, r = Ok j -> own j) w.
Proof using.
  intros Hid Hw. unfold GetAIJob, reading. apply rg_statement.
  - intros w1 now t' a Hk1 Ht. res_inv. reflexivity.
  - intros w1 now r w3 Hk1 Hk3 Hr. split; [eapply own_row_stable; [exact Hk3|]; by eapply own_row_stable|].
    intros j ->. destruct (Hr j eq_refl) as (t' & Ht & _). rewrite Hid in Ht. cbn in Ht. res_inv.
    destruct (own_row_stable k w w1 Hk1 Hw) as [_ (j' & Hj' & Hown)]. rewrite Hj' in Ha. cbn in Ha. by injection Ha as <-.
Qed.
End Owners.

(** The jobs a reply shows; the job that a conflict names is another matter. *)
Definition shown (b : ReplyBody) : list AIJob :=
  match b with BJob j => [j] | BJobs l => l | BJobsOf l _ => l | _ => [] end.

Section Requests.
Context `{JobEnv} `{AIWork} (s : AIJobService) (c : Caller) (Hrole : aiJobsAdminRole c = false).
#[local] Abbreviation kept := (jobs_in well_kept).
#[local] Abbreviation mine rq := (jobs_in (confined (own c rq))).
Definition shows_own (rq : JobRequest) (reply : Reply) : Prop := Forall (own c rq) (shown (body reply)).

Lemma Cancel_rg rq id k w : uuid id = Ok k -> own_row c rq k w ->
  rg kept (mine rq) (Cancel id) (fun r _ => forall j, r = Ok j -> own c rq j) w.
Proof using.
  intros Hid Hw. unfold Cancel. apply rg_try; [exact _|]. unfold CancelAIJob. apply rg_wrap; [exact _|].
  eapply rg_mono; [eapply (rg_own_row c rq id k active cancel (fun n => (0 <? n)%nat)); [done|apply cancel_fair|done]|].
  intros [ok|e] w1 Hw1 w2 Hk2; cbn [res_map_err]; [|by intros]. pose proof (own_row_stable c rq k w1 w2 Hk2 Hw1) as Hw2.
  assert (Hget : rg kept (mine rq) (GetAIJob id) (fun r _ => forall j, r = Ok j -> own c rq j) w2).
  { eapply rg_mono; [by eapply rg_GetAIJob|]. by intros r w3 [_ Hr]. }
  destruct (negb ok); [|done]. apply rg_try; [exact _|]. eapply rg_mono; [exact Hget|]. intros [job|e] w3 Hj; [|by intros].
  destruct (str_in _ _); cbn; [|by intros]. intros w4 _ j [= <-]. by apply Hj.
Qed.

Lemma GetAIJob_rg rq id w : jobs_ok (jobs w) -> rg kept (mine rq) (GetAIJob id)
  (fun r w' => jobs_ok (jobs w') /\ forall j, r = Ok j -> exists k j', uuid id = Ok k /\ jobs w' !! k = Some j' /\ identity j' = identity j) w.
Proof using.
  intros Hok. unfold GetAIJob, reading. apply rg_statement.
  - intros w1 now t' a _ Ht. res_inv. reflexivity.
  - intros w1 now r w3 Hk1 Hk3 Hr. split; [by apply Hk3, Hk1|]. intros j ->. destruct (Hr j eq_refl) as (t' & Ht & Hk).
    res_inv. destruct (jobs w1 !! a0) as [j1|] eqn:Hj; [|done]. cbn in Ha. injection Ha as ->.
    destruct Hk3 as [Hk3 _]. destruct (Hk3 a0 j Hj) as (j' & Hj' & Hi & _). by exists a0, j'.
Qed.
Lemma CancelJob_rg id q w : jobs_ok (jobs w) ->
  rg kept (mine (RCancel id q)) (CancelJob s c id q) (fun reply _ => shows_own (RCancel id q) reply) w.
Proof using Hrole.
  intros Hok. unfold CancelJob. apply rg_bind; [exact _|]. eapply rg_mono; [by eapply GetAIJob_rg|].
  intros [existing|e] w1 [Hok1 He]; [|intros w2 _; constructor]. cbv zeta. rewrite Hrole. cbn [negb andb].
  destruct (aiJobOwnedBy existing _ _) eqn:Hown; [|intros w2 _; constructor]. cbn [negb].
  destruct (He existing eq_refl) as (k & j & Hid & Hj & Hi).
  assert (Hw1 : own_row c (RCancel id q) k w1).
  { split; [done|]. exists j. split; [done|]. unfold own. by rewrite (owned_identity _ _ _ _ Hi). }
  apply rg_bind; [exact _|]. eapply rg_mono; [by eapply Cancel_rg|]. intros [job|e] w2 Hj2.
  - apply rg_bind; [exact _|]. apply rg_ret. intros w3 _. apply rg_ret. intros w4 _. constructor; [|constructor]. by apply Hj2.
  - destruct (String.eqb _ _); intros w3 _; constructor.
Qed.

Lemma mine_kept rq w w' : mine rq w w' -> kept w w'.
Proof using. by intros [Hk _]. Qed.
Lemma rg_ok {A} rq (m : prog JobWorld A) w : jobs_ok (jobs w) -> steps_in (mine rq) m -> rg kept (mine rq) m (fun _ w' => jobs_ok (jobs w')) w.
Proof using.
  intros Hok Hm. eapply rg_mono; [apply rg_frame; [exact _|by apply mine_kept|done]|]. intros a w' [_ Hk]. by apply Hk.
Qed.

(** A new job, and its end when it could not be published. *)
Lemma CreateAIJob_rg rq job w : jobs_ok (jobs w) -> own c rq job -> j_Status job ∈ active_statuses ->
  rg kept (mine rq) (CreateAIJob (Some job))
    (fun r w' => r = Ok tt -> exists k, uuid (j_ID job) = Ok k /\ own_row c rq k w') w.
Proof using.
  intros Hok Hown Hst. apply rg_wrap; [exact _|]. apply rg_statement.
  - intros w1 now t' [] Hk1 Hi. apply insert_job_ok in Hi as (k & row & _ & Hn & -> & Hc & Hk & _ & _ & _ & Hs & _). split.
    + apply insert_kept; [done|]. split; [done|]. split; [done|]. unfold terminal. rewrite Hs. intros Ht. by destruct (active_not_terminal _ Hst).
    + intros k' j' Hj'. right. rewrite lookup_insert_ne by congruence. done.
  - intros w1 now r w3 Hk1 Hk3 Hr w4 Hk4 Ho. destruct r as [[]|e]; [|done]. destruct (Hr tt eq_refl) as (t' & Hi & Ht').
    apply insert_job_ok in Hi as (k & row & Hid & Hn & -> & Hc & Hk & Hu & Hss & _). exists k. split; [done|].
    eapply own_row_stable; [exact Hk4|]. split; [by apply Hk3, Hk1|]. destruct Ht' as [Ht' _]. destruct (Ht' k row) as (j' & Hj' & Hi' & _).
    { apply lookup_insert_eq. }
    exists j'. split; [done|]. unfold own. rewrite (owned_identity _ _ _ _ Hi'). unfold aiJobOwnedBy. rewrite Hu, Hss. exact Hown.
Qed.
Lemma Enqueue_rg rq l kind sid req w : jobs_ok (jobs w) -> (forall j, j_ClientSessionID j = sid -> sid <> "" -> own c rq j) ->
  rg kept (mine rq) (Enqueue s l kind sid (UserID c) req) (fun r _ => forall j, r = Ok (inl j) -> own c rq j) w.
Proof using.
  clear Hrole. intros Hok Hmine. unfold Enqueue. destruct (str_empty sid) eqn:Hsid; [done|]. apply str_empty_false in Hsid.
  apply rg_try; [exact _|]. apply rg_ret. intros w1 Hk1. destruct (validateAIJobRequest kind req) as [[]|e]; [|done]. cbv zeta.
  apply rg_try; [exact _|]. eapply rg_mono; [apply rg_ok; [by apply Hk1|job_steps_by fail]|].
  intros [[[ds scope]|conflict]|e] w2 Hok2; [|done|done]. apply rg_bind; [exact _|].
  eapply rg_mono; [apply rg_ok; [done|apply outside_job_in; exact _]|]. intros id w3 Hok3. apply rg_try; [exact _|].
  eapply rg_mono; [apply CreateAIJob_rg; [done|by apply Hmine|cbn; set_solver]|].
  intros [[]|e] w4 Hrow; [|done]. destruct (Hrow eq_refl) as (k & Hid & Hw4). cbn [j_ID] in Hid.
  assert (Hjob : forall w : JobWorld, forall j, @Ok (AIJob + Conflict) (inl (mkAIJob id sid (if str_empty (TrimSpace (UserID c)) then None else Some (UserID c))
    (aiJobLocaleFromRequest kind (if str_empty req then "{}" else req) l) kind AIJobStatusQueued "queued" "waiting in queue" 0
    ds scope None (if str_empty req then "{}" else req) None "" zero_time zero_time None None)) = Ok (inl j) -> own c rq j)
    by (intros _ j [= <-]; by apply Hmine).
  destruct (negb (publisher s)); [apply rg_ret; intros w5 _; by apply (Hjob w5)|]. apply rg_bind; [exact _|].
  eapply rg_mono; [apply rg_frame; [exact _|by apply mine_kept|apply Publish_in; exact _]|]. intros [[]|e] w5 Hk5.
  { apply rg_ret. intros w6 _. by apply (Hjob w6). }
  apply rg_bind; [exact _|]. unfold FailAIJob. apply rg_wrap; [exact _|].
  eapply rg_mono; [eapply (rg_own_row c rq id k (fun _ => true) (fail (Error e)) (fun _ => tt)); [done|intros; apply fail_fair|]|].
  { by eapply own_row_stable. }
  intros r w6 _ w7 _. apply rg_ret. by intros w8 _ j.
Qed.
Lemma Create_rg l kind sid req w : jobs_ok (jobs w) ->
  rg kept (mine (RCreate l kind sid req)) (Create s c l kind sid req) (fun reply _ => shows_own (RCreate l kind sid req) reply) w.
Proof using.
  intros Hok. unfold Create. apply rg_bind; [exact _|]. eapply rg_mono; [apply Enqueue_rg; [done|]|].
  - intros j Hj Hsid. unfold own, aiJobOwnedBy. cbn [session_named]. rewrite Hj, String.eqb_refl, (proj2 (str_empty_false sid)) by done.
    by rewrite orb_true_r.
  - intros [[job|conflict]|e] w1 Hj; apply rg_ret; intros w2 _; [|constructor|constructor]. constructor; [by apply Hj|constructor].
Qed.

(** ** Lists *)

Definition all_of (P : AIJob -> Prop) (r : res (list AIJob)) : Prop := forall l, r = Ok l -> Forall P l.
Lemma under_reading (P : AIJob -> Prop) ctx f : (forall now t l, f now t = Ok l -> Forall P l) ->
  under (fun _ => True) (wrap ctx (reading f)) (all_of P).
Proof using.
  intros Hf. eapply under_bind.
  - apply (under_atomic _ _ (all_of P)). intros w _. split; [done|]. cbn. specialize (Hf (jtime (j_tick w)) (jobs w)).
    destruct (f _ _) as [l|e]; cbn; destruct (jdb_fault (j_tick w)) as [[e' []]|]; cbn; intros l' Hl; try discriminate Hl. by apply Hf.
  - intros [l|e] Hl l' Hl'; [|discriminate Hl']. injection Hl' as <-. by apply Hl.
Qed.
Lemma Forall_selected (P : AIJob -> Prop) (C : AIJob -> bool) (R : AIJob -> AIJob -> Prop) `{forall j k, Decision (R j k)} n (t : Table) :
  (forall j, C j = true -> P j) -> Forall P (take n (merge_sort R (select C t))).
Proof using.
  intros HP. apply Forall_take. rewrite merge_sort_Permutation. apply Forall_forall. intros j Hj.
  apply list_elem_of_In, select_In in Hj as (k & _ & HC). by apply HP.
Qed.
Lemma listAIJobs_under P C activeOnly limit : (forall j, C j = true -> P j) -> under (fun _ => True) (listAIJobs C activeOnly limit) (all_of P).
Proof using.
  intros HP. apply under_reading. intros now t l [= <-]. apply Forall_selected. intros j [Hj _]%andb_true_iff. by apply HP.
Qed.
Lemma ListStale_under P sid older limit : sid <> "" -> (forall j, j_ClientSessionID j = sid -> P j) ->
  under (fun _ => True) (ListStaleAIJobs sid older limit) (all_of P).
Proof using.
  intros Hsid HP. eapply under_bind; [by apply (under_atomic _ _ (fun _ => True))|]. intros now _. apply under_reading.
  intros now' t l [= <-]. apply Forall_selected. intros j [_ Hj]%andb_true_iff. rewrite (proj2 (str_empty_false sid)) in Hj by done.
  apply HP. by apply String.eqb_eq.
Qed.
Lemma list_reply_under rq (m : prog JobWorld (res (list AIJob))) msg : under (fun _ => True) m (all_of (own c rq)) ->
  under (fun _ => True) (let* r := m in Ret (list_reply r msg)) (shows_own rq).
Proof using. intros Hm. eapply under_bind; [exact Hm|]. intros [l|e] Hl; [by apply (Hl l)|constructor]. Qed.
Lemma own_session rq j : session_named rq <> "" -> j_ClientSessionID j = session_named rq -> own c rq j.
Proof using.
  intros Hs Hj. unfold own, aiJobOwnedBy. rewrite Hj, String.eqb_refl, (proj2 (str_empty_false (session_named rq))) by done. by rewrite orb_true_r.
Qed.
Lemma own_user rq j : UserID c <> "" -> is_some_eq (j_UserID j) (UserID c) = true -> own c rq j.
Proof using. intros Hu Hj. unfold own, aiJobOwnedBy. by rewrite Hj, (proj2 (str_empty_false (UserID c))) by done. Qed.

(** ** The requests that make no job and name none *)

Definition plain (rq : JobRequest) : bool := match rq with RCreate _ _ _ _ | RCancel _ _ => false | _ => true end.

Ltac touching_own := idtac;
  apply statement_in; [exact _|]; intros ?now ?t ?t' ?a ?Hs; res_inv;
  repeat match goal with r : Table * nat |- _ => destruct r end; cbn [fst snd] in *;
  eapply update_touches; [apply cancel_fair|eassumption|]; intros ?k ?j _ ?HC; apply andb_true_iff in HC as [HC _].
Lemma plain_mine rq : plain rq = true -> admin_route rq = false -> steps_in (mine rq) (serve_job s c rq).
Proof using Hrole.
  intros Hp Ha. destruct rq; try discriminate Hp; try discriminate Ha; cbn [serve_job]; try (job_steps_by fail; fail).
  - unfold CancelActive. destruct (str_empty clientSessionID) eqn:Es; [done|]. apply str_empty_false in Es.
    apply steps_in_bind; [|done]. apply steps_in_wrap. touching_own. apply own_session; [done|]. by apply String.eqb_eq.
  - unfold CancelBatch. rewrite Hrole. destruct (bool_decide (ids = [])); [done|]. apply steps_in_bind; [|done].
    unfold CancelAIJobsOwned. destruct (_ || _); [done|]. apply steps_in_wrap. touching_own. apply andb_true_iff in HC as [_ HC]. exact HC.
Qed.
Lemma plain_shows rq : plain rq = true -> admin_route rq = false -> under (fun _ => True) (serve_job s c rq) (shows_own rq).
Proof using Hrole.
  assert (Hquiet : forall (m : prog JobWorld Reply), results_in (shows_own rq) m -> under (fun _ => True) m (shows_own rq)).
  { intros m Hm. apply under_results; [|done]. clear. induction m as [a|B f k IH]; cbn; [done|]. auto. }
  intros Hp Ha. destruct rq; try discriminate Hp; try discriminate Ha; cbn [serve_job].
  - apply Hquiet. unfold DescribeBatchConflict. destruct (str_empty _); [constructor|]. cbv zeta. destruct (bool_decide _); [constructor|].
    apply results_in_bind. intros [[job|]|e]; constructor.
  - unfold List_. cbv zeta. destruct (String.eqb _ "user").
    + destruct (str_empty (UserID c)) eqn:Eu; [constructor|]. apply str_empty_false in Eu. apply list_reply_under, listAIJobs_under.
      intros j Hj. by apply own_user.
    + destruct (str_empty _) eqn:Es; [constructor|]. apply str_empty_false in Es. apply list_reply_under, listAIJobs_under.
      intros j Hj%String.eqb_eq. by apply own_session.
  - apply Hquiet, results_in_bind. intros [st|e]; constructor.
  - unfold ListStale. cbv zeta. destruct (str_empty _) eqn:Es; [constructor|]. apply str_empty_false in Es.
    apply list_reply_under, ListStale_under; [done|]. intros j Hj. by apply own_session.
  - apply Hquiet. unfold CancelActive. destruct (str_empty _); [constructor|]. apply results_in_bind. intros [n|e]; constructor.
  - apply Hquiet. unfold CancelBatch. destruct (bool_decide _); [constructor|]. apply results_in_bind. intros [n|e]; constructor.
  - apply Hquiet, results_in_bind. intros [job|e]; [|constructor]. rewrite Hrole. destruct (aiJobOwnedBy _ _ _) eqn:Eo; [|constructor].
    constructor; [exact Eo|constructor].
Qed.

Lemma serve_job_rg rq w : admin_route rq = false -> jobs_ok (jobs w) ->
  rg kept (mine rq) (serve_job s c rq) (fun reply _ => shows_own rq reply) w.
Proof using Hrole.
  intros Ha Hok. destruct (plain rq) eqn:Hp.
  - apply rg_under; [by apply plain_mine|by apply plain_shows].
  - destruct rq; try discriminate Hp; [by apply Create_rg|by apply CancelJob_rg].
Qed.
End Requests.

(** * Requests and workers together *)

Inductive Actor : Type :=
| Request (c : Caller) (rq : JobRequest)
| Worker (ctx : JobContext) (jobID : string).

Section Together.
Context `{JobEnv} `{AIWork} (s : AIJobService).
#[local] Abbreviation kept := (jobs_in well_kept).

Definition act_as (a : Actor) : prog JobWorld (option Reply) :=
  match a with
  | Request c rq => let* reply := serve_job s c rq in Ret (Some reply)
  | Worker ctx jobID => let* _ := Process ctx jobID in Ret None
  end.
(** Neither in a role that manages the jobs of others, nor on a route of administrators. *)
Definition unprivileged (c : Caller) (rq : JobRequest) : bool := negb (aiJobsAdminRole c) && negb (admin_route rq).

Lemma act_as_kept a : steps_in kept (act_as a).
Proof using.
  destruct a as [c rq|ctx id]; cbn [act_as]; (apply steps_in_bind; [|done]); [apply serve_job_kept|apply Process_kept].
Qed.

Definition guaranteed (a : option Actor) : relation JobWorld :=
  match a with
  | Some (Request c rq) => if unprivileged c rq then jobs_in (confined (own c rq)) else kept
  | _ => kept
  end.
Definition answered (a : option Actor) (r : option Reply) : Prop :=
  match a, r with
  | Some (Request c rq), Some reply => unprivileged c rq = true -> shows_own c rq reply
  | _, _ => True
  end.
Lemma guaranteed_kept a w w' : guaranteed a w w' -> kept w w'.
Proof using. destruct a as [[c rq|]|]; cbn; [|done|done]. destruct (unprivileged c rq); [|done]. by intros [Hk _]. Qed.

Lemma act_as_rg a w : jobs_ok (jobs w) -> rg kept (guaranteed (Some a)) (act_as a) (fun r _ => answered (Some a) r) w.
Proof using.
  intros Hok. destruct a as [c rq|ctx id]; cbn [act_as guaranteed answered].
  - apply rg_bind; [exact _|]. destruct (unprivileged c rq) eqn:Hu.
    + pose proof Hu as [Hrole Ha]%andb_true_iff. apply negb_true_iff in Hrole, Ha.
      eapply rg_mono; [by apply serve_job_rg|]. intros reply w1 Hs. by apply rg_ret.
    + eapply rg_mono; [apply rg_steps, serve_job_kept|]. intros reply w1 _. by apply rg_ret.
  - apply rg_bind; [exact _|]. eapply rg_mono; [apply rg_steps, Process_kept|]. intros r w1 _. by apply rg_ret.
Qed.
Lemma actors_rg actors w : jobs_ok (jobs w) ->
  pool_rg (fun _ => kept) (fun i => guaranteed (actors !! i)) (fun i r _ => answered (actors !! i) r) (w, map act_as actors).
Proof using.
  intros Hok i m Hm. cbn in Hm. rewrite list_lookup_fmap in Hm. destruct (actors !! i) as [a|]; [|done]. cbn in Hm. injection Hm as <-.
  by apply act_as_rg.
Qed.

(** C9: Whatever requests about jobs and workers run together, and whatever statements fail on the
    way, no job is lost: every job that was there is still there, with the key, the owner, the
    session, the kind, the scope and the request it was made with, and once it was started the
    instant of its first start stays; and every job of the table keeps to the ranges of the columns
    - a known kind and status, a progress between 0 and 100 - and has a final instant when its
    status is final. *)
Theorem jobs_kept actors w c : jobs_ok (jobs w) -> interleaves (w, map act_as actors) c ->
  jobs_ok (jobs c.1) /\ table_kept (jobs w) (jobs c.1).
Proof using.
  intros Hok Hi. destruct (interleaves_in kept (w, map act_as actors) c Hi) as [[Hk Hok'] _].
  - apply Forall_fmap, Forall_forall. intros a _. apply act_as_kept.
  - split; [by apply Hok'|done].
Qed.

End Together.
