(* ===== verification/AIJobOutcome.v ===== *)
(** What a worker and single requests do to AI jobs.

    The progress of a job that a worker runs does not go back while nobody else writes to it;
    a request that is accepted adds one job, which waits and is published, and no active job
    has its scope; the status of the queue counts what waits.  The examples at the end run
    the code on a small table: what happens to a job that is cancelled while it runs, to one
    whose failure mentions a cancellation, to two requests for the same scope, and to a
    message that is delivered twice. *)

From S2P Require Import Prelude GoStrings Interleave Tables AIJobs AIJobService AIJobHandlers AIJobSafety.
From stdpp Require Import options.
#[local] Open Scope Z_scope.

(** * Progress *)

Section Progress.
Context `{JobEnv} `{AIWork} (id k : string) (Hid : uuid id = Ok k).

(** Nothing is done to the job; its progress does not go back; it is at most so far. *)
Definition leaves_alone (w w' : JobWorld) : Prop := jobs w' !! k = jobs w !! k.
Definition not_back (w w' : JobWorld) : Prop :=
  forall j, jobs w !! k = Some j -> exists j', jobs w' !! k = Some j' /\ j_ProgressPct j <= j_ProgressPct j'.
Definition at_most (p : Z) (w : JobWorld) : Prop := forall j, jobs w !! k = Some j -> j_ProgressPct j <= p.

#[local] Instance leaves_alone_preorder : PreOrder leaves_alone.
Proof using. split; [done|]. intros w1 w2 w3 H1 H2. unfold leaves_alone in *. congruence. Qed.
Lemma at_most_stable p w w' : leaves_alone w w' -> at_most p w -> at_most p w'.
Proof using. intros Hl Ha j. unfold leaves_alone in Hl. rewrite Hl. apply Ha. Qed.
Lemma at_most_le p q w : p <= q -> at_most p w -> at_most q w.
Proof using. intros Hpq Ha j Hj. specialize (Ha j Hj). lia. Qed.
Lemma not_back_same w w' : leaves_alone w w' -> not_back w w'.
Proof using. intros Hl j Hj. exists j. unfold leaves_alone in Hl. rewrite Hl. split; [done|lia]. Qed.

#[local] Abbreviation forward m Q w := (rg leaves_alone not_back m Q w).
Definition ended {A} (_ : A) (w : JobWorld) : Prop := at_most 100 w.

(** A step that leaves the job as it is. *)
Lemma forward_still {A} (f : JobWorld -> JobWorld * A) p w : (forall w, jobs (f w).1 = jobs w) -> at_most p w ->
  forward (atomic f) (fun _ => at_most p) w.
Proof using.
  intros Hf Ha. apply rg_atomic. intros w1 Hw1. assert (Hs : leaves_alone w1 (f w1).1) by (unfold leaves_alone; by rewrite Hf).
  split; [by apply not_back_same|]. intros w2 Hw2. eapply at_most_stable; [exact Hw2|]. eapply at_most_stable; [exact Hs|]. by eapply at_most_stable.
Qed.
Lemma reading_still {A} (f : Z -> Table -> res A) p w : at_most p w -> forward (reading f) (fun _ => at_most p) w.
Proof using.
  intros Ha. unfold reading, statement. apply forward_still; [|done]. intros w1. destruct (f _ _) as [a|e]; cbn; by destruct (jdb_fault (j_tick w1)) as [[e' []]|].
Qed.
Lemma outside_still {A} (f : nat -> A) p w : at_most p w -> forward (outside f) (fun _ => at_most p) w.
Proof using. by apply forward_still. Qed.

(** A statement on the row of the job that sets its progress no lower than it was. *)
Lemma forward_statement {A} (f : Z -> Table -> res (Table * A)) p q w : p <= q -> at_most p w ->
  (forall now t t' a, f now t = Ok (t', a) -> forall j, t !! k = Some j -> exists j', t' !! k = Some j' /\
     (j_ProgressPct j' = j_ProgressPct j \/ (j_ProgressPct j <= p -> j_ProgressPct j <= j_ProgressPct j' <= q))) ->
  (forall now t t' a, f now t = Ok (t', a) -> t !! k = None -> t' !! k = None) ->
  forward (statement f) (fun _ => at_most q) w.
Proof using.
  intros Hpq Ha Hf Hn. apply rg_atomic. intros w1 Hw1. assert (Ha1 : at_most p w1) by (by eapply at_most_stable).
  assert (Hstep : forall t' a, f (jtime (j_tick w1)) (jobs w1) = Ok (t', a) ->
    not_back w1 (with_jobs t' w1) /\ at_most q (with_jobs t' w1)).
  { intros t' a Ht. split.
    - intros j Hj. destruct (Hf _ _ _ _ Ht j Hj) as (j' & Hj' & Hp). exists j'. split; [done|]. specialize (Ha1 j Hj). destruct Hp; lia.
    - intros j' Hj'. cbn in Hj'. destruct (jobs w1 !! k) as [j|] eqn:Ej; [|by rewrite (Hn _ _ _ _ Ht Ej) in Hj'].
      destruct (Hf _ _ _ _ Ht j Ej) as (j1 & Hj1 & Hp). specialize (Ha1 j Ej). rewrite Hj1 in Hj'. injection Hj' as <-. destruct Hp; lia. }
  assert (Hsame : not_back w1 (jnext w1) /\ at_most q (jnext w1)).
  { split; [by apply not_back_same|]. by apply (at_most_le p). }
  assert (Hsame' : not_back w1 (with_jobs (jobs w1) w1) /\ at_most q (with_jobs (jobs w1) w1)) by exact Hsame.
  cbv beta zeta. destruct (f _ _) as [[t' a]|e]; [pose proof (Hstep t' a eq_refl) as Hs|pose proof Hsame' as Hs];
    destruct (jdb_fault (j_tick w1)) as [[e' []]|]; cbn; destruct Hs as [Hb Hm], Hsame as [Hb' Hm']; (split; [done|]); intros w2 Hw2; by eapply at_most_stable.
Qed.
Lemma on_row P f t t' n : update_jobs P f t = Ok (t', n) ->
  (forall j, t !! k = Some j -> t' !! k = Some (if P j then f j else j)) /\ (t !! k = None -> t' !! k = None).
Proof using. intros Hu. apply update_jobs_ok in Hu as (-> & _ & _). rewrite lookup_update_where. split; [by intros j ->|by intros ->]. Qed.

Lemma report_forward pr p w : at_most p w -> p <= p_Progress pr -> forward (report_to id pr) (fun _ => at_most (p_Progress pr)) w.
Proof using Hid.
  intros Ha Hp. apply rg_bind; [exact _|]. apply rg_wrap; [exact _|]. eapply rg_mono; [eapply (forward_statement _ p (p_Progress pr)); [done|done| |]|].
  - intros now t t' a Hu j Hj. apply res_bind_ok in Hu as (k' & Hk' & Hu). apply res_bind_ok in Hu as (detail & Hd & Hu).
    apply res_bind_ok in Hu as ([t1 n] & Hu & [= <- _]). apply on_row in Hu as [Hr _]. eexists. cbn [fst]. split; [by apply Hr|].
    destruct (with_id _ _ j); [right; cbn; lia|by left].
  - intros now t t' a Hu Hn. apply res_bind_ok in Hu as (k' & Hk' & Hu). apply res_bind_ok in Hu as (detail & Hd & Hu).
    apply res_bind_ok in Hu as ([t1 n] & Hu & [= <- _]). apply on_row in Hu as [_ Hr]. by apply Hr.
  - intros r w1 Hw1 w2 Hw2. apply rg_ret. intros w3 Hw3. eapply at_most_stable; [exact Hw3|]. by eapply at_most_stable.
Qed.

(** Steps of a job that is so far, and the rest of it. *)
Lemma ret_far {A} (a : A) p q w : p <= q -> at_most p w -> forward (Ret a) (fun _ => at_most q) w.
Proof using. intros Hp Ha. apply rg_ret. intros w' Hw. eapply at_most_stable; [exact Hw|]. by apply (at_most_le p). Qed.
Lemma still_far {A} (m : prog JobWorld A) p q w : p <= q -> forward m (fun _ => at_most p) w -> forward m (fun _ => at_most q) w.
Proof using. intros Hp Hm. eapply rg_mono; [exact Hm|]. intros a w'. by apply at_most_le. Qed.
Lemma still_bind {A B} (m : prog JobWorld A) (f : A -> prog JobWorld B) p Q w :
  forward m (fun _ => at_most p) w -> (forall a w', at_most p w' -> forward (f a) Q w') -> forward (prog_bind m f) Q w.
Proof using. intros Hm Hk. apply rg_bind; [exact _|]. by eapply rg_mono. Qed.
Lemma still_try {A B} (m : prog JobWorld (res A)) (f : A -> prog JobWorld (res B)) p q w : p <= q ->
  forward m (fun _ => at_most p) w -> (forall a w', at_most p w' -> forward (f a) (fun _ => at_most q) w') ->
  forward (or_return m f) (fun _ => at_most q) w.
Proof using. intros Hp Hm Hk. eapply still_bind; [exact Hm|]. intros [a|e] w' Hw'; [by apply Hk|by apply (ret_far _ p)]. Qed.
Lemma tell_bind {B} pr (f : unit -> prog JobWorld B) p Q w : at_most p w -> p <= p_Progress pr ->
  (forall w', at_most (p_Progress pr) w' -> forward (f tt) Q w') -> forward (prog_bind (tell (Some (report_to id)) pr) f) Q w.
Proof using Hid. intros Ha Hp Hk. eapply still_bind; [by eapply report_forward|]. intros [] w' Hw'. by apply Hk. Qed.
Lemma wrap_still {A} ctx (m : prog JobWorld (res A)) q w : forward m (fun _ => at_most q) w -> forward (wrap ctx m) (fun _ => at_most q) w.
Proof using. intros Hm. eapply still_bind; [exact Hm|]. intros a w'. by apply ret_far. Qed.

(** One step of a program that reports as it goes. *)
Ltac onward :=
  cbv beta zeta;
  lazymatch goal with
  | Ha : at_most ?p ?w |- rg _ _ (Ret _) _ ?w => apply (ret_far _ p); [lia|exact Ha]
  | Ha : at_most ?p ?w |- rg _ _ (outside _) _ ?w => apply (still_far _ p); [lia|by apply outside_still]
  | Ha : at_most ?p ?w |- rg _ _ (reading _) _ ?w => apply (still_far _ p); [lia|by apply reading_still]
  | |- rg _ _ (wrap _ _) _ _ => apply wrap_still
  | Ha : at_most ?p ?w |- rg _ _ (prog_bind (tell _ ?pr) _) _ ?w =>
      apply (tell_bind pr _ p); [exact Ha|cbn [p_Progress running]; lia|clear Ha; intros ?w ?Ha; cbn [p_Progress running] in *]
  | Ha : at_most ?p ?w |- rg _ _ (or_return (prog_bind (tell _ ?pr) _) _) _ ?w =>
      apply (still_try _ _ (p_Progress pr)); [cbn; lia| |clear Ha; intros ? ?w ?Ha; cbn [p_Progress running] in *]
  | Ha : at_most ?p ?w |- rg _ _ (or_return _ _) _ ?w => apply (still_try _ _ p); [lia| |clear Ha; intros ? ?w ?Ha]
  | Ha : at_most ?p ?w |- rg _ _ (prog_bind _ _) _ ?w => apply (still_bind _ _ p); [|clear Ha; intros ? ?w ?Ha]
  | |- rg _ _ (match ?x with _ => _ end) _ _ => destruct x
  | |- rg _ _ ?m _ _ => let f := program_head m in
      lazymatch f with @describe_batch_loop => fail | @describe_chunks => fail | @persistRelationDescriptions => fail | _ => unfold f end
  end.
#[local] Abbreviation to_end m w := (forward m (fun _ => at_most 100) w).

Lemma query_forward ctx req phase w : at_most 5 w -> to_end (executeAIQueryPhase ctx req phase (Some (report_to id))) w.
Proof using Hid. intros Ha. destruct phase; repeat onward. Qed.
Lemma describe_forward ctx req report w p : report = None \/ report = Some (report_to id) /\ p <= 15 -> p <= 100 -> at_most p w ->
  forward (executeMetadataDescribeJob ctx req report) (fun _ => at_most (if report then 100 else p)) w.
Proof using Hid. intros [->|[-> Hp]] Hp' Ha; [unfold executeMetadataDescribeJob; cbn [tell]|]; repeat onward. Qed.
Lemma embed_forward req w : at_most 5 w -> to_end (executeEmbedMetadataJob req (Some (report_to id))) w.
Proof using Hid.
  intros Ha. unfold executeEmbedMetadataJob. onward. destruct (negb embeddings_configured); [by onward|].
  apply (still_bind _ _ 30); [destruct (negb _); repeat onward|]. intros [results|e] w1 Hw1; repeat onward.
Qed.

Definition batch_at (total index : Z) : Z := 5 + Z.quot (index * 90) (Z.max total 1).
Lemma batch_at_mono total i j : 0 <= i <= j -> batch_at total i <= batch_at total j.
Proof using. intros Hij. unfold batch_at. apply Z.add_le_mono_l, Z.quot_le_mono; lia. Qed.
Lemma batch_at_bound total index : 0 <= index <= total -> batch_at total index <= 95.
Proof using.
  intros Hi. unfold batch_at. assert (Hd : index <= Z.max total 1 /\ 1 <= Z.max total 1) by lia.
  revert Hd. generalize (Z.max total 1) as d. intros d Hd. rewrite Z.quot_div_nonneg by lia.
  pose proof (Z.div_le_upper_bound (index * 90) d 90 ltac:(lia) ltac:(lia)). lia.
Qed.
Lemma batch_loop_forward ctx jobID req existing total index tables out completed w :
  0 <= index -> index + Z.of_nat (length tables) = total -> at_most (batch_at total index) w ->
  to_end (describe_batch_loop ctx jobID req (Some (report_to id)) existing total index tables out completed) w.
Proof using Hid.
  revert index out completed w. induction tables as [|target rest IH]; intros index out completed w Hi Ht Ha; cbn [describe_batch_loop length] in *.
  - pose proof (batch_at_bound total index ltac:(lia)). onward. by onward.
  - pose proof (batch_at_bound total index ltac:(lia)). pose proof (batch_at_mono total index (index + 1) ltac:(lia)).
    assert (Hnext : forall out completed w, at_most (batch_at total index) w ->
      to_end (describe_batch_loop ctx jobID req (Some (report_to id)) existing total (index + 1) rest out completed) w).
    { intros out' completed' w' Hw'. apply IH; [lia|lia|]. eapply at_most_le; [|exact Hw']. done. }
    clear IH. cbv zeta. apply (still_bind _ _ (batch_at total index)); [repeat onward|]. clear dependent w. intros cancelled w Ha.
    destruct cancelled; [by onward|]. destruct (_ || _); [by apply Hnext|]. destruct (_ && _); [by apply Hnext|].
    apply (still_bind _ _ (batch_at total index)).
    { unfold reportDescribeBatchProgress. cbv zeta. cbn [tell]. set (pr := mkProgress _ _ _ _ _).
      change (batch_at total index) with (p_Progress pr). apply (report_forward _ (batch_at total index)); [done|]. cbn. fold (batch_at total index). lia. }
    clear dependent w. intros _ w Ha. apply (still_bind _ _ (batch_at total index)); [|intros; by apply Hnext].
    unfold runDescribeBatchTable. apply (still_bind _ _ (batch_at total index)); [|intros; by onward].
    apply (describe_forward ctx _ None); [by left|lia|done].
Qed.
Lemma batch_forward ctx jobID req w : at_most 5 w -> to_end (executeMetadataDescribeBatchJob ctx jobID req (Some (report_to id))) w.
Proof using Hid.
  intros Ha. unfold executeMetadataDescribeBatchJob. destruct (_ || _); [by onward|].
  apply (still_bind _ _ 5); [repeat onward|]. clear dependent w. intros [existing|e] w Ha; [|by onward].
  apply (still_bind _ _ 100); [|intros; by onward]. apply batch_loop_forward; [lia|lia|]. eapply at_most_le; [|exact Ha].
  unfold batch_at. rewrite Z.mul_0_l, Z.quot_0_l by lia. lia.
Qed.

Definition chunk_at (n start : nat) : Z := 10 + Z.quot (85 * Z.of_nat start) (Z.of_nat n).
Lemma persist_forward chunk descriptions locale updated p w : at_most p w ->
  forward (persistRelationDescriptions chunk descriptions locale updated) (fun _ => at_most p) w.
Proof using.
  revert updated w. induction descriptions as [|d rest IH]; intros updated w Ha; cbn [persistRelationDescriptions]; [by onward|]. cbv zeta.
  destruct (_ || _); [by apply IH|]. onward; [repeat onward|]. destruct a as [[]|e]; [|by onward].
  destruct (_ || _); [by apply IH|]. onward; [repeat onward|]. destruct a as [[]|e]; [by apply IH|by onward].
Qed.
Lemma chunks_forward targets locale starts updated p w :
  p <= 95 -> at_most p w -> StronglySorted le starts -> Forall (fun start => (start < length targets)%nat /\ p <= chunk_at (length targets) start) starts ->
  forward (describe_chunks targets locale (Some (report_to id)) starts updated) (fun _ => at_most 95) w.
Proof using Hid.
  intros Hp Ha Hs Hf. revert updated p w Hp Ha Hf. induction Hs as [|start starts Hs IH Hle]; intros updated p w Hp Ha Hf; cbn [describe_chunks].
  - by onward.
  - apply Forall_cons in Hf as [[Hlt Hstart] Hf]. onward; [repeat onward|]. destruct a as [[]|e]; [|by onward].
    pose proof (chunk_pct start (length targets) Hlt) as Hb. unfold chunk_at in Hstart. onward.
    fold (chunk_at (length targets) start) in *.
    onward; [repeat onward|]. destruct a as [[ds|e]|e]; [|by onward|by onward].
    onward; [by apply persist_forward|]. destruct a as [n [e|]]; cbn [fst snd]; [by onward|].
    eapply IH; [|exact Ha|]; [lia|]. rewrite Forall_forall in Hf, Hle |- *. intros st Hst. destruct (Hf st Hst) as [Hlt' _]. split; [done|].
    apply Z.add_le_mono_l, Z.quot_le_mono; [lia|]. specialize (Hle st Hst). lia.
Qed.
Lemma starts_sorted n : StronglySorted le (chunk_starts n).
Proof using.
  unfold chunk_starts. generalize ((n + (describeRelationsChunkSize - 1)) / describeRelationsChunkSize)%nat as m. intros m.
  generalize 0%nat as a. induction m as [|m IH]; intros a; cbn [seq map]; constructor; [apply IH|].
  apply Forall_forall. intros x Hx. apply list_elem_of_fmap in Hx as (y & -> & Hy). apply elem_of_seq in Hy.
  apply Nat.mul_le_mono_l. lia.
Qed.
Lemma relations_forward ctx req w : at_most 5 w -> to_end (executeDescribeRelationsJob ctx req (Some (report_to id))) w.
Proof using Hid.
  intros Ha. unfold executeDescribeRelationsJob. destruct (negb _); [by onward|]. cbv zeta. onward; [repeat onward|]. onward.
  set (targets := selectRelations _ _ _) in *. apply (still_bind _ _ 95).
  - unfold describeRelationsCore. onward; [repeat onward|]. destruct a0 as [[]|e]; [|by onward].
    apply (chunks_forward _ _ _ _ 10); [lia|done|apply starts_sorted|]. apply Forall_forall. intros start Hst.
    pose proof (chunk_starts_lt _ _ Hst) as Hlt. split; [done|]. apply (chunk_pct _ _ Hlt).
  - intros [n [e|]] w2 Hw2; cbn [fst snd]; repeat onward.
Qed.

Lemma processJob_forward ctx job w : at_most 5 w -> to_end (processJob ctx job (Some (report_to id))) w.
Proof using Hid.
  intros Ha. unfold processJob. cbv zeta.
  repeat match goal with |- rg _ _ (if ?b then _ else _) _ _ => destruct b end; [| | | | |by onward];
    repeat (onward; [by onward|]); (apply (still_bind _ _ 100); [|intros; by onward]).
  - by apply query_forward.
  - eapply still_far; [|eapply (describe_forward ctx _ (Some (report_to id)) _ 5)]; [done|right; split; [done|lia]|lia|done].
  - by apply batch_forward.
  - by apply relations_forward.
  - by apply embed_forward.
Qed.

(** A statement on the row of the job alone. *)
Lemma row_forward {A} P (f : Z -> AIJob -> AIJob) (g : nat -> A) p q w : p <= q -> at_most p w ->
  (forall now j, j_ProgressPct (f now j) = j_ProgressPct j \/ p <= j_ProgressPct (f now j) <= q) ->
  forward (statement (fun now t => let? id := uuid id in let? r := update_jobs (with_id id P) (f now) t in Ok (r.1, g r.2))) (fun _ => at_most q) w.
Proof using Hid.
  intros Hpq Ha Hf. apply (forward_statement _ p q); [done|done| |].
  - intros now t t' a Hu j Hj. apply on_id_ok in Hu as (k' & n & Hk' & Hu & _). apply on_row in Hu as [Hr _].
    eexists. split; [by apply Hr|]. destruct (with_id _ _ j); [|by left]. destruct (Hf now j) as [He|Hb]; [by left|right; lia].
  - intros now t t' a Hu Hn. apply on_id_ok in Hu as (k' & n & Hk' & Hu & _). by apply on_row in Hu as [_ Hr]; apply Hr.
Qed.
Lemma finish_forward r w : at_most 100 w -> to_end (finish_job id r) w.
Proof using Hid.
  intros Ha. unfold finish_job. destruct r as [raw|e].
  - unfold CompleteAIJob. apply wrap_still, (forward_statement _ 100 100); [lia|done| |].
    + intros now t t' a Hu j Hj. apply res_bind_ok in Hu as (k' & Hk' & Hu). apply res_bind_ok in Hu as (d & Hd & Hu).
      apply res_bind_ok in Hu as ([t1 n] & Hu & [= <- _]). apply on_row in Hu as [Hr _]. eexists. split; [by apply Hr|].
      destruct (with_id _ _ j); [right; cbn; lia|by left].
    + intros now t t' a Hu Hn. apply res_bind_ok in Hu as (k' & Hk' & Hu). apply res_bind_ok in Hu as (d & Hd & Hu).
      apply res_bind_ok in Hu as ([t1 n] & Hu & [= <- _]). by apply on_row in Hu as [_ Hr]; apply Hr.
  - onward; [repeat onward|]. destruct (is_cancelled a); [by onward|]. destruct (mentions_cancelled e); [by onward|].
    destruct (_ || _); [by onward|]. onward; [|by onward].
    unfold FailAIJob. apply wrap_still, (row_forward (fun _ => true) (fail (Error e)) (fun _ => tt) 100); [lia|done|]. intros now j. by left.
Qed.
Lemma Process_forward ctx w : at_most 5 w -> to_end (Process ctx id) w.
Proof using Hid.
  intros Ha. unfold Process. apply (still_try _ _ 5); [lia| |].
  { unfold TryMarkAIJobRunning. apply wrap_still, (row_forward active mark_running (fun n => (0 <? n)%nat) 5); [lia|done|].
    intros now j. right. cbn. lia. }
  clear dependent w. intros started w Ha. destruct (negb started); [repeat onward|]. onward; [repeat onward|].
  destruct (String.eqb _ _); [by onward|]. apply (still_bind _ _ 100); [by apply processJob_forward|]. intros r w1 Hw1. by apply finish_forward.
Qed.
End Progress.

(** C25: While nobody else writes to a job that waits, the progress a worker reports of it never goes
    back: whatever kind of job it is, however the answers of its services and of the database turn
    out, and whatever others do to other jobs in between, no step lowers the percentage that is
    shown, from the mark that it is running to its end. *)
Theorem progress_never_goes_back `{JobEnv} `{AIWork} ctx id k others w c c' :
  uuid id = Ok k -> at_most k 5 w -> Forall (steps_in (leaves_alone k)) others ->
  interleaves (w, Process ctx id :: others) c -> pool_step c c' -> not_back k c.1 c'.1.
Proof.
  intros Hid Ha Ho Hi Hs. apply pool_step_of in Hs as [i Hs].
  set (R := fun i : nat => match i with O => leaves_alone k | S _ => fun _ _ => True end).
  set (G := fun i : nat => match i with O => not_back k | S _ => leaves_alone k end).
  assert (HR : forall i, PreOrder (R i)) by (intros [|j]; [apply leaves_alone_preorder|by split]).
  assert (HG : forall i j w w', i <> j -> G j w w' -> R i w w') by (intros [|i'] [|j'] w1 w2 Hne Hg; done).
  assert (Hg : G i c.1 c'.1).
  { apply (pool_guarantees R G (fun _ _ _ => True) HR HG i _ c c' Hi); [|done]. intros [|j] m Hm; cbn in Hm.
    - injection Hm as <-. eapply rg_mono; [by eapply Process_forward|done].
    - apply rg_steps. rewrite Forall_forall in Ho. apply Ho. by eapply list_elem_of_lookup_2. }
  destruct i as [|i]; [exact Hg|]. by apply not_back_same.
Qed.

(** * Single requests *)

(** Who may be told apart by what it asks to be done: the jobs that wait or run and have the scope
    of [row]. *)
Definition unclaimed `{JobEnv} `{AIWork} (t : Table) (row : AIJob) (req : string) : Prop :=
  forall k j, t !! k = Some j -> active j = true -> j_Kind j = j_Kind row -> j_DatasourceID j = j_DatasourceID row ->
    (j_Kind row = "describe_batch" -> overlaps (j_ScopeSchemas j) (j_ScopeSchemas row) = false) /\
    (j_Kind row = "embed_metadata" -> forall er, decode_embed_metadata req = Ok er ->
       default "" (member (j_RequestJSON j) "model_id") <> TrimSpace (m_ModelID er)).

Section Requests.
Context `{JobEnv} `{AIWork}.

(** One instant later, with this table and these messages. *)
Definition becomes (t : Table) (p : list string) (w : JobWorld) : Prop := jobs w = t /\ published w = p.

Lemma wp_statement {A} (f : Z -> Table -> res (Table * A)) Q w :
  (forall w' r, published w' = published w ->
     (match r with
      | Ok a => exists t, f (jtime (j_tick w)) (jobs w) = Ok (t, a) /\ jobs w' = t
      | Err _ => jobs w' = jobs w \/ exists t a, f (jtime (j_tick w)) (jobs w) = Ok (t, a) /\ jobs w' = t
      end) -> Q r w') -> wp (statement f) Q w.
Proof using.
  intros HQ. unfold wp. cbn. destruct (f _ _) as [[t a]|e] eqn:Ef; destruct (jdb_fault (j_tick w)) as [[e' []]|]; cbn; apply HQ; cbn; eauto.
Qed.
Lemma wp_reading {A} (f : Z -> Table -> res A) Q w :
  (forall w' r, becomes (jobs w) (published w) w' -> (forall a, r = Ok a -> f (jtime (j_tick w)) (jobs w) = Ok a) -> Q r w') -> wp (reading f) Q w.
Proof using.
  intros HQ. apply wp_statement. intros w' r Hp Hr. apply HQ.
  - split; [|done]. destruct r as [a|e]; [destruct Hr as (t & Ht & ->)|destruct Hr as [->|(t & a & Ht & ->)]; [done|]];
      by apply res_bind_ok in Ht as (b & _ & [= <- _]).
  - intros a ->. destruct Hr as (t & Ht & _). apply res_bind_ok in Ht as (b & Hb & [= _ <-]). done.
Qed.
Lemma wp_outside_job {A} (f : nat -> A) Q w : (forall w', becomes (jobs w) (published w) w' -> Q (f (j_tick w)) w') -> wp (outside f) Q w.
Proof using. intros HQ. by apply HQ. Qed.
Lemma wp_Publish id (Q : res unit -> JobWorld -> Prop) w :
  (forall w' r, becomes (jobs w) (match r with Ok _ => published w ++ [id] | Err _ => published w end) w' -> Q r w') -> wp (Publish id) Q w.
Proof using. intros HQ. apply wp_wrap. unfold wp. cbn. destruct (publish_fault _); cbn; by apply HQ. Qed.

(** What a request that starts a job comes to. *)
Definition claims (t : Table) (kind : string) (c : Conflict) : Prop :=
  exists k, t !! k = Some (cf_Existing c) /\ active (cf_Existing c) = true /\ j_Kind (cf_Existing c) = kind.
Definition scope_free (t : Table) (kind req : string) (scope : option string * list string) : Prop :=
  forall ds, uuid_opt scope.1 = Ok ds -> forall row, j_Kind row = kind -> j_DatasourceID row = ds -> j_ScopeSchemas row = scope.2 -> unclaimed t row req.

Lemma sorted_head (P : AIJob -> bool) (t : Table) :
  match head (merge_sort older (select P t)) with
  | Some j => exists k, t !! k = Some j /\ P j = true /\ forall k' j', t !! k' = Some j' -> P j' = true -> j_CreatedAt j <= j_CreatedAt j'
  | None => forall k j, t !! k = Some j -> P j = false
  end.
Proof using.
  pose proof (merge_sort_Permutation older (select P t)) as Hp.
  assert (Hs : StronglySorted older (merge_sort older (select P t))).
  { apply StronglySorted_merge_sort; unfold older; [intros j k l; lia|intros j k; lia]. }
  destruct (merge_sort older (select P t)) as [|j l]; cbn.
  - intros k j Hj. destruct (P j) eqn:EP; [|done]. apply Permutation_nil_l in Hp. exfalso.
    assert (Hin : In j (select P t)) by (apply select_In; eauto). by rewrite <- Hp in Hin.
  - assert (Hin : forall j', In j' (select P t) <-> In j' (j :: l)) by (intros j'; by rewrite Hp).
    destruct (proj1 (select_In P t j) (proj2 (Hin j) (or_introl eq_refl))) as (k & Hk & HP). exists k. split; [done|]. split; [done|].
    intros k' j' Hk' HP'. assert (Hj' : In j' (j :: l)) by (apply Hin, select_In; eauto). destruct Hj' as [->|Hj']; [lia|].
    apply StronglySorted_inv in Hs as [_ Hle]. rewrite Forall_forall in Hle. by apply Hle, list_elem_of_In.
Qed.
Lemma wp_find_oldest ctx (P : Table -> res (AIJob -> bool)) Q w :
  (forall w' r, becomes (jobs w) (published w) w' ->
     (forall o, r = Ok o -> exists C, P (jobs w) = Ok C /\
        match o with Some j => exists k, jobs w !! k = Some j /\ C j = true | None => forall k j, jobs w !! k = Some j -> C j = false end) -> Q r w') ->
  wp (find_oldest ctx P) Q w.
Proof using.
  intros HQ. apply wp_wrap, wp_reading. intros w' r Hw Hr. apply HQ; [done|]. intros o Ho. destruct r as [o'|e]; [|done]. injection Ho as <-.
  specialize (Hr _ eq_refl). apply res_bind_ok in Hr as (C & HC & [= <-]). exists C. split; [done|]. pose proof (sorted_head C (jobs w)) as Hh.
  destruct (head _); [|done]. destruct Hh as (k & Hk & HP & _). eauto.
Qed.

Lemma wp_unless_conflict (message : string) m scope Q w :
  wp m (fun r w' => match r with
    | Ok None => Q (Ok (inl scope)) w'
    | Ok (Some job) => Q (Ok (inr (mkConflict message job))) w'
    | Err e => Q (Err e) w' end) w -> wp (unless_conflict message m scope) Q w.
Proof using. intros Hm. apply wp_try. eapply wp_mono; [exact Hm|]. intros [[job|]|e] w'; done. Qed.
Lemma wp_scope kind req Q w :
  (forall w' r, becomes (jobs w) (published w) w' ->
     match r with
     | Ok (inl scope) => scope_free (jobs w) kind req scope
     | Ok (inr c) => claims (jobs w) kind c
     | Err _ => True
     end -> Q r w') -> wp (enqueueJobScope kind req) Q w.
Proof using.
  intros HQ. assert (Hret : forall r, match r with Ok (inl scope) => scope_free (jobs w) kind req scope | Ok (inr _) => False | Err _ => True end -> wp (Ret r) Q w).
  { intros r Hr. apply wp_ret, HQ; [by split|]. by destruct r as [[]|]. }
  unfold enqueueJobScope. destruct (String.eqb_spec kind "describe_batch") as [->|Hb].
  { unfold describeBatchEnqueueScope. apply wp_try, wp_ret. destruct (payload _) as [req'|e]; [|by apply Hret].
    cbv zeta. destruct (str_empty _) eqn:Ed; [by apply Hret|]. case_bool_decide as Es; [by apply Hret|].
    apply wp_unless_conflict. unfold FindConflictingDescribeBatch. rewrite Ed, bool_decide_eq_false_2 by done. cbn [orb].
    apply wp_find_oldest. intros w' [[job|]|e] Hw Hr; apply HQ; try done; destruct (Hr _ eq_refl) as (C & HC & Hj);
      apply res_bind_ok in HC as (u & Hu & [= <-]).
    - destruct Hj as (k & Hk & HP). apply andb_true_iff in HP as [HP _]. apply andb_true_iff in HP as [HP _].
      apply andb_true_iff in HP as [He Ha]. apply String.eqb_eq in He. by exists k.
    - intros ds Hds row Hrk Hrd Hrs k j Hk Ha Hkd Hd. cbn in Hds. rewrite Hu in Hds. injection Hds as <-. split; [|by rewrite Hrk].
      intros _. specialize (Hj k j Hk). cbn beta in Hj. rewrite Hkd, Hrk, Ha, Hd, Hrd in Hj.
      rewrite Hrs. cbn [is_some_eq andb] in Hj. by rewrite !String.eqb_refl in Hj. }
  destruct (String.eqb_spec kind "describe_relations") as [->|Hr].
  { apply wp_try, wp_ret. destruct (payload _) as [req'|e]; [|by apply Hret]. cbv zeta. destruct (str_empty _); [by apply Hret|]. apply Hret.
    intros ds _ row Hk _ _ k j _ _ _ _. by rewrite Hk. }
  destruct (String.eqb_spec kind "embed_metadata") as [->|He].
  { unfold embedMetadataEnqueueScope. apply wp_try, wp_ret. destruct (decode_embed_metadata req) as [er|e] eqn:Er; cbn [payload res_map_err]; [|by apply Hret].
    cbv zeta. destruct (str_empty _) eqn:Ed; [by apply Hret|]. apply wp_unless_conflict. unfold FindConflictingEmbedMetadata. cbv zeta.
    rewrite !TrimSpace_idem, Ed. apply wp_find_oldest. intros w' [[job|]|e] Hw Hr'; apply HQ; try done; destruct (Hr' _ eq_refl) as (C & HC & Hj);
      apply res_bind_ok in HC as (u & Hu & [= <-]).
    - destruct Hj as (k & Hk & HP). apply andb_true_iff in HP as [HP _]. apply andb_true_iff in HP as [HP _].
      apply andb_true_iff in HP as [He Ha]. apply String.eqb_eq in He. by exists k.
    - intros ds Hds row Hrk Hrd Hrs k j Hk Ha Hkd Hd. cbn in Hds. rewrite Hu in Hds. injection Hds as <-. split; [by rewrite Hrk|].
      intros _ er' Her. rewrite Er in Her. injection Her as <-. specialize (Hj k j Hk). cbn beta in Hj. rewrite Hkd, Hrk, Ha, Hd, Hrd in Hj.
      cbn [is_some_eq andb] in Hj. rewrite !String.eqb_refl in Hj. by apply String.eqb_neq in Hj. }
  apply Hret. intros ds _ row Hk _ _ k j _ _ _ _. by rewrite Hk.
Qed.

(** One more job, of this owner and session, that nothing stands in the way of. *)
Definition added (kind sid user req : string) (w w' : JobWorld) (k : string) (row : AIJob) : Prop :=
  jobs w !! k = None /\ jobs w' = <[k := row]> (jobs w) /\ j_ID row = k /\ j_Kind row = kind /\ kind ∈ job_kinds /\
  j_ClientSessionID row = sid /\ j_UserID row = (if str_empty (TrimSpace user) then None else Some user) /\
  unclaimed (jobs w) row (if str_empty req then "{}" else req).
Definition outcome (s : AIJobService) (kind sid user req : string) (w w' : JobWorld) (r : res (AIJob + Conflict)) : Prop :=
  match r with
  | Ok (inl job) => exists k row, uuid (j_ID job) = Ok k /\ added kind sid user req w w' k row /\
      j_Status row = AIJobStatusQueued /\ j_ProgressPct row = 0 /\
      published w' = (if publisher s then published w ++ [j_ID job] else published w)
  | Ok (inr c) => jobs w' = jobs w /\ published w' = published w /\ claims (jobs w) kind c
  | Err _ => published w' = published w /\
      (jobs w' = jobs w \/ exists k row, added kind sid user req w w' k row /\ (j_Status row = AIJobStatusQueued \/ j_Status row = AIJobStatusFailed))
  end.

Lemma fail_new t k row now msg : jobs_ok t -> t !! k = None -> j_ID row = k ->
  update_where (with_id k (fun _ => true)) (fail msg now) (<[k := row]> t) = <[k := fail msg now row]> t.
Proof using.
  intros Hok Hn Hid. apply map_eq. intros k'. rewrite lookup_update_where. destruct (decide (k = k')) as [<-|Hne].
  - rewrite !lookup_insert_eq. cbn. unfold with_id. by rewrite Hid, String.eqb_refl.
  - rewrite !lookup_insert_ne by done. destruct (t !! k') as [j|] eqn:Ej; [|done]. cbn. destruct (Hok k' j Ej) as [Hk _].
    unfold with_id. rewrite Hk. by destruct (String.eqb_spec k' k) as [->|].
Qed.
Lemma wp_FailAIJob id msg Q w :
  (forall w' r, published w' = published w ->
     (jobs w' = jobs w \/ exists k now, uuid id = Ok k /\ jobs w' = update_where (with_id k (fun _ => true)) (fail msg now) (jobs w)) -> Q r w') ->
  wp (FailAIJob id msg) Q w.
Proof using.
  intros HQ. apply wp_wrap, wp_statement. intros w' r Hp Hr. apply HQ; [done|].
  assert (Hf : forall (t : Table) (a : unit), (let? id := uuid id in let? r := update_jobs (with_id id (fun _ => true)) (fail msg (jtime (j_tick w))) (jobs w) in Ok (r.1, tt)) = Ok (t, a) ->
    exists k now, uuid id = Ok k /\ t = update_where (with_id k (fun _ => true)) (fail msg now) (jobs w)).
  { intros t a Ht. apply res_bind_ok in Ht as (k & Hk & Ht). apply res_bind_ok in Ht as ([t1 n] & Hu & [= <- _]).
    apply update_jobs_ok in Hu as (-> & _). eauto. }
  destruct r as [a|e]; [destruct Hr as (t & Ht & ->); right; by eapply Hf|].
  destruct Hr as [Hr|(t & a & Ht & ->)]; [by left|right; by eapply Hf].
Qed.
Lemma Enqueue_wp s l kind sid user req w : jobs_ok (jobs w) -> wp (Enqueue s l kind sid user req) (fun r w' => outcome s kind sid user req w w' r) w.
Proof using.
  intros Hok. unfold Enqueue. assert (Herr : forall e w', becomes (jobs w) (published w) w' -> outcome s kind sid user req w w' (Err e)).
  { intros e w' [Hj Hp]. split; [done|by left]. }
  destruct (str_empty sid); [by apply wp_ret, Herr|]. apply wp_try, wp_ret. destruct (validateAIJobRequest _ _) as [[]|]; [|by apply Herr]. cbv zeta.
  set (req' := if str_empty req then "{}" else req). apply wp_try, wp_scope. intros w1 [[[ds scope]|c]|e] Hw1 Hr; [|by destruct Hw1|by apply Herr].
  apply wp_bind, wp_outside_job. intros w2 [Hj2 Hp2]. destruct Hw1 as [Hj1 Hp1]. rewrite Hj1 in Hj2. rewrite Hp1 in Hp2.
  set (id := new_uuid _). apply wp_try. unfold CreateAIJob. apply wp_wrap, wp_statement. intros w3 r Hp3 H3. rewrite Hj2, Hp2 in *.
  set (job := mkAIJob id _ _ _ _ _ _ _ _ _ _ _ _ _ _ _ _ _ _) in *.
  assert (Hadd : forall t a, insert_job job (jtime (j_tick w2)) (jobs w) = Ok (t, a) ->
    exists k row, uuid id = Ok k /\ (forall w', jobs w' = t -> added kind sid user req w w' k row) /\ j_Status row = AIJobStatusQueued /\ j_ProgressPct row = 0).
  { intros t a Ht. apply insert_job_ok in Ht as (k & row & Hk & Hn & -> & Hc & Hid & Hu & Hs & Hkd & Hst & Hpct & Hsc & Hds & _ & _).
    exists k, row. split; [done|]. split; [|by split]. intros w' Hw'. unfold added. rewrite Hkd, Hs, Hu. repeat (split; [done|]).
    assert (Hkk : kind ∈ job_kinds).
    { unfold check_job, kind_check in Hc. rewrite Hkd in Hc. cbn [j_Kind job] in Hc. destruct (str_in kind job_kinds) eqn:E; [by apply str_in_spec|done]. }
    repeat (split; [done|]). eapply (Hr (j_DatasourceID row)); done. }
  destruct r as [[]|e]; cbn [res_map_err].
  - destruct H3 as (t & Ht & Ht'). destruct (Hadd t _ Ht) as (k & row & Hk & Ha & Hst & Hpct).
    destruct (publisher s) eqn:Epub; cbn [negb].
    + apply wp_bind, wp_Publish. intros w4 [[]|e] [Hj4 Hp4]; rewrite Ht' in Hj4; rewrite Hp3 in Hp4.
      * apply wp_ret. exists k, row. rewrite Epub. auto 10.
      * apply wp_bind, wp_FailAIJob. intros w5 r5 Hp5 H5. apply wp_ret. split; [congruence|]. right. rewrite Hj4 in H5.
        destruct (Ha w4 Hj4) as (Hn & Hj & Hid & Hkd & Hkk & Hs & Hu & Hc).
        destruct H5 as [H5|(k' & now & Hk' & H5)]; [exists k, row; split; [apply Ha; congruence|by left]|].
        rewrite Hk in Hk'. injection Hk' as <-. assert (Htt : t = <[k := row]> (jobs w)) by congruence.
        rewrite Htt, fail_new in H5 by done. exists k, (fail (Error e) now row). split; [|by right]. by unfold added.
    + apply wp_ret. exists k, row. rewrite Epub. auto 10.
  - split; [done|]. destruct H3 as [H3|(t & a & Ht & Ht')]; [by left|]. right. destruct (Hadd t a Ht) as (k & row & _ & Ha & Hst & _).
    exists k, row. auto.
Qed.

(** ** The status of the queue *)

Definition waits (j : AIJob) : Prop := j_Status j ∈ waiting_statuses.
Definition count (P : AIJob -> Prop) `{forall j, Decision (P j)} (t : Table) : Z := Z.of_nat (size (filter (fun kj => P kj.2) t)).
Lemma affected_count (b : AIJob -> bool) (P : AIJob -> Prop) `{forall j, Decision (P j)} t : (forall j, b j = true <-> P j) ->
  Z.of_nat (affected b t) = count P t.
Proof using.
  intros Hb. rewrite affected_size. unfold count. do 2 f_equal. apply map_filter_ext. intros k j _. apply Hb.
Qed.
Lemma waiting_spec j : waiting j = true <-> waits j.
Proof using. apply str_in_spec. Qed.
#[local] Instance waits_dec j : Decision (waits j).
Proof using. unfold waits. apply _. Defined.

(** The oldest active job of the session, or there is none. *)
Definition is_mine (sid : string) (j : AIJob) : Prop := j_ClientSessionID j = sid /\ j_Status j ∈ active_statuses.
Definition status_of (t : Table) (sid : string) (st : AIQueueStatus) : Prop :=
  TotalPending st = count waits t /\
  ((sid = "" \/ (forall k j, t !! k = Some j -> ~ is_mine sid j)) /\ MyPosition st = None /\ MyJobID st = "" /\ MyJobStatus st = "idle" \/
   exists k j, t !! k = Some j /\ is_mine sid j /\ (forall k' j', t !! k' = Some j' -> is_mine sid j' -> j_CreatedAt j <= j_CreatedAt j') /\
     MyJobID st = j_ID j /\ MyJobStatus st = j_Status j /\
     (if decide (waits j)
      then exists p, MyPosition st = Some p /\ 1 <= p <= TotalPending st /\ p = 1 + count (fun j' => waits j' /\ j_CreatedAt j' < j_CreatedAt j) t
      else MyPosition st = None)).

Lemma position_spec t k j : t !! k = Some j ->
  if decide (waits j)
  then exists p, position t j = Some p /\ 1 <= p <= count waits t /\ p = 1 + count (fun j' => waits j' /\ j_CreatedAt j' < j_CreatedAt j) t
  else position t j = None.
Proof using.
  intros Hj. unfold position. destruct (waiting j) eqn:Ew.
  - apply waiting_spec in Ew as Hw. rewrite decide_True by done. eexists. split; [reflexivity|].
    rewrite <- (affected_count _ _ t waiting_spec). rewrite <- (affected_count (fun k => waiting k && (j_CreatedAt k <? j_CreatedAt j)) (fun j' => waits j' /\ j_CreatedAt j' < j_CreatedAt j)).
    + pose proof (affected_lt waiting (fun k => waiting k && (j_CreatedAt k <? j_CreatedAt j)) t k j ltac:(by intros r [? _]%andb_true_iff) Hj Ew) as Hlt.
      cbn beta in Hlt. rewrite Z.ltb_irrefl, andb_false_r in Hlt. specialize (Hlt eq_refl). lia.
    + intros j'. by rewrite andb_true_iff, waiting_spec, Z.ltb_lt.
  - rewrite decide_False; [done|]. rewrite <- waiting_spec. congruence.
Qed.
Lemma my_job_spec t sid :
  match my_job sid t with
  | Some j => exists k, t !! k = Some j /\ is_mine sid j /\ forall k' j', t !! k' = Some j' -> is_mine sid j' -> j_CreatedAt j <= j_CreatedAt j'
  | None => forall k j, t !! k = Some j -> ~ is_mine sid j
  end.
Proof using.
  assert (Hm : forall j, String.eqb (j_ClientSessionID j) sid && active j = true <-> is_mine sid j).
  { intros j. rewrite andb_true_iff, String.eqb_eq. unfold active. by rewrite str_in_spec. }
  unfold my_job. pose proof (sorted_head (fun j => String.eqb (j_ClientSessionID j) sid && active j) t) as Hh. destruct (head _) as [j|].
  - destruct Hh as (k & Hk & HP & Hold). exists k. split; [done|]. split; [by apply Hm|]. intros k' j' Hk' Hj'. eapply Hold; [done|by apply Hm].
  - intros k j Hj Hmine. apply Hm in Hmine. by rewrite (Hh k j Hj) in Hmine.
Qed.
Lemma queue_status_wp sid w : wp (GetAIQueueStatus sid) (fun r w' => jobs w' = jobs w /\ forall st, r = Ok st -> status_of (jobs w) sid st) w.
Proof using.
  unfold GetAIQueueStatus. destruct (str_empty sid) eqn:Es; apply wp_wrap, wp_reading; intros w' r [Hj _] Hr; (split; [done|]);
    intros st Hst; destruct r as [st'|e]; try done; injection Hst as <-; specialize (Hr _ eq_refl); injection Hr as <-.
  - apply str_empty_spec in Es as ->. split; [by apply affected_count, waiting_spec|]. left. split; [by left|done].
  - pose proof (my_job_spec (jobs w) sid) as Hm. destruct (my_job _ _) as [j|]; (split; [by apply affected_count, waiting_spec|]).
    + right. destruct Hm as (k & Hk & Hmine & Hold). exists k, j. repeat (split; [done|]). cbn [TotalPending MyPosition]. unfold pending_count.
      rewrite (affected_count waiting waits) by apply waiting_spec. by apply (position_spec _ k).
    + left. split; [by right|done].
Qed.
End Requests.

(** C24: A request that starts a job, alone: when it is accepted the table has one more job under a new
    key - of a known kind, queued, with no progress, of the caller and the session named - and no
    active job of its kind and datasource has one of its schemas (or its model); the key has been
    published exactly when there is a publisher.  When it is refused for a conflict, nothing is
    written and the job it names is active and of the same kind.  When it fails, nothing was
    published, and if a row was added all the same it waits or has failed. *)
Theorem Enqueue_outcome `{JobEnv} `{AIWork} s ctx_locale kind sid user req w : jobs_ok (jobs w) ->
  let '(w', r) := exec (Enqueue s ctx_locale kind sid user req) w in outcome s kind sid user req w w' r.
Proof. intros Hok. pose proof (Enqueue_wp s ctx_locale kind sid user req w Hok) as Hw. unfold wp in Hw. by destruct (exec _ w). Qed.

(** The status of the queue counts the jobs that wait, and names the oldest job of the session that
    waits or runs - with its status, and while it waits its place: one more than the jobs that wait
    and are older, hence between one and the number of those that wait - or says that there is none. *)
Theorem queue_status_exact `{JobEnv} sid w w' r : exec (GetAIQueueStatus sid) w = (w', r) ->
  jobs w' = jobs w /\ forall st, r = Ok st -> status_of (jobs w) sid st.
Proof. intros He. pose proof (queue_status_wp sid w) as Hw. unfold wp in Hw. by rewrite He in Hw. Qed.

(** * On a small table *)

(** Texts are keys and documents as they are; a payload is the datasource, or the schemas of a batch
    separated by commas; the language model describes every table but those it cannot find. *)
Module Demo.
#[global] Instance env : JobEnv := {|
  jtime t := Z.of_nat t;
  jdb_fault _ := None;
  publish_fault _ := None;
  new_uuid t := "job-" +:+ Itoa (Z.of_nat t);
  uuid s := if str_empty s then Err (EMsg "invalid uuid") else Ok s;
  jsonb s := Ok s;
  member _ _ := None;
  ilike _ _ := false;
  nil_jsonb := Ok None;
|}.
#[global] Instance work : AIWork := {|
  decode_query raw := Ok (mkQueryRequest raw "" "" "" "how many?" [] "" 0 None None [] [] false None []);
  decode_describe raw := Ok (mkDescribe "ds" "sales" raw "" 0 false);
  decode_describe_batch raw := Ok (mkDescribeBatch "ds" (map (fun s => mkBatchTable s "orders") (Split "," raw)) "" 0 false false);
  decode_describe_relations raw := Ok (mkDescribeRelations raw [] false "");
  decode_embed_metadata raw := Ok (mkEmbed raw "");
  supported_locales := ["en"; "tr"];
  QueryModel := unit; Route := unit; Response := string;
  loadQueryModel _ _ _ := Ok (tt, tt);
  tierZeroClarification _ _ _ _ _ := None;
  resolveProcessContext _ _ req _ := Ok req;
  resolveRunPhase _ _ _ _ := Ok tt;
  processAIQuestion _ _ _ _ _ := Ok "42";
  finishAIPreviewResult _ _ _ _ r := Ok r;
  finishAIRunResult _ _ _ _ r := Ok r;
  persistAgentRun _ _ _ _ r := r;
  marshal_response r := Ok r;
  DescribeResult := Z; described_columns n := n;
  Describe _ _ q := if str_in (d_Table q) ["cancelled_orders"] then Err (EMsg "table cancelled_orders not found") else Ok 3;
  ListTables _ _ := Ok [];
  marshal_describe n := Ok (Itoa n);
  marshal_batch _ ok _ _ := Ok (Itoa ok);
  marshal_batch_progress p := Ok (bp_CurrentTable p);
  relations_configured := true;
  ListRelationDetails _ _ := Ok [];
  CheckSpend _ := None;
  ctx_Err _ := None;
  GenerateRelations _ _ _ := Ok (Ok []);
  UpdateRelationDescription _ _ _ := None;
  UpsertTranslation _ _ _ _ := None;
  marshal_relations r := Ok (Itoa (rr_Updated r));
  embeddings_configured := true;
  tablesForModel _ _ := Ok [];
  EmbedForTables _ _ _ := Ok [];
  EmbedAllForDatasource _ _ := Ok [];
  embedder_model := "e5";
  marshal_embed r := Ok (Itoa (er_Embedded r));
|}.

Definition service : AIJobService := mkJobService true true.
Definition ann : Caller := mkCaller "ann" ["analyst"].
Definition bob : Caller := mkCaller "bob" ["analyst"].
Definition root : Caller := mkCaller "root" ["super_admin"].
Definition no_values : Values := fun _ => [].
Definition nobody : JobContext := mkContext "" "en".
Definition queued (id user kind request : string) : AIJob :=
  mkAIJob id (user +:+ "-tab") (Some user) "" kind AIJobStatusQueued "queued" "" 0 (Some "ds") ["sales"] None request None "" 0 0 None None.
Definition table : Table := <["j2" := queued "j2" "bob" "describe" "cancelled_orders"]> {["j1" := queued "j1" "ann" "describe_batch" "sales,stock"]}.
Definition world : JobWorld := mkJobWorld table [] [] 0.
Lemma table_ok : jobs_ok (jobs world).
Proof.
  intros k j. cbn [jobs world]. unfold table. destruct (decide ("j2" = k)) as [<-|Hne].
  - rewrite lookup_insert_eq. intros [= <-]. split; [done|]. split; [done|]. unfold terminal. cbn. set_solver.
  - rewrite lookup_insert_ne by done. intros [<- <-]%lookup_singleton_Some. split; [done|]. split; [done|]. unfold terminal. cbn. set_solver.
Qed.
Definition status_in (w : JobWorld) (id : string) : option (string * Z * option string) :=
  (fun j => (j_Status j, j_ProgressPct j, j_ResultJSON j)) <$> jobs w !! id.

(** The worker has described one of the two tables; then Ann cancels her job; then the worker goes on. *)
Definition start : JobWorld * list (prog JobWorld (option Reply)) :=
  (world, map (act_as service) [Worker nobody "j1"; Request ann (RCancel "j1" no_values)]).
Definition cancelled_while_running : JobWorld * list (prog JobWorld (option Reply)) :=
  follow (replicate 5 0 ++ replicate 3 1 ++ replicate 9 0)%nat start.

(** A job that is cancelled while it runs ends as one that succeeded: the worker sees that it was
    cancelled, stops, and completes it. *)
Example cancelled_job_succeeds :
  status_in (follow (replicate 5 0 ++ replicate 3 1)%nat start).1 "j1" = Some (AIJobStatusCancelled, 0, None) /\
  status_in cancelled_while_running.1 "j1" = Some (AIJobStatusSucceeded, 100, Some "1").
Proof. split; vm_compute; reflexivity. Qed.
(** A failure whose text mentions a cancellation leaves the job running, with no error to deliver again. *)
Example failure_left_running :
  let '(w, r) := exec (Process nobody "j2") world in status_in w "j2" = Some (AIJobStatusRunning, 35, None) /\ r = Ok tt.
Proof. vm_compute. by split. Qed.
(** Two requests for the same schema are both accepted when each looks for a conflict before the other adds its job. *)
Example conflicting_batches_accepted :
  map (fun m => match m with Ret (Some r) => Some (status r) | _ => None end)
    (follow (replicate 1 0 ++ replicate 5 1 ++ replicate 5 0)%nat
       (world, map (act_as service) [Request ann (RCreate "en" "describe_batch" "ann-tab" "hr"); Request bob (RCreate "en" "describe_batch" "bob-tab" "hr,it")])).2
  = [Some StatusAccepted; Some StatusAccepted].
Proof. vm_compute. reflexivity. Qed.
(** A job that runs is started again by a second delivery of its message. *)
Example started_twice : (exec (let* a := TryMarkAIJobRunning "j1" in let* b := TryMarkAIJobRunning "j1" in Ret (a, b)) world).2 = (Ok true, Ok true).
Proof. vm_compute. reflexivity. Qed.
(** Jobs older than 153722868 minutes: the product overflows, and every active job is cancelled. *)
Example stale_overflows :
  (exec (serve_job service root (RAdminCancelAllStale (fun key => if String.eqb key "older_minutes" then ["153722868"] else []))) world).2
  = mkReply StatusOK (BCancelledOf 2 2).
Proof. vm_compute. reflexivity. Qed.
(** Bob is shown Ann's job when his batch conflicts with hers. *)
Example conflict_shows_others :
  (exec (serve_job service bob (RCreate "en" "describe_batch" "bob-tab" "sales")) world).2
  = mkReply StatusConflict (BCreateConflict "metadata describe batch already running for overlapping schema(s)" "j1"
      (queued "j1" "ann" "describe_batch" "sales,stock") ["sales"]).
Proof. vm_compute. reflexivity. Qed.
End Demo.
Import Demo.

(** The constraint on the kinds does not know [describe_relations]: such a job is never created. *)
Lemma describe_relations_never_created `{JobEnv} `{AIWork} s ctx_locale sid user req w job : jobs_ok (jobs w) ->
  (exec (Enqueue s ctx_locale "describe_relations" sid user req) w).2 <> Ok (inl job).
Proof.
  intros Hok He. pose proof (Enqueue_wp s ctx_locale "describe_relations" sid user req w Hok) as Hw. unfold wp in Hw. rewrite He in Hw.
  destruct Hw as (k & row & _ & (_ & _ & _ & _ & Hk & _) & _). apply str_in_spec in Hk. discriminate Hk.
Qed.

Lemma jobs_kept_witness : jobs_ok (jobs cancelled_while_running.1) /\ table_kept table (jobs cancelled_while_running.1).
Proof.
  apply (jobs_kept service [Worker nobody "j1"; Request ann (RCancel "j1" no_values)] world cancelled_while_running table_ok).
  apply follow_interleaves.
Defined.
Lemma Enqueue_outcome_witness :
  let '(w', r) := exec (Enqueue service "en" "describe_batch" "bob-tab" "bob" "hr") world in outcome service "describe_batch" "bob-tab" "bob" "hr" world w' r.
Proof. exact (Enqueue_outcome service "en" "describe_batch" "bob-tab" "bob" "hr" world table_ok). Defined.
Lemma queue_status_exact_witness : jobs (exec (GetAIQueueStatus "bob-tab") world).1 = table /\
  forall st, (exec (GetAIQueueStatus "bob-tab") world).2 = Ok st -> status_of table "bob-tab" st.
Proof. apply (queue_status_exact "bob-tab" world). vm_compute. reflexivity. Defined.

(** The worker, and a job of Bob's that is made meanwhile. *)
Definition worked : JobWorld * list (prog JobWorld (res unit)) :=
  (world, [Process nobody "j1"; CreateAIJob (Some (queued "j3" "bob" "describe" "orders"))]).
Lemma created_elsewhere : steps_in (leaves_alone "j1") (CreateAIJob (Some (queued "j3" "bob" "describe" "orders"))).
Proof.
  assert (Hr : Reflexive (fun t t' : Table => t' !! "j1" = t !! "j1")) by done.
  apply steps_in_wrap, (statement_in (fun t t' : Table => t' !! "j1" = t !! "j1") (insert_job (queued "j3" "bob" "describe" "orders"))).
  intros now t t' a Ht. apply insert_job_ok in Ht as (k & row & Hk & _ & -> & _). injection Hk as <-. by rewrite lookup_insert_ne.
Qed.
Lemma progress_never_goes_back_witness :
  let c := follow [0; 0; 1; 0]%nat worked in pool_step c (go 0 c) /\ not_back "j1" c.1 (go 0 c).1.
Proof.
  assert (Hs : pool_step (follow [0; 0; 1; 0]%nat worked) (go 0 (follow [0; 0; 1; 0]%nat worked))) by (eapply go_step; reflexivity).
  split; [exact Hs|].
  apply (progress_never_goes_back nobody "j1" "j1" [CreateAIJob (Some (queued "j3" "bob" "describe" "orders"))] world (follow [0; 0; 1; 0]%nat worked)).
  - reflexivity.
  - intros j Hj. vm_compute in Hj. injection Hj as <-. cbn. lia.
  - constructor; [exact created_elsewhere|constructor].
  - apply follow_interleaves.
  - exact Hs.
Defined.
