(* ===== verification/Gate.v ===== *)
(** The gates in front of the API ([internal/http/middleware]: [jwt.go], [permission.go],
    [apikey.go]).

    A request passes a chain of gates before a handler serves it: who calls is found from a
    signed token, a personal access token or an API key; a gate of a permission or of a
    datasource asks the authentication service, whose answers are kept for five minutes.  A
    gate either passes a request on, with what it knows of the caller, or denies it.

    The gates of concurrent requests share the caches of the client and the public key; each
    step here is what one request does while it holds a lock, or one call.  The clock, the
    calls, the decoding of their answers, the library of signed tokens and the order in which
    Go ranges over a map are those of an arbitrary run ([GateEnv]). *)

From S2P Require Import Prelude GoStrings Interleave Tables.
From stdpp Require Import options.
#[local] Open Scope Z_scope.

(** * Requests *)

(** What the context knows of the caller; what is not there has the zero value. *)
Record Ctx : Type := mkCtx {
  UserID : string;
  UserEmail : string;
  UserRoles : list string;
  WorkspaceID : string;
  AccessibleDatasources : list string;
  EmailVerified : bool;
}.
Definition no_identity : Ctx := mkCtx "" "" [] "" [] false.
Definition HasRole (c : Ctx) (role : string) : bool := str_in role (UserRoles c).
Definition RoleSuperAdmin : string := "super_admin".

(** A request as the router hands it on; what is left of its body. *)
Record HTTPRequest : Type := mkHTTPRequest {
  Method : string;
  Path : string;
  Header : string -> string;
  URLParam : string -> string;
  Query : string -> string;
  Body : option string;
}.
Definition with_body (b : option string) (r : HTTPRequest) : HTTPRequest :=
  mkHTTPRequest (Method r) (Path r) (Header r) (URLParam r) (Query r) b.

Inductive Verdict : Type :=
| Next (r : HTTPRequest) (c : Ctx)
| Deny (status : Z) (message : string).

Definition StatusBadRequest : Z := 400.
Definition StatusUnauthorized : Z := 401.
Definition StatusForbidden : Z := 403.
Definition StatusNotFound : Z := 404.
Definition StatusServiceUnavailable : Z := 503.

(** * The authentication service *)

(** A call carries the internal token and, if it has one, a document of named texts. *)
Record Call : Type := mkCall { c_Method : string; c_Path : string; c_Body : list (string * string) }.
#[global] Instance Call_eq_dec : EqDecision Call.
Proof. solve_decision. Defined.
Record Answer : Type := mkAnswer { StatusCode : Z; AnswerBody : string }.

Record JWTClaims : Type := mkClaims {
  cl_Subject : string; cl_Email : string; cl_Roles : list string; cl_WorkspaceID : string;
  cl_AccessibleDatasources : list string; cl_EmailVerified : bool }.
Record PATIdentity : Type := mkPATIdentity {
  pat_UserID : string; pat_Email : string; pat_EmailVerified : bool; pat_Roles : list string; pat_WorkspaceID : string }.

(** [jwt.ParserOption] *)
Inductive ParserOption : Type := WithValidMethods (l : list string) | WithIssuer (s : string) | WithAudience (s : string).

Class GateEnv : Type := {
  gtime : nat -> Z;
  Do : nat -> Call -> res Answer;
  (** the fields of an answer *)
  decode_allowed : string -> res bool;
  decode_enabled : string -> res bool;
  decode_ids : string -> res (list string);
  decode_email : string -> res string;
  decode_ai_access : string -> res (bool * list string * list string * list (string * string));
  decode_ai_preferences : string -> res (list (string * string));
  decode_identity : string -> res PATIdentity;
  decode_key : string -> res (string * string * string);
  (** the library of signed tokens: [ParseWithClaims] asks for the key of a token that is signed
      with RSA or not, and answers the claims and whether the token is valid *)
  RSAKey : Type;
  ParseRSAPublicKeyFromPEM : string -> res RSAKey;
  ParseWithClaims : nat -> list ParserOption -> string -> (bool -> res RSAKey) -> res (JWTClaims * bool);
  (** [datasource_id] and [logical_query.datasource_id] of a document *)
  probe : string -> res (string * string);
  read_fault : nat -> option goerr;
  (** the order in which Go ranges over the keys of a map *)
  range : nat -> list string -> list string;
}.

Definition Second : Z := 10 ^ 9.
Definition Minute : Z := 60 * Second.
Definition maxDatasourceProbeBodyBytes : Z := 1048576.
Definition maxAuthClientCacheEntries : nat := 4096.
Definition cacheTTL : Z := 5 * Minute.
Definition key_ttl : Z := 60 * Minute.

Section Gate.
Context `{GateEnv}.

Record jwtConfig : Type := mkJwtConfig { key : RSAKey; issuer : string; audience : string }.
Record permEntry : Type := mkEntry { allowed : bool; at_ : Z }.
Record wsDSEntry : Type := mkWsEntry { ids : list string; ws_at : Z }.

Record GateWorld : Type := mkGateWorld {
  permCache : gmap string permEntry;
  dsCache : gmap string permEntry;
  wsDSCache : gmap string wsDSEntry;
  publicKey : option jwtConfig;
  fetchedAt : Z;
  (** the calls made so far and their answers *)
  calls : list (Call * res Answer);
  g_tick : nat;
}.
Definition tick (n : nat) (w : GateWorld) : GateWorld :=
  mkGateWorld (permCache w) (dsCache w) (wsDSCache w) (publicKey w) (fetchedAt w) (calls w) (g_tick w + n).
Definition set_perm (m : gmap string permEntry) (w : GateWorld) : GateWorld :=
  mkGateWorld m (dsCache w) (wsDSCache w) (publicKey w) (fetchedAt w) (calls w) (S (g_tick w)).
Definition set_ds (m : gmap string permEntry) (w : GateWorld) : GateWorld :=
  mkGateWorld (permCache w) m (wsDSCache w) (publicKey w) (fetchedAt w) (calls w) (S (g_tick w)).
Definition set_wsds (m : gmap string wsDSEntry) (w : GateWorld) : GateWorld :=
  mkGateWorld (permCache w) (dsCache w) m (publicKey w) (fetchedAt w) (calls w) (S (g_tick w)).

Definition asking {A} (f : nat -> A) : prog GateWorld A := atomic (fun w => (tick 1 w, f (g_tick w))).
(** A call, made and answered. *)
Definition called (c : Call) (w : GateWorld) : GateWorld * res Answer :=
  (mkGateWorld (permCache w) (dsCache w) (wsDSCache w) (publicKey w) (fetchedAt w) (calls w ++ [(c, Do (g_tick w) c)]) (S (g_tick w)),
   Do (g_tick w) c).
Definition call (c : Call) : prog GateWorld (res Answer) := atomic (called c).
Definition StatusOK : Z := 200.
Definition StatusNoContent : Z := 204.
(** A call whose answer is decoded; [ctx] names it when its status is another than 200. *)
Definition call_decode {A} (ctx : string) (decode : string -> res A) (c : Call) : prog GateWorld (res A) :=
  try* resp := call c in
  if negb (StatusCode resp =? StatusOK) then Ret (Err (EMsg (ctx +:+ Itoa (StatusCode resp)))) else
  Ret (decode (AnswerBody resp)).
Definition postBool (path : string) (body : list (string * string)) : prog GateWorld (res bool) :=
  call_decode "auth service returned " decode_allowed (mkCall "POST" path body).
Definition fetchDatasourceIDs (path : string) : prog GateWorld (res (list string)) :=
  call_decode "list datasources: status " decode_ids (mkCall "GET" path []).

(** ** Caches *)

(** Entries too old go; when there are still too many, entries go in the order of [range] until half are left. *)
Fixpoint evict_until {E} (keys : list string) (m : gmap string E) : gmap string E :=
  match keys with
  | [] => m
  | k :: keys =>
      let m := delete k m in
      if (size m <=? maxAuthClientCacheEntries / 2)%nat then m else evict_until keys m
  end.
Definition evictExpired {E} (at_of : E -> Z) (now : Z) (t : nat) (m : gmap string E) : gmap string E :=
  let m := filter (fun ke => now - at_of ke.2 < cacheTTL) m in
  if (maxAuthClientCacheEntries <? size m)%nat then evict_until (range t (map_to_list m).*1) m else m.

(** An entry that is fresh enough. *)
Definition fresh {E} (at_of : E -> Z) (now : Z) (e : option E) : option E :=
  match e with Some e => if now - at_of e <? cacheTTL then Some e else None | None => None end.
Definition permKey (userID permission scopeType scopeID : string) : string := Sprintf "%s:%s:%s:%s" [userID; permission; scopeType; scopeID].
Definition dsKey (userID datasourceID level : string) : string := Sprintf "%s:%s:%s" [userID; datasourceID; level].

Definition check_permission_call (userID permission scopeType scopeID : string) : list (string * string) :=
  [("user_id", userID); ("permission", permission); ("scope_type", scopeType); ("scope_id", scopeID)].
Definition CheckPermission (userID permission scopeType scopeID : string) : prog GateWorld (res bool) :=
  let k := permKey userID permission scopeType scopeID in
  let* hit := atomic (fun w => (tick 1 w, fresh at_ (gtime (g_tick w)) (permCache w !! k))) in
  match hit with
  | Some e => Ret (Ok (allowed e))
  | None =>
      try* a := postBool "/internal/auth/check-permission" (check_permission_call userID permission scopeType scopeID) in
      let* now := asking gtime in
      atomic (fun w => (set_perm (evictExpired at_ now (g_tick w) (<[k := mkEntry a now]> (permCache w))) w, Ok a))
  end.
Definition check_datasource_call (userID datasourceID level : string) : list (string * string) :=
  [("user_id", userID); ("datasource_id", datasourceID); ("level", level)].
Definition CheckDatasourceAccess (userID datasourceID level : string) : prog GateWorld (res bool) :=
  let k := dsKey userID datasourceID level in
  let* hit := atomic (fun w => (tick 1 w, fresh at_ (gtime (g_tick w)) (dsCache w !! k))) in
  match hit with
  | Some e => Ret (Ok (allowed e))
  | None =>
      try* a := postBool "/internal/auth/check-datasource-access" (check_datasource_call userID datasourceID level) in
      let* now := asking gtime in
      atomic (fun w => (set_ds (evictExpired at_ now (g_tick w) (<[k := mkEntry a now]> (dsCache w))) w, Ok a))
  end.
Definition ListUserDatasources (userID : string) : prog GateWorld (res (list string)) :=
  fetchDatasourceIDs ("/internal/auth/user/" +:+ userID +:+ "/datasources").
Definition ListWorkspaceDatasources (workspaceID : string) : prog GateWorld (res (list string)) :=
  if str_empty workspaceID then Ret (Ok []) else
  let* hit := atomic (fun w => (tick 1 w, fresh ws_at (gtime (g_tick w)) (wsDSCache w !! workspaceID))) in
  match hit with
  | Some e => Ret (Ok (ids e))
  | None =>
      try* l := fetchDatasourceIDs ("/internal/auth/workspaces/" +:+ workspaceID +:+ "/datasources") in
      let* now := asking gtime in
      atomic (fun w => (set_wsds (evictExpired ws_at now (g_tick w) (<[workspaceID := mkWsEntry l now]> (wsDSCache w))) w, Ok l))
  end.
Definition InvalidateWorkspaceDatasourceCache (workspaceID : string) : prog GateWorld unit :=
  atomic (fun w => (set_wsds (delete workspaceID (wsDSCache w)) w, tt)).
Definition WorkspacePublicSharingEnabled (workspaceID : string) : prog GateWorld (res bool) :=
  call_decode "public-sharing lookup: status " decode_enabled
    (mkCall "GET" ("/internal/auth/workspaces/" +:+ PathEscape workspaceID +:+ "/public-sharing") []).
Definition GetUserEmail (userID : string) : prog GateWorld (res string) :=
  call_decode "get user email: status " decode_email (mkCall "GET" ("/internal/auth/user/" +:+ userID) []).

(** Restricted to these models and providers, with these preferences. *)
Record UserAIAccess_ : Type := mkAIAccess {
  Restricted : bool; ModelIDs : list string; ProviderIDs : list string; Preferences : list (string * string) }.
Definition UserAIAccess (userID : string) : prog GateWorld (res (option UserAIAccess_)) :=
  if str_empty userID then Ret (Ok None) else
  call_decode "user ai access: status " (fun s => let? a := decode_ai_access s in
      let '(restricted, models, providers, prefs) := a in Ok (Some (mkAIAccess restricted models providers prefs)))
    (mkCall "GET" ("/internal/auth/user/" +:+ userID +:+ "/ai-access") []).
Definition ListUserAIPreferences (userID : string) : prog GateWorld (res (list (string * string))) :=
  if str_empty userID then Ret (Ok []) else
  call_decode "list user ai preferences: status " decode_ai_preferences (mkCall "GET" ("/internal/auth/user/" +:+ userID +:+ "/ai-preferences") []).
(** A call that answers with a status only. *)
Definition call_status (ctx : string) (c : Call) : prog GateWorld (res unit) :=
  try* resp := call c in
  if negb (StatusCode resp =? StatusOK) && negb (StatusCode resp =? StatusNoContent) then Ret (Err (EMsg (ctx +:+ Itoa (StatusCode resp)))) else
  Ret (Ok tt).
Definition SetUserAIPreference (userID purpose modelID : string) : prog GateWorld (res unit) :=
  call_status "set user ai preference: status "
    (mkCall "PUT" ("/internal/auth/user/" +:+ userID +:+ "/ai-preferences") [("purpose", purpose); ("model_id", modelID)]).
Definition DeleteUserAIPreference (userID purpose : string) : prog GateWorld (res unit) :=
  call_status "delete user ai preference: status " (mkCall "DELETE" ("/internal/auth/user/" +:+ userID +:+ "/ai-preferences/" +:+ purpose) []).

(** * Who calls *)

Definition ErrInvalidPersonalAccessToken : goerr := EMsg "invalid personal access token".
Definition VerifyPersonalAccessToken (token : string) : prog GateWorld (res PATIdentity) :=
  try* resp := call (mkCall "POST" "/internal/auth/verify-token" [("token", token)]) in
  if StatusCode resp =? StatusUnauthorized then Ret (Err ErrInvalidPersonalAccessToken) else
  if negb (StatusCode resp =? StatusOK) then Ret (Err (EMsg ("auth service returned " +:+ Itoa (StatusCode resp)))) else
  Ret (decode_identity (AnswerBody resp)).

(** The key at hand, unless it is too old. *)
Definition current_key (now : Z) (w : GateWorld) : option jwtConfig :=
  match publicKey w with Some cfg => if now - fetchedAt w <? key_ttl then Some cfg else None | None => None end.
(** The key, fetched while the lock of the provider is held: what others do meanwhile does not touch it. *)
Definition fetch_key (w : GateWorld) : GateWorld * res jwtConfig :=
  match current_key (gtime (g_tick w)) w with
  | Some cfg => (tick 1 w, Ok cfg)
  | None =>
      let '(w, resp) := called (mkCall "GET" "/internal/auth/public-key" []) w in
      let parsed :=
        let? resp := res_map_err (EWrap "fetch public key") resp in
        if negb (StatusCode resp =? StatusOK) then Err (EMsg ("public-key endpoint returned " +:+ Itoa (StatusCode resp))) else
        let? body := res_map_err (EWrap "decode public-key response") (decode_key (AnswerBody resp)) in
        let '(pem, iss, aud) := body in
        let? k := res_map_err (EWrap "parse public key") (ParseRSAPublicKeyFromPEM pem) in
        Ok (mkJwtConfig k iss aud) in
      match parsed with
      | Ok cfg => (mkGateWorld (permCache w) (dsCache w) (wsDSCache w) (Some cfg) (gtime (g_tick w)) (calls w) (S (g_tick w)), Ok cfg)
      | Err e => (tick 1 w, Err e)
      end
  end.
Definition getConfig : prog GateWorld (res jwtConfig) :=
  let* hit := atomic (fun w => (tick 1 w, current_key (gtime (g_tick w)) w)) in
  match hit with Some cfg => Ret (Ok cfg) | None => atomic fetch_key end.

Definition parser_options (cfg : jwtConfig) : list ParserOption :=
  [WithValidMethods ["RS256"]] ++ (if str_empty (issuer cfg) then [] else [WithIssuer (issuer cfg)])
    ++ (if str_empty (audience cfg) then [] else [WithAudience (audience cfg)]).
Definition key_for (cfg : jwtConfig) (rsa : bool) : res RSAKey :=
  if rsa then Ok (key cfg) else Err (EMsg "unexpected signing method").
Definition verifyJWTClaims (cfg : jwtConfig) (tokenStr : string) : prog GateWorld (res JWTClaims) :=
  try* tok := asking (fun t => ParseWithClaims t (parser_options cfg) tokenStr (key_for cfg)) in
  if negb tok.2 then Ret (Err (EMsg "invalid token")) else Ret (Ok tok.1).

Definition applyJWTClaims (c : Ctx) (claims : JWTClaims) : Ctx :=
  mkCtx (cl_Subject claims) (cl_Email claims) (cl_Roles claims) (cl_WorkspaceID claims) (cl_AccessibleDatasources claims) (cl_EmailVerified claims).
Definition applyPATIdentity (c : Ctx) (identity : PATIdentity) : Ctx :=
  mkCtx (pat_UserID identity) (pat_Email identity) (pat_Roles identity) (pat_WorkspaceID identity) (AccessibleDatasources c) (pat_EmailVerified identity).
Definition apply_admin_key (c : Ctx) : Ctx :=
  mkCtx "admin" (UserEmail c) [RoleSuperAdmin] (WorkspaceID c) (AccessibleDatasources c) true.

Definition pathMatchesBypass (path : string) (bypassPaths : list string) : bool := str_in path bypassPaths.
(** What follows [Bearer ], in any case. *)
Definition bearer (header : string) : string :=
  let v := TrimSpace header in
  if (7 <? String.length v)%nat && EqualFold (substring 0 7 v) "Bearer " then TrimSpace (substring 7 (String.length v - 7) v) else "".
Definition extractBearer (r : HTTPRequest) : string := bearer (Header r "Authorization").
Definition extractAPIKey (r : HTTPRequest) : string :=
  let v := TrimSpace (Header r "X-API-Key") in
  if negb (str_empty v) then v else bearer (Header r "Authorization").
Definition matchesAnyKey (provided : string) (keys : list string) : bool :=
  if str_empty provided then false else str_in provided keys.
Definition personalAccessTokenPrefix : string := "bqpat_".

Definition Gate : Type := HTTPRequest -> Ctx -> prog GateWorld Verdict.
Definition pass : Gate := fun r c => Ret (Next r c).
(** One gate after the other. *)
Definition chain (g h : Gate) : Gate := fun r c =>
  let* v := g r c in
  match v with Next r c => h r c | Deny _ _ => Ret v end.

(** The identity of a token that was signed. *)
Definition by_jwt (tokenStr : string) : Gate := fun r c =>
  let* cfg := getConfig in
  match cfg with
  | Err _ => Ret (Deny StatusServiceUnavailable "auth key unavailable")
  | Ok cfg =>
      let* claims := verifyJWTClaims cfg tokenStr in
      match claims with
      | Err _ => Ret (Deny StatusUnauthorized "invalid token")
      | Ok claims => Ret (Next r (applyJWTClaims c claims))
      end
  end.
Definition JWTAuth (bypassPaths : list string) : Gate := fun r c =>
  if pathMatchesBypass (Path r) bypassPaths then pass r c else
  let tokenStr := extractBearer r in
  if str_empty tokenStr then Ret (Deny StatusUnauthorized "missing bearer token") else
  by_jwt tokenStr r c.
Definition JWTAuthWithAdminBypass (adminKeys : list string) (authClient : bool) (bypassPaths : list string) : Gate := fun r c =>
  let expected := List.filter (fun k => negb (str_empty k)) (map TrimSpace adminKeys) in
  if pathMatchesBypass (Path r) bypassPaths then pass r c else
  if matchesAnyKey (extractAPIKey r) expected then pass r (apply_admin_key c) else
  let tokenStr := extractBearer r in
  if str_empty tokenStr then Ret (Deny StatusUnauthorized "missing bearer token") else
  if HasPrefix tokenStr personalAccessTokenPrefix then
    if negb authClient then Ret (Deny StatusUnauthorized "invalid token") else
    let* identity := VerifyPersonalAccessToken tokenStr in
    Ret (match identity with
         | Err _ => Deny StatusUnauthorized "invalid token"
         | Ok identity => Next r (applyPATIdentity c identity)
         end)
  else by_jwt tokenStr r c.
Definition OptionalJWTAuth : Gate := fun r c =>
  let tokenStr := extractBearer r in
  if str_empty tokenStr then pass r c else
  let* v := by_jwt tokenStr r c in
  match v with Next _ _ => Ret v | Deny _ _ => pass r c end.
(** An empty key lets everything pass. *)
Definition APIKeyAuth (apiKey : string) (bypassPaths : list string) : Gate := fun r c =>
  let expected := TrimSpace apiKey in
  if str_empty expected then pass r c else
  if existsb (fun p => negb (str_empty p) && HasPrefix (Path r) p) bypassPaths then pass r c else
  let provided := extractAPIKey r in
  if str_empty provided || negb (String.eqb provided expected) then Ret (Deny StatusUnauthorized "unauthorized") else
  pass r c.
Definition RequireVerifiedEmail : Gate := fun r c =>
  if str_in (Method r) ["GET"; "HEAD"; "OPTIONS"] then pass r c else
  if negb (EmailVerified c) then Ret (Deny StatusForbidden "email_verification_required") else
  pass r c.

(** * Permissions and datasources *)

(** [client] is [nil] when authentication is switched off: everything passes. *)
Definition RequirePermission (client : bool) (permission : string) : Gate := fun r c =>
  if negb client then pass r c else
  if HasRole c RoleSuperAdmin then pass r c else
  if str_empty (UserID c) then Ret (Deny StatusUnauthorized "no user in context") else
  let* a := CheckPermission (UserID c) permission "workspace" (WorkspaceID c) in
  match a with
  | Err _ => Ret (Deny StatusServiceUnavailable "permission check failed")
  | Ok a => if negb a then Ret (Deny StatusForbidden ("permission denied: " +:+ permission)) else pass r c
  end.
(** The end of the two gates of datasources. *)
Definition datasource_gate (datasourceID requiredLevel : string) : Gate := fun r c =>
  let* a := CheckDatasourceAccess (UserID c) datasourceID requiredLevel in
  match a with
  | Err _ => Ret (Deny StatusServiceUnavailable "datasource access check failed")
  | Ok a => if negb a then Ret (Deny StatusForbidden "datasource access denied") else pass r c
  end.

(** [io.LimitReader] *)
Fixpoint limit_bytes (n : Z) (s : string) : string :=
  match s with
  | EmptyString => EmptyString
  | String a s => if n <=? 0 then EmptyString else String a (limit_bytes (n - 1) s)
  end.
(** The body is read up to a limit, and what was read is what the handler will read. *)
Definition extractDatasourceIDFromBody (r : HTTPRequest) : prog GateWorld (string * HTTPRequest) :=
  match Body r with
  | None => Ret ("", r)
  | Some body =>
      if negb (str_in (Method r) ["POST"; "PUT"; "PATCH"]) then Ret ("", r) else
      if negb (HasPrefix (Header r "Content-Type") "application/json") then Ret ("", r) else
      let* fault := asking read_fault in
      match fault with
      | Some _ => Ret ("", with_body (Some "") r)
      | None =>
          let buf := limit_bytes maxDatasourceProbeBodyBytes body in
          let id := match probe buf with
            | Err _ => ""
            | Ok (top, nested) => if str_empty top then nested else top
            end in
          Ret (id, with_body (Some buf) r)
      end
  end.
Definition extractDatasourceID (r : HTTPRequest) : prog GateWorld (string * HTTPRequest) :=
  let named := [URLParam r "datasourceID"; URLParam r "id"; Query r "datasource_id"] in
  match List.filter (fun id => negb (str_empty id)) named with
  | id :: _ => Ret (id, r)
  | [] => extractDatasourceIDFromBody r
  end.
Definition RequireDatasourceAccess (client : bool) (requiredLevel : string) : Gate := fun r c =>
  if negb client then pass r c else
  if HasRole c RoleSuperAdmin then pass r c else
  if str_empty (UserID c) then Ret (Deny StatusUnauthorized "no user in context") else
  let* x := extractDatasourceID r in
  let '(datasourceID, r) := x in
  if str_empty datasourceID then Ret (Deny StatusBadRequest "datasource id required") else
  datasource_gate datasourceID requiredLevel r c.
Definition RequireResolvedDatasourceAccess (client : bool) (requiredLevel : string) (resolve : nat -> string -> res string) : Gate := fun r c =>
  if negb client then pass r c else
  if HasRole c RoleSuperAdmin then pass r c else
  if str_empty (UserID c) then Ret (Deny StatusUnauthorized "no user in context") else
  let id := URLParam r "id" in
  if str_empty id then Ret (Deny StatusBadRequest "resource id required") else
  let* ds := asking (fun t => resolve t id) in
  match ds with
  | Err _ => Ret (Deny StatusNotFound "resource not found")
  | Ok datasourceID => datasource_gate datasourceID requiredLevel r c
  end.

(** * The gate of the internal routes ([internal_auth_middleware.go], [handler.go] of the service) *)

Definition internalTokenFromRequest (r : HTTPRequest) : string :=
  let t := TrimSpace (Header r "X-Internal-Token") in
  if negb (str_empty t) then t else bearer (Header r "Authorization").
Definition InternalTokenMiddleware (token : string) : Gate := fun r c =>
  let token := TrimSpace token in
  if str_empty token then Ret (Deny StatusForbidden "internal API token is not configured") else
  let got := internalTokenFromRequest r in
  if str_empty got || negb (String.eqb got token) then Ret (Deny StatusUnauthorized "invalid or missing internal API token") else
  pass r c.
Definition internalTokenMiddleware (want : string) : Gate := fun r c =>
  let tokenHeader := Header r "X-Internal-Token" in
  let tokenHeader := if str_empty tokenHeader then
      match Split " " (Header r "Authorization") with
      | [scheme; t] => if String.eqb (ToLower scheme) "bearer" then t else ""
      | _ => ""
      end
    else tokenHeader in
  if str_empty want || str_empty tokenHeader || negb (String.eqb tokenHeader want)
  then Ret (Deny StatusForbidden "forbidden: invalid internal token") else pass r c.

(** * Chains of gates *)

Inductive gate_spec : Type :=
| GJWTAuth (bypassPaths : list string)
| GJWTAuthWithAdminBypass (adminKeys : list string) (client : bool) (bypassPaths : list string)
| GOptionalJWTAuth
| GAPIKeyAuth (apiKey : string) (bypassPaths : list string)
| GRequireVerifiedEmail
| GRequirePermission (client : bool) (permission : string)
| GRequireDatasourceAccess (client : bool) (level : string)
| GRequireResolvedDatasourceAccess (client : bool) (level : string) (resolve : nat -> string -> res string)
| GInternalToken (token : string).
Definition gate_of (g : gate_spec) : Gate :=
  match g with
  | GJWTAuth bypass => JWTAuth bypass
  | GJWTAuthWithAdminBypass keys client bypass => JWTAuthWithAdminBypass keys client bypass
  | GOptionalJWTAuth => OptionalJWTAuth
  | GAPIKeyAuth k bypass => APIKeyAuth k bypass
  | GRequireVerifiedEmail => RequireVerifiedEmail
  | GRequirePermission client p => RequirePermission client p
  | GRequireDatasourceAccess client level => RequireDatasourceAccess client level
  | GRequireResolvedDatasourceAccess client level resolve => RequireResolvedDatasourceAccess client level resolve
  | GInternalToken token => InternalTokenMiddleware token
  end.
(** A route with the gates it was registered with ([r.Use], [r.With]); nothing is known of the caller at first. *)
Definition gates (l : list gate_spec) : Gate := foldr (fun g rest => chain (gate_of g) rest) pass l.
Definition enter (route : list gate_spec) (r : HTTPRequest) : prog GateWorld Verdict := gates route r no_identity.
End Gate.
