(* ===== verification/GateSafety.v ===== *)
(** What the gates let through, however the requests behind them interleave.

    Every entry of a cache is an answer the authentication service gave to exactly that
    question, the public key is one it published, and the caches stay below their limits; so
    whoever passes a chain of gates was admitted by each of them. *)

From S2P Require Import Prelude GoStrings Interleave Gate.
From stdpp Require Import options.
#[local] Open Scope Z_scope.

(** * Keys of the caches *)

Definition plain (s : string) : Prop := has_byte ":" s = false.
Lemma plain_prefix u x u' x' : plain u -> plain u' -> u +:+ String ":" x = u' +:+ String ":" x' -> u = u' /\ x = x'.
Proof.
  revert u'. induction u as [|a u IH]; intros [|b u'] Hu Hu' He; cbn in He.
  - injection He as ->. done.
  - injection He as <- _. discriminate Hu'.
  - injection He as -> _. discriminate Hu.
  - injection He as <- He. unfold plain in *. cbn in Hu, Hu'. apply orb_false_iff in Hu as [_ Hu], Hu' as [_ Hu'].
    destruct (IH u' Hu Hu' He) as [-> ->]. done.
Qed.
Lemma plain_app d l : has_byte ":" (d +:+ String ":" l) = true.
Proof.
  induction d as [|a d IH]; [done|]. change (Ascii.eqb a ":" || has_byte ":" (d +:+ String ":" l) = true). by rewrite IH, orb_true_r.
Qed.
Lemma plain_suffix d l d' l' : plain l -> plain l' -> d +:+ String ":" l = d' +:+ String ":" l' -> d = d' /\ l = l'.
Proof.
  revert d'. induction d as [|a d IH]; intros [|b d'] Hl Hl' He; cbn in He.
  - injection He as ->. done.
  - injection He as <- ->. unfold plain in Hl. by rewrite plain_app in Hl.
  - injection He as -> <-. unfold plain in Hl'. by rewrite plain_app in Hl'.
  - injection He as <- He. destruct (IH d' Hl Hl' He) as [-> ->]. done.
Qed.
Lemma app_nil_s s : s +:+ "" = s.
Proof. induction s as [|a s IH]; [done|]. change (String a (s +:+ "") = String a s). by rewrite IH. Qed.
Lemma dsKey_inj u d l u' d' l' : plain u -> plain u' -> plain l -> plain l' -> dsKey u d l = dsKey u' d' l' -> u = u' /\ d = d' /\ l = l'.
Proof.
  intros Hu Hu' Hl Hl' He. unfold dsKey in He. cbn in He. rewrite !app_nil_s in He.
  apply plain_prefix in He as [-> He]; [|done|done]. by apply plain_suffix in He as [-> ->].
Qed.
Lemma app_app_s a b c : (a +:+ b) +:+ c = a +:+ (b +:+ c).
Proof. induction a as [|x a IH]; [done|]. change (String x ((a +:+ b) +:+ c) = String x (a +:+ (b +:+ c))). by rewrite IH. Qed.
(** The permission is what is left between a user, and a scope and its type, without colons. *)
Lemma permKey_inj u p st sid u' p' st' sid' : plain u -> plain u' -> plain st -> plain st' -> plain sid -> plain sid' ->
  permKey u p st sid = permKey u' p' st' sid' -> u = u' /\ p = p' /\ st = st' /\ sid = sid'.
Proof.
  intros Hu Hu' Hst Hst' Hs Hs' He. unfold permKey in He. cbn in He. rewrite !app_nil_s in He.
  apply plain_prefix in He as [-> He]; [|done|done].
  assert (Hr : forall p st sid, p +:+ String ":" (st +:+ String ":" sid) = (p +:+ String ":" st) +:+ String ":" sid) by (intros; by rewrite app_app_s).
  rewrite !Hr in He. apply plain_suffix in He as [He ->]; [|done|done]. by apply plain_suffix in He as [-> ->].
Qed.

(** * What the service said *)

Section Safety.
Context `{GateEnv}.

(** A call that was answered, and how its answer decodes. *)
Definition told {A} (w : GateWorld) (c : Call) (decode : string -> res A) (a : A) : Prop :=
  exists resp, (c, Ok resp) ∈ calls w /\ StatusCode resp = StatusOK /\ decode (AnswerBody resp) = Ok a.
Definition perm_call (u p st sid : string) : Call := mkCall "POST" "/internal/auth/check-permission" (check_permission_call u p st sid).
Definition ds_call (u d l : string) : Call := mkCall "POST" "/internal/auth/check-datasource-access" (check_datasource_call u d l).
Definition pat_call (tok : string) : Call := mkCall "POST" "/internal/auth/verify-token" [("token", tok)].
Definition key_call : Call := mkCall "GET" "/internal/auth/public-key" [].
Definition published_key (w : GateWorld) (cfg : jwtConfig) : Prop :=
  exists pem, told w key_call decode_key (pem, issuer cfg, audience cfg) /\ ParseRSAPublicKeyFromPEM pem = Ok (key cfg).

Record sound (w : GateWorld) : Prop := mkSound {
  sound_perm k e : permCache w !! k = Some e -> exists u p st sid, k = permKey u p st sid /\ plain u /\ plain st /\ plain sid /\
    told w (perm_call u p st sid) decode_allowed (allowed e);
  sound_ds k e : dsCache w !! k = Some e -> exists u d l, k = dsKey u d l /\ plain u /\ plain l /\ told w (ds_call u d l) decode_allowed (allowed e);
  sound_key cfg : publicKey w = Some cfg -> published_key w cfg;
  sound_calls c r : (c, r) ∈ calls w -> exists t, r = Do t c;
  sound_sizes : (size (permCache w) <= maxAuthClientCacheEntries /\ size (dsCache w) <= maxAuthClientCacheEntries /\
    size (wsDSCache w) <= maxAuthClientCacheEntries)%nat;
}.
(** The list remembered for a workspace is what the service answered for it. *)
Definition ws_call (ws : string) : Call := mkCall "GET" ("/internal/auth/workspaces/" +:+ ws +:+ "/datasources") [].
Definition workspaces_told (w : GateWorld) : Prop :=
  forall ws e, wsDSCache w !! ws = Some e -> told w (ws_call ws) decode_ids (ids e).
(** What was said stays said. *)
Definition heard (w w' : GateWorld) : Prop := forall x, x ∈ calls w -> x ∈ calls w'.
Definition grows (w w' : GateWorld) : Prop := heard w w' /\ (sound w -> sound w') /\ (workspaces_told w -> workspaces_told w').
#[global] Instance grows_preorder : PreOrder grows.
Proof using.
  split; [intros w; split_and!; [intros x; exact id|exact id|exact id]|]. intros w1 w2 w3 (H1 & H1' & H1'') (H2 & H2' & H2'').
  split_and!; [intros x Hx; by apply H2, H1|auto|auto].
Qed.

Lemma told_mono {A} w w' c (decode : string -> res A) a : heard w w' -> told w c decode a -> told w' c decode a.
Proof using. intros Hh (resp & Hc & Hs & Hd). exists resp. split; [by apply Hh|done]. Qed.
Lemma published_mono w w' cfg : heard w w' -> published_key w cfg -> published_key w' cfg.
Proof using. intros Hh (pem & Ht & Hp). exists pem. split; [by eapply told_mono|done]. Qed.

Context (Hrange : forall t l, range t l ≡ₚ l).

Lemma workspaces_told_mono w w' : heard w w' -> wsDSCache w' = wsDSCache w -> workspaces_told w -> workspaces_told w'.
Proof using. intros Hh Hc Hw ws e He. rewrite Hc in He. by eapply told_mono, Hw. Qed.

Lemma workspaces_told_same w w' : calls w' = calls w -> wsDSCache w' = wsDSCache w -> workspaces_told w -> workspaces_told w'.
Proof using. intros Hc. apply workspaces_told_mono. intros x. by rewrite Hc. Qed.

(** ** Eviction *)

Lemma evict_until_sub {E} keys (m : gmap string E) : evict_until keys m ⊆ m.
Proof using.
  revert m. induction keys as [|k keys IH]; intros m; cbn [evict_until]; [done|]. destruct (_ <=? _)%nat; [apply delete_subseteq|].
  etransitivity; [apply IH|apply delete_subseteq].
Qed.
Lemma evict_until_size {E} keys (m : gmap string E) : (forall k, is_Some (m !! k) -> k ∈ keys) ->
  (size (evict_until keys m) <= maxAuthClientCacheEntries / 2)%nat.
Proof using.
  revert m. induction keys as [|k keys IH]; intros m Hk; cbn [evict_until].
  - assert (m = ∅) as ->; [|rewrite map_size_empty; apply Nat.le_0_l]. apply map_eq. intros k. rewrite lookup_empty.
    destruct (m !! k) as [e|] eqn:E1; [|done]. specialize (Hk k ltac:(by exists e)). by apply not_elem_of_nil in Hk.
  - destruct (Nat.leb_spec (size (delete k m)) (maxAuthClientCacheEntries / 2)) as [Hle|_]; [done|]. apply IH. intros k' Hk'.
    rewrite lookup_delete_is_Some in Hk'. destruct Hk' as [Hne Hk']. specialize (Hk k' Hk'). apply elem_of_cons in Hk as [->|Hk]; done.
Qed.
Lemma evict_sub {E} (at_of : E -> Z) now t m : evictExpired at_of now t m ⊆ m.
Proof using.
  unfold evictExpired. cbv zeta. destruct (_ <? _)%nat; [etransitivity; [apply evict_until_sub|]|]; apply map_filter_subseteq.
Qed.
Lemma evict_size {E} (at_of : E -> Z) now t m : (size (evictExpired at_of now t m) <= maxAuthClientCacheEntries)%nat.
Proof using Hrange.
  unfold evictExpired. cbv zeta. destruct (Nat.ltb_spec maxAuthClientCacheEntries (size (filter (fun ke : string * E => now - at_of ke.2 < cacheTTL) m))) as [_|Hle]; [|done].
  etransitivity; [apply evict_until_size|apply Nat.Div0.div_le_upper_bound; lia]. intros k [e He]. rewrite Hrange.
  apply list_elem_of_fmap. exists (k, e). by rewrite elem_of_map_to_list.
Qed.

(** ** Steps *)

Lemma tick_grows n w : grows w (tick n w).
Proof using.
  assert (Hh : heard w (tick n w)) by (intros x; exact id). split; [exact Hh|]. split; [|by apply workspaces_told_mono].
  intros [Hp Hd Hk Hc Hs]. by split.
Qed.
Lemma called_grows c w : grows w (called c w).1.
Proof using.
  assert (Hh : heard w (called c w).1) by (intros x Hx; cbn; apply elem_of_app; by left). split; [exact Hh|].
  split; [|by apply workspaces_told_mono]. intros [Hp Hd Hk Hc Hs]. split; [| | | |done].
  - intros k e He. destruct (Hp k e He) as (u & p & st & sid & -> & ? & ? & ? & Ht). exists u, p, st, sid. repeat (split; [done|]). by eapply told_mono.
  - intros k e He. destruct (Hd k e He) as (u & d & l & -> & ? & ? & Ht). exists u, d, l. repeat (split; [done|]). by eapply told_mono.
  - intros cfg Hcfg. eapply published_mono; [done|by apply Hk].
  - intros c' r Hin. cbn in Hin. apply elem_of_app in Hin as [Hin|Hin]; [by apply Hc|]. apply list_elem_of_singleton in Hin. injection Hin as -> ->. by eexists.
Qed.
Lemma store_perm_grows u p st sid a w t now : plain u -> plain st -> plain sid -> told w (perm_call u p st sid) decode_allowed a ->
  grows w (set_perm (evictExpired at_ now t (<[permKey u p st sid := mkEntry a now]> (permCache w))) w).
Proof using Hrange.
  intros Hu Hpl Hst Ht. split; [intros x; exact id|]. split; [|by apply workspaces_told_same]. intros [Hp Hd Hk Hc (Hs1 & Hs2 & Hs3)].
  split; [|done|done|done|split; [by apply evict_size|done]].
  intros k e He. cbn in He. eapply lookup_weaken in He; [|apply evict_sub]. apply lookup_insert_Some in He as [[<- <-]|[_ He]]; [|by apply Hp].
  by exists u, p, st, sid.
Qed.
Lemma store_ds_grows u d l a w t now : plain u -> plain l -> told w (ds_call u d l) decode_allowed a ->
  grows w (set_ds (evictExpired at_ now t (<[dsKey u d l := mkEntry a now]> (dsCache w))) w).
Proof using Hrange.
  intros Hu Hl Ht. split; [intros x; exact id|]. split; [|by apply workspaces_told_same]. intros [Hp Hd Hk Hc (Hs1 & Hs2 & Hs3)]. split; [done| |done|done|split; [done|split; [by apply evict_size|done]]].
  intros k e He. cbn in He. eapply lookup_weaken in He; [|apply evict_sub]. apply lookup_insert_Some in He as [[<- <-]|[_ He]]; [|by apply Hd].
  by exists u, d, l.
Qed.
Lemma set_wsds_grows m w : (size m <= maxAuthClientCacheEntries)%nat ->
  (workspaces_told w -> forall ws e, m !! ws = Some e -> told w (ws_call ws) decode_ids (ids e)) -> grows w (set_wsds m w).
Proof using.
  intros Hm Ht. split; [intros x; exact id|]. split; [intros [Hp Hd Hk Hc (Hs1 & Hs2 & Hs3)]; by split|].
  intros Hw ws e He. by apply (Ht Hw ws e).
Qed.
Lemma fetch_key_grows w : grows w (fetch_key w).1.
Proof using.
  unfold fetch_key. destruct (current_key _ w); [apply tick_grows|]. destruct (called _ w) as [w1 resp] eqn:Ec.
  pose proof (called_grows key_call w) as Hg. unfold key_call in Hg. rewrite Ec in Hg. cbn [fst] in Hg.
  destruct resp as [resp|e]; cbn; [|etransitivity; [exact Hg|apply tick_grows]].
  destruct (Z.eqb_spec (StatusCode resp) StatusOK) as [Hok|]; cbn; [|etransitivity; [exact Hg|apply tick_grows]].
  destruct (decode_key (AnswerBody resp)) as [[[pem iss] aud]|e] eqn:Ed; cbn; [|etransitivity; [exact Hg|apply tick_grows]].
  destruct (ParseRSAPublicKeyFromPEM pem) as [k|e] eqn:Ep; cbn; [|etransitivity; [exact Hg|apply tick_grows]].
  etransitivity; [exact Hg|]. split; [intros x; exact id|]. split; [|by apply workspaces_told_same]. intros [Hp Hd Hk Hc Hs]. split; [done|done| |done|done]. intros cfg Hcfg. cbn in Hcfg. injection Hcfg as <-.
  exists pem. split; [|done]. exists resp. split; [|done]. unfold called in Ec. injection Ec as <- Hresp. cbn. apply elem_of_app. right.
  rewrite Hresp. apply list_elem_of_singleton. done.
Qed.

(** ** Operations *)

#[local] Abbreviation run m Q w := (rg grows grows m Q w).

Lemma run_ret {A} (a : A) (Q : A -> GateWorld -> Prop) w : (forall w', grows w w' -> Q a w') -> run (Ret a) Q w.
Proof using. done. Qed.
Lemma run_bind {A B} (m : prog GateWorld A) (k : A -> prog GateWorld B) Q w : run m (fun a => rg grows grows (k a) Q) w -> run (prog_bind m k) Q w.
Proof using. intros Hm. apply rg_bind; [exact _|exact Hm]. Qed.
Lemma run_try {A B} (m : prog GateWorld (res A)) (k : A -> prog GateWorld (res B)) Q w :
  run m (fun r w => match r with Ok a => rg grows grows (k a) Q w | Err e => forall w', grows w w' -> Q (Err e) w' end) w -> run (or_return m k) Q w.
Proof using. intros Hm. apply rg_try; [exact _|exact Hm]. Qed.
Lemma run_tick {A} (f : GateWorld -> A) (Q : A -> GateWorld -> Prop) w :
  (forall w1 w', grows w w1 -> grows w1 w' -> Q (f w1) w') -> run (atomic (fun w => (tick 1 w, f w))) Q w.
Proof using.
  intros HQ. apply rg_atomic. intros w1 H1. split; [apply tick_grows|]. intros w2 H2. apply HQ; [done|].
  etransitivity; [apply tick_grows|exact H2].
Qed.
Lemma run_call c (Q : res Answer -> GateWorld -> Prop) w : (forall w' r, grows w w' -> (c, r) ∈ calls w' -> Q r w') -> run (call c) Q w.
Proof using.
  intros HQ. apply rg_atomic. intros w1 H1. split; [apply called_grows|]. intros w2 H2. apply HQ.
  - etransitivity; [exact H1|]. etransitivity; [apply called_grows|exact H2].
  - apply H2. cbn. apply elem_of_app. right. by apply list_elem_of_singleton.
Qed.
Lemma run_call_decode {A} ctx (decode : string -> res A) c (Q : res A -> GateWorld -> Prop) w :
  (forall w' r, grows w w' -> (forall a, r = Ok a -> told w' c decode a) -> Q r w') -> run (call_decode ctx decode c) Q w.
Proof using.
  intros HQ. apply run_try, run_call. intros w1 [resp|e] H1 Hc; [|intros w2 H2; apply HQ; [by etransitivity|done]].
  destruct (Z.eqb_spec (StatusCode resp) StatusOK) as [Hs|_]; cbn [negb]; apply run_ret; intros w2 H2; (apply HQ; [by etransitivity|]); [|done].
  intros a Ha. exists resp. split; [by apply H2|done].
Qed.
Lemma fresh_lookup {E} (at_of : E -> Z) now o e : fresh at_of now o = Some e -> o = Some e.
Proof using. unfold fresh. destruct o as [e'|]; [|done]. by destruct (_ <? _). Qed.

(** An answer is remembered. *)
Lemma run_remember c a (store : Z -> nat -> GateWorld -> GateWorld) (Q : res bool -> GateWorld -> Prop) w0 w :
  (forall now t w, told w c decode_allowed a -> grows w (store now t w)) -> grows w0 w -> told w c decode_allowed a ->
  (forall w' r, grows w0 w' -> (forall b, r = Ok b -> told w' c decode_allowed b) -> Q r w') ->
  run (let* now := asking gtime in atomic (fun w => (store now (g_tick w) w, Ok a))) Q w.
Proof using.
  intros Hstore H0 Ht HQ. apply run_bind, (run_tick (fun w => gtime (g_tick w))). intros w1 w2 H1 H2. apply rg_atomic. intros w3 H3.
  assert (G3 : grows w w3) by (etransitivity; [exact H1|]; by etransitivity).
  assert (Ht3 : told w3 c decode_allowed a) by (eapply told_mono; [apply G3|done]). pose proof (Hstore (gtime (g_tick w1)) (g_tick w3) w3 Ht3) as Hg.
  split; [exact Hg|]. intros w4 H4. apply HQ; [|intros b [= <-]; eapply told_mono; [apply H4|]; eapply told_mono; [apply Hg|exact Ht3]].
  etransitivity; [exact H0|]. etransitivity; [exact G3|]. by etransitivity.
Qed.
Lemma run_check_ds u d l (Q : res bool -> GateWorld -> Prop) w : sound w -> plain u -> plain l ->
  (forall w' r, grows w w' -> (forall a, r = Ok a -> told w' (ds_call u d l) decode_allowed a) -> Q r w') -> run (CheckDatasourceAccess u d l) Q w.
Proof using Hrange.
  intros Hw Hu Hl HQ. unfold CheckDatasourceAccess. apply run_bind, run_tick. intros w1 w2 H1 H2.
  destruct (fresh _ _ _) as [e|] eqn:Ef.
  - apply run_ret. intros w3 H3. apply HQ; [etransitivity; [exact H1|]; by etransitivity|]. intros a [= <-].
    apply fresh_lookup in Ef. destruct (sound_ds _ (proj1 (proj2 H1) Hw) _ _ Ef) as (u' & d' & l' & Hk & Hu' & Hl' & Ht).
    apply dsKey_inj in Hk as (-> & -> & ->); [|done..]. eapply told_mono, told_mono; [apply H3|apply H2|exact Ht].
  - apply run_try. unfold postBool. apply run_call_decode. intros w3 r H3 Hr.
    assert (Hw3 : grows w w3) by (etransitivity; [exact H1|]; by etransitivity).
    destruct r as [a|e]; [|intros w4 H4; apply HQ; [by etransitivity|done]].
    apply (run_remember (ds_call u d l) a (fun now t w => set_ds (evictExpired at_ now t (<[dsKey u d l := mkEntry a now]> (dsCache w))) w) Q w); [|done|by apply Hr|exact HQ].
    intros now t w0 Ht. by apply store_ds_grows.
Qed.
Lemma run_check_perm u p st sid (Q : res bool -> GateWorld -> Prop) w : sound w -> plain u -> plain st -> plain sid ->
  (forall w' r, grows w w' -> (forall a, r = Ok a -> told w' (perm_call u p st sid) decode_allowed a) -> Q r w') -> run (CheckPermission u p st sid) Q w.
Proof using Hrange.
  intros Hw Hu Hp Hst HQ. unfold CheckPermission. apply run_bind, run_tick. intros w1 w2 H1 H2.
  destruct (fresh _ _ _) as [e|] eqn:Ef.
  - apply run_ret. intros w3 H3. apply HQ; [etransitivity; [exact H1|]; by etransitivity|]. intros a [= <-].
    apply fresh_lookup in Ef. destruct (sound_perm _ (proj1 (proj2 H1) Hw) _ _ Ef) as (u' & p' & st' & sid' & Hk & Hu' & Hp' & Hst' & Ht).
    apply permKey_inj in Hk as (-> & -> & -> & ->); [|done..]. eapply told_mono, told_mono; [apply H3|apply H2|exact Ht].
  - apply run_try. unfold postBool. apply run_call_decode. intros w3 r H3 Hr.
    assert (Hw3 : grows w w3) by (etransitivity; [exact H1|]; by etransitivity).
    destruct r as [a|e]; [|intros w4 H4; apply HQ; [by etransitivity|done]].
    apply (run_remember (perm_call u p st sid) a (fun now t w => set_perm (evictExpired at_ now t (<[permKey u p st sid := mkEntry a now]> (permCache w))) w) Q w); [|done|by apply Hr|exact HQ].
    intros now t w0 Ht. by apply store_perm_grows.
Qed.
(** The list of a workspace's data sources: what is answered is what the service said. *)
Lemma run_list_workspace ws (Q : res (list string) -> GateWorld -> Prop) w : workspaces_told w -> ws <> "" ->
  (forall w' r, grows w w' -> (forall l, r = Ok l -> told w' (ws_call ws) decode_ids l) -> Q r w') -> run (ListWorkspaceDatasources ws) Q w.
Proof using Hrange.
  intros Hw Hne HQ. unfold ListWorkspaceDatasources. rewrite (proj2 (str_empty_false ws) Hne). apply run_bind, run_tick. intros w1 w2 H1 H2.
  destruct (fresh _ _ _) as [e|] eqn:Ef.
  - apply run_ret. intros w3 H3. apply HQ; [etransitivity; [exact H1|]; by etransitivity|]. intros l [= <-].
    apply fresh_lookup in Ef. pose proof (proj2 (proj2 H1) Hw _ _ Ef) as Ht. eapply told_mono, told_mono; [apply H3|apply H2|exact Ht].
  - apply run_try. unfold fetchDatasourceIDs. apply run_call_decode. intros w3 r H3 Hr.
    assert (Hw3 : grows w w3) by (etransitivity; [exact H1|]; by etransitivity).
    destruct r as [l|e]; [|intros w4 H4; apply HQ; [by etransitivity|done]]. specialize (Hr l eq_refl).
    apply run_bind, run_tick. intros w4 w5 H4 H5. apply rg_atomic. intros w6 H6.
    assert (G6 : grows w3 w6) by (etransitivity; [exact H4|]; by etransitivity).
    assert (Ht : told w6 (ws_call ws) decode_ids l) by (eapply told_mono; [apply G6|done]).
    assert (Hg : grows w6 (set_wsds (evictExpired ws_at (gtime (g_tick w4)) (g_tick w6)
      (<[ws := mkWsEntry l (gtime (g_tick w4))]> (wsDSCache w6))) w6)).
    { apply set_wsds_grows; [by apply evict_size|]. intros Hw6 ws' e He. eapply lookup_weaken in He; [|apply evict_sub].
      apply lookup_insert_Some in He as [[<- <-]|[_ He]]; [done|by apply Hw6]. }
    split; [exact Hg|]. intros w7 H7. apply HQ.
    + etransitivity; [exact Hw3|]. etransitivity; [exact G6|]. by etransitivity.
    + intros l' [= <-]. eapply told_mono, told_mono; [apply H7|apply Hg|exact Ht].
Qed.
Lemma run_invalidate ws (Q : unit -> GateWorld -> Prop) w : (forall w', grows w w' -> Q tt w') -> run (InvalidateWorkspaceDatasourceCache ws) Q w.
Proof using.
  intros HQ. apply rg_atomic. intros w1 H1. assert (Hg : grows w1 (set_wsds (delete ws (wsDSCache w1)) w1)).
  { split; [intros x; exact id|]. split.
    - intros [Hp Hd Hk Hc (Hs1 & Hs2 & Hs3)]. split; try done. split_and!; [done|done|]. cbn. etransitivity; [|exact Hs3].
      rewrite map_size_delete. destruct (wsDSCache w1 !! ws); [apply Nat.le_pred_l|done].
    - intros Hw ws' e He. cbn in He. apply lookup_delete_Some in He as [_ He]. by apply (Hw ws' e). }
  split; [exact Hg|]. intros w2 H2. apply HQ. etransitivity; [exact H1|]. by etransitivity.
Qed.
Lemma run_pat tok (Q : res PATIdentity -> GateWorld -> Prop) w :
  (forall w' r, grows w w' -> (forall id, r = Ok id -> told w' (pat_call tok) decode_identity id) -> Q r w') -> run (VerifyPersonalAccessToken tok) Q w.
Proof using.
  intros HQ. unfold VerifyPersonalAccessToken. apply run_try, run_call. intros w1 [resp|e] H1 Hc; [|intros w2 H2; apply HQ; [by etransitivity|done]].
  destruct (_ =? _); [apply run_ret; intros w2 H2; apply HQ; [by etransitivity|done]|].
  destruct (Z.eqb_spec (StatusCode resp) StatusOK) as [Hs|_]; cbn [negb]; apply run_ret; intros w2 H2; (apply HQ; [by etransitivity|]); [|done].
  intros a Ha. exists resp. split; [by apply H2|done].
Qed.
Lemma current_published now w cfg : sound w -> current_key now w = Some cfg -> published_key w cfg.
Proof using.
  intros Hw Hc. apply (sound_key _ Hw). unfold current_key in Hc. destruct (publicKey w) as [cfg'|]; [|done]. by destruct (_ <? _).
Qed.
Lemma fetch_published w cfg : sound w -> (fetch_key w).2 = Ok cfg -> published_key (fetch_key w).1 cfg.
Proof using.
  intros Hw. pose proof (proj1 (proj2 (fetch_key_grows w)) Hw) as Hs. revert Hs. unfold fetch_key. destruct (current_key _ w) as [cfg'|] eqn:Ec.
  - intros _ [= <-]. eapply published_mono; [|by eapply current_published]. apply tick_grows.
  - destruct (called _ w) as [w1 resp]. destruct (let? resp := _ in _) as [cfg'|e]; [|done]. intros Hs [= <-]. by apply (sound_key _ Hs).
Qed.
Lemma run_config (Q : res jwtConfig -> GateWorld -> Prop) w : sound w ->
  (forall w' r, grows w w' -> (forall cfg, r = Ok cfg -> published_key w' cfg) -> Q r w') -> run getConfig Q w.
Proof using.
  intros Hw HQ. unfold getConfig. apply run_bind, run_tick. intros w1 w2 H1 H2. destruct (current_key _ w1) as [cfg|] eqn:Ec.
  - apply run_ret. intros w3 H3. apply HQ; [etransitivity; [exact H1|]; by etransitivity|]. intros cfg' [= <-].
    eapply published_mono; [|by eapply current_published; [apply H1|]]. intros x Hx. by apply H3, H2.
  - apply rg_atomic. intros w3 H3. split; [apply fetch_key_grows|]. intros w4 H4.
    assert (Hg : grows w w3) by (etransitivity; [exact H1|]; by etransitivity).
    apply HQ; [etransitivity; [exact Hg|]; etransitivity; [apply fetch_key_grows|exact H4]|]. intros cfg Hcfg.
    eapply published_mono; [apply H4|]. apply fetch_published; [by apply Hg|done].
Qed.

(** * What a gate lets through *)

(** The identity of a token that the library found to be valid under a key the service published. *)
Definition signed (w : GateWorld) (tok : string) (c : Ctx) : Prop :=
  exists cfg t claims, published_key w cfg /\ ParseWithClaims t (parser_options cfg) tok (key_for cfg) = Ok (claims, true) /\
    c = applyJWTClaims no_identity claims.
Definition is_admin (c : Ctx) : Prop := RoleSuperAdmin ∈ UserRoles c.
(** The datasource a request names, and the request with what is left of its body. *)
Inductive extracts (r : HTTPRequest) : string -> HTTPRequest -> Prop :=
| by_name id rest : List.filter (fun id => negb (str_empty id)) [URLParam r "datasourceID"; URLParam r "id"; Query r "datasource_id"] = id :: rest ->
    extracts r id r
| by_body b top nested : URLParam r "datasourceID" = "" -> URLParam r "id" = "" -> Query r "datasource_id" = "" ->
    Body r = Some b -> probe (limit_bytes maxDatasourceProbeBodyBytes b) = Ok (top, nested) ->
    extracts r (if str_empty top then nested else top) (with_body (Some (limit_bytes maxDatasourceProbeBodyBytes b)) r).
Definition admitted (w : GateWorld) (g : gate_spec) (r : HTTPRequest) (c : Ctx) (r' : HTTPRequest) (c' : Ctx) : Prop :=
  match g with
  | GJWTAuth bypass => r' = r /\ (Path r ∈ bypass /\ c' = c \/ extractBearer r <> "" /\ signed w (extractBearer r) c')
  | GJWTAuthWithAdminBypass keys client bypass =>
      r' = r /\
      (Path r ∈ bypass /\ c' = c \/
       extractAPIKey r <> "" /\ extractAPIKey r ∈ map TrimSpace keys /\ c' = apply_admin_key c \/
       client = true /\ HasPrefix (extractBearer r) personalAccessTokenPrefix = true /\
         (exists id, told w (pat_call (extractBearer r)) decode_identity id /\ c' = applyPATIdentity c id) \/
       extractBearer r <> "" /\ signed w (extractBearer r) c')
  | GOptionalJWTAuth => r' = r /\ (c' = c \/ extractBearer r <> "" /\ signed w (extractBearer r) c')
  | GAPIKeyAuth k bypass =>
      r' = r /\ c' = c /\ (TrimSpace k = "" \/ (exists p, p ∈ bypass /\ p <> "" /\ HasPrefix (Path r) p = true) \/ extractAPIKey r = TrimSpace k)
  | GRequireVerifiedEmail => r' = r /\ c' = c /\ (Method r ∈ ["GET"; "HEAD"; "OPTIONS"] \/ EmailVerified c = true)
  | GRequirePermission client p =>
      r' = r /\ c' = c /\ (client = true -> is_admin c \/ UserID c <> "" /\ told w (perm_call (UserID c) p "workspace" (WorkspaceID c)) decode_allowed true)
  | GRequireDatasourceAccess client l =>
      c' = c /\ (client = false /\ r' = r \/ is_admin c /\ r' = r \/
        UserID c <> "" /\ exists d, d <> "" /\ extracts r d r' /\ told w (ds_call (UserID c) d l) decode_allowed true)
  | GRequireResolvedDatasourceAccess client l resolve =>
      r' = r /\ c' = c /\ (client = true -> is_admin c \/
        UserID c <> "" /\ URLParam r "id" <> "" /\ exists t d, resolve t (URLParam r "id") = Ok d /\ told w (ds_call (UserID c) d l) decode_allowed true)
  | GInternalToken token => r' = r /\ c' = c /\ TrimSpace token <> "" /\ internalTokenFromRequest r = TrimSpace token
  end.
(** One gate after the other. *)
Fixpoint passes (w : GateWorld) (l : list gate_spec) (r : HTTPRequest) (c : Ctx) (r' : HTTPRequest) (c' : Ctx) : Prop :=
  match l with
  | [] => r' = r /\ c' = c
  | g :: l => exists r1 c1, admitted w g r c r1 c1 /\ passes w l r1 c1 r' c'
  end.

Lemma signed_mono w w' tok c : heard w w' -> signed w tok c -> signed w' tok c.
Proof using. intros Hh (cfg & t & claims & Hp & Hs). exists cfg, t, claims. split; [by eapply published_mono|done]. Qed.
Lemma admitted_mono w w' g r c r' c' : heard w w' -> admitted w g r c r' c' -> admitted w' g r c r' c'.
Proof using.
  intros Hh. destruct g; cbn; try done.
  - intros [? [?|[? ?]]]; (split; [done|]); [by left|right; split; [done|by eapply signed_mono]].
  - intros [? [?|[?|[(? & ? & id & ? & ?)|[? ?]]]]]; (split; [done|]); [by left|by right; left|right; right; left|right; right; right].
    + split; [done|]. split; [done|]. exists id. split; [by eapply told_mono|done].
    + split; [done|by eapply signed_mono].
  - intros [? [?|[? ?]]]; (split; [done|]); [by left|right; split; [done|by eapply signed_mono]].
  - intros (? & ? & Hc). split; [done|]. split; [done|]. intros Hcl. destruct (Hc Hcl) as [?|[? ?]]; [by left|right; split; [done|by eapply told_mono]].
  - intros (? & [?|[?|(? & d & ? & ? & ?)]]); (split; [done|]); [by left|by right; left|right; right]. split; [done|]. exists d.
    split; [done|]. split; [done|]. by eapply told_mono.
  - intros (? & ? & Hc). split; [done|]. split; [done|]. intros Hcl. destruct (Hc Hcl) as [?|(? & ? & t & d & ? & ?)]; [by left|right].
    split; [done|]. split; [done|]. exists t, d. split; [done|by eapply told_mono].
Qed.

(** The ids of users and of workspaces are keys, without a colon. *)
Definition plain_ctx (c : Ctx) : Prop := plain (UserID c) /\ plain (WorkspaceID c).
Definition plain_spec (g : gate_spec) : Prop :=
  match g with
  | GRequireDatasourceAccess _ l | GRequireResolvedDatasourceAccess _ l _ => plain l
  | _ => True
  end.
Context (Hjwt : forall t opts tok kf claims, ParseWithClaims t opts tok kf = Ok (claims, true) -> plain (cl_Subject claims) /\ plain (cl_WorkspaceID claims)).
Context (Hpat : forall s id, decode_identity s = Ok id -> plain (pat_UserID id) /\ plain (pat_WorkspaceID id)).

(** A gate passes on only what it admits. *)
Definition lets (m : prog GateWorld Verdict) (P : GateWorld -> HTTPRequest -> Ctx -> Prop) (w : GateWorld) : Prop :=
  forall Q : Verdict -> GateWorld -> Prop,
    (forall w' v, grows w w' -> (forall r' c', v = Next r' c' -> plain_ctx c' /\ P w' r' c') -> Q v w') -> run m Q w.

Lemma lets_deny status msg P w : lets (Ret (Deny status msg)) P w.
Proof using. intros Q HQ. apply run_ret. intros w' Hw. by apply HQ. Qed.
Lemma lets_pass r c (P : GateWorld -> HTTPRequest -> Ctx -> Prop) w : plain_ctx c -> (forall w', heard w w' -> P w' r c) -> lets (pass r c) P w.
Proof using. intros Hc HP Q HQ. apply run_ret. intros w' Hw. apply HQ; [done|]. intros r' c' [= <- <-]. split; [done|by apply HP, Hw]. Qed.
(** What comes first, and the rest. *)
Lemma lets_after {A} (m : prog GateWorld A) k P w (Post : A -> GateWorld -> Prop) :
  (forall Q : A -> GateWorld -> Prop, (forall w' a, grows w w' -> Post a w' -> Q a w') -> run m Q w) ->
  (forall w' a, grows w w' -> Post a w' -> lets (k a) P w') -> lets (prog_bind m k) P w.
Proof using.
  intros Hm Hk Q HQ. apply run_bind, Hm. intros w' a Hw Ha. apply (Hk w' a Hw Ha). intros w'' v Hw' Hv. apply HQ; [by etransitivity|done].
Qed.
Lemma lets_by_jwt tok r c w : sound w -> plain_ctx c -> lets (by_jwt tok r c) (fun w' r' c' => r' = r /\ signed w' tok c') w.
Proof using Hjwt.
  intros Hw Hc. unfold by_jwt. apply (lets_after _ _ _ _ (fun a w' => forall cfg, a = Ok cfg -> published_key w' cfg)).
  { intros Q HQ. apply run_config; [done|]. intros w' a Hg Ha. by apply HQ. }
  intros w1 [cfg|e] H1 Hcfg; [|apply lets_deny]. specialize (Hcfg cfg eq_refl).
  apply (lets_after _ _ _ _ (fun a _ => forall claims, a = Ok claims -> exists t, ParseWithClaims t (parser_options cfg) tok (key_for cfg) = Ok (claims, true))).
  { intros Q HQ. unfold verifyJWTClaims. apply run_try. apply (run_tick (fun w => ParseWithClaims (g_tick w) _ _ _)). intros w2 w3 H2 H3.
    assert (Hg : grows w1 w3) by (by etransitivity).
    destruct (ParseWithClaims _ _ _ _) as [[claims valid]|e] eqn:Ep; [|intros w4 H4; apply HQ; [by etransitivity|done]].
    cbn [fst snd]. destruct valid; cbn [negb]; apply run_ret; intros w4 H4; (apply HQ; [by etransitivity|]); [|done]. intros cl [= <-]. by eexists. }
  intros w2 [claims|e] H2 Hcl; [|apply lets_deny]. destruct (Hcl claims eq_refl) as [t Ht].
  apply lets_pass; [by eapply Hjwt|]. intros w3 H3. split; [done|]. exists cfg, t, claims. split; [|done].
  eapply published_mono; [exact H3|]. eapply published_mono; [apply H2|done].
Qed.

(** The two checks, as they end a gate. *)
Lemma lets_datasource d l r c P w : sound w -> plain_ctx c -> plain l ->
  (forall w', told w' (ds_call (UserID c) d l) decode_allowed true -> P w' r c) -> lets (datasource_gate d l r c) P w.
Proof using Hrange.
  intros Hw Hc Hl HP. unfold datasource_gate.
  apply (lets_after _ _ _ _ (fun a w' => forall b, a = Ok b -> told w' (ds_call (UserID c) d l) decode_allowed b)).
  { intros Q HQ. apply run_check_ds; [done|apply Hc|done|]. intros w' a Hg Ha. by apply HQ. }
  intros w1 [[]|e] H1 Ha; [|apply lets_deny|apply lets_deny]. apply lets_pass; [done|]. intros w2 H2. apply HP.
  eapply told_mono; [exact H2|by apply Ha].
Qed.
Lemma super_admin c : HasRole c RoleSuperAdmin = true -> is_admin c.
Proof using. apply str_in_spec. Qed.

Lemma lets_verified_email r c w : plain_ctx c -> lets (RequireVerifiedEmail r c) (fun w' => admitted w' GRequireVerifiedEmail r c) w.
Proof using.
  intros Hc. unfold RequireVerifiedEmail. destruct (str_in _ _) eqn:Em.
  - apply lets_pass; [done|]. intros w' _. split; [done|]. split; [done|]. left. by apply str_in_spec.
  - destruct (EmailVerified c) eqn:Ee; cbn [negb]; [|apply lets_deny]. apply lets_pass; [done|]. intros w' _. split; [done|]. split; [done|]. by right.
Qed.
Lemma lets_api_key k bypass r c w : plain_ctx c -> lets (APIKeyAuth k bypass r c) (fun w' => admitted w' (GAPIKeyAuth k bypass) r c) w.
Proof using.
  intros Hc. unfold APIKeyAuth. cbv zeta. destruct (str_empty (TrimSpace k)) eqn:Ek.
  - apply lets_pass; [done|]. intros w' _. split; [done|]. split; [done|]. left. by apply str_empty_spec.
  - destruct (existsb _ bypass) eqn:Eb.
    + apply lets_pass; [done|]. intros w' _. split; [done|]. split; [done|]. right. left. apply existsb_exists in Eb as (p & Hp & Hpp).
      apply andb_true_iff in Hpp as [Hne Hpre]. exists p. split; [by apply list_elem_of_In|]. split; [by apply str_empty_false, negb_true_iff|done].
    + destruct (str_empty (extractAPIKey r)) eqn:Ep; [apply lets_deny|]. destruct (String.eqb_spec (extractAPIKey r) (TrimSpace k)) as [He|]; cbn [negb orb]; [|apply lets_deny].
      apply lets_pass; [done|]. intros w' _. split; [done|]. split; [done|]. by right; right.
Qed.
Lemma lets_internal token r c w : plain_ctx c -> lets (InternalTokenMiddleware token r c) (fun w' => admitted w' (GInternalToken token) r c) w.
Proof using.
  intros Hc. unfold InternalTokenMiddleware. cbv zeta. destruct (str_empty (TrimSpace token)) eqn:Et; [apply lets_deny|].
  destruct (str_empty (internalTokenFromRequest r)) eqn:Eg; [apply lets_deny|].
  destruct (String.eqb_spec (internalTokenFromRequest r) (TrimSpace token)) as [He|]; cbn [negb orb]; [|apply lets_deny].
  apply lets_pass; [done|]. intros w' _. split; [done|]. split; [done|]. split; [by apply str_empty_false|done].
Qed.
Lemma lets_permission client p r c w : sound w -> plain_ctx c ->
  lets (RequirePermission client p r c) (fun w' => admitted w' (GRequirePermission client p) r c) w.
Proof using Hrange.
  intros Hw Hc. unfold RequirePermission. destruct client; cbn [negb].
  2: { apply lets_pass; [done|]. intros w' _. split; [done|]. by split. }
  destruct (HasRole c RoleSuperAdmin) eqn:Er.
  { apply lets_pass; [done|]. intros w' _. split; [done|]. split; [done|]. intros _. left. by apply super_admin. }
  destruct (str_empty (UserID c)) eqn:Eu; [apply lets_deny|].
  apply (lets_after _ _ _ _ (fun a w' => forall b, a = Ok b -> told w' (perm_call (UserID c) p "workspace" (WorkspaceID c)) decode_allowed b)).
  { intros Q HQ. apply run_check_perm; [done|apply Hc|done|apply Hc|]. intros w' a Hg Ha. by apply HQ. }
  intros w1 [[]|e] H1 Ha; [|apply lets_deny|apply lets_deny]. apply lets_pass; [done|]. intros w2 H2. split; [done|]. split; [done|]. intros _. right.
  split; [by apply str_empty_false|]. eapply told_mono; [exact H2|by apply Ha].
Qed.
Lemma lets_resolved client l resolve r c w : sound w -> plain_ctx c -> plain l ->
  lets (RequireResolvedDatasourceAccess client l resolve r c) (fun w' => admitted w' (GRequireResolvedDatasourceAccess client l resolve) r c) w.
Proof using Hrange.
  intros Hw Hc Hl. unfold RequireResolvedDatasourceAccess. destruct client; cbn [negb].
  2: { apply lets_pass; [done|]. intros w' _. split; [done|]. by split. }
  destruct (HasRole c RoleSuperAdmin) eqn:Er.
  { apply lets_pass; [done|]. intros w' _. split; [done|]. split; [done|]. intros _. left. by apply super_admin. }
  destruct (str_empty (UserID c)) eqn:Eu; [apply lets_deny|]. cbv zeta. destruct (str_empty (URLParam r "id")) eqn:Ei; [apply lets_deny|].
  apply (lets_after _ _ _ _ (fun a w' => exists t, a = resolve t (URLParam r "id"))).
  { intros Q HQ. apply (run_tick (fun w => resolve (g_tick w) _)). intros w1 w2 H1 H2. apply HQ; [by etransitivity|by eexists]. }
  intros w1 [d|e] H1 [t Ht]; [|apply lets_deny]. apply lets_datasource; [by apply H1|done|done|]. intros w2 H2. split; [done|]. split; [done|]. intros _. right.
  split; [by apply str_empty_false|]. split; [by apply str_empty_false|]. by exists t, d.
Qed.
Lemma run_extract r (Q : string * HTTPRequest -> GateWorld -> Prop) w :
  (forall w' x, grows w w' -> (x.1 <> "" -> extracts r x.1 x.2) -> Q x w') -> run (extractDatasourceID r) Q w.
Proof using.
  intros HQ. unfold extractDatasourceID. cbv zeta. destruct (List.filter _ _) as [|id rest] eqn:Ef.
  2: { apply run_ret. intros w' Hw. apply HQ; [done|]. intros _. by econstructor. }
  assert (He : URLParam r "datasourceID" = "" /\ URLParam r "id" = "" /\ Query r "datasource_id" = "").
  { cbn [List.filter] in Ef. rewrite <- !str_empty_spec. destruct (str_empty (URLParam r "datasourceID")), (str_empty (URLParam r "id")), (str_empty (Query r "datasource_id")); done. }
  destruct He as (H1 & H2 & H3). unfold extractDatasourceIDFromBody. destruct (Body r) as [b|] eqn:Eb; [|apply run_ret; intros w' Hw; by apply HQ].
  destruct (negb _); [apply run_ret; intros w' Hw; by apply HQ|]. destruct (negb _); [apply run_ret; intros w' Hw; by apply HQ|].
  apply run_bind, (run_tick (fun w => read_fault (g_tick w))). intros w1 w2 G1 G2. destruct (read_fault _) as [e|].
  - apply run_ret. intros w' Hw. apply HQ; [etransitivity; [exact G1|]; by etransitivity|done].
  - cbv zeta. apply run_ret. intros w' Hw. apply HQ; [etransitivity; [exact G1|]; by etransitivity|]. cbn [fst snd]. intros Hne.
    destruct (probe _) as [[top nested]|e] eqn:Ep; [|done]. by econstructor.
Qed.
Lemma lets_datasource_access client l r c w : sound w -> plain_ctx c -> plain l ->
  lets (RequireDatasourceAccess client l r c) (fun w' => admitted w' (GRequireDatasourceAccess client l) r c) w.
Proof using Hrange.
  intros Hw Hc Hl. unfold RequireDatasourceAccess. destruct client; cbn [negb].
  2: { apply lets_pass; [done|]. intros w' _. split; [done|]. by left. }
  destruct (HasRole c RoleSuperAdmin) eqn:Er.
  { apply lets_pass; [done|]. intros w' _. split; [done|]. right. left. split; [by apply super_admin|done]. }
  destruct (str_empty (UserID c)) eqn:Eu; [apply lets_deny|].
  apply (lets_after _ _ _ _ (fun x _ => x.1 <> "" -> extracts r x.1 x.2)); [intros Q; apply run_extract|].
  intros w1 [d r1] H1 Hx. cbn [fst snd] in Hx. destruct (str_empty d) eqn:Ed; [apply lets_deny|]. apply str_empty_false in Ed. specialize (Hx Ed).
  apply lets_datasource; [by apply H1|done|done|]. intros w2 H2. split; [done|]. right. right. split; [by apply str_empty_false|]. by exists d.
Qed.
Lemma lets_jwt bypass r c w : sound w -> plain_ctx c -> lets (JWTAuth bypass r c) (fun w' => admitted w' (GJWTAuth bypass) r c) w.
Proof using Hjwt.
  intros Hw Hc. unfold JWTAuth. destruct (pathMatchesBypass _ _) eqn:Eb.
  { apply lets_pass; [done|]. intros w' _. split; [done|]. left. split; [by apply str_in_spec|done]. }
  cbv zeta. destruct (str_empty (extractBearer r)) eqn:Et; [apply lets_deny|]. intros Q HQ. apply lets_by_jwt; [done..|].
  intros w' v Hg Hv. apply HQ; [done|]. intros r' c' Hn. destruct (Hv r' c' Hn) as (Hp & -> & Hs). split; [done|]. split; [done|]. right.
  split; [by apply str_empty_false|done].
Qed.
Lemma lets_optional r c w : sound w -> plain_ctx c -> lets (OptionalJWTAuth r c) (fun w' => admitted w' GOptionalJWTAuth r c) w.
Proof using Hjwt.
  intros Hw Hc. unfold OptionalJWTAuth. cbv zeta. assert (Hpass : forall w, lets (pass r c) (fun w' => admitted w' GOptionalJWTAuth r c) w).
  { intros w0. apply lets_pass; [done|]. intros w' _. split; [done|by left]. }
  destruct (str_empty (extractBearer r)) eqn:Et; [apply Hpass|].
  apply (lets_after _ _ _ _ (fun v w' => forall r' c', v = Next r' c' -> plain_ctx c' /\ r' = r /\ signed w' (extractBearer r) c')).
  { intros Q HQ. apply lets_by_jwt; [done..|]. exact HQ. }
  intros w1 [r' c'|status msg] H1 Hv; [|apply Hpass]. destruct (Hv r' c' eq_refl) as (Hp & -> & Hs). apply lets_pass; [done|]. intros w2 H2. split; [done|].
  right. split; [by apply str_empty_false|by eapply signed_mono].
Qed.
Lemma lets_admin_bypass keys client bypass r c w : sound w -> plain_ctx c ->
  lets (JWTAuthWithAdminBypass keys client bypass r c) (fun w' => admitted w' (GJWTAuthWithAdminBypass keys client bypass) r c) w.
Proof using Hjwt Hpat.
  intros Hw Hc. unfold JWTAuthWithAdminBypass. cbv zeta. destruct (pathMatchesBypass _ _) eqn:Eb.
  { apply lets_pass; [done|]. intros w' _. split; [done|]. left. split; [by apply str_in_spec|done]. }
  destruct (matchesAnyKey _ _) eqn:Ek.
  { apply lets_pass; [split; [done|apply Hc]|]. intros w' _. split; [done|]. right. left. unfold matchesAnyKey in Ek. destruct (str_empty (extractAPIKey r)) eqn:Ee; [done|].
    apply str_in_spec, list_elem_of_In, List.filter_In in Ek as [Hin _]. split; [by apply str_empty_false|]. split; [by apply list_elem_of_In|done]. }
  destruct (str_empty (extractBearer r)) eqn:Et; [apply lets_deny|]. destruct (HasPrefix _ _) eqn:Ep.
  - destruct client; cbn [negb]; [|apply lets_deny].
    apply (lets_after _ _ _ _ (fun a w' => forall id, a = Ok id -> told w' (pat_call (extractBearer r)) decode_identity id)).
    { intros Q HQ. apply run_pat. intros w' a Hg Ha. by apply HQ. }
    intros w1 [id|e] H1 Ha; [|apply lets_deny]. specialize (Ha id eq_refl). apply (lets_pass r (applyPATIdentity c id)).
    { destruct Ha as (resp & _ & _ & Hd). by eapply Hpat. }
    intros w2 H2. split; [done|]. right. right. left. split; [done|]. split; [done|]. exists id. split; [by eapply told_mono|done].
  - intros Q HQ. apply lets_by_jwt; [done..|]. intros w' v Hg Hv. apply HQ; [done|]. intros r' c' Hn. destruct (Hv r' c' Hn) as (Hp & -> & Hs).
    split; [done|]. split; [done|]. right. right. right. split; [by apply str_empty_false|done].
Qed.

Lemma gate_lets g r c w : sound w -> plain_ctx c -> plain_spec g -> lets (gate_of g r c) (fun w' => admitted w' g r c) w.
Proof using Hrange Hjwt Hpat.
  intros Hw Hc Hg. destruct g; cbn [gate_of plain_spec] in *.
  - by apply lets_jwt.
  - by apply lets_admin_bypass.
  - by apply lets_optional.
  - by apply lets_api_key.
  - by apply lets_verified_email.
  - by apply lets_permission.
  - by apply lets_datasource_access.
  - by apply lets_resolved.
  - by apply lets_internal.
Qed.
Lemma gates_let l r c w : sound w -> plain_ctx c -> Forall plain_spec l -> lets (gates l r c) (fun w' => passes w' l r c) w.
Proof using Hrange Hjwt Hpat.
  intros Hw Hc Hl. revert r c w Hw Hc. induction Hl as [|g l Hg Hl IH]; intros r c w Hw Hc; cbn [gates foldr passes].
  - by apply lets_pass.
  - unfold chain at 1. apply (lets_after _ _ _ _ (fun v w' => forall r1 c1, v = Next r1 c1 -> plain_ctx c1 /\ admitted w' g r c r1 c1)).
    { intros Q HQ. apply gate_lets; [done..|]. exact HQ. }
    intros w1 [r1 c1|status msg] H1 Hv; [|apply lets_deny]. destruct (Hv r1 c1 eq_refl) as [Hp Ha]. intros Q HQ.
    apply (IH r1 c1 w1); [by apply H1|done|]. intros w2 v H2 Hv2. apply HQ; [done|]. intros r' c' Hn. destruct (Hv2 r' c' Hn) as [Hp' Hps].
    split; [done|]. exists r1, c1. split; [|done]. eapply admitted_mono; [apply H2|done].
Qed.
End Safety.

(** * Requests side by side *)

(** A route of gates, and the request that comes to it. *)
Definition serve_all `{GateEnv} (l : list (list gate_spec * HTTPRequest)) : list (prog GateWorld Verdict) := map (fun x => enter x.1 x.2) l.

Section Together.
Context `{GateEnv} (Hrange : forall t l, range t l ≡ₚ l)
  (Hjwt : forall t opts tok kf claims, ParseWithClaims t opts tok kf = Ok (claims, true) -> plain (cl_Subject claims) /\ plain (cl_WorkspaceID claims))
  (Hpat : forall s id, decode_identity s = Ok id -> plain (pat_UserID id) /\ plain (pat_WorkspaceID id)).

Lemma enter_rg route r w : sound w -> Forall plain_spec route ->
  rg grows grows (enter route r) (fun v w' => sound w' /\ forall r' c', v = Next r' c' -> passes w' route r no_identity r' c') w.
Proof using Hrange Hjwt Hpat.
  intros Hw Hr. apply (gates_let Hrange Hjwt Hpat route r no_identity w); [done|done|done|]. intros w' v Hg Hv. split; [by apply Hg|].
  intros r' c' Hn. by apply Hv.
Qed.
Lemma pool_sound l w : sound w -> Forall (fun x => Forall plain_spec x.1) l ->
  pool_rg (fun _ => grows) (fun _ => grows) (fun i v w' => sound w' /\ forall route r r' c', l !! i = Some (route, r) -> v = Next r' c' -> passes w' route r no_identity r' c')
    (w, serve_all l).
Proof using Hrange Hjwt Hpat.
  intros Hw Hl i m Hm. cbn in Hm. unfold serve_all in Hm. rewrite list_lookup_fmap in Hm. destruct (l !! i) as [[route r]|] eqn:Ei; [|done].
  cbn in Hm. injection Hm as <-. rewrite Forall_forall in Hl. specialize (Hl _ (list_elem_of_lookup_2 _ _ _ Ei)). cbn in Hl.
  eapply rg_mono; [by apply enter_rg|]. intros v w' [Hs Hv]. split; [done|]. intros route' r0 r' c' [= <- <-]. apply Hv.
Qed.

(** However the gates of any number of requests interleave, whoever gets through those of its route was
    admitted by each: the identity is that of a token which is valid under a key the service published,
    of an access token the service knew, or of an API key; and the service has answered yes to exactly
    the question that the gate asks of this user. *)
Lemma admitted_after l w c i route r r' c' : sound w -> Forall (fun x => Forall plain_spec x.1) l -> interleaves (w, serve_all l) c ->
  l !! i = Some (route, r) -> c.2 !! i = Some (Ret (Next r' c')) -> sound c.1 /\ passes c.1 route r no_identity r' c'.
Proof using Hrange Hjwt Hpat.
  intros Hw Hl Hi Hr Hv. destruct c as [w1 pool]. assert (Hpre : nat -> PreOrder grows) by (intros; exact _).
  assert (HG : forall (i j : nat) w w', i <> j -> grows w w' -> grows w w') by done.
  pose proof (pool_results _ _ _ Hpre HG i _ w1 pool _ Hi (pool_sound l w Hw Hl) Hv) as [Hs Hq]. split; [done|]. by apply (Hq route r r' c').
Qed.
(** What is asked of the client: to let a request through its gates, to list the data
    sources of a workspace, or to forget the list. *)
Inductive errand : Type :=
| Enters (route : list gate_spec) (r : HTTPRequest)
| Lists (workspaceID : string)
| Forgets (workspaceID : string).
Inductive outcome : Type := Judged (v : Verdict) | Listed (l : res (list string)) | Forgotten.
Definition run_errand (e : errand) : prog GateWorld outcome :=
  match e with
  | Enters route r => let* v := enter route r in Ret (Judged v)
  | Lists ws => let* l := ListWorkspaceDatasources ws in Ret (Listed l)
  | Forgets ws => let* _ := InvalidateWorkspaceDatasourceCache ws in Ret Forgotten
  end.
Definition plain_errand (e : errand) : Prop := match e with Enters route _ => Forall plain_spec route | _ => True end.

(** What each cache answers to a question, by the key it looks under, the service has
    answered to that very question. *)
Record answers_told (w : GateWorld) : Prop := {
  told_permission u p st sid e : plain u -> plain st -> plain sid -> permCache w !! permKey u p st sid = Some e ->
    told w (perm_call u p st sid) decode_allowed (allowed e);
  told_access u d l e : plain u -> plain l -> dsCache w !! dsKey u d l = Some e -> told w (ds_call u d l) decode_allowed (allowed e);
  told_datasources ws e : wsDSCache w !! ws = Some e -> told w (ws_call ws) decode_ids (ids e);
}.
Lemma sound_answers w : sound w -> workspaces_told w -> answers_told w.
Proof using.
  intros Hs Hw. split; [..|done].
  - intros u p st sid e Hu Hst Hsid He. destruct (sound_perm _ Hs _ _ He) as (u' & p' & st' & sid' & Hk & ? & ? & ? & Ht).
    by apply permKey_inj in Hk as (-> & -> & -> & ->).
  - intros u d l e Hu Hl He. destruct (sound_ds _ Hs _ _ He) as (u' & d' & l' & Hk & ? & ? & Ht).
    by apply dsKey_inj in Hk as (-> & -> & ->).
Qed.

(** What an errand leaves behind, and what it is told. *)
Definition errand_done (e : errand) (o : outcome) (w : GateWorld) : Prop :=
  forall ws l, e = Lists ws -> ws <> "" -> o = Listed (Ok l) -> told w (ws_call ws) decode_ids l.
Lemma errand_rg e w : sound w -> workspaces_told w -> plain_errand e -> rg grows grows (run_errand e) (errand_done e) w.
Proof using Hrange Hjwt Hpat.
  intros Hs Hw Hp. destruct e as [route r|ws|ws]; cbn [run_errand].
  - apply rg_bind; [exact _|]. eapply rg_mono; [by apply enter_rg|]. intros v w' _ w'' _. by intros ws l [=].
  - apply rg_bind; [exact _|]. destruct (decide (ws = "")) as [->|Hne].
    { cbn. intros w1 _ w2 _. by intros ws l [= <-]. }
    apply run_list_workspace; [done..|]. intros w1 r _ Hr w2 H2. intros ws' l [= <-] _ [= ->]. eapply told_mono; [apply H2|by apply Hr].
  - apply rg_bind; [exact _|]. apply run_invalidate. intros w1 _ w2 _. by intros ws' l [=].
Qed.
Lemma errands_rg es w : sound w -> workspaces_told w -> Forall plain_errand es ->
  pool_rg (fun _ => grows) (fun _ => grows) (fun i o w' => forall e, es !! i = Some e -> errand_done e o w') (w, map run_errand es).
Proof using Hrange Hjwt Hpat.
  intros Hs Hw Hl i m Hm. cbn in Hm. rewrite list_lookup_fmap in Hm. destruct (es !! i) as [e|] eqn:Ei; [|done].
  cbn in Hm. injection Hm as <-. rewrite Forall_forall in Hl. specialize (Hl _ (list_elem_of_lookup_2 _ _ _ Ei)).
  eapply rg_mono; [by apply errand_rg|]. by intros o w' Ho e' [= <-].
Qed.

(** C29: the caches of the client, however the gates of requests, the lookups of the data
    sources of workspaces and the calls that forget them interleave.  Provided that the
    ids of users and of workspaces that tokens name, and the levels and types that are
    asked for, have no colon (data sources and permissions may), the caches never hold
    more entries than their limit; an entry found by the key of a question is what the
    service answered to exactly that question - this user, permission and scope, this
    user, data source and level, this workspace; and a list of a workspace's data sources
    is one the service has given for it. *)
Theorem caches_sound es w c : sound w -> workspaces_told w -> Forall plain_errand es -> interleaves (w, map run_errand es) c ->
  (size (permCache c.1) <= maxAuthClientCacheEntries /\ size (dsCache c.1) <= maxAuthClientCacheEntries /\
   size (wsDSCache c.1) <= maxAuthClientCacheEntries)%nat /\
  sound c.1 /\ answers_told c.1 /\
  forall i ws l, es !! i = Some (Lists ws) -> ws <> "" -> c.2 !! i = Some (Ret (Listed (Ok l))) -> told c.1 (ws_call ws) decode_ids l.
Proof using Hrange Hjwt Hpat.
  intros Hw Ht Hl Hi. pose proof (errands_rg es w Hw Ht Hl) as Hp.
  assert (Hpre : nat -> PreOrder grows) by (intros; exact _).
  assert (HG : forall (i j : nat) w w', i <> j -> grows w w' -> grows w w') by done.
  assert (Hg : sound c.1 /\ workspaces_told c.1).
  { clear Hl. revert Hp. remember (w, map run_errand es) as c0 eqn:E0. assert (sound c0.1 /\ workspaces_told c0.1) as H0 by by rewrite E0.
    clear E0. induction Hi as [c0|c1 c2 c3 Hs _ IH]; [done|]. intros Hp. apply pool_step_of in Hs as [j Hs].
    destruct (step_of_rg _ _ _ Hpre HG j _ _ Hs Hp) as [(_ & G1 & G2) Hp']. destruct H0 as [A B]. apply IH; [split; [by apply G1|by apply G2]|done]. }
  destruct Hg as [Hs Hts]. split; [apply (sound_sizes _ Hs)|]. split; [done|]. split; [by apply sound_answers|].
  intros i ws l Hei Hne Hr. destruct c as [w' pool]. cbn in Hr. exact (pool_results _ _ _ Hpre HG i _ w' pool _ Hi Hp Hr _ Hei ws l eq_refl Hne eq_refl).
Qed.
End Together.

(** * Examples *)

Module Demo.
(** Ann may run queries in her workspace and read ds1; a signed token is its subject, under whatever key; a document names ds2. *)
Definition allowed_calls : list Call := [perm_call "ann" "query:execute" "workspace" "w1"; ds_call "ann" "ds1" "read"].
#[global] Instance service : GateEnv := {|
  gtime t := Z.of_nat t;
  Do _ c :=
    if String.eqb (c_Path c) "/internal/auth/public-key" then Ok (mkAnswer 200 "pem")
    else if String.eqb (c_Path c) "/internal/auth/verify-token" then Ok (mkAnswer (if str_in "bqpat_1" (map snd (c_Body c)) then 200 else 503) "ann")
    else Ok (mkAnswer 200 (if bool_decide (c ∈ allowed_calls) then "true" else "false"));
  decode_allowed s := Ok (String.eqb s "true");
  decode_enabled s := Ok (String.eqb s "true");
  decode_ids s := Ok [s];
  decode_email s := Ok s;
  decode_ai_access _ := Ok (false, [], [], []);
  decode_ai_preferences _ := Ok [];
  decode_identity s := if has_byte ":" s then Err (EMsg "no identity") else Ok (mkPATIdentity s "" true [] "w1");
  decode_key s := Ok (s, "biqly", "");
  RSAKey := string;
  ParseRSAPublicKeyFromPEM s := Ok s;
  ParseWithClaims _ _ tok kf :=
    let? _ := kf true in
    if has_byte ":" tok then Err (EMsg "token is malformed") else Ok (mkClaims tok "" [] "w1" [] true, true);
  probe b := Ok (if has_byte "{" b then "ds2" else "", "");
  read_fault _ := None;
  range _ l := l;
|}.
Lemma range_ok : forall t l, range t l ≡ₚ l.
Proof. done. Qed.
Lemma jwt_ok : forall t opts tok kf claims, ParseWithClaims t opts tok kf = Ok (claims, true) -> plain (cl_Subject claims) /\ plain (cl_WorkspaceID claims).
Proof.
  intros t opts tok kf claims Hp. cbn in Hp. destruct (kf true); [|done]. cbn in Hp. destruct (has_byte ":" tok) eqn:Ec; [done|].
  by injection Hp as <-.
Qed.
Lemma pat_ok : forall s id, decode_identity s = Ok id -> plain (pat_UserID id) /\ plain (pat_WorkspaceID id).
Proof. intros s id Hd. cbn in Hd. destruct (has_byte ":" s) eqn:Ec; [done|]. by injection Hd as <-. Qed.

Definition asks (method bearer ds : string) (b : option string) : HTTPRequest :=
  mkHTTPRequest method "/api/v1/query"
    (fun h => if String.eqb h "Authorization" then "Bearer " +:+ bearer else if String.eqb h "Content-Type" then "application/json" else "")
    (fun _ => "") (fun q => if String.eqb q "datasource_id" then ds else "") b.
Definition route : list gate_spec := [GJWTAuthWithAdminBypass [""] true []; GRequireVerifiedEmail; GRequirePermission true "query:execute"; GRequireDatasourceAccess true "read"].
Definition empty_world : GateWorld := mkGateWorld ∅ ∅ ∅ None 0 [] 0.
Lemma empty_sound : sound empty_world.
Proof. split; [intros k e [=]|intros k e [=]|intros cfg [=]|intros c r []%not_elem_of_nil|]. cbn. rewrite !map_size_empty. split_and!; apply Nat.le_0_l. Qed.

(** Ann with a signed token, Bob with one, and Ann with an access token, at the same time. *)
Definition three : list (list gate_spec * HTTPRequest) :=
  [(route, asks "GET" "ann" "ds1" None); (route, asks "GET" "bob" "ds1" None); (route, asks "POST" "bqpat_1" "ds1" None)].
Definition served : GateWorld * list (prog GateWorld Verdict) :=
  follow ([0; 1; 0; 2; 1; 0; 2; 1; 0; 2; 0; 1; 2; 1; 2; 0; 1; 2] ++ replicate 12 0 ++ replicate 12 1 ++ replicate 12 2)%nat (empty_world, serve_all three).
Example outcomes : map (fun m => match m with Ret (Next _ c) => Some (inl (UserID c)) | Ret (Deny s _) => Some (inr s) | _ => None end) served.2
  = [Some (inl "ann"); Some (inr StatusForbidden); Some (inl "ann")].
Proof. vm_compute. reflexivity. Qed.

(** Ann's request, two lookups of the data sources of a workspace, and one that makes the
    client forget them. *)
Definition errands : list errand := [Enters route (asks "GET" "ann" "ds1" None); Lists "w1"; Forgets "w1"; Lists "w1"].
Definition remembered : GateWorld * list (prog GateWorld outcome) :=
  follow ([0; 1; 0; 1; 1; 1; 3; 2; 3] ++ replicate 20 0 ++ replicate 8 3)%nat (empty_world, map run_errand errands).
Example errands_done : map (fun m => match m with Ret (Listed (Ok l)) => length l | Ret _ => 0%nat | _ => 9%nat end) remembered.2 = [0%nat; 1%nat; 0%nat; 1%nat].
Proof. vm_compute. reflexivity. Qed.

(** The query of the address is asked first: a document that names another datasource is not looked at. *)
Example address_decides : (exec (enter route (asks "POST" "ann" "ds1" (Some "{ds2}"))) empty_world).2
  = Next (asks "POST" "ann" "ds1" (Some "{ds2}")) (mkCtx "ann" "" [] "w1" [] true).
Proof. vm_compute. reflexivity. Qed.
(** A service that cannot be asked about an access token is answered as if the token were wrong. *)
Example unavailable_is_unauthorized : (exec (enter route (asks "GET" "bqpat_2" "ds1" None)) empty_world).2 = Deny StatusUnauthorized "invalid token".
Proof. vm_compute. reflexivity. Qed.
End Demo.
Import Demo.

Lemma limit_bytes_length n s : 0 <= n -> Z.of_nat (String.length (limit_bytes n s)) <= n.
Proof.
  revert n. induction s as [|a s IH]; intros n Hn; cbn [limit_bytes String.length]; [lia|]. destruct (Z.leb_spec n 0); cbn [String.length]; [lia|].
  specialize (IH (n - 1) ltac:(lia)). lia.
Qed.
(** What a handler reads behind the gate of a datasource named in the body is never longer than what was probed. *)
Lemma extract_truncates `{GateEnv} r w :
  let '(d, r') := (exec (extractDatasourceIDFromBody r) w).2 in
  r' = r \/ exists b, Body r' = Some b /\ Z.of_nat (String.length b) <= maxDatasourceProbeBodyBytes.
Proof.
  unfold extractDatasourceIDFromBody. destruct (Body r) as [b|]; [|by left]. destruct (negb _); [by left|]. destruct (negb _); [by left|].
  rewrite exec_bind. cbn. destruct (read_fault _) as [e|]; right; cbn.
  - exists "". split; [done|]. unfold maxDatasourceProbeBodyBytes. cbn. lia.
  - eexists. split; [done|]. by apply limit_bytes_length.
Qed.

Lemma caches_sound_witness :
  (size (permCache remembered.1) <= maxAuthClientCacheEntries /\ size (dsCache remembered.1) <= maxAuthClientCacheEntries /\
   size (wsDSCache remembered.1) <= maxAuthClientCacheEntries)%nat /\
  sound remembered.1 /\ answers_told remembered.1 /\
  forall i ws l, errands !! i = Some (Lists ws) -> ws <> "" -> remembered.2 !! i = Some (Ret (Listed (Ok l))) ->
    told remembered.1 (ws_call ws) decode_ids l.
Proof.
  apply (caches_sound range_ok jwt_ok pat_ok errands empty_world remembered).
  - exact empty_sound.
  - intros ws e He. discriminate He.
  - repeat constructor.
  - apply follow_interleaves.
Defined.
