(* ===== verification/AuthAdmin.v ===== *)
(** The administration of the authentication service, as its routes serve it
    ([internal/auth/handlers/handler_rbac.go]).

    A route is its gates - a permission everywhere, a permission in the workspace, a membership -
    and then its handler, which has guards of its own: nobody changes their own privileged state,
    only a super administrator gives privileged roles away, only an owner changes a workspace or
    revokes a share.  The routes of the other services ask what a user may do. *)

From S2P Require Import Prelude GoStrings Interleave Tables AuthStore AuthText Sessions Users AuthTokens Mfa Rbac AuthService Workspaces AIJobHandlers.
From stdpp Require Import options.
#[local] Open Scope Z_scope.

(** * Replies *)

Record Member : Type := mkMember {
  mb_UserID : string; mb_Email : string; mb_DisplayName : option string; mb_RoleID : string; mb_RoleName : string;
  mb_JoinedAt : Z; mb_InvitedBy : option string }.
Record AdminUserListRow : Type := mkAdminRow { ar_User : User; ar_MFAEnabled : bool; ar_MFAPending : bool; ar_PasskeyCount : nat }.
(** What is shown of a user. *)
Record UserResponse : Type := mkUserResponse {
  rs_ID : string; rs_Email : string; rs_Username : option string; rs_DisplayName : option string; rs_AvatarURL : option string;
  rs_IsActive : bool; rs_EmailVerified : bool; rs_HasPassword : bool; rs_MFAEnabled : bool; rs_MFAPending : bool; rs_PasskeyCount : nat;
  rs_CreatedAt : Z; rs_UpdatedAt : Z }.
Definition user_response (u : User) (hasPassword mfaEnabled mfaPending : bool) (passkeys : nat) : UserResponse :=
  mkUserResponse (u_ID u) (u_Email u) (u_Username u) (u_DisplayName u) (u_AvatarURL u) (u_IsActive u) (u_EmailVerified u)
    hasPassword mfaEnabled mfaPending passkeys (u_CreatedAt u) (u_UpdatedAt u).
Record AuditFilter : Type := mkAuditFilter {
  af_UserID : string; af_Action : string; af_From : option Z; af_To : option Z; af_Limit : Z; af_Offset : Z }.

Definition ScopeDatasource : string := "datasource".
(** What is written back; a failure of the server is not told. *)
Inductive Content : Type :=
| CNothing
| CError (e : goerr)
| CInternalError
| CSuccess
| CAllowed (allowed : bool) (reason : option goerr)
| CMyPermissions (permissions : gset string) (is_super_admin : bool)
| CWorkspace (w : Workspace)
| CWorkspaces (l : list Workspace) (total : Z)
| CMembers (l : list Member)
| CWorkspaceDatasources (l : list (string * string))
| CDatasourceIDs (l : list string)
| CShare (sh : Share)
| CShares (l : list Share) (total : Z)
| CAccess (a : DatasourceAccess)
| CAccesses (l : list DatasourceAccess) (total : Z)
| CRoles (l : list (string * string)) (total : Z)
| CPermissions (l : list (string * Permission)) (total : Z)
| CPermissionIDs (l : list string)
| CUserRoles (l : list (string * string * string * string))
| CUser (u : UserResponse)
| CUsers (l : list UserResponse) (total : Z)
| CUserRef (id email : string)
| CAuditLog (l : list AuditEntry) (total : nat)
| CAuditCSV (l : list AuditEntry)
| CEnabled (enabled : bool)
| CPublicKey (pem issuer audience : string).
Inductive Reply : Type := Replied (code : Z) (content : Content) | Panicked.

Definition StatusCreated : Z := 201.
Definition StatusNoContent : Z := 204.
Definition StatusUnauthorized : Z := 401.
Definition StatusRequestEntityTooLarge : Z := 413.
Definition writeError (code : Z) (e : goerr) : Reply := Replied code (if StatusInternalServerError <=? code then CInternalError else CError e).
Definition writeJSON (code : Z) (content : Content) : Reply := Replied code content.
Definition WriteHeader (code : Z) : Reply := Replied code CNothing.

(** A body as it was decoded; or it is too large, or no document of the right type. *)
Inductive Decoded (A : Type) : Type := Read (a : A) | Refused (too_large : bool).
#[global] Arguments Read {A} _.
#[global] Arguments Refused {A} _.
Definition decodeJSON {W A} (req : Decoded A) (k : A -> prog W Reply) : prog W Reply :=
  match req with
  | Read a => k a
  | Refused too_large =>
      Ret (if too_large then writeError StatusRequestEntityTooLarge (EMsg "request body too large") else writeError StatusBadRequest (EMsg "invalid request body"))
  end.
(** The reply with this status when a call fails. *)
Definition or_reply {W A} (code : Z) (m : prog W (res A)) (k : A -> prog W Reply) : prog W Reply :=
  let* r := m in match r with Err e => Ret (writeError code e) | Ok a => k a end.

(** The window of a list; a slice whose bounds are out of range panics. *)
Definition paginateSlice {A} (pagination : PageParams) (items : list A) : option (list A * Z) :=
  let total := Z.of_nat (length items) in
  if negb (Requested pagination) then Some (items, total) else
  let pageSize := if PageSize pagination <=? 0 then 10 else PageSize pagination in
  let start := Offset pagination in
  let end_ := wrap64 (start + pageSize) in
  if total <? start then Some ([], total) else
  let end_ := if total <? end_ then total else end_ in
  if (0 <=? start) && (start <=? end_) then Some (take (Z.to_nat (end_ - start)) (drop (Z.to_nat start) items), total) else None.
Definition slicePagination : PaginationConfig := mkPagination 1 10 100000.
Definition paginated {A} (q : Values) (items : list A) (content : list A -> Z -> Content) : Reply :=
  match paginateSlice (paginationFromQuery q slicePagination) items with
  | Some (l, total) => writeJSON StatusOK (content l total)
  | None => Panicked
  end.

(** * Lists *)

Definition ws_before (a b : Workspace) : Prop :=
  ws_IsPersonal a = true /\ ws_IsPersonal b = false \/ ws_IsPersonal a = ws_IsPersonal b /\ text_le (ws_Name a) (ws_Name b).
#[global] Instance ws_before_dec a b : Decision (ws_before a b).
Proof. unfold ws_before. apply _. Defined.
Definition joined_before (a b : Member) : Prop := mb_JoinedAt a <= mb_JoinedAt b.
#[global] Instance joined_before_dec a b : Decision (joined_before a b).
Proof. unfold joined_before. apply _. Defined.
Definition granted_later (a b : DatasourceAccess) : Prop := da_GrantedAt b <= da_GrantedAt a.
#[global] Instance granted_later_dec a b : Decision (granted_later a b).
Proof. unfold granted_later. apply _. Defined.
Definition role_before (a b : string * string) : Prop := text_le a.2 b.2.
#[global] Instance role_before_dec a b : Decision (role_before a b).
Proof. unfold role_before. apply _. Defined.
Definition permission_before (a b : string * Permission) : Prop :=
  p_Resource a.2 <> p_Resource b.2 /\ text_le (p_Resource a.2) (p_Resource b.2) \/ p_Resource a.2 = p_Resource b.2 /\ text_le (p_Action a.2) (p_Action b.2).
#[global] Instance permission_before_dec a b : Decision (permission_before a b).
Proof. unfold permission_before. apply _. Defined.
Definition audited_later (a b : AuditEntry) : Prop := a_CreatedAt b <= a_CreatedAt a.
#[global] Instance audited_later_dec a b : Decision (audited_later a b).
Proof. unfold audited_later. apply _. Defined.

(** What the handlers are given; [audit] when the log is wired. *)
Record RBACHandlerDeps : Type := mkDeps {
  with_redis : bool; with_audit : bool; ToLower_unicode : string -> string; resolver : Resolver;
  PublicKeyPEM : res string; Issuer : string; Audience : string;
}.
(** The bodies, as they are decoded. *)
Record WorkspaceBody : Type := mkWorkspaceBody { wb_Name : string; wb_Description : string; wb_MFARequired : option bool; wb_PublicSharingEnabled : option bool }.
Record ShareRequest : Type := mkShareRequest {
  sr_ResourceType : string; sr_ResourceID : string; sr_SharedWith : option string; sr_WorkspaceID : option string; sr_Permission : string }.
Record RoleBody : Type := mkRoleBody { rb_RoleID : string; rb_ScopeType : option string; rb_ScopeID : option string }.
Record CheckPermissionRequest : Type := mkCheckPermission { cp_UserID : string; cp_Permission : string; cp_ScopeType : string; cp_ScopeID : string; cp_WorkspaceID : string }.
Record CheckDSAccessRequest : Type := mkCheckDSAccess { cd_UserID : string; cd_DatasourceID : string; cd_Level : string }.

Section Lists.
Context `{Env}.
Definition ListAll : prog World (res (list Workspace)) :=
  wrap "query workspaces" (query (fun _ d => Ok (merge_sort ws_before (map_to_list (workspaces d)).*2))).
Definition ListForUser (userID : string) : prog World (res (list Workspace)) :=
  wrap "query user workspaces" (query (fun _ d =>
    Ok (merge_sort ws_before (select (fun w => bool_decide (is_Some (members d !! (ws_ID w, userID)))) (workspaces d))))).
Definition member_of (workspaceID : string) (d : DB) (km : string * string * Membership) : option Member :=
  let '(ws, u, m) := km in
  if negb (String.eqb ws workspaceID) then None else
  match users d !! u, roles d !! m_RoleID m with
  | Some user, Some name => Some (mkMember u (u_Email user) (u_DisplayName user) (m_RoleID m) name (m_JoinedAt m) (m_InvitedBy m))
  | _, _ => None
  end.
Definition ListMembers (workspaceID : string) : prog World (res (list Member)) :=
  wrap "query members" (query (fun _ d => Ok (merge_sort joined_before (omap (M := list) (member_of workspaceID d) (map_to_list (members d)))))).
(** The order in which they were attached is not kept here. *)
Definition ListDatasources (workspaceID : string) : prog World (res (list (string * string))) :=
  wrap "query workspace datasources" (query (fun _ d =>
    Ok (omap (M := list) (fun kl : string * string * string => if String.eqb kl.1.1 workspaceID then Some (kl.1.2, kl.2) else None) (map_to_list (workspace_datasources d))))).
Definition ListAllAccess : prog World (res (list DatasourceAccess)) :=
  wrap "query all access" (query (fun _ d => Ok (merge_sort granted_later (map_to_list (datasource_access d)).*2))).
Definition ListRoles : prog World (res (list (string * string))) :=
  wrap "list roles" (query (fun _ d => Ok (merge_sort role_before (map_to_list (roles d))))).
Definition ListPermissions : prog World (res (list (string * Permission))) :=
  wrap "list permissions" (query (fun _ d => Ok (merge_sort permission_before (map_to_list (permissions d))))).
Definition admin_row (d : DB) (u : User) : AdminUserListRow :=
  let m := user_mfa d !! u_ID u in
  let enabled := match m with Some e => e_Enabled e | None => false end in
  mkAdminRow u enabled (bool_decide (is_Some m) && negb enabled) (length (select (fun pk => String.eqb (pk_UserID pk) (u_ID u)) (passkeys d))).
Definition ListUsersForAdmin : prog World (res (list AdminUserListRow)) :=
  query (fun _ d => Ok (map (admin_row d) (merge_sort newest_first (map_to_list (users d)).*2))).

(** The log, filtered ([audit.go]). *)
Definition audit_match (f : AuditFilter) (e : AuditEntry) : bool :=
  (str_empty (af_UserID f) || is_some_eq (a_UserID e) (af_UserID f)) && (str_empty (af_Action f) || String.eqb (a_Action e) (af_Action f)) &&
  match af_From f with Some t => t <=? a_CreatedAt e | None => true end && match af_To f with Some t => a_CreatedAt e <? t | None => true end.
Definition Audit_Count (f : AuditFilter) : prog World (res nat) := query (fun _ d => Ok (length (List.filter (audit_match f) (audit_log d)))).
Definition audit_limit (limit : Z) : Z := let limit := if limit <=? 0 then 100 else limit in if 1000 <? limit then 1000 else limit.
Definition Audit_List (f : AuditFilter) : prog World (res (list AuditEntry)) :=
  wrap "query audit log" (query (fun _ d =>
    Ok (take (Z.to_nat (audit_limit (af_Limit f))) (drop (Z.to_nat (Z.max (af_Offset f) 0)) (merge_sort audited_later (List.filter (audit_match f) (audit_log d))))))).
End Lists.

Section Handlers.
Context `{Env} (h : RBACHandlerDeps).

(** * Gates *)

Definition requireContextUserID (caller : string) (next : prog World Reply) : prog World Reply :=
  if str_empty caller then Ret (writeError StatusUnauthorized (EMsg "unauthorized")) else next.
Definition authenticated (caller : string) (next : prog World Reply) : prog World Reply :=
  if str_empty caller then Ret (writeError StatusUnauthorized (EMsg "authentication required")) else next.
Definition insufficient : Reply := writeError StatusForbidden (EMsg "insufficient permissions").
Definition requirePermission (perms : list string) (caller : string) (next : prog World Reply) : prog World Reply :=
  authenticated caller (or_reply StatusInternalServerError (RequireAny caller perms) (fun ok => if negb ok then Ret insufficient else next)).
Definition requireWorkspaceMembership (wsID caller : string) (next : prog World Reply) : prog World Reply :=
  authenticated caller (
    let* isSuper := IsSuperAdmin caller in
    match isSuper with
    | Ok true => next
    | _ => or_reply StatusInternalServerError (IsMember wsID caller) (fun member => if negb member then Ret insufficient else next)
    end).
Fixpoint any_permission (wsID caller : string) (perms : list string) (next : prog World Reply) : prog World Reply :=
  match perms with
  | [] => Ret insufficient
  | p :: perms => or_reply StatusInternalServerError (Check_ caller p ScopeWorkspace wsID) (fun ok => if ok then next else any_permission wsID caller perms next)
  end.
Definition requireWorkspacePermission (perms : list string) (wsID caller : string) (next : prog World Reply) : prog World Reply :=
  authenticated caller (any_permission wsID caller perms next).

(** * Handlers *)

Definition handleMyPermissions (caller : string) : prog World Reply :=
  authenticated caller (
    or_reply StatusInternalServerError (IsSuperAdmin caller) (fun isSuper =>
    or_reply StatusInternalServerError (EffectivePermissions caller "") (fun perms =>
    Ret (writeJSON StatusOK (CMyPermissions perms isSuper))))).

Definition handleListWorkspaces (caller : string) (q : Values) : prog World Reply :=
  requireContextUserID caller (
    or_reply StatusInternalServerError (IsSuperAdmin caller) (fun isSuper =>
    let memberScope := String.eqb (Get_ q "scope") "member" in
    or_reply StatusInternalServerError (if isSuper && negb memberScope then ListAll else ListForUser caller) (fun list =>
    Ret (paginated q list CWorkspaces)))).
Definition handleCreateWorkspace (caller : string) (req : Decoded (string * string)) : prog World Reply :=
  requireContextUserID caller (decodeJSON req (fun '(name, description) =>
    or_reply StatusBadRequest (Workspace_Create (ToLower_unicode h) name description caller) (fun ws => Ret (writeJSON StatusCreated (CWorkspace ws))))).
Definition handleGetWorkspace (id : string) : prog World Reply :=
  or_reply StatusNotFound (Workspace_Get id) (fun ws => Ret (writeJSON StatusOK (CWorkspace ws))).
Definition handleUpdateWorkspace (caller id : string) (req : Decoded WorkspaceBody) : prog World Reply :=
  requireContextUserID caller (decodeJSON req (fun b =>
    or_reply StatusForbidden (Workspace_Update id caller (wb_Name b) (wb_Description b) (wb_MFARequired b) (wb_PublicSharingEnabled b)) (fun ws =>
    Ret (writeJSON StatusOK (CWorkspace ws))))).
Definition handleDeleteWorkspace (caller id : string) : prog World Reply :=
  requireContextUserID caller (or_reply StatusForbidden (Workspace_Delete id caller) (fun _ => Ret (WriteHeader StatusNoContent))).
Definition handleListMembers (id : string) : prog World Reply :=
  or_reply StatusInternalServerError (ListMembers id) (fun l => Ret (writeJSON StatusOK (CMembers l))).
Definition handleAddMember (caller id : string) (req : Decoded (string * string)) : prog World Reply :=
  requireContextUserID caller (decodeJSON req (fun '(userID, roleID) =>
    or_reply StatusForbidden (AddMember (with_redis h) id userID roleID caller) (fun _ => Ret (WriteHeader StatusCreated)))).
Definition handleUpdateMemberRole (caller id userID : string) (req : Decoded string) : prog World Reply :=
  requireContextUserID caller (decodeJSON req (fun roleID =>
    or_reply StatusForbidden (UpdateMemberRole id userID roleID caller) (fun _ => Ret (WriteHeader StatusNoContent)))).
Definition handleRemoveMember (caller id userID : string) : prog World Reply :=
  requireContextUserID caller (or_reply StatusForbidden (RemoveMember (with_redis h) id userID caller) (fun _ => Ret (WriteHeader StatusNoContent))).
Definition handleListWorkspaceDatasources (id : string) : prog World Reply :=
  or_reply StatusInternalServerError (ListDatasources id) (fun l => Ret (writeJSON StatusOK (CWorkspaceDatasources l))).
Definition level_or_read (level : string) : string := if str_empty level then "read" else level.
Definition handleAttachDatasource (caller id : string) (req : Decoded (string * string)) : prog World Reply :=
  requireContextUserID caller (decodeJSON req (fun '(datasourceID, level) =>
    or_reply StatusForbidden (AttachDatasource (with_redis h) id datasourceID (level_or_read level) caller) (fun _ => Ret (WriteHeader StatusCreated)))).
Definition handleDetachDatasource (caller id dsId : string) : prog World Reply :=
  requireContextUserID caller (or_reply StatusForbidden (DetachDatasource (with_redis h) id dsId caller) (fun _ => Ret (WriteHeader StatusNoContent))).

Definition handleListMyDatasources (caller : string) : prog World Reply :=
  requireContextUserID caller (or_reply StatusInternalServerError (ListAccessibleDatasourceIDs (with_redis h) caller) (fun ids =>
    Ret (writeJSON StatusOK (CDatasourceIDs ids)))).
Definition writeDatasourceAccessCheckError (e : goerr) : Reply :=
  if errors_Is e ErrDatasourceAccessDenied then writeJSON StatusOK (CAllowed false (Some ErrDatasourceAccessDenied))
  else writeError StatusInternalServerError (EMsg "datasource access check failed").
Definition check_access (userID dsID level : string) : prog World Reply :=
  let* r := CheckAccess userID dsID level in
  Ret (match r with Err e => writeDatasourceAccessCheckError e | Ok _ => writeJSON StatusOK (CAllowed true None) end).
Definition handleCheckMyDatasource (caller id : string) (q : Values) : prog World Reply :=
  requireContextUserID caller (check_access caller id (level_or_read (Get_ q "level"))).
Definition handleRequestAccess (caller id : string) : prog World Reply :=
  requireContextUserID caller (
    or_reply StatusInternalServerError (AuditLog (Some caller) "datasource.request_access" (Some "datasource") (Some id) None) (fun _ =>
    Ret (writeJSON StatusOK CSuccess))).

Definition handleCreateShare (caller : string) (req : Decoded ShareRequest) : prog World Reply :=
  requireContextUserID caller (decodeJSON req (fun b =>
    or_reply StatusBadRequest (Share_ (resolver h) caller (sr_ResourceType b) (sr_ResourceID b) (sr_SharedWith b) (sr_WorkspaceID b) (sr_Permission b)) (fun sh =>
    Ret (writeJSON StatusCreated (CShare sh))))).
Definition handleListShares (caller : string) (q : Values) : prog World Reply :=
  requireContextUserID caller (
    let resourceType := Get_ q "resource_type" in
    or_reply StatusInternalServerError
      (if String.eqb (Get_ q "mode") "owned" then ListOwned caller resourceType (Get_ q "resource_id") else ListShared caller resourceType) (fun l =>
    Ret (paginated q l CShares))).
Definition handleRevokeShare (caller id : string) : prog World Reply :=
  requireContextUserID caller (or_reply StatusForbidden (Share_Revoke id caller) (fun _ => Ret (WriteHeader StatusNoContent))).

(** ** Administration *)

Definition handleAdminListAccess (q : Values) : prog World Reply :=
  or_reply StatusInternalServerError ListAllAccess (fun l => Ret (paginated q l CAccesses)).
Definition handleAdminGrantAccess (caller : string) (req : Decoded (string * string * string)) : prog World Reply :=
  requireContextUserID caller (decodeJSON req (fun '(userID, datasourceID, level) =>
    or_reply StatusBadRequest (Grant (with_redis h) userID datasourceID (level_or_read level) caller) (fun access =>
    Ret (writeJSON StatusCreated (CAccess access))))).
Definition handleAdminUpdateAccess (caller accessID : string) (req : Decoded string) : prog World Reply :=
  requireContextUserID caller (decodeJSON req (fun level =>
    let* access := Access_GetByID accessID in
    match access with
    | Err e => Ret (if errors_Is e ErrNoRows then writeError StatusNotFound (EMsg "access grant not found") else writeError StatusInternalServerError e)
    | Ok access =>
        or_reply StatusInternalServerError (Check_ caller "datasource:grant_access" ScopeDatasource (da_DatasourceID access)) (fun ok =>
        if negb ok then Ret insufficient else
        or_reply StatusBadRequest (UpdateLevel (with_redis h) accessID level) (fun _ => Ret (WriteHeader StatusNoContent)))
    end)).
Definition handleAdminRevokeAccess (req : Decoded (string * string)) : prog World Reply :=
  decodeJSON req (fun '(userID, datasourceID) =>
    or_reply StatusInternalServerError (Revoke (with_redis h) userID datasourceID) (fun _ => Ret (WriteHeader StatusNoContent))).
Definition handleAdminListRoles (q : Values) : prog World Reply :=
  or_reply StatusInternalServerError ListRoles (fun l => Ret (paginated q l CRoles)).
Definition handleAdminListPermissions (q : Values) : prog World Reply :=
  or_reply StatusInternalServerError ListPermissions (fun l => Ret (paginated q l CPermissions)).
Definition handleAdminGetRolePermissions (roleID : string) : prog World Reply :=
  or_reply StatusInternalServerError (GetRolePermissionIDs roleID) (fun ids => Ret (writeJSON StatusOK (CPermissionIDs ids))).
Definition handleAdminSetRolePermissions (roleID : string) (req : Decoded (list string)) : prog World Reply :=
  decodeJSON req (fun permissionIDs =>
    or_reply StatusInternalServerError (SetRolePermissions roleID permissionIDs) (fun _ =>
    let* _ := InvalidateAllCache in
    Ret (WriteHeader StatusNoContent))).
(** [slog] takes the failures of the log. *)
Definition audited (caller action : string) (resource resourceID : option string) : prog World unit :=
  if with_audit h then let* _ := AuditLog (Some caller) action resource resourceID None in Ret tt else Ret tt.
Definition auditSoD (caller : string) : prog World unit := audited caller "admin.blocked_self_change" (Some "user") (Some caller).
(** A guard that is logged when it stops the caller. *)
Definition or_sod (caller : string) (guard : prog World (res unit)) (next : prog World Reply) : prog World Reply :=
  let* r := guard in
  match r with Err e => let* _ := auditSoD caller in Ret (writeError StatusForbidden e) | Ok _ => next end.
Definition handleAdminAssignRole (caller userID : string) (req : Decoded RoleBody) : prog World Reply :=
  authenticated caller (
    or_sod caller (EnforceSelfModificationGuard caller userID "role.assign") (
    decodeJSON req (fun b =>
    or_sod caller (EnforcePrivilegedRoleAssignmentGuard caller (rb_RoleID b)) (
    or_reply StatusInternalServerError (AssignRole userID (rb_RoleID b) (rb_ScopeType b) (rb_ScopeID b)) (fun _ =>
    let* _ := InvalidateUserCache userID in
    let* _ := audited caller "role.assigned" (Some "user_role") (Some userID) in
    Ret (WriteHeader StatusCreated)))))).
Definition handleAdminRemoveRole (caller userID roleID : string) : prog World Reply :=
  or_sod caller (EnforceSelfModificationGuard caller userID "role.remove") (
  or_sod caller (EnforcePrivilegedRoleAssignmentGuard caller roleID) (
  or_reply StatusInternalServerError (RemoveRole userID roleID) (fun _ =>
  let* _ := InvalidateUserCache userID in
  let* _ := audited caller "role.removed" (Some "user_role") (Some userID) in
  Ret (WriteHeader StatusNoContent)))).
Definition matches_search (search : string) (u : User) : bool :=
  let has x := match x with Some s => Contains (ToLower_unicode h s) search | None => false end in
  str_empty search || Contains (ToLower_unicode h (u_Email u)) search || has (u_Username u) || has (u_DisplayName u).
Definition matches_status (status : string) (u : User) : bool :=
  if String.eqb status "active" then u_IsActive u else if String.eqb status "inactive" then negb (u_IsActive u) else true.
Definition handleAdminListUsers (q : Values) : prog World Reply :=
  or_reply StatusInternalServerError ListUsersForAdmin (fun rows =>
  let search := ToLower_unicode h (Get_ q "search") in
  let kept := List.filter (fun r => matches_search search (ar_User r) && matches_status (Get_ q "status") (ar_User r)) rows in
  let has_password u := match u_PasswordHash u with Some p => negb (str_empty p) | None => false end in
  let responses := map (fun r => user_response (ar_User r) (has_password (ar_User r)) (ar_MFAEnabled r) (ar_MFAPending r) (ar_PasskeyCount r)) kept in
  Ret (paginated q responses CUsers)).
Definition get_user (id : string) (k : User -> Reply) : prog World Reply :=
  let* u := GetUserByID id in
  Ret (match u with
       | Err e => if errors_Is e ErrUserNotFound then writeJSON StatusNotFound (CError (EMsg "user not found")) else writeError StatusInternalServerError e
       | Ok u => k u
       end).
(** The password, the second factor and the passkeys are not looked at. *)
Definition handleAdminGetUser (id : string) : prog World Reply :=
  get_user id (fun u => writeJSON StatusOK (CUser (user_response u false false false 0))).
Definition handleAdminGetUserRoles (id : string) : prog World Reply :=
  or_reply StatusInternalServerError (GetUserRolesWithScope id) (fun l => Ret (writeJSON StatusOK (CUserRoles l))).
Definition handleAdminUpdateUser (caller id : string) (req : Decoded bool) : prog World Reply :=
  decodeJSON req (fun isActive =>
  let update := or_reply StatusInternalServerError (UpdateUserActiveStatus id isActive) (fun _ => Ret (WriteHeader StatusNoContent)) in
  if negb isActive then or_sod caller (EnforceSelfModificationGuard caller id "user.deactivate") update else update).

(** [time.Parse] of an instant, if there is one. *)
Variable parse_time : string -> res Z.
Definition optional_time (name : string) (value : string) : res (option Z) :=
  if str_empty value then Ok None else
  match parse_time value with Ok t => Ok (Some t) | Err _ => Err (EMsg (name +:+ " must be RFC3339")) end.
Definition auditFilterFromQuery (q : Values) : res AuditFilter :=
  let pagination := paginationFromQuery q slicePagination in
  let pageSize := if PageSize pagination <=? 0 then 10 else PageSize pagination in
  let? from := optional_time "from" (Get_ q "from") in
  let? to := optional_time "to" (Get_ q "to") in
  Ok (mkAuditFilter (Get_ q "user_id") (Get_ q "action") from to pageSize (Offset pagination)).
Definition handleAdminListAuditLog (caller : string) (q : Values) : prog World Reply :=
  match auditFilterFromQuery q with
  | Err e => Ret (writeError StatusBadRequest e)
  | Ok filter =>
      or_reply StatusInternalServerError (Audit_List filter) (fun entries =>
      or_reply StatusInternalServerError (Audit_Count filter) (fun total =>
      authenticated caller (
      let* _ := AuditLog (Some caller) "audit.export" (Some "audit_log") None None in
      if String.eqb (Get_ q "format") "csv" then
        or_reply StatusInternalServerError
          (Audit_List (mkAuditFilter (af_UserID filter) (af_Action filter) (af_From filter) (af_To filter) 10000 0)) (fun all =>
        Ret (writeJSON StatusOK (CAuditCSV all)))
      else Ret (writeJSON StatusOK (CAuditLog entries total)))))
  end.

(** * The routes of the other services *)

Definition handleInternalCheckPermission (req : Decoded CheckPermissionRequest) : prog World Reply :=
  decodeJSON req (fun b =>
  let scopeID := if str_empty (cp_ScopeID b) then cp_WorkspaceID b else cp_ScopeID b in
  or_reply StatusInternalServerError (Check_ (cp_UserID b) (cp_Permission b) (cp_ScopeType b) scopeID) (fun allowed =>
  Ret (writeJSON StatusOK (CAllowed allowed None)))).
Definition handleInternalUserDatasources (id : string) : prog World Reply :=
  or_reply StatusInternalServerError (ListAccessibleDatasourceIDs (with_redis h) id) (fun ids => Ret (writeJSON StatusOK (CDatasourceIDs ids))).
Definition handleInternalCheckDSAccess (req : Decoded CheckDSAccessRequest) : prog World Reply :=
  decodeJSON req (fun b => check_access (cd_UserID b) (cd_DatasourceID b) (level_or_read (cd_Level b))).
Definition handleInternalUserWorkspaces (id : string) : prog World Reply :=
  or_reply StatusInternalServerError (ListForUser id) (fun l => Ret (writeJSON StatusOK (CWorkspaces l (Z.of_nat (length l))))).
Definition handleInternalGetUser (id : string) : prog World Reply := get_user id (fun u => writeJSON StatusOK (CUserRef (u_ID u) (u_Email u))).
Definition handleInternalWorkspaceDatasources (id : string) : prog World Reply :=
  or_reply StatusInternalServerError (ListDatasources id) (fun l => Ret (writeJSON StatusOK (CDatasourceIDs (map fst l)))).
Definition handleInternalWorkspacePublicSharing (id : string) : prog World Reply :=
  let* enabled := IsPublicSharingEnabled id in
  Ret (match enabled with
       | Err e => writeError (if errors_Is e ErrWorkspaceNotFound then StatusNotFound else StatusInternalServerError) e
       | Ok enabled => writeJSON StatusOK (CEnabled enabled)
       end).
Definition handleInternalInvalidateCache (req : Decoded string) : prog World Reply :=
  decodeJSON req (fun userID => or_reply StatusInternalServerError (InvalidateCache (with_redis h) userID) (fun _ => Ret (WriteHeader StatusNoContent))).
Definition handleInternalPublicKey : prog World Reply :=
  or_reply StatusInternalServerError (Ret (PublicKeyPEM h)) (fun pem => Ret (writeJSON StatusOK (CPublicKey pem (Issuer h) (Audience h)))).
End Handlers.

(** * Routes *)

(** The routes with the parts of a request they read. *)
Inductive Route : Type :=
| RMyPermissions
| RListWorkspaces (q : Values)
| RCreateWorkspace (b : Decoded (string * string))
| RGetWorkspace (id : string)
| RUpdateWorkspace (id : string) (b : Decoded WorkspaceBody)
| RDeleteWorkspace (id : string)
| RListMembers (id : string)
| RAddMember (id : string) (b : Decoded (string * string))
| RUpdateMemberRole (id userId : string) (b : Decoded string)
| RRemoveMember (id userId : string)
| RListWorkspaceDatasources (id : string)
| RAttachDatasource (id : string) (b : Decoded (string * string))
| RDetachDatasource (id dsId : string)
| RListMyDatasources
| RCheckMyDatasource (id : string) (q : Values)
| RRequestAccess (id : string)
| RCreateShare (b : Decoded ShareRequest)
| RListShares (q : Values)
| RRevokeShare (id : string)
| RAdminListAccess (q : Values)
| RAdminGrantAccess (b : Decoded (string * string * string))
| RAdminUpdateAccess (id : string) (b : Decoded string)
| RAdminRevokeAccess (b : Decoded (string * string))
| RAdminListRoles (q : Values)
| RAdminGetRolePermissions (roleId : string)
| RAdminSetRolePermissions (roleId : string) (b : Decoded (list string))
| RAdminListPermissions (q : Values)
| RAdminAssignRole (id : string) (b : Decoded RoleBody)
| RAdminRemoveRole (id roleId : string)
| RAdminListUsers (q : Values)
| RAdminGetUser (id : string)
| RAdminGetUserRoles (id : string)
| RAdminUpdateUser (id : string) (b : Decoded bool)
| RAdminListAuditLog (q : Values)
(** those behind the internal token *)
| RInternalCheckPermission (b : Decoded CheckPermissionRequest)
| RInternalUserDatasources (id : string)
| RInternalCheckDSAccess (b : Decoded CheckDSAccessRequest)
| RInternalUserWorkspaces (id : string)
| RInternalWorkspaceDatasources (id : string)
| RInternalWorkspacePublicSharing (id : string)
| RInternalInvalidateCache (b : Decoded string)
| RInternalPublicKey
| RInternalGetUser (id : string).

(** [RegisterAuthRoutes] and [RegisterInternalRoutes]; the caller is who signed in, nobody behind the internal token. *)
Definition serve `{Env} (h : RBACHandlerDeps) (parse_time : string -> res Z) (rt : Route) (caller : string) : prog World Reply :=
  match rt with
  | RMyPermissions => handleMyPermissions caller
  | RListWorkspaces q => handleListWorkspaces caller q
  | RCreateWorkspace b => requirePermission ["workspace:create"] caller (handleCreateWorkspace h caller b)
  | RGetWorkspace id => requireWorkspaceMembership id caller (handleGetWorkspace id)
  | RUpdateWorkspace id b => requireWorkspacePermission ["admin:workspaces"] id caller (handleUpdateWorkspace caller id b)
  | RDeleteWorkspace id => requireWorkspacePermission ["admin:workspaces"] id caller (handleDeleteWorkspace caller id)
  | RListMembers id => requireWorkspaceMembership id caller (handleListMembers id)
  | RAddMember id b => requireWorkspacePermission ["workspace:invite"; "admin:workspaces"] id caller (handleAddMember h caller id b)
  | RUpdateMemberRole id userId b => requireWorkspacePermission ["workspace:invite"; "admin:workspaces"] id caller (handleUpdateMemberRole caller id userId b)
  | RRemoveMember id userId => requireWorkspacePermission ["workspace:invite"; "admin:workspaces"] id caller (handleRemoveMember h caller id userId)
  | RListWorkspaceDatasources id => requireWorkspaceMembership id caller (handleListWorkspaceDatasources id)
  | RAttachDatasource id b => requireWorkspacePermission ["workspace:manage_datasources"; "admin:workspaces"] id caller (handleAttachDatasource h caller id b)
  | RDetachDatasource id dsId => requireWorkspacePermission ["workspace:manage_datasources"; "admin:workspaces"] id caller (handleDetachDatasource h caller id dsId)
  | RListMyDatasources => handleListMyDatasources h caller
  | RCheckMyDatasource id q => handleCheckMyDatasource caller id q
  | RRequestAccess id => handleRequestAccess caller id
  | RCreateShare b => handleCreateShare h caller b
  | RListShares q => handleListShares caller q
  | RRevokeShare id => handleRevokeShare caller id
  | RAdminListAccess q => requirePermission ["datasource:grant_access"] caller (handleAdminListAccess q)
  | RAdminGrantAccess b => requirePermission ["datasource:grant_access"] caller (handleAdminGrantAccess h caller b)
  | RAdminUpdateAccess id b => requirePermission ["datasource:grant_access"] caller (handleAdminUpdateAccess h caller id b)
  | RAdminRevokeAccess b => requirePermission ["datasource:grant_access"] caller (handleAdminRevokeAccess h b)
  | RAdminListRoles q => requirePermission ["admin:roles"] caller (handleAdminListRoles q)
  | RAdminGetRolePermissions roleId => requirePermission ["admin:roles"] caller (handleAdminGetRolePermissions roleId)
  | RAdminSetRolePermissions roleId b => requirePermission ["admin:roles"] caller (handleAdminSetRolePermissions roleId b)
  | RAdminListPermissions q => requirePermission ["admin:roles"] caller (handleAdminListPermissions q)
  | RAdminAssignRole id b => requirePermission ["admin:roles"] caller (handleAdminAssignRole h caller id b)
  | RAdminRemoveRole id roleId => requirePermission ["admin:roles"] caller (handleAdminRemoveRole h caller id roleId)
  | RAdminListUsers q => requirePermission ["admin:users"] caller (handleAdminListUsers h q)
  | RAdminGetUser id => requirePermission ["admin:users"] caller (handleAdminGetUser id)
  | RAdminGetUserRoles id => requirePermission ["admin:users"] caller (handleAdminGetUserRoles id)
  | RAdminUpdateUser id b => requirePermission ["admin:users"] caller (handleAdminUpdateUser h caller id b)
  | RAdminListAuditLog q => requirePermission ["admin:audit"] caller (handleAdminListAuditLog parse_time caller q)
  | RInternalCheckPermission b => handleInternalCheckPermission b
  | RInternalUserDatasources id => handleInternalUserDatasources h id
  | RInternalCheckDSAccess b => handleInternalCheckDSAccess b
  | RInternalUserWorkspaces id => handleInternalUserWorkspaces id
  | RInternalWorkspaceDatasources id => handleInternalWorkspaceDatasources id
  | RInternalWorkspacePublicSharing id => handleInternalWorkspacePublicSharing id
  | RInternalInvalidateCache b => handleInternalInvalidateCache h b
  | RInternalPublicKey => handleInternalPublicKey h
  | RInternalGetUser id => handleInternalGetUser id
  end.
