(* ===== verification/AdminSafety.v ===== *)
(** Who may change what through the routes of administration, however requests interleave, and what
    it means to pass the gates of the other services: their answers come from here.

    A program is guarded by a condition when each of its steps that changes anything comes after
    a step made where the condition held; so a change says that the condition held before,
    whatever the others did meanwhile. *)

From S2P Require Import Prelude GoStrings Interleave Tables AIJobHandlers Gate GateSafety AuthStore AuthLogic AuthText Sessions Users AuthTokens Mfa Rbac AuthService Workspaces AuthAccess AuthAdmin.
From stdpp Require Import options.
#[local] Open Scope Z_scope.

(** * Guarded programs *)

Section Guarded.
Context {W : Type} (same : W -> W -> Prop) (P : W -> Prop).

Fixpoint guarded {A} (m : prog W A) (Q : A -> Prop) : Prop :=
  match m with
  | Ret a => Q a
  | Act f k => forall w, P w \/ same w (f w).1 /\ guarded (k (f w).2) Q
  end.

Lemma guarded_bind {A B} (m : prog W A) (k : A -> prog W B) (R : A -> Prop) (Q : B -> Prop) :
  guarded m R -> (forall a, R a -> guarded (k a) Q) -> guarded (prog_bind m k) Q.
Proof using.
  intros Hm Hk. induction m as [a|C f m IH]; cbn in *; [by apply Hk|]. intros w. destruct (Hm w) as [|[Hs Hg]]; [by left|right].
  split; [done|by apply IH].
Qed.
Lemma guarded_mono {A} (m : prog W A) (R Q : A -> Prop) : guarded m R -> (forall a, R a -> Q a) -> guarded m Q.
Proof using.
  intros Hm Hq. induction m as [a|C f m IH]; cbn in *; [by apply Hq|]. intros w. destruct (Hm w) as [|[Hs Hg]]; [by left|right].
  split; [done|by apply IH].
Qed.
Lemma guarded_steps {A} (m : prog W A) : steps_in same m -> guarded m (fun _ => True).
Proof using.
  induction m as [a|C f m IH]; cbn; [done|]. intros Hs w. right. destruct (Hs w) as [Hw Hk]. split; [done|by apply IH].
Qed.
Lemma guarded_first {A B} (m : prog W A) (k : A -> prog W B) Q : steps_in same m -> (forall a, guarded (k a) Q) -> guarded (prog_bind m k) Q.
Proof using. intros Hm Hk. by apply guarded_bind with (fun _ => True); [apply guarded_steps|]. Qed.
Lemma guarded_now {A} (m : prog W A) : (forall w, P w) -> guarded m (fun _ => True).
Proof using. intros HP. destruct m; [done|]. intros w. by left. Qed.
Lemma guarded_try {A B} (m : prog W (res A)) (k : A -> prog W (res B)) (R : A -> Prop) (Q : res B -> Prop) :
  guarded m (fun r => forall a, r = Ok a -> R a) -> (forall e, Q (Err e)) -> (forall a, R a -> guarded (k a) Q) -> guarded (or_return m k) Q.
Proof using. intros Hm He Hk. apply guarded_bind with (fun r => forall a, r = Ok a -> R a); [done|]. intros [a|e] Hr; [by apply Hk, Hr|by apply He]. Qed.
Lemma guarded_wrap {A} ctx (m : prog W (res A)) (Q : res A -> Prop) : guarded m (fun r => Q (res_map_err (EWrap ctx) r)) -> guarded (wrap ctx m) Q.
Proof using. intros Hm. by apply guarded_bind with (fun r => Q (res_map_err (EWrap ctx) r)). Qed.
End Guarded.

(** At some moment of a run, up to [c]. *)
Definition held {W A} (start : W * list (prog W A)) (P : W -> Prop) (c : W * list (prog W A)) : Prop :=
  exists c0, interleaves start c0 /\ interleaves c0 c /\ P c0.1.
Lemma held_now {W A} (start : W * list (prog W A)) (P : W -> Prop) c : interleaves start c -> P c.1 -> held start P c.
Proof. intros Hi Hp. exists c. split; [done|]. split; [apply rtc_refl|done]. Qed.
Lemma held_later {W A} (start : W * list (prog W A)) (P : W -> Prop) c c' : interleaves c c' -> held start P c -> held start P c'.
Proof. intros Hi (c0 & H0 & H1 & Hp). exists c0. split; [done|]. split; [by etransitivity|done]. Qed.

Section Runs.
Context {W A : Type} (same : W -> W -> Prop) (P : W -> Prop) (Q : A -> Prop).
Context (start : W * list (prog W A)).

Lemma guarded_pool i m0 c : start.2 !! i = Some m0 -> guarded same P m0 Q -> interleaves start c ->
  held start P c \/ exists m, c.2 !! i = Some m /\ guarded same P m Q.
Proof using.
  intros H0 Hg Hi. revert c Hi. apply rtc_ind_r; [right; by exists m0|]. intros c c' Hi Hs [Hh|(m & Hm & Hgm)].
  - left. eapply held_later; [|exact Hh]. by apply rtc_once.
  - pose proof Hs as Hj. apply pool_step_of in Hj as [j Hj]. destruct Hj as [w l B f k Hl]. cbn in *. destruct (decide (i = j)) as [<-|Hn].
    + rewrite Hl in Hm. injection Hm as <-. destruct (Hgm w) as [Hp|[_ Hk]].
      * left. eapply held_later; [by apply rtc_once|]. by apply held_now.
      * right. exists (k (f w).2). split; [|done]. apply list_lookup_insert_eq. by eapply lookup_lt_Some.
    + right. exists m. split; [|done]. by rewrite list_lookup_insert_ne.
Qed.
(** A change says that the condition held, and so does a result that was not to be without it. *)
Lemma guarded_change i m0 c c' : start.2 !! i = Some m0 -> guarded same P m0 Q -> interleaves start c -> step_of i c c' ->
  ~ same c.1 c'.1 -> held start P c.
Proof using.
  intros H0 Hg Hi Hs Hn. destruct (guarded_pool i m0 c H0 Hg Hi) as [|(m & Hm & Hgm)]; [done|]. destruct Hs as [w l B f k Hl]. cbn in *.
  rewrite Hl in Hm. injection Hm as <-. destruct (Hgm w) as [Hp|[Hs _]]; [|done]. by apply held_now.
Qed.
Lemma guarded_result i m0 c a : start.2 !! i = Some m0 -> guarded same P m0 Q -> interleaves start c -> c.2 !! i = Some (Ret a) ->
  ~ Q a -> held start P c.
Proof using.
  intros H0 Hg Hi Ha Hn. destruct (guarded_pool i m0 c H0 Hg Hi) as [|(m & Hm & Hgm)]; [done|]. rewrite Ha in Hm. by injection Hm as <-.
Qed.
(** What is not so at first, and becomes so only after the condition held. *)
Lemma held_before (V : W -> Prop) : (forall w w', same w w' -> V w' -> V w) -> Forall (fun m => guarded same P m Q) start.2 -> ~ V start.1 ->
  forall c, interleaves start c -> V c.1 -> held start P c.
Proof using.
  intros Hv Hg H0. apply (rtc_ind_r (fun c => V c.1 -> held start P c)); [done|]. intros c c' Hi Hs IH Hc'. pose proof Hs as Hj.
  apply pool_step_of in Hj as [j Hj]. pose proof Hj as Hjj. destruct Hjj as [w l B f k Hl].
  assert (Hj0 : is_Some (start.2 !! j)).
  { apply lookup_lt_is_Some. replace (length start.2) with (length l); [by eapply lookup_lt_Some|].
    clear -Hi. enough (forall c, interleaves start c -> length c.2 = length start.2) as He by exact (He _ Hi). apply rtc_ind_r; [done|].
    intros c1 c2 _ Hs IH. rewrite <- IH. destruct Hs. cbn. by rewrite !List.length_app. }
  destruct Hj0 as [m0 H0m]. rewrite Forall_lookup in Hg. destruct (guarded_pool j m0 _ H0m (Hg _ _ H0m) Hi) as [Hh|(m & Hm & Hgm)].
  - eapply held_later; [by apply rtc_once|exact Hh].
  - cbn in Hm. rewrite Hl in Hm. injection Hm as <-. destruct (Hgm w) as [Hp|[Hsame _]].
    + eapply held_later; [by apply rtc_once|]. by apply held_now.
    + eapply held_later; [by apply rtc_once|]. apply IH. by eapply Hv.
Qed.
End Runs.

(** * Decisions *)

(** What [Ok] holds, if anything. *)
Definition ok_with {A} (R : A -> Prop) (r : res A) : Prop := forall a, r = Ok a -> R a.
Lemma ok_with_err {A} (R : A -> Prop) e : ok_with R (Err e).
Proof. done. Qed.
Lemma ok_with_ok {A} (R : A -> Prop) a : R a -> ok_with R (Ok a).
Proof. by intros Ha _ [= <-]. Qed.
#[local] Hint Resolve ok_with_err ok_with_ok : core.

Definition yes (key : string) (w : World) : Prop := exists t, check_cache (w_memory w) !! key = Some (true, t).

Section Decisions.
Context `{Env} (same : World -> World -> Prop) (P : World -> Prop).
Context (Hq : forall A (f : Z -> DB -> res A), steps_in same (query f)).

Lemma guarded_query {A} (f : Z -> DB -> res A) (R : A -> Prop) : (forall now w, P w \/ ok_with R (f now (w_db w))) ->
  guarded same P (query f) (ok_with R).
Proof using Hq.
  intros Hf w. destruct (Hf (time (w_tick w)) w) as [|Hr]; [by left|right]. split; [apply (Hq A f w)|]. cbn.
  by destruct (db_fault _) as [[e []]|].
Qed.
Lemma guarded_names {A} ctx (F : DB -> A) (R : A -> Prop) : (forall w, P w \/ R (F (w_db w))) ->
  guarded same P (wrap ctx (query (fun _ d => Ok (F d)))) (ok_with R).
Proof using Hq.
  intros HF. apply guarded_wrap. eapply guarded_mono; [apply (guarded_query (fun _ d => Ok (F d)) R)|].
  - intros now w. destruct (HF w) as [|Hr]; [by left|right]. by apply ok_with_ok.
  - intros [a|e] Ha; [by apply ok_with_ok, Ha|done].
Qed.
(** A test that comes out true where the condition holds. *)
Lemma guarded_test {A} ctx (F : DB -> A) (t : A -> bool) : (forall w, t (F (w_db w)) = true -> P w) ->
  guarded same P (wrap ctx (query (fun _ d => Ok (F d)))) (ok_with (fun a => t a = false)).
Proof using Hq. intros Ht. apply guarded_names. intros w. destruct (t (F (w_db w))) eqn:E; [by left; apply Ht|by right]. Qed.

Lemma guarded_super u : (forall w, is_super (w_db w) u -> P w) -> guarded same P (IsSuperAdmin u) (ok_with (fun b => b = false)).
Proof using Hq.
  intros Hs. eapply guarded_try; [apply (guarded_test _ _ (fun l => has_name l RoleSuperAdmin))| |].
  - intros w Hw. apply Hs. apply has_role in Hw as (r0 & r & H0 & Hp & Hr). exists r0, r. split; [by apply elem_of_global_roles|done].
  - done.
  - intros l Hl. by apply ok_with_ok.
Qed.
Lemma guarded_global u (t : list string -> bool) :
  (forall w, t (granted (w_db w) (closure (w_db w) (global_roles u (w_db w)))) = true -> P w) ->
  guarded same P (GetUserPermissions u) (ok_with (fun l => t l = false)).
Proof using Hq. intros Ht. by apply guarded_test. Qed.

Lemma guarded_RequireAny u perms : (forall w, is_super (w_db w) u -> P w) -> (forall w p, p ∈ perms -> grants (w_db w) (given_globally (w_db w) u) p -> P w) ->
  guarded same P (RequireAny u perms) (ok_with (fun b => b = false)).
Proof using Hq.
  intros Hs Hg. eapply guarded_try; [by apply guarded_super|done|]. intros isSuper ->.
  eapply guarded_try; [apply (guarded_global u (fun l => existsb (has_name l) perms))|done|].
  - intros w (p & Hp & Hn)%existsb_exists. apply (Hg w p); [by apply list_elem_of_In|]. by apply has_global.
  - intros l Hl. by apply ok_with_ok.
Qed.

Lemma guarded_Check u p st sid (R : bool -> Prop) : R false ->
  (forall key, guarded same P (answer key false) (ok_with R)) ->
  guarded same P (cached_check (checkCacheKey u p st sid)) (fun o => forall b, o = Some b -> R b) ->
  (forall w, permitted (w_db w) u p st sid -> P w) -> guarded same P (Check_ u p st sid) (ok_with R).
Proof using Hq.
  intros HR Hanswer Hhit HP. unfold Check_. destruct (_ || _); [apply ok_with_err|]. cbv zeta.
  eapply guarded_bind; [exact Hhit|]. intros [b|] Hb; [by apply ok_with_ok, Hb|].
  eapply guarded_try; [apply guarded_super; intros w Hw; apply HP; by left|done|]. intros isSuper ->.
  eapply guarded_try; [apply (guarded_global u (fun l => has_name l p))|done|].
  { intros w Hw%has_global. apply HP. by right; left. }
  intros l ->.
  assert (Hpart : forall (c : bool) ctx (F : DB -> list string),
    (forall w, c = true -> has_name (F (w_db w)) p = true -> P w) ->
    guarded same P (if c then wrap ctx (query (fun _ d => Ok (F d))) else Ret (Ok [])) (ok_with (fun l => has_name l p = false))).
  { intros c ctx F HF. destruct c; [|by apply ok_with_ok]. apply (guarded_test ctx F (fun l => has_name l p)). intros w. by apply HF. }
  eapply guarded_try; [apply Hpart|done|].
  { intros w [[H1 H2]%andb_true_iff H3]%andb_true_iff Hw%has_scoped. apply HP. right; right; left.
    split; [by apply str_empty_false, negb_true_iff|]. split; [by apply String.eqb_neq, negb_true_iff|]. split; [by apply str_empty_false, negb_true_iff|done]. }
  intros l2 ->. eapply guarded_try; [apply Hpart|done|].
  { intros w [H1 H2]%andb_true_iff Hw%has_workspace. apply HP. right; right; right.
    split; [by apply String.eqb_eq|]. split; [by apply str_empty_false, negb_true_iff|done]. }
  intros l3 ->. apply Hanswer.
Qed.
End Decisions.

(** * The answers that are kept *)

Section Kept.
Context `{Env} (key : string).
Definition no_new_yes (w w' : World) : Prop := yes key w' -> yes key w.

Lemma memory_in {A} (f : World -> World * A) : (forall w, w_memory (f w).1 = w_memory w) -> steps_in no_new_yes (atomic f).
Proof using. intros Hf. apply steps_in_atomic. intros w. unfold no_new_yes, yes. by rewrite Hf. Qed.
Lemma stmt_memory {A} (f : Z -> DB -> DB * res A) : steps_in no_new_yes (stmt f).
Proof using. apply memory_in. intros w. cbv beta zeta. destruct (f _ _). by destruct (db_fault _) as [[e []]|]. Qed.
Lemma tx_memory {A} (f : (nat -> string) -> Z -> DB -> res (DB * A)) : steps_in no_new_yes (in_tx f).
Proof using. apply memory_in. intros w. cbv beta zeta. destruct (f _ _ _) as [[d a]|e]; by destruct (db_fault _) as [[e' []]|]. Qed.
Lemma command_memory {A} (f : Z -> Redis -> Redis * res A) : steps_in no_new_yes (command f).
Proof using. apply memory_in. intros w. cbv beta zeta. destruct (f _ _). by destruct (redis_fault _) as [[e []]|]. Qed.
Lemma cache_in {A} (f : Z -> Memory -> Memory * A) : (forall now m t, check_cache (f now m).1 !! key = Some (true, t) -> check_cache m !! key = Some (true, t)) ->
  steps_in no_new_yes (locally f).
Proof using.
  intros Hf. apply steps_in_atomic. intros w [t Ht]. revert Ht. specialize (Hf (time (w_tick w)) (w_memory w) t). cbv beta zeta. destruct (f _ _) as [m a]. intros Ht. exists t. by apply Hf.
Qed.
Lemma InvalidateUserCache_memory u : steps_in no_new_yes (InvalidateUserCache u).
Proof using. apply cache_in. intros now m t. cbn. by intros [? _]%map_lookup_filter_Some. Qed.
Lemma InvalidateAllCache_memory : steps_in no_new_yes InvalidateAllCache.
Proof using. apply cache_in. intros now m t. cbn. by rewrite lookup_empty. Qed.
Lemma cached_check_memory k : steps_in no_new_yes (cached_check k).
Proof using. by apply cache_in. Qed.
Lemma answer_no_memory k : steps_in no_new_yes (answer k false).
Proof using.
  apply steps_in_bind; [|done]. apply cache_in. intros now m t. cbn. intros [Hl _]%map_lookup_filter_Some.
  by apply lookup_insert_Some in Hl as [[_ [=]]|[_ Hl]].
Qed.
End Kept.
Ltac memory_known := idtac;
  lazymatch goal with
  | |- steps_in _ (query _) => apply stmt_memory
  | |- steps_in _ (stmt _) => apply stmt_memory
  | |- steps_in _ (update _ _) => apply stmt_memory
  | |- steps_in _ (in_tx _) => apply tx_memory
  | |- steps_in _ (command _) => apply command_memory
  | |- steps_in _ (InvalidateUserCache _) => apply InvalidateUserCache_memory
  | |- steps_in _ InvalidateAllCache => apply InvalidateAllCache_memory
  end.
Ltac not_check f := lazymatch f with @Check_ => fail | _ => no_statement f end.
Ltac not_answer f := lazymatch f with @answer => fail | @IsSuperAdmin => fail | _ => no_statement f end.
Ltac memory_steps := steps_walk memory_known fail not_check.

(** Ids are keys, without a colon. *)
Definition plain_route (rt : Route) (u : string) : Prop :=
  plain u /\
  match rt with
  | RUpdateWorkspace id _ | RDeleteWorkspace id | RAddMember id _ | RUpdateMemberRole id _ _ | RRemoveMember id _
  | RAttachDatasource id _ | RDetachDatasource id _ => plain id
  | RInternalCheckPermission (Read b) =>
      plain (cp_UserID b) /\ plain (cp_ScopeType b) /\ plain (if str_empty (cp_ScopeID b) then cp_WorkspaceID b else cp_ScopeID b)
  | _ => True
  end.
(** No question about this permission in a workspace has the key of one that [handleAdminUpdateAccess] asks. *)
Definition apart_from_grants (p : string) : Prop :=
  forall ws sid, p +:+ String ":" (ScopeWorkspace +:+ String ":" ws) <> "datasource:grant_access:datasource:" +:+ sid.

Section Earned.
Context `{Env} (u0 p0 ws0 : string) (Hu0 : plain u0) (Hws0 : plain ws0) (Hp0 : apart_from_grants p0).
#[local] Abbreviation key := (checkCacheKey u0 p0 ScopeWorkspace ws0).
Definition earned (w : World) : Prop := permitted (w_db w) u0 p0 ScopeWorkspace ws0.
#[local] Abbreviation kept m := (guarded (no_new_yes key) earned m (fun _ => True)).

Lemma invalidate_each_memory redis l : steps_in (no_new_yes key) (invalidate_each redis l).
Proof using. induction l as [|u l IH]; cbn [invalidate_each]; [done|]. apply steps_in_try; [|intros _; exact IH]. memory_steps. Qed.
#[local] Hint Resolve invalidate_each_memory : steps.

Lemma Check_earned u p st sid : (key = checkCacheKey u p st sid -> u0 = u /\ p0 = p /\ ScopeWorkspace = st /\ ws0 = sid) -> kept (Check_ u p st sid).
Proof using.
  intros Hinj. destruct (decide (key = checkCacheKey u p st sid)) as [Hk|Hk].
  - destruct (Hinj Hk) as (<- & <- & <- & <-).
    eapply guarded_mono; [apply (guarded_Check _ _ (fun A f => stmt_memory key _) u0 p0 ScopeWorkspace ws0 (fun _ => True))|done]; [done| | |].
    + intros k. eapply guarded_mono; [apply guarded_steps, answer_no_memory|done].
    + eapply guarded_mono; [apply guarded_steps, cached_check_memory|done].
    + done.
  - apply guarded_steps. unfold Check_. destruct (_ || _); [done|]. cbv zeta. apply steps_in_bind; [apply cached_check_memory|].
    assert (Ha : forall b, steps_in (no_new_yes key) (answer (checkCacheKey u p st sid) b)).
    { intros b. apply steps_in_bind; [|done]. apply cache_in. intros now m t. cbn. intros [Hl _]%map_lookup_filter_Some. by rewrite lookup_insert_ne in Hl. }
    intros [b|]; [done|]. assert (Hs : steps_in (no_new_yes key) (IsSuperAdmin u)) by memory_steps.
    steps_walk memory_known ltac:(idtac; first [apply Ha|exact Hs]) not_answer.
Qed.
Lemma plain_key u p st sid : plain u -> plain st -> plain sid -> key = checkCacheKey u p st sid -> u0 = u /\ p0 = p /\ ScopeWorkspace = st /\ ws0 = sid.
Proof using Hu0 Hws0.
  intros Hu Hst Hs He. apply permKey_inj; [done..|]. unfold permKey. cbn. rewrite !app_nil_s. exact He.
Qed.
Lemma other_key u sid : plain u -> key <> checkCacheKey u "datasource:grant_access" ScopeDatasource sid.
Proof using Hu0 Hp0.
  intros Hu He. unfold checkCacheKey in He. cbn in He. apply plain_prefix in He as [_ He]; [|done|done]. by apply Hp0 in He.
Qed.
Lemma or_reply_earned {A} code (m : prog World (res A)) k : kept m -> (forall a, kept (k a)) -> kept (or_reply code m k).
Proof using. intros Hm Hk. eapply guarded_bind; [exact Hm|]. intros [a|e] _; [apply Hk|done]. Qed.
Lemma workspace_gate_earned perms ws u next : plain u -> plain ws -> steps_in (no_new_yes key) next -> kept (requireWorkspacePermission perms ws u next).
Proof using Hu0 Hws0.
  intros Hu Hws Hn. unfold requireWorkspacePermission, authenticated. destruct (str_empty u); [done|].
  induction perms as [|p perms IH]; cbn [any_permission]; [done|]. apply or_reply_earned; [by apply Check_earned, plain_key|].
  intros [|]; [by apply guarded_steps|exact IH].
Qed.
Lemma serve_earned h parse_time rt u : plain_route rt u -> kept (serve h parse_time rt u).
Proof using Hu0 Hws0 Hp0.
  intros [Hu Hr]. destruct rt; cbn [serve]; first [apply workspace_gate_earned; [done|done|memory_steps; done] | apply guarded_steps; memory_steps; done | idtac].
  - unfold requirePermission, authenticated, handleAdminUpdateAccess, requireContextUserID. destruct (str_empty u); [done|].
    apply or_reply_earned; [apply guarded_steps; memory_steps; done|]. intros ok. destruct (negb ok); [done|]. destruct b as [level|]; [|done]. cbn [decodeJSON].
    apply guarded_first; [memory_steps; done|]. intros [a|e]; [|done]. apply or_reply_earned; [apply Check_earned; intros He; by apply other_key in He|]. intros ok'.
    destruct (negb ok'); [done|]. apply guarded_steps. memory_steps; done.
  - unfold handleInternalCheckPermission. destruct b as [b|]; [|done]. cbn [decodeJSON]. destruct Hr as (H1 & H2 & H3). apply or_reply_earned; [by apply Check_earned, plain_key|]. done.
Qed.
End Earned.

(** * Who may do what *)

Definition may (u : string) (perms : list string) (d : DB) : Prop := is_super d u \/ exists p, p ∈ perms /\ grants d (given_globally d u) p.
Definition may_in (ws u : string) (perms : list string) (d : DB) : Prop := exists p, p ∈ perms /\ permitted d u p ScopeWorkspace ws.
Definition belongs (ws u : string) (d : DB) : Prop := is_super d u \/ is_Some (members d !! (ws, u)).
Definition owns (ws u : string) (d : DB) : Prop := exists w, workspaces d !! ws = Some w /\ ws_CreatedBy w = u.
(** The owner, or an administrator among the members. *)
Definition runs (ws u : string) (d : DB) : Prop := owns ws u d \/ exists name, member_role ws u d = Some name /\ name ∈ ["admin"; "super_admin"].
Definition shares_own (id u : string) (d : DB) : Prop := exists sh, shares d !! id = Some sh /\ sh_OwnerID sh = u.
(** A role that is not that of super administrators and grants nothing on the administration. *)
Definition ordinary_role (role : string) (d : DB) : Prop :=
  forall name, roles d !! role = Some name -> name <> RoleSuperAdmin /\
    forall pid p, (role, pid) ∈ role_permissions d -> permissions d !! pid = Some p -> p_Resource p <> "admin".
Definition may_give (role u : string) (d : DB) : Prop := ordinary_role role d \/ is_super d u.
(** Nobody who is a super administrator changes roles of their own. *)
Definition not_own_super (target u : string) (d : DB) : Prop := target <> u \/ ~ is_super d u.
Definition reaches (u ds level : string) (d : DB) : Prop := is_super d u \/ has_level d u ds (rank level).

(** A condition on the database, or that some of these permissions is held in the workspace: that answer may be one that was kept. *)
Inductive condition : Type := Db (P : DB -> Prop) | InWorkspace (ws : string) (perms : list string).
Definition holds (u : string) (c : condition) (d : DB) : Prop :=
  match c with Db P => P d | InWorkspace ws perms => may_in ws u perms d end.
Definition holds_or_kept (u : string) (c : condition) (w : World) : Prop :=
  holds u c (w_db w) \/ match c with Db _ => False | InWorkspace ws perms => exists p, p ∈ perms /\ yes (checkCacheKey u p ScopeWorkspace ws) w end.

Definition invites : list string := ["workspace:invite"; "admin:workspaces"].
Definition manages : list string := ["workspace:manage_datasources"; "admin:workspaces"].
(** What each route asks of the caller. *)
Definition authority (h : RBACHandlerDeps) (rt : Route) (u : string) : list condition :=
  match rt with
  | RCreateWorkspace _ => [Db (may u ["workspace:create"])]
  | RGetWorkspace id | RListMembers id | RListWorkspaceDatasources id => [Db (belongs id u)]
  | RUpdateWorkspace id _ | RDeleteWorkspace id => [InWorkspace id ["admin:workspaces"]; Db (owns id u)]
  | RAddMember id _ | RUpdateMemberRole id _ _ | RRemoveMember id _ => [InWorkspace id invites; Db (runs id u)]
  | RAttachDatasource id _ | RDetachDatasource id _ => [InWorkspace id manages; Db (runs id u)]
  | RCreateShare (Read b) =>
      match sr_WorkspaceID b with Some ws => [Db (fun d => is_Some (members d !! (ws, u)))] | None => [] end ++
      match resolver h with
      | Some resolve => [Db (fun d => exists ds, resolve (sr_ResourceType b) (sr_ResourceID b) = Ok ds /\ reaches u ds (datasourceLevelForPermission (sr_Permission b)) d)]
      | None => []
      end
  | RRevokeShare id => [Db (shares_own id u)]
  | RAdminListAccess _ | RAdminGrantAccess _ | RAdminUpdateAccess _ _ | RAdminRevokeAccess _ => [Db (may u ["datasource:grant_access"])]
  | RAdminListRoles _ | RAdminGetRolePermissions _ | RAdminSetRolePermissions _ _ | RAdminListPermissions _ => [Db (may u ["admin:roles"])]
  | RAdminAssignRole id (Read b) => [Db (may u ["admin:roles"]); Db (not_own_super id u); Db (may_give (rb_RoleID b) u)]
  | RAdminAssignRole id (Refused _) => [Db (may u ["admin:roles"]); Db (not_own_super id u)]
  | RAdminRemoveRole id role => [Db (may u ["admin:roles"]); Db (not_own_super id u); Db (may_give role u)]
  | RAdminListUsers _ | RAdminGetUser _ | RAdminGetUserRoles _ => [Db (may u ["admin:users"])]
  | RAdminUpdateUser id b => Db (may u ["admin:users"]) :: match b with Read false => [Db (fun _ => id <> u)] | _ => [] end
  | RAdminListAuditLog _ => [Db (may u ["admin:audit"])]
  | _ => []
  end.
(** The routes that change nothing but the log. *)
Definition only_reads (rt : Route) : bool :=
  match rt with
  | RCreateWorkspace _ | RUpdateWorkspace _ _ | RDeleteWorkspace _ | RAddMember _ _ | RUpdateMemberRole _ _ _ | RRemoveMember _ _
  | RAttachDatasource _ _ | RDetachDatasource _ _ | RCreateShare _ | RRevokeShare _ | RAdminGrantAccess _ | RAdminUpdateAccess _ _
  | RAdminRevokeAccess _ | RAdminSetRolePermissions _ _ | RAdminAssignRole _ _ | RAdminRemoveRole _ _ | RAdminUpdateUser _ _ => false
  | _ => true
  end.
Definition refused (r : Reply) : Prop := exists code content, r = Replied code content /\ 400 <= code.
Lemma refused_error code e : 400 <= code -> refused (writeError code e).
Proof. intros Hc. by eexists _, _. Qed.
#[local] Hint Extern 1 (refused (writeError _ _)) => apply refused_error; done : core.
#[local] Hint Extern 1 (refused insufficient) => apply refused_error; done : core.

(** The tables, the log apart. *)
Definition tables_kept (d d' : DB) : Prop := set_audit_log [] d = set_audit_log [] d'.
#[global] Instance tables_kept_preorder : PreOrder tables_kept.
Proof. split; [done|]. intros d1 d2 d3 H1 H2. unfold tables_kept in *. by rewrite H1. Qed.

Section Authority.
Context `{Env}.
#[local] Abbreviation quiet m := (steps_in (db_in tables_kept) m).

Lemma AuditLog_quiet u action resource id ip : quiet (AuditLog u action resource id ip).
Proof using.
  apply steps_in_wrap, tx_in; [exact _|]. intros ids now d d' a Ha. destruct (negb _); [done|]. destruct (match u with Some _ => _ | None => _ end); [done|].
  by injection Ha as <- _.
Qed.
#[local] Hint Resolve AuditLog_quiet : steps.
Ltac quiet_steps := unfold db_in; steps_by ltac:(idtac; apply AuditLog_quiet).
Lemma query_quiet : forall A (f : Z -> DB -> res A), quiet (query f).
Proof using. intros A f. by apply query_in. Qed.

(** ** Gates *)

Section Under.
Context (P : World -> Prop).
#[local] Abbreviation lets m := (guarded (db_in tables_kept) P m refused).

Lemma or_reply_lets {A} (R : A -> Prop) code (m : prog World (res A)) k : 400 <= code ->
  guarded (db_in tables_kept) P m (ok_with R) -> (forall a, R a -> lets (k a)) -> lets (or_reply code m k).
Proof using.
  intros Hc Hm Hk. eapply guarded_bind; [exact Hm|]. intros [a|e] Ha; [by apply Hk, Ha|]. by apply refused_error.
Qed.
Lemma or_reply_quiet {A} code (m : prog World (res A)) k : 400 <= code -> quiet m -> (forall a, lets (k a)) -> lets (or_reply code m k).
Proof using.
  intros Hc Hm Hk. apply or_reply_lets with (fun _ => True); [done| |by intros]. eapply guarded_mono; [by apply guarded_steps|]. by intros r _ a _.
Qed.
Lemma authenticated_lets u next : (u <> "" -> lets next) -> lets (authenticated u next).
Proof using. intros Hn. unfold authenticated. destruct (str_empty u) eqn:E; [by apply refused_error|]. apply Hn. by apply str_empty_false. Qed.
Lemma context_lets u next : (u <> "" -> lets next) -> lets (requireContextUserID u next).
Proof using. intros Hn. unfold requireContextUserID. destruct (str_empty u) eqn:E; [by apply refused_error|]. apply Hn. by apply str_empty_false. Qed.
Lemma decode_lets {A} (b : Decoded A) k : (forall a, b = Read a -> lets (k a)) -> lets (decodeJSON b k).
Proof using. intros Hk. destruct b as [a|[]]; cbn [decodeJSON]; [by apply Hk|by apply refused_error|by apply refused_error]. Qed.

Lemma permission_earns perms u next : (forall w, may u perms (w_db w) -> P w) -> lets (requirePermission perms u next).
Proof using.
  intros Hp. apply authenticated_lets. intros _. apply or_reply_lets with (fun b => b = false); [done| |].
  - apply guarded_RequireAny; [apply query_quiet| |]; intros w; [|intros p Hin]; intros Hw; apply Hp; [by left|right; by exists p].
  - intros b ->. by apply refused_error.
Qed.
Lemma permission_passes perms u next : (u <> "" -> lets next) -> lets (requirePermission perms u next).
Proof using.
  intros Hn. apply authenticated_lets. intros Hu. apply or_reply_quiet; [done|quiet_steps; done|]. intros [|]; cbn [negb]; [by apply Hn|by apply refused_error].
Qed.
Lemma check_earns u p st sid : (forall w, permitted (w_db w) u p st sid -> P w) -> (forall w, yes (checkCacheKey u p st sid) w -> P w) ->
  guarded (db_in tables_kept) P (Check_ u p st sid) (ok_with (fun b => b = false)).
Proof using.
  intros Hp Hy. apply guarded_Check; [apply query_quiet|done| | |exact Hp].
  - intros k. eapply guarded_bind; [apply guarded_steps, locally_in; exact _|]. intros [] _. by apply ok_with_ok.
  - intros w. cbn. destruct (check_cache (w_memory w) !! _) as [[b t]|] eqn:E; [|right; by split].
    destruct (_ <? checkTTL); [|right; by split]. destruct b; [|right; split; [done|by intros b [= <-]]]. left. apply Hy. by exists t.
Qed.
Lemma workspace_earns perms ws u next : (forall w, holds_or_kept u (InWorkspace ws perms) w -> P w) -> lets (requireWorkspacePermission perms ws u next).
Proof using.
  intros Hp. apply authenticated_lets. intros _.
  assert (Hall : forall ps, (forall p, p ∈ ps -> p ∈ perms) -> lets (any_permission ws u ps next)); [|by apply Hall].
  induction ps as [|p ps IH]; intros Hps; cbn [any_permission]; [by apply refused_error|].
  apply or_reply_lets with (fun b => b = false); [done| |].
  2: { intros b ->. apply IH. intros p' Hp'. apply Hps. set_solver. }
  apply check_earns; intros w Hw; apply Hp; [left|right]; exists p; (split; [apply Hps; set_solver|done]).
Qed.
Lemma workspace_passes perms ws u next : lets next -> lets (requireWorkspacePermission perms ws u next).
Proof using.
  intros Hn. apply authenticated_lets. intros _. induction perms as [|p perms IH]; cbn [any_permission]; [by apply refused_error|].
  apply or_reply_quiet; [done|quiet_steps; done|]. by intros [|].
Qed.
Lemma membership_earns ws u next : (forall w, belongs ws u (w_db w) -> P w) -> lets (requireWorkspaceMembership ws u next).
Proof using.
  intros Hp. apply authenticated_lets. intros _.
  eapply guarded_bind; [apply guarded_super; [apply query_quiet|]; intros w Hw; apply Hp; by left|].
  intros isSuper Hs. assert (Hm : lets (or_reply StatusInternalServerError (IsMember ws u) (fun member => if negb member then Ret insufficient else next))).
  { apply or_reply_lets with (fun b => b = false); [done| |intros b ->; by apply refused_error]. apply guarded_query; [apply query_quiet|].
    intros now w. case_bool_decide as Hb; [left; apply Hp; by right|right; by apply ok_with_ok]. }
  destruct isSuper as [[|]|e]; [by specialize (Hs true eq_refl)|exact Hm|exact Hm].
Qed.

(** ** Guards of the handlers *)

(** No [Ok], unless the condition held. *)
#[local] Abbreviation earns m := (guarded (db_in tables_kept) P m (ok_with (fun _ => False))).
Lemma try_earns {A B} (m : prog World (res A)) (k : A -> prog World (res B)) : earns m -> earns (or_return m k).
Proof using. intros Hm. eapply guarded_try; [exact Hm|done|done]. Qed.
Lemma try_then_earns {A B} (m : prog World (res A)) (k : A -> prog World (res B)) : quiet m -> (forall a, earns (k a)) -> earns (or_return m k).
Proof using. intros Hm Hk. apply guarded_first; [exact Hm|]. intros [a|e]; [apply Hk|apply ok_with_err]. Qed.
Lemma wrap_earns {A} ctx (m : prog World (res A)) : earns m -> earns (wrap ctx m).
Proof using. intros Hm. apply guarded_wrap. eapply guarded_mono; [exact Hm|]. intros [a|e] Ha; [by destruct (Ha a)|apply ok_with_err]. Qed.
Lemma reply_earns {A} code (m : prog World (res A)) k : 400 <= code -> earns m -> lets (or_reply code m k).
Proof using. intros Hc Hm. by apply or_reply_lets with (fun _ => False). Qed.

Lemma row_test {A} e (o : DB -> option A) (R : A -> Prop) : (forall w a, o (w_db w) = Some a -> P w \/ R a) ->
  guarded (db_in tables_kept) P (query (fun _ d => row_or e (o d))) (ok_with R).
Proof using.
  intros Ho. apply guarded_query; [apply query_quiet|]. intros now w. destruct (o (w_db w)) as [a|] eqn:E; [|by right].
  destruct (Ho w a E) as [|Ha]; [by left|right]. by apply ok_with_ok.
Qed.
Lemma owner_earns ws u : (forall w, owns ws u (w_db w) -> P w) -> earns (requireOwner ws u).
Proof using.
  intros Hp. unfold requireOwner, Workspace_Get. eapply guarded_try; [apply (row_test _ _ (fun w => ws_CreatedBy w <> u))|done|].
  - intros w r Hr. destruct (decide (ws_CreatedBy r = u)) as [He|]; [left|by right]. apply Hp. by exists r.
  - intros r Hr. apply String.eqb_neq in Hr as ->. apply ok_with_err.
Qed.
Lemma runner_earns ws u : (forall w, runs ws u (w_db w) -> P w) -> earns (requireOwnerOrAdmin ws u).
Proof using.
  intros Hp. unfold requireOwnerOrAdmin, Workspace_Get. eapply guarded_try; [apply (row_test _ _ (fun w => ws_CreatedBy w <> u))|done|].
  - intros w r Hr. destruct (decide (ws_CreatedBy r = u)) as [He|]; [left|by right]. apply Hp. left. by exists r.
  - intros r Hr. apply String.eqb_neq in Hr as ->. eapply guarded_try; [apply (row_test _ _ (fun n => n ∉ ["admin"; "super_admin"]))|done|].
    + intros w n Hn. destruct (decide (n ∈ ["admin"; "super_admin"])) as [Hin|]; [left|by right]. apply Hp. right. by exists n.
    + intros n Hn. rewrite (proj2 (String.eqb_neq n "admin")), (proj2 (String.eqb_neq n "super_admin")) by (intros ->; apply Hn; set_solver). apply ok_with_err.
Qed.
Lemma deleter_earns ws u : (forall w, owns ws u (w_db w) -> P w) -> earns (Workspace_Delete ws u).
Proof using.
  intros Hp. unfold Workspace_Delete, Workspace_Get. eapply guarded_try; [apply (row_test _ _ (fun w => ws_CreatedBy w <> u))|done|].
  - intros w r Hr. destruct (decide (ws_CreatedBy r = u)) as [He|]; [left|by right]. apply Hp. by exists r.
  - intros r Hr. apply String.eqb_neq in Hr as ->. apply ok_with_err.
Qed.
Lemma revoker_earns id u : (forall w, shares_own id u (w_db w) -> P w) -> earns (Share_Revoke id u).
Proof using.
  intros Hp. unfold Share_Revoke.
  eapply guarded_try; [apply (row_test _ (fun d => match shares d !! id with Some sh => Some (sh_OwnerID sh) | None => None end) (fun o => o <> u))|done|].
  - intros w o Ho. destruct (decide (o = u)) as [->|]; [left|by right]. apply Hp. destruct (shares (w_db w) !! id) as [sh|] eqn:E; [|done].
    injection Ho as Ho. by exists sh.
  - intros o Ho. apply String.eqb_neq in Ho as ->. apply ok_with_err.
Qed.

Lemma direct_has u ds d l n : direct_level u ds d = Some l -> n <= rank l -> has_level d u ds n.
Proof using.
  unfold direct_level. intros Hl Hn. destruct (select_one _ _) as [a|] eqn:Ea; [|done]. injection Hl as <-.
  apply select_one_Some in Ea as (k & Hk & Hp). apply andb_true_iff in Hp as [H1%String.eqb_eq H2%String.eqb_eq]. left. by exists k, a.
Qed.
Lemma best_has u ds d l n : best_level (workspace_levels u ds d) = Some l -> n <= rank l -> has_level d u ds n.
Proof using.
  intros Hl Hn. pose proof (best_level_spec (workspace_levels u ds d)) as Hs. rewrite Hl in Hs. destruct Hs as [Hin _].
  apply elem_of_workspace_levels in Hin as (ws & Hws & Hm). right. by exists ws, l.
Qed.
Lemma access_earns u ds level : (forall w, reaches u ds level (w_db w) -> P w) -> earns (CheckAccess u ds level).
Proof using.
  intros Hp. unfold CheckAccess. destruct (negb _); [apply ok_with_err|].
  eapply guarded_bind; [apply guarded_super; [apply query_quiet|]; intros w Hw; apply Hp; by left|].
  set (t := fun o : option string => match o with Some l => levelSatisfies l level | None => false end). intros isSuper Hs.
  assert (Ht : forall w o, (o = direct_level u ds (w_db w) \/ o = best_level (workspace_levels u ds (w_db w))) -> t o = true -> P w).
  { intros w o Ho Hb. apply Hp. right. destruct o as [l|]; [|done]. apply Z.leb_le in Hb. destruct Ho as [Ho|Ho]; symmetry in Ho;
      [by eapply direct_has|by eapply best_has]. }
  set (rest := or_return _ _). assert (Hr : earns rest).
  { eapply guarded_try; [apply (guarded_test _ _ query_quiet _ _ t); intros w Hb; eapply Ht; [by left|exact Hb]|apply ok_with_err|]. intros o Ho.
    change (earns (if t o then Ret (Ok tt) else try* workspaceLevel := wrap "check workspace access" (query (fun _ d => Ok (best_level (workspace_levels u ds d)))) in
      if t workspaceLevel then Ret (Ok tt) else Ret (Err ErrDatasourceAccessDenied))). rewrite Ho.
    eapply guarded_try; [apply (guarded_test _ _ query_quiet _ _ t); intros w Hb; eapply Ht; [by right|exact Hb]|apply ok_with_err|].
    intros o' ->. apply ok_with_err. }
  destruct isSuper as [[|]|e]; [by specialize (Hs true eq_refl)|exact Hr|exact Hr].
Qed.

(** Separation of duties. *)
Lemma auditSoD_quiet h u : quiet (auditSoD h u).
Proof using. quiet_steps; done. Qed.
Lemma sod_earns h u guard next : earns guard -> lets (or_sod h u guard next).
Proof using.
  intros Hg. unfold or_sod. eapply guarded_bind; [exact Hg|]. intros [[]|e] Ha; [by destruct (Ha tt)|].
  apply guarded_first; [apply auditSoD_quiet|]. intros _. by apply refused_error.
Qed.
Lemma sod_passes h u guard next : quiet guard -> lets next -> lets (or_sod h u guard next).
Proof using.
  intros Hg Hn. unfold or_sod. apply guarded_first; [exact Hg|]. intros [[]|e]; [exact Hn|].
  apply guarded_first; [apply auditSoD_quiet|]. intros _. by apply refused_error.
Qed.
Lemma roles_name_super d u : has_name (role_names d (closure d (global_roles u d))) RoleSuperAdmin = true <-> is_super d u.
Proof using. rewrite has_role. unfold is_super. by setoid_rewrite elem_of_global_roles. Qed.
Lemma self_earns u action : u <> "" -> (forall w, ~ is_super (w_db w) u -> P w) -> earns (EnforceSelfModificationGuard u u action).
Proof using.
  intros Hu Hp. unfold EnforceSelfModificationGuard. rewrite (proj2 (str_empty_false u) Hu), String.eqb_refl. cbn [negb orb andb].
  destruct (String.eqb action "user.deactivate"); [apply ok_with_err|].
  eapply guarded_try; [apply (guarded_names _ _ query_quiet _ _ (fun l => has_name l RoleSuperAdmin = true))|apply ok_with_err|].
  - intros w. destruct (has_name _ _) eqn:E; [by right|left]. apply Hp. rewrite <- roles_name_super. by rewrite E.
  - intros l ->. apply ok_with_err.
Qed.
Lemma privileged_earns u role : (forall w, may_give role u (w_db w) -> P w) -> earns (EnforcePrivilegedRoleAssignmentGuard u role).
Proof using.
  intros Hp. unfold EnforcePrivilegedRoleAssignmentGuard.
  eapply guarded_try; [apply (guarded_names _ _ query_quiet _ _ (fun b => b = true))|apply ok_with_err|].
  - intros w. set (b := match roles (w_db w) !! role with None => false | Some _ => _ end). destruct b eqn:E; [by right|left]. apply Hp. left.
    intros name Hn. subst b. rewrite Hn in E. apply orb_false_iff in E as [E1 E2]. split; [by apply String.eqb_neq|]. intros pid p Hin Hpm Hr.
    apply not_true_iff_false in E2. apply E2, existsb_exists. exists (role, pid). split; [by apply list_elem_of_In, elem_of_elements|].
    cbn [fst snd]. by rewrite String.eqb_refl, Hpm, Hr.
  - intros b ->. cbn [negb]. eapply guarded_try; [apply (guarded_names _ _ query_quiet _ _ (fun l => has_name l RoleSuperAdmin = false))|apply ok_with_err|].
    + intros w. destruct (has_name _ _) eqn:E; [left|by right]. apply Hp. right. by apply roles_name_super.
    + intros l ->. apply ok_with_err.
Qed.

(** Sharing. *)
Lemma share_earns resolve u rt rid sw ws perm :
  (forall w r, resolve = Some r -> (exists ds, r rt rid = Ok ds /\ reaches u ds (datasourceLevelForPermission perm) (w_db w)) -> P w) -> resolve <> None ->
  earns (Share_ resolve u rt rid sw ws perm).
Proof using.
  intros Hp Hr. unfold Share_. destruct (_ || _); [apply ok_with_err|]. destruct (_ && _); [apply ok_with_err|]. destruct (negb _); [apply ok_with_err|].
  apply try_earns. destruct resolve as [r|]; [|done]. destruct (r rt rid) as [ds|e] eqn:E; [|apply ok_with_err]. apply wrap_earns, access_earns.
  intros w Hw. apply (Hp w r eq_refl). by exists ds.
Qed.
Lemma share_in_earns resolve u rt rid sw ws perm : (forall w, is_Some (members (w_db w) !! (ws, u)) -> P w) -> earns (Share_ resolve u rt rid sw (Some ws) perm).
Proof using.
  intros Hp. unfold Share_. destruct (_ || _); [apply ok_with_err|]. destruct (_ && _); [apply ok_with_err|]. destruct (negb _); [apply ok_with_err|].
  apply try_then_earns; [destruct resolve as [r|]; [destruct (r rt rid)|]; quiet_steps; done|]. intros _.
  apply try_earns. apply guarded_try with (fun b => b = false); [|by intros|].
  - apply guarded_wrap. eapply guarded_mono; [apply (guarded_query _ _ query_quiet _ (fun b => b = false))|].
    + intros now w. case_bool_decide as Hb; [left; by apply Hp|right; by apply ok_with_ok].
    + intros [b|e] Hb; [by apply ok_with_ok, Hb|apply ok_with_err].
  - intros b ->. apply ok_with_err.
Qed.
End Under.

(** ** Routes *)

#[local] Abbreviation lets P m := (guarded (db_in tables_kept) P m refused).
Ltac inside :=
  first [apply context_lets; intros ? | apply authenticated_lets; intros ? | apply decode_lets; intros ? ->; repeat case_match | apply reply_earns; [done|]].
(** A route whose condition is that somebody else is meant, or else is for its handler. *)
Lemma others_roles P perms u id next : (forall w, id <> u -> P w) -> (u <> "" -> id = u -> lets P next) -> lets P (requirePermission perms u next).
Proof using.
  intros Hne Heq. destruct (decide (id = u)) as [He|He]; [apply permission_passes; intros Hu; by apply Heq|]. apply permission_earns. intros w _. by apply Hne.
Qed.
Lemma serve_guarded h parse_time rt u c : c ∈ authority h rt u ->
  guarded (db_in tables_kept) (holds_or_kept u c) (serve h parse_time rt u) refused.
Proof using.
  intros Hc. assert (Hnow : forall c w, holds u c (w_db w) -> holds_or_kept u c w) by (intros; by left).
  destruct rt; cbn [authority serve] in *; try (by apply not_elem_of_nil in Hc).
  all: try (apply list_elem_of_singleton in Hc as ->; first [apply permission_earns | apply membership_earns]; intros w Hw; by apply Hnow).
  all: try (apply elem_of_cons in Hc as [->|Hc]; [by apply workspace_earns|apply list_elem_of_singleton in Hc as ->; apply workspace_passes]).
  - unfold handleUpdateWorkspace. repeat inside. apply try_earns, owner_earns. intros w Hw. by apply Hnow.
  - unfold handleDeleteWorkspace. repeat inside. apply deleter_earns. intros w Hw. by apply Hnow.
  - unfold handleAddMember. repeat inside. apply try_earns, runner_earns. intros w Hw. by apply Hnow.
  - unfold handleUpdateMemberRole. repeat inside. apply try_earns, runner_earns. intros w Hw. by apply Hnow.
  - unfold handleRemoveMember. repeat inside. apply try_earns, runner_earns. intros w Hw. by apply Hnow.
  - unfold handleAttachDatasource. repeat inside. apply try_earns, runner_earns. intros w Hw. by apply Hnow.
  - unfold handleDetachDatasource. repeat inside. apply try_earns, runner_earns. intros w Hw. by apply Hnow.
  - unfold handleCreateShare. destruct b as [b|]; [|by apply not_elem_of_nil in Hc]. repeat inside. apply elem_of_app in Hc as [Hc|Hc].
    + destruct (sr_WorkspaceID b) as [ws|]; [|by apply not_elem_of_nil in Hc]. apply list_elem_of_singleton in Hc as ->. apply share_in_earns.
      intros w Hw. by apply Hnow.
    + destruct (resolver h) as [r|]; [|by apply not_elem_of_nil in Hc]. apply list_elem_of_singleton in Hc as ->. apply share_earns; [|done].
      intros w r' [= <-] Hw. by apply Hnow.
  - apply list_elem_of_singleton in Hc as ->. unfold handleRevokeShare. repeat inside. apply revoker_earns. intros w Hw. by apply Hnow.
  - assert (Hc' : c = Db (may u ["admin:roles"]) \/ c = Db (not_own_super id u) \/ exists b', b = Read b' /\ c = Db (may_give (rb_RoleID b') u)).
    { destruct b as [b|]; set_unfold in Hc; naive_solver. }
    destruct Hc' as [->|[->|(b' & -> & ->)]].
    + apply permission_earns. intros w Hw. by apply Hnow.
    + apply others_roles with (id := id); [intros w Hw; apply Hnow; by left|]. intros Hu ->. apply authenticated_lets. intros _. apply sod_earns, self_earns; [done|].
      intros w Hw. apply Hnow. by right.
    + apply permission_passes. intros Hu. unfold handleAdminAssignRole. repeat inside. apply sod_passes; [quiet_steps; done|]. cbn [decodeJSON].
      apply sod_earns, privileged_earns. intros w Hw. by apply Hnow.
  - set_unfold in Hc. destruct Hc as [->|[->|[->|[]]]].
    + apply permission_earns. intros w Hw. by apply Hnow.
    + apply others_roles with (id := id); [intros w Hw; apply Hnow; by left|]. intros Hu ->. apply sod_earns, self_earns; [done|]. intros w Hw. apply Hnow. by right.
    + apply permission_passes. intros Hu. apply sod_passes; [quiet_steps; done|]. apply sod_earns, privileged_earns. intros w Hw. by apply Hnow.
  - apply elem_of_cons in Hc as [->|Hc]; [apply permission_earns; intros w Hw; by apply Hnow|].
    destruct b as [[]|]; try (by apply not_elem_of_nil in Hc). apply list_elem_of_singleton in Hc as ->.
    apply others_roles with (id := id); [intros w Hw; by apply Hnow|]. intros Hu ->. unfold handleAdminUpdateUser. cbn [decodeJSON negb].
    apply sod_earns. unfold EnforceSelfModificationGuard. rewrite (proj2 (str_empty_false u) Hu), String.eqb_refl. apply ok_with_err.
Qed.

End Authority.

(** * Requests side by side *)

(** A request on a route, and who makes it. *)
Definition requests `{Env} (h : RBACHandlerDeps) (parse_time : string -> res Z) (l : list (Route * string)) : list (prog World Reply) :=
  map (fun x => serve h parse_time x.1 x.2) l.

Section Together.
Context `{Env} (h : RBACHandlerDeps) (parse_time : string -> res Z).

Lemma serve_reads rt u : only_reads rt = true -> steps_in (db_in tables_kept) (serve h parse_time rt u).
Proof using.
  intros Hr. destruct rt; try discriminate Hr; cbn [serve]; unfold db_in; steps_by ltac:(idtac; apply AuditLog_quiet); try done.
Qed.

Context (l : list (Route * string)) (w0 : World) (Hcache : check_cache (w_memory w0) = ∅) (Hplain : Forall (fun x => plain_route x.1 x.2) l).
#[local] Abbreviation start := (w0, requests h parse_time l).

Lemma request_at i rt u : l !! i = Some (rt, u) -> start.2 !! i = Some (serve h parse_time rt u).
Proof using. intros Hi. cbn. unfold requests. by rewrite list_lookup_fmap, Hi. Qed.
Lemma kept_was_earned u p ws c : plain u -> plain ws -> apart_from_grants p -> interleaves start c -> yes (checkCacheKey u p ScopeWorkspace ws) c.1 ->
  held start (fun w => permitted (w_db w) u p ScopeWorkspace ws) c.
Proof using Hcache Hplain.
  intros Hu Hws Hp Hi Hy. apply (held_before (no_new_yes (checkCacheKey u p ScopeWorkspace ws)) (earned u p ws) (fun _ => True) start (yes (checkCacheKey u p ScopeWorkspace ws))); [done| |cbn|exact Hi|exact Hy].
  - cbn. unfold requests. apply Forall_forall. intros m Hm. apply list_elem_of_fmap in Hm as ([rt u'] & -> & Hin). rewrite Forall_forall in Hplain.
    apply serve_earned; [done..|]. by apply (Hplain _ Hin).
  - intros [t Ht]. by rewrite Hcache, lookup_empty in Ht.
Qed.
Lemma held_holds rt u cond c : (rt, u) ∈ l -> cond ∈ authority h rt u -> interleaves start c -> held start (holds_or_kept u cond) c ->
  held start (fun w => holds u cond (w_db w)) c.
Proof using Hcache Hplain.
  intros Hin Hc Hi (c0 & H0 & H1 & [Hh|Hk]); [by exists c0|]. destruct cond as [P|ws perms]; [done|]. destruct Hk as (p & Hp & Hy).
  pose proof Hplain as Hpl. rewrite Forall_forall in Hpl. destruct (Hpl _ Hin) as [Hu Hr]. cbn [fst snd] in Hu, Hr.
  assert (Hws : plain ws /\ apart_from_grants p).
  { clear -Hc Hr Hp. destruct rt; cbn [authority] in Hc; repeat case_match; unfold invites, manages in *; set_unfold in Hc;
      destruct_or?; simplify_eq; try done; (split; [exact Hr|]);
      repeat match goal with Hp : p ∈ _ |- _ => set_unfold in Hp; destruct_or? end; subst p; intros ws' sid' He; discriminate He. }
  destruct Hws as [Hws Hp']. destruct (kept_was_earned u p ws c0 Hu Hws Hp' H0 Hy) as (c1 & H2 & H3 & Hpm).
  exists c1. split; [done|]. split; [by etransitivity|]. by exists p.
Qed.

(** C7: However requests to the administration of the authentication service interleave, whoever changes a table
    (the log apart) or gets an answer that is no refusal held, at some moment of the run before, all
    that the route asks: the permission everywhere or in the workspace - also when the check was
    answered from the cache -, the membership or the ownership, a role that is not privileged
    unless a super administrator gives it, and not their own account where that is forbidden.
    Routes that read change nothing but the log. *)
Theorem administration_authorised c i rt u : interleaves start c -> l !! i = Some (rt, u) ->
  (forall c', step_of i c c' -> ~ tables_kept (w_db c.1) (w_db c'.1) ->
     only_reads rt = false /\ Forall (fun cond => held start (fun w => holds u cond (w_db w)) c) (authority h rt u)) /\
  (forall code content, c.2 !! i = Some (Ret (Replied code content)) -> code < 400 ->
     Forall (fun cond => held start (fun w => holds u cond (w_db w)) c) (authority h rt u)).
Proof using Hcache Hplain.
  intros Hi Hl. pose proof (request_at i rt u Hl) as H0. assert (Hin : (rt, u) ∈ l) by (by eapply list_elem_of_lookup_2). split.
  - intros c' Hs Hn. split.
    + destruct (only_reads rt) eqn:Er; [|done]. exfalso.
      destruct (guarded_change (db_in tables_kept) (fun _ => False) (fun _ => True) start i _ c c' H0) as (c0 & _ & _ & []); [|done..].
      by apply guarded_steps, serve_reads.
    + apply Forall_forall. intros cond Hc. apply (held_holds rt); [done..|].
      by apply (guarded_change (db_in tables_kept) _ refused start i _ c c' H0); [by apply serve_guarded|..].
  - intros code content Hr Hcode. apply Forall_forall. intros cond Hc. apply (held_holds rt); [done..|].
    apply (guarded_result (db_in tables_kept) _ refused start i _ c (Replied code content) H0); [by apply serve_guarded|done|done|].
    intros (code' & content' & [= <- <-] & Hge). lia.
Qed.
End Together.

(** * The gates of the other services, and this one behind them *)

Section Answers.
Context `{Env} (h : RBACHandlerDeps) (parse_time : string -> res Z).

Definition yes_reply : Reply := Replied StatusOK (CAllowed true None).
Lemma access_answer P b u : (forall w, reaches (cd_UserID b) (cd_DatasourceID b) (level_or_read (cd_Level b)) (w_db w) -> P w) ->
  guarded (db_in tables_kept) P (serve h parse_time (RInternalCheckDSAccess (Read b)) u) (fun r => r <> yes_reply).
Proof using.
  intros Hp. cbn [serve handleInternalCheckDSAccess decodeJSON]. eapply guarded_bind; [by apply access_earns|]. intros [[]|e] Ha; [by destruct (Ha tt)|].
  unfold writeDatasourceAccessCheckError. by destruct (errors_Is _ _).
Qed.
Lemma permission_answer P user p ws u : (forall w, permitted (w_db w) user p ScopeWorkspace ws -> P w) ->
  (forall w, yes (checkCacheKey user p ScopeWorkspace ws) w -> P w) ->
  guarded (db_in tables_kept) P (serve h parse_time (RInternalCheckPermission (Read (mkCheckPermission user p ScopeWorkspace ws ""))) u) (fun r => r <> yes_reply).
Proof using.
  intros Hp Hy. cbn [serve handleInternalCheckPermission decodeJSON cp_UserID cp_Permission cp_ScopeType cp_ScopeID cp_WorkspaceID].
  replace (if str_empty ws then "" else ws) with ws by (destruct (str_empty ws) eqn:E; [by apply str_empty_spec in E|done]).
  eapply guarded_bind; [by apply check_earns|]. intros [b|e] Hb; [|by intros ?]. by rewrite (Hb b eq_refl).
Qed.
End Answers.

Section Composition.
Context `{GateEnv} `{Env} (h : RBACHandlerDeps) (parse_time : string -> res Z).
(** A run of the authentication service, whose cache is empty at first. *)
Context (l : list (Route * string)) (w0 : World) (Hcache : check_cache (w_memory w0) = ∅) (Hplain : Forall (fun x => plain_route x.1 x.2) l).
#[local] Abbreviation start := (w0, requests h parse_time l).
(** Where it replies yes to a request. *)
Definition replies_yes (rt : Route) : Prop :=
  exists i u c, l !! i = Some (rt, u) /\ interleaves start c /\ c.2 !! i = Some (Ret yes_reply).
(** An answer that decodes as a yes is the reply of the service to that request. *)
Definition answered_by_service : Prop := forall t c resp, Do t c = Ok resp -> StatusCode resp = StatusOK -> decode_allowed (AnswerBody resp) = Ok true ->
  (forall u d lv, c = ds_call u d lv -> replies_yes (RInternalCheckDSAccess (Read (mkCheckDSAccess u d lv)))) /\
  (forall u p ws, c = perm_call u p "workspace" ws -> replies_yes (RInternalCheckPermission (Read (mkCheckPermission u p ScopeWorkspace ws "")))).

(** At some moment of the run of the service. *)
Definition once_there (P : DB -> Prop) : Prop := exists c, interleaves start c /\ P (w_db c.1).
Lemma yes_access u d lv : replies_yes (RInternalCheckDSAccess (Read (mkCheckDSAccess u d lv))) -> once_there (reaches u d (level_or_read lv)).
Proof using.
  intros (i & caller & c & Hi & Hc & Hr). pose proof (request_at h parse_time l w0 i _ _ Hi) as H0'.
  destruct (guarded_result (db_in tables_kept) (fun w => reaches u d (level_or_read lv) (w_db w)) (fun r => r <> yes_reply) start i _ c yes_reply H0')
    as (c0 & H1 & _ & Hp); [by apply access_answer|done|done|by intros Hn|]. by exists c0.
Qed.
Lemma yes_permission u p ws : plain u -> plain ws -> apart_from_grants p ->
  replies_yes (RInternalCheckPermission (Read (mkCheckPermission u p ScopeWorkspace ws ""))) -> once_there (fun d => permitted d u p ScopeWorkspace ws).
Proof using Hcache Hplain.
  intros Hu Hws Hp (i & caller & c & Hi & Hc & Hr). pose proof (request_at h parse_time l w0 i _ _ Hi) as H0'.
  destruct (guarded_result (db_in tables_kept) (fun w => permitted (w_db w) u p ScopeWorkspace ws \/ yes (checkCacheKey u p ScopeWorkspace ws) w)
    (fun r => r <> yes_reply) start i _ c yes_reply H0') as (c0 & H1 & _ & [Hpm|Hy]); [by apply permission_answer; [left|right]|done|done|by intros Hn|by exists c0|].
  destruct (kept_was_earned h parse_time l w0 Hcache Hplain u p ws c0 Hu Hws Hp H1 Hy) as (c1 & H2 & _ & Hpm). by exists c1.
Qed.

(** What the database of the service says for a request that a gate passes on. *)
Definition backed (g : gate_spec) (r : HTTPRequest) (c : Ctx) (r' : HTTPRequest) : Prop :=
  match g with
  | GRequirePermission true p => is_admin c \/ once_there (fun d => permitted d (UserID c) p ScopeWorkspace (WorkspaceID c))
  | GRequireDatasourceAccess true lv => is_admin c \/ exists ds, extracts r ds r' /\ once_there (reaches (UserID c) ds (level_or_read lv))
  | GRequireResolvedDatasourceAccess true lv resolve =>
      is_admin c \/ exists t ds, resolve t (URLParam r "id") = Ok ds /\ once_there (reaches (UserID c) ds (level_or_read lv))
  | _ => True
  end.
Fixpoint entitled (w : GateWorld) (gs : list gate_spec) (r : HTTPRequest) (c : Ctx) (r' : HTTPRequest) (c' : Ctx) : Prop :=
  match gs with
  | [] => r' = r /\ c' = c
  | g :: gs => exists r1 c1, admitted w g r c r1 c1 /\ backed g r c r1 /\ entitled w gs r1 c1 r' c'
  end.

Context (Hrange : forall t l, range t l ≡ₚ l)
  (Hjwt : forall t opts tok kf claims, Gate.ParseWithClaims t opts tok kf = Ok (claims, true) -> plain (cl_Subject claims) /\ plain (cl_WorkspaceID claims))
  (Hpat : forall s id, decode_identity s = Ok id -> plain (Gate.pat_UserID id) /\ plain (Gate.pat_WorkspaceID id)).
Context (Hservice : answered_by_service).

Lemma signed_plain w tok c : signed w tok c -> plain_ctx c.
Proof using Hjwt. intros (cfg & t & claims & _ & Hp & ->). exact (Hjwt _ _ _ _ _ Hp). Qed.
Lemma admitted_plain w g r c r' c' : plain_ctx c -> admitted w g r c r' c' -> plain_ctx c'.
Proof using Hjwt Hpat.
  intros Hc Ha. destruct g; cbn in Ha; try (by destruct Ha as (_ & -> & _)).
  - destruct Ha as [_ [[_ ->]|[_ Hs]]]; [done|by eapply signed_plain].
  - destruct Ha as [_ [[_ ->]|[(_ & _ & ->)|[(_ & _ & id & Hid & ->)|[_ Hs]]]]]; [done|split; [done|apply Hc]| |by eapply signed_plain].
    destruct Hid as (resp & _ & _ & Hd). exact (Hpat _ _ Hd).
  - destruct Ha as [_ [->|[_ Hs]]]; [done|by eapply signed_plain].
  - by destruct Ha as [-> _].
Qed.
Lemma told_service w c : sound w -> told w c decode_allowed true ->
  (forall u d lv, c = ds_call u d lv -> replies_yes (RInternalCheckDSAccess (Read (mkCheckDSAccess u d lv)))) /\
  (forall u p ws, c = perm_call u p "workspace" ws -> replies_yes (RInternalCheckPermission (Read (mkCheckPermission u p ScopeWorkspace ws "")))).
Proof using Hservice.
  intros Hw (resp & Hin & Hs & Hd). destruct (sound_calls _ Hw _ _ Hin) as [t Ht]. by eapply Hservice.
Qed.
Definition permissions_apart (g : gate_spec) : Prop := match g with GRequirePermission _ p => apart_from_grants p | _ => True end.
Lemma admitted_backed w g r c r' c' : sound w -> plain_ctx c -> permissions_apart g -> admitted w g r c r' c' -> backed g r c r'.
Proof using Hcache Hplain Hservice.
  intros Hw [Hu Hws] Hg Ha. destruct g as [| | | | |[] p|[] lv|[] lv resolve|]; cbn in *; try done.
  - destruct Ha as (_ & _ & Ha). destruct (Ha eq_refl) as [|[_ Ht]]; [by left|right]. apply yes_permission; [done..|].
    by apply (proj2 (told_service _ _ Hw Ht)).
  - destruct Ha as (_ & [[Hn _]|[[Ha _]|(_ & ds & _ & He & Ht)]]); [done|by left|right]. exists ds. split; [done|].
    by apply yes_access, (proj1 (told_service _ _ Hw Ht)).
  - destruct Ha as (_ & _ & Ha). destruct (Ha eq_refl) as [|(_ & _ & t & ds & Hr & Ht)]; [by left|right]. exists t, ds. split; [done|].
    by apply yes_access, (proj1 (told_service _ _ Hw Ht)).
Qed.
Lemma passes_entitled w gs r c r' c' : sound w -> plain_ctx c -> Forall permissions_apart gs -> passes w gs r c r' c' -> entitled w gs r c r' c'.
Proof using Hcache Hplain Hservice Hjwt Hpat.
  intros Hw Hc Hgs. revert r c Hc. induction Hgs as [|g gs Hg Hgs IH]; intros r c Hc; cbn; [done|]. intros (r1 & c1 & Ha & Hp).
  exists r1, c1. split; [done|]. split; [by eapply admitted_backed|]. apply IH; [by eapply admitted_plain|done].
Qed.

(** C6: Whoever gets through the gates of a route, in a run of any number of requests side by side, is
    entitled to it by the database of the authentication service: at some moment of the run of that
    service - in which its own requests interleave, administration included - the user had the
    permission in the workspace, or the level of access to the datasource that the request names,
    by name or as a member of a workspace; or is a super administrator.  The caches on both sides
    add nothing. *)
Theorem gates_backed reqs w c i route r r' c' : sound w -> Forall (fun x => Forall plain_spec x.1 /\ Forall permissions_apart x.1) reqs ->
  interleaves (w, serve_all reqs) c -> reqs !! i = Some (route, r) -> c.2 !! i = Some (Ret (Next r' c')) -> entitled c.1 route r no_identity r' c'.
Proof using Hcache Hplain Hservice Hrange Hjwt Hpat.
  intros Hw Hr Hi Hl Hv. destruct (admitted_after Hrange Hjwt Hpat reqs w c i route r r' c' Hw) as [Hs Hp]; [|done..|].
  - eapply Forall_impl; [exact Hr|]. by intros x [Hx _].
  - apply passes_entitled; [done|done| |done]. rewrite Forall_forall in Hr. by apply (Hr (route, r) (list_elem_of_lookup_2 _ _ _ Hl)).
Qed.
End Composition.

(** * Examples *)

(** The window of a list, for a page and a size that an [int] holds. *)
Lemma paginateSlice_spec {A} (p : PageParams) (items : list A) : - 2 ^ 63 <= Offset p < 2 ^ 63 -> PageSize p <= 2 ^ 31 -> Z.of_nat (length items) < 2 ^ 62 ->
  paginateSlice p items =
    let size := if PageSize p <=? 0 then 10 else PageSize p in
    if negb (Requested p) then Some (items, Z.of_nat (length items)) else
    if Offset p <? 0 then None else Some (take (Z.to_nat size) (drop (Z.to_nat (Offset p)) items), Z.of_nat (length items)).
Proof.
  intros Ho Hsz Hl. unfold paginateSlice. cbv zeta. destruct (Requested p); [|done]. cbn [negb].
  set (size := if PageSize p <=? 0 then 10 else PageSize p). assert (Hs : 0 < size <= 2 ^ 31) by (subst size; destruct (Z.leb_spec (PageSize p) 0); lia).
  destruct (Z.ltb_spec (Z.of_nat (length items)) (Offset p)) as [Hlt|Hge].
  { destruct (Z.ltb_spec (Offset p) 0) as [?|_]; [lia|]. by rewrite drop_ge, take_nil by lia. }
  rewrite wrap64_small by lia. destruct (Z.ltb_spec (Offset p) 0) as [Hneg|Hpos].
  - rewrite (proj2 (Z.leb_gt 0 (Offset p))) by done. done.
  - rewrite (proj2 (Z.leb_le 0 (Offset p))) by done.
    destruct (Z.ltb_spec (Z.of_nat (length items)) (Offset p + size)) as [Hend|Hend]; rewrite (proj2 (Z.leb_le _ _)) by lia; cbn [andb].
    + f_equal. f_equal. rewrite !take_ge; [done| |]; rewrite length_drop; lia.
    + f_equal. f_equal. f_equal. lia.
Qed.

Module Demo.
(** A clock that advances, nothing that fails. *)
#[global] Instance env : Env := {|
  time t := Z.of_nat t;
  db_fault _ := None; redis_fault _ := None; mail_fault _ := None;
  random _ _ := Ok "r"; Base64URL b := b; RawBase64URL b := b; Base32 b := b;
  new_id t i := "id-" +:+ Itoa (Z.of_nat t);
  sha256_hex b := b; sha256_prefix b := b; bcrypt_generate _ p := Ok p; bcrypt_compare := String.eqb;
  NFKC x := x; ParseAddress x := Ok ("", x); SplitHost _ := None; inet_ok _ := true;
|}.
Definition deps : RBACHandlerDeps := mkDeps false true ToLower None (Ok "pem") "biqly" "".
Definition no_time (s : string) : res Z := Err (EMsg "no time").
Definition user (id : string) : User := mkUser id (id +:+ "@x") None None None None true true 0 0 None None None None None None.
Definition empty_db : DB :=
  mkDB ∅ ∅ ∅ ∅ ∅ ∅ ∅ ∅ ∅ ∅ [] ∅ [] ∅ ∅ ∅ ∅ ∅ ∅ ∅ ∅ ∅ ∅ ∅ ∅ (Some true) None [].
(** Root is a super administrator; Eve may manage roles; Ann owns a workspace, runs queries there and reads ds1. *)
Definition db : DB :=
  let d := set_users {["root" := user "root"; "eve" := user "eve"; "ann" := user "ann"]} empty_db in
  let d := set_roles {["r1" := "super_admin"; "r2" := "steward"; "r3" := "analyst"; "r4" := "viewer"]} d in
  let d := set_permissions {["p1" := mkPermission "admin:roles" "admin" "roles"; "p2" := mkPermission "admin:users" "admin" "users";
    "p3" := mkPermission "query:execute" "query" "execute"; "p4" := mkPermission "admin:workspaces" "admin" "workspaces"]} d in
  let d := set_role_permissions {[("r2", "p1"); ("r3", "p3"); ("r3", "p4")]} d in
  let d := set_user_roles {[("root", "r1", ScopeGlobal, no_scope); ("eve", "r2", ScopeGlobal, no_scope)]} d in
  let d := set_workspaces {["w1" := mkWorkspace "w1" "Ann's" "anns" None false false false "ann" 0 0]} d in
  let d := set_members {[("w1", "ann") := mkMembership "r3" 0 None]} d in
  set_datasource_access {["a1" := mkAccess "a1" "ann" "ds1" "read" None 0]} d.
Definition world (d : DB) : World := mkWorld d ∅ [] (mkMemory ∅ ∅) 0.
Definition serve_one (rt : Route) (u : string) (d : DB) : DB * Reply := let '(w, r) := exec (serve deps no_time rt u) (world d) in (w_db w, r).
Definition code (r : Reply) : Z := match r with Replied c _ => c | Panicked => 0 end.
Definition of_query (kvs : list (string * string)) : Values := fun k => omap (fun kv => if String.eqb kv.1 k then Some kv.2 else None) kvs.

(** Who may manage roles cannot give the role of the administration away, but can add every permission to a role of their own. *)
Example own_role_grows :
  code (serve_one (RAdminAssignRole "ann" (Read (mkRoleBody "r2" None None))) "eve" db).2 = StatusForbidden /\
  code (serve_one (RAdminUpdateUser "ann" (Read false)) "eve" db).2 = StatusForbidden /\
  let '(d, r) := serve_one (RAdminSetRolePermissions "r2" (Read ["p1"; "p2"])) "eve" db in
  code r = StatusNoContent /\ code (serve_one (RAdminUpdateUser "ann" (Read false)) "eve" d).2 = StatusNoContent.
Proof. vm_compute. done. Qed.
(** Who may manage all workspaces changes only their own. *)
Example only_owners_update :
  code (serve_one (RUpdateWorkspace "w1" (Read (mkWorkspaceBody "ours" "" None None))) "root" db).2 = StatusForbidden /\
  code (serve_one (RUpdateWorkspace "w1" (Read (mkWorkspaceBody "ours" "" None None))) "ann" db).2 = StatusOK.
Proof. vm_compute. done. Qed.
(** A user with a password is shown with one in the list, and without one alone. *)
Definition with_password : DB := set_users {["ann" := set_u_PasswordHash (Some "hash") (user "ann"); "root" := user "root"]} db.
Example password_shown_in_list :
  match (serve_one (RAdminListUsers (of_query [("search", "ANN")])) "root" with_password).2, (serve_one (RAdminGetUser "ann") "root" with_password).2 with
  | Replied _ (CUsers [a] 1), Replied _ (CUser b) => (rs_HasPassword a, rs_HasPassword b) = (true, false) /\ rs_ID a = rs_ID b
  | _, _ => False
  end.
Proof. vm_compute. done. Qed.
(** A page so far away that the offset overflows. *)
Example far_page_panics :
  (serve_one (RListShares (of_query [("page", "1152921504606846978"); ("page_size", "8")])) "ann" db).2 = Panicked.
Proof. vm_compute. done. Qed.
(** Pages of the log larger than 1000 leave entries out, and so does the export. *)
Definition long_log : DB := set_audit_log (map (fun n => mkAudit None "x" None None None (Z.of_nat n)) (seq 0 1500)) db.
Definition shown (r : Reply) : Z :=
  match r with Replied _ (CAuditLog l _) => Z.of_nat (length l) | Replied _ (CAuditCSV l) => Z.of_nat (length l) | _ => 0 end.
Example log_pages_lose :
  let show q := shown (serve_one (RAdminListAuditLog (of_query q)) "root" long_log).2 in
  show [("page_size", "1200")] = 1000 /\ show [("page_size", "1200"); ("page", "2")] = 300 /\ show [("format", "csv")] = 1000.
Proof. vm_compute. done. Qed.

(** Eve gives Ann a role while Ann reads her workspace and an administrator takes Eve's role away. *)
Definition side_by_side : list (Route * string) :=
  [(RAdminAssignRole "ann" (Read (mkRoleBody "r4" None None)), "eve"); (RUpdateWorkspace "w1" (Read (mkWorkspaceBody "ours" "" None None)), "ann");
   (RAdminRemoveRole "eve" "r2", "root")].
Definition run : World * list (prog World Reply) :=
  follow (List.concat (repeat [0; 1; 2] 12))%nat (world db, requests deps no_time side_by_side).
Example run_replies : map (fun m => match m with Ret r => code r | _ => 0 end) run.2 = [StatusCreated; StatusOK; StatusNoContent].
Proof. vm_compute. done. Qed.

(** The service as the gates of [GateSafety.Demo] ask it. *)
Definition asked : list (Route * string) :=
  [(RInternalCheckDSAccess (Read (mkCheckDSAccess "ann" "ds1" "read")), ""); (RInternalCheckPermission (Read (mkCheckPermission "ann" "query:execute" ScopeWorkspace "w1" "")), "")].
Definition asked_run : World * list (prog World Reply) := follow (replicate 10 0 ++ replicate 10 1)%nat (world db, requests deps no_time asked).
Lemma service_answers : answered_by_service deps no_time asked (world db).
Proof.
  assert (Hi : interleaves (world db, requests deps no_time asked) asked_run) by apply follow_interleaves.
  intros t c resp Hd _ Hy. cbn in Hd. destruct (String.eqb (c_Path c) _); [injection Hd as <-; discriminate Hy|].
  destruct (String.eqb (c_Path c) _); [injection Hd as <-; discriminate Hy|]. injection Hd as <-. cbn in Hy.
  destruct (bool_decide _) eqn:Hin; [|discriminate Hy]. apply bool_decide_eq_true in Hin. split.
  - intros u d lv ->. unfold GateSafety.Demo.allowed_calls in Hin. set_unfold in Hin. destruct Hin as [[=]|[[= -> -> ->]|[]]].
    exists 0%nat, "", asked_run. split; [done|]. split; [exact Hi|]. vm_compute. reflexivity.
  - intros u p ws ->. unfold GateSafety.Demo.allowed_calls in Hin. set_unfold in Hin. destruct Hin as [[= -> -> ->]|[[=]|[]]].
    exists 1%nat, "", asked_run. split; [done|]. split; [exact Hi|]. vm_compute. reflexivity.
Qed.
End Demo.
Import Demo.

Lemma administration_authorised_witness :
  (forall c', step_of 1 run c' -> ~ tables_kept (w_db run.1) (w_db c'.1) ->
     only_reads (RUpdateWorkspace "w1" (Read (mkWorkspaceBody "ours" "" None None))) = false /\
     Forall (fun cond => held (world db, requests deps no_time side_by_side) (fun w => holds "ann" cond (w_db w)) run)
       (authority deps (RUpdateWorkspace "w1" (Read (mkWorkspaceBody "ours" "" None None))) "ann")) /\
  (forall code content, run.2 !! 1%nat = Some (Ret (Replied code content)) -> code < 400 ->
     Forall (fun cond => held (world db, requests deps no_time side_by_side) (fun w => holds "ann" cond (w_db w)) run)
       (authority deps (RUpdateWorkspace "w1" (Read (mkWorkspaceBody "ours" "" None None))) "ann")).
Proof.
  apply (administration_authorised deps no_time side_by_side (world db)).
  - reflexivity.
  - repeat constructor.
  - apply follow_interleaves.
  - reflexivity.
Defined.
Lemma gates_backed_witness :
  entitled deps no_time asked (world db) GateSafety.Demo.served.1 GateSafety.Demo.route (GateSafety.Demo.asks "GET" "ann" "ds1" None) no_identity
    (GateSafety.Demo.asks "GET" "ann" "ds1" None) (mkCtx "ann" "" [] "w1" [] true).
Proof.
  apply (gates_backed deps no_time asked (world db)) with (w := GateSafety.Demo.empty_world) (reqs := GateSafety.Demo.three) (i := 0%nat).
  - reflexivity.
  - repeat constructor.
  - exact GateSafety.Demo.range_ok.
  - exact GateSafety.Demo.jwt_ok.
  - exact GateSafety.Demo.pat_ok.
  - exact service_answers.
  - exact GateSafety.Demo.empty_sound.
  - repeat constructor; intros ws sid He; discriminate He.
  - apply follow_interleaves.
  - reflexivity.
  - vm_compute. reflexivity.
Defined.
